(* ===== verification/_CoqProject ===== *)
-Q . S2P
Prelude.v
GoStrings.v
Sha256.v
Errors.v
Validation.v
Samples.v
Issue.v
Relation.v
Session.v
IssueOps.v
Discussion.v
Plan.v
Resource.v
Attempt.v
AttemptPolicy.v
Gates.v
Store.v
Timestamps.v
Schema.v
ReservationStore.v
GateStore.v
ReviewStore.v
Termination.v
ReviewOps.v
AttemptStore.v
Footprint.v
RelationStore.v
IssueStore.v
PolicyStore.v
EvidenceStore.v
DiscussionStore.v
SessionStore.v
PlanStore.v
PlanCheck.v
PlanApply.v
Place.v
Lifecycle.v
Scenario.v
Records.v
Board.v
Planning.v
Locks.v
Guarantees.v
Finishing.v
Contracts.v
Orders.v
Encoding.v
Pagination.v
IssueList.v
Listings.v
Graph.v
GraphStore.v
Interchange.v
ImportCheck.v
ImportClosed.v
ImportPlan.v
ImportDestination.v
ImportEvents.v
ImportApply.v
ImportStored.v
ReadBack.v
ExportRows.v
ImportGuarantees.v
