(* ===== verification/Prelude.v ===== *)
(** * Rhizome: a verification library for the rhizome-mcp task tracker

    rhizome-mcp (src/, Go) keeps the issues of a project in an SQLite file and
    serves them to coding agents: an agent claims an issue under a lease,
    reserves the files it will touch, submits evidence, finishes, and has its
    work reviewed.  This library models the program's core, from the validation
    of requests to the write transactions on the tables, and proves what the
    program promises over every interleaving of its clients.

    ** How the program is modelled

    - Requests and rules ([internal/domain]) are pure functions: a Go function
      returning [(T, error)] is a function into [result T], whose [Err] carries
      the domain error with its code, message, sorted details and cause.
    - The database ([internal/adapters/sqlite]) is one record [Store.Store]: a
      finite map per table with a primary key, a list per append-only table.
      The CHECK constraints, foreign keys and unique indexes of
      [internal/migrations/sql] are boolean tests ([*_constraint], [*Clash])
      that [Insert] and [Update] make; a violation is the error
      [TranslateError] gives.  A JSON column holds the value it encodes; a
      recorded response is read back as its JSON decodes ([Store.responseReadBack]:
      the metadata of artifacts changes on the way).
    - A write transaction is a function from the store to a result and a store
      ([Store.Tx]); [Store.Write] ([DB.Write]) commits or rolls back.  A command
      handler of a repository is validation followed by one [Write], with its
      early returns, its idempotency record and its events.
    - Clients interleave whole transactions, as BEGIN IMMEDIATE serializes
      them: [Lifecycle.step] relates two stores when one operation with any
      arguments, or the entropy source, leads from one to the other, and
      [Lifecycle.reachable] are the stores a new database can get to.  All
      operations of the repositories are steps.  The one that nothing in the
      program calls, [ReservationRepository.AcquireReservations], does not check
      the attempt it is given but leaves that to its callers
      (ports/reservations.go): it is a step when they keep that contract
      ([Lifecycle.contract_kept]) or when the attempt is one they misuse (the
      class [Termination.Misused], any set of attempts); what is promised of the
      owners of reservations is promised of the other attempts, all else of all.

    ** Files

    - Foundations: [Prelude] (results, the [result] monad, sorting, string
      order), [GoStrings] (UTF-8, [strings], [strconv], [%q]), [Sha256]
      (executable SHA-256), [Samples] (instances for examples).
    - Domain ([internal/domain]): [Errors] (errors.go), [Validation]
      (validation.go, vocabulary.go, ULIDs), [Issue] (issue.go, label.go,
      issue_identifier.go), [IssueOps] (issue_create.go, issue_patch.go),
      [Relation], [Session], [Discussion] (comment.go, decision.go), [Plan]
      (issue_plan.go), [Resource] (reservation*.go), [Attempt] (attempt.go, artifact.go), [AttemptPolicy]
      (attempt_policy.go), [Gates] (workflow_policy.go, workflow_gate.go,
      gate_evidence.go).
    - Store: [Store] (rows, tables, constraints, transactions, events,
      idempotency, shared queries), [Timestamps] (timestamps.go), [Schema] (the
      schema holds in every store the operations produce; the logic of
      transactions).
    - Repositories ([internal/adapters/sqlite]): [ReservationStore]
      (reservations.go), [GateStore] (gate_enforcement.go), [ReviewStore] and
      [ReviewOps] (reviews.go), [Termination] (ending, expiring and
      authenticating attempts, the lifecycle invariant), [AttemptStore]
      (attempts.go), [RelationStore], [IssueStore] (issues.go, labels.go),
      [PolicyStore] (workflow_policy.go), [EvidenceStore] (gate_evidence.go),
      [DiscussionStore] (comments.go, decisions.go), [SessionStore], [PlanStore]
      (planning.go) with [PlanCheck] and [PlanApply] (what the validation of a
      plan establishes, what its application writes).
    - Listings: [Encoding] (the parts of encoding/json and encoding/base64 that
      cursors use), [Pagination] (internal/pagination/cursor.go; pages and the
      client that follows them), [IssueList] (issue_list.go of domain and
      sqlite), [Listings] (labels, decisions, policies, reservations, review
      requests, active attempts).
    - Graphs: [Orders] (comparison functions as weak orders), [Graph]
      (domain/graph.go), [GraphStore] (sqlite/graphs.go, graph_service.go).
    - Interchange: [Interchange] (domain/logical_project_export.go: the records of
      an exported project, their decoding by encoding/json, the extension
      namespaces), [ImportCheck] (the semantic pass of
      domain/logical_project_import.go) and [ImportClosed] (what each of its
      checks establishes), [ImportPlan] (the structural pass, the plan,
      destination identifiers, the import half of project_service.go),
      [ImportDestination] (the theorems about accepted documents, examples),
      [ImportEvents] (logical_project_cursors.go, logical_project_payloads.go:
      positions and payloads of replayed events), [ImportApply] (the transaction
      of [ApplyLogicalProjectImport] in sqlite/projects.go: the rows it binds,
      statement by statement, on a connection with BEGIN, COMMIT and ROLLBACK),
      [ImportStored] (what each group of insertions stores), [ReadBack] (stored
      timestamps and JSON lists read back), [ExportRows] (the readers of an
      export, row by row, and what they get of an imported document),
      [ImportGuarantees] (what an import promises).
    - The system: [Footprint] (the interface [LogClosed]/[WorkClosed] of what an
      operation writes, against which frame conditions are proved once),
      [Lifecycle] (steps and reachability, [ensureProjectRow] of
      internal/runtime), [Scenario] (a concrete run the witnesses evaluate).
    - Guarantees: [Locks] (refinement of an abstract lock service), [Place] and
      [Board] (epics, numbering, creation), [Planning] (what a plan stores),
      [Records] (relations, policies, evidence,
      decisions, sessions), [Guarantees], [Finishing] and [Contracts] (the
      operations on attempts, reservations and reviews; atomicity; retries).

    ** Theorems

    - Refinement: every interleaving is a run of the lock service
      ([Locks.refines_lock_service]).
    - Invariants of all reachable stores: exclusive reservations and attempts,
      the board, acyclic blocks relations, complete audit logs, chains of
      decisions, trustworthy evidence, sessions, numbers given out once.
    - Functional behaviour, errors included: creation, plans, relation mutations,
      acquisition, renewal, the expiry sweep, finishing and its gates, reviews,
      cancellation.
    - Errors write nothing ([Contracts.errors_are_atomic]); a repeated request
      writes nothing and answers what was recorded ([Contracts.retries_are_safe]).
    - Equivalences with reference definitions: overlap of resources is a common
      point; the one-pass computation of approvals; the recursive SQL query and
      the breadth-first search; text order of timestamps and order of instants;
      listings followed page by page and the sorted rows that match; the graph of
      the candidates of a root and the graph of the whole board.
    - Graphs: the traversal is breadth first ([Graph.issue_graph_exact]) and its
      answer a part of the snapshot within the budget ([Graph.BuildGraph_sound]).
    - Import of whole projects: an accepted document is closed under its
      references ([ImportDestination.import_plan_closed]), version 1 is frozen
      ([version_1_is_frozen]), records are renamed one to one
      ([destination_ids_assigned]); an import writes nothing or the whole
      document, as the readers of an export see it field by field
      ([ImportGuarantees.import_all_or_nothing]), leaves no dangling reference and
      no shared primary key ([import_is_referential]), and keeps the order of
      events and what every cursor has seen ([import_positions_kept]).
    - Validation: shapes and normal forms of accepted requests, round trips of
      spellings, references and cursors, the status machine, gate evaluation.

    ** Fuel and bounds

    These loops need fuel: [AttemptPolicy.BlocksPathExists] (one step per node
    reached; the number of nodes is enough, [BlocksPathExists_correct]; the
    validation of plans runs it on the targets of the batch graph,
    [PlanCheck.batchPathExists_spec]), [RelationStore.recursiveRows] (one step
    per row of the recursive query; the number of relations is enough, proved
    by [blocksPathExists_spec]) and [Plan.itoaLoop] (one step per digit; the
    binary length is enough, [itoa_Itoa]).  The JSON parser of [Encoding] has
    one step per byte ([json_parse_print] shows that it is enough for what is
    printed), and [Pagination.follow] one per page; the number of rows is enough.
    [Graph.drain] has one step per node ([Graph.drain_empties]).
    [Interchange.object_members] and [array_elements] cut a value into the texts
    of its members with one step per byte ([object_members_total] and
    [array_elements_total]: enough for every value that parses); the search for cycles
    of an import has one round per relation and one more
    ([validateBlocksAcyclicity_Ok]); the binary search of a cursor has one step
    per element of the interval ([ImportEvents.search_between_spec]).
    SHA-256 runs one step per word.  Integers are unbounded where the source
    cannot overflow in practice (versions, counters); parsing is bounded as in
    the source ([ParseUint] with 63 bits), bytes and SHA words are masked.

    ** Parameters

    Foreign code is a class of its own, instantiated in [Samples]: [ULID]
    (oklog/ulid; [ULIDLaws] states that it accepts 26 characters of Crockford's
    base 32 and renders canonically), [UnicodeTables] ([unicode.IsPrint]), [JSONCodec]
    ([json.Compact] and the duplicate-key decoder), [URLParser] ([url.Parse]),
    [SnapshotHash] (the fingerprint of a gate snapshot), [SQLiteDriver] (the
    text of driver errors), [SQLiteEngine] (which statements and commits of an
    import the engine refuses: any; and what a transaction cut short had done), [SliceSort]
    ([sort.Slice] of an import, which need not be stable), [TimeErrors] (the text of [time.ParseError]), [JSONErrors] (the text of a decoding error),
    [UnicodeCase] ([strings.ToLower] beyond ASCII), [MapIteration] (the order in which Go ranges over a
    map).  The identifiers drawn from crypto/rand inside
    transactions are the list [st_entropy], which [step_entropy] sets freely.

    ** Not modelled

    SQLITE_BUSY retries and driver failures other than constraints; reads that
    span several snapshots; the work context and the gate diagnostics (read
    models of rows modelled here, trimmed to a size); the activity feed and
    search (the FTS5 index and its ranking are SQLite's); which rows an export
    selects, the review events it reads from the log, and how it renders the
    document (projects.go); the application services other than those of reservations,
    graphs and imports (identifiers, request hashes); migrations, files,
    configuration, routing, the command line and the MCP transport (I/O).
    [Lifecycle.step] covers all operations of the repositories above and not
    the import of a whole project ([ImportApply] has tables of SQL columns of its
    own, into which an import writes a project that has no content yet), the one-off maintenance of
    timestamps (issue_timestamp_maintenance.go) or the rebuild of the search
    index, so the invariants speak of databases that those have not written.  JSON [null] metadata of
    artifacts is left out of [JSONCodec]. *)

From stdpp Require Export base tactics option list gmap sets strings pretty sorting relations.
From Stdlib Require Export Ascii ZArith Lia.

#[export] Set Default Goal Selector "!".

(** ** Errors: [domain.Error] values as the error side of a [result].

    [internal/domain/errors.go]: [Detail] and [Error].  The wrapped cause of
    [WrapError] is kept as the (foreign) error's message. *)
Record Detail := mkDetail {
  d_EntityIndex : option Z;
  d_Field : string;
  d_Code : string;
  d_Message : string;
}.

Record DomainError := mkError {
  e_Code : string;
  e_Message : string;
  e_Details : list Detail;
  e_Retryable : bool;
  e_cause : option string;
}.

#[export] Instance Detail_eq_dec : EqDecision Detail.
Proof. solve_decision. Defined.
#[export] Instance DomainError_eq_dec : EqDecision DomainError.
Proof. solve_decision. Defined.

(** A Go function returning [(A, error)]: a value or a domain error. *)
Inductive result (A : Type) : Type :=
  | Ok (a : A)
  | Err (e : DomainError).
Arguments Ok {A} a.
Arguments Err {A} e.

#[export] Instance result_ret : MRet result := @Ok.
#[export] Instance result_bind : MBind result := λ A B f m,
  match m with Ok a => f a | Err e => Err e end.
#[export] Instance result_fmap : FMap result := λ A B f m,
  match m with Ok a => Ok (f a) | Err e => Err e end.
#[export] Instance result_eq_dec `{EqDecision A} : EqDecision (result A).
Proof. solve_decision. Defined.

Definition is_ok {A} (r : result A) : bool :=
  match r with Ok _ => true | Err _ => false end.

(** [len(l) == 0]. *)
Definition null {A} (l : list A) : bool := match l with [] => true | _ => false end.
Lemma null_true {A} (l : list A) : null l = true ↔ l = [].
Proof. by destruct l. Qed.

(** [v != nil]. *)
Definition isSet {A} (v : option A) : bool := match v with Some _ => true | None => false end.
Lemma isSet_false {A} (v : option A) : isSet v = false ↔ v = None.
Proof. by destruct v. Qed.
Lemma isSet_true {A} (v : option A) : isSet v = true ↔ is_Some v.
Proof. destruct v; naive_solver. Qed.

Definition to_option {A} (r : result A) : option A :=
  match r with Ok a => Some a | Err _ => None end.

Declare Scope go_scope.
Delimit Scope go_scope with go.

(** [if b { return err }] followed by the rest of the function. *)
Notation "'fail_if' b 'with' e ';;' k" := (if b then Err e else k)
  (at level 10, b at level 99, e at level 99, k at level 200) : go_scope.

(** [if err := r; err != nil { return err }] followed by the rest. *)
Notation "'try' r ';;' k" := (match r with Ok _ => k | Err e => Err e end)
  (at level 10, r at level 99, k at level 200) : go_scope.

#[global] Open Scope go_scope.

Section result_lemmas.
  Context {A B : Type}.

Lemma result_bind_Ok (m : result A) (f : A → result B) b :
    m ≫= f = Ok b ↔ ∃ a, m = Ok a ∧ f a = Ok b.
  Proof. destruct m; cbn; naive_solver. Qed.

Lemma result_bind_Err (m : result A) (f : A → result B) e :
    m ≫= f = Err e ↔ m = Err e ∨ ∃ a, m = Ok a ∧ f a = Err e.
  Proof. destruct m; cbn; naive_solver. Qed.

Lemma fail_if_Ok (b : bool) e (k : result A) a :
    (fail_if b with e ;; k) = Ok a ↔ b = false ∧ k = Ok a.
  Proof. destruct b; naive_solver. Qed.

Lemma try_Ok (r : result A) (k : result B) b :
    (try r ;; k) = Ok b ↔ (∃ a, r = Ok a) ∧ k = Ok b.
  Proof. destruct r; naive_solver. Qed.

Lemma is_ok_true (r : result A) : is_ok r = true ↔ ∃ a, r = Ok a.
  Proof. destruct r; naive_solver. Qed.
End result_lemmas.

(** [range] loops whose body may return an error. *)
Fixpoint each {A} (f : A → result unit) (l : list A) : result unit :=
  match l with
  | [] => Ok tt
  | x :: l => try f x ;; each f l
  end.

Lemma each_Ok {A} (f : A → result unit) l :
  each f l = Ok tt ↔ Forall (λ x, is_ok (f x) = true) l.
Proof.
  induction l as [|x l IH]; cbn; [by split|].
  rewrite Forall_cons, <-IH. destruct (f x); naive_solver.
Qed.

Fixpoint collect {A B} (f : A → result B) (l : list A) : result (list B) :=
  match l with
  | [] => Ok []
  | x :: l => y ← f x; ys ← collect f l; Ok (y :: ys)
  end.

Lemma collect_Ok {A B} (f : A → result B) l ys :
  collect f l = Ok ys ↔ Forall2 (λ x y, f x = Ok y) l ys.
Proof.
  revert ys. induction l as [|x l IH]; intros ys; cbn.
  { split; [intros [= <-]; constructor | by inversion 1]. }
  rewrite result_bind_Ok. setoid_rewrite result_bind_Ok. split.
  - intros (y & Hy & ys' & Hys & [= <-]). constructor; [done|by apply IH].
  - inversion 1; subst. eexists; split; [done|]. eexists. by rewrite IH.
Qed.

(** ** Automation *)

(** Invert a successful run of a [result] computation, one early return at a
    time. *)
Ltac inv_ok :=
  repeat match goal with
  | H : Ok _ = Ok _ |- _ => injection H as H; subst
  | H : Err _ = Ok _ |- _ => discriminate H
  | H : Ok _ = Err _ |- _ => discriminate H
  | H : (_ ≫= _) = Ok _ |- _ =>
      apply result_bind_Ok in H; let a := fresh "a" in
      destruct H as (a & ? & H); cbn beta in H
  | H : (if ?b then Err _ else _) = Ok _ |- _ =>
      apply fail_if_Ok in H; destruct H as [? H]
  | H : match ?r with Ok _ => _ | Err _ => Err _ end = Ok _ |- _ =>
      let E := fresh "E" in destruct r eqn:E; [|discriminate H]
  end.

(** Boolean facts as propositions. *)
Ltac bool_simpl :=
  repeat match goal with
  | H : (_ && _)%bool = true |- _ => apply andb_true_iff in H; destruct H
  | H : (_ || _)%bool = false |- _ => apply orb_false_iff in H; destruct H
  | H : negb _ = true |- _ => apply negb_true_iff in H
  | H : negb _ = false |- _ => apply negb_false_iff in H
  | H : bool_decide _ = true |- _ => apply bool_decide_eq_true in H
  | H : bool_decide _ = false |- _ => apply bool_decide_eq_false in H
  | H : (_ <? _)%Z = true |- _ => apply Z.ltb_lt in H
  | H : (_ <? _)%Z = false |- _ => apply Z.ltb_ge in H
  | H : (_ <=? _)%Z = true |- _ => apply Z.leb_le in H
  | H : (_ <=? _)%Z = false |- _ => apply Z.leb_gt in H
  | H : (_ =? _)%Z = true |- _ => apply Z.eqb_eq in H
  | H : (_ =? _)%Z = false |- _ => apply Z.eqb_neq in H
  end.

(** String equality tests, as the Go source writes them. *)
Infix "=s" := String.eqb (at level 70, no associativity) : go_scope.

Lemma eqb_string_true (s t : string) : (s =s t) = true ↔ s = t.
Proof. apply String.eqb_eq. Qed.
Lemma eqb_string_false (s t : string) : (s =s t) = false ↔ s ≠ t.
Proof. apply String.eqb_neq. Qed.
Lemma eqb_string_refl (s : string) : (s =s s) = true.
Proof. by apply String.eqb_eq. Qed.

(** [sort.SliceStable] / [sort.Slice] / [slices.SortFunc]: insertion sort by a
    strict "less" test.  It is stable: elements that compare equal keep their
    order. *)
Section stable_sort.
  Context {A : Type} (less : A → A → bool).

Fixpoint insert_before (x : A) (l : list A) : list A :=
    match l with
    | [] => [x]
    | y :: l' => if less y x then y :: insert_before x l' else x :: y :: l'
    end.

Definition stable_sort (l : list A) : list A := foldr insert_before [] l.

Lemma insert_before_Permutation x l : insert_before x l ≡ₚ x :: l.
  Proof.
    induction l as [|y l IH]; cbn; [done|]. destruct (less y x); [|done].
    rewrite IH. constructor.
  Qed.

Lemma stable_sort_Permutation l : stable_sort l ≡ₚ l.
  Proof.
    induction l as [|x l IH]; cbn; [done|].
    by rewrite insert_before_Permutation, IH.
  Qed.

Lemma elem_of_stable_sort x l : x ∈ stable_sort l ↔ x ∈ l.
  Proof. by rewrite stable_sort_Permutation. Qed.

Definition not_less (x y : A) : Prop := less y x = false.

  Hypothesis less_asym : ∀ x y, less x y = true → less y x = false.
  Hypothesis not_less_trans : ∀ x y z, not_less x y → not_less y z → not_less x z.

Lemma insert_before_sorted x l :
    StronglySorted not_less l → StronglySorted not_less (insert_before x l).
  Proof.
    induction 1 as [|y l Hs IH Hy]; cbn; [repeat constructor|].
    destruct (less y x) eqn:E.
    - constructor; [done|]. rewrite insert_before_Permutation.
      constructor; [|done]. by apply less_asym.
    - constructor; [by constructor|]. constructor; [done|].
      eapply Forall_impl; [exact Hy|]. intros z Hz. by eapply not_less_trans.
  Qed.

Lemma stable_sort_sorted l : StronglySorted not_less (stable_sort l).
  Proof.
    induction l; cbn; [constructor|]. by apply insert_before_sorted.
  Qed.

  (** Stability: the elements of one class of a test that [less] never
      separates keep their relative order. *)
Lemma insert_before_filter (p : A → bool) x l :
    (∀ y, p x = true → p y = true → less y x = false) →
    filter p (insert_before x l) = filter p (x :: l).
  Proof.
    intros Hp. induction l as [|y l IH]; [done|].
    change (insert_before x (y :: l)) with
      (if less y x then y :: insert_before x l else x :: y :: l).
    destruct (less y x) eqn:E; [|done].
    rewrite filter_cons, IH, !filter_cons.
    destruct (decide (p x)) as [Hx|Hx], (decide (p y)) as [Hy|Hy]; try done.
    apply Is_true_true in Hx, Hy. rewrite Hp in E; done.
  Qed.

Lemma stable_sort_filter (p : A → bool) l :
    (∀ x y, p x = true → p y = true → less y x = false) →
    filter p (stable_sort l) = filter p l.
  Proof.
    intros Hp. induction l as [|x l IH]; [done|].
    change (stable_sort (x :: l)) with (insert_before x (stable_sort l)).
    rewrite insert_before_filter by eauto.
    rewrite !filter_cons. by rewrite IH.
  Qed.
End stable_sort.

Lemma stable_sort_cons {A} (less : A → A → bool) x l :
  stable_sort less (x :: l) = insert_before less x (stable_sort less l).
Proof. done. Qed.
#[global] Arguments stable_sort {A} less l : simpl never.

(** Sorting commutes with a map that carries the order. *)
Lemma insert_before_map {A B} (f : A → B) less less' x l :
  (∀ y, y ∈ l → less' (f y) (f x) = less y x) →
  map f (insert_before less x l) = insert_before less' (f x) (map f l).
Proof.
  induction l as [|y l IH]; intros Hf; [done|]. cbn.
  rewrite Hf by left. destruct (less y x); [|done]. cbn.
  rewrite IH; [done|]. intros z Hz. apply Hf. by right.
Qed.

Lemma stable_sort_map {A B} (f : A → B) less less' l :
  (∀ x y, x ∈ l → y ∈ l → less' (f y) (f x) = less y x) →
  map f (stable_sort less l) = stable_sort less' (map f l).
Proof.
  induction l as [|x l IH]; intros Hf; [done|].
  cbn [map]. rewrite !stable_sort_cons, <-IH.
  - apply insert_before_map. intros y Hy. rewrite elem_of_stable_sort in Hy.
    apply Hf; [left|by right].
  - intros a b Ha Hb. apply Hf; by right.
Qed.

(** Byte-wise string order, as Go's [<] on strings. *)
Definition str_less (s t : string) : bool :=
  match String.compare s t with Lt => true | _ => false end.

Lemma str_less_irrefl s : str_less s s = false.
Proof.
  unfold str_less. pose proof (String.compare_antisym s s) as H.
  by destruct (String.compare s s).
Qed.

Lemma str_less_asym s t : str_less s t = true → str_less t s = false.
Proof.
  unfold str_less. rewrite (String.compare_antisym t s).
  by destruct (String.compare s t).
Qed.

Lemma str_less_total s t : str_less s t = false → str_less t s = false → s = t.
Proof.
  unfold str_less. rewrite (String.compare_antisym t s).
  destruct (String.compare s t) eqn:E; try done.
  intros _ _. by apply String.compare_eq_iff.
Qed.

Lemma not_less_str_le s t : not_less str_less s t ↔ String.le s t.
Proof.
  unfold not_less, str_less, String.le, String.leb.
  rewrite (String.compare_antisym t s). by destruct (String.compare s t).
Qed.

Lemma not_less_str_trans x y z :
  not_less str_less x y → not_less str_less y z → not_less str_less x z.
Proof. rewrite !not_less_str_le. intros. by etrans. Qed.

Lemma str_less_trans x y z :
  str_less x y = true → str_less y z = true → str_less x z = true.
Proof.
  intros H1 H2. destruct (str_less x z) eqn:E; [done|].
  assert (Hzx : not_less str_less z x) by exact E.
  assert (Hxy : not_less str_less x y) by (by apply str_less_asym).
  pose proof (not_less_str_trans _ _ _ Hzx Hxy) as Hzy. 
  unfold not_less in Hzy. congruence.
Qed.

(** [sort.Strings]. *)
Definition sort_Strings (l : list string) : list string := stable_sort str_less l.

Lemma sort_Strings_Permutation l : sort_Strings l ≡ₚ l.
Proof. apply stable_sort_Permutation. Qed.

Lemma sort_Strings_sorted l : StronglySorted (not_less str_less) (sort_Strings l).
Proof. apply stable_sort_sorted; eauto using str_less_asym, not_less_str_trans. Qed.

Create HintDb go.
#[export] Hint Resolve str_less_asym not_less_str_trans : go.
#[export] Hint Rewrite @eqb_string_refl @elem_of_stable_sort : go.

(** Order-preserving loop over an indexed list: Go's [for i, x := range l]. *)
Definition enumerate {A} (l : list A) : list (Z * A) :=
  imap (λ i x, (Z.of_nat i, x)) l.

(** A list has at most as many distinct elements as entries. *)
Lemma size_list_to_set_le `{Countable A} (l : list A) : size (list_to_set l : gset A) ≤ length l.
Proof.
  induction l as [|x l IH]; cbn; [by rewrite size_empty|].
  rewrite size_union_alt, size_singleton.
  assert (size (list_to_set l ∖ {[x]} : gset A) ≤ size (list_to_set l : gset A)) by (apply subseteq_size; set_solver).
  lia.
Qed.

Lemma tc_mono {A} (R R' : relation A) x y : (∀ x y, R x y → R' x y) → tc R x y → tc R' x y.
Proof. intros Hsub. by apply (tc_congruence id). Qed.

Lemma elem_of_filter_list {A} (f : A → bool) x l : x ∈ List.filter f l ↔ x ∈ l ∧ f x = true.
Proof. by rewrite list_elem_of_In, filter_In, <-list_elem_of_In. Qed.
