(* ===== verification/GoStrings.v ===== *)
(** * Go strings

    The parts of Go's [strings], [unicode/utf8], [strconv] and [fmt] packages
    that the modelled source uses.  A Go string is a byte sequence, here
    stdpp's [string]; nothing assumes that it is valid UTF-8.  The Unicode
    table behind [strconv.Quote]'s printable test is data of Go's runtime and
    enters as the class [UnicodeTables]; it is used for error texts only. *)

From S2P Require Import Prelude.

Definition bytes (s : string) : list ascii := String.list_ascii_of_string s.
Definition of_bytes (l : list ascii) : string := String.string_of_list_ascii l.

Lemma of_bytes_bytes s : of_bytes (bytes s) = s.
Proof. apply String.string_of_list_ascii_of_string. Qed.
Lemma bytes_of_bytes l : bytes (of_bytes l) = l.
Proof. apply String.list_ascii_of_string_of_list_ascii. Qed.

Definition byte_val (c : ascii) : Z := Z.of_N (Ascii.N_of_ascii c).
Definition byte_of (n : Z) : ascii := Ascii.ascii_of_N (Z.to_N n).
Definition in_range (lo hi : Z) (c : ascii) : bool :=
  (lo <=? byte_val c)%Z && (byte_val c <=? hi)%Z.

Definition is_char (n : Z) (c : ascii) : bool := (byte_val c =? n)%Z.

(** ** UTF-8 *)

(** One step of [utf8.DecodeRune]: a well-formed rune with its encoding, or a
    byte that starts none (Go reads it as [RuneError] of width 1). *)
Inductive rune := Rune (code : Z) (enc : list ascii) | BadByte (b : ascii).

Definition cont := in_range 128 191.
Definition second_of_three (b0 b1 : ascii) : bool :=
  (in_range 224 224 b0 && in_range 160 191 b1) ||
  ((in_range 225 236 b0 || in_range 238 239 b0) && cont b1) ||
  (in_range 237 237 b0 && in_range 128 159 b1).
Definition second_of_four (b0 b1 : ascii) : bool :=
  (in_range 240 240 b0 && in_range 144 191 b1) ||
  (in_range 241 243 b0 && cont b1) ||
  (in_range 244 244 b0 && in_range 128 143 b1).

Definition low6 (c : ascii) : Z := Z.land (byte_val c) 63.

Fixpoint utf8_decode (s : list ascii) : list rune :=
  match s with
  | [] => []
  | b0 :: s1 =>
    if (byte_val b0 <? 128)%Z then Rune (byte_val b0) [b0] :: utf8_decode s1 else
    match s1 with
    | [] => BadByte b0 :: utf8_decode s1
    | b1 :: s2 =>
      if in_range 194 223 b0 && cont b1 then
        Rune (Z.lor (Z.shiftl (Z.land (byte_val b0) 31) 6) (low6 b1)) [b0; b1]
          :: utf8_decode s2
      else
      match s2 with
      | [] => BadByte b0 :: utf8_decode s1
      | b2 :: s3 =>
        if second_of_three b0 b1 && cont b2 then
          Rune (Z.lor (Z.shiftl (Z.land (byte_val b0) 15) 12)
                 (Z.lor (Z.shiftl (low6 b1) 6) (low6 b2))) [b0; b1; b2]
            :: utf8_decode s3
        else
        match s3 with
        | [] => BadByte b0 :: utf8_decode s1
        | b3 :: s4 =>
          if second_of_four b0 b1 && cont b2 && cont b3 then
            Rune (Z.lor (Z.shiftl (Z.land (byte_val b0) 7) 18)
                   (Z.lor (Z.shiftl (low6 b1) 12)
                     (Z.lor (Z.shiftl (low6 b2) 6) (low6 b3)))) [b0; b1; b2; b3]
              :: utf8_decode s4
          else BadByte b0 :: utf8_decode s1
        end
      end
    end
  end.

Definition rune_ok (r : rune) : bool := match r with Rune _ _ => true | BadByte _ => false end.

(** [utf8.ValidString] and [utf8.RuneCountInString]. *)
Definition ValidString (s : string) : bool := forallb rune_ok (utf8_decode (bytes s)).
Definition RuneCountInString (s : string) : Z := Z.of_nat (length (utf8_decode (bytes s))).

(** ** Byte tests *)

Fixpoint str_exists (p : ascii → bool) (s : string) : bool :=
  match s with
  | EmptyString => false
  | String c s => p c || str_exists p s
  end.
Fixpoint str_map (f : ascii → ascii) (s : string) : string :=
  match s with
  | EmptyString => EmptyString
  | String c s => String (f c) (str_map f s)
  end.

(** [strings.IndexByte(s, b) >= 0], and [strings.ContainsRune] and
    [strings.ContainsAny] for ASCII runes. *)
Definition contains_byte (c : ascii) : string → bool := str_exists (Ascii.eqb c).
Definition ContainsAny (s chars : string) : bool :=
  str_exists (λ c, contains_byte c chars) s.
Definition HasPrefix (s prefix : string) : bool := String.prefix prefix s.

Definition is_upper : ascii → bool := in_range 65 90.
Definition is_lower : ascii → bool := in_range 97 122.
Definition is_digit : ascii → bool := in_range 48 57.
Definition lower_byte (c : ascii) : ascii :=
  if is_upper c then byte_of (byte_val c + 32) else c.

(** [len] of a Go string: its byte length. *)
Definition len (s : string) : Z := Z.of_nat (String.length s).

(** ** [strings.TrimSpace] *)

(** The UTF-8 encodings of the runes with [unicode.IsSpace]. *)
Definition space_encodings : list (list ascii) :=
  map (map byte_of)
    ([[9]; [10]; [11]; [12]; [13]; [32]; [194; 133]; [194; 160]; [225; 154; 128];
      [226; 128; 128]; [226; 128; 129]; [226; 128; 130]; [226; 128; 131];
      [226; 128; 132]; [226; 128; 133]; [226; 128; 134]; [226; 128; 135];
      [226; 128; 136]; [226; 128; 137]; [226; 128; 138]; [226; 128; 168];
      [226; 128; 169]; [226; 128; 175]; [226; 129; 159]; [227; 128; 128]]%Z).

Fixpoint strip_prefix (p s : list ascii) : option (list ascii) :=
  match p, s with
  | [], _ => Some s
  | a :: p, b :: s => if Ascii.eqb a b then strip_prefix p s else None
  | _ :: _, [] => None
  end.

Fixpoint strip_any (ps : list (list ascii)) (s : list ascii) : option (list ascii) :=
  match ps with
  | [] => None
  | p :: ps => match strip_prefix p s with Some r => Some r | None => strip_any ps s end
  end.

(** Strip encodings from the front while there is one; every round removes at
    least one byte, so [length s] rounds are enough ([trim_front_done]). *)
Fixpoint trim_front (fuel : nat) (ps : list (list ascii)) (s : list ascii) : list ascii :=
  match fuel with
  | O => s
  | S fuel => match strip_any ps s with Some r => trim_front fuel ps r | None => s end
  end.

Definition trim_left (ps : list (list ascii)) (s : list ascii) : list ascii :=
  trim_front (length s) ps s.

Definition TrimSpace (s : string) : string :=
  let l := trim_left space_encodings (bytes s) in
  of_bytes (rev (trim_left (map (@rev ascii) space_encodings) (rev l))).

Definition blank (s : string) : bool := TrimSpace s =s "".

(** ** [strings.Split] and [strings.Join] with a one-byte separator *)

Fixpoint Split (sep : ascii) (s : string) : list string :=
  match s with
  | EmptyString => [""]
  | String c s =>
      if Ascii.eqb c sep then "" :: Split sep s
      else match Split sep s with
           | [] => [String c ""]
           | p :: ps => String c p :: ps
           end
  end.

Fixpoint Join (l : list string) (sep : string) : string :=
  match l with
  | [] => ""
  | [x] => x
  | x :: l => x +:+ sep +:+ Join l sep
  end.

(** ** Numbers as text *)

(** [strconv.Itoa] and [fmt]'s [%d]. *)
Definition Itoa (n : Z) : string := pretty n.

(** [strconv.ParseUint(s, 10, bits)]: [None] on a syntax or range error. *)
Definition digit_val (c : ascii) : Z := byte_val c - 48.
Fixpoint parse_digits (acc : Z) (s : string) : option Z :=
  match s with
  | EmptyString => Some acc
  | String c s => if is_digit c then parse_digits (10 * acc + digit_val c) s else None
  end.
Definition ParseUint (s : string) (bits : Z) : option Z :=
  if s =s "" then None
  else n ← parse_digits 0 s; if (n <? 2 ^ bits)%Z then Some n else None.

(** ** [fmt]'s [%q] (strconv.Quote) *)

Class UnicodeTables := { unicode_IsPrint : Z → bool }.

Definition hex_digit (n : Z) : ascii :=
  if (n <? 10)%Z then byte_of (48 + n) else byte_of (87 + n).
Fixpoint hex (width : nat) (n : Z) : string :=
  match width with
  | O => ""
  | S w => hex w (n / 16) +:+ String (hex_digit (n mod 16)) ""
  end.
Definition esc (c : string) : string := String (byte_of 92) c.

Definition quote_rune `{UnicodeTables} (r : rune) : string :=
  match r with
  | BadByte b => esc "x" +:+ hex 2 (byte_val b)
  | Rune code enc =>
      if (code =? 34)%Z || (code =? 92)%Z then esc (of_bytes enc)
      else if (code <? 128)%Z && (32 <=? code)%Z && (code <? 127)%Z then of_bytes enc
      else if (128 <=? code)%Z && unicode_IsPrint code then of_bytes enc
      else if (code =? 7)%Z then esc "a"
      else if (code =? 8)%Z then esc "b"
      else if (code =? 12)%Z then esc "f"
      else if (code =? 10)%Z then esc "n"
      else if (code =? 13)%Z then esc "r"
      else if (code =? 9)%Z then esc "t"
      else if (code =? 11)%Z then esc "v"
      else if (code <? 32)%Z || (code =? 127)%Z then esc "x" +:+ hex 2 code
      else if (code <? 65536)%Z then esc "u" +:+ hex 4 code
      else esc "U" +:+ hex 8 code
  end.

Definition dquote : string := String (byte_of 34) "".
Definition Quote `{UnicodeTables} (s : string) : string :=
  dquote +:+ foldr (λ r acc, quote_rune r +:+ acc) "" (utf8_decode (bytes s)) +:+ dquote.

(** ** Lemmas: bytes *)

Lemma byte_val_range c : (0 <= byte_val c < 256)%Z.
Proof.
  unfold byte_val. pose proof (Ascii.N_ascii_bounded c). lia.
Qed.

Lemma byte_val_of n : (0 <= n < 256)%Z → byte_val (byte_of n) = n.
Proof.
  intros. unfold byte_val, byte_of. rewrite Ascii.N_ascii_embedding; lia.
Qed.

Lemma byte_of_val c : byte_of (byte_val c) = c.
Proof. unfold byte_val, byte_of. rewrite N2Z.id. apply Ascii.ascii_N_embedding. Qed.

Lemma byte_val_inj a b : byte_val a = byte_val b → a = b.
Proof. intros H. by rewrite <-(byte_of_val a), H, byte_of_val. Qed.

Lemma in_range_spec lo hi c : in_range lo hi c = true ↔ (lo <= byte_val c <= hi)%Z.
Proof. unfold in_range. rewrite andb_true_iff, !Z.leb_le. lia. Qed.

Lemma lower_byte_idemp c : lower_byte (lower_byte c) = lower_byte c.
Proof.
  unfold lower_byte at 1. destruct (is_upper (lower_byte c)) eqn:E; [|done].
  exfalso. revert E. unfold lower_byte. destruct (is_upper c) eqn:Ec; [|congruence].
  apply in_range_spec in Ec. intros E. apply in_range_spec in E.
  rewrite byte_val_of in E; lia.
Qed.

Lemma append_nil_l s : "" +:+ s = s.
Proof. done. Qed.

Lemma append_cons c s t : String c s +:+ t = String c (s +:+ t).
Proof. done. Qed.

Lemma str_map_app f s t : str_map f (s +:+ t) = str_map f s +:+ str_map f t.
Proof. induction s as [|c s IH]; [done|]. cbn [str_map]. rewrite !append_cons. cbn. by rewrite IH. Qed.

Lemma str_map_compose f g s : str_map f (str_map g s) = str_map (f ∘ g) s.
Proof. induction s as [|c s IH]; [done|]. cbn. by rewrite IH. Qed.

Lemma str_map_ext f g s : (∀ c, f c = g c) → str_map f s = str_map g s.
Proof. intros H. induction s as [|c s IH]; [done|]. cbn. by rewrite H, IH. Qed.

Lemma str_map_lower_idemp s : str_map lower_byte (str_map lower_byte s) = str_map lower_byte s.
Proof. rewrite str_map_compose. apply str_map_ext. intros c. apply lower_byte_idemp. Qed.

Lemma str_map_length f s : String.length (str_map f s) = String.length s.
Proof. induction s as [|c s IH]; [done|]. cbn. by rewrite IH. Qed.

Lemma str_exists_app p s t : str_exists p (s +:+ t) = str_exists p s || str_exists p t.
Proof.
  induction s as [|c s IH]; [done|]. rewrite append_cons. cbn.
  by rewrite IH, orb_assoc.
Qed.

Lemma str_map_id_no_upper s : str_exists is_upper s = false → str_map lower_byte s = s.
Proof.
  induction s as [|c s IH]; [done|]. cbn. intros H. bool_simpl.
  rewrite IH by done. unfold lower_byte. by rewrite H.
Qed.

Lemma contains_byte_lower c s :
  is_upper c = false → is_lower c = false →
  contains_byte c (str_map lower_byte s) = contains_byte c s.
Proof.
  intros Hu Hl. unfold contains_byte.
  induction s as [|d s IH]; [done|]. cbn. rewrite IH. f_equal.
  unfold lower_byte. destruct (is_upper d) eqn:E; [|done].
  assert (Ascii.eqb c d = false) as ->.
  { apply Ascii.eqb_neq. intros ->. congruence. }
  apply Ascii.eqb_neq. intros ->.
  apply in_range_spec in E.
  assert (is_lower (byte_of (byte_val d + 32)) = true); [|congruence].
  apply in_range_spec. rewrite byte_val_of; lia.
Qed.

(** ** Lemmas: UTF-8 *)

Lemma utf8_decode_length s : length (utf8_decode s) ≤ length s.
Proof.
  remember (length s) as n eqn:Hn. revert s Hn.
  induction n as [n IH] using lt_wf_ind. intros s ->.
  destruct s as [|b0 s1]; [done|]. cbn [utf8_decode].
  repeat case_match; subst; cbn [length] in *;
    repeat match goal with
    | |- context [utf8_decode ?t] =>
        let H := fresh in
        assert (H : length (utf8_decode t) ≤ length t) by (apply (IH (length t)); cbn; lia);
        revert H; generalize (length (utf8_decode t)); intros
    end; cbn [length] in *; lia.
Qed.

Lemma length_bytes s : length (bytes s) = String.length s.
Proof. unfold bytes. induction s as [|c s IH]; [done|]. cbn. by rewrite IH. Qed.

Lemma RuneCount_le_len s : (0 <= RuneCountInString s <= len s)%Z.
Proof.
  unfold RuneCountInString, len. rewrite <-length_bytes.
  pose proof (utf8_decode_length (bytes s)). lia.
Qed.

(** ** Lemmas: TrimSpace *)

Lemma strip_prefix_Some p s r : strip_prefix p s = Some r ↔ s = p ++ r.
Proof.
  revert s. induction p as [|a p IH]; intros s; cbn; [naive_solver|].
  destruct s as [|b s]; [naive_solver|].
  destruct (Ascii.eqb a b) eqn:E.
  - apply Ascii.eqb_eq in E as ->. rewrite IH. naive_solver.
  - apply Ascii.eqb_neq in E. naive_solver.
Qed.

Lemma strip_any_Some ps s r :
  strip_any ps s = Some r → ∃ p, p ∈ ps ∧ s = p ++ r.
Proof.
  induction ps as [|p ps IH]; cbn; [done|].
  destruct (strip_prefix p s) eqn:E.
  - intros [= ->]. apply strip_prefix_Some in E. exists p. split; [left|done].
  - intros (q & ? & ?)%IH. exists q. split; [by right|done].
Qed.

Lemma strip_any_None ps s :
  strip_any ps s = None ↔ ∀ p r, p ∈ ps → s ≠ p ++ r.
Proof.
  induction ps as [|p ps IH]; cbn; [set_solver|].
  destruct (strip_prefix p s) eqn:E.
  - apply strip_prefix_Some in E. split; [done|]. intros H.
    exfalso. by eapply (H p); [left|].
  - rewrite IH. split; [|set_solver]. intros H q r Hq ->.
    apply elem_of_cons in Hq as [->|Hq]; [|by eapply H].
    assert (strip_prefix p (p ++ r) = Some r) by (by apply strip_prefix_Some).
    congruence.
Qed.

Section trimming.
  Context (ps : list (list ascii)).
  Hypothesis nonempty : Forall (λ p, p ≠ []) ps.

Lemma trim_front_done fuel s :
    length s ≤ fuel → strip_any ps (trim_front fuel ps s) = None.
  Proof.
    revert s. induction fuel as [|fuel IH]; intros s Hs; cbn.
    - destruct s; [|cbn in Hs; lia]. apply strip_any_None.
      rewrite Forall_forall in nonempty. intros p r Hp.
      apply nonempty in Hp. by destruct p.
    - destruct (strip_any ps s) as [r|] eqn:E; [|done].
      apply strip_any_Some in E as (p & Hp & ->).
      rewrite Forall_forall in nonempty. apply nonempty in Hp.
      apply IH. rewrite length_app in Hs. destruct p; [done|cbn in Hs; lia].
  Qed.

Lemma trim_front_id fuel s : strip_any ps s = None → trim_front fuel ps s = s.
  Proof. intros H. destruct fuel; cbn; [done|]. by rewrite H. Qed.

Lemma trim_left_idemp s : trim_left ps (trim_left ps s) = trim_left ps s.
  Proof. apply trim_front_id. by apply trim_front_done. Qed.

Lemma trim_left_suffix s : ∃ p, s = p ++ trim_left ps s.
  Proof.
    unfold trim_left. generalize (length s) as fuel. intros fuel. revert s.
    induction fuel as [|fuel IH]; intros s; cbn; [by exists []|].
    destruct (strip_any ps s) as [r|] eqn:E; [|by exists []].
    apply strip_any_Some in E as (p & _ & ->). destruct (IH r) as [q Hq].
    exists (p ++ q). rewrite <-app_assoc. by rewrite <-Hq.
  Qed.
End trimming.

Lemma space_encodings_nonempty : Forall (λ p, p ≠ []) space_encodings.
Proof. repeat constructor; done. Qed.
Lemma space_encodings_rev_nonempty : Forall (λ p, p ≠ []) (map (@rev ascii) space_encodings).
Proof. repeat constructor; done. Qed.

(** A string with no space at its front keeps that when its tail is cut. *)
Lemma strip_any_None_prefix ps s t :
  strip_any ps (s ++ t) = None → strip_any ps s = None.
Proof.
  rewrite !strip_any_None. intros H p r Hp ->.
  by apply (H p (r ++ t) Hp); rewrite app_assoc.
Qed.

Lemma TrimSpace_idemp s : TrimSpace (TrimSpace s) = TrimSpace s.
Proof.
  unfold TrimSpace. rewrite bytes_of_bytes. f_equal.
  set (l := trim_left space_encodings (bytes s)).
  assert (Hl : strip_any space_encodings l = None).
  { apply trim_front_done; [apply space_encodings_nonempty|done]. }
  set (rs := map (@rev ascii) space_encodings).
  destruct (trim_left_suffix rs (rev l)) as [p Hp].
  set (t := trim_left rs (rev l)) in *.
  assert (Ht : l = rev t ++ rev p).
  { by rewrite <-(rev_involutive l), Hp, rev_app_distr. }
  assert (trim_left space_encodings (rev t) = rev t) as ->.
  { apply trim_front_id. apply (strip_any_None_prefix _ _ (rev p)). by rewrite <-Ht. }
  rewrite rev_involutive. f_equal. apply trim_left_idemp, space_encodings_rev_nonempty.
Qed.

Lemma blank_TrimSpace s : blank (TrimSpace s) = blank s.
Proof. unfold blank. by rewrite TrimSpace_idemp. Qed.

(** ** Lemmas: Split and Join *)

Lemma Split_nonempty sep s : Split sep s ≠ [].
Proof. destruct s as [|c s]; cbn; [done|]. destruct (Ascii.eqb c sep); [done|]. by destruct (Split sep s). Qed.

Lemma append_empty_r s : s +:+ "" = s.
Proof. induction s as [|c s IH]; [done|]. by rewrite append_cons, IH. Qed.

Lemma append_assoc (s t u : string) : (s +:+ t) +:+ u = s +:+ t +:+ u.
Proof. induction s as [|c s IH]; [done|]. by rewrite !append_cons, IH. Qed.

Lemma Split_no_sep sep s : contains_byte sep s = false → Split sep s = [s].
Proof.
  unfold contains_byte. induction s as [|c s IH]; [done|]. cbn. intros H. bool_simpl.
  rewrite IH by done. by rewrite Ascii.eqb_sym, H.
Qed.

Lemma Split_app_sep sep s t :
  contains_byte sep s = false →
  Split sep (s +:+ String sep t) = s :: Split sep t.
Proof.
  unfold contains_byte. induction s as [|c s IH].
  { rewrite append_nil_l. cbn. by rewrite Ascii.eqb_refl. }
  rewrite append_cons. cbn. intros H. bool_simpl. rewrite IH by done. by rewrite Ascii.eqb_sym, H.
Qed.

Lemma Split_Join sep l :
  l ≠ [] → Forall (λ p, contains_byte sep p = false) l →
  Split sep (Join l (String sep "")) = l.
Proof.
  intros Hne Hl. induction Hl as [|x l Hx Hl IH]; [done|].
  destruct l as [|y l]; [by apply Split_no_sep|].
  change (Join (x :: y :: l) (String sep "")) with
    (x +:+ String sep (Join (y :: l) (String sep ""))).
  rewrite Split_app_sep by done. by rewrite IH.
Qed.

Lemma Split_pieces sep s : Forall (λ p, contains_byte sep p = false) (Split sep s).
Proof.
  induction s as [|c s IH]; cbn; [by repeat constructor|].
  destruct (Ascii.eqb c sep) eqn:E; [by constructor|].
  destruct (Split sep s) as [|p ps].
  - repeat constructor. unfold contains_byte; cbn. by rewrite Ascii.eqb_sym, E.
  - inversion_clear IH. constructor; [|done].
    unfold contains_byte in *; cbn. by rewrite Ascii.eqb_sym, E.
Qed.

Lemma Join_Split sep s : Join (Split sep s) (String sep "") = s.
Proof.
  induction s as [|c s IH]; [done|]. cbn [Split].
  pose proof (Split_nonempty sep s) as Hne.
  destruct (Split sep s) as [|p ps] eqn:E; [done|].
  destruct (Ascii.eqb c sep) eqn:Ec.
  - apply Ascii.eqb_eq in Ec as ->.
    change (Join ("" :: p :: ps) (String sep "")) with
      (String sep (Join (p :: ps) (String sep ""))). by rewrite IH.
  - destruct ps as [|q ps].
    + cbn in *. by rewrite IH.
    + change (Join (String c p :: q :: ps) (String sep "")) with
        (String c (Join (p :: q :: ps) (String sep ""))). by rewrite IH.
Qed.

Lemma Join_map_lower l sep :
  str_map lower_byte sep = sep →
  str_map lower_byte (Join l sep) = Join (map (str_map lower_byte) l) sep.
Proof.
  intros Hsep. induction l as [|x l IH]; [done|]. destruct l as [|y l]; [done|].
  change (Join (x :: y :: l) sep) with (x +:+ sep +:+ Join (y :: l) sep).
  rewrite !str_map_app, IH, Hsep. done.
Qed.

(** ** Lemmas: numbers *)

Lemma pretty_N_char_digit n :
  (n < 10)%N → is_digit (pretty_N_char n) = true ∧ digit_val (pretty_N_char n) = Z.of_N n.
Proof.
  intros H. assert (n = 0 ∨ n = 1 ∨ n = 2 ∨ n = 3 ∨ n = 4 ∨ n = 5 ∨ n = 6 ∨ n = 7 ∨ n = 8 ∨ n = 9)%N
    as Hn by lia.
  repeat destruct Hn as [->|Hn]; subst; done.
Qed.

Lemma pretty_N_go_length y t :
  String.length (pretty_N_go y t) = String.length (pretty_N_go y "") + String.length t.
Proof.
  revert t. induction y as [y IH] using (well_founded_induction N.lt_wf_0). intros t.
  destruct (decide (0 < y)%N) as [Hy|Hy].
  - assert (y `div` 10 < y)%N as Hlt by (apply N.div_lt; lia).
    rewrite (pretty_N_go_step y t), (pretty_N_go_step y "") by done.
    rewrite (IH _ Hlt (String _ t)).
    etrans; [|rewrite (IH _ Hlt (String _ "")); reflexivity]. cbn. lia.
  - assert (y = 0%N) as -> by lia. by rewrite !pretty_N_go_0.
Qed.

Lemma parse_digits_pretty_go x s acc :
  (0 <= acc)%Z →
  parse_digits acc (pretty_N_go x s) = 
  parse_digits (acc * 10 ^ Z.of_nat (String.length (pretty_N_go x "")) + Z.of_N x) s.
Proof.
  revert s acc. induction x as [x IH] using (well_founded_induction N.lt_wf_0). intros s acc Hacc.
  destruct (decide (0 < x)%N) as [Hx|Hx].
  - assert (Hdec : (x `div` 10 < x)%N) by (apply N.div_lt; lia).
    pose proof pretty_N_go_length as Hlen.
    rewrite !pretty_N_go_step by done. rewrite IH by done.
    cbn [parse_digits]. destruct (pretty_N_char_digit (x `mod` 10)) as [-> ->].
    { by apply N.mod_lt. }
    f_equal. rewrite (pretty_N_go_step x "") by done.
    rewrite (Hlen _ (String _ "")). cbn [String.length].
    replace (Z.of_nat (String.length (pretty_N_go (x `div` 10) "") + 1))
      with (Z.of_nat (String.length (pretty_N_go (x `div` 10) "")) + 1)%Z by lia.
    rewrite Z.pow_add_r by lia.
    pose proof (N.div_mod x 10 ltac:(done)). lia.
  - assert (x = 0%N) as -> by lia. rewrite !pretty_N_go_0. f_equal. cbn. lia.
Qed.

Lemma parse_digits_pretty (x : N) : parse_digits 0 (pretty x) = Some (Z.of_N x).
Proof.
  unfold pretty, pretty_N. destruct (decide (x = 0%N)) as [->|Hx]; [done|].
  rewrite parse_digits_pretty_go by lia. cbn. done.
Qed.

Lemma Itoa_of_N n : (0 <= n)%Z → Itoa n = pretty (Z.to_N n).
Proof. intros H. destruct n as [|p|p]; [done|done|lia]. Qed.

Lemma Itoa_nonempty n : (0 <= n)%Z → Itoa n ≠ "".
Proof.
  intros H E. rewrite Itoa_of_N in E by done.
  assert (Hp : parse_digits 0 (pretty (Z.to_N n)) = Some (Z.of_N (Z.to_N n)))
    by apply parse_digits_pretty.
  unfold pretty, pretty_N in *. destruct (decide (Z.to_N n = 0%N)) as [->|Hx]; [done|].
  rewrite E in Hp. injection Hp as Hp. lia.
Qed.

Lemma ParseUint_Itoa n bits :
  (0 <= n < 2 ^ bits)%Z → ParseUint (Itoa n) bits = Some n.
Proof.
  intros Hn. unfold ParseUint.
  rewrite (proj2 (eqb_string_false _ _)) by (apply Itoa_nonempty; lia).
  rewrite Itoa_of_N, parse_digits_pretty by lia. cbn.
  rewrite Z2N.id by lia. by rewrite (proj2 (Z.ltb_lt _ _)) by lia.
Qed.

(** ** Decoding splits before every byte that is not a continuation byte *)

Lemma in_range_sub lo hi lo' hi' c :
  (lo' <= lo)%Z → (hi <= hi')%Z → in_range lo hi c = true → in_range lo' hi' c = true.
Proof. intros ??. rewrite !in_range_spec. lia. Qed.

Lemma not_cont_range lo hi c :
  (128 <= lo)%Z → (hi <= 191)%Z → cont c = false → in_range lo hi c = false.
Proof.
  intros ?? H. apply not_true_is_false. intros E.
  unfold cont in H. by rewrite (in_range_sub lo hi 128 191 c) in H.
Qed.

Lemma second_of_three_cont a b : cont b = false → second_of_three a b = false.
Proof.
  intros H. unfold second_of_three.
  by rewrite H, (not_cont_range 160 191 b), (not_cont_range 128 159 b), !andb_false_r by done.
Qed.

Lemma second_of_four_cont a b : cont b = false → second_of_four a b = false.
Proof.
  intros H. unfold second_of_four.
  by rewrite H, (not_cont_range 144 191 b), (not_cont_range 128 143 b), !andb_false_r by done.
Qed.

Lemma utf8_decode_cons b0 s1 :
  utf8_decode (b0 :: s1) =
  if (byte_val b0 <? 128)%Z then Rune (byte_val b0) [b0] :: utf8_decode s1 else
  match s1 with
  | b1 :: s2 =>
    if in_range 194 223 b0 && cont b1 then
      Rune (Z.lor (Z.shiftl (Z.land (byte_val b0) 31) 6) (low6 b1)) [b0; b1] :: utf8_decode s2
    else match s2 with
    | b2 :: s3 =>
      if second_of_three b0 b1 && cont b2 then
        Rune (Z.lor (Z.shiftl (Z.land (byte_val b0) 15) 12)
               (Z.lor (Z.shiftl (low6 b1) 6) (low6 b2))) [b0; b1; b2] :: utf8_decode s3
      else match s3 with
      | b3 :: s4 =>
        if second_of_four b0 b1 && cont b2 && cont b3 then
          Rune (Z.lor (Z.shiftl (Z.land (byte_val b0) 7) 18)
                 (Z.lor (Z.shiftl (low6 b1) 12)
                   (Z.lor (Z.shiftl (low6 b2) 6) (low6 b3)))) [b0; b1; b2; b3] :: utf8_decode s4
        else BadByte b0 :: utf8_decode s1
      | [] => BadByte b0 :: utf8_decode s1
      end
    | [] => BadByte b0 :: utf8_decode s1
    end
  | [] => BadByte b0 :: utf8_decode s1
  end.
Proof. by destruct s1 as [|? [|? []]]. Qed.

Lemma utf8_decode_app_start a c b :
  cont c = false → utf8_decode (a ++ c :: b) = utf8_decode a ++ utf8_decode (c :: b).
Proof.
  intros Hc. remember (length a) as n eqn:Hn. revert a Hn.
  induction n as [n IH] using lt_wf_ind. intros a ->.
  assert (IH' : ∀ a', length a' < length a →
    utf8_decode (a' ++ c :: b) = utf8_decode a' ++ utf8_decode (c :: b)) by eauto.
  clear IH. destruct a as [|b0 a]; [done|].
  change ((b0 :: a) ++ c :: b) with (b0 :: (a ++ c :: b)).
  rewrite (utf8_decode_cons b0 (a ++ c :: b)), (utf8_decode_cons b0 a).
  rewrite (IH' a) by (cbn; lia).
  destruct (byte_val b0 <? 128)%Z; [done|].
  destruct a as [|b1 a].
  { cbn [app]. rewrite Hc, andb_false_r. destruct b as [|x b]; [done|].
    rewrite second_of_three_cont by done. destruct b as [|y b]; [done|].
    by rewrite second_of_four_cont by done. }
  cbn [app]. rewrite (IH' a) by (cbn; lia).
  destruct (in_range 194 223 b0 && cont b1); [done|].
  destruct a as [|b2 a].
  { cbn [app]. rewrite Hc, andb_false_r. destruct b as [|x b]; [done|].
    by rewrite andb_false_r. }
  cbn [app]. rewrite (IH' a) by (cbn; lia).
  destruct (second_of_three b0 b1 && cont b2); [done|].
  destruct a as [|b3 a].
  { cbn [app]. by rewrite Hc, andb_false_r. }
  cbn [app]. rewrite (IH' a) by (cbn; lia).
  by destruct (second_of_four b0 b1 && cont b2 && cont b3).
Qed.

Lemma bytes_app s t : bytes (s +:+ t) = bytes s ++ bytes t.
Proof.
  unfold bytes. induction s as [|c s IH]; [done|].
  rewrite append_cons. cbn. by rewrite IH.
Qed.

Definition runes (s : string) : list rune := utf8_decode (bytes s).

Lemma runes_app_start s c t :
  cont c = false → runes (s +:+ String c t) = runes s ++ runes (String c t).
Proof. intros Hc. unfold runes. rewrite bytes_app. by apply utf8_decode_app_start. Qed.

Lemma runes_ascii c t : (byte_val c < 128)%Z → runes (String c t) = Rune (byte_val c) [c] :: runes t.
Proof.
  intros Hc. unfold runes. cbn [bytes String.list_ascii_of_string].
  cbn [utf8_decode]. by rewrite (proj2 (Z.ltb_lt _ _) Hc).
Qed.

(** The runes of [l] joined by an ASCII separator. *)
Lemma runes_Join_cons x y l sep :
  (byte_val sep < 128)%Z →
  runes (Join (x :: y :: l) (String sep "")) =
  runes x ++ Rune (byte_val sep) [sep] :: runes (Join (y :: l) (String sep "")).
Proof.
  intros Hsep.
  change (Join (x :: y :: l) (String sep "")) with
    (x +:+ String sep (Join (y :: l) (String sep ""))).
  rewrite runes_app_start; [by rewrite runes_ascii|].
  apply not_true_is_false. intros E. apply in_range_spec in E. lia.
Qed.

(** ** The shape of printed numbers *)

Lemma pretty_N_go_app y t : pretty_N_go y t = pretty_N_go y "" +:+ t.
Proof.
  revert t. induction y as [y IH] using (well_founded_induction N.lt_wf_0). intros t.
  destruct (decide (0 < y)%N) as [Hy|Hy].
  - assert (y `div` 10 < y)%N as Hlt by (apply N.div_lt; lia).
    rewrite (pretty_N_go_step y t), (pretty_N_go_step y "") by done.
    rewrite (IH _ Hlt (String _ t)). symmetry.
    rewrite (IH _ Hlt (String _ "")), append_assoc. done.
  - assert (y = 0%N) as -> by lia. by rewrite !pretty_N_go_0.
Qed.

Lemma pretty_N_char_zero n : (n < 10)%N → pretty_N_char n = byte_of 48 → n = 0%N.
Proof.
  intros H E. destruct (pretty_N_char_digit n H) as [_ Hv].
  rewrite E in Hv. change (digit_val (byte_of 48)) with 0%Z in Hv. lia.
Qed.

Lemma pretty_N_go_shape x :
  (0 < x)%N →
  ∃ c t, pretty_N_go x "" = String c t ∧ c ≠ byte_of 48 ∧
    str_exists (λ c, negb (is_digit c)) (String c t) = false ∧
    (10 ^ Z.of_nat (String.length t) <= Z.of_N x)%Z.
Proof.
  induction x as [x IH] using (well_founded_induction N.lt_wf_0). intros Hx.
  rewrite pretty_N_go_step, pretty_N_go_app by done.
  assert (x `mod` 10 < 10)%N as Hmod by (by apply N.mod_lt).
  destruct (pretty_N_char_digit _ Hmod) as [Hd _].
  pose proof (N.div_mod x 10 ltac:(done)) as Hdm.
  destruct (decide (0 < x `div` 10)%N) as [Hy|Hy].
  - assert (x `div` 10 < x)%N as Hlt by (apply N.div_lt; lia).
    destruct (IH _ Hlt Hy) as (c & t & -> & Hc & Hdig & Hlen).
    exists c, (t +:+ String (pretty_N_char (x `mod` 10)) ""). split_and!; [done|done|..].
    + change (str_exists (λ c, negb (is_digit c)) (String c t +:+ String (pretty_N_char (x `mod` 10)) "") = false).
      rewrite str_exists_app, Hdig. cbn. by rewrite Hd.
    + assert (∀ s u, String.length (s +:+ u) = String.length s + String.length u) as ->.
      { clear. induction s as [|c s IH]; intros u; [done|]. rewrite append_cons. cbn. by rewrite IH. }
      cbn [String.length]. rewrite Nat2Z.inj_add, Z.pow_add_r by lia.
      change (10 ^ Z.of_nat 1)%Z with 10%Z.
      revert Hlen. generalize (10 ^ Z.of_nat (String.length t))%Z. intros pw Hpw.
      rewrite Hdm, N2Z.inj_add, N2Z.inj_mul.
      pose proof (N2Z.is_nonneg (x `mod` 10)). lia.
  - assert (x `div` 10 = 0)%N as Hz by lia. rewrite Hz in *. rewrite pretty_N_go_0, append_nil_l.
    exists (pretty_N_char (x `mod` 10)), "". split_and!; [done|..].
    + intros E%pretty_N_char_zero; [lia|done].
    + cbn. by rewrite Hd.
    + change (10 ^ Z.of_nat (String.length ""))%Z with 1%Z. lia.
Qed.

Lemma Itoa_shape n :
  (0 < n)%Z →
  ∃ c t, Itoa n = String c t ∧ c ≠ byte_of 48 ∧
    str_exists (λ c, negb (is_digit c)) (Itoa n) = false ∧
    (10 ^ (len (Itoa n) - 1) <= n)%Z.
Proof.
  intros H. rewrite Itoa_of_N by lia. unfold pretty, pretty_N.
  rewrite decide_False by lia.
  destruct (pretty_N_go_shape (Z.to_N n)) as (c & t & -> & Hc & Hd & Hl); [lia|].
  exists c, t. split_and!; [done..|]. unfold len. cbn [String.length].
  replace (Z.of_nat (S (String.length t)) - 1)%Z with (Z.of_nat (String.length t)) by lia. lia.
Qed.

Lemma substring_whole s : String.substring 0 (String.length s) s = s.
Proof. induction s as [|c s IH]; [done|]. cbn. by rewrite IH. Qed.

Lemma length_append s t : String.length (s +:+ t) = String.length s + String.length t.
Proof. induction s as [|c s IH]; [done|]. rewrite append_cons. cbn. by rewrite IH. Qed.

Lemma substring_append s t :
  String.substring (String.length s) (String.length (s +:+ t) - String.length s) (s +:+ t) = t.
Proof.
  rewrite length_append. replace (_ + _ - _) with (String.length t) by lia.
  induction s as [|c s IH].
  - rewrite append_nil_l. apply substring_whole.
  - rewrite append_cons. cbn. apply IH.
Qed.

Lemma substring_prefix s t : String.substring 0 (String.length s) (s +:+ t) = s.
Proof.
  induction s as [|c s IH]; [by destruct t|]. rewrite append_cons. cbn. by rewrite IH.
Qed.

(** ** Trimming removes whole runes *)

Lemma trim_left_pieces ps s :
  ∃ qs, Forall (λ q, q ∈ ps) qs ∧ s = concat qs ++ trim_left ps s.
Proof.
  unfold trim_left. generalize (length s) as fuel. intros fuel. revert s.
  induction fuel as [|fuel IH]; intros s; cbn; [by exists []|].
  destruct (strip_any ps s) as [r|] eqn:E; [|by exists []].
  apply strip_any_Some in E as (p & Hp & ->). destruct (IH r) as (qs & Hqs & Hr).
  exists (p :: qs). split; [by constructor|]. cbn. rewrite <-app_assoc. by rewrite <-Hr.
Qed.

Lemma space_encodings_start p :
  p ∈ space_encodings → ∃ c r, p = c :: r ∧ cont c = false ∧ forallb rune_ok (utf8_decode p) = true.
Proof.
  assert (Forall (λ p, ∃ c r, p = c :: r ∧ cont c = false ∧ forallb rune_ok (utf8_decode p) = true)
            space_encodings) as H.
  { unfold space_encodings. repeat constructor; by eexists _, _. }
  rewrite Forall_forall in H. apply H.
Qed.

Lemma utf8_decode_prefix_space p r :
  p ∈ space_encodings → utf8_decode (p ++ r) = utf8_decode p ++ utf8_decode r.
Proof.
  assert (Forall (λ p, ∀ r, utf8_decode (p ++ r) = utf8_decode p ++ utf8_decode r) space_encodings) as H.
  { unfold space_encodings. repeat constructor. }
  rewrite Forall_forall in H. intros Hp. by apply H.
Qed.

Lemma utf8_decode_suffix_space l p :
  p ∈ space_encodings → utf8_decode (l ++ p) = utf8_decode l ++ utf8_decode p.
Proof.
  intros (c & r & -> & Hc & _)%space_encodings_start. by apply utf8_decode_app_start.
Qed.

Lemma utf8_decode_concat_prefix qs r :
  Forall (λ q, q ∈ space_encodings) qs →
  ∃ a, utf8_decode (concat qs ++ r) = a ++ utf8_decode r.
Proof.
  induction 1 as [|q qs Hq Hqs [a IH]]; [by exists []|].
  exists (utf8_decode q ++ a). cbn.
  by rewrite <-app_assoc, utf8_decode_prefix_space, IH, app_assoc by done.
Qed.

Lemma utf8_decode_concat_suffix l qs :
  Forall (λ q, q ∈ space_encodings) qs →
  ∃ b, utf8_decode (l ++ concat qs) = utf8_decode l ++ b.
Proof.
  revert l. induction qs as [|q qs IH]; intros l Hqs; cbn.
  { exists []. by rewrite !app_nil_r. }
  apply Forall_cons in Hqs as [Hq Hqs]. rewrite app_assoc.
  destruct (IH (l ++ q) Hqs) as [b ->].
  exists (utf8_decode q ++ b). by rewrite utf8_decode_suffix_space, app_assoc by done.
Qed.

Lemma TrimSpace_bytes s :
  ∃ qs1 qs2, Forall (λ q, q ∈ space_encodings) qs1 ∧ Forall (λ q, q ∈ space_encodings) qs2 ∧
    bytes s = concat qs1 ++ bytes (TrimSpace s) ++ concat qs2.
Proof.
  destruct (trim_left_pieces space_encodings (bytes s)) as (qs1 & H1 & Hs).
  set (l := trim_left space_encodings (bytes s)) in *.
  destruct (trim_left_pieces (map (@rev ascii) space_encodings) (rev l)) as (qs & H2 & Hl).
  exists qs1, (map (@rev ascii) (rev qs)). split_and!; [done|..].
  - rewrite Forall_forall in *. intros q (p & -> & Hp)%list_elem_of_fmap.
    apply list_elem_of_In, in_rev, list_elem_of_In, H2 in Hp.
    apply list_elem_of_fmap in Hp as (p' & -> & ?). by rewrite rev_involutive.
  - rewrite Hs. f_equal. unfold TrimSpace. fold l. rewrite bytes_of_bytes.
    transitivity (rev (rev l)); [by rewrite rev_involutive|].
    rewrite Hl at 1. rewrite rev_app_distr. f_equal. clear. induction qs as [|q qs IH]; [done|]. cbn.
    rewrite rev_app_distr, map_app, concat_app, IH. cbn. by rewrite app_nil_r.
Qed.

Lemma TrimSpace_runes s : ∃ a b, runes s = a ++ runes (TrimSpace s) ++ b.
Proof.
  destruct (TrimSpace_bytes s) as (qs1 & qs2 & H1 & H2 & Hs). unfold runes. rewrite Hs.
  destruct (utf8_decode_concat_prefix qs1 (bytes (TrimSpace s) ++ concat qs2) H1) as [a ->].
  destruct (utf8_decode_concat_suffix (bytes (TrimSpace s)) qs2 H2) as [b ->]. by exists a, b.
Qed.

Lemma TrimSpace_valid s : ValidString s = true → ValidString (TrimSpace s) = true.
Proof.
  unfold ValidString. destruct (TrimSpace_runes s) as (a & b & H).
  unfold runes in H. rewrite H, !forallb_app. rewrite !andb_true_iff. tauto.
Qed.

Lemma TrimSpace_count s : (RuneCountInString (TrimSpace s) <= RuneCountInString s)%Z.
Proof.
  unfold RuneCountInString. destruct (TrimSpace_runes s) as (a & b & H).
  unfold runes in H. rewrite H, !length_app. lia.
Qed.

Lemma str_exists_bytes p s : str_exists p s = existsb p (bytes s).
Proof. unfold bytes. induction s as [|c s IH]; [done|]. cbn. by rewrite IH. Qed.

Lemma TrimSpace_exists p s : str_exists p s = false → str_exists p (TrimSpace s) = false.
Proof.
  rewrite !str_exists_bytes. destruct (TrimSpace_bytes s) as (? & ? & _ & _ & ->).
  rewrite !existsb_app, !orb_false_iff. tauto.
Qed.

(** ** ASCII texts *)

Definition ascii_byte (c : ascii) : bool := (byte_val c <? 128)%Z.
Definition is_ascii (s : string) : bool := negb (str_exists (λ c, negb (ascii_byte c)) s).

Lemma is_ascii_app s t : is_ascii (s +:+ t) = is_ascii s && is_ascii t.
Proof. unfold is_ascii. by rewrite str_exists_app, negb_orb. Qed.
Lemma is_ascii_cons c s : is_ascii (String c s) = ascii_byte c && is_ascii s.
Proof. unfold is_ascii. cbn. by rewrite negb_orb, negb_involutive. Qed.

(** ASCII text is valid UTF-8, a rune for a byte. *)
Lemma ascii_runes s : is_ascii s = true → runes s = map (λ c, Rune (byte_val c) [c]) (bytes s).
Proof.
  induction s as [|c s IH]; [done|]. rewrite is_ascii_cons. intros [Hc Hs]%andb_true_iff.
  apply Z.ltb_lt in Hc. rewrite runes_ascii by done. by rewrite IH.
Qed.
Lemma ascii_valid s : is_ascii s = true → ValidString s = true.
Proof.
  intros Hs. unfold ValidString. change (utf8_decode (bytes s)) with (runes s). rewrite ascii_runes by done.
  by induction (bytes s).
Qed.

Lemma is_ascii_bytes s : is_ascii s = forallb ascii_byte (bytes s).
Proof. induction s as [|c s IH]; [done|]. rewrite is_ascii_cons, IH. done. Qed.
Lemma Itoa_ascii n : (0 <= n)%Z → is_ascii (Itoa n) = true.
Proof.
  intros Hn. destruct (decide (n = 0%Z)) as [->|Hne]; [done|]. destruct (Itoa_shape n) as (_ & _ & _ & _ & Hd & _); [lia|].
  revert Hd. induction (Itoa n) as [|c s IH]; [done|]. rewrite is_ascii_cons. cbn. intros [Hc Hs]%orb_false_iff.
  rewrite (IH Hs), andb_true_r. apply negb_false_iff, in_range_spec in Hc. apply Z.ltb_lt. lia.
Qed.
