(* ===== verification/Sha256.v ===== *)
(** * SHA-256

    [crypto/sha256.Sum256] (FIPS 180-4), which the session repository applies
    to handles: padding, the message schedule and the compression function on
    32-bit words, executable, with the standard's test vectors. *)

From S2P Require Import Prelude GoStrings.

Local Open Scope Z_scope.

Definition mask32 : Z := 4294967295.
Definition add32 (a b : Z) : Z := Z.land (a + b) mask32.
Definition rotr (n x : Z) : Z := Z.lor (Z.shiftr x n) (Z.land (Z.shiftl x (32 - n)) mask32).
Definition not32 (x : Z) : Z := Z.lxor x mask32.

Definition Ch (x y z : Z) : Z := Z.lxor (Z.land x y) (Z.land (not32 x) z).
Definition Maj (x y z : Z) : Z := Z.lxor (Z.lxor (Z.land x y) (Z.land x z)) (Z.land y z).
Definition Sigma0 (x : Z) : Z := Z.lxor (Z.lxor (rotr 2 x) (rotr 13 x)) (rotr 22 x).
Definition Sigma1 (x : Z) : Z := Z.lxor (Z.lxor (rotr 6 x) (rotr 11 x)) (rotr 25 x).
Definition sigma0 (x : Z) : Z := Z.lxor (Z.lxor (rotr 7 x) (rotr 18 x)) (Z.shiftr x 3).
Definition sigma1 (x : Z) : Z := Z.lxor (Z.lxor (rotr 17 x) (rotr 19 x)) (Z.shiftr x 10).

(** The constants are the first 32 fractional bits of the cube roots of the
    first 64 primes, and of the square roots of the first 8. *)
Definition is_prime (n : Z) : bool := forallb (λ d, negb (n mod Z.of_nat d =? 0)) (seq 2 (Z.to_nat n - 2)).
Definition primes : list Z := Eval vm_compute in List.filter is_prime (map Z.of_nat (seq 2 310)).

(** The largest root below [2 ^ bits] more than [r]: bit by bit. *)
Fixpoint root (power n r : Z) (bits : nat) : Z :=
  match bits with
  | O => r
  | S bits => let r' := r + 2 ^ Z.of_nat bits in root power n (if r' ^ power <=? n then r' else r) bits
  end.
Definition root_fraction (power p : Z) : Z := Z.land (root power (p * 2 ^ (32 * power)) 0 40) mask32.

Definition sha256_k : list Z := Eval vm_compute in map (root_fraction 3) primes.

Record Digest := mkDigest { d_a : Z; d_b : Z; d_c : Z; d_d : Z; d_e : Z; d_f : Z; d_g : Z; d_h : Z }.
Definition sha256_init : Digest :=
  Eval vm_compute in
  match map (root_fraction 2) primes with
  | a :: b :: c :: d :: e :: f :: g :: h :: _ => mkDigest a b c d e f g h
  | _ => mkDigest 0 0 0 0 0 0 0 0
  end.

(** One round, with its schedule word and constant. *)
Definition sha256_round (d : Digest) (wk : Z * Z) : Digest :=
  let '(mkDigest a b c d e f g h) := d in
  let t1 := add32 (add32 (add32 h (Sigma1 e)) (Ch e f g)) (add32 wk.2 wk.1) in
  let t2 := add32 (Sigma0 a) (Maj a b c) in
  mkDigest (add32 t1 t2) a b c (add32 d t1) e f g.

(** The schedule, from the last sixteen words, the newest first. *)
Fixpoint sha256_extend (n : nat) (recent : list Z) (words : list Z) : list Z :=
  match n with
  | O => rev words
  | S n =>
      let w := add32 (add32 (sigma1 (nth 1 recent 0)) (nth 6 recent 0))
                 (add32 (sigma0 (nth 14 recent 0)) (nth 15 recent 0)) in
      sha256_extend n (w :: firstn 15 recent) (w :: words)
  end.
Definition sha256_schedule (block : list Z) : list Z := sha256_extend 48 (rev block) (rev block).

Definition sha256_block (d : Digest) (block : list Z) : Digest :=
  let r := foldl sha256_round d (combine (sha256_schedule block) sha256_k) in
  mkDigest (add32 (d_a d) (d_a r)) (add32 (d_b d) (d_b r)) (add32 (d_c d) (d_c r)) (add32 (d_d d) (d_d r))
    (add32 (d_e d) (d_e r)) (add32 (d_f d) (d_f r)) (add32 (d_g d) (d_g r)) (add32 (d_h d) (d_h r)).

(** Big-endian bytes of a number and words of bytes. *)
Fixpoint be_bytes (width : nat) (n : Z) : list Z :=
  match width with O => [] | S w => Z.shiftr n (8 * Z.of_nat w) mod 256 :: be_bytes w n end.
Fixpoint be_words (l : list Z) : list Z :=
  match l with
  | a :: b :: c :: d :: l => Z.lor (Z.lor (Z.shiftl a 24) (Z.shiftl b 16)) (Z.lor (Z.shiftl c 8) d) :: be_words l
  | _ => []
  end.

(** The message, a one bit, zeros, and the length in bits: a whole number of blocks. *)
Definition sha256_pad (m : list Z) : list Z :=
  let n := Z.of_nat (length m) in
  m ++ [128] ++ repeat 0 (Z.to_nat ((55 - n) mod 64)) ++ be_bytes 8 (8 * n).

Fixpoint sha256_blocks (fuel : nat) (d : Digest) (words : list Z) : Digest :=
  match fuel, words with
  | O, _ | _, [] => d
  | S fuel, _ => sha256_blocks fuel (sha256_block d (firstn 16 words)) (skipn 16 words)
  end.

(** [sha256.Sum256], as the 32-byte string. *)
Definition Sum256 (s : string) : string :=
  let words := be_words (sha256_pad (map byte_val (bytes s))) in
  let d := sha256_blocks (length words) sha256_init words in
  of_bytes (map byte_of (flat_map (be_bytes 4)
    [d_a d; d_b d; d_c d; d_d d; d_e d; d_f d; d_g d; d_h d])).

Lemma length_be_bytes width n : length (be_bytes width n) = width.
Proof. induction width; cbn; [done|]. by rewrite IHwidth. Qed.

Lemma length_of_bytes l : String.length (of_bytes l) = length l.
Proof. induction l; cbn; [done|]. by f_equal. Qed.

(** A digest has 32 bytes, never none: it is stored as it is. *)
Lemma Sum256_length s : len (Sum256 s) = 32.
Proof. unfold Sum256, len. cbv zeta. by rewrite length_of_bytes, length_map. Qed.

Lemma Sum256_nonempty s : Sum256 s ≠ "".
Proof. intros He. pose proof (Sum256_length s) as Hl. by rewrite He in Hl. Qed.

Definition hex_of (s : string) : string := String.concat "" (map (λ c, hex 2 (byte_val c)) (bytes s)).
Example Sum256_abc :
  hex_of (Sum256 "abc") = "ba7816bf8f01cfea414140de5dae2223b00361a396177a9cb410ff61f20015ad".
Proof. vm_compute. reflexivity. Qed.
Example Sum256_empty :
  hex_of (Sum256 "") = "e3b0c44298fc1c149afbf4c8996fb92427ae41e4649b934ca495991b7852b855".
Proof. vm_compute. reflexivity. Qed.
Example Sum256_two_blocks :
  hex_of (Sum256 "abcdbcdecdefdefgefghfghighijhijkijkljklmklmnlmnomnopnopq") =
  "248d6a61d20638b8e5c026930c3e6039a33ce45964ff2167f6ecedd419db06c1".
Proof. vm_compute. reflexivity. Qed.
