(* ===== verification/Errors.v ===== *)
(** * Domain errors

    [internal/domain/errors.go]: the stable error codes, [NewError] and
    [WrapError], the deterministic order of error details ([SortDetails]), and
    [Error.Is].  [Detail] and [Error] themselves are [Detail] and
    [DomainError] of the prelude. *)

From S2P Require Import Prelude GoStrings.

(** ** Codes *)

Definition CodeInvalidArgument := "INVALID_ARGUMENT".
Definition CodeValidationError := "VALIDATION_ERROR".
Definition CodeInvalidTransition := "INVALID_STATUS_TRANSITION".
Definition CodeInvalidEpicParent := "INVALID_EPIC_PARENT".
Definition CodeIssueNotFound := "ISSUE_NOT_FOUND".
Definition CodeLabelNotFound := "LABEL_NOT_FOUND".
Definition CodeIssueArchived := "ISSUE_ARCHIVED".
Definition CodeIssueNotArchived := "ISSUE_NOT_ARCHIVED".
Definition CodeVersionConflict := "VERSION_CONFLICT".
Definition CodeActiveAttemptExists := "ACTIVE_ATTEMPT_EXISTS".
Definition CodeAttemptNotFound := "ATTEMPT_NOT_FOUND".
Definition CodeAttemptNotActive := "ATTEMPT_NOT_ACTIVE".
Definition CodeSessionNotFound := "SESSION_NOT_FOUND".
Definition CodeSessionNotActive := "SESSION_NOT_ACTIVE".
Definition CodeLeaseExpired := "LEASE_EXPIRED".
Definition CodeInvalidLeaseToken := "INVALID_LEASE_TOKEN".
Definition CodeIssueChangedDuringAttempt := "ISSUE_CHANGED_DURING_ATTEMPT".
Definition CodeUnresolvedBlockersAdded := "UNRESOLVED_BLOCKERS_ADDED".
Definition CodeBlocksCycle := "BLOCKS_CYCLE".
Definition CodeLimitExceeded := "LIMIT_EXCEEDED".
Definition CodeIDGeneration := "ID_GENERATION_FAILED".
Definition CodeIdempotencyConflict := "IDEMPOTENCY_CONFLICT".
Definition CodeProjectRequired := "PROJECT_REQUIRED".
Definition CodeProjectCapacityExceeded := "PROJECT_CAPACITY_EXCEEDED".
Definition CodeProjectNotFound := "PROJECT_NOT_FOUND".
Definition CodeProjectNotInitialized := "PROJECT_NOT_INITIALIZED".
Definition CodeStorageBusy := "STORAGE_BUSY".
Definition CodeStorageUnavailable := "STORAGE_UNAVAILABLE".
Definition CodeStorageCorrupt := "STORAGE_CORRUPT".
Definition CodeStorageConfiguration := "STORAGE_CONFIGURATION".
Definition CodeStorageConstraint := "STORAGE_CONSTRAINT".
Definition CodeStorageMigration := "STORAGE_MIGRATION".
Definition CodeStorageFailure := "STORAGE_FAILURE".
Definition CodeReviewAlreadyExists := "REVIEW_ALREADY_EXISTS".
Definition CodeReviewTargetStale := "STALE_REVIEW_TARGET".
Definition CodeReviewRequestClaimed := "REVIEW_REQUEST_CLAIMED".
Definition CodeReviewRequestNotReplaceable := "REVIEW_REQUEST_NOT_REPLACEABLE".
Definition CodeReviewRequestRequired := "REVIEW_REQUEST_REQUIRED".
Definition CodeReviewPurposeRequired := "REVIEW_PURPOSE_REQUIRED".
Definition CodePolicyNotFound := "POLICY_NOT_FOUND".
Definition CodePolicyArchived := "POLICY_ARCHIVED".
Definition CodeGateSnapshotNotFound := "GATE_SNAPSHOT_NOT_FOUND".
Definition CodeWorkflowGateUnsatisfied := "WORKFLOW_GATE_UNSATISFIED".
Definition CodeInvalidReservationSet := "INVALID_RESERVATION_SET".
Definition CodeResourceReservationConflict := "RESOURCE_RESERVATION_CONFLICT".
Definition CodeReservationNotFound := "RESERVATION_NOT_FOUND".
Definition CodeReservationNotActive := "RESERVATION_NOT_ACTIVE".

(** ** Details in deterministic order *)

Definition compareEntityIndex (left right : option Z) : Z :=
  match left, right with
  | None, None => 0
  | None, Some _ => -1
  | Some _, None => 1
  | Some l, Some r => if (l <? r)%Z then -1 else if (l >? r)%Z then 1 else 0
  end.

(** The "less" closure of [SortDetails]. *)
Definition detailLess (left right : Detail) : bool :=
  let compare := compareEntityIndex (d_EntityIndex left) (d_EntityIndex right) in
  if negb (compare =? 0)%Z then (compare <? 0)%Z
  else if negb (d_Field left =s d_Field right) then str_less (d_Field left) (d_Field right)
  else if negb (d_Code left =s d_Code right) then str_less (d_Code left) (d_Code right)
  else str_less (d_Message left) (d_Message right).

Definition SortDetails (details : list Detail) : list Detail :=
  stable_sort detailLess details.

Definition NewError (code message : string) (retryable : bool) (details : list Detail) : DomainError :=
  mkError code message (SortDetails details) retryable None.

Definition WrapError (cause code message : string) (retryable : bool) (details : list Detail) : DomainError :=
  let err := NewError code message retryable details in
  mkError (e_Code err) (e_Message err) (e_Details err) (e_Retryable err) (Some cause).

(** [(e *Error) Is(target)] for a domain-error target. *)
Definition Error_Is (e target : DomainError) : bool :=
  negb (e_Code target =s "") && (e_Code e =s e_Code target).

(** ** The order on details is a strict total order *)

(** Lexicographic combination of two strict orders, the shape of
    [detailLess] and of every multi-key comparator of the source. *)
Section lexicographic.
  Context {A B : Type} (key : A → B) (keyLess : B → B → bool) (less : A → A → bool).
  Context `{EqDecision B}.
Definition lexLess (x y : A) : bool :=
    if decide (key x = key y) then less x y else keyLess (key x) (key y).

  Hypothesis key_asym : ∀ a b, keyLess a b = true → keyLess b a = false.
  Hypothesis key_total : ∀ a b, keyLess a b = false → keyLess b a = false → a = b.
  Hypothesis key_trans : ∀ a b c, keyLess a b = true → keyLess b c = true → keyLess a c = true.

Lemma lexLess_asym :
    (∀ x y, less x y = true → less y x = false) →
    ∀ x y, lexLess x y = true → lexLess y x = false.
  Proof.
    intros Hl x y. unfold lexLess.
    destruct (decide (key x = key y)), (decide (key y = key x)); try congruence; eauto.
  Qed.

Lemma lexLess_total :
    (∀ x y, key x = key y → less x y = false → less y x = false → x = y) →
    ∀ x y, lexLess x y = false → lexLess y x = false → x = y.
  Proof.
    intros Hl x y. unfold lexLess.
    destruct (decide (key x = key y)), (decide (key y = key x)); try congruence; eauto.
    intros ??. exfalso; eauto.
  Qed.

Lemma lexLess_trans :
    (∀ x y z, less x y = true → less y z = true → less x z = true) →
    ∀ x y z, lexLess x y = true → lexLess y z = true → lexLess x z = true.
  Proof.
    intros Hl x y z. unfold lexLess.
    destruct (decide (key x = key y)) as [E1|N1], (decide (key y = key z)) as [E2|N2],
      (decide (key x = key z)) as [E3|N3]; try congruence; eauto.
    intros H1 H2. rewrite E3 in H1. apply key_asym in H1. congruence.
  Qed.
End lexicographic.

Definition indexLess (a b : option Z) : bool := (compareEntityIndex a b <? 0)%Z.

Lemma compareEntityIndex_0 a b : compareEntityIndex a b = 0%Z ↔ a = b.
Proof.
  destruct a as [a|], b as [b|]; cbn; try naive_solver.
  destruct (a <? b)%Z eqn:E1; [bool_simpl; split; [done|intros [= ->]; lia]|].
  destruct (a >? b)%Z eqn:E2; [rewrite Z.gtb_lt in E2; split; [done|intros [= ->]; lia]|].
  rewrite Z.gtb_ltb in E2. bool_simpl. split; [intros; f_equal; lia|done].
Qed.

Lemma indexLess_spec a b :
  indexLess a b =
  match a, b with
  | None, Some _ => true
  | Some x, Some y => (x <? y)%Z
  | _, None => false
  end.
Proof.
  unfold indexLess. destruct a as [x|], b as [y|]; try done. cbn.
  destruct (Z.ltb_spec x y); [done|]. by destruct (x >? y)%Z.
Qed.

Lemma indexLess_asym a b : indexLess a b = true → indexLess b a = false.
Proof. rewrite !indexLess_spec. destruct a, b; try done. rewrite Z.ltb_lt, Z.ltb_ge. lia. Qed.
Lemma indexLess_total a b : indexLess a b = false → indexLess b a = false → a = b.
Proof.
  rewrite !indexLess_spec. destruct a, b; try done.
  rewrite !Z.ltb_ge. intros. f_equal. lia.
Qed.
Lemma indexLess_trans a b c : indexLess a b = true → indexLess b c = true → indexLess a c = true.
Proof. rewrite !indexLess_spec. destruct a, b, c; try done. rewrite !Z.ltb_lt. lia. Qed.

(** The closure, key by key. *)
Definition messageLess (x y : Detail) : bool := str_less (d_Message x) (d_Message y).
Definition codeLess : Detail → Detail → bool := lexLess d_Code str_less messageLess.
Definition fieldLess : Detail → Detail → bool := lexLess d_Field str_less codeLess.

Lemma if_eqb_decide {A} (s t : string) (x y : A) :
  (if negb (s =s t) then x else y) = if decide (s = t) then y else x.
Proof.
  destruct (decide (s = t)) as [->|H]; [by rewrite eqb_string_refl|].
  by rewrite (proj2 (eqb_string_false s t) H).
Qed.

Lemma detailLess_lex x y : detailLess x y = lexLess d_EntityIndex indexLess fieldLess x y.
Proof.
  unfold detailLess, fieldLess, codeLess, messageLess, lexLess, indexLess.
  rewrite !if_eqb_decide.
  destruct (decide (d_EntityIndex x = d_EntityIndex y)) as [E|N].
  - apply compareEntityIndex_0 in E as ->. done.
  - destruct (Z.eqb_spec (compareEntityIndex (d_EntityIndex x) (d_EntityIndex y)) 0) as [E|_]; [|done].
    by apply compareEntityIndex_0 in E.
Qed.

#[local] Hint Resolve str_less_asym str_less_total str_less_trans : lex.
#[local] Hint Resolve indexLess_asym indexLess_total indexLess_trans : lex.

Lemma detailLess_asym x y : detailLess x y = true → detailLess y x = false.
Proof.
  rewrite !detailLess_lex. apply lexLess_asym; [eauto with lex|].
  apply lexLess_asym; [eauto with lex|]. apply lexLess_asym; [eauto with lex|].
  unfold messageLess. eauto with lex.
Qed.

Lemma detailLess_total x y : detailLess x y = false → detailLess y x = false → x = y.
Proof.
  rewrite !detailLess_lex. apply lexLess_total; [eauto with lex|]. clear x y.
  intros x y Hi. unfold fieldLess, lexLess.
  destruct (decide (d_Field x = d_Field y)) as [Hf|Hf], (decide (d_Field y = d_Field x));
    try congruence; [|intros; exfalso; eauto with lex].
  unfold codeLess, lexLess.
  destruct (decide (d_Code x = d_Code y)) as [Hc|Hc], (decide (d_Code y = d_Code x));
    try congruence; [|intros; exfalso; eauto with lex].
  unfold messageLess. intros H1 H2. pose proof (str_less_total _ _ H1 H2).
  destruct x, y; cbn in *; congruence.
Qed.

Lemma detailLess_trans x y z :
  detailLess x y = true → detailLess y z = true → detailLess x z = true.
Proof.
  rewrite !detailLess_lex. apply lexLess_trans; [eauto with lex..|].
  apply lexLess_trans; [eauto with lex..|]. apply lexLess_trans; [eauto with lex..|].
  unfold messageLess. eauto with lex.
Qed.

(** For a strict total order "not less" is transitive, as sorting needs. *)
Lemma not_less_trans_of {A} (less : A → A → bool) :
  (∀ x y, less x y = true → less y x = false) →
  (∀ x y, less x y = false → less y x = false → x = y) →
  (∀ x y z, less x y = true → less y z = true → less x z = true) →
  ∀ x y z, not_less less x y → not_less less y z → not_less less x z.
Proof.
  unfold not_less. intros Ha Ht Htr x y z H1 H2.
  destruct (less z x) eqn:E; [|done].
  destruct (less y x) eqn:E1; [done|]. destruct (less x y) eqn:E2.
  - rewrite (Htr z x y) in H2; done.
  - assert (x = y) by eauto. congruence.
Qed.

(** Sorting by a strict total order does not depend on the input's order. *)
Lemma StronglySorted_unique {A} (less : A → A → bool) l1 l2 :
  (∀ x y, less x y = false → less y x = false → x = y) →
  StronglySorted (not_less less) l1 → StronglySorted (not_less less) l2 →
  l1 ≡ₚ l2 → l1 = l2.
Proof.
  intros Ht H1. revert l2. induction H1 as [|x l1 H1 IH Hx]; intros l2 H2 Hp.
  { by apply Permutation_nil_l in Hp. }
  destruct H2 as [|y l2 H2 Hy]; [by apply Permutation_nil_r in Hp|].
  assert (x = y) as ->.
  { assert (y ∈ x :: l1) as Hyx by (rewrite Hp; left).
    assert (x ∈ y :: l2) as Hxy by (rewrite <-Hp; left).
    apply elem_of_cons in Hyx as [->|Hyx]; [done|].
    apply elem_of_cons in Hxy as [->|Hxy]; [done|].
    rewrite Forall_forall in Hx, Hy. apply Ht; [by apply Hy|by apply Hx]. }
  f_equal. apply IH; [done|]. by apply Permutation_cons_inv in Hp.
Qed.

Lemma stable_sort_unique {A} (less : A → A → bool) l1 l2 :
  (∀ x y, less x y = true → less y x = false) →
  (∀ x y, less x y = false → less y x = false → x = y) →
  (∀ x y z, less x y = true → less y z = true → less x z = true) →
  l1 ≡ₚ l2 → stable_sort less l1 = stable_sort less l2.
Proof.
  intros Ha Ht Htr Hp.
  apply (StronglySorted_unique less); [done|..].
  - apply stable_sort_sorted; eauto using not_less_trans_of.
  - apply stable_sort_sorted; eauto using not_less_trans_of.
  - by rewrite !stable_sort_Permutation.
Qed.

Lemma sort_Strings_unique l1 l2 : l1 ≡ₚ l2 → sort_Strings l1 = sort_Strings l2.
Proof.
  apply stable_sort_unique; eauto using str_less_asym, str_less_total, str_less_trans.
Qed.

Lemma SortDetails_sorted l : StronglySorted (not_less detailLess) (SortDetails l).
Proof.
  apply stable_sort_sorted; [apply detailLess_asym|].
  apply not_less_trans_of;
    eauto using detailLess_asym, detailLess_total, detailLess_trans.
Qed.

Lemma SortDetails_unique l1 l2 : l1 ≡ₚ l2 → SortDetails l1 = SortDetails l2.
Proof.
  apply stable_sort_unique; eauto using detailLess_asym, detailLess_total, detailLess_trans.
Qed.

(** * Properties *)

(** An error does not depend on the order its details are given in: the
    stored details are a sorted permutation, equal for all orders. *)
Theorem NewError_canonical code message retryable details details' :
  details ≡ₚ details' →
  NewError code message retryable details = NewError code message retryable details' ∧
  e_Details (NewError code message retryable details) ≡ₚ details ∧
  StronglySorted (λ x y, detailLess y x = false) (e_Details (NewError code message retryable details)).
Proof.
  intros Hp. split_and!.
  - unfold NewError. by rewrite (SortDetails_unique _ _ Hp).
  - apply stable_sort_Permutation.
  - apply SortDetails_sorted.
Qed.

Lemma NewError_canonical_witness :
  let d1 := mkDetail (Some 1%Z) "title" "REQUIRED" "" in let d2 := mkDetail None "labels" "DUPLICATE" "" in
  NewError CodeInvalidArgument "m" false [d1; d2] = NewError CodeInvalidArgument "m" false [d2; d1] ∧
  e_Details (NewError CodeInvalidArgument "m" false [d1; d2]) = [d2; d1].
Proof.
  cbv zeta. split; [|by vm_compute].
  apply (NewError_canonical CodeInvalidArgument "m" false
    [mkDetail (Some 1%Z) "title" "REQUIRED" ""; mkDetail None "labels" "DUPLICATE" ""]).
  apply Permutation_swap.
Defined.
