(* ===== verification/Validation.v ===== *)
(** * Validation primitives

    [internal/domain/validation.go] (limits, [ValidateText], [CopyBounded],
    [validationError]), the enum helpers of [vocabulary.go] and [issue.go]'s
    [invalidEnum], and [internal/ids/ids.go]'s [ParseStrict].

    The ULID decoder is the third-party package oklog/ulid: the class [ULID]
    holds [ulid.ParseStrict] followed by [String()], that is the canonical
    rendering of the parsed value or [None] on a parse error. *)

From S2P Require Import Prelude GoStrings Errors.

(** ** Limits *)

Definition MaxTitleRunes : Z := 300.
Definition MaxDescriptionRunes : Z := 100000.
Definition MaxAcceptanceCriteriaRunes : Z := 50000.
Definition MaxCommentRunes : Z := 50000.
Definition MaxDecisionSummaryRunes : Z := 2000.
Definition MaxDecisionContentRunes : Z := 100000.
Definition MaxAttemptNoteRunes : Z := 50000.
Definition MaxLabelNameRunes : Z := 64.
Definition MaxLabelsPerIssue : Z := 50.
Definition MaxRelationsPerOperation : Z := 100.
Definition MaxBatchIssues : Z := 50.
Definition MaxBatchLabelAssignments : Z := 50.
Definition MaxBatchDecisions : Z := 20.
Definition MaxLocalRefRunes : Z := 64.
Definition MaxIdempotencyKeyRunes : Z := 128.

(** ** Errors *)

Definition validationError (field code message : string) : DomainError :=
  NewError CodeInvalidArgument (field +:+ " " +:+ message) false
    [mkDetail None field code ""].

Definition invalidEnum `{UnicodeTables} (field value : string) : DomainError :=
  NewError CodeInvalidArgument ("unsupported " +:+ field +:+ " " +:+ Quote value) false
    [mkDetail None field "INVALID_ENUM" value].

(** ** Text *)

Definition ValidateText (field value : string) (maxRunes : Z) : result unit :=
  fail_if negb (ValidString value)
    with validationError field "INVALID_UTF8" "must contain valid UTF-8" ;;
  fail_if contains_byte (byte_of 0) value
    with validationError field "NUL_NOT_ALLOWED" "must not contain NUL characters" ;;
  fail_if (0 <=? maxRunes)%Z && (maxRunes <? RuneCountInString value)%Z
    with NewError CodeLimitExceeded
           (field +:+ " exceeds the maximum length of " +:+ Itoa maxRunes +:+ " characters") false
           [mkDetail None field "MAX_RUNES" ("maximum " +:+ Itoa maxRunes)] ;;
  Ok tt.

Definition validateOptionalText (field : string) (value : option string) (maximum : Z) : result unit :=
  match value with
  | None => Ok tt
  | Some v => ValidateText field v maximum
  end.

(** ** Bounded copies: values are immutable here, so the copy is the list. *)

Definition CopyBounded {A} (field : string) (values : list A) (maximum : Z) : result (list A) :=
  fail_if (maximum <? 0)%Z
    with NewError CodeInvalidArgument (field +:+ " has an invalid negative limit") false
           [mkDetail None field "INVALID_LIMIT" ""] ;;
  fail_if (maximum <? Z.of_nat (length values))%Z
    with NewError CodeLimitExceeded
           (field +:+ " exceeds the maximum count of " +:+ Itoa maximum) false
           [mkDetail None field "MAX_ITEMS" ("maximum " +:+ Itoa maximum)] ;;
  Ok values.

(** ** Enumerations: Go's string enums are open, so their types are strings and
    validity is a test. *)

Definition enumValid (value : string) (allowed : list string) : bool :=
  existsb (String.eqb value) allowed.

Definition in_enum (value : string) (allowed : list string) : Prop := value ∈ allowed.

(** ** Idempotency keys: the block every mutation's [Validate] repeats. *)

Definition validateIdempotencyKey (key : option string) : result (option string) :=
  match key with
  | None => Ok None
  | Some k =>
      try ValidateText "idempotency_key" k MaxIdempotencyKeyRunes ;;
      let k := TrimSpace k in
      fail_if k =s "" with validationError "idempotency_key" "REQUIRED" "must not be blank" ;;
      Ok (Some k)
  end.

(** ** ULIDs *)

Class ULID := { ulid_ParseStrict : string → option string }.

(** Documented behaviour of the package: an input whose length is not 26 is
    refused ([ErrDataSize]), rendering is canonical, and what is rendered is
    upper-case base 32. *)
Class ULIDLaws `{ULID} : Prop := {
  ulid_size : ∀ s c, ulid_ParseStrict s = Some c → len s = 26%Z;
  ulid_canonical : ∀ s c, ulid_ParseStrict s = Some c → ulid_ParseStrict c = Some c;
  ulid_base32 : ∀ s c, ulid_ParseStrict s = Some c → str_exists (λ b, negb (is_digit b || is_upper b)) c = false;
}.

(** [ids.ParseStrict]: only a canonical rendering is accepted. *)
Definition ids_ParseStrict `{ULID} (value : string) : bool :=
  match ulid_ParseStrict value with
  | Some canonical => canonical =s value
  | None => false
  end.

(** ** Lemmas *)

Lemma ValidateText_Ok field value maxRunes :
  ValidateText field value maxRunes = Ok tt ↔
  ValidString value = true ∧ contains_byte (byte_of 0) value = false ∧
  ((maxRunes < 0)%Z ∨ (RuneCountInString value <= maxRunes)%Z).
Proof.
  unfold ValidateText. rewrite !fail_if_Ok, negb_false_iff, andb_false_iff.
  rewrite Z.leb_gt, Z.ltb_ge. tauto.
Qed.

(** Acceptance does not depend on the field's name. *)
Lemma is_ok_ValidateText field value maxRunes :
  is_ok (ValidateText field value maxRunes) =
  ValidString value && negb (contains_byte (byte_of 0) value) &&
  ((maxRunes <? 0)%Z || (RuneCountInString value <=? maxRunes)%Z).
Proof.
  unfold ValidateText. destruct (ValidString value); [|done].
  destruct (contains_byte (byte_of 0) value); [done|]. cbn.
  destruct (Z.leb_spec 0 maxRunes), (Z.ltb_spec maxRunes 0), (Z.ltb_spec maxRunes (RuneCountInString value)),
    (Z.leb_spec (RuneCountInString value) maxRunes); try lia; done.
Qed.

Lemma CopyBounded_Ok {A} field (values : list A) maximum l :
  CopyBounded field values maximum = Ok l ↔
  (0 <= maximum)%Z ∧ (Z.of_nat (length values) <= maximum)%Z ∧ l = values.
Proof.
  unfold CopyBounded. rewrite !fail_if_Ok, !Z.ltb_ge. naive_solver.
Qed.

Lemma enumValid_spec value allowed : enumValid value allowed = true ↔ value ∈ allowed.
Proof.
  unfold enumValid. rewrite existsb_exists. split.
  - intros (x & Hx & ->%String.eqb_eq). by apply list_elem_of_In.
  - intros H. exists value. split; [by apply list_elem_of_In|apply eqb_string_refl].
Qed.

Lemma validateIdempotencyKey_Some k k' :
  validateIdempotencyKey (Some k) = Ok k' →
  k' = Some (TrimSpace k) ∧ blank k = false.
Proof. cbn. intros. inv_ok. done. Qed.

Lemma ids_ParseStrict_size `{ULIDLaws} s : ids_ParseStrict s = true → len s = 26%Z.
Proof.
  unfold ids_ParseStrict. destruct (ulid_ParseStrict s) eqn:E; [|done]. intros _.
  by eapply ulid_size.
Qed.

#[export] Hint Rewrite @ValidateText_Ok @CopyBounded_Ok enumValid_spec : go.

(** Trimming never turns an accepted text into a refused one. *)
Lemma ValidateText_trim field value maxRunes :
  ValidateText field value maxRunes = Ok tt → ValidateText field (TrimSpace value) maxRunes = Ok tt.
Proof.
  rewrite !ValidateText_Ok. intros (Hv & Hz & Hr). split_and!.
  - by apply TrimSpace_valid.
  - by apply TrimSpace_exists.
  - pose proof (TrimSpace_count value). lia.
Qed.
