(* ===== verification/Samples.v ===== *)
(** * Concrete instances of the foreign interfaces

    The development is parametric in the Unicode print table and in the ULID
    decoder of oklog/ulid.  This file instantiates both, so that theorems with
    hypotheses on them can be evaluated: printable ASCII, and 26 upper- or
    lower-case Crockford base-32 characters whose first is at most 7. *)

From S2P Require Import Prelude GoStrings Errors Validation.

#[export] Instance sample_tables : UnicodeTables :=
  {| unicode_IsPrint := λ c, (32 <=? c)%Z && (c <=? 126)%Z |}.

Definition upper_byte (c : ascii) : ascii :=
  if is_lower c then byte_of (byte_val c - 32) else c.

(** I, L, O and U are not in the alphabet. *)
Definition crockford (c : ascii) : bool :=
  (is_digit c || is_upper c) &&
  negb (existsb (fun n => byte_val c =? n)%Z [73; 76; 79; 85]%Z).

Definition sample_ParseStrict (s : string) : option string :=
  let u := str_map upper_byte s in
  if (len s =? 26)%Z && negb (str_exists (λ c, negb (crockford c)) u) &&
     match u with String c _ => (byte_val c <=? 55)%Z | EmptyString => false end
  then Some u else None.

#[export] Instance sample_ulid : ULID := {| ulid_ParseStrict := sample_ParseStrict |}.

Lemma upper_byte_idemp c : upper_byte (upper_byte c) = upper_byte c.
Proof.
  unfold upper_byte at 1. destruct (is_lower (upper_byte c)) eqn:E; [|done].
  exfalso. revert E. unfold upper_byte. destruct (is_lower c) eqn:Ec; [|congruence].
  apply in_range_spec in Ec. intros E. apply in_range_spec in E.
  rewrite byte_val_of in E; lia.
Qed.

#[export] Instance sample_ulid_laws : ULIDLaws.
Proof.
  assert (Hlen : ∀ s, len (str_map upper_byte s) = len s)
    by (intros s; unfold len; by rewrite str_map_length).
  assert (Hidem : ∀ s, str_map upper_byte (str_map upper_byte s) = str_map upper_byte s)
    by (intros s; rewrite str_map_compose; apply str_map_ext, upper_byte_idemp).
  split; cbn; unfold sample_ParseStrict; intros s c.
  - destruct (_ && _ && _) eqn:E; [|done]. intros _. bool_simpl. done.
  - destruct (_ && _ && _) eqn:E; [|done]. intros [= <-].
    by rewrite Hlen, Hidem, E.
  - destruct (_ && _ && _) eqn:E; [|done]. intros [= <-]. bool_simpl.
    match goal with Hc : str_exists _ _ = false |- _ => revert Hc end. generalize (str_map upper_byte s).
    intros u. induction u as [|b u IH]; [done|]. cbn. intros [Hb Hu]%orb_false_iff. rewrite (IH Hu), orb_false_r.
    apply negb_false_iff in Hb. unfold crockford in Hb. apply andb_true_iff in Hb as [-> _]. done.
Qed.

(** Canonical identifiers for examples. *)
Definition ulid_of (c : string) : string := "01HZZZZZZZZZZZZZZZZZZZZZZ" +:+ c.
