(* ===== verification/Issue.v ===== *)
(** * Issues: types, statuses, identifiers, labels

    [internal/domain/issue.go] (types, stored and effective statuses,
    priorities, the transition rules), [vocabulary.go]'s enumerations,
    [issue_projection.go]'s [Issue], [issue_identifier.go] and [label.go].

    [Type], [Status], [Priority] are Go string types: any string inhabits
    them, and [Valid] tests membership.  Timestamps are [Z], nanoseconds since
    the epoch in UTC. *)

From S2P Require Import Prelude GoStrings Errors Validation Samples.

(** ** Vocabularies *)

Definition TypeEpic := "epic".
Definition TypeTask := "task".
Definition TypeBug := "bug".
Definition AllIssueTypes := [TypeEpic; TypeTask; TypeBug].

Definition StatusOpen := "open".
Definition StatusReady := "ready".
Definition StatusBlocked := "blocked".
Definition StatusReview := "review".
Definition StatusDone := "done".
Definition StatusCancelled := "cancelled".
Definition AllStatuses :=
  [StatusOpen; StatusReady; StatusBlocked; StatusReview; StatusDone; StatusCancelled].

Definition PriorityLow := "low".
Definition PriorityMedium := "medium".
Definition PriorityHigh := "high".
Definition PriorityCritical := "critical".
Definition AllPriorities := [PriorityLow; PriorityMedium; PriorityHigh; PriorityCritical].

Definition Type_Valid (t : string) : bool := enumValid t AllIssueTypes.
Definition Type_Executable (t : string) : bool := (t =s TypeTask) || (t =s TypeBug).
Definition Status_Valid (s : string) : bool := enumValid s AllStatuses.
Definition Status_Terminal (s : string) : bool := (s =s StatusDone) || (s =s StatusCancelled).
Definition Priority_Valid (p : string) : bool := enumValid p AllPriorities.

Definition ParseType `{UnicodeTables} (value : string) : result string :=
  fail_if negb (Type_Valid value) with invalidEnum "type" value ;; Ok value.
Definition ParseStatus `{UnicodeTables} (value : string) : result string :=
  fail_if negb (Status_Valid value) with invalidEnum "status" value ;; Ok value.
Definition ParsePriority `{UnicodeTables} (value : string) : result string :=
  fail_if negb (Priority_Valid value) with invalidEnum "priority" value ;; Ok value.

(** ** Effective status *)

Definition EffectiveStatusInProgress := "in_progress".
Definition AllEffectiveStatuses :=
  [StatusOpen; StatusReady; StatusBlocked; StatusReview; StatusDone; StatusCancelled;
   EffectiveStatusInProgress].
Definition EffectiveStatus_Valid (s : string) : bool := enumValid s AllEffectiveStatuses.

Definition EffectiveStatusFor `{UnicodeTables} (stored : string) (hasActiveAttempt : bool) : result string :=
  fail_if negb (Status_Valid stored) with invalidEnum "status" stored ;;
  if hasActiveAttempt then Ok EffectiveStatusInProgress else Ok stored.

(** ** Transitions *)

Definition CanTransition (from to : string) : bool :=
  if negb (Status_Valid from) || negb (Status_Valid to) then false
  else if from =s StatusOpen then (to =s StatusReady) || (to =s StatusCancelled)
  else if from =s StatusReady then
    (to =s StatusBlocked) || (to =s StatusReview) || (to =s StatusDone) || (to =s StatusCancelled)
  else if from =s StatusBlocked then (to =s StatusReady) || (to =s StatusCancelled)
  else if from =s StatusReview then
    (to =s StatusReady) || (to =s StatusBlocked) || (to =s StatusDone) || (to =s StatusCancelled)
  else if from =s StatusDone then to =s StatusReady
  else if from =s StatusCancelled then to =s StatusOpen
  else false.

Definition ApplyStatusTransition `{UnicodeTables} (from to blockedReason : string) : result string :=
  fail_if negb (CanTransition from to) with
    NewError CodeInvalidTransition
      ("cannot transition issue status from " +:+ Quote from +:+ " to " +:+ Quote to) false
      [mkDetail None "status" CodeInvalidTransition ""] ;;
  if to =s StatusBlocked then
    fail_if blank blockedReason with
      NewError CodeInvalidArgument "blocked_reason is required when status is blocked" false
        [mkDetail None "blocked_reason" "REQUIRED" ""] ;;
    Ok blockedReason
  else Ok "".

Definition ApplyFinishTransition `{UnicodeTables} (from to blockedReason : string) : result string :=
  if (from =s StatusReady) && (to =s StatusReady) then Ok ""
  else ApplyStatusTransition from to blockedReason.

Definition ApplyPatchStatusTransition `{UnicodeTables} (issueType from to blockedReason : string) : result string :=
  if negb (Type_Executable issueType) && (from =s StatusOpen) && (to =s StatusDone) then Ok ""
  else ApplyStatusTransition from to blockedReason.

(** ** Labels *)

Record Label := mkLabel {
  l_ID : string;
  l_Name : string;
  l_NormalizedName : string;
  l_Description : option string;
  l_CreatedAt : Z;
}.

Definition asciiLower (value : string) : string := str_map lower_byte value.

(** Display and canonical name. *)
Definition NormalizeLabelName (name : string) : result (string * string) :=
  try ValidateText "labels" name MaxLabelNameRunes ;;
  let displayName := TrimSpace name in
  fail_if displayName =s ""
    with validationError "labels" "REQUIRED" "must not contain blank names" ;;
  Ok (displayName, asciiLower displayName).

(** The adjacent-duplicate scan over the sorted names. *)
Fixpoint adjacent_dup {A} (eq : A → A → bool) (l : list A) : bool :=
  match l with
  | x :: l' => match l' with y :: _ => eq x y | [] => false end || adjacent_dup eq l'
  | [] => false
  end.

Definition NormalizeLabelNames (names : list string) : result (list string) :=
  values ← CopyBounded "labels" names MaxLabelsPerIssue;
  normalized ← collect NormalizeLabelName values;
  let sorted := stable_sort (λ a b, str_less a.2 b.2) normalized in
  fail_if adjacent_dup (λ a b, a.2 =s b.2) sorted
    with validationError "labels" "DUPLICATE" "must not contain duplicate names" ;;
  Ok (map fst sorted).

(** ** The issue projection *)

Record Issue := mkIssue {
  i_ID : string;
  i_DisplayID : string;
  i_SequenceNo : Z;
  i_Type : string;
  i_Title : string;
  i_Description : option string;
  i_AcceptanceCriteria : option string;
  i_Status : string;
  i_Priority : string;
  i_ParentID : option string;
  i_BlockedReason : option string;
  i_Version : Z;
  i_CreatedBySessionID : option string;
  i_CreatedAt : Z;
  i_UpdatedAt : Z;
  i_ClosedAt : option Z;
  i_ArchivedAt : option Z;
  i_ArchivedBySessionID : option string;
  i_Labels : list Label;
}.

(** ** Identifiers *)

Inductive IssueIdentifierKind := IssueIdentifierInternalID | IssueIdentifierDisplayID.

Record IssueIdentifier := mkIdentifier {
  id_Kind : IssueIdentifierKind;
  id_Value : string;
  id_SequenceNo : Z;
}.

Definition invalidIssueIdentifier : DomainError :=
  validationError "issue_id" "INVALID_IDENTIFIER" "must be a canonical ULID or ISSUE-N".

Definition issue_prefix := "ISSUE-".

(** [strings.EqualFold(s, "ISSUE-")] on a six-byte [s]: six bytes that fold to
    six ASCII runes are ASCII themselves, so folding is ASCII folding. *)
Definition EqualFold_issue_prefix (s : string) : bool :=
  asciiLower s =s asciiLower issue_prefix.

Definition first_byte_zero (s : string) : bool :=
  match s with String c _ => Ascii.eqb c (byte_of 48) | EmptyString => false end.

Definition ParseIssueIdentifier `{ULID} (value : string) : result IssueIdentifier :=
  if ids_ParseStrict value then Ok (mkIdentifier IssueIdentifierInternalID value 0) else
  let n := String.length issue_prefix in
  fail_if (len value <? len issue_prefix)%Z || negb (EqualFold_issue_prefix (String.substring 0 n value))
    with invalidIssueIdentifier ;;
  let digits := String.substring n (String.length value - n) value in
  fail_if (digits =s "") || first_byte_zero digits with invalidIssueIdentifier ;;
  fail_if str_exists (λ c, negb (is_digit c)) digits with invalidIssueIdentifier ;;
  match ParseUint digits 63 with
  | None => Err invalidIssueIdentifier
  | Some sequenceNo =>
      fail_if (sequenceNo =? 0)%Z with invalidIssueIdentifier ;;
      Ok (mkIdentifier IssueIdentifierDisplayID ("ISSUE-" +:+ Itoa sequenceNo) sequenceNo)
  end.

(** ** Lemmas: transitions *)

(** The transition table. *)
Definition transition_table : list (string * string) :=
  [(StatusOpen, StatusReady); (StatusOpen, StatusCancelled);
   (StatusReady, StatusBlocked); (StatusReady, StatusReview); (StatusReady, StatusDone);
   (StatusReady, StatusCancelled);
   (StatusBlocked, StatusReady); (StatusBlocked, StatusCancelled);
   (StatusReview, StatusReady); (StatusReview, StatusBlocked); (StatusReview, StatusDone);
   (StatusReview, StatusCancelled);
   (StatusDone, StatusReady);
   (StatusCancelled, StatusOpen)].

Lemma Status_Valid_cases s :
  Status_Valid s = true ↔
  s = StatusOpen ∨ s = StatusReady ∨ s = StatusBlocked ∨ s = StatusReview ∨
  s = StatusDone ∨ s = StatusCancelled.
Proof.
  unfold Status_Valid. rewrite enumValid_spec. unfold AllStatuses.
  rewrite !elem_of_cons, elem_of_nil. tauto.
Qed.

Ltac status_cases H :=
  apply Status_Valid_cases in H; destruct_or! H; subst.

Lemma CanTransition_valid from to :
  CanTransition from to = true → Status_Valid from = true ∧ Status_Valid to = true.
Proof.
  unfold CanTransition. destruct (Status_Valid from), (Status_Valid to); done.
Qed.

Lemma CanTransition_table from to :
  CanTransition from to = true ↔ (from, to) ∈ transition_table.
Proof.
  split.
  - intros H. destruct (CanTransition_valid _ _ H) as [Hf Ht].
    status_cases Hf; status_cases Ht; try done; by (apply (bool_decide_unpack _); vm_compute).
  - intros H. unfold transition_table in H.
    repeat (apply elem_of_cons in H as [[= -> ->]|H]; [done|]). by apply elem_of_nil in H.
Qed.

Lemma CanTransition_irrefl s : CanTransition s s = false.
Proof.
  destruct (CanTransition s s) eqn:E; [|done].
  destruct (CanTransition_valid _ _ E) as [H _]. by status_cases H.
Qed.

Section with_tables.
  Context `{UnicodeTables}.

Lemma ApplyStatusTransition_Ok from to reason out :
    ApplyStatusTransition from to reason = Ok out ↔
    CanTransition from to = true ∧
    (if to =s StatusBlocked then blank reason = false ∧ out = reason else out = "").
  Proof.
    unfold ApplyStatusTransition. rewrite fail_if_Ok, negb_false_iff.
    destruct (to =s StatusBlocked); [rewrite fail_if_Ok|]; naive_solver.
  Qed.
End with_tables.

(** ** Lemmas: labels *)

Lemma NormalizeLabelName_Ok name d c :
  NormalizeLabelName name = Ok (d, c) ↔
  ValidateText "labels" name MaxLabelNameRunes = Ok tt ∧ d = TrimSpace name ∧
  d ≠ "" ∧ c = asciiLower d.
Proof.
  unfold NormalizeLabelName. rewrite try_Ok, fail_if_Ok, eqb_string_false. split.
  - intros [[[] ?] [? [= <- <-]]]. done.
  - intros (? & -> & ? & ->). eauto.
Qed.

Lemma NormalizeLabelName_idemp name d c :
  NormalizeLabelName name = Ok (d, c) → NormalizeLabelName d = Ok (d, c).
Proof.
  rewrite !NormalizeLabelName_Ok. intros (Hv & -> & Hne & ->).
  split_and!; [by apply ValidateText_trim|by rewrite TrimSpace_idemp|done|done].
Qed.

(** A sorted list has no equal neighbours exactly when its keys are distinct. *)
Definition key_less {A} (key : A → string) (a b : A) : bool := str_less (key a) (key b).

Section adjacent.
  Context {A : Type} (key : A → string).
  Local Notation less := (key_less key).

Lemma sorted_no_adjacent_dup l :
    StronglySorted (not_less less) l →
    adjacent_dup (λ a b, key a =s key b) l = false ↔ NoDup (map key l).
  Proof.
    induction 1 as [|x l Hs IH Hx]; cbn; [split; [constructor|done]|].
    rewrite orb_false_iff, NoDup_cons, IH. split; [|intros [Hn ?]; split; [|done]].
    - intros [Hxy ?]. split; [|done]. intros (z & Hk & Hz)%list_elem_of_fmap.
      destruct l as [|y l]; [by apply elem_of_nil in Hz|].
      apply eqb_string_false in Hxy. apply elem_of_cons in Hz as [->|Hz]; [done|].
      inversion Hs as [|?? Hs' Hy]; subst. apply Forall_cons in Hx as [Hxy' _].
      rewrite Forall_forall in Hy. pose proof (Hy _ Hz) as Hyz.
      unfold not_less, key_less in *. rewrite Hk in *.
      apply Hxy. symmetry. by apply str_less_total.
    - destruct l as [|y l]; [done|]. apply eqb_string_false. intros E.
      apply Hn. rewrite E. left.
  Qed.

Lemma keyLess_asym a b : less a b = true → less b a = false.
  Proof. apply str_less_asym. Qed.
Lemma keyLess_not_trans a b c : not_less less a b → not_less less b c → not_less less a c.
  Proof. unfold not_less, key_less. intros. by eapply (not_less_str_trans (key a) (key b)). Qed.

Lemma key_sort_sorted l : StronglySorted (not_less less) (stable_sort less l).
  Proof. apply stable_sort_sorted; eauto using keyLess_asym, keyLess_not_trans. Qed.

  (** A list already sorted by key is left alone. *)
Lemma insert_before_head x l :
    Forall (not_less less x) l → insert_before less x l = x :: l.
  Proof. destruct 1 as [|y l Hy]; [done|]. cbn. by rewrite Hy. Qed.

Lemma key_sort_id l : StronglySorted (not_less less) l → stable_sort less l = l.
  Proof.
    induction 1 as [|x l Hs IH Hx]; [done|].
    rewrite stable_sort_cons, IH. by apply insert_before_head.
  Qed.
End adjacent.

Lemma collect_labels_fst names pairs :
  collect NormalizeLabelName names = Ok pairs →
  map fst pairs = map TrimSpace names ∧ map snd pairs = map (asciiLower ∘ TrimSpace) names.
Proof.
  rewrite collect_Ok. induction 1 as [|n [d c] names pairs Hn _ [IH1 IH2]]; [done|].
  apply NormalizeLabelName_Ok in Hn as (_ & -> & _ & ->). cbn. by rewrite IH1, IH2.
Qed.

Definition label_key_less : string → string → bool := key_less asciiLower.

(** The complete behaviour of a successful normalization. *)
Lemma NormalizeLabelNames_Ok names out :
  NormalizeLabelNames names = Ok out ↔
  (Z.of_nat (length names) <= MaxLabelsPerIssue)%Z ∧
  Forall (λ n, ValidateText "labels" n MaxLabelNameRunes = Ok tt ∧ TrimSpace n ≠ "") names ∧
  NoDup (map (asciiLower ∘ TrimSpace) names) ∧
  out = stable_sort label_key_less (map TrimSpace names).
Proof.
  set (pl := @key_less (string * string) snd).
  assert (Hsort : ∀ pairs : list (string * string),
    Forall (λ p, p.2 = asciiLower p.1) pairs →
    map fst (stable_sort pl pairs) = stable_sort label_key_less (map fst pairs)).
  { intros pairs Hp. rewrite Forall_forall in Hp. apply stable_sort_map.
    intros x y Hx Hy. unfold pl, label_key_less, key_less. by rewrite (Hp x), (Hp y). }
  unfold NormalizeLabelNames.
  change (λ a b : string * string, str_less a.2 b.2) with pl. rewrite result_bind_Ok. setoid_rewrite CopyBounded_Ok.
  split.
  - intros (? & (_ & Hlen & ->) & Hb).
    apply result_bind_Ok in Hb as (pairs & Hc & Hk). apply fail_if_Ok in Hk as [Hdup [= <-]].
    pose proof (collect_labels_fst _ _ Hc) as [H1 H2]. apply collect_Ok in Hc.
    split_and!; [done|..].
    + clear -Hc. induction Hc as [|n [d c] ? ? Hn]; constructor; [|done].
      apply NormalizeLabelName_Ok in Hn as (? & -> & ? & _). done.
    + apply (sorted_no_adjacent_dup snd) in Hdup; [|apply key_sort_sorted].
      rewrite <-H2. by rewrite stable_sort_Permutation in Hdup.
    + rewrite <-H1. apply Hsort. clear -Hc.
      induction Hc as [|n [d c] ? ? Hn]; constructor; [|done].
      by apply NormalizeLabelName_Ok in Hn as (_ & _ & _ & ->).
  - intros (Hlen & Hall & Hnd & ->). exists names. split; [done|].
    assert (Hc : collect NormalizeLabelName names =
                 Ok (map (λ n, (TrimSpace n, asciiLower (TrimSpace n))) names)).
    { apply collect_Ok. clear -Hall. induction Hall as [|n names [Hv Hne] Hall IH]; constructor; [|done].
      by apply NormalizeLabelName_Ok. }
    apply result_bind_Ok. eexists. split; [exact Hc|]. apply fail_if_Ok. split.
    + apply (sorted_no_adjacent_dup snd); [apply key_sort_sorted|].
      rewrite stable_sort_Permutation, map_map. done.
    + f_equal. rewrite Hsort; [by rewrite map_map|]. by apply Forall_map, Forall_true.
Qed.

(** ** Lemmas: identifiers *)

Section identifiers.
  Context `{ULIDLaws}.

Lemma ParseIssueIdentifier_display n :
    (0 < n < 2 ^ 63)%Z →
    ParseIssueIdentifier ("ISSUE-" +:+ Itoa n) =
    Ok (mkIdentifier IssueIdentifierDisplayID ("ISSUE-" +:+ Itoa n) n).
  Proof.
    intros Hn. destruct (Itoa_shape n) as (c & t & Hs & Hc & Hd & Hl); [lia|].
    unfold ParseIssueIdentifier.
    destruct (ids_ParseStrict _) eqn:E.
    { exfalso. apply ids_ParseStrict_size in E. unfold len in E, Hl.
      rewrite length_append in E. change (String.length "ISSUE-") with 6 in E.
      assert (Z.of_nat (String.length (Itoa n)) - 1 = 19)%Z as Hx by lia.
      rewrite Hx in Hl. lia. }
    change issue_prefix with "ISSUE-".
    rewrite substring_append, (substring_prefix "ISSUE-").
    assert ((len ("ISSUE-" +:+ Itoa n) <? len "ISSUE-")%Z = false) as ->.
    { apply Z.ltb_ge. unfold len. rewrite length_append. lia. }
    assert (EqualFold_issue_prefix "ISSUE-" = true) as -> by done. cbn [negb orb].
    rewrite Hd, ParseUint_Itoa by lia.
    rewrite (proj2 (Z.eqb_neq n 0)) by lia. rewrite Hs.
    assert (first_byte_zero (String c t) = false) as ->.
    { apply Ascii.eqb_neq. done. }
    done.
  Qed.

  (** The sequence number of a successful parse fits SQLite's INTEGER. *)
Lemma ParseIssueIdentifier_range v i :
    ParseIssueIdentifier v = Ok i →
    (id_Kind i = IssueIdentifierInternalID ∧ id_Value i = v ∧ ids_ParseStrict v = true) ∨
    (id_Kind i = IssueIdentifierDisplayID ∧ id_Value i = "ISSUE-" +:+ Itoa (id_SequenceNo i) ∧
     (0 < id_SequenceNo i < 2 ^ 63)%Z).
  Proof.
    unfold ParseIssueIdentifier. destruct (ids_ParseStrict v) eqn:E.
    { intros. inv_ok. by left. }
    intros Hi. inv_ok.
    match type of Hi with context [ParseUint ?d 63] =>
      destruct (ParseUint d 63) as [n|] eqn:Hp; [|done] end.
    inv_ok. right. split; [done|]. split; [done|]. cbn.
    unfold ParseUint in Hp. destruct (_ =s _); [done|].
    apply bind_Some in Hp as (m & Hm & Hp). destruct (m <? 2 ^ 63)%Z eqn:Hlt; [|done].
    injection Hp as ->. bool_simpl.
    assert (Hpos : ∀ s acc k, (0 <= acc)%Z → parse_digits acc s = Some k → (0 <= k)%Z).
    { clear. induction s as [|c s IH]; intros acc k Hacc; cbn; [naive_solver|].
      destruct (is_digit c) eqn:Ed; [|done]. apply in_range_spec in Ed.
      apply IH. unfold digit_val. lia. }
    pose proof (Hpos _ 0%Z _ ltac:(lia) Hm). lia.
  Qed.
End identifiers.

(** ** Normal forms are fixed points *)

Lemma NormalizeLabelNames_idemp names out :
  NormalizeLabelNames names = Ok out → NormalizeLabelNames out = Ok out.
Proof.
  rewrite !NormalizeLabelNames_Ok. intros (Hlen & Hall & Hnd & Hout).
  assert (Hp : out ≡ₚ map TrimSpace names) by (rewrite Hout; apply stable_sort_Permutation).
  assert (Htrim : map TrimSpace out = out).
  { rewrite Hout, (stable_sort_map TrimSpace label_key_less label_key_less); [|].
    - rewrite map_map. f_equal. apply map_ext. intros n. apply TrimSpace_idemp.
    - intros x y Hx Hy. apply list_elem_of_fmap in Hx as (n & -> & _).
      apply list_elem_of_fmap in Hy as (m & -> & _). unfold label_key_less, key_less.
      by rewrite !TrimSpace_idemp. }
  split_and!.
  - by rewrite Hp, length_map.
  - rewrite Hp, Forall_map. eapply Forall_impl; [exact Hall|]. cbn. intros n [Hv Hn].
    rewrite TrimSpace_idemp. split; [by apply ValidateText_trim|done].
  - replace (map (asciiLower ∘ TrimSpace) out) with (map asciiLower (map TrimSpace out))
      by (rewrite map_map; done).
    rewrite Htrim, Hp, map_map. done.
  - rewrite Htrim. symmetry. rewrite Hout. apply key_sort_id, key_sort_sorted.
Qed.

Lemma validateIdempotencyKey_idemp k k' :
  validateIdempotencyKey k = Ok k' → validateIdempotencyKey k' = Ok k'.
Proof.
  destruct k as [k|]; cbn; intros; inv_ok; [|done]. cbn.
  rewrite TrimSpace_idemp. rewrite ValidateText_trim; [|by destruct a].
  match goal with H : (TrimSpace k =s "") = false |- _ => by rewrite H end.
Qed.

(** ASCII text without NUL always passes when no length limit is set. *)
Definition plain_ascii (s : string) : bool :=
  negb (str_exists (λ c, negb (in_range 1 127 c)) s).

Lemma plain_ascii_runes s :
  plain_ascii s = true → ValidString s = true ∧ contains_byte (byte_of 0) s = false.
Proof.
  unfold plain_ascii, ValidString, contains_byte. rewrite negb_true_iff.
  change (utf8_decode (bytes s)) with (runes s).
  induction s as [|c s IH]; [done|]. cbn [str_exists]. rewrite orb_false_iff, negb_false_iff.
  intros [Hc Hs]. apply in_range_spec in Hc. destruct (IH Hs) as [IH1 IH2].
  rewrite runes_ascii by lia. cbn [forallb rune_ok andb]. split; [done|].
  rewrite IH2, orb_false_r. apply Ascii.eqb_neq. intros <-.
  change (byte_val (byte_of 0)) with 0%Z in Hc. lia.
Qed.

Lemma plain_ascii_app s t : plain_ascii (s +:+ t) = plain_ascii s && plain_ascii t.
Proof. unfold plain_ascii. by rewrite str_exists_app, negb_orb. Qed.

Lemma digits_plain s : str_exists (λ c, negb (is_digit c)) s = false → plain_ascii s = true.
Proof.
  unfold plain_ascii. rewrite negb_true_iff. induction s as [|c s IH]; [done|]. cbn.
  rewrite !orb_false_iff, !negb_false_iff. intros [Hc Hs]. split; [|by apply IH].
  apply in_range_spec. apply in_range_spec in Hc. lia.
Qed.

Lemma ParseIssueIdentifier_idemp `{ULIDLaws} v i :
  ParseIssueIdentifier v = Ok i → ParseIssueIdentifier (id_Value i) = Ok i.
Proof.
  intros Hi. destruct (ParseIssueIdentifier_range _ _ Hi) as [(Hk & Hv & Hu)|(Hk & Hv & Hr)].
  - by rewrite Hv.
  - rewrite Hv, ParseIssueIdentifier_display by done. f_equal.
    destruct i; cbn in *. by subst.
Qed.

(** * Properties *)

(** The status machine: a transition is accepted exactly on the fourteen
    edges of the table, a move to blocked needs a non-blank reason and is the
    only one that keeps a reason, every refusal has the code of its cause, and
    every status can be reached from every other. *)
Theorem status_machine `{UnicodeTables} from to reason :
  (∀ r, ApplyStatusTransition from to reason = Ok r ↔
     (from, to) ∈ transition_table ∧
     ((to = StatusBlocked ∧ blank reason = false ∧ r = reason) ∨ (to ≠ StatusBlocked ∧ r = ""))) ∧
  (∀ e, ApplyStatusTransition from to reason = Err e →
     ((from, to) ∉ transition_table ∧ e_Code e = CodeInvalidTransition) ∨
     (to = StatusBlocked ∧ blank reason = true ∧ e_Code e = CodeInvalidArgument)) ∧
  (Status_Valid from = true → Status_Valid to = true →
     rtc (λ s t, CanTransition s t = true) from to).
Proof.
  split_and!.
  - intros r. unfold ApplyStatusTransition. rewrite fail_if_Ok, negb_false_iff, CanTransition_table.
    destruct (to =s StatusBlocked) eqn:E.
    + apply eqb_string_true in E. rewrite fail_if_Ok. naive_solver.
    + apply eqb_string_false in E. naive_solver.
  - intros e. unfold ApplyStatusTransition. destruct (CanTransition from to) eqn:C; cbn.
    + destruct (to =s StatusBlocked) eqn:E; [|done]. apply eqb_string_true in E.
      destruct (blank reason) eqn:B; [|done]. intros [= <-]. by right.
    + intros [= <-]. left. split; [|done]. rewrite <-CanTransition_table. congruence.
  - intros Hf Ht.
    assert (Hto : rtc (λ s t, CanTransition s t = true) from StatusReady).
    { status_cases Hf; try (by apply rtc_once); [reflexivity|].
      transitivity StatusOpen; by apply rtc_once. }
    etrans; [exact Hto|]. status_cases Ht; try (by apply rtc_once); [|reflexivity].
    transitivity StatusCancelled; by apply rtc_once.
Qed.

(** Labels: at most fifty non-blank names whose canonical forms are distinct
    are accepted; the result lists the trimmed names sorted by canonical form,
    and normalizing it again changes nothing. *)
Theorem NormalizeLabelNames_canonical names out :
  NormalizeLabelNames names = Ok out →
  (Z.of_nat (length names) <= 50)%Z ∧
  out ≡ₚ map TrimSpace names ∧
  NoDup (map asciiLower out) ∧
  StronglySorted (λ a b, str_less (asciiLower b) (asciiLower a) = false) out ∧
  NormalizeLabelNames out = Ok out.
Proof.
  intros Hok. pose proof (NormalizeLabelNames_idemp _ _ Hok) as Hid.
  apply NormalizeLabelNames_Ok in Hok as (Hlen & _ & Hnd & Hout).
  assert (Hperm : out ≡ₚ map TrimSpace names) by (rewrite Hout; apply stable_sort_Permutation).
  split_and!; [done|done| | |done].
  - by rewrite Hperm, map_map.
  - rewrite Hout. apply (key_sort_sorted asciiLower).
Qed.

(** Issue references are canonical: the display form of every sequence
    number of SQLite's range parses back to it, and whatever spelling parses,
    its canonical value parses to the same identifier. *)
Theorem ParseIssueIdentifier_canonical `{ULIDLaws} :
  (∀ n, (0 < n < 2 ^ 63)%Z →
     ParseIssueIdentifier ("ISSUE-" +:+ Itoa n) =
     Ok (mkIdentifier IssueIdentifierDisplayID ("ISSUE-" +:+ Itoa n) n)) ∧
  (∀ v i, ParseIssueIdentifier v = Ok i →
     ParseIssueIdentifier (id_Value i) = Ok i ∧
     (id_Kind i = IssueIdentifierInternalID → id_Value i = v) ∧
     (id_Kind i = IssueIdentifierDisplayID →
        id_Value i = "ISSUE-" +:+ Itoa (id_SequenceNo i) ∧ (0 < id_SequenceNo i < 2 ^ 63)%Z)).
Proof.
  split; [apply ParseIssueIdentifier_display|]. intros v i Hi.
  split; [by eapply ParseIssueIdentifier_idemp|].
  destruct (ParseIssueIdentifier_range _ _ Hi) as [(Hk & Hv & _)|(Hk & Hv & Hr)];
    rewrite Hk; by split.
Qed.

(** ** Witnesses *)

Lemma status_machine_witness :
  ApplyStatusTransition StatusReady StatusBlocked "waiting" = Ok "waiting" ∧
  rtc (λ s t, CanTransition s t = true) StatusOpen StatusReview.
Proof.
  split; [by vm_compute|].
  apply (status_machine StatusOpen StatusReview ""); by vm_compute.
Defined.

Lemma NormalizeLabelNames_canonical_witness :
  NormalizeLabelNames [" Zeta"; "alpha "] = Ok ["alpha"; "Zeta"] ∧
  NormalizeLabelNames ["alpha"; "Zeta"] = Ok ["alpha"; "Zeta"].
Proof.
  split; [by vm_compute|].
  apply (NormalizeLabelNames_canonical [" Zeta"; "alpha "]). by vm_compute.
Defined.

Lemma ParseIssueIdentifier_canonical_witness :
  ParseIssueIdentifier "issue-42" = Ok (mkIdentifier IssueIdentifierDisplayID "ISSUE-42" 42) ∧
  ParseIssueIdentifier "ISSUE-42" = Ok (mkIdentifier IssueIdentifierDisplayID "ISSUE-42" 42).
Proof.
  split; [by vm_compute|].
  destruct ParseIssueIdentifier_canonical as [_ Hcanon].
  apply (Hcanon "issue-42" (mkIdentifier IssueIdentifierDisplayID "ISSUE-42" 42)).
  by vm_compute.
Defined.
