(* ===== verification/Relation.v ===== *)
(** * Relations between issues

    [internal/domain/relation.go]: relation types and actions, the validation
    of a relation request and the canonical order of a symmetric relation. *)

From S2P Require Import Prelude GoStrings Errors Validation Samples Issue.

Definition RelationTypeBlocks := "blocks".
Definition RelationTypeRelatedTo := "related_to".
Definition RelationTypeDuplicates := "duplicates".
Definition AllRelationTypes := [RelationTypeBlocks; RelationTypeRelatedTo; RelationTypeDuplicates].
Definition RelationType_Valid (t : string) : bool := enumValid t AllRelationTypes.

Definition RelationActionAdd := "add".
Definition RelationActionRemove := "remove".
Definition RelationAction_Valid (a : string) : bool := (a =s RelationActionAdd) || (a =s RelationActionRemove).

Record IssueRelation := mkRelation {
  rel_ID : string;
  rel_SourceIssueID : string;
  rel_TargetIssueID : string;
  rel_Type : string;
  rel_CreatedAt : Z;
}.

Record ManageIssueRelationInput := mkManageRelation {
  mr_Action : string;
  mr_SourceIssueID : string;
  mr_TargetIssueID : string;
  mr_RelationType : string;
  mr_IdempotencyKey : option string;
}.

Definition selfRelationError : DomainError :=
  NewError CodeInvalidArgument "source_issue_id and target_issue_id must identify different issues" false
    [mkDetail None "target_issue_id" "SELF_RELATION" ""].

(** The two kinds of identifier, compared. *)
Definition sameKind (a b : IssueIdentifierKind) : bool :=
  match a, b with
  | IssueIdentifierInternalID, IssueIdentifierInternalID | IssueIdentifierDisplayID, IssueIdentifierDisplayID => true
  | _, _ => false
  end.

(** [related_to] is symmetric and stored once, in the order of the internal ids. *)
Definition CanonicalRelationEndpoints (relationType sourceID targetID : string) : string * string :=
  if (relationType =s RelationTypeRelatedTo) && str_less targetID sourceID then (targetID, sourceID)
  else (sourceID, targetID).

Section validation.
Context `{UnicodeTables, ULID}.

Definition ParseRelationType (value : string) : result string :=
  fail_if negb (RelationType_Valid value) with invalidEnum "relation_type" value ;; Ok value.

Definition parseRelationIdentifier (field value : string) : result IssueIdentifier :=
  try ValidateText field value (-1) ;;
  match ParseIssueIdentifier value with
  | Ok identifier => Ok identifier
  | Err _ => Err (validationError field "INVALID_IDENTIFIER" "must be a canonical ULID or ISSUE-N")
  end.

Definition ManageIssueRelationInput_Validate (input : ManageIssueRelationInput) : result ManageIssueRelationInput :=
  fail_if negb (RelationAction_Valid (mr_Action input)) with invalidEnum "action" (mr_Action input) ;;
  fail_if negb (RelationType_Valid (mr_RelationType input))
    with invalidEnum "relation_type" (mr_RelationType input) ;;
  source ← parseRelationIdentifier "source_issue_id" (mr_SourceIssueID input);
  target ← parseRelationIdentifier "target_issue_id" (mr_TargetIssueID input);
  fail_if sameKind (id_Kind source) (id_Kind target) && (id_Value source =s id_Value target)
    with selfRelationError ;;
  idempotencyKey ← validateIdempotencyKey (mr_IdempotencyKey input);
  Ok (mkManageRelation (mr_Action input) (id_Value source) (id_Value target) (mr_RelationType input)
        idempotencyKey).
End validation.

(** ** Lemmas *)

Lemma CanonicalRelationEndpoints_cases t a b :
  CanonicalRelationEndpoints t a b = (a, b) ∨ CanonicalRelationEndpoints t a b = (b, a).
Proof. unfold CanonicalRelationEndpoints. destruct (_ && _); auto. Qed.

(** The canonical order is idempotent and forgets the direction of the
    symmetric type only. *)
Lemma CanonicalRelationEndpoints_sym a b :
  CanonicalRelationEndpoints RelationTypeRelatedTo a b = CanonicalRelationEndpoints RelationTypeRelatedTo b a.
Proof.
  unfold CanonicalRelationEndpoints. rewrite eqb_string_refl. cbn [andb].
  destruct (str_less b a) eqn:Eba, (str_less a b) eqn:Eab; try done.
  - by rewrite (str_less_asym _ _ Eba) in Eab.
  - by rewrite (str_less_total a b Eab Eba).
Qed.

Lemma CanonicalRelationEndpoints_ordered a b :
  a ≠ b → let '(x, y) := CanonicalRelationEndpoints RelationTypeRelatedTo a b in str_less x y = true.
Proof.
  intros Hne. unfold CanonicalRelationEndpoints. rewrite eqb_string_refl. cbn [andb].
  destruct (str_less b a) eqn:Eba; [done|]. destruct (str_less a b) eqn:Eab; [done|].
  by destruct Hne; apply str_less_total.
Qed.

Lemma CanonicalRelationEndpoints_directed t a b :
  t ≠ RelationTypeRelatedTo → CanonicalRelationEndpoints t a b = (a, b).
Proof. intros Ht%eqb_string_false. unfold CanonicalRelationEndpoints. by rewrite Ht. Qed.
