(* ===== verification/Session.v ===== *)
(** * Agent sessions

    [internal/domain/session.go]: the audit record of an agent connection and
    the validation of the metadata a client sends.  Strings are immutable
    values, so [Clone] is the identity. *)

From S2P Require Import Prelude GoStrings Errors Validation Samples.

Definition MaxSessionMetadataRunes : Z := 256.

Record AgentSession := mkSession {
  as_ID : string;
  as_ClientName : string;
  as_ClientVersion : option string;
  as_AgentLabel : option string;
  as_Model : option string;
  as_InstanceKey : option string;
  as_StartedAt : Z;
  as_LastSeenAt : Z;
  as_EndedAt : option Z;
}.

Record CreateAgentSessionInput := mkSessionInput {
  ci_ClientName : string;
  ci_ClientVersion : option string;
  ci_AgentLabel : option string;
  ci_Model : option string;
  ci_InstanceKey : option string;
}.

Definition normalizeSessionMetadata (field : string) (value : option string) : result (option string) :=
  match value with
  | None => Ok None
  | Some v =>
      let normalized := TrimSpace v in
      fail_if normalized =s "" with validationError field "REQUIRED" "must be nonblank when provided" ;;
      try ValidateText field normalized MaxSessionMetadataRunes ;;
      Ok (Some normalized)
  end.

Definition CreateAgentSessionInput_Validate (input : CreateAgentSessionInput) : result CreateAgentSessionInput :=
  let clientName := TrimSpace (ci_ClientName input) in
  fail_if clientName =s "" with validationError "client_name" "REQUIRED" "is required" ;;
  try ValidateText "client_name" clientName MaxSessionMetadataRunes ;;
  clientVersion ← normalizeSessionMetadata "client_version" (ci_ClientVersion input);
  agentLabel ← normalizeSessionMetadata "agent_label" (ci_AgentLabel input);
  model ← normalizeSessionMetadata "model" (ci_Model input);
  instanceKey ← normalizeSessionMetadata "instance_key" (ci_InstanceKey input);
  Ok (mkSessionInput clientName clientVersion agentLabel model instanceKey).

(** ** Lemmas *)

(** Validation is idempotent: what it returns passes again, unchanged.  This is
    why [loadAgentSessionFromRow] accepts the rows [CreateAgentSession] writes. *)
Lemma normalizeSessionMetadata_normal field field' value v :
  normalizeSessionMetadata field value = Ok v → normalizeSessionMetadata field' v = Ok v.
Proof.
  unfold normalizeSessionMetadata. destruct value as [value|]; [|by intros [= <-]]. cbv zeta. intros Hv. inv_ok.
  cbv iota beta. rewrite TrimSpace_idemp. rewrite H.
  match goal with E : ValidateText _ _ _ = Ok ?u |- _ => destruct u end.
  by rewrite (proj2 (ValidateText_Ok _ _ _) (proj1 (ValidateText_Ok _ _ _) E)).
Qed.

Lemma CreateAgentSessionInput_Validate_normal input v :
  CreateAgentSessionInput_Validate input = Ok v → CreateAgentSessionInput_Validate v = Ok v.
Proof.
  unfold CreateAgentSessionInput_Validate. cbv zeta. intros Hv. inv_ok.
  cbn [ci_ClientName ci_ClientVersion ci_AgentLabel ci_Model ci_InstanceKey].
  rewrite TrimSpace_idemp, H. match goal with E : ValidateText _ _ _ = Ok ?u |- _ => rewrite E end.
  repeat match goal with
  | Hn : normalizeSessionMetadata ?f _ = Ok ?x |- _ =>
      apply (normalizeSessionMetadata_normal f f) in Hn; rewrite Hn; clear Hn; cbn [mbind result_bind]
  end. done.
Qed.
