(* ===== verification/IssueOps.v ===== *)
(** * Creating, patching and archiving issues

    [internal/domain/issue_create.go] ([CreateIssueInput.Validate]),
    [issue_patch.go] ([UpdateIssueInput.Validate], [ApplyIssuePatch]) and
    [issue_archive.go] ([ArchiveIssueInput.Validate],
    [UnarchiveIssueInput.Validate]).

    Values are immutable, so the defensive copies of the source
    ([copyString], [copyIssuePatch]) are the values themselves.  A patch field
    keeps Go's [Set] flag next to its value; a nil slice is [None]. *)

From S2P Require Import Prelude GoStrings Errors Validation Samples Issue.

(** The zero [time.Time], 0001-01-01 UTC. *)
Definition time_zero : Z := -62135596800000000000.

Record OptionalValue (A : Type) := mkOptional { o_Set : bool; o_Value : A }.
Arguments mkOptional {A} _ _.
Arguments o_Set {A} _.
Arguments o_Value {A} _.

(** ** Creation *)

Record CreateIssueInput := mkCreate {
  ci_Type : string;
  ci_Title : string;
  ci_Description : option string;
  ci_AcceptanceCriteria : option string;
  ci_Status : string;
  ci_Priority : string;
  ci_ParentID : option string;
  ci_BlockedReason : option string;
  ci_Labels : list string;
  ci_CreateMissingLabels : bool;
  ci_IdempotencyKey : option string;
}.

Definition epicParentError : DomainError :=
  NewError CodeInvalidEpicParent "epic issues cannot have a parent" false
    [mkDetail None "parent_id" CodeInvalidEpicParent ""].
Definition blockedReasonRequired : DomainError :=
  NewError CodeInvalidArgument "blocked_reason is required when status is blocked" false
    [mkDetail None "blocked_reason" "REQUIRED" ""].
Definition blockedReasonForbidden : DomainError :=
  NewError CodeInvalidArgument "blocked_reason is only allowed when status is blocked" false
    [mkDetail None "blocked_reason" "FORBIDDEN" ""].

Section ops.
Context `{UnicodeTables, ULID}.

(** A parent reference, normalized to the identifier's canonical value. *)
Definition normalizeParent (parent : option string) : result (option string) :=
  match parent with
  | None => Ok None
  | Some p =>
      try ValidateText "parent_id" p (-1) ;;
      match ParseIssueIdentifier p with
      | Ok identifier => Ok (Some (id_Value identifier))
      | Err _ => Err (validationError "parent_id" "INVALID_IDENTIFIER"
                       "must be a canonical ULID or ISSUE-N")
      end
  end.

Definition CreateIssueInput_Validate (input : CreateIssueInput) : result CreateIssueInput :=
  fail_if negb (Type_Valid (ci_Type input)) with invalidEnum "type" (ci_Type input) ;;
  try ValidateText "title" (ci_Title input) MaxTitleRunes ;;
  fail_if blank (ci_Title input) with validationError "title" "REQUIRED" "must not be blank" ;;
  try validateOptionalText "description" (ci_Description input) MaxDescriptionRunes ;;
  try validateOptionalText "acceptance_criteria" (ci_AcceptanceCriteria input) MaxAcceptanceCriteriaRunes ;;
  let status := if ci_Status input =s "" then StatusOpen else ci_Status input in
  fail_if negb (Status_Valid status) with invalidEnum "status" status ;;
  let priority := if ci_Priority input =s "" then PriorityMedium else ci_Priority input in
  fail_if negb (Priority_Valid priority) with invalidEnum "priority" priority ;;
  parent ← normalizeParent (ci_ParentID input);
  fail_if (ci_Type input =s TypeEpic) && bool_decide (is_Some parent) with epicParentError ;;
  try (if status =s StatusBlocked then
         match ci_BlockedReason input with
         | None => Err blockedReasonRequired
         | Some reason =>
             fail_if blank reason with blockedReasonRequired ;;
             ValidateText "blocked_reason" reason (-1)
         end
       else match ci_BlockedReason input with
            | Some _ => Err blockedReasonForbidden
            | None => Ok tt
            end) ;;
  labels ← NormalizeLabelNames (ci_Labels input);
  idempotencyKey ← validateIdempotencyKey (ci_IdempotencyKey input);
  Ok (mkCreate (ci_Type input) (ci_Title input) (ci_Description input)
        (ci_AcceptanceCriteria input) status priority parent (ci_BlockedReason input)
        labels (ci_CreateMissingLabels input) idempotencyKey).

(** ** Patches *)

Record IssuePatch := mkPatch {
  p_Title : OptionalValue string;
  p_Description : OptionalValue (option string);
  p_AcceptanceCriteria : OptionalValue (option string);
  p_Type : OptionalValue string;
  p_Priority : OptionalValue string;
  p_Status : OptionalValue string;
  p_ParentID : OptionalValue (option string);
  p_BlockedReason : OptionalValue (option string);
  p_Labels : OptionalValue (option (list string));
}.

Record UpdateIssueInput := mkUpdate {
  u_IssueID : string;
  u_ExpectedVersion : Z;
  u_Changes : IssuePatch;
  u_CreateMissingLabels : bool;
  u_IdempotencyKey : option string;
}.

Definition anySet (patch : IssuePatch) : bool :=
  o_Set (p_Title patch) || o_Set (p_Description patch) || o_Set (p_AcceptanceCriteria patch) ||
  o_Set (p_Type patch) || o_Set (p_Priority patch) || o_Set (p_Status patch) ||
  o_Set (p_ParentID patch) || o_Set (p_BlockedReason patch) || o_Set (p_Labels patch).

(** The deferred error rewriting of the update, archive and unarchive
    validators. *)
Definition normalizeUpdateValidationError {A} (r : result A) : result A :=
  match r with
  | Ok a => Ok a
  | Err e =>
      if e_Code e =s CodeInvalidArgument
      then Err (NewError CodeValidationError (e_Message e) false (e_Details e))
      else Err e
  end.

Definition when {A} (f : OptionalValue A) (check : A → result unit) : result unit :=
  if o_Set f then check (o_Value f) else Ok tt.

Definition UpdateIssueInput_validate (input : UpdateIssueInput) : result UpdateIssueInput :=
  fail_if (u_ExpectedVersion input <? 1)%Z
    with validationError "expected_version" "REQUIRED" "must be at least 1" ;;
  identifier ← ParseIssueIdentifier (u_IssueID input);
  let patch := u_Changes input in
  fail_if negb (anySet patch)
    with validationError "changes" "REQUIRED" "must contain at least one changed field" ;;
  try when (p_Title patch) (λ title,
        try ValidateText "title" title MaxTitleRunes ;;
        fail_if blank title with validationError "title" "REQUIRED" "must not be blank" ;;
        Ok tt) ;;
  try when (p_Description patch) (λ v, validateOptionalText "description" v MaxDescriptionRunes) ;;
  try when (p_AcceptanceCriteria patch)
        (λ v, validateOptionalText "acceptance_criteria" v MaxAcceptanceCriteriaRunes) ;;
  try when (p_Type patch) (λ t, fail_if negb (Type_Valid t) with invalidEnum "type" t ;; Ok tt) ;;
  try when (p_Priority patch) (λ p, fail_if negb (Priority_Valid p) with invalidEnum "priority" p ;; Ok tt) ;;
  try when (p_Status patch) (λ s, fail_if negb (Status_Valid s) with invalidEnum "status" s ;; Ok tt) ;;
  parent ← (if o_Set (p_ParentID patch) then normalizeParent (o_Value (p_ParentID patch))
            else Ok (o_Value (p_ParentID patch)));
  try when (p_BlockedReason patch) (λ r, validateOptionalText "blocked_reason" r (-1)) ;;
  labels ← (if o_Set (p_Labels patch) then
              match o_Value (p_Labels patch) with
              | None => Err (validationError "labels" "NULL_NOT_ALLOWED" "must not be null")
              | Some names => Some <$> NormalizeLabelNames names
              end
            else Ok (o_Value (p_Labels patch)));
  idempotencyKey ← validateIdempotencyKey (u_IdempotencyKey input);
  Ok (mkUpdate (id_Value identifier) (u_ExpectedVersion input)
        (mkPatch (p_Title patch) (p_Description patch) (p_AcceptanceCriteria patch)
           (p_Type patch) (p_Priority patch) (p_Status patch)
           (mkOptional (o_Set (p_ParentID patch)) parent)
           (p_BlockedReason patch) (mkOptional (o_Set (p_Labels patch)) labels))
        (u_CreateMissingLabels input) idempotencyKey).

Definition UpdateIssueInput_Validate (input : UpdateIssueInput) : result UpdateIssueInput :=
  normalizeUpdateValidationError (UpdateIssueInput_validate input).

Definition labelsFromNames (names : list string) : list Label :=
  map (λ name,
    let normalized := match NormalizeLabelName name with Ok (_, n) => n | Err _ => "" end in
    mkLabel "" name normalized None time_zero) names.

Definition directTransitionToGatedStatusForbidden (current target : string) : DomainError :=
  NewError CodeInvalidTransition
    ("cannot transition issue status from " +:+ Quote current +:+ " to " +:+ Quote target +:+
     " directly; review and done are reachable only through claim_issue/finish_attempt") false
    [mkDetail None "changes.status" "UNSUPPORTED_DIRECT_TRANSITION" ""].

Definition pick {A} (f : OptionalValue A) (current : A) : A :=
  if o_Set f then o_Value f else current.
Definition mark {A} (f : OptionalValue A) (name : string) : gset string :=
  if o_Set f then {[ name ]} else ∅.

(** The unconditional part of [ApplyIssuePatch]: plain field replacement. *)
Definition patchFields (current : Issue) (patch : IssuePatch) : Issue :=
  {| i_ID := i_ID current;
     i_DisplayID := i_DisplayID current;
     i_SequenceNo := i_SequenceNo current;
     i_Type := pick (p_Type patch) (i_Type current);
     i_Title := pick (p_Title patch) (i_Title current);
     i_Description := pick (p_Description patch) (i_Description current);
     i_AcceptanceCriteria := pick (p_AcceptanceCriteria patch) (i_AcceptanceCriteria current);
     i_Status := i_Status current;
     i_Priority := pick (p_Priority patch) (i_Priority current);
     i_ParentID := pick (p_ParentID patch) (i_ParentID current);
     i_BlockedReason := i_BlockedReason current;
     i_Version := i_Version current;
     i_CreatedBySessionID := i_CreatedBySessionID current;
     i_CreatedAt := i_CreatedAt current;
     i_UpdatedAt := i_UpdatedAt current;
     i_ClosedAt := i_ClosedAt current;
     i_ArchivedAt := i_ArchivedAt current;
     i_ArchivedBySessionID := i_ArchivedBySessionID current;
     i_Labels := if o_Set (p_Labels patch)
                 then labelsFromNames (default [] (o_Value (p_Labels patch)))
                 else i_Labels current |}.

Definition patchedFieldNames (patch : IssuePatch) : gset string :=
  mark (p_Title patch) "title" ∪ mark (p_Description patch) "description" ∪
  mark (p_AcceptanceCriteria patch) "acceptance_criteria" ∪ mark (p_Type patch) "type" ∪
  mark (p_Priority patch) "priority" ∪ mark (p_ParentID patch) "parent_id" ∪
  mark (p_Labels patch) "labels".

Definition setStatus (i : Issue) (status : string) (reason : option string) : Issue :=
  {| i_ID := i_ID i; i_DisplayID := i_DisplayID i; i_SequenceNo := i_SequenceNo i;
     i_Type := i_Type i; i_Title := i_Title i; i_Description := i_Description i;
     i_AcceptanceCriteria := i_AcceptanceCriteria i; i_Status := status;
     i_Priority := i_Priority i; i_ParentID := i_ParentID i; i_BlockedReason := reason;
     i_Version := i_Version i; i_CreatedBySessionID := i_CreatedBySessionID i;
     i_CreatedAt := i_CreatedAt i; i_UpdatedAt := i_UpdatedAt i; i_ClosedAt := i_ClosedAt i;
     i_ArchivedAt := i_ArchivedAt i; i_ArchivedBySessionID := i_ArchivedBySessionID i;
     i_Labels := i_Labels i |}.

(** The status and blocked-reason part of [ApplyIssuePatch]. *)
Definition patchStatus (current result : Issue) (patch : IssuePatch) (changed : gset string) :
    Prelude.result (Issue * gset string) :=
  let target := o_Value (p_Status patch) in
  let reason := p_BlockedReason patch in
  if o_Set (p_Status patch) then
    fail_if (target =s StatusReview) ||
            ((target =s StatusDone) && (Type_Executable (i_Type current) || Type_Executable (i_Type result)))
      with directTransitionToGatedStatusForbidden (i_Status current) target ;;
    if target =s StatusBlocked then
      match o_Set reason, o_Value reason with
      | true, Some r =>
          r' ← ApplyStatusTransition (i_Status current) target r;
          Ok (setStatus result target (Some r'), changed ∪ {[ "blocked_reason"; "status" ]})
      | _, _ => Err blockedReasonRequired
      end
    else
      fail_if o_Set reason && bool_decide (is_Some (o_Value reason)) with blockedReasonForbidden ;;
      try ApplyPatchStatusTransition (i_Type result) (i_Status current) target "" ;;
      Ok (setStatus result target None,
          changed ∪ (if bool_decide (is_Some (i_BlockedReason current)) || o_Set reason
                     then {[ "blocked_reason" ]} else ∅) ∪ {[ "status" ]})
  else if o_Set reason then
    match o_Value reason with
    | Some r =>
        fail_if negb (i_Status current =s StatusBlocked) || blank r with blockedReasonRequired ;;
        Ok (setStatus result (i_Status result) (Some r), changed ∪ {[ "blocked_reason" ]})
    | None => Err blockedReasonRequired
    end
  else Ok (result, changed).

Definition orderedChangedFields (fields : gset string) : list string :=
  sort_Strings (elements fields).

Definition ApplyIssuePatch (current : Issue) (patch : IssuePatch) : result (Issue * list string) :=
  '(result, changed) ← patchStatus current (patchFields current patch) patch (patchedFieldNames patch);
  fail_if (i_Type result =s TypeEpic) && bool_decide (is_Some (i_ParentID result)) with epicParentError ;;
  Ok (result, orderedChangedFields changed).

(** ** Archiving *)

Record ArchiveIssueInput := mkArchive {
  ar_IssueID : string;
  ar_ExpectedVersion : Z;
  ar_IdempotencyKey : option string;
}.

Definition ArchiveIssueInput_Validate (input : ArchiveIssueInput) : result ArchiveIssueInput :=
  normalizeUpdateValidationError (
    fail_if (ar_ExpectedVersion input <? 1)%Z
      with validationError "expected_version" "REQUIRED" "must be at least 1" ;;
    identifier ← ParseIssueIdentifier (ar_IssueID input);
    idempotencyKey ← validateIdempotencyKey (ar_IdempotencyKey input);
    Ok (mkArchive (id_Value identifier) (ar_ExpectedVersion input) idempotencyKey)).

Definition copyOptionalSessionID (value : option string) : result (option string) :=
  match value with
  | None => Ok None
  | Some v =>
      match ulid_ParseStrict v with
      | Some c =>
          fail_if negb (len v =? 26)%Z || negb (c =s v)
            with validationError "session_id" "INVALID_ULID" "must be a canonical ULID" ;;
          Ok (Some v)
      | None => Err (validationError "session_id" "INVALID_ULID" "must be a canonical ULID")
      end
  end.

Record UnarchiveIssueInput := mkUnarchive {
  un_IssueID : string;
  un_ExpectedVersion : Z;
  un_SessionID : option string;
  un_IdempotencyKey : option string;
}.

Definition UnarchiveIssueInput_Validate (input : UnarchiveIssueInput) : result UnarchiveIssueInput :=
  normalizeUpdateValidationError (
    fail_if (un_ExpectedVersion input <? 1)%Z
      with validationError "expected_version" "REQUIRED" "must be at least 1" ;;
    identifier ← ParseIssueIdentifier (un_IssueID input);
    sessionID ← copyOptionalSessionID (un_SessionID input);
    idempotencyKey ← validateIdempotencyKey (un_IdempotencyKey input);
    Ok (mkUnarchive (id_Value identifier) (un_ExpectedVersion input) sessionID idempotencyKey)).

End ops.

(** ** Lemmas *)

Section ops_lemmas.
Context `{UnicodeTables, ULID}.

Lemma normalizeParent_idemp `{!ULIDLaws} p p' :
  normalizeParent p = Ok p' → normalizeParent p' = Ok p'.
Proof.
  destruct p as [p|]; cbn; [|by intros [= <-]].
  destruct (ValidateText "parent_id" p (-1)) as [[]|] eqn:Hv; [|done].
  destruct (ParseIssueIdentifier p) as [i|] eqn:Hi; [|done]. intros [= <-].
  assert (Hok : ValidateText "parent_id" (id_Value i) (-1) = Ok tt).
  { destruct (ParseIssueIdentifier_range _ _ Hi) as [(_ & -> & _)|(_ & -> & Hr)]; [done|].
    apply ValidateText_Ok.
    destruct (plain_ascii_runes ("ISSUE-" +:+ Itoa (id_SequenceNo i))) as [??].
    { rewrite plain_ascii_app. destruct (Itoa_shape (id_SequenceNo i)) as (?&?&_&_&Hd&_); [lia|].
      by rewrite (digits_plain _ Hd). }
    split_and!; [done|done|left; lia]. }
  cbn. by rewrite Hok, (ParseIssueIdentifier_idemp _ _ Hi).
Qed.

(** The well-formedness every stored issue has. *)
Definition blocked_consistent (status : string) (reason : option string) : Prop :=
  match reason with
  | Some r => status = StatusBlocked ∧ blank r = false
  | None => status ≠ StatusBlocked
  end.

Record issue_wf (i : Issue) : Prop := {
  wf_type : Type_Valid (i_Type i) = true;
  wf_status : Status_Valid (i_Status i) = true;
  wf_priority : Priority_Valid (i_Priority i) = true;
  wf_blocked : blocked_consistent (i_Status i) (i_BlockedReason i);
  wf_epic : i_Type i = TypeEpic → i_ParentID i = None;
}.

(** What a successful [Validate] of a patch guarantees of its enum fields. *)
Definition patch_valid (patch : IssuePatch) : Prop :=
  (o_Set (p_Type patch) = true → Type_Valid (o_Value (p_Type patch)) = true) ∧
  (o_Set (p_Priority patch) = true → Priority_Valid (o_Value (p_Priority patch)) = true) ∧
  (o_Set (p_Status patch) = true → Status_Valid (o_Value (p_Status patch)) = true).

Lemma when_Ok {A} (f : OptionalValue A) check :
  when f check = Ok tt → o_Set f = true → check (o_Value f) = Ok tt.
Proof. unfold when. intros Hc Hs. by rewrite Hs in Hc. Qed.

Lemma normalizeUpdateValidationError_Ok {A} (r : result A) a :
  normalizeUpdateValidationError r = Ok a ↔ r = Ok a.
Proof. destruct r as [|e]; cbn; [done|]. by destruct (e_Code e =s CodeInvalidArgument). Qed.

Lemma UpdateIssueInput_Validate_patch input out :
  UpdateIssueInput_Validate input = Ok out → patch_valid (u_Changes out).
Proof.
  unfold UpdateIssueInput_Validate. rewrite normalizeUpdateValidationError_Ok.
  unfold UpdateIssueInput_validate. intros Hv. inv_ok.
  repeat match goal with u : unit |- _ => destruct u end.
  unfold patch_valid; cbn. split_and!; intros Hset.
  all: match goal with
    | E : when ?f _ = Ok tt, Hs : o_Set ?f = true |- _ => apply (when_Ok f) in E; [|exact Hs] end.
  all: inv_ok; by bool_simpl.
Qed.

(** Everything a successful patch does, split by the two parts of the code. *)
Lemma ApplyIssuePatch_Ok current patch i ch :
  ApplyIssuePatch current patch = Ok (i, ch) ↔
  ∃ changed,
    patchStatus current (patchFields current patch) patch (patchedFieldNames patch) = Ok (i, changed) ∧
    (i_Type i = TypeEpic → i_ParentID i = None) ∧
    ch = orderedChangedFields changed.
Proof.
  unfold ApplyIssuePatch. rewrite result_bind_Ok. split.
  - intros ([i' changed] & Hp & Hk). apply fail_if_Ok in Hk as [He [= -> <-]].
    exists changed. split_and!; [done| |done]. intros Hepic.
    rewrite Hepic, eqb_string_refl in He. cbn in He. bool_simpl. by apply eq_None_not_Some.
  - intros (changed & Hp & He & ->). exists (i, changed). split; [done|].
    apply fail_if_Ok. split; [|done]. apply andb_false_iff.
    destruct (decide (i_Type i = TypeEpic)) as [Hepic|Hne].
    + right. rewrite He by done. done.
    + left. by apply eqb_string_false.
Qed.

Lemma mark_spec {A} (f : OptionalValue A) n x : x ∈ mark f n ↔ o_Set f = true ∧ x = n.
Proof. unfold mark. destruct (o_Set f); set_solver. Qed.

(** The four ways a patch can treat status and blocked reason. *)
Inductive patch_status_outcome (current mid : Issue) (patch : IssuePatch) (changed : gset string) :
    Issue → gset string → Prop :=
  | pso_none :
      o_Set (p_Status patch) = false → o_Set (p_BlockedReason patch) = false →
      patch_status_outcome current mid patch changed mid changed
  | pso_reason r :
      o_Set (p_Status patch) = false → o_Set (p_BlockedReason patch) = true →
      o_Value (p_BlockedReason patch) = Some r → i_Status current = StatusBlocked → blank r = false →
      patch_status_outcome current mid patch changed
        (setStatus mid (i_Status mid) (Some r)) (changed ∪ {[ "blocked_reason" ]})
  | pso_block r :
      o_Set (p_Status patch) = true → o_Value (p_Status patch) = StatusBlocked →
      o_Set (p_BlockedReason patch) = true → o_Value (p_BlockedReason patch) = Some r →
      CanTransition (i_Status current) StatusBlocked = true → blank r = false →
      patch_status_outcome current mid patch changed
        (setStatus mid StatusBlocked (Some r)) (changed ∪ {[ "blocked_reason"; "status" ]})
  | pso_move target :
      o_Set (p_Status patch) = true → o_Value (p_Status patch) = target →
      target ≠ StatusBlocked → target ≠ StatusReview →
      (target = StatusDone →
        Type_Executable (i_Type current) = false ∧ Type_Executable (i_Type mid) = false) →
      (CanTransition (i_Status current) target = true ∨
        (Type_Executable (i_Type mid) = false ∧ i_Status current = StatusOpen ∧ target = StatusDone)) →
      (o_Set (p_BlockedReason patch) = true → o_Value (p_BlockedReason patch) = None) →
      patch_status_outcome current mid patch changed
        (setStatus mid target None)
        (changed ∪ (if bool_decide (is_Some (i_BlockedReason current)) || o_Set (p_BlockedReason patch)
                    then {[ "blocked_reason" ]} else ∅) ∪ {[ "status" ]}).

Lemma patchStatus_outcome current mid patch changed i ch :
  patchStatus current mid patch changed = Ok (i, ch) →
  patch_status_outcome current mid patch changed i ch.
Proof.
  unfold patchStatus. destruct (o_Set (p_Status patch)) eqn:Hs.
  - intros Hk. apply fail_if_Ok in Hk as [Hg Hk]. apply orb_false_iff in Hg as [Hr Hd].
    apply eqb_string_false in Hr.
    destruct (o_Value (p_Status patch) =s StatusBlocked) eqn:Hb.
    + apply eqb_string_true in Hb.
      destruct (o_Set (p_BlockedReason patch)) eqn:Hbr; [|done].
      destruct (o_Value (p_BlockedReason patch)) as [r|] eqn:Hv; [|done].
      apply result_bind_Ok in Hk as (r' & Ht & [= <- <-]).
      rewrite Hb in *. apply ApplyStatusTransition_Ok in Ht as [Hc [Hbl ->]].
      by eapply pso_block.
    + apply eqb_string_false in Hb. apply fail_if_Ok in Hk as [Hbr Hk].
      apply try_Ok in Hk as [[r' Ht] [= <- <-]]. eapply pso_move; [done..| | |].
      * intros Hdone. rewrite Hdone in Hd. cbn in Hd. by apply orb_false_iff in Hd.
      * unfold ApplyPatchStatusTransition in Ht.
        destruct (negb _ && _ && _) eqn:Hex.
        { bool_simpl. right. split; [done|]. by rewrite <-!eqb_string_true. }
        apply ApplyStatusTransition_Ok in Ht as [? _]. by left.
      * intros Hset. rewrite Hset in Hbr. cbn in Hbr. bool_simpl. by apply eq_None_not_Some.
  - destruct (o_Set (p_BlockedReason patch)) eqn:Hbr.
    + destruct (o_Value (p_BlockedReason patch)) as [r|] eqn:Hv; [|done].
      intros Hk. apply fail_if_Ok in Hk as [Hc [= <- <-]]. bool_simpl.
      apply eqb_string_true in H1. by eapply pso_reason.
    + intros [= <- <-]. by apply pso_none.
Qed.

Lemma orderedChangedFields_elem x fields : x ∈ orderedChangedFields fields ↔ x ∈ fields.
Proof.
  unfold orderedChangedFields. rewrite sort_Strings_Permutation. apply elem_of_elements.
Qed.

(** Agreement of two issues on the field a change-set name stands for. *)
Definition same_field (name : string) (i j : Issue) : Prop :=
  (name = "title" → i_Title i = i_Title j) ∧
  (name = "description" → i_Description i = i_Description j) ∧
  (name = "acceptance_criteria" → i_AcceptanceCriteria i = i_AcceptanceCriteria j) ∧
  (name = "type" → i_Type i = i_Type j) ∧
  (name = "priority" → i_Priority i = i_Priority j) ∧
  (name = "status" → i_Status i = i_Status j) ∧
  (name = "parent_id" → i_ParentID i = i_ParentID j) ∧
  (name = "blocked_reason" → i_BlockedReason i = i_BlockedReason j) ∧
  (name = "labels" → i_Labels i = i_Labels j).

Definition same_identity (i j : Issue) : Prop :=
  i_ID i = i_ID j ∧ i_DisplayID i = i_DisplayID j ∧ i_SequenceNo i = i_SequenceNo j ∧
  i_Version i = i_Version j ∧ i_CreatedAt i = i_CreatedAt j ∧ i_UpdatedAt i = i_UpdatedAt j ∧
  i_ClosedAt i = i_ClosedAt j ∧ i_ArchivedAt i = i_ArchivedAt j.

Lemma mark_pick {A} (f : OptionalValue A) n cur :
  n ∉ mark f n → pick f cur = cur.
Proof. unfold mark, pick. destruct (o_Set f); set_solver. Qed.

Lemma patchFields_same current patch name :
  name ∉ patchedFieldNames patch → name ≠ "status" → name ≠ "blocked_reason" →
  same_field name current (patchFields current patch).
Proof.
  unfold patchedFieldNames, same_field. intros Hn ??. cbn.
  split_and!; intros ->; try done; symmetry.
  all: lazymatch goal with
       | |- pick _ _ = _ => match type of Hn with ?n ∉ _ => apply (mark_pick _ n) end
       | |- _ => idtac
       end.
  all: rewrite !not_elem_of_union in Hn; destruct_and!; try done.
  unfold mark in *. destruct (o_Set (p_Labels patch)); [|done].
  exfalso. set_solver.
Qed.

End ops_lemmas.

(** * Properties *)

Lemma pick_valid (P : string → Prop) (f : OptionalValue string) cur :
  (o_Set f = true → P (o_Value f)) → P cur → P (pick f cur).
Proof. unfold pick. destruct (o_Set f); auto. Qed.

(** A validated patch keeps an issue well-formed: valid type, status and
    priority, a blocked reason exactly when blocked, and no parent of an
    epic. *)
Theorem ApplyIssuePatch_wf `{UnicodeTables, ULID} current input out i ch :
  issue_wf current → UpdateIssueInput_Validate input = Ok out →
  ApplyIssuePatch current (u_Changes out) = Ok (i, ch) → issue_wf i.
Proof.
  intros Hwf (Ht & Hp & Hs)%UpdateIssueInput_Validate_patch Happ.
  apply ApplyIssuePatch_Ok in Happ as (changed & Hst & Hepic & _).
  apply patchStatus_outcome in Hst. destruct Hwf as [W1 W2 W3 W4 W5].
  assert (M1 : Type_Valid (pick (p_Type (u_Changes out)) (i_Type current)) = true)
    by (by apply (pick_valid (λ t, Type_Valid t = true))).
  assert (M3 : Priority_Valid (pick (p_Priority (u_Changes out)) (i_Priority current)) = true)
    by (by apply (pick_valid (λ t, Priority_Valid t = true))).
  inversion Hst; subst; split; cbn in *; try done; auto.
Qed.

(** Edits cannot pass the workflow gates: a patch that changes the status
    follows a transition of the table or closes a non-executable open issue,
    never enters review, and enters done only if neither the old nor the new
    type is executable. *)
Theorem ApplyIssuePatch_gated `{UnicodeTables} current patch i ch :
  ApplyIssuePatch current patch = Ok (i, ch) → i_Status i ≠ i_Status current →
  i_Status i ≠ StatusReview ∧
  (i_Status i = StatusDone →
     Type_Executable (i_Type current) = false ∧ Type_Executable (i_Type i) = false) ∧
  (CanTransition (i_Status current) (i_Status i) = true ∨
   (Type_Executable (i_Type i) = false ∧ i_Status current = StatusOpen ∧ i_Status i = StatusDone)).
Proof.
  intros (changed & Hst & _ & _)%ApplyIssuePatch_Ok Hne.
  apply patchStatus_outcome in Hst.
  inversion Hst; subst; cbn in *; try done; split_and!; auto; done.
Qed.

(** Rewriting status and reason keeps every other field. *)
Lemma setStatus_same name current mid status reason :
  name ≠ "status" → name ≠ "blocked_reason" →
  same_field name current mid → same_field name current (setStatus mid status reason).
Proof. unfold same_field. intros ?? Hs. cbn. by destruct_and! Hs; split_and!. Qed.

Lemma patchStatus_same `{UnicodeTables} current patch i changed name :
  patchStatus current (patchFields current patch) patch (patchedFieldNames patch) = Ok (i, changed) →
  name ∉ changed →
  name ∉ patchedFieldNames patch ∧
  (name = "status" → i_Status current = i_Status i) ∧
  (name = "blocked_reason" → i_BlockedReason current = i_BlockedReason i).
Proof.
  intros Hst%patchStatus_outcome Hn.
  inversion Hst; subst; rewrite ?not_elem_of_union in Hn; cbn.
  - done.
  - split_and!; [naive_solver|done|]. intros ->. set_solver.
  - split_and!; [naive_solver| |]; intros ->; set_solver.
  - destruct Hn as [[Hf Hr] Hs]. split_and!; [done|set_solver|]. intros ->.
    destruct (i_BlockedReason current); [|done]. cbn in Hr. set_solver.
Qed.

(** The reported change set is complete: it is sorted and without
    duplicates, every field it does not name keeps its value, and no patch
    touches identity, version or timestamps. *)
Theorem ApplyIssuePatch_changed `{UnicodeTables} current patch i ch :
  ApplyIssuePatch current patch = Ok (i, ch) →
  same_identity current i ∧ NoDup ch ∧ StronglySorted (not_less str_less) ch ∧
  (∀ name, name ∉ ch → same_field name current i).
Proof.
  intros (changed & Hst & _ & ->)%ApplyIssuePatch_Ok.
  split_and!; [| |apply sort_Strings_sorted|].
  - apply patchStatus_outcome in Hst. by inversion Hst; subst.
  - unfold orderedChangedFields. rewrite sort_Strings_Permutation. apply NoDup_elements.
  - intros name. rewrite orderedChangedFields_elem. intros Hn.
    destruct (patchStatus_same _ _ _ _ _ Hst Hn) as (Hf & H1 & H2).
    destruct (decide (name = "status")) as [->|Hns].
    { unfold same_field. split_and!; intros ?; try done; by apply H1. }
    destruct (decide (name = "blocked_reason")) as [->|Hnb].
    { unfold same_field. split_and!; intros ?; try done; by apply H2. }
    pose proof (patchFields_same current patch name Hf Hns Hnb) as Hsame.
    apply patchStatus_outcome in Hst. inversion Hst; subst; auto using setStatus_same.
Qed.

(** Creation input is normalized once and for all: what [Validate] returns
    is valid as it stands, and validating it again changes nothing. *)
Theorem CreateIssueInput_Validate_normal `{UnicodeTables, ULIDLaws} input out :
  CreateIssueInput_Validate input = Ok out →
  Type_Valid (ci_Type out) = true ∧ Status_Valid (ci_Status out) = true ∧
  Priority_Valid (ci_Priority out) = true ∧ blank (ci_Title out) = false ∧
  blocked_consistent (ci_Status out) (ci_BlockedReason out) ∧
  (ci_Type out = TypeEpic → ci_ParentID out = None) ∧
  CreateIssueInput_Validate out = Ok out.
Proof.
  unfold CreateIssueInput_Validate at 1. intros Hok.
  apply fail_if_Ok in Hok as [Htype Hok]. apply try_Ok in Hok as [[[] Htitle] Hok].
  apply fail_if_Ok in Hok as [Hblank Hok]. apply try_Ok in Hok as [[[] Hdesc] Hok].
  apply try_Ok in Hok as [[[] Hacc] Hok]. apply fail_if_Ok in Hok as [Hstatus Hok].
  apply fail_if_Ok in Hok as [Hprio Hok]. apply result_bind_Ok in Hok as (parent & Hparent & Hok).
  apply fail_if_Ok in Hok as [Hepic Hok]. apply try_Ok in Hok as [[[] Hblocked] Hok].
  apply result_bind_Ok in Hok as (labels & Hlabels & Hok).
  apply result_bind_Ok in Hok as (key & Hkey & [= <-]). cbn.
  set (status := if ci_Status input =s "" then StatusOpen else ci_Status input) in *.
  set (priority := if ci_Priority input =s "" then PriorityMedium else ci_Priority input) in *.
  assert (Hs0 : (status =s "") = false) by by destruct (status =s "") eqn:E;
    [apply eqb_string_true in E; rewrite E in Hstatus|].
  assert (Hp0 : (priority =s "") = false) by by destruct (priority =s "") eqn:E;
    [apply eqb_string_true in E; rewrite E in Hprio|].
  split_and!; [by bool_simpl..| | |].
  - unfold blocked_consistent. destruct (status =s StatusBlocked) eqn:E.
    + apply eqb_string_true in E. destruct (ci_BlockedReason input); [|done].
      apply fail_if_Ok in Hblocked as [? _]. done.
    + apply eqb_string_false in E. by destruct (ci_BlockedReason input).
  - intros E. rewrite E, eqb_string_refl in Hepic. by destruct parent.
  - unfold CreateIssueInput_Validate.
    cbn [ci_Type ci_Title ci_Description ci_AcceptanceCriteria ci_Status ci_Priority
      ci_ParentID ci_BlockedReason ci_Labels ci_CreateMissingLabels ci_IdempotencyKey].
    rewrite Htype, Htitle, Hblank, Hdesc, Hacc, Hs0, Hp0, Hstatus, Hprio.
    rewrite (normalizeParent_idemp _ _ Hparent). cbn [mbind result_bind].
    rewrite Hepic, Hblocked, (NormalizeLabelNames_idemp _ _ Hlabels). cbn [mbind result_bind].
    by rewrite (validateIdempotencyKey_idemp _ _ Hkey).
Qed.

(** ** Witnesses *)

Definition sample_issue : Issue :=
  {| i_ID := ulid_of "A"; i_DisplayID := "ISSUE-1"; i_SequenceNo := 1; i_Type := TypeTask;
     i_Title := "t"; i_Description := None; i_AcceptanceCriteria := None;
     i_Status := StatusReady; i_Priority := PriorityLow; i_ParentID := None;
     i_BlockedReason := None; i_Version := 3; i_CreatedBySessionID := None;
     i_CreatedAt := 0; i_UpdatedAt := 0; i_ClosedAt := None; i_ArchivedAt := None;
     i_ArchivedBySessionID := None; i_Labels := [] |}.

Definition unset {A} (v : A) : OptionalValue A := mkOptional false v.

Definition sample_patch : IssuePatch :=
  {| p_Title := mkOptional true "new"; p_Description := unset None;
     p_AcceptanceCriteria := unset None; p_Type := unset ""; p_Priority := unset "";
     p_Status := mkOptional true StatusBlocked; p_ParentID := unset None;
     p_BlockedReason := mkOptional true (Some "waiting"); p_Labels := unset None |}.

Definition sample_update : UpdateIssueInput := mkUpdate "ISSUE-1" 3 sample_patch false None.

Definition sample_patched : Issue :=
  match ApplyIssuePatch sample_issue sample_patch with Ok (i, _) => i | Err _ => sample_issue end.

Lemma ApplyIssuePatch_wf_witness :
  ApplyIssuePatch sample_issue sample_patch =
    Ok (sample_patched, ["blocked_reason"; "status"; "title"]) ∧ issue_wf sample_patched.
Proof.
  split; [by vm_compute|].
  apply (ApplyIssuePatch_wf sample_issue sample_update sample_update sample_patched
           ["blocked_reason"; "status"; "title"]); [by split|by vm_compute..].
Defined.

Lemma ApplyIssuePatch_gated_witness : i_Status sample_patched ≠ StatusReview.
Proof.
  apply (ApplyIssuePatch_gated sample_issue sample_patch sample_patched
           ["blocked_reason"; "status"; "title"]); by vm_compute.
Defined.

Lemma ApplyIssuePatch_changed_witness : same_identity sample_issue sample_patched.
Proof.
  apply (ApplyIssuePatch_changed sample_issue sample_patch sample_patched
           ["blocked_reason"; "status"; "title"]); by vm_compute.
Defined.

Definition sample_create : CreateIssueInput :=
  mkCreate TypeBug "Crash" None None "" "" (Some "issue-7") None ["b"; "A "] false (Some " k ").
Definition sample_created : CreateIssueInput :=
  mkCreate TypeBug "Crash" None None StatusOpen PriorityMedium (Some "ISSUE-7") None ["A"; "b"] false (Some "k").

Lemma CreateIssueInput_Validate_normal_witness :
  CreateIssueInput_Validate sample_create = Ok sample_created ∧
  CreateIssueInput_Validate sample_created = Ok sample_created.
Proof.
  split; [by vm_compute|]. apply (CreateIssueInput_Validate_normal sample_create sample_created).
  by vm_compute.
Defined.
