(* ===== verification/Discussion.v ===== *)
(** * Comments and decisions

    [internal/domain/comment.go] and [decision.go]: the records and the
    validation of the requests that add them. *)

From S2P Require Import Prelude GoStrings Errors Validation Samples Issue IssueOps.

(** ** Comments *)

Record Comment := mkComment {
  cm_ID : string;
  cm_IssueID : string;
  cm_Content : string;
  cm_CreatedBySessionID : option string;
  cm_AuthorLabel : option string;
  cm_CreatedAt : Z;
  cm_EditedAt : option Z;
}.

Record AddCommentInput := mkAddComment {
  ac_IssueID : string;
  ac_Content : string;
  ac_SessionID : option string;
  ac_IdempotencyKey : option string;
}.

(** ** Decisions *)

Definition DecisionStatusActive := "active".
Definition DecisionStatusSuperseded := "superseded".
Definition DecisionStatusRejected := "rejected".
Definition DecisionStatus_Valid (s : string) : bool :=
  (s =s DecisionStatusActive) || (s =s DecisionStatusSuperseded) || (s =s DecisionStatusRejected).

Record Decision := mkDecision {
  dc_ID : string;
  dc_IssueID : option string;
  dc_Title : string;
  dc_Summary : string;
  dc_Content : string;
  dc_Status : string;
  dc_SupersedesID : option string;
  dc_CreatedBySessionID : option string;
  dc_CreatedAt : Z;
}.

Record RecordDecisionInput := mkRecordDecision {
  rd_IssueID : option string;
  rd_Title : string;
  rd_Summary : string;
  rd_Content : string;
  rd_Status : string;
  rd_SupersedesID : option string;
  rd_SessionID : option string;
}.

Section validation.
Context `{ULID}.

(** Content is not trimmed: Markdown white space is kept. *)
Definition AddCommentInput_Validate (input : AddCommentInput) : result AddCommentInput :=
  identifier ← ParseIssueIdentifier (ac_IssueID input);
  try ValidateText "content" (ac_Content input) MaxCommentRunes ;;
  fail_if blank (ac_Content input) with validationError "content" "REQUIRED" "is required" ;;
  sessionID ← copyOptionalSessionID (ac_SessionID input);
  idempotencyKey ← validateIdempotencyKey (ac_IdempotencyKey input);
  Ok (mkAddComment (id_Value identifier) (ac_Content input) sessionID idempotencyKey).

Definition RecordDecisionInput_Validate (input : RecordDecisionInput) : result RecordDecisionInput :=
  issueID ← match rd_IssueID input with
            | None => Ok None
            | Some id => identifier ← ParseIssueIdentifier id; Ok (Some (id_Value identifier))
            end;
  try ValidateText "title" (rd_Title input) MaxTitleRunes ;;
  fail_if blank (rd_Title input) with validationError "title" "REQUIRED" "is required" ;;
  try ValidateText "summary" (rd_Summary input) MaxDecisionSummaryRunes ;;
  fail_if blank (rd_Summary input) with validationError "summary" "REQUIRED" "is required" ;;
  try ValidateText "content" (rd_Content input) MaxDecisionContentRunes ;;
  let status := if rd_Status input =s "" then DecisionStatusActive else rd_Status input in
  fail_if negb (DecisionStatus_Valid status) with validationError "status" "INVALID_VALUE" "is invalid" ;;
  supersedesID ← match rd_SupersedesID input with
                 | None => Ok None
                 | Some id =>
                     fail_if negb (ids_ParseStrict id)
                       with validationError "supersedes_id" "INVALID_ULID" "must be a canonical ULID" ;;
                     fail_if negb (status =s DecisionStatusActive)
                       with validationError "supersedes_id" "INVALID_SHAPE" "requires active status" ;;
                     Ok (Some id)
                 end;
  sessionID ← copyOptionalSessionID (rd_SessionID input);
  Ok (mkRecordDecision issueID (rd_Title input) (rd_Summary input) (rd_Content input) status supersedesID sessionID).
End validation.

(** ** Lemmas *)

(** The shape of a validated decision: only an active decision supersedes. *)
Lemma RecordDecisionInput_Validate_shape `{ULID} input v :
  RecordDecisionInput_Validate input = Ok v →
  DecisionStatus_Valid (rd_Status v) = true ∧ blank (rd_Title v) = false ∧ blank (rd_Summary v) = false ∧
  (∀ p, rd_SupersedesID v = Some p → ids_ParseStrict p = true ∧ rd_Status v = DecisionStatusActive).
Proof.
  unfold RecordDecisionInput_Validate. intros Hv. inv_ok. cbn. split_and!; [|done|done|].
  - by apply negb_false_iff.
  - intros p ->. destruct (rd_SupersedesID input); [|done]. inv_ok.
    match goal with Hs : negb (_ =s _) = false |- _ => apply negb_false_iff, eqb_string_true in Hs end.
    split; [by apply negb_false_iff|done].
Qed.
