(* ===== verification/Plan.v ===== *)
(** * Issue plans

    [internal/domain/issue_plan.go]: a plan of new issues, relations and
    decisions that refer to one another by local references, the validation of
    the rules that need no database ([NormalizeIssuePlan]) and the merge with
    the findings of the repository ([MergePlanErrors]).

    The source ranges over Go maps, whose order is unspecified: [MapIteration]
    is any order, and the result does not depend on it.  The results also hold
    the normal form of accepted plans. *)

From S2P Require Import Prelude GoStrings Errors Validation Samples Issue Relation Session IssueOps.
From S2P Require Import Discussion.

(** [for _, x := range m]: the [n]-th loop meets the entries in an order of its
    own. *)
Class MapIteration := {
  iterate {A : Type} : nat → list A → list A;
  iterate_perm {A : Type} n (entries : list A) : iterate n entries ≡ₚ entries;
}.

(** ** Plans *)

Record PlannedIssue := mkPlannedIssue {
  pn_Ref : string;
  pn_Type : string;
  pn_Title : string;
  pn_Description : option string;
  pn_AcceptanceCriteria : option string;
  pn_Status : string;
  pn_Priority : string;
  pn_ParentRef : option string;
  pn_BlockedReason : option string;
  pn_Labels : list string;
  pn_CreateMissingLabels : bool;
}.

Record PlannedRelation := mkPlannedRelation {
  pnr_SourceRef : string;
  pnr_TargetRef : string;
  pnr_Type : string;
}.

Record PlannedDecision := mkPlannedDecision {
  pnd_IssueRef : option string;
  pnd_Title : string;
  pnd_Summary : string;
  pnd_Content : string;
  pnd_Status : string;
}.

Record IssuePlan := mkPlan {
  ip_Issues : list PlannedIssue;
  ip_Relations : list PlannedRelation;
  ip_Decisions : list PlannedDecision;
}.

Record PlanSummary := mkSummary {
  sm_IssueCount : Z;
  sm_RelationCount : Z;
  sm_DecisionCount : Z;
  sm_LabelAssignmentCount : Z;
}.

Record PlanValidation := mkPlanValidation {
  pv_Valid : bool;
  pv_Errors : list Detail;
  pv_Warnings : list string;
  pv_Summary : PlanSummary;
  pv_NormalizedPlan : IssuePlan;
}.

(** ** Helpers *)

Definition planDetail (index : option Z) (field code message : string) : Detail := mkDetail index field code message.

(** The first detail of a domain error, placed in the plan. *)
Definition detailForPlanError (index : Z) (prefix : string) (err : DomainError) : Detail :=
  match e_Details err with
  | detail :: _ =>
      mkDetail (Some index)
        (if prefix =s "" then d_Field detail
         else if d_Field detail =s "" then prefix else prefix +:+ "." +:+ d_Field detail)
        (d_Code detail) (d_Message detail)
  | [] => planDetail (Some index) prefix "INVALID" "invalid value"
  end.

(** The loop divides by ten: the binary length is fuel enough. *)
Fixpoint itoaLoop (fuel : nat) (value : Z) (result : string) : string :=
  if (0 <? value)%Z then
    match fuel with
    | O => result
    | S fuel => itoaLoop fuel (value / 10) (String (byte_of (48 + value mod 10)) result)
    end
  else result.
Definition itoa (value : Z) : string :=
  if (value =? 0)%Z then "0" else itoaLoop (S (Z.to_nat (Z.log2 value))) value "".

(** [collection[i]]. *)
Definition element (collection : string) (i : Z) : string := collection +:+ "[" +:+ itoa i +:+ "]".

Section plan.
Context `{UnicodeTables, ULID, MapIteration}.

(** ** Issues *)

(** The reference of the [i]-th issue, against those before it. *)
Definition checkRef (i : Z) (ref : string) (refs : gmap string Z) : list Detail * gmap string Z :=
  if ref =s "" then ([], refs)
  else match ValidateText "ref" ref MaxLocalRefRunes with
  | Err e => ([detailForPlanError i (element "issues" i) e], refs)
  | Ok _ =>
      if blank ref
      then ([planDetail (Some i) (element "issues" i +:+ ".ref") "REQUIRED" "must not be blank"], refs)
      else if is_ok (ParseIssueIdentifier ref)
      then ([planDetail (Some i) (element "issues" i +:+ ".ref") "RESERVED_REF" "must not be an issue identifier"], refs)
      else if isSet (refs !! ref)
      then ([planDetail (Some i) (element "issues" i +:+ ".ref") "DUPLICATE_REF" "must be unique"], refs)
      else ([], <[ref := i]> refs)
  end.

Definition plannedInput (issue : PlannedIssue) : CreateIssueInput :=
  mkCreate (pn_Type issue) (pn_Title issue) (pn_Description issue) (pn_AcceptanceCriteria issue) (pn_Status issue)
    (pn_Priority issue) None (pn_BlockedReason issue) (pn_Labels issue) (pn_CreateMissingLabels issue) None.

Definition normalizedIssue (issue : PlannedIssue) (input : CreateIssueInput) : PlannedIssue :=
  mkPlannedIssue (pn_Ref issue) (ci_Type input) (ci_Title input) (ci_Description input) (ci_AcceptanceCriteria input)
    (ci_Status input) (ci_Priority input) (pn_ParentRef issue) (ci_BlockedReason input) (ci_Labels input)
    (pn_CreateMissingLabels issue).

(** An optional reference of an element. *)
Definition checkOptionalRef (i : Z) (prefix field : string) (ref : option string) : list Detail :=
  match ref with
  | None => []
  | Some ref =>
      match ValidateText field ref MaxLocalRefRunes with
      | Err e => [detailForPlanError i prefix e]
      | Ok _ => []
      end
  end.

(** An issue that is refused is kept as it was. *)
Definition normalizePlannedIssue (i : Z) (issue : PlannedIssue) : list Detail * PlannedIssue :=
  match CreateIssueInput_Validate (plannedInput issue) with
  | Err e => ([detailForPlanError i (element "issues" i) e], issue)
  | Ok input => (checkOptionalRef i (element "issues" i) "parent_ref" (pn_ParentRef issue), normalizedIssue issue input)
  end.

Fixpoint normalizePlannedIssues (i : Z) (refs : gmap string Z) (issues : list PlannedIssue) :
    list Detail * list PlannedIssue :=
  match issues with
  | [] => ([], [])
  | issue :: rest =>
      let '(refErrors, refs) := checkRef i (pn_Ref issue) refs in
      let '(errors, issue) := normalizePlannedIssue i issue in
      let '(restErrors, rest) := normalizePlannedIssues (i + 1) refs rest in
      (refErrors ++ errors ++ restErrors, issue :: rest)
  end.

Definition labelAssignments (issues : list PlannedIssue) : Z :=
  foldr (λ issue n, Z.of_nat (length (pn_Labels issue)) + n)%Z 0%Z issues.

(** ** Relations *)

Definition checkRequiredText (i : Z) (prefix field value : string) (maximum : Z) (required : bool) : list Detail :=
  match ValidateText field value maximum with
  | Err e => [detailForPlanError i prefix e]
  | Ok _ =>
      if required && blank value then [planDetail (Some i) (prefix +:+ "." +:+ field) "REQUIRED" "must not be blank"]
      else []
  end.

Definition checkPlannedRelation (i : Z) (relation : PlannedRelation) : list Detail :=
  let prefix := element "relations" i in
  concat (map (λ '(field, value), checkRequiredText i prefix field value MaxLocalRefRunes true)
            (iterate (Z.to_nat (2 * i))
               [("source_ref", pnr_SourceRef relation); ("target_ref", pnr_TargetRef relation)])) ++
  (if negb (RelationType_Valid (pnr_Type relation))
   then [planDetail (Some i) (prefix +:+ ".type") "INVALID_ENUM" (pnr_Type relation)] else []) ++
  (if (pnr_SourceRef relation =s pnr_TargetRef relation) && negb (pnr_SourceRef relation =s "")
   then [planDetail (Some i) (prefix +:+ ".target_ref") "SELF_RELATION" "endpoints must differ"] else []).

Fixpoint checkPlannedRelations (i : Z) (relations : list PlannedRelation) : list Detail :=
  match relations with
  | [] => []
  | relation :: rest => checkPlannedRelation i relation ++ checkPlannedRelations (i + 1) rest
  end.

(** ** Decisions *)

Definition normalizedDecision (decision : PlannedDecision) : PlannedDecision :=
  mkPlannedDecision (pnd_IssueRef decision) (pnd_Title decision) (pnd_Summary decision) (pnd_Content decision)
    (if pnd_Status decision =s "" then DecisionStatusActive else pnd_Status decision).

Definition checkPlannedDecision (i : Z) (decision : PlannedDecision) : list Detail :=
  let prefix := element "decisions" i in
  let status := pnd_Status (normalizedDecision decision) in
  concat (map (λ '(field, (value, maximum)), checkRequiredText i prefix field value maximum (negb (field =s "content")))
            (iterate (Z.to_nat (2 * i + 1))
               [("title", (pnd_Title decision, MaxTitleRunes));
                ("summary", (pnd_Summary decision, MaxDecisionSummaryRunes));
                ("content", (pnd_Content decision, MaxDecisionContentRunes))])) ++
  (if negb (DecisionStatus_Valid status)
   then [planDetail (Some i) (prefix +:+ ".status") "INVALID_ENUM" status] else []) ++
  checkOptionalRef i prefix "issue_ref" (pnd_IssueRef decision).

Fixpoint checkPlannedDecisions (i : Z) (decisions : list PlannedDecision) : list Detail :=
  match decisions with
  | [] => []
  | decision :: rest => checkPlannedDecision i decision ++ checkPlannedDecisions (i + 1) rest
  end.

(** ** Plans *)

Definition checkCount {A} (items : list A) (maximum : Z) (field message : string) : list Detail :=
  if (maximum <? Z.of_nat (length items))%Z then [planDetail None field "MAX_ITEMS" message] else [].

Definition planCountErrors (input : IssuePlan) : list Detail :=
  checkCount (ip_Issues input) MaxBatchIssues "issues" "maximum 50" ++
  checkCount (ip_Relations input) MaxRelationsPerOperation "relations" "maximum 100" ++
  checkCount (ip_Decisions input) MaxBatchDecisions "decisions" "maximum 20".

Definition NormalizeIssuePlan (input : IssuePlan) : PlanValidation :=
  let '(issueErrors, issues) := normalizePlannedIssues 0 ∅ (ip_Issues input) in
  let labels := labelAssignments (ip_Issues input) in
  let errors :=
    planCountErrors input ++ issueErrors ++
    (if (MaxBatchLabelAssignments <? labels)%Z
     then [planDetail None "issues.labels" "MAX_ITEMS" "maximum 50 label assignments"] else []) ++
    checkPlannedRelations 0 (ip_Relations input) ++
    checkPlannedDecisions 0 (ip_Decisions input) in
  mkPlanValidation (null errors) (SortDetails errors) []
    (mkSummary (Z.of_nat (length (ip_Issues input))) (Z.of_nat (length (ip_Relations input)))
       (Z.of_nat (length (ip_Decisions input))) labels)
    (mkPlan issues (ip_Relations input) (map normalizedDecision (ip_Decisions input))).
End plan.

(** The comparison of [MergePlanErrors] stops at the code. *)
Definition planErrorLess (left right : Detail) : bool :=
  let compare := compareEntityIndex (d_EntityIndex left) (d_EntityIndex right) in
  if negb (compare =? 0)%Z then (compare <? 0)%Z
  else if negb (d_Field left =s d_Field right) then str_less (d_Field left) (d_Field right)
  else str_less (d_Code left) (d_Code right).

Definition MergePlanErrors (validation : PlanValidation) (details : list Detail) : PlanValidation :=
  let errors := stable_sort planErrorLess (pv_Errors validation ++ details) in
  mkPlanValidation (null errors) errors (pv_Warnings validation) (pv_Summary validation) (pv_NormalizedPlan validation).

(** ** Lemmas: numbers in messages *)

Lemma itoaLoop_pretty fuel value result :
  (0 <= value < 2 ^ Z.of_nat fuel)%Z → itoaLoop fuel value result = pretty_N_go (Z.to_N value) result.
Proof.
  revert value result. induction fuel as [|fuel IH]; intros value result Hv; cbn [itoaLoop].
  { cbn in Hv. replace value with 0%Z by lia. symmetry. apply pretty_N_go_0. }
  destruct (Z.ltb_spec 0 value) as [Hpos|]; [|replace value with 0%Z by lia; symmetry; apply pretty_N_go_0].
  rewrite pretty_N_go_step by lia.
  pose proof (Z.mod_pos_bound value 10 ltac:(lia)). pose proof (Z.div_mod value 10 ltac:(lia)).
  rewrite IH.
  2:{ replace (Z.of_nat (S fuel)) with (Z.of_nat fuel + 1)%Z in Hv by lia. rewrite Z.pow_add_r in Hv by lia.
      split; [apply Z.div_pos; lia|]. apply Z.div_lt_upper_bound; lia. }
  rewrite Z2N.inj_div by lia. f_equal.
  f_equal. assert (Hd : (Z.to_N value `mod` 10 < 10)%N) by by apply N.mod_lt.
  replace (value mod 10)%Z with (Z.of_N (Z.to_N value `mod` 10)) by (rewrite N2Z.inj_mod, Z2N.id; [done|lia]).
  revert Hd. generalize (Z.to_N value `mod` 10)%N. intros d Hd.
  assert (d = 0 ∨ d = 1 ∨ d = 2 ∨ d = 3 ∨ d = 4 ∨ d = 5 ∨ d = 6 ∨ d = 7 ∨ d = 8 ∨ d = 9)%N as Hn by lia.
  repeat destruct Hn as [->|Hn]; subst; done.
Qed.

(** The planner's own [itoa] prints what [strconv.Itoa] does. *)
Lemma itoa_Itoa value : (0 <= value)%Z → itoa value = Itoa value.
Proof.
  intros Hv. unfold itoa. destruct (Z.eqb_spec value 0) as [->|Hne]; [done|].
  rewrite itoaLoop_pretty.
  - rewrite Itoa_of_N by done. unfold pretty, pretty_N. by rewrite decide_False by lia.
  - split; [done|]. rewrite Nat2Z.inj_succ, Z2Nat.id by apply Z.log2_nonneg. apply Z.log2_spec. lia.
Qed.

(** ** Lemmas: the order of the loops *)

Section order.
Context `{UnicodeTables, ULID}.

Lemma concat_map_perm {A B} (f : A → list B) l1 l2 : l1 ≡ₚ l2 → concat (map f l1) ≡ₚ concat (map f l2).
Proof. intros Hp. rewrite <-!flat_map_concat_map. by apply Permutation_flat_map. Qed.

Context (I1 I2 : MapIteration).

Lemma loop_perm {A B} (f : A → list B) n entries :
  concat (map f (iterate (MapIteration := I1) n entries)) ≡ₚ concat (map f (iterate (MapIteration := I2) n entries)).
Proof. apply concat_map_perm. by rewrite !iterate_perm. Qed.

Lemma checkPlannedRelations_perm i relations :
  checkPlannedRelations (H1 := I1) i relations ≡ₚ checkPlannedRelations (H1 := I2) i relations.
Proof.
  revert i. induction relations as [|r rest IH]; intros i; cbn [checkPlannedRelations]; [done|].
  apply Permutation_app; [|apply IH]. unfold checkPlannedRelation. apply Permutation_app_tail, loop_perm.
Qed.

Lemma checkPlannedDecisions_perm i decisions :
  checkPlannedDecisions (H1 := I1) i decisions ≡ₚ checkPlannedDecisions (H1 := I2) i decisions.
Proof.
  revert i. induction decisions as [|d rest IH]; intros i; cbn [checkPlannedDecisions]; [done|].
  apply Permutation_app; [|apply IH]. unfold checkPlannedDecision. apply Permutation_app_tail, loop_perm.
Qed.

Lemma null_perm {A} (l1 l2 : list A) : l1 ≡ₚ l2 → null l1 = null l2.
Proof. intros Hp%Permutation_length. by destruct l1, l2. Qed.
End order.

(** ** Lemmas: plans without errors *)

Section normal.
Context `{UnicodeTables, ULIDLaws, MapIteration}.

(** A reference that may name a planned issue. *)
Definition local_ref (ref : string) : Prop :=
  ValidateText "ref" ref MaxLocalRefRunes = Ok tt ∧ blank ref = false ∧ is_ok (ParseIssueIdentifier ref) = false.

Lemma checkRef_nil i ref refs refs' :
  checkRef i ref refs = ([], refs') ↔
  (ref = "" ∧ refs' = refs) ∨ (ref ≠ "" ∧ local_ref ref ∧ refs !! ref = None ∧ refs' = <[ref := i]> refs).
Proof.
  unfold checkRef, local_ref. destruct (ref =s "") eqn:He; [apply eqb_string_true in He|apply eqb_string_false in He].
  { naive_solver. }
  destruct (ValidateText _ _ _) as [[]|]; [|naive_solver]. destruct (blank ref); [naive_solver|].
  destruct (is_ok _); [naive_solver|]. destruct (isSet _) eqn:Hs; [|apply isSet_false in Hs; naive_solver].
  apply isSet_true in Hs as [? Hs]. split; [naive_solver|]. intros [[? _]|(_ & _ & Hn & _)]; [done|congruence].
Qed.

(** A normalized issue: validated once, it validates to itself. *)
Definition normal_issue (issue : PlannedIssue) : Prop :=
  CreateIssueInput_Validate (plannedInput issue) = Ok (plannedInput issue) ∧
  (∀ i, checkOptionalRef i (element "issues" i) "parent_ref" (pn_ParentRef issue) = []).

Lemma checkOptionalRef_nil i j prefix prefix' field ref :
  checkOptionalRef i prefix field ref = [] → checkOptionalRef j prefix' field ref = [].
Proof. unfold checkOptionalRef. destruct ref; [|done]. by destruct (ValidateText _ _ _). Qed.

Lemma plannedInput_normalized issue input :
  CreateIssueInput_Validate (plannedInput issue) = Ok input → plannedInput (normalizedIssue issue input) = input.
Proof.
  unfold CreateIssueInput_Validate. intros Hv. inv_ok. unfold plannedInput, normalizedIssue. cbn in *. by simplify_eq.
Qed.

Lemma NormalizeLabelNames_length names out : NormalizeLabelNames names = Ok out → length out = length names.
Proof.
  intros (_ & _ & _ & ->)%NormalizeLabelNames_Ok.
  by rewrite (Permutation_length (stable_sort_Permutation _ _)), length_map.
Qed.

Lemma normalizePlannedIssue_nil i issue out :
  normalizePlannedIssue i issue = ([], out) →
  pn_Ref out = pn_Ref issue ∧ normal_issue out ∧ length (pn_Labels out) = length (pn_Labels issue).
Proof.
  unfold normalizePlannedIssue. destruct (CreateIssueInput_Validate (plannedInput issue)) as [input|] eqn:Hv; [|done].
  intros [= Hp <-]. split; [done|]. split; [split|].
  - rewrite (plannedInput_normalized _ _ Hv). by apply CreateIssueInput_Validate_normal in Hv as (_ & _ & _ & _ & _ & _ & ?).
  - intros j. by eapply checkOptionalRef_nil.
  - cbn. unfold CreateIssueInput_Validate in Hv. inv_ok. cbn in *. by eapply NormalizeLabelNames_length.
Qed.

Lemma normal_issue_nil i issue : normal_issue issue → normalizePlannedIssue i issue = ([], issue).
Proof.
  intros [Hv Hp]. unfold normalizePlannedIssue. rewrite Hv, Hp. f_equal. by destruct issue.
Qed.

(** References in use: distinct, and none of those seen before. *)
Definition refs_of (issues : list PlannedIssue) : list string :=
  List.filter (λ ref, negb (ref =s "")) (map pn_Ref issues).

Lemma normalizePlannedIssues_nil i refs issues out :
  normalizePlannedIssues i refs issues = ([], out) →
  map pn_Ref out = map pn_Ref issues ∧ labelAssignments out = labelAssignments issues ∧ Forall normal_issue out ∧
  NoDup (refs_of out) ∧ Forall local_ref (refs_of out) ∧ (∀ ref, ref ∈ refs_of out → refs !! ref = None).
Proof.
  revert i refs out. induction issues as [|issue rest IH]; intros i refs out Hn; cbn [normalizePlannedIssues] in Hn.
  { injection Hn as <-. split_and!; try done; [constructor|]. by intros ref ?%elem_of_nil. }
  destruct (checkRef _ _ _) as [e1 refs'] eqn:Hr. destruct (normalizePlannedIssue _ _) as [e2 out1] eqn:Hi.
  destruct (normalizePlannedIssues _ _ _) as [e3 out2] eqn:Hrest. injection Hn as He <-.
  apply app_eq_nil in He as [-> He]. apply app_eq_nil in He as [-> ->].
  apply IH in Hrest as (Href & Hlab & Hall & Hnd & Hlocal & Hseen). apply normalizePlannedIssue_nil in Hi as (Hrefi & Hnorm & Hlen).
  assert (Hout : refs_of (out1 :: out2) = if negb (pn_Ref issue =s "") then pn_Ref issue :: refs_of out2 else refs_of out2)
    by (unfold refs_of; cbn; by rewrite Hrefi).
  apply checkRef_nil in Hr as [[He ->]|(He & Hloc & Hnew & ->)].
  - rewrite He, eqb_string_refl in Hout. cbn [negb] in Hout. rewrite Hout. cbn [map].
    split_and!; [by rewrite Href, Hrefi|unfold labelAssignments in *; cbn; lia|by constructor|done..].
  - rewrite (proj2 (eqb_string_false _ _) He) in Hout. cbn [negb] in Hout. rewrite Hout. cbn [map].
    split_and!; [by rewrite Href, Hrefi|unfold labelAssignments in *; cbn; lia|by constructor| |by constructor|].
    + constructor; [|done]. intros Hin%Hseen. by rewrite lookup_insert_eq in Hin.
    + intros ref [->|Hin]%elem_of_cons; [done|]. specialize (Hseen ref Hin).
      apply lookup_insert_None in Hseen. tauto.
Qed.

Lemma normal_issues_nil i refs issues :
  Forall normal_issue issues → NoDup (refs_of issues) → Forall local_ref (refs_of issues) →
  (∀ ref, ref ∈ refs_of issues → refs !! ref = None) → normalizePlannedIssues i refs issues = ([], issues).
Proof.
  revert i refs. induction issues as [|issue rest IH]; intros i refs Hall Hnd Hloc Hseen; cbn [normalizePlannedIssues]; [done|].
  apply Forall_cons in Hall as [Hi Hall]. rewrite normal_issue_nil by done. unfold refs_of in Hnd, Hloc, Hseen. cbn in Hnd, Hloc, Hseen.
  destruct (pn_Ref issue =s "") eqn:He; cbn in Hnd, Hloc, Hseen.
  - apply eqb_string_true in He. rewrite (proj2 (checkRef_nil i (pn_Ref issue) refs refs)) by (by left). by rewrite IH.
  - apply eqb_string_false in He. apply NoDup_cons in Hnd as [Hnin Hnd]. apply Forall_cons in Hloc as [Hl Hloc].
    rewrite (proj2 (checkRef_nil i (pn_Ref issue) refs (<[pn_Ref issue := i]> refs))).
    2:{ right. split_and!; try done. apply Hseen. by left. }
    rewrite IH; try done. intros ref Hin. rewrite lookup_insert_ne; [apply Hseen; by right|]. intros <-. done.
Qed.

(** Relations and decisions: what an empty list of errors says. *)
Definition normal_relation (relation : PlannedRelation) : Prop :=
  ValidateText "source_ref" (pnr_SourceRef relation) MaxLocalRefRunes = Ok tt ∧ blank (pnr_SourceRef relation) = false ∧
  ValidateText "target_ref" (pnr_TargetRef relation) MaxLocalRefRunes = Ok tt ∧ blank (pnr_TargetRef relation) = false ∧
  RelationType_Valid (pnr_Type relation) = true ∧ pnr_SourceRef relation ≠ pnr_TargetRef relation.

Definition normal_decision (decision : PlannedDecision) : Prop :=
  blank (pnd_Title decision) = false ∧ blank (pnd_Summary decision) = false ∧
  DecisionStatus_Valid (pnd_Status decision) = true.

Lemma checkRequiredText_nil i prefix field value maximum required :
  checkRequiredText i prefix field value maximum required = [] ↔
  ValidateText field value maximum = Ok tt ∧ (required = true → blank value = false).
Proof.
  unfold checkRequiredText. destruct (ValidateText _ _ _) as [[]|]; [|naive_solver].
  destruct required, (blank value); cbn; naive_solver.
Qed.

Lemma concat_map_nil {A B} (f : A → list B) l : concat (map f l) = [] ↔ ∀ x, x ∈ l → f x = [].
Proof.
  induction l as [|x l IH]; cbn; [split; [by intros _ ? ?%elem_of_nil|done]|]. rewrite app_nil, IH. set_solver.
Qed.

Lemma loop_nil {A B} n (f : A → list B) entries :
  concat (map f (iterate n entries)) = [] ↔ ∀ x, x ∈ entries → f x = [].
Proof. rewrite concat_map_nil. by setoid_rewrite iterate_perm. Qed.

Lemma blank_empty : blank "" = true.
Proof. done. Qed.

Lemma checkPlannedRelation_nil i relation : checkPlannedRelation i relation = [] ↔ normal_relation relation.
Proof.
  unfold checkPlannedRelation, normal_relation. cbv zeta. rewrite !app_nil, loop_nil.
  split.
  - intros (Hloop & Ht & Hs).
    pose proof (Hloop ("source_ref", pnr_SourceRef relation) ltac:(set_solver)) as Hsrc.
    pose proof (Hloop ("target_ref", pnr_TargetRef relation) ltac:(set_solver)) as Htgt. cbn beta iota in Hsrc, Htgt.
    apply checkRequiredText_nil in Hsrc as [? Hb1], Htgt as [? Hb2].
    split_and!; [done|by apply Hb1|done|by apply Hb2|by destruct (RelationType_Valid _)|].
    intros He. rewrite He, eqb_string_refl in Hs. destruct (pnr_TargetRef relation =s "") eqn:Hb; [|done].
    apply eqb_string_true in Hb. rewrite He, Hb, blank_empty in Hb1. by specialize (Hb1 eq_refl).
  - intros (? & ? & ? & ? & Ht & Hne). rewrite Ht, (proj2 (eqb_string_false _ _) Hne). split_and!; [|done..].
    intros [field value] Hin. apply elem_of_cons in Hin as [[= -> ->]|[[= -> ->]|[]%elem_of_nil]%elem_of_cons];
      by apply checkRequiredText_nil.
Qed.

Lemma normalizedDecision_idemp decision : normalizedDecision (normalizedDecision decision) = normalizedDecision decision.
Proof.
  unfold normalizedDecision. cbn. destruct (pnd_Status decision =s "") eqn:He; [done|]. by rewrite He.
Qed.

Lemma checkPlannedDecision_nil i j decision :
  checkPlannedDecision i decision = [] →
  normal_decision (normalizedDecision decision) ∧ checkPlannedDecision j (normalizedDecision decision) = [].
Proof.
  unfold checkPlannedDecision, normal_decision. cbv zeta. rewrite !app_nil, !loop_nil, normalizedDecision_idemp.
  intros (Hloop & Ht & Hr).
  pose proof (Hloop ("title", (pnd_Title decision, MaxTitleRunes)) ltac:(set_solver)) as Htitle.
  pose proof (Hloop ("summary", (pnd_Summary decision, MaxDecisionSummaryRunes)) ltac:(set_solver)) as Hsum.
  pose proof (Hloop ("content", (pnd_Content decision, MaxDecisionContentRunes)) ltac:(set_solver)) as Hcon.
  cbn beta iota in Htitle, Hsum, Hcon. apply checkRequiredText_nil in Htitle as [? Hb1], Hsum as [? Hb2], Hcon as [? _].
  assert (Hst : DecisionStatus_Valid (pnd_Status (normalizedDecision decision)) = true) by by destruct (DecisionStatus_Valid _).
  rewrite Hst. split; [split_and!; [by apply Hb1|by apply Hb2|done]|]. split_and!; [|done|by eapply checkOptionalRef_nil].
  intros [field [value maximum]] Hin. cbn [normalizedDecision pnd_Title pnd_Summary pnd_Content] in Hin.
  apply elem_of_cons in Hin as [[= -> -> ->]|[[= -> -> ->]|[[= -> -> ->]|[]%elem_of_nil]%elem_of_cons]%elem_of_cons];
    by apply checkRequiredText_nil.
Qed.

Lemma checkPlannedRelations_nil i relations :
  checkPlannedRelations i relations = [] ↔ Forall normal_relation relations.
Proof.
  revert i. induction relations as [|r rest IH]; intros i; cbn [checkPlannedRelations]; [done|].
  by rewrite app_nil, checkPlannedRelation_nil, IH, Forall_cons.
Qed.

Lemma checkPlannedDecisions_nil i j decisions :
  checkPlannedDecisions i decisions = [] →
  Forall normal_decision (map normalizedDecision decisions) ∧
  checkPlannedDecisions j (map normalizedDecision decisions) = [].
Proof.
  revert i j. induction decisions as [|d rest IH]; intros i j; cbn [checkPlannedDecisions map]; [done|].
  rewrite !app_nil. intros [[Hd Hd']%(checkPlannedDecision_nil i j) Hrest]. destruct (IH _ (j + 1)%Z Hrest). by rewrite Forall_cons.
Qed.
End normal.

(** * Properties *)

(** Validating a plan is deterministic: whatever the order in which Go
    ranges over its maps, the same errors are reported in the same order, with
    the same summary and the same normalized plan. *)
Theorem NormalizeIssuePlan_deterministic `{UnicodeTables, ULID} (I1 I2 : MapIteration) plan :
  NormalizeIssuePlan (H1 := I1) plan = NormalizeIssuePlan (H1 := I2) plan.
Proof.
  unfold NormalizeIssuePlan. destruct (normalizePlannedIssues _ _ _) as [errors issues]. cbv zeta.
  match goal with |- mkPlanValidation (null ?l1) _ _ _ _ = mkPlanValidation (null ?l2) _ _ _ _ => assert (Hp : l1 ≡ₚ l2) end.
  { apply Permutation_app_head, Permutation_app_head, Permutation_app_head.
    apply Permutation_app; [apply checkPlannedRelations_perm|apply checkPlannedDecisions_perm]. }
  by rewrite (null_perm _ _ Hp), (SortDetails_unique _ _ Hp).
Qed.

(** Accepted plans are in normal form.  A plan that is accepted has at most
    50 issues, 100 relations, 20 decisions and 50 label assignments; every
    issue validates as it stands; the local references in use are distinct,
    not blank and cannot be read as issue identifiers; relations have a known
    type and two different ends, decisions a title, a summary and a known
    status.  Validating the normalized plan again accepts it unchanged. *)
Theorem NormalizeIssuePlan_normal `{UnicodeTables, ULIDLaws, MapIteration} plan :
  pv_Valid (NormalizeIssuePlan plan) = true →
  let out := pv_NormalizedPlan (NormalizeIssuePlan plan) in
  pv_Errors (NormalizeIssuePlan plan) = [] ∧
  length (ip_Issues out) ≤ 50 ∧ length (ip_Relations out) ≤ 100 ∧ length (ip_Decisions out) ≤ 20 ∧
  (labelAssignments (ip_Issues out) <= 50)%Z ∧
  Forall (λ issue, CreateIssueInput_Validate (plannedInput issue) = Ok (plannedInput issue)) (ip_Issues out) ∧
  NoDup (refs_of (ip_Issues out)) ∧
  Forall (λ ref, blank ref = false ∧ is_ok (ParseIssueIdentifier ref) = false) (refs_of (ip_Issues out)) ∧
  Forall (λ r, RelationType_Valid (pnr_Type r) = true ∧ pnr_SourceRef r ≠ pnr_TargetRef r ∧
                blank (pnr_SourceRef r) = false ∧ blank (pnr_TargetRef r) = false) (ip_Relations out) ∧
  Forall normal_decision (ip_Decisions out) ∧
  pv_Valid (NormalizeIssuePlan out) = true ∧ pv_NormalizedPlan (NormalizeIssuePlan out) = out.
Proof.
  destruct (normalizePlannedIssues 0 ∅ (ip_Issues plan)) as [errors issues] eqn:Hn.
  unfold NormalizeIssuePlan at 1 2 3. rewrite Hn. cbv zeta. cbn [pv_Valid pv_Errors pv_NormalizedPlan ip_Issues ip_Relations ip_Decisions].
  intros He%null_true. rewrite He. apply app_nil in He as [Hc [He [Hl [Hr Hd]%app_nil]%app_nil]%app_nil]. subst errors.
  pose proof (normalizePlannedIssues_nil _ _ _ _ Hn) as (Hrefs & Hlab & Hall & Hnd & Hloc & _).
  assert (Hlen : length issues = length (ip_Issues plan)) by (by rewrite <-(length_map pn_Ref), Hrefs, length_map).
  assert (Hagain : normalizePlannedIssues 0 ∅ issues = ([], issues)) by (apply normal_issues_nil; [done..|]; intros; apply lookup_empty).
  destruct (checkPlannedDecisions_nil _ 0 _ Hd) as [Hnorm Hd'].
  assert (Hcount : planCountErrors (mkPlan issues (ip_Relations plan) (map normalizedDecision (ip_Decisions plan))) = planCountErrors plan)
    by (unfold planCountErrors, checkCount; cbn; by rewrite Hlen, length_map).
  assert (Hv : NormalizeIssuePlan (mkPlan issues (ip_Relations plan) (map normalizedDecision (ip_Decisions plan))) =
    mkPlanValidation true [] [] (mkSummary (Z.of_nat (length issues)) (Z.of_nat (length (ip_Relations plan)))
      (Z.of_nat (length (map normalizedDecision (ip_Decisions plan)))) (labelAssignments issues))
      (mkPlan issues (ip_Relations plan) (map normalizedDecision (map normalizedDecision (ip_Decisions plan))))).
  { unfold NormalizeIssuePlan. cbn [ip_Issues ip_Relations ip_Decisions]. by rewrite Hagain, Hcount, Hc, Hlab, Hl, Hr, Hd'. }
  rewrite Hv. cbn [pv_Valid pv_NormalizedPlan].
  unfold planCountErrors, checkCount in Hc. apply app_nil in Hc as [Hc1 [Hc2 Hc3]%app_nil].
  split_and!; try done.
  - rewrite Hlen. destruct (Z.ltb_spec MaxBatchIssues (Z.of_nat (length (ip_Issues plan)))); [done|]. unfold MaxBatchIssues in *. lia.
  - destruct (Z.ltb_spec MaxRelationsPerOperation (Z.of_nat (length (ip_Relations plan)))); [done|]. unfold MaxRelationsPerOperation in *. lia.
  - rewrite length_map. destruct (Z.ltb_spec MaxBatchDecisions (Z.of_nat (length (ip_Decisions plan)))); [done|]. unfold MaxBatchDecisions in *. lia.
  - rewrite Hlab. by destruct (Z.ltb_spec MaxBatchLabelAssignments (labelAssignments (ip_Issues plan))).
  - eapply Forall_impl; [exact Hall|]. by intros issue [? _].
  - eapply Forall_impl; [exact Hloc|]. by intros ref (_ & ? & ?).
  - apply checkPlannedRelations_nil in Hr. eapply Forall_impl; [exact Hr|]. by intros r (? & ? & ? & ? & ? & ?).
  - f_equal. rewrite map_map. apply map_ext. apply normalizedDecision_idemp.
Qed.

(** *** A plan with an epic, two tasks and a decision *)

#[export] Instance sample_iteration : MapIteration := {| iterate := λ _ _ entries, entries; iterate_perm := λ _ _ _, reflexivity _ |}.

Definition planned (ref type title status : string) (parent : option string) (labels : list string) : PlannedIssue :=
  mkPlannedIssue ref type title None None status "" parent None labels true.
Definition samplePlan : IssuePlan :=
  mkPlan [planned "epic" TypeEpic "Store" "" None []; planned "schema" TypeTask "Schema" "" (Some "epic") ["db "];
          planned "api" TypeTask "API" "ready" (Some "epic") []]
    [mkPlannedRelation "schema" "api" RelationTypeBlocks]
    [mkPlannedDecision (Some "epic") "Storage" "Use SQLite" "" ""].
Definition samplePlanNormal : IssuePlan := pv_NormalizedPlan (NormalizeIssuePlan samplePlan).

Example samplePlan_refusals :
  pv_Errors (NormalizeIssuePlan (mkPlan [planned "a" TypeTask " " "" None []; planned "a" TypeTask "b" "" None []]
    [mkPlannedRelation "a" "a" "knows"] [])) =
  [mkDetail (Some 0%Z) "issues[0].title" "REQUIRED" ""; mkDetail (Some 0%Z) "relations[0].target_ref" "SELF_RELATION" "endpoints must differ";
   mkDetail (Some 0%Z) "relations[0].type" "INVALID_ENUM" "knows"; mkDetail (Some 1%Z) "issues[1].ref" "DUPLICATE_REF" "must be unique"].
Proof. by vm_compute. Qed.

Lemma NormalizeIssuePlan_normal_witness :
  pv_Valid (NormalizeIssuePlan samplePlan) = true ∧ pv_Valid (NormalizeIssuePlan samplePlanNormal) = true ∧
  refs_of (ip_Issues samplePlanNormal) = ["epic"; "schema"; "api"] ∧
  map pn_Status (ip_Issues samplePlanNormal) = ["open"; "open"; "ready"].
Proof.
  split_and!; [by vm_compute| |by vm_compute..]. apply (NormalizeIssuePlan_normal samplePlan). by vm_compute.
Defined.
