(* ===== verification/Resource.v ===== *)
(** * Reservable resources

    [internal/domain/reservation.go] ([Normalize], [Key], [Display]),
    [reservation_glob.go] (segments, shapes, matching and intersection),
    [reservation_overlap.go] ([PrepareOverlap], [Overlaps]),
    [reservation_request.go] ([PrepareReservationRequest]) and
    [reservation_record.go].

    The theorems relate the comparison code to the set of paths a resource
    denotes ([denotes]): two resources overlap exactly when they share a
    path. *)

From S2P Require Import Prelude GoStrings Errors Validation Samples Issue.

(** ** Kinds and limits *)

Definition ResourceKindFile := "file".
Definition ResourceKindDirectory := "directory".
Definition ResourceKindGlob := "glob".
Definition ResourceKindLogical := "logical".
Definition ResourceKind_Valid (kind : string) : bool :=
  enumValid kind [ResourceKindFile; ResourceKindDirectory; ResourceKindGlob; ResourceKindLogical].

Definition MaxReservationResources : Z := 50.
Definition MaxResourcePathRunes : Z := 4096.
Definition MaxLogicalNamespaceRunes : Z := 64.
Definition MaxLogicalNameRunes : Z := 256.

Record Resource := mkResource {
  r_Kind : string;
  r_Path : string;
  r_Namespace : string;
  r_Name : string;
}.

(** ** Segments *)

Inductive globSegmentKind := globSegmentLiteral | globSegmentStar | globSegmentStarStar.
#[export] Instance globSegmentKind_eq_dec : EqDecision globSegmentKind.
Proof. solve_decision. Defined.

Record globSegment := mkSegment { seg_kind : globSegmentKind; seg_text : string }.
#[export] Instance globSegment_eq_dec : EqDecision globSegment.
Proof. solve_decision. Defined.

(** The byte-wise fold, with the scan for an upper-case letter in front. *)
Definition asciiFold (value : string) : string :=
  if negb (str_exists is_upper value) then value else str_map lower_byte value.

Definition foldedText (segment : globSegment) : string :=
  match seg_kind segment with
  | globSegmentLiteral => asciiFold (seg_text segment)
  | _ => seg_text segment
  end.

(** The metacharacters a glob literal must not contain. *)
Definition slash : ascii := byte_of 47.
Definition colon : ascii := byte_of 58.
Definition backslash : ascii := byte_of 92.
Definition glob_meta : string := "*?[]{}" +:+ String backslash "".

Definition classifyGlobSegment (text kind : string) : result globSegment :=
  if negb (kind =s ResourceKindGlob) then Ok (mkSegment globSegmentLiteral text)
  else if text =s "*" then Ok (mkSegment globSegmentStar "*")
  else if text =s "**" then Ok (mkSegment globSegmentStarStar "**")
  else
    fail_if ContainsAny text glob_meta
      with validationError "path" "INVALID_GLOB_SEGMENT"
             ("glob segments must be a literal, '*', or a terminal '**'; " +:+
              "'?', character classes, braces, and embedded wildcards are not allowed") ;;
    Ok (mkSegment globSegmentLiteral text).

Definition isStarStar (segment : globSegment) : bool :=
  bool_decide (seg_kind segment = globSegmentStarStar).

(** The loop finds a "**" at an index other than the last one. *)
Fixpoint starstar_before_last (segments : list globSegment) : bool :=
  match segments with
  | [] => false
  | [_] => false
  | s :: rest => isStarStar s || starstar_before_last rest
  end.

Definition validateStarStarPlacement (segments : list globSegment) (kind : string) : result unit :=
  if negb (kind =s ResourceKindGlob) then Ok tt
  else
    fail_if starstar_before_last segments
      with validationError "path" "STARSTAR_MUST_BE_LAST"
             "'**' may appear only once, as the final segment" ;;
    Ok tt.

(** ** Normalization *)

Record NormalizedResource := mkNormalized {
  n_kind : string;
  n_display : string;
  n_segments : list globSegment;
  n_namespace : string;
  n_name : string;
}.
#[export] Instance NormalizedResource_eq_dec : EqDecision NormalizedResource.
Proof. solve_decision. Defined.

Definition namespace_byte (c : ascii) : bool :=
  is_lower c || is_digit c || Ascii.eqb c (byte_of 46) || Ascii.eqb c (byte_of 45).

Definition validLogicalNamespace (namespace : string) : bool :=
  match namespace with
  | EmptyString => false
  | String c rest => is_lower c && negb (str_exists (λ c, negb (namespace_byte c)) rest)
  end.

Definition isWindowsVolumeForm (path : string) : bool :=
  match path with
  | String c (String d _) => Ascii.eqb d colon && (is_upper c || is_lower c)
  | _ => false
  end.

Definition normalizeLogical (input : Resource) : result NormalizedResource :=
  try ValidateText "namespace" (r_Namespace input) MaxLogicalNamespaceRunes ;;
  fail_if negb (validLogicalNamespace (r_Namespace input))
    with validationError "namespace" "INVALID_NAMESPACE" "must match [a-z][a-z0-9.-]{0,63}" ;;
  let name := TrimSpace (r_Name input) in
  try ValidateText "name" name MaxLogicalNameRunes ;;
  fail_if name =s "" with validationError "name" "REQUIRED" "must not be blank" ;;
  Ok (mkNormalized ResourceKindLogical (r_Namespace input +:+ ":" +:+ name) []
        (r_Namespace input) name).

(** The loop over the raw parts. *)
Fixpoint collectSegments (raw : list string) (kind : string) : result (list globSegment) :=
  match raw with
  | [] => Ok []
  | part :: rest =>
      if (part =s "") || (part =s ".") then collectSegments rest kind
      else
        fail_if part =s ".."
          with validationError "path" "PARENT_SEGMENT_NOT_ALLOWED" "must not contain a '..' segment" ;;
        segment ← classifyGlobSegment part kind;
        segments ← collectSegments rest kind;
        Ok (segment :: segments)
  end.

Definition normalizePath (input : Resource) : result NormalizedResource :=
  let path := r_Path input in
  try ValidateText "path" path MaxResourcePathRunes ;;
  fail_if contains_byte backslash path
    with validationError "path" "BACKSLASH_NOT_ALLOWED" "must use forward slashes, not backslashes" ;;
  fail_if HasPrefix path "/"
    with validationError "path" "ABSOLUTE_PATH_NOT_ALLOWED" "must be project-relative, not absolute" ;;
  fail_if isWindowsVolumeForm path
    with validationError "path" "VOLUME_FORM_NOT_ALLOWED" "must not use a Windows volume prefix" ;;
  segments ← collectSegments (Split slash path) (r_Kind input);
  fail_if (Z.of_nat (length segments) =? 0)%Z
    with validationError "path" "EMPTY_ROOT_NOT_ALLOWED" "must not be empty or resolve to '.'" ;;
  try validateStarStarPlacement segments (r_Kind input) ;;
  Ok (mkNormalized (r_Kind input) (Join (map seg_text segments) "/") segments "" "").

Definition Normalize `{UnicodeTables} (input : Resource) : result NormalizedResource :=
  fail_if negb (ResourceKind_Valid (r_Kind input)) with invalidEnum "kind" (r_Kind input) ;;
  if r_Kind input =s ResourceKindLogical then normalizeLogical input else normalizePath input.

Definition Key (r : NormalizedResource) : string :=
  if n_kind r =s ResourceKindLogical then n_namespace r +:+ ":" +:+ n_name r
  else n_kind r +:+ ":" +:+ Join (map foldedText (n_segments r)) "/".

(** What [marshalIdentity] and [scanReservationRow] of the SQLite adapter store
    and read back: the resource in its display spelling. *)
Definition storedIdentity (r : NormalizedResource) : Resource :=
  if n_kind r =s ResourceKindLogical
  then mkResource (n_kind r) "" (n_namespace r) (n_name r)
  else mkResource (n_kind r) (n_display r) "" "".

(** ** Shapes *)

Record globShape := mkShape {
  gs_prefix : list string;
  gs_starIsGlob : list bool;
  gs_hasStarStar : bool;
}.

Definition shapeOf_step (shape : globShape) (segment : globSegment) : globShape :=
  match seg_kind segment with
  | globSegmentStarStar => mkShape (gs_prefix shape) (gs_starIsGlob shape) true
  | globSegmentStar => mkShape (gs_prefix shape ++ ["*"]) (gs_starIsGlob shape ++ [true]) (gs_hasStarStar shape)
  | globSegmentLiteral =>
      mkShape (gs_prefix shape ++ [asciiFold (seg_text segment)]) (gs_starIsGlob shape ++ [false])
        (gs_hasStarStar shape)
  end.
Definition shapeOf (segments : list globSegment) : globShape :=
  foldl shapeOf_step (mkShape [] [] false) segments.

(** The index loops, in lock step over the parallel slices and up to the
    shorter of the two sides. *)
Fixpoint prefix_matches (prefix : list string) (star : list bool) (candidate : list string) : bool :=
  match prefix, star, candidate with
  | want :: prefix, w :: star, c :: candidate =>
      (w || (want =s c)) && prefix_matches prefix star candidate
  | _, _, _ => true
  end.

Fixpoint prefixes_compatible (p1 : list string) (s1 : list bool) (p2 : list string) (s2 : list bool) : bool :=
  match p1, s1, p2, s2 with
  | a :: p1, w1 :: s1, b :: p2, w2 :: s2 =>
      negb (negb w1 && negb w2 && negb (a =s b)) && prefixes_compatible p1 s1 p2 s2
  | _, _, _, _ => true
  end.

Definition matchesPath (g : globShape) (candidate : list string) : bool :=
  if (if gs_hasStarStar g then bool_decide (length candidate < length (gs_prefix g))
      else negb (bool_decide (length candidate = length (gs_prefix g))))
  then false
  else prefix_matches (gs_prefix g) (gs_starIsGlob g) candidate.

Definition intersects (g other : globShape) : bool :=
  if negb (prefixes_compatible (gs_prefix g) (gs_starIsGlob g) (gs_prefix other) (gs_starIsGlob other))
  then false
  else if bool_decide (length (gs_prefix g) = length (gs_prefix other)) then true
  else if bool_decide (length (gs_prefix g) < length (gs_prefix other)) then gs_hasStarStar g
  else gs_hasStarStar other.

Definition intersectsDescendantsOf (g : globShape) (dir : list string) : bool :=
  if negb (prefix_matches (gs_prefix g) (gs_starIsGlob g) dir) then false
  else if bool_decide (length dir < length (gs_prefix g)) then true
  else gs_hasStarStar g.

(** ** Overlap *)

Fixpoint isPrefixOrEqual (prefix candidate : list string) : bool :=
  match prefix, candidate with
  | [], _ => true
  | _ :: _, [] => false
  | p :: prefix, c :: candidate => (p =s c) && isPrefixOrEqual prefix candidate
  end.

Fixpoint equalSegments (a b : list string) : bool :=
  match a, b with
  | [], [] => true
  | x :: a, y :: b => (x =s y) && equalSegments a b
  | _, _ => false
  end.

Definition foldedSegments (segments : list globSegment) : list string := map foldedText segments.

Record PreparedOverlap := mkPrepared {
  po_resource : NormalizedResource;
  po_folded : list string;
  po_shape : globShape;
}.

Definition zero_shape : globShape := mkShape [] [] false.

Definition PrepareOverlap (resource : NormalizedResource) : PreparedOverlap :=
  if n_kind resource =s ResourceKindLogical then mkPrepared resource [] zero_shape
  else mkPrepared resource (foldedSegments (n_segments resource))
         (if n_kind resource =s ResourceKindGlob then shapeOf (n_segments resource) else zero_shape).

(** The value [p.folded[0]] exists: [folded] and [segments] have one length
    for a path resource. *)
Definition FirstLiteralSegment (p : PreparedOverlap) : option string :=
  match n_segments (po_resource p) with
  | s :: _ =>
      if bool_decide (seg_kind s = globSegmentLiteral) then head (po_folded p) else None
  | [] => None
  end.

Definition PreparedOverlap_Overlaps (p other : PreparedOverlap) : bool :=
  let a := po_resource p in let b := po_resource other in
  let ak := n_kind a in let bk := n_kind b in
  if (ak =s ResourceKindLogical) || (bk =s ResourceKindLogical) then
    (ak =s bk) && (n_namespace a =s n_namespace b) && (n_name a =s n_name b)
  else if match FirstLiteralSegment p, FirstLiteralSegment other with
          | Some first, Some second => negb (first =s second)
          | _, _ => false
          end then false
  else if (ak =s ResourceKindFile) && (bk =s ResourceKindFile) then
    equalSegments (po_folded p) (po_folded other)
  else if (ak =s ResourceKindDirectory) && (bk =s ResourceKindDirectory) then
    isPrefixOrEqual (po_folded p) (po_folded other) || isPrefixOrEqual (po_folded other) (po_folded p)
  else if (ak =s ResourceKindDirectory) && (bk =s ResourceKindFile) then
    isPrefixOrEqual (po_folded p) (po_folded other)
  else if (ak =s ResourceKindFile) && (bk =s ResourceKindDirectory) then
    isPrefixOrEqual (po_folded other) (po_folded p)
  else if (ak =s ResourceKindGlob) && (bk =s ResourceKindGlob) then
    intersects (po_shape p) (po_shape other)
  else if (ak =s ResourceKindFile) && (bk =s ResourceKindGlob) then
    matchesPath (po_shape other) (po_folded p)
  else if (ak =s ResourceKindGlob) && (bk =s ResourceKindFile) then
    matchesPath (po_shape p) (po_folded other)
  else if (ak =s ResourceKindDirectory) && (bk =s ResourceKindGlob) then
    matchesPath (po_shape other) (po_folded p) || intersectsDescendantsOf (po_shape other) (po_folded p)
  else if (ak =s ResourceKindGlob) && (bk =s ResourceKindDirectory) then
    matchesPath (po_shape p) (po_folded other) || intersectsDescendantsOf (po_shape p) (po_folded other)
  else false.

Definition Overlaps (a b : NormalizedResource) : bool :=
  PreparedOverlap_Overlaps (PrepareOverlap a) (PrepareOverlap b).

(** ** Reservation requests *)

Record PreparedResource := mkPreparedResource {
  pr_Index : Z;
  pr_Resource : NormalizedResource;
}.

(** The pair that identifies a resource within a request and in storage. *)
Definition resourceIdentity (r : NormalizedResource) : string * string := (n_kind r, Key r).

Definition withEntityIndex (index : Z) (d : Detail) : Detail :=
  mkDetail (Some index) (d_Field d) (d_Code d) (d_Message d).

Definition wrapResourceRequestError (index : Z) (e : DomainError) : DomainError :=
  match e_Details e with
  | [] => NewError CodeInvalidArgument (e_Message e) false [mkDetail (Some index) "resources" "" ""]
  | details => NewError (e_Code e) (e_Message e) (e_Retryable e) (map (withEntityIndex index) details)
  end.

Definition internalOverlap (index : Z) : DomainError :=
  NewError CodeInvalidReservationSet "requested resources overlap each other" false
    [mkDetail (Some index) "resources" "INTERNAL_OVERLAP" ""].

Definition tooManyResources : DomainError :=
  NewError CodeLimitExceeded
    ("resources exceeds the maximum count of " +:+ Itoa MaxReservationResources) false
    [mkDetail None "resources" "MAX_ITEMS" ("maximum " +:+ Itoa MaxReservationResources)].

(** The loop of [PrepareReservationRequest]; [seen] and [prepared] are its
    local map and slice. *)
Fixpoint prepareLoop `{UnicodeTables} (index : Z) (resources : list Resource)
    (seen : gset (string * string)) (prepared : list PreparedResource) :
    result (list PreparedResource) :=
  match resources with
  | [] => Ok prepared
  | resource :: rest =>
      match Normalize resource with
      | Err e => Err (wrapResourceRequestError index e)
      | Ok candidate =>
          let identity := resourceIdentity candidate in
          if bool_decide (identity ∈ seen) then prepareLoop (index + 1) rest seen prepared
          else
            fail_if existsb (λ existing, Overlaps candidate (pr_Resource existing)) prepared
              with internalOverlap index ;;
            prepareLoop (index + 1) rest ({[ identity ]} ∪ seen)
              (prepared ++ [mkPreparedResource index candidate])
      end
  end.

Definition PrepareReservationRequest `{UnicodeTables} (resources : list Resource) :
    result (list PreparedResource) :=
  fail_if (Z.of_nat (length resources) =? 0)%Z
    with validationError "resources" "REQUIRED" "must not be empty" ;;
  fail_if (MaxReservationResources <? Z.of_nat (length resources))%Z with tooManyResources ;;
  prepareLoop 0 resources ∅ [].

(** ** Reservation records *)

Definition DefaultReservationHistoryLimit : Z := 20.
Definition MaxReservationHistoryLimit : Z := 100.

Definition ReservationStatusActive := "active".
Definition ReservationStatusReleased := "released".

Definition ReservationReleaseReasonCompleted := "completed".
Definition ReservationReleaseReasonFailed := "failed".
Definition ReservationReleaseReasonInterrupted := "interrupted".
Definition ReservationReleaseReasonExpired := "expired".
Definition ReservationReleaseReasonForceReleased := "force_released".
Definition ReservationReleaseReasonExplicit := "explicit".
Definition ReservationReleaseReason_Valid (reason : string) : bool :=
  enumValid reason
    [ReservationReleaseReasonCompleted; ReservationReleaseReasonFailed;
     ReservationReleaseReasonInterrupted; ReservationReleaseReasonExpired;
     ReservationReleaseReasonForceReleased; ReservationReleaseReasonExplicit].

Record Reservation := mkReservation {
  rv_ID : string;
  rv_IssueID : string;
  rv_AttemptID : string;
  rv_Kind : string;
  rv_DisplayValue : string;
  rv_ComparisonValue : string;
  rv_Status : string;
  rv_Version : Z;
  rv_CreatedAt : Z;
  rv_ReleasedAt : option Z;
  rv_ReleaseReason : option string;
}.

Record ReservationSummary := mkReservationSummary {
  rs_ID : string;
  rs_IssueID : string;
  rs_AttemptID : string;
  rs_Kind : string;
  rs_DisplayValue : string;
  rs_Status : string;
  rs_CreatedAt : Z;
  rs_ReleasedAt : option Z;
  rs_ReleaseReason : option string;
}.

Definition SummarizeReservation (r : Reservation) : ReservationSummary :=
  mkReservationSummary (rv_ID r) (rv_IssueID r) (rv_AttemptID r) (rv_Kind r) (rv_DisplayValue r)
    (rv_Status r) (rv_CreatedAt r) (rv_ReleasedAt r) (rv_ReleaseReason r).

Definition SummarizeReservations (l : list Reservation) : list ReservationSummary :=
  map SummarizeReservation l.

Record ListResourceReservationsInput := mkListReservations {
  lr_IssueID : option string;
  lr_AttemptID : option string;
  lr_Kind : option string;
  lr_Active : option bool;
  lr_Limit : Z;
  lr_Cursor : string;
}.

(** [search.go]: an optional issue reference, normalized. *)
Definition normalizeOptionalSearchIssueID `{ULID} (field : string) (value : option string) :
    result (option string) :=
  match value with
  | None => Ok None
  | Some v =>
      match ParseIssueIdentifier v with
      | Err _ => Err (validationError field "INVALID_IDENTIFIER" "must be a canonical ULID or ISSUE-N")
      | Ok identifier => Ok (Some (id_Value identifier))
      end
  end.

Definition ListResourceReservationsInput_Validate `{UnicodeTables, ULID}
    (input : ListResourceReservationsInput) : result ListResourceReservationsInput :=
  fail_if (lr_Limit input <? 0)%Z || (MaxReservationHistoryLimit <? lr_Limit input)%Z
    with validationError "limit" "OUT_OF_RANGE"
           ("must be 0 (default) or between 1 and " +:+ Itoa MaxReservationHistoryLimit) ;;
  issueID ← normalizeOptionalSearchIssueID "issue_id" (lr_IssueID input);
  try match lr_AttemptID input with
      | None => Ok tt
      | Some a =>
          fail_if negb (ids_ParseStrict a) || negb (len a =? 26)%Z
            with validationError "attempt_id" "INVALID_ULID" "must be a canonical ULID" ;;
          Ok tt
      end ;;
  try match lr_Kind input with
      | None => Ok tt
      | Some kind => fail_if negb (ResourceKind_Valid kind) with invalidEnum "kind" kind ;; Ok tt
      end ;;
  try (if negb (lr_Cursor input =s "") then ValidateText "cursor" (lr_Cursor input) 4096 else Ok tt) ;;
  let limit := if (lr_Limit input =? 0)%Z then DefaultReservationHistoryLimit else lr_Limit input in
  Ok (mkListReservations issueID (lr_AttemptID input) (lr_Kind input) (lr_Active input) limit
        (lr_Cursor input)).

(** * The paths a resource denotes *)

(** A point of the resource space: a project-relative path, as its folded
    segments, or a logical name. *)
Inductive point :=
  | PathPoint (segments : list string)
  | LogicalPoint (namespace name : string).

Fixpoint glob_language (segments : list globSegment) (path : list string) : Prop :=
  match segments with
  | [] => path = []
  | s :: rest =>
      match seg_kind s with
      | globSegmentStarStar => True
      | globSegmentStar => ∃ x path', path = x :: path' ∧ glob_language rest path'
      | globSegmentLiteral =>
          ∃ path', path = asciiFold (seg_text s) :: path' ∧ glob_language rest path'
      end
  end.

Definition denotes (r : NormalizedResource) (x : point) : Prop :=
  match x with
  | LogicalPoint namespace name =>
      n_kind r = ResourceKindLogical ∧ n_namespace r = namespace ∧ n_name r = name
  | PathPoint path =>
      (n_kind r = ResourceKindFile ∧ path = foldedSegments (n_segments r)) ∨
      (n_kind r = ResourceKindDirectory ∧ foldedSegments (n_segments r) `prefix_of` path) ∨
      (n_kind r = ResourceKindGlob ∧ glob_language (n_segments r) path)
  end.

(** What [Normalize] establishes of the segments of a path resource. *)
Definition literal_segment (s : globSegment) : Prop := seg_kind s = globSegmentLiteral.

Definition segment_text_ok (s : globSegment) : Prop :=
  seg_text s ≠ "" ∧ seg_text s ≠ "." ∧ seg_text s ≠ ".." ∧
  contains_byte slash (seg_text s) = false ∧ contains_byte backslash (seg_text s) = false.

Definition glob_segment_ok (s : globSegment) : Prop :=
  match seg_kind s with
  | globSegmentStar => seg_text s = "*"
  | globSegmentStarStar => seg_text s = "**"
  | globSegmentLiteral => ContainsAny (seg_text s) glob_meta = false
  end.

Definition resource_wf (r : NormalizedResource) : Prop :=
  (n_kind r = ResourceKindLogical ∧ n_segments r = [] ∧
   validLogicalNamespace (n_namespace r) = true ∧ n_name r ≠ "") ∨
  (n_kind r ∈ [ResourceKindFile; ResourceKindDirectory; ResourceKindGlob] ∧
   n_segments r ≠ [] ∧ n_namespace r = "" ∧ n_name r = "" ∧
   n_display r = Join (map seg_text (n_segments r)) "/" ∧
   Forall segment_text_ok (n_segments r) ∧
   (n_kind r ≠ ResourceKindGlob → Forall literal_segment (n_segments r)) ∧
   (n_kind r = ResourceKindGlob →
      Forall glob_segment_ok (n_segments r) ∧ starstar_before_last (n_segments r) = false)).

(** ** Structural forms of the shape comparisons *)

Fixpoint smatch (p : list string) (s : list bool) (ss : bool) (c : list string) : bool :=
  match p, s, c with
  | a :: p, w :: s, x :: c => (w || (a =s x)) && smatch p s ss c
  | [], _, _ => ss || bool_decide (c = [])
  | _, _, _ => false
  end.

Lemma smatch_matchesPath p s ss c :
  length p = length s → matchesPath (mkShape p s ss) c = smatch p s ss c.
Proof.
  unfold matchesPath; cbn. revert s c.
  induction p as [|a p IH]; intros [|w s] c Hl; try done.
  - destruct ss, c; done.
  - destruct c as [|x c]; [by destruct ss|]. cbn in Hl. injection Hl as Hl.
    cbn. rewrite <-(IH s c Hl).
    rewrite !(bool_decide_ext (S (length c) < S (length p)) (length c < length p)) by lia.
    rewrite !(bool_decide_ext (S (length c) = S (length p)) (length c = length p)) by lia.
    destruct ss; (case_match; [by rewrite andb_false_r|done]).
Qed.

Fixpoint sinter (p1 : list string) (s1 : list bool) (ss1 : bool)
    (p2 : list string) (s2 : list bool) (ss2 : bool) : bool :=
  match p1, s1, p2, s2 with
  | [], _, [], _ => true
  | [], _, _ :: _, _ => ss1
  | _ :: _, _, [], _ => ss2
  | a :: p1, w1 :: s1, b :: p2, w2 :: s2 =>
      (w1 || w2 || (a =s b)) && sinter p1 s1 ss1 p2 s2 ss2
  | _, _, _, _ => false
  end.

Lemma sinter_intersects p1 s1 ss1 p2 s2 ss2 :
  length p1 = length s1 → length p2 = length s2 →
  intersects (mkShape p1 s1 ss1) (mkShape p2 s2 ss2) = sinter p1 s1 ss1 p2 s2 ss2.
Proof.
  unfold intersects; cbn. revert s1 p2 s2.
  induction p1 as [|a p1 IH]; intros [|w1 s1] [|b p2] [|w2 s2] H1 H2; try done.
  cbn in H1, H2. injection H1 as H1. injection H2 as H2.
  cbn. rewrite <-(IH s1 p2 s2 H1 H2).
  rewrite (bool_decide_ext (S (length p1) = S (length p2)) (length p1 = length p2)) by lia.
  rewrite (bool_decide_ext (S (length p1) < S (length p2)) (length p1 < length p2)) by lia.
  destruct w1, w2, (a =s b), (prefixes_compatible p1 s1 p2 s2); done.
Qed.

Lemma sinter_spec p1 s1 ss1 p2 s2 ss2 :
  length p1 = length s1 → length p2 = length s2 →
  sinter p1 s1 ss1 p2 s2 ss2 = true ↔
  ∃ c, smatch p1 s1 ss1 c = true ∧ smatch p2 s2 ss2 c = true.
Proof.
  revert s1 p2 s2.
  induction p1 as [|a p1 IH]; intros [|w1 s1] [|b p2] [|w2 s2] H1 H2; try done; cbn.
  - split; [|done]. intros _. exists []. by rewrite !orb_true_r.
  - injection H2 as H2. split.
    + intros ->. exists (b :: p2). split; [done|]. rewrite eqb_string_refl, orb_true_r. cbn.
      clear H1 w2. revert s2 H2. induction p2 as [|x p2 IH]; intros [|? s2] H2; try done; cbn.
      { by rewrite orb_true_r. }
      injection H2 as H2. by rewrite eqb_string_refl, orb_true_r, IH.
    + intros ([|x c] & Ha & Hb); [done|]. by rewrite orb_false_r in Ha.
  - injection H1 as H1. split.
    + intros ->. exists (a :: p1). split; [|done]. rewrite eqb_string_refl, orb_true_r. cbn.
      clear IH H2 w1. revert s1 H1. induction p1 as [|x p1 IH]; intros [|? s1] H1; try done; cbn.
      { by rewrite orb_true_r. }
      injection H1 as H1. by rewrite eqb_string_refl, orb_true_r, IH.
    + intros ([|x c] & Ha & Hb); [done|]. by rewrite orb_false_r in Hb.
  - injection H1 as H1. injection H2 as H2. rewrite andb_true_iff, IH by done. split.
    + intros [Hw (c & Hc1 & Hc2)].
      exists ((if w1 then b else a) :: c). rewrite Hc1, Hc2, !andb_true_r.
      destruct w1; cbn in *; [by rewrite eqb_string_refl, orb_true_r|].
      rewrite eqb_string_refl. split; [done|].
      destruct w2; [done|]. cbn in *. apply eqb_string_true in Hw. subst. apply eqb_string_refl.
    + intros ([|x c] & Ha & Hb); [done|]. bool_simpl. split; [|by exists c].
      destruct w1; [done|]. destruct w2; [done|]. cbn in *.
      rewrite eqb_string_true in *. congruence.
Qed.

Fixpoint sdesc (p : list string) (s : list bool) (ss : bool) (dir : list string) : bool :=
  match p, s, dir with
  | [], _, _ => ss
  | _ :: _, _, [] => true
  | a :: p, w :: s, d :: dir => (w || (a =s d)) && sdesc p s ss dir
  | _, _, _ => false
  end.

Lemma sdesc_intersectsDescendantsOf p s ss dir :
  length p = length s → intersectsDescendantsOf (mkShape p s ss) dir = sdesc p s ss dir.
Proof.
  unfold intersectsDescendantsOf; cbn. revert s dir.
  induction p as [|a p IH]; intros [|w s] [|d dir] Hl; try done.
  cbn in Hl. injection Hl as Hl. cbn. rewrite <-(IH s dir Hl).
  rewrite (bool_decide_ext (S (length dir) < S (length p)) (length dir < length p)) by lia.
  destruct (w || (a =s d)), (prefix_matches p s dir); done.
Qed.

Lemma smatch_refl p s ss : length p = length s → smatch p s ss p = true.
Proof.
  revert s. induction p as [|a p IH]; intros [|w s] Hl; try done; cbn.
  { by rewrite orb_true_r. }
  injection Hl as Hl. by rewrite eqb_string_refl, orb_true_r, IH.
Qed.

Lemma sdesc_spec p s ss dir :
  length p = length s →
  smatch p s ss dir || sdesc p s ss dir = true ↔ ∃ ext, smatch p s ss (dir ++ ext) = true.
Proof.
  revert s dir. induction p as [|a p IH]; intros [|w s] dir Hl; try done; cbn.
  - rewrite orb_true_iff. split.
    + intros [H|H]; exists []; [by rewrite app_nil_r|by rewrite H].
    + intros [ext H]. apply orb_true_iff in H as [->|H]; [by left|]. bool_simpl.
      apply app_eq_nil in H as [-> _]. left. by rewrite orb_true_r.
  - injection Hl as Hl. destruct dir as [|d dir]; cbn.
    + split; [intros _|done]. exists (a :: p).
      by rewrite eqb_string_refl, orb_true_r, smatch_refl.
    + rewrite <-andb_orb_distrib_r, andb_true_iff, IH by done. split.
      * intros [Hw [ext He]]. exists ext. by rewrite Hw, He.
      * intros [ext He]. bool_simpl. split; [done|]. by exists ext.
Qed.

(** ** Shapes denote glob languages *)

Definition prefix_of_segment (s : globSegment) : list string :=
  match seg_kind s with
  | globSegmentStarStar => []
  | globSegmentStar => ["*"]
  | globSegmentLiteral => [asciiFold (seg_text s)]
  end.
Definition star_of_segment (s : globSegment) : list bool :=
  match seg_kind s with
  | globSegmentStarStar => []
  | globSegmentStar => [true]
  | globSegmentLiteral => [false]
  end.
Definition shape_prefix (segs : list globSegment) := concat (map prefix_of_segment segs).
Definition shape_stars (segs : list globSegment) := concat (map star_of_segment segs).

Lemma shapeOf_eq segs :
  shapeOf segs = mkShape (shape_prefix segs) (shape_stars segs) (existsb isStarStar segs).
Proof.
  unfold shapeOf.
  enough (H : ∀ g, foldl shapeOf_step g segs =
    mkShape (gs_prefix g ++ shape_prefix segs) (gs_starIsGlob g ++ shape_stars segs)
      (gs_hasStarStar g || existsb isStarStar segs)) by apply H.
  unfold shape_prefix, shape_stars.
  induction segs as [|s segs IH]; intros g; cbn.
  { destruct g; cbn. by rewrite !app_nil_r, orb_false_r. }
  rewrite IH. unfold shapeOf_step, prefix_of_segment, star_of_segment, isStarStar.
  destruct (seg_kind s); cbn; rewrite <-?app_assoc; try done.
  by rewrite orb_true_r.
Qed.

Lemma shape_lengths segs : length (shape_prefix segs) = length (shape_stars segs).
Proof.
  unfold shape_prefix, shape_stars. induction segs as [|s segs IH]; [done|]. cbn.
  rewrite !length_app, IH. unfold prefix_of_segment, star_of_segment. by destruct (seg_kind s).
Qed.

Definition shape_match (segs : list globSegment) : list string → bool :=
  smatch (shape_prefix segs) (shape_stars segs) (existsb isStarStar segs).

Lemma matchesPath_shape segs p : matchesPath (shapeOf segs) p = shape_match segs p.
Proof. rewrite shapeOf_eq. apply smatch_matchesPath, shape_lengths. Qed.

Lemma intersects_shape s1 s2 :
  intersects (shapeOf s1) (shapeOf s2) = true ↔ ∃ p, shape_match s1 p = true ∧ shape_match s2 p = true.
Proof.
  rewrite !shapeOf_eq, sinter_intersects by apply shape_lengths.
  apply sinter_spec; apply shape_lengths.
Qed.

Lemma descendants_shape segs dir :
  matchesPath (shapeOf segs) dir || intersectsDescendantsOf (shapeOf segs) dir = true ↔
  ∃ ext, shape_match segs (dir ++ ext) = true.
Proof.
  rewrite matchesPath_shape, shapeOf_eq, sdesc_intersectsDescendantsOf by apply shape_lengths.
  apply sdesc_spec, shape_lengths.
Qed.

Lemma shape_match_language segs p :
  starstar_before_last segs = false → shape_match segs p = true ↔ glob_language segs p.
Proof.
  unfold shape_match. revert p. induction segs as [|s segs IH]; intros p Hp.
  { cbn. apply bool_decide_eq_true. }
  destruct (seg_kind s) eqn:Hk.
  1,2: assert (Hrest : starstar_before_last segs = false)
    by (destruct segs; [done|]; apply orb_false_iff in Hp; apply Hp).
  1,2: assert (Hns : isStarStar s = false) by (unfold isStarStar; by rewrite Hk).
  - unfold shape_prefix, shape_stars in *. cbn [map concat existsb glob_language].
    unfold prefix_of_segment at 1, star_of_segment at 1. rewrite Hk, Hns. cbn.
    destruct p as [|x p]; [split; [done|by intros (?&?&?)]|].
    rewrite andb_true_iff, eqb_string_true, IH by done. naive_solver.
  - unfold shape_prefix, shape_stars in *. cbn [map concat existsb glob_language].
    unfold prefix_of_segment at 1, star_of_segment at 1. rewrite Hk, Hns. cbn.
    destruct p as [|x p]; [split; [done|by intros (?&?&?&?)]|].
    rewrite IH by done. naive_solver.
  - assert (Hss : isStarStar s = true) by (unfold isStarStar; by rewrite Hk).
    destruct segs as [|s' segs]; [|by cbn in Hp; rewrite Hss in Hp].
    unfold shape_prefix, shape_stars, prefix_of_segment, star_of_segment. cbn.
    by rewrite Hk, Hss.
Qed.

(** ** List comparisons *)

Lemma equalSegments_spec a b : equalSegments a b = true ↔ a = b.
Proof.
  revert b. induction a as [|x a IH]; intros [|y b]; cbn; try done.
  rewrite andb_true_iff, eqb_string_true, IH. naive_solver.
Qed.

Lemma isPrefixOrEqual_spec a b : isPrefixOrEqual a b = true ↔ a `prefix_of` b.
Proof.
  revert b. induction a as [|x a IH]; intros b; cbn.
  { split; [intros _; apply prefix_nil|done]. }
  destruct b as [|y b]; [by split; [|intros ?%prefix_nil_not]|].
  rewrite andb_true_iff, eqb_string_true, IH. split.
  - intros [-> ?]. by apply prefix_cons.
  - intros H. split; [by eapply prefix_cons_inv_1|by eapply prefix_cons_inv_2].
Qed.

Lemma prefix_both_comparable {A} (a b c : list A) :
  a `prefix_of` c → b `prefix_of` c → a `prefix_of` b ∨ b `prefix_of` a.
Proof. apply prefix_weak_total. Qed.

(** ** Overlap is intersection *)

Lemma glob_language_nonempty segs : ∃ p, glob_language segs p.
Proof.
  induction segs as [|s segs [p Hp]]; [by exists []|]. cbn.
  destruct (seg_kind s); [|by exists ("" :: p), "", p|by exists []].
  by exists (asciiFold (seg_text s) :: p), p.
Qed.

Lemma FirstLiteralSegment_denotes r f p :
  resource_wf r → n_kind r ≠ ResourceKindLogical →
  FirstLiteralSegment (PrepareOverlap r) = Some f →
  denotes r (PathPoint p) → head p = Some f.
Proof.
  intros Hwf Hk. unfold FirstLiteralSegment, PrepareOverlap.
  rewrite (proj2 (eqb_string_false _ _) Hk). cbn.
  destruct (n_segments r) as [|s segs] eqn:Hs; [done|]. cbn.
  case_bool_decide as Hl; [|done]. intros [= <-].
  intros [[_ ->]|[[_ [ext ->]]|[_ Hg]]]; [done|done|].
  cbn in Hg. rewrite Hl in Hg. destruct Hg as (p' & -> & _).
  cbn. by unfold foldedText; rewrite Hl.
Qed.

Lemma denotes_logical r x :
  n_kind r = ResourceKindLogical →
  denotes r x ↔ x = LogicalPoint (n_namespace r) (n_name r).
Proof.
  intros Hk. destruct x as [p|ns nm]; cbn; rewrite Hk; [|naive_solver].
  split; [intros [[? _]|[[? _]|[? _]]]; discriminate|done].
Qed.

Lemma denotes_path r x :
  n_kind r ≠ ResourceKindLogical → denotes r x → ∃ p, x = PathPoint p.
Proof. destruct x as [p|]; [by eauto|]. by intros Hk [? _]. Qed.

Definition common_point (a b : NormalizedResource) : Prop :=
  ∃ x, denotes a x ∧ denotes b x.

Lemma common_point_path a b :
  n_kind a ≠ ResourceKindLogical →
  common_point a b ↔ ∃ p, denotes a (PathPoint p) ∧ denotes b (PathPoint p).
Proof.
  intros Hk. split.
  - intros (x & Ha & Hb). destruct (denotes_path _ _ Hk Ha) as [p ->]. by exists p.
  - intros (p & ? & ?). by exists (PathPoint p).
Qed.

(** The overlap test ignores the first-segment shortcut: it only skips pairs
    that share no path. *)
Definition overlaps_core (a b : NormalizedResource) : bool :=
  let fa := foldedSegments (n_segments a) in let fb := foldedSegments (n_segments b) in
  let ga := shapeOf (n_segments a) in let gb := shapeOf (n_segments b) in
  let ak := n_kind a in let bk := n_kind b in
  if (ak =s ResourceKindFile) && (bk =s ResourceKindFile) then equalSegments fa fb
  else if (ak =s ResourceKindDirectory) && (bk =s ResourceKindDirectory) then
    isPrefixOrEqual fa fb || isPrefixOrEqual fb fa
  else if (ak =s ResourceKindDirectory) && (bk =s ResourceKindFile) then isPrefixOrEqual fa fb
  else if (ak =s ResourceKindFile) && (bk =s ResourceKindDirectory) then isPrefixOrEqual fb fa
  else if (ak =s ResourceKindGlob) && (bk =s ResourceKindGlob) then intersects ga gb
  else if (ak =s ResourceKindFile) && (bk =s ResourceKindGlob) then matchesPath gb fa
  else if (ak =s ResourceKindGlob) && (bk =s ResourceKindFile) then matchesPath ga fb
  else if (ak =s ResourceKindDirectory) && (bk =s ResourceKindGlob) then
    matchesPath gb fa || intersectsDescendantsOf gb fa
  else if (ak =s ResourceKindGlob) && (bk =s ResourceKindDirectory) then
    matchesPath ga fb || intersectsDescendantsOf ga fb
  else false.

Lemma glob_shape_language r p :
  resource_wf r → n_kind r = ResourceKindGlob →
  shape_match (n_segments r) p = true ↔ glob_language (n_segments r) p.
Proof.
  intros [[Hk _]|(_ & _ & _ & _ & _ & _ & _ & Hg)] Hk'; [by rewrite Hk in Hk'|].
  apply shape_match_language. by apply Hg.
Qed.

Lemma path_kind_cases r :
  resource_wf r → n_kind r ≠ ResourceKindLogical →
  n_kind r = ResourceKindFile ∨ n_kind r = ResourceKindDirectory ∨ n_kind r = ResourceKindGlob.
Proof.
  intros [[? _]|(Hk & _)] ?; [done|].
  rewrite !elem_of_cons, elem_of_nil in Hk. naive_solver.
Qed.

(** [denotes] for one kind. *)
Lemma denotes_file r p :
  n_kind r = ResourceKindFile → denotes r (PathPoint p) ↔ p = foldedSegments (n_segments r).
Proof. intros Hk. cbn. rewrite Hk. split; [intros [[_ ?]|[[? _]|[? _]]]; done|by left]. Qed.
Lemma denotes_directory r p :
  n_kind r = ResourceKindDirectory →
  denotes r (PathPoint p) ↔ foldedSegments (n_segments r) `prefix_of` p.
Proof. intros Hk. cbn. rewrite Hk. split; [intros [[? _]|[[_ ?]|[? _]]]; done|by right; left]. Qed.
Lemma denotes_glob r p :
  n_kind r = ResourceKindGlob → denotes r (PathPoint p) ↔ glob_language (n_segments r) p.
Proof. intros Hk. cbn. rewrite Hk. split; [intros [[? _]|[[? _]|[_ ?]]]; done|by right; right]. Qed.

Lemma overlaps_core_spec a b :
  resource_wf a → resource_wf b →
  n_kind a ≠ ResourceKindLogical → n_kind b ≠ ResourceKindLogical →
  overlaps_core a b = true ↔ common_point a b.
Proof.
  intros Ha Hb Hka Hkb. rewrite common_point_path by done.
  pose proof (λ p, glob_shape_language a p Ha) as Hla.
  pose proof (λ p, glob_shape_language b p Hb) as Hlb.
  destruct (path_kind_cases a Ha Hka) as [Ea|[Ea|Ea]],
           (path_kind_cases b Hb Hkb) as [Eb|[Eb|Eb]];
    unfold overlaps_core; rewrite Ea, Eb; cbn [String.eqb Ascii.eqb Bool.eqb andb ResourceKindFile
      ResourceKindDirectory ResourceKindGlob].
  - rewrite equalSegments_spec. setoid_rewrite (denotes_file _ _ Ea).
    setoid_rewrite (denotes_file _ _ Eb). naive_solver.
  - rewrite isPrefixOrEqual_spec. setoid_rewrite (denotes_file _ _ Ea).
    setoid_rewrite (denotes_directory _ _ Eb). naive_solver.
  - rewrite matchesPath_shape, Hlb by done. setoid_rewrite (denotes_file _ _ Ea).
    setoid_rewrite (denotes_glob _ _ Eb). naive_solver.
  - rewrite isPrefixOrEqual_spec. setoid_rewrite (denotes_directory _ _ Ea).
    setoid_rewrite (denotes_file _ _ Eb). naive_solver.
  - rewrite orb_true_iff, !isPrefixOrEqual_spec. setoid_rewrite (denotes_directory _ _ Ea).
    setoid_rewrite (denotes_directory _ _ Eb). split.
    + intros [H|H]; [exists (foldedSegments (n_segments b))|exists (foldedSegments (n_segments a))]; done.
    + intros (p & H1 & H2). by eapply prefix_weak_total.
  - rewrite descendants_shape. setoid_rewrite (denotes_directory _ _ Ea).
    setoid_rewrite (denotes_glob _ _ Eb). split.
    + intros [ext H]. eexists. split; [by eexists|]. by apply Hlb.
    + intros (p & [ext ->] & H). exists ext. by apply Hlb.
  - rewrite matchesPath_shape, Hla by done. setoid_rewrite (denotes_file _ _ Eb).
    setoid_rewrite (denotes_glob _ _ Ea). naive_solver.
  - rewrite descendants_shape. setoid_rewrite (denotes_directory _ _ Eb).
    setoid_rewrite (denotes_glob _ _ Ea). split.
    + intros [ext H]. eexists. split; [|by eexists]. by apply Hla.
    + intros (p & H & [ext ->]). exists ext. by apply Hla.
  - rewrite intersects_shape. setoid_rewrite (denotes_glob _ _ Ea).
    setoid_rewrite (denotes_glob _ _ Eb). setoid_rewrite Hla; [|done]. by setoid_rewrite Hlb.
Qed.

Lemma PrepareOverlap_path r :
  n_kind r ≠ ResourceKindLogical →
  po_resource (PrepareOverlap r) = r ∧
  po_folded (PrepareOverlap r) = foldedSegments (n_segments r) ∧
  ((n_kind r =s ResourceKindGlob) = true → po_shape (PrepareOverlap r) = shapeOf (n_segments r)).
Proof.
  intros Hk. unfold PrepareOverlap. rewrite (proj2 (eqb_string_false _ _) Hk). cbn.
  split_and!; [done|done|]. by intros ->.
Qed.

Lemma Overlaps_core a b :
  n_kind a ≠ ResourceKindLogical → n_kind b ≠ ResourceKindLogical →
  Overlaps a b =
  if match FirstLiteralSegment (PrepareOverlap a), FirstLiteralSegment (PrepareOverlap b) with
     | Some first, Some second => negb (first =s second)
     | _, _ => false
     end then false else overlaps_core a b.
Proof.
  intros Ha Hb. unfold Overlaps, PreparedOverlap_Overlaps, overlaps_core.
  destruct (PrepareOverlap_path a Ha) as (-> & -> & Hsa).
  destruct (PrepareOverlap_path b Hb) as (-> & -> & Hsb).
  rewrite (proj2 (eqb_string_false _ _) Ha), (proj2 (eqb_string_false _ _) Hb). cbn [orb].
  case_match; [done|].
  destruct (n_kind a =s ResourceKindGlob) eqn:Ga; [rewrite (Hsa eq_refl)|];
    destruct (n_kind b =s ResourceKindGlob) eqn:Gb; rewrite ?(Hsb eq_refl), ?andb_false_r; done.
Qed.

Lemma Overlaps_logical a b :
  n_kind a = ResourceKindLogical ∨ n_kind b = ResourceKindLogical →
  Overlaps a b = (n_kind a =s n_kind b) && (n_namespace a =s n_namespace b) && (n_name a =s n_name b).
Proof.
  assert (Hr : ∀ r, po_resource (PrepareOverlap r) = r)
    by (intros r; unfold PrepareOverlap; by case_match).
  unfold Overlaps, PreparedOverlap_Overlaps. rewrite !Hr.
  rewrite <-!eqb_string_true, <-orb_true_iff. by intros ->.
Qed.

Lemma Overlaps_spec a b :
  resource_wf a → resource_wf b → Overlaps a b = true ↔ common_point a b.
Proof.
  intros Ha Hb.
  destruct (decide (n_kind a = ResourceKindLogical)) as [Ka|Ka].
  { rewrite Overlaps_logical by auto. unfold common_point.
    setoid_rewrite (denotes_logical a _ Ka).
    rewrite Ka, !andb_true_iff, !eqb_string_true. cbn. naive_solver. }
  destruct (decide (n_kind b = ResourceKindLogical)) as [Kb|Kb].
  { rewrite Overlaps_logical by auto. rewrite Kb, (proj2 (eqb_string_false _ _) Ka). cbn.
    split; [done|]. intros (x & Hx & Hy). apply (denotes_logical b _ Kb) in Hy as ->.
    by destruct Hx. }
  rewrite Overlaps_core by done. rewrite <-overlaps_core_spec by done.
  destruct (FirstLiteralSegment (PrepareOverlap a)) as [f|] eqn:Fa; [|done].
  destruct (FirstLiteralSegment (PrepareOverlap b)) as [g|] eqn:Fb; [|done].
  destruct (f =s g) eqn:E; [done|]. cbn. split; [done|].
  rewrite overlaps_core_spec, common_point_path by done. intros (p & Hpa & Hpb).
  apply (FirstLiteralSegment_denotes _ _ _ Ha Ka Fa) in Hpa.
  apply (FirstLiteralSegment_denotes _ _ _ Hb Kb Fb) in Hpb.
  apply eqb_string_false in E. congruence.
Qed.

(** ** What [Normalize] accepts *)

Lemma classifyGlobSegment_Ok text kind s :
  classifyGlobSegment text kind = Ok s →
  seg_text s = text ∧
  (kind ≠ ResourceKindGlob → literal_segment s) ∧
  (kind = ResourceKindGlob → glob_segment_ok s).
Proof.
  unfold classifyGlobSegment. destruct (kind =s ResourceKindGlob) eqn:Hk; cbn.
  - apply eqb_string_true in Hk. subst kind.
    destruct (text =s "*") eqn:H1; [apply eqb_string_true in H1; by intros [= <-]|].
    destruct (text =s "**") eqn:H2; [apply eqb_string_true in H2; by intros [= <-]|].
    intros Hok. apply fail_if_Ok in Hok as [Hm [= <-]]. by split_and!.
  - apply eqb_string_false in Hk. intros [= <-]. by split_and!.
Qed.

Definition kept_part (part : string) : bool := negb ((part =s "") || (part =s ".")).

Lemma collectSegments_cons part rest kind :
  collectSegments (part :: rest) kind =
  if kept_part part then
    (fail_if part =s ".."
       with validationError "path" "PARENT_SEGMENT_NOT_ALLOWED" "must not contain a '..' segment" ;;
     segment ← classifyGlobSegment part kind;
     segments ← collectSegments rest kind;
     Ok (segment :: segments))
  else collectSegments rest kind.
Proof. cbn. unfold kept_part. by destruct ((part =s "") || (part =s ".")). Qed.

Lemma collectSegments_Ok raw kind segs :
  collectSegments raw kind = Ok segs →
  map seg_text segs = List.filter kept_part raw ∧
  Forall (λ s, seg_text s ≠ "..") segs ∧
  Forall (λ s, (kind ≠ ResourceKindGlob → literal_segment s) ∧
               (kind = ResourceKindGlob → glob_segment_ok s)) segs ∧
  collectSegments (map seg_text segs) kind = Ok segs.
Proof.
  revert segs. induction raw as [|part raw IH]; intros segs; [by intros [= <-]|].
  rewrite collectSegments_cons. cbn [List.filter]. destruct (kept_part part) eqn:Hkept; [|by apply IH].
  intros Hok. apply fail_if_Ok in Hok as [Hdd Hok].
  apply result_bind_Ok in Hok as (s & Hs & Hok). apply result_bind_Ok in Hok as (ss & Hss & [= <-]).
  destruct (IH ss Hss) as (H1 & H2 & H3 & H4).
  pose proof (classifyGlobSegment_Ok _ _ _ Hs) as (Ht & Hl & Hg).
  cbn [map]. rewrite collectSegments_cons, Ht, Hkept, Hdd, Hs, H1. cbn.
  rewrite <-H1, H4. cbn. split_and!; [done| |by constructor|done].
  constructor; [|done]. rewrite Ht. by apply eqb_string_false.
Qed.

Lemma HasPrefix_slash_first c path : c ≠ slash → HasPrefix (String c path) "/" = false.
Proof.
  intros Hc. unfold HasPrefix. cbn [String.prefix].
  destruct (Ascii.ascii_dec _ c) as [<-|]; [|done]. by destruct Hc.
Qed.

Lemma normalizePath_Ok input n :
  normalizePath input = Ok n ↔
  let path := r_Path input in
  ValidateText "path" path MaxResourcePathRunes = Ok tt ∧
  contains_byte backslash path = false ∧ HasPrefix path "/" = false ∧
  isWindowsVolumeForm path = false ∧
  ∃ segs, collectSegments (Split slash path) (r_Kind input) = Ok segs ∧ segs ≠ [] ∧
    validateStarStarPlacement segs (r_Kind input) = Ok tt ∧
    n = mkNormalized (r_Kind input) (Join (map seg_text segs) "/") segs "" "".
Proof.
  unfold normalizePath. cbn zeta. rewrite try_Ok, !fail_if_Ok, result_bind_Ok.
  setoid_rewrite fail_if_Ok. setoid_rewrite try_Ok.
  assert (Hl : ∀ segs : list globSegment, (Z.of_nat (length segs) =? 0)%Z = false ↔ segs ≠ []).
  { intros segs. rewrite Z.eqb_neq. destruct segs; cbn; split; [done|done|done|lia]. }
  setoid_rewrite Hl. split.
  - intros ([[] Hv] & Hb & Hp & Hw & segs & Hs & Hne & [[] Hss] & [= <-]). by eauto 10.
  - intros (Hv & Hb & Hp & Hw & segs & Hs & Hne & Hss & ->). split_and!; eauto 10.
Qed.

Lemma Normalize_Ok `{UnicodeTables} input n :
  Normalize input = Ok n ↔
  ResourceKind_Valid (r_Kind input) = true ∧
  (if r_Kind input =s ResourceKindLogical then normalizeLogical input else normalizePath input) = Ok n.
Proof. unfold Normalize. by rewrite fail_if_Ok, negb_false_iff. Qed.

Lemma pieces_no_byte (c sep : ascii) s :
  contains_byte c s = false → Forall (λ p, contains_byte c p = false) (Split sep s).
Proof.
  intros Hc. rewrite <-(Join_Split sep s) in Hc.
  pose proof (Split_nonempty sep s) as Hne. destruct (Split sep s) as [|x l]; [done|]. clear Hne.
  revert x Hc. induction l as [|y l IH]; intros x Hc; [by repeat constructor|].
  change (Join (x :: y :: l) (String sep "")) with (x +:+ String sep "" +:+ Join (y :: l) (String sep "")) in Hc.
  unfold contains_byte in *. rewrite !str_exists_app in Hc. bool_simpl.
  constructor; [done|]. by apply IH.
Qed.

Lemma Forall_map_filter {A} (P : string → Prop) (f : A → string) (p : string → bool) l raw :
  map f l = List.filter p raw → Forall P raw → Forall (λ x, P (f x)) l.
Proof.
  intros Hl Hr. rewrite Forall_forall in Hr. apply Forall_forall. intros x Hx.
  assert (Hin : f x ∈ map f l) by (apply list_elem_of_In, in_map; by apply list_elem_of_In).
  rewrite Hl in Hin. apply list_elem_of_In, filter_In in Hin as [Hin _].
  by apply Hr, list_elem_of_In.
Qed.

Lemma validateStarStarPlacement_Ok segs kind :
  validateStarStarPlacement segs kind = Ok tt ↔
  (kind = ResourceKindGlob → starstar_before_last segs = false).
Proof.
  unfold validateStarStarPlacement. destruct (kind =s ResourceKindGlob) eqn:E; cbn.
  - apply eqb_string_true in E. rewrite fail_if_Ok. naive_solver.
  - apply eqb_string_false in E. naive_solver.
Qed.

Lemma segment_text_kept part : kept_part part = true → part ≠ "" ∧ part ≠ ".".
Proof.
  unfold kept_part. rewrite negb_true_iff, orb_false_iff, !eqb_string_false. done.
Qed.

Lemma Normalize_wf `{UnicodeTables} input n : Normalize input = Ok n → resource_wf n.
Proof.
  rewrite Normalize_Ok. intros [Hk Hn]. destruct (r_Kind input =s ResourceKindLogical) eqn:Hl.
  { left. unfold normalizeLogical in Hn. apply try_Ok in Hn as [_ Hn].
    apply fail_if_Ok in Hn as [Hns Hn]. apply try_Ok in Hn as [_ Hn].
    apply fail_if_Ok in Hn as [Hne [= <-]]. cbn. bool_simpl. apply eqb_string_false in Hne.
    done. }
  right. apply normalizePath_Ok in Hn as (_ & Hb & _ & _ & segs & Hs & Hne & Hss & ->). cbn.
  apply eqb_string_false in Hl.
  apply collectSegments_Ok in Hs as (Hmap & Hdd & Hkinds & _).
  split_and!; try done.
  - unfold ResourceKind_Valid in Hk. apply enumValid_spec in Hk.
    rewrite !elem_of_cons, elem_of_nil in *. naive_solver.
  - assert (Hsl : Forall (λ s, contains_byte slash (seg_text s) = false) segs)
      by (eapply (Forall_map_filter (λ t, contains_byte slash t = false));
          [exact Hmap|apply Split_pieces]).
    assert (Hbs : Forall (λ s, contains_byte backslash (seg_text s) = false) segs)
      by (eapply (Forall_map_filter (λ t, contains_byte backslash t = false));
          [exact Hmap|by apply pieces_no_byte]).
    assert (Hkept : Forall (λ s, kept_part (seg_text s) = true) segs).
    { apply Forall_forall. intros s Hs.
      assert (Hin : In (seg_text s) (map seg_text segs)) by (by apply in_map, list_elem_of_In).
      rewrite Hmap in Hin. by apply filter_In in Hin as [_ ?]. }
    rewrite Forall_forall in Hdd, Hsl, Hbs, Hkept. apply Forall_forall. intros s Hs.
    destruct (segment_text_kept _ (Hkept s Hs)). unfold segment_text_ok. split_and!; auto.
  - intros Hng. eapply Forall_impl; [exact Hkinds|]. cbn. naive_solver.
  - intros Hg. split; [|exact (proj1 (validateStarStarPlacement_Ok _ _) Hss Hg)].
    eapply Forall_impl; [exact Hkinds|]. cbn. naive_solver.
Qed.

(** ** The stored spelling reads back *)

(** Dropping redundant parts of a text keeps it acceptable. *)
Lemma sublist_filter {A} (p : A → bool) l : List.filter p l `sublist_of` l.
Proof. induction l as [|x l IH]; cbn; [constructor|]. destruct (p x); by constructor. Qed.

Lemma runes_empty : runes "" = [].
Proof. done. Qed.

Lemma Join_sublist_runes l l' :
  l' `sublist_of` l →
  (forallb rune_ok (runes (Join l "/")) = true → forallb rune_ok (runes (Join l' "/")) = true) ∧
  length (runes (Join l' "/")) ≤ length (runes (Join l "/")).
Proof.
  change "/" with (String slash "").
  assert (Hcons : ∀ x m, m ≠ [] →
    runes (Join (x :: m) (String slash "")) =
    runes x ++ Rune (byte_val slash) [slash] :: runes (Join m (String slash ""))).
  { intros x [|y m] ?; [done|]. by apply runes_Join_cons. }
  induction 1 as [|x l1 l2 Hs [IH1 IH2]|x l1 l2 Hs [IH1 IH2]]; [done| |].
  - destruct l2 as [|y l2]; [apply sublist_nil_r in Hs as ->; done|].
    rewrite (Hcons x (y :: l2)) by done. destruct l1 as [|z l1].
    + cbn [Join]. rewrite forallb_app, length_app, andb_true_iff. split; [tauto|lia].
    + rewrite (Hcons x (z :: l1)) by done.
      rewrite !forallb_app, !length_app. cbn [forallb length rune_ok andb].
      rewrite !andb_true_iff. split; [tauto|lia].
  - destruct l2 as [|y l2].
    { apply sublist_nil_r in Hs as ->. cbn [Join]. rewrite runes_empty. cbn. split; [done|lia]. }
    rewrite (Hcons x (y :: l2)) by done. rewrite forallb_app, length_app. cbn [forallb length rune_ok andb].
    rewrite !andb_true_iff. split; [tauto|lia].
Qed.

Lemma no_byte_Join c l :
  c ≠ slash → Forall (λ p, contains_byte c p = false) l → contains_byte c (Join l "/") = false.
Proof.
  intros Hc. induction 1 as [|x l Hx Hl IH]; [done|]. destruct l as [|y l]; [done|].
  change (Join (x :: y :: l) "/") with (x +:+ "/" +:+ Join (y :: l) "/").
  unfold contains_byte in *. rewrite !str_exists_app, Hx, IH. cbn.
  rewrite orb_false_r. by destruct (Ascii.eqb_spec c "/"%char).
Qed.

Lemma kept_parts_no_byte c path :
  contains_byte c path = false →
  Forall (λ p, contains_byte c p = false) (List.filter kept_part (Split slash path)).
Proof.
  intros Hc. pose proof (pieces_no_byte c slash path Hc) as Hp. rewrite Forall_forall in Hp.
  apply Forall_forall. intros x Hx. apply list_elem_of_In, filter_In in Hx as [Hx _].
  by apply Hp, list_elem_of_In.
Qed.

Lemma ValidateText_cleaned field path maxRunes l :
  ValidateText field path maxRunes = Ok tt → l = List.filter kept_part (Split slash path) →
  ValidateText field (Join l "/") maxRunes = Ok tt.
Proof.
  rewrite !ValidateText_Ok. intros (Hv & Hz & Hr) ->.
  destruct (Join_sublist_runes (Split slash path) (List.filter kept_part (Split slash path)))
    as [H1 H2]; [apply sublist_filter|].
  change "/" with (String slash "") in *. rewrite Join_Split in H1, H2.
  unfold ValidString, RuneCountInString in *.
  change (utf8_decode (bytes path)) with (runes path) in *.
  change (utf8_decode (bytes (Join (List.filter kept_part (Split slash path)) (String slash ""))))
    with (runes (Join (List.filter kept_part (Split slash path)) (String slash ""))).
  split_and!; [by apply H1| |lia].
  apply no_byte_Join; [done|]. by apply kept_parts_no_byte.
Qed.

Lemma display_no_leading_slash l :
  Forall segment_text_ok l → l ≠ [] → HasPrefix (Join (map seg_text l) "/") "/" = false.
Proof.
  destruct l as [|s l]; [done|]. intros Hl _. apply Forall_cons in Hl as [(Hne & _ & _ & Hs & _) _].
  destruct (seg_text s) as [|c t] eqn:E; [done|].
  assert (Hc : c ≠ slash) by (intros ->; discriminate Hs).
  cbn [map]. rewrite E. destruct (map seg_text l) as [|y m].
  - by apply HasPrefix_slash_first.
  - change (Join (String c t :: y :: m) "/") with (String c (t +:+ "/" +:+ Join (y :: m) "/")).
    by apply HasPrefix_slash_first.
Qed.

Definition stored_readable (n : NormalizedResource) : bool :=
  (n_kind n =s ResourceKindLogical) || negb (isWindowsVolumeForm (n_display n)).

Lemma Normalize_stored `{UnicodeTables} input n :
  Normalize input = Ok n →
  Normalize (storedIdentity n) =
  if stored_readable n then Ok n
  else Err (validationError "path" "VOLUME_FORM_NOT_ALLOWED" "must not use a Windows volume prefix").
Proof.
  intros Hn. pose proof (Normalize_wf _ _ Hn) as Hwf. apply Normalize_Ok in Hn as [Hk Hn].
  unfold stored_readable, storedIdentity.
  destruct (r_Kind input =s ResourceKindLogical) eqn:Hl.
  - unfold normalizeLogical in Hn. apply try_Ok in Hn as [[[] Hv] Hn].
    apply fail_if_Ok in Hn as [Hns Hn]. apply try_Ok in Hn as [[[] Hvn] Hn].
    apply fail_if_Ok in Hn as [Hne [= <-]]. cbn [n_kind n_namespace n_name n_display].
    unfold Normalize, normalizeLogical. cbn -[ValidateText TrimSpace].
    rewrite Hv, Hns, TrimSpace_idemp, Hvn, Hne. done.
  - apply normalizePath_Ok in Hn as (Hv & Hb & _ & _ & segs & Hs & Hne & Hss & ->).
    cbn [n_kind n_display n_namespace n_name] in *. rewrite Hl. cbn [orb].
    unfold Normalize. cbn [r_Kind r_Path]. rewrite Hk, Hl. cbn [negb].
    apply eqb_string_false in Hl.
    destruct Hwf as [[? _]|(_ & _ & _ & _ & _ & Hok & _)]; [done|]. cbn [n_segments] in Hok.
    pose proof (collectSegments_Ok _ _ _ Hs) as (Hmap & _ & _ & Hagain).
    assert (Hsplit : Split slash (Join (map seg_text segs) "/") = map seg_text segs).
    { apply Split_Join; [by destruct segs|]. apply Forall_forall. intros t Ht.
      apply list_elem_of_In, in_map_iff in Ht as (s & <- & Hin).
      apply list_elem_of_In in Hin. rewrite Forall_forall in Hok. by apply Hok. }
    unfold normalizePath. cbn [r_Path r_Kind].
    rewrite (ValidateText_cleaned _ _ _ _ Hv Hmap).
    rewrite no_byte_Join; [|done|].
    2:{ rewrite Hmap. by apply kept_parts_no_byte. }
    rewrite display_no_leading_slash by done.
    destruct (isWindowsVolumeForm _); [done|]. cbn [negb].
    rewrite Hsplit, Hagain. cbn [mbind result_bind]. rewrite Hss. by destruct segs.
Qed.

(** ** Identity keys *)

Lemma asciiFold_lower value : asciiFold value = str_map lower_byte value.
Proof.
  unfold asciiFold. destruct (str_exists is_upper value) eqn:E; cbn; [done|].
  by rewrite str_map_id_no_upper.
Qed.

Lemma contains_byte_fold c s :
  is_upper c = false → is_lower c = false → contains_byte c (asciiFold s) = contains_byte c s.
Proof. rewrite asciiFold_lower. apply contains_byte_lower. Qed.

Lemma foldedText_no_slash s : segment_text_ok s → contains_byte slash (foldedText s) = false.
Proof.
  intros (_ & _ & _ & Hs & _). unfold foldedText.
  destruct (seg_kind s); [by rewrite contains_byte_fold|done|done].
Qed.

Lemma Join_inj_no_slash l l' :
  l ≠ [] → l' ≠ [] → Forall (λ p, contains_byte slash p = false) l →
  Forall (λ p, contains_byte slash p = false) l' → Join l "/" = Join l' "/" → l = l'.
Proof.
  intros ???? HJ. change "/" with (String slash "") in HJ.
  rewrite <-(Split_Join slash l), HJ by done. by apply Split_Join.
Qed.

Lemma separator_inj sep a b x y :
  contains_byte sep a = false → contains_byte sep b = false →
  a +:+ String sep x = b +:+ String sep y → a = b ∧ x = y.
Proof.
  intros Ha Hb He. assert (Hs : Split sep (a +:+ String sep x) = Split sep (b +:+ String sep y))
    by by rewrite He.
  rewrite !Split_app_sep in Hs by done. injection Hs as -> Hs. split; [done|].
  by rewrite <-(Join_Split sep x), Hs, Join_Split.
Qed.

Lemma not_eqb_byte (p : ascii → bool) c d : p c = false → p d = true → Ascii.eqb c d = false.
Proof. intros Hc Hd. destruct (Ascii.eqb_spec c d) as [->|]; congruence. Qed.

Lemma namespace_no_colon ns : validLogicalNamespace ns = true → contains_byte colon ns = false.
Proof.
  destruct ns as [|c ns]; [done|]. unfold validLogicalNamespace, contains_byte. cbn [str_exists].
  intros H. bool_simpl. apply orb_false_iff. split; [by apply (not_eqb_byte is_lower)|].
  induction ns as [|d ns IH]; [done|]. cbn [str_exists] in *. bool_simpl.
  apply orb_false_iff. split; [by apply (not_eqb_byte namespace_byte)|by apply IH].
Qed.

(** Within the glob grammar a folded text determines the segment's kind. *)
Lemma glob_literal_not_star s t :
  glob_segment_ok s → seg_kind s = globSegmentLiteral → contains_byte (byte_of 42) t = true →
  foldedText s ≠ t.
Proof.
  unfold glob_segment_ok, foldedText. intros Hok Hk Ht <-. rewrite Hk in *.
  rewrite contains_byte_fold in Ht by done. unfold ContainsAny, contains_byte in *.
  revert Hok Ht. generalize (seg_text s). intros u. induction u as [|c u IH]; [done|]. cbn [str_exists].
  intros Hok. apply orb_false_iff in Hok as [Hc Hu]. rewrite orb_true_iff. intros [E|E]; [|by apply IH].
  apply Ascii.eqb_eq in E as <-. discriminate.
Qed.

Lemma glob_segment_kind s t :
  glob_segment_ok s → glob_segment_ok t → foldedText s = foldedText t → seg_kind s = seg_kind t.
Proof.
  intros Hs Ht He.
  assert (Hstar : ∀ u, glob_segment_ok u → seg_kind u ≠ globSegmentLiteral →
            foldedText u = seg_text u ∧ contains_byte (byte_of 42) (seg_text u) = true).
  { intros u Hu Hk. unfold glob_segment_ok, foldedText in *.
    destruct (seg_kind u); [done|by rewrite Hu|by rewrite Hu]. }
  destruct (decide (seg_kind s = globSegmentLiteral)) as [Ks|Ks],
           (decide (seg_kind t = globSegmentLiteral)) as [Kt|Kt].
  - congruence.
  - destruct (Hstar t Ht Kt) as [E C]. rewrite E in He. by destruct (glob_literal_not_star s _ Hs Ks C).
  - destruct (Hstar s Hs Ks) as [E C]. rewrite E in He. by destruct (glob_literal_not_star t _ Ht Kt C).
  - destruct (Hstar s Hs Ks) as [Es _], (Hstar t Ht Kt) as [Et _]. rewrite Es, Et in He.
    unfold glob_segment_ok in *. destruct (seg_kind s), (seg_kind t); congruence.
Qed.

Lemma glob_language_ext l l' p :
  Forall glob_segment_ok l → Forall glob_segment_ok l' →
  map foldedText l = map foldedText l' → glob_language l p ↔ glob_language l' p.
Proof.
  intros Hl. revert l' p. induction Hl as [|s l Hs Hl IH]; intros [|s' l'] p Hl' He; try done.
  apply Forall_cons in Hl' as [Hs' Hl']. cbn in He. injection He as Hf He.
  pose proof (glob_segment_kind s s' Hs Hs' Hf) as Hk. cbn. rewrite <-Hk.
  unfold foldedText in Hf. rewrite <-Hk in Hf.
  destruct (seg_kind s); [| |done]; setoid_rewrite (IH l' _ Hl' He); [by rewrite Hf|done].
Qed.

Lemma Key_denotes a b :
  resource_wf a → resource_wf b → resourceIdentity a = resourceIdentity b →
  ∀ x, denotes a x ↔ denotes b x.
Proof.
  intros Ha Hb [= Hk HK] x. unfold Key in HK. rewrite <-Hk in HK.
  destruct (n_kind a =s ResourceKindLogical) eqn:Hl.
  - apply eqb_string_true in Hl.
    destruct Ha as [(_ & _ & Hna & _)|[Hin _]];
      [|rewrite Hl, !elem_of_cons, elem_of_nil in Hin; destruct_or! Hin; done].
    destruct Hb as [(_ & _ & Hnb & _)|[Hin _]];
      [|rewrite <-Hk, Hl, !elem_of_cons, elem_of_nil in Hin; destruct_or! Hin; done].
    apply (separator_inj colon) in HK as [Hns Hnm]; [|by apply namespace_no_colon..].
    rewrite !denotes_logical by congruence. by rewrite Hns, Hnm.
  - apply eqb_string_false in Hl.
    destruct Ha as [[? _]|(_ & Hnea & _ & _ & _ & Hta & _ & Hga)]; [done|].
    destruct Hb as [[? _]|(_ & Hneb & _ & _ & _ & Htb & _ & Hgb)]; [congruence|].
    apply (inj (String.append _)) in HK. apply (inj (String.append _)) in HK.
    apply Join_inj_no_slash in HK;
      [|by destruct (n_segments a)|by destruct (n_segments b)
       |apply Forall_map; eapply Forall_impl; [eassumption|]; apply foldedText_no_slash..].
    destruct x as [p|ns nm]; cbn; rewrite <-Hk; [|naive_solver].
    unfold foldedSegments. rewrite HK.
    destruct (decide (n_kind a = ResourceKindGlob)) as [Hg|Hg]; [|naive_solver].
    rewrite (glob_language_ext _ (n_segments b) p) by (try apply Hga; try apply Hgb; congruence).
    done.
Qed.

(** ** Requests *)

Lemma Overlaps_sym a b : resource_wf a → resource_wf b → Overlaps a b = Overlaps b a.
Proof.
  intros Ha Hb. apply eq_true_iff_eq. rewrite !Overlaps_spec by done.
  unfold common_point. by setoid_rewrite (and_comm (denotes a _)).
Qed.

Lemma Overlaps_refl a : resource_wf a → Overlaps a a = true.
Proof.
  intros Ha. apply Overlaps_spec; [done..|].
  destruct (decide (n_kind a = ResourceKindLogical)) as [Hl|Hl].
  { exists (LogicalPoint (n_namespace a) (n_name a)). by rewrite !denotes_logical. }
  destruct (path_kind_cases a Ha Hl) as [Hk|[Hk|Hk]].
  - exists (PathPoint (foldedSegments (n_segments a))). by rewrite !denotes_file.
  - exists (PathPoint (foldedSegments (n_segments a))). by rewrite !denotes_directory.
  - destruct (glob_language_nonempty (n_segments a)) as [p Hp].
    exists (PathPoint p). by rewrite !denotes_glob.
Qed.

(** The resources the loop keeps: the first of each identity. *)
Fixpoint firstOccurrences (index : Z) (seen : gset (string * string))
    (ns : list NormalizedResource) : list PreparedResource :=
  match ns with
  | [] => []
  | n :: ns =>
      if bool_decide (resourceIdentity n ∈ seen) then firstOccurrences (index + 1) seen ns
      else mkPreparedResource index n
             :: firstOccurrences (index + 1) ({[ resourceIdentity n ]} ∪ seen) ns
  end.

Fixpoint noInternalOverlap (prepared new : list PreparedResource) : Prop :=
  match new with
  | [] => True
  | p :: new =>
      existsb (λ e, Overlaps (pr_Resource p) (pr_Resource e)) prepared = false ∧
      noInternalOverlap (prepared ++ [p]) new
  end.

Lemma Forall2_cons_inv_l_iff {A B} (P : A → B → Prop) (x : A) l k :
  Forall2 P (x :: l) k ↔ ∃ y k', P x y ∧ Forall2 P l k' ∧ k = y :: k'.
Proof.
  split; [by inversion 1; subst; eauto|]. intros (y & k' & ? & ? & ->). by constructor.
Qed.

Lemma prepareLoop_Ok `{UnicodeTables} rs : ∀ index seen prepared out,
  prepareLoop index rs seen prepared = Ok out ↔
  ∃ ns, Forall2 (λ r n, Normalize r = Ok n) rs ns ∧
    out = prepared ++ firstOccurrences index seen ns ∧
    noInternalOverlap prepared (firstOccurrences index seen ns).
Proof.
  induction rs as [|r rs IH]; intros index seen prepared out; cbn [prepareLoop].
  { split.
    - intros [= <-]. exists []. cbn. by rewrite app_nil_r.
    - intros (ns & Hns%Forall2_nil_inv_l & -> & _). subst. cbn. by rewrite app_nil_r. }
  destruct (Normalize r) as [n|e] eqn:Hn.
  2:{ split; [done|]. intros (ns & (n & ? & Hn' & _)%Forall2_cons_inv_l_iff & _). congruence. }
  transitivity (∃ ns, Forall2 (λ r n, Normalize r = Ok n) rs ns ∧
    out = prepared ++ firstOccurrences index seen (n :: ns) ∧
    noInternalOverlap prepared (firstOccurrences index seen (n :: ns))).
  2:{ split.
      - intros (ns & Hns & Ho). exists (n :: ns). split; [by constructor|done].
      - intros (ns & (n' & ns' & Hn' & Hns & ->)%Forall2_cons_inv_l_iff & Ho).
        rewrite Hn in Hn'. injection Hn' as <-. by exists ns'. }
  cbn [firstOccurrences]. case_bool_decide as Hseen; [by rewrite IH|].
  rewrite fail_if_Ok, IH. cbn [noInternalOverlap].
  setoid_rewrite <-app_assoc. cbn [app]. naive_solver.
Qed.

Definition disjoint_prepared (p q : PreparedResource) : Prop :=
  Overlaps (pr_Resource q) (pr_Resource p) = false.

Lemma noInternalOverlap_spec prepared new :
  noInternalOverlap prepared new ↔
  Forall (λ q, Forall (λ p, disjoint_prepared p q) prepared) new ∧
  ForallOrdPairs disjoint_prepared new.
Proof.
  assert (Hex : ∀ q l, existsb (λ e, Overlaps (pr_Resource q) (pr_Resource e)) l = false ↔
                       Forall (λ p, disjoint_prepared p q) l).
  { intros q l. induction l as [|e l IH]; cbn; [by split|].
    by rewrite orb_false_iff, Forall_cons, IH. }
  revert prepared. induction new as [|q new IH]; intros prepared; cbn.
  { split; [by repeat constructor|done]. }
  rewrite Hex, IH, Forall_cons. setoid_rewrite Forall_app. setoid_rewrite Forall_singleton.
  rewrite Forall_and. split.
  - intros (H1 & (H2 & H3) & H4). split_and!; [done|done|]. by constructor.
  - intros ((H1 & H2) & H3). inversion H3; subst. done.
Qed.

Lemma firstOccurrences_in index seen ns p :
  p ∈ firstOccurrences index seen ns →
  resourceIdentity (pr_Resource p) ∉ seen ∧
  ∃ k, ns !! k = Some (pr_Resource p) ∧ pr_Index p = (index + Z.of_nat k)%Z.
Proof.
  revert index seen. induction ns as [|n ns IH]; intros index seen; cbn; [by intros ?%elem_of_nil|].
  case_bool_decide as Hseen.
  - intros Hp. destruct (IH _ _ Hp) as (? & k & ? & ?). split; [done|]. exists (S k).
    cbn. split; [done|lia].
  - rewrite elem_of_cons. intros [->|Hp].
    { split; [done|]. exists 0. cbn. split; [done|lia]. }
    destruct (IH _ _ Hp) as (? & k & ? & ?). split; [set_solver|]. exists (S k).
    cbn. split; [done|lia].
Qed.

Lemma firstOccurrences_cover index seen ns n :
  n ∈ ns → resourceIdentity n ∈ seen ∨
  ∃ p, p ∈ firstOccurrences index seen ns ∧ resourceIdentity (pr_Resource p) = resourceIdentity n.
Proof.
  revert index seen. induction ns as [|m ns IH]; intros index seen; [by intros ?%elem_of_nil|].
  rewrite elem_of_cons. cbn. case_bool_decide as Hseen.
  - intros [->|Hn]; [by left|]. by apply IH.
  - intros [->|Hn]; [right; eexists; split; [by left|done]|].
    destruct (IH (index + 1)%Z ({[ resourceIdentity m ]} ∪ seen) Hn) as [Hin|(p & Hp & He)].
    + apply elem_of_union in Hin as [->%elem_of_singleton|?]; [|by left].
      right. eexists. split; [by left|done].
    + right. exists p. split; [by right|done].
Qed.

(** Exactly the resources that no earlier one equals are kept. *)
Lemma firstOccurrences_iff ns : ∀ index seen k n,
  mkPreparedResource (index + Z.of_nat k) n ∈ firstOccurrences index seen ns ↔
  ns !! k = Some n ∧ resourceIdentity n ∉ seen ∧
  ∀ j m, (j < k)%nat → ns !! j = Some m → resourceIdentity m ≠ resourceIdentity n.
Proof.
  induction ns as [|m ns IH]; intros index seen k n; cbn [firstOccurrences]; [set_solver|].
  destruct k as [|k].
  - rewrite Z.add_0_r. cbn. assert (Hno : ∀ seen', mkPreparedResource index n ∉ firstOccurrences (index + 1) seen' ns).
    { intros seen' (_ & k & _ & Hk)%firstOccurrences_in. cbn in Hk. lia. }
    case_bool_decide as Hseen.
    + split; [by intros ?%Hno|]. by intros ([= ->] & ? & _).
    + rewrite elem_of_cons. split.
      * intros [[= ->]|?%Hno]; [|done]. split_and!; [done|done|]. intros j ? Hj. lia.
      * intros ([= ->] & _). by left.
  - replace (index + Z.of_nat (S k))%Z with ((index + 1) + Z.of_nat k)%Z by lia. cbn [lookup].
    assert (Hrest : ∀ P : Prop, (P ↔ ns !! k = Some n ∧ (resourceIdentity n ∉ seen ∧ resourceIdentity m ≠ resourceIdentity n) ∧
        ∀ j x, (j < k)%nat → ns !! j = Some x → resourceIdentity x ≠ resourceIdentity n) →
      (P ↔ (m :: ns) !! S k = Some n ∧ resourceIdentity n ∉ seen ∧
        ∀ j x, (j < S k)%nat → (m :: ns) !! j = Some x → resourceIdentity x ≠ resourceIdentity n)).
    { intros P ->. split; [intros (? & [? ?] & Hj); split_and!; [done|done|]|intros (? & ? & Hj)].
      - intros [|j] x Hlt Hx; cbn in Hx; [by injection Hx as <-|]. by apply (Hj j); [lia|].
      - split_and!; [done|done|by apply (Hj 0%nat); [lia|]|]. intros j x Hlt Hx. apply (Hj (S j)); [lia|done]. }
    apply Hrest. case_bool_decide as Hseen.
    + rewrite IH. split; [|tauto]. intros (? & ? & ?). split_and!; [done|done|congruence|done].
    + rewrite elem_of_cons, IH, not_elem_of_union, not_elem_of_singleton. split.
      * intros [[= ? ?]|(? & [? ?] & ?)]; [lia|]. split_and!; done.
      * intros (? & [? ?] & ?). right. split_and!; done.
Qed.

Lemma firstOccurrences_order index seen ns :
  StronglySorted (λ p q, (pr_Index p < pr_Index q)%Z) (firstOccurrences index seen ns) ∧
  Forall (λ p, (index <= pr_Index p)%Z) (firstOccurrences index seen ns).
Proof.
  split; [|apply Forall_forall; intros p (_ & k & _ & ->)%firstOccurrences_in; lia].
  revert index seen. induction ns as [|n ns IH]; intros index seen; cbn; [constructor|].
  case_bool_decide; [done|]. constructor; [done|].
  apply Forall_forall. intros p (_ & k & _ & ->)%firstOccurrences_in. cbn. lia.
Qed.

(** Kept resources of one identity are one resource. *)
Lemma firstOccurrences_distinct index seen ns :
  ForallOrdPairs (λ p q, resourceIdentity (pr_Resource p) ≠ resourceIdentity (pr_Resource q))
    (firstOccurrences index seen ns).
Proof.
  revert index seen. induction ns as [|n ns IH]; intros index seen; cbn; [constructor|].
  case_bool_decide; [done|]. constructor; [|done].
  apply Forall_forall. intros p (Hp & _)%firstOccurrences_in. cbn [pr_Resource].
  intros E. apply Hp. rewrite E. by apply elem_of_union_l, elem_of_singleton.
Qed.

Lemma ForallOrdPairs_lookup {A} (R : A → A → Prop) l i j x y :
  ForallOrdPairs R l → l !! i = Some x → l !! j = Some y → i < j → R x y.
Proof.
  intros Hl. revert i j. induction Hl as [|z l Hz Hl IH]; intros i j Hi Hj Hij; [done|].
  destruct j as [|j]; [lia|]. cbn in Hj. destruct i as [|i]; cbn in Hi.
  - injection Hi as ->. rewrite Forall_forall in Hz. apply Hz. by eapply list_elem_of_lookup_2.
  - by apply (IH i j); [..|lia].
Qed.

Lemma ForallOrdPairs_mono {A} (R R' : A → A → Prop) l :
  (∀ x y, x ∈ l → y ∈ l → R x y → R' x y) → ForallOrdPairs R l → ForallOrdPairs R' l.
Proof.
  intros HR Hl. induction Hl as [|z l Hz Hl IH]; [constructor|].
  constructor.
  - rewrite Forall_forall in *. intros y Hy. apply HR; [by left|by right|by apply Hz].
  - apply IH. intros x y ??. by apply HR; right.
Qed.

Lemma Forall2_Normalize_wf `{UnicodeTables} rs ns n :
  Forall2 (λ r n, Normalize r = Ok n) rs ns → n ∈ ns → resource_wf n.
Proof.
  intros Hf Hn. apply list_elem_of_lookup in Hn as [k Hk].
  destruct (Forall2_lookup_r _ _ _ _ _ Hf Hk) as (r & _ & Hr). by eapply Normalize_wf.
Qed.

Lemma PrepareReservationRequest_run `{UnicodeTables} rs out :
  PrepareReservationRequest rs = Ok out ↔
  (1 <= Z.of_nat (length rs) <= MaxReservationResources)%Z ∧
  ∃ ns, Forall2 (λ r n, Normalize r = Ok n) rs ns ∧ out = firstOccurrences 0 ∅ ns ∧
    ForallOrdPairs disjoint_prepared out.
Proof.
  unfold PrepareReservationRequest. rewrite !fail_if_Ok, prepareLoop_Ok.
  setoid_rewrite noInternalOverlap_spec. rewrite Z.eqb_neq, Z.ltb_ge. cbn [app]. split.
  - intros (? & ? & ns & ? & -> & _ & ?). split; [lia|]. by exists ns.
  - intros (? & ns & ? & -> & ?). split_and!; [lia|lia|]. exists ns. split_and!; [done|done| |done].
    apply Forall_forall. by constructor.
Qed.

(** * Properties *)

(** C38. The overlap test decides whether two normalized resources have a point
    in common: files denote one folded path, directories all paths below
    them, globs their pattern language, logical resources one name. *)
Theorem Overlaps_iff_common_point `{UnicodeTables} ra rb a b :
  Normalize ra = Ok a → Normalize rb = Ok b →
  Overlaps a b = true ↔ ∃ x, denotes a x ∧ denotes b x.
Proof. intros ?%Normalize_wf ?%Normalize_wf. by apply Overlaps_spec. Qed.

(** The first-literal-segment index is sound: resources with different
    literal first segments never overlap, so a search restricted to equal
    anchors and leading wildcards misses no conflict; and overlap itself is
    symmetric and reflexive. *)
Theorem FirstLiteralSegment_prunes `{UnicodeTables} ra rb a b :
  Normalize ra = Ok a → Normalize rb = Ok b →
  n_kind a ≠ ResourceKindLogical → n_kind b ≠ ResourceKindLogical →
  Overlaps a a = true ∧ Overlaps a b = Overlaps b a ∧
  (∀ f g, FirstLiteralSegment (PrepareOverlap a) = Some f →
     FirstLiteralSegment (PrepareOverlap b) = Some g → f ≠ g →
     overlaps_core a b = false ∧ ¬ ∃ x, denotes a x ∧ denotes b x).
Proof.
  intros Ha%Normalize_wf Hb%Normalize_wf Hka Hkb.
  split_and!; [by apply Overlaps_refl|by apply Overlaps_sym|].
  intros f g Hf Hg Hfg.
  assert (Hnone : ¬ common_point a b).
  { rewrite common_point_path by done. intros (p & Hpa & Hpb).
    apply (FirstLiteralSegment_denotes _ _ _ Ha Hka Hf) in Hpa.
    apply (FirstLiteralSegment_denotes _ _ _ Hb Hkb Hg) in Hpb. congruence. }
  split; [|done]. apply not_true_is_false. by rewrite overlaps_core_spec.
Qed.

(** C39. A successful request keeps, in request order, the first occurrence of
    every resource and nothing else: the resource at an index is kept when no
    earlier one has its kind and key.  The kept resources are pairwise disjoint,
    and every requested resource denotes the same points as a kept one. *)
Theorem PrepareReservationRequest_sound `{UnicodeTables} rs out :
  PrepareReservationRequest rs = Ok out →
  (1 <= Z.of_nat (length rs) <= 50)%Z ∧
  StronglySorted (λ p q, (pr_Index p < pr_Index q)%Z) out ∧
  (∀ p, p ∈ out → ∃ k r, rs !! k = Some r ∧ pr_Index p = Z.of_nat k ∧ Normalize r = Ok (pr_Resource p)) ∧
  (∀ k n, mkPreparedResource (Z.of_nat k) n ∈ out ↔
     (∃ r, rs !! k = Some r ∧ Normalize r = Ok n) ∧
     ∀ j r m, (j < k)%nat → rs !! j = Some r → Normalize r = Ok m → ¬ (n_kind m = n_kind n ∧ Key m = Key n)) ∧
  (∀ i j p q, out !! i = Some p → out !! j = Some q → i ≠ j →
     ¬ ∃ x, denotes (pr_Resource p) x ∧ denotes (pr_Resource q) x) ∧
  (∀ r, r ∈ rs → ∃ n p, Normalize r = Ok n ∧ p ∈ out ∧ ∀ x, denotes n x ↔ denotes (pr_Resource p) x).
Proof.
  rewrite PrepareReservationRequest_run. intros (Hlen & ns & Hns & -> & Hdis).
  assert (Hwf : ∀ p, p ∈ firstOccurrences 0 ∅ ns → resource_wf (pr_Resource p)).
  { intros p (_ & k & Hk & _)%firstOccurrences_in.
    eapply Forall2_Normalize_wf; [done|]. by eapply list_elem_of_lookup_2. }
  split_and!; [apply Hlen|apply Hlen|apply firstOccurrences_order| | | |].
  - intros p (_ & k & Hk & ->)%firstOccurrences_in.
    destruct (Forall2_lookup_r _ _ _ _ _ Hns Hk) as (r & Hr & Hn). by exists k, r.
  - intros k n. change (Z.of_nat k) with (0 + Z.of_nat k)%Z. rewrite firstOccurrences_iff. split.
    + intros (Hk & _ & Hj). destruct (Forall2_lookup_r _ _ _ _ _ Hns Hk) as (r & Hr & Hn). split; [by exists r|].
      intros j r' m Hlt Hr' Hm [Hkind HKey]. destruct (Forall2_lookup_l _ _ _ _ _ Hns Hr') as (m' & Hm' & HN).
      apply (Hj j m' Hlt Hm'). assert (m' = m) as -> by congruence. unfold resourceIdentity. by rewrite Hkind, HKey.
    + intros ((r & Hr & Hn) & Hj). destruct (Forall2_lookup_l _ _ _ _ _ Hns Hr) as (n' & Hn' & HN).
      assert (n' = n) as -> by congruence. split_and!; [done|set_solver|]. intros j m Hlt Hm He.
      destruct (Forall2_lookup_r _ _ _ _ _ Hns Hm) as (r' & Hr' & HM). apply (Hj j r' m Hlt Hr' HM).
      unfold resourceIdentity in He. by injection He as -> ->.
  - intros i j p q Hi Hj Hij Hx.
    pose proof (Hwf p (list_elem_of_lookup_2 _ _ _ Hi)) as Hp.
    pose proof (Hwf q (list_elem_of_lookup_2 _ _ _ Hj)) as Hq.
    destruct (decide (i < j)) as [Hlt|Hge].
    + pose proof (ForallOrdPairs_lookup _ _ _ _ _ _ Hdis Hi Hj Hlt) as Hd. unfold disjoint_prepared in Hd.
      rewrite Overlaps_sym, <-not_true_iff_false in Hd by done. by apply Hd, Overlaps_spec.
    + pose proof (ForallOrdPairs_lookup _ _ _ _ _ _ Hdis Hj Hi ltac:(lia)) as Hd.
      unfold disjoint_prepared in Hd.
      rewrite <-not_true_iff_false in Hd. by apply Hd, Overlaps_spec.
  - intros r Hr. apply list_elem_of_lookup in Hr as [k Hk].
    destruct (Forall2_lookup_l _ _ _ _ _ Hns Hk) as (n & Hn & HN).
    assert (Hin : n ∈ ns) by by eapply list_elem_of_lookup_2.
    destruct (firstOccurrences_cover 0 ∅ ns n Hin) as [?%elem_of_empty|(p & Hp & He)]; [done|].
    exists n, p. split_and!; [done|done|]. apply Key_denotes; [|by apply Hwf|done].
    by eapply Forall2_Normalize_wf.
Qed.

(** Exactly these requests are accepted: between one and fifty resources,
    all of them well-formed, any two either of the same kind and key or
    without a common point. *)
Theorem PrepareReservationRequest_accepts `{UnicodeTables} rs :
  is_ok (PrepareReservationRequest rs) = true ↔
  (1 <= Z.of_nat (length rs) <= 50)%Z ∧
  ∃ ns, Forall2 (λ r n, Normalize r = Ok n) rs ns ∧
    ∀ a b, a ∈ ns → b ∈ ns →
      (n_kind a = n_kind b ∧ Key a = Key b) ∨ ¬ ∃ x, denotes a x ∧ denotes b x.
Proof.
  rewrite is_ok_true. setoid_rewrite PrepareReservationRequest_run.
  assert (Hid : ∀ a b, resourceIdentity a = resourceIdentity b ↔ n_kind a = n_kind b ∧ Key a = Key b)
    by (intros a b; unfold resourceIdentity; split; [by intros [= ? ?]|by intros [-> ->]]).
  split.
  - intros (out & Hlen & ns & Hns & -> & Hdis). split; [done|]. exists ns. split; [done|].
    intros a b Ha Hb. rewrite <-Hid.
    pose proof (λ n, Forall2_Normalize_wf _ _ n Hns) as Hwf.
    destruct (decide (resourceIdentity a = resourceIdentity b)) as [|Hne]; [by left|right].
    intros (x & Hxa & Hxb).
    destruct (firstOccurrences_cover 0 ∅ ns a Ha) as [?%elem_of_empty|(p & Hp & Hpa)]; [done|].
    destruct (firstOccurrences_cover 0 ∅ ns b Hb) as [?%elem_of_empty|(q & Hq & Hqb)]; [done|].
    destruct (firstOccurrences_in _ _ _ _ Hp) as (_ & kp & Hkp & _).
    destruct (firstOccurrences_in _ _ _ _ Hq) as (_ & kq & Hkq & _).
    pose proof (Hwf _ (list_elem_of_lookup_2 _ _ _ Hkp)) as Hwp.
    pose proof (Hwf _ (list_elem_of_lookup_2 _ _ _ Hkq)) as Hwq.
    rewrite (Key_denotes a (pr_Resource p)) in Hxa by auto.
    rewrite (Key_denotes b (pr_Resource q)) in Hxb by auto.
    assert (Hov : Overlaps (pr_Resource p) (pr_Resource q) = true)
      by (apply Overlaps_spec; [done..|by exists x]).
    apply list_elem_of_lookup in Hp as [i Hi]. apply list_elem_of_lookup in Hq as [j Hj].
    destruct (lt_eq_lt_dec i j) as [[Hlt| ->]|Hgt].
    + pose proof (ForallOrdPairs_lookup _ _ _ _ _ _ Hdis Hi Hj Hlt) as Hd.
      unfold disjoint_prepared in Hd. rewrite Overlaps_sym in Hd by done. congruence.
    + congruence.
    + pose proof (ForallOrdPairs_lookup _ _ _ _ _ _ Hdis Hj Hi Hgt) as Hd.
      unfold disjoint_prepared in Hd. congruence.
  - intros (Hlen & ns & Hns & Hpair). eexists. split; [done|]. exists ns. split_and!; [done..|].
    pose proof (λ n, Forall2_Normalize_wf _ _ n Hns) as Hwf.
    eapply ForallOrdPairs_mono; [|apply firstOccurrences_distinct].
    intros p q (_ & kp & Hkp%list_elem_of_lookup_2 & _)%firstOccurrences_in
      (_ & kq & Hkq%list_elem_of_lookup_2 & _)%firstOccurrences_in Hne. cbn in Hne.
    unfold disjoint_prepared. apply not_true_is_false. rewrite Overlaps_spec by auto.
    intros Hc. destruct (Hpair (pr_Resource q) (pr_Resource p)) as [Hk%Hid|Hk]; [done..| |done].
    by apply Hne.
Qed.

(** C40. Storage round trip: normalizing the stored display spelling gives the
    resource back, except when dropping the redundant segments uncovered a
    Windows volume prefix; then reading the row fails. *)
Theorem Normalize_roundtrip `{UnicodeTables} input n :
  Normalize input = Ok n →
  (Normalize (storedIdentity n) = Ok n ↔
   n_kind n = ResourceKindLogical ∨ isWindowsVolumeForm (n_display n) = false) ∧
  (n_kind n ≠ ResourceKindLogical → isWindowsVolumeForm (n_display n) = true →
   Normalize (storedIdentity n) =
     Err (validationError "path" "VOLUME_FORM_NOT_ALLOWED" "must not use a Windows volume prefix")).
Proof.
  intros Hn. rewrite (Normalize_stored _ _ Hn). unfold stored_readable.
  destruct (n_kind n =s ResourceKindLogical) eqn:Hk; cbn.
  - apply eqb_string_true in Hk. naive_solver.
  - apply eqb_string_false in Hk. destruct (isWindowsVolumeForm (n_display n)); naive_solver.
Qed.

(** One identity, one resource: resources of equal kind and key denote the
    same points, hence conflict with exactly the same resources. *)
Theorem Key_identifies `{UnicodeTables} ra rb rc a b c :
  Normalize ra = Ok a → Normalize rb = Ok b → Normalize rc = Ok c →
  n_kind a = n_kind b → Key a = Key b →
  (∀ x, denotes a x ↔ denotes b x) ∧ Overlaps a c = Overlaps b c.
Proof.
  intros Ha%Normalize_wf Hb%Normalize_wf Hc%Normalize_wf Hk HK.
  assert (Hd : ∀ x, denotes a x ↔ denotes b x)
    by (apply Key_denotes; [done..|]; unfold resourceIdentity; by rewrite Hk, HK).
  split; [done|]. apply eq_true_iff_eq. rewrite !Overlaps_spec by done.
  unfold common_point. by setoid_rewrite Hd.
Qed.

(** ** Witnesses *)

Definition path_resource (kind path : string) : Resource := mkResource kind path "" "".
Definition normalized (r : Resource) : NormalizedResource :=
  match Normalize r with Ok n => n | Err _ => mkNormalized "" "" [] "" "" end.

Lemma Overlaps_iff_common_point_witness :
  let a := path_resource "glob" "./src//*/**" in let b := path_resource "file" "SRC/x/Main.go" in
  Overlaps (normalized a) (normalized b) = true ∧
  ∃ x, denotes (normalized a) x ∧ denotes (normalized b) x.
Proof.
  cbv zeta. split; [by vm_compute|].
  apply (Overlaps_iff_common_point (path_resource "glob" "./src//*/**")
           (path_resource "file" "SRC/x/Main.go")); by vm_compute.
Defined.

Lemma FirstLiteralSegment_prunes_witness :
  let a := path_resource "directory" "src" in let b := path_resource "glob" "docs/**" in
  overlaps_core (normalized a) (normalized b) = false.
Proof.
  cbv zeta.
  apply (FirstLiteralSegment_prunes (path_resource "directory" "src") (path_resource "glob" "docs/**")
           (normalized (path_resource "directory" "src")) (normalized (path_resource "glob" "docs/**"))
           ltac:(by vm_compute) ltac:(by vm_compute) ltac:(by vm_compute) ltac:(by vm_compute))
    with (f := "src") (g := "docs"); by vm_compute.
Defined.

Lemma PrepareReservationRequest_sound_witness :
  let rs := [path_resource "file" "a/b"; path_resource "file" "./A//b"; path_resource "directory" "c"] in
  let out := [mkPreparedResource 0 (normalized (path_resource "file" "a/b"));
              mkPreparedResource 2 (normalized (path_resource "directory" "c"))] in
  PrepareReservationRequest rs = Ok out ∧
  (1 <= Z.of_nat (length rs) <= 50)%Z ∧
  StronglySorted (λ p q, (pr_Index p < pr_Index q)%Z) out ∧
  (∀ p, p ∈ out → ∃ k r, rs !! k = Some r ∧ pr_Index p = Z.of_nat k ∧ Normalize r = Ok (pr_Resource p)) ∧
  (∀ k n, mkPreparedResource (Z.of_nat k) n ∈ out ↔
     (∃ r, rs !! k = Some r ∧ Normalize r = Ok n) ∧
     ∀ j r m, (j < k)%nat → rs !! j = Some r → Normalize r = Ok m → ¬ (n_kind m = n_kind n ∧ Key m = Key n)) ∧
  (∀ i j p q, out !! i = Some p → out !! j = Some q → i ≠ j →
     ¬ ∃ x, denotes (pr_Resource p) x ∧ denotes (pr_Resource q) x) ∧
  (∀ r, r ∈ rs → ∃ n p, Normalize r = Ok n ∧ p ∈ out ∧ ∀ x, denotes n x ↔ denotes (pr_Resource p) x).
Proof.
  cbv zeta. split; [by vm_compute|].
  apply (PrepareReservationRequest_sound
    [path_resource "file" "a/b"; path_resource "file" "./A//b"; path_resource "directory" "c"]).
  by vm_compute.
Defined.

(** "./C:/x" is accepted with display "C:/x", which does not read back. *)
Lemma Normalize_roundtrip_witness :
  let n := normalized (path_resource "file" "./C:/x") in
  Normalize (path_resource "file" "./C:/x") = Ok n ∧
  Normalize (storedIdentity n) =
    Err (validationError "path" "VOLUME_FORM_NOT_ALLOWED" "must not use a Windows volume prefix").
Proof.
  cbv zeta. split; [by vm_compute|].
  apply (Normalize_roundtrip (path_resource "file" "./C:/x")); by vm_compute.
Defined.

Lemma Key_identifies_witness :
  let a := normalized (path_resource "glob" "SRC/**") in
  let b := normalized (path_resource "glob" "./src/**") in
  let c := normalized (path_resource "file" "src/x") in
  Overlaps a c = Overlaps b c.
Proof.
  cbv zeta.
  apply (Key_identifies (path_resource "glob" "SRC/**") (path_resource "glob" "./src/**")
           (path_resource "file" "src/x")); by vm_compute.
Defined.
