(* ===== verification/Attempt.v ===== *)
(** * Attempts: requests and their validation

    [internal/domain/attempt.go]: vocabularies, lease bounds, the [Validate]
    methods of the attempt requests and [ValidateFinishAttemptForKind];
    [internal/domain/artifact.go]: artifact inputs.

    The JSON and URL parsers of Go's library enter through the classes
    [JSONCodec] and [URLParser]: [json.Compact] (with [None] on a syntax
    error), whether the compacted text unmarshals into an object, and
    [url.ParseRequestURI] as scheme, host and whether credentials are
    present. *)

From S2P Require Import Prelude GoStrings Errors Validation Samples Issue IssueOps Resource.

(** ** Vocabularies *)

Definition DefaultLeaseSeconds : Z := 900.
Definition MinLeaseSeconds : Z := 60.
Definition MaxLeaseSeconds : Z := 3600.
Definition MaxLeaseTokenRunes : Z := 512.
Definition MaxAttemptNoteNextSteps : Z := 20.
Definition MaxAttemptNoteNextStepRunes : Z := 1000.
Definition MaxVerificationItems : Z := 20.
Definition MaxVerificationRunes : Z := 1000.
Definition MaxReleaseResourceIDs : Z := MaxReservationResources.

Definition AttemptKindWork := "work".
Definition AttemptKindReview := "review".
Definition AttemptKind_Valid (value : string) : bool :=
  (value =s AttemptKindWork) || (value =s AttemptKindReview).

Definition AttemptStatusActive := "active".
Definition AttemptStatusCompleted := "completed".
Definition AttemptStatusFailed := "failed".
Definition AttemptStatusInterrupted := "interrupted".
Definition AttemptStatusExpired := "expired".
Definition AttemptStatusCancelled := "cancelled".
Definition AttemptStatus_Valid (value : string) : bool :=
  enumValid value [AttemptStatusActive; AttemptStatusCompleted; AttemptStatusFailed;
                   AttemptStatusInterrupted; AttemptStatusExpired; AttemptStatusCancelled].

Definition AttemptOutcomeCompleted := "completed".
Definition AttemptOutcomeFailed := "failed".
Definition AttemptOutcomeInterrupted := "interrupted".
Definition AttemptOutcome_Valid (v : string) : bool :=
  (v =s AttemptOutcomeCompleted) || (v =s AttemptOutcomeFailed) || (v =s AttemptOutcomeInterrupted).

Definition ReviewOutcomeApproved := "approved".
Definition ReviewOutcomeChangesRequested := "changes_requested".
Definition ReviewOutcomeBlocked := "blocked".
Definition ReviewOutcome_Valid (v : string) : bool :=
  (v =s ReviewOutcomeApproved) || (v =s ReviewOutcomeChangesRequested) || (v =s ReviewOutcomeBlocked).

Definition FailureReasonCode_Valid (v : string) : bool :=
  enumValid v ["implementation_error"; "environment_error"; "missing_dependency";
               "invalid_requirements"; "tests_failed"; "context_lost"; "timeout"; "other"].
Definition InterruptionReasonCode_Valid (v : string) : bool :=
  enumValid v ["handoff"; "user_request"; "context_limit"; "client_shutdown";
               "environment_change"; "other"].

Definition AttemptNoteKind_Valid (value : string) : bool :=
  enumValid value ["progress"; "finding"; "warning"; "checkpoint"].

(** ** Artifacts *)

Definition MaxArtifactsPerAttemptMutation : Z := 20.
Definition MaxArtifactURIRunes : Z := 4096.
Definition MaxArtifactMetadataBytes : Z := 8192.

Definition ArtifactTypeFile := "file".
Definition ArtifactTypeDirectory := "directory".
Definition ArtifactTypeURL := "url".
Definition ArtifactType_Valid (value : string) : bool :=
  enumValid value [ArtifactTypeFile; ArtifactTypeDirectory; ArtifactTypeURL; "commit"; "branch";
                   "pull_request"; "log"; "other"].

Record ArtifactInput := mkArtifactInput {
  ai_Type : string;
  ai_URI : string;
  ai_Title : option string;
  ai_Metadata : option string;
}.

Class JSONCodec := {
  json_Compact : string → option string;
  json_IsObject : string → bool;
}.

Record ParsedURL := mkURL { url_Scheme : string; url_Host : string; url_HasUser : bool }.
Class URLParser := { url_ParseRequestURI : string → option ParsedURL }.

(** [path.Clean] of a relative slash path, as its list of elements: redundant
    elements are dropped and ".." cancels the element before it. *)
Definition clean_step (acc : list string) (part : string) : list string :=
  if (part =s "") || (part =s ".") then acc
  else if part =s ".." then
    match acc with
    | [] => [".."]
    | top :: rest => if top =s ".." then ".." :: acc else rest
    end
  else part :: acc.
Definition path_Clean_is_dot (value : string) : bool :=
  match foldl clean_step [] (Split slash value) with [] => true | _ => false end.

Section attempt.
Context `{UnicodeTables, ULID, JSONCodec, URLParser}.

Definition validateArtifactURI (field kind value : string) : result unit :=
  if (kind =s ArtifactTypeFile) || (kind =s ArtifactTypeDirectory) then
    fail_if HasPrefix value "/" || isWindowsVolumeForm value || contains_byte backslash value ||
            path_Clean_is_dot value
      with validationError field "INVALID_PATH" "must be a project-relative path" ;;
    fail_if existsb (λ segment, segment =s "..") (Split slash value)
      with validationError field "INVALID_PATH" "must not traverse outside the project root" ;;
    Ok tt
  else if kind =s ArtifactTypeURL then
    match url_ParseRequestURI value with
    | Some parsed =>
        let scheme := asciiLower (url_Scheme parsed) in
        fail_if (url_Scheme parsed =s "") || (url_Host parsed =s "") ||
                (negb (scheme =s "http") && negb (scheme =s "https")) || url_HasUser parsed
          with validationError field "INVALID_URL" "must be an absolute http or https URL without credentials" ;;
        Ok tt
    | None => Err (validationError field "INVALID_URL" "must be an absolute http or https URL without credentials")
    end
  else Ok tt.

Definition normalizeArtifactMetadata (field : string) (value : option string) : result (option string) :=
  match value with
  | None => Ok None
  | Some v =>
      fail_if (MaxArtifactMetadataBytes <? len v)%Z
        with NewError CodeLimitExceeded
               (field +:+ " exceeds the maximum size of " +:+ Itoa MaxArtifactMetadataBytes +:+ " bytes") false
               [mkDetail None field "MAX_BYTES" ("maximum " +:+ Itoa MaxArtifactMetadataBytes)] ;;
      match json_Compact v with
      | None => Err (validationError field "INVALID_JSON" "must contain valid JSON")
      | Some compact =>
          if compact =s "null" then Ok None
          else fail_if negb (json_IsObject compact)
                 with validationError field "INVALID_JSON_TYPE" "must be a JSON object" ;;
               Ok (Some compact)
      end
  end.

Definition validateArtifact (field : string) (entry : Z * ArtifactInput) : result ArtifactInput :=
  let '(index, item) := entry in
  let itemField := λ name, field +:+ "[" +:+ Itoa index +:+ "]." +:+ name in
  fail_if negb (ArtifactType_Valid (ai_Type item))
    with validationError (itemField "type") "INVALID_ENUM" "is invalid" ;;
  fail_if blank (ai_URI item) with validationError (itemField "uri") "REQUIRED" "is required" ;;
  try ValidateText (itemField "uri") (ai_URI item) MaxArtifactURIRunes ;;
  try validateArtifactURI (itemField "uri") (ai_Type item) (ai_URI item) ;;
  try match ai_Title item with
      | None => Ok tt
      | Some title =>
          fail_if blank title with validationError (itemField "title") "REQUIRED" "is required" ;;
          ValidateText (itemField "title") title MaxTitleRunes
      end ;;
  metadata ← normalizeArtifactMetadata (itemField "metadata") (ai_Metadata item);
  Ok (mkArtifactInput (ai_Type item) (ai_URI item) (ai_Title item) metadata).

Definition ValidateArtifactInputs (field : string) (values : list ArtifactInput) : result (list ArtifactInput) :=
  normalized ← CopyBounded field values MaxArtifactsPerAttemptMutation;
  collect (validateArtifact field) (enumerate normalized).

(** ** Shared request checks *)

Definition validateAttemptID (id : string) : result unit :=
  fail_if negb (ids_ParseStrict id) || negb (len id =? 26)%Z
    with validationError "attempt_id" "INVALID_ULID" "must be a canonical ULID" ;;
  Ok tt.

Definition validateLeaseToken (token : string) : result unit :=
  fail_if blank token with validationError "lease_token" "REQUIRED" "is required" ;;
  ValidateText "lease_token" token MaxLeaseTokenRunes.

Definition validateItems (field : string) (maxRunes : Z) (items : list string) : result unit :=
  each (λ v,
    fail_if blank v with validationError field "REQUIRED" "items must be nonblank" ;;
    ValidateText field v maxRunes) items.

Definition validateLeaseSeconds (value : option Z) : result (option Z) :=
  let seconds := match value with Some v => v | None => DefaultLeaseSeconds end in
  fail_if (seconds <? MinLeaseSeconds)%Z || (MaxLeaseSeconds <? seconds)%Z
    with validationError "lease_seconds" "OUT_OF_RANGE" "must be between 60 and 3600" ;;
  Ok (Some seconds).

(** ** Finishing *)

Record AttemptAcknowledgement := mkAck { ack_IssueVersion : Z; ack_LatestEventID : Z }.

Record FinishAttemptInput := mkFinish {
  fi_AttemptID : string;
  fi_LeaseToken : string;
  fi_SessionID : option string;
  fi_Outcome : string;
  fi_ResultSummary : string;
  fi_NextSteps : list string;
  fi_Verification : list string;
  fi_TargetIssueStatus : option string;
  fi_BlockedReason : option string;
  fi_ReviewOutcome : option string;
  fi_FailureReasonCode : option string;
  fi_InterruptionReasonCode : option string;
  fi_ReasonDetails : option string;
  fi_AcknowledgedChanges : option AttemptAcknowledgement;
  fi_Artifacts : list ArtifactInput;
  fi_IdempotencyKey : option string;
}.

Definition optionalEnum (field message : string) (valid : string → bool) (v : option string) : result unit :=
  fail_if match v with Some x => negb (valid x) | None => false end
    with validationError field "INVALID_ENUM" message ;;
  Ok tt.

Definition required {A} (field message : string) (v : option A) : result unit :=
  fail_if negb (isSet v) with validationError field "REQUIRED" message ;; Ok tt.
Definition forbidden {A} (field message : string) (v : option A) : result unit :=
  fail_if isSet v with validationError field "FORBIDDEN" message ;; Ok tt.

Definition finishTargetValid (target : string) : bool :=
  negb ((target =s StatusOpen) || (target =s StatusCancelled) || negb (Status_Valid target)).

Definition FinishAttemptInput_Validate (input : FinishAttemptInput) : result FinishAttemptInput :=
  try validateAttemptID (fi_AttemptID input) ;;
  try validateLeaseToken (fi_LeaseToken input) ;;
  fail_if negb (AttemptOutcome_Valid (fi_Outcome input))
    with validationError "outcome" "INVALID_ENUM" "must be completed, failed, or interrupted" ;;
  fail_if blank (fi_ResultSummary input) with validationError "result_summary" "REQUIRED" "is required" ;;
  try ValidateText "result_summary" (fi_ResultSummary input) MaxAttemptNoteRunes ;;
  next ← CopyBounded "next_steps" (fi_NextSteps input) MaxAttemptNoteNextSteps;
  try validateItems "next_steps" MaxAttemptNoteNextStepRunes next ;;
  verification ← CopyBounded "verification" (fi_Verification input) MaxVerificationItems;
  try validateItems "verification" MaxVerificationRunes verification ;;
  artifacts ← ValidateArtifactInputs "artifacts" (fi_Artifacts input);
  try optionalEnum "target_issue_status" "must be done, review, ready, or blocked" finishTargetValid
        (fi_TargetIssueStatus input) ;;
  try optionalEnum "review_outcome" "is invalid" ReviewOutcome_Valid (fi_ReviewOutcome input) ;;
  try optionalEnum "failure_reason_code" "is invalid" FailureReasonCode_Valid (fi_FailureReasonCode input) ;;
  try optionalEnum "interruption_reason_code" "is invalid" InterruptionReasonCode_Valid
        (fi_InterruptionReasonCode input) ;;
  try validateOptionalText "blocked_reason" (fi_BlockedReason input) MaxAttemptNoteRunes ;;
  try validateOptionalText "reason_details" (fi_ReasonDetails input) MaxAttemptNoteRunes ;;
  try (if fi_Outcome input =s AttemptOutcomeFailed then
         try required "failure_reason_code" "is required" (fi_FailureReasonCode input) ;;
         try forbidden "target_issue_status" "is not allowed for failed attempts" (fi_TargetIssueStatus input) ;;
         try forbidden "review_outcome" "is not allowed for failed attempts" (fi_ReviewOutcome input) ;;
         try forbidden "blocked_reason" "is not allowed for failed attempts" (fi_BlockedReason input) ;;
         forbidden "interruption_reason_code" "is not allowed for failed attempts" (fi_InterruptionReasonCode input)
       else Ok tt) ;;
  try (if fi_Outcome input =s AttemptOutcomeInterrupted then
         try required "interruption_reason_code" "is required" (fi_InterruptionReasonCode input) ;;
         try forbidden "target_issue_status" "is not allowed for interrupted attempts" (fi_TargetIssueStatus input) ;;
         try forbidden "review_outcome" "is not allowed for interrupted attempts" (fi_ReviewOutcome input) ;;
         try forbidden "blocked_reason" "is not allowed for interrupted attempts" (fi_BlockedReason input) ;;
         forbidden "failure_reason_code" "is not allowed for interrupted attempts" (fi_FailureReasonCode input)
       else Ok tt) ;;
  fail_if match fi_AcknowledgedChanges input with
          | Some ack => (ack_IssueVersion ack <? 1)%Z || (ack_LatestEventID ack <? 0)%Z
          | None => false
          end
    with validationError "acknowledged_changes" "INVALID_VALUE" "version and event id are out of range" ;;
  key ← validateIdempotencyKey (fi_IdempotencyKey input);
  sessionID ← copyOptionalSessionID (fi_SessionID input);
  Ok (mkFinish (fi_AttemptID input) (fi_LeaseToken input) sessionID (fi_Outcome input)
        (fi_ResultSummary input) next verification (fi_TargetIssueStatus input)
        (fi_BlockedReason input) (fi_ReviewOutcome input) (fi_FailureReasonCode input)
        (fi_InterruptionReasonCode input) (fi_ReasonDetails input) (fi_AcknowledgedChanges input)
        artifacts key).

(** The blocked-reason tail both completion shapes share. *)
Definition blockedReasonShape (isBlocked : bool) (input : FinishAttemptInput) : result unit :=
  try (if isBlocked then
         fail_if match fi_BlockedReason input with Some r => blank r | None => true end
           with validationError "blocked_reason" "REQUIRED" "is required" ;;
         Ok tt
       else forbidden "blocked_reason" "is only allowed for blocked outcomes" (fi_BlockedReason input)) ;;
  fail_if isSet (fi_ReasonDetails input) && negb isBlocked
    with validationError "reason_details" "FORBIDDEN" "is only allowed for blocked outcomes" ;;
  Ok tt.

Definition ValidateFinishAttemptForKind (input : FinishAttemptInput) (kind : string) : result unit :=
  try FinishAttemptInput_Validate input ;;
  fail_if negb (AttemptKind_Valid kind) with validationError "kind" "INVALID_ENUM" "is invalid" ;;
  if negb (fi_Outcome input =s AttemptOutcomeCompleted) then Ok tt
  else if kind =s AttemptKindWork then
    match fi_TargetIssueStatus input with
    | None => Err (validationError "target_issue_status" "REQUIRED" "is required for work completion")
    | Some target =>
        try forbidden "review_outcome" "is not allowed for work completion" (fi_ReviewOutcome input) ;;
        try forbidden "failure_reason_code" "is not allowed for work completion" (fi_FailureReasonCode input) ;;
        try forbidden "interruption_reason_code" "is not allowed for work completion"
              (fi_InterruptionReasonCode input) ;;
        blockedReasonShape (target =s StatusBlocked) input
    end
  else
    match fi_ReviewOutcome input with
    | None => Err (validationError "review_outcome" "REQUIRED" "is required for review completion")
    | Some outcome =>
        try forbidden "target_issue_status" "is not allowed for review completion" (fi_TargetIssueStatus input) ;;
        try forbidden "failure_reason_code" "is not allowed for review completion" (fi_FailureReasonCode input) ;;
        try forbidden "interruption_reason_code" "is not allowed for review completion"
              (fi_InterruptionReasonCode input) ;;
        blockedReasonShape (outcome =s ReviewOutcomeBlocked) input
    end.

(** ** Claiming, renewing, notes, reservations *)

Record ClaimIssueInput := mkClaim {
  cl_IssueID : string;
  cl_LeaseSeconds : option Z;
  cl_SessionID : option string;
  cl_Resources : list Resource;
  cl_IdempotencyKey : option string;
}.

Definition ClaimIssueInput_Validate (input : ClaimIssueInput) : result ClaimIssueInput :=
  try ParseIssueIdentifier (cl_IssueID input) ;;
  lease ← validateLeaseSeconds (cl_LeaseSeconds input);
  sessionID ← copyOptionalSessionID (cl_SessionID input);
  try (if (0 <? Z.of_nat (length (cl_Resources input)))%Z
       then PrepareReservationRequest (cl_Resources input) else Ok []) ;;
  idempotencyKey ← validateIdempotencyKey (cl_IdempotencyKey input);
  Ok (mkClaim (cl_IssueID input) lease sessionID (cl_Resources input) idempotencyKey).

Record RenewAttemptInput := mkRenew {
  rn_AttemptID : string;
  rn_LeaseToken : string;
  rn_LeaseSeconds : option Z;
  rn_SessionID : option string;
}.

(** Unlike the other requests, the identifier need not be the canonical
    rendering. *)
Definition RenewAttemptInput_Validate (input : RenewAttemptInput) : result RenewAttemptInput :=
  fail_if negb (isSet (ulid_ParseStrict (rn_AttemptID input))) || negb (len (rn_AttemptID input) =? 26)%Z
    with validationError "attempt_id" "INVALID_ULID" "must be a canonical ULID" ;;
  try validateLeaseToken (rn_LeaseToken input) ;;
  lease ← validateLeaseSeconds (rn_LeaseSeconds input);
  sessionID ← copyOptionalSessionID (rn_SessionID input);
  Ok (mkRenew (rn_AttemptID input) (rn_LeaseToken input) lease sessionID).

Record SaveAttemptNoteInput := mkSaveNote {
  sn_AttemptID : string;
  sn_LeaseToken : string;
  sn_SessionID : option string;
  sn_Kind : string;
  sn_Content : string;
  sn_NextSteps : list string;
  sn_Important : bool;
  sn_Artifacts : list ArtifactInput;
  sn_IdempotencyKey : option string;
}.

Definition SaveAttemptNoteInput_Validate (input : SaveAttemptNoteInput) : result SaveAttemptNoteInput :=
  try validateAttemptID (sn_AttemptID input) ;;
  try validateLeaseToken (sn_LeaseToken input) ;;
  fail_if negb (AttemptNoteKind_Valid (sn_Kind input))
    with validationError "kind" "INVALID_ENUM" "must be progress, finding, warning, or checkpoint" ;;
  fail_if blank (sn_Content input) with validationError "content" "REQUIRED" "is required" ;;
  try ValidateText "content" (sn_Content input) MaxAttemptNoteRunes ;;
  nextSteps ← CopyBounded "next_steps" (sn_NextSteps input) MaxAttemptNoteNextSteps;
  try validateItems "next_steps" MaxAttemptNoteNextStepRunes nextSteps ;;
  artifacts ← ValidateArtifactInputs "artifacts" (sn_Artifacts input);
  sessionID ← copyOptionalSessionID (sn_SessionID input);
  idempotencyKey ← validateIdempotencyKey (sn_IdempotencyKey input);
  Ok (mkSaveNote (sn_AttemptID input) (sn_LeaseToken input) sessionID (sn_Kind input)
        (sn_Content input) nextSteps (sn_Important input) artifacts idempotencyKey).

Record ReserveResourcesInput := mkReserve {
  re_AttemptID : string;
  re_LeaseToken : string;
  re_SessionID : option string;
  re_Resources : list Resource;
  re_IdempotencyKey : option string;
}.

Definition ReserveResourcesInput_Validate (input : ReserveResourcesInput) : result ReserveResourcesInput :=
  try validateAttemptID (re_AttemptID input) ;;
  try validateLeaseToken (re_LeaseToken input) ;;
  try PrepareReservationRequest (re_Resources input) ;;
  sessionID ← copyOptionalSessionID (re_SessionID input);
  idempotencyKey ← validateIdempotencyKey (re_IdempotencyKey input);
  Ok (mkReserve (re_AttemptID input) (re_LeaseToken input) sessionID (re_Resources input) idempotencyKey).

Record ReleaseResourcesInput := mkRelease {
  rl_AttemptID : string;
  rl_LeaseToken : string;
  rl_SessionID : option string;
  rl_ReservationIDs : list string;
  rl_IdempotencyKey : option string;
}.

(** The loop over the identifiers, with its map of identifiers seen. *)
Fixpoint checkReservationIDs (index : Z) (seen : gset string) (reservationIDs : list string) : result unit :=
  match reservationIDs with
  | [] => Ok tt
  | id :: rest =>
      fail_if negb (ids_ParseStrict id) || negb (len id =? 26)%Z
        with NewError CodeInvalidArgument ("reservation id " +:+ Quote id +:+ " is not a canonical ULID") false
               [mkDetail (Some index) "reservation_ids" "INVALID_ULID" ""] ;;
      fail_if bool_decide (id ∈ seen)
        with NewError CodeInvalidArgument ("reservation id " +:+ Quote id +:+ " is repeated") false
               [mkDetail (Some index) "reservation_ids" "DUPLICATE" ""] ;;
      checkReservationIDs (index + 1) ({[ id ]} ∪ seen) rest
  end.

Definition ReleaseResourcesInput_Validate (input : ReleaseResourcesInput) : result ReleaseResourcesInput :=
  try validateAttemptID (rl_AttemptID input) ;;
  try validateLeaseToken (rl_LeaseToken input) ;;
  reservationIDs ← CopyBounded "reservation_ids" (rl_ReservationIDs input) MaxReleaseResourceIDs;
  try checkReservationIDs 0 ∅ reservationIDs ;;
  sessionID ← copyOptionalSessionID (rl_SessionID input);
  idempotencyKey ← validateIdempotencyKey (rl_IdempotencyKey input);
  Ok (mkRelease (rl_AttemptID input) (rl_LeaseToken input) sessionID reservationIDs idempotencyKey).

(** The resources an idempotency hash covers: the display spelling. *)
Definition canonicalizeReservationResources (resources : list Resource) : result (list Resource) :=
  collect (λ entry : Z * Resource,
    let '(index, resource) := entry in
    match Normalize resource with
    | Err e => Err (wrapResourceRequestError index e)
    | Ok normalized => Ok (storedIdentity normalized)
    end) (enumerate resources).

End attempt.

(** ** Lemmas *)

Lemma required_Ok {A} field message (v : option A) : required field message v = Ok tt ↔ is_Some v.
Proof. unfold required. rewrite fail_if_Ok, negb_false_iff, isSet_true. naive_solver. Qed.
Lemma forbidden_Ok {A} field message (v : option A) : forbidden field message v = Ok tt ↔ v = None.
Proof. unfold forbidden. rewrite fail_if_Ok, isSet_false. naive_solver. Qed.
Lemma optionalEnum_Ok field message valid v :
  optionalEnum field message valid v = Ok tt ↔ ∀ x, v = Some x → valid x = true.
Proof.
  unfold optionalEnum. rewrite fail_if_Ok. destruct v as [x|]; [|naive_solver].
  rewrite negb_false_iff. naive_solver.
Qed.

Lemma finishTargetValid_spec target :
  finishTargetValid target = true ↔
  target = StatusReady ∨ target = StatusBlocked ∨ target = StatusReview ∨ target = StatusDone.
Proof.
  unfold finishTargetValid. rewrite negb_true_iff, !orb_false_iff, negb_false_iff, !eqb_string_false,
    Status_Valid_cases. split; [naive_solver|]. intros Ht. destruct_or! Ht; subst; naive_solver.
Qed.

Lemma validateLeaseSeconds_Ok value lease :
  validateLeaseSeconds value = Ok lease ↔
  lease = Some (default DefaultLeaseSeconds value) ∧
  (MinLeaseSeconds <= default DefaultLeaseSeconds value <= MaxLeaseSeconds)%Z.
Proof.
  unfold validateLeaseSeconds. rewrite fail_if_Ok, orb_false_iff, !Z.ltb_ge. destruct value; naive_solver.
Qed.

Lemma isSet_ok_None {A} (v : option A) (b : bool) : isSet v && negb b = false → b = false → v = None.
Proof. intros H ->. destruct v; done. Qed.

Lemma try_unit {B} (r : result unit) (k : result B) b :
  (try r ;; k) = Ok b ↔ r = Ok tt ∧ k = Ok b.
Proof. destruct r as [[]|]; naive_solver. Qed.

Section attempt_lemmas.
Context `{UnicodeTables, ULID, JSONCodec, URLParser}.

(** The two conditions on reasons of a completed attempt. *)
Lemma blockedReasonShape_Ok isBlocked input :
  blockedReasonShape isBlocked input = Ok tt ↔
  if isBlocked then ∃ r, fi_BlockedReason input = Some r ∧ blank r = false
  else fi_BlockedReason input = None ∧ fi_ReasonDetails input = None.
Proof.
  unfold blockedReasonShape. rewrite try_unit, fail_if_Ok. destruct isBlocked.
  - rewrite andb_false_r. destruct (fi_BlockedReason input) as [r|].
    + rewrite fail_if_Ok. split; [naive_solver|]. by intros (r' & [= <-] & Hr).
    + split; [by intros [? _]|]. by intros (r & ? & _).
  - rewrite andb_true_r, isSet_false, forbidden_Ok. tauto.
Qed.

(** The relations between fields a validated finish request has. *)
Definition finish_shape (input : FinishAttemptInput) : Prop :=
  AttemptOutcome_Valid (fi_Outcome input) = true ∧
  (∀ t, fi_TargetIssueStatus input = Some t → finishTargetValid t = true) ∧
  (∀ o, fi_ReviewOutcome input = Some o → ReviewOutcome_Valid o = true) ∧
  (fi_Outcome input = AttemptOutcomeFailed →
     is_Some (fi_FailureReasonCode input) ∧ fi_TargetIssueStatus input = None ∧
     fi_ReviewOutcome input = None ∧ fi_BlockedReason input = None ∧
     fi_InterruptionReasonCode input = None) ∧
  (fi_Outcome input = AttemptOutcomeInterrupted →
     is_Some (fi_InterruptionReasonCode input) ∧ fi_TargetIssueStatus input = None ∧
     fi_ReviewOutcome input = None ∧ fi_BlockedReason input = None ∧
     fi_FailureReasonCode input = None).

Lemma FinishAttemptInput_Validate_shape input out :
  FinishAttemptInput_Validate input = Ok out → finish_shape input.
Proof.
  unfold FinishAttemptInput_Validate. intros Hv.
  apply try_unit in Hv as [_ Hv]. apply try_unit in Hv as [_ Hv].
  apply fail_if_Ok in Hv as [Ho Hv]. apply fail_if_Ok in Hv as [_ Hv]. apply try_unit in Hv as [_ Hv].
  apply result_bind_Ok in Hv as (next & _ & Hv). apply try_unit in Hv as [_ Hv].
  apply result_bind_Ok in Hv as (verification & _ & Hv). apply try_unit in Hv as [_ Hv].
  apply result_bind_Ok in Hv as (artifacts & _ & Hv).
  apply try_unit in Hv as [Ht Hv]. apply try_unit in Hv as [Hr Hv].
  apply try_unit in Hv as [_ Hv]. apply try_unit in Hv as [_ Hv].
  apply try_unit in Hv as [_ Hv]. apply try_unit in Hv as [_ Hv].
  apply try_unit in Hv as [Hf Hv]. apply try_unit in Hv as [Hi _].
  unfold finish_shape. split_and!; [by bool_simpl|exact (proj1 (optionalEnum_Ok _ _ _ _) Ht)|exact (proj1 (optionalEnum_Ok _ _ _ _) Hr)| |].
  - intros E. rewrite E in Hf. cbn in Hf. rewrite !try_unit, required_Ok, !forbidden_Ok in Hf. tauto.
  - intros E. rewrite E in Hi. cbn in Hi. rewrite !try_unit, required_Ok, !forbidden_Ok in Hi. tauto.
Qed.

(** Completion: exactly one of target status and review outcome, by kind, and
    a reason exactly for the blocked result. *)
Lemma ValidateFinishAttemptForKind_Ok input kind :
  ValidateFinishAttemptForKind input kind = Ok tt →
  (∃ out, FinishAttemptInput_Validate input = Ok out) ∧ AttemptKind_Valid kind = true ∧
  (fi_Outcome input = AttemptOutcomeCompleted →
     fi_FailureReasonCode input = None ∧ fi_InterruptionReasonCode input = None ∧
     ((kind = AttemptKindWork ∧ fi_ReviewOutcome input = None ∧
       ∃ t, fi_TargetIssueStatus input = Some t ∧ blockedReasonShape (t =s StatusBlocked) input = Ok tt) ∨
      (kind = AttemptKindReview ∧ fi_TargetIssueStatus input = None ∧
       ∃ o, fi_ReviewOutcome input = Some o ∧ blockedReasonShape (o =s ReviewOutcomeBlocked) input = Ok tt))).
Proof.
  unfold ValidateFinishAttemptForKind. intros Hv. apply try_Ok in Hv as [Hval Hv].
  apply fail_if_Ok in Hv as [Hk Hv]. apply negb_false_iff in Hk.
  split_and!; [done|done|]. intros Ho. rewrite Ho, eqb_string_refl in Hv. cbn [negb] in Hv.
  destruct (kind =s AttemptKindWork) eqn:Hw.
  - destruct (fi_TargetIssueStatus input) as [t|]; [|done].
    rewrite !try_unit, !forbidden_Ok in Hv. destruct Hv as (Hr & Hf & Hi & Hb).
    apply eqb_string_true in Hw. split_and!; [done|done|]. left. eauto.
  - destruct (fi_ReviewOutcome input) as [o|]; [|done].
    rewrite !try_unit, !forbidden_Ok in Hv. destruct Hv as (Ht & Hf & Hi & Hb).
    unfold AttemptKind_Valid in Hk. rewrite Hw in Hk. cbn in Hk. apply eqb_string_true in Hk.
    split_and!; [done|done|]. right. eauto.
Qed.

Lemma checkReservationIDs_Ok index seen reservationIDs :
  checkReservationIDs index seen reservationIDs = Ok tt ↔
  NoDup reservationIDs ∧
  (∀ id, id ∈ reservationIDs → id ∉ seen ∧ ids_ParseStrict id = true ∧ len id = 26%Z).
Proof.
  revert index seen. induction reservationIDs as [|id rest IH]; intros index seen; cbn [checkReservationIDs].
  { split; [intros _; split; [constructor|by intros id ?%elem_of_nil]|done]. }
  rewrite !fail_if_Ok, IH, orb_false_iff, !negb_false_iff, Z.eqb_eq, bool_decide_eq_false, NoDup_cons.
  setoid_rewrite elem_of_cons. split.
  - intros ([Hp Hl] & Hns & Hnd & Hrest). split_and!; [|done|].
    + intros Hin. destruct (Hrest id Hin) as [Hn _]. set_solver.
    + intros x [->|Hx]; [done|]. destruct (Hrest x Hx) as (? & ? & ?). set_solver.
  - intros [[Hn Hnd] Hall]. destruct (Hall id (or_introl eq_refl)) as (? & ? & ?).
    split_and!; [done|done|done|done|]. intros x Hx. destruct (Hall x (or_intror Hx)) as (? & ? & ?).
    split_and!; [|done|done]. rewrite elem_of_union, elem_of_singleton. naive_solver.
Qed.
End attempt_lemmas.

(** * Properties *)

(** A validated finish request has a coherent shape for its attempt's kind:
    a completed work attempt names a target status and no review outcome, a
    completed review names a review outcome and no target status, reasons
    accompany exactly the blocked result, and failed or interrupted attempts
    carry their own reason code and nothing else. *)
Theorem ValidateFinishAttemptForKind_shape `{UnicodeTables, ULID, JSONCodec, URLParser} input kind :
  ValidateFinishAttemptForKind input kind = Ok tt →
  AttemptKind_Valid kind = true ∧ finish_shape input ∧
  (fi_Outcome input = AttemptOutcomeCompleted →
    fi_FailureReasonCode input = None ∧ fi_InterruptionReasonCode input = None ∧
    (kind = AttemptKindWork → fi_ReviewOutcome input = None ∧
       ∃ t, fi_TargetIssueStatus input = Some t ∧
         ((t = StatusBlocked ∧ ∃ r, fi_BlockedReason input = Some r ∧ blank r = false) ∨
          (t ≠ StatusBlocked ∧ fi_BlockedReason input = None ∧ fi_ReasonDetails input = None))) ∧
    (kind = AttemptKindReview → fi_TargetIssueStatus input = None ∧
       ∃ o, fi_ReviewOutcome input = Some o ∧
         ((o = ReviewOutcomeBlocked ∧ ∃ r, fi_BlockedReason input = Some r ∧ blank r = false) ∨
          (o ≠ ReviewOutcomeBlocked ∧ fi_BlockedReason input = None ∧ fi_ReasonDetails input = None)))).
Proof.
  intros ([out Hout] & Hk & Hc)%ValidateFinishAttemptForKind_Ok.
  split_and!; [done|by eapply FinishAttemptInput_Validate_shape|]. intros Ho.
  destruct (Hc Ho) as (Hf & Hi & Hkinds).
  assert (Hshape : ∀ s c, blockedReasonShape (s =s c) input = Ok tt →
    (s = c ∧ ∃ r, fi_BlockedReason input = Some r ∧ blank r = false) ∨
    (s ≠ c ∧ fi_BlockedReason input = None ∧ fi_ReasonDetails input = None)).
  { intros s c Hs. apply blockedReasonShape_Ok in Hs. destruct (s =s c) eqn:E.
    - apply eqb_string_true in E. by left.
    - apply eqb_string_false in E. by right. }
  split_and!; [done|done| |]; intros ->;
    destruct Hkinds as [(E & Hn & v & Hv & Hs)|(E & Hn & v & Hv & Hs)]; try discriminate E; eauto.
Qed.

(** A validated claim request is ready for the repository: its issue
    reference parses, its lease is within one minute and one hour (15 minutes
    by default), its resources form a valid reservation request and the
    idempotency key is trimmed; a validated release request names distinct
    canonical identifiers, at most fifty. *)
Theorem attempt_requests_normal `{UnicodeTables, ULID} :
  (∀ input out, ClaimIssueInput_Validate input = Ok out →
     is_ok (ParseIssueIdentifier (cl_IssueID out)) = true ∧
     (∃ s, cl_LeaseSeconds out = Some s ∧ s = default 900%Z (cl_LeaseSeconds input) ∧ (60 <= s <= 3600)%Z) ∧
     (cl_Resources out ≠ [] → is_ok (PrepareReservationRequest (cl_Resources out)) = true) ∧
     ClaimIssueInput_Validate out = Ok out) ∧
  (∀ input out, ReleaseResourcesInput_Validate input = Ok out →
     rl_ReservationIDs out = rl_ReservationIDs input ∧ NoDup (rl_ReservationIDs out) ∧
     (Z.of_nat (length (rl_ReservationIDs out)) <= 50)%Z ∧
     ∀ id, id ∈ rl_ReservationIDs out → ids_ParseStrict id = true).
Proof.
  split.
  - unfold ClaimIssueInput_Validate. intros input out Hv. apply try_Ok in Hv as [[i Hi] Hv].
    apply result_bind_Ok in Hv as (lease & Hl & Hv). apply result_bind_Ok in Hv as (session & Hs & Hv).
    apply try_Ok in Hv as [[rs Hrs] Hv]. apply result_bind_Ok in Hv as (key & Hkey & [= <-]).
    cbn [cl_IssueID cl_LeaseSeconds cl_Resources cl_SessionID cl_IdempotencyKey].
    pose proof Hl as Hl'. apply validateLeaseSeconds_Ok in Hl' as [-> Hrange]. split_and!.
    + by rewrite Hi.
    + by eexists.
    + intros Hne. rewrite (proj2 (Z.ltb_lt _ _)) in Hrs; [by rewrite Hrs|].
      destruct (cl_Resources input); [done|]. cbn. lia.
    + assert (Hlease : validateLeaseSeconds (Some (default DefaultLeaseSeconds (cl_LeaseSeconds input))) =
                Ok (Some (default DefaultLeaseSeconds (cl_LeaseSeconds input))))
        by by apply validateLeaseSeconds_Ok.
      assert (Hsession : copyOptionalSessionID session = Ok session).
      { destruct (cl_SessionID input) as [v|] eqn:E; cbn in Hs; [|by injection Hs as <-].
        destruct (ulid_ParseStrict v) eqn:Ev; [|done]. pose proof Hs as Hs2.
        apply fail_if_Ok in Hs2 as [_ [= <-]]. cbn. by rewrite Ev. }
      rewrite Hi, Hlease. cbn [mbind result_bind]. rewrite Hsession. cbn [mbind result_bind].
      rewrite Hrs. by rewrite (validateIdempotencyKey_idemp _ _ Hkey).
  - unfold ReleaseResourcesInput_Validate. intros input out Hv.
    apply try_Ok in Hv as [_ Hv]. apply try_Ok in Hv as [_ Hv].
    apply result_bind_Ok in Hv as (l & Hl & Hv). apply CopyBounded_Ok in Hl as (_ & Hlen & ->).
    apply try_unit in Hv as [Hc Hv]. apply checkReservationIDs_Ok in Hc as [Hnd Hall].
    apply result_bind_Ok in Hv as (session & _ & Hv). apply result_bind_Ok in Hv as (key & _ & [= <-]).
    cbn. split_and!; [done|done|done|]. intros id Hid. by apply Hall.
Qed.

(** ** Witnesses *)

(** Example parsers: every text is its own compact form and no object; a URL
    is never recognized. *)
#[export] Instance sample_json : JSONCodec := {| json_Compact := Some; json_IsObject := λ _, false |}.
#[export] Instance sample_url : URLParser := {| url_ParseRequestURI := λ _, None |}.

Definition sample_finish : FinishAttemptInput :=
  {| fi_AttemptID := ulid_of "7"; fi_LeaseToken := "token"; fi_SessionID := None;
     fi_Outcome := AttemptOutcomeCompleted; fi_ResultSummary := "done"; fi_NextSteps := ["x"];
     fi_Verification := []; fi_TargetIssueStatus := Some StatusReview; fi_BlockedReason := None;
     fi_ReviewOutcome := None; fi_FailureReasonCode := None; fi_InterruptionReasonCode := None;
     fi_ReasonDetails := None; fi_AcknowledgedChanges := None; fi_Artifacts := [];
     fi_IdempotencyKey := None |}.

Lemma ValidateFinishAttemptForKind_shape_witness :
  ValidateFinishAttemptForKind sample_finish AttemptKindWork = Ok tt ∧ finish_shape sample_finish.
Proof.
  split; [by vm_compute|].
  apply (ValidateFinishAttemptForKind_shape sample_finish AttemptKindWork). by vm_compute.
Defined.

Definition sample_claim : ClaimIssueInput :=
  mkClaim "ISSUE-3" None None [path_resource "file" "a"] (Some " key").
Lemma attempt_requests_normal_witness :
  ∃ out, ClaimIssueInput_Validate sample_claim = Ok out ∧ ClaimIssueInput_Validate out = Ok out.
Proof.
  eexists. split; [by vm_compute|].
  destruct attempt_requests_normal as [Hclaim _].
  apply (Hclaim sample_claim). by vm_compute.
Defined.
