(* ===== verification/AttemptPolicy.v ===== *)
(** * Decision rules of the attempt lifecycle

    [internal/domain/attempt_policy.go]: [EvaluateClaim],
    [FinishTargetStatus], [NextClosedAt], [ClassifyIssueChanges] and
    [BlocksPathExists].

    [BlocksPathExists] is a breadth-first search over a callback; its loop
    carries fuel, and [bfs_spec] shows that the number of nodes of any finite
    neighbor-closed set around the start is enough. *)

From S2P Require Import Prelude GoStrings Errors Validation Samples Issue Relation Session IssueOps.
From S2P Require Import Discussion Resource Attempt.

Section policy.
Context `{UnicodeTables}.

Definition EvaluateClaim (issue : Issue) (unresolvedBlockers : Z) (hasActiveAttempt : bool) : result string :=
  fail_if isSet (i_ArchivedAt issue) with NewError CodeIssueArchived "issue is archived" false [] ;;
  fail_if negb (Type_Executable (i_Type issue))
    with NewError CodeInvalidArgument "issue type is not executable" false
           [mkDetail None "issue_id" "NOT_EXECUTABLE" ""] ;;
  fail_if (0 <? unresolvedBlockers)%Z
    with NewError CodeInvalidArgument "issue has unresolved blockers" false
           [mkDetail None "issue_id" "BLOCKED" ""] ;;
  kind ← (if i_Status issue =s StatusReady then Ok AttemptKindWork
          else if i_Status issue =s StatusReview then Ok AttemptKindReview
          else Err (NewError CodeInvalidArgument "issue is not claimable" false
                      [mkDetail None "issue_id" "NOT_CLAIMABLE" ""]));
  fail_if hasActiveAttempt with NewError CodeActiveAttemptExists "issue has an active work attempt" false [] ;;
  Ok kind.

Definition FinishTargetStatus (kind : string) (input : FinishAttemptInput) (current : string) : result string :=
  if negb (fi_Outcome input =s AttemptOutcomeCompleted) then Ok current
  else if kind =s AttemptKindWork then
    match fi_TargetIssueStatus input with
    | None => Err (NewError CodeInvalidArgument "target_issue_status is required for work completion" false
                     [mkDetail None "target_issue_status" "REQUIRED" ""])
    | Some target => Ok target
    end
  else
    match fi_ReviewOutcome input with
    | None => Err (NewError CodeInvalidArgument "review_outcome is required for review completion" false
                     [mkDetail None "review_outcome" "REQUIRED" ""])
    | Some outcome =>
        if outcome =s ReviewOutcomeApproved then Ok StatusDone
        else if outcome =s ReviewOutcomeChangesRequested then Ok StatusReady
        else if outcome =s ReviewOutcomeBlocked then Ok StatusBlocked
        else Err (invalidEnum "review_outcome" outcome)
    end.
End policy.

Definition NextClosedAt (from to : string) (now : Z) (current : option Z) : option Z :=
  if negb (Status_Terminal from) && Status_Terminal to then Some now
  else if Status_Terminal from && negb (Status_Terminal to) then None
  else current.

Definition changeClassificationRequired : gset string :=
  {[ "description"; "acceptance_criteria"; "status"; "blocked_reason" ]}.
Definition changeClassificationWarning : gset string :=
  {[ "title"; "priority"; "labels"; "parent_id"; "type" ]}.

(** The loop fills two maps used as sets. *)
Definition classifyStep (sets : gset string * gset string) (field : string) : gset string * gset string :=
  let '(warningSet, requiredSet) := sets in
  if bool_decide (field ∈ changeClassificationRequired) then (warningSet, {[ field ]} ∪ requiredSet)
  else if bool_decide (field ∈ changeClassificationWarning) then ({[ field ]} ∪ warningSet, requiredSet)
  else sets.

Definition ClassifyIssueChanges (changedFields : list string) : list string * list string :=
  let '(warningSet, requiredSet) := foldl classifyStep (∅, ∅) changedFields in
  (sort_Strings (map (String.append "ISSUE_CHANGED:") (elements warningSet)),
   sort_Strings (elements requiredSet)).

(** ** Breadth-first search *)

(** The inner loop over one node's neighbors: [None] when [sought] is met. *)
Fixpoint scanNeighbors (sought : string) (nexts : list string) (seen : gset string) (queue : list string) :
    option (gset string * list string) :=
  match nexts with
  | [] => Some (seen, queue)
  | next :: rest =>
      if next =s sought then None
      else if bool_decide (next ∈ seen) then scanNeighbors sought rest seen queue
      else scanNeighbors sought rest ({[ next ]} ∪ seen) (queue ++ [next])
  end.

(** The outer loop; [None] means the fuel ran out. *)
Fixpoint blocksSearch (fuel : nat) (neighbors : string → list string) (sought : string)
    (seen : gset string) (queue : list string) : option bool :=
  match queue with
  | [] => Some false
  | current :: queue =>
      match fuel with
      | O => None
      | S fuel =>
          match scanNeighbors sought (neighbors current) seen queue with
          | None => Some true
          | Some (seen, queue) => blocksSearch fuel neighbors sought seen queue
          end
      end
  end.

Definition BlocksPathExists (fuel : nat) (start sought : string) (neighbors : string → list string) : option bool :=
  blocksSearch fuel neighbors sought {[ start ]} [start].

(** ** Lemmas: the search *)

Section search.
Context (neighbors : string → list string) (start sought : string).

Definition edge (x y : string) : Prop := y ∈ neighbors x.

Lemma scanNeighbors_None nexts seen queue :
  scanNeighbors sought nexts seen queue = None ↔ sought ∈ nexts.
Proof.
  revert seen queue. induction nexts as [|n nexts IH]; intros seen queue; cbn.
  { split; [done|by intros ?%elem_of_nil]. }
  rewrite elem_of_cons. destruct (n =s sought) eqn:E.
  - apply eqb_string_true in E. naive_solver.
  - apply eqb_string_false in E. case_bool_decide; rewrite IH; naive_solver.
Qed.

Lemma scanNeighbors_Some nexts seen queue seen' queue' :
  scanNeighbors sought nexts seen queue = Some (seen', queue') →
  ∃ new, queue' = queue ++ new ∧ seen' = seen ∪ list_to_set new ∧ NoDup new ∧
    (∀ x, x ∈ new → x ∉ seen) ∧ (∀ x, x ∈ new → x ∈ nexts) ∧ (∀ x, x ∈ nexts → x ∈ seen').
Proof.
  revert seen queue. induction nexts as [|n nexts IH]; intros seen queue; cbn [scanNeighbors].
  { intros [= <- <-]. exists []. cbn. rewrite app_nil_r.
    split_and!; [done|set_solver|constructor|set_solver|set_solver|set_solver]. }
  destruct (n =s sought); [done|]. case_bool_decide as Hn.
  - intros (new & -> & -> & ? & ? & ? & ?)%IH. exists new. split_and!; set_solver.
  - intros (new & -> & -> & Hnd & Hns & Hin & Hall)%IH. exists (n :: new).
    rewrite <-app_assoc. split_and!; [done|set_solver| |set_solver|set_solver|set_solver].
    constructor; [|done]. intros Hx. apply (Hns n Hx). set_solver.
Qed.

(** The invariant of the outer loop. *)
Record search_inv (seen : gset string) (queue : list string) : Prop := {
  inv_start : start ∈ seen;
  inv_queue : ∀ x, x ∈ queue → x ∈ seen;
  inv_nodup : NoDup queue;
  inv_reach : ∀ x, x ∈ seen → rtc edge start x;
  inv_done : ∀ x y, x ∈ seen → x ∉ queue → edge x y → y ∈ seen ∧ y ≠ sought;
}.

Lemma search_inv_init : search_inv {[ start ]} [start].
Proof.
  split; [set_solver|set_solver|apply NoDup_singleton| |set_solver].
  intros x ->%elem_of_singleton. done.
Qed.

Lemma search_inv_step seen current queue seen' queue' :
  search_inv seen (current :: queue) →
  scanNeighbors sought (neighbors current) seen queue = Some (seen', queue') →
  search_inv seen' queue'.
Proof.
  intros [Is Iq In Ir Id] Hscan.
  assert (Hns : sought ∉ neighbors current).
  { rewrite <-(scanNeighbors_None _ seen queue). congruence. }
  apply scanNeighbors_Some in Hscan as (new & -> & -> & Hnd & Hfresh & Hnew & Hall).
  apply NoDup_cons in In as [Hc Hq]. split.
  - set_solver.
  - set_solver.
  - apply NoDup_app. split_and!; [done| |done]. intros x Hx Hx'. apply (Hfresh x Hx'), Iq. by right.
  - intros x [Hx|Hx]%elem_of_union; [by apply Ir|].
    apply elem_of_list_to_set in Hx. eapply rtc_r; [by apply Ir, Iq; left|]. by apply Hnew.
  - intros x y Hx Hxq Hxy.
    destruct (decide (x = current)) as [->|Hne].
    { split; [by apply Hall|]. intros ->. by apply Hns. }
    assert (Hxs : x ∈ seen).
    { apply elem_of_union in Hx as [?|Hx%elem_of_list_to_set]; [done|].
      exfalso. apply Hxq, elem_of_app. by right. }
    destruct (Id x y Hxs) as [??]; [|done|set_solver].
    rewrite elem_of_cons. intros [?|?]; [done|]. apply Hxq, elem_of_app. by left.
Qed.

Lemma search_complete seen : search_inv seen [] → ¬ tc edge start sought.
Proof.
  intros [Is _ _ _ Id] Hpath.
  assert (Hgen : ∀ x y, tc edge x y → x ∈ seen → y ∈ seen ∧ y ≠ sought).
  { intros x y Hxy. induction Hxy as [x y Hxy|x y z Hxy _ IH]; intros Hx.
    - apply (Id x y); [done|set_solver|done].
    - apply IH. apply (Id x y); [done|set_solver|done]. }
  by destruct (Hgen _ _ Hpath Is).
Qed.

(** Every run makes progress within a finite closed set. *)
Context (nodes : gset string).
Hypothesis nodes_start : start ∈ nodes.
Hypothesis nodes_closed : ∀ x y, x ∈ nodes → edge x y → y ∈ nodes.

Lemma seen_nodes seen queue : search_inv seen queue → seen ⊆ nodes.
Proof.
  intros [_ _ _ Ir _] x Hx. specialize (Ir x Hx).
  assert (Hgen : ∀ a b, rtc edge a b → a ∈ nodes → b ∈ nodes)
    by (induction 1; eauto). by eapply Hgen.
Qed.

Lemma blocksSearch_spec fuel seen queue :
  search_inv seen queue → size (nodes ∖ seen) + length queue ≤ fuel →
  ∃ b, blocksSearch fuel neighbors sought seen queue = Some b ∧ (b = true ↔ tc edge start sought).
Proof.
  revert seen queue. induction fuel as [|fuel IH]; intros seen queue Hinv Hfuel.
  - destruct queue; cbn in *; [|lia]. exists false. split; [done|].
    pose proof (search_complete _ Hinv). naive_solver.
  - destruct queue as [|current queue]; cbn.
    { exists false. split; [done|]. pose proof (search_complete _ Hinv). naive_solver. }
    destruct (scanNeighbors sought (neighbors current) seen queue) as [[seen' queue']|] eqn:Hscan.
    + pose proof (search_inv_step _ _ _ _ _ Hinv Hscan) as Hinv'.
      apply IH; [done|].
      apply scanNeighbors_Some in Hscan as (new & -> & -> & Hnd & Hfresh & Hnew & Hall).
      assert (Hsub : list_to_set new ⊆ nodes ∖ seen).
      { intros x Hx. pose proof (seen_nodes _ _ Hinv') as Hsn. set_solver. }
      assert (Heq : nodes ∖ (seen ∪ list_to_set new) = (nodes ∖ seen) ∖ list_to_set new)
        by set_solver.
      rewrite Heq, size_difference by done.
      assert (Hsize : size (list_to_set new : gset string) = length new) by by apply size_list_to_set.
      pose proof (subseteq_size _ _ Hsub). rewrite Hsize in *.
      rewrite length_app. cbn in Hfuel. lia.
    + exists true. split; [done|]. split; [|done]. intros _.
      apply scanNeighbors_None in Hscan.
      eapply tc_rtc_l; [|by apply tc_once]. destruct Hinv as [_ Iq _ Ir _]. apply Ir, Iq. by left.
Qed.

Lemma bfs_spec fuel :
  size nodes ≤ fuel →
  ∃ b, BlocksPathExists fuel start sought neighbors = Some b ∧ (b = true ↔ tc edge start sought).
Proof.
  intros Hfuel. apply blocksSearch_spec; [apply search_inv_init|].
  rewrite size_difference, size_singleton by set_solver. cbn.
  assert (size ({[ start ]} : gset string) ≤ size nodes) by (apply subseteq_size; set_solver).
  rewrite size_singleton in *. lia.
Qed.
End search.

(** ** Lemmas: classification *)

Lemma foldl_classify changedFields w r :
  foldl classifyStep (w, r) changedFields =
  (w ∪ (list_to_set (filter (λ f, f ∈ changeClassificationWarning) changedFields)),
   r ∪ (list_to_set (filter (λ f, f ∈ changeClassificationRequired) changedFields))).
Proof.
  assert (Hdis : changeClassificationRequired ## changeClassificationWarning)
    by (apply (bool_decide_unpack _); by vm_compute).
  revert w r. induction changedFields as [|f fs IH]; intros w r.
  { cbn. f_equal; set_solver. }
  cbn [foldl]. unfold classifyStep at 2. case_bool_decide as Hr.
  - rewrite IH, !filter_cons. destruct (decide (f ∈ changeClassificationWarning)); [set_solver|].
    destruct (decide (f ∈ changeClassificationRequired)); [|done]. f_equal. cbn. set_solver.
  - case_bool_decide as Hw; rewrite IH, !filter_cons;
      (destruct (decide (f ∈ changeClassificationRequired)); [done|]);
      (destruct (decide (f ∈ changeClassificationWarning)); [|done]).
    + f_equal. cbn. set_solver.
    + done.
Qed.

(** * Properties *)

(** C37. The blocks-cycle search is correct and terminates: over any finite set
    of nodes that contains the start and is closed under the neighbor
    function, as many rounds as the set has nodes give an answer, which is
    whether a path of at least one edge leads from start to sought. *)
Theorem BlocksPathExists_correct start sought neighbors (nodes : gset string) fuel :
  start ∈ nodes → (∀ x y, x ∈ nodes → y ∈ neighbors x → y ∈ nodes) → size nodes ≤ fuel →
  ∃ b, BlocksPathExists fuel start sought neighbors = Some b ∧
       (b = true ↔ tc (λ x y, y ∈ neighbors x) start sought).
Proof. intros. by eapply bfs_spec. Qed.

(** An issue can be claimed exactly when it is not archived, executable,
    free of unresolved blockers, without active attempt and in ready (for a
    work attempt) or review (for a review attempt); a refused claim names the
    first failing condition. *)
Theorem EvaluateClaim_decides issue blockers active :
  (∀ kind, EvaluateClaim issue blockers active = Ok kind ↔
     i_ArchivedAt issue = None ∧ Type_Executable (i_Type issue) = true ∧ (blockers <= 0)%Z ∧
     active = false ∧
     ((i_Status issue = StatusReady ∧ kind = AttemptKindWork) ∨
      (i_Status issue = StatusReview ∧ kind = AttemptKindReview))) ∧
  (∀ e, EvaluateClaim issue blockers active = Err e →
     (e_Code e = CodeIssueArchived ∧ is_Some (i_ArchivedAt issue)) ∨
     (e_Code e = CodeActiveAttemptExists ∧ active = true ∧ (blockers <= 0)%Z ∧
        (i_Status issue = StatusReady ∨ i_Status issue = StatusReview)) ∨
     (e_Code e = CodeInvalidArgument ∧
        (Type_Executable (i_Type issue) = false ∨ (0 < blockers)%Z ∨
         (i_Status issue ≠ StatusReady ∧ i_Status issue ≠ StatusReview)))).
Proof.
  unfold EvaluateClaim. split.
  - intros kind. rewrite !fail_if_Ok, isSet_false, negb_false_iff, Z.ltb_ge, result_bind_Ok.
    setoid_rewrite fail_if_Ok.
    destruct (i_Status issue =s StatusReady) eqn:E1.
    { apply eqb_string_true in E1. rewrite E1. naive_solver. }
    apply eqb_string_false in E1. destruct (i_Status issue =s StatusReview) eqn:E2.
    { apply eqb_string_true in E2. rewrite E2. naive_solver. }
    apply eqb_string_false in E2. naive_solver.
  - intros e. destruct (isSet (i_ArchivedAt issue)) eqn:Ha.
    { intros [= <-]. left. by apply isSet_true in Ha. }
    destruct (Type_Executable (i_Type issue)) eqn:Ht; cbn; [|intros [= <-]; auto].
    destruct (0 <? blockers)%Z eqn:Hb; [bool_simpl; intros [= <-]; auto 6|]. bool_simpl.
    destruct (i_Status issue =s StatusReady) eqn:E1.
    { apply eqb_string_true in E1. cbn. destruct active; [|done]. intros [= <-]. auto 8. }
    destruct (i_Status issue =s StatusReview) eqn:E2.
    { apply eqb_string_true in E2. cbn. destruct active; [|done]. intros [= <-]. auto 8. }
    apply eqb_string_false in E1, E2. intros [= <-]. auto 8.
Qed.

(** Finishing never gets stuck: a request validated for the attempt's kind
    has a target status, the issue's own when it is not completed; and while
    the issue is in the status the attempt started from (ready for work,
    review for a review), the transition to that target is legal. *)
Theorem FinishTargetStatus_legal `{UnicodeTables, ULID, JSONCodec, URLParser} kind input current :
  ValidateFinishAttemptForKind input kind = Ok tt →
  ∃ target, FinishTargetStatus kind input current = Ok target ∧
    (fi_Outcome input ≠ AttemptOutcomeCompleted → target = current) ∧
    (fi_Outcome input = AttemptOutcomeCompleted →
     target ∈ [StatusReady; StatusBlocked; StatusReview; StatusDone] ∧
     (current = (if kind =s AttemptKindWork then StatusReady else StatusReview) →
      is_ok (ApplyFinishTransition current target (default "" (fi_BlockedReason input))) = true)).
Proof.
  intros ([out Hval] & Hk & Hc)%ValidateFinishAttemptForKind_Ok. unfold FinishTargetStatus.
  pose proof (FinishAttemptInput_Validate_shape _ _ Hval) as (_ & Htarget & Houtcome & _).
  destruct (fi_Outcome input =s AttemptOutcomeCompleted) eqn:Ho; cbn [negb].
  2:{ apply eqb_string_false in Ho. exists current. by split_and!. }
  apply eqb_string_true in Ho. destruct (Hc Ho) as (_ & _ & [(-> & _ & t & Ht & Hb)|(-> & _ & o & Hro & Hb)]).
  - rewrite eqb_string_refl, Ht. exists t. split_and!; [done|done|]. intros _.
    pose proof (Htarget t Ht) as Hft. apply finishTargetValid_spec in Hft.
    apply blockedReasonShape_Ok in Hb. destruct_or! Hft; subst t.
    + split; [by repeat constructor|]. by intros ->.
    + destruct Hb as (r & -> & Hr). split; [right; left|]. intros ->. cbn -[blank]. by rewrite Hr.
    + split; [right; right; left|]. by intros ->.
    + split; [right; right; right; left|]. by intros ->.
  - cbn [AttemptKindReview AttemptKindWork]. change (AttemptKindReview =s AttemptKindWork) with false.
    rewrite Hro. pose proof (Houtcome o Hro) as Hov. unfold ReviewOutcome_Valid in Hov.
    apply blockedReasonShape_Ok in Hb.
    destruct (o =s ReviewOutcomeApproved); [|destruct (o =s ReviewOutcomeChangesRequested);
      [|destruct (o =s ReviewOutcomeBlocked) eqn:E; [|done]]]; eexists; (split_and!; [done|done|]); intros _.
    + split; [right; right; right; left|]. by intros ->.
    + split; [left|]. by intros ->.
    + destruct Hb as (r & -> & Hr). split; [right; left|]. intros ->. cbn -[blank]. by rewrite Hr.
Qed.

(** [closed_at] says when the issue was closed: if it was set exactly in
    terminal statuses it still is after any status change, it becomes the
    current time on closing and keeps its value otherwise. *)
Theorem NextClosedAt_invariant from to now closed :
  (Status_Terminal from = true ↔ is_Some closed) →
  (Status_Terminal to = true ↔ is_Some (NextClosedAt from to now closed)) ∧
  (Status_Terminal from = false → Status_Terminal to = true → NextClosedAt from to now closed = Some now) ∧
  (Status_Terminal from = true → Status_Terminal to = true → NextClosedAt from to now closed = closed).
Proof.
  unfold NextClosedAt. destruct (Status_Terminal from), (Status_Terminal to); cbn; naive_solver.
Qed.

(** Change classification: both lists are sorted and without repetition and
    depend only on the set of changed fields; a field must be acknowledged
    exactly when it changes what the work is about, and is warned about when
    it is one of the other tracked fields. *)
Theorem ClassifyIssueChanges_spec changedFields warnings required :
  ClassifyIssueChanges changedFields = (warnings, required) →
  StronglySorted (not_less str_less) warnings ∧ StronglySorted (not_less str_less) required ∧
  NoDup warnings ∧ NoDup required ∧
  (∀ f, f ∈ required ↔ f ∈ changedFields ∧
     f ∈ ["description"; "acceptance_criteria"; "status"; "blocked_reason"]) ∧
  (∀ w, w ∈ warnings ↔ ∃ f, w = "ISSUE_CHANGED:" +:+ f ∧ f ∈ changedFields ∧
     f ∈ ["title"; "priority"; "labels"; "parent_id"; "type"]).
Proof.
  unfold ClassifyIssueChanges. rewrite foldl_classify. intros [= <- <-].
  split_and!; try apply sort_Strings_sorted.
  - rewrite sort_Strings_Permutation. apply (NoDup_fmap_2 (String.append "ISSUE_CHANGED:")), NoDup_elements.
  - rewrite sort_Strings_Permutation. apply NoDup_elements.
  - intros f. rewrite sort_Strings_Permutation, elem_of_elements, elem_of_union, elem_of_list_to_set,
      list_elem_of_filter.
    unfold changeClassificationRequired. set_solver.
  - intros w. rewrite sort_Strings_Permutation.
    change (map (String.append "ISSUE_CHANGED:")) with (fmap (M := list) (String.append "ISSUE_CHANGED:")).
    rewrite list_elem_of_fmap. setoid_rewrite elem_of_elements. setoid_rewrite elem_of_union.
    setoid_rewrite elem_of_list_to_set. setoid_rewrite list_elem_of_filter.
    unfold changeClassificationWarning. set_solver.
Qed.

(** ** Witnesses *)

(** a -> b -> c -> a and d alone. *)
Definition sample_neighbors (x : string) : list string :=
  if x =s "a" then ["b"] else if x =s "b" then ["c"; "b"] else if x =s "c" then ["a"] else [].

Lemma BlocksPathExists_correct_witness :
  BlocksPathExists 3 "a" "a" sample_neighbors = Some true ∧
  ∃ b, BlocksPathExists 4 "a" "d" sample_neighbors = Some b ∧
       (b = true ↔ tc (λ x y, y ∈ sample_neighbors x) "a" "d").
Proof.
  split; [by vm_compute|].
  apply (BlocksPathExists_correct "a" "d" sample_neighbors {[ "a"; "b"; "c"; "d" ]} 4).
  - set_solver.
  - intros x y Hx. repeat (apply elem_of_union in Hx as [Hx|Hx]);
      apply elem_of_singleton in Hx as ->; cbn; set_solver.
  - by vm_compute.
Defined.

Lemma EvaluateClaim_decides_witness :
  EvaluateClaim sample_issue 0 false = Ok AttemptKindWork ∧
  EvaluateClaim sample_issue 2 false ≠ Ok AttemptKindWork.
Proof.
  split; [apply (EvaluateClaim_decides sample_issue 0 false); split_and!; [done|done|done|done|by left]|].
  intros Hk. apply (EvaluateClaim_decides sample_issue 2 false) in Hk. lia.
Defined.

Lemma FinishTargetStatus_legal_witness :
  ∃ target, FinishTargetStatus AttemptKindWork sample_finish StatusReady = Ok target ∧
    (fi_Outcome sample_finish = AttemptOutcomeCompleted →
     is_ok (ApplyFinishTransition StatusReady target "") = true).
Proof.
  destruct (FinishTargetStatus_legal AttemptKindWork sample_finish StatusReady) as (t & Ht & _ & Hc);
    [by vm_compute|].
  exists t. split; [done|]. intros Ho. by apply (Hc Ho).
Defined.

Lemma NextClosedAt_invariant_witness :
  NextClosedAt StatusReady StatusDone 5 None = Some 5%Z.
Proof. apply (NextClosedAt_invariant StatusReady StatusDone 5 None); [|done|done]. split; [done|by intros []]. Defined.

Lemma ClassifyIssueChanges_spec_witness :
  ClassifyIssueChanges ["title"; "status"; "title"; "version"] = (["ISSUE_CHANGED:title"], ["status"]) ∧
  NoDup ["ISSUE_CHANGED:title"].
Proof.
  split; [by vm_compute|].
  apply (ClassifyIssueChanges_spec ["title"; "status"; "title"; "version"] ["ISSUE_CHANGED:title"] ["status"]).
  by vm_compute.
Defined.
