(* ===== verification/Gates.v ===== *)
(** * Workflow policies and gates

    [internal/domain/workflow_policy.go] (selectors, requirements, matching),
    [workflow_gate.go] (gate evaluation, snapshots) and [gate_evidence.go]
    (evidence submissions).

    Go maps used as sets are [gset]s.  The fingerprint of a snapshot, the
    SHA-256 of its JSON encoding, is the class [SnapshotHash]. *)

From S2P Require Import Prelude GoStrings Errors Validation Samples Issue Relation Session IssueOps.
From S2P Require Import Discussion Resource Attempt.

(** ** Policies *)

Definition MaxPolicyRequirements : Z := 50.
Definition MaxPolicyLabelsAll : Z := 20.
Definition MaxPolicyKeyRunes : Z := 128.

Definition PolicyStatusActive := "active".
Definition PolicyStatusArchived := "archived".
Definition PolicyStatus_Valid (status : string) : bool :=
  enumValid status [PolicyStatusActive; PolicyStatusArchived].

Definition RequirementKindIssueFieldNonblank := "issue_field_nonblank".
Definition RequirementKindAttemptEvidence := "attempt_evidence".
Definition RequirementKindReviewApproval := "review_approval".
Definition RequirementKind_Valid (kind : string) : bool :=
  enumValid kind [RequirementKindIssueFieldNonblank; RequirementKindAttemptEvidence;
                  RequirementKindReviewApproval].

Definition EnforcementPointClaimWork := "claim_work".
Definition EnforcementPointCompleteWorkToReview := "complete_work_to_review".
Definition EnforcementPointCompleteWorkToDone := "complete_work_to_done".
Definition EnforcementPointApproveReview := "approve_review".
Definition EnforcementPoint_Valid (point : string) : bool :=
  enumValid point [EnforcementPointClaimWork; EnforcementPointCompleteWorkToReview;
                   EnforcementPointCompleteWorkToDone; EnforcementPointApproveReview].

Definition appliesAt (kind point : string) : bool :=
  if kind =s RequirementKindIssueFieldNonblank then
    (point =s EnforcementPointClaimWork) || (point =s EnforcementPointCompleteWorkToReview) ||
    (point =s EnforcementPointCompleteWorkToDone)
  else if kind =s RequirementKindAttemptEvidence then
    (point =s EnforcementPointCompleteWorkToReview) || (point =s EnforcementPointCompleteWorkToDone)
  else if kind =s RequirementKindReviewApproval then
    (point =s EnforcementPointCompleteWorkToDone) || (point =s EnforcementPointApproveReview)
  else false.

Record PolicySelector := mkSelector { ps_IssueTypes : list string; ps_LabelsAll : list string }.

Definition foldLabel (label : string) : string := asciiLower (TrimSpace label).

Definition Matches (selector : PolicySelector) (issueType : string) (issueLabels : list string) : bool :=
  if issueType =s TypeEpic then false
  else if (0 <? Z.of_nat (length (ps_IssueTypes selector)))%Z &&
          negb (existsb (String.eqb issueType) (ps_IssueTypes selector)) then false
  else if (Z.of_nat (length (ps_LabelsAll selector)) =? 0)%Z then true
  else
    let folded : gset string := list_to_set (map foldLabel issueLabels) in
    forallb (λ required, bool_decide (foldLabel required ∈ folded)) (ps_LabelsAll selector).

Definition executableTypes : list string := [TypeTask; TypeBug].

Fixpoint checkSelectorTypes (seen : gset string) (types : list string) : result unit :=
  match types with
  | [] => Ok tt
  | issueType :: rest =>
      fail_if (issueType =s TypeEpic) || negb (Type_Valid issueType)
        with validationError "selector.issue_types" "UNSUPPORTED_TYPE" "must be task or bug, never epic" ;;
      fail_if bool_decide (issueType ∈ seen)
        with validationError "selector.issue_types" "DUPLICATE" "must not contain duplicate values" ;;
      checkSelectorTypes ({[ issueType ]} ∪ seen) rest
  end.

Fixpoint collectSelectorLabels (seen : gset string) (names : list string) : result (list string) :=
  match names with
  | [] => Ok []
  | name :: rest =>
      '(display, folded) ← NormalizeLabelName name;
      fail_if bool_decide (folded ∈ seen)
        with validationError "selector.labels_all" "DUPLICATE" "must not contain duplicate names" ;;
      labels ← collectSelectorLabels ({[ folded ]} ∪ seen) rest;
      Ok (display :: labels)
  end.

Definition PolicySelectorInput_Validate (input : PolicySelector) : result PolicySelector :=
  types ← CopyBounded "selector.issue_types" (ps_IssueTypes input) (Z.of_nat (length executableTypes));
  try checkSelectorTypes ∅ types ;;
  rawLabels ← CopyBounded "selector.labels_all" (ps_LabelsAll input) MaxPolicyLabelsAll;
  labels ← collectSelectorLabels ∅ rawLabels;
  Ok (mkSelector types (sort_Strings labels)).

Record PolicyRequirementInput := mkRequirementInput {
  qi_Key : string;
  qi_Kind : string;
  qi_Field : string;
  qi_EvidenceKey : string;
  qi_Purpose : string;
  qi_AllowNotApplicable : bool;
}.

Record PolicyRequirement := mkRequirement {
  q_PolicyID : string;
  q_Key : string;
  q_Kind : string;
  q_Field : string;
  q_EvidenceKey : string;
  q_Purpose : string;
  q_AllowNotApplicable : bool;
}.
#[export] Instance PolicyRequirement_eq_dec : EqDecision PolicyRequirement.
Proof. solve_decision. Defined.

Definition PolicyRequirementInput_validate `{UnicodeTables} (input : PolicyRequirementInput) :
    result PolicyRequirement :=
  try ValidateText "key" (qi_Key input) MaxPolicyKeyRunes ;;
  let key := TrimSpace (qi_Key input) in
  fail_if key =s "" with validationError "key" "REQUIRED" "must not be blank" ;;
  let kind := qi_Kind input in
  fail_if negb (RequirementKind_Valid kind) with invalidEnum "kind" kind ;;
  if kind =s RequirementKindIssueFieldNonblank then
    fail_if negb (qi_Field input =s "acceptance_criteria")
      with validationError "field" "UNSUPPORTED_FIELD" "only 'acceptance_criteria' is supported" ;;
    fail_if negb (qi_EvidenceKey input =s "") || negb (qi_Purpose input =s "")
      with validationError "kind" "UNEXPECTED_FIELD" "issue_field_nonblank must not set evidence_key or purpose" ;;
    fail_if qi_AllowNotApplicable input
      with validationError "kind" "UNEXPECTED_FIELD" "issue_field_nonblank must not set allow_not_applicable" ;;
    Ok (mkRequirement "" key kind (qi_Field input) "" "" false)
  else if kind =s RequirementKindAttemptEvidence then
    fail_if negb (qi_Field input =s "") || negb (qi_Purpose input =s "")
      with validationError "kind" "UNEXPECTED_FIELD" "attempt_evidence must not set field or purpose" ;;
    try ValidateText "evidence_key" (qi_EvidenceKey input) MaxPolicyKeyRunes ;;
    let evidenceKey := TrimSpace (qi_EvidenceKey input) in
    fail_if evidenceKey =s "" with validationError "evidence_key" "REQUIRED" "must not be blank" ;;
    Ok (mkRequirement "" key kind "" evidenceKey "" (qi_AllowNotApplicable input))
  else if kind =s RequirementKindReviewApproval then
    fail_if negb (qi_Field input =s "") || negb (qi_EvidenceKey input =s "")
      with validationError "kind" "UNEXPECTED_FIELD" "review_approval must not set field or evidence_key" ;;
    fail_if qi_AllowNotApplicable input
      with validationError "kind" "UNEXPECTED_FIELD" "review_approval must not set allow_not_applicable" ;;
    try ValidateText "purpose" (qi_Purpose input) MaxPolicyKeyRunes ;;
    let purpose := TrimSpace (qi_Purpose input) in
    fail_if purpose =s "" with validationError "purpose" "REQUIRED" "must not be blank" ;;
    Ok (mkRequirement "" key kind "" "" purpose false)
  else Ok (mkRequirement "" key kind "" "" "" false).

Definition requirementInput (r : PolicyRequirement) : PolicyRequirementInput :=
  mkRequirementInput (q_Key r) (q_Kind r) (q_Field r) (q_EvidenceKey r) (q_Purpose r)
    (q_AllowNotApplicable r).

Record WorkflowPolicyInput := mkPolicyInput {
  wi_Selector : PolicySelector;
  wi_Requirements : list PolicyRequirementInput;
}.

Fixpoint collectRequirements `{UnicodeTables} (seenKeys : gset string)
    (requirements : list PolicyRequirementInput) : result (list PolicyRequirementInput) :=
  match requirements with
  | [] => Ok []
  | requirement :: rest =>
      normalized ← PolicyRequirementInput_validate requirement;
      fail_if bool_decide (q_Key normalized ∈ seenKeys)
        with validationError "requirements" "DUPLICATE_KEY" "must not contain duplicate keys" ;;
      validated ← collectRequirements ({[ q_Key normalized ]} ∪ seenKeys) rest;
      Ok (requirementInput normalized :: validated)
  end.

Definition WorkflowPolicyInput_Validate `{UnicodeTables} (input : WorkflowPolicyInput) :
    result WorkflowPolicyInput :=
  selector ← PolicySelectorInput_Validate (wi_Selector input);
  requirements ← CopyBounded "requirements" (wi_Requirements input) MaxPolicyRequirements;
  validated ← collectRequirements ∅ requirements;
  Ok (mkPolicyInput selector validated).

Record WorkflowPolicy := mkPolicy {
  wp_ID : string;
  wp_Selector : PolicySelector;
  wp_Status : string;
  wp_Version : Z;
  wp_Requirements : list PolicyRequirement;
  wp_CreatedAt : Z;
  wp_UpdatedAt : Z;
}.

(** The comparison function of the sort, as a strict order. *)
Definition requirementLess (a b : PolicyRequirement) : bool :=
  if negb (q_PolicyID a =s q_PolicyID b) then str_less (q_PolicyID a) (q_PolicyID b)
  else if negb (q_Key a =s q_Key b) then str_less (q_Key a) (q_Key b)
  else false.

Definition sameRequirement (a b : PolicyRequirement) : bool :=
  (q_PolicyID a =s q_PolicyID b) && (q_Key a =s q_Key b).

(** The deduplication loop compares with the previous element of [matched]. *)
Fixpoint dedupAfter (previous : PolicyRequirement) (matched : list PolicyRequirement) :
    list PolicyRequirement :=
  match matched with
  | [] => []
  | requirement :: rest =>
      if sameRequirement requirement previous then dedupAfter requirement rest
      else requirement :: dedupAfter requirement rest
  end.
Definition dedupRequirements (matched : list PolicyRequirement) : list PolicyRequirement :=
  match matched with
  | [] => []
  | requirement :: rest => requirement :: dedupAfter requirement rest
  end.

Definition contributes (issueType : string) (issueLabels : list string) (policy : WorkflowPolicy) : bool :=
  (wp_Status policy =s PolicyStatusActive) && Matches (wp_Selector policy) issueType issueLabels.

Definition MatchWorkflowPolicies (policies : list WorkflowPolicy) (issueType : string)
    (issueLabels : list string) : list PolicyRequirement :=
  let matched :=
    concat (map wp_Requirements (List.filter (contributes issueType issueLabels) policies)) in
  dedupRequirements (stable_sort requirementLess matched).

(** ** Gates *)

Record GateEvidence := mkEvidence {
  ge_AcceptanceCriteriaBlank : bool;
  ge_AttemptEvidenceKeys : gset string;
  ge_ReviewApprovalPurposes : gset string;
}.

Record UnmetRequirement := mkUnmet {
  um_PolicyID : string;
  um_RequirementKey : string;
  um_EnforcementPoint : string;
  um_Reason : string;
}.

Record GateEvaluation := mkEvaluation {
  gv_Point : string;
  gv_Satisfied : list PolicyRequirement;
  gv_Unmet : list UnmetRequirement;
}.

Definition Passed (evaluation : GateEvaluation) : bool :=
  (Z.of_nat (length (gv_Unmet evaluation)) =? 0)%Z.

Definition isSatisfied (requirement : PolicyRequirement) (evidence : GateEvidence) : bool * string :=
  let kind := q_Kind requirement in
  if kind =s RequirementKindIssueFieldNonblank then
    if ge_AcceptanceCriteriaBlank evidence
    then (false, "issue field '" +:+ q_Field requirement +:+ "' is blank") else (true, "")
  else if kind =s RequirementKindAttemptEvidence then
    if negb (bool_decide (q_EvidenceKey requirement ∈ ge_AttemptEvidenceKeys evidence))
    then (false, "no attempt_evidence recorded for key '" +:+ q_EvidenceKey requirement +:+ "'")
    else (true, "")
  else if kind =s RequirementKindReviewApproval then
    if negb (bool_decide (q_Purpose requirement ∈ ge_ReviewApprovalPurposes evidence))
    then (false, "no review_approval recorded for purpose '" +:+ q_Purpose requirement +:+ "'")
    else (true, "")
  else (false, "unrecognized requirement kind").

Fixpoint evaluateRequirements `{UnicodeTables} (point : string) (requirements : list PolicyRequirement)
    (evidence : GateEvidence) (acc : GateEvaluation) : result GateEvaluation :=
  match requirements with
  | [] => Ok acc
  | requirement :: rest =>
      fail_if negb (RequirementKind_Valid (q_Kind requirement)) with invalidEnum "kind" (q_Kind requirement) ;;
      if negb (appliesAt (q_Kind requirement) point) then evaluateRequirements point rest evidence acc
      else
        let '(satisfied, reason) := isSatisfied requirement evidence in
        if satisfied then
          evaluateRequirements point rest evidence
            (mkEvaluation (gv_Point acc) (gv_Satisfied acc ++ [requirement]) (gv_Unmet acc))
        else
          evaluateRequirements point rest evidence
            (mkEvaluation (gv_Point acc) (gv_Satisfied acc)
               (gv_Unmet acc ++ [mkUnmet (q_PolicyID requirement) (q_Key requirement) point reason]))
  end.

Definition EvaluateGate `{UnicodeTables} (point : string) (requirements : list PolicyRequirement)
    (evidence : GateEvidence) : result GateEvaluation :=
  fail_if negb (EnforcementPoint_Valid point) with invalidEnum "enforcement_point" point ;;
  evaluateRequirements point requirements evidence (mkEvaluation point [] []).

(** ** Snapshots *)

Record SourcePolicyRef := mkSourceRef { sp_PolicyID : string; sp_Version : Z }.
#[export] Instance SourcePolicyRef_eq_dec : EqDecision SourcePolicyRef.
Proof. solve_decision. Defined.

Record GateSnapshot := mkSnapshot {
  sn_Requirements : list PolicyRequirement;
  sn_SourcePolicies : list SourcePolicyRef;
  sn_Fingerprint : string;
  sn_IssueVersion : Z;
  sn_CreatedAt : Z;
}.

Class SnapshotHash := {
  snapshot_fingerprint : list PolicyRequirement → list SourcePolicyRef → Z → string
}.

Definition sourceLess (a b : SourcePolicyRef) : bool :=
  if negb (sp_PolicyID a =s sp_PolicyID b) then str_less (sp_PolicyID a) (sp_PolicyID b) else false.

Definition NewGateSnapshot `{SnapshotHash} (requirements : list PolicyRequirement)
    (sourcePolicies : list SourcePolicyRef) (issueVersion now : Z) : GateSnapshot :=
  let orderedSources := stable_sort sourceLess sourcePolicies in
  mkSnapshot requirements orderedSources
    (snapshot_fingerprint requirements orderedSources issueVersion) issueVersion now.

(** ** Evidence submissions *)

Definition MaxGateEvidenceArtifactIDs : Z := 20.
Definition MaxGateEvidenceKeyRunes : Z := MaxPolicyKeyRunes.
Definition MaxGateEvidenceSummaryRunes : Z := 2000.
Definition MaxGateEvidenceDetailsRunes : Z := 50000.

Definition EvidenceResultSatisfied := "satisfied".
Definition EvidenceResultNotApplicable := "not_applicable".
Definition EvidenceResult_Valid (r : string) : bool :=
  enumValid r [EvidenceResultSatisfied; EvidenceResultNotApplicable].

(** One current record per attempt and key. *)
Record AttemptEvidence := mkAttemptEvidence {
  ev_ID : string;
  ev_AttemptID : string;
  ev_IssueID : string;
  ev_Key : string;
  ev_Result : string;
  ev_Summary : string;
  ev_Details : string;
  ev_ArtifactIDs : list string;
  ev_Version : Z;
  ev_CreatedAt : Z;
  ev_UpdatedAt : Z;
}.

Record SubmitGateEvidenceInput := mkSubmit {
  se_AttemptID : string;
  se_LeaseToken : string;
  se_Key : string;
  se_Result : string;
  se_Summary : string;
  se_Details : string;
  se_ArtifactIDs : list string;
  se_IdempotencyKey : option string;
}.

Fixpoint checkEvidenceArtifacts `{ULID} (index : Z) (seen : gset string) (artifactIDs : list string) :
    result unit :=
  match artifactIDs with
  | [] => Ok tt
  | artifactID :: rest =>
      fail_if negb (ids_ParseStrict artifactID)
        with NewError CodeInvalidArgument "artifact_ids must be canonical ULIDs" false
               [mkDetail (Some index) "artifact_ids" "INVALID_ULID" ""] ;;
      fail_if bool_decide (artifactID ∈ seen)
        with NewError CodeInvalidArgument "artifact_ids must not contain duplicates" false
               [mkDetail (Some index) "artifact_ids" "DUPLICATE" ""] ;;
      checkEvidenceArtifacts (index + 1) ({[ artifactID ]} ∪ seen) rest
  end.

Definition SubmitGateEvidenceInput_Validate `{UnicodeTables, ULID} (input : SubmitGateEvidenceInput) :
    result SubmitGateEvidenceInput :=
  fail_if negb (ids_ParseStrict (se_AttemptID input))
    with validationError "attempt_id" "INVALID_ULID" "must be a canonical ULID" ;;
  try ValidateText "lease_token" (se_LeaseToken input) MaxLeaseTokenRunes ;;
  fail_if blank (se_LeaseToken input) with validationError "lease_token" "REQUIRED" "is required" ;;
  try ValidateText "key" (se_Key input) MaxGateEvidenceKeyRunes ;;
  let key := TrimSpace (se_Key input) in
  fail_if key =s "" with validationError "key" "REQUIRED" "must not be blank" ;;
  fail_if negb (EvidenceResult_Valid (se_Result input)) with invalidEnum "result" (se_Result input) ;;
  try ValidateText "summary" (se_Summary input) MaxGateEvidenceSummaryRunes ;;
  let summary := TrimSpace (se_Summary input) in
  fail_if summary =s "" with validationError "summary" "REQUIRED" "must not be blank" ;;
  try ValidateText "details" (se_Details input) MaxGateEvidenceDetailsRunes ;;
  artifactIDs ← CopyBounded "artifact_ids" (se_ArtifactIDs input) MaxGateEvidenceArtifactIDs;
  try checkEvidenceArtifacts 0 ∅ artifactIDs ;;
  idempotencyKey ← match se_IdempotencyKey input with
                   | None => Ok None
                   | Some k =>
                       try ValidateText "idempotency_key" k MaxIdempotencyKeyRunes ;;
                       let trimmed := TrimSpace k in
                       fail_if trimmed =s ""
                         with validationError "idempotency_key" "REQUIRED" "must not be blank when present" ;;
                       Ok (Some trimmed)
                   end;
  Ok (mkSubmit (se_AttemptID input) (se_LeaseToken input) key (se_Result input) summary
        (se_Details input) artifactIDs idempotencyKey).

(** * Lemmas *)

(** ** Selectors *)

Lemma Matches_spec selector issueType labels :
  Matches selector issueType labels = true ↔
  issueType ≠ TypeEpic ∧
  (ps_IssueTypes selector = [] ∨ issueType ∈ ps_IssueTypes selector) ∧
  (∀ required, required ∈ ps_LabelsAll selector → ∃ l, l ∈ labels ∧ foldLabel l = foldLabel required).
Proof.
  unfold Matches. destruct (issueType =s TypeEpic) eqn:He.
  { apply eqb_string_true in He. split; [done|]. by intros [? _]. }
  apply eqb_string_false in He.
  assert (Htypes : (0 <? Z.of_nat (length (ps_IssueTypes selector)))%Z &&
      negb (existsb (String.eqb issueType) (ps_IssueTypes selector)) = false ↔
      ps_IssueTypes selector = [] ∨ issueType ∈ ps_IssueTypes selector).
  { change (existsb (String.eqb issueType) (ps_IssueTypes selector))
      with (enumValid issueType (ps_IssueTypes selector)).
    rewrite andb_false_iff, negb_false_iff, enumValid_spec, Z.ltb_ge.
    destruct (ps_IssueTypes selector); cbn; [naive_solver lia|]. split; intros [|]; auto; [lia|done]. }
  destruct (_ && _); [split; [done|intros (_ & Ht & _); by apply Htypes in Ht]|].
  assert (Ht : ps_IssueTypes selector = [] ∨ issueType ∈ ps_IssueTypes selector) by by apply Htypes.
  destruct (ps_LabelsAll selector) as [|r rs] eqn:Hl.
  { cbn. split; [|done]. intros _. split_and!; [done|done|by intros ? ?%elem_of_nil]. }
  change (Z.of_nat (length (r :: rs)) =? 0)%Z with false. rewrite forallb_forall.
  assert (Hin : ∀ required, bool_decide (foldLabel required ∈ (list_to_set (map foldLabel labels) : gset string)) = true ↔
      ∃ l, l ∈ labels ∧ foldLabel l = foldLabel required).
  { intros required. rewrite bool_decide_eq_true, elem_of_list_to_set.
    change (map foldLabel) with (fmap (M := list) foldLabel). rewrite list_elem_of_fmap. naive_solver. }
  split.
  - intros H. split_and!; [done|done|]. intros q Hq. by apply Hin, H, list_elem_of_In.
  - intros (_ & _ & H) q Hq. by apply Hin, H, list_elem_of_In.
Qed.

(** ** Matching *)

Definition requirementKey (r : PolicyRequirement) : string * string := (q_PolicyID r, q_Key r).

Lemma sameRequirement_spec a b : sameRequirement a b = true ↔ requirementKey a = requirementKey b.
Proof.
  unfold sameRequirement, requirementKey. rewrite andb_true_iff, !eqb_string_true.
  split; [by intros [-> ->]|by intros [= -> ->]].
Qed.

(** The comparator as a lexicographic combination, to reuse its order laws. *)
Definition keyOnlyLess (a b : PolicyRequirement) : bool := str_less (q_Key a) (q_Key b).

Lemma requirementLess_lex a b :
  requirementLess a b = lexLess q_PolicyID str_less keyOnlyLess a b.
Proof.
  unfold requirementLess, lexLess, keyOnlyLess. rewrite !if_eqb_decide.
  destruct (decide (q_PolicyID a = q_PolicyID b)); [|done].
  destruct (decide (q_Key a = q_Key b)) as [E|]; [by rewrite E, str_less_irrefl|done].
Qed.

Lemma requirementLess_asym a b : requirementLess a b = true → requirementLess b a = false.
Proof.
  rewrite !requirementLess_lex. apply lexLess_asym; [apply str_less_asym|].
  intros ??. apply str_less_asym.
Qed.
Lemma requirementLess_trans a b c :
  requirementLess a b = true → requirementLess b c = true → requirementLess a c = true.
Proof.
  rewrite !requirementLess_lex.
  apply lexLess_trans; eauto using str_less_asym, str_less_trans.
Qed.
Lemma requirementLess_same a b :
  requirementLess a b = false → requirementLess b a = false → requirementKey a = requirementKey b.
Proof.
  unfold requirementLess, requirementKey.
  rewrite (String.eqb_sym (q_PolicyID b)), (String.eqb_sym (q_Key b)).
  destruct (q_PolicyID a =s q_PolicyID b) eqn:E1; cbn.
  - destruct (q_Key a =s q_Key b) eqn:E2; cbn.
    + apply eqb_string_true in E1, E2. by rewrite E1, E2.
    + intros H1 H2. apply eqb_string_false in E2. by destruct (E2 (str_less_total _ _ H1 H2)).
  - intros H1 H2. apply eqb_string_false in E1. by destruct (E1 (str_less_total _ _ H1 H2)).
Qed.

Lemma requirementLess_key a a' b b' :
  requirementKey a = requirementKey a' → requirementKey b = requirementKey b' →
  requirementLess a b = requirementLess a' b'.
Proof. unfold requirementLess, requirementKey. by intros [= -> ->] [= -> ->]. Qed.

Lemma requirementLess_not_trans a b c :
  not_less requirementLess a b → not_less requirementLess b c → not_less requirementLess a c.
Proof.
  unfold not_less. intros Hab Hbc. apply not_true_is_false. intros Hca.
  destruct (requirementLess a b) eqn:E.
  - by rewrite (requirementLess_trans c a b Hca E) in Hbc.
  - pose proof (requirementLess_same _ _ E Hab) as Hk.
    rewrite (requirementLess_key c c a b eq_refl Hk) in Hca. congruence.
Qed.

Definition strictly_sorted : list PolicyRequirement → Prop :=
  StronglySorted (λ a b, requirementLess a b = true).

Lemma dedupAfter_spec previous l :
  StronglySorted (not_less requirementLess) (previous :: l) →
  strictly_sorted (previous :: dedupAfter previous l) ∧
  (∀ r, r ∈ dedupAfter previous l → r ∈ l) ∧
  (∀ r, r ∈ l → ∃ r', r' ∈ previous :: dedupAfter previous l ∧ requirementKey r' = requirementKey r).
Proof.
  revert previous. induction l as [|r l IH]; intros previous Hs; cbn.
  { split_and!; [repeat constructor|done|by intros ? ?%elem_of_nil]. }
  inversion Hs as [|? ? Hs' Hp]; subst. apply Forall_cons in Hp as [Hpr Hp].
  destruct (IH r Hs') as (I1 & I2 & I3).
  destruct (sameRequirement r previous) eqn:E.
  - apply sameRequirement_spec in E.
    assert (Hs2 : strictly_sorted (previous :: dedupAfter r l)).
    { inversion I1; subst. constructor; [done|]. eapply Forall_impl; [eassumption|]. cbn.
      intros x Hx. by rewrite <-(requirementLess_key r previous x x). }
    split_and!; [done|by intros x Hx; right; apply I2|].
    intros x [->|Hx]%elem_of_cons; [exists previous; split; [left|done]|].
    destruct (I3 x Hx) as (x' & [->|Hx']%elem_of_cons & Hk).
    + exists previous. split; [left|]. congruence.
    + exists x'. split; [by right|done].
  - assert (Hpr' : requirementLess previous r = true).
    { apply not_false_is_true. intros Hf. unfold not_less in Hpr.
      pose proof (requirementLess_same _ _ Hpr Hf) as Hk. apply sameRequirement_spec in Hk. congruence. }
    split_and!.
    + constructor; [done|]. constructor; [done|]. inversion I1; subst.
      eapply Forall_impl; [eassumption|]. cbn. intros x Hx. by eapply requirementLess_trans.
    + intros x [->|Hx]%elem_of_cons; [left|right; by apply I2].
    + intros x [->|Hx]%elem_of_cons; [exists r; split; [right; left|done]|].
      destruct (I3 x Hx) as (x' & Hx' & Hk). exists x'. split; [by right|done].
Qed.

Lemma dedupRequirements_spec l :
  StronglySorted (not_less requirementLess) l →
  strictly_sorted (dedupRequirements l) ∧
  (∀ r, r ∈ dedupRequirements l → r ∈ l) ∧
  (∀ r, r ∈ l → ∃ r', r' ∈ dedupRequirements l ∧ requirementKey r' = requirementKey r).
Proof.
  intros Hs. destruct l as [|r l]; cbn; [split_and!; [constructor|done|by intros ? ?%elem_of_nil]|].
  destruct (dedupAfter_spec r l Hs) as (H1 & H2 & H3). split_and!; [done| |].
  - intros x [->|Hx]%elem_of_cons; [left|right; by apply H2].
  - intros x [->|Hx]%elem_of_cons; [exists r; split; [left|done]|by apply H3].
Qed.

(** Two strictly sorted lists with the same elements are equal. *)
Lemma strictly_sorted_unique l1 l2 :
  strictly_sorted l1 → strictly_sorted l2 → (∀ r, r ∈ l1 ↔ r ∈ l2) → l1 = l2.
Proof.
  assert (Hirr : ∀ r, requirementLess r r = false).
  { intros r. apply not_true_is_false. intros H. pose proof (requirementLess_asym _ _ H). congruence. }
  assert (Hnd : ∀ l, strictly_sorted l → NoDup l).
  { induction 1 as [|r l _ IH Hr]; constructor; [|done]. intros Hin.
    rewrite Forall_forall in Hr. specialize (Hr r Hin). congruence. }
  intros H1. revert l2. induction H1 as [|a l1 H1 IH Ha]; intros l2 H2 Hin.
  { destruct l2 as [|b l2]; [done|]. exfalso. apply (elem_of_nil b), Hin. left. }
  destruct H2 as [|b l2 H2 Hb]; [exfalso; apply (elem_of_nil a), Hin; left|].
  rewrite Forall_forall in Ha, Hb.
  assert (Hab : a ∈ b :: l2) by (apply Hin; left).
  assert (Hba : b ∈ a :: l1) by (apply Hin; left).
  assert (a = b) as ->.
  { apply elem_of_cons in Hab as [|Hab], Hba as [|Hba]; try done.
    pose proof (requirementLess_asym _ _ (Ha _ Hba)). pose proof (Hb _ Hab). congruence. }
  f_equal. apply IH; [done|]. intros r.
  pose proof (Hnd (b :: l1) ltac:(constructor; [done|by apply Forall_forall])) as N1.
  pose proof (Hnd (b :: l2) ltac:(constructor; [done|by apply Forall_forall])) as N2.
  apply NoDup_cons in N1 as [N1 _], N2 as [N2 _]. specialize (Hin r). rewrite !elem_of_cons in Hin.
  split; intros Hr; [destruct (proj1 Hin (or_intror Hr)) as [->|]|destruct (proj2 Hin (or_intror Hr)) as [->|]]; done.
Qed.

(** What the store guarantees of a set of policies. *)
Definition policies_wf (policies : list WorkflowPolicy) : Prop :=
  NoDup (map wp_ID policies) ∧
  ∀ p, p ∈ policies →
    (∀ r, r ∈ wp_Requirements p → q_PolicyID r = wp_ID p) ∧ NoDup (map q_Key (wp_Requirements p)).

Definition contributed (policies : list WorkflowPolicy) issueType labels (r : PolicyRequirement) : Prop :=
  ∃ p, p ∈ policies ∧ contributes issueType labels p = true ∧ r ∈ wp_Requirements p.

Lemma NoDup_map_inj {A B} (f : A → B) l x y :
  NoDup (map f l) → x ∈ l → y ∈ l → f x = f y → x = y.
Proof.
  intros Hnd Hx Hy Hf. apply list_elem_of_lookup in Hx as [i Hi], Hy as [j Hj].
  assert (i = j) as ->; [|congruence].
  apply (NoDup_lookup (map f l) i j (f x)); [done| |].
  - change (map f l) with (f <$> l). by rewrite list_lookup_fmap, Hi.
  - change (map f l) with (f <$> l). by rewrite list_lookup_fmap, Hj, Hf.
Qed.

Lemma contributed_unique policies issueType labels r r' :
  policies_wf policies → contributed policies issueType labels r →
  contributed policies issueType labels r' → requirementKey r = requirementKey r' → r = r'.
Proof.
  intros [Hids Hreqs] (p & Hp & _ & Hr) (p' & Hp' & _ & Hr') [= Hid Hkey].
  destruct (Hreqs p Hp) as [Hpid Hnd]. destruct (Hreqs p' Hp') as [Hpid' _].
  rewrite (Hpid r Hr), (Hpid' r' Hr') in Hid.
  pose proof (NoDup_map_inj wp_ID _ _ _ Hids Hp Hp' Hid) as ->.
  by eapply (NoDup_map_inj q_Key).
Qed.

Lemma matched_contributed policies issueType labels r :
  r ∈ concat (map wp_Requirements (List.filter (contributes issueType labels) policies)) ↔
  contributed policies issueType labels r.
Proof.
  rewrite list_elem_of_In, in_concat. unfold contributed. split.
  - intros (l & (p & <- & (Hp & Hc)%filter_In)%in_map_iff & Hr). exists p. rewrite !list_elem_of_In. done.
  - intros (p & Hp & Hc & Hr). rewrite list_elem_of_In in Hp. rewrite list_elem_of_In in Hr. exists (wp_Requirements p). split; [|done].
    apply in_map_iff. exists p. split; [done|]. by apply filter_In.
Qed.

Lemma MatchWorkflowPolicies_run policies issueType labels :
  policies_wf policies →
  strictly_sorted (MatchWorkflowPolicies policies issueType labels) ∧
  ∀ r, r ∈ MatchWorkflowPolicies policies issueType labels ↔ contributed policies issueType labels r.
Proof.
  intros Hwf. unfold MatchWorkflowPolicies.
  set (matched := concat _).
  destruct (dedupRequirements_spec (stable_sort requirementLess matched)) as (Hs & Hsub & Hcov).
  { apply stable_sort_sorted; [apply requirementLess_asym|apply requirementLess_not_trans]. }
  split; [done|]. intros r. split.
  - intros Hr%Hsub. rewrite elem_of_stable_sort in Hr. by apply matched_contributed.
  - intros Hr. pose proof Hr as Hr2. apply matched_contributed in Hr2.
    rewrite <-(elem_of_stable_sort requirementLess) in Hr2.
    destruct (Hcov r Hr2) as (r' & Hr' & Hk).
    assert (r' = r) as <-; [|done].
    eapply contributed_unique; [done| |done|done].
    apply matched_contributed. by rewrite <-(elem_of_stable_sort requirementLess); apply Hsub.
Qed.

(** ** Evaluation *)

Definition satisfiedBy (evidence : GateEvidence) (r : PolicyRequirement) : bool := fst (isSatisfied r evidence).

Definition unmetOf (point : string) (evidence : GateEvidence) (r : PolicyRequirement) : UnmetRequirement :=
  mkUnmet (q_PolicyID r) (q_Key r) point (snd (isSatisfied r evidence)).

Definition applicable (point : string) (r : PolicyRequirement) : bool := appliesAt (q_Kind r) point.

Lemma evaluateRequirements_Ok `{UnicodeTables} point requirements evidence acc g :
  evaluateRequirements point requirements evidence acc = Ok g ↔
  Forall (λ r, RequirementKind_Valid (q_Kind r) = true) requirements ∧
  g = mkEvaluation (gv_Point acc)
        (gv_Satisfied acc ++ List.filter (λ r, applicable point r && satisfiedBy evidence r) requirements)
        (gv_Unmet acc ++ map (unmetOf point evidence)
           (List.filter (λ r, applicable point r && negb (satisfiedBy evidence r)) requirements)).
Proof.
  revert acc. induction requirements as [|r rs IH]; intros acc; cbn [evaluateRequirements List.filter].
  { rewrite !app_nil_r. destruct acc. split; [by intros [= <-]|by intros [_ ->]]. }
  rewrite fail_if_Ok, negb_false_iff, Forall_cons.
  change (appliesAt (q_Kind r) point) with (applicable point r).
  destruct (applicable point r); cbn [negb andb]; [|rewrite IH; tauto].
  destruct (isSatisfied r evidence) as [sat reason] eqn:E.
  assert (Hs : satisfiedBy evidence r = sat) by (unfold satisfiedBy; by rewrite E).
  assert (Hu : unmetOf point evidence r = mkUnmet (q_PolicyID r) (q_Key r) point reason)
    by (unfold unmetOf; by rewrite E).
  rewrite Hs. destruct sat; cbn [negb map]; rewrite IH, ?Hu; cbn; rewrite <-app_assoc; tauto.
Qed.

(** Kinds partition: what satisfaction means for each. *)
Definition requirement_met (evidence : GateEvidence) (r : PolicyRequirement) : Prop :=
  (q_Kind r = RequirementKindIssueFieldNonblank → ge_AcceptanceCriteriaBlank evidence = false) ∧
  (q_Kind r = RequirementKindAttemptEvidence → q_EvidenceKey r ∈ ge_AttemptEvidenceKeys evidence) ∧
  (q_Kind r = RequirementKindReviewApproval → q_Purpose r ∈ ge_ReviewApprovalPurposes evidence).

Lemma RequirementKind_cases kind :
  RequirementKind_Valid kind = true ↔
  kind = RequirementKindIssueFieldNonblank ∨ kind = RequirementKindAttemptEvidence ∨
  kind = RequirementKindReviewApproval.
Proof. unfold RequirementKind_Valid. rewrite enumValid_spec, !elem_of_cons, elem_of_nil. tauto. Qed.

Lemma satisfiedBy_spec evidence r :
  RequirementKind_Valid (q_Kind r) = true → satisfiedBy evidence r = true ↔ requirement_met evidence r.
Proof.
  intros Hk. unfold satisfiedBy, isSatisfied, requirement_met.
  apply RequirementKind_cases in Hk. destruct_or! Hk; rewrite Hk;
    cbn [String.eqb Ascii.eqb Bool.eqb RequirementKindIssueFieldNonblank RequirementKindAttemptEvidence
         RequirementKindReviewApproval].
  - destruct (ge_AcceptanceCriteriaBlank evidence); naive_solver.
  - case_bool_decide; naive_solver.
  - case_bool_decide; naive_solver.
Qed.

Lemma Passed_spec g : Passed g = true ↔ gv_Unmet g = [].
Proof. unfold Passed. rewrite Z.eqb_eq. destruct (gv_Unmet g); cbn; split; [done|done|lia|done]. Qed.

(** ** Normal forms of policy input *)

Lemma checkSelectorTypes_Ok seen types :
  checkSelectorTypes seen types = Ok tt ↔
  NoDup types ∧ ∀ t, t ∈ types → t ∉ seen ∧ t ≠ TypeEpic ∧ Type_Valid t = true.
Proof.
  revert seen. induction types as [|t rest IH]; intros seen; cbn [checkSelectorTypes].
  { split; [intros _; split; [constructor|by intros ? ?%elem_of_nil]|done]. }
  rewrite !fail_if_Ok, IH, orb_false_iff, negb_false_iff, eqb_string_false, bool_decide_eq_false, NoDup_cons.
  setoid_rewrite elem_of_cons. setoid_rewrite not_elem_of_union. setoid_rewrite not_elem_of_singleton.
  split.
  - intros ([Ht Hv] & Hn & Hnd & Hall). split_and!; [|done|].
    + intros Hin. by destruct (Hall t Hin) as [[? _] _].
    + intros x [->|Hx]; [done|]. destruct (Hall x Hx) as ([_ ?] & ? & ?). done.
  - intros [[Hn Hnd] Hall]. destruct (Hall t (or_introl eq_refl)) as (? & ? & ?).
    split_and!; [done|done|done|done|]. intros x Hx. destruct (Hall x (or_intror Hx)) as (? & ? & ?).
    split_and!; [|done|done|done]. naive_solver.
Qed.

Lemma collectSelectorLabels_Ok seen names labels :
  collectSelectorLabels seen names = Ok labels ↔
  Forall (λ n, ValidateText "labels" n MaxLabelNameRunes = Ok tt ∧ TrimSpace n ≠ "") names ∧
  NoDup (map foldLabel names) ∧ (∀ n, n ∈ names → foldLabel n ∉ seen) ∧ labels = map TrimSpace names.
Proof.
  revert seen labels. induction names as [|n rest IH]; intros seen labels; cbn [collectSelectorLabels].
  { cbn. split; [|naive_solver]. intros [= <-].
    split_and!; [constructor|constructor|by intros ? ?%elem_of_nil|done]. }
  rewrite result_bind_Ok. cbn [map]. rewrite Forall_cons, NoDup_cons. split.
  - intros ([d c] & (Hv & -> & Hne & ->)%NormalizeLabelName_Ok & Hk).
    apply fail_if_Ok in Hk as [Hseen Hk]. apply bool_decide_eq_false in Hseen.
    apply result_bind_Ok in Hk as (ls & (Hall & Hnd & Hs & ->)%IH & [= <-]).
    split_and!; [done|done|done| |done| |done].
    + intros (m & Hm & Hin)%list_elem_of_fmap. specialize (Hs m Hin). apply Hs.
      rewrite <-Hm. by apply elem_of_union_l, elem_of_singleton.
    + intros m [->|Hm]%elem_of_cons; [done|]. specialize (Hs m Hm). set_solver.
  - intros ([[Hv Hne] Hall] & [Hn Hnd] & Hs & ->). exists (TrimSpace n, foldLabel n).
    split; [by apply NormalizeLabelName_Ok|]. apply fail_if_Ok. split.
    { apply bool_decide_eq_false, Hs. left. }
    apply result_bind_Ok. exists (map TrimSpace rest). split; [|done]. apply IH.
    split_and!; [done|done| |done]. intros m Hm [Hin|Hin]%elem_of_union.
    + apply elem_of_singleton in Hin. apply Hn. rewrite <-Hin.
      change (map foldLabel rest) with (foldLabel <$> rest). by apply list_elem_of_fmap_2.
    + by apply (Hs m); [right|].
Qed.

Lemma sort_Strings_id l : StronglySorted (not_less str_less) l → sort_Strings l = l.
Proof.
  intros Hl. apply (StronglySorted_unique str_less); [apply str_less_total|apply sort_Strings_sorted|done|].
  apply sort_Strings_Permutation.
Qed.

Lemma foldLabel_trim l : foldLabel (TrimSpace l) = foldLabel l.
Proof. unfold foldLabel. by rewrite TrimSpace_idemp. Qed.

Lemma PolicySelectorInput_Validate_idemp input out :
  PolicySelectorInput_Validate input = Ok out → PolicySelectorInput_Validate out = Ok out.
Proof.
  unfold PolicySelectorInput_Validate. intros Hv.
  apply result_bind_Ok in Hv as (types & Ht & Hv). pose proof Ht as Ht'.
  apply CopyBounded_Ok in Ht' as (_ & _ & ->).
  apply try_unit in Hv as [Hc Hv]. apply result_bind_Ok in Hv as (raw & Hraw & Hv).
  apply CopyBounded_Ok in Hraw as (_ & Hlen & ->).
  apply result_bind_Ok in Hv as (labels & Hl & [= <-]). cbn [ps_IssueTypes ps_LabelsAll].
  rewrite Ht. cbn [mbind result_bind]. rewrite Hc.
  apply collectSelectorLabels_Ok in Hl as (Hall & Hnd & _ & ->).
  set (sorted := sort_Strings (map TrimSpace (ps_LabelsAll input))).
  assert (Hp : sorted ≡ₚ map TrimSpace (ps_LabelsAll input)) by apply sort_Strings_Permutation.
  assert (Htrim : ∀ l, l ∈ sorted → TrimSpace l = l).
  { intros l Hl. rewrite Hp in Hl. apply list_elem_of_fmap in Hl as (m & -> & _). apply TrimSpace_idemp. }
  assert (Hmap : map TrimSpace sorted = sorted).
  { clear -Htrim. induction sorted as [|l sorted IH]; [done|]. cbn.
    rewrite Htrim by left. rewrite IH; [done|]. intros m Hm. apply Htrim. by right. }
  assert (Hcopy : CopyBounded "selector.labels_all" sorted MaxPolicyLabelsAll = Ok sorted).
  { apply CopyBounded_Ok. split_and!; [done| |done].
    by rewrite (Permutation_length Hp), length_map. }
  rewrite Hcopy. cbn [mbind result_bind].
  assert (Hcollect : collectSelectorLabels ∅ sorted = Ok sorted).
  { apply collectSelectorLabels_Ok. split_and!; [| |set_solver|done].
    - rewrite Hp. apply Forall_map. eapply Forall_impl; [exact Hall|].
      intros n [Hv Hne]. cbn. split; [by apply ValidateText_trim|by rewrite TrimSpace_idemp].
    - rewrite Hp, map_map. erewrite map_ext; [exact Hnd|]. intros n. apply foldLabel_trim. }
  rewrite Hcollect. cbn [mbind result_bind]. rewrite sort_Strings_id; [done|].
  apply sort_Strings_sorted.
Qed.

Lemma ValidateText_normal field value maxRunes :
  ValidateText field value maxRunes = Ok tt → ValidateText field (TrimSpace value) maxRunes = Ok tt ∧
  TrimSpace (TrimSpace value) = TrimSpace value.
Proof. intros Hv. split; [by apply ValidateText_trim|apply TrimSpace_idemp]. Qed.

(** A field the kind does not use is empty. *)
Lemma unused_field (a b : string) : negb (a =s "") || negb (b =s "") = false → a = "" ∧ b = "".
Proof. intros H. bool_simpl. by rewrite <-!eqb_string_true. Qed.

Lemma PolicyRequirementInput_validate_idemp `{UnicodeTables} input r :
  PolicyRequirementInput_validate input = Ok r → PolicyRequirementInput_validate (requirementInput r) = Ok r.
Proof.
  intros Hv. unfold PolicyRequirementInput_validate in Hv.
  apply try_unit in Hv as [Hkey Hv]. apply fail_if_Ok in Hv as [Hne Hv]. apply fail_if_Ok in Hv as [Hk Hv].
  destruct (ValidateText_normal _ _ _ Hkey) as [Hkey' Htrim].
  unfold PolicyRequirementInput_validate.
  destruct (qi_Kind input =s RequirementKindIssueFieldNonblank) eqn:K1;
    [|destruct (qi_Kind input =s RequirementKindAttemptEvidence) eqn:K2;
      [|destruct (qi_Kind input =s RequirementKindReviewApproval) eqn:K3]].
  - apply fail_if_Ok in Hv as [Hf Hv]. apply fail_if_Ok in Hv as [_ Hv].
    apply fail_if_Ok in Hv as [_ [= <-]].
    cbn [requirementInput qi_Key qi_Kind qi_Field qi_EvidenceKey qi_Purpose qi_AllowNotApplicable
         q_Key q_Kind q_Field q_EvidenceKey q_Purpose q_AllowNotApplicable].
    by rewrite Hkey', Htrim, Hne, Hk, K1, Hf.
  - apply fail_if_Ok in Hv as [Hf Hv]. apply try_unit in Hv as [He Hv].
    apply fail_if_Ok in Hv as [Hene [= <-]]. destruct (ValidateText_normal _ _ _ He) as [He' Hetrim].
    cbn [requirementInput qi_Key qi_Kind qi_Field qi_EvidenceKey qi_Purpose qi_AllowNotApplicable
         q_Key q_Kind q_Field q_EvidenceKey q_Purpose q_AllowNotApplicable].
    rewrite Hkey', Htrim, Hne, Hk, K1, K2. cbn [String.eqb negb orb].
    by rewrite He', Hetrim, Hene.
  - apply fail_if_Ok in Hv as [Hf Hv]. apply fail_if_Ok in Hv as [Ha Hv]. apply try_unit in Hv as [Hp Hv].
    apply fail_if_Ok in Hv as [Hpne [= <-]]. destruct (ValidateText_normal _ _ _ Hp) as [Hp' Hptrim].
    cbn [requirementInput qi_Key qi_Kind qi_Field qi_EvidenceKey qi_Purpose qi_AllowNotApplicable
         q_Key q_Kind q_Field q_EvidenceKey q_Purpose q_AllowNotApplicable].
    rewrite Hkey', Htrim, Hne, Hk, K1, K2, K3. cbn [String.eqb negb orb].
    by rewrite Hp', Hptrim, Hpne.
  - exfalso. apply negb_false_iff, RequirementKind_cases in Hk.
    rewrite eqb_string_false in K1, K2, K3. naive_solver.
Qed.

Lemma collectRequirements_idemp `{UnicodeTables} seen requirements validated :
  collectRequirements seen requirements = Ok validated →
  collectRequirements seen validated = Ok validated ∧
  NoDup (map qi_Key validated) ∧ (∀ k, k ∈ map qi_Key validated → k ∉ seen) ∧
  length validated = length requirements.
Proof.
  revert seen validated. induction requirements as [|r rs IH]; intros seen validated; cbn [collectRequirements].
  { intros [= <-]. split_and!; [done|constructor|by intros ? ?%elem_of_nil|done]. }
  intros (n & Hn & Hk)%result_bind_Ok. apply fail_if_Ok in Hk as [Hs Hk].
  apply result_bind_Ok in Hk as (vs & Hvs & [= <-]).
  destruct (IH _ _ Hvs) as (I1 & I2 & I3 & I4). split_and!.
  - cbn [collectRequirements]. rewrite (PolicyRequirementInput_validate_idemp _ _ Hn). cbn [mbind result_bind].
    by rewrite Hs, I1.
  - cbn [map requirementInput qi_Key]. constructor; [|done]. intros Hin%I3. set_solver.
  - intros k [->|Hk]%elem_of_cons; [by apply bool_decide_eq_false in Hs|]. apply I3 in Hk. set_solver.
  - cbn. by rewrite I4.
Qed.

(** * Properties *)

(** Evaluating a gate splits the requirements that apply at the point into
    the satisfied ones and the unmet ones, in order; evaluation succeeds for
    every valid point and list of known kinds, and the gate passes exactly
    when every applicable requirement is met by the evidence. *)
Theorem EvaluateGate_partition `{UnicodeTables} point requirements evidence :
  (is_ok (EvaluateGate point requirements evidence) = true ↔
     EnforcementPoint_Valid point = true ∧
     Forall (λ r, RequirementKind_Valid (q_Kind r) = true) requirements) ∧
  (∀ g, EvaluateGate point requirements evidence = Ok g →
     gv_Satisfied g = List.filter (λ r, applicable point r && satisfiedBy evidence r) requirements ∧
     gv_Unmet g = map (unmetOf point evidence)
       (List.filter (λ r, applicable point r && negb (satisfiedBy evidence r)) requirements) ∧
     (Passed g = true ↔
      ∀ r, r ∈ requirements → appliesAt (q_Kind r) point = true → requirement_met evidence r)).
Proof.
  unfold EvaluateGate. split.
  - rewrite is_ok_true. setoid_rewrite fail_if_Ok. setoid_rewrite evaluateRequirements_Ok.
    setoid_rewrite negb_false_iff. split; [naive_solver|]. intros [Hp Hk]. by eexists.
  - intros g. rewrite fail_if_Ok, evaluateRequirements_Ok. intros (_ & Hk & ->). cbn.
    split_and!; [done|done|]. rewrite Passed_spec. cbn. rewrite Forall_forall in Hk. split.
    + intros Hnil r Hr Ha. apply satisfiedBy_spec; [by apply Hk|]. apply not_false_is_true. intros Hs.
      apply map_eq_nil in Hnil. eapply (in_nil (a := r)). rewrite <-Hnil. apply filter_In.
      split; [by apply list_elem_of_In|]. unfold applicable. by rewrite Ha, Hs.
    + intros Hall. destruct (List.filter _ _) as [|r l] eqn:E; [done|]. exfalso.
      assert (Hin : In r (r :: l)) by by left. rewrite <-E in Hin.
      apply filter_In in Hin as [Hr Hf]. apply list_elem_of_In in Hr.
      apply andb_true_iff in Hf as [Ha Hs]. apply negb_true_iff in Hs.
      pose proof (Hall r Hr Ha) as Hm. apply satisfiedBy_spec in Hm; [congruence|by apply Hk].
Qed.

(** More evidence never closes a gate: if a gate passes and the evidence
    only grows, it still passes. *)
Theorem EvaluateGate_monotone `{UnicodeTables} point requirements e1 e2 g1 :
  EvaluateGate point requirements e1 = Ok g1 → Passed g1 = true →
  (ge_AcceptanceCriteriaBlank e1 = false → ge_AcceptanceCriteriaBlank e2 = false) →
  ge_AttemptEvidenceKeys e1 ⊆ ge_AttemptEvidenceKeys e2 →
  ge_ReviewApprovalPurposes e1 ⊆ ge_ReviewApprovalPurposes e2 →
  ∃ g2, EvaluateGate point requirements e2 = Ok g2 ∧ Passed g2 = true.
Proof.
  unfold EvaluateGate. rewrite fail_if_Ok, evaluateRequirements_Ok. intros (Hp & Hk & ->) H1 Hb Ha Hr.
  eexists. split; [apply fail_if_Ok; split; [done|]; by apply evaluateRequirements_Ok|].
  rewrite Passed_spec in *. cbn in *. apply map_eq_nil in H1.
  destruct (List.filter (λ r, applicable point r && negb (satisfiedBy e2 r)) requirements) as [|r l] eqn:E; [done|].
  exfalso. assert (Hin : In r (r :: l)) by by left. rewrite <-E in Hin.
  apply filter_In in Hin as [Hin Hf]. apply andb_true_iff in Hf as [Happ Hs]. apply negb_true_iff in Hs.
  rewrite Forall_forall in Hk. assert (Hkr : RequirementKind_Valid (q_Kind r) = true) by by apply Hk, list_elem_of_In.
  destruct (satisfiedBy e1 r) eqn:Es1.
  - apply satisfiedBy_spec in Es1; [|done]. apply not_true_iff_false in Hs. apply Hs, satisfiedBy_spec; [done|].
    destruct Es1 as (M1 & M2 & M3). split_and!; intros; auto.
  - eapply (in_nil (a := r)). rewrite <-H1. apply filter_In. split; [done|]. by rewrite Happ, Es1.
Qed.

(** The effective requirements of an issue: over policies with unique ids
    that own uniquely keyed requirements, matching returns exactly the
    requirements of the active policies whose selector matches (type listed,
    all labels present up to case), strictly ordered by policy and key, and
    the order in which the policies are read does not matter. *)
Theorem MatchWorkflowPolicies_spec policies issueType labels :
  policies_wf policies →
  StronglySorted (λ a b, requirementLess a b = true) (MatchWorkflowPolicies policies issueType labels) ∧
  (∀ r, r ∈ MatchWorkflowPolicies policies issueType labels ↔
     ∃ p, p ∈ policies ∧ r ∈ wp_Requirements p ∧ wp_Status p = PolicyStatusActive ∧
       issueType ≠ TypeEpic ∧
       (ps_IssueTypes (wp_Selector p) = [] ∨ issueType ∈ ps_IssueTypes (wp_Selector p)) ∧
       ∀ required, required ∈ ps_LabelsAll (wp_Selector p) →
         ∃ l, l ∈ labels ∧ asciiLower (TrimSpace l) = asciiLower (TrimSpace required)) ∧
  (∀ policies', policies' ≡ₚ policies →
     MatchWorkflowPolicies policies' issueType labels = MatchWorkflowPolicies policies issueType labels).
Proof.
  intros Hwf. destruct (MatchWorkflowPolicies_run policies issueType labels Hwf) as [Hs Hin].
  split_and!; [done| |].
  - intros r. rewrite Hin. unfold contributed, contributes.
    setoid_rewrite andb_true_iff. setoid_rewrite eqb_string_true. setoid_rewrite Matches_spec.
    unfold foldLabel. naive_solver.
  - intros policies' Hp.
    assert (Hwf' : policies_wf policies').
    { destruct Hwf as [Hnd Hreq]. split.
      - change (NoDup (wp_ID <$> policies')). by rewrite Hp.
      - intros p Hp'. apply Hreq. by rewrite <-Hp. }
    destruct (MatchWorkflowPolicies_run policies' issueType labels Hwf') as [Hs' Hin'].
    apply strictly_sorted_unique; [done|done|]. intros r. rewrite Hin, Hin'. unfold contributed.
    split; intros (p & Hin2 & ?); exists p; [by rewrite <-Hp|by rewrite Hp].
Qed.

(** Validated policy input is in normal form: validating it again changes
    nothing, requirement keys are distinct, and nothing is dropped. *)
Theorem WorkflowPolicyInput_Validate_normal `{UnicodeTables} input out :
  WorkflowPolicyInput_Validate input = Ok out →
  WorkflowPolicyInput_Validate out = Ok out ∧
  NoDup (map qi_Key (wi_Requirements out)) ∧
  length (wi_Requirements out) = length (wi_Requirements input) ∧
  (Z.of_nat (length (wi_Requirements out)) <= 50)%Z ∧
  StronglySorted (not_less str_less) (ps_LabelsAll (wi_Selector out)).
Proof.
  intros Hv. unfold WorkflowPolicyInput_Validate in Hv.
  apply result_bind_Ok in Hv as (selector & Hsel & Hv). apply result_bind_Ok in Hv as (reqs & Hr & Hv).
  apply CopyBounded_Ok in Hr as (? & Hlen & ->). apply result_bind_Ok in Hv as (validated & Hval & [= <-]).
  destruct (collectRequirements_idemp _ _ _ Hval) as (Hid & Hnd & _ & Hlength). cbn.
  split_and!; [|done|done|by rewrite Hlength|].
  - unfold WorkflowPolicyInput_Validate. cbn [wi_Selector wi_Requirements].
    rewrite (PolicySelectorInput_Validate_idemp _ _ Hsel). cbn [mbind result_bind].
    assert (Hcopy : CopyBounded "requirements" validated MaxPolicyRequirements = Ok validated)
      by (apply CopyBounded_Ok; by rewrite Hlength).
    rewrite Hcopy. cbn [mbind result_bind]. by rewrite Hid.
  - unfold PolicySelectorInput_Validate in Hsel. apply result_bind_Ok in Hsel as (? & _ & Hsel).
    apply try_unit in Hsel as [_ Hsel]. apply result_bind_Ok in Hsel as (? & _ & Hsel).
    apply result_bind_Ok in Hsel as (? & _ & [= <-]). apply sort_Strings_sorted.
Qed.

(** ** Witnesses *)

Definition sample_requirement (key kind field evidence purpose : string) : PolicyRequirement :=
  mkRequirement "P1" key kind field evidence purpose false.
Definition sample_requirements : list PolicyRequirement :=
  [sample_requirement "ac" RequirementKindIssueFieldNonblank "acceptance_criteria" "" "";
   sample_requirement "ci" RequirementKindAttemptEvidence "" "ci" "";
   sample_requirement "sec" RequirementKindReviewApproval "" "" "security"].

Definition sample_policy : WorkflowPolicy :=
  mkPolicy "P1" (mkSelector [TypeTask] ["Backend"]) PolicyStatusActive 1 sample_requirements 0 0.

Definition evaluated (evidence : GateEvidence) : GateEvaluation :=
  match EvaluateGate EnforcementPointCompleteWorkToReview sample_requirements evidence with
  | Ok g => g
  | Err _ => mkEvaluation "" [] []
  end.

Lemma EvaluateGate_partition_witness :
  Passed (evaluated (mkEvidence false ∅ ∅)) = false ∧
  gv_Unmet (evaluated (mkEvidence false ∅ ∅)) =
    [mkUnmet "P1" "ci" EnforcementPointCompleteWorkToReview "no attempt_evidence recorded for key 'ci'"].
Proof.
  split; [by vm_compute|].
  destruct (EvaluateGate_partition EnforcementPointCompleteWorkToReview sample_requirements
              (mkEvidence false ∅ ∅)) as [_ Hsplit].
  destruct (Hsplit (evaluated (mkEvidence false ∅ ∅))) as (_ & Hu & _); [by vm_compute|].
  rewrite Hu. by vm_compute.
Defined.

Lemma EvaluateGate_monotone_witness :
  ∃ g, EvaluateGate EnforcementPointCompleteWorkToReview sample_requirements
         (mkEvidence false {[ "ci"; "lint" ]} {[ "security" ]}) = Ok g ∧ Passed g = true.
Proof.
  apply (EvaluateGate_monotone EnforcementPointCompleteWorkToReview sample_requirements
           (mkEvidence false {[ "ci" ]} ∅) (mkEvidence false {[ "ci"; "lint" ]} {[ "security" ]})
           (evaluated (mkEvidence false {[ "ci" ]} ∅))); [by vm_compute|by vm_compute|done|set_solver|set_solver].
Defined.

Lemma MatchWorkflowPolicies_spec_witness :
  MatchWorkflowPolicies [sample_policy] TypeTask [" BACKEND"; "ui"] = sample_requirements ∧
  StronglySorted (λ a b, requirementLess a b = true)
    (MatchWorkflowPolicies [sample_policy] TypeTask [" BACKEND"; "ui"]).
Proof.
  split; [by vm_compute|].
  apply (MatchWorkflowPolicies_spec [sample_policy] TypeTask [" BACKEND"; "ui"]).
  split; [apply NoDup_singleton|]. intros p ->%list_elem_of_singleton. cbn. split.
  - intros r Hr. unfold sample_requirements in Hr. rewrite !elem_of_cons, elem_of_nil in Hr.
    by destruct_or! Hr; subst.
  - apply (bool_decide_unpack _). by vm_compute.
Defined.

Definition sample_policy_input : WorkflowPolicyInput :=
  mkPolicyInput (mkSelector [TypeBug] [" b"; "A"])
    [mkRequirementInput " k " RequirementKindAttemptEvidence "" " ci" "" true].
Lemma WorkflowPolicyInput_Validate_normal_witness :
  ∃ out, WorkflowPolicyInput_Validate sample_policy_input = Ok out ∧
         WorkflowPolicyInput_Validate out = Ok out.
Proof.
  eexists. split; [by vm_compute|].
  apply (WorkflowPolicyInput_Validate_normal sample_policy_input). by vm_compute.
Defined.
