(* ===== verification/Store.v ===== *)
(** * The SQLite store as a value

    [internal/adapters/sqlite]: the tables the attempt, reservation and review
    repositories work on, the transaction monad, and the row operations.

    A table with a primary key is a finite map from the key to the row; the
    event log, the approvals and the other append-only tables are lists.
    Timestamps are nanoseconds since 1970 UTC: every column holds the
    fixed-width text of [FormatStorageTime], whose byte order is the order of
    the instants.  A JSON column holds the value it encodes, so a row that was
    written by this code always decodes.

    A write transaction is a function from the store to a result: [Err] rolls
    back ([DB.Write] with [TranslateError]).  The schema's CHECK constraints,
    foreign keys and unique indexes are tests that the row operations make;
    a violation is the [STORAGE_CONSTRAINT] error [TranslateError] produces. *)

From S2P Require Import Prelude GoStrings Errors Validation Samples Issue Relation Session IssueOps Discussion.
From S2P Require Import Resource Attempt Gates.

(** ** Timestamps

    [timestamps.go]: [FormatStorageTime], layout 2006-01-02T15:04:05.000000000Z. *)

Definition zero_pad (width : nat) (n : Z) : string :=
  let digits := Itoa n in
  String.concat "" (repeat "0" (width - String.length digits)) +:+ digits.

(** The proleptic Gregorian date of a day count since 1970-01-01, by 400-year
    eras that start on March 1st. *)
Definition civil_from_days (days : Z) : Z * Z * Z :=
  let z := (days + 719468)%Z in
  let era := (z / 146097)%Z in
  let doe := (z mod 146097)%Z in
  let yoe := ((doe - doe / 1460 + doe / 36524 - doe / 146096) / 365)%Z in
  let doy := (doe - (365 * yoe + yoe / 4 - yoe / 100))%Z in
  let mp := ((5 * doy + 2) / 153)%Z in
  let d := (doy - (153 * mp + 2) / 5 + 1)%Z in
  let m := if (mp <? 10)%Z then (mp + 3)%Z else (mp - 9)%Z in
  ((yoe + era * 400 + (if (m <=? 2)%Z then 1 else 0))%Z, m, d).

Definition formatStorageTime (t : Z) : string :=
  let secs := (t / 1000000000)%Z in
  let '(y, m, d) := civil_from_days (secs / 86400) in
  let tod := (secs mod 86400)%Z in
  zero_pad 4 y +:+ "-" +:+ zero_pad 2 m +:+ "-" +:+ zero_pad 2 d +:+ "T" +:+
  zero_pad 2 (tod / 3600) +:+ ":" +:+ zero_pad 2 (tod mod 3600 / 60) +:+ ":" +:+
  zero_pad 2 (tod mod 60) +:+ "." +:+ zero_pad 9 (t mod 1000000000) +:+ "Z".

Example formatStorageTime_example :
  formatStorageTime 1709208000000000005 = "2024-02-29T12:00:00.000000005Z".
Proof. vm_compute. reflexivity. Qed.

(** ** Rows *)

(** [domain.WorkAttempt]. *)
Record WorkAttempt := mkWorkAttempt {
  wa_ID : string;
  wa_IssueID : string;
  wa_SessionID : option string;
  wa_AgentLabel : option string;
  wa_Kind : string;
  wa_Status : string;
  wa_IssueVersionAtStart : Z;
  wa_ContextEventIDAtStart : Z;
  wa_LeaseExpiresAt : Z;
  wa_StartedAt : Z;
  wa_LastHeartbeatAt : Z;
  wa_FinishedAt : option Z;
  wa_ResultSummary : option string;
  wa_NextSteps : list string;
  wa_Verification : list string;
  wa_FailureReasonCode : option string;
  wa_InterruptionReasonCode : option string;
  wa_ReasonDetails : option string;
}.

(** A [work_attempts] row: the attempt and the hash of its lease token. *)
Record AttemptRow := mkAttemptRow { ar_Attempt : WorkAttempt; ar_LeaseTokenHash : string }.

Definition ar_IssueID (r : AttemptRow) := wa_IssueID (ar_Attempt r).
Definition ar_Kind (r : AttemptRow) := wa_Kind (ar_Attempt r).
Definition ar_Status (r : AttemptRow) := wa_Status (ar_Attempt r).
Definition ar_LeaseExpiresAt (r : AttemptRow) := wa_LeaseExpiresAt (ar_Attempt r).
Definition attemptActive (r : AttemptRow) : bool := ar_Status r =s AttemptStatusActive.

(** A [resource_reservations] row; [normalized_json] holds the identity. *)
Record reservationRow := mkReservationRow { rr_Reservation : Reservation; rr_Identity : Resource }.

Definition toDomain (row : reservationRow) : Reservation := rr_Reservation row.
Definition rr_ID (r : reservationRow) := rv_ID (rr_Reservation r).
Definition rr_AttemptID (r : reservationRow) := rv_AttemptID (rr_Reservation r).
Definition rr_Kind (r : reservationRow) := rv_Kind (rr_Reservation r).
Definition rr_ComparisonValue (r : reservationRow) := rv_ComparisonValue (rr_Reservation r).
Definition reservationActive (r : reservationRow) : bool :=
  rv_Status (rr_Reservation r) =s ReservationStatusActive.

(** [domain.ReviewRequest], [domain.ReviewTarget], [domain.ReviewOutcomeRecord],
    [domain.ReviewApproval]. *)
Record ReviewRequest := mkReviewRequest {
  rq_ID : string;
  rq_IssueID : string;
  rq_TargetID : string;
  rq_TargetIssueVersion : Z;
  rq_TargetEventID : Z;
  rq_ArtifactIDs : list string;
  rq_Purposes : list string;
  rq_Status : string;
  rq_SupersedesID : option string;
  rq_ActiveAttemptID : option string;
  rq_Version : Z;
  rq_CreatedAt : Z;
  rq_ResolvedAt : option Z;
}.

Record ReviewTarget := mkReviewTarget {
  rt_ID : string;
  rt_IssueID : string;
  rt_IssueVersion : Z;
  rt_LatestEventID : Z;
  rt_ArtifactIDs : list string;
  rt_Purposes : list string;
  rt_Version : Z;
  rt_CreatedAt : Z;
}.

Record ReviewOutcomeRecord := mkReviewOutcomeRecord {
  ro_ID : string;
  ro_RequestID : string;
  ro_AttemptID : string;
  ro_Outcome : string;
  ro_Reason : option string;
  ro_Version : Z;
  ro_CreatedAt : Z;
}.

Record ReviewApproval := mkReviewApproval {
  rp_ID : string;
  rp_IssueID : string;
  rp_TargetID : string;
  rp_RequestID : string;
  rp_AttemptID : string;
  rp_Purpose : string;
  rp_TargetIssueVersion : Z;
  rp_TargetEventID : Z;
  rp_Version : Z;
  rp_CreatedAt : Z;
}.

(** An [agent_sessions] row: the session and the hash of its handle, which is
    NULL for a session created without one. *)
Record SessionRow := mkSessionRow { sr_Session : AgentSession; sr_HandleHash : option string }.

(** [domain.AttemptNote] and [domain.Artifact]. *)
Record AttemptNote := mkAttemptNote {
  an_ID : string;
  an_AttemptID : string;
  an_Kind : string;
  an_Content : string;
  an_NextSteps : list string;
  an_Important : bool;
  an_CreatedAt : Z;
}.

Record Artifact := mkArtifact {
  af_ID : string;
  af_IssueID : string;
  af_AttemptID : option string;
  af_Type : string;
  af_URI : string;
  af_Title : option string;
  af_Metadata : option string;
  af_CreatedAt : Z;
}.

(** *** Events

    [issue_events]: the payload is the JSON object of the writing code, one
    constructor per shape.  A nil slice encodes as [null]: the [changed_fields]
    of an update without changes are [None]. *)
Record issueUpdatedPayload := mkUpdatedPayload {
  up_ChangedFields : option (list string);
  up_Title : option string;
  up_Type : option string;
  up_Priority : option string;
  up_Status : option string;
  up_ParentID : option string;
  up_DescriptionSet : option bool;
  up_AcceptanceCriteriaSet : option bool;
  up_BlockedReasonSet : option bool;
  up_Labels : list string;
}.

Inductive Payload :=
  | PAttemptStarted (attemptID kind : string)
  | PAttemptExpired (attemptID : string)
  | PAttemptCancelled (attemptID reason : string)
  | PAttemptFinished (attemptID outcome : string) (targetStatus : option string)
      (failureReasonCode interruptionReasonCode : option string)
  | PAttemptNote (noteID kind : string)
  | PReservationReserved (reservationID kind displayValue comparisonValue : string)
  | PReservationReleased (reservationID releaseReason : string)
  | PReview (requestID targetID : string) (attemptID outcome reason : option string)
  | PReplaceReview (requestID targetID : string) (successorID predecessorID : option string)
  | PIssueCreated (sequenceNo : Z) (issueType status priority : string) (parentID : option string)
      (labels : list string)
  | PIssueUpdated (p : issueUpdatedPayload)
  | PIssueArchived (version archivedAt : Z)
  | PIssueUnarchived (version unarchivedAt : Z)
  | PRelation (relationID sourceID targetID relationType : string)
  | PComment (commentID : string)
  | PDecision (decisionID status : string) (supersedesID : option string).

(** The [changed_fields] of a payload; [None] when the member is missing or null. *)
Definition payloadChangedFields (p : Payload) : option (list string) :=
  match p with PIssueUpdated u => up_ChangedFields u | _ => None end.

Record Event := mkEvent {
  e_ID : Z;
  e_IssueID : option string;
  e_Type : string;
  e_SessionID : option string;
  e_AttemptID : option string;
  e_Payload : Payload;
  e_CreatedAt : Z;
  e_Source : string;
}.

(** [workflow_policy_events] and [gate_evidence_events]: the two audit logs with
    tables of their own.  The payload of the first is [workflowPolicyEventPayload]
    of workflow_policy.go. *)
Record workflowPolicyEventPayload := mkPolicyPayload {
  wpp_PolicyID : string;
  wpp_Selector : PolicySelector;
  wpp_Requirements : list PolicyRequirementInput;
  wpp_Status : string;
  wpp_Version : Z;
}.
Definition encodeWorkflowPolicyEventPayload (policy : WorkflowPolicy) : workflowPolicyEventPayload :=
  mkPolicyPayload (wp_ID policy) (wp_Selector policy) (map requirementInput (wp_Requirements policy)) (wp_Status policy)
    (wp_Version policy).

Record PolicyEvent := mkPolicyEvent {
  pe_PolicyID : string;
  pe_Payload : workflowPolicyEventPayload;
  pe_Type : string;
  pe_SessionID : option string;
  pe_PriorVersion : option Z;
  pe_NewVersion : Z;
  pe_CreatedAt : Z;
}.

Record EvidenceEvent := mkEvidenceEvent {
  ee_EvidenceID : string;
  ee_AttemptID : string;
  ee_IssueID : string;
  ee_Key : string;
  ee_Type : string;
  ee_Version : Z;
  ee_Result : string;
  ee_ArtifactIDs : list string;
  ee_CreatedAt : Z;
}.

(** *** Stored responses

    [idempotency_records]: the response as it was encoded, and what the JSON
    decodes to, [responseReadBack].  The two differ in the metadata of artifacts
    only: a claim response carries no lease token, texts are valid UTF-8 and
    times lie in the years that [time.Time] encodes. *)
Record IssueProjection := mkIssueProjection {
  ip_Issue : Issue;
  ip_EffectiveStatus : string;
  ip_UnresolvedBlockerCount : Z;
  ip_IsBlocked : bool;
  ip_IsClaimable : bool;
  ip_ActiveAttemptID : option string;
}.

Record ClaimIssueResult := mkClaimResult {
  cr_Issue : Issue;
  cr_Projection : IssueProjection;
  cr_Attempt : WorkAttempt;
  cr_Reservations : list Reservation;
  cr_LeaseToken : string;
}.

Record FinishAttemptResult := mkFinishResult {
  fr_Attempt : WorkAttempt;
  fr_Issue : Issue;
  fr_Warnings : list string;
  fr_LatestEventID : Z;
  fr_Artifacts : list Artifact;
}.

Record SaveAttemptNoteResult := mkNoteResult { nr_Note : AttemptNote; nr_Artifacts : list Artifact }.

Record ReplaceReviewRequestResult := mkReplaceResult {
  pr_Predecessor : ReviewRequest;
  pr_Successor : ReviewRequest;
  pr_SuccessorTarget : ReviewTarget;
  pr_LatestEventID : Z;
}.

(** [ports.UpdateIssueResult] and [ports.ManageIssueRelationResult]. *)
Record UpdateIssueResult := mkUpdateResult { ur_Issue : Issue; ur_ChangedFields : list string }.

Record ManageIssueRelationResult := mkRelationResult {
  mx_Relation : IssueRelation;
  mx_AffectedIssues : list IssueProjection;
  mx_Changed : bool;
}.

(** [ports.ApplyIssuePlanResult] and its parts. *)
Record CreatedPlanIssue := mkPlanIssue { cp_Ref : string; cp_Issue : Issue }.
Record PlanDecision := mkPlanDecision {
  cp_ID : string;
  cp_IssueID : option string;
  cp_Title : string;
  cp_Summary : string;
  cp_Content : string;
  cp_Status : string;
  cp_CreatedAt : Z;
}.
Record ApplyIssuePlanResult := mkPlanResult {
  ap_CreatedIssues : list CreatedPlanIssue;
  ap_CreatedRelations : list IssueRelation;
  ap_CreatedDecisions : list PlanDecision;
  ap_LatestEventID : Z;
}.

Inductive Response :=
  | RClaim (r : ClaimIssueResult)
  | RFinish (r : FinishAttemptResult)
  | RNote (r : SaveAttemptNoteResult)
  | RReservations (r : list Reservation)
  | RReplace (r : ReplaceReviewRequestResult)
  | RIssue (r : Issue)
  | RUpdate (r : UpdateIssueResult)
  | RRelation (r : ManageIssueRelationResult)
  | REvidence (r : AttemptEvidence)
  | RPolicy (r : WorkflowPolicy)
  | RComment (r : Comment)
  | RPlan (r : ApplyIssuePlanResult).

(** A [json.RawMessage] that is encoded and decoded again: nil is written as
    null, which is read as the four bytes of null, and the characters that
    matter to HTML, U+2028 and U+2029 come back as escapes.  (The metadata of an
    artifact is compact, so that compaction does nothing to it.) *)
Fixpoint HTMLEscape (s : string) : string :=
  match s with
  | EmptyString => EmptyString
  | String c rest =>
      if is_char 60 c then esc "u003c" +:+ HTMLEscape rest
      else if is_char 62 c then esc "u003e" +:+ HTMLEscape rest
      else if is_char 38 c then esc "u0026" +:+ HTMLEscape rest
      else match rest with
           | String d (String e rest') =>
               if is_char 226 c && is_char 128 d && (is_char 168 e || is_char 169 e)
               then esc (if is_char 168 e then "u2028" else "u2029") +:+ HTMLEscape rest'
               else String c (HTMLEscape rest)
           | _ => String c (HTMLEscape rest)
           end
  end.
Definition rawMessageReadBack (value : option string) : option string :=
  Some (match value with None => "null" | Some v => HTMLEscape v end).

Definition artifactReadBack (a : Artifact) : Artifact :=
  mkArtifact (af_ID a) (af_IssueID a) (af_AttemptID a) (af_Type a) (af_URI a) (af_Title a)
    (rawMessageReadBack (af_Metadata a)) (af_CreatedAt a).
Definition noteReadBack (r : SaveAttemptNoteResult) : SaveAttemptNoteResult :=
  mkNoteResult (nr_Note r) (map artifactReadBack (nr_Artifacts r)).
Definition finishReadBack (r : FinishAttemptResult) : FinishAttemptResult :=
  mkFinishResult (fr_Attempt r) (fr_Issue r) (fr_Warnings r) (fr_LatestEventID r) (map artifactReadBack (fr_Artifacts r)).
Definition responseReadBack (response : Response) : Response :=
  match response with
  | RNote r => RNote (noteReadBack r)
  | RFinish r => RFinish (finishReadBack r)
  | _ => response
  end.

Record IdempotencyRecord := mkIdempotency {
  im_RequestHash : string;
  im_Response : Response;
  im_CreatedAt : Z;
}.

(** ** The store *)

(** The [projects] columns the issue numbers come from. *)
Record ProjectRow := mkProjectRow { pj_ID : string; pj_NextIssueNumber : Z; pj_UpdatedAt : Z }.

Record Store := mkStore {
  st_issues : gmap string Issue;
  st_sessions : gmap string SessionRow;
  st_labels : gmap string Label;
  st_relations : gmap string IssueRelation;
  st_policies : gmap string WorkflowPolicy;
  st_attempts : gmap string AttemptRow;
  st_attempt_snapshots : gmap string GateSnapshot;
  st_evidence : gmap string AttemptEvidence;
  st_notes : gmap string AttemptNote;
  st_artifacts : gmap string Artifact;
  st_reservations : gmap string reservationRow;
  st_targets : gmap string ReviewTarget;
  st_target_snapshots : gmap string GateSnapshot;
  st_requests : gmap string ReviewRequest;
  st_outcomes : gmap string ReviewOutcomeRecord;
  st_approvals : list ReviewApproval;
  st_comments : gmap string Comment;
  st_decisions : gmap string Decision;
  (** The [projects] row, once the database has been initialized. *)
  st_project : option ProjectRow;
  st_policy_events : list PolicyEvent;
  st_evidence_events : list EvidenceEvent;
  st_events : list Event;
  st_last_event : Z;
  st_idempotency : gmap (string * string) IdempotencyRecord;
  (** The identifiers [ulid.New] will draw from [crypto/rand]. *)
  st_entropy : list string;
}.

Definition set_issues (v : gmap string Issue) (s : Store) : Store :=
  mkStore
    v (st_sessions s) (st_labels s) (st_relations s) (st_policies s) (st_attempts s)
    (st_attempt_snapshots s) (st_evidence s) (st_notes s) (st_artifacts s) (st_reservations s)
    (st_targets s) (st_target_snapshots s) (st_requests s) (st_outcomes s) (st_approvals s)
    (st_comments s) (st_decisions s) (st_project s) (st_policy_events s)
    (st_evidence_events s) (st_events s) (st_last_event s) (st_idempotency s) (st_entropy s).
Definition set_sessions (v : gmap string SessionRow) (s : Store) : Store :=
  mkStore
    (st_issues s) v (st_labels s) (st_relations s) (st_policies s) (st_attempts s)
    (st_attempt_snapshots s) (st_evidence s) (st_notes s) (st_artifacts s) (st_reservations s)
    (st_targets s) (st_target_snapshots s) (st_requests s) (st_outcomes s) (st_approvals s)
    (st_comments s) (st_decisions s) (st_project s) (st_policy_events s)
    (st_evidence_events s) (st_events s) (st_last_event s) (st_idempotency s) (st_entropy s).
Definition set_labels (v : gmap string Label) (s : Store) : Store :=
  mkStore
    (st_issues s) (st_sessions s) v (st_relations s) (st_policies s) (st_attempts s)
    (st_attempt_snapshots s) (st_evidence s) (st_notes s) (st_artifacts s) (st_reservations s)
    (st_targets s) (st_target_snapshots s) (st_requests s) (st_outcomes s) (st_approvals s)
    (st_comments s) (st_decisions s) (st_project s) (st_policy_events s)
    (st_evidence_events s) (st_events s) (st_last_event s) (st_idempotency s) (st_entropy s).
Definition set_relations (v : gmap string IssueRelation) (s : Store) : Store :=
  mkStore
    (st_issues s) (st_sessions s) (st_labels s) v (st_policies s) (st_attempts s)
    (st_attempt_snapshots s) (st_evidence s) (st_notes s) (st_artifacts s) (st_reservations s)
    (st_targets s) (st_target_snapshots s) (st_requests s) (st_outcomes s) (st_approvals s)
    (st_comments s) (st_decisions s) (st_project s) (st_policy_events s)
    (st_evidence_events s) (st_events s) (st_last_event s) (st_idempotency s) (st_entropy s).
Definition set_policies (v : gmap string WorkflowPolicy) (s : Store) : Store :=
  mkStore
    (st_issues s) (st_sessions s) (st_labels s) (st_relations s) v (st_attempts s)
    (st_attempt_snapshots s) (st_evidence s) (st_notes s) (st_artifacts s) (st_reservations s)
    (st_targets s) (st_target_snapshots s) (st_requests s) (st_outcomes s) (st_approvals s)
    (st_comments s) (st_decisions s) (st_project s) (st_policy_events s)
    (st_evidence_events s) (st_events s) (st_last_event s) (st_idempotency s) (st_entropy s).
Definition set_attempts (v : gmap string AttemptRow) (s : Store) : Store :=
  mkStore
    (st_issues s) (st_sessions s) (st_labels s) (st_relations s) (st_policies s) v
    (st_attempt_snapshots s) (st_evidence s) (st_notes s) (st_artifacts s) (st_reservations s)
    (st_targets s) (st_target_snapshots s) (st_requests s) (st_outcomes s) (st_approvals s)
    (st_comments s) (st_decisions s) (st_project s) (st_policy_events s)
    (st_evidence_events s) (st_events s) (st_last_event s) (st_idempotency s) (st_entropy s).
Definition set_attempt_snapshots (v : gmap string GateSnapshot) (s : Store) : Store :=
  mkStore
    (st_issues s) (st_sessions s) (st_labels s) (st_relations s) (st_policies s) (st_attempts s) v
    (st_evidence s) (st_notes s) (st_artifacts s) (st_reservations s) (st_targets s)
    (st_target_snapshots s) (st_requests s) (st_outcomes s) (st_approvals s) (st_comments s)
    (st_decisions s) (st_project s) (st_policy_events s) (st_evidence_events s)
    (st_events s) (st_last_event s) (st_idempotency s) (st_entropy s).
Definition set_evidence (v : gmap string AttemptEvidence) (s : Store) : Store :=
  mkStore
    (st_issues s) (st_sessions s) (st_labels s) (st_relations s) (st_policies s) (st_attempts s)
    (st_attempt_snapshots s) v (st_notes s) (st_artifacts s) (st_reservations s) (st_targets s)
    (st_target_snapshots s) (st_requests s) (st_outcomes s) (st_approvals s) (st_comments s)
    (st_decisions s) (st_project s) (st_policy_events s) (st_evidence_events s)
    (st_events s) (st_last_event s) (st_idempotency s) (st_entropy s).
Definition set_notes (v : gmap string AttemptNote) (s : Store) : Store :=
  mkStore
    (st_issues s) (st_sessions s) (st_labels s) (st_relations s) (st_policies s) (st_attempts s)
    (st_attempt_snapshots s) (st_evidence s) v (st_artifacts s) (st_reservations s) (st_targets s)
    (st_target_snapshots s) (st_requests s) (st_outcomes s) (st_approvals s) (st_comments s)
    (st_decisions s) (st_project s) (st_policy_events s) (st_evidence_events s)
    (st_events s) (st_last_event s) (st_idempotency s) (st_entropy s).
Definition set_artifacts (v : gmap string Artifact) (s : Store) : Store :=
  mkStore
    (st_issues s) (st_sessions s) (st_labels s) (st_relations s) (st_policies s) (st_attempts s)
    (st_attempt_snapshots s) (st_evidence s) (st_notes s) v (st_reservations s) (st_targets s)
    (st_target_snapshots s) (st_requests s) (st_outcomes s) (st_approvals s) (st_comments s)
    (st_decisions s) (st_project s) (st_policy_events s) (st_evidence_events s)
    (st_events s) (st_last_event s) (st_idempotency s) (st_entropy s).
Definition set_reservations (v : gmap string reservationRow) (s : Store) : Store :=
  mkStore
    (st_issues s) (st_sessions s) (st_labels s) (st_relations s) (st_policies s) (st_attempts s)
    (st_attempt_snapshots s) (st_evidence s) (st_notes s) (st_artifacts s) v (st_targets s)
    (st_target_snapshots s) (st_requests s) (st_outcomes s) (st_approvals s) (st_comments s)
    (st_decisions s) (st_project s) (st_policy_events s) (st_evidence_events s)
    (st_events s) (st_last_event s) (st_idempotency s) (st_entropy s).
Definition set_targets (v : gmap string ReviewTarget) (s : Store) : Store :=
  mkStore
    (st_issues s) (st_sessions s) (st_labels s) (st_relations s) (st_policies s) (st_attempts s)
    (st_attempt_snapshots s) (st_evidence s) (st_notes s) (st_artifacts s) (st_reservations s) v
    (st_target_snapshots s) (st_requests s) (st_outcomes s) (st_approvals s) (st_comments s)
    (st_decisions s) (st_project s) (st_policy_events s) (st_evidence_events s)
    (st_events s) (st_last_event s) (st_idempotency s) (st_entropy s).
Definition set_target_snapshots (v : gmap string GateSnapshot) (s : Store) : Store :=
  mkStore
    (st_issues s) (st_sessions s) (st_labels s) (st_relations s) (st_policies s) (st_attempts s)
    (st_attempt_snapshots s) (st_evidence s) (st_notes s) (st_artifacts s) (st_reservations s)
    (st_targets s) v (st_requests s) (st_outcomes s) (st_approvals s) (st_comments s)
    (st_decisions s) (st_project s) (st_policy_events s) (st_evidence_events s)
    (st_events s) (st_last_event s) (st_idempotency s) (st_entropy s).
Definition set_requests (v : gmap string ReviewRequest) (s : Store) : Store :=
  mkStore
    (st_issues s) (st_sessions s) (st_labels s) (st_relations s) (st_policies s) (st_attempts s)
    (st_attempt_snapshots s) (st_evidence s) (st_notes s) (st_artifacts s) (st_reservations s)
    (st_targets s) (st_target_snapshots s) v (st_outcomes s) (st_approvals s) (st_comments s)
    (st_decisions s) (st_project s) (st_policy_events s) (st_evidence_events s)
    (st_events s) (st_last_event s) (st_idempotency s) (st_entropy s).
Definition set_outcomes (v : gmap string ReviewOutcomeRecord) (s : Store) : Store :=
  mkStore
    (st_issues s) (st_sessions s) (st_labels s) (st_relations s) (st_policies s) (st_attempts s)
    (st_attempt_snapshots s) (st_evidence s) (st_notes s) (st_artifacts s) (st_reservations s)
    (st_targets s) (st_target_snapshots s) (st_requests s) v (st_approvals s) (st_comments s)
    (st_decisions s) (st_project s) (st_policy_events s) (st_evidence_events s)
    (st_events s) (st_last_event s) (st_idempotency s) (st_entropy s).
Definition set_approvals (v : list ReviewApproval) (s : Store) : Store :=
  mkStore
    (st_issues s) (st_sessions s) (st_labels s) (st_relations s) (st_policies s) (st_attempts s)
    (st_attempt_snapshots s) (st_evidence s) (st_notes s) (st_artifacts s) (st_reservations s)
    (st_targets s) (st_target_snapshots s) (st_requests s) (st_outcomes s) v (st_comments s)
    (st_decisions s) (st_project s) (st_policy_events s) (st_evidence_events s)
    (st_events s) (st_last_event s) (st_idempotency s) (st_entropy s).
Definition set_comments (v : gmap string Comment) (s : Store) : Store :=
  mkStore
    (st_issues s) (st_sessions s) (st_labels s) (st_relations s) (st_policies s) (st_attempts s)
    (st_attempt_snapshots s) (st_evidence s) (st_notes s) (st_artifacts s) (st_reservations s)
    (st_targets s) (st_target_snapshots s) (st_requests s) (st_outcomes s) (st_approvals s) v
    (st_decisions s) (st_project s) (st_policy_events s) (st_evidence_events s)
    (st_events s) (st_last_event s) (st_idempotency s) (st_entropy s).
Definition set_decisions (v : gmap string Decision) (s : Store) : Store :=
  mkStore
    (st_issues s) (st_sessions s) (st_labels s) (st_relations s) (st_policies s) (st_attempts s)
    (st_attempt_snapshots s) (st_evidence s) (st_notes s) (st_artifacts s) (st_reservations s)
    (st_targets s) (st_target_snapshots s) (st_requests s) (st_outcomes s) (st_approvals s)
    (st_comments s) v (st_project s) (st_policy_events s) (st_evidence_events s)
    (st_events s) (st_last_event s) (st_idempotency s) (st_entropy s).
Definition set_project (v : option ProjectRow) (s : Store) : Store :=
  mkStore
    (st_issues s) (st_sessions s) (st_labels s) (st_relations s) (st_policies s) (st_attempts s)
    (st_attempt_snapshots s) (st_evidence s) (st_notes s) (st_artifacts s) (st_reservations s)
    (st_targets s) (st_target_snapshots s) (st_requests s) (st_outcomes s) (st_approvals s)
    (st_comments s) (st_decisions s) v (st_policy_events s) (st_evidence_events s) (st_events s)
    (st_last_event s) (st_idempotency s) (st_entropy s).
Definition set_policy_events (v : list PolicyEvent) (s : Store) : Store :=
  mkStore
    (st_issues s) (st_sessions s) (st_labels s) (st_relations s) (st_policies s) (st_attempts s)
    (st_attempt_snapshots s) (st_evidence s) (st_notes s) (st_artifacts s) (st_reservations s)
    (st_targets s) (st_target_snapshots s) (st_requests s) (st_outcomes s) (st_approvals s)
    (st_comments s) (st_decisions s) (st_project s) v (st_evidence_events s)
    (st_events s) (st_last_event s) (st_idempotency s) (st_entropy s).
Definition set_evidence_events (v : list EvidenceEvent) (s : Store) : Store :=
  mkStore
    (st_issues s) (st_sessions s) (st_labels s) (st_relations s) (st_policies s) (st_attempts s)
    (st_attempt_snapshots s) (st_evidence s) (st_notes s) (st_artifacts s) (st_reservations s)
    (st_targets s) (st_target_snapshots s) (st_requests s) (st_outcomes s) (st_approvals s)
    (st_comments s) (st_decisions s) (st_project s) (st_policy_events s) v (st_events s)
    (st_last_event s) (st_idempotency s) (st_entropy s).
Definition set_idempotency (v : gmap (string * string) IdempotencyRecord) (s : Store) : Store :=
  mkStore
    (st_issues s) (st_sessions s) (st_labels s) (st_relations s) (st_policies s) (st_attempts s)
    (st_attempt_snapshots s) (st_evidence s) (st_notes s) (st_artifacts s) (st_reservations s)
    (st_targets s) (st_target_snapshots s) (st_requests s) (st_outcomes s) (st_approvals s)
    (st_comments s) (st_decisions s) (st_project s) (st_policy_events s)
    (st_evidence_events s) (st_events s) (st_last_event s) v (st_entropy s).
Definition set_entropy (v : list string) (s : Store) : Store :=
  mkStore
    (st_issues s) (st_sessions s) (st_labels s) (st_relations s) (st_policies s) (st_attempts s)
    (st_attempt_snapshots s) (st_evidence s) (st_notes s) (st_artifacts s) (st_reservations s)
    (st_targets s) (st_target_snapshots s) (st_requests s) (st_outcomes s) (st_approvals s)
    (st_comments s) (st_decisions s) (st_project s) (st_policy_events s)
    (st_evidence_events s) (st_events s) (st_last_event s) (st_idempotency s) v.
Definition push_event (v : Event) (s : Store) : Store :=
  mkStore
    (st_issues s) (st_sessions s) (st_labels s) (st_relations s) (st_policies s) (st_attempts s)
    (st_attempt_snapshots s) (st_evidence s) (st_notes s) (st_artifacts s) (st_reservations s)
    (st_targets s) (st_target_snapshots s) (st_requests s) (st_outcomes s) (st_approvals s)
    (st_comments s) (st_decisions s) (st_project s) (st_policy_events s)
    (st_evidence_events s) (st_events s ++ [v]) (st_last_event s + 1) (st_idempotency s)
    (st_entropy s).

(** ** Transactions *)

Definition Tx (A : Type) : Type := Store → result (A * Store).

#[export] Instance Tx_ret : MRet Tx := λ A a s, Ok (a, s).
#[export] Instance Tx_bind : MBind Tx := λ A B f m s,
  match m s with Ok (a, s') => f a s' | Err e => Err e end.

Definition fail {A} (e : DomainError) : Tx A := λ _, Err e.
Definition query {A} (f : Store → A) : Tx A := λ s, Ok (f s, s).
Definition lift {A} (r : result A) : Tx A := λ s, match r with Ok a => Ok (a, s) | Err e => Err e end.
(** A read that can fail. *)
Definition lift_query {A} (f : Store → result A) : Tx A := λ s, lift (f s) s.
Definition modify (f : Store → Store) : Tx unit := λ s, Ok (tt, f s).

(** [if b { return err }] and [if err := m; err != nil { return err }] inside a
    transaction. *)
Notation "'raise_if' b 'with' e ';;' k" := (if b then fail e else k)
  (at level 10, b at level 99, e at level 99, k at level 200) : go_scope.
Notation "'run' m ';;' k" := (mbind (λ _, k) m)
  (at level 10, m at level 99, k at level 200) : go_scope.

(** [range] inside a transaction. *)
Fixpoint for_each {A} (f : A → Tx unit) (l : list A) : Tx unit :=
  match l with
  | [] => mret tt
  | x :: l => run f x ;; for_each f l
  end.

(** [DB.Write]: commit on success, roll back on an error.  The value a callback
    leaves for after the commit may itself be an error ([leaseExpired],
    [staleReviewTargetErr]): the inner [result]. *)
Definition Write {A} (m : Tx (result A)) (s : Store) : result A * Store :=
  match m s with
  | Ok (r, s') => (r, s')
  | Err e => (Err e, s)
  end.

(** ** Constraint violations

    The driver's message text is not part of this repository. *)
Class SQLiteDriver := { sqlite_message : string → string }.

Definition sqliteConstraint (message : string) : DomainError :=
  WrapError message CodeStorageConstraint "storage constraint rejected the operation" false
    [mkDetail None "storage" "SQLITE_CONSTRAINT" message].
Definition constraintError `{SQLiteDriver} (name : string) : DomainError :=
  sqliteConstraint (sqlite_message name).

(** [sql.ErrNoRows]: a plain error, which [TranslateError] passes through. *)
Definition sqlNoRows : DomainError := mkError "" "sql: no rows in result set" [] false None.

(** [fmt.Errorf("...: %w", err)] around a transaction step, after
    [TranslateError]: a driver error is translated with the longer text, a
    domain error keeps its code, message and details. *)
Definition errorf (prefix : string) (e : DomainError) : DomainError :=
  if e_Code e =s CodeStorageConstraint
  then sqliteConstraint (prefix +:+ ": " +:+ default "" (e_cause e))
  else WrapError (prefix +:+ ": " +:+ e_Message e) (e_Code e) (e_Message e) (e_Retryable e) (e_Details e).
Definition wrap {A} (prefix : string) (m : Tx A) : Tx A := λ s,
  match m s with Ok r => Ok r | Err e => Err (errorf prefix e) end.

(** ** Tables with a primary key *)

Class Table (R : Type) := {
  table : Store → gmap string R;
  set_table : gmap string R → Store → Store;
  row_id : R → string;
  constraint : Store → string → R → bool;
  table_name : string;
}.

(** The rows of a table, by ascending id. *)
Definition rowLess `{Table R} (a b : R) : bool := str_less (row_id a) (row_id b).
Definition rows `{Table R} (s : Store) : list R := map snd (map_to_list (table s)).
Definition select `{Table R} (p : R → bool) (s : Store) : list R :=
  stable_sort rowLess (List.filter p (rows s)).

(** SELECT EXISTS(SELECT 1 ... WHERE p). *)
Definition exists_row `{Table R} (p : R → bool) (s : Store) : bool := existsb p (rows s).
Definition has_row `{Table R} (id : string) (s : Store) : bool :=
  match table s !! id with Some _ => true | None => false end.

(** INSERT: the key must be new and the row satisfy the constraints. *)
Definition Insert `{SQLiteDriver, Table R} (row : R) : Tx unit := λ s,
  let id := row_id row in
  if negb (has_row id s) && constraint s id row
  then Ok (tt, set_table (<[id := row]> (table s)) s)
  else Err (constraintError table_name).

(** UPDATE ... WHERE id = ? AND p, with the number of rows affected. *)
Definition Update `{SQLiteDriver, Table R} (id : string) (p : R → bool) (f : R → R) : Tx Z := λ s,
  match table s !! id with
  | Some row =>
      if p row then
        if constraint s id (f row)
        then Ok (1%Z, set_table (<[id := f row]> (table s)) s)
        else Err (constraintError table_name)
      else Ok (0%Z, s)
  | None => Ok (0%Z, s)
  end.

(** DELETE ... WHERE id = ?, of a table no foreign key refers to. *)
Definition Delete `{Table R} (id : string) : Tx unit := λ s, Ok (tt, set_table (delete id (table s)) s).

(** Another row than [id] that satisfies [p]: a unique index is violated when
    the new row and another one both enter the index with one key. *)
Definition exists_other {R} (m : gmap string R) (id : string) (p : R → bool) : bool :=
  existsb (λ e : string * R, negb (e.1 =s id) && p e.2) (map_to_list m).

Definition fk {R} (m : gmap string R) (id : string) : bool :=
  match m !! id with Some _ => true | None => false end.
Definition fk_opt {R} (m : gmap string R) (id : option string) : bool :=
  match id with Some id => fk m id | None => true end.
Definition fk_session (s : Store) (id : option string) : bool :=
  fk_opt (st_sessions s) id.

(** ** The schema's constraints

    [internal/migrations/sql/001_initial_schema.sql], [003_review_workflow.sql],
    [011_reservations.sql], [012_review_purpose_approvals.sql],
    [016_review_target_snapshot.sql]. *)

Definition id_ok (id : string) : bool := (len id =? 26)%Z.
(** [length(trim(x)) > 0]: SQLite's trim removes spaces only. *)
Definition sql_nonblank (x : string) : bool := str_exists (λ c, negb (Ascii.eqb c (byte_of 32))) x.

(** The unique indexes: two rows that may not coexist. *)
Definition sequenceClash (a b : Issue) : bool := (i_SequenceNo a =? i_SequenceNo b)%Z.
Definition labelNameClash (a b : Label) : bool := asciiLower (l_Name a) =s asciiLower (l_Name b).
Definition handleClash (a b : SessionRow) : bool :=
  isSet (sr_HandleHash a) && isSet (sr_HandleHash b) && bool_decide (sr_HandleHash a = sr_HandleHash b).
Definition relationClash (a b : IssueRelation) : bool :=
  (rel_SourceIssueID a =s rel_SourceIssueID b) && (rel_TargetIssueID a =s rel_TargetIssueID b) &&
  (rel_Type a =s rel_Type b).
Definition evidenceClash (a b : AttemptEvidence) : bool :=
  (ev_AttemptID a =s ev_AttemptID b) && (ev_Key a =s ev_Key b).
Definition supersedesClash (a b : Decision) : bool :=
  isSet (dc_SupersedesID a) && isSet (dc_SupersedesID b) && bool_decide (dc_SupersedesID a = dc_SupersedesID b).
Definition activeAttemptClash (a b : AttemptRow) : bool :=
  attemptActive a && attemptActive b && (ar_IssueID a =s ar_IssueID b).
Definition exactKind (r : reservationRow) : bool :=
  (rr_Kind r =s ResourceKindFile) || (rr_Kind r =s ResourceKindLogical).
Definition activeIdentityClash (a b : reservationRow) : bool :=
  reservationActive a && reservationActive b && exactKind a && exactKind b &&
  (rr_Kind a =s rr_Kind b) && (rr_ComparisonValue a =s rr_ComparisonValue b).
Definition outcomeRequestClash (a b : ReviewOutcomeRecord) : bool := ro_RequestID a =s ro_RequestID b.

Definition issue_constraint (s : Store) (id : string) (r : Issue) : bool :=
  id_ok id && (0 <? i_SequenceNo r)%Z && Type_Valid (i_Type r) && negb (i_Title r =s "") &&
  Status_Valid (i_Status r) && Priority_Valid (i_Priority r) && (1 <=? i_Version r)%Z &&
  match i_ParentID r with Some p => negb (p =s id) && fk (st_issues s) p && negb (i_Type r =s TypeEpic) | None => true end &&
  match i_BlockedReason r with
  | Some reason => (i_Status r =s StatusBlocked) && sql_nonblank reason
  | None => negb (i_Status r =s StatusBlocked)
  end &&
  fk_session s (i_CreatedBySessionID r) && fk_session s (i_ArchivedBySessionID r) &&
  negb (exists_other (st_issues s) id (sequenceClash r)).

Definition attempt_constraint (s : Store) (id : string) (r : AttemptRow) : bool :=
  let a := ar_Attempt r in
  id_ok id && AttemptKind_Valid (wa_Kind a) && AttemptStatus_Valid (wa_Status a) &&
  (1 <=? wa_IssueVersionAtStart a)%Z && (0 <=? wa_ContextEventIDAtStart a)%Z &&
  negb (ar_LeaseTokenHash r =s "") &&
  Bool.eqb (wa_Status a =s AttemptStatusActive) (negb (isSet (wa_FinishedAt a))) &&
  Bool.eqb (wa_Status a =s AttemptStatusFailed) (isSet (wa_FailureReasonCode a)) &&
  Bool.eqb (wa_Status a =s AttemptStatusInterrupted) (isSet (wa_InterruptionReasonCode a)) &&
  match wa_FailureReasonCode a with Some c => FailureReasonCode_Valid c | None => true end &&
  match wa_InterruptionReasonCode a with Some c => InterruptionReasonCode_Valid c | None => true end &&
  fk (st_issues s) (wa_IssueID a) && fk_session s (wa_SessionID a) &&
  negb (exists_other (st_attempts s) id (activeAttemptClash r)).

Definition reservation_constraint (s : Store) (id : string) (row : reservationRow) : bool :=
  let r := rr_Reservation row in
  id_ok id && ResourceKind_Valid (rv_Kind r) && negb (rv_DisplayValue r =s "") &&
  negb (rv_ComparisonValue r =s "") && (1 <=? rv_Version r)%Z &&
  (((rv_Status r =s ReservationStatusActive) && negb (isSet (rv_ReleasedAt r)) && negb (isSet (rv_ReleaseReason r))) ||
   ((rv_Status r =s ReservationStatusReleased) && isSet (rv_ReleasedAt r) && isSet (rv_ReleaseReason r))) &&
  match rv_ReleaseReason r with Some reason => ReservationReleaseReason_Valid reason | None => true end &&
  fk (st_issues s) (rv_IssueID r) && fk (st_attempts s) (rv_AttemptID r) &&
  negb (exists_other (st_reservations s) id (activeIdentityClash row)).

Definition purposes_count_ok (purposes : list string) : bool :=
  (1 <=? Z.of_nat (length purposes))%Z && (Z.of_nat (length purposes) <=? 10)%Z.

Definition target_constraint (s : Store) (id : string) (r : ReviewTarget) : bool :=
  id_ok id && (1 <=? rt_IssueVersion r)%Z && (0 <=? rt_LatestEventID r)%Z && (1 <=? rt_Version r)%Z &&
  purposes_count_ok (rt_Purposes r) && fk (st_issues s) (rt_IssueID r).

Definition ReviewRequestStatusOpen := "open".
Definition ReviewRequestStatusClaimed := "claimed".
Definition ReviewRequestStatusApproved := "approved".
Definition ReviewRequestStatusChangesRequested := "changes_requested".
Definition ReviewRequestStatusBlocked := "blocked".
Definition ReviewRequestStatusCancelled := "cancelled".
Definition ReviewRequestStatusSuperseded := "superseded".
Definition ReviewRequestStatus_Valid (s : string) : bool :=
  enumValid s [ReviewRequestStatusOpen; ReviewRequestStatusClaimed; ReviewRequestStatusApproved;
    ReviewRequestStatusChangesRequested; ReviewRequestStatusBlocked; ReviewRequestStatusCancelled;
    ReviewRequestStatusSuperseded].

Definition requestOpen (r : ReviewRequest) : bool := rq_Status r =s ReviewRequestStatusOpen.
Definition requestClaimed (r : ReviewRequest) : bool := rq_Status r =s ReviewRequestStatusClaimed.
Definition requestUnresolved (r : ReviewRequest) : bool := requestOpen r || requestClaimed r.
Definition optEq (a b : option string) : bool := bool_decide (a = b).

Definition activeTargetClash (a b : ReviewRequest) : bool :=
  requestUnresolved a && requestUnresolved b && (rq_TargetID a =s rq_TargetID b).
Definition activeAttemptIDClash (a b : ReviewRequest) : bool :=
  isSet (rq_ActiveAttemptID a) && isSet (rq_ActiveAttemptID b) &&
  optEq (rq_ActiveAttemptID a) (rq_ActiveAttemptID b).
Definition activeIssueVersionClash (a b : ReviewRequest) : bool :=
  requestUnresolved a && requestUnresolved b && (rq_IssueID a =s rq_IssueID b) &&
  (rq_TargetIssueVersion a =? rq_TargetIssueVersion b)%Z.

Definition request_constraint (s : Store) (id : string) (r : ReviewRequest) : bool :=
  id_ok id && (1 <=? rq_TargetIssueVersion r)%Z && (0 <=? rq_TargetEventID r)%Z && (1 <=? rq_Version r)%Z &&
  ReviewRequestStatus_Valid (rq_Status r) && purposes_count_ok (rq_Purposes r) &&
  Bool.eqb (requestUnresolved r) (negb (isSet (rq_ResolvedAt r))) &&
  Bool.eqb (requestClaimed r) (isSet (rq_ActiveAttemptID r)) &&
  match rq_SupersedesID r with Some p => negb (p =s id) | None => true end &&
  fk (st_targets s) (rq_TargetID r) && fk (st_issues s) (rq_IssueID r) &&
  fk_opt (st_requests s) (rq_SupersedesID r) && fk_opt (st_attempts s) (rq_ActiveAttemptID r) &&
  negb (exists_other (st_requests s) id (activeTargetClash r)) &&
  negb (exists_other (st_requests s) id (activeAttemptIDClash r)) &&
  negb (exists_other (st_requests s) id (activeIssueVersionClash r)).

Definition outcome_constraint (s : Store) (id : string) (r : ReviewOutcomeRecord) : bool :=
  id_ok id && ReviewOutcome_Valid (ro_Outcome r) && (1 <=? ro_Version r)%Z &&
  match ro_Reason r with
  | Some reason => (ro_Outcome r =s ReviewOutcomeBlocked) && sql_nonblank reason
  | None => negb (ro_Outcome r =s ReviewOutcomeBlocked)
  end &&
  fk (st_requests s) (ro_RequestID r) && fk (st_attempts s) (ro_AttemptID r) &&
  negb (exists_other (st_outcomes s) id (outcomeRequestClash r)).

Definition note_constraint (s : Store) (id : string) (r : AttemptNote) : bool :=
  id_ok id && AttemptNoteKind_Valid (an_Kind r) && negb (an_Content r =s "") && fk (st_attempts s) (an_AttemptID r).

Definition artifact_constraint (s : Store) (id : string) (r : Artifact) : bool :=
  id_ok id && ArtifactType_Valid (af_Type r) && negb (af_URI r =s "") &&
  fk (st_issues s) (af_IssueID r) && fk_opt (st_attempts s) (af_AttemptID r).

Definition session_constraint (s : Store) (id : string) (r : SessionRow) : bool :=
  id_ok id && negb (as_ClientName (sr_Session r) =s "") && negb (exists_other (st_sessions s) id (handleClash r)).

Definition label_constraint (s : Store) (id : string) (r : Label) : bool :=
  id_ok id && sql_nonblank (l_Name r) && negb (exists_other (st_labels s) id (labelNameClash r)).

Definition relation_constraint (s : Store) (id : string) (r : IssueRelation) : bool :=
  id_ok id && RelationType_Valid (rel_Type r) && negb (rel_SourceIssueID r =s rel_TargetIssueID r) &&
  (negb (rel_Type r =s RelationTypeRelatedTo) || str_less (rel_SourceIssueID r) (rel_TargetIssueID r)) &&
  fk (st_issues s) (rel_SourceIssueID r) && fk (st_issues s) (rel_TargetIssueID r) &&
  negb (exists_other (st_relations s) id (relationClash r)).

Definition policy_constraint (s : Store) (id : string) (r : WorkflowPolicy) : bool :=
  id_ok id && PolicyStatus_Valid (wp_Status r) && (1 <=? wp_Version r)%Z.

(** [010_gate_evidence.sql]. *)
Definition evidence_constraint (s : Store) (id : string) (r : AttemptEvidence) : bool :=
  id_ok id && negb (ev_Key r =s "") && EvidenceResult_Valid (ev_Result r) && negb (ev_Summary r =s "") &&
  (1 <=? ev_Version r)%Z && fk (st_attempts s) (ev_AttemptID r) && fk (st_issues s) (ev_IssueID r) &&
  negb (exists_other (st_evidence s) id (evidenceClash r)).

Definition comment_constraint (s : Store) (id : string) (r : Comment) : bool :=
  id_ok id && negb (cm_Content r =s "") && fk (st_issues s) (cm_IssueID r) && fk_session s (cm_CreatedBySessionID r).

Definition decision_constraint (s : Store) (id : string) (r : Decision) : bool :=
  id_ok id && negb (dc_Title r =s "") && negb (dc_Summary r =s "") && DecisionStatus_Valid (dc_Status r) &&
  match dc_SupersedesID r with Some p => negb (p =s id) | None => true end &&
  fk_opt (st_issues s) (dc_IssueID r) && fk_opt (st_decisions s) (dc_SupersedesID r) &&
  fk_session s (dc_CreatedBySessionID r) &&
  negb (exists_other (st_decisions s) id (supersedesClash r)).

#[export] Instance issues_table : Table Issue :=
  {| table := st_issues; set_table := set_issues; row_id := i_ID;
     constraint := issue_constraint; table_name := "issues" |}.
#[export] Instance attempts_table : Table AttemptRow :=
  {| table := st_attempts; set_table := set_attempts; row_id r := wa_ID (ar_Attempt r);
     constraint := attempt_constraint; table_name := "work_attempts" |}.
#[export] Instance reservations_table : Table reservationRow :=
  {| table := st_reservations; set_table := set_reservations; row_id := rr_ID;
     constraint := reservation_constraint; table_name := "resource_reservations" |}.
#[export] Instance targets_table : Table ReviewTarget :=
  {| table := st_targets; set_table := set_targets; row_id := rt_ID;
     constraint := target_constraint; table_name := "review_targets" |}.
#[export] Instance requests_table : Table ReviewRequest :=
  {| table := st_requests; set_table := set_requests; row_id := rq_ID;
     constraint := request_constraint; table_name := "review_requests" |}.
#[export] Instance outcomes_table : Table ReviewOutcomeRecord :=
  {| table := st_outcomes; set_table := set_outcomes; row_id := ro_ID;
     constraint := outcome_constraint; table_name := "review_outcomes" |}.
#[export] Instance notes_table : Table AttemptNote :=
  {| table := st_notes; set_table := set_notes; row_id := an_ID;
     constraint := note_constraint; table_name := "attempt_notes" |}.
#[export] Instance artifacts_table : Table Artifact :=
  {| table := st_artifacts; set_table := set_artifacts; row_id := af_ID;
     constraint := artifact_constraint; table_name := "artifacts" |}.
#[export] Instance sessions_table : Table SessionRow :=
  {| table := st_sessions; set_table := set_sessions; row_id r := as_ID (sr_Session r);
     constraint := session_constraint; table_name := "agent_sessions" |}.
#[export] Instance labels_table : Table Label :=
  {| table := st_labels; set_table := set_labels; row_id r := l_ID r;
     constraint := label_constraint; table_name := "labels" |}.
#[export] Instance relations_table : Table IssueRelation :=
  {| table := st_relations; set_table := set_relations; row_id r := rel_ID r;
     constraint := relation_constraint; table_name := "issue_relations" |}.
#[export] Instance policies_table : Table WorkflowPolicy :=
  {| table := st_policies; set_table := set_policies; row_id r := wp_ID r;
     constraint := policy_constraint; table_name := "workflow_policies" |}.
#[export] Instance evidence_table : Table AttemptEvidence :=
  {| table := st_evidence; set_table := set_evidence; row_id r := ev_ID r;
     constraint := evidence_constraint; table_name := "gate_evidence" |}.
#[export] Instance comments_table : Table Comment :=
  {| table := st_comments; set_table := set_comments; row_id r := cm_ID r;
     constraint := comment_constraint; table_name := "comments" |}.
#[export] Instance decisions_table : Table Decision :=
  {| table := st_decisions; set_table := set_decisions; row_id r := dc_ID r;
     constraint := decision_constraint; table_name := "decisions" |}.

(** ** The event log

    [INSERT INTO issue_events ... RETURNING id]: AUTOINCREMENT numbers the
    events, the log is append-only. *)
Definition with_id (id : Z) (e : Event) : Event :=
  mkEvent id (e_IssueID e) (e_Type e) (e_SessionID e) (e_AttemptID e) (e_Payload e) (e_CreatedAt e) (e_Source e).
Definition append_draft (e : Event) (s : Store) : Store :=
  push_event (with_id (st_last_event s + 1) e) s.

Definition SourceIssue := "issue".
Definition SourceReview := "review".

Section operations.
Context `{SQLiteDriver}.

Definition appendEvent (issueID eventType : string) (sessionID attemptID : option string)
    (payload : Payload) (createdAt : Z) (source : string) : Tx Z := λ s,
  if negb (eventType =s "") && fk (st_issues s) issueID && fk_session s sessionID &&
     fk_opt (st_attempts s) attemptID
  then
    Ok ((st_last_event s + 1)%Z,
        append_draft (mkEvent 0 (Some issueID) eventType sessionID attemptID payload createdAt source) s)
  else Err (constraintError "issue_events").

Definition appendIssueEvent (issueID eventType : string) (sessionID attemptID : option string)
    (payload : Payload) (createdAt : Z) : Tx unit :=
  run appendEvent issueID eventType sessionID attemptID payload createdAt SourceIssue ;; mret tt.

(** [SELECT COALESCE(MAX(id), 0) FROM issue_events]. *)
Definition latestEventID (s : Store) : Z := foldr Z.max 0%Z (map e_ID (st_events s)).

(** ** Idempotency records *)

Definition idempotencyConflict : DomainError :=
  NewError CodeIdempotencyConflict "idempotency key was used with a different request" false
    [mkDetail None "idempotency_key" CodeIdempotencyConflict ""].
Definition corruptResponse : DomainError :=
  WrapError "json" CodeStorageCorrupt "stored idempotency response is invalid" false [].

(** The lookup every idempotent operation starts with; an empty key means that
    the request is not idempotent. *)
Definition lookupIdempotency (operation key hash : string) : Tx (option Response) := λ s,
  if key =s "" then Ok (None, s)
  else match st_idempotency s !! (operation, key) with
       | None => Ok (None, s)
       | Some saved =>
           if negb (im_RequestHash saved =s hash) then Err idempotencyConflict
           else Ok (Some (responseReadBack (im_Response saved)), s)
       end.

Definition storeIdempotency (operation key hash : string) (response : Response) (now : Z) : Tx unit := λ s,
  if key =s "" then Ok (tt, s)
  else if negb (hash =s "") && match st_idempotency s !! (operation, key) with None => true | _ => false end
  then Ok (tt, set_idempotency (<[(operation, key) := mkIdempotency hash response now]> (st_idempotency s)) s)
  else Err (constraintError "idempotency_records").

(** ** Issues *)

(** [labelNames]. *)
Definition labelNames (labels : list Label) : list string := map l_Name labels.

Definition issueNotFound : DomainError := NewError CodeIssueNotFound "issue not found" false [].

Definition loadIssueForMutation (identifier : IssueIdentifier) : Tx Issue := λ s,
  let found :=
    match id_Kind identifier with
    | IssueIdentifierInternalID => st_issues s !! id_Value identifier
    | IssueIdentifierDisplayID =>
        List.find (λ i, (i_SequenceNo i =? id_SequenceNo identifier)%Z) (rows s)
    end in
  match found with Some issue => Ok (issue, s) | None => Err issueNotFound end.

Definition internalIdentifier (id : string) : IssueIdentifier := mkIdentifier IssueIdentifierInternalID id 0.

(** [issueUnresolvedBlockerCountSQL]. *)
Definition unresolvedBlockerCount (issueID : string) (s : Store) : Z :=
  Z.of_nat (length (List.filter (λ r : IssueRelation,
    (rel_Type r =s "blocks") && (rel_TargetIssueID r =s issueID) &&
    match st_issues s !! rel_SourceIssueID r with
    | Some source =>
        negb (isSet (i_ArchivedAt source)) &&
        negb ((i_Status source =s StatusDone) || (i_Status source =s StatusCancelled))
    | None => false
    end) (rows s))).

(** [SELECT EXISTS(SELECT 1 FROM work_attempts WHERE issue_id = ? AND status = 'active')]. *)
Definition hasActiveAttempt (issueID : string) (s : Store) : bool :=
  exists_row (λ a, (ar_IssueID a =s issueID) && attemptActive a) s.

(** [classifyConditionalUpdateFailure]. *)
Definition classifyConditionalUpdateFailure (id : string) (s : Store) : DomainError :=
  match st_issues s !! id with
  | None => issueNotFound
  | Some issue =>
      if isSet (i_ArchivedAt issue) then NewError CodeIssueArchived "issue is archived" false []
      else NewError CodeVersionConflict "issue version conflict" true []
  end.

(** [issueActiveAttemptIDSQL], [issueClaimableSQLAt], [issueBlockedSQL],
    [issueEffectiveStatusSQL] and the projection they form. *)
Definition activeAttemptID (issueID : string) (now : Z) (s : Store) : option string :=
  match select (λ a, (ar_IssueID a =s issueID) && attemptActive a && (now <? ar_LeaseExpiresAt a)%Z) s with
  | a :: _ => Some (wa_ID (ar_Attempt a))
  | [] => None
  end.

Definition issueProjection (issue : Issue) (now : Z) (s : Store) : IssueProjection :=
  let blockers := unresolvedBlockerCount (i_ID issue) s in
  let active := activeAttemptID (i_ID issue) now s in
  let claimable :=
    negb (isSet (i_ArchivedAt issue)) && ((i_Type issue =s TypeTask) || (i_Type issue =s TypeBug)) &&
    ((i_Status issue =s StatusReady) || (i_Status issue =s StatusReview)) && (blockers =? 0)%Z in
  mkIssueProjection issue
    (if isSet active then "in_progress" else i_Status issue)
    blockers
    ((i_Status issue =s StatusBlocked) || (0 <? blockers)%Z)
    (claimable && negb (isSet active))
    active.

Definition queryIssueProjectionByID (issueID : string) (now : Z) : Tx IssueProjection := λ s,
  match st_issues s !! issueID with
  | Some issue => Ok (issueProjection issue now s, s)
  | None => Err issueNotFound
  end.
End operations.

(** ** Running a transaction *)

Section tx_lemmas.
Context {A B : Type}.

Lemma tx_bind_Ok (m : Tx A) (f : A → Tx B) s r :
  (m ≫= f) s = Ok r ↔ ∃ a s', m s = Ok (a, s') ∧ f a s' = Ok r.
Proof. unfold mbind, Tx_bind. destruct (m s) as [[a s']|e]; naive_solver. Qed.

Lemma tx_ret_Ok (a b : A) s s' : (mret a : Tx A) s = Ok (b, s') ↔ b = a ∧ s' = s.
Proof. unfold mret, Tx_ret. naive_solver. Qed.

Lemma query_Ok (f : Store → A) s a s' : query f s = Ok (a, s') ↔ a = f s ∧ s' = s.
Proof. unfold query. naive_solver. Qed.

Lemma lift_Ok (r : result A) s a s' : lift r s = Ok (a, s') ↔ r = Ok a ∧ s' = s.
Proof. unfold lift. destruct r; naive_solver. Qed.

Lemma lift_query_Ok (f : Store → result A) s a s' : lift_query f s = Ok (a, s') ↔ f s = Ok a ∧ s' = s.
Proof. apply lift_Ok. Qed.

Lemma raise_if_Ok (b : bool) e (k : Tx A) s r :
  (raise_if b with e ;; k) s = Ok r ↔ b = false ∧ k s = Ok r.
Proof. destruct b; unfold fail; naive_solver. Qed.

Lemma fail_Ok e s (r : A * Store) : fail e s = Ok r ↔ False.
Proof. done. Qed.

Lemma wrap_Ok prefix (m : Tx A) s r : wrap prefix m s = Ok r ↔ m s = Ok r.
Proof. unfold wrap. destruct (m s); naive_solver. Qed.

Lemma Write_spec (m : Tx (result A)) s :
  (∃ e, m s = Err e ∧ Write m s = (Err e, s)) ∨ (∃ r s', m s = Ok (r, s') ∧ Write m s = (r, s')).
Proof. unfold Write. destruct (m s) as [[r s']|e]; eauto 10. Qed.
End tx_lemmas.

(** The first step of a run. *)
Lemma bind_run {A B} (m : Tx A) (f : A → Tx B) s a s' : m s = Ok (a, s') → (m ≫= f) s = f a s'.
Proof. intros Hm. unfold mbind, Tx_bind. by rewrite Hm. Qed.
Lemma bind_err {A B} (m : Tx A) (f : A → Tx B) s e : m s = Err e → (m ≫= f) s = Err e.
Proof. intros Hm. unfold mbind, Tx_bind. by rewrite Hm. Qed.
Lemma Write_run {A} (m : Tx (result A)) s r s' : m s = Ok (r, s') → Write m s = (r, s').
Proof. intros Hm. unfold Write. by rewrite Hm. Qed.
Lemma Write_err {A} (m : Tx (result A)) s e : m s = Err e → Write m s = (Err e, s).
Proof. intros Hm. unfold Write. by rewrite Hm. Qed.

(** Invert a successful run, one step at a time. *)
Ltac inv_tx_step H :=
  lazymatch type of H with
  | (_ ≫= _) _ = Ok _ =>
      let a := fresh "a" in let s := fresh "s" in let Ha := fresh "Hstep" in
      apply tx_bind_Ok in H as (a & s & Ha & H); cbn beta in H
  | mret _ _ = Ok (_, _) => apply tx_ret_Ok in H as [? ?]; subst
  | query _ _ = Ok (_, _) => apply query_Ok in H as [? ?]; subst
  | lift_query _ _ = Ok (_, _) => apply lift_query_Ok in H as [? ?]; subst
  | lift _ _ = Ok (_, _) => apply lift_Ok in H as [? ?]; subst
  | fail _ _ = Ok _ => destruct (proj1 (fail_Ok _ _ _) H)
  | wrap _ _ _ = Ok _ => apply wrap_Ok in H
  | (if _ then fail _ else _) _ = Ok _ => apply raise_if_Ok in H as [? H]
  end.
Ltac inv_tx := repeat match goal with H : _ = Ok _ |- _ => inv_tx_step H end.

(** ** Tables *)

Class TableLaws (R : Type) `{Table R} : Prop := {
  table_set_table m s : table (set_table m s) = m;
}.
#[export] Instance issues_laws : TableLaws Issue. Proof. by split. Qed.
#[export] Instance attempts_laws : TableLaws AttemptRow. Proof. by split. Qed.
#[export] Instance reservations_laws : TableLaws reservationRow. Proof. by split. Qed.
#[export] Instance targets_laws : TableLaws ReviewTarget. Proof. by split. Qed.
#[export] Instance requests_laws : TableLaws ReviewRequest. Proof. by split. Qed.
#[export] Instance outcomes_laws : TableLaws ReviewOutcomeRecord. Proof. by split. Qed.
#[export] Instance notes_laws : TableLaws AttemptNote. Proof. by split. Qed.
#[export] Instance artifacts_laws : TableLaws Artifact. Proof. by split. Qed.
#[export] Instance sessions_laws : TableLaws SessionRow. Proof. by split. Qed.
#[export] Instance labels_laws : TableLaws Label. Proof. by split. Qed.
#[export] Instance relations_laws : TableLaws IssueRelation. Proof. by split. Qed.
#[export] Instance policies_laws : TableLaws WorkflowPolicy. Proof. by split. Qed.
#[export] Instance evidence_laws : TableLaws AttemptEvidence. Proof. by split. Qed.
#[export] Instance comments_laws : TableLaws Comment. Proof. by split. Qed.
#[export] Instance decisions_laws : TableLaws Decision. Proof. by split. Qed.

(** The key of a row is its id column. *)
Definition keyed {R} `{Table R} (m : gmap string R) : Prop := ∀ id r, m !! id = Some r → row_id r = id.

Section table_lemmas.
Context `{SQLiteDriver} {R : Type} `{Table R}.
Implicit Types (p : R → bool) (s : Store) (row : R) (m : gmap string R).

Lemma elem_of_rows row s : row ∈ rows s ↔ ∃ id, table s !! id = Some row.
Proof.
  unfold rows. rewrite list_elem_of_fmap. split.
  - intros ([id r] & -> & Hin). exists id. by apply elem_of_map_to_list.
  - intros [id Hid]. exists (id, row). split; [done|]. by apply elem_of_map_to_list.
Qed.

Lemma elem_of_select p row s : row ∈ select p s ↔ p row = true ∧ ∃ id, table s !! id = Some row.
Proof.
  unfold select. rewrite elem_of_stable_sort, list_elem_of_In, filter_In, <-list_elem_of_In, elem_of_rows.
  tauto.
Qed.

Lemma exists_row_true p s : exists_row p s = true ↔ ∃ id row, table s !! id = Some row ∧ p row = true.
Proof.
  unfold exists_row. rewrite existsb_exists. setoid_rewrite <-list_elem_of_In.
  setoid_rewrite elem_of_rows. naive_solver.
Qed.

Lemma exists_row_false p s : exists_row p s = false ↔ ∀ id row, table s !! id = Some row → p row = false.
Proof.
  rewrite <-not_true_iff_false, exists_row_true. split.
  - intros Hn id row Hr. apply not_true_iff_false. naive_solver.
  - intros Ha (id & row & Hr & Hp). rewrite (Ha _ _ Hr) in Hp. done.
Qed.

Lemma exists_other_false m id p :
  exists_other m id p = false ↔ ∀ id' row, m !! id' = Some row → id' ≠ id → p row = false.
Proof.
  unfold exists_other. rewrite <-not_true_iff_false, existsb_exists. split.
  - intros Hn id' row Hr Hne. apply not_true_iff_false. intros Hp. apply Hn.
    exists (id', row). rewrite <-list_elem_of_In, elem_of_map_to_list. split; [done|].
    cbn. apply andb_true_iff. split; [|done]. by apply negb_true_iff, eqb_string_false.
  - intros Ha ([id' row] & Hin & Hp). rewrite <-list_elem_of_In, elem_of_map_to_list in Hin.
    cbn in Hp. apply andb_true_iff in Hp as [Hne%negb_true_iff%eqb_string_false Hp].
    rewrite (Ha _ _ Hin Hne) in Hp. done.
Qed.

Lemma fk_true m id : fk m id = true ↔ is_Some (m !! id).
Proof. unfold fk. destruct (m !! id); naive_solver. Qed.

Lemma Insert_Ok row s u s' :
  Insert row s = Ok (u, s') ↔
  table s !! row_id row = None ∧ constraint s (row_id row) row = true ∧
  s' = set_table (<[row_id row := row]> (table s)) s.
Proof.
  unfold Insert, has_row. destruct u.
  destruct (table s !! row_id row), (constraint s (row_id row) row); cbn; naive_solver.
Qed.

Lemma Update_Ok id p f s n s' :
  Update id p f s = Ok (n, s') ↔
  (∃ row, table s !! id = Some row ∧ p row = true ∧ constraint s id (f row) = true ∧
     n = 1%Z ∧ s' = set_table (<[id := f row]> (table s)) s) ∨
  ((∀ row, table s !! id = Some row → p row = false) ∧ n = 0%Z ∧ s' = s).
Proof.
  unfold Update. destruct (table s !! id) as [row|].
  2:{ split; [intros [= <- <-]; by right|]. intros [(? & ? & _)|(_ & -> & ->)]; done. }
  destruct (p row) eqn:Hp.
  2:{ split; [intros [= <- <-]; right; by split; [intros ? [= <-]|]|].
      intros [(? & [= <-] & ? & _)|(_ & -> & ->)]; congruence. }
  destruct (constraint s id (f row)) eqn:Hc.
  - split; [intros [= <- <-]; left; by exists row|].
    intros [(? & [= <-] & _ & _ & -> & ->)|(Hn & _)]; [done|].
    specialize (Hn _ eq_refl). congruence.
  - split; [done|]. intros [(? & [= <-] & _ & ? & _)|(Hn & _)]; [congruence|].
    specialize (Hn _ eq_refl). congruence.
Qed.

Lemma keyed_insert m row : keyed m → keyed (<[row_id row := row]> m).
Proof.
  intros Hk id r. destruct (decide (row_id row = id)) as [<-|Hne].
  - rewrite lookup_insert_eq. by intros [= <-].
  - rewrite lookup_insert_ne by done. apply Hk.
Qed.

Lemma keyed_update m id row : keyed m → row_id row = id → keyed (<[id := row]> m).
Proof. intros ? <-. by apply keyed_insert. Qed.

Lemma keyed_inj m i j row : keyed m → m !! i = Some row → m !! j = Some row → i = j.
Proof. intros Hk Hi Hj. by rewrite <-(Hk _ _ Hi), <-(Hk _ _ Hj). Qed.

Lemma rows_nodup_ids s : keyed (table s) → NoDup (map row_id (rows s)).
Proof.
  intros Hk. unfold rows.
  assert (map row_id (map snd (map_to_list (table s))) = map fst (map_to_list (table s))) as ->.
  { rewrite map_map. apply map_ext_in. intros [id r] Hin%list_elem_of_In%elem_of_map_to_list. cbn. by apply Hk. }
  apply NoDup_fst_map_to_list.
Qed.

Lemma select_nodup_ids p s : keyed (table s) → NoDup (map row_id (select p s)).
Proof.
  intros Hk. unfold select. change (NoDup (row_id <$> stable_sort rowLess (List.filter p (rows s)))).
  rewrite stable_sort_Permutation. pose proof (rows_nodup_ids s Hk) as Hnd. revert Hnd.
  induction (rows s) as [|r l IH]; cbn; [done|]. rewrite !NoDup_cons. intros [Hn Hnd].
  destruct (p r); [|by apply IH]. cbn. apply NoDup_cons. split; [|by apply IH].
  rewrite list_elem_of_fmap. intros (r' & He & Hin). apply Hn. rewrite He.
  apply list_elem_of_In, filter_In in Hin as [Hin _]. apply list_elem_of_fmap. exists r'. split; [done|].
  by apply list_elem_of_In.
Qed.
End table_lemmas.

Lemma appendEvent_Ok `{SQLiteDriver} issueID eventType sessionID attemptID payload createdAt source s n s' :
  appendEvent issueID eventType sessionID attemptID payload createdAt source s = Ok (n, s') ↔
  eventType ≠ "" ∧ fk (st_issues s) issueID = true ∧ fk_session s sessionID = true ∧
  fk_opt (st_attempts s) attemptID = true ∧ n = (st_last_event s + 1)%Z ∧
  s' = append_draft (mkEvent 0 (Some issueID) eventType sessionID attemptID payload createdAt source) s.
Proof.
  unfold appendEvent. rewrite <-eqb_string_false.
  destruct (eventType =s ""), (fk (st_issues s) issueID), (fk_session s sessionID),
    (fk_opt (st_attempts s) attemptID); cbn; naive_solver.
Qed.

(** Appending an event whose references resolve. *)
Lemma appendEvent_run `{SQLiteDriver} issueID eventType sessionID attemptID payload createdAt source s :
  eventType ≠ "" → fk (st_issues s) issueID = true → fk_session s sessionID = true →
  fk_opt (st_attempts s) attemptID = true →
  appendEvent issueID eventType sessionID attemptID payload createdAt source s =
  Ok ((st_last_event s + 1)%Z,
      append_draft (mkEvent 0 (Some issueID) eventType sessionID attemptID payload createdAt source) s).
Proof. intros. by apply appendEvent_Ok. Qed.

Lemma appendIssueEvent_run `{SQLiteDriver} issueID eventType sessionID attemptID payload createdAt s :
  eventType ≠ "" → fk (st_issues s) issueID = true → fk_session s sessionID = true →
  fk_opt (st_attempts s) attemptID = true →
  appendIssueEvent issueID eventType sessionID attemptID payload createdAt s =
  Ok (tt, append_draft (mkEvent 0 (Some issueID) eventType sessionID attemptID payload createdAt SourceIssue) s).
Proof. intros. unfold appendIssueEvent, mbind, Tx_bind. by rewrite appendEvent_run. Qed.

Lemma appendIssueEvent_Ok `{SQLiteDriver} issueID eventType sessionID attemptID payload createdAt s u s' :
  appendIssueEvent issueID eventType sessionID attemptID payload createdAt s = Ok (u, s') →
  s' = append_draft (mkEvent 0 (Some issueID) eventType sessionID attemptID payload createdAt SourceIssue) s.
Proof.
  unfold appendIssueEvent. intros Hrun. inv_tx. by apply appendEvent_Ok in Hstep as (_ & _ & _ & _ & _ & ->).
Qed.
(** ** Stored responses

    What was read back once is read back unchanged. *)

Lemma HTMLEscape_ordinary c rest :
  is_char 60 c = false → is_char 62 c = false → is_char 38 c = false → is_char 226 c = false →
  HTMLEscape (String c rest) = String c (HTMLEscape rest).
Proof. intros H1 H2 H3 H4. cbn [HTMLEscape]. rewrite H1, H2, H3, H4. cbn [andb]. by destruct rest as [|? []]. Qed.

Lemma HTMLEscape_esc x t :
  x ∈ ["u003c"; "u003e"; "u0026"; "u2028"; "u2029"] → HTMLEscape (esc x +:+ t) = esc x +:+ HTMLEscape t.
Proof.
  rewrite !elem_of_cons, elem_of_nil. intros Hx. unfold esc.
  destruct_or! Hx; try done; subst x;
    rewrite !append_cons, !append_nil_l; by rewrite !HTMLEscape_ordinary.
Qed.

(** What a character of the output that starts no escape comes from. *)
Lemma HTMLEscape_head rest d x :
  HTMLEscape rest = String d x → is_char 92 d = false →
  ∃ rest', rest = String d rest' ∧ (is_char 226 d = false → x = HTMLEscape rest').
Proof.
  destruct rest as [|c rest]; [done|]. cbn [HTMLEscape]. unfold esc.
  do 3 (case_match; [intros [= <- _] Hd; done|]). intros He Hd.
  destruct rest as [|d1 [|e1 rest']]; cbn [HTMLEscape] in He.
  1,2: injection He as <- <-; by eexists.
  destruct (is_char 226 c && _ && _) eqn:Ht; [by injection He as <- _|]. injection He as <- <-. by eexists.
Qed.

Lemma HTMLEscape_idem s : HTMLEscape (HTMLEscape s) = HTMLEscape s.
Proof.
  induction s as [s IH] using (induction_ltof1 _ String.length). unfold ltof in IH.
  destruct s as [|c rest]; [done|]. cbn [HTMLEscape].
  destruct (is_char 60 c) eqn:H1; [rewrite HTMLEscape_esc by set_solver; f_equal; apply IH; cbn; lia|].
  destruct (is_char 62 c) eqn:H2; [rewrite HTMLEscape_esc by set_solver; f_equal; apply IH; cbn; lia|].
  destruct (is_char 38 c) eqn:H3; [rewrite HTMLEscape_esc by set_solver; f_equal; apply IH; cbn; lia|].
  assert (Hord : (∀ d e rest', rest = String d (String e rest') →
      is_char 226 c && is_char 128 d && (is_char 168 e || is_char 169 e) = false) →
    HTMLEscape (String c (HTMLEscape rest)) = String c (HTMLEscape rest)).
  { intros Hn. assert (Hr : HTMLEscape (HTMLEscape rest) = HTMLEscape rest) by (apply IH; cbn; lia).
    cbn [HTMLEscape]. rewrite H1, H2, H3, Hr. destruct (HTMLEscape rest) as [|d [|e x]] eqn:He; [done..|].
    destruct (is_char 226 c && is_char 128 d && _) eqn:Ht; [|done]. exfalso.
    apply andb_true_iff in Ht as [[Hc Hd]%andb_true_iff Hx]. unfold is_char in *.
    destruct (HTMLEscape_head _ _ _ He) as (r1 & -> & Hr1); [unfold is_char; lia|].
    specialize (Hr1 ltac:(unfold is_char; lia)). symmetry in Hr1.
    destruct (HTMLEscape_head _ _ _ Hr1) as (r2 & -> & _); [unfold is_char; lia|].
    specialize (Hn d e r2 eq_refl). lia. }
  destruct rest as [|d [|e rest']]; [apply Hord; congruence..|].
  destruct (is_char 226 c && _ && _) eqn:Ht.
  - rewrite HTMLEscape_esc by (case_match; set_solver). f_equal. apply IH. cbn. lia.
  - apply Hord. intros d0 e0 r [= <- <- <-]. done.
Qed.

Lemma artifactReadBack_idem a : artifactReadBack (artifactReadBack a) = artifactReadBack a.
Proof. unfold artifactReadBack, rawMessageReadBack. cbn. f_equal. f_equal. destruct (af_Metadata a); [apply HTMLEscape_idem|done]. Qed.

Lemma noteReadBack_idem r : noteReadBack (noteReadBack r) = noteReadBack r.
Proof.
  unfold noteReadBack. cbn. f_equal. rewrite map_map. apply map_ext. apply artifactReadBack_idem.
Qed.
