(* ===== verification/Timestamps.v ===== *)
(** * Stored timestamps

    [internal/adapters/sqlite/timestamps.go].  The predicates of the schema's
    queries ([lease_expires_at <= ?], the orders of the listings) compare
    timestamp texts byte by byte; the model compares instants.  This file
    shows that the two agree for the years 0000 to 9999, the range the
    fixed-width layout has digits for. *)

From S2P Require Import Prelude GoStrings Errors Validation Samples Issue Relation Session IssueOps Discussion.
From S2P Require Import Resource Attempt Gates Store.

(** [lia] on quotients and remainders. *)
#[local] Ltac Zify.zify_post_hook ::= Z.to_euclidean_division_equations.

(** ** Texts of one width *)

Lemma str_less_cons c d x y :
  str_less (String c x) (String d y) = match Ascii.compare c d with Eq => str_less x y | Lt => true | Gt => false end.
Proof. unfold str_less. cbn. by destruct (Ascii.compare c d). Qed.

Lemma str_less_app p x y : str_less (p +:+ x) (p +:+ y) = str_less x y.
Proof.
  induction p as [|c p IH]; [done|]. by rewrite !append_cons, str_less_cons, (proj2 (N.compare_eq_iff _ _) eq_refl : Ascii.compare c c = Eq).
Qed.

(** Digits compare as the numbers they read as. *)
Lemma digit_compare c d : is_digit c = true → is_digit d = true → Ascii.compare c d = (digit_val c ?= digit_val d)%Z.
Proof.
  unfold digit_val, byte_val, Ascii.compare. intros _ _. rewrite <-N2Z.inj_compare, Z.compare_sub, (Z.compare_sub (_ - 48)).
  f_equal. lia.
Qed.

Lemma digit_range c : is_digit c = true → (0 <= digit_val c < 10)%Z.
Proof. unfold is_digit, in_range, digit_val. intros [? ?]%andb_true_iff. lia. Qed.

Lemma parse_digits_cons acc c s n :
  parse_digits acc (String c s) = Some n → is_digit c = true ∧ parse_digits (10 * acc + digit_val c) s = Some n.
Proof. cbn. by destruct (is_digit c). Qed.

Lemma parse_digits_lt s : ∀ t i j n k, String.length s = String.length t → (i < j)%Z →
  parse_digits i s = Some n → parse_digits j t = Some k → (n < k)%Z.
Proof.
  induction s as [|c s IH]; intros [|d t] i j n k Hlen Hij; try done; [cbn; congruence|].
  intros [Hc Hn]%parse_digits_cons [Hd Hk]%parse_digits_cons. apply digit_range in Hc, Hd.
  eapply (IH t); [by injection Hlen| |exact Hn|exact Hk]. lia.
Qed.

Lemma parse_digits_compare s : ∀ t i n k x y, String.length s = String.length t →
  parse_digits i s = Some n → parse_digits i t = Some k →
  str_less (s +:+ x) (t +:+ y) = (n <? k)%Z || ((n =? k)%Z && str_less x y).
Proof.
  induction s as [|c s IH]; intros [|d t] i n k x y Hlen; try done.
  { cbn. intros [= <-] [= <-]. by rewrite Z.ltb_irrefl, Z.eqb_refl. }
  intros [Hc Hn]%parse_digits_cons [Hd Hk]%parse_digits_cons. injection Hlen as Hlen.
  rewrite !append_cons, str_less_cons, digit_compare by done. destruct (Z.compare_spec (digit_val c) (digit_val d)) as [He|Hl|Hl].
  - rewrite He in Hn. exact (IH t _ n k x y Hlen Hn Hk).
  - assert (Hnk : (n < k)%Z) by (eapply (parse_digits_lt s t); [done| |exact Hn|exact Hk]; lia).
    by rewrite (proj2 (Z.ltb_lt n k) Hnk).
  - assert (Hnk : (k < n)%Z) by (eapply (parse_digits_lt t s); [done| |exact Hk|exact Hn]; lia).
    by rewrite (proj2 (Z.ltb_ge n k)), (proj2 (Z.eqb_neq n k)) by lia.
Qed.

(** ** Fields of a fixed width *)

Lemma zeros_S k : String.concat "" (repeat "0" (S k)) = String (byte_of 48) (String.concat "" (repeat "0" k)).
Proof. by destruct k. Qed.
Lemma zeros_length k : String.length (String.concat "" (repeat "0" k)) = k.
Proof. induction k as [|k IH]; [done|]. rewrite zeros_S. cbn [String.length]. by rewrite IH. Qed.
Lemma parse_zeros k t : parse_digits 0 (String.concat "" (repeat "0" k) +:+ t) = parse_digits 0 t.
Proof. induction k as [|k IH]; [done|]. rewrite zeros_S, append_cons. exact IH. Qed.

Lemma Itoa_width n w : (0 <= n < 10 ^ Z.of_nat w)%Z → (0 < w)%nat → (String.length (Itoa n) ≤ w)%nat.
Proof.
  intros Hn Hw. destruct (decide (n = 0%Z)) as [->|Hne]; [done|].
  destruct (Itoa_shape n) as (c & t & He & _ & _ & Hl); [lia|]. unfold len in Hl.
  assert (Hlt : (10 ^ (Z.of_nat (String.length (Itoa n)) - 1) < 10 ^ Z.of_nat w)%Z) by lia.
  apply Z.pow_lt_mono_r_iff in Hlt; [|lia..]. lia.
Qed.

Lemma zero_pad_length n w : (0 <= n < 10 ^ Z.of_nat w)%Z → (0 < w)%nat → String.length (zero_pad w n) = w.
Proof.
  intros Hn Hw. pose proof (Itoa_width n w Hn Hw). unfold zero_pad. rewrite length_append, zeros_length. lia.
Qed.
Lemma zero_pad_parse n w : (0 <= n)%Z → parse_digits 0 (zero_pad w n) = Some n.
Proof.
  intros Hn. unfold zero_pad. rewrite parse_zeros, Itoa_of_N, parse_digits_pretty by done. by rewrite Z2N.id.
Qed.

(** A field decides the order, or passes it on to the rest. *)
Lemma field_less w n k x y :
  (0 < w)%nat → (0 <= n < 10 ^ Z.of_nat w)%Z → (0 <= k < 10 ^ Z.of_nat w)%Z →
  str_less (zero_pad w n +:+ x) (zero_pad w k +:+ y) = (n <? k)%Z || ((n =? k)%Z && str_less x y).
Proof.
  intros Hw Hn Hk. apply (parse_digits_compare _ _ 0); [by rewrite !zero_pad_length|by apply zero_pad_parse, Hn|by apply zero_pad_parse, Hk].
Qed.

(** ** The calendar

    Later days have later dates.  The era, the year of the era and the day of
    that year are those of [civil_from_days]; years start on March 1st. *)

Definition date_code (date : Z * Z * Z) : Z := let '(y, m, d) := date in (y * 512 + m * 32 + d)%Z.

Definition yoe (doe : Z) : Z := ((doe - doe / 1460 + doe / 36524 - doe / 146096) / 365)%Z.
Definition year_start (y : Z) : Z := (365 * y + y / 4 - y / 100)%Z.
Definition month_day (doy : Z) : Z * Z :=
  let mp := ((5 * doy + 2) / 153)%Z in (if (mp <? 10)%Z then (mp + 3)%Z else (mp - 9)%Z, (doy - (153 * mp + 2) / 5 + 1)%Z).
(** The part of the date's code that depends on the day of the year. *)
Definition day_code (doy : Z) : Z :=
  let '(m, d) := month_day doy in ((if (m <=? 2)%Z then 512 else 0) + m * 32 + d)%Z.

Fixpoint every_from (n : nat) (f : Z → bool) (i : Z) : bool :=
  match n with O => true | S n => f i && every_from n f (i + 1) end.
Lemma every_from_spec n f : ∀ i j, every_from n f i = true → (i <= j < i + Z.of_nat n)%Z → f j = true.
Proof.
  induction n as [|n IH]; intros i j; [cbn; lia|]. intros [Hi Hn]%andb_true_iff Hj.
  destruct (decide (j = i)) as [->|Hne]; [done|]. apply (IH (i + 1)%Z); [done|lia].
Qed.

(** The 366 days of a year. *)
Definition day_check (doy : Z) : bool :=
  let '(m, d) := month_day doy in
  (1 <=? m)%Z && (m <=? 12)%Z && (1 <=? d)%Z && (d <=? 31)%Z && (97 <=? day_code doy)%Z && (day_code doy <=? 605)%Z &&
  ((365 <=? doy)%Z || (day_code doy <? day_code (doy + 1))%Z).
Lemma day_valid doy : (0 <= doy <= 365)%Z →
  let '(m, d) := month_day doy in (1 <= m <= 12)%Z ∧ (1 <= d <= 31)%Z ∧ (97 <= day_code doy <= 605)%Z ∧
  ((doy < 365)%Z → (day_code doy < day_code (doy + 1))%Z).
Proof.
  intros Hd. assert (Hc : day_check doy = true).
  { apply (every_from_spec 366 day_check 0); [by vm_compute|lia]. }
  unfold day_check in Hc. destruct (month_day doy) as [m d].
  rewrite !andb_true_iff, orb_true_iff, !Z.leb_le, Z.ltb_lt in Hc. lia.
Qed.

(** The 400 years of an era: the first and the last day of each. *)
Definition year_check (y : Z) : bool :=
  (yoe (year_start y) =? y)%Z && (yoe (if (y =? 399)%Z then 146096 else year_start (y + 1) - 1) =? y)%Z.
Lemma year_valid y : (0 <= y < 400)%Z →
  yoe (year_start y) = y ∧ yoe (if (y =? 399)%Z then 146096 else year_start (y + 1) - 1) = y.
Proof.
  intros Hy. assert (Hc : year_check y = true).
  { apply (every_from_spec 400 year_check 0); [by vm_compute|lia]. }
  unfold year_check in Hc. by rewrite andb_true_iff, !Z.eqb_eq in Hc.
Qed.

Lemma yoe_next doe : (0 <= doe)%Z → (yoe doe <= yoe (doe + 1))%Z.
Proof.
  intros Hd. unfold yoe. apply Z.div_le_mono; [lia|].
  assert (H1 : ((doe + 1) / 1460 <= doe / 1460 + 1)%Z) by lia.
  assert (H2 : (doe / 36524 <= (doe + 1) / 36524 <= doe / 36524 + 1)%Z) by lia.
  assert (Hdiv : ∀ x, (x / 146096 = x / 36524 / 4)%Z) by (intros x; by rewrite Z.div_div).
  rewrite !Hdiv. revert H1 H2. generalize (doe / 1460)%Z, ((doe + 1) / 1460)%Z, (doe / 36524)%Z, ((doe + 1) / 36524)%Z. lia.
Qed.
Lemma yoe_mono a b : (0 <= a <= b)%Z → (yoe a <= yoe b)%Z.
Proof.
  intros Hab. replace b with (a + Z.of_nat (Z.to_nat (b - a)))%Z by lia. generalize (Z.to_nat (b - a)) as n.
  induction n as [|n IH]; [rewrite Z.add_0_r; lia|]. pose proof (yoe_next (a + Z.of_nat n)) as Hn.
  replace (a + Z.of_nat (S n))%Z with (a + Z.of_nat n + 1)%Z by lia. lia.
Qed.

Lemma year_length y : (year_start (y + 1) <= year_start y + 366)%Z.
Proof. unfold year_start. lia. Qed.

(** The day of the year. *)
Lemma doy_range doe : (0 <= doe < 146097)%Z → (0 <= yoe doe < 400)%Z ∧ (0 <= doe - year_start (yoe doe) <= 365)%Z.
Proof.
  intros Hd. assert (Hy : (0 <= yoe doe < 400)%Z).
  { pose proof (yoe_mono 0 doe) as Hlo. pose proof (yoe_mono doe 146096) as Hhi.
    change (yoe 0) with 0%Z in Hlo. change (yoe 146096) with 399%Z in Hhi. lia. }
  split; [done|]. set (y := yoe doe) in *. destruct (year_valid y Hy) as [Hfirst Hlast]. split.
  - destruct (decide (y = 0%Z)) as [->|Hne]; [change (year_start 0) with 0%Z; lia|].
    destruct (decide (0 <= doe - year_start y)%Z) as [|Hlt]; [done|]. exfalso.
    destruct (year_valid (y - 1)) as [_ Hprev]; [lia|]. rewrite (proj2 (Z.eqb_neq _ _)) in Hprev by lia.
    replace (y - 1 + 1)%Z with y in Hprev by lia. pose proof (yoe_mono doe (year_start y - 1)). lia.
  - destruct (Z.eqb_spec y 399) as [->|Hne]; [change (year_start 399) with 145731%Z; lia|].
    destruct (decide (doe < year_start (y + 1))%Z) as [|Hge]; [pose proof (year_length y); lia|]. exfalso.
    destruct (year_valid (y + 1)) as [Hnext _]; [lia|].
    assert (0 <= year_start (y + 1))%Z by (unfold year_start; lia).
    pose proof (yoe_mono (year_start (y + 1)) doe). lia.
Qed.

(** The code of a day: its era's years, its year and its day of the year. *)
Lemma civil_code days : let z := (days + 719468)%Z in
  date_code (civil_from_days days) =
    (512 * (yoe (z mod 146097) + 400 * (z / 146097)) + day_code (z mod 146097 - year_start (yoe (z mod 146097))))%Z.
Proof.
  cbv zeta. unfold civil_from_days. cbv zeta. set (doe := ((days + 719468) mod 146097)%Z).
  change ((doe - doe / 1460 + doe / 36524 - doe / 146096) / 365)%Z with (yoe doe).
  change (365 * yoe doe + yoe doe / 4 - yoe doe / 100)%Z with (year_start (yoe doe)).
  unfold date_code, day_code, month_day. cbv zeta. generalize (doe - year_start (yoe doe))%Z. intros doy.
  destruct (_ <=? 2)%Z; lia.
Qed.

Lemma civil_fields days y m d : civil_from_days days = (y, m, d) → (1 <= m <= 12)%Z ∧ (1 <= d <= 31)%Z.
Proof.
  unfold civil_from_days. cbv zeta. set (doe := ((days + 719468) mod 146097)%Z).
  change ((doe - doe / 1460 + doe / 36524 - doe / 146096) / 365)%Z with (yoe doe).
  change (365 * yoe doe + yoe doe / 4 - yoe doe / 100)%Z with (year_start (yoe doe)).
  destruct (doy_range doe) as [_ Hdoy]; [by apply Z.mod_pos_bound|]. pose proof (day_valid _ Hdoy) as Hv.
  unfold month_day in Hv. cbv zeta in Hv. intros [= _ <- <-]. tauto.
Qed.

Lemma date_code_next days : (date_code (civil_from_days days) < date_code (civil_from_days (days + 1)))%Z.
Proof.
  rewrite !civil_code. set (z := (days + 719468)%Z). replace (days + 1 + 719468)%Z with (z + 1)%Z by lia.
  pose proof (Z.mod_pos_bound z 146097 ltac:(lia)) as Hb. pose proof (doy_range _ Hb) as [Hy Hdoy].
  pose proof (day_valid _ Hdoy) as Hv. destruct (month_day _) as [m d]. destruct Hv as (_ & _ & Hcode & Hnext).
  destruct (decide (z mod 146097 = 146096)%Z) as [Hlast|Hin].
  - assert ((z + 1) mod 146097 = 0 ∧ (z + 1) / 146097 = z / 146097 + 1)%Z as [-> ->] by lia.
    change (yoe 0) with 0%Z. change (day_code (0 - year_start 0)) with 97%Z. lia.
  - assert ((z + 1) mod 146097 = z mod 146097 + 1 ∧ (z + 1) / 146097 = z / 146097)%Z as [-> ->] by lia.
    set (doe := (z mod 146097)%Z) in *. pose proof (doy_range (doe + 1)) as [Hy' Hdoy']; [lia|].
    pose proof (yoe_next doe) as Hle. destruct (decide (yoe (doe + 1) = yoe doe)%Z) as [He|Hne].
    + rewrite He in *. replace (doe + 1 - year_start (yoe doe))%Z with (doe - year_start (yoe doe) + 1)%Z in * by lia. lia.
    + pose proof (day_valid _ Hdoy') as Hv'. destruct (month_day _) as [m' d']. lia.
Qed.

Lemma date_code_mono a b : (a < b)%Z → (date_code (civil_from_days a) < date_code (civil_from_days b))%Z.
Proof.
  intros Hab. replace b with (a + Z.of_nat (S (Z.to_nat (b - a - 1))))%Z by lia. generalize (Z.to_nat (b - a - 1)) as n.
  induction n as [|n IH]; [apply date_code_next|].
  pose proof (date_code_next (a + Z.of_nat (S n))) as Hn. replace (a + Z.of_nat (S (S n)))%Z with (a + Z.of_nat (S n) + 1)%Z by lia. lia.
Qed.

(** ** The order of the texts *)

(** The instants of the years 0000 to 9999, in nanoseconds since 1970. *)
Definition storable (t : Z) : Prop := (-62167219200 * 10 ^ 9 <= t < 253402300800 * 10 ^ 9)%Z.

Lemma storable_year t y m d : storable t → civil_from_days (t / 1000000000 / 86400) = (y, m, d) → (0 <= y < 10000)%Z.
Proof.
  intros Ht Hc. set (days := (t / 1000000000 / 86400)%Z) in *.
  assert (Hdays : (-719528 <= days <= 2932896)%Z) by (unfold days, storable in *; lia).
  assert (Hlo : (date_code (0, 1, 1) <= date_code (y, m, d))%Z).
  { rewrite <-Hc. destruct (decide (days = -719528)%Z) as [->|]; [done|].
    pose proof (date_code_mono (-719528) days) as Hm. change (civil_from_days (-719528)) with (0, 1, 1)%Z in Hm. lia. }
  assert (Hhi : (date_code (y, m, d) <= date_code (9999, 12, 31))%Z).
  { rewrite <-Hc. destruct (decide (days = 2932896)%Z) as [->|]; [done|].
    pose proof (date_code_mono days 2932896) as Hm. change (civil_from_days 2932896) with (9999, 12, 31)%Z in Hm. lia. }
  pose proof (civil_fields _ _ _ _ Hc). unfold date_code in *. lia.
Qed.

Definition lex (fields : list (Z * Z)) : bool :=
  foldr (λ p rest, (p.1 <? p.2)%Z || ((p.1 =? p.2)%Z && rest)) false fields.

Definition time_fields (t : Z) : list Z :=
  let secs := (t / 1000000000)%Z in
  let '(y, m, d) := civil_from_days (secs / 86400) in
  let tod := (secs mod 86400)%Z in
  [y; m; d; tod / 3600; tod mod 3600 / 60; tod mod 60; t mod 1000000000]%Z.

(** The texts compare as the fields do, in order. *)
Lemma format_less a b : storable a → storable b →
  str_less (formatStorageTime a) (formatStorageTime b) = lex (zip (time_fields a) (time_fields b)).
Proof.
  intros Ha Hb. unfold formatStorageTime, time_fields.
  destruct (civil_from_days (a / 1000000000 / 86400)) as [[y m] d] eqn:Hca, (civil_from_days (b / 1000000000 / 86400)) as [[y' m'] d'] eqn:Hcb.
  pose proof (storable_year _ _ _ _ Ha Hca). pose proof (storable_year _ _ _ _ Hb Hcb).
  pose proof (civil_fields _ _ _ _ Hca). pose proof (civil_fields _ _ _ _ Hcb). cbv zeta. cbn [zip zip_with lex foldr fst snd].
  assert (Hpow : (10 ^ Z.of_nat 2 = 100 ∧ 10 ^ Z.of_nat 4 = 10000 ∧ 10 ^ Z.of_nat 9 = 1000000000)%Z) by done.
  destruct Hpow as (Hp2 & Hp4 & Hp9).
  repeat (rewrite field_less; [|lia|rewrite ?Hp2, ?Hp4, ?Hp9; lia..]; f_equal; f_equal; rewrite ?str_less_app).
Qed.

Lemma lex_refl l : lex (zip l l) = false.
Proof. induction l as [|x l IH]; [done|]. cbn. rewrite Z.ltb_irrefl, Z.eqb_refl. exact IH. Qed.

Lemma fields_earlier a b : (a < b)%Z → lex (zip (time_fields a) (time_fields b)) = true.
Proof.
  intros Hab. unfold time_fields.
  destruct (civil_from_days (a / 1000000000 / 86400)) as [[y m] d] eqn:Hca, (civil_from_days (b / 1000000000 / 86400)) as [[y' m'] d'] eqn:Hcb.
  pose proof (civil_fields _ _ _ _ Hca). pose proof (civil_fields _ _ _ _ Hcb). cbv zeta. cbn [zip zip_with lex foldr fst snd].
  destruct (decide (a / 1000000000 / 86400 = b / 1000000000 / 86400)%Z) as [He|Hne].
  - rewrite He, Hcb in Hca. injection Hca as -> -> ->. rewrite !Z.ltb_irrefl, !Z.eqb_refl. cbn. lia.
  - assert (Hd : (a / 1000000000 / 86400 < b / 1000000000 / 86400)%Z) by lia. apply date_code_mono in Hd.
    rewrite Hca, Hcb in Hd. unfold date_code in Hd. lia.
Qed.

Lemma formatStorageTime_less a b :
  storable a → storable b → str_less (formatStorageTime a) (formatStorageTime b) = (a <? b)%Z.
Proof.
  intros Ha Hb. rewrite format_less by done. destruct (Z.compare_spec a b) as [->|Hl|Hg].
  - by rewrite Z.ltb_irrefl, lex_refl.
  - rewrite (proj2 (Z.ltb_lt _ _) Hl). by apply fields_earlier.
  - pose proof (fields_earlier b a Hg) as Hf. rewrite <-format_less in Hf by done. apply str_less_asym in Hf.
    rewrite format_less in Hf by done. rewrite Hf. symmetry. by apply Z.ltb_ge, Z.lt_le_incl.
Qed.
Lemma formatStorageTime_inj a b : storable a → storable b → formatStorageTime a = formatStorageTime b → a = b.
Proof.
  intros Ha Hb He. pose proof (formatStorageTime_less a b Ha Hb) as Hab. pose proof (formatStorageTime_less b a Hb Ha) as Hba.
  rewrite He, str_less_irrefl in Hab, Hba. symmetry in Hab, Hba. apply Z.ltb_ge in Hab, Hba. lia.
Qed.

Lemma zero_pad_ascii w n : (0 <= n)%Z → is_ascii (zero_pad w n) = true.
Proof.
  intros Hn. unfold zero_pad. rewrite is_ascii_app, Itoa_ascii, andb_true_r by done.
  generalize (w - String.length (Itoa n)). intros k. induction k as [|k IH]; [done|]. rewrite zeros_S, is_ascii_cons. done.
Qed.
Lemma formatStorageTime_text t :
  storable t → len (formatStorageTime t) = 30%Z ∧ is_ascii (formatStorageTime t) = true.
Proof.
  intros Ht. unfold formatStorageTime. destruct (civil_from_days _) as [[y m] d] eqn:Hc.
  pose proof (storable_year _ _ _ _ Ht Hc). pose proof (civil_fields _ _ _ _ Hc). cbv zeta. split.
  - unfold len. rewrite !length_append, !zero_pad_length by (change (10 ^ Z.of_nat 2)%Z with 100%Z; change (10 ^ Z.of_nat 4)%Z with 10000%Z;
      change (10 ^ Z.of_nat 9)%Z with 1000000000%Z; lia). done.
  - rewrite !is_ascii_app, !zero_pad_ascii by lia. done.
Qed.

(** C31. Timestamps compare as their texts.  For all instants of the years 0000
    to 9999 the stored text has 30 bytes, and the byte order of two texts is
    the order of the instants: a predicate such as [lease_expires_at <= ?]
    decides what the comparison of the instants decides, and two instants with
    one text are the same. *)
Theorem formatStorageTime_order a b : storable a → storable b →
  str_less (formatStorageTime a) (formatStorageTime b) = (a <? b)%Z ∧
  len (formatStorageTime a) = 30%Z ∧
  (formatStorageTime a = formatStorageTime b ↔ a = b).
Proof.
  intros Ha Hb. split_and!.
  - by apply formatStorageTime_less.
  - by apply formatStorageTime_text.
  - split; [by apply formatStorageTime_inj|by intros ->].
Qed.

(** A whole second sorts before the instants within it. *)
Lemma formatStorageTime_order_witness :
  str_less (formatStorageTime 1709208000000000000) (formatStorageTime 1709208000000000005) =
    (1709208000000000000 <? 1709208000000000005)%Z ∧
  len (formatStorageTime 1709208000000000000) = 30%Z.
Proof.
  destruct (formatStorageTime_order 1709208000000000000 1709208000000000005) as (Hl & Hlen & _); [done|done|].
  exact (conj Hl Hlen).
Defined.
