(* ===== verification/Schema.v ===== *)
(** * Schema integrity

    Every row operation leaves a store in which every row satisfies its
    table's constraints: keys are ids, CHECK constraints hold, references
    resolve and the unique indexes have no duplicates.  [schema_ok] is the
    part of the store invariant the database itself maintains; the
    application-level invariants build on it. *)

From S2P Require Import Prelude GoStrings Errors Validation Samples Issue Relation Session IssueOps Discussion.
From S2P Require Import Resource Attempt Gates Store.

(** ** Growth: no row another table refers to is ever deleted *)

Record grows (s s' : Store) : Prop := {
  grows_issues id : fk (st_issues s) id = true → fk (st_issues s') id = true;
  grows_sessions id : fk (st_sessions s) id = true → fk (st_sessions s') id = true;
  grows_attempts id : fk (st_attempts s) id = true → fk (st_attempts s') id = true;
  grows_targets id : fk (st_targets s) id = true → fk (st_targets s') id = true;
  grows_requests id : fk (st_requests s) id = true → fk (st_requests s') id = true;
  grows_decisions id : fk (st_decisions s) id = true → fk (st_decisions s') id = true;
}.

#[export] Instance grows_preorder : PreOrder grows.
Proof.
  split; [by split|]. intros s1 s2 s3 [] []. split; intros id Hid; eauto.
Qed.

Lemma fk_insert {R} (m : gmap string R) id row id' :
  fk m id' = true → fk (<[id := row]> m) id' = true.
Proof.
  rewrite !fk_true. intros Hs. destruct (decide (id = id')) as [<-|].
  - rewrite lookup_insert_eq. by eexists.
  - by rewrite lookup_insert_ne.
Qed.
#[export] Hint Resolve fk_insert : go.

Lemma fk_opt_mono {R} (m m' : gmap string R) id :
  (∀ i, fk m i = true → fk m' i = true) → fk_opt m id = true → fk_opt m' id = true.
Proof. destruct id; cbn; auto. Qed.

Lemma fk_session_grows s s' id : grows s s' → fk_session s id = true → fk_session s' id = true.
Proof. intros Hg. apply fk_opt_mono, Hg. Qed.

(** ** The constraint of one row *)

(** [constraint_mono]: the constraint depends on other tables only through
    their keys.  [constraint_set]: storing a row that satisfies the constraint
    keeps the constraints of all rows of its table. *)
Class Constrained (R : Type) `{Table R} : Prop := {
  constraint_mono s s' id (r : R) :
    grows s s' → table s' = table s → constraint s id r = true → constraint s' id r = true;
  constraint_set s id (row : R) id' r' :
    constraint s id row = true →
    (id' = id ∧ r' = row ∨ id' ≠ id ∧ table s !! id' = Some r' ∧ constraint s id' r' = true) →
    constraint (set_table (<[id := row]> (table s)) s) id' r' = true;
}.

(** A unique index whose condition is symmetric: the new row does not clash
    with the old ones, so the old ones do not clash with it. *)
Lemma exists_other_set {R} (m : gmap string R) (clash : R → R → bool) id row id' r' :
  (∀ a b, clash a b = clash b a) →
  negb (exists_other m id (clash row)) = true →
  (id' = id ∧ r' = row ∨
   id' ≠ id ∧ m !! id' = Some r' ∧ negb (exists_other m id' (clash r')) = true) →
  negb (exists_other (<[id := row]> m) id' (clash r')) = true.
Proof.
  intros Hsym. rewrite !negb_true_iff, !exists_other_false. intros Hnew [[-> ->]|(Hne & Hr' & Hold)] k r Hk Hkn.
  - rewrite lookup_insert_ne in Hk by done. eauto.
  - destruct (decide (id = k)) as [<-|Hik].
    + rewrite lookup_insert_eq in Hk. injection Hk as <-. rewrite Hsym. eauto.
    + rewrite lookup_insert_ne in Hk by done. eauto.
Qed.

(** What a unique index gives. *)
Lemma clash_unique {R} (m : gmap string R) (clash : R → R → bool) i j a b :
  exists_other m i (clash a) = false → m !! j = Some b → clash a b = true → i = j.
Proof.
  intros Hn Hj Hc. destruct (decide (j = i)) as [|Hne]; [done|]. exfalso.
  rewrite exists_other_false in Hn. by rewrite (Hn j b Hj Hne) in Hc.
Qed.

Lemma eqb_string_sym (a b : string) : (a =s b) = (b =s a).
Proof. apply String.eqb_sym. Qed.

Lemma sequenceClash_sym a b : sequenceClash a b = sequenceClash b a.
Proof. apply Z.eqb_sym. Qed.
Lemma activeAttemptClash_sym a b : activeAttemptClash a b = activeAttemptClash b a.
Proof. unfold activeAttemptClash. rewrite (eqb_string_sym (ar_IssueID a)). by rewrite (andb_comm (attemptActive a)). Qed.
Lemma activeIdentityClash_sym a b : activeIdentityClash a b = activeIdentityClash b a.
Proof.
  unfold activeIdentityClash. rewrite (eqb_string_sym (rr_Kind a)), (eqb_string_sym (rr_ComparisonValue a)).
  destruct (reservationActive a), (reservationActive b), (exactKind a), (exactKind b); done.
Qed.
Lemma outcomeRequestClash_sym a b : outcomeRequestClash a b = outcomeRequestClash b a.
Proof. apply eqb_string_sym. Qed.
Lemma optEq_sym a b : optEq a b = optEq b a.
Proof. apply bool_decide_ext. naive_solver. Qed.
Lemma activeTargetClash_sym a b : activeTargetClash a b = activeTargetClash b a.
Proof. unfold activeTargetClash. rewrite (eqb_string_sym (rq_TargetID a)). by rewrite (andb_comm (requestUnresolved a)). Qed.
Lemma activeAttemptIDClash_sym a b : activeAttemptIDClash a b = activeAttemptIDClash b a.
Proof. unfold activeAttemptIDClash. rewrite optEq_sym. by rewrite (andb_comm (isSet (rq_ActiveAttemptID a))). Qed.
Lemma activeIssueVersionClash_sym a b : activeIssueVersionClash a b = activeIssueVersionClash b a.
Proof.
  unfold activeIssueVersionClash. rewrite (eqb_string_sym (rq_IssueID a)), Z.eqb_sym.
  by rewrite (andb_comm (requestUnresolved a)).
Qed.
Lemma labelNameClash_sym a b : labelNameClash a b = labelNameClash b a.
Proof. apply eqb_string_sym. Qed.
Lemma handleClash_sym a b : handleClash a b = handleClash b a.
Proof. unfold handleClash. rewrite (andb_comm (isSet (sr_HandleHash a))). f_equal. apply bool_decide_ext. naive_solver. Qed.
Lemma relationClash_sym a b : relationClash a b = relationClash b a.
Proof.
  unfold relationClash. by rewrite (eqb_string_sym (rel_SourceIssueID a)), (eqb_string_sym (rel_TargetIssueID a)),
    (eqb_string_sym (rel_Type a)).
Qed.
Lemma evidenceClash_sym a b : evidenceClash a b = evidenceClash b a.
Proof. unfold evidenceClash. by rewrite (eqb_string_sym (ev_AttemptID a)), (eqb_string_sym (ev_Key a)). Qed.
Lemma supersedesClash_sym a b : supersedesClash a b = supersedesClash b a.
Proof. unfold supersedesClash. rewrite (andb_comm (isSet (dc_SupersedesID a))). f_equal. apply bool_decide_ext. naive_solver. Qed.
#[export] Hint Resolve labelNameClash_sym handleClash_sym relationClash_sym evidenceClash_sym supersedesClash_sym : clash.
#[export] Hint Resolve sequenceClash_sym activeAttemptClash_sym activeIdentityClash_sym outcomeRequestClash_sym
  activeTargetClash_sym activeAttemptIDClash_sym activeIssueVersionClash_sym : clash.

(** Boolean conjunctions of a constraint, as hypotheses and goals. *)
Ltac conj_hyps :=
  repeat match goal with H : (_ && _)%bool = true |- _ => apply andb_true_iff in H; destruct H end.
Ltac conj_goal :=
  repeat match goal with |- (_ && _)%bool = true => apply andb_true_iff; split end.

(** A reference keeps resolving in a store that has grown. *)
Ltac grow Hg :=
  first [ assumption | eapply fk_session_grows; [exact Hg|eassumption]
        | eapply fk_opt_mono; [|eassumption]; apply Hg | apply Hg; assumption ].

Lemma issue_parent_mono (m m' : gmap string Issue) r id :
  (∀ i, fk m i = true → fk m' i = true) →
  match i_ParentID r with Some p => negb (p =s id) && fk m p && negb (i_Type r =s TypeEpic) | None => true end = true →
  match i_ParentID r with Some p => negb (p =s id) && fk m' p && negb (i_Type r =s TypeEpic) | None => true end = true.
Proof. intros Hm. destruct (i_ParentID r); [|done]. intros ?. conj_hyps. conj_goal; auto. Qed.

Lemma set_issues_grows s id (row : Issue) : grows s (set_table (<[id := row]> (table s)) s).
Proof. split; cbn; eauto with go. Qed.
Lemma set_attempts_grows s id (row : AttemptRow) : grows s (set_table (<[id := row]> (table s)) s).
Proof. split; cbn; eauto with go. Qed.
Lemma set_reservations_grows s id (row : reservationRow) : grows s (set_table (<[id := row]> (table s)) s).
Proof. split; cbn; eauto with go. Qed.
Lemma set_targets_grows s id (row : ReviewTarget) : grows s (set_table (<[id := row]> (table s)) s).
Proof. split; cbn; eauto with go. Qed.
Lemma set_requests_grows s id (row : ReviewRequest) : grows s (set_table (<[id := row]> (table s)) s).
Proof. split; cbn; eauto with go. Qed.
Lemma set_outcomes_grows s id (row : ReviewOutcomeRecord) : grows s (set_table (<[id := row]> (table s)) s).
Proof. split; cbn; eauto with go. Qed.
Lemma set_notes_grows s id (row : AttemptNote) : grows s (set_table (<[id := row]> (table s)) s).
Proof. split; cbn; eauto with go. Qed.
Lemma set_artifacts_grows s id (row : Artifact) : grows s (set_table (<[id := row]> (table s)) s).
Proof. split; cbn; eauto with go. Qed.
Lemma set_sessions_grows s id (row : SessionRow) : grows s (set_table (<[id := row]> (table s)) s).
Proof. split; cbn; eauto with go. Qed.
Lemma set_labels_grows s id (row : Label) : grows s (set_table (<[id := row]> (table s)) s).
Proof. split; cbn; eauto with go. Qed.
Lemma set_relations_grows s id (row : IssueRelation) : grows s (set_table (<[id := row]> (table s)) s).
Proof. split; cbn; eauto with go. Qed.
Lemma set_policies_grows s id (row : WorkflowPolicy) : grows s (set_table (<[id := row]> (table s)) s).
Proof. split; cbn; eauto with go. Qed.
Lemma set_evidence_grows s id (row : AttemptEvidence) : grows s (set_table (<[id := row]> (table s)) s).
Proof. split; cbn; eauto with go. Qed.
Lemma set_comments_grows s id (row : Comment) : grows s (set_table (<[id := row]> (table s)) s).
Proof. split; cbn; eauto with go. Qed.
Lemma set_decisions_grows s id (row : Decision) : grows s (set_table (<[id := row]> (table s)) s).
Proof. split; cbn; eauto with go. Qed.

(** The conjuncts that do not mention the store carry over; the references
    grow; the unique indexes are symmetric. *)
Ltac set_tac Hg Hc Hr :=
  let H := fresh in
  destruct Hr as [[-> ->]|(? & ? & H)]; conj_hyps; conj_goal;
  first [ grow Hg | eapply issue_parent_mono; [|eassumption]; apply Hg
        | eapply exists_other_set; [eauto with clash|eassumption|eauto] ].

(** Both laws, from the table's constraint and its growth lemma. *)
Ltac constrained cst grows_lemma :=
  split; cbn;
  [ intros s s' id r Hg Ht; unfold cst; rewrite ?Ht; intros Hc; conj_hyps; conj_goal; grow Hg
  | intros s id row id' r' Hc Hr; pose proof (grows_lemma s id row) as Hg; revert Hc Hr Hg;
    unfold cst; cbn; intros Hc Hr Hg; set_tac Hg Hc Hr ].

#[export] Instance issues_constrained : Constrained Issue.
Proof. constrained issue_constraint set_issues_grows. Qed.
#[export] Instance attempts_constrained : Constrained AttemptRow.
Proof. constrained attempt_constraint set_attempts_grows. Qed.
#[export] Instance reservations_constrained : Constrained reservationRow.
Proof. constrained reservation_constraint set_reservations_grows. Qed.
#[export] Instance targets_constrained : Constrained ReviewTarget.
Proof. constrained target_constraint set_targets_grows. Qed.
#[export] Instance requests_constrained : Constrained ReviewRequest.
Proof. constrained request_constraint set_requests_grows. Qed.
#[export] Instance outcomes_constrained : Constrained ReviewOutcomeRecord.
Proof. constrained outcome_constraint set_outcomes_grows. Qed.
#[export] Instance notes_constrained : Constrained AttemptNote.
Proof. constrained note_constraint set_notes_grows. Qed.
#[export] Instance artifacts_constrained : Constrained Artifact.
Proof. constrained artifact_constraint set_artifacts_grows. Qed.
#[export] Instance sessions_constrained : Constrained SessionRow.
Proof. constrained session_constraint set_sessions_grows. Qed.
#[export] Instance labels_constrained : Constrained Label.
Proof. constrained label_constraint set_labels_grows. Qed.
#[export] Instance relations_constrained : Constrained IssueRelation.
Proof. constrained relation_constraint set_relations_grows. Qed.
#[export] Instance policies_constrained : Constrained WorkflowPolicy.
Proof. constrained policy_constraint set_policies_grows. Qed.
#[export] Instance evidence_constrained : Constrained AttemptEvidence.
Proof. constrained evidence_constraint set_evidence_grows. Qed.
#[export] Instance comments_constrained : Constrained Comment.
Proof. constrained comment_constraint set_comments_grows. Qed.
#[export] Instance decisions_constrained : Constrained Decision.
Proof. constrained decision_constraint set_decisions_grows. Qed.

(** ** The store *)

Definition table_ok (R : Type) `{Table R} (s : Store) : Prop :=
  keyed (R := R) (table s) ∧ ∀ id r, table s !! id = Some r → constraint s id r = true.

(** The event log: ascending ids up to the sequence counter. *)
Definition log_ok (s : Store) : Prop :=
  StronglySorted Z.lt (map e_ID (st_events s)) ∧
  Forall (λ e, (1 <= e_ID e <= st_last_event s)%Z) (st_events s) ∧ (0 <= st_last_event s)%Z.

Record schema_ok (s : Store) : Prop := {
  ok_issues : table_ok Issue s;
  ok_attempts : table_ok AttemptRow s;
  ok_reservations : table_ok reservationRow s;
  ok_targets : table_ok ReviewTarget s;
  ok_requests : table_ok ReviewRequest s;
  ok_outcomes : table_ok ReviewOutcomeRecord s;
  ok_notes : table_ok AttemptNote s;
  ok_artifacts : table_ok Artifact s;
  ok_sessions : table_ok SessionRow s;
  ok_labels : table_ok Label s;
  ok_relations : table_ok IssueRelation s;
  ok_policies : table_ok WorkflowPolicy s;
  ok_evidence : table_ok AttemptEvidence s;
  ok_comments : table_ok Comment s;
  ok_decisions : table_ok Decision s;
  ok_log : log_ok s;
}.

Section table_ok.
Context `{SQLiteDriver} {R : Type} `{Constrained R} `{!TableLaws R}.

Lemma table_ok_mono s s' : grows s s' → table s' = table s → table_ok R s → table_ok R s'.
Proof.
  intros Hg Ht [Hk Hc]. split; rewrite Ht; [done|]. intros id r Hr. eapply constraint_mono; eauto.
Qed.

Lemma table_ok_set s id (row : R) :
  table_ok R s → row_id row = id → constraint s id row = true →
  table_ok R (set_table (<[id := row]> (table s)) s).
Proof.
  intros [Hk Hc] Hid Hrow. split; rewrite table_set_table; [by apply keyed_update|].
  intros id' r' Hr'. apply constraint_set; [done|].
  destruct (decide (id' = id)) as [->|Hne].
  - rewrite lookup_insert_eq in Hr'. injection Hr' as <-. by left.
  - rewrite lookup_insert_ne in Hr' by done. right. eauto.
Qed.
End table_ok.

Ltac schema_set s :=
  intros [] ? ?; split;
  first [ by apply table_ok_set
        | apply (table_ok_mono s); [|done|done]; auto using set_issues_grows, set_attempts_grows,
            set_reservations_grows, set_targets_grows, set_requests_grows, set_outcomes_grows,
            set_notes_grows, set_artifacts_grows, set_sessions_grows, set_labels_grows, set_relations_grows,
            set_policies_grows, set_evidence_grows, set_comments_grows, set_decisions_grows
        | assumption ].

Class SchemaTable (R : Type) `{Table R} : Prop := {
  schema_set_table s id (row : R) :
    schema_ok s → row_id row = id → constraint s id row = true →
    schema_ok (set_table (<[id := row]> (table s)) s)
}.
#[export] Instance issues_schema : SchemaTable Issue. Proof. split. intros s id row. schema_set s. Qed.
#[export] Instance attempts_schema : SchemaTable AttemptRow. Proof. split. intros s id row. schema_set s. Qed.
#[export] Instance reservations_schema : SchemaTable reservationRow. Proof. split. intros s id row. schema_set s. Qed.
#[export] Instance targets_schema : SchemaTable ReviewTarget. Proof. split. intros s id row. schema_set s. Qed.
#[export] Instance requests_schema : SchemaTable ReviewRequest. Proof. split. intros s id row. schema_set s. Qed.
#[export] Instance outcomes_schema : SchemaTable ReviewOutcomeRecord. Proof. split. intros s id row. schema_set s. Qed.
#[export] Instance notes_schema : SchemaTable AttemptNote. Proof. split. intros s id row. schema_set s. Qed.
#[export] Instance artifacts_schema : SchemaTable Artifact. Proof. split. intros s id row. schema_set s. Qed.
#[export] Instance sessions_schema : SchemaTable SessionRow. Proof. split. intros s id row. schema_set s. Qed.
#[export] Instance labels_schema : SchemaTable Label. Proof. split. intros s id row. schema_set s. Qed.
#[export] Instance relations_schema : SchemaTable IssueRelation. Proof. split. intros s id row. schema_set s. Qed.
#[export] Instance policies_schema : SchemaTable WorkflowPolicy. Proof. split. intros s id row. schema_set s. Qed.
#[export] Instance evidence_schema : SchemaTable AttemptEvidence. Proof. split. intros s id row. schema_set s. Qed.
#[export] Instance comments_schema : SchemaTable Comment. Proof. split. intros s id row. schema_set s. Qed.
#[export] Instance decisions_schema : SchemaTable Decision. Proof. split. intros s id row. schema_set s. Qed.

Lemma schema_Insert `{SQLiteDriver} {R} `{SchemaTable R} (row : R) s u s' :
  schema_ok s → Insert row s = Ok (u, s') → schema_ok s'.
Proof. intros Hs (_ & Hc & ->)%Insert_Ok. by apply schema_set_table. Qed.

Lemma schema_Update `{SQLiteDriver} {R} `{SchemaTable R} id p (f : R → R) s n s' :
  schema_ok s → keyed (R := R) (table s) → (∀ r, row_id (f r) = row_id r) →
  Update id p f s = Ok (n, s') → schema_ok s'.
Proof.
  intros Hs Hk Hf [(row & Hr & _ & Hc & _ & ->)|(_ & _ & ->)]%Update_Ok; [|done].
  apply schema_set_table; [done| |done]. rewrite Hf. by apply Hk.
Qed.

(** ** Appending to the log *)

Definition append_all (l : list Event) (s : Store) : Store := foldl (λ s e, append_draft e s) s l.

Lemma append_all_app l k s : append_all (l ++ k) s = append_all k (append_all l s).
Proof. apply foldl_app. Qed.

Fixpoint numbered (last : Z) (l : list Event) : list Event :=
  match l with [] => [] | e :: l => with_id (last + 1) e :: numbered (last + 1) l end.

Lemma append_all_log l : ∀ s,
  st_events (append_all l s) = st_events s ++ numbered (st_last_event s) l ∧
  st_last_event (append_all l s) = (st_last_event s + Z.of_nat (length l))%Z.
Proof.
  induction l as [|e l IH]; intros s; cbn [numbered length].
  { split; [by rewrite app_nil_r|cbn; lia]. }
  change (append_all (e :: l) s) with (append_all l (append_draft e s)).
  destruct (IH (append_draft e s)) as [-> ->]. cbn [append_draft push_event st_events st_last_event].
  rewrite <-app_assoc. split; [done|lia].
Qed.

(** Every other part of the store. *)
Lemma append_all_frame {A} (f : Store → A) l s :
  (∀ e s, f (append_draft e s) = f s) → f (append_all l s) = f s.
Proof.
  intros Hf. revert s. induction l as [|e l IH]; intros s; [done|].
  change (append_all (e :: l) s) with (append_all l (append_draft e s)). by rewrite IH.
Qed.

Lemma append_all_set_reservations l m s :
  append_all l (set_reservations m s) = set_reservations m (append_all l s).
Proof.
  revert s. induction l as [|e l IH]; intros s; [done|].
  change (append_all (e :: l) (set_reservations m s))
    with (append_all l (set_reservations m (append_draft e s))). by rewrite IH.
Qed.

Lemma set_reservations_twice m m' s : set_reservations m (set_reservations m' s) = set_reservations m s.
Proof. done. Qed.

Lemma log_ok_append e s : log_ok s → log_ok (append_draft e s).
Proof.
  intros (Hs & Hf & Hn). unfold append_draft, push_event, log_ok. cbn. split_and!; [|..|lia].
  - rewrite map_app. cbn. induction Hf as [|x l Hx Hf IH]; cbn in *; [repeat constructor|].
    inversion Hs as [|? ? Hs' Hx']; subst. constructor; [by apply IH|].
    apply Forall_app. split; [done|]. repeat constructor. lia.
  - apply Forall_app. split; [|repeat constructor; cbn; lia].
    eapply Forall_impl; [exact Hf|]. cbn. intros; lia.
Qed.

(** ** Operations that leave the keyed tables alone *)

Record same_tables (s s' : Store) : Prop := {
  same_issues : st_issues s' = st_issues s;
  same_attempts : st_attempts s' = st_attempts s;
  same_reservations : st_reservations s' = st_reservations s;
  same_targets : st_targets s' = st_targets s;
  same_requests : st_requests s' = st_requests s;
  same_outcomes : st_outcomes s' = st_outcomes s;
  same_notes : st_notes s' = st_notes s;
  same_artifacts : st_artifacts s' = st_artifacts s;
  same_sessions : st_sessions s' = st_sessions s;
  same_labels : st_labels s' = st_labels s;
  same_relations : st_relations s' = st_relations s;
  same_policies : st_policies s' = st_policies s;
  same_evidence : st_evidence s' = st_evidence s;
  same_comments : st_comments s' = st_comments s;
  same_decisions : st_decisions s' = st_decisions s;
}.

Lemma same_tables_grows s s' : same_tables s s' → grows s s'.
Proof. intros []. split; intros id; congruence. Qed.

Lemma schema_same s s' : same_tables s s' → log_ok s' → schema_ok s → schema_ok s'.
Proof.
  intros Hs Hl Hok. pose proof (same_tables_grows _ _ Hs) as Hg.
  destruct Hs, Hok. split; [..|done]; by apply (table_ok_mono s).
Qed.

Lemma schema_append e s : schema_ok s → schema_ok (append_draft e s).
Proof. intros Hs. apply (schema_same s); [by split|by apply log_ok_append, Hs|done]. Qed.

Lemma schema_append_all l s : schema_ok s → schema_ok (append_all l s).
Proof.
  revert s. induction l as [|e l IH]; intros s Hs; [done|].
  change (append_all (e :: l) s) with (append_all l (append_draft e s)). by apply IH, schema_append.
Qed.

(** ** Preservation by transactions *)

Definition preserves {A} (P : Store → Prop) (m : Tx A) : Prop :=
  ∀ s a s', P s → m s = Ok (a, s') → P s'.

Section preserves.
Context (P : Store → Prop).

Lemma preserves_ret {A} (a : A) : preserves P (mret a : Tx A).
Proof. intros s b s' HP [-> ->]%tx_ret_Ok. done. Qed.
Lemma preserves_query {A} (f : Store → A) : preserves P (query f).
Proof. intros s b s' HP [-> ->]%query_Ok. done. Qed.
Lemma preserves_lift {A} (r : result A) : preserves P (lift r).
Proof. intros s b s' HP [_ ->]%lift_Ok. done. Qed.
Lemma preserves_lift_query {A} (f : Store → result A) : preserves P (lift_query f).
Proof. intros s b s' HP [_ ->]%lift_query_Ok. done. Qed.
Lemma preserves_fail {A} e : preserves P (fail (A := A) e).
Proof. by intros s b s' HP H%fail_Ok. Qed.
Lemma preserves_bind {A B} (m : Tx A) (f : A → Tx B) :
  preserves P m → (∀ a, preserves P (f a)) → preserves P (m ≫= f).
Proof. intros Hm Hf s b s' HP (a & s1 & H1 & H2)%tx_bind_Ok. eapply Hf; [|exact H2]. eapply Hm; eauto. Qed.
Lemma preserves_wrap {A} prefix (m : Tx A) : preserves P m → preserves P (wrap prefix m).
Proof. intros Hm s b s' HP H%wrap_Ok. eauto. Qed.
Lemma preserves_for_each {A} (f : A → Tx unit) l : (∀ a, preserves P (f a)) → preserves P (for_each f l).
Proof.
  intros Hf. induction l as [|a l IH]; cbn; [apply preserves_ret|]. by apply preserves_bind.
Qed.
Lemma preserves_Write {A} (m : Tx (result A)) s : preserves P m → P s → P (Write m s).2.
Proof.
  intros Hm HP. destruct (Write_spec m s) as [(e & _ & ->)|(r & s' & Hr & ->)]; [done|]. cbn. eapply Hm; eauto.
Qed.
End preserves.

(** The state after a write, from the run of the transaction. *)
Lemma Write_post {A} (P : Store → Prop) (m : Tx (result A)) s :
  (∀ r s', m s = Ok (r, s') → P s') → P s → P (Write m s).2.
Proof. intros Hm HP. destruct (Write_spec m s) as [(e & _ & ->)|(r & s' & Hr & ->)]; [done|by eapply Hm]. Qed.

(** A transaction that only reads. *)
Definition reads {A} (m : Tx A) : Prop := ∀ s a s', m s = Ok (a, s') → s' = s.
Lemma reads_preserves {A} (m : Tx A) P : reads m → preserves P m.
Proof. intros Hm s a s' HP Hr. by rewrite (Hm _ _ _ Hr). Qed.

Create HintDb pres.
#[export] Hint Resolve preserves_ret preserves_query preserves_lift preserves_lift_query preserves_fail
  preserves_bind preserves_wrap preserves_for_each : pres.

(** Case analysis on the program's tests, then the rule of each step. *)
Ltac pres_step :=
  match goal with
  | |- ∀ _, _ => intro
  | |- preserves _ (if ?b then _ else _) => destruct b
  | |- preserves _ (match ?x with _ => _ end) => destruct x
  | |- preserves _ (_ ≫= _) => apply preserves_bind
  | |- preserves _ (wrap _ _) => apply preserves_wrap
  | |- _ => solve [eauto with pres]
  | |- preserves _ (for_each _ _) => apply preserves_for_each
  end.
Ltac pres := repeat pres_step.

Section schema_preserved.
Context `{SQLiteDriver}.

Lemma schema_pres_Insert {R} `{SchemaTable R} (row : R) : preserves schema_ok (Insert row).
Proof. intros s a s'. apply schema_Insert. Qed.

Lemma schema_pres_appendEvent i t sid aid p c src : preserves schema_ok (appendEvent i t sid aid p c src).
Proof. intros s n s' Hs H1. apply appendEvent_Ok in H1 as (_ & _ & _ & _ & _ & ->). by apply schema_append. Qed.

Lemma schema_pres_appendIssueEvent i t sid aid p c : preserves schema_ok (appendIssueEvent i t sid aid p c).
Proof. unfold appendIssueEvent. pres; apply schema_pres_appendEvent. Qed.

Lemma reads_lookupIdempotency op key hash : reads (lookupIdempotency op key hash).
Proof.
  intros s r s'. unfold lookupIdempotency. destruct (key =s ""); [naive_solver|].
  destruct (st_idempotency s !! _); [|naive_solver]. destruct (negb _); naive_solver.
Qed.

Lemma storeIdempotency_Ok op key hash response now s u s' :
  storeIdempotency op key hash response now s = Ok (u, s') →
  (key = "" ∧ s' = s) ∨
  (key ≠ "" ∧ hash ≠ "" ∧ st_idempotency s !! (op, key) = None ∧
   s' = set_idempotency (<[(op, key) := mkIdempotency hash response now]> (st_idempotency s)) s).
Proof.
  unfold storeIdempotency. destruct (key =s "") eqn:Hk.
  { intros [= _ <-]. left. by apply eqb_string_true in Hk. }
  apply eqb_string_false in Hk. destruct (hash =s "") eqn:Hh; [done|]. apply eqb_string_false in Hh.
  destruct (st_idempotency s !! (op, key)) eqn:Hl; cbn; [done|]. intros [= _ <-]. by right.
Qed.

Lemma schema_pres_storeIdempotency op key hash response now :
  preserves schema_ok (storeIdempotency op key hash response now).
Proof.
  intros s u s' Hs [[_ ->]|(_ & _ & _ & ->)]%storeIdempotency_Ok; [done|].
  apply (schema_same s); [by split|apply Hs|done].
Qed.

Lemma reads_loadIssueForMutation identifier : reads (loadIssueForMutation identifier).
Proof.
  intros s i s'. unfold loadIssueForMutation. destruct (id_Kind identifier).
  - destruct (st_issues s !! id_Value identifier); [|done]. by intros [= _ <-].
  - destruct (List.find _ _); [|done]. by intros [= _ <-].
Qed.
End schema_preserved.
#[export] Hint Extern 1 (preserves schema_ok (Insert _)) => apply schema_pres_Insert : pres.
#[export] Hint Resolve schema_pres_appendEvent schema_pres_appendIssueEvent
  schema_pres_storeIdempotency reads_lookupIdempotency reads_loadIssueForMutation : pres.
#[export] Hint Extern 3 (preserves _ _) => (apply reads_preserves; solve [eauto with pres]) : pres.

(** ** Projections a transaction does not touch *)

Definition keeping {X} (f : Store → X) (x : X) (s : Store) : Prop := f s = x.

Section keeping.
Context `{SQLiteDriver} {X : Type} (f : Store → X) (x : X).

Lemma keep_Insert {R} `{Table R} (row : R) : (∀ m s, f (set_table m s) = f s) → preserves (keeping f x) (Insert row).
Proof. intros Hf s u s' Hx (_ & _ & ->)%Insert_Ok. unfold keeping. by rewrite Hf. Qed.
Lemma keep_Update {R} `{Table R} id p (g : R → R) :
  (∀ m s, f (set_table m s) = f s) → preserves (keeping f x) (Update id p g).
Proof. intros Hf s n s' Hx [(row & _ & _ & _ & _ & ->)|(_ & _ & ->)]%Update_Ok; unfold keeping; by rewrite ?Hf. Qed.
Lemma keep_Delete {R} `{Table R} id : (∀ m s, f (set_table m s) = f s) → preserves (keeping f x) (Delete (R := R) id).
Proof. intros Hf s u s' Hx [= _ <-]. unfold keeping. by rewrite Hf. Qed.
Lemma keep_appendEvent i t sid aid p c src :
  (∀ e s, f (append_draft e s) = f s) → preserves (keeping f x) (appendEvent i t sid aid p c src).
Proof. intros Hf s n s' Hx (_ & _ & _ & _ & _ & ->)%appendEvent_Ok. unfold keeping. by rewrite Hf. Qed.
Lemma keep_storeIdempotency op key hash response now :
  (∀ m s, f (set_idempotency m s) = f s) → preserves (keeping f x) (storeIdempotency op key hash response now).
Proof. intros Hf s u s' Hx [[_ ->]|(_ & _ & _ & ->)]%storeIdempotency_Ok; unfold keeping; by rewrite ?Hf. Qed.
End keeping.

(** The value of a kept projection after a run. *)
Lemma kept {X A} (f : Store → X) (m : Tx A) s a s' :
  (∀ x, preserves (keeping f x) m) → m s = Ok (a, s') → f s' = f s.
Proof. intros Hm Hrun. by eapply (Hm (f s)). Qed.

Create HintDb keep.
#[export] Hint Unfold appendIssueEvent : keep.
Ltac keep :=
  autounfold with keep;
  repeat first
    [ progress pres
    | apply keep_Insert; intros; reflexivity | apply keep_Update; intros; reflexivity
    | apply keep_appendEvent; intros; reflexivity | apply keep_storeIdempotency; intros; reflexivity
    | apply keep_Delete; intros; reflexivity
    | apply preserves_for_each; intros ? | progress autounfold with keep ].
