(* ===== verification/ReservationStore.v ===== *)
(** * Reservations in the store

    [internal/adapters/sqlite/reservations.go]: the candidate query, the
    acquisition and release of reservations inside a transaction, and the
    repository operations [AcquireReservations], [ReleaseReservation],
    [GetReservation], [ListActiveReservations] and [ListReservationHistory].

    The main result is that acquisition keeps the active reservations pairwise
    disjoint although it reads only the rows an index selects. *)

From S2P Require Import Prelude GoStrings Errors Validation Samples Issue Relation Session IssueOps.
From S2P Require Import Discussion Resource Attempt Gates.
From S2P Require Import Store Schema.

Definition acquireReservationsOperation := "acquire_reservations".

(** The replay every idempotent operation starts with. *)
Definition replayed {A} (operation key hash : string) (decode : Response → option A) (k : Tx (result A)) :
    Tx (result A) :=
  saved ← lookupIdempotency operation key hash;
  match saved with
  | Some response => match decode response with Some r => mret (Ok r) | None => fail corruptResponse end
  | None => k
  end.
Definition asReservations (r : Response) : option (list Reservation) :=
  match r with RReservations r => Some r | _ => None end.

(** [ports.ReservationResourceInput]. *)
Record ReservationResourceInput := mkResourceInput { ri_ID : string; ri_Resource : Resource }.

(** A decoded row: the fields and the resource its identity normalizes to. *)
Record scannedRow := mkScanned { sc_Row : reservationRow; sc_normalized : NormalizedResource }.

(** ** The SQL string expressions of the candidate query *)

(** [substr(x, instr(x, c) + 1)]: all of [x] when [c] does not occur. *)
Fixpoint after_byte (c : ascii) (x : string) : option string :=
  match x with
  | EmptyString => None
  | String d rest => if Ascii.eqb d c then Some rest else after_byte c rest
  end.
Definition afterColon (comparisonValue : string) : string :=
  default comparisonValue (after_byte colon comparisonValue).

(** [substr(x, 1, instr(x, '/') - 1)] of a value that has a slash. *)
Fixpoint before_byte (c : ascii) (x : string) : string :=
  match x with
  | EmptyString => EmptyString
  | String d rest => if Ascii.eqb d c then EmptyString else String d (before_byte c rest)
  end.
Definition firstSegment (comparisonValue : string) : string :=
  before_byte slash (afterColon comparisonValue +:+ "/").

Definition isLogical (candidate : PreparedResource) : bool :=
  n_kind (pr_Resource candidate) =s ResourceKindLogical.
Definition firstLiteral (candidate : PreparedResource) : option string :=
  FirstLiteralSegment (PrepareOverlap (pr_Resource candidate)).

(** The two selections of the candidate query. *)
Definition selectsLogical (prepared : list PreparedResource) (row : reservationRow) : bool :=
  let keys := map (λ c, Key (pr_Resource c)) (List.filter isLogical prepared) in
  reservationActive row && (rr_Kind row =s ResourceKindLogical) &&
  existsb (λ key, rr_ComparisonValue row =s key) keys.

Definition pathKind (kind : string) : bool :=
  (kind =s ResourceKindFile) || (kind =s ResourceKindDirectory) || (kind =s ResourceKindGlob).

Definition selectsPath (prepared : list PreparedResource) (row : reservationRow) : bool :=
  let paths := List.filter (λ c, negb (isLogical c)) prepared in
  let anchors := omap firstLiteral paths in
  let allPaths := existsb (λ c, negb (isSet (firstLiteral c))) paths in
  let first := firstSegment (rr_ComparisonValue row) in
  negb (null paths) && reservationActive row && pathKind (rr_Kind row) &&
  (allPaths || existsb (λ key, first =s key) anchors ||
   ((rr_Kind row =s ResourceKindGlob) && ((first =s "*") || (first =s "**")))).

Section repository.
Context `{UnicodeTables, ULID, SQLiteDriver}.

(** ** Decoding *)

Definition corruptReservationField (cause : option string) (field code : string) : DomainError :=
  let e := NewError CodeStorageCorrupt "stored reservation is invalid" false [mkDetail None field code ""] in
  mkError (e_Code e) (e_Message e) (e_Details e) (e_Retryable e) cause.

Definition scanReservationRow (row : reservationRow) : result scannedRow :=
  let r := rr_Reservation row in
  let active := rv_Status r =s ReservationStatusActive in
  fail_if negb (ids_ParseStrict (rv_ID r)) with corruptReservationField (Some "ulid") "id" "INVALID_ULID" ;;
  fail_if negb (ids_ParseStrict (rv_IssueID r))
    with corruptReservationField (Some "ulid") "issue_id" "INVALID_ULID" ;;
  fail_if negb (ids_ParseStrict (rv_AttemptID r))
    with corruptReservationField (Some "ulid") "attempt_id" "INVALID_ULID" ;;
  fail_if negb (ResourceKind_Valid (rv_Kind r)) with corruptReservationField None "kind" "INVALID_ENUM" ;;
  fail_if negb active && negb (rv_Status r =s ReservationStatusReleased)
    with corruptReservationField None "status" "INVALID_ENUM" ;;
  fail_if match rv_ReleaseReason r with Some reason => negb (ReservationReleaseReason_Valid reason) | None => false end
    with corruptReservationField None "release_reason" "INVALID_ENUM" ;;
  fail_if negb (Bool.eqb active (negb (isSet (rv_ReleasedAt r))))
    with corruptReservationField None "released_at" "STATUS_MISMATCH" ;;
  fail_if negb (Bool.eqb active (negb (isSet (rv_ReleaseReason r))))
    with corruptReservationField None "release_reason" "STATUS_MISMATCH" ;;
  match Normalize (mkResource (rv_Kind r) (r_Path (rr_Identity row)) (r_Namespace (rr_Identity row))
                     (r_Name (rr_Identity row))) with
  | Err e => Err (corruptReservationField (Some (e_Message e)) "normalized_json" "INVALID_NORMALIZED_RESOURCE")
  | Ok normalized =>
      fail_if negb (Key normalized =s rv_ComparisonValue r)
        with corruptReservationField None "comparison_value" "MISMATCH" ;;
      Ok (mkScanned row normalized)
  end.

Definition reservationNotFound (details : list Detail) : DomainError :=
  NewError CodeReservationNotFound "reservation not found" false details.

Definition loadReservationByID (id : string) : Tx scannedRow := λ s,
  match st_reservations s !! id with
  | None => Err (reservationNotFound [])
  | Some row => lift (scanReservationRow row) s
  end.

(** ** Acquisition *)

Definition candidateRows (prepared : list PreparedResource) (s : Store) : list reservationRow :=
  stable_sort rowLess
    (List.filter (selectsLogical prepared) (rows s) ++ List.filter (selectsPath prepared) (rows s)).

Definition loadCandidateReservations (prepared : list PreparedResource) : Tx (list scannedRow) := λ s,
  lift (collect scanReservationRow (candidateRows prepared s)) s.

(** [lookupAttemptConflictInfo]: lease expiry and agent label of the owner. *)
Definition lookupAttemptConflictInfo (attemptID : string) (s : Store) : option (Z * string) :=
  match st_attempts s !! attemptID with
  | Some a => Some (ar_LeaseExpiresAt a, default "" (wa_AgentLabel (ar_Attempt a)))
  | None => None
  end.

Definition conflictDetail (s : Store) (candidate : PreparedResource) (existing : scannedRow) : Detail :=
  let r := rr_Reservation (sc_Row existing) in
  let message :=
    "requested " +:+ n_kind (pr_Resource candidate) +:+ " " +:+ Quote (n_display (pr_Resource candidate)) +:+
    " conflicts with active reservation " +:+ rv_ID r +:+ " (" +:+ rv_Kind r +:+ " " +:+
    Quote (rv_DisplayValue r) +:+ ") held by issue=" +:+ rv_IssueID r +:+ " attempt=" +:+ rv_AttemptID r in
  let message :=
    match lookupAttemptConflictInfo (rv_AttemptID r) s with
    | Some (leaseExpiresAt, agentLabel) =>
        (if negb (agentLabel =s "") then message +:+ " session=" +:+ Quote agentLabel else message) +:+
        ", lease expires " +:+ formatStorageTime leaseExpiresAt
    | None => message
    end in
  mkDetail (Some (pr_Index candidate)) ("resources." +:+ Itoa (pr_Index candidate))
    CodeResourceReservationConflict message.

Definition overlapsRow (candidate : PreparedResource) (existing : scannedRow) : bool :=
  PreparedOverlap_Overlaps (PrepareOverlap (pr_Resource candidate)) (PrepareOverlap (sc_normalized existing)).

(** One detail per candidate that meets a conflict, for the first row it meets. *)
Definition conflictsOf (s : Store) (active : list scannedRow) (prepared : list PreparedResource) : list Detail :=
  omap (λ candidate, match List.find (overlapsRow candidate) active with
                     | Some existing => Some (conflictDetail s candidate existing)
                     | None => None
                     end) prepared.

Definition newReservationRow (id issueID attemptID : string) (resource : NormalizedResource) (now : Z) : reservationRow :=
  mkReservationRow
    (mkReservation id issueID attemptID (n_kind resource) (n_display resource) (Key resource)
       ReservationStatusActive 1 now None None)
    (storedIdentity resource).

(** [resources[candidate.Index].ID]: the index is a position of the request. *)
Definition resourceID (resources : list ReservationResourceInput) (candidate : PreparedResource) : string :=
  match resources !! Z.to_nat (pr_Index candidate) with Some input => ri_ID input | None => "" end.

Fixpoint insertReservations (prepared : list PreparedResource) (resources : list ReservationResourceInput)
    (issueID attemptID : string) (sessionID : option string) (now : Z) : Tx (list Reservation) :=
  match prepared with
  | [] => mret []
  | candidate :: rest =>
      let row := newReservationRow (resourceID resources candidate) issueID attemptID (pr_Resource candidate) now in
      run Insert row ;;
      run appendIssueEvent issueID "reservation_reserved" sessionID (Some attemptID)
            (PReservationReserved (rr_ID row) (rr_Kind row) (rv_DisplayValue (rr_Reservation row))
               (rr_ComparisonValue row)) now ;;
      reservations ← insertReservations rest resources issueID attemptID sessionID now;
      mret (toDomain row :: reservations)
  end.

Definition conflictError (conflicts : list Detail) : DomainError :=
  NewError CodeResourceReservationConflict "requested resources conflict with active reservations" false conflicts.

Definition acquireReservationsForAttempt (prepared : list PreparedResource)
    (resources : list ReservationResourceInput) (issueID attemptID : string) (sessionID : option string)
    (now : Z) : Tx (list Reservation) :=
  active ← loadCandidateReservations prepared;
  conflicts ← query (λ s, conflictsOf s active prepared);
  raise_if (0 <? Z.of_nat (length conflicts))%Z with conflictError conflicts ;;
  insertReservations prepared resources issueID attemptID sessionID now.

(** ** Release *)

Definition releasedReservation (reason : string) (now : Z) (r : Reservation) : Reservation :=
  mkReservation (rv_ID r) (rv_IssueID r) (rv_AttemptID r) (rv_Kind r) (rv_DisplayValue r)
    (rv_ComparisonValue r) ReservationStatusReleased (rv_Version r + 1) (rv_CreatedAt r) (Some now) (Some reason).
Definition releasedRow (reason : string) (now : Z) (row : reservationRow) : reservationRow :=
  mkReservationRow (releasedReservation reason now (rr_Reservation row)) (rr_Identity row).

(** [UPDATE resource_reservations SET status = 'released', ... WHERE id = ? AND version = ?]. *)
Definition updateReleased (reason : string) (now : Z) (id : string) (version : Z) : Tx Z :=
  Update id (λ row, (rv_Version (rr_Reservation row) =? version)%Z) (releasedRow reason now).

Definition scanChanged (scan : string) : DomainError :=
  NewError CodeStorageCorrupt
    ("reservation version changed between " +:+ scan +:+ " scan and its own conditional update") false [].

Fixpoint releaseRows (scan attemptID : string) (sessionID : option string) (reason : string) (now : Z)
    (scanned : list reservationRow) : Tx (list Reservation) :=
  match scanned with
  | [] => mret []
  | row :: rest =>
      affected ← updateReleased reason now (rr_ID row) (rv_Version (rr_Reservation row));
      raise_if negb (affected =? 1)%Z with scanChanged scan ;;
      run appendIssueEvent (rv_IssueID (rr_Reservation row)) "reservation_released" sessionID (Some attemptID)
            (PReservationReleased (rr_ID row) reason) now ;;
      released ← releaseRows scan attemptID sessionID reason now rest;
      mret (releasedReservation reason now (rr_Reservation row) :: released)
  end.

Definition ownedActive (attemptID : string) (row : reservationRow) : bool :=
  (rr_AttemptID row =s attemptID) && reservationActive row.

Definition releaseReservationsForAttempt (attemptID reason : string) (now : Z) : Tx unit :=
  active ← query (select (ownedActive attemptID));
  run releaseRows "the attempt-release" attemptID None reason now active ;;
  mret tt.

(** The named rows, each active and owned, in request order. *)
Fixpoint loadOwnedRows (attemptID : string) (reservationIDs : list string) : Tx (list reservationRow) :=
  match reservationIDs with
  | [] => mret []
  | id :: rest =>
      row ← loadReservationByID id;
      raise_if negb (rr_AttemptID (sc_Row row) =s attemptID)
        with reservationNotFound [mkDetail None "reservation_ids" "NOT_OWNED" id] ;;
      raise_if negb (reservationActive (sc_Row row))
        with NewError CodeReservationNotActive "reservation is not active" false
               [mkDetail None "reservation_ids" "NOT_ACTIVE" id] ;;
      rows ← loadOwnedRows attemptID rest;
      mret (sc_Row row :: rows)
  end.

Definition releaseResourcesForAttempt (attemptID : string) (reservationIDs : list string)
    (sessionID : option string) (reason : string) (now : Z) : Tx (list Reservation) :=
  rows ← (match reservationIDs with
          | [] => lift_query (λ s, map sc_Row <$> collect scanReservationRow (select (ownedActive attemptID) s))
          | _ => loadOwnedRows attemptID reservationIDs
          end : Tx (list reservationRow));
  releaseRows "this release's" attemptID sessionID reason now rows.

(** ** Repository operations *)

(** [ports.AcquireReservationsCommand]. *)
Record AcquireReservationsCommand := mkAcquire {
  aq_IssueID : string;
  aq_AttemptID : string;
  aq_SessionID : option string;
  aq_Resources : list ReservationResourceInput;
  aq_OccurredAt : Z;
  aq_IdempotencyKey : string;
  aq_RequestHash : string;
}.

Definition idGenerationError : DomainError :=
  WrapError "ulid" CodeIDGeneration "cannot generate reservation identifier" false [].

Definition prepareInputs (resources : list ReservationResourceInput) : result (list PreparedResource) :=
  try each (λ item, fail_if negb (ids_ParseStrict (ri_ID item)) with idGenerationError ;; Ok tt) resources ;;
  PrepareReservationRequest (map ri_Resource resources).

Definition AcquireReservations (command : AcquireReservationsCommand) (s : Store) : result (list Reservation) * Store :=
  let invalid := λ e : DomainError, (Err e, s) in
  if negb (ids_ParseStrict (aq_IssueID command))
  then invalid (WrapError "ulid" CodeInvalidArgument "issue id is invalid" false [])
  else if negb (ids_ParseStrict (aq_AttemptID command))
  then invalid (WrapError "ulid" CodeInvalidArgument "attempt id is invalid" false [])
  else if (aq_OccurredAt command =? time_zero)%Z
  then invalid (NewError CodeInvalidArgument "acquire reservations command is invalid" false [])
  else if null (aq_Resources command)
  then invalid (NewError CodeInvalidArgument "resources must not be empty" false [])
  else match prepareInputs (aq_Resources command) with
  | Err e => invalid e
  | Ok prepared =>
      Write (replayed acquireReservationsOperation (aq_IdempotencyKey command) (aq_RequestHash command) asReservations (
        reservations ← acquireReservationsForAttempt prepared (aq_Resources command) (aq_IssueID command)
          (aq_AttemptID command) (aq_SessionID command) (aq_OccurredAt command);
        run storeIdempotency acquireReservationsOperation (aq_IdempotencyKey command) (aq_RequestHash command)
              (RReservations reservations) (aq_OccurredAt command) ;;
        mret (Ok reservations))) s
  end.

(** [ports.ReleaseReservationCommand]. *)
Record ReleaseReservationCommand := mkReleaseReservation {
  rc_ID : string;
  rc_Reason : string;
  rc_ExpectedVersion : Z;
  rc_OccurredAt : Z;
}.

Definition versionMismatch : DomainError :=
  NewError CodeVersionConflict "reservation version does not match" false [].

Definition ReleaseReservation (command : ReleaseReservationCommand) (s : Store) : result Reservation * Store :=
  let id := rc_ID command in
  if negb (ids_ParseStrict id)
  then (Err (WrapError "ulid" CodeInvalidArgument "reservation id is invalid" false []), s)
  else if negb (ReservationReleaseReason_Valid (rc_Reason command))
  then (Err (NewError CodeInvalidArgument "release reason is invalid" false []), s)
  else if (rc_OccurredAt command =? time_zero)%Z || (rc_ExpectedVersion command <? 1)%Z
  then (Err (NewError CodeInvalidArgument "release reservation command is invalid" false []), s)
  else
    Write (
      row ← loadReservationByID id;
      let r := rr_Reservation (sc_Row row) in
      raise_if negb (rv_Status r =s ReservationStatusActive)
        with NewError CodeReservationNotActive "reservation is not active" false [] ;;
      raise_if negb (rv_Version r =? rc_ExpectedVersion command)%Z with versionMismatch ;;
      affected ← updateReleased (rc_Reason command) (rc_OccurredAt command) id (rc_ExpectedVersion command);
      raise_if negb (affected =? 1)%Z with versionMismatch ;;
      run appendIssueEvent (rv_IssueID r) "reservation_released" None (Some (rv_AttemptID r))
            (PReservationReleased id (rc_Reason command)) (rc_OccurredAt command) ;;
      updated ← loadReservationByID id;
      mret (Ok (toDomain (sc_Row updated)))) s.

(** Reads: one snapshot of the store. *)
Definition GetReservation (id : string) (s : Store) : result Reservation :=
  fail_if negb (ids_ParseStrict id) with WrapError "ulid" CodeInvalidArgument "reservation id is invalid" false [] ;;
  '(row, _) ← loadReservationByID id s; Ok (toDomain (sc_Row row)).

Definition matchesQuery (issueID attemptID : string) (row : reservationRow) : bool :=
  ((issueID =s "") || (rv_IssueID (rr_Reservation row) =s issueID)) &&
  ((attemptID =s "") || (rr_AttemptID row =s attemptID)).

Definition ListActiveReservations (issueID attemptID : string) (s : Store) : result (list Reservation) :=
  rows ← collect scanReservationRow
           (select (λ row, reservationActive row && matchesQuery issueID attemptID row) s);
  Ok (map (λ row, toDomain (sc_Row row)) rows).

(** [ORDER BY released_at DESC, id DESC]; a released row has a time. *)
Definition historyLess (a b : reservationRow) : bool :=
  let ta := default 0%Z (rv_ReleasedAt (rr_Reservation a)) in
  let tb := default 0%Z (rv_ReleasedAt (rr_Reservation b)) in
  (tb <? ta)%Z || ((ta =? tb)%Z && str_less (rr_ID b) (rr_ID a)).

Definition ListReservationHistory (issueID attemptID : string) (requested : Z) (s : Store) :
    result (list Reservation) :=
  let limit := if (requested <=? 0)%Z then DefaultReservationHistoryLimit else requested in
  fail_if (MaxReservationHistoryLimit <? limit)%Z
    with NewError CodeLimitExceeded ("limit exceeds the maximum of " +:+ Itoa MaxReservationHistoryLimit) false
           [mkDetail None "limit" "MAX_ITEMS" ""] ;;
  let released := stable_sort historyLess
    (List.filter (λ row, (rv_Status (rr_Reservation row) =s ReservationStatusReleased) &&
                         matchesQuery issueID attemptID row) (rows s)) in
  rows ← collect scanReservationRow (take (Z.to_nat limit) released);
  Ok (map (λ row, toDomain (sc_Row row)) rows).
End repository.

(** ** The candidate query is complete

    The row describes the resource [n]: its kind and key are those of [n].  By
    [Key_denotes] all resources a row describes denote the same points. *)
Definition rowDescribes (row : reservationRow) (n : NormalizedResource) : Prop :=
  resource_wf n ∧ n_kind n = rr_Kind row ∧ Key n = rr_ComparisonValue row.

Lemma rowDescribes_denotes row n k x :
  rowDescribes row n → rowDescribes row k → denotes n x ↔ denotes k x.
Proof.
  intros (Hn & Hkn & HKn) (Hk & Hkk & HKk). apply Key_denotes; [done..|].
  unfold resourceIdentity. congruence.
Qed.

Lemma contains_byte_cons c d x : contains_byte c (String d x) = Ascii.eqb c d || contains_byte c x.
Proof. done. Qed.

Lemma after_byte_app c k rest :
  contains_byte c k = false → after_byte c (k +:+ String c rest) = Some rest.
Proof.
  intros Hk. induction k as [|d k IH].
  - change (("" : string) +:+ String c rest) with (String c rest). cbn [after_byte]. by rewrite Ascii.eqb_refl.
  - change (String d k +:+ String c rest) with (String d (k +:+ String c rest)). cbn [after_byte].
    rewrite contains_byte_cons in Hk. apply orb_false_iff in Hk as [Hd Hk].
    rewrite Ascii.eqb_sym, Hd. by apply IH.
Qed.

Lemma before_byte_app c x rest :
  contains_byte c x = false → before_byte c (x +:+ String c rest) = x.
Proof.
  intros Hx. induction x as [|d x IH].
  - change (("" : string) +:+ String c rest) with (String c rest). cbn [before_byte]. by rewrite Ascii.eqb_refl.
  - change (String d x +:+ String c rest) with (String d (x +:+ String c rest)). cbn [before_byte].
    rewrite contains_byte_cons in Hx. apply orb_false_iff in Hx as [Hd Hx].
    rewrite Ascii.eqb_sym, Hd. by rewrite IH.
Qed.

Lemma Join_cons_slash x l : ∃ rest, Join (x :: l) "/" +:+ "/" = x +:+ String slash rest.
Proof.
  destruct l as [|y l]; cbn [Join]; [by exists ""|].
  exists (Join (y :: l) "/" +:+ "/"). by rewrite !append_assoc.
Qed.

Lemma pathKind_true kind :
  pathKind kind = true ↔ kind ∈ [ResourceKindFile; ResourceKindDirectory; ResourceKindGlob].
Proof.
  unfold pathKind. rewrite !orb_true_iff, !eqb_string_true, !elem_of_cons, elem_of_nil. tauto.
Qed.

Lemma firstSegment_Key n s segs :
  resource_wf n → n_kind n ≠ ResourceKindLogical → n_segments n = s :: segs →
  firstSegment (Key n) = foldedText s.
Proof.
  intros Hwf Hl Hs. destruct Hwf as [[? _]|(Hkind & _ & _ & _ & _ & Htext & _)]; [done|].
  unfold Key. rewrite (proj2 (eqb_string_false _ _) Hl), Hs. unfold firstSegment, afterColon.
  assert (contains_byte colon (n_kind n) = false) as Hc.
  { rewrite !elem_of_cons, elem_of_nil in Hkind. destruct_or! Hkind; try done; by rewrite Hkind. }
  change (":" +:+ ?r) with (String colon r). rewrite after_byte_app by done. cbn [default map]. unfold id.
  rewrite Hs in Htext. apply Forall_cons in Htext as [Hts _]. apply foldedText_no_slash in Hts.
  destruct (Join_cons_slash (foldedText s) (map foldedText segs)) as [rest ->].
  by apply before_byte_app.
Qed.

(** A path resource either has a first literal segment, which is the first
    segment of its key, or is a glob whose key starts with a wildcard. *)
Lemma first_segment_cases n :
  resource_wf n → n_kind n ≠ ResourceKindLogical →
  (FirstLiteralSegment (PrepareOverlap n) = Some (firstSegment (Key n))) ∨
  (FirstLiteralSegment (PrepareOverlap n) = None ∧ n_kind n = ResourceKindGlob ∧
   (firstSegment (Key n) = "*" ∨ firstSegment (Key n) = "**")).
Proof.
  intros Hwf Hl. pose proof Hwf as [[? _]|(_ & Hne & _ & _ & _ & _ & Hlit & Hglob)]; [done|].
  destruct (n_segments n) as [|s segs] eqn:Hs; [done|].
  rewrite (firstSegment_Key n s segs) by done. unfold FirstLiteralSegment, PrepareOverlap.
  rewrite (proj2 (eqb_string_false _ _) Hl). cbn [po_resource po_folded]. rewrite Hs. cbn [foldedSegments map head].
  destruct (decide (seg_kind s = globSegmentLiteral)) as [Hk|Hk].
  { left. by rewrite bool_decide_eq_true_2. }
  right. rewrite bool_decide_eq_false_2 by done. split; [done|].
  destruct (decide (n_kind n = ResourceKindGlob)) as [Hg|Hg].
  - split; [done|]. destruct (Hglob Hg) as [[Hok _]%Forall_cons _]. unfold glob_segment_ok in Hok.
    unfold foldedText. destruct (seg_kind s); [done|by left|by right].
  - specialize (Hlit Hg). apply Forall_cons in Hlit as [? _]. done.
Qed.

Lemma reservationKind_cases n : resource_wf n →
  n_kind n = ResourceKindLogical ∨ pathKind (n_kind n) = true.
Proof. intros [[? _]|[? _]]; [by left|right; by apply pathKind_true]. Qed.

(** Every active row that shares a point with a candidate is selected. *)
Lemma candidate_selected prepared c row n :
  c ∈ prepared → resource_wf (pr_Resource c) → rowDescribes row n → reservationActive row = true →
  common_point (pr_Resource c) n →
  selectsLogical prepared row = true ∨ selectsPath prepared row = true.
Proof.
  intros Hc Hwc (Hwn & Hk & HK) Ha Hcommon. apply Overlaps_spec in Hcommon as Ho; [|done..].
  destruct (decide (n_kind (pr_Resource c) = ResourceKindLogical)) as [Hl|Hl].
  - left. rewrite Overlaps_logical in Ho by auto. rewrite !andb_true_iff, !eqb_string_true in Ho.
    destruct Ho as [[Hkk Hns] Hnm]. unfold selectsLogical. rewrite Ha, <-Hk, <-Hkk, Hl. cbn [andb].
    apply existsb_exists. exists (Key (pr_Resource c)). split.
    + apply in_map_iff. exists c. split; [done|]. apply filter_In. rewrite <-list_elem_of_In.
      split; [done|]. by apply eqb_string_true.
    + apply eqb_string_true. rewrite <-HK. unfold Key. rewrite <-Hkk, Hl. cbn. congruence.
  - right. assert (Hln : n_kind n ≠ ResourceKindLogical).
    { intros Hln. rewrite Overlaps_logical in Ho by auto. rewrite !andb_true_iff, !eqb_string_true in Ho.
      destruct Ho as [[? _] _]. congruence. }
    unfold selectsPath. rewrite Ha, <-Hk, <-HK.
    set (paths := List.filter (λ c, negb (isLogical c)) prepared).
    assert (Hp : In c paths).
    { apply filter_In. rewrite <-list_elem_of_In. split; [done|]. by apply negb_true_iff, eqb_string_false. }
    assert (null paths = false) as -> by (destruct paths; done).
    destruct (reservationKind_cases n Hwn) as [?|Hpk]; [done|]. rewrite Hpk. cbn [negb andb].
    destruct (existsb (λ c, negb (isSet (firstLiteral c))) paths) eqn:Hall; [done|]. cbn [orb].
    apply orb_true_iff. destruct (first_segment_cases n Hwn Hln) as [Hf|(_ & Hg & Hstar)].
    + left. apply existsb_exists. exists (firstSegment (Key n)). split; [|apply eqb_string_refl].
      rewrite <-list_elem_of_In, list_elem_of_omap. exists c. rewrite list_elem_of_In. split; [done|].
      destruct (firstLiteral c) as [f|] eqn:Hfc.
      * f_equal. apply dec_stable. intros Hne. destruct Hcommon as (x & Hx1 & Hx2).
        destruct (denotes_path _ _ Hl Hx1) as [p ->].
        apply Hne. apply (inj Some).
        rewrite <-(FirstLiteralSegment_denotes _ _ _ Hwc Hl Hfc Hx1).
        by apply (FirstLiteralSegment_denotes _ _ _ Hwn Hln Hf Hx2).
      * exfalso. assert (existsb (λ c, negb (isSet (firstLiteral c))) paths = true); [|congruence].
        apply existsb_exists. exists c. by rewrite Hfc.
    + right. rewrite Hg, eqb_string_refl. cbn [andb].
      destruct Hstar as [->| ->]; done.
Qed.

(** ** Acquisition *)

Section acquisition.
Context `{UnicodeTables, ULID, SQLiteDriver}.

Lemma scan_Ok row sc :
  scanReservationRow row = Ok sc → sc_Row sc = row ∧ rowDescribes row (sc_normalized sc).
Proof.
  unfold scanReservationRow. rewrite !fail_if_Ok. intros (_ & _ & _ & _ & _ & _ & _ & _ & Hs).
  destruct (Normalize _) as [n|e] eqn:Hn; [|done]. apply fail_if_Ok in Hs as [Hkey [= <-]]. cbn.
  apply negb_false_iff, eqb_string_true in Hkey. split; [done|].
  split; [by eapply Normalize_wf|]. split; [|done].
  apply Normalize_Ok in Hn as [_ Hn]. cbn [r_Kind] in Hn.
  destruct (rv_Kind (rr_Reservation row) =s ResourceKindLogical) eqn:Hl.
  - unfold normalizeLogical in Hn. apply try_Ok in Hn as [_ Hn]. apply fail_if_Ok in Hn as [_ Hn].
    apply try_Ok in Hn as [_ Hn]. apply fail_if_Ok in Hn as [_ [= <-]]. cbn [n_kind].
    apply eqb_string_true in Hl. unfold rr_Kind. congruence.
  - apply normalizePath_Ok in Hn as (_ & _ & _ & _ & segs & _ & _ & _ & ->). done.
Qed.

Lemma collect_scan rows scanned :
  collect scanReservationRow rows = Ok scanned →
  map sc_Row scanned = rows ∧ Forall (λ sc, rowDescribes (sc_Row sc) (sc_normalized sc)) scanned.
Proof.
  rewrite collect_Ok. induction 1 as [|row sc rows scanned Hsc _ [IH1 IH2]]; [by split|].
  apply scan_Ok in Hsc as [Hr Hd]. cbn. rewrite IH1, Hr. split; [done|]. constructor; [by rewrite Hr|done].
Qed.

Lemma conflictsOf_nil s active prepared :
  conflictsOf s active prepared = [] →
  ∀ c sc, c ∈ prepared → sc ∈ active → overlapsRow c sc = false.
Proof.
  unfold conflictsOf. induction prepared as [|c prepared IH]; cbn; [by intros _ c sc ?%elem_of_nil|].
  destruct (List.find (overlapsRow c) active) as [sc0|] eqn:Hf; [done|].
  intros Hn c' sc. rewrite elem_of_cons. intros [->|Hc'] Hsc; [|by apply IH].
  apply (List.find_none _ _ Hf). by apply list_elem_of_In.
Qed.

Section insertion.
Context (resources : list ReservationResourceInput) (issueID attemptID : string)
  (sessionID : option string) (now : Z).

Definition newRow (c : PreparedResource) : reservationRow :=
  newReservationRow (resourceID resources c) issueID attemptID (pr_Resource c) now.

Definition reservedEvent (c : PreparedResource) : Event :=
  mkEvent 0 (Some issueID) "reservation_reserved" sessionID (Some attemptID)
    (PReservationReserved (rr_ID (newRow c)) (rr_Kind (newRow c)) (rv_DisplayValue (rr_Reservation (newRow c)))
       (rr_ComparisonValue (newRow c))) now SourceIssue.

Definition insertRows (prepared : list PreparedResource) (m : gmap string reservationRow) : gmap string reservationRow :=
  foldl (λ m c, <[resourceID resources c := newRow c]> m) m prepared.

Definition freshRows (prepared : list PreparedResource) (m : gmap string reservationRow) : Prop :=
  NoDup (map (resourceID resources) prepared) ∧ ∀ c, c ∈ prepared → m !! resourceID resources c = None.

Lemma insertRows_lookup prepared : ∀ m i r,
  freshRows prepared m →
  insertRows prepared m !! i = Some r ↔
  (∃ c, c ∈ prepared ∧ i = resourceID resources c ∧ r = newRow c) ∨ m !! i = Some r.
Proof.
  induction prepared as [|c prepared IH]; intros m i r [Hnd Hf].
  { split; [by right|]. intros [(c & Hc%elem_of_nil & _)|Hm]; done. }
  cbn in Hnd. apply NoDup_cons in Hnd as [Hnc Hnd].
  change (insertRows (c :: prepared) m) with (insertRows prepared (<[resourceID resources c := newRow c]> m)).
  rewrite IH.
  - assert (Hc0 : m !! resourceID resources c = None) by (apply Hf; by left).
    setoid_rewrite elem_of_cons. destruct (decide (resourceID resources c = i)) as [<-|Hne].
    + rewrite lookup_insert_eq. split; [intros [(c' & ? & ? & ?)|[= <-]]; left; eauto|].
      intros [(c' & [->|Hc'] & Hi & ->)|?]; [by right| |congruence].
      left. by exists c'.
    + rewrite lookup_insert_ne by done. naive_solver.
  - split; [done|]. intros c' Hc'. rewrite lookup_insert_ne; [apply Hf; by right|].
    intros He. apply Hnc. rewrite He. apply list_elem_of_fmap. by exists c'.
Qed.

Lemma insertReservations_Ok prepared : ∀ s out s',
  insertReservations prepared resources issueID attemptID sessionID now s = Ok (out, s') →
  freshRows prepared (st_reservations s) ∧
  out = map (λ c, toDomain (newRow c)) prepared ∧
  s' = append_all (map reservedEvent prepared) (set_reservations (insertRows prepared (st_reservations s)) s).
Proof.
  induction prepared as [|c prepared IH]; intros s out s' Hrun; cbn [insertReservations] in Hrun.
  { apply tx_ret_Ok in Hrun as [-> ->]. split_and!; [split; [constructor|by intros c ?%elem_of_nil]|done|].
    by destruct s. }
  inv_tx. rename Hstep into Hins, Hstep0 into Hev, Hstep1 into Hrest.
  apply Insert_Ok in Hins as (Hnone & Hc & ->). unfold appendIssueEvent in Hev. inv_tx.
  apply appendEvent_Ok in Hstep as (_ & _ & _ & _ & _ & ->).
  apply IH in Hrest as ([Hnd Hf] & -> & ->). cbn in Hnone. split_and!; [|done|done].
  cbn in Hf. split.
  - cbn. apply NoDup_cons. split; [|done]. intros (c' & He & Hc')%list_elem_of_fmap.
    specialize (Hf c' Hc'). rewrite <-He in Hf.
    unfold newRow, newReservationRow, rr_ID in Hf. cbn in Hf. by rewrite lookup_insert_eq in Hf.
  - intros c'. rewrite elem_of_cons. intros [->|Hc']; [done|]. specialize (Hf c' Hc').
    by apply lookup_insert_None in Hf as [? _].
Qed.
End insertion.

(** What [PrepareReservationRequest] guarantees about its result. *)
Definition prepared_ok (prepared : list PreparedResource) : Prop :=
  (∀ c, c ∈ prepared → resource_wf (pr_Resource c)) ∧
  (∀ c d, c ∈ prepared → d ∈ prepared → c ≠ d → ¬ common_point (pr_Resource c) (pr_Resource d)).

Lemma common_point_sym a b : common_point a b → common_point b a.
Proof. intros (x & ? & ?). by exists x. Qed.

Lemma prepared_ok_request rs prepared : PrepareReservationRequest rs = Ok prepared → prepared_ok prepared.
Proof.
  rewrite PrepareReservationRequest_run. intros (_ & ns & Hns & -> & Hdis).
  assert (Hwf : ∀ p, p ∈ firstOccurrences 0 ∅ ns → resource_wf (pr_Resource p)).
  { intros p (_ & k & Hk & _)%firstOccurrences_in.
    eapply Forall2_Normalize_wf; [done|]. by eapply list_elem_of_lookup_2. }
  split; [done|]. intros c d Hc Hd Hne Hx.
  apply list_elem_of_lookup in Hc as [i Hi], Hd as [j Hj].
  pose proof (Hwf c (list_elem_of_lookup_2 _ _ _ Hi)) as Hwc.
  pose proof (Hwf d (list_elem_of_lookup_2 _ _ _ Hj)) as Hwd.
  destruct (Nat.lt_trichotomy i j) as [Hij|[<-|Hij]]; [|congruence|].
  - pose proof (ForallOrdPairs_lookup _ _ _ _ _ _ Hdis Hi Hj Hij) as Ho. unfold disjoint_prepared in Ho.
    rewrite <-not_true_iff_false in Ho. apply Ho, Overlaps_spec; [done..|]. by apply common_point_sym.
  - pose proof (ForallOrdPairs_lookup _ _ _ _ _ _ Hdis Hj Hi Hij) as Ho. unfold disjoint_prepared in Ho.
    rewrite <-not_true_iff_false in Ho. by apply Ho, Overlaps_spec.
Qed.

(** The reservations of a store: every active row describes a resource, and
    no two of them share a point. *)
Definition described (m : gmap string reservationRow) : Prop :=
  ∀ i r, m !! i = Some r → reservationActive r = true → ∃ n, rowDescribes r n.
Definition active_disjoint (m : gmap string reservationRow) : Prop :=
  ∀ i j r q n k, i ≠ j → m !! i = Some r → m !! j = Some q →
    reservationActive r = true → reservationActive q = true →
    rowDescribes r n → rowDescribes q k → ¬ common_point n k.

Lemma rowDescribes_common row n k x :
  rowDescribes row n → rowDescribes row k → common_point n x → common_point k x.
Proof. intros Hn Hk (p & Hp & Hx). exists p. split; [|done]. by eapply (rowDescribes_denotes row n k). Qed.

Lemma newRow_describes resources issueID attemptID now c :
  resource_wf (pr_Resource c) → rowDescribes (newRow resources issueID attemptID now c) (pr_Resource c).
Proof. by intros. Qed.

Lemma elem_of_candidateRows prepared row s :
  row ∈ candidateRows prepared s ↔
  (∃ i, st_reservations s !! i = Some row) ∧ (selectsLogical prepared row = true ∨ selectsPath prepared row = true).
Proof.
  unfold candidateRows. rewrite elem_of_stable_sort, elem_of_app, !list_elem_of_In, !filter_In, <-!list_elem_of_In.
  rewrite !elem_of_rows. cbn. naive_solver.
Qed.

(** A candidate the scanned rows do not conflict with shares no point with any
    active row. *)
Lemma no_conflict_disjoint s prepared scanned c i row n :
  collect scanReservationRow (candidateRows prepared s) = Ok scanned →
  conflictsOf s scanned prepared = [] →
  c ∈ prepared → resource_wf (pr_Resource c) →
  st_reservations s !! i = Some row → reservationActive row = true → rowDescribes row n →
  ¬ common_point (pr_Resource c) n.
Proof.
  intros Hscan Hnil Hc Hwc Hrow Ha Hd Hx.
  pose proof (candidate_selected prepared c row n Hc Hwc Hd Ha Hx) as Hsel.
  apply collect_scan in Hscan as [Hrows Hdesc].
  assert (Hin : row ∈ candidateRows prepared s) by (apply elem_of_candidateRows; eauto).
  rewrite <-Hrows in Hin. apply list_elem_of_fmap in Hin as (sc & -> & Hsc).
  pose proof (conflictsOf_nil _ _ _ Hnil c sc Hc Hsc) as Ho. unfold overlapsRow in Ho.
  change (Overlaps (pr_Resource c) (sc_normalized sc) = false) in Ho.
  rewrite Forall_forall in Hdesc. specialize (Hdesc sc Hsc).
  rewrite <-not_true_iff_false in Ho. apply Ho, Overlaps_spec; [done|apply Hdesc|].
  apply common_point_sym. eapply rowDescribes_common; [exact Hd|done|]. by apply common_point_sym.
Qed.

Lemma acquire_Ok prepared resources issueID attemptID sessionID now s out s' :
  acquireReservationsForAttempt prepared resources issueID attemptID sessionID now s = Ok (out, s') →
  (∃ scanned, collect scanReservationRow (candidateRows prepared s) = Ok scanned ∧
     conflictsOf s scanned prepared = []) ∧
  insertReservations prepared resources issueID attemptID sessionID now s = Ok (out, s').
Proof.
  unfold acquireReservationsForAttempt, loadCandidateReservations. intros Hrun. inv_tx_step Hrun.
  apply lift_Ok in Hstep as [Hscan ->]. inv_tx_step Hrun. apply query_Ok in Hstep as [-> ->].
  inv_tx_step Hrun. split; [|done]. exists a. split; [done|].
  destruct (conflictsOf s a prepared); [done|]. bool_simpl. cbn [length] in *. lia.
Qed.

Lemma acquire_disjoint prepared resources issueID attemptID sessionID now s out s' :
  prepared_ok prepared → described (st_reservations s) → active_disjoint (st_reservations s) →
  acquireReservationsForAttempt prepared resources issueID attemptID sessionID now s = Ok (out, s') →
  described (st_reservations s') ∧ active_disjoint (st_reservations s').
Proof.
  intros [Hwf Hpair] Hdesc Hdis Hrun. apply acquire_Ok in Hrun as ((scanned & Hscan & Hnil) & Hins).
  apply insertReservations_Ok in Hins as (Hfresh & -> & ->).
  rewrite append_all_frame by done. cbn [st_reservations set_reservations].
  pose proof (insertRows_lookup resources issueID attemptID now prepared (st_reservations s)) as Hlk.
  split.
  - intros i r Hi Ha. apply Hlk in Hi as [(c & Hc & _ & ->)|Hi]; [|by eauto|done].
    exists (pr_Resource c). apply newRow_describes, Hwf, Hc.
  - assert (Hnew : ∀ c j q k n, c ∈ prepared → rowDescribes (newRow resources issueID attemptID now c) n →
      st_reservations s !! j = Some q → reservationActive q = true → rowDescribes q k → ¬ common_point n k).
    { intros c j q k n Hc Hn Hj Hq Hk Hx.
      eapply (no_conflict_disjoint s prepared scanned c j q k); [done..|by apply Hwf|done|done|done|].
      eapply rowDescribes_common; [exact Hn|by apply newRow_describes, Hwf|done]. }
    intros i j r q n k Hij Hi Hj Har Haq Hn Hk.
    apply Hlk in Hi as [(c & Hc & -> & ->)|Hi]; [|  |done];
      apply Hlk in Hj as [(d & Hd & -> & ->)|Hj]; try done.
    + intros Hx. apply (Hpair c d Hc Hd); [congruence|].
      eapply rowDescribes_common; [exact Hn|by apply newRow_describes, Hwf|].
      apply common_point_sym. eapply rowDescribes_common; [exact Hk|by apply newRow_describes, Hwf|].
      by apply common_point_sym.
    + by eapply Hnew.
    + intros Hx. eapply (Hnew d i r n k); [done..|]. by apply common_point_sym.
    + by eapply Hdis.
Qed.

(** ** Release *)

Section release.
Context (scan attemptID : string) (sessionID : option string) (reason : string) (now : Z).

Definition releasedEvent (row : reservationRow) : Event :=
  mkEvent 0 (Some (rv_IssueID (rr_Reservation row))) "reservation_released" sessionID (Some attemptID)
    (PReservationReleased (rr_ID row) reason) now SourceIssue.

Definition releaseAll (rows : list reservationRow) (m : gmap string reservationRow) : gmap string reservationRow :=
  foldl (λ m row, <[rr_ID row := releasedRow reason now row]> m) m rows.

Lemma releaseAll_lookup rows : ∀ m i,
  NoDup (map rr_ID rows) → (∀ row, row ∈ rows → m !! rr_ID row = Some row) →
  releaseAll rows m !! i =
  if bool_decide (i ∈ map rr_ID rows) then releasedRow reason now <$> m !! i else m !! i.
Proof.
  induction rows as [|row rows IH]; intros m i Hnd Hm; [done|]. cbn [map] in *.
  apply NoDup_cons in Hnd as [Hn Hnd].
  change (releaseAll (row :: rows) m) with (releaseAll rows (<[rr_ID row := releasedRow reason now row]> m)).
  rewrite IH; [|done|].
  - destruct (decide (rr_ID row = i)) as [<-|Hne].
    + rewrite bool_decide_eq_false_2 by done. rewrite lookup_insert_eq.
      rewrite bool_decide_eq_true_2 by left. by rewrite Hm by left.
    + rewrite lookup_insert_ne by done. case_bool_decide as Hi.
      * by rewrite bool_decide_eq_true_2 by by right.
      * rewrite bool_decide_eq_false_2; [done|]. rewrite elem_of_cons. intros [?|?]; congruence.
  - intros r Hr. rewrite lookup_insert_ne; [apply Hm; by right|]. intros He. apply Hn. rewrite He.
    apply list_elem_of_fmap. by exists r.
Qed.

Lemma exists_other_none {R} (m : gmap string R) id (p : R → bool) :
  (∀ r, p r = false) → exists_other m id p = false.
Proof. intros Hp. apply exists_other_false. auto. Qed.

Lemma released_constraint s id row :
  ReservationReleaseReason_Valid reason = true → reservation_constraint s id row = true →
  reservation_constraint s id (releasedRow reason now row) = true.
Proof.
  intros Hr. unfold reservation_constraint. cbn -[ReservationReleaseReason_Valid ResourceKind_Valid exists_other fk].
  intros Hc. conj_hyps. conj_goal; first [assumption|done|idtac].
  - apply Z.leb_le. bool_simpl. lia.
  - apply negb_true_iff, exists_other_none. done.
Qed.

Lemma releaseRows_run rows : ∀ s,
  schema_ok s → ReservationReleaseReason_Valid reason = true →
  fk (st_attempts s) attemptID = true → fk_session s sessionID = true →
  NoDup (map rr_ID rows) → (∀ row, row ∈ rows → st_reservations s !! rr_ID row = Some row) →
  releaseRows scan attemptID sessionID reason now rows s =
  Ok (map (λ row, releasedReservation reason now (rr_Reservation row)) rows,
      append_all (map releasedEvent rows) (set_reservations (releaseAll rows (st_reservations s)) s)).
Proof.
  induction rows as [|row rows IH]; intros s Hs Hr Ha Hsess Hnd Hrows; [by destruct s|].
  cbn [map] in Hnd. apply NoDup_cons in Hnd as [Hn Hnd].
  assert (Hrow : st_reservations s !! rr_ID row = Some row) by (apply Hrows; by left).
  destruct (ok_reservations _ Hs) as [_ Hcon]. pose proof (Hcon _ _ Hrow) as Hc.
  pose proof (released_constraint s _ _ Hr Hc) as Hc'. cbn [releaseRows].
  unfold mbind at 1, Tx_bind at 1. unfold updateReleased, Update. cbn [table reservations_table].
  rewrite Hrow, Z.eqb_refl. cbn [constraint reservations_table]. rewrite Hc'.
  set (s1 := set_table _ s). cbn [Z.eqb negb Pos.eqb].
  assert (Hs1 : schema_ok s1) by exact (schema_set_table (R := reservationRow) s (rr_ID row)
    (releasedRow reason now row) Hs eq_refl Hc').
  assert (He : appendIssueEvent (rv_IssueID (rr_Reservation row)) "reservation_released" sessionID
                 (Some attemptID) (PReservationReleased (rr_ID row) reason) now s1 =
               Ok (tt, append_draft (releasedEvent row) s1)).
  { apply appendIssueEvent_run; [done| |done|done]. revert Hc. cbn [constraint reservations_table].
    unfold reservation_constraint. intros ?. conj_hyps. assumption. }
  unfold mbind at 1, Tx_bind at 1. rewrite He. clear He.
  unfold mbind at 1, Tx_bind at 1. rewrite IH; [done|by apply schema_append|done..|].
  intros r Hin. change (<[rr_ID row := releasedRow reason now row]> (st_reservations s) !! rr_ID r = Some r).
  rewrite lookup_insert_ne; [apply Hrows; by right|].
  intros He. apply Hn. rewrite He. apply list_elem_of_fmap. by exists r.
Qed.

(** Every active reservation of the attempt, released. *)
Definition releaseOwned (m : gmap string reservationRow) : gmap string reservationRow :=
  (λ row, if ownedActive attemptID row then releasedRow reason now row else row) <$> m.

Lemma select_owned_lookup s row :
  keyed (st_reservations s) → row ∈ select (ownedActive attemptID) s →
  st_reservations s !! rr_ID row = Some row ∧ ownedActive attemptID row = true.
Proof.
  intros Hk (Hp & id & Hid)%elem_of_select. split; [|done].
  cbn in Hid. pose proof (Hk _ _ Hid) as He. cbn in He. by rewrite He.
Qed.

Lemma releaseAll_owned s :
  keyed (st_reservations s) →
  releaseAll (select (ownedActive attemptID) s) (st_reservations s) = releaseOwned (st_reservations s).
Proof.
  intros Hk. apply map_eq. intros i. rewrite releaseAll_lookup.
  - unfold releaseOwned. rewrite lookup_fmap. destruct (st_reservations s !! i) as [row|] eqn:Hi; cbn.
    2:{ by destruct (bool_decide _). }
    destruct (ownedActive attemptID row) eqn:Ho.
    + rewrite bool_decide_eq_true_2; [done|]. pose proof (Hk _ _ Hi) as He. cbn in He.
      apply list_elem_of_fmap. exists row. split; [done|]. apply elem_of_select. cbn. eauto.
    + rewrite bool_decide_eq_false_2; [done|]. intros (r & -> & Hr)%list_elem_of_fmap.
      apply select_owned_lookup in Hr as [Hr Hor]; [|done]. congruence.
  - exact (select_nodup_ids (R := reservationRow) (ownedActive attemptID) s Hk).
  - intros r Hr. by apply select_owned_lookup in Hr as [? _].
Qed.
End release.

Lemma releaseReservationsForAttempt_run attemptID reason now s :
  schema_ok s → ReservationReleaseReason_Valid reason = true → fk (st_attempts s) attemptID = true →
  releaseReservationsForAttempt attemptID reason now s =
  Ok (tt, append_all (map (releasedEvent attemptID None reason now) (select (ownedActive attemptID) s))
            (set_reservations (releaseOwned attemptID reason now (st_reservations s)) s)).
Proof.
  intros Hs Hr Ha. destruct (ok_reservations _ Hs) as [Hk _]. unfold releaseReservationsForAttempt.
  unfold mbind at 1, Tx_bind at 1, query. unfold mbind at 1, Tx_bind at 1.
  rewrite releaseRows_run; [by rewrite releaseAll_owned|done..| |].
  - exact (select_nodup_ids (R := reservationRow) (ownedActive attemptID) s Hk).
  - intros r Hin. by destruct (select_owned_lookup attemptID s r Hk Hin).
Qed.

Lemma releaseOwned_lookup attemptID reason now m i r :
  releaseOwned attemptID reason now m !! i = Some r ↔
  ∃ row, m !! i = Some row ∧ r = if ownedActive attemptID row then releasedRow reason now row else row.
Proof. unfold releaseOwned. rewrite lookup_fmap, fmap_Some. done. Qed.

(** Releasing only takes rows out of the active set. *)
Lemma releaseOwned_active attemptID reason now m i r :
  releaseOwned attemptID reason now m !! i = Some r → reservationActive r = true →
  m !! i = Some r ∧ rr_AttemptID r ≠ attemptID.
Proof.
  intros (row & Hrow & ->)%releaseOwned_lookup. unfold ownedActive.
  destruct (rr_AttemptID row =s attemptID) eqn:Ha, (reservationActive row) eqn:Hact; cbn [andb];
    intros H2; try done; try congruence.
  split; [done|]. by apply eqb_string_false in Ha.
Qed.

(** A release takes its rows out of the active set and adds nothing to it. *)
Lemma releaseRows_active scan aid sid reason now rows : ∀ s out s',
  releaseRows scan aid sid reason now rows s = Ok (out, s') → ∀ i r,
  st_reservations s' !! i = Some r → reservationActive r = true →
  st_reservations s !! i = Some r ∧ i ∉ map rr_ID rows.
Proof.
  induction rows as [|row rows IH]; intros s out s' Hrun i r Hi Ha; cbn [releaseRows map] in *.
  { apply tx_ret_Ok in Hrun as [_ ->]. split; [done|apply not_elem_of_nil]. }
  inv_tx_step Hrun. rename Hstep into Hup. do 2 (inv_tx_step Hrun). rename Hstep into Hev. inv_tx_step Hrun.
  apply tx_ret_Ok in Hrun as [_ ->]. destruct (IH _ _ _ Hstep i r Hi Ha) as [Hi1 Hn].
  apply appendIssueEvent_Ok in Hev. rewrite Hev in Hi1. cbn in Hi1.
  unfold updateReleased in Hup. apply Update_Ok in Hup as [(row0 & _ & _ & _ & _ & ->)|(_ & -> & _)]; [|done].
  cbn in Hi1. destruct (decide (rr_ID row = i)) as [<-|Hne]; [by rewrite lookup_insert_eq in Hi1; simplify_eq|].
  rewrite lookup_insert_ne in Hi1 by done. split; [done|]. rewrite elem_of_cons. naive_solver.
Qed.

Lemma releaseReservationsForAttempt_active aid reason now s u s' :
  keyed (st_reservations s) → releaseReservationsForAttempt aid reason now s = Ok (u, s') → ∀ i r,
  st_reservations s' !! i = Some r → reservationActive r = true → rr_AttemptID r ≠ aid.
Proof.
  intros Hk Hrun i r Hi Ha He. unfold releaseReservationsForAttempt in Hrun. inv_tx_step Hrun.
  apply query_Ok in Hstep as [-> ->]. inv_tx_step Hrun. apply tx_ret_Ok in Hrun as [_ ->].
  destruct (releaseRows_active _ _ _ _ _ _ _ _ _ Hstep i r Hi Ha) as [Hi0 Hn]. apply Hn.
  pose proof (Hk _ _ Hi0) as Hid. cbn in Hid. apply list_elem_of_fmap. exists r. split; [done|].
  apply elem_of_select. split; [|by exists i]. unfold ownedActive. by rewrite He, eqb_string_refl.
Qed.

Lemma disjoint_sub m m' :
  (∀ i r, m' !! i = Some r → reservationActive r = true → m !! i = Some r) →
  described m → active_disjoint m → described m' ∧ active_disjoint m'.
Proof.
  intros Hsub Hd Hdis. split.
  - intros i r Hi Ha. eauto.
  - intros i j r q n k Hij Hi Hj Hr Hq. eapply Hdis; eauto.
Qed.
End acquisition.
