(* ===== verification/GateStore.v ===== *)
(** * Gate enforcement in the store

    [internal/adapters/sqlite/gate_enforcement.go] and the snapshot functions
    of [workflow_policy.go]: loading the active policies, evaluating a gate
    against live policies or against a frozen snapshot, and the enforcement
    point of a transition. *)

From S2P Require Import Prelude GoStrings Errors Validation Samples Issue Relation Session IssueOps.
From S2P Require Import Discussion Resource Attempt.
From S2P Require Import Gates Store Schema.

(** ** Enforcement points *)

Definition enforcementPointForCreateStatus (status : string) : option string :=
  if status =s StatusReview then Some EnforcementPointCompleteWorkToReview
  else if status =s StatusDone then Some EnforcementPointCompleteWorkToDone
  else None.

Definition enforcementPointForFinish (kind target : string) (reviewOutcome : option string) : option string :=
  if kind =s AttemptKindWork then
    if target =s StatusReview then Some EnforcementPointCompleteWorkToReview
    else if target =s StatusDone then Some EnforcementPointCompleteWorkToDone
    else None
  else if (kind =s AttemptKindReview) && optEq reviewOutcome (Some ReviewOutcomeApproved)
  then Some EnforcementPointApproveReview
  else None.

Definition acceptanceCriteriaBlank (text : option string) : bool :=
  match text with None => true | Some t => blank t end.

(** [workflowPolicyCorruptField] with the error it wraps. *)
Definition workflowPolicyCorruptField (cause : option string) (field code : string) : DomainError :=
  let e := NewError CodeStorageCorrupt "stored workflow policy projection is invalid" false
             [mkDetail None field code ""] in
  mkError (e_Code e) (e_Message e) (e_Details e) (e_Retryable e) cause.

Definition scanWorkflowPolicy `{ULID} (row : WorkflowPolicy) : result WorkflowPolicy :=
  fail_if negb (ids_ParseStrict (wp_ID row))
    with workflowPolicyCorruptField (Some "ulid") "id" "INVALID_ULID" ;;
  fail_if negb (PolicyStatus_Valid (wp_Status row)) with workflowPolicyCorruptField None "status" "INVALID_ENUM" ;;
  fail_if (wp_Version row <? 1)%Z with workflowPolicyCorruptField None "version" "INVALID_VALUE" ;;
  Ok row.

(** The rows come in no particular order; here by id. *)
Definition loadActiveWorkflowPolicies `{ULID} (s : Store) : result (list WorkflowPolicy) :=
  collect scanWorkflowPolicy (select (λ p, wp_Status p =s PolicyStatusActive) s).

Definition matchingSourcePolicies (policies : list WorkflowPolicy) (issueType : string)
    (issueLabels : list string) : list SourcePolicyRef :=
  map (λ p, mkSourceRef (wp_ID p) (wp_Version p)) (List.filter (contributes issueType issueLabels) policies).

(** The keys of [gate_evidence] recorded on the attempt. *)
Definition loadAttemptEvidenceKeys (attemptID : string) (s : Store) : gset string :=
  list_to_set (map ev_Key (List.filter (λ e, ev_AttemptID e =s attemptID) (rows s))).

Section gates.
Context `{UnicodeTables, ULID, SnapshotHash, SQLiteDriver}.

Definition unsatisfiedDetail (unmet : UnmetRequirement) : Detail :=
  mkDetail None (um_RequirementKey unmet) CodeWorkflowGateUnsatisfied
    ("policy_id=" +:+ um_PolicyID unmet +:+ " enforcement_point=" +:+ um_EnforcementPoint unmet +:+ ": " +:+
     um_Reason unmet).
Definition workflowGateUnsatisfiedError (evaluation : GateEvaluation) : DomainError :=
  NewError CodeWorkflowGateUnsatisfied "workflow gate requirements are not satisfied" false
    (map unsatisfiedDetail (gv_Unmet evaluation)).

Definition evaluateGate (point : string) (requirements : list PolicyRequirement) (evidence : GateEvidence) : result unit :=
  evaluation ← EvaluateGate point requirements evidence;
  if Passed evaluation then Ok tt else Err (workflowGateUnsatisfiedError evaluation).

Definition evaluateGateAgainstLivePolicies (point issueType : string) (issueLabels : list string)
    (evidence : GateEvidence) : Tx (list PolicyRequirement * list SourcePolicyRef) :=
  policies ← lift_query loadActiveWorkflowPolicies;
  let requirements := MatchWorkflowPolicies policies issueType issueLabels in
  let sourcePolicies := matchingSourcePolicies policies issueType issueLabels in
  run lift (evaluateGate point requirements evidence) ;;
  mret (requirements, sourcePolicies).

(** *** Snapshots *)

Definition gateSnapshotNotFound : DomainError :=
  NewError CodeGateSnapshotNotFound "gate snapshot not found" false [].
Definition corruptSnapshot (field : string) : DomainError := workflowPolicyCorruptField None field "INVALID_VALUE".

(** [loadGateSnapshot] of one of the two snapshot tables. *)
Definition loadGateSnapshot (snapshots : gmap string GateSnapshot) (key : string) : result GateSnapshot :=
  match snapshots !! key with
  | None => Err gateSnapshotNotFound
  | Some snapshot =>
      fail_if negb (len (sn_Fingerprint snapshot) =? 64)%Z with corruptSnapshot "fingerprint" ;;
      fail_if (sn_IssueVersion snapshot <? 1)%Z with corruptSnapshot "issue_version" ;;
      Ok snapshot
  end.

Definition snapshot_constraint (snapshot : GateSnapshot) : bool :=
  (len (sn_Fingerprint snapshot) =? 64)%Z && (1 <=? sn_IssueVersion snapshot)%Z.

Definition insertAttemptGateSnapshot (attemptID : string) (snapshot : GateSnapshot) : Tx unit := λ s,
  if negb (fk (st_attempt_snapshots s) attemptID) && fk (st_attempts s) attemptID && snapshot_constraint snapshot
  then Ok (tt, set_attempt_snapshots (<[attemptID := snapshot]> (st_attempt_snapshots s)) s)
  else Err (constraintError "attempt_gate_snapshots").

Definition insertReviewTargetGateSnapshot (targetID : string) (snapshot : GateSnapshot) : Tx unit := λ s,
  if negb (fk (st_target_snapshots s) targetID) && fk (st_targets s) targetID && snapshot_constraint snapshot
  then Ok (tt, set_target_snapshots (<[targetID := snapshot]> (st_target_snapshots s)) s)
  else Err (constraintError "review_target_gate_snapshots").

(** A missing snapshot counts as no requirements. *)
Definition evaluateGateAgainstAttemptSnapshot (point attemptID : string) (evidence : GateEvidence) : Tx unit := λ s,
  lift (match loadGateSnapshot (st_attempt_snapshots s) attemptID with
        | Err e => if e_Code e =s CodeGateSnapshotNotFound then Ok tt else Err e
        | Ok snapshot => evaluateGate point (sn_Requirements snapshot) evidence
        end) s.

Definition evaluateGateAgainstReviewTargetSnapshot (targetID : string) (evidence : GateEvidence) : Tx unit := λ s,
  lift (match loadGateSnapshot (st_target_snapshots s) targetID with
        | Err e => if e_Code e =s CodeGateSnapshotNotFound
                   then evaluateGate EnforcementPointApproveReview [] evidence else Err e
        | Ok snapshot => evaluateGate EnforcementPointApproveReview (sn_Requirements snapshot) evidence
        end) s.

(** ** Lemmas *)

Lemma evaluateGate_Ok point requirements evidence :
  evaluateGate point requirements evidence = Ok tt ↔
  ∃ evaluation, EvaluateGate point requirements evidence = Ok evaluation ∧ Passed evaluation = true.
Proof.
  unfold evaluateGate. rewrite result_bind_Ok. split.
  - intros (g & Hg & Hp). exists g. destruct (Passed g); done.
  - intros (g & Hg & Hp). exists g. by rewrite Hp.
Qed.

Lemma insertAttemptGateSnapshot_Ok attemptID snapshot s u s' :
  insertAttemptGateSnapshot attemptID snapshot s = Ok (u, s') →
  st_attempt_snapshots s !! attemptID = None ∧
  s' = set_attempt_snapshots (<[attemptID := snapshot]> (st_attempt_snapshots s)) s.
Proof.
  unfold insertAttemptGateSnapshot, fk. destruct (st_attempt_snapshots s !! attemptID); [done|].
  destruct (_ && _ && _); [|done]. by intros [= _ <-].
Qed.

Lemma insertReviewTargetGateSnapshot_Ok targetID snapshot s u s' :
  insertReviewTargetGateSnapshot targetID snapshot s = Ok (u, s') →
  st_target_snapshots s !! targetID = None ∧
  s' = set_target_snapshots (<[targetID := snapshot]> (st_target_snapshots s)) s.
Proof.
  unfold insertReviewTargetGateSnapshot, fk. destruct (st_target_snapshots s !! targetID); [done|].
  destruct (_ && _ && _); [|done]. by intros [= _ <-].
Qed.

Lemma reads_evaluateGateAgainstLivePolicies point t l evidence :
  reads (evaluateGateAgainstLivePolicies point t l evidence).
Proof. intros s r s' Hrun. unfold evaluateGateAgainstLivePolicies in Hrun. by inv_tx. Qed.
Lemma reads_evaluateGateAgainstAttemptSnapshot point id evidence :
  reads (evaluateGateAgainstAttemptSnapshot point id evidence).
Proof. intros s r s' Hrun. unfold evaluateGateAgainstAttemptSnapshot in Hrun. by inv_tx. Qed.
Lemma reads_evaluateGateAgainstReviewTargetSnapshot id evidence :
  reads (evaluateGateAgainstReviewTargetSnapshot id evidence).
Proof. intros s r s' Hrun. unfold evaluateGateAgainstReviewTargetSnapshot in Hrun. by inv_tx. Qed.
End gates.
#[export] Hint Resolve reads_evaluateGateAgainstLivePolicies reads_evaluateGateAgainstAttemptSnapshot
  reads_evaluateGateAgainstReviewTargetSnapshot : pres.
