(* ===== verification/ReviewStore.v ===== *)
(** * Reviews in the store: targets, staleness, transitions

    [internal/domain/review.go] (purposes and the replacement request) and the
    transaction-level part of [internal/adapters/sqlite/reviews.go] and
    [attempts.go]: when a frozen review target is stale, and how a request
    moves between open, claimed and its resolutions. *)

From S2P Require Import Prelude GoStrings Errors Validation Samples Issue Relation Session IssueOps.
From S2P Require Import Discussion Resource Attempt Gates.
From S2P Require Import Store Schema GateStore.

(** ** Purposes *)

Definition MaxReviewArtifactIDs : Z := 20.
Definition MaxReviewPurposes : Z := 10.
Definition DefaultReviewPurposes : list string := ["implementation"].

Section domain.
Context `{UnicodeTables}.

(** The loop, with its map of purposes seen. *)
Fixpoint normalizePurposes (seen : gset string) (purposes : list string) : result (list string) :=
  match purposes with
  | [] => Ok []
  | purpose :: rest =>
      try ValidateText "purposes" purpose MaxPolicyKeyRunes ;;
      let trimmed := TrimSpace purpose in
      fail_if trimmed =s "" with validationError "purposes" "REQUIRED" "must not contain a blank purpose" ;;
      fail_if bool_decide (trimmed ∈ seen)
        with NewError CodeInvalidArgument ("purpose " +:+ Quote trimmed +:+ " is repeated") false
               [mkDetail None "purposes" "DUPLICATE" trimmed] ;;
      normalized ← normalizePurposes ({[ trimmed ]} ∪ seen) rest;
      Ok (trimmed :: normalized)
  end.

Definition ValidateReviewPurposes (purposes : list string) : result (list string) :=
  let count := Z.of_nat (length purposes) in
  fail_if (count =? 0)%Z with validationError "purposes" "REQUIRED" "must include at least one purpose" ;;
  fail_if (MaxReviewPurposes <? count)%Z
    with NewError CodeLimitExceeded ("purposes exceeds the maximum count of " +:+ Itoa MaxReviewPurposes) false
           [mkDetail None "purposes" "MAX_ITEMS" ("maximum " +:+ Itoa MaxReviewPurposes)] ;;
  normalized ← normalizePurposes ∅ purposes;
  Ok (sort_Strings normalized).

Record ReplaceReviewRequestInput := mkReplaceInput {
  rri_PredecessorRequestID : string;
  rri_PredecessorExpectedVersion : Z;
  rri_TargetIssueVersion : Z;
  rri_TargetEventID : Z;
  rri_ArtifactIDs : list string;
  rri_Purposes : list string;
  rri_IdempotencyKey : string;
}.

Definition ReplaceReviewRequestInput_Validate (input : ReplaceReviewRequestInput) : result ReplaceReviewRequestInput :=
  let requestID := TrimSpace (rri_PredecessorRequestID input) in
  fail_if requestID =s "" with validationError "predecessor_request_id" "REQUIRED" "must not be blank" ;;
  fail_if (rri_PredecessorExpectedVersion input <? 1)%Z
    with validationError "predecessor_expected_version" "INVALID" "must be >= 1" ;;
  fail_if (rri_TargetIssueVersion input <? 1)%Z
    with validationError "target_issue_version" "INVALID" "must be >= 1" ;;
  fail_if (rri_TargetEventID input <? 0)%Z with validationError "target_event_id" "INVALID" "must be >= 0" ;;
  artifactIDs ← CopyBounded "artifact_ids" (rri_ArtifactIDs input) MaxReviewArtifactIDs;
  purposes ← (if (0 <? Z.of_nat (length (rri_Purposes input)))%Z
              then ValidateReviewPurposes (rri_Purposes input) else Ok []);
  let key := TrimSpace (rri_IdempotencyKey input) in
  fail_if key =s "" with validationError "idempotency_key" "REQUIRED" "must not be blank" ;;
  try ValidateText "idempotency_key" key MaxIdempotencyKeyRunes ;;
  Ok (mkReplaceInput requestID (rri_PredecessorExpectedVersion input) (rri_TargetIssueVersion input)
        (rri_TargetEventID input) artifactIDs purposes key).
End domain.

(** ** Staleness *)

(** [reviewedWorkEventScopeSQL]: not the review's own lifecycle, not an attempt
    start or a reservation, not an event of a review attempt. *)
Definition reviewedWorkEventScope (s : Store) (e : Event) : bool :=
  negb (e_Source e =s SourceReview) &&
  negb ((e_Type e =s "attempt_started") || (e_Type e =s "reservation_reserved") ||
        (e_Type e =s "reservation_released")) &&
  negb (match e_AttemptID e with
        | Some attemptID =>
            match st_attempts s !! attemptID with
            | Some attempt => ar_Kind attempt =s AttemptKindReview
            | None => false
            end
        | None => false
        end).

(** The values of [json_each(event.payload, '$.changed_fields')]: one row per
    field of a list, a single row whose value is NULL for a JSON null, and none
    when the payload has no such member. *)
Definition changedFieldRows (p : Payload) : list (option string) :=
  match p with
  | PIssueUpdated u => match up_ChangedFields u with Some changedFields => map Some changedFields | None => [None] end
  | _ => []
  end.

(** [priorityOnlyIssueUpdateSQL]; a comparison with NULL does not hold. *)
Definition priorityOnlyIssueUpdate (e : Event) : bool :=
  (e_Type e =s "issue_updated") && negb (null (changedFieldRows (e_Payload e))) &&
  negb (existsb (λ value, match value with Some field => negb (field =s "priority") | None => false end)
          (changedFieldRows (e_Payload e))).

Definition eventAfter (issueID : string) (afterEventID : Z) (e : Event) : bool :=
  optEq (e_IssueID e) (Some issueID) && (afterEventID <? e_ID e)%Z.

Definition reviewedWorkChangedSince (issueID : string) (afterEventID : Z) (s : Store) : bool :=
  existsb (λ e, eventAfter issueID afterEventID e && reviewedWorkEventScope s e &&
                negb (priorityOnlyIssueUpdate e)) (st_events s).

Definition priorityOnlyIssueUpdatesSince (issueID : string) (afterEventID : Z) (s : Store) : Z :=
  Z.of_nat (length (List.filter (λ e, eventAfter issueID afterEventID e && reviewedWorkEventScope s e &&
                                      priorityOnlyIssueUpdate e) (st_events s))).

(** The version gap must be explained by priority-only updates, one step each. *)
Definition targetStale (issueID : string) (currentVersion targetIssueVersion targetEventID : Z) (s : Store) : bool :=
  if reviewedWorkChangedSince issueID targetEventID s then true
  else if (currentVersion =? targetIssueVersion)%Z then false
  else negb (currentVersion =? targetIssueVersion + priorityOnlyIssueUpdatesSince issueID targetEventID s)%Z.

Definition reviewTargetStale (issueID : string) (targetIssueVersion targetEventID : Z) : Tx bool := λ s,
  match st_issues s !! issueID with
  | None => Err issueNotFound
  | Some issue => Ok (targetStale issueID (i_Version issue) targetIssueVersion targetEventID s, s)
  end.

Definition reviewTargetFuture (targetEventID : Z) (s : Store) : bool := (latestEventID s <? targetEventID)%Z.

Definition staleReviewTargetError : DomainError :=
  NewError CodeReviewTargetStale "review target is stale" false [].

(** ** Transitions of a request *)

(** [UPDATE review_requests SET status = ?, active_attempt_id = ?, resolved_at = ?,
    version = version + 1]. *)
Definition transitionRequest (status : string) (activeAttemptID : option string) (resolvedAt : option Z)
    (r : ReviewRequest) : ReviewRequest :=
  mkReviewRequest (rq_ID r) (rq_IssueID r) (rq_TargetID r) (rq_TargetIssueVersion r) (rq_TargetEventID r)
    (rq_ArtifactIDs r) (rq_Purposes r) status (rq_SupersedesID r) activeAttemptID (rq_Version r + 1)
    (rq_CreatedAt r) resolvedAt.

Definition claimedBy (attemptID : string) (r : ReviewRequest) : bool :=
  requestClaimed r && optEq (rq_ActiveAttemptID r) (Some attemptID).

Definition reviewRequestStatusForOutcome (outcome : string) : string :=
  if outcome =s ReviewOutcomeApproved then ReviewRequestStatusApproved
  else if outcome =s ReviewOutcomeChangesRequested then ReviewRequestStatusChangesRequested
  else if outcome =s ReviewOutcomeBlocked then ReviewRequestStatusBlocked
  else ReviewRequestStatusCancelled.

Definition reviewEventTypeForOutcome (outcome : string) : string :=
  if outcome =s ReviewOutcomeApproved then "review_approved"
  else if outcome =s ReviewOutcomeChangesRequested then "review_changes_requested"
  else if outcome =s ReviewOutcomeBlocked then "review_blocked"
  else "review_cancelled".

(** [ORDER BY created_at DESC, id DESC]. *)
Definition newerRequest (a b : ReviewRequest) : bool :=
  (rq_CreatedAt b <? rq_CreatedAt a)%Z || ((rq_CreatedAt a =? rq_CreatedAt b)%Z && str_less (rq_ID b) (rq_ID a)).
Definition openRequestFor (issueID : string) (s : Store) : option ReviewRequest :=
  head (stable_sort newerRequest (List.filter (λ r, (rq_IssueID r =s issueID) && requestOpen r) (rows s))).

Definition loadActiveReviewRequestForAttempt (attemptID : string) (s : Store) : option ReviewRequest :=
  head (select (claimedBy attemptID) s).

Section transitions.
Context `{SQLiteDriver}.

Definition appendReviewEvent (issueID eventType : string) (attemptID : option string) (payload : Payload)
    (createdAt : Z) : Tx unit :=
  run appendEvent issueID eventType None attemptID payload createdAt SourceReview ;; mret tt.

Definition releaseClaimedReviewRequest (attemptID : string) (now : Z) : Tx unit :=
  found ← query (loadActiveReviewRequestForAttempt attemptID);
  match found with
  | None => mret tt
  | Some request =>
      stale ← reviewTargetStale (rq_IssueID request) (rq_TargetIssueVersion request) (rq_TargetEventID request);
      let status := if stale : bool then ReviewRequestStatusSuperseded else ReviewRequestStatusOpen in
      let eventType := if stale then "review_superseded" else "review_requested" in
      let resolvedAt := if stale then Some now else None in
      affected ← Update (rq_ID request) (claimedBy attemptID) (transitionRequest status None resolvedAt);
      if negb (affected =? 1)%Z then mret tt
      else appendReviewEvent (rq_IssueID request) eventType (Some attemptID)
             (PReview (rq_ID request) (rq_TargetID request) (Some attemptID) None None) now
  end.

Definition bindOpenReviewRequestForAttempt (issueID attemptID : string) (now : Z) : Tx unit :=
  found ← query (openRequestFor issueID);
  match found with
  | None => mret tt
  | Some request =>
      stale ← reviewTargetStale issueID (rq_TargetIssueVersion request) (rq_TargetEventID request);
      if stale : bool then mret tt
      else
        affected ← Update (rq_ID request)
          (λ r, (rq_Version r =? rq_Version request)%Z && requestOpen r)
          (transitionRequest ReviewRequestStatusClaimed (Some attemptID) None);
        raise_if negb (affected =? 1)%Z
          with NewError CodeStorageCorrupt
                 "review request claim-time binding lost a race inside its own write transaction" false [] ;;
        appendReviewEvent issueID "review_claimed" (Some attemptID)
          (PReview (rq_ID request) (rq_TargetID request) (Some attemptID) None None) now
  end.

Definition supersedeReviewRequestForAttempt (request : ReviewRequest) (attemptID : string) (now : Z) : Tx unit :=
  affected ← Update (rq_ID request) (claimedBy attemptID)
               (transitionRequest ReviewRequestStatusSuperseded None (Some now));
  if (affected =? 0)%Z then mret tt
  else appendReviewEvent (rq_IssueID request) "review_superseded" (Some attemptID)
         (PReview (rq_ID request) (rq_TargetID request) (Some attemptID) None None) now.

Definition supersedeOpenReviewRequest (request : ReviewRequest) (now : Z) : Tx unit :=
  affected ← Update (rq_ID request) requestOpen (transitionRequest ReviewRequestStatusSuperseded None (Some now));
  if (affected =? 0)%Z then mret tt
  else appendReviewEvent (rq_IssueID request) "review_superseded" None
         (PReview (rq_ID request) (rq_TargetID request) None None None) now.

(** [newReviewApprovalID]: the next identifier of the entropy source. *)
Definition newReviewApprovalID : Tx string := λ s,
  match st_entropy s with
  | id :: rest => Ok (id, set_entropy rest s)
  | [] => Err (WrapError "entropy" CodeIDGeneration "cannot generate review approval identifier" false [])
  end.

Definition approval_constraint (s : Store) (a : ReviewApproval) : bool :=
  id_ok (rp_ID a) && sql_nonblank (rp_Purpose a) && (1 <=? rp_TargetIssueVersion a)%Z &&
  (0 <=? rp_TargetEventID a)%Z && (1 <=? rp_Version a)%Z &&
  fk (st_issues s) (rp_IssueID a) && fk (st_targets s) (rp_TargetID a) &&
  fk (st_requests s) (rp_RequestID a) && fk (st_attempts s) (rp_AttemptID a) &&
  negb (existsb (λ o, (rp_ID o =s rp_ID a) ||
                      ((rp_RequestID o =s rp_RequestID a) && (rp_Purpose o =s rp_Purpose a))) (st_approvals s)).

Definition insertApproval (a : ReviewApproval) : Tx unit := λ s,
  if approval_constraint s a then Ok (tt, set_approvals (st_approvals s ++ [a]) s)
  else Err (constraintError "review_approvals").

Definition insertReviewApprovals (request : ReviewRequest) (attemptID : string) (now : Z) : Tx unit :=
  for_each (λ purpose,
    id ← newReviewApprovalID;
    insertApproval (mkReviewApproval id (rq_IssueID request) (rq_TargetID request) (rq_ID request) attemptID
      purpose (rq_TargetIssueVersion request) (rq_TargetEventID request) 1 now)) (rq_Purposes request).

Definition resolveReviewRequestForAttempt (request : ReviewRequest) (attemptID : string) (now : Z)
    (outcome : string) (reason : option string) : Tx unit :=
  affected ← wrap "update review request"
    (Update (rq_ID request) (claimedBy attemptID)
       (transitionRequest (reviewRequestStatusForOutcome outcome) None (Some now)));
  raise_if negb (affected =? 1)%Z with NewError CodeInvalidArgument "review request is not active" false [] ;;
  run wrap "insert review outcome"
        (Insert (mkReviewOutcomeRecord attemptID (rq_ID request) attemptID outcome reason 1 now)) ;;
  run wrap "insert review event"
        (appendReviewEvent (rq_IssueID request) (reviewEventTypeForOutcome outcome) (Some attemptID)
           (PReview (rq_ID request) (rq_TargetID request) (Some attemptID) (Some outcome) reason) now) ;;
  if outcome =s ReviewOutcomeApproved
  then wrap "insert review approvals" (insertReviewApprovals request attemptID now)
  else mret tt.
End transitions.

(** ** Approvals in force *)

(** [loadIssueReviewApprovalPurposes]: the approvals of the issue by ascending
    position; from the first position after which the work has not changed on,
    every purpose counts. *)
Definition approvalPositionLess (a b : ReviewApproval) : bool := (rp_TargetEventID a <? rp_TargetEventID b)%Z.

Fixpoint freshPurposes (issueID : string) (fresh : bool) (approvals : list ReviewApproval) (s : Store) : gset string :=
  match approvals with
  | [] => ∅
  | a :: rest =>
      if fresh || negb (reviewedWorkChangedSince issueID (rp_TargetEventID a) s)
      then {[ rp_Purpose a ]} ∪ freshPurposes issueID true rest s
      else freshPurposes issueID false rest s
  end.

Definition loadIssueReviewApprovalPurposes (issueID : string) (s : Store) : gset string :=
  freshPurposes issueID false
    (stable_sort approvalPositionLess (List.filter (λ a, rp_IssueID a =s issueID) (st_approvals s))) s.

Definition reviewPurposeSet (purposes : list string) : gset string := list_to_set purposes.

(** [reviewApprovalPurposesRequired], [missingReviewPurposes],
    [requireReviewPurposeCoverage]. *)
Definition reviewApprovalPurposesRequired (requirements : list PolicyRequirement) : list string :=
  sort_Strings (elements (list_to_set (map q_Purpose requirements) : gset string)).

Definition missingReviewPurposes (required covered : list string) : list string :=
  sort_Strings (List.filter (λ p, negb (existsb (String.eqb p) covered)) required).

Section coverage.
Context `{UnicodeTables, SQLiteDriver}.

Definition missingPurposeDetail (purpose : string) : Detail :=
  mkDetail None "purposes" CodeReviewPurposeRequired
    ("purpose " +:+ Quote purpose +:+ " is required by an active review_approval policy for this target").

Definition requireReviewPurposeCoverage (targetID : string) (purposes : list string) : Tx unit := λ s,
  lift (match loadGateSnapshot (st_target_snapshots s) targetID with
        | Err e => if e_Code e =s CodeGateSnapshotNotFound then Ok tt else Err e
        | Ok snapshot =>
            let missing := missingReviewPurposes (reviewApprovalPurposesRequired (sn_Requirements snapshot)) purposes in
            if null missing then Ok tt
            else Err (NewError CodeReviewPurposeRequired
                        "review request purposes do not cover every required purpose" false
                        (map missingPurposeDetail missing))
        end) s.
End coverage.
