(* ===== verification/Termination.v ===== *)
(** * Ending an attempt

    [internal/adapters/sqlite/attempts.go]: [authenticateActiveAttempt],
    [terminateAttempt], [expireAttempt] and [expireAttemptsForIssue], the only
    code that takes an attempt out of the active state.  Each of them releases
    the reservations of the attempt and, when the review is abandoned, its
    claimed review request, in the same transaction. *)

From S2P Require Import Prelude GoStrings Errors Validation Samples Issue Relation Session IssueOps.
From S2P Require Import Discussion Resource Attempt Gates.
From S2P Require Import Store Schema ReservationStore GateStore ReviewStore.

Record terminateAttemptReason := mkReason {
  tr_FailureReasonCode : option string;
  tr_InterruptionReasonCode : option string;
  tr_ReservationReleaseReason : string;
}.

Definition terminalStatusAbandonsReviewClaim (status : string) : bool :=
  (status =s AttemptStatusFailed) || (status =s AttemptStatusInterrupted) || (status =s AttemptStatusExpired).

Definition reservationReleaseReasonForOutcome (outcome : string) : string :=
  if outcome =s AttemptOutcomeFailed then ReservationReleaseReasonFailed
  else if outcome =s AttemptOutcomeInterrupted then ReservationReleaseReasonInterrupted
  else ReservationReleaseReasonCompleted.

(** The attempt columns the updates of this file write. *)
Definition endAttempt (status : string) (now : Z) (failure interruption : option string) (a : WorkAttempt) : WorkAttempt :=
  mkWorkAttempt (wa_ID a) (wa_IssueID a) (wa_SessionID a) (wa_AgentLabel a) (wa_Kind a) status
    (wa_IssueVersionAtStart a) (wa_ContextEventIDAtStart a) (wa_LeaseExpiresAt a) (wa_StartedAt a)
    (wa_LastHeartbeatAt a) (Some now) (wa_ResultSummary a) (wa_NextSteps a) (wa_Verification a)
    failure interruption (wa_ReasonDetails a).
Definition onAttempt (f : WorkAttempt → WorkAttempt) (row : AttemptRow) : AttemptRow :=
  mkAttemptRow (f (ar_Attempt row)) (ar_LeaseTokenHash row).
Definition expiredAttempt (now : Z) (a : WorkAttempt) : WorkAttempt :=
  endAttempt AttemptStatusExpired now (wa_FailureReasonCode a) (wa_InterruptionReasonCode a) a.

Definition leaseOver (now : Z) (row : AttemptRow) : bool := (ar_LeaseExpiresAt row <=? now)%Z.

Definition attemptNotFound : DomainError := NewError CodeAttemptNotFound "attempt not found" false [].
Definition attemptNotActive : DomainError := NewError CodeAttemptNotActive "attempt is not active" false [].
Definition leaseExpiredError : DomainError := NewError CodeLeaseExpired "attempt lease has expired" false [].
Definition invalidLeaseToken : DomainError := NewError CodeInvalidLeaseToken "lease token is invalid" false [].
Definition wrongKind : DomainError :=
  NewError CodeInvalidArgument "attempt kind does not match the required kind" false
    [mkDetail None "attempt_id" "WRONG_KIND" ""].

Section termination.
Context `{UnicodeTables, ULID, SQLiteDriver, Misused}.

Definition terminateAttempt (attemptID finalStatus : string) (reason : terminateAttemptReason) (now : Z) : Tx bool :=
  affected ← Update attemptID attemptActive
    (onAttempt (endAttempt finalStatus now (tr_FailureReasonCode reason) (tr_InterruptionReasonCode reason)));
  if (affected =? 0)%Z then mret false
  else
    run releaseReservationsForAttempt attemptID (tr_ReservationReleaseReason reason) now ;;
    if negb (terminalStatusAbandonsReviewClaim finalStatus) then mret true
    else
      run releaseClaimedReviewRequest attemptID now ;;
      mret true.

Definition expireAttempt (attemptID : string) (now : Z) : Tx bool :=
  affected ← Update attemptID (λ row, attemptActive row && leaseOver now row) (onAttempt (expiredAttempt now));
  if (affected =? 0)%Z then mret false
  else
    row ← query (λ s, st_attempts s !! attemptID);
    match row with
    | None => fail sqlNoRows
    | Some row =>
        run releaseReservationsForAttempt attemptID ReservationReleaseReasonExpired now ;;
        run releaseClaimedReviewRequest attemptID now ;;
        run appendIssueEvent (ar_IssueID row) "attempt_expired" None (Some attemptID)
              (PAttemptExpired attemptID) now ;;
        mret true
    end.

Definition appendAttemptCancelledEvent (issueID attemptID : string) (now : Z) : Tx unit :=
  appendIssueEvent issueID "attempt_cancelled" None (Some attemptID)
    (PAttemptCancelled attemptID "review_request_cancelled") now.

Definition expiryDisagreed (where_ : string) : DomainError :=
  NewError CodeStorageCorrupt ("attempt lease expiry state disagreed between " +:+ where_) false [].

(** [SELECT id FROM work_attempts WHERE issue_id = ? AND status = 'active' AND
    lease_expires_at <= ?], then each of them. *)
Definition expireAttemptsForIssue (issueID : string) (now : Z) : Tx unit :=
  due ← query (λ s, map row_id (select (λ row, (ar_IssueID row =s issueID) && attemptActive row && leaseOver now row) s));
  for_each (λ id,
    expired ← expireAttempt id now;
    raise_if negb expired with expiryDisagreed "the sweep's own select and expireAttempt's guard" ;;
    mret tt) due.

(** [Some (issueID, kind)] for a live lease, [None] when it was found expired
    and has been expired here. *)
Definition authenticateActiveAttempt (attemptID tokenHash : string) (now : Z) (requireKind : option string) :
    Tx (option (string * string)) :=
  found ← query (λ s, st_attempts s !! attemptID);
  match found with
  | None => fail attemptNotFound
  | Some row =>
      raise_if negb (attemptActive row) with attemptNotActive ;;
      if leaseOver now row then
        wasExpired ← expireAttempt attemptID now;
        raise_if negb wasExpired with expiryDisagreed "the caller's read and expireAttempt's own guard" ;;
        mret None
      else
        raise_if negb (ar_LeaseTokenHash row =s tokenHash) with invalidLeaseToken ;;
        raise_if match requireKind with Some kind => negb (ar_Kind row =s kind) | None => false end with wrongKind ;;
        mret (Some (ar_IssueID row, ar_Kind row))
  end.
End termination.

(** ** The lifecycle invariant

    [ReservationRepository.AcquireReservations] does not check the attempt it is
    given: [ports/reservations.go] asks its callers to call it on behalf of one
    active work attempt.  [misused] are the attempts with which callers break
    that contract; what is said about the owners of reservations is said of the
    others.  With no such attempt every caller keeps the contract, with all of
    them the operation is unrestricted. *)
Class Misused := misused : string → bool.

(** Active reservations belong to active work attempts of their issue, claimed
    review requests to active review attempts of their issue, and active
    reservations are pairwise disjoint.  [rx] and [qx] exempt one attempt, the
    one that is just being ended. *)
Record lifecycle `{Misused} (rx qx : option string) (s : Store) : Prop := {
  lc_schema : schema_ok s;
  lc_owner i r : st_reservations s !! i = Some r → reservationActive r = true → Some (rr_AttemptID r) ≠ rx →
    misused (rr_AttemptID r) = false →
    ∃ a, st_attempts s !! rr_AttemptID r = Some a ∧ attemptActive a = true ∧
      ar_Kind a = AttemptKindWork ∧ ar_IssueID a = rv_IssueID (rr_Reservation r);
  lc_claim i q aid : st_requests s !! i = Some q → requestClaimed q = true → rq_ActiveAttemptID q = Some aid →
    Some aid ≠ qx →
    ∃ a, st_attempts s !! aid = Some a ∧ attemptActive a = true ∧
      ar_Kind a = AttemptKindReview ∧ ar_IssueID a = rq_IssueID q;
  lc_described : described (st_reservations s);
  lc_disjoint : active_disjoint (st_reservations s);
}.
Definition lifecycle_ok `{Misused} : Store → Prop := lifecycle None None.

(** Steps that leave the three tables of the invariant alone. *)
Definition tables_are (A : gmap string AttemptRow) (R : gmap string reservationRow) (Q : gmap string ReviewRequest)
    (s : Store) : Prop := st_attempts s = A ∧ st_reservations s = R ∧ st_requests s = Q.
Definition frame {A} (m : Tx A) : Prop := ∀ A0 R Q, preserves (tables_are A0 R Q) m.

Lemma lifecycle_tables `{Misused} rx qx s s' :
  schema_ok s' → tables_are (st_attempts s) (st_reservations s) (st_requests s) s' →
  lifecycle rx qx s → lifecycle rx qx s'.
Proof. intros Hs (Ha & Hr & Hq) []. split; rewrite ?Ha, ?Hr, ?Hq; done. Qed.

Lemma lifecycle_frame `{Misused} {A} rx qx (m : Tx A) :
  preserves schema_ok m → frame m → preserves (lifecycle rx qx) m.
Proof.
  intros Hm Hf s a s' Hl Hrun. eapply lifecycle_tables; [|by eapply Hf|done]. eapply Hm; [apply Hl|done].
Qed.

Lemma frame_attempts {A} (m : Tx A) s a s' : frame m → m s = Ok (a, s') → st_attempts s' = st_attempts s.
Proof. intros Hf Hrun. by destruct (Hf (st_attempts s) (st_reservations s) (st_requests s) s a s'). Qed.

Lemma frame_requests {A} (m : Tx A) s a s' : frame m → m s = Ok (a, s') → st_requests s' = st_requests s.
Proof. intros Hf Hrun. by destruct (Hf (st_attempts s) (st_reservations s) (st_requests s) s a s') as (_ & _ & ?). Qed.

(** The tables the invariant does not mention. *)
Class SideTable (R : Type) `{Table R} : Prop := {
  side_set m s : st_attempts (set_table m s) = st_attempts s ∧
    st_reservations (set_table m s) = st_reservations s ∧ st_requests (set_table m s) = st_requests s
}.
#[export] Instance issues_side : SideTable Issue. Proof. by split. Qed.
#[export] Instance sessions_side : SideTable SessionRow. Proof. by split. Qed.
#[export] Instance labels_side : SideTable Label. Proof. by split. Qed.
#[export] Instance relations_side : SideTable IssueRelation. Proof. by split. Qed.
#[export] Instance policies_side : SideTable WorkflowPolicy. Proof. by split. Qed.
#[export] Instance evidence_side : SideTable AttemptEvidence. Proof. by split. Qed.
#[export] Instance notes_side : SideTable AttemptNote. Proof. by split. Qed.
#[export] Instance artifacts_side : SideTable Artifact. Proof. by split. Qed.
#[export] Instance targets_side : SideTable ReviewTarget. Proof. by split. Qed.
#[export] Instance outcomes_side : SideTable ReviewOutcomeRecord. Proof. by split. Qed.
#[export] Instance comments_side : SideTable Comment. Proof. by split. Qed.
#[export] Instance decisions_side : SideTable Decision. Proof. by split. Qed.

Section frames.
Context `{SQLiteDriver, Misused}.

Lemma frame_Insert {R} `{SideTable R} (row : R) : frame (Insert row).
Proof.
  intros A0 R0 Q s u s' (<- & <- & <-) (_ & _ & ->)%Insert_Ok.
  destruct (side_set (R := R) (<[row_id row:=row]> (table s)) s) as (? & ? & ?). by split_and!.
Qed.
Lemma frame_Update {R} `{SideTable R} id p (f : R → R) : frame (Update id p f).
Proof.
  intros A0 R0 Q s n s' (<- & <- & <-) [(row & _ & _ & _ & _ & ->)|(_ & _ & ->)]%Update_Ok; [|done].
  destruct (side_set (R := R) (<[id:=f row]> (table s)) s) as (? & ? & ?). by split_and!.
Qed.
Lemma frame_Delete {R} `{SideTable R} id : frame (Delete (R := R) id).
Proof.
  intros A0 R0 Q s u s' (<- & <- & <-) [= _ <-].
  destruct (side_set (R := R) (delete id (table s)) s) as (? & ? & ?). by split_and!.
Qed.

Lemma frame_appendEvent i t sid aid p c src : frame (appendEvent i t sid aid p c src).
Proof. intros A0 R Q s n s' Ht H1. by apply appendEvent_Ok in H1 as (_ & _ & _ & _ & _ & ->). Qed.
Lemma frame_appendIssueEvent i t sid aid p c : frame (appendIssueEvent i t sid aid p c).
Proof. intros A0 R Q. unfold appendIssueEvent. pres. apply frame_appendEvent. Qed.
Lemma frame_appendReviewEvent i t aid p c : frame (appendReviewEvent i t aid p c).
Proof. intros A0 R Q. unfold appendReviewEvent. pres. apply frame_appendEvent. Qed.
Lemma frame_storeIdempotency op key hash response now : frame (storeIdempotency op key hash response now).
Proof. intros A0 R Q s u s' Ht [[_ ->]|(_ & _ & _ & ->)]%storeIdempotency_Ok; done. Qed.
Lemma frame_insertAttemptGateSnapshot id snapshot : frame (insertAttemptGateSnapshot id snapshot).
Proof. intros A0 R Q s u s' Ht [_ ->]%insertAttemptGateSnapshot_Ok. done. Qed.
Lemma frame_newReviewApprovalID : frame newReviewApprovalID.
Proof. intros A0 R Q s u s' Ht. unfold newReviewApprovalID. destruct (st_entropy s); [done|]. by intros [= _ <-]. Qed.
Lemma frame_insertApproval a : frame (insertApproval a).
Proof. intros A0 R Q s u s' Ht. unfold insertApproval. destruct (approval_constraint s a); [|done]. by intros [= _ <-]. Qed.

Lemma schema_pres_appendReviewEvent i t aid p c : preserves schema_ok (appendReviewEvent i t aid p c).
Proof. unfold appendReviewEvent. pres. Qed.
Lemma schema_pres_insertAttemptGateSnapshot id snapshot : preserves schema_ok (insertAttemptGateSnapshot id snapshot).
Proof. intros s u s' Hs [_ ->]%insertAttemptGateSnapshot_Ok. apply (schema_same s); [by split|apply Hs|done]. Qed.
Lemma schema_pres_newReviewApprovalID : preserves schema_ok newReviewApprovalID.
Proof.
  intros s u s' Hs. unfold newReviewApprovalID. destruct (st_entropy s); [done|]. intros [= _ <-].
  apply (schema_same s); [by split|apply Hs|done].
Qed.
Lemma schema_pres_insertApproval a : preserves schema_ok (insertApproval a).
Proof.
  intros s u s' Hs. unfold insertApproval. destruct (approval_constraint s a); [|done]. intros [= _ <-].
  apply (schema_same s); [by split|apply Hs|done].
Qed.

Lemma schema_pres_Update_issue id p f :
  (∀ r, i_ID (f r) = i_ID r) → preserves schema_ok (Update (R := Issue) id p f).
Proof. intros Hf s n s' Hs. apply schema_Update; [done|apply Hs|done]. Qed.
Lemma schema_pres_Update_attempt id p f :
  (∀ r, wa_ID (ar_Attempt (f r)) = wa_ID (ar_Attempt r)) → preserves schema_ok (Update (R := AttemptRow) id p f).
Proof. intros Hf s n s' Hs. apply schema_Update; [done|apply Hs|done]. Qed.
Lemma schema_pres_Update_request id p f :
  (∀ r, rq_ID (f r) = rq_ID r) → preserves schema_ok (Update (R := ReviewRequest) id p f).
Proof. intros Hf s n s' Hs. apply schema_Update; [done|apply Hs|done]. Qed.
Lemma schema_pres_updateReleased reason now id version : preserves schema_ok (updateReleased reason now id version).
Proof. intros s n s' Hs. apply schema_Update; [done|apply Hs|done]. Qed.
End frames.
#[export] Hint Extern 1 (frame (Insert _)) => apply frame_Insert : pres.
#[export] Hint Extern 1 (frame (Update _ _ _)) => apply frame_Update : pres.
#[export] Hint Extern 1 (frame (Delete _)) => apply frame_Delete : pres.
#[export] Hint Resolve frame_appendEvent frame_appendIssueEvent frame_appendReviewEvent frame_storeIdempotency frame_insertAttemptGateSnapshot
  frame_newReviewApprovalID frame_insertApproval schema_pres_appendReviewEvent
  schema_pres_insertAttemptGateSnapshot schema_pres_newReviewApprovalID schema_pres_insertApproval
  schema_pres_Update_issue schema_pres_Update_attempt schema_pres_Update_request
  schema_pres_updateReleased : pres.
#[export] Hint Extern 2 (preserves (tables_are _ _ _) _) =>
  (match goal with |- preserves (tables_are ?A ?R ?Q) ?m => change (preserves (tables_are A R Q) m);
     refine ((_ : frame m) A R Q) end) : pres.
#[export] Hint Extern 4 (preserves (lifecycle _ _) _) =>
  (apply lifecycle_frame; [solve [pres]|intros ? ? ?; solve [pres]]) : pres.
#[export] Hint Extern 4 (preserves lifecycle_ok _) =>
  (apply lifecycle_frame; [solve [pres]|intros ? ? ?; solve [pres]]) : pres.

(** ** Ending an attempt *)

(** What a terminal status requires of its reason codes. *)
Definition terminal_ok (status : string) (failure interruption : option string) : bool :=
  AttemptStatus_Valid status && negb (status =s AttemptStatusActive) &&
  Bool.eqb (status =s AttemptStatusFailed) (isSet failure) &&
  Bool.eqb (status =s AttemptStatusInterrupted) (isSet interruption) &&
  match failure with Some c => FailureReasonCode_Valid c | None => true end &&
  match interruption with Some c => InterruptionReasonCode_Valid c | None => true end.

Section ending.
Context `{UnicodeTables, ULID, SQLiteDriver, Misused}.

Lemma ended_constraint s id row status now failure interruption :
  terminal_ok status failure interruption = true → attempt_constraint s id row = true →
  attempt_constraint s id (onAttempt (endAttempt status now failure interruption) row) = true.
Proof.
  intros Ht Hc.
  assert (Hna : (status =s AttemptStatusActive) = false).
  { unfold terminal_ok in Ht. conj_hyps. by apply negb_true_iff. }
  revert Ht Hc. unfold terminal_ok, attempt_constraint.
  cbn [onAttempt ar_Attempt endAttempt wa_Kind wa_Status wa_IssueVersionAtStart wa_ContextEventIDAtStart
    ar_LeaseTokenHash wa_FinishedAt wa_FailureReasonCode wa_InterruptionReasonCode wa_IssueID wa_SessionID isSet negb].
  intros Ht Hc. conj_hyps. conj_goal; try assumption.
  apply negb_true_iff, exists_other_none. intros r. unfold activeAttemptClash, attemptActive, ar_Status.
  cbn [onAttempt ar_Attempt endAttempt wa_Status]. by rewrite Hna.
Qed.

Lemma active_constraint_codes s id row :
  attempt_constraint s id row = true → attemptActive row = true →
  wa_FailureReasonCode (ar_Attempt row) = None ∧ wa_InterruptionReasonCode (ar_Attempt row) = None.
Proof.
  unfold attempt_constraint, attemptActive, ar_Status. intros Hc Ha. conj_hyps.
  apply eqb_string_true in Ha. rewrite Ha in *.
  destruct (wa_FailureReasonCode _); [done|]. destruct (wa_InterruptionReasonCode _); done.
Qed.

Lemma expired_constraint s id row now :
  attempt_constraint s id row = true → attemptActive row = true →
  attempt_constraint s id (onAttempt (expiredAttempt now) row) = true.
Proof.
  intros Hc Ha. pose proof (active_constraint_codes s id row Hc Ha) as [Hf Hi].
  unfold onAttempt, expiredAttempt. rewrite Hf, Hi. by apply (ended_constraint s id row).
Qed.

(** The row of an ended attempt takes the attempt out of the invariant's reach. *)
Lemma lifecycle_end s aid row' :
  lifecycle_ok s → wa_ID (ar_Attempt row') = aid → attempt_constraint s aid row' = true →
  lifecycle (Some aid) (Some aid) (set_attempts (<[aid := row']> (st_attempts s)) s).
Proof.
  intros [Hs Ho Hc Hd Hdis] Hid Hcon. split; [|..|done|done].
  - exact (schema_set_table (R := AttemptRow) s aid row' Hs Hid Hcon).
  - intros i r Hr Ha Hne. cbn. rewrite lookup_insert_ne by congruence. by eapply Ho.
  - intros i q aid' Hq Hcl Hact Hne. cbn. rewrite lookup_insert_ne by congruence. by eapply Hc.
Qed.

Lemma releaseReservations_frame attemptID reason now s s' :
  schema_ok s → ReservationReleaseReason_Valid reason = true → fk (st_attempts s) attemptID = true →
  s' = append_all (map (releasedEvent attemptID None reason now) (select (ownedActive attemptID) s))
            (set_reservations (releaseOwned attemptID reason now (st_reservations s)) s) →
  tables_are (st_attempts s) (releaseOwned attemptID reason now (st_reservations s)) (st_requests s) s'.
Proof. intros _ _ _ ->. split_and!; by rewrite append_all_frame. Qed.

Lemma schema_pres_releaseRows scan attemptID sessionID reason now rows :
  preserves schema_ok (releaseRows scan attemptID sessionID reason now rows).
Proof. induction rows as [|row rows IH]; cbn [releaseRows]; pres. Qed.

(** Releasing the reservations of the attempt being ended restores the owner
    clause. *)
Lemma lifecycle_release aid qx reason now s s' :
  lifecycle (Some aid) qx s →
  ReservationReleaseReason_Valid reason = true → fk (st_attempts s) aid = true →
  releaseReservationsForAttempt aid reason now s = Ok (tt, s') →
  lifecycle None qx s' ∧
  tables_are (st_attempts s) (releaseOwned aid reason now (st_reservations s)) (st_requests s) s'.
Proof.
  intros [Hs Ho Hc Hd Hdis] Hr Hfk Hrun.
  assert (Hs' : schema_ok s').
  { revert Hrun. unfold releaseReservationsForAttempt. intros Hrun. inv_tx. eapply schema_pres_releaseRows; eauto. }
  rewrite releaseReservationsForAttempt_run in Hrun by done. injection Hrun as He. symmetry in He.
  pose proof (releaseReservations_frame _ _ _ _ _ Hs Hr Hfk He) as Ht. clear He.
  split; [|done]. destruct Ht as (HA & HR & HQ).
  assert (Hact : ∀ i r, st_reservations s' !! i = Some r → reservationActive r = true →
    st_reservations s !! i = Some r ∧ rr_AttemptID r ≠ aid) by (rewrite HR; apply releaseOwned_active).
  destruct (disjoint_sub (st_reservations s) (st_reservations s')) as [Hd' Hdis']; [|done..|].
  { intros i r Hi Ha. by apply Hact. }
  split; [done| | |done|done].
  - intros i r Hi Ha _. rewrite HA. apply Hact in Hi as [Hi Hne]; [|done]. eapply Ho; [done..|congruence].
  - rewrite HA, HQ. done.
Qed.

(** *** The claimed review request *)

Lemma claimed_unique s i j q r aid :
  schema_ok s → st_requests s !! i = Some q → st_requests s !! j = Some r →
  rq_ActiveAttemptID q = Some aid → rq_ActiveAttemptID r = Some aid → i = j.
Proof.
  intros Hs Hi Hj Hq Hr. destruct (decide (i = j)) as [|Hne]; [done|]. exfalso.
  assert (Hc : exists_other (st_requests s) i (activeAttemptIDClash q) = false).
  { pose proof (proj2 (ok_requests _ Hs) _ _ Hi) as Hc. cbn in Hc. unfold request_constraint in Hc. conj_hyps.
    by apply negb_true_iff. }
  rewrite exists_other_false in Hc. specialize (Hc j r Hj (λ e, Hne (eq_sym e))).
  unfold activeAttemptIDClash in Hc. rewrite Hq, Hr in Hc. cbn in Hc. unfold optEq in Hc.
  by rewrite bool_decide_eq_true_2 in Hc.
Qed.

Lemma claimedBy_true aid q : claimedBy aid q = true ↔ requestClaimed q = true ∧ rq_ActiveAttemptID q = Some aid.
Proof. unfold claimedBy, optEq. by rewrite andb_true_iff, bool_decide_eq_true. Qed.

Lemma loadActive_Some s aid q :
  schema_ok s → loadActiveReviewRequestForAttempt aid s = Some q →
  st_requests s !! rq_ID q = Some q ∧ claimedBy aid q = true.
Proof.
  intros Hs Hq. apply head_Some_elem_of in Hq. apply elem_of_select in Hq as (Hp & i & Hi). split; [|done].
  cbn in Hi. pose proof (proj1 (ok_requests _ Hs) _ _ Hi) as He. cbn in He. by rewrite He.
Qed.

Lemma loadActive_None s aid i q :
  loadActiveReviewRequestForAttempt aid s = None → st_requests s !! i = Some q → claimedBy aid q = false.
Proof.
  unfold loadActiveReviewRequestForAttempt. intros Hn Hq. destruct (select (claimedBy aid) s) eqn:Hsel; [|done].
  apply not_true_iff_false. intros Hc.
  assert (q ∈ select (claimedBy aid) s) as Hin by (apply elem_of_select; cbn; eauto).
  rewrite Hsel in Hin. by apply elem_of_nil in Hin.
Qed.

Lemma exists_other_weaken {R} (m : gmap string R) id (p p' : R → bool) :
  (∀ r, p' r = true → p r = true) →
  negb (exists_other m id p) = true → negb (exists_other m id p') = true.
Proof.
  intros Hp. rewrite !negb_true_iff, !exists_other_false. intros Hf j r Hj Hne.
  apply not_true_iff_false. intros Hr%Hp. by rewrite (Hf j r Hj Hne) in Hr.
Qed.

(** A transition of a claimed request is accepted by the schema. *)
Lemma transition_constraint s id q status resolvedAt :
  request_constraint s id q = true → requestClaimed q = true →
  ReviewRequestStatus_Valid status = true → (status =s ReviewRequestStatusClaimed) = false →
  (status =s ReviewRequestStatusOpen) = negb (isSet resolvedAt) →
  request_constraint s id (transitionRequest status None resolvedAt q) = true.
Proof.
  unfold request_constraint. intros Hc Hcl Hv Hnc Hop. conj_hyps.
  assert (Hunres : requestUnresolved q = true) by (unfold requestUnresolved; by rewrite Hcl, orb_true_r).
  conj_goal; cbn [transitionRequest rq_TargetIssueVersion rq_TargetEventID rq_Version rq_Status rq_Purposes
    rq_ResolvedAt rq_ActiveAttemptID rq_SupersedesID rq_TargetID rq_IssueID isSet fk_opt]; try assumption; try done.
  - apply Z.leb_le. bool_simpl. lia.
  - unfold requestUnresolved, requestOpen, requestClaimed. cbn [transitionRequest rq_Status].
    rewrite Hop, Hnc, orb_false_r. apply eqb_reflx.
  - unfold requestClaimed. cbn [transitionRequest rq_Status]. by rewrite Hnc.
  - apply (exists_other_weaken _ _ (activeTargetClash q)); [|assumption]. intros r. unfold activeTargetClash. rewrite Hunres.
    cbn [transitionRequest rq_TargetID andb]. intros Hx. by conj_hyps; conj_goal.
  - apply negb_true_iff, exists_other_none. done.
  - apply (exists_other_weaken _ _ (activeIssueVersionClash q)); [|assumption]. intros r. unfold activeIssueVersionClash. rewrite Hunres.
    cbn [transitionRequest rq_IssueID rq_TargetIssueVersion andb]. intros Hx. by conj_hyps; conj_goal.
Qed.
(** The claimed request of an abandoned review, reopened or superseded. *)
Definition abandoned (s : Store) (now : Z) (q : ReviewRequest) : ReviewRequest :=
  if match st_issues s !! rq_IssueID q with
     | Some issue => targetStale (rq_IssueID q) (i_Version issue) (rq_TargetIssueVersion q) (rq_TargetEventID q) s
     | None => false
     end
  then transitionRequest ReviewRequestStatusSuperseded None (Some now) q
  else transitionRequest ReviewRequestStatusOpen None None q.

Definition abandonClaim (s : Store) (aid : string) (now : Z) : gmap string ReviewRequest :=
  match loadActiveReviewRequestForAttempt aid s with
  | Some q => <[rq_ID q := abandoned s now q]> (st_requests s)
  | None => st_requests s
  end.

Lemma abandoned_constraint s id now q :
  request_constraint s id q = true → requestClaimed q = true →
  request_constraint s id (abandoned s now q) = true.
Proof. unfold abandoned. intros Hc Hcl. case_match; by apply transition_constraint. Qed.

Lemma releaseClaimed_run s aid now :
  schema_ok s → fk (st_attempts s) aid = true →
  ∃ s', releaseClaimedReviewRequest aid now s = Ok (tt, s') ∧
    tables_are (st_attempts s) (st_reservations s) (abandonClaim s aid now) s'.
Proof.
  intros Hs Hfk. unfold releaseClaimedReviewRequest, abandonClaim. unfold mbind at 1, Tx_bind at 1, query.
  destruct (loadActiveReviewRequestForAttempt aid s) as [q|] eqn:Hq; [|by eexists].
  apply loadActive_Some in Hq as [Hq Hcl]; [|done].
  pose proof (proj2 (ok_requests _ Hs) _ _ Hq) as Hc. cbn in Hc.
  assert (fk (st_issues s) (rq_IssueID q) = true) as Hi by (unfold request_constraint in Hc; conj_hyps; done).
  pose proof (proj1 (claimedBy_true _ _) Hcl) as [Hclaimed _].
  pose proof (abandoned_constraint s (rq_ID q) now q Hc Hclaimed) as Hc'.
  unfold reviewTargetStale, mbind at 1, Tx_bind at 1. unfold abandoned in Hc' |- *. unfold fk in Hi.
  destruct (st_issues s !! rq_IssueID q) as [issue|] eqn:Hissue; [|done]. clear Hi.
  set (stale := targetStale _ _ _ _ _) in *.
  unfold mbind at 1, Tx_bind at 1, Update. cbn [table requests_table]. rewrite Hq, Hcl. cbn [constraint requests_table].
  assert (Hev : ∀ t p m, t ≠ "" → ∃ s', appendReviewEvent (rq_IssueID q) t (Some aid) p now (set_table m s) = Ok (tt, s') ∧
     tables_are (st_attempts s) (st_reservations s) m s').
  { intros t p m Ht. unfold appendReviewEvent, mbind, Tx_bind. rewrite appendEvent_run; [by eexists|done| |done|done].
    cbn. unfold fk. by rewrite Hissue. }
  destruct stale; rewrite Hc'; cbn [Z.eqb negb Pos.eqb]; by apply Hev.
Qed.

Lemma abandonClaim_claimed s aid now i q :
  schema_ok s → abandonClaim s aid now !! i = Some q → requestClaimed q = true →
  st_requests s !! i = Some q ∧ rq_ActiveAttemptID q ≠ Some aid.
Proof.
  intros Hs. unfold abandonClaim. destruct (loadActiveReviewRequestForAttempt aid s) as [r|] eqn:Hr.
  - apply loadActive_Some in Hr as [Hr Hcl]; [|done]. apply claimedBy_true in Hcl as [_ Hact].
    destruct (decide (rq_ID r = i)) as [<-|Hne].
    + rewrite lookup_insert_eq. intros [= <-]. unfold abandoned. by case_match.
    + rewrite lookup_insert_ne by done. intros Hq _. split; [done|]. intros Hq'. apply Hne.
      by eapply (claimed_unique s).
  - intros Hq Hcl. split; [done|]. intros Hact. pose proof (loadActive_None _ _ _ _ Hr Hq) as Hn.
    apply not_true_iff_false in Hn. apply Hn. by apply claimedBy_true.
Qed.

Lemma schema_pres_releaseClaimed aid now : preserves schema_ok (releaseClaimedReviewRequest aid now).
Proof.
  unfold releaseClaimedReviewRequest. pres; try (apply schema_pres_Update_request; by destruct a0).
  all: unfold reviewTargetStale; intros s0 b s' Hs; destruct (st_issues s0 !! _); [|done]; by intros [= _ <-].
Qed.

Lemma lifecycle_unclaim rx aid now s :
  lifecycle rx (Some aid) s → fk (st_attempts s) aid = true →
  ∃ s', releaseClaimedReviewRequest aid now s = Ok (tt, s') ∧ lifecycle rx None s' ∧
    tables_are (st_attempts s) (st_reservations s) (abandonClaim s aid now) s'.
Proof.
  intros [Hs Ho Hc Hd Hdis] Hfk. destruct (releaseClaimed_run s aid now Hs Hfk) as (s' & Hrun & HA & HR & HQ).
  exists s'. split; [done|]. split; [|done].
  split; rewrite ?HA, ?HR, ?HQ; [by eapply schema_pres_releaseClaimed|done| |done|done].
  intros i q aid' Hq Hcl Hact _. apply abandonClaim_claimed in Hq as [Hq Hne]; [|done..].
  eapply Hc; [done..|congruence].
Qed.
End ending.
#[export] Hint Resolve schema_pres_releaseRows schema_pres_releaseClaimed : pres.

(** ** Expiry and termination, end to end *)

(** What ending attempt [aid] with row [row'] does to the three tables. *)
Record ended (aid : string) (row' : AttemptRow) (reason : string) (now : Z) (s s' : Store) : Prop := {
  ended_attempts : st_attempts s' = <[aid := row']> (st_attempts s);
  ended_reservations : st_reservations s' = releaseOwned aid reason now (st_reservations s);
  ended_claims i q : st_requests s' !! i = Some q → requestClaimed q = true →
    st_requests s !! i = Some q ∧ rq_ActiveAttemptID q ≠ Some aid;
}.

Section runs.
Context `{UnicodeTables, ULID, SQLiteDriver, Misused}.

Lemma Update_attempt_run aid p f s row :
  st_attempts s !! aid = Some row → p row = true → attempt_constraint s aid (f row) = true →
  Update aid p f s = Ok (1%Z, set_attempts (<[aid := f row]> (st_attempts s)) s).
Proof. intros Hr Hp Hc. apply Update_Ok. left. by exists row. Qed.

Lemma Update_attempt_none aid p (f : AttemptRow → AttemptRow) s :
  (∀ row, st_attempts s !! aid = Some row → p row = false) → Update aid p f s = Ok (0%Z, s).
Proof. intros Hn. apply Update_Ok. by right. Qed.

Lemma attempt_issue_fk s aid a :
  schema_ok s → st_attempts s !! aid = Some a → fk (st_issues s) (ar_IssueID a) = true.
Proof.
  intros Hs Ha. pose proof (proj2 (ok_attempts _ Hs) _ _ Ha) as Hc. cbn in Hc.
  unfold attempt_constraint in Hc. conj_hyps. assumption.
Qed.

(** The attempt row is ended and its reservations are released. *)
Lemma end_and_release s aid row' reason now :
  lifecycle_ok s → wa_ID (ar_Attempt row') = aid → attempt_constraint s aid row' = true →
  ReservationReleaseReason_Valid reason = true →
  ∃ s1, releaseReservationsForAttempt aid reason now (set_attempts (<[aid := row']> (st_attempts s)) s) = Ok (tt, s1) ∧
    lifecycle None (Some aid) s1 ∧
    tables_are (<[aid := row']> (st_attempts s)) (releaseOwned aid reason now (st_reservations s)) (st_requests s) s1.
Proof.
  intros Hl Hid Hcon Hreason. pose proof (lifecycle_end s aid row' Hl Hid Hcon) as Hl1. set (s0 := set_attempts _ s) in *.
  assert (Hfk : fk (st_attempts s0) aid = true) by (apply fk_true; cbn; rewrite lookup_insert_eq; by eexists).
  eexists. split; [by apply releaseReservationsForAttempt_run; [apply Hl1|..]|].
  by apply (lifecycle_release aid (Some aid) reason now s0); [..|apply releaseReservationsForAttempt_run; [apply Hl1|..]].
Qed.

Lemma expireAttempt_run s aid row now :
  lifecycle_ok s → st_attempts s !! aid = Some row → attemptActive row = true → leaseOver now row = true →
  ∃ s', expireAttempt aid now s = Ok (true, s') ∧ lifecycle_ok s' ∧
    ended aid (onAttempt (expiredAttempt now) row) ReservationReleaseReasonExpired now s s'.
Proof.
  intros Hl Hrow Ha Hdue.
  pose proof (proj2 (ok_attempts _ (lc_schema _ _ _ Hl)) _ _ Hrow) as Hcon.
  pose proof (expired_constraint s aid row now Hcon Ha) as Hcon'.
  assert (Hid : wa_ID (ar_Attempt row) = aid) by exact (proj1 (ok_attempts _ (lc_schema _ _ _ Hl)) _ _ Hrow).
  destruct (end_and_release s aid (onAttempt (expiredAttempt now) row) ReservationReleaseReasonExpired now
              Hl Hid Hcon' eq_refl)
    as (s1 & Hrel & Hl1 & HA1 & HR1 & HQ1).
  unfold expireAttempt. unfold mbind at 1, Tx_bind at 1.
  erewrite Update_attempt_run; [|done|by rewrite Ha|done]. cbn [Z.eqb Pos.eqb].
  unfold mbind at 1, Tx_bind at 1, query. cbn [st_attempts set_attempts]. rewrite lookup_insert_eq.
  unfold mbind at 1, Tx_bind at 1. rewrite Hrel.
  assert (Hfk : fk (st_attempts s1) aid = true) by (rewrite HA1; apply fk_true; rewrite lookup_insert_eq; by eexists).
  destruct (lifecycle_unclaim None aid now s1 Hl1 Hfk) as (s2 & Hun & Hl2 & HA2 & HR2 & HQ2).
  unfold mbind at 1, Tx_bind at 1. rewrite Hun. unfold mbind at 1, Tx_bind at 1.
  assert (Hissue : fk (st_issues s2) (ar_IssueID row) = true).
  { apply (attempt_issue_fk s2 aid (onAttempt (expiredAttempt now) row)); [apply Hl2|].
    rewrite HA2, HA1. apply lookup_insert_eq. }
  rewrite appendIssueEvent_run; [|done|done|done|by cbn; rewrite HA2]. eexists. split; [done|]. split.
  - apply (lifecycle_tables None None s2); [apply schema_append, Hl2|done|done].
  - split; cbn; rewrite ?HA2, ?HR2, ?HQ2; try congruence.
    intros i q Hq Hcl. rewrite <-HQ1. apply abandonClaim_claimed in Hq; [done|apply Hl1|done].
Qed.

Lemma expireAttempt_none s aid now :
  (∀ row, st_attempts s !! aid = Some row → attemptActive row && leaseOver now row = false) →
  expireAttempt aid now s = Ok (false, s).
Proof.
  intros Hn. unfold expireAttempt, mbind at 1, Tx_bind at 1. by rewrite Update_attempt_none.
Qed.

Lemma due_dec aid now s :
  (∃ row, st_attempts s !! aid = Some row ∧ attemptActive row = true ∧ leaseOver now row = true) ∨
  (∀ row, st_attempts s !! aid = Some row → attemptActive row && leaseOver now row = false).
Proof.
  destruct (st_attempts s !! aid) as [row|]; [|by right].
  destruct (attemptActive row && leaseOver now row) eqn:Hd.
  - left. conj_hyps. by exists row.
  - right. by intros ? [= <-].
Qed.

Lemma lifecycle_pres_expireAttempt aid now : preserves lifecycle_ok (expireAttempt aid now).
Proof.
  intros s b s' Hl Hrun. destruct (due_dec aid now s) as [(row & Hrow & Ha & Hd)|Hn].
  - destruct (expireAttempt_run s aid row now Hl Hrow Ha Hd) as (s1 & Hrun1 & Hl1 & _). congruence.
  - rewrite expireAttempt_none in Hrun by done. congruence.
Qed.

Definition unclaimed (aid : string) (s : Store) : Prop :=
  ∀ i q, st_requests s !! i = Some q → requestClaimed q = true → rq_ActiveAttemptID q ≠ Some aid.

Lemma lifecycle_unclaimed rx aid s : lifecycle rx (Some aid) s → unclaimed aid s → lifecycle rx None s.
Proof.
  intros [Hs Ho Hc Hd Hdis] Hu. split; [done|done| |done|done].
  intros i q aid' Hq Hcl Hact _. eapply Hc; [done..|]. intros [= ->]. by apply (Hu i q).
Qed.

Definition terminated (status : string) (reason : terminateAttemptReason) (now : Z) : AttemptRow → AttemptRow :=
  onAttempt (endAttempt status now (tr_FailureReasonCode reason) (tr_InterruptionReasonCode reason)).

Lemma terminateAttempt_run s aid row status reason now :
  lifecycle_ok s → st_attempts s !! aid = Some row → attemptActive row = true →
  terminal_ok status (tr_FailureReasonCode reason) (tr_InterruptionReasonCode reason) = true →
  ReservationReleaseReason_Valid (tr_ReservationReleaseReason reason) = true →
  (terminalStatusAbandonsReviewClaim status = true ∨ unclaimed aid s) →
  ∃ s', terminateAttempt aid status reason now s = Ok (true, s') ∧ lifecycle_ok s' ∧
    ended aid (terminated status reason now row) (tr_ReservationReleaseReason reason) now s s'.
Proof.
  intros Hl Hrow Ha Hterm Hreason Hclaim.
  pose proof (proj2 (ok_attempts _ (lc_schema _ _ _ Hl)) _ _ Hrow) as Hcon.
  pose proof (ended_constraint s aid row status now _ _ Hterm Hcon) as Hcon'.
  assert (Hid : wa_ID (ar_Attempt row) = aid) by exact (proj1 (ok_attempts _ (lc_schema _ _ _ Hl)) _ _ Hrow).
  destruct (end_and_release s aid (terminated status reason now row) _ now Hl Hid Hcon' Hreason)
    as (s1 & Hrel & Hl1 & HA1 & HR1 & HQ1).
  unfold terminateAttempt. unfold mbind at 1, Tx_bind at 1.
  erewrite Update_attempt_run; [|done|done|done]. cbn [Z.eqb Pos.eqb].
  unfold mbind at 1, Tx_bind at 1. change (onAttempt _ row) with (terminated status reason now row). rewrite Hrel.
  destruct (terminalStatusAbandonsReviewClaim status); cbn [negb].
  - assert (Hfk : fk (st_attempts s1) aid = true) by (rewrite HA1; apply fk_true; rewrite lookup_insert_eq; by eexists).
    destruct (lifecycle_unclaim None aid now s1 Hl1 Hfk) as (s2 & Hun & Hl2 & HA2 & HR2 & HQ2).
    unfold mbind at 1, Tx_bind at 1. rewrite Hun. eexists. split; [done|]. split; [done|].
    split; [congruence..|]. intros i q. rewrite HQ2, <-HQ1. intros Hq Hcl.
    apply abandonClaim_claimed in Hq; [done|apply Hl1|done].
  - destruct Hclaim as [?|Hu]; [done|]. exists s1. split; [done|].
    assert (Hu1 : unclaimed aid s1) by (intros i q; rewrite HQ1; apply Hu).
    split; [by apply (lifecycle_unclaimed None aid)|]. split; [done..|]. rewrite HQ1. intros i q Hq Hcl.
    split; [done|]. by eapply Hu.
Qed.

(** *** Sweeps *)

Definition due (now : Z) (s : Store) (aid : string) : Prop :=
  ∃ row, st_attempts s !! aid = Some row ∧ attemptActive row = true ∧ leaseOver now row = true.

(** What expiring every attempt of [ids] does to the three tables. *)
Record swept (ids : list string) (now : Z) (s s' : Store) : Prop := {
  sw_attempts i : st_attempts s' !! i =
    if bool_decide (i ∈ ids) then onAttempt (expiredAttempt now) <$> st_attempts s !! i else st_attempts s !! i;
  sw_reservations i r : st_reservations s' !! i = Some r → reservationActive r = true →
    st_reservations s !! i = Some r ∧ rr_AttemptID r ∉ ids;
  sw_claims i q : st_requests s' !! i = Some q → requestClaimed q = true →
    st_requests s !! i = Some q ∧ ∀ id, id ∈ ids → rq_ActiveAttemptID q ≠ Some id;
}.

Lemma swept_nil now s : swept [] now s s.
Proof. split; [done|..]; intros i r ? ?; (split; [done|]); [apply not_elem_of_nil|by intros id ?%elem_of_nil]. Qed.

Lemma swept_cons id ids now s s1 s' row :
  st_attempts s !! id = Some row → id ∉ ids →
  ended id (onAttempt (expiredAttempt now) row) ReservationReleaseReasonExpired now s s1 →
  swept ids now s1 s' → swept (id :: ids) now s s'.
Proof.
  intros Hrow Hnin [HA HR HQ] [SA SR SQ]. split.
  - intros i. rewrite SA, HA. destruct (decide (i = id)) as [->|Hne].
    + rewrite bool_decide_eq_false_2 by done. rewrite bool_decide_eq_true_2 by left.
      by rewrite lookup_insert_eq, Hrow.
    + rewrite lookup_insert_ne by done. erewrite bool_decide_ext; [done|]. rewrite elem_of_cons. naive_solver.
  - intros i r Hr Ha. apply SR in Hr as [Hr Hn]; [|done]. rewrite HR in Hr.
    apply releaseOwned_active in Hr as [Hr Hne]; [|done]. split; [done|]. rewrite elem_of_cons. naive_solver.
  - intros i q Hq Hcl. apply SQ in Hq as [Hq Hn]; [|done]. apply HQ in Hq as [Hq Hne]; [|done].
    split; [done|]. intros j. rewrite elem_of_cons. intros [->|Hj]; auto.
Qed.

Lemma due_after id ids now s s1 row :
  NoDup (id :: ids) → ended id row ReservationReleaseReasonExpired now s s1 →
  Forall (due now s) (id :: ids) → Forall (due now s1) ids.
Proof.
  intros Hnd [HA _ _] Hdue. apply NoDup_cons in Hnd as [Hn _]. apply Forall_cons in Hdue as [_ Hdue].
  rewrite Forall_forall in Hdue |- *. intros j Hj. destruct (Hdue j Hj) as (r & Hr & Had).
  exists r. rewrite HA, lookup_insert_ne; [done|]. intros ->. done.
Qed.

Lemma swept_not_due ids now s s' aid : swept ids now s s' → due now s' aid → due now s aid ∧ aid ∉ ids.
Proof.
  intros Hsw (row & Hrow & Ha & Hd). rewrite (sw_attempts _ _ _ _ Hsw) in Hrow. case_bool_decide as Hin.
  - destruct (st_attempts s !! aid); [|done]. injection Hrow as <-. done.
  - split; [by exists row|done].
Qed.

Lemma expireAttemptsForIssue_sweep now ids : ∀ s,
  lifecycle_ok s → NoDup ids → Forall (due now s) ids →
  ∃ s', for_each (λ id,
      expired ← expireAttempt id now;
      raise_if negb expired with expiryDisagreed "the sweep's own select and expireAttempt's guard" ;;
      mret tt) ids s = Ok (tt, s') ∧ lifecycle_ok s' ∧ swept ids now s s'.
Proof.
  induction ids as [|id ids IH]; intros s Hl Hnd Hdue; [exists s; by eauto using swept_nil|].
  pose proof Hdue as ((row & Hrow & Ha & Hd) & _)%Forall_cons.
  destruct (expireAttempt_run s id row now Hl Hrow Ha Hd) as (s1 & Hrun & Hl1 & He).
  destruct (IH s1 Hl1) as (s' & Hrun' & Hl' & Hsw); [by apply NoDup_cons in Hnd as [_ ?]|by eapply due_after|].
  exists s'. split; [|split; [done|eapply swept_cons; [done| |done..]; by apply NoDup_cons in Hnd as [? _]]].
  cbn [for_each]. unfold mbind at 1, Tx_bind at 1. unfold mbind at 1, Tx_bind at 1. rewrite Hrun. exact Hrun'.
Qed.

Lemma select_due (p : AttemptRow → bool) now s :
  schema_ok s → (∀ row, p row = true → attemptActive row = true ∧ leaseOver now row = true) →
  let ids := map row_id (select p s) in
  NoDup ids ∧ Forall (due now s) ids ∧
  ∀ id row, st_attempts s !! id = Some row → p row = true → id ∈ ids.
Proof.
  intros Hs Hp ids. destruct (ok_attempts _ Hs) as [Hk _]. split_and!.
  - exact (select_nodup_ids (R := AttemptRow) p s Hk).
  - apply Forall_forall. intros id (row & -> & (Hpr & i & Hi)%elem_of_select)%list_elem_of_fmap.
    cbn in Hi. pose proof (Hk _ _ Hi) as He. exists row. rewrite He. split; [done|]. by apply Hp.
  - intros id row Hrow Hpr. apply list_elem_of_fmap. exists row. split; [symmetry; exact (Hk _ _ Hrow)|].
    apply elem_of_select. cbn. eauto.
Qed.

(** The lazy sweep of one issue succeeds and leaves no due attempt of it. *)
Lemma expireAttemptsForIssue_run issueID now s :
  lifecycle_ok s →
  ∃ s' ids, expireAttemptsForIssue issueID now s = Ok (tt, s') ∧ lifecycle_ok s' ∧ swept ids now s s' ∧
    Forall (due now s) ids ∧
    ∀ id row, st_attempts s' !! id = Some row → ar_IssueID row = issueID → attemptActive row = true →
      leaseOver now row = false.
Proof.
  intros Hl. set (p := λ row, (ar_IssueID row =s issueID) && attemptActive row && leaseOver now row).
  destruct (select_due p now s) as (Hnd & Hdue & Hall); [apply Hl|unfold p; intros row ?; by conj_hyps|].
  destruct (expireAttemptsForIssue_sweep now _ s Hl Hnd Hdue) as (s' & Hrun & Hl' & Hsw).
  exists s', (map row_id (select p s)). split; [exact Hrun|]. split_and!; try done.
  intros id row Hrow Hi Ha. apply not_true_iff_false. intros Hd.
  destruct (swept_not_due _ _ _ _ id Hsw) as [(r & Hr & Har & Hdr) Hn]; [by exists row|].
  apply Hn. rewrite (sw_attempts _ _ _ _ Hsw) in Hrow. rewrite bool_decide_eq_false_2 in Hrow by done.
  apply (Hall _ r); [done|]. assert (r = row) as -> by congruence. unfold p. rewrite Hi, eqb_string_refl, Ha.
  done.
Qed.

Lemma lifecycle_pres_expireAttemptsForIssue issueID now : preserves lifecycle_ok (expireAttemptsForIssue issueID now).
Proof.
  intros s u s' Hl Hrun. destruct (expireAttemptsForIssue_run issueID now s Hl) as (s1 & ids & Hrun1 & Hl1 & _).
  congruence.
Qed.

Lemma lifecycle_pres_authenticate aid hash now kind :
  preserves lifecycle_ok (authenticateActiveAttempt aid hash now kind).
Proof. unfold authenticateActiveAttempt. pres; apply lifecycle_pres_expireAttempt. Qed.
End runs.
#[export] Hint Resolve lifecycle_pres_expireAttempt lifecycle_pres_expireAttemptsForIssue
  lifecycle_pres_authenticate : pres.

(** ** Steps that keep the invariant *)

Section steps.
Context `{UnicodeTables, ULID, SQLiteDriver, Misused}.

(** The attempt is active, of this kind and on this issue. *)
Definition holding (aid kind issueID : string) (s : Store) : Prop :=
  lifecycle_ok s ∧ ∃ a, st_attempts s !! aid = Some a ∧ attemptActive a = true ∧ ar_Kind a = kind ∧ ar_IssueID a = issueID.

Lemma holding_frame {A} aid kind issueID (m : Tx A) :
  preserves schema_ok m → frame m → preserves (holding aid kind issueID) m.
Proof.
  intros Hm Hf s a s' [Hl Ha] Hrun. split; [by eapply lifecycle_frame|].
  by rewrite (frame_attempts m s a s' Hf Hrun).
Qed.

Lemma authenticate_Some aid hash now kind s issueID k s' :
  authenticateActiveAttempt aid hash now kind s = Ok (Some (issueID, k), s') →
  s' = s ∧ ∃ row, st_attempts s !! aid = Some row ∧ attemptActive row = true ∧ leaseOver now row = false ∧
    ar_LeaseTokenHash row = hash ∧ ar_IssueID row = issueID ∧ ar_Kind row = k ∧
    match kind with Some kind => k = kind | None => True end.
Proof.
  unfold authenticateActiveAttempt. intros Hrun. inv_tx_step Hrun. inv_tx_step Hstep.
  destruct (st_attempts s !! aid) as [row|]; [|done]. inv_tx_step Hrun. destruct (leaseOver now row) eqn:Hd.
  - inv_tx_step Hrun. inv_tx_step Hrun. by inv_tx_step Hrun.
  - inv_tx_step Hrun. inv_tx_step Hrun. apply tx_ret_Ok in Hrun as [[= -> ->] ->]. split; [done|]. exists row.
    rewrite negb_false_iff in *. rewrite eqb_string_true in *. split_and!; try done. destruct kind; [|done].
    match goal with Hk : negb _ = false |- _ => by apply negb_false_iff, eqb_string_true in Hk end.
Qed.

Lemma lifecycle_authenticated aid hash now kind s issueID k s' :
  lifecycle_ok s → authenticateActiveAttempt aid hash now kind s = Ok (Some (issueID, k), s') →
  s' = s ∧ holding aid k issueID s ∧ match kind with Some kind => k = kind | None => True end.
Proof.
  intros Hl (-> & row & Hrow & Ha & _ & _ & Hi & Hk & Hkind)%authenticate_Some. split_and!; [done| |done].
  split; [done|]. by exists row.
Qed.

(** A new active attempt. *)
Lemma lifecycle_Insert_attempt row s u s' :
  lifecycle_ok s → attemptActive row = true → Insert row s = Ok (u, s') →
  holding (wa_ID (ar_Attempt row)) (ar_Kind row) (ar_IssueID row) s'.
Proof.
  intros [Hs Ho Hc Hd Hdis] Ha (Hnew & Hcon & ->)%Insert_Ok.
  split; [|exists row; cbn; by rewrite lookup_insert_eq].
  split; [exact (schema_set_table (R := AttemptRow) s _ row Hs eq_refl Hcon)| | |done|done].
  - intros i r Hi Hr Hne Hm. destruct (Ho i r Hi Hr Hne Hm) as (a & Hat & ?). exists a. split; [|done].
    cbn. rewrite lookup_insert_ne; [done|]. intros He. cbn in Hnew. congruence.
  - intros i q aid Hq Hcl Hact Hne. destruct (Hc i q aid Hq Hcl Hact Hne) as (a & Hat & ?). exists a. split; [|done].
    cbn. rewrite lookup_insert_ne; [done|]. intros He. cbn in Hnew. congruence.
Qed.

(** An update of columns the invariant does not mention. *)
Lemma lifecycle_Update_attempt aid p (f : AttemptRow → AttemptRow) :
  (∀ r, wa_ID (ar_Attempt (f r)) = wa_ID (ar_Attempt r) ∧ ar_Status (f r) = ar_Status r ∧
        ar_Kind (f r) = ar_Kind r ∧ ar_IssueID (f r) = ar_IssueID r) →
  preserves lifecycle_ok (Update aid p f).
Proof.
  intros Hf s n s' Hl Hrun. pose proof Hrun as [(row & Hrow & _ & Hcon & _ & ->)|(_ & _ & ->)]%Update_Ok; [|done].
  destruct Hl as [Hs Ho Hc Hd Hdis]. destruct (Hf row) as (Hid & Hst & Hk & Hi).
  assert (Hkeep : ∀ id kind issueID,
    (∃ a, st_attempts s !! id = Some a ∧ attemptActive a = true ∧ ar_Kind a = kind ∧ ar_IssueID a = issueID) →
    ∃ a, <[aid := f row]> (st_attempts s) !! id = Some a ∧ attemptActive a = true ∧ ar_Kind a = kind ∧
      ar_IssueID a = issueID).
  { intros id kind issueID (a & Hat & Ha & Hak & Hai). destruct (decide (aid = id)) as [->|Hne].
    - exists (f row). rewrite lookup_insert_eq. cbn in Hrow. assert (a = row) as -> by congruence.
      unfold attemptActive in *. rewrite Hst, Hk, Hi. done.
    - exists a. by rewrite lookup_insert_ne. }
  split; [|intros i r Hr Ha Hne Hm; cbn; eauto|intros i q id Hq Hcl Hact Hne; cbn; eauto|done|done].
  apply (schema_set_table (R := AttemptRow) s aid (f row) Hs); [|done].
  cbn. rewrite Hid. exact (proj1 (ok_attempts _ Hs) _ _ Hrow).
Qed.

Lemma lifecycle_updateReleased reason now id version : preserves lifecycle_ok (updateReleased reason now id version).
Proof.
  intros s n s' Hl Hrun. pose proof (schema_pres_updateReleased _ _ _ _ _ _ _ (lc_schema _ _ _ Hl) Hrun) as Hs'.
  apply Update_Ok in Hrun as [(row & Hrow & _ & _ & _ & ->)|(_ & _ & ->)]; [|done].
  destruct Hl as [Hs Ho Hc Hd Hdis].
  assert (Hsub : ∀ i r, <[id := releasedRow reason now row]> (st_reservations s) !! i = Some r →
    reservationActive r = true → st_reservations s !! i = Some r).
  { intros i r. destruct (decide (id = i)) as [->|Hne]; [|by rewrite lookup_insert_ne].
    rewrite lookup_insert_eq. by intros [= <-]. }
  destruct (disjoint_sub _ _ Hsub Hd Hdis) as [Hd' Hdis'].
  split; [done| |done|done|done]. intros i r Hi Ha Hne Hm. eapply Ho; [by apply Hsub|done..].
Qed.

Lemma lifecycle_releaseRows scan aid sessionID reason now rows :
  preserves lifecycle_ok (releaseRows scan aid sessionID reason now rows).
Proof.
  induction rows as [|row rows IH]; cbn [releaseRows]; [pres|]. apply preserves_bind; [apply lifecycle_updateReleased|].
  pres.
Qed.

(** A request leaves the claimed state. *)
Lemma lifecycle_Update_request id p status resolvedAt :
  (status =s ReviewRequestStatusClaimed) = false →
  preserves lifecycle_ok (Update id p (transitionRequest status None resolvedAt)).
Proof.
  intros Hst s n s' Hl Hrun.
  assert (Hs' : schema_ok s') by (by eapply schema_pres_Update_request; [| |exact Hrun]; [|apply Hl]).
  apply Update_Ok in Hrun as [(q & Hq & _ & _ & _ & ->)|(_ & _ & ->)]; [|done].
  destruct Hl as [Hs Ho Hc Hd Hdis]. split; [done|done| |done|done].
  intros i r aid Hr Hcl Hact Hne. cbn in Hr. destruct (decide (id = i)) as [->|Hni].
  - rewrite lookup_insert_eq in Hr. injection Hr as <-. done.
  - rewrite lookup_insert_ne in Hr by done. by eapply Hc.
Qed.

(** New reservations, of the active work attempt or of a misused one. *)
Lemma schema_pres_insertReservations prepared resources issueID aid sessionID now :
  preserves schema_ok (insertReservations prepared resources issueID aid sessionID now).
Proof. induction prepared as [|c prepared IH]; cbn [insertReservations]; [pres|]. cbv zeta. pres.
  all: apply schema_pres_Insert. Qed.

Lemma lifecycle_acquire prepared resources issueID aid sessionID now :
  prepared_ok prepared →
  ∀ s out s', lifecycle_ok s → (misused aid = true ∨ holding aid AttemptKindWork issueID s) →
    acquireReservationsForAttempt prepared resources issueID aid sessionID now s = Ok (out, s') →
    lifecycle_ok s' ∧ st_attempts s' = st_attempts s.
Proof.
  intros Hp s out s' Hl Howner Hrun. pose proof Hl as [Hs Ho Hc Hd Hdis].
  destruct (acquire_disjoint _ _ _ _ _ _ _ _ _ Hp Hd Hdis Hrun) as [Hd' Hdis'].
  apply acquire_Ok in Hrun as (_ & Hins).
  pose proof (schema_pres_insertReservations _ _ _ _ _ _ _ _ _ Hs Hins) as Hs'.
  apply insertReservations_Ok in Hins as (Hfresh & _ & ->).
  assert (Hat : st_attempts (append_all (map (reservedEvent resources issueID aid sessionID now) prepared)
    (set_reservations (insertRows resources issueID aid now prepared (st_reservations s)) s)) = st_attempts s)
    by by rewrite append_all_frame.
  split; [|by rewrite Hat]. split; [done| | |done|done]; rewrite Hat.
  - intros i r. rewrite append_all_frame by done. cbn.
    intros [(c & _ & _ & ->)|Hi]%insertRows_lookup Hr Hne Hm; [|by eapply Ho|done].
    cbn in Hm |- *. destruct Howner as [?|[_ ?]]; [congruence|done].
  - intros i q id. rewrite append_all_frame by done. cbn. apply Hc.
Qed.

Lemma holding_acquire prepared resources issueID aid sessionID now :
  prepared_ok prepared →
  preserves (holding aid AttemptKindWork issueID)
    (acquireReservationsForAttempt prepared resources issueID aid sessionID now).
Proof.
  intros Hp s out s' Hh Hrun. destruct Hh as [Hl Ha].
  destruct (lifecycle_acquire prepared resources issueID aid sessionID now Hp s out s' Hl) as [Hl' Hat]; [by right|done|]. split; [done|by rewrite Hat].
Qed.

(** A request of the issue is claimed by its review attempt. *)
Lemma lifecycle_claim q aid p s n s' :
  holding aid AttemptKindReview (rq_IssueID q) s → st_requests s !! rq_ID q = Some q →
  Update (rq_ID q) p (transitionRequest ReviewRequestStatusClaimed (Some aid) None) s = Ok (n, s') → lifecycle_ok s'.
Proof.
  intros [Hl Ha] Hq Hrun.
  assert (Hs' : schema_ok s') by (by eapply schema_pres_Update_request; [| |exact Hrun]; [|apply Hl]).
  apply Update_Ok in Hrun as [(r & Hr & _ & _ & _ & ->)|(_ & _ & ->)]; [|done].
  cbn in Hr. assert (r = q) as -> by congruence.
  destruct Hl as [Hs Ho Hc Hd Hdis]. split; [done|done| |done|done].
  intros k r id Hk Hcl Hact Hne. cbn in Hk. destruct (decide (rq_ID q = k)) as [<-|Hni].
  - rewrite lookup_insert_eq in Hk. injection Hk as <-. by injection Hact as <-.
  - rewrite lookup_insert_ne in Hk by done. by eapply Hc.
Qed.

Lemma openRequestFor_Some issueID s q :
  schema_ok s → openRequestFor issueID s = Some q → st_requests s !! rq_ID q = Some q ∧ rq_IssueID q = issueID.
Proof.
  intros Hs Hq. apply head_Some_elem_of in Hq.
  rewrite elem_of_stable_sort, list_elem_of_In, filter_In, <-list_elem_of_In in Hq.
  destruct Hq as [(j & Hj)%elem_of_rows Hqi]. cbn in Hj. apply andb_true_iff in Hqi as [Hqi%eqb_string_true _].
  pose proof (proj1 (ok_requests _ Hs) _ _ Hj) as He. cbn in He. split; [congruence|done].
Qed.

Lemma reads_reviewTargetStale issueID version event : reads (reviewTargetStale issueID version event).
Proof.
  intros s b s'. unfold reviewTargetStale. destruct (st_issues s !! issueID); [|done]. by intros [= _ <-].
Qed.

Lemma lifecycle_bind issueID aid now s u s' :
  holding aid AttemptKindReview issueID s → bindOpenReviewRequestForAttempt issueID aid now s = Ok (u, s') →
  lifecycle_ok s'.
Proof.
  intros Hh. unfold bindOpenReviewRequestForAttempt. intros Hrun. inv_tx_step Hrun. apply query_Ok in Hstep as [-> ->].
  destruct (openRequestFor issueID s) as [q|] eqn:Hq; [|by apply tx_ret_Ok in Hrun as [_ ->]; apply Hh].
  apply openRequestFor_Some in Hq as [Hq <-]; [|apply Hh].
  inv_tx_step Hrun. apply reads_reviewTargetStale in Hstep as ->.
  destruct a; [by apply tx_ret_Ok in Hrun as [_ ->]; apply Hh|]. inv_tx_step Hrun. inv_tx_step Hrun.
  revert Hrun. apply (lifecycle_frame None None); [solve [eauto with pres]..|]. by eapply lifecycle_claim.
Qed.

Lemma schema_pres_Insert_request (row : ReviewRequest) : preserves schema_ok (Insert row).
Proof. apply schema_pres_Insert. Qed.

(** A new request is not claimed. *)
Lemma lifecycle_Insert_request row : requestClaimed row = false → preserves lifecycle_ok (Insert row).
Proof.
  intros Hcl s u s' Hl Hrun. pose proof (schema_pres_Insert_request _ _ _ _ (lc_schema _ _ _ Hl) Hrun) as Hs'.
  apply Insert_Ok in Hrun as (_ & _ & ->). destruct Hl as [Hs Ho Hc Hd Hdis]. split; [done|done| |done|done].
  intros i q aid Hq Hclq Hact Hne. cbn in Hq. destruct (decide (rq_ID row = i)) as [<-|Hni].
  - rewrite lookup_insert_eq in Hq. injection Hq as <-. congruence.
  - rewrite lookup_insert_ne in Hq by done. by eapply Hc.
Qed.
End steps.
#[export] Hint Resolve lifecycle_Update_attempt lifecycle_updateReleased lifecycle_releaseRows
  lifecycle_Update_request schema_pres_insertReservations reads_reviewTargetStale : pres.

(** ** What a termination does to the attempts *)

#[export] Hint Unfold appendReviewEvent appendAttemptCancelledEvent updateReleased insertReviewApprovals
  resolveReviewRequestForAttempt supersedeReviewRequestForAttempt : keep.

Section attempts_after.
Context `{UnicodeTables, ULID, SQLiteDriver, Misused} {X : Type} (f : Store → X) (x : X).

Lemma keep_releaseRows scan aid sessionID reason now rows :
  (∀ m s, f (set_reservations m s) = f s) → (∀ e s, f (append_draft e s) = f s) →
  preserves (keeping f x) (releaseRows scan aid sessionID reason now rows).
Proof.
  intros Hr He. induction rows as [|row rows IH]; cbn [releaseRows]; [eauto with pres|].
  apply preserves_bind; [by apply keep_Update|intros n]. destruct (negb _); [eauto with pres|].
  apply preserves_bind; [|intros _; apply preserves_bind; eauto with pres].
  unfold appendIssueEvent. apply preserves_bind; [by apply keep_appendEvent|eauto with pres].
Qed.

Lemma keep_releaseReservations aid reason now :
  (∀ m s, f (set_reservations m s) = f s) → (∀ e s, f (append_draft e s) = f s) →
  preserves (keeping f x) (releaseReservationsForAttempt aid reason now).
Proof.
  intros Hr He. unfold releaseReservationsForAttempt. apply preserves_bind; [eauto with pres|intros rows].
  apply preserves_bind; [by apply keep_releaseRows|eauto with pres].
Qed.

Lemma keep_releaseClaimed aid now :
  (∀ m s, f (set_requests m s) = f s) → (∀ e s, f (append_draft e s) = f s) →
  preserves (keeping f x) (releaseClaimedReviewRequest aid now).
Proof.
  intros Hq He. unfold releaseClaimedReviewRequest. apply preserves_bind; [eauto with pres|].
  intros [q|]; [|eauto with pres]. apply preserves_bind; [eauto with pres|]. intros stale. cbv zeta.
  apply preserves_bind; [by apply keep_Update|intros n]. destruct (negb _); [eauto with pres|].
  unfold appendReviewEvent. apply preserves_bind; [by apply keep_appendEvent|eauto with pres].
Qed.

Lemma keep_terminate aid status reason now :
  (∀ m s, f (set_attempts m s) = f s) → (∀ m s, f (set_reservations m s) = f s) →
  (∀ m s, f (set_requests m s) = f s) → (∀ e s, f (append_draft e s) = f s) →
  preserves (keeping f x) (terminateAttempt aid status reason now).
Proof.
  intros Ha Hr Hq He. unfold terminateAttempt. apply preserves_bind; [by apply keep_Update|intros n].
  destruct (n =? 0)%Z; [eauto with pres|].
  apply preserves_bind; [by apply keep_releaseReservations|intros _].
  destruct (negb _); [eauto with pres|]. apply preserves_bind; [by apply keep_releaseClaimed|eauto with pres].
Qed.
End attempts_after.

Lemma keep_newReviewApprovalID {X} (f : Store → X) x :
  (∀ m s, f (set_entropy m s) = f s) → preserves (keeping f x) newReviewApprovalID.
Proof.
  intros Hf s u s' Hx. unfold newReviewApprovalID. destruct (st_entropy s); [done|]. intros [= _ <-].
  unfold keeping. by rewrite Hf.
Qed.
Lemma keep_insertApproval `{SQLiteDriver} {X} (f : Store → X) x a :
  (∀ m s, f (set_approvals m s) = f s) → preserves (keeping f x) (insertApproval a).
Proof.
  intros Hf s u s' Hx. unfold insertApproval. destruct (approval_constraint s a); [|done]. intros [= _ <-].
  unfold keeping. by rewrite Hf.
Qed.
#[export] Hint Extern 2 (preserves (keeping _ _) newReviewApprovalID) =>
  (apply keep_newReviewApprovalID; intros; reflexivity) : pres.
#[export] Hint Extern 2 (preserves (keeping _ _) (insertApproval _)) =>
  (apply keep_insertApproval; intros; reflexivity) : pres.

Lemma terminateAttempt_attempts `{UnicodeTables, ULID, SQLiteDriver} aid status reason now s s' :
  terminateAttempt aid status reason now s = Ok (true, s') →
  ∃ row, st_attempts s !! aid = Some row ∧ attemptActive row = true ∧
    st_attempts s' = <[aid := terminated status reason now row]> (st_attempts s).
Proof.
  intros Hrun. unfold terminateAttempt in Hrun. inv_tx_step Hrun.
  apply Update_Ok in Hstep as [(row & Hrow & Ha & _ & -> & ->)|(_ & -> & ->)];
    [|cbn in Hrun; by apply tx_ret_Ok in Hrun as [? _]].
  exists row. split_and!; [done|done|]. cbn [Z.eqb Pos.eqb] in Hrun. inv_tx_step Hrun.
  apply (kept st_attempts) in Hstep; [|intros x; by apply keep_releaseReservations].
  change (st_attempts s0 = <[aid := terminated status reason now row]> (st_attempts s)) in Hstep. rewrite <-Hstep.
  destruct (negb _); [by apply tx_ret_Ok in Hrun as [_ ->]|]. inv_tx_step Hrun. apply tx_ret_Ok in Hrun as [_ ->].
  eapply kept; [|exact Hstep0]. intros x. by apply keep_releaseClaimed.
Qed.

Lemma terminateAttempt_released `{UnicodeTables, ULID, SQLiteDriver} aid status reason now s s' :
  keyed (st_reservations s) → terminateAttempt aid status reason now s = Ok (true, s') → ∀ i q,
  st_reservations s' !! i = Some q → reservationActive q = true → rr_AttemptID q ≠ aid.
Proof.
  intros Hk Hrun. unfold terminateAttempt in Hrun. inv_tx_step Hrun.
  assert (Hk0 : keyed (st_reservations s0)).
  { replace (st_reservations s0) with (st_reservations s); [done|]. symmetry.
    eapply kept; [|exact Hstep]. intros x. by apply keep_Update. }
  destruct (a =? 0)%Z; [by apply tx_ret_Ok in Hrun as [? _]|]. inv_tx_step Hrun. intros i q Hq.
  apply (releaseReservationsForAttempt_active _ _ _ _ _ _ Hk0 Hstep0 i q). rewrite <-Hq. f_equal. symmetry.
  destruct (negb _); [by apply tx_ret_Ok in Hrun as [_ ->]|]. inv_tx_step Hrun. apply tx_ret_Ok in Hrun as [_ ->].
  eapply kept; [|exact Hstep1]. intros x. by apply keep_releaseClaimed.
Qed.

(** ** Requests that leave the claimed state *)

Section unclaiming.
Context `{UnicodeTables, ULID, SQLiteDriver, Misused}.

Lemma unclaimed_frame {A} aid (m : Tx A) s a s' : frame m → unclaimed aid s → m s = Ok (a, s') → unclaimed aid s'.
Proof.
  intros Hf Hu Hrun.
  destruct (Hf (st_attempts s) (st_reservations s) (st_requests s) s a s') as (_ & _ & HQ); [done..|].
  intros i q. rewrite HQ. apply Hu.
Qed.

(** A claimed request of the attempt leaves the claimed state: none is left. *)
Lemma Update_unclaims aid q status resolvedAt s n s' :
  schema_ok s → loadActiveReviewRequestForAttempt aid s = Some q → (status =s ReviewRequestStatusClaimed) = false →
  Update (rq_ID q) (claimedBy aid) (transitionRequest status None resolvedAt) s = Ok (n, s') →
  n = 1%Z ∧ unclaimed aid s'.
Proof.
  intros Hs Hq Hst Hrun. apply loadActive_Some in Hq as [Hq Hcl]; [|done].
  apply claimedBy_true in Hcl as [Hclaim Hact].
  apply Update_Ok in Hrun as [(r & Hr & _ & _ & -> & ->)|(Hn & _ & _)].
  2:{ specialize (Hn q Hq). by rewrite (proj2 (claimedBy_true aid q)) in Hn. }
  split; [done|]. intros i r' Hr' Hcl Hact'. cbn in Hr'. destruct (decide (rq_ID q = i)) as [<-|Hne].
  - rewrite lookup_insert_eq in Hr'. injection Hr' as <-. unfold requestClaimed in Hcl. cbn in Hcl. congruence.
  - rewrite lookup_insert_ne in Hr' by done. apply Hne. by apply (claimed_unique s (rq_ID q) i q r' aid).
Qed.

Lemma loadActive_None_unclaimed aid s : loadActiveReviewRequestForAttempt aid s = None → unclaimed aid s.
Proof.
  intros Hn i q Hq Hcl Hact. pose proof (loadActive_None _ _ _ _ Hn Hq) as Hf.
  by rewrite (proj2 (claimedBy_true aid q)) in Hf.
Qed.

(** A work attempt never holds a review request. *)
Lemma work_unclaimed aid row s :
  lifecycle_ok s → st_attempts s !! aid = Some row → ar_Kind row ≠ AttemptKindReview → unclaimed aid s.
Proof.
  intros Hl Hrow Hk i q Hq Hcl Hact. destruct (lc_claim _ _ _ Hl i q aid Hq Hcl Hact) as (a & Ha & _ & Hka & _); [done|].
  congruence.
Qed.

Lemma frame_insertReviewApprovals request aid now : frame (insertReviewApprovals request aid now).
Proof. intros A R Q. unfold insertReviewApprovals. apply preserves_for_each. intros p. pres. Qed.
Lemma schema_pres_insertReviewApprovals request aid now : preserves schema_ok (insertReviewApprovals request aid now).
Proof. unfold insertReviewApprovals. apply preserves_for_each. intros p. pres. Qed.

Lemma resolve_lifecycle q aid now outcome reason s u s' :
  lifecycle_ok s → loadActiveReviewRequestForAttempt aid s = Some q →
  resolveReviewRequestForAttempt q aid now outcome reason s = Ok (u, s') →
  lifecycle_ok s' ∧ unclaimed aid s'.
Proof.
  intros Hl Hq Hrun. unfold resolveReviewRequestForAttempt in Hrun. inv_tx_step Hrun. inv_tx_step Hstep.
  assert (Hst : (reviewRequestStatusForOutcome outcome =s ReviewRequestStatusClaimed) = false).
  { unfold reviewRequestStatusForOutcome. repeat case_match; reflexivity. }
  pose proof (lifecycle_Update_request _ _ _ _ Hst _ _ _ Hl Hstep) as Hl0.
  apply Update_unclaims in Hstep as [_ Hu]; [|apply Hl|done..]. inv_tx_step Hrun.
  match type of Hrun with ?m _ = _ => assert (Hf : frame m ∧ preserves schema_ok m) end.
  { split; [intros A0 R0 Q0|]; pres;
      first [apply frame_Insert|apply frame_insertReviewApprovals|apply schema_pres_Insert
            |apply schema_pres_insertReviewApprovals]. }
  destruct Hf as [Hf Hs]. split; [|by eapply unclaimed_frame].
  by eapply (lifecycle_frame None None).
Qed.

Lemma terminateAttempt_pres aid status reason now s b s' :
  ReservationReleaseReason_Valid (tr_ReservationReleaseReason reason) = true →
  terminalStatusAbandonsReviewClaim status = true ∨ unclaimed aid s →
  lifecycle_ok s → terminateAttempt aid status reason now s = Ok (b, s') → lifecycle_ok s'.
Proof.
  intros Hr Hc Hl Hrun. unfold terminateAttempt in Hrun. inv_tx_step Hrun.
  apply Update_Ok in Hstep as [(row & Hrow & Ha & Hcon & -> & ->)|(_ & -> & ->)]; [|cbn in Hrun; by apply tx_ret_Ok in Hrun as [_ ->]].
  assert (Hid : wa_ID (ar_Attempt row) = aid) by exact (proj1 (ok_attempts _ (lc_schema _ _ _ Hl)) _ _ Hrow).
  destruct (end_and_release s aid (terminated status reason now row) _ now Hl Hid Hcon Hr)
    as (s1 & Hrel & Hl1 & HA1 & HR1 & HQ1).
  cbn [Z.eqb Pos.eqb] in Hrun. inv_tx_step Hrun. 
  change (releaseReservationsForAttempt aid (tr_ReservationReleaseReason reason) now
    (set_attempts (<[aid:=terminated status reason now row]> (st_attempts s)) s) = Ok (a, s0)) in Hstep.
  rewrite Hrel in Hstep. injection Hstep as <- <-.
  destruct (terminalStatusAbandonsReviewClaim status); cbn [negb] in Hrun.
  - assert (Hfk : fk (st_attempts s1) aid = true) by (rewrite HA1; apply fk_true; rewrite lookup_insert_eq; by eexists).
    destruct (lifecycle_unclaim None aid now s1 Hl1 Hfk) as (s2 & Hun & Hl2 & _).
    inv_tx_step Hrun. rewrite Hun in Hstep. injection Hstep as <- <-. by apply tx_ret_Ok in Hrun as [_ ->].
  - destruct Hc as [?|Hu]; [done|]. apply tx_ret_Ok in Hrun as [_ ->].
    apply (lifecycle_unclaimed None aid); [done|]. intros i q. rewrite HQ1. apply Hu.
Qed.
End unclaiming.
#[export] Hint Resolve frame_insertReviewApprovals schema_pres_insertReviewApprovals : pres.
