(* ===== verification/ReviewOps.v ===== *)
(** * The review repository

    [internal/adapters/sqlite/reviews.go]: creating, reading, cancelling,
    replacing, claiming and resolving review requests.  A review target is
    frozen together with the approvals its issue's policies require; a request
    is never born stale, a stale request is never handed to a reviewer, and
    cancelling a claimed request ends the review attempt bound to it. *)

From S2P Require Import Prelude GoStrings Errors Validation Samples Issue Relation Session IssueOps.
From S2P Require Import Discussion Resource Attempt Gates.
From S2P Require Import Store Schema ReservationStore GateStore ReviewStore Termination.

Definition replaceReviewRequestOperation := "replace_review_request".

(** ** Commands ([internal/ports/reviews.go]) *)

Record CreateReviewRequestCommand := mkCreateReview {
  crr_RequestID : string;
  crr_TargetID : string;
  crr_IssueID : string;
  crr_TargetIssueVersion : Z;
  crr_TargetEventID : Z;
  crr_ArtifactIDs : list string;
  crr_Purposes : list string;
  crr_SupersedesID : option string;
  crr_OccurredAt : Z;
}.

Record ReviewMutationCommand := mkReviewMutation {
  rm_RequestID : string;
  rm_ExpectedVersion : Z;
  rm_OccurredAt : Z;
  rm_ActiveAttemptID : option string;
}.

(** The request and its target: the result of creation, of a read and of a
    mutation. *)
Record ReviewMutationResult := mkReviewResult { rr_Request : ReviewRequest; rr_Target : ReviewTarget }.

Record GetReviewRequestResult := mkGetReview { gr_Result : ReviewMutationResult; gr_TargetStale : bool }.

Record ResolveReviewRequestCommand := mkResolveReview {
  rvc_RequestID : string;
  rvc_ExpectedVersion : Z;
  rvc_OutcomeID : string;
  rvc_OccurredAt : Z;
  rvc_ResolvingAttemptID : string;
  rvc_Outcome : string;
  rvc_Reason : option string;
}.
Record ResolveReviewRequestResult := mkResolveResult { re_Result : ReviewMutationResult; re_Outcome : ReviewOutcomeRecord }.

Record ReplaceReviewRequestCommand := mkReplaceReview {
  rpc_PredecessorRequestID : string;
  rpc_PredecessorExpectedVersion : Z;
  rpc_SuccessorID : string;
  rpc_SuccessorTargetID : string;
  rpc_NewIssueVersion : Z;
  rpc_NewEventID : Z;
  rpc_ArtifactIDs : list string;
  rpc_Purposes : list string;
  rpc_OccurredAt : Z;
  rpc_IdempotencyKey : string;
  rpc_RequestHash : string;
}.

Definition reviewInvalid (message : string) : DomainError := NewError CodeInvalidArgument message false [].
Definition reviewVersionConflict : DomainError :=
  NewError CodeVersionConflict "review request version conflict" true [].
Definition reviewAlreadyExists : DomainError :=
  NewError CodeReviewAlreadyExists "review request already exists for target" false [].

Section reviews.
Context `{UnicodeTables, ULID, SnapshotHash, SQLiteDriver, Misused}.

(** ** Loading *)

Definition loadActiveRequestForIssueVersion (issueID : string) (issueVersion : Z) (s : Store) : option ReviewRequest :=
  head (select (λ r, (rq_IssueID r =s issueID) && (rq_TargetIssueVersion r =? issueVersion)%Z && requestUnresolved r) s).

(** The LEFT JOIN finds the target: [target_id] is a foreign key. *)
Definition loadRequestForMutation (requestID : string) : Tx (ReviewRequest * ReviewTarget) := λ s,
  match st_requests s !! requestID with
  | None => Err (NewError CodeIssueNotFound "review request not found" false [])
  | Some request =>
      match st_targets s !! rq_TargetID request with
      | Some target => Ok ((request, target), s)
      | None => Err sqlNoRows
      end
  end.

(** ** Targets *)

Definition freezeReviewTargetGateSnapshot (targetID issueID : string) (issueVersion now : Z) : Tx unit :=
  issue ← loadIssueForMutation (internalIdentifier issueID);
  policies ← lift_query loadActiveWorkflowPolicies;
  let matched := MatchWorkflowPolicies policies (i_Type issue) (labelNames (i_Labels issue)) in
  let sourcePolicies := matchingSourcePolicies policies (i_Type issue) (labelNames (i_Labels issue)) in
  let requirements := List.filter (λ q, q_Kind q =s RequirementKindReviewApproval) matched in
  insertReviewTargetGateSnapshot targetID (NewGateSnapshot requirements sourcePolicies issueVersion now).

Definition ensureTarget (targetID issueID : string) (issueVersion eventID : Z) (artifactIDs purposes : list string)
    (now : Z) : Tx ReviewTarget :=
  let target := mkReviewTarget targetID issueID issueVersion eventID artifactIDs purposes 1 now in
  run Insert target ;;
  run freezeReviewTargetGateSnapshot targetID issueID issueVersion now ;;
  mret target.

Definition requireFreshTarget (issueID : string) (issueVersion eventID : Z) : Tx unit :=
  future ← query (reviewTargetFuture eventID);
  raise_if (future : bool) with staleReviewTargetError ;;
  stale ← reviewTargetStale issueID issueVersion eventID;
  raise_if (stale : bool) with staleReviewTargetError ;;
  mret tt.

(** ** Creating *)

Definition newRequest (id targetID issueID : string) (issueVersion eventID : Z) (artifactIDs purposes : list string)
    (supersedes : option string) (now : Z) : ReviewRequest :=
  mkReviewRequest id issueID targetID issueVersion eventID artifactIDs purposes ReviewRequestStatusOpen supersedes
    None 1 now None.

Definition sameRequest (active : ReviewRequest) (command : CreateReviewRequestCommand) (purposes : list string) : bool :=
  bool_decide (rq_ArtifactIDs active = crr_ArtifactIDs command) &&
  optEq (rq_SupersedesID active) (crr_SupersedesID command) &&
  (rq_TargetIssueVersion active =? crr_TargetIssueVersion command)%Z &&
  (rq_TargetEventID active =? crr_TargetEventID command)%Z && (rq_IssueID active =s crr_IssueID command) &&
  bool_decide (rq_Purposes active = purposes).

Definition validateCreateReview (command : CreateReviewRequestCommand) : result (list string) :=
  fail_if blank (crr_RequestID command) with reviewInvalid "request_id is required" ;;
  fail_if negb (ids_ParseStrict (crr_RequestID command)) with reviewInvalid "request_id is invalid" ;;
  fail_if blank (crr_TargetID command) with reviewInvalid "target_id is required" ;;
  fail_if negb (ids_ParseStrict (crr_TargetID command)) with reviewInvalid "target_id is invalid" ;;
  fail_if blank (crr_IssueID command) with reviewInvalid "issue_id is required" ;;
  fail_if (crr_TargetIssueVersion command <? 1)%Z with reviewInvalid "target_issue_version must be >= 1" ;;
  fail_if (crr_TargetEventID command <? 0)%Z with reviewInvalid "target_event_id must be >= 0" ;;
  ValidateReviewPurposes (crr_Purposes command).

Definition createReviewTx (command : CreateReviewRequestCommand) (purposes : list string) : Tx (result ReviewMutationResult) :=
  let issueID := crr_IssueID command in
  let version := crr_TargetIssueVersion command in
  let eventID := crr_TargetEventID command in
  let now := crr_OccurredAt command in
  found ← query (loadActiveRequestForIssueVersion issueID version);
  match found with
  | Some active =>
      raise_if negb (sameRequest active command purposes) with reviewAlreadyExists ;;
      loaded ← loadRequestForMutation (rq_ID active);
      mret (Ok (mkReviewResult active loaded.2))
  | None =>
      target ← ensureTarget (crr_TargetID command) issueID version eventID (crr_ArtifactIDs command) purposes now;
      run requireFreshTarget issueID version eventID ;;
      run requireReviewPurposeCoverage (rt_ID target) purposes ;;
      let request := newRequest (crr_RequestID command) (rt_ID target) issueID version eventID
                       (crr_ArtifactIDs command) purposes (crr_SupersedesID command) now in
      run Insert request ;;
      run appendReviewEvent issueID "review_requested" None (PReview (rq_ID request) (rt_ID target) None None None) now ;;
      mret (Ok (mkReviewResult request target))
  end.

Definition CreateReviewRequest (command : CreateReviewRequestCommand) (s : Store) : result ReviewMutationResult * Store :=
  match validateCreateReview command with
  | Err e => (Err e, s)
  | Ok purposes => Write (createReviewTx command purposes) s
  end.

Definition GetReviewRequest (requestID : string) (s : Store) : result GetReviewRequestResult :=
  '(loaded, _) ← loadRequestForMutation requestID s;
  let request := loaded.1 in
  '(stale, _) ← reviewTargetStale (rq_IssueID request) (rq_TargetIssueVersion request) (rq_TargetEventID request) s;
  Ok (mkGetReview (mkReviewResult request loaded.2) stale).

(** ** Cancelling *)

Definition whereVersion (version : Z) (r : ReviewRequest) : bool := (rq_Version r =? version)%Z.

Definition CancelReviewRequest (command : ReviewMutationCommand) (s : Store) : result ReviewMutationResult * Store :=
  let now := rm_OccurredAt command in
  Write (
    loaded ← loadRequestForMutation (rm_RequestID command);
    let request := loaded.1 in
    raise_if negb (rq_Version request =? rm_ExpectedVersion command)%Z with reviewVersionConflict ;;
    raise_if negb (requestUnresolved request) with reviewInvalid "review request cannot be cancelled" ;;
    let cancelled := transitionRequest ReviewRequestStatusCancelled None (Some now) in
    run Update (rq_ID request) (whereVersion (rq_Version request)) cancelled ;;
    terminated ← (match rq_ActiveAttemptID request with
                  | Some attemptID =>
                      ended ← terminateAttempt attemptID AttemptStatusCancelled
                                (mkReason None None ReservationReleaseReasonForceReleased) now;
                      mret (if ended : bool then Some attemptID else None)
                  | None => mret None
                  end);
    run appendReviewEvent (rq_IssueID request) "review_cancelled" terminated
          (PReview (rq_ID request) (rq_TargetID request) terminated None None) now ;;
    run (match terminated with
         | Some attemptID => appendAttemptCancelledEvent (rq_IssueID request) attemptID now
         | None => mret tt
         end) ;;
    mret (Ok (mkReviewResult (cancelled request) loaded.2))) s.

(** ** Replacing *)

Definition validateReplaceReview (command : ReplaceReviewRequestCommand) : result unit :=
  fail_if blank (rpc_SuccessorID command) with reviewInvalid "successor_id is required" ;;
  fail_if negb (ids_ParseStrict (rpc_SuccessorID command)) with reviewInvalid "successor_id is invalid" ;;
  fail_if blank (rpc_SuccessorTargetID command) with reviewInvalid "successor_target_id is required" ;;
  fail_if negb (ids_ParseStrict (rpc_SuccessorTargetID command)) with reviewInvalid "successor_target_id is invalid" ;;
  Ok tt.

Definition replaceReviewTx (command : ReplaceReviewRequestCommand) : Tx (result ReplaceReviewRequestResult) :=
  let version := rpc_NewIssueVersion command in
  let eventID := rpc_NewEventID command in
  let now := rpc_OccurredAt command in
  loaded ← loadRequestForMutation (rpc_PredecessorRequestID command);
  let predecessor := loaded.1 in
  let issueID := rq_IssueID predecessor in
  raise_if negb (rq_Version predecessor =? rpc_PredecessorExpectedVersion command)%Z with reviewVersionConflict ;;
  raise_if requestClaimed predecessor
    with NewError CodeReviewRequestClaimed
           "review request is claimed; finish or interrupt the active attempt before replacing it" false [] ;;
  raise_if negb (requestOpen predecessor)
    with NewError CodeReviewRequestNotReplaceable "review request cannot be replaced" false [] ;;
  run requireFreshTarget issueID version eventID ;;
  let purposes := if null (rpc_Purposes command) then rq_Purposes predecessor else rpc_Purposes command in
  active ← query (loadActiveRequestForIssueVersion issueID version);
  raise_if match active with Some r => negb (rq_ID r =s rq_ID predecessor) | None => false end with reviewAlreadyExists ;;
  target ← ensureTarget (rpc_SuccessorTargetID command) issueID version eventID (rpc_ArtifactIDs command) purposes now;
  run requireReviewPurposeCoverage (rt_ID target) purposes ;;
  let superseded := transitionRequest ReviewRequestStatusSuperseded None (Some now) in
  run Update (rq_ID predecessor) (whereVersion (rq_Version predecessor)) superseded ;;
  let successor := newRequest (rpc_SuccessorID command) (rt_ID target) issueID version eventID
                     (rpc_ArtifactIDs command) purposes (Some (rq_ID predecessor)) now in
  run Insert successor ;;
  run appendReviewEvent issueID "review_superseded" None
        (PReplaceReview (rq_ID predecessor) (rq_TargetID predecessor) (Some (rq_ID successor)) None) now ;;
  run appendReviewEvent issueID "review_requested" None
        (PReplaceReview (rq_ID successor) (rt_ID target) None (Some (rq_ID predecessor))) now ;;
  latest ← query latestEventID;
  let response := mkReplaceResult (superseded predecessor) successor target latest in
  run storeIdempotency replaceReviewRequestOperation (rpc_IdempotencyKey command) (rpc_RequestHash command)
        (RReplace response) now ;;
  mret (Ok response).

Definition ReplaceReviewRequest (command : ReplaceReviewRequestCommand) (s : Store) :
    result ReplaceReviewRequestResult * Store :=
  match validateReplaceReview command with
  | Err e => (Err e, s)
  | Ok _ =>
      Write (
        saved ← lookupIdempotency replaceReviewRequestOperation (rpc_IdempotencyKey command) (rpc_RequestHash command);
        match saved with
        | Some (RReplace response) => mret (Ok response)
        | Some _ => fail corruptResponse
        | None => replaceReviewTx command
        end) s
  end.

(** ** Claiming *)

(** The attempt that claims: active, a review, of the issue, with a live lease. *)
Definition checkReviewAttempt (attemptID issueID : string) (now : Z) (s : Store) : result unit :=
  match st_attempts s !! attemptID with
  | None => Err (NewError CodeAttemptNotFound "review attempt not found" false [])
  | Some row =>
      fail_if negb (attemptActive row) with NewError CodeAttemptNotActive "review attempt is not active" false [] ;;
      fail_if negb (ar_Kind row =s AttemptKindReview) with reviewInvalid "attempt is not a review attempt" ;;
      fail_if negb (ar_IssueID row =s issueID)
        with reviewInvalid "attempt does not belong to the review request issue" ;;
      fail_if leaseOver now row with NewError CodeLeaseExpired "review attempt lease has expired" false [] ;;
      Ok tt
  end.

Definition claimReviewTx (command : ReviewMutationCommand) (attemptID : string) : Tx (result ReviewMutationResult) :=
  let now := rm_OccurredAt command in
  loaded ← loadRequestForMutation (rm_RequestID command);
  let request := loaded.1 in
  raise_if negb (rq_Version request =? rm_ExpectedVersion command)%Z with reviewVersionConflict ;;
  raise_if negb (requestOpen request) with reviewInvalid "review request cannot be claimed" ;;
  stale ← reviewTargetStale (rq_IssueID request) (rq_TargetIssueVersion request) (rq_TargetEventID request);
  if stale : bool then
    run supersedeOpenReviewRequest request now ;;
    mret (Err staleReviewTargetError)
  else
    run lift_query (checkReviewAttempt attemptID (rq_IssueID request) now) ;;
    assigned ← query (exists_row (λ r, optEq (rq_ActiveAttemptID r) (Some attemptID) &&
                                       negb (rq_ID r =s rq_ID request) && requestUnresolved r));
    raise_if (assigned : bool)
      with NewError CodeActiveAttemptExists "review attempt is already assigned to another review request" false [] ;;
    let claimed := transitionRequest ReviewRequestStatusClaimed (Some attemptID) None in
    run Update (rq_ID request) (whereVersion (rq_Version request)) claimed ;;
    run appendReviewEvent (rq_IssueID request) "review_claimed" (Some attemptID)
          (PReview (rq_ID request) (rq_TargetID request) (Some attemptID) None None) now ;;
    mret (Ok (mkReviewResult (claimed request) loaded.2)).

Definition ClaimReviewRequest (command : ReviewMutationCommand) (s : Store) : result ReviewMutationResult * Store :=
  match rm_ActiveAttemptID command with
  | Some attemptID =>
      if blank attemptID then (Err (reviewInvalid "active_attempt_id is required"), s)
      else Write (claimReviewTx command attemptID) s
  | None => (Err (reviewInvalid "active_attempt_id is required"), s)
  end.

(** ** Resolving *)

Definition ResolveReviewRequest (command : ResolveReviewRequestCommand) (s : Store) :
    result ResolveReviewRequestResult * Store :=
  let now := rvc_OccurredAt command in
  let attemptID := rvc_ResolvingAttemptID command in
  let outcome := rvc_Outcome command in
  if blank (rvc_OutcomeID command) then (Err (reviewInvalid "outcome_id is required"), s)
  else if negb (ids_ParseStrict (rvc_OutcomeID command)) then (Err (reviewInvalid "outcome_id is invalid"), s)
  else if attemptID =s "" then (Err (reviewInvalid "attempt_id is required"), s)
  else if negb (ReviewOutcome_Valid outcome) then (Err (reviewInvalid "review outcome is invalid"), s)
  else
    Write (
      loaded ← loadRequestForMutation (rvc_RequestID command);
      let request := loaded.1 in
      raise_if negb (rq_Version request =? rvc_ExpectedVersion command)%Z with reviewVersionConflict ;;
      raise_if negb (requestClaimed request) with reviewInvalid "review request cannot be resolved" ;;
      raise_if negb (optEq (rq_ActiveAttemptID request) (Some attemptID))
        with reviewInvalid "attempt_id does not match the active review attempt" ;;
      let resolved := transitionRequest (reviewRequestStatusForOutcome outcome) None (Some now) in
      let record := mkReviewOutcomeRecord (rvc_OutcomeID command) (rq_ID request) attemptID outcome (rvc_Reason command) 1 now in
      run Update (rq_ID request) (whereVersion (rq_Version request)) resolved ;;
      run Insert record ;;
      run appendReviewEvent (rq_IssueID request) (reviewEventTypeForOutcome outcome) (Some attemptID)
            (PReview (rq_ID request) (rq_TargetID request) (Some attemptID) (Some outcome) (rvc_Reason command)) now ;;
      mret (Ok (mkResolveResult (mkReviewResult (resolved request) loaded.2) record))) s.
End reviews.

(** ** The operations keep the lifecycle invariant *)

Section preservation.
Context `{UnicodeTables, ULID, SnapshotHash, SQLiteDriver, Misused}.

Lemma reads_loadRequestForMutation id : reads (loadRequestForMutation id).
Proof.
  intros s r s'. unfold loadRequestForMutation. destruct (st_requests s !! id); [|done].
  destruct (st_targets s !! _); [|done]. by intros [= _ <-].
Qed.

Lemma loadRequest_Some id s r s' :
  schema_ok s → loadRequestForMutation id s = Ok (r, s') →
  s' = s ∧ st_requests s !! rq_ID r.1 = Some r.1 ∧ st_targets s !! rq_TargetID r.1 = Some r.2.
Proof.
  intros Hs. unfold loadRequestForMutation. destruct (st_requests s !! id) as [q|] eqn:Hq; [|done].
  destruct (st_targets s !! rq_TargetID q) as [t|] eqn:Ht; [|done]. intros [= <- <-]. split_and!; [done| |done].
  pose proof (proj1 (ok_requests _ Hs) _ _ Hq) as He. cbn in He |- *. congruence.
Qed.

Lemma frame_insertReviewTargetGateSnapshot id snapshot : frame (insertReviewTargetGateSnapshot id snapshot).
Proof. intros A0 R Q s u s' Ht [_ ->]%insertReviewTargetGateSnapshot_Ok. done. Qed.
Lemma schema_pres_insertReviewTargetGateSnapshot id snapshot :
  preserves schema_ok (insertReviewTargetGateSnapshot id snapshot).
Proof. intros s u s' Hs [_ ->]%insertReviewTargetGateSnapshot_Ok. apply (schema_same s); [by split|apply Hs|done]. Qed.

Lemma frame_freeze tid iid v now : frame (freezeReviewTargetGateSnapshot tid iid v now).
Proof. intros A0 R Q. unfold freezeReviewTargetGateSnapshot. pres. by apply frame_insertReviewTargetGateSnapshot. Qed.
Lemma schema_pres_freeze tid iid v now : preserves schema_ok (freezeReviewTargetGateSnapshot tid iid v now).
Proof. unfold freezeReviewTargetGateSnapshot. pres. apply schema_pres_insertReviewTargetGateSnapshot. Qed.

Lemma frame_ensureTarget tid iid v e arts ps now : frame (ensureTarget tid iid v e arts ps now).
Proof.
  intros A0 R Q. unfold ensureTarget. cbv zeta. apply preserves_bind; [apply (frame_Insert _ _ _ _)|intros _].
  apply preserves_bind; [apply (frame_freeze _ _ _ _ _ _ _)|intros _]. pres.
Qed.
Lemma schema_pres_ensureTarget tid iid v e arts ps now : preserves schema_ok (ensureTarget tid iid v e arts ps now).
Proof.
  unfold ensureTarget. cbv zeta. apply preserves_bind; [apply schema_pres_Insert|intros _].
  apply preserves_bind; [apply schema_pres_freeze|intros _]. pres.
Qed.
Lemma lifecycle_ensureTarget tid iid v e arts ps now : preserves lifecycle_ok (ensureTarget tid iid v e arts ps now).
Proof. apply lifecycle_frame; [apply schema_pres_ensureTarget|apply frame_ensureTarget]. Qed.

Lemma reads_requireFreshTarget i v e : reads (requireFreshTarget i v e).
Proof.
  intros s u s' Hrun. unfold requireFreshTarget in Hrun. inv_tx_step Hrun. apply query_Ok in Hstep as [_ ->].
  inv_tx_step Hrun. inv_tx_step Hrun. apply reads_reviewTargetStale in Hstep as ->. inv_tx_step Hrun.
  by apply tx_ret_Ok in Hrun as [_ ->].
Qed.
Lemma reads_requireReviewPurposeCoverage tid ps : reads (requireReviewPurposeCoverage tid ps).
Proof. intros s u s' Hrun. unfold requireReviewPurposeCoverage in Hrun. by apply lift_Ok in Hrun as [_ ->]. Qed.

Lemma CreateReviewRequest_lifecycle command s : lifecycle_ok s → lifecycle_ok (CreateReviewRequest command s).2.
Proof.
  intros Hl. unfold CreateReviewRequest. destruct (validateCreateReview command) as [purposes|]; [|done].
  apply (preserves_Write lifecycle_ok); [|done]. unfold createReviewTx. cbv zeta.
  apply preserves_bind; [eauto with pres|]. intros [active|].
  - pres. all: apply reads_preserves, reads_loadRequestForMutation.
  - apply preserves_bind; [apply lifecycle_ensureTarget|intros target].
    apply preserves_bind; [apply reads_preserves, reads_requireFreshTarget|intros _].
    apply preserves_bind; [apply reads_preserves, reads_requireReviewPurposeCoverage|intros _].
    apply preserves_bind; [by apply lifecycle_Insert_request|intros _]. pres.
Qed.

Lemma CancelReviewRequest_lifecycle command s : lifecycle_ok s → lifecycle_ok (CancelReviewRequest command s).2.
Proof.
  intros Hl. unfold CancelReviewRequest. cbv zeta. apply (preserves_Write lifecycle_ok); [|done]. clear s Hl.
  intros s r s' Hl Hrun. inv_tx_step Hrun. apply loadRequest_Some in Hstep as (-> & Hq & _); [|apply Hl].
  inv_tx_step Hrun. inv_tx_step Hrun. inv_tx_step Hrun.
  pose proof (lifecycle_Update_request _ _ ReviewRequestStatusCancelled _ eq_refl _ _ _ Hl Hstep) as Hl0.
  inv_tx_step Hrun.
  assert (Hl1 : lifecycle_ok s1).
  { destruct (rq_ActiveAttemptID a.1) as [aid|] eqn:Haid; [|by apply tx_ret_Ok in Hstep0 as [_ ->]].
    inv_tx_step Hstep0. apply tx_ret_Ok in Hstep0 as [_ ->].
    eapply (terminateAttempt_pres aid); [| |exact Hl0|exact Hstep1]; [done|]. right.
    apply Update_Ok in Hstep as [(q & Hq' & _ & _ & _ & ->)|(Hn & _ & _)].
    2:{ specialize (Hn _ Hq). unfold whereVersion in Hn. by rewrite Z.eqb_refl in Hn. }
    intros i r' Hr' Hcl Hact. cbn in Hr', Hq'. destruct (decide (rq_ID a.1 = i)) as [<-|Hne].
    - rewrite lookup_insert_eq in Hr'. injection Hr' as <-. done.
    - rewrite lookup_insert_ne in Hr' by done. apply Hne. by apply (claimed_unique s (rq_ID a.1) i a.1 r' aid); [apply Hl|..]. }
  revert Hrun. apply (lifecycle_frame None None); [| |done].
  - unfold appendAttemptCancelledEvent. pres.
  - intros A0 R Q. unfold appendAttemptCancelledEvent. pres.
Qed.

Lemma replaceReviewTx_lifecycle command : preserves lifecycle_ok (replaceReviewTx command).
Proof.
  unfold replaceReviewTx. cbv zeta. apply preserves_bind; [apply reads_preserves, reads_loadRequestForMutation|intros loaded].
  do 3 (match goal with |- preserves _ (if ?b then _ else _) => destruct b; [apply preserves_fail|] end).
  apply preserves_bind; [apply reads_preserves, reads_requireFreshTarget|intros _].
  apply preserves_bind; [apply preserves_query|intros active].
  match goal with |- preserves _ (if ?b then _ else _) => destruct b; [apply preserves_fail|] end.
  apply preserves_bind; [apply lifecycle_ensureTarget|intros target].
  apply preserves_bind; [apply reads_preserves, reads_requireReviewPurposeCoverage|intros _].
  apply preserves_bind; [by apply lifecycle_Update_request|intros _].
  apply preserves_bind; [by apply lifecycle_Insert_request|intros _]. pres.
Qed.

Lemma ReplaceReviewRequest_lifecycle command s : lifecycle_ok s → lifecycle_ok (ReplaceReviewRequest command s).2.
Proof.
  intros Hl. unfold ReplaceReviewRequest. destruct (validateReplaceReview command); [|done].
  apply (preserves_Write lifecycle_ok); [|done]. apply preserves_bind; [eauto with pres|].
  intros [[]|]; try apply replaceReviewTx_lifecycle; eauto with pres.
Qed.

Lemma checkReviewAttempt_Ok aid issueID now s :
  checkReviewAttempt aid issueID now s = Ok tt ↔
  ∃ row, st_attempts s !! aid = Some row ∧ attemptActive row = true ∧ ar_Kind row = AttemptKindReview ∧
    ar_IssueID row = issueID ∧ leaseOver now row = false.
Proof.
  unfold checkReviewAttempt. destruct (st_attempts s !! aid) as [row|]; [|naive_solver].
  rewrite !fail_if_Ok, !negb_false_iff, !eqb_string_true. naive_solver.
Qed.

Lemma supersedeOpen_lifecycle request now : preserves lifecycle_ok (supersedeOpenReviewRequest request now).
Proof.
  unfold supersedeOpenReviewRequest. apply preserves_bind; [by apply lifecycle_Update_request|]. intros n. pres.
Qed.

Lemma claimReviewTx_lifecycle command aid : preserves lifecycle_ok (claimReviewTx command aid).
Proof.
  intros s r s' Hl Hrun. unfold claimReviewTx in Hrun. cbv zeta in Hrun. inv_tx_step Hrun.
  apply loadRequest_Some in Hstep as (-> & Hq & _); [|apply Hl]. inv_tx_step Hrun. inv_tx_step Hrun.
  inv_tx_step Hrun. apply reads_reviewTargetStale in Hstep as ->. destruct a0.
  - inv_tx_step Hrun. apply supersedeOpen_lifecycle in Hstep; [|done]. by apply tx_ret_Ok in Hrun as [_ ->].
  - inv_tx_step Hrun. apply lift_query_Ok in Hstep as [Hcheck ->]. destruct a0.
    apply checkReviewAttempt_Ok in Hcheck. inv_tx_step Hrun. apply query_Ok in Hstep as [_ ->]. inv_tx_step Hrun.
    inv_tx_step Hrun. apply lifecycle_claim in Hstep; [| |done].
    2:{ split; [done|]. destruct Hcheck as (row & ? & ? & ? & ? & _). by exists row. }
    revert Hrun. apply (lifecycle_frame None None); [| |done]; [pres|intros A0 R Q; pres].
Qed.

Lemma ClaimReviewRequest_lifecycle command s : lifecycle_ok s → lifecycle_ok (ClaimReviewRequest command s).2.
Proof.
  intros Hl. unfold ClaimReviewRequest. destruct (rm_ActiveAttemptID command) as [aid|]; [|done].
  destruct (blank aid); [done|]. apply (preserves_Write lifecycle_ok); [apply claimReviewTx_lifecycle|done].
Qed.

Lemma ResolveReviewRequest_lifecycle command s : lifecycle_ok s → lifecycle_ok (ResolveReviewRequest command s).2.
Proof.
  intros Hl. unfold ResolveReviewRequest. cbv zeta. do 4 (case_match; [done|]).
  apply (preserves_Write lifecycle_ok); [|done].
  apply preserves_bind; [apply reads_preserves, reads_loadRequestForMutation|intros loaded].
  do 3 (match goal with |- preserves _ (if ?b then _ else _) => destruct b; [apply preserves_fail|] end).
  apply preserves_bind.
  { apply lifecycle_Update_request. unfold reviewRequestStatusForOutcome. repeat case_match; reflexivity. }
  intros _. apply lifecycle_frame; [|intros A0 R Q]; pres;
    first [apply schema_pres_Insert|apply (frame_Insert _ _ _ _)].
Qed.
End preservation.
