(* ===== verification/AttemptStore.v ===== *)
(** * The attempt repository

    [internal/adapters/sqlite/attempts.go]: claiming an issue, renewing a
    lease, the expiry sweep, notes, reservations of an attempt, finishing and
    force-releasing it.  Each operation validates its command, runs one write
    transaction and reports what the transaction found; the errors that are
    reported after a commit (a lease that was found expired, a review target
    that was found stale) are the inner [result] of the transaction.

    Commands are those of [internal/ports/attempts.go].  A SHA-256 digest is
    the string of its bytes.  Instants are UTC, so [Location] tests hold. *)

From S2P Require Import Prelude GoStrings Errors Validation Samples Issue Relation Session IssueOps.
From S2P Require Import Discussion Resource Attempt.
From S2P Require Import AttemptPolicy Gates Store Schema ReservationStore GateStore ReviewStore Termination.

Definition claimIssueOperation := "claim_issue".
Definition finishAttemptOperation := "finish_attempt".
Definition saveAttemptNoteOperation := "save_attempt_note".
Definition reserveResourcesOperation := "reserve_resources".
Definition releaseResourcesOperation := "release_resources".

(** ** Commands *)

Record ClaimIssueCommand := mkClaimCommand {
  cc_Identifier : IssueIdentifier;
  cc_AttemptID : string;
  cc_SessionID : option string;
  cc_TokenHash : string;
  cc_LeaseToken : string;
  cc_LeaseDuration : Z;
  cc_OccurredAt : Z;
  cc_Resources : list ReservationResourceInput;
  cc_IdempotencyKey : string;
  cc_RequestHash : string;
}.

Record RenewAttemptCommand := mkRenewCommand {
  rn_AttemptID : string;
  rn_SessionID : option string;
  rn_TokenHash : string;
  rn_LeaseDuration : Z;
  rn_OccurredAt : Z;
}.
Record RenewAttemptResult := mkRenewResult { rn_LeaseExpiresAt : Z; rn_ServerTime : Z }.

Record SaveAttemptNoteCommand := mkNoteCommand {
  nc_NoteID : string;
  nc_AttemptID : string;
  nc_SessionID : option string;
  nc_TokenHash : string;
  nc_Kind : string;
  nc_Content : string;
  nc_NextSteps : list string;
  nc_Important : bool;
  nc_Artifacts : list Artifact;
  nc_OccurredAt : Z;
  nc_IdempotencyKey : string;
  nc_RequestHash : string;
}.

Record FinishAttemptCommand := mkFinishCommand {
  fc_AttemptID : string;
  fc_SessionID : option string;
  fc_TokenHash : string;
  fc_Input : FinishAttemptInput;
  fc_Artifacts : list Artifact;
  fc_IdempotencyKey : string;
  fc_RequestHash : string;
  fc_OccurredAt : Z;
}.

Record ForceReleaseAttemptCommand := mkForceRelease { fo_AttemptID : string; fo_OccurredAt : Z }.
Record ForceReleaseAttemptResult := mkForceResult { fo_Attempt : WorkAttempt; fo_LatestEventID : Z }.

Record ReserveResourcesCommand := mkReserveCommand {
  rs_AttemptID : string;
  rs_SessionID : option string;
  rs_TokenHash : string;
  rs_Resources : list ReservationResourceInput;
  rs_OccurredAt : Z;
  rs_IdempotencyKey : string;
  rs_RequestHash : string;
}.

Record ReleaseResourcesCommand := mkReleaseCommand {
  rl_AttemptID : string;
  rl_SessionID : option string;
  rl_TokenHash : string;
  rl_ReservationIDs : list string;
  rl_OccurredAt : Z;
  rl_IdempotencyKey : string;
  rl_RequestHash : string;
}.

(** ** Row updates *)

Definition setLease (tokenHash : option string) (expires : Z) (heartbeat : option Z) (row : AttemptRow) : AttemptRow :=
  let a := ar_Attempt row in
  mkAttemptRow
    (mkWorkAttempt (wa_ID a) (wa_IssueID a) (wa_SessionID a) (wa_AgentLabel a) (wa_Kind a) (wa_Status a)
       (wa_IssueVersionAtStart a) (wa_ContextEventIDAtStart a) expires (wa_StartedAt a)
       (default (wa_LastHeartbeatAt a) heartbeat) (wa_FinishedAt a) (wa_ResultSummary a) (wa_NextSteps a)
       (wa_Verification a) (wa_FailureReasonCode a) (wa_InterruptionReasonCode a) (wa_ReasonDetails a))
    (default (ar_LeaseTokenHash row) tokenHash).

(** The second update of [FinishAttempt]: what the agent reported. *)
Definition setReport (input : FinishAttemptInput) (row : AttemptRow) : AttemptRow :=
  let a := ar_Attempt row in
  mkAttemptRow
    (mkWorkAttempt (wa_ID a) (wa_IssueID a) (wa_SessionID a) (wa_AgentLabel a) (wa_Kind a) (wa_Status a)
       (wa_IssueVersionAtStart a) (wa_ContextEventIDAtStart a) (wa_LeaseExpiresAt a) (wa_StartedAt a)
       (wa_LastHeartbeatAt a) (wa_FinishedAt a) (Some (fi_ResultSummary input)) (fi_NextSteps input)
       (fi_Verification input) (wa_FailureReasonCode a) (wa_InterruptionReasonCode a) (fi_ReasonDetails input))
    (ar_LeaseTokenHash row).

(** [UPDATE issues SET status, blocked_reason, version + 1, updated_at, closed_at]. *)
Definition setOutcome (target : string) (blockedReason : option string) (now : Z) (closedAt : option Z) (i : Issue) : Issue :=
  mkIssue (i_ID i) (i_DisplayID i) (i_SequenceNo i) (i_Type i) (i_Title i) (i_Description i)
    (i_AcceptanceCriteria i) target (i_Priority i) (i_ParentID i) blockedReason (i_Version i + 1)
    (i_CreatedBySessionID i) (i_CreatedAt i) now closedAt (i_ArchivedAt i) (i_ArchivedBySessionID i) (i_Labels i).

Definition nullableString (v : string) : option string := if v =s "" then None else Some v.

(** [completionIssueChanges]: the fields that changed since the attempt began. *)
Definition corruptPayload : DomainError :=
  NewError CodeStorageCorrupt "stored issue event payload is invalid" false [].
Definition issueArchived : DomainError := NewError CodeIssueArchived "issue is archived" false [].

Fixpoint collectChangedFields (events : list Event) : result (list string) :=
  match events with
  | [] => Ok []
  | e :: rest =>
      if e_Type e =s "issue_archived" then Err issueArchived
      else if negb ((e_Type e =s "issue_updated") || (e_Type e =s "status_changed") || (e_Type e =s "labels_changed"))
      then collectChangedFields rest
      else match payloadChangedFields (e_Payload e) with
           | Some changedFields =>
               all ← collectChangedFields rest; Ok (changedFields ++ all)
           | _ => Err corruptPayload
           end
  end.

Definition completionIssueChanges (issueID : string) (startID : Z) (s : Store) : result (list string * list string) :=
  changed ← collectChangedFields (List.filter (eventAfter issueID startID) (st_events s));
  Ok (ClassifyIssueChanges changed).

(** [ClaimIssue]: the row, the gate's evidence and the response. *)
Definition claimedRow (command : ClaimIssueCommand) (issue : Issue) (kind : string) (latestEventID : Z) : AttemptRow :=
  mkAttemptRow
    (mkWorkAttempt (cc_AttemptID command) (i_ID issue) (cc_SessionID command) None kind AttemptStatusActive
       (i_Version issue) latestEventID (cc_OccurredAt command + cc_LeaseDuration command) (cc_OccurredAt command)
       (cc_OccurredAt command) None None [] [] None None None)
    (cc_TokenHash command).

Definition dropToken (r : ClaimIssueResult) : ClaimIssueResult :=
  mkClaimResult (cr_Issue r) (cr_Projection r) (cr_Attempt r) (cr_Reservations r) "".

Definition replayNotActive : DomainError :=
  NewError CodeAttemptNotActive "claimed attempt is no longer active; the original claim response was not retained"
    false [mkDetail None "attempt_id" "NOT_ACTIVE" ""].
Definition activeAttemptExists : DomainError :=
  NewError CodeActiveAttemptExists "issue has an active work attempt" false [].
Definition invalidCommand (name : string) : DomainError :=
  NewError CodeInvalidArgument (name +:+ " command is invalid") false [].

(** An operation that found its lease expired commits and reports that. *)
Definition onLease {A} (auth : option (string * string)) (k : string * string → Tx (result A)) : Tx (result A) :=
  match auth with
  | None => mret (Err leaseExpiredError)
  | Some owner => k owner
  end.

Definition asNote (r : Response) : option SaveAttemptNoteResult := match r with RNote r => Some r | _ => None end.

Section attempts.
Context `{UnicodeTables, ULID, JSONCodec, URLParser, SnapshotHash, SQLiteDriver, Misused}.

Definition validAttemptSessionID (v : option string) : bool :=
  match v with None => true | Some v => ids_ParseStrict v && (len v =? 26)%Z end.
Definition validAttempt (sessionID : option string) (attemptID tokenHash : string) : bool :=
  validAttemptSessionID sessionID && ids_ParseStrict attemptID && (len tokenHash =? 32)%Z.

(** ** Claiming *)

Definition rotateLease (command : ClaimIssueCommand) (r : ClaimIssueResult) : ClaimIssueResult :=
  mkClaimResult (cr_Issue r) (cr_Projection r)
    (ar_Attempt (setLease None (cc_OccurredAt command + cc_LeaseDuration command) None (mkAttemptRow (cr_Attempt r) "")))
    (cr_Reservations r) (cc_LeaseToken command).

Definition replayClaim (command : ClaimIssueCommand) (saved : ClaimIssueResult) : Tx (result ClaimIssueResult) :=
  let now := cc_OccurredAt command in
  let id := wa_ID (cr_Attempt saved) in
  found ← query (λ s, st_attempts s !! id);
  match found with
  | None => fail (WrapError "sql: no rows in result set" CodeStorageCorrupt
                    "idempotency record references a missing attempt" false [])
  | Some row =>
      if negb (attemptActive row) then mret (Err replayNotActive)
      else
        expired ← (if leaseOver now row then expireAttempt id now else mret false);
        if expired : bool then mret (Err replayNotActive)
        else
          affected ← Update id attemptActive
            (setLease (Some (cc_TokenHash command)) (now + cc_LeaseDuration command) None);
          if negb (affected =? 1)%Z then mret (Err replayNotActive)
          else mret (Ok (rotateLease command saved))
  end.

(** Any constraint violation counts as another active attempt. *)
Definition insertClaimedAttempt (row : AttemptRow) : Tx unit := λ s,
  match Insert row s with Ok r => Ok r | Err _ => Err activeAttemptExists end.

Definition reviewHoldsNothing : DomainError :=
  NewError CodeInvalidArgument "review attempts cannot hold reservations" false
    [mkDetail None "resources" "REVIEW_ATTEMPT_NOT_ELIGIBLE" ""].

(** The part of a fresh claim that follows the gate: the attempt, its frozen
    requirements, its start event, and its reservations or its review request. *)
Definition startAttempt (command : ClaimIssueCommand) (prepared : list PreparedResource) (issue : Issue) (kind : string)
    (requirements : list PolicyRequirement) (sources : list SourcePolicyRef) (latest : Z) : Tx (list Reservation) :=
  let now := cc_OccurredAt command in
  let attemptID := cc_AttemptID command in
  run insertClaimedAttempt (claimedRow command issue kind latest) ;;
  run insertAttemptGateSnapshot attemptID (NewGateSnapshot requirements sources (i_Version issue) now) ;;
  run appendIssueEvent (i_ID issue) "attempt_started" (cc_SessionID command) (Some attemptID)
        (PAttemptStarted attemptID kind) now ;;
  if kind =s AttemptKindReview then
    raise_if negb (null (cc_Resources command)) with reviewHoldsNothing ;;
    run bindOpenReviewRequestForAttempt (i_ID issue) attemptID now ;;
    mret []
  else if negb (null (cc_Resources command)) then
    acquireReservationsForAttempt prepared (cc_Resources command) (i_ID issue) attemptID (cc_SessionID command) now
  else mret [].

Definition freshClaim (command : ClaimIssueCommand) (prepared : list PreparedResource) : Tx (result ClaimIssueResult) :=
  let now := cc_OccurredAt command in
  issue ← loadIssueForMutation (cc_Identifier command);
  run expireAttemptsForIssue (i_ID issue) now ;;
  blockerCount ← query (unresolvedBlockerCount (i_ID issue));
  active ← query (hasActiveAttempt (i_ID issue));
  kind ← lift (EvaluateClaim issue blockerCount active);
  gate ← evaluateGateAgainstLivePolicies EnforcementPointClaimWork (i_Type issue) (labelNames (i_Labels issue))
           (mkEvidence (acceptanceCriteriaBlank (i_AcceptanceCriteria issue)) ∅ ∅);
  latest ← query latestEventID;
  reservations ← startAttempt command prepared issue kind gate.1 gate.2 latest;
  projection ← queryIssueProjectionByID (i_ID issue) now;
  let response := mkClaimResult issue projection (ar_Attempt (claimedRow command issue kind latest)) reservations
                    (cc_LeaseToken command) in
  run storeIdempotency claimIssueOperation (cc_IdempotencyKey command) (cc_RequestHash command)
        (RClaim (dropToken response)) now ;;
  mret (Ok response).

Definition claimTx (command : ClaimIssueCommand) (prepared : list PreparedResource) : Tx (result ClaimIssueResult) :=
  saved ← lookupIdempotency claimIssueOperation (cc_IdempotencyKey command) (cc_RequestHash command);
  match saved with
  | Some (RClaim response) => replayClaim command response
  | Some _ => fail corruptResponse
  | None => freshClaim command prepared
  end.

Definition ClaimIssue (command : ClaimIssueCommand) (s : Store) : result ClaimIssueResult * Store :=
  if negb (validAttempt (cc_SessionID command) (cc_AttemptID command) (cc_TokenHash command)) ||
     (cc_LeaseDuration command <=? 0)%Z
  then (Err (invalidCommand "attempt claim"), s)
  else match (if negb (null (cc_Resources command)) then prepareInputs (cc_Resources command) else Ok []) with
       | Err e => (Err e, s)
       | Ok prepared => Write (claimTx command prepared) s
       end.

(** ** Renewal and expiry *)

Definition RenewAttempt (command : RenewAttemptCommand) (s : Store) : result RenewAttemptResult * Store :=
  let now := rn_OccurredAt command in
  let expires := (now + rn_LeaseDuration command)%Z in
  if negb (validAttempt (rn_SessionID command) (rn_AttemptID command) (rn_TokenHash command)) ||
     (rn_LeaseDuration command <=? 0)%Z
  then (Err (invalidCommand "attempt renewal"), s)
  else
    Write (
      auth ← authenticateActiveAttempt (rn_AttemptID command) (rn_TokenHash command) now None;
      onLease auth (λ _,
        affected ← Update (rn_AttemptID command) attemptActive (setLease None expires (Some now));
        raise_if negb (affected =? 1)%Z with attemptNotActive ;;
        mret (Ok (mkRenewResult expires now)))) s.

Fixpoint expireEach (attemptIDs : list string) (now : Z) (expiredCount : Z) : Tx Z :=
  match attemptIDs with
  | [] => mret expiredCount
  | id :: rest =>
      expired ← expireAttempt id now;
      expireEach rest now (if expired : bool then expiredCount + 1 else expiredCount)
  end.

Definition dueRow (now : Z) (row : AttemptRow) : bool := attemptActive row && leaseOver now row.

Definition ExpireAttempts (occurredAt : Z) (s : Store) : result Z * Store :=
  if (occurredAt =? time_zero)%Z
  then (Err (NewError CodeInvalidArgument "attempt expiry cleanup command timestamp is required" false []), s)
  else
    Write (
      attemptIDs ← query (λ s, map row_id (select (dueRow occurredAt) s));
      count ← expireEach attemptIDs occurredAt 0;
      mret (Ok count)) s.

(** ** Artifacts and notes *)

Definition validateCommandArtifact (occurredAt : Z) (entry : Z * Artifact) : result ArtifactInput :=
  let '(index, artifact) := entry in
  fail_if negb (ids_ParseStrict (af_ID artifact)) || negb (af_IssueID artifact =s "") ||
          isSet (af_AttemptID artifact) || negb (af_CreatedAt artifact =? occurredAt)%Z
    with NewError CodeInvalidArgument "attempt artifact command is invalid" false
           [mkDetail None ("artifacts[" +:+ Itoa index +:+ "]") "INVALID_VALUE" ""] ;;
  Ok (mkArtifactInput (af_Type artifact) (af_URI artifact) (af_Title artifact) (af_Metadata artifact)).

Definition validateAttemptArtifacts (values : list Artifact) (occurredAt : Z) : result (list Artifact) :=
  fail_if (MaxArtifactsPerAttemptMutation <? Z.of_nat (length values))%Z
    with NewError CodeLimitExceeded "artifacts exceeds the maximum count of 20" false
           [mkDetail None "artifacts" "MAX_ITEMS" "maximum 20"] ;;
  inputs ← collect (validateCommandArtifact occurredAt) (enumerate values);
  normalized ← ValidateArtifactInputs "artifacts" inputs;
  Ok (zip_with (λ artifact input,
        mkArtifact (af_ID artifact) "" None (ai_Type input) (ai_URI input) (ai_Title input) (ai_Metadata input) occurredAt)
      values normalized).

Definition ownedArtifact (issueID attemptID : string) (now : Z) (a : Artifact) : Artifact :=
  mkArtifact (af_ID a) issueID (Some attemptID) (af_Type a) (af_URI a) (af_Title a) (af_Metadata a) now.

Definition SaveAttemptNote (command : SaveAttemptNoteCommand) (s : Store) : result SaveAttemptNoteResult * Store :=
  let now := nc_OccurredAt command in
  let attemptID := nc_AttemptID command in
  let invalid := (Err (invalidCommand "attempt note"), s) in
  if negb (validAttempt (nc_SessionID command) attemptID (nc_TokenHash command)) ||
     negb (ids_ParseStrict (nc_NoteID command)) || negb (AttemptNoteKind_Valid (nc_Kind command))
  then invalid
  else match validateAttemptArtifacts (nc_Artifacts command) now with
  | Err e => (Err e, s)
  | Ok artifacts =>
      Write (replayed saveAttemptNoteOperation (nc_IdempotencyKey command) (nc_RequestHash command) asNote (
        auth ← authenticateActiveAttempt attemptID (nc_TokenHash command) now None;
        onLease auth (λ owner,
          let note := mkAttemptNote (nc_NoteID command) attemptID (nc_Kind command) (nc_Content command)
                        (nc_NextSteps command) (nc_Important command) now in
          let owned := map (ownedArtifact owner.1 attemptID now) artifacts in
          run Insert note ;;
          run for_each Insert owned ;;
          run appendIssueEvent owner.1 (if nc_Kind command =s "checkpoint" then "checkpoint_saved" else "attempt_note_saved")
                (nc_SessionID command) (Some attemptID) (PAttemptNote (nc_NoteID command) (nc_Kind command)) now ;;
          let response := mkNoteResult note owned in
          run storeIdempotency saveAttemptNoteOperation (nc_IdempotencyKey command) (nc_RequestHash command)
                (RNote response) now ;;
          mret (Ok response)))) s
  end.

(** ** Reservations of an attempt *)

Definition ReserveResources (command : ReserveResourcesCommand) (s : Store) : result (list Reservation) * Store :=
  let now := rs_OccurredAt command in
  let attemptID := rs_AttemptID command in
  if negb (validAttempt (rs_SessionID command) attemptID (rs_TokenHash command))
  then (Err (invalidCommand "reserve resources"), s)
  else match prepareInputs (rs_Resources command) with
  | Err e => (Err e, s)
  | Ok prepared =>
      Write (replayed reserveResourcesOperation (rs_IdempotencyKey command) (rs_RequestHash command) asReservations (
        auth ← authenticateActiveAttempt attemptID (rs_TokenHash command) now (Some AttemptKindWork);
        onLease auth (λ owner,
          reservations ← acquireReservationsForAttempt prepared (rs_Resources command) owner.1 attemptID
                           (rs_SessionID command) now;
          run storeIdempotency reserveResourcesOperation (rs_IdempotencyKey command) (rs_RequestHash command)
                (RReservations reservations) now ;;
          mret (Ok reservations)))) s
  end.

Definition ReleaseResources (command : ReleaseResourcesCommand) (s : Store) : result (list Reservation) * Store :=
  let now := rl_OccurredAt command in
  let attemptID := rl_AttemptID command in
  if negb (validAttempt (rl_SessionID command) attemptID (rl_TokenHash command))
  then (Err (invalidCommand "release resources"), s)
  else
    Write (replayed releaseResourcesOperation (rl_IdempotencyKey command) (rl_RequestHash command) asReservations (
      auth ← authenticateActiveAttempt attemptID (rl_TokenHash command) now (Some AttemptKindWork);
      onLease auth (λ _,
        released ← releaseResourcesForAttempt attemptID (rl_ReservationIDs command) (rl_SessionID command)
                     ReservationReleaseReasonExplicit now;
        run storeIdempotency releaseResourcesOperation (rl_IdempotencyKey command) (rl_RequestHash command)
              (RReservations released) now ;;
        mret (Ok released)))) s.

(** ** Finishing *)

Definition validateFinishIdempotency (key hash : string) : result unit :=
  try ValidateText "idempotency_key" key MaxIdempotencyKeyRunes ;;
  fail_if blank key || negb (len hash =? 32)%Z
    with NewError CodeInvalidArgument "finish idempotency command is invalid" false
           [mkDetail None "idempotency_key" "REQUIRED" ""] ;;
  Ok tt.

Definition corruptFinishResult : DomainError :=
  NewError CodeStorageCorrupt "stored idempotency response is invalid" false [].

Definition nonzero (t : Z) : bool := negb (t =? time_zero)%Z.

Definition storedArtifactValid (r : FinishAttemptResult) (a : Artifact) : bool :=
  ids_ParseStrict (af_ID a) && (af_IssueID a =s i_ID (fr_Issue r)) &&
  optEq (af_AttemptID a) (Some (wa_ID (fr_Attempt r))) && nonzero (af_CreatedAt a) &&
  match ValidateArtifactInputs "artifacts" [mkArtifactInput (af_Type a) (af_URI a) (af_Title a) (af_Metadata a)] with
  | Ok [normalized] => optEq (ai_Metadata normalized) (af_Metadata a)
  | _ => false
  end.

Definition validateStoredFinishResult (r : FinishAttemptResult) : result unit :=
  let a := fr_Attempt r in
  let i := fr_Issue r in
  fail_if negb (ids_ParseStrict (wa_ID a)) || (wa_IssueID a =s "") || negb (ids_ParseStrict (wa_IssueID a)) ||
          negb (ids_ParseStrict (i_ID i)) || negb (wa_IssueID a =s i_ID i) || negb (AttemptKind_Valid (wa_Kind a)) ||
          negb (AttemptStatus_Valid (wa_Status a)) || (fr_LatestEventID r <? 0)%Z ||
          negb (match wa_FinishedAt a with Some t => nonzero t | None => false end) ||
          negb (nonzero (wa_LeaseExpiresAt a)) || negb (nonzero (wa_StartedAt a)) ||
          negb (nonzero (wa_LastHeartbeatAt a)) || negb (nonzero (i_CreatedAt i)) || negb (nonzero (i_UpdatedAt i))
    with corruptFinishResult ;;
  fail_if negb (Type_Valid (i_Type i)) || negb (Status_Valid (i_Status i)) || negb (Priority_Valid (i_Priority i))
    with corruptFinishResult ;;
  fail_if existsb (λ t : option Z, match t with Some t => negb (nonzero t) | None => false end)
            [i_ClosedAt i; i_ArchivedAt i]
    with corruptFinishResult ;;
  fail_if negb (forallb (storedArtifactValid r) (fr_Artifacts r)) with corruptFinishResult ;;
  Ok tt.

(** [Metadata = nil] where the stored response says null. *)
Definition withoutNullMetadata (r : FinishAttemptResult) : FinishAttemptResult :=
  mkFinishResult (fr_Attempt r) (fr_Issue r) (fr_Warnings r) (fr_LatestEventID r)
    (map (λ a, if optEq (af_Metadata a) (Some "null")
               then mkArtifact (af_ID a) (af_IssueID a) (af_AttemptID a) (af_Type a) (af_URI a) (af_Title a) None (af_CreatedAt a)
               else a) (fr_Artifacts r)).

Definition lookupFinishedAttempt (key hash : string) (s : Store) : result (option FinishAttemptResult) :=
  match st_idempotency s !! (finishAttemptOperation, key) with
  | None => Ok None
  | Some saved =>
      fail_if negb (im_RequestHash saved =s hash) with idempotencyConflict ;;
      match responseReadBack (im_Response saved) with
      | RFinish response =>
          let response := withoutNullMetadata response in
          try validateStoredFinishResult response ;; Ok (Some response)
      | _ => Err corruptResponse
      end
  end.

Definition LookupFinishedAttempt (key hash : string) (s : Store) : result (option FinishAttemptResult) :=
  try validateFinishIdempotency key hash ;; lookupFinishedAttempt key hash s.

Definition staleReview (row : AttemptRow) (issue : Issue) (request : ReviewRequest) (now : Z) :
    Tx (result FinishAttemptResult) :=
  let attemptID := wa_ID (ar_Attempt row) in
  run supersedeReviewRequestForAttempt request attemptID now ;;
  terminated ← terminateAttempt attemptID AttemptStatusCancelled
                 (mkReason None None ReservationReleaseReasonForceReleased) now;
  run (if terminated : bool then appendAttemptCancelledEvent (i_ID issue) attemptID now else mret tt) ;;
  mret (Err staleReviewTargetError).

Definition reviewRequestRequired : DomainError :=
  NewError CodeReviewRequestRequired
    "an open review request exists for this issue but is not bound to this attempt" false
    [mkDetail None "review_request_id" CodeReviewRequestRequired ""].

(** Acknowledgement of the changes that require one. *)
Definition acknowledged (input : FinishAttemptInput) (issue : Issue) (latestEventID : Z) : bool :=
  match fi_AcknowledgedChanges input with
  | Some ack => (ack_IssueVersion ack =? i_Version issue)%Z && (ack_LatestEventID ack =? latestEventID)%Z
  | None => false
  end.
Definition acknowledgementRequired (required : list string) : DomainError :=
  NewError CodeIssueChangedDuringAttempt "issue changed during attempt" true
    (map (λ field, mkDetail None field "ACKNOWLEDGEMENT_REQUIRED" "") required).

(** The gate of a completed attempt. *)
Definition finishGate (kind target attemptID : string) (input : FinishAttemptInput) (issue : Issue)
    (request : option ReviewRequest) : Tx unit :=
  match enforcementPointForFinish kind target (fi_ReviewOutcome input) with
  | None => mret tt
  | Some point =>
      keys ← query (λ s, if (point =s EnforcementPointCompleteWorkToReview) || (point =s EnforcementPointCompleteWorkToDone)
                         then loadAttemptEvidenceKeys attemptID s else ∅);
      purposes ← query (λ s, if point =s EnforcementPointCompleteWorkToDone
                             then loadIssueReviewApprovalPurposes (i_ID issue) s else ∅);
      let blank := acceptanceCriteriaBlank (i_AcceptanceCriteria issue) in
      match request with
      | Some request =>
          if point =s EnforcementPointApproveReview
          then evaluateGateAgainstReviewTargetSnapshot (rq_TargetID request)
                 (mkEvidence blank keys (reviewPurposeSet (rq_Purposes request)))
          else evaluateGateAgainstAttemptSnapshot point attemptID (mkEvidence blank keys purposes)
      | None => evaluateGateAgainstAttemptSnapshot point attemptID (mkEvidence blank keys purposes)
      end
  end.

(** The issue's transition, and the resolution of the bound request. *)
Definition completeIssue (kind target : string) (row : AttemptRow) (input : FinishAttemptInput) (issue : Issue)
    (request : option ReviewRequest) (now : Z) : Tx Issue :=
  let attemptID := wa_ID (ar_Attempt row) in
  blockedReason ← lift (ApplyFinishTransition (i_Status issue) target (default "" (fi_BlockedReason input)));
  run finishGate kind target attemptID input issue request ;;
  let update := setOutcome target (nullableString blockedReason) now
                  (NextClosedAt (i_Status issue) target now (i_ClosedAt issue)) in
  affected ← wrap "update issue status"
    (Update (i_ID issue) (λ i : Issue, (i_Version i =? i_Version issue)%Z && negb (isSet (i_ArchivedAt i))) update);
  classified ← query (classifyConditionalUpdateFailure (i_ID issue));
  raise_if negb (affected =? 1)%Z with classified ;;
  run (match request with
       | Some request => resolveReviewRequestForAttempt request attemptID now (default "" (fi_ReviewOutcome input))
                           (fi_BlockedReason input)
       | None => mret tt
       end) ;;
  mret (update issue).

Definition finishEventType (outcome : string) : string :=
  if outcome =s AttemptOutcomeFailed then "attempt_failed"
  else if outcome =s AttemptOutcomeInterrupted then "attempt_interrupted"
  else "attempt_completed".

(** The attempt of the response. *)
Definition finishedAttempt (input : FinishAttemptInput) (now : Z) (a : WorkAttempt) : WorkAttempt :=
  mkWorkAttempt (wa_ID a) (wa_IssueID a) (wa_SessionID a) (wa_AgentLabel a) (wa_Kind a) (fi_Outcome input)
    (wa_IssueVersionAtStart a) (wa_ContextEventIDAtStart a) (wa_LeaseExpiresAt a) (wa_StartedAt a)
    (wa_LastHeartbeatAt a) (Some now)
    (if fi_ResultSummary input =s "" then wa_ResultSummary a else Some (fi_ResultSummary input))
    (fi_NextSteps input) (fi_Verification input)
    (match fi_FailureReasonCode input with Some c => Some c | None => wa_FailureReasonCode a end)
    (match fi_InterruptionReasonCode input with Some c => Some c | None => wa_InterruptionReasonCode a end)
    (match fi_ReasonDetails input with Some d => Some d | None => wa_ReasonDetails a end).

(** The end of [FinishAttempt]: the attempt is ended and reported. *)
Definition recordFinish (command : FinishAttemptCommand) (input : FinishAttemptInput) (artifacts : list Artifact)
    (row : AttemptRow) (issue : Issue) (target : string) (warnings : list string) : Tx (result FinishAttemptResult) :=
  let now := fc_OccurredAt command in
  let attemptID := fc_AttemptID command in
  let completed := fi_Outcome input =s AttemptOutcomeCompleted in
  terminated ← wrap "update work attempt"
    (terminateAttempt attemptID (fi_Outcome input)
       (mkReason (fi_FailureReasonCode input) (fi_InterruptionReasonCode input)
          (reservationReleaseReasonForOutcome (fi_Outcome input))) now);
  raise_if negb terminated with attemptNotActive ;;
  run wrap "update work attempt" (Update attemptID (λ _, true) (setReport input)) ;;
  let owned := map (ownedArtifact (i_ID issue) attemptID now) artifacts in
  run for_each (λ artifact, wrap "insert artifact" (Insert artifact)) owned ;;
  latest ← wrap "insert issue event"
    (appendEvent (i_ID issue) (finishEventType (fi_Outcome input)) (fc_SessionID command) (Some attemptID)
       (PAttemptFinished attemptID (fi_Outcome input) (if completed then Some target else None)
          (fi_FailureReasonCode input) (fi_InterruptionReasonCode input)) now SourceIssue);
  let response := mkFinishResult (finishedAttempt input now (ar_Attempt row)) issue warnings latest owned in
  run storeIdempotency finishAttemptOperation (fc_IdempotencyKey command) (fc_RequestHash command)
        (RFinish response) now ;;
  mret (Ok response).

(** What follows the staleness check of the bound request. *)
Definition finishChecked (command : FinishAttemptCommand) (input : FinishAttemptInput) (artifacts : list Artifact)
    (row : AttemptRow) (issue : Issue) (latest : Z) (request : option ReviewRequest) : Tx (result FinishAttemptResult) :=
  let kind := ar_Kind row in
  let completed := fi_Outcome input =s AttemptOutcomeCompleted in
  unresolved ← query (exists_row (λ q, (rq_IssueID q =s i_ID issue) && requestUnresolved q));
  raise_if (kind =s AttemptKindReview) && completed && negb (isSet request) &&
           optEq (fi_ReviewOutcome input) (Some ReviewOutcomeApproved) && unresolved
    with reviewRequestRequired ;;
  changes ← lift_query (completionIssueChanges (i_ID issue) (wa_ContextEventIDAtStart (ar_Attempt row)));
  raise_if negb (null changes.2) && negb (acknowledged input issue latest) with acknowledgementRequired changes.2 ;;
  target ← lift (FinishTargetStatus kind input (i_Status issue));
  updated ← (if completed then completeIssue kind target row input issue request (fc_OccurredAt command) else mret issue);
  recordFinish command input artifacts row updated target changes.1.

Definition finishActive (command : FinishAttemptCommand) (input : FinishAttemptInput) (artifacts : list Artifact)
    (row : AttemptRow) : Tx (result FinishAttemptResult) :=
  let attemptID := fc_AttemptID command in
  let kind := ar_Kind row in
  let completed := fi_Outcome input =s AttemptOutcomeCompleted in
  run lift (ValidateFinishAttemptForKind input kind) ;;
  issue ← loadIssueForMutation (internalIdentifier (ar_IssueID row));
  raise_if isSet (i_ArchivedAt issue) with issueArchived ;;
  raise_if i_Status issue =s StatusCancelled
    with NewError CodeIssueChangedDuringAttempt "issue was cancelled during attempt" true
           [mkDetail None "status" "CANCELLED" ""] ;;
  blockers ← query (unresolvedBlockerCount (i_ID issue));
  raise_if (0 <? blockers)%Z
    with NewError CodeUnresolvedBlockersAdded "unresolved blockers were added during attempt" true
           [mkDetail None "issue_id" "BLOCKED" ""] ;;
  latest ← query latestEventID;
  request ← query (λ s, if (kind =s AttemptKindReview) && completed
                        then loadActiveReviewRequestForAttempt attemptID s else None);
  match request with
  | None => finishChecked command input artifacts row issue latest None
  | Some bound =>
      stale ← reviewTargetStale (i_ID issue) (rq_TargetIssueVersion bound) (rq_TargetEventID bound);
      if stale : bool then staleReview row issue bound (fc_OccurredAt command)
      else finishChecked command input artifacts row issue latest (Some bound)
  end.

Definition finishTx (command : FinishAttemptCommand) (input : FinishAttemptInput) (artifacts : list Artifact) :
    Tx (result FinishAttemptResult) :=
  saved ← lift_query (λ s, if fc_IdempotencyKey command =s "" then Ok None
                           else lookupFinishedAttempt (fc_IdempotencyKey command) (fc_RequestHash command) s);
  match saved with
  | Some response => mret (Ok response)
  | None =>
      auth ← authenticateActiveAttempt (fc_AttemptID command) (fc_TokenHash command) (fc_OccurredAt command) None;
      onLease auth (λ _,
        found ← query (λ s, st_attempts s !! fc_AttemptID command);
        match found with
        | None => fail sqlNoRows
        | Some row => finishActive command input artifacts row
        end)
  end.

Definition FinishAttempt (command : FinishAttemptCommand) (s : Store) : result FinishAttemptResult * Store :=
  if negb (validAttempt (fc_SessionID command) (fc_AttemptID command) (fc_TokenHash command))
  then (Err (invalidCommand "attempt completion"), s)
  else
    let prepared :=
      try (if negb (fc_IdempotencyKey command =s "")
           then validateFinishIdempotency (fc_IdempotencyKey command) (fc_RequestHash command)
           else fail_if negb (fc_RequestHash command =s "") with invalidCommand "attempt completion" ;; Ok tt) ;;
      input ← FinishAttemptInput_Validate (fc_Input command);
      artifacts ← validateAttemptArtifacts (fc_Artifacts command) (fc_OccurredAt command);
      Ok (input, artifacts) in
    match prepared with
    | Err e => (Err e, s)
    | Ok (input, artifacts) => Write (finishTx command input artifacts) s
    end.

(** ** Force release *)

Definition activityCorrupt : DomainError :=
  WrapError "text" CodeStorageCorrupt "stored activity projection is invalid" false [].
Definition activityCorruptField (field code : string) : DomainError :=
  WrapError "" CodeStorageCorrupt "stored activity projection is invalid" false [mkDetail None field code ""].

Definition scannedText (field : string) (maxRunes : Z) (value : option string) : result unit :=
  match value with
  | None => Ok tt
  | Some v => match ValidateText field v maxRunes with Ok u => Ok u | Err _ => Err activityCorrupt end
  end.
Definition parseActivityStringArray (field : string) (items : list string) : result unit :=
  each (λ entry : Z * string,
    scannedText (field +:+ "[" +:+ Itoa entry.1 +:+ "]") MaxAttemptNoteRunes (Some entry.2)) (enumerate items).
Definition scannedReason (field : string) (valid : string → bool) (matches : bool) (code : option string) : result unit :=
  match code with
  | Some c => fail_if negb (valid c) || negb matches with activityCorruptField field "INVALID_VALUE" ;; Ok tt
  | None => fail_if matches with activityCorruptField field "REQUIRED" ;; Ok tt
  end.

Definition scanActivityAttempt (row : AttemptRow) : result WorkAttempt :=
  let a := ar_Attempt row in
  let active := wa_Status a =s AttemptStatusActive in
  fail_if negb (ids_ParseStrict (wa_ID a)) with activityCorruptField "id" "INVALID_ULID" ;;
  fail_if negb (ids_ParseStrict (wa_IssueID a)) with activityCorruptField "issue_id" "INVALID_ULID" ;;
  fail_if negb (AttemptKind_Valid (wa_Kind a)) with activityCorruptField "kind" "INVALID_VALUE" ;;
  fail_if negb (AttemptStatus_Valid (wa_Status a)) with activityCorruptField "status" "INVALID_VALUE" ;;
  fail_if (wa_IssueVersionAtStart a <? 1)%Z with activityCorruptField "issue_version_at_start" "INVALID_VALUE" ;;
  fail_if (wa_ContextEventIDAtStart a <? 0)%Z with activityCorruptField "context_event_id_at_start" "INVALID_VALUE" ;;
  fail_if active && isSet (wa_FinishedAt a) with activityCorruptField "finished_at" "INVALID_VALUE" ;;
  fail_if negb active && negb (isSet (wa_FinishedAt a)) with activityCorruptField "finished_at" "REQUIRED" ;;
  try scannedReason "failure_reason_code" FailureReasonCode_Valid (wa_Status a =s AttemptStatusFailed)
        (wa_FailureReasonCode a) ;;
  try scannedReason "interruption_reason_code" InterruptionReasonCode_Valid (wa_Status a =s AttemptStatusInterrupted)
        (wa_InterruptionReasonCode a) ;;
  fail_if match wa_SessionID a with Some v => negb (ids_ParseStrict v) | None => false end
    with activityCorruptField "session_id" "INVALID_ULID" ;;
  try scannedText "agent_label" (-1) (wa_AgentLabel a) ;;
  try scannedText "result_summary" MaxAttemptNoteRunes (wa_ResultSummary a) ;;
  try scannedText "reason_details" MaxAttemptNoteRunes (wa_ReasonDetails a) ;;
  try parseActivityStringArray "next_steps_json" (wa_NextSteps a) ;;
  try parseActivityStringArray "verification_json" (wa_Verification a) ;;
  Ok a.

Definition InterruptionReasonUserRequest := "user_request".

Definition ForceReleaseAttempt (command : ForceReleaseAttemptCommand) (s : Store) :
    result ForceReleaseAttemptResult * Store :=
  let now := fo_OccurredAt command in
  let attemptID := fo_AttemptID command in
  if negb (ids_ParseStrict attemptID) || (now =? time_zero)%Z
  then (Err (invalidCommand "attempt release"), s)
  else
    Write (
      found ← query (λ s, st_attempts s !! attemptID);
      match found with
      | None => fail attemptNotFound
      | Some row =>
          raise_if negb (attemptActive row) with attemptNotActive ;;
          terminated ← terminateAttempt attemptID AttemptStatusInterrupted
            (mkReason None (Some InterruptionReasonUserRequest) ReservationReleaseReasonForceReleased) now;
          raise_if negb terminated with attemptNotActive ;;
          latest ← appendEvent (ar_IssueID row) "attempt_interrupted" None (Some attemptID)
            (PAttemptFinished attemptID AttemptOutcomeInterrupted None None (Some InterruptionReasonUserRequest))
            now SourceIssue;
          after ← query (λ s, st_attempts s !! attemptID);
          match after with
          | None => fail sqlNoRows
          | Some row =>
              attempt ← lift (scanActivityAttempt row);
              mret (Ok (mkForceResult attempt latest))
          end
      end) s.

(** ** Replays before identifiers are allocated *)

Definition lookupSaved {A} (operation : string) (decode : Response → option A) (key hash : string) (s : Store) :
    result (option A) :=
  match st_idempotency s !! (operation, key) with
  | None => Ok None
  | Some saved =>
      fail_if negb (im_RequestHash saved =s hash) with idempotencyConflict ;;
      match decode (responseReadBack (im_Response saved)) with Some r => Ok (Some r) | None => Err corruptResponse end
  end.
Definition LookupSaveAttemptNote := lookupSaved saveAttemptNoteOperation asNote.
Definition LookupReserveResources := lookupSaved reserveResourcesOperation asReservations.
Definition LookupReleaseResources := lookupSaved releaseResourcesOperation asReservations.
Definition LookupAcquireReservations := lookupSaved acquireReservationsOperation asReservations.
End attempts.

(** ** The operations keep the lifecycle invariant *)

Section preservation.
Context `{UnicodeTables, ULID, JSONCodec, URLParser, SnapshotHash, SQLiteDriver, Misused}.

Lemma lifecycle_setLease aid p hash expires heartbeat :
  preserves lifecycle_ok (Update aid p (setLease hash expires heartbeat)).
Proof. by apply lifecycle_Update_attempt. Qed.
Lemma lifecycle_setReport aid p input : preserves lifecycle_ok (Update aid p (setReport input)).
Proof. by apply lifecycle_Update_attempt. Qed.

Lemma reads_queryIssueProjectionByID id now : reads (queryIssueProjectionByID id now).
Proof. intros s p s'. unfold queryIssueProjectionByID. destruct (st_issues s !! id); [|done]. by intros [= _ <-]. Qed.

Lemma replayClaim_lifecycle command saved : preserves lifecycle_ok (replayClaim command saved).
Proof.
  unfold replayClaim. cbv zeta. pres; first [apply lifecycle_setLease|apply lifecycle_pres_expireAttempt].
Qed.

Lemma startAttempt_lifecycle command prepared issue kind requirements sources latest :
  kind = AttemptKindReview ∨ kind = AttemptKindWork ∧ prepared_ok prepared →
  preserves lifecycle_ok (startAttempt command prepared issue kind requirements sources latest).
Proof.
  intros Hk s out s' Hl Hrun. unfold startAttempt in Hrun. cbv zeta in Hrun. inv_tx_step Hrun.
  unfold insertClaimedAttempt in Hstep. destruct (Insert _ s) as [r|e] eqn:Hins; [|done].
  injection Hstep as ->. apply lifecycle_Insert_attempt in Hins; [|done|done].
  change (holding (cc_AttemptID command) kind (i_ID issue) s0) in Hins.
  inv_tx_step Hrun. pose proof (holding_frame _ _ _ _ (schema_pres_insertAttemptGateSnapshot _ _)
    (frame_insertAttemptGateSnapshot _ _) _ _ _ Hins Hstep) as Hh1.
  inv_tx_step Hrun. pose proof (holding_frame _ _ _ _ (schema_pres_appendIssueEvent _ _ _ _ _ _)
    (frame_appendIssueEvent _ _ _ _ _ _) _ _ _ Hh1 Hstep0) as Hh2. clear Hins Hh1 Hstep Hstep0.
  destruct Hk as [->|[-> Hp]].
  - change (AttemptKindReview =s AttemptKindReview) with true in Hrun. cbn match in Hrun.
    inv_tx_step Hrun. inv_tx_step Hrun. apply tx_ret_Ok in Hrun as [_ ->]. by eapply lifecycle_bind.
  - change (AttemptKindWork =s AttemptKindReview) with false in Hrun. cbn match in Hrun.
    destruct (negb (null (cc_Resources command))); [|by apply tx_ret_Ok in Hrun as [_ ->]; apply Hh2].
    by eapply holding_acquire in Hrun as [? _].
Qed.

Lemma prepareInputs_ok resources prepared : prepareInputs resources = Ok prepared → prepared_ok prepared.
Proof. unfold prepareInputs. intros Hp. apply try_unit in Hp as [_ Hp]. by eapply prepared_ok_request. Qed.

Lemma prepared_ok_nil : prepared_ok [].
Proof. split; intros c; [intros ?%elem_of_nil|intros d ?%elem_of_nil]; done. Qed.

Lemma EvaluateClaim_kind issue blockers active kind :
  EvaluateClaim issue blockers active = Ok kind → kind = AttemptKindReview ∨ kind = AttemptKindWork.
Proof.
  unfold EvaluateClaim. rewrite !fail_if_Ok. intros (_ & _ & _ & He).
  apply result_bind_Ok in He as (k & Hk & He). apply fail_if_Ok in He as [_ [= <-]].
  repeat case_match; naive_solver.
Qed.

Lemma freshClaim_lifecycle command prepared :
  prepared_ok prepared → preserves lifecycle_ok (freshClaim command prepared).
Proof.
  intros Hp s r s' Hl Hrun. unfold freshClaim in Hrun. cbv zeta in Hrun.
  inv_tx_step Hrun. apply reads_loadIssueForMutation in Hstep as ->. inv_tx_step Hrun.
  apply lifecycle_pres_expireAttemptsForIssue in Hstep; [|done]. clear s Hl.
  do 2 (inv_tx_step Hrun; apply query_Ok in Hstep0 as [-> ->]).
  inv_tx_step Hrun. apply lift_Ok in Hstep0 as [Hkind ->]. inv_tx_step Hrun.
  apply reads_evaluateGateAgainstLivePolicies in Hstep0 as ->. inv_tx_step Hrun.
  apply query_Ok in Hstep0 as [-> ->]. inv_tx_step Hrun.
  apply startAttempt_lifecycle in Hstep0; [| |done].
  2:{ apply EvaluateClaim_kind in Hkind as [->| ->]; [by left|by right]. }
  inv_tx_step Hrun. apply reads_queryIssueProjectionByID in Hstep1 as ->. inv_tx_step Hrun.
  apply tx_ret_Ok in Hrun as [_ ->]. eapply (lifecycle_frame None None); [| | |done]; eauto with pres.
Qed.

Lemma ClaimIssue_lifecycle command s : lifecycle_ok s → lifecycle_ok (ClaimIssue command s).2.
Proof.
  intros Hl. unfold ClaimIssue. destruct (_ || _); [done|].
  destruct (if negb (null (cc_Resources command)) then _ else _) as [prepared|] eqn:Hp; [|done].
  apply (preserves_Write lifecycle_ok); [|done]. unfold claimTx. apply preserves_bind; [eauto with pres|].
  assert (Hok : prepared_ok prepared).
  { destruct (negb _); [by eapply prepareInputs_ok|]. injection Hp as <-. apply prepared_ok_nil. }
  intros [[]|]; try (apply replayClaim_lifecycle); try (by apply freshClaim_lifecycle); eauto with pres.
Qed.

Lemma RenewAttempt_lifecycle command s : lifecycle_ok s → lifecycle_ok (RenewAttempt command s).2.
Proof.
  intros Hl. unfold RenewAttempt. cbv zeta. destruct (_ || _); [done|].
  apply (preserves_Write lifecycle_ok); [|done]. unfold onLease. pres; apply lifecycle_setLease.
Qed.

Lemma expireEach_lifecycle ids now : ∀ n, preserves lifecycle_ok (expireEach ids now n).
Proof. induction ids as [|id ids IH]; intros n; cbn [expireEach]; pres. Qed.

Lemma ExpireAttempts_lifecycle now s : lifecycle_ok s → lifecycle_ok (ExpireAttempts now s).2.
Proof.
  intros Hl. unfold ExpireAttempts. destruct (_ =? _)%Z; [done|].
  apply (preserves_Write lifecycle_ok); [|done]. pres. apply expireEach_lifecycle.
Qed.

(** A run of an idempotent transaction replays or runs its body. *)
Lemma replayed_Ok {A} operation key hash (decode : Response → option A) k s r s' :
  replayed operation key hash decode k s = Ok (r, s') → s' = s ∨ k s = Ok (r, s').
Proof.
  unfold replayed. intros Hrun. inv_tx_step Hrun. pose proof (reads_lookupIdempotency _ _ _ _ _ _ Hstep) as ->.
  destruct a as [response|]; [|by right]. left. destruct (decode response); by inv_tx.
Qed.
Lemma replayed_pres {A} P operation key hash (decode : Response → option A) k :
  preserves P k → preserves P (replayed operation key hash decode k).
Proof. intros Hk. unfold replayed. apply preserves_bind; [eauto with pres|]. intros [r|]; [destruct (decode r)|]; eauto with pres. Qed.

Lemma frame_inserts (l : list Artifact) : frame (for_each Insert l).
Proof. intros A R Q. apply preserves_for_each. intros a. apply frame_Insert. Qed.

Lemma schema_pres_inserts (l : list Artifact) : preserves schema_ok (for_each Insert l).
Proof. apply preserves_for_each. intros a. apply schema_pres_Insert. Qed.

Lemma SaveAttemptNote_lifecycle command s : lifecycle_ok s → lifecycle_ok (SaveAttemptNote command s).2.
Proof.
  intros Hl. unfold SaveAttemptNote. cbv zeta. destruct (_ || _); [done|].
  destruct (validateAttemptArtifacts _ _) as [artifacts|]; [|done].
  apply (preserves_Write lifecycle_ok); [|done]. apply replayed_pres.
  apply preserves_bind; [eauto with pres|]. intros [owner|]; unfold onLease; [|eauto with pres].
  apply lifecycle_frame; [pres|intros ? ? ?; pres].
  all: first [apply schema_pres_Insert|apply schema_pres_inserts|apply (frame_inserts _ _ _ _)].
Qed.

Lemma ReserveResources_lifecycle command s : lifecycle_ok s → lifecycle_ok (ReserveResources command s).2.
Proof.
  intros Hl. unfold ReserveResources. cbv zeta. destruct (negb _); [done|].
  destruct (prepareInputs _) as [prepared|] eqn:Hp; [|done]. apply prepareInputs_ok in Hp.
  apply (preserves_Write lifecycle_ok); [|done]. apply replayed_pres. clear s Hl. intros s r s' Hl Hrun.
  inv_tx_step Hrun. destruct a as [[issueID kind]|]; unfold onLease in Hrun.
  2:{ apply tx_ret_Ok in Hrun as [_ ->]. by eapply lifecycle_pres_authenticate. }
  apply lifecycle_authenticated in Hstep as (-> & Hh & ->); [|done].
  inv_tx_step Hrun. apply holding_acquire in Hstep as [Hl' _]; [|done|done]. inv_tx_step Hrun.
  apply tx_ret_Ok in Hrun as [_ ->]. eapply (lifecycle_frame None None); [| | |done]; eauto with pres.
Qed.

(** [AcquireReservations] checks nothing of its attempt: the invariant needs the
    caller's word that it is an active work attempt of the issue. *)
Lemma AcquireReservations_lifecycle command s :
  misused (aq_AttemptID command) = true ∨
  (∃ a, st_attempts s !! aq_AttemptID command = Some a ∧ attemptActive a = true ∧ ar_Kind a = AttemptKindWork ∧
     ar_IssueID a = aq_IssueID command) →
  lifecycle_ok s → lifecycle_ok (AcquireReservations command s).2.
Proof.
  intros Ho Hl. unfold AcquireReservations. cbv zeta. do 4 (case_match; [done|]).
  destruct (prepareInputs _) as [prepared|] eqn:Hp; [|done]. apply prepareInputs_ok in Hp.
  apply Write_post; [|done]. intros r s' [->|Hrun]%replayed_Ok; [done|]. inv_tx_step Hrun.
  apply lifecycle_acquire in Hstep as [Hl' _]; [|done..|].
  - inv_tx_step Hrun. apply tx_ret_Ok in Hrun as [_ ->]. eapply (lifecycle_frame None None); [| | |done]; eauto with pres.
  - destruct Ho as [?|Ha]; [by left|by right].
Qed.

Lemma reads_loadReservationByID id : reads (loadReservationByID id).
Proof. intros s r s' Hrun. unfold loadReservationByID in Hrun. case_match; [by apply lift_Ok in Hrun as [_ ->]|done]. Qed.
Lemma reads_loadOwnedRows aid ids : reads (loadOwnedRows aid ids).
Proof.
  induction ids as [|id ids IH]; cbn [loadOwnedRows]; intros s r s' Hrun.
  - by apply tx_ret_Ok in Hrun as [_ ->].
  - inv_tx_step Hrun. apply reads_loadReservationByID in Hstep as ->. inv_tx_step Hrun. inv_tx_step Hrun.
    inv_tx_step Hrun. apply IH in Hstep as ->. by apply tx_ret_Ok in Hrun as [_ ->].
Qed.

Lemma ReleaseResources_lifecycle command s : lifecycle_ok s → lifecycle_ok (ReleaseResources command s).2.
Proof.
  intros Hl. unfold ReleaseResources. cbv zeta. destruct (negb _); [done|].
  apply (preserves_Write lifecycle_ok); [|done]. apply replayed_pres. unfold onLease, releaseResourcesForAttempt.
  pres. all: apply reads_preserves; apply reads_loadOwnedRows.
Qed.

Lemma frame_wrap {A} prefix (m : Tx A) : frame m → frame (wrap prefix m).
Proof. intros Hm A0 R Q. apply preserves_wrap, Hm. Qed.

Lemma recordFinish_lifecycle command input artifacts row issue target warnings s r s' :
  lifecycle_ok s →
  terminalStatusAbandonsReviewClaim (fi_Outcome input) = true ∨ unclaimed (fc_AttemptID command) s →
  recordFinish command input artifacts row issue target warnings s = Ok (r, s') → lifecycle_ok s'.
Proof.
  intros Hl Hc Hrun. unfold recordFinish in Hrun. cbv zeta in Hrun. inv_tx_step Hrun. apply wrap_Ok in Hstep.
  apply terminateAttempt_pres in Hstep; [|unfold reservationReleaseReasonForOutcome; cbn; by repeat case_match|done..].
  inv_tx_step Hrun. inv_tx_step Hrun. apply wrap_Ok, lifecycle_setReport in Hstep0; [|done].
  revert Hrun. apply (lifecycle_frame None None); [| |exact Hstep0].
  - pres. all: apply preserves_for_each; intros f; apply preserves_wrap, schema_pres_Insert.
  - intros A0 R Q. pres.
Qed.

Lemma finishGate_reads kind target aid input issue request : reads (finishGate kind target aid input issue request).
Proof.
  intros s u s' Hrun. unfold finishGate in Hrun. destruct (enforcementPointForFinish _ _ _); [|by apply tx_ret_Ok in Hrun as [_ ->]].
  inv_tx_step Hrun. apply query_Ok in Hstep as [_ ->]. inv_tx_step Hrun. apply query_Ok in Hstep as [_ ->].
  destruct request; [destruct (_ =s _)|];
    first [by eapply reads_evaluateGateAgainstReviewTargetSnapshot|by eapply reads_evaluateGateAgainstAttemptSnapshot].
Qed.

Lemma completeIssue_lifecycle kind target row input issue request now s i s' :
  let aid := wa_ID (ar_Attempt row) in
  lifecycle_ok s →
  match request with Some q => loadActiveReviewRequestForAttempt aid s = Some q | None => unclaimed aid s end →
  completeIssue kind target row input issue request now s = Ok (i, s') → lifecycle_ok s' ∧ unclaimed aid s'.
Proof.
  intros aid Hl Hq Hrun. unfold completeIssue in Hrun. cbv zeta in Hrun. inv_tx_step Hrun.
  apply lift_Ok in Hstep as [_ ->]. inv_tx_step Hrun. apply finishGate_reads in Hstep as ->.
  inv_tx_step Hrun. apply wrap_Ok in Hstep. inv_tx_step Hrun. apply query_Ok in Hstep0 as [-> ->]. inv_tx_step Hrun.
  assert (Hl0 : lifecycle_ok s0).
  { revert Hstep. apply (lifecycle_frame None None); [|apply frame_Update|done]. by apply schema_pres_Update_issue. }
  assert (HQ : st_requests s0 = st_requests s).
  { revert Hstep. apply frame_requests, frame_Update. }
  inv_tx_step Hrun. apply tx_ret_Ok in Hrun as [_ ->]. destruct request as [q|].
  - eapply resolve_lifecycle; [done| |done]. unfold loadActiveReviewRequestForAttempt, select, rows in *.
    cbn [table requests_table] in *. by rewrite HQ.
  - apply tx_ret_Ok in Hstep0 as [_ ->]. split; [done|]. intros j q. rewrite HQ. apply Hq.
Qed.

Lemma staleReview_lifecycle row issue q now s r s' :
  lifecycle_ok s → loadActiveReviewRequestForAttempt (wa_ID (ar_Attempt row)) s = Some q →
  staleReview row issue q now s = Ok (r, s') → lifecycle_ok s'.
Proof.
  intros Hl Hq Hrun. unfold staleReview in Hrun. cbv zeta in Hrun. inv_tx_step Hrun.
  unfold supersedeReviewRequestForAttempt in Hstep. inv_tx_step Hstep.
  pose proof (lifecycle_Update_request _ _ ReviewRequestStatusSuperseded _ eq_refl _ _ _ Hl Hstep0) as Hl1.
  apply Update_unclaims in Hstep0 as [-> Hu]; [|apply Hl|done|done]. cbn in Hstep.
  assert (Hl0 : lifecycle_ok s0 ∧ unclaimed (wa_ID (ar_Attempt row)) s0).
  { split; [revert Hstep; apply (lifecycle_frame None None); eauto with pres|].
    revert Hstep. apply unclaimed_frame; eauto with pres. }
  inv_tx_step Hrun. destruct Hl0 as [Hl0 Hu0].
  apply terminateAttempt_pres in Hstep0; [|done|by right|done]. inv_tx_step Hrun.
  apply tx_ret_Ok in Hrun as [_ ->]. destruct a0.
  - revert Hstep1. apply (lifecycle_frame None None); [| |done]; unfold appendAttemptCancelledEvent; eauto with pres.
  - by apply tx_ret_Ok in Hstep1 as [_ ->].
Qed.

Lemma outcome_abandons input kind :
  ValidateFinishAttemptForKind input kind = Ok tt → (fi_Outcome input =s AttemptOutcomeCompleted) = false →
  terminalStatusAbandonsReviewClaim (fi_Outcome input) = true.
Proof.
  intros Hv Hc. apply ValidateFinishAttemptForKind_Ok in Hv as ((out & Ho) & _ & _).
  apply FinishAttemptInput_Validate_shape in Ho as [Ho _].
  unfold AttemptOutcome_Valid in Ho. rewrite Hc, !orb_true_iff in Ho.
  unfold terminalStatusAbandonsReviewClaim. rewrite !orb_true_iff.
  destruct Ho as [[Ho|Ho]|Ho]; [done|by left; left|by left; right].
Qed.

Lemma finishChecked_lifecycle command input artifacts row issue latest request s r s' :
  let aid := fc_AttemptID command in
  lifecycle_ok s → st_attempts s !! aid = Some row → ValidateFinishAttemptForKind input (ar_Kind row) = Ok tt →
  (fi_Outcome input = AttemptOutcomeCompleted →
   match request with Some q => loadActiveReviewRequestForAttempt aid s = Some q | None => unclaimed aid s end) →
  finishChecked command input artifacts row issue latest request s = Ok (r, s') → lifecycle_ok s'.
Proof.
  intros aid Hl Hrow Hv Hreq Hrun.
  assert (Hid : wa_ID (ar_Attempt row) = aid) by exact (proj1 (ok_attempts _ (lc_schema _ _ _ Hl)) _ _ Hrow).
  unfold finishChecked in Hrun. cbv zeta in Hrun.
  inv_tx_step Hrun. apply query_Ok in Hstep as [_ ->]. inv_tx_step Hrun.
  inv_tx_step Hrun. apply lift_query_Ok in Hstep as [_ ->]. inv_tx_step Hrun.
  inv_tx_step Hrun. apply lift_Ok in Hstep as [_ ->]. inv_tx_step Hrun.
  destruct (fi_Outcome input =s AttemptOutcomeCompleted) eqn:Hc.
  - apply completeIssue_lifecycle in Hstep as [Hl0 Hu]; [|done|].
    + eapply recordFinish_lifecycle; [done| |done]. right. by rewrite Hid in Hu.
    + rewrite Hid. apply Hreq. by apply eqb_string_true.
  - apply tx_ret_Ok in Hstep as [-> ->]. eapply recordFinish_lifecycle; [done| |done].
    left. by eapply outcome_abandons.
Qed.

Lemma finishActive_lifecycle command input artifacts row s r s' :
  lifecycle_ok s → st_attempts s !! fc_AttemptID command = Some row →
  finishActive command input artifacts row s = Ok (r, s') → lifecycle_ok s'.
Proof.
  intros Hl Hrow Hrun. unfold finishActive in Hrun. cbv zeta in Hrun.
  assert (Hid : wa_ID (ar_Attempt row) = fc_AttemptID command)
    by exact (proj1 (ok_attempts _ (lc_schema _ _ _ Hl)) _ _ Hrow).
  inv_tx_step Hrun. apply lift_Ok in Hstep as [Hv ->]. destruct a.
  inv_tx_step Hrun. apply reads_loadIssueForMutation in Hstep as ->. inv_tx_step Hrun. inv_tx_step Hrun.
  inv_tx_step Hrun. apply query_Ok in Hstep as [_ ->]. inv_tx_step Hrun.
  inv_tx_step Hrun. apply query_Ok in Hstep as [-> ->]. inv_tx_step Hrun. apply query_Ok in Hstep as [Hreq ->].
  destruct a1 as [q|].
  - assert (Hq : loadActiveReviewRequestForAttempt (fc_AttemptID command) s = Some q)
      by (destruct (_ && _) in Hreq; done).
    inv_tx_step Hrun. apply reads_reviewTargetStale in Hstep as ->. destruct a1.
    + eapply staleReview_lifecycle; [done|by rewrite Hid|done].
    + by eapply finishChecked_lifecycle in Hrun; [| |done| |]; auto.
  - eapply finishChecked_lifecycle in Hrun; eauto. intros Hc%eqb_string_true. rewrite Hc, andb_true_r in Hreq.
    destruct (ar_Kind row =s AttemptKindReview) eqn:Hk; [by apply loadActive_None_unclaimed|].
    apply eqb_string_false in Hk. by eapply work_unclaimed.
Qed.

Lemma FinishAttempt_lifecycle command s : lifecycle_ok s → lifecycle_ok (FinishAttempt command s).2.
Proof.
  intros Hl. unfold FinishAttempt. cbv zeta. destruct (negb _); [done|].
  match goal with |- context [match ?x with Ok _ => _ | Err _ => _ end] => destruct x as [[input artifacts]|] end; [|done].
  apply (preserves_Write lifecycle_ok); [|done]. clear s Hl. intros s r s' Hl Hrun. unfold finishTx in Hrun.
  inv_tx_step Hrun. apply lift_query_Ok in Hstep as [_ ->].
  destruct a; [by apply tx_ret_Ok in Hrun as [_ ->]|]. inv_tx_step Hrun.
  apply lifecycle_pres_authenticate in Hstep; [|done]. destruct a as [[]|]; unfold onLease in Hrun.
  2:{ by apply tx_ret_Ok in Hrun as [_ ->]. }
  inv_tx_step Hrun. apply query_Ok in Hstep0 as [-> ->].
  destruct (st_attempts s0 !! fc_AttemptID command) as [row|] eqn:Hrow; [|done].
  by eapply finishActive_lifecycle.
Qed.

Lemma ForceReleaseAttempt_lifecycle command s : lifecycle_ok s → lifecycle_ok (ForceReleaseAttempt command s).2.
Proof.
  intros Hl. unfold ForceReleaseAttempt. cbv zeta. destruct (_ || _); [done|].
  apply (preserves_Write lifecycle_ok); [|done]. clear s Hl. intros s r s' Hl Hrun.
  inv_tx_step Hrun. apply query_Ok in Hstep as [-> ->].
  destruct (st_attempts s !! fo_AttemptID command) as [row|] eqn:Hrow; [|done].
  inv_tx_step Hrun. inv_tx_step Hrun.
  apply terminateAttempt_pres in Hstep; [|done|by left|done]. inv_tx_step Hrun.
  revert Hrun. apply (lifecycle_frame None None); [| |done].
  - pres.
  - intros A0 R Q. pres.
Qed.
End preservation.
