(* ===== verification/Footprint.v ===== *)
(** * What an operation writes

    The primitive writes of the attempt, reservation and review operations, as
    an interface: a predicate on stores that every primitive write preserves
    ([WorkClosed]) is preserved by every operation.  An invariant of the whole
    program is proved against this interface, one primitive at a time; that the
    operations are made of these primitives is proved here, once.

    Two instances come for free: a projection that none of the tables written
    influences is kept ([keeping_work]), and attempts only move forward
    ([attempts_le]). *)

From S2P Require Import Prelude GoStrings Errors Validation Samples Issue Relation Session IssueOps.
From S2P Require Import Discussion Resource Attempt AttemptPolicy Gates Store Schema ReservationStore.
From S2P Require Import GateStore ReviewStore Termination ReviewOps AttemptStore.

(** ** How rows move *)

(** The later of two versions of an attempt: what it is never changes, and once
    it has ended, the end is final. *)
Record attempt_le (a b : AttemptRow) : Prop := {
  al_ID : wa_ID (ar_Attempt b) = wa_ID (ar_Attempt a);
  al_IssueID : ar_IssueID b = ar_IssueID a;
  al_Kind : ar_Kind b = ar_Kind a;
  al_SessionID : wa_SessionID (ar_Attempt b) = wa_SessionID (ar_Attempt a);
  al_Version : wa_IssueVersionAtStart (ar_Attempt b) = wa_IssueVersionAtStart (ar_Attempt a);
  al_Context : wa_ContextEventIDAtStart (ar_Attempt b) = wa_ContextEventIDAtStart (ar_Attempt a);
  al_StartedAt : wa_StartedAt (ar_Attempt b) = wa_StartedAt (ar_Attempt a);
  al_ended : attemptActive a = false →
    ar_Status b = ar_Status a ∧ wa_FinishedAt (ar_Attempt b) = wa_FinishedAt (ar_Attempt a) ∧
    wa_FailureReasonCode (ar_Attempt b) = wa_FailureReasonCode (ar_Attempt a) ∧
    wa_InterruptionReasonCode (ar_Attempt b) = wa_InterruptionReasonCode (ar_Attempt a) ∧
    ar_LeaseExpiresAt b = ar_LeaseExpiresAt a ∧ ar_LeaseTokenHash b = ar_LeaseTokenHash a;
}.

#[export] Instance attempt_le_preorder : PreOrder attempt_le.
Proof.
  split; [by split|]. intros a b c [] []. split; try congruence. intros Ha.
  destruct al_ended0 as (H1 & ? & ? & ? & ? & ?); [done|]. unfold attemptActive in *. rewrite H1 in *.
  destruct al_ended1 as (? & ? & ? & ? & ? & ?); [done|]. split_and!; congruence.
Qed.

(** What an issue's update by a work operation leaves alone. *)
Definition same_place (i j : Issue) : Prop :=
  i_ID j = i_ID i ∧ i_SequenceNo j = i_SequenceNo i ∧ i_DisplayID j = i_DisplayID i ∧ i_Type j = i_Type i ∧
  i_ParentID j = i_ParentID i ∧ i_ArchivedAt j = i_ArchivedAt i ∧ i_Labels j = i_Labels i.

(** ** The interface *)

Class LogClosed `{SQLiteDriver} (P : Store → Prop) : Prop := {
  log_appendEvent i t sid aid p c src : preserves P (appendEvent i t sid aid p c src);
  log_storeIdempotency op key hash r now : preserves P (storeIdempotency op key hash r now);
}.

Class WorkClosed `{SQLiteDriver} (P : Store → Prop) : Prop := {
  work_log :: LogClosed P;
  work_issue id p f : (∀ r, same_place r (f r)) → preserves P (Update (R := Issue) id p f);
  work_attempt (row : AttemptRow) : attemptActive row = true → preserves P (Insert row);
  work_attempt_update id p f :
    (∀ r, p r = true → attempt_le r (f r)) → preserves P (Update (R := AttemptRow) id p f);
  work_attempt_snapshot id snapshot : preserves P (insertAttemptGateSnapshot id snapshot);
  work_reservation (row : reservationRow) : preserves P (Insert row);
  work_released reason now id version : preserves P (updateReleased reason now id version);
  work_target (row : ReviewTarget) : preserves P (Insert row);
  work_target_snapshot id snapshot : preserves P (insertReviewTargetGateSnapshot id snapshot);
  work_request (row : ReviewRequest) : preserves P (Insert row);
  work_transition id p status aid resolved : preserves P (Update id p (transitionRequest status aid resolved));
  work_outcome (row : ReviewOutcomeRecord) : preserves P (Insert row);
  work_approval a : preserves P (insertApproval a);
  work_approval_id : preserves P newReviewApprovalID;
  work_note (row : AttemptNote) : preserves P (Insert row);
  work_artifact (row : Artifact) : preserves P (Insert row);
}.

#[export] Hint Resolve log_appendEvent log_storeIdempotency work_attempt_snapshot work_reservation work_released
  work_target work_target_snapshot work_request work_transition work_outcome work_approval work_approval_id
  work_note work_artifact : pres.

#[export] Hint Extern 1 (LogClosed _) => typeclasses eauto : pres.
#[export] Hint Extern 1 (WorkClosed _) => typeclasses eauto : pres.

(** ** The operations are made of these writes *)

Lemma attempt_le_ended status now failure interruption a :
  attemptActive a = true → attempt_le a (onAttempt (endAttempt status now failure interruption) a).
Proof. intros Ha. split; [done..|congruence]. Qed.

Lemma attempt_le_lease hash expires heartbeat a :
  attemptActive a = true → attempt_le a (setLease hash expires heartbeat a).
Proof. intros Ha. split; [done..|congruence]. Qed.

Lemma attempt_le_report input a : attempt_le a (setReport input a).
Proof. by split. Qed.

Section operations.
Context `{UnicodeTables, ULID, JSONCodec, URLParser, SnapshotHash, SQLiteDriver, Misused}.
Context (P : Store → Prop) `{!WorkClosed P}.
Notation closed m := (preserves P m).

Lemma work_endAttempt id p status now failure interruption :
  (∀ r, p r = true → attemptActive r = true) →
  closed (Update id p (onAttempt (endAttempt status now failure interruption))).
Proof. intros Hp. apply work_attempt_update. intros r Hr. by apply attempt_le_ended, Hp. Qed.
Lemma work_expired id p now :
  (∀ r, p r = true → attemptActive r = true) → closed (Update id p (onAttempt (expiredAttempt now))).
Proof.
  intros Hp. apply work_attempt_update. intros r Hr. split; [done..|]. intros Hn. specialize (Hp r Hr). congruence.
Qed.

Lemma work_appendIssueEvent i t sid aid p c : closed (appendIssueEvent i t sid aid p c).
Proof. unfold appendIssueEvent. pres. Qed.
Lemma work_appendReviewEvent i t aid p c : closed (appendReviewEvent i t aid p c).
Proof. unfold appendReviewEvent. pres. Qed.
Hint Resolve work_appendIssueEvent work_appendReviewEvent : pres.

Lemma work_releaseRows scan aid sid reason now rows : closed (releaseRows scan aid sid reason now rows).
Proof. induction rows; cbn [releaseRows]; pres. Qed.
Hint Resolve work_releaseRows : pres.
Lemma work_releaseReservations aid reason now : closed (releaseReservationsForAttempt aid reason now).
Proof. unfold releaseReservationsForAttempt. pres. Qed.
Hint Resolve work_releaseReservations reads_reviewTargetStale : pres.
Lemma work_releaseClaimed aid now : closed (releaseClaimedReviewRequest aid now).
Proof. unfold releaseClaimedReviewRequest. cbv zeta. pres. Qed.
Hint Resolve work_releaseClaimed : pres.

Lemma work_terminate aid status reason now : closed (terminateAttempt aid status reason now).
Proof. unfold terminateAttempt. pres. by apply work_endAttempt. Qed.
Lemma work_expire aid now : closed (expireAttempt aid now).
Proof. unfold expireAttempt. pres. apply work_expired. by intros r [? _]%andb_true_iff. Qed.
Hint Resolve work_terminate work_expire : pres.
Lemma work_expireForIssue issueID now : closed (expireAttemptsForIssue issueID now).
Proof. unfold expireAttemptsForIssue. pres. Qed.
Lemma work_authenticate aid hash now kind : closed (authenticateActiveAttempt aid hash now kind).
Proof. unfold authenticateActiveAttempt. pres. Qed.
Hint Resolve work_expireForIssue work_authenticate : pres.

Lemma work_insertReservations prepared resources issueID aid sid now :
  closed (insertReservations prepared resources issueID aid sid now).
Proof. induction prepared; cbn [insertReservations]; cbv zeta; pres. Qed.
Hint Resolve work_insertReservations : pres.

Lemma work_insertClaimed row : attemptActive row = true → closed (insertClaimedAttempt row).
Proof.
  intros Ha s u s' Hs. unfold insertClaimedAttempt. destruct (Insert row s) as [[v s1]|] eqn:Hi; [|done].
  intros [= _ <-]. by eapply work_attempt.
Qed.
Lemma work_bindOpen issueID aid now : closed (bindOpenReviewRequestForAttempt issueID aid now).
Proof. unfold bindOpenReviewRequestForAttempt. pres. Qed.
Lemma work_startAttempt command prepared issue kind requirements sources latest :
  closed (startAttempt command prepared issue kind requirements sources latest).
Proof.
  unfold startAttempt, acquireReservationsForAttempt. cbv zeta. pres.
  all: first [by apply work_insertClaimed | by apply work_bindOpen].
Qed.
Hint Resolve work_startAttempt : pres.

Hint Resolve reads_queryIssueProjectionByID : pres.

Lemma ClaimIssue_closed command s : P s → P (ClaimIssue command s).2.
Proof.
  intros Hs. unfold ClaimIssue. case_match; [done|]. case_match; [|done].
  apply (preserves_Write P); [|done]. unfold claimTx, replayClaim, freshClaim. cbv zeta. pres.
  all: apply work_attempt_update; intros ? ?; by apply attempt_le_lease.
Qed.

Lemma RenewAttempt_closed command s : P s → P (RenewAttempt command s).2.
Proof.
  intros Hs. unfold RenewAttempt. cbv zeta. case_match; [done|].
  apply (preserves_Write P); [|done]. unfold onLease. pres.
  all: apply work_attempt_update; intros ? ?; by apply attempt_le_lease.
Qed.

Lemma ExpireAttempts_closed now s : P s → P (ExpireAttempts now s).2.
Proof.
  intros Hs. unfold ExpireAttempts. case_match; [done|]. apply (preserves_Write P); [|done].
  pres. generalize 0%Z. induction a as [|id a IH]; intros n; cbn [expireEach]; pres.
Qed.

Lemma SaveAttemptNote_closed command s : P s → P (SaveAttemptNote command s).2.
Proof.
  intros Hs. unfold SaveAttemptNote. cbv zeta. case_match; [done|]. case_match; [|done].
  apply (preserves_Write P); [|done]. apply replayed_pres. unfold onLease. pres.
Qed.

Lemma ReserveResources_closed command s : P s → P (ReserveResources command s).2.
Proof.
  intros Hs. unfold ReserveResources. cbv zeta. case_match; [done|]. case_match; [|done].
  apply (preserves_Write P); [|done]. apply replayed_pres. unfold onLease, acquireReservationsForAttempt. pres.
Qed.
Lemma AcquireReservations_closed command s : P s → P (AcquireReservations command s).2.
Proof.
  intros Hs. unfold AcquireReservations. cbv zeta. do 4 (case_match; [done|]). case_match; [|done].
  apply (preserves_Write P); [|done]. apply replayed_pres. unfold acquireReservationsForAttempt. pres.
Qed.
Hint Resolve reads_loadReservationByID reads_loadOwnedRows reads_loadRequestForMutation reads_requireFreshTarget
  reads_requireReviewPurposeCoverage : pres.

Lemma ReleaseResources_closed command s : P s → P (ReleaseResources command s).2.
Proof.
  intros Hs. unfold ReleaseResources. cbv zeta. case_match; [done|].
  apply (preserves_Write P); [|done]. apply replayed_pres. unfold onLease, releaseResourcesForAttempt. pres.
Qed.

Lemma ReleaseReservation_closed command s : P s → P (ReleaseReservation command s).2.
Proof.
  intros Hs. unfold ReleaseReservation. cbv zeta. do 3 (case_match; [done|]).
  apply (preserves_Write P); [|done]. pres.
Qed.

Lemma ForceReleaseAttempt_closed command s : P s → P (ForceReleaseAttempt command s).2.
Proof.
  intros Hs. unfold ForceReleaseAttempt. cbv zeta. case_match; [done|]. apply (preserves_Write P); [|done]. pres.
Qed.

(** Completions. *)
Lemma work_insertApprovals request aid now : closed (insertReviewApprovals request aid now).
Proof. unfold insertReviewApprovals. pres. Qed.
Hint Resolve work_insertApprovals : pres.
Lemma work_resolve request aid now outcome reason :
  closed (resolveReviewRequestForAttempt request aid now outcome reason).
Proof. unfold resolveReviewRequestForAttempt. pres. Qed.
Lemma work_finishGate kind target aid input issue request : closed (finishGate kind target aid input issue request).
Proof. unfold finishGate. cbv zeta. pres. Qed.
Hint Resolve work_resolve work_finishGate : pres.
Lemma work_completeIssue kind target row input issue request now :
  closed (completeIssue kind target row input issue request now).
Proof. unfold completeIssue. cbv zeta. pres. all: by apply work_issue. Qed.
Lemma work_recordFinish command input artifacts row issue target warnings :
  closed (recordFinish command input artifacts row issue target warnings).
Proof. unfold recordFinish. cbv zeta. pres. apply work_attempt_update. intros. apply attempt_le_report. Qed.
Hint Resolve work_completeIssue work_recordFinish : pres.
Lemma work_finishChecked command input artifacts row issue latest request :
  closed (finishChecked command input artifacts row issue latest request).
Proof. unfold finishChecked. cbv zeta. pres. Qed.
Lemma work_staleReview row issue request now : closed (staleReview row issue request now).
Proof. unfold staleReview, supersedeReviewRequestForAttempt, appendAttemptCancelledEvent. cbv zeta. pres. Qed.
Hint Resolve work_finishChecked work_staleReview : pres.

Lemma FinishAttempt_closed command s : P s → P (FinishAttempt command s).2.
Proof.
  intros Hs. unfold FinishAttempt. case_match; [done|]. cbv zeta.
  match goal with |- P (match ?x with _ => _ end).2 => destruct x as [[input artifacts]|]; [|done] end.
  apply (preserves_Write P); [|done]. unfold finishTx, finishActive, onLease. cbv zeta. pres.
Qed.

(** Reviews. *)
Lemma work_ensureTarget tid iid v e arts ps now : closed (ensureTarget tid iid v e arts ps now).
Proof. unfold ensureTarget, freezeReviewTargetGateSnapshot. cbv zeta. pres. Qed.
Hint Resolve work_ensureTarget : pres.

Lemma CreateReviewRequest_closed command s : P s → P (CreateReviewRequest command s).2.
Proof.
  intros Hs. unfold CreateReviewRequest. case_match; [|done]. apply (preserves_Write P); [|done].
  unfold createReviewTx. cbv zeta. pres.
Qed.
Lemma CancelReviewRequest_closed command s : P s → P (CancelReviewRequest command s).2.
Proof.
  intros Hs. unfold CancelReviewRequest, appendAttemptCancelledEvent. cbv zeta. apply (preserves_Write P); [|done]. pres.
Qed.
Lemma ReplaceReviewRequest_closed command s : P s → P (ReplaceReviewRequest command s).2.
Proof.
  intros Hs. unfold ReplaceReviewRequest. case_match; [|done]. apply (preserves_Write P); [|done].
  unfold replaceReviewTx. cbv zeta. pres.
Qed.
Lemma ClaimReviewRequest_closed command s : P s → P (ClaimReviewRequest command s).2.
Proof.
  intros Hs. unfold ClaimReviewRequest. case_match; [|done]. case_match; [done|]. apply (preserves_Write P); [|done].
  unfold claimReviewTx, supersedeOpenReviewRequest. cbv zeta. pres.
Qed.
Lemma ResolveReviewRequest_closed command s : P s → P (ResolveReviewRequest command s).2.
Proof.
  intros Hs. unfold ResolveReviewRequest. cbv zeta. do 4 (case_match; [done|]). apply (preserves_Write P); [|done]. pres.
Qed.
End operations.

(** ** Projections that are kept *)

(** A projection that ignores the log and the stored responses. *)
Record log_blind {X} (f : Store → X) : Prop := {
  lb_event e s : f (append_draft e s) = f s;
  lb_idempotency m s : f (set_idempotency m s) = f s;
}.

(** A projection that ignores the tables of the work operations, issues apart. *)
Record attempt_blind {X} (f : Store → X) : Prop := {
  wb_log : log_blind f;
  wb_attempts m s : f (set_attempts m s) = f s;
  wb_attempt_snapshots m s : f (set_attempt_snapshots m s) = f s;
  wb_reservations m s : f (set_reservations m s) = f s;
  wb_targets m s : f (set_targets m s) = f s;
  wb_target_snapshots m s : f (set_target_snapshots m s) = f s;
  wb_requests m s : f (set_requests m s) = f s;
  wb_outcomes m s : f (set_outcomes m s) = f s;
  wb_approvals l s : f (set_approvals l s) = f s;
  wb_entropy l s : f (set_entropy l s) = f s;
  wb_notes m s : f (set_notes m s) = f s;
  wb_artifacts m s : f (set_artifacts m s) = f s;
}.

(** A projection that ignores the issues as well. *)
Record work_blind {X} (f : Store → X) : Prop := {
  wb_attempt : attempt_blind f;
  wb_issues m s : f (set_issues m s) = f s;
}.

Section keeping.
Context `{SQLiteDriver, Misused} {X : Type} (f : Store → X) (x : X).

Lemma keeping_log : log_blind f → LogClosed (keeping f x).
Proof.
  intros []. split; intros.
  - by apply keep_appendEvent.
  - by apply keep_storeIdempotency.
Qed.

Lemma keeping_attempt :
  attempt_blind f → (∀ id p g, (∀ r, same_place r (g r)) → preserves (keeping f x) (Update (R := Issue) id p g)) →
  WorkClosed (keeping f x).
Proof.
  intros [] Hissue. split; intros.
  all: try first [by apply Hissue | by apply keep_Insert | by apply keep_Update].
  - by apply keeping_log.
  - intros s u s' Hx [_ ->]%insertAttemptGateSnapshot_Ok. unfold keeping. by rewrite wb_attempt_snapshots0.
  - intros s u s' Hx. unfold insertReviewTargetGateSnapshot. case_match; [|done]. intros [= _ <-]. unfold keeping. by rewrite wb_target_snapshots0.
  - intros s u s' Hx. unfold insertApproval. case_match; [|done]. intros [= _ <-]. unfold keeping. by rewrite wb_approvals0.
  - intros s u s' Hx. unfold newReviewApprovalID. case_match; [done|]. intros [= _ <-]. unfold keeping. by rewrite wb_entropy0.
Qed.

Lemma keeping_work : work_blind f → WorkClosed (keeping f x).
Proof. intros [Ha Hi]. apply keeping_attempt; [done|]. intros id p g _. by apply keep_Update. Qed.
End keeping.

(** ** Attempts move forward *)

(** Attempts, once made, stay what they are; a frozen snapshot is final. *)
Record attempts_le (s s' : Store) : Prop := {
  sl_attempts id a : st_attempts s !! id = Some a → ∃ b, st_attempts s' !! id = Some b ∧ attempt_le a b;
  sl_snapshots id sn : st_attempt_snapshots s !! id = Some sn → st_attempt_snapshots s' !! id = Some sn;
  sl_target_snapshots id sn : st_target_snapshots s !! id = Some sn → st_target_snapshots s' !! id = Some sn;
}.

#[export] Instance attempts_le_preorder : PreOrder attempts_le.
Proof.
  split; [intros s; split; [intros id a Ha; by exists a|done|done]|].
  intros s1 s2 s3 [Ha1 Hs1 Ht1] [Ha2 Hs2 Ht2]. split; eauto. intros id a Ha.
  destruct (Ha1 id a Ha) as (b & Hb & Hle). destruct (Ha2 id b Hb) as (c & Hc & Hle'). exists c. split; [done|by etrans].
Qed.

Lemma attempts_le_same s s' :
  st_attempts s' = st_attempts s → st_attempt_snapshots s' = st_attempt_snapshots s →
  st_target_snapshots s' = st_target_snapshots s → attempts_le s s'.
Proof. intros Ha Hs Ht. split; rewrite ?Ha, ?Hs, ?Ht; [|done..]. intros id a Hi. by exists a. Qed.

(** The tables the order looks at. *)
Definition attempt_tables (s : Store) := (st_attempts s, st_attempt_snapshots s, st_target_snapshots s).

Section forward.
Context `{SQLiteDriver, Misused} (s0 : Store).

Lemma forward_trans s s' : attempts_le s0 s → attempts_le s s' → attempts_le s0 s'.
Proof. intros. by etrans. Qed.

(** A write that leaves those tables alone. *)
Lemma forward_keep {A} (m : Tx A) : (∀ x, preserves (keeping attempt_tables x) m) → preserves (attempts_le s0) m.
Proof.
  intros Hm s a s' Hle Hrun. apply (forward_trans s); [done|]. apply (kept attempt_tables) in Hrun; [|done].
  unfold attempt_tables in Hrun. simplify_eq. by apply attempts_le_same.
Qed.

#[export] Instance forward_log : LogClosed (attempts_le s0).
Proof. split; intros; apply forward_keep; intros x; keep. Qed.

Lemma forward_attempt_update id p f :
  (∀ r, p r = true → attempt_le r (f r)) → preserves (attempts_le s0) (Update (R := AttemptRow) id p f).
Proof.
  intros Hf s n s' Hle [(row & Hrow & Hp & _ & _ & ->)|(_ & _ & ->)]%Update_Ok; [|done].
  apply (forward_trans s); [done|]. cbn in Hrow. split; cbn; [|done..]. intros i a Ha.
  destruct (decide (id = i)) as [<-|Hne]; [|rewrite lookup_insert_ne by done; by exists a].
  rewrite lookup_insert_eq. exists (f row). split; [done|]. assert (a = row) as -> by congruence. by apply Hf.
Qed.

#[export] Instance forward_work : WorkClosed (attempts_le s0).
Proof.
  split; intros; try exact _; try (apply forward_keep; intros x; unfold updateReleased; by keep).
  - intros s u s' Hle (Hn & _ & ->)%Insert_Ok. apply (forward_trans s); [done|]. cbn in Hn. split; cbn; [|done..].
    intros i a Ha. exists a. rewrite lookup_insert_ne; [done|congruence].
  - by apply forward_attempt_update.
  - intros s u s' Hle [Hn ->]%insertAttemptGateSnapshot_Ok. apply (forward_trans s); [done|].
    split; cbn; [intros i a Ha; by exists a| |done]. intros i sn Hi. rewrite lookup_insert_ne; [done|congruence].
  - intros s u s' Hle. unfold insertReviewTargetGateSnapshot. destruct (_ && _) eqn:Hc; [|done]. intros [= _ <-].
    apply (forward_trans s); [done|]. split; cbn; [intros i a Ha; by exists a|done|]. intros i sn Hi.
    rewrite lookup_insert_ne; [done|]. intros ->. unfold fk in Hc. by rewrite Hi in Hc.
Qed.
End forward.
