(* ===== verification/RelationStore.v ===== *)
(** * The relation repository

    [internal/adapters/sqlite/relations.go]: adding and removing relations
    between issues.  [blocksPathExists] is a recursive SQL query; it is modelled
    by the loop SQLite documents for [WITH RECURSIVE ... UNION]: rows leave a
    queue one at a time, and only rows that were never in the result enter it.

    The main results: the query answers reachability, as the breadth-first
    search of [attempt_policy.go] does, and no operation ever closes a cycle of
    blocks relations. *)

From S2P Require Import Prelude GoStrings Errors Validation Samples Issue Relation Session IssueOps.
From S2P Require Import Discussion Resource Attempt.
From S2P Require Import AttemptPolicy Gates Store Schema ReservationStore GateStore ReviewStore Termination.
From S2P Require Import ReviewOps AttemptStore Footprint.

Definition manageIssueRelationOperation := "manage_issue_relation".
Definition asRelation (r : Response) : option ManageIssueRelationResult :=
  match r with RRelation r => Some r | _ => None end.

(** [ports.ManageIssueRelationCommand]. *)
Record ManageIssueRelationCommand := mkRelationCommand {
  mc_Action : string;
  mc_SourceIdentifier : IssueIdentifier;
  mc_TargetIdentifier : IssueIdentifier;
  mc_RelationType : string;
  mc_RelationID : string;
  mc_OccurredAt : Z;
  mc_IdempotencyKey : string;
  mc_RequestHash : string;
}.

(** ** The recursive query *)

(** [SELECT target_issue_id ... WHERE source_issue_id = ? AND type = 'blocks']. *)
Definition blocksTargets (s : Store) (issueID : string) : list string :=
  map rel_TargetIssueID
    (List.filter (λ r, (rel_SourceIssueID r =s issueID) && (rel_Type r =s RelationTypeBlocks)) (rows s)).

(** UNION: the rows that are not yet in the result enter it and the queue. *)
Fixpoint unionRows (fresh : list string) (result : gset string) (queue : list string) : gset string * list string :=
  match fresh with
  | [] => (result, queue)
  | row :: rest =>
      if bool_decide (row ∈ result) then unionRows rest result queue
      else unionRows rest ({[ row ]} ∪ result) (queue ++ [row])
  end.

(** [None] means the fuel ran out. *)
Fixpoint recursiveRows (fuel : nat) (step : string → list string) (result : gset string) (queue : list string) :
    option (gset string) :=
  match queue with
  | [] => Some result
  | row :: queue =>
      match fuel with
      | O => None
      | S fuel => let '(result, queue) := unionRows (step row) result queue in recursiveRows fuel step result queue
      end
  end.

(** The result holds relation targets only, so the number of relations bounds
    the rounds. *)
Definition reachableRows (s : Store) (startID : string) : option (gset string) :=
  let '(result, queue) := unionRows (blocksTargets s startID) ∅ [] in
  recursiveRows (size (st_relations s)) (blocksTargets s) result queue.

Definition blocksPathExists (startID soughtID : string) (s : Store) : bool :=
  match reachableRows s startID with Some result => bool_decide (soughtID ∈ result) | None => false end.

Definition sameRelation (sourceID targetID relationType : string) (r : IssueRelation) : bool :=
  (rel_SourceIssueID r =s sourceID) && (rel_TargetIssueID r =s targetID) && (rel_Type r =s relationType).
Definition loadRelation (sourceID targetID relationType : string) (s : Store) : option IssueRelation :=
  List.find (sameRelation sourceID targetID relationType) (rows s).

Section repository.
Context `{UnicodeTables, ULID, SQLiteDriver, Misused}.

Definition appendRelationEvents (eventType : string) (relation : IssueRelation) (occurredAt : Z) : Tx unit :=
  for_each (λ issueID,
    appendIssueEvent issueID eventType None None
      (PRelation (rel_ID relation) (rel_SourceIssueID relation) (rel_TargetIssueID relation) (rel_Type relation))
      occurredAt) [rel_SourceIssueID relation; rel_TargetIssueID relation].

Definition corruptEndpoint : DomainError :=
  NewError CodeStorageCorrupt "stored relation endpoint is invalid" false [].

Fixpoint loadProjections (ids : list string) (now : Z) (s : Store) : result (list IssueProjection) :=
  match ids with
  | [] => Ok []
  | id :: rest =>
      match st_issues s !! id with
      | None => Err corruptEndpoint
      | Some issue => ps ← loadProjections rest now s; Ok (issueProjection issue now s :: ps)
      end
  end.
Definition loadRelationAffectedIssues (sourceID targetID : string) (now : Z) : Tx (list IssueProjection) :=
  lift_query (loadProjections [sourceID; targetID] now).

Definition blocksCycle : DomainError :=
  NewError CodeBlocksCycle "blocks relation would create a cycle" false
    [mkDetail None "relation_type" CodeBlocksCycle ""].

(** The two branches of the switch: the relation that is reported and whether
    anything changed. *)
Definition addRelation (relation : IssueRelation) (now : Z) : Tx (IssueRelation * bool) :=
  existing ← query (loadRelation (rel_SourceIssueID relation) (rel_TargetIssueID relation) (rel_Type relation));
  match existing with
  | Some existing => mret (existing, false)
  | None =>
      cycle ← query (λ s, (rel_Type relation =s RelationTypeBlocks) &&
                          blocksPathExists (rel_TargetIssueID relation) (rel_SourceIssueID relation) s);
      raise_if (cycle : bool) with blocksCycle ;;
      run Insert relation ;;
      run appendRelationEvents "relation_added" relation now ;;
      mret (relation, true)
  end.

Definition removeRelation (relation : IssueRelation) (now : Z) : Tx (IssueRelation * bool) :=
  existing ← query (loadRelation (rel_SourceIssueID relation) (rel_TargetIssueID relation) (rel_Type relation));
  match existing with
  | Some existing =>
      run Delete (R := IssueRelation) (rel_ID existing) ;;
      run appendRelationEvents "relation_removed" existing now ;;
      mret (existing, true)
  | None => mret (relation, false)
  end.

Definition manageTx (command : ManageIssueRelationCommand) : Tx (result ManageIssueRelationResult) :=
  let now := mc_OccurredAt command in
  source ← loadIssueForMutation (mc_SourceIdentifier command);
  target ← loadIssueForMutation (mc_TargetIdentifier command);
  raise_if isSet (i_ArchivedAt source) || isSet (i_ArchivedAt target) with issueArchived ;;
  raise_if i_ID source =s i_ID target with selfRelationError ;;
  let '(sourceID, targetID) := CanonicalRelationEndpoints (mc_RelationType command) (i_ID source) (i_ID target) in
  let relation := mkRelation (mc_RelationID command) sourceID targetID (mc_RelationType command) now in
  changed ← (if mc_Action command =s RelationActionAdd then addRelation relation now else removeRelation relation now);
  affected ← loadRelationAffectedIssues (rel_SourceIssueID changed.1) (rel_TargetIssueID changed.1) now;
  let response := mkRelationResult changed.1 affected changed.2 in
  run storeIdempotency manageIssueRelationOperation (mc_IdempotencyKey command) (mc_RequestHash command)
        (RRelation response) now ;;
  mret (Ok response).

Definition ManageIssueRelation (command : ManageIssueRelationCommand) (s : Store) :
    result ManageIssueRelationResult * Store :=
  if negb (RelationAction_Valid (mc_Action command)) || negb (RelationType_Valid (mc_RelationType command))
  then (Err (NewError CodeInvalidArgument "relation command is invalid" false []), s)
  else if (mc_Action command =s RelationActionAdd) && negb (ids_ParseStrict (mc_RelationID command))
  then (Err (WrapError "ulid" CodeIDGeneration "cannot generate relation identifier" false []), s)
  else if negb (mc_Action command =s RelationActionAdd) && negb (mc_RelationID command =s "")
  then (Err (NewError CodeInvalidArgument "remove relation command must not include an identifier" false []), s)
  else Write (replayed manageIssueRelationOperation (mc_IdempotencyKey command) (mc_RequestHash command) asRelation
                (manageTx command)) s.

Definition LookupManageIssueRelation := lookupSaved manageIssueRelationOperation asRelation.
End repository.

(** ** The recursive query terminates and decides reachability *)

Lemma unionRows_spec fresh : ∀ result queue result' queue',
  unionRows fresh result queue = (result', queue') →
  ∃ new, queue' = queue ++ new ∧ result' = result ∪ list_to_set new ∧ NoDup new ∧
    (∀ x, x ∈ new → x ∉ result) ∧ (∀ x, x ∈ new → x ∈ fresh) ∧ (∀ x, x ∈ fresh → x ∈ result').
Proof.
  induction fresh as [|n fresh IH]; intros result queue result' queue'; cbn [unionRows].
  { intros [= <- <-]. exists []. rewrite app_nil_r. split_and!; [done|set_solver|constructor|set_solver..]. }
  case_bool_decide as Hn; intros (new & -> & -> & Hnd & Hns & Hin & Hall)%IH.
  - exists new. split_and!; set_solver.
  - exists (n :: new). rewrite <-app_assoc. split_and!; [done|set_solver| |set_solver|set_solver|set_solver].
    constructor; [|done]. intros Hx. apply (Hns n Hx). set_solver.
Qed.

Section closure.
Context (step : string → list string) (start : string).
Let next (x y : string) : Prop := y ∈ step x.

(** Every row is reached from [start]; the rows that have left the queue have
    contributed their successors. *)
Record closure_inv (result : gset string) (queue : list string) : Prop := {
  cl_queue x : x ∈ queue → x ∈ result;
  cl_nodup : NoDup queue;
  cl_reach x : x ∈ result → tc next start x;
  cl_start y : next start y → y ∈ result;
  cl_done x y : x ∈ result → x ∉ queue → next x y → y ∈ result;
}.

Lemma closure_init result queue : unionRows (step start) ∅ [] = (result, queue) → closure_inv result queue.
Proof.
  intros (new & -> & -> & Hnd & _ & Hin & Hall)%unionRows_spec. split.
  - set_solver.
  - done.
  - intros x Hx. apply tc_once, Hin. set_solver.
  - intros y Hy. by apply Hall.
  - set_solver.
Qed.

Lemma closure_step row queue result result' queue' :
  closure_inv result (row :: queue) → unionRows (step row) result queue = (result', queue') →
  closure_inv result' queue'.
Proof.
  intros [Hq Hnd Hr Hst Hd] (new & -> & -> & Hnn & Hns & Hin & Hall)%unionRows_spec. apply NoDup_cons in Hnd as [Hrow Hnd].
  assert (Hrr : row ∈ result) by (apply Hq; left). split.
  - set_solver.
  - apply NoDup_app. split_and!; [done| |done]. intros x Hx Hx'. by apply (Hns x Hx'), Hq; right.
  - intros x [Hx|Hx]%elem_of_union; [by apply Hr|]. eapply tc_r; [by apply Hr|]. apply Hin. set_solver.
  - intros y Hy%Hst. set_solver.
  - intros x y Hx Hxq Hxy. destruct (decide (x = row)) as [->|Hne]; [by apply Hall|].
    apply elem_of_union in Hx as [Hx|Hx]; [|set_solver]. apply elem_of_union_l. apply (Hd x y); set_solver.
Qed.

Lemma closure_final result : closure_inv result [] → ∀ x, x ∈ result ↔ tc next start x.
Proof.
  intros [_ _ Hr Hst Hd] x. split; [apply Hr|]. intros Hp.
  assert (Hgen : ∀ a b, tc next a b → (∀ y, next a y → y ∈ result) → b ∈ result).
  { induction 1 as [a b Hab|a b c Hab _ IH]; intros Ha; [by apply Ha|].
    apply IH. intros y. apply Hd; [by apply Ha|set_solver]. }
  by eapply Hgen.
Qed.

(** Progress within a finite set that holds every successor. *)
Context (targets : gset string).
Hypothesis targets_step : ∀ x y, next x y → y ∈ targets.

Lemma closure_targets result queue : closure_inv result queue → result ⊆ targets.
Proof.
  intros [_ _ Hr _ _] x Hx%Hr. assert (Hgen : ∀ a b, tc next a b → b ∈ targets).
  { induction 1; [by eapply targets_step|done]. } by eapply Hgen.
Qed.

Lemma recursiveRows_spec fuel : ∀ result queue,
  closure_inv result queue → size (targets ∖ result) + length queue ≤ fuel →
  ∃ rows, recursiveRows fuel step result queue = Some rows ∧ ∀ x, x ∈ rows ↔ tc next start x.
Proof.
  induction fuel as [|fuel IH]; intros result [|row queue] Hinv Hfuel; cbn [recursiveRows length] in *; try lia.
  1,2: exists result; split; [done|by apply closure_final].
  destruct (unionRows (step row) result queue) as [result' queue'] eqn:Hu.
  pose proof (closure_step _ _ _ _ _ Hinv Hu) as Hinv'. apply IH; [done|].
  apply unionRows_spec in Hu as (new & -> & -> & Hnn & Hns & _ & _).
  assert (Hsub : list_to_set new ⊆ targets ∖ result).
  { intros x Hx. pose proof (closure_targets _ _ Hinv'). set_solver. }
  replace (targets ∖ (result ∪ list_to_set new)) with ((targets ∖ result) ∖ list_to_set new) by set_solver.
  rewrite size_difference by done. pose proof (subseteq_size _ _ Hsub).
  rewrite size_list_to_set in * by done. rewrite length_app. lia.
Qed.
End closure.

(** [x] blocks [y]: some stored relation says so. *)
Definition blocks (s : Store) (x y : string) : Prop :=
  ∃ id r, st_relations s !! id = Some r ∧ rel_Type r = RelationTypeBlocks ∧
    rel_SourceIssueID r = x ∧ rel_TargetIssueID r = y.

Lemma blocksTargets_spec s x y : y ∈ blocksTargets s x ↔ blocks s x y.
Proof.
  unfold blocksTargets, blocks. change (map rel_TargetIssueID) with (fmap (M := list) rel_TargetIssueID).
  rewrite list_elem_of_fmap. setoid_rewrite elem_of_filter_list. setoid_rewrite elem_of_rows.
  setoid_rewrite andb_true_iff. setoid_rewrite eqb_string_true. cbn. naive_solver.
Qed.

Definition relationTargets (s : Store) : gset string := list_to_set (map rel_TargetIssueID (rows s)).

Lemma length_rows {R} `{Table R} s : length (rows s) = size (table s).
Proof. unfold rows. by rewrite length_map, length_map_to_list. Qed.

Lemma relationTargets_size s : size (relationTargets s) ≤ size (st_relations s).
Proof.
  unfold relationTargets. pose proof (size_list_to_set_le (map rel_TargetIssueID (rows s))) as Hn.
  by rewrite length_map, length_rows in Hn.
Qed.

Lemma blocksTargets_target s x y : y ∈ blocksTargets s x → y ∈ relationTargets s.
Proof.
  intros (id & r & Hr & _ & _ & <-)%blocksTargets_spec. unfold relationTargets. rewrite elem_of_list_to_set.
  apply list_elem_of_fmap. exists r. split; [done|]. apply elem_of_rows. by exists id.
Qed.

Lemma blocksPathExists_spec start sought s : blocksPathExists start sought s = true ↔ tc (blocks s) start sought.
Proof.
  unfold blocksPathExists, reachableRows. destruct (unionRows (blocksTargets s start) ∅ []) as [result queue] eqn:Hu.
  pose proof (closure_init _ _ _ _ Hu) as Hinv. pose proof (relationTargets_size s) as Hsize.
  destruct (recursiveRows_spec (blocksTargets s) start (relationTargets s) (blocksTargets_target s) (size (st_relations s))
    result queue) as (rows & -> & Hrows); [done| |].
  - apply unionRows_spec in Hu as (new & -> & -> & Hnn & _ & Hin & _).
    assert (Hsub : list_to_set new ⊆ relationTargets s).
    { intros x Hx%elem_of_list_to_set%Hin. by eapply blocksTargets_target. }
    rewrite union_empty_l_L, app_nil_l, size_difference by done. pose proof (subseteq_size _ _ Hsub) as Hle.
    rewrite size_list_to_set in * by done. lia.
  - rewrite bool_decide_eq_true, Hrows. split; apply tc_mono; intros x y; apply blocksTargets_spec.
Qed.

(** The SQL query of a new relation and the breadth-first search of a batch
    ([BlocksPathExists]) are two programs for one question. *)
Lemma blocksPathExists_search start sought s :
  BlocksPathExists (S (size (st_relations s))) start sought (blocksTargets s) = Some (blocksPathExists start sought s).
Proof.
  destruct (bfs_spec (blocksTargets s) start sought ({[ start ]} ∪ relationTargets s)) with (fuel := S (size (st_relations s)))
    as (b & -> & Hb).
  - set_solver.
  - intros x y _ Hy. apply elem_of_union_r. by eapply blocksTargets_target.
  - pose proof (relationTargets_size s). rewrite size_union_alt, size_singleton.
    assert (size (relationTargets s ∖ {[start]}) ≤ size (relationTargets s)) by (apply subseteq_size; set_solver). lia.
  - f_equal. apply eq_true_iff_eq. rewrite Hb, blocksPathExists_spec.
    split; apply tc_mono; intros x y; apply blocksTargets_spec.
Qed.

(** ** The graph of blocks relations stays acyclic *)

Definition acyclic (s : Store) : Prop := ∀ x, ¬ tc (blocks s) x x.

(** A path in a graph with one more edge either avoids the edge or runs
    through it. *)
Lemma tc_add_edge {A} (R : relation A) u v x y :
  tc (λ a b, R a b ∨ (a = u ∧ b = v)) x y → tc R x y ∨ (rtc R x u ∧ rtc R v y).
Proof.
  induction 1 as [x y [Hxy|[-> ->]]|x z y [Hxz|[-> ->]] _ IH].
  - left. by apply tc_once.
  - by right.
  - destruct IH as [IH|[IH1 IH2]]; [left; by eapply tc_l|right]. split; [by eapply rtc_l|done].
  - destruct IH as [IH|[_ IH2]]; right; (split; [done|]); [by apply tc_rtc|done].
Qed.

Lemma acyclic_add (R : relation string) u v :
  u ≠ v → (∀ x, ¬ tc R x x) → ¬ tc R v u → ∀ x, ¬ tc (λ a b, R a b ∨ (a = u ∧ b = v)) x x.
Proof.
  intros Hne Hac Hnp x [Hx|[Hxu Hvx]]%tc_add_edge; [by eapply Hac|].
  assert (Hvu : rtc R v u) by by etrans. apply rtc_tc in Hvu as [->|Hvu]; done.
Qed.

Lemma acyclic_mono s s' : (∀ x y, blocks s' x y → blocks s x y) → acyclic s → acyclic s'.
Proof. intros Hsub Hac x Hx. apply (Hac x). by eapply tc_mono. Qed.

Lemma acyclic_same s s' : st_relations s' = st_relations s → acyclic s → acyclic s'.
Proof. intros Hs. apply acyclic_mono. intros x y. unfold blocks. by rewrite Hs. Qed.

Lemma acyclic_keep {A} (m : Tx A) : (∀ x, preserves (keeping st_relations x) m) → preserves acyclic m.
Proof. intros Hm s a s' Hac Hrun. eapply acyclic_same; [|exact Hac]. by eapply kept. Qed.

#[export] Hint Unfold appendRelationEvents : keep.

Section graph.
Context `{UnicodeTables, ULID, SQLiteDriver, Misused}.

Lemma blocks_insert s (r : IssueRelation) x y :
  blocks (set_relations (<[rel_ID r := r]> (st_relations s)) s) x y →
  blocks s x y ∨ (rel_Type r = RelationTypeBlocks ∧ x = rel_SourceIssueID r ∧ y = rel_TargetIssueID r).
Proof.
  intros (id & q & Hq & Ht & <- & <-). cbn in Hq. destruct (decide (rel_ID r = id)) as [<-|Hne].
  - rewrite lookup_insert_eq in Hq. injection Hq as <-. by right.
  - rewrite lookup_insert_ne in Hq by done. left. by exists id, q.
Qed.

Lemma acyclic_insert s (r : IssueRelation) :
  acyclic s → rel_SourceIssueID r ≠ rel_TargetIssueID r →
  (rel_Type r = RelationTypeBlocks → ¬ tc (blocks s) (rel_TargetIssueID r) (rel_SourceIssueID r)) →
  acyclic (set_relations (<[rel_ID r := r]> (st_relations s)) s).
Proof.
  intros Hac Hne Hnp. destruct (decide (rel_Type r = RelationTypeBlocks)) as [Ht|Ht].
  - intros x Hx. apply (acyclic_add (blocks s) _ _ Hne Hac (Hnp Ht) x). revert Hx. apply tc_mono.
    intros a b [Hab|(_ & -> & ->)]%blocks_insert; [by left|by right].
  - revert Hac. apply acyclic_mono. by intros x y [Hxy|(? & _)]%blocks_insert.
Qed.

Lemma addRelation_acyclic relation now : preserves acyclic (addRelation relation now).
Proof.
  intros s r s' Hac Hrun. unfold addRelation in Hrun. inv_tx_step Hrun. apply query_Ok in Hstep as [-> ->].
  destruct (loadRelation _ _ _ s) as [e|]; [by apply tx_ret_Ok in Hrun as [_ ->]|].
  inv_tx_step Hrun. apply query_Ok in Hstep as [-> ->]. inv_tx_step Hrun.
  apply tx_bind_Ok in Hrun as (u & s1 & Hins & Hrun). apply Insert_Ok in Hins as (_ & Hc & ->).
  assert (Hac1 : acyclic (set_table (<[row_id relation := relation]> (table s)) s)).
  { cbn in Hc |- *. unfold relation_constraint in Hc. conj_hyps. apply acyclic_insert; [done|..].
    - by apply eqb_string_false, negb_true_iff.
    - intros Ht Hp. apply blocksPathExists_spec in Hp. rewrite Ht, eqb_string_refl, Hp in *. done. }
  revert Hac1 Hrun. generalize (set_table (<[row_id relation := relation]> (table s)) s). intros s2 Hac2 Hrun.
  revert Hrun. apply acyclic_keep; [|exact Hac2]. intros x. keep.
Qed.

Lemma Delete_acyclic id : preserves acyclic (Delete (R := IssueRelation) id).
Proof.
  intros s u s' Hac [= _ <-]. revert Hac. apply acyclic_mono. intros x y (i & r & Hr & Hrest).
  exists i, r. split; [|done]. cbn in Hr. by apply lookup_delete_Some in Hr as [_ Hr].
Qed.

Lemma removeRelation_acyclic relation now : preserves acyclic (removeRelation relation now).
Proof.
  unfold removeRelation. apply preserves_bind; [apply preserves_query|]. intros [e|]; [|apply preserves_ret].
  apply preserves_bind; [apply Delete_acyclic|]. intros _. apply acyclic_keep. intros x. keep.
Qed.

Lemma ManageIssueRelation_acyclic command s : acyclic s → acyclic (ManageIssueRelation command s).2.
Proof.
  intros Hac. unfold ManageIssueRelation. do 3 (case_match; [done|]).
  apply (preserves_Write acyclic); [|done]. apply replayed_pres. unfold manageTx. cbv zeta.
  apply preserves_bind; [apply reads_preserves, reads_loadIssueForMutation|intros source].
  apply preserves_bind; [apply reads_preserves, reads_loadIssueForMutation|intros target].
  do 2 (match goal with |- preserves _ (if ?b then _ else _) => destruct b; [apply preserves_fail|] end).
  destruct (CanonicalRelationEndpoints _ _ _) as [sourceID targetID].
  apply preserves_bind; [destruct (_ =s _); [apply addRelation_acyclic|apply removeRelation_acyclic]|intros changed].
  apply acyclic_keep. intros x. unfold loadRelationAffectedIssues. keep.
Qed.
End graph.

(** ** The schema and the lifecycle invariant *)

Lemma exists_other_delete {R} (m : gmap string R) k id p :
  exists_other m id p = false → exists_other (delete k m) id p = false.
Proof.
  rewrite !exists_other_false. intros Ha id' row Hr Hne. apply lookup_delete_Some in Hr as [_ Hr]. by eapply Ha.
Qed.

Section lifecycle.
Context `{UnicodeTables, ULID, SQLiteDriver, Misused}.

Lemma schema_pres_Delete_relation id : preserves schema_ok (Delete (R := IssueRelation) id).
Proof.
  intros s u s' Hs [= _ <-]. set (s' := set_relations (delete id (st_relations s)) s).
  assert (Hg : grows s s') by (split; intros i Hi; exact Hi).
  destruct Hs; split; try by apply (table_ok_mono s). 2: exact ok_log. destruct ok_relations as [Hk Hc]. split.
  - intros i r Hr. cbn in Hr. apply lookup_delete_Some in Hr as [_ Hr]. by apply Hk.
  - intros i r Hr. cbn in Hr |- *. apply lookup_delete_Some in Hr as [_ Hr]. specialize (Hc i r Hr). cbn in Hc.
    unfold relation_constraint in *. conj_hyps. conj_goal; try assumption. cbn. apply negb_true_iff.
    apply exists_other_delete. by apply negb_true_iff.
Qed.
Hint Resolve schema_pres_Delete_relation : pres.

Lemma ManageIssueRelation_lifecycle command s : lifecycle_ok s → lifecycle_ok (ManageIssueRelation command s).2.
Proof.
  intros Hl. unfold ManageIssueRelation. do 3 (case_match; [done|]).
  apply (preserves_Write lifecycle_ok); [|done]. apply replayed_pres. unfold manageTx, loadRelationAffectedIssues. cbv zeta.
  apply lifecycle_frame; [|intros ? ? ?]; unfold addRelation, removeRelation, appendRelationEvents; pres.
Qed.
End lifecycle.

(** ** What one mutation does *)

(** The relation is stored. *)
Definition related (s : Store) (a b t : string) : Prop :=
  ∃ id r, st_relations s !! id = Some r ∧ sameRelation a b t r = true.

Lemma sameRelation_spec a b t r :
  sameRelation a b t r = true ↔ rel_SourceIssueID r = a ∧ rel_TargetIssueID r = b ∧ rel_Type r = t.
Proof. unfold sameRelation. rewrite !andb_true_iff, !eqb_string_true. tauto. Qed.

Lemma loadRelation_Some a b t s r :
  loadRelation a b t s = Some r → sameRelation a b t r = true ∧ ∃ id, st_relations s !! id = Some r.
Proof.
  unfold loadRelation. intros [Hin Hs]%find_some. split; [done|].
  by apply list_elem_of_In, (elem_of_rows (R := IssueRelation)) in Hin.
Qed.

Lemma loadRelation_None a b t s : loadRelation a b t s = None ↔ ¬ related s a b t.
Proof.
  unfold loadRelation. split.
  - intros Hn (id & r & Hr & Hs). pose proof (find_none _ _ Hn r) as Hf. rewrite Hf in Hs; [done|].
    apply list_elem_of_In, (elem_of_rows (R := IssueRelation)). by exists id.
  - intros Hn. destruct (List.find _ _) as [r|] eqn:Hf; [|done]. destruct Hn.
    apply loadRelation_Some in Hf as [Hs [id Hr]]. by exists id, r.
Qed.

Section effect.
Context `{UnicodeTables, ULID, SQLiteDriver, Misused}.

Lemma relation_unique s i j q r :
  schema_ok s → st_relations s !! i = Some q → st_relations s !! j = Some r → relationClash q r = true → i = j.
Proof.
  intros Hs Hi Hj Hc. destruct (decide (j = i)) as [|Hne]; [done|]. exfalso.
  pose proof (proj2 (ok_relations _ Hs) _ _ Hi) as Hcon. cbn in Hcon. unfold relation_constraint in Hcon. conj_hyps.
  match goal with Hx : negb (exists_other _ _ (relationClash q)) = true |- _ =>
    apply negb_true_iff in Hx; rewrite exists_other_false in Hx; specialize (Hx j r Hj Hne) end. congruence.
Qed.

Lemma relations_after_events eventType relation now s u s' :
  appendRelationEvents eventType relation now s = Ok (u, s') → st_relations s' = st_relations s.
Proof. apply kept. intros x. keep. Qed.

Lemma related_after_add relation s s' a b t :
  st_relations s !! rel_ID relation = None →
  st_relations s' = <[rel_ID relation := relation]> (st_relations s) →
  related s' a b t ↔ sameRelation a b t relation = true ∨ related s a b t.
Proof.
  intros Hn He. unfold related. rewrite He. split.
  - intros (id & r & Hr & Hs). apply lookup_insert_Some in Hr as [[<- <-]|[_ Hr]]; [by left|right; by exists id, r].
  - intros [Hs|(id & r & Hr & Hs)]; [exists (rel_ID relation), relation; by rewrite lookup_insert_eq|].
    exists id, r. rewrite lookup_insert_ne; [done|]. congruence.
Qed.

Lemma related_after_delete s s' id r a b t :
  schema_ok s → st_relations s !! id = Some r → st_relations s' = delete id (st_relations s) →
  related s' a b t ↔ related s a b t ∧ sameRelation a b t r = false.
Proof.
  intros Hok Hr He. unfold related. rewrite He. split.
  - intros (j & q & Hq & Hs). apply lookup_delete_Some in Hq as [Hne Hq]. split; [by exists j, q|].
    apply not_true_iff_false. intros Hsr. destruct Hne. apply (relation_unique s _ _ r q Hok Hr Hq).
    apply sameRelation_spec in Hs as (? & ? & ?), Hsr as (? & ? & ?).
    unfold relationClash. rewrite !andb_true_iff, !eqb_string_true. split_and!; congruence.
  - intros [(j & q & Hq & Hs) Hne]. exists j, q. rewrite lookup_delete_ne; [done|]. intros <-. congruence.
Qed.

Lemma addRelation_effect relation now s r changed s' :
  addRelation relation now s = Ok ((r, changed), s') →
  let a := rel_SourceIssueID relation in let b := rel_TargetIssueID relation in let t := rel_Type relation in
  sameRelation a b t r = true ∧ related s' a b t ∧
  (∀ a' b' t', sameRelation a' b' t' r = false → related s' a' b' t' ↔ related s a' b' t') ∧
  (changed = true ↔ ¬ related s a b t) ∧ (changed = false → s' = s).
Proof.
  intros Hrun a b t. unfold addRelation in Hrun. inv_tx_step Hrun. apply query_Ok in Hstep as [-> ->].
  destruct (loadRelation _ _ _ s) as [e|] eqn:Hload.
  { apply tx_ret_Ok in Hrun as [[= -> ->] ->]. apply loadRelation_Some in Hload as [Hs [id Hr]].
    assert (related s a b t) by (by exists id, e). by split_and!. }
  apply loadRelation_None in Hload. inv_tx_step Hrun. apply query_Ok in Hstep as [-> ->]. inv_tx_step Hrun.
  apply tx_bind_Ok in Hrun as (u & s1 & (Hn & _ & ->)%Insert_Ok & Hrun). inv_tx_step Hrun.
  apply relations_after_events in Hstep. apply tx_ret_Ok in Hrun as [[= -> ->] ->]. cbn in Hn, Hstep.
  assert (Hsame : sameRelation a b t relation = true) by by apply sameRelation_spec.
  split_and!; try done.
  - rewrite (related_after_add relation s) by done. by left.
  - intros a' b' t' Hne. rewrite (related_after_add relation s) by done. rewrite Hne. naive_solver.
Qed.

Lemma removeRelation_effect relation now s r changed s' :
  schema_ok s → removeRelation relation now s = Ok ((r, changed), s') →
  let a := rel_SourceIssueID relation in let b := rel_TargetIssueID relation in let t := rel_Type relation in
  sameRelation a b t r = true ∧ ¬ related s' a b t ∧
  (∀ a' b' t', sameRelation a' b' t' r = false → related s' a' b' t' ↔ related s a' b' t') ∧
  (changed = true ↔ related s a b t) ∧ (changed = false → s' = s).
Proof.
  intros Hok Hrun a b t. unfold removeRelation in Hrun. inv_tx_step Hrun. apply query_Ok in Hstep as [-> ->].
  destruct (loadRelation _ _ _ s) as [e|] eqn:Hload.
  2:{ apply tx_ret_Ok in Hrun as [[= -> ->] ->]. apply loadRelation_None in Hload.
      split_and!; try done. by apply sameRelation_spec. }
  apply loadRelation_Some in Hload as [Hs [id Hr]]. inv_tx_step Hrun. injection Hstep as _ <-.
  inv_tx_step Hrun. apply relations_after_events in Hstep. apply tx_ret_Ok in Hrun as [[= -> ->] ->]. cbn in Hstep.
  pose proof (proj1 (ok_relations _ Hok) id e Hr) as Hid. cbn in Hid. subst id.
  split_and!; try done.
  - rewrite (related_after_delete s _ (rel_ID e) e) by done. fold a b t in Hs. rewrite Hs. naive_solver.
  - intros a' b' t' Hne. rewrite (related_after_delete s _ (rel_ID e) e) by done. naive_solver.
  - split; [|done]. intros _. by exists (rel_ID e), e.
Qed.

Lemma manageTx_effect command s r s' :
  schema_ok s → mc_IdempotencyKey command = "" → manageTx command s = Ok (Ok r, s') →
  ∃ source target,
    loadIssueForMutation (mc_SourceIdentifier command) s = Ok (source, s) ∧
    loadIssueForMutation (mc_TargetIdentifier command) s = Ok (target, s) ∧
    i_ArchivedAt source = None ∧ i_ArchivedAt target = None ∧ i_ID source ≠ i_ID target ∧
    let '(a, b) := CanonicalRelationEndpoints (mc_RelationType command) (i_ID source) (i_ID target) in
    let t := mc_RelationType command in
    sameRelation a b t (mx_Relation r) = true ∧
    (related s' a b t ↔ mc_Action command = RelationActionAdd) ∧
    (∀ a' b' t', sameRelation a' b' t' (mx_Relation r) = false → related s' a' b' t' ↔ related s a' b' t') ∧
    (mx_Changed r = true ↔ ¬ (related s a b t ↔ related s' a b t)) ∧ (mx_Changed r = false → s' = s).
Proof.
  intros Hok Hkey Hrun. unfold manageTx in Hrun. cbv zeta in Hrun.
  apply tx_bind_Ok in Hrun as (source & s1 & Hsrc & Hrun). pose proof (reads_loadIssueForMutation _ _ _ _ Hsrc) as ->.
  apply tx_bind_Ok in Hrun as (target & s1 & Htgt & Hrun). pose proof (reads_loadIssueForMutation _ _ _ _ Htgt) as ->.
  inv_tx_step Hrun. inv_tx_step Hrun.
  match goal with Ha : _ || _ = false |- _ => apply orb_false_iff in Ha as [Ha1 Ha2]; apply isSet_false in Ha1, Ha2 end.
  match goal with Ha : (_ =s _) = false |- _ => apply eqb_string_false in Ha end.
  exists source, target. split_and!; try done.
  destruct (CanonicalRelationEndpoints _ _ _) as [a b].
  apply tx_bind_Ok in Hrun as ([rel changed] & s1 & Hch & Hrun). inv_tx_step Hrun. inv_tx_step Hrun.
  rewrite Hkey in Hstep0. apply storeIdempotency_Ok in Hstep0 as [[_ ->]|[? _]]; [|done].
  apply tx_ret_Ok in Hrun as [[= ->] ->]. unfold loadRelationAffectedIssues in Hstep. apply lift_query_Ok in Hstep as [_ ->].
  cbn [mx_Relation mx_Changed fst snd]. destruct (mc_Action command =s RelationActionAdd) eqn:Hact.
  - apply eqb_string_true in Hact. apply addRelation_effect in Hch as (? & ? & ? & Hc & ?). cbn in *.
    split_and!; [done|done|done|destruct changed; tauto|done].
  - apply eqb_string_false in Hact. apply removeRelation_effect in Hch as (? & ? & ? & Hc & ?); [|done]. cbn in *.
    split_and!; [done|done|done| |done]. assert (Hd : changed = false → ¬ related s a b (mc_RelationType command)).
    { intros -> ?%Hc. done. } destruct changed; tauto.
Qed.
End effect.

(** ** What the operation writes *)

Section closed.
Context `{UnicodeTables, ULID, SQLiteDriver, Misused} (P : Store → Prop) `{!LogClosed P}.
Hypothesis closed_insert : ∀ r : IssueRelation, preserves P (Insert r).
Hypothesis closed_delete : ∀ id, preserves P (Delete (R := IssueRelation) id).

Lemma ManageIssueRelation_closed command s : P s → P (ManageIssueRelation command s).2.
Proof.
  intros Hs. unfold ManageIssueRelation. do 3 (case_match; [done|]).
  apply (preserves_Write P); [|done]. apply replayed_pres.
  unfold manageTx, addRelation, removeRelation, appendRelationEvents, appendIssueEvent, loadRelationAffectedIssues.
  cbv zeta. pres.
Qed.
End closed.
