(* ===== verification/IssueStore.v ===== *)
(** * The issue repository

    [internal/adapters/sqlite/issues.go] and the label functions of
    [labels.go]: creating, updating, archiving, unarchiving and reading issues.

    The join table [issue_labels] is kept in the issue's row: [i_Labels] is the
    list [loadIssueLabels] returns, in label order.  Labels are never updated,
    so the copy in the row stays what the join would give.

    The main results: issue numbers are never reused, a created issue reads
    back as it was returned, a live issue's parent is always a live epic, and
    [closed_at] follows the status across every update. *)

From S2P Require Import Prelude GoStrings Errors Validation Samples Issue Relation Session IssueOps.
From S2P Require Import Discussion Resource Attempt AttemptPolicy Gates Store Schema ReservationStore.
From S2P Require Import GateStore ReviewStore Termination ReviewOps AttemptStore Footprint.

Definition createIssueOperation := "create_issue".
Definition updateIssueOperation := "update_issue".
Definition archiveIssueOperation := "archive_issue".
Definition unarchiveIssueOperation := "unarchive_issue".

Definition asIssue (r : Response) : option Issue := match r with RIssue r => Some r | _ => None end.
Definition asUpdate (r : Response) : option UpdateIssueResult := match r with RUpdate r => Some r | _ => None end.

(** ** Commands, of [internal/ports/issues.go] *)

Record CreateIssueCommand := mkCreateCommand {
  ic_ID : string;
  ic_Input : CreateIssueInput;
  ic_LabelIDs : list string;
  ic_CreatedAt : Z;
  ic_IdempotencyKey : string;
  ic_RequestHash : string;
}.

Record UpdateIssueCommand := mkUpdateCommand {
  uc_Identifier : IssueIdentifier;
  uc_ExpectedVersion : Z;
  uc_Changes : IssuePatch;
  uc_LabelIDs : list string;
  uc_CreateMissingLabels : bool;
  uc_UpdatedAt : Z;
  uc_IdempotencyKey : string;
  uc_RequestHash : string;
}.

Record ArchiveIssueCommand := mkArchiveCommand {
  xc_Identifier : IssueIdentifier;
  xc_ExpectedVersion : Z;
  xc_ArchivedAt : Z;
  xc_IdempotencyKey : string;
  xc_RequestHash : string;
}.

Record UnarchiveIssueCommand := mkUnarchiveCommand {
  yc_Identifier : IssueIdentifier;
  yc_ExpectedVersion : Z;
  yc_SessionID : option string;
  yc_UnarchivedAt : Z;
  yc_IdempotencyKey : string;
  yc_RequestHash : string;
}.

(** ** Row updates *)

(** The whole row of an issue from its columns; the updates below replace some
    of them. *)
Definition setLabels (labels : list Label) (i : Issue) : Issue :=
  mkIssue (i_ID i) (i_DisplayID i) (i_SequenceNo i) (i_Type i) (i_Title i) (i_Description i)
    (i_AcceptanceCriteria i) (i_Status i) (i_Priority i) (i_ParentID i) (i_BlockedReason i) (i_Version i)
    (i_CreatedBySessionID i) (i_CreatedAt i) (i_UpdatedAt i) (i_ClosedAt i) (i_ArchivedAt i)
    (i_ArchivedBySessionID i) labels.
Definition setParent (parent : option string) (i : Issue) : Issue :=
  mkIssue (i_ID i) (i_DisplayID i) (i_SequenceNo i) (i_Type i) (i_Title i) (i_Description i)
    (i_AcceptanceCriteria i) (i_Status i) (i_Priority i) parent (i_BlockedReason i) (i_Version i)
    (i_CreatedBySessionID i) (i_CreatedAt i) (i_UpdatedAt i) (i_ClosedAt i) (i_ArchivedAt i)
    (i_ArchivedBySessionID i) (i_Labels i).
Definition setStamp (version updatedAt : Z) (closedAt : option Z) (i : Issue) : Issue :=
  mkIssue (i_ID i) (i_DisplayID i) (i_SequenceNo i) (i_Type i) (i_Title i) (i_Description i)
    (i_AcceptanceCriteria i) (i_Status i) (i_Priority i) (i_ParentID i) (i_BlockedReason i) version
    (i_CreatedBySessionID i) (i_CreatedAt i) updatedAt closedAt (i_ArchivedAt i)
    (i_ArchivedBySessionID i) (i_Labels i).
Definition setArchived (archivedAt : option Z) (now : Z) (i : Issue) : Issue :=
  mkIssue (i_ID i) (i_DisplayID i) (i_SequenceNo i) (i_Type i) (i_Title i) (i_Description i)
    (i_AcceptanceCriteria i) (i_Status i) (i_Priority i) (i_ParentID i) (i_BlockedReason i) (i_Version i + 1)
    (i_CreatedBySessionID i) (i_CreatedAt i) now (i_ClosedAt i) archivedAt None (i_Labels i).
(** The columns of the UPDATE statement, taken from [next]. *)
Definition updateColumns (next row : Issue) : Issue :=
  mkIssue (i_ID row) (i_DisplayID row) (i_SequenceNo row) (i_Type next) (i_Title next) (i_Description next)
    (i_AcceptanceCriteria next) (i_Status next) (i_Priority next) (i_ParentID next) (i_BlockedReason next)
    (i_Version next) (i_CreatedBySessionID row) (i_CreatedAt row) (i_UpdatedAt next) (i_ClosedAt next)
    (i_ArchivedAt row) (i_ArchivedBySessionID row) (i_Labels row).

Section repository.
Context `{UnicodeTables, ULID, SnapshotHash, SQLiteDriver, Misused}.

(** ** Labels *)

Definition corruptLabel (cause : string) : DomainError :=
  WrapError cause CodeStorageCorrupt "stored label projection is invalid" false [].

(** The display and the canonical name are recomputed from the stored name. *)
Definition scanLabel (row : Label) : result Label :=
  match NormalizeLabelName (l_Name row) with
  | Err e => Err (corruptLabel (e_Message e))
  | Ok (displayName, normalizedName) =>
      Ok (mkLabel (l_ID row) displayName normalizedName (l_Description row) (l_CreatedAt row))
  end.

(** COLLATE NOCASE folds ASCII letters. *)
Definition nocaseEq (a b : string) : bool := asciiLower a =s asciiLower b.
Definition loadLabelByName (name : string) (s : Store) : result (option Label) :=
  match List.find (λ row, nocaseEq (l_Name row) name) (rows s) with
  | None => Ok None
  | Some row => label ← scanLabel row; Ok (Some label)
  end.

Definition validateLabelIDs (names : list string) (createMissing : bool) (labelIDs : list string) : result unit :=
  if negb createMissing then
    fail_if negb (null labelIDs) with NewError CodeInvalidArgument "label identifiers are invalid" false [] ;;
    Ok tt
  else
    fail_if negb (Nat.eqb (length labelIDs) (length names))
      with NewError CodeIDGeneration "cannot generate label identifier" false [] ;;
    fail_if existsb (λ labelID, negb (ids_ParseStrict labelID)) labelIDs
      with WrapError "ulid" CodeIDGeneration "cannot generate label identifier" false [] ;;
    Ok tt.

(** [INSERT ... ON CONFLICT DO NOTHING]: a clash of ids or names inserts
    nothing. *)
Definition insertLabel (label : Label) : Tx unit := λ s,
  if has_row (R := Label) (l_ID label) s || exists_row (labelNameClash label) s then Ok (tt, s)
  else Insert label s.

Definition labelNotFound (name : string) : DomainError :=
  NewError CodeLabelNotFound "requested label does not exist" false [mkDetail None "labels" CodeLabelNotFound name].

Definition resolveLabel (createMissing : bool) (now : Z) (name labelID : string) : Tx Label :=
  found ← lift_query (loadLabelByName name);
  match found with
  | Some label => mret label
  | None =>
      raise_if negb createMissing with labelNotFound name ;;
      run insertLabel (mkLabel labelID name (asciiLower name) None now) ;;
      created ← lift_query (loadLabelByName name);
      match created with
      | Some label => mret label
      | None => fail (NewError CodeStorageConstraint "label could not be created" false [])
      end
  end.

(** Without [createMissing] there are no identifiers and none is read. *)
Fixpoint resolveLabels (names : list string) (createMissing : bool) (labelIDs : list string) (now : Z) :
    Tx (list Label) :=
  match names with
  | [] => mret []
  | name :: names =>
      label ← resolveLabel createMissing now name (default "" (head labelIDs));
      labels ← resolveLabels names createMissing (tail labelIDs) now;
      mret (label :: labels)
  end.
Definition resolveIssueLabels (names : list string) (createMissing : bool) (labelIDs : list string) (now : Z) :
    Tx (list Label) :=
  run lift (validateLabelIDs names createMissing labelIDs) ;;
  resolveLabels names createMissing labelIDs now.

(** [ORDER BY labels.name COLLATE NOCASE ASC, labels.id ASC]. *)
Definition labelLess (a b : Label) : bool :=
  if nocaseEq (l_Name a) (l_Name b) then str_less (l_ID a) (l_ID b)
  else str_less (asciiLower (l_Name a)) (asciiLower (l_Name b)).

(** The primary key and the foreign keys of [issue_labels]. *)
Definition replaceIssueLabels (issueID : string) (labels : list Label) : Tx unit := λ s,
  if bool_decide (NoDup (map l_ID labels)) && forallb (λ label, fk (st_labels s) (l_ID label)) labels
  then (run Update (R := Issue) issueID (λ _, true) (setLabels (stable_sort labelLess labels)) ;; mret tt) s
  else Err (constraintError "issue_labels").

(** ** Parents *)

Definition invalidParentError : DomainError :=
  NewError CodeInvalidEpicParent "parent_id must reference a non-archived epic" false
    [mkDetail None "parent_id" CodeInvalidEpicParent ""].
Definition archivedParentError : DomainError :=
  NewError CodeInvalidEpicParent "parent_id must reference a non-archived epic" false
    [mkDetail None "parent_id" "PARENT_ARCHIVED" ""].
Definition epicHasChildrenError (field : string) : DomainError :=
  NewError CodeInvalidEpicParent "epic has non-archived children" false [mkDetail None field "HAS_CHILDREN" ""].

Definition findIssue (identifier : IssueIdentifier) (s : Store) : option Issue :=
  match id_Kind identifier with
  | IssueIdentifierInternalID => st_issues s !! id_Value identifier
  | IssueIdentifierDisplayID => List.find (λ i, (i_SequenceNo i =? id_SequenceNo identifier)%Z) (rows s)
  end.

Definition validateParent (parentID : option string) (s : Store) : result (option string) :=
  match parentID with
  | None => Ok None
  | Some parentID =>
      identifier ← ParseIssueIdentifier parentID;
      match findIssue identifier s with
      | None => Err invalidParentError
      | Some parent =>
          fail_if negb (i_Type parent =s TypeEpic) with invalidParentError ;;
          fail_if isSet (i_ArchivedAt parent) with archivedParentError ;;
          Ok (Some (i_ID parent))
      end
  end.

Definition epicHasLiveChildren (epicID : string) (s : Store) : bool :=
  exists_row (λ i, optEq (i_ParentID i) (Some epicID) && negb (isSet (i_ArchivedAt i))) s.

(** Expire what is due, then refuse while an attempt is active. *)
Definition refuseActiveAttempt (issueID : string) (now : Z) : Tx unit :=
  run expireAttemptsForIssue issueID now ;;
  active ← query (hasActiveAttempt issueID);
  raise_if (active : bool) with NewError CodeActiveAttemptExists "issue has an active work attempt" false [] ;;
  mret tt.

(** ** Creating *)

Definition projectNotInitialized : DomainError :=
  NewError CodeProjectNotInitialized "project database is not initialized" false [].

(** [UPDATE projects SET next_issue_number = next_issue_number + 1 RETURNING next_issue_number - 1]. *)
Definition allocateIssueNumber (now : Z) : Tx Z := λ s,
  match st_project s with
  | None => Err projectNotInitialized
  | Some row =>
      Ok (pj_NextIssueNumber row, set_project (Some (mkProjectRow (pj_ID row) (pj_NextIssueNumber row + 1) now)) s)
  end.

(** The inserted row; labels follow. *)
Definition createdIssue (id : string) (input : CreateIssueInput) (sequenceNo : Z) (parent : option string) (now : Z) :
    Issue :=
  mkIssue id ("ISSUE-" +:+ Itoa sequenceNo) sequenceNo (ci_Type input) (ci_Title input) (ci_Description input)
    (ci_AcceptanceCriteria input) (ci_Status input) (ci_Priority input) parent (ci_BlockedReason input) 1
    None now now None None None [].

Definition createGate (input : CreateIssueInput) : Tx unit :=
  match enforcementPointForCreateStatus (ci_Status input) with
  | None => mret tt
  | Some point =>
      run evaluateGateAgainstLivePolicies point (ci_Type input) (ci_Labels input)
            (mkEvidence (acceptanceCriteriaBlank (ci_AcceptanceCriteria input)) ∅ ∅) ;;
      mret tt
  end.

Definition createTx (command : CreateIssueCommand) (input : CreateIssueInput) : Tx (result Issue) :=
  let now := ic_CreatedAt command in
  let id := ic_ID command in
  run createGate input ;;
  sequenceNo ← allocateIssueNumber now;
  parent ← lift_query (validateParent (ci_ParentID input));
  run Insert (createdIssue id input sequenceNo parent now) ;;
  labels ← resolveIssueLabels (ci_Labels input) (ci_CreateMissingLabels input) (ic_LabelIDs command) now;
  run replaceIssueLabels id labels ;;
  run appendIssueEvent id "issue_created" None None
        (PIssueCreated sequenceNo (ci_Type input) (ci_Status input) (ci_Priority input) parent (labelNames labels))
        now ;;
  let issue := setLabels labels (createdIssue id input sequenceNo parent now) in
  run storeIdempotency createIssueOperation (ic_IdempotencyKey command) (ic_RequestHash command) (RIssue issue) now ;;
  mret (Ok issue).

Definition CreateIssue (command : CreateIssueCommand) (s : Store) : result Issue * Store :=
  match CreateIssueInput_Validate (ic_Input command) with
  | Err e => (Err e, s)
  | Ok input =>
      if negb (ids_ParseStrict (ic_ID command))
      then (Err (WrapError "ulid" CodeIDGeneration "cannot generate issue identifier" false []), s)
      else Write (replayed createIssueOperation (ic_IdempotencyKey command) (ic_RequestHash command) asIssue
                    (createTx command input)) s
  end.

(** [GetIssue] reads the same row [loadIssueForMutation] does. *)
Definition GetIssue (identifier : IssueIdentifier) (s : Store) : result Issue :=
  match findIssue identifier s with Some issue => Ok issue | None => Err issueNotFound end.

(** ** Updating *)

(** One field of the payload per changed field. *)
Definition payloadField (next : Issue) (p : issueUpdatedPayload) (field : string) : issueUpdatedPayload :=
  let '(mkUpdatedPayload changed title type priority status parent description criteria reason labels) := p in
  if field =s "title" then
    mkUpdatedPayload changed (Some (i_Title next)) type priority status parent description criteria reason labels
  else if field =s "type" then
    mkUpdatedPayload changed title (Some (i_Type next)) priority status parent description criteria reason labels
  else if field =s "priority" then
    mkUpdatedPayload changed title type (Some (i_Priority next)) status parent description criteria reason labels
  else if field =s "status" then
    mkUpdatedPayload changed title type priority (Some (i_Status next)) parent description criteria reason labels
  else if field =s "parent_id" then
    mkUpdatedPayload changed title type priority status (i_ParentID next) description criteria reason labels
  else if field =s "description" then
    mkUpdatedPayload changed title type priority status parent (Some (isSet (i_Description next))) criteria reason labels
  else if field =s "acceptance_criteria" then
    mkUpdatedPayload changed title type priority status parent description (Some (isSet (i_AcceptanceCriteria next)))
      reason labels
  else if field =s "blocked_reason" then
    mkUpdatedPayload changed title type priority status parent description criteria
      (Some (isSet (i_BlockedReason next))) labels
  else if field =s "labels" then
    mkUpdatedPayload changed title type priority status parent description criteria reason
      (labelNames (i_Labels next))
  else p.
Definition newIssueUpdatedPayload (next : Issue) (changedFields : list string) : issueUpdatedPayload :=
  foldl (payloadField next)
    (mkUpdatedPayload (if null changedFields then None else Some changedFields)
       None None None None None None None None []) changedFields.

(** The checks that depend on stored state, in the order of the source. *)
Definition cancelGuard (current next : Issue) (changes : IssuePatch) (now : Z) : Tx unit :=
  if o_Set (p_Status changes) && (i_Status next =s StatusCancelled) && negb (i_Status current =s StatusCancelled)
  then refuseActiveAttempt (i_ID current) now
  else mret tt.

Definition retypeGuard (current next : Issue) : Tx unit :=
  if (i_Type current =s TypeEpic) && negb (i_Type next =s TypeEpic) then
    children ← query (epicHasLiveChildren (i_ID current));
    raise_if (children : bool) with epicHasChildrenError "type" ;;
    mret tt
  else mret tt.

Definition resolveParent (current next : Issue) (changes : IssuePatch) : Tx Issue :=
  next ← (match o_Set (p_ParentID changes), i_ParentID next with
          | true, Some parent =>
              resolved ← lift_query (validateParent (Some parent));
              raise_if optEq resolved (Some (i_ID current)) with invalidParentError ;;
              mret (setParent resolved next)
          | _, _ => mret next
          end);
  raise_if (i_Type next =s TypeEpic) && isSet (i_ParentID next) with invalidParentError ;;
  mret next.

Definition resolveLabelChange (command : UpdateIssueCommand) (current next : Issue) : Tx Issue :=
  let changes := uc_Changes command in
  if o_Set (p_Labels changes) then
    labels ← resolveIssueLabels (default [] (o_Value (p_Labels changes))) (uc_CreateMissingLabels command)
               (uc_LabelIDs command) (uc_UpdatedAt command);
    run replaceIssueLabels (i_ID current) labels ;;
    mret (setLabels labels next)
  else mret next.

(** Version, time of the update, and [closed_at]. *)
Definition stampUpdate (current next : Issue) (changes : IssuePatch) (now : Z) : Issue :=
  setStamp (i_Version current + 1) now
    (if o_Set (p_Status changes) then
       if Status_Terminal (i_Status next) && negb (Status_Terminal (i_Status current)) then Some now
       else if negb (Status_Terminal (i_Status next)) && Status_Terminal (i_Status current) then None
       else i_ClosedAt next
     else i_ClosedAt next) next.

Definition updateEventType (changes : IssuePatch) : string :=
  if o_Set (p_Status changes) then "status_changed"
  else if o_Set (p_Labels changes) then "labels_changed"
  else "issue_updated".

Definition updateTx (command : UpdateIssueCommand) : Tx (result UpdateIssueResult) :=
  let now := uc_UpdatedAt command in
  let changes := uc_Changes command in
  current ← loadIssueForMutation (uc_Identifier command);
  raise_if isSet (i_ArchivedAt current) with issueArchived ;;
  raise_if negb (i_Version current =? uc_ExpectedVersion command)%Z
    with NewError CodeVersionConflict "issue version conflict" true [] ;;
  patched ← lift (ApplyIssuePatch current changes);
  run cancelGuard current patched.1 changes now ;;
  run retypeGuard current patched.1 ;;
  parented ← resolveParent current patched.1 changes;
  labelled ← resolveLabelChange command current parented;
  let next := stampUpdate current labelled changes now in
  affected ← Update (i_ID current)
    (λ row, (i_Version row =? uc_ExpectedVersion command)%Z && negb (isSet (i_ArchivedAt row))) (updateColumns next);
  failure ← query (classifyConditionalUpdateFailure (i_ID current));
  raise_if negb (affected =? 1)%Z with failure ;;
  run appendIssueEvent (i_ID current) (updateEventType changes) None None
        (PIssueUpdated (newIssueUpdatedPayload next patched.2)) now ;;
  let response := mkUpdateResult next patched.2 in
  run storeIdempotency updateIssueOperation (uc_IdempotencyKey command) (uc_RequestHash command)
        (RUpdate response) now ;;
  mret (Ok response).

Definition UpdateIssue (command : UpdateIssueCommand) (s : Store) : result UpdateIssueResult * Store :=
  Write (replayed updateIssueOperation (uc_IdempotencyKey command) (uc_RequestHash command) asUpdate
           (updateTx command)) s.

(** ** Archiving *)

Definition archiveTx (command : ArchiveIssueCommand) : Tx (result Issue) :=
  let now := xc_ArchivedAt command in
  current ← loadIssueForMutation (xc_Identifier command);
  raise_if isSet (i_ArchivedAt current) with issueArchived ;;
  raise_if negb (i_Version current =? xc_ExpectedVersion command)%Z
    with NewError CodeVersionConflict "issue version conflict" true [] ;;
  children ← query (λ s, (i_Type current =s TypeEpic) && epicHasLiveChildren (i_ID current) s);
  raise_if (children : bool) with epicHasChildrenError "id" ;;
  run refuseActiveAttempt (i_ID current) now ;;
  affected ← Update (i_ID current)
    (λ row, (i_Version row =? xc_ExpectedVersion command)%Z && negb (isSet (i_ArchivedAt row)))
    (setArchived (Some now) now);
  failure ← query (classifyConditionalUpdateFailure (i_ID current));
  raise_if negb (affected =? 1)%Z with failure ;;
  run appendIssueEvent (i_ID current) "issue_archived" None None
        (PIssueArchived (xc_ExpectedVersion command + 1) now) now ;;
  issue ← loadIssueForMutation (internalIdentifier (i_ID current));
  run storeIdempotency archiveIssueOperation (xc_IdempotencyKey command) (xc_RequestHash command) (RIssue issue) now ;;
  mret (Ok issue).

Definition ArchiveIssue (command : ArchiveIssueCommand) (s : Store) : result Issue * Store :=
  Write (replayed archiveIssueOperation (xc_IdempotencyKey command) (xc_RequestHash command) asIssue
           (archiveTx command)) s.

Definition unarchiveTx (command : UnarchiveIssueCommand) : Tx (result Issue) :=
  let now := yc_UnarchivedAt command in
  current ← loadIssueForMutation (yc_Identifier command);
  raise_if negb (isSet (i_ArchivedAt current)) with NewError CodeIssueNotArchived "issue is not archived" false [] ;;
  raise_if negb (i_Version current =? yc_ExpectedVersion command)%Z
    with NewError CodeVersionConflict "issue version conflict" true [] ;;
  run (if negb (i_Type current =s TypeEpic) && isSet (i_ParentID current) then
         resolved ← lift_query (validateParent (i_ParentID current));
         raise_if negb (isSet resolved) with invalidParentError ;;
         mret tt
       else mret tt) ;;
  run refuseActiveAttempt (i_ID current) now ;;
  affected ← Update (i_ID current)
    (λ row, (i_Version row =? yc_ExpectedVersion command)%Z && isSet (i_ArchivedAt row)) (setArchived None now);
  failure ← query (classifyConditionalUpdateFailure (i_ID current));
  raise_if negb (affected =? 1)%Z with failure ;;
  run appendIssueEvent (i_ID current) "issue_unarchived" (yc_SessionID command) None
        (PIssueUnarchived (yc_ExpectedVersion command + 1) now) now ;;
  issue ← loadIssueForMutation (internalIdentifier (i_ID current));
  run storeIdempotency unarchiveIssueOperation (yc_IdempotencyKey command) (yc_RequestHash command) (RIssue issue) now ;;
  mret (Ok issue).

Definition UnarchiveIssue (command : UnarchiveIssueCommand) (s : Store) : result Issue * Store :=
  Write (replayed unarchiveIssueOperation (yc_IdempotencyKey command) (yc_RequestHash command) asIssue
           (unarchiveTx command)) s.

Definition LookupCreateIssue := lookupSaved createIssueOperation asIssue.
Definition LookupUpdateIssue := lookupSaved updateIssueOperation asUpdate.
Definition LookupArchiveIssue := lookupSaved archiveIssueOperation asIssue.
Definition LookupUnarchiveIssue := lookupSaved unarchiveIssueOperation asIssue.
End repository.

(** ** The lifecycle invariant *)

Section lifecycle.
Context `{UnicodeTables, ULID, SnapshotHash, SQLiteDriver, Misused}.

Lemma schema_pres_insertLabel label : preserves schema_ok (insertLabel label).
Proof.
  intros s u s' Hs. unfold insertLabel. destruct (_ || _); [by intros [= _ <-]|]. by apply schema_pres_Insert.
Qed.
Lemma frame_insertLabel label : frame (insertLabel label).
Proof.
  intros A0 R Q s u s' Ht. unfold insertLabel. destruct (_ || _); [by intros [= _ <-]|]. by apply frame_Insert.
Qed.

Lemma replaceIssueLabels_Ok issueID labels s u s' :
  replaceIssueLabels issueID labels s = Ok (u, s') →
  NoDup (map l_ID labels) ∧ (∀ l, l ∈ labels → fk (st_labels s) (l_ID l) = true) ∧
  ∃ n, Update (R := Issue) issueID (λ _, true) (setLabels (stable_sort labelLess labels)) s = Ok (n, s').
Proof.
  unfold replaceIssueLabels. destruct (_ && _) eqn:Hc; [|done]. apply andb_true_iff in Hc as [Hnd%bool_decide_eq_true Hf].
  intros Hrun. inv_tx. split_and!; [done| |by exists a]. rewrite forallb_forall in Hf.
  intros l Hl. by apply Hf, list_elem_of_In.
Qed.
Lemma schema_pres_replaceIssueLabels id labels : preserves schema_ok (replaceIssueLabels id labels).
Proof. intros s u s' Hs (_ & _ & n & Hrun)%replaceIssueLabels_Ok. by eapply schema_pres_Update_issue in Hrun. Qed.
Lemma frame_replaceIssueLabels id labels : frame (replaceIssueLabels id labels).
Proof. intros A0 R Q s u s' Hs (_ & _ & n & Hrun)%replaceIssueLabels_Ok. by eapply frame_Update in Hrun. Qed.

Lemma allocateIssueNumber_Ok now s n s' :
  allocateIssueNumber now s = Ok (n, s') ↔
  ∃ row, st_project s = Some row ∧ n = pj_NextIssueNumber row ∧
    s' = set_project (Some (mkProjectRow (pj_ID row) (n + 1) now)) s.
Proof.
  unfold allocateIssueNumber. destruct (st_project s) as [row|]; [|naive_solver]. split.
  - intros [= <- <-]. by exists row.
  - intros (? & [= <-] & -> & ->). done.
Qed.
Lemma schema_pres_allocate now : preserves schema_ok (allocateIssueNumber now).
Proof. intros s n s' Hs (row & _ & _ & ->)%allocateIssueNumber_Ok. apply (schema_same s); [by split|apply Hs|done]. Qed.
Lemma frame_allocate now : frame (allocateIssueNumber now).
Proof. intros A0 R Q s n s' Ht (row & _ & _ & ->)%allocateIssueNumber_Ok. done. Qed.
Hint Resolve schema_pres_insertLabel frame_insertLabel schema_pres_replaceIssueLabels frame_replaceIssueLabels
  schema_pres_allocate frame_allocate : pres.

Lemma resolveLabels_pres P names createMissing labelIDs now :
  (∀ label, preserves P (insertLabel label)) → preserves P (resolveLabels names createMissing labelIDs now).
Proof.
  intros Hi. revert labelIDs. induction names as [|name names IH]; intros labelIDs; cbn [resolveLabels]; [eauto with pres|].
  apply preserves_bind; [|intros label; apply preserves_bind; [apply IH|eauto with pres]].
  unfold resolveLabel. pres.
Qed.
Lemma schema_pres_resolveIssueLabels names createMissing labelIDs now :
  preserves schema_ok (resolveIssueLabels names createMissing labelIDs now).
Proof. unfold resolveIssueLabels. pres. apply resolveLabels_pres. eauto with pres. Qed.
Lemma frame_resolveIssueLabels names createMissing labelIDs now :
  frame (resolveIssueLabels names createMissing labelIDs now).
Proof. intros A0 R Q. unfold resolveIssueLabels. pres. apply resolveLabels_pres. intros label. apply frame_insertLabel. Qed.
Hint Resolve schema_pres_resolveIssueLabels frame_resolveIssueLabels : pres.

Lemma lifecycle_pres_refuse id now : preserves lifecycle_ok (refuseActiveAttempt id now).
Proof. unfold refuseActiveAttempt. pres. Qed.
Hint Resolve lifecycle_pres_refuse : pres.

Lemma CreateIssue_lifecycle command s : lifecycle_ok s → lifecycle_ok (CreateIssue command s).2.
Proof.
  intros Hl. unfold CreateIssue. destruct (CreateIssueInput_Validate _) as [input|]; [|done]. case_match; [done|].
  apply (preserves_Write lifecycle_ok); [|done]. apply replayed_pres. unfold createTx, createGate. cbv zeta.
  apply lifecycle_frame; [|intros ? ? ?]; pres.
Qed.

Lemma lifecycle_pres_Update_issue id p f :
  (∀ r, i_ID (f r) = i_ID r) → preserves lifecycle_ok (Update (R := Issue) id p f).
Proof. intros Hf. apply lifecycle_frame; [by apply schema_pres_Update_issue|apply frame_Update]. Qed.

Lemma UpdateIssue_lifecycle command s : lifecycle_ok s → lifecycle_ok (UpdateIssue command s).2.
Proof.
  intros Hl. apply (preserves_Write lifecycle_ok); [|done]. apply replayed_pres.
  unfold updateTx, cancelGuard, retypeGuard, resolveParent, resolveLabelChange. cbv zeta. pres.
  all: by apply lifecycle_pres_Update_issue.
Qed.

Lemma ArchiveIssue_lifecycle command s : lifecycle_ok s → lifecycle_ok (ArchiveIssue command s).2.
Proof.
  intros Hl. apply (preserves_Write lifecycle_ok); [|done]. apply replayed_pres. unfold archiveTx. cbv zeta. pres.
  all: by apply lifecycle_pres_Update_issue.
Qed.

Lemma UnarchiveIssue_lifecycle command s : lifecycle_ok s → lifecycle_ok (UnarchiveIssue command s).2.
Proof.
  intros Hl. apply (preserves_Write lifecycle_ok); [|done]. apply replayed_pres. unfold unarchiveTx. cbv zeta. pres.
  all: by apply lifecycle_pres_Update_issue.
Qed.
End lifecycle.

(** ** What the operations write *)

Section closed.
Context `{UnicodeTables, ULID, JSONCodec, URLParser, SnapshotHash, SQLiteDriver, Misused} (P : Store → Prop) `{!WorkClosed P}.
Hypothesis closed_insert : ∀ row : Issue, preserves P (Insert row).
Hypothesis closed_update : ∀ id p f, (∀ r, i_ID (f r) = i_ID r) → preserves P (Update (R := Issue) id p f).
Hypothesis closed_label : ∀ row : Label, preserves P (Insert row).
Hypothesis closed_allocate : ∀ now, preserves P (allocateIssueNumber now).

Lemma closed_insertLabel label : preserves P (insertLabel label).
Proof. intros s u s' Hs. unfold insertLabel. destruct (_ || _); [by intros [= _ <-]|]. by apply closed_label. Qed.
Lemma closed_resolveIssueLabels names createMissing labelIDs now :
  preserves P (resolveIssueLabels names createMissing labelIDs now).
Proof. unfold resolveIssueLabels. pres. apply resolveLabels_pres, closed_insertLabel. Qed.
Lemma closed_replaceIssueLabels id labels : preserves P (replaceIssueLabels id labels).
Proof. intros s u s' Hs (_ & _ & n & Hrun)%replaceIssueLabels_Ok. by eapply closed_update in Hrun. Qed.
Lemma closed_refuse id now : preserves P (refuseActiveAttempt id now).
Proof. unfold refuseActiveAttempt. pres. by apply work_expireForIssue. Qed.
Lemma closed_event i t sid aid p c : preserves P (appendIssueEvent i t sid aid p c).
Proof. unfold appendIssueEvent. pres. Qed.
Hint Resolve closed_resolveIssueLabels closed_replaceIssueLabels closed_refuse closed_event : pres.

Lemma CreateIssue_closed command s : P s → P (CreateIssue command s).2.
Proof.
  intros Hs. unfold CreateIssue. destruct (CreateIssueInput_Validate _) as [input|]; [|done]. case_match; [done|].
  apply (preserves_Write P); [|done]. apply replayed_pres. unfold createTx, createGate. cbv zeta. pres.
Qed.
Lemma UpdateIssue_closed command s : P s → P (UpdateIssue command s).2.
Proof.
  intros Hs. apply (preserves_Write P); [|done]. apply replayed_pres.
  unfold updateTx, cancelGuard, retypeGuard, resolveParent, resolveLabelChange. cbv zeta. pres.
  all: by apply closed_update.
Qed.
Lemma ArchiveIssue_closed command s : P s → P (ArchiveIssue command s).2.
Proof.
  intros Hs. apply (preserves_Write P); [|done]. apply replayed_pres. unfold archiveTx. cbv zeta. pres.
  all: by apply closed_update.
Qed.
Lemma UnarchiveIssue_closed command s : P s → P (UnarchiveIssue command s).2.
Proof.
  intros Hs. apply (preserves_Write P); [|done]. apply replayed_pres. unfold unarchiveTx. cbv zeta. pres.
  all: by apply closed_update.
Qed.
End closed.

(** ** What creating an issue writes *)

Section effects.
Context `{UnicodeTables, ULID, SnapshotHash, SQLiteDriver, Misused}.

(** *** Finding issues *)

Lemma findIssue_Some identifier s i :
  schema_ok s → findIssue identifier s = Some i → st_issues s !! i_ID i = Some i.
Proof.
  intros Hok. unfold findIssue. destruct (id_Kind identifier).
  - intros Hi. pose proof (proj1 (ok_issues _ Hok) _ _ Hi) as Hid. cbn in Hid. by rewrite Hid.
  - intros [Hin _]%find_some. apply list_elem_of_In, (elem_of_rows (R := Issue)) in Hin as [id Hi].
    pose proof (proj1 (ok_issues _ Hok) _ _ Hi) as Hid. cbn in Hid, Hi. by rewrite Hid.
Qed.

Lemma loadIssueForMutation_Ok identifier s i s' :
  schema_ok s → loadIssueForMutation identifier s = Ok (i, s') → s' = s ∧ st_issues s !! i_ID i = Some i.
Proof.
  intros Hok Hl. change (match findIssue identifier s with Some issue => Ok (issue, s) | None => Err issueNotFound end = Ok (i, s')) in Hl.
  destruct (findIssue identifier s) as [j|] eqn:Hf; [|done]. injection Hl as -> <-. split; [done|by eapply findIssue_Some].
Qed.

Lemma sequence_unique s i j a b :
  schema_ok s → st_issues s !! i = Some a → st_issues s !! j = Some b → i_SequenceNo a = i_SequenceNo b → i = j.
Proof.
  intros Hs Hi Hj He. apply (clash_unique (st_issues s) sequenceClash i j a b); [|done|by apply Z.eqb_eq].
  pose proof (proj2 (ok_issues _ Hs) _ _ Hi) as Hc. cbn in Hc. unfold issue_constraint in Hc. conj_hyps.
  by apply negb_true_iff.
Qed.

Lemma findIssue_display s id i :
  schema_ok s → st_issues s !! id = Some i →
  findIssue (mkIdentifier IssueIdentifierDisplayID (i_DisplayID i) (i_SequenceNo i)) s = Some i.
Proof.
  intros Hok Hi. cbn. destruct (List.find _ (rows s)) as [j|] eqn:Hf.
  - apply find_some in Hf as [Hin Hn%Z.eqb_eq]. apply list_elem_of_In, (elem_of_rows (R := Issue)) in Hin as [id' Hj].
    cbn in Hj. assert (id' = id) as -> by by eapply sequence_unique. congruence.
  - exfalso. assert (Hin : i ∈ rows s) by (apply (elem_of_rows (R := Issue)); by exists id).
    pose proof (find_none _ _ Hf i (proj1 (list_elem_of_In _ _) Hin)) as Hn. cbn in Hn. lia.
Qed.
Lemma findIssue_grows identifier s s' i :
  schema_ok s' → st_issues s ⊆ st_issues s' → findIssue identifier s = Some i → findIssue identifier s' = Some i.
Proof.
  intros Hok Hsub. unfold findIssue. destruct (id_Kind identifier); [intros Hi; by eapply lookup_weaken|].
  intros [Hin Hn]%find_some. apply list_elem_of_In, (elem_of_rows (R := Issue)) in Hin as [id Hi]. cbn in Hi, Hn.
  pose proof (lookup_weaken _ _ _ _ Hi Hsub) as Hi'. apply Z.eqb_eq in Hn. rewrite <-Hn.
  exact (findIssue_display s' id i Hok Hi').
Qed.

(** *** Labels *)

(** What the labels of an issue do not touch. *)
Definition issue_side (s : Store) := (st_issues s, st_project s, st_relations s, st_decisions s).

Lemma keep_issues_resolveLabels x names createMissing labelIDs now :
  preserves (keeping issue_side x) (resolveIssueLabels names createMissing labelIDs now).
Proof.
  unfold resolveIssueLabels. pres. apply resolveLabels_pres. intros label s u s' Hx. unfold insertLabel.
  destruct (_ || _); [by intros [= _ <-]|]. by apply (keep_Insert issue_side).
Qed.

(** Every requested name is resolved to a stored label of that name. *)
Definition label_named (s : Store) (name : string) (l : Label) : Prop :=
  ∃ row, st_labels s !! l_ID l = Some row ∧ scanLabel row = Ok l ∧ nocaseEq (l_Name row) name = true.

Lemma loadLabelByName_Some name s l :
  schema_ok s → loadLabelByName name s = Ok (Some l) → label_named s name l.
Proof.
  intros Hok. unfold loadLabelByName. destruct (List.find _ _) as [row|] eqn:Hf; [|done].
  destruct (scanLabel row) as [label|] eqn:Hs; [|done]. intros [= <-].
  apply find_some in Hf as [Hin Hn]. apply list_elem_of_In, (elem_of_rows (R := Label)) in Hin as [id Hrow].
  pose proof (proj1 (ok_labels _ Hok) id row Hrow) as Hid. cbn in Hid, Hrow. exists row. split_and!; [|done|done].
  assert (l_ID label = l_ID row) as ->; [|by rewrite Hid].
  unfold scanLabel in Hs. destruct (NormalizeLabelName _) as [[]|]; [|done]. by injection Hs as <-.
Qed.

Lemma insertLabel_grows label s u s' : insertLabel label s = Ok (u, s') → st_labels s ⊆ st_labels s'.
Proof.
  unfold insertLabel. destruct (_ || _); [by intros [= _ ->]|]. intros (Hn & _ & ->)%Insert_Ok. by apply insert_subseteq.
Qed.

Lemma label_named_grows s s' name l : st_labels s ⊆ st_labels s' → label_named s name l → label_named s' name l.
Proof. intros Hs (row & Hr & ?). exists row. split; [by eapply lookup_weaken|done]. Qed.

Lemma resolveLabel_Ok createMissing now name labelID s l s' :
  schema_ok s → resolveLabel createMissing now name labelID s = Ok (l, s') →
  schema_ok s' ∧ st_labels s ⊆ st_labels s' ∧ label_named s' name l.
Proof.
  intros Hok Hrun. unfold resolveLabel in Hrun. inv_tx_step Hrun. apply lift_query_Ok in Hstep as [Hl ->].
  destruct a as [label|]; [apply tx_ret_Ok in Hrun as [-> ->]; split_and!; [done|done|by apply loadLabelByName_Some]|].
  inv_tx_step Hrun. inv_tx_step Hrun. pose proof (insertLabel_grows _ _ _ _ Hstep) as Hg.
  apply schema_pres_insertLabel in Hstep; [|done]. inv_tx_step Hrun. apply lift_query_Ok in Hstep0 as [Hl' ->].
  destruct a0 as [label|]; [|done]. apply tx_ret_Ok in Hrun as [-> ->]. split_and!; [done|done|by apply loadLabelByName_Some].
Qed.

Lemma resolveLabels_Ok names createMissing labelIDs now s labels s' :
  schema_ok s → resolveLabels names createMissing labelIDs now s = Ok (labels, s') →
  st_labels s ⊆ st_labels s' ∧ Forall2 (label_named s') names labels.
Proof.
  revert labelIDs s labels s'. induction names as [|name names IH]; intros labelIDs s labels s' Hok Hrun; cbn [resolveLabels] in Hrun.
  { apply tx_ret_Ok in Hrun as [-> ->]. done. }
  inv_tx_step Hrun. apply resolveLabel_Ok in Hstep as (Hok1 & Hg1 & Hn); [|done]. inv_tx_step Hrun.
  apply IH in Hstep as [Hg2 Hall]; [|done]. apply tx_ret_Ok in Hrun as [-> ->].
  split; [by etrans|]. constructor; [by eapply label_named_grows|done].
Qed.

Lemma reads_createGate input : reads (createGate input).
Proof.
  unfold createGate. intros s u s'. destruct (enforcementPointForCreateStatus _); intros Hrun; [|by inv_tx].
  inv_tx_step Hrun. apply reads_evaluateGateAgainstLivePolicies in Hstep as ->. by inv_tx.
Qed.

(** An issue inserted with its labels, and what follows. *)
Lemma insertIssue_Ok {B} (issue : Issue) names createMissing labelIDs now (k : list Label → Tx B) s b s' :
  schema_ok s →
  (run Insert issue ;;
   labels ← resolveIssueLabels names createMissing labelIDs now;
   run replaceIssueLabels (i_ID issue) labels ;;
   k labels) s = Ok (b, s') →
  ∃ labels s1, k labels s1 = Ok (b, s') ∧ schema_ok s1 ∧ Forall2 (label_named s1) names labels ∧
    st_issues s !! i_ID issue = None ∧ constraint s (i_ID issue) issue = true ∧
    st_issues s1 = <[i_ID issue := setLabels (stable_sort labelLess labels) issue]> (st_issues s) ∧
    st_project s1 = st_project s ∧ st_relations s1 = st_relations s ∧ st_decisions s1 = st_decisions s ∧
    st_labels s ⊆ st_labels s1.
Proof.
  intros Hok Hrun. inv_tx_step Hrun. apply schema_pres_Insert in Hstep as Hok1; [|done].
  apply Insert_Ok in Hstep as (Hn & Hc & ->). inv_tx_step Hrun. rename Hstep into Hres. rename a0 into labels.
  apply schema_pres_resolveIssueLabels in Hres as Hok2; [|done].
  assert (Hlab : st_labels s ⊆ st_labels s0 ∧ Forall2 (label_named s0) names labels).
  { unfold resolveIssueLabels in Hres. inv_tx_step Hres. apply lift_Ok in Hstep as [_ ->]. by apply resolveLabels_Ok in Hres. }
  destruct Hlab as [Hgrow Hlab].
  apply (kept issue_side) in Hres; [|intros; apply keep_issues_resolveLabels]. injection Hres as Hi Hp Hr Hd. cbn in Hn, Hi, Hp, Hr, Hd.
  inv_tx_step Hrun. apply schema_pres_replaceIssueLabels in Hstep as Hok3; [|done].
  apply replaceIssueLabels_Ok in Hstep as (_ & _ & n & Hu). exists labels, s1. apply Update_Ok in Hu as [(row & Hrow & _ & _ & _ & ->)|(Hf & _)].
  - cbn in Hrow. rewrite Hi, lookup_insert_eq in Hrow. injection Hrow as <-. split_and!; try done. cbn. rewrite Hi. apply insert_insert_eq.
  - exfalso. cbn in Hf. rewrite Hi, lookup_insert_eq in Hf. by specialize (Hf _ eq_refl).
Qed.
End effects.
