(* ===== verification/PolicyStore.v ===== *)
(** * The workflow policy repository

    [internal/adapters/sqlite/workflow_policy.go]: creating, replacing and
    archiving policies, each with one row of the audit log
    [workflow_policy_events], and reading policies and frozen snapshots.

    A requirement is stored without its policy's id, which is attached again
    when the row is read.

    The main result: the audit log is complete.  The events of a policy count
    its versions one by one and its last event is its present state. *)

From S2P Require Import Prelude GoStrings Errors Validation Samples Issue Relation Session IssueOps.
From S2P Require Import Discussion Resource Attempt AttemptPolicy Gates Store Schema ReservationStore.
From S2P Require Import GateStore ReviewStore Termination ReviewOps AttemptStore Footprint.

Definition createWorkflowPolicyOperation := "create_workflow_policy".
Definition updateWorkflowPolicyOperation := "update_workflow_policy".
Definition archiveWorkflowPolicyOperation := "archive_workflow_policy".
Definition asPolicy (r : Response) : option WorkflowPolicy := match r with RPolicy r => Some r | _ => None end.

(** ** Commands, of [internal/ports/workflow_policy.go] *)

Record CreateWorkflowPolicyCommand := mkCreatePolicy {
  wc_ID : string;
  wc_Input : WorkflowPolicyInput;
  wc_SessionID : option string;
  wc_CreatedAt : Z;
  wc_IdempotencyKey : string;
  wc_RequestHash : string;
}.

Record UpdateWorkflowPolicyCommand := mkUpdatePolicy {
  wu_PolicyID : string;
  wu_ExpectedVersion : Z;
  wu_Input : WorkflowPolicyInput;
  wu_SessionID : option string;
  wu_UpdatedAt : Z;
  wu_IdempotencyKey : string;
  wu_RequestHash : string;
}.

Record ArchiveWorkflowPolicyCommand := mkArchivePolicy {
  wx_PolicyID : string;
  wx_ExpectedVersion : Z;
  wx_SessionID : option string;
  wx_ArchivedAt : Z;
  wx_IdempotencyKey : string;
  wx_RequestHash : string;
}.

Definition attachPolicy (policyID : string) (r : PolicyRequirementInput) : PolicyRequirement :=
  mkRequirement policyID (qi_Key r) (qi_Kind r) (qi_Field r) (qi_EvidenceKey r) (qi_Purpose r)
    (qi_AllowNotApplicable r).
Definition attachPolicies (policyID : string) (input : WorkflowPolicyInput) : list PolicyRequirement :=
  map (attachPolicy policyID) (wi_Requirements input).

(** ** Row updates *)

Definition replacePolicy (input : WorkflowPolicyInput) (now : Z) (p : WorkflowPolicy) : WorkflowPolicy :=
  mkPolicy (wp_ID p) (wi_Selector input) (wp_Status p) (wp_Version p + 1) (attachPolicies (wp_ID p) input)
    (wp_CreatedAt p) now.
Definition archivePolicy (now : Z) (p : WorkflowPolicy) : WorkflowPolicy :=
  mkPolicy (wp_ID p) (wp_Selector p) PolicyStatusArchived (wp_Version p + 1) (wp_Requirements p) (wp_CreatedAt p) now.

Section repository.
Context `{UnicodeTables, ULID, SQLiteDriver, Misused}.

Definition policyNotFound : DomainError := NewError CodePolicyNotFound "workflow policy not found" false [].
Definition policyArchived : DomainError := NewError CodePolicyArchived "workflow policy is archived" false [].
Definition policyVersionConflict : DomainError :=
  NewError CodeVersionConflict "workflow policy version conflict" true [].

Definition loadWorkflowPolicy (policyID : string) (s : Store) : result WorkflowPolicy :=
  match st_policies s !! policyID with None => Err policyNotFound | Some row => scanWorkflowPolicy row end.

Definition requireSingleRowAffected (count : Z) : Tx unit :=
  raise_if negb (count =? 1)%Z with policyVersionConflict ;; mret tt.

Definition policyEventType_Valid (t : string) : bool :=
  enumValid t ["policy_created"; "policy_updated"; "policy_archived"].
Definition policy_event_constraint (s : Store) (e : PolicyEvent) : bool :=
  fk (st_policies s) (pe_PolicyID e) && policyEventType_Valid (pe_Type e) && fk_session s (pe_SessionID e) &&
  match pe_PriorVersion e with Some v => (1 <=? v)%Z | None => true end && (1 <=? pe_NewVersion e)%Z &&
  Bool.eqb (pe_Type e =s "policy_created") (negb (isSet (pe_PriorVersion e))).

Definition appendWorkflowPolicyEvent (policy : WorkflowPolicy) (eventType : string) (priorVersion : option Z)
    (sessionID : option string) (now : Z) : Tx unit := λ s,
  let e := mkPolicyEvent (wp_ID policy) (encodeWorkflowPolicyEventPayload policy) eventType sessionID priorVersion
             (wp_Version policy) now in
  if policy_event_constraint s e then Ok (tt, set_policy_events (st_policy_events s ++ [e]) s)
  else Err (constraintError "workflow_policy_events").

(** What follows the row's write in each of the three operations. *)
Definition recordPolicy (operation key hash policyID eventType : string) (priorVersion : option Z)
    (sessionID : option string) (now : Z) : Tx (result WorkflowPolicy) :=
  policy ← lift_query (loadWorkflowPolicy policyID);
  run appendWorkflowPolicyEvent policy eventType priorVersion sessionID now ;;
  run storeIdempotency operation key hash (RPolicy policy) now ;;
  mret (Ok policy).

Definition createPolicyTx (command : CreateWorkflowPolicyCommand) (input : WorkflowPolicyInput) :
    Tx (result WorkflowPolicy) :=
  let now := wc_CreatedAt command in
  run Insert (mkPolicy (wc_ID command) (wi_Selector input) PolicyStatusActive 1
                (attachPolicies (wc_ID command) input) now now) ;;
  recordPolicy createWorkflowPolicyOperation (wc_IdempotencyKey command) (wc_RequestHash command) (wc_ID command)
    "policy_created" None (wc_SessionID command) now.

Definition CreatePolicy (command : CreateWorkflowPolicyCommand) (s : Store) : result WorkflowPolicy * Store :=
  match WorkflowPolicyInput_Validate (wc_Input command) with
  | Err e => (Err e, s)
  | Ok input =>
      if negb (ids_ParseStrict (wc_ID command))
      then (Err (WrapError "ulid" CodeIDGeneration "cannot generate policy identifier" false []), s)
      else Write (replayed createWorkflowPolicyOperation (wc_IdempotencyKey command) (wc_RequestHash command) asPolicy
                    (createPolicyTx command input)) s
  end.

(** The policy a mutation starts from: present, not archived, at the version. *)
Definition currentPolicy (policyID : string) (expectedVersion : Z) : Tx WorkflowPolicy :=
  current ← lift_query (loadWorkflowPolicy policyID);
  raise_if wp_Status current =s PolicyStatusArchived with policyArchived ;;
  raise_if negb (wp_Version current =? expectedVersion)%Z with policyVersionConflict ;;
  mret current.

Definition updatePolicyTx (command : UpdateWorkflowPolicyCommand) (input : WorkflowPolicyInput) :
    Tx (result WorkflowPolicy) :=
  let now := wu_UpdatedAt command in
  current ← currentPolicy (wu_PolicyID command) (wu_ExpectedVersion command);
  affected ← Update (wu_PolicyID command) (λ p, (wp_Version p =? wu_ExpectedVersion command)%Z)
               (replacePolicy input now);
  run requireSingleRowAffected affected ;;
  recordPolicy updateWorkflowPolicyOperation (wu_IdempotencyKey command) (wu_RequestHash command) (wu_PolicyID command)
    "policy_updated" (Some (wp_Version current)) (wu_SessionID command) now.

Definition UpdatePolicy (command : UpdateWorkflowPolicyCommand) (s : Store) : result WorkflowPolicy * Store :=
  match WorkflowPolicyInput_Validate (wu_Input command) with
  | Err e => (Err e, s)
  | Ok input =>
      Write (replayed updateWorkflowPolicyOperation (wu_IdempotencyKey command) (wu_RequestHash command) asPolicy
               (updatePolicyTx command input)) s
  end.

Definition archivePolicyTx (command : ArchiveWorkflowPolicyCommand) : Tx (result WorkflowPolicy) :=
  let now := wx_ArchivedAt command in
  current ← currentPolicy (wx_PolicyID command) (wx_ExpectedVersion command);
  affected ← Update (wx_PolicyID command) (λ p, (wp_Version p =? wx_ExpectedVersion command)%Z) (archivePolicy now);
  run requireSingleRowAffected affected ;;
  recordPolicy archiveWorkflowPolicyOperation (wx_IdempotencyKey command) (wx_RequestHash command)
    (wx_PolicyID command) "policy_archived" (Some (wp_Version current)) (wx_SessionID command) now.

Definition ArchivePolicy (command : ArchiveWorkflowPolicyCommand) (s : Store) : result WorkflowPolicy * Store :=
  Write (replayed archiveWorkflowPolicyOperation (wx_IdempotencyKey command) (wx_RequestHash command) asPolicy
           (archivePolicyTx command)) s.

(** ** Reads *)

Definition GetPolicy (policyID : string) (s : Store) : result WorkflowPolicy := loadWorkflowPolicy policyID s.
Definition GetAttemptGateSnapshot (attemptID : string) (s : Store) : result GateSnapshot :=
  loadGateSnapshot (st_attempt_snapshots s) attemptID.
Definition GetReviewTargetGateSnapshot (targetID : string) (s : Store) : result GateSnapshot :=
  loadGateSnapshot (st_target_snapshots s) targetID.
End repository.

(** ** The audit log *)

(** An event tells the state it left its policy in: the payload is the policy's
    encoding, the requirements are those of the payload with the policy's id
    attached, and the event is of the policy's version and last update. *)
Definition records_policy (e : PolicyEvent) (p : WorkflowPolicy) : Prop :=
  pe_PolicyID e = wp_ID p ∧ pe_Payload e = encodeWorkflowPolicyEventPayload p ∧
  wp_Requirements p = map (attachPolicy (wp_ID p)) (wpp_Requirements (pe_Payload e)) ∧
  pe_NewVersion e = wp_Version p ∧ pe_CreatedAt e = wp_UpdatedAt p.

(** The events of one policy: created once, at version 1 and active; then one
    event per version, none after the policy was archived. *)
Inductive history : list PolicyEvent → WorkflowPolicy → Prop :=
  | history_created e p :
      records_policy e p → pe_Type e = "policy_created" → pe_PriorVersion e = None →
      wp_Version p = 1%Z → wp_Status p = PolicyStatusActive → wp_CreatedAt p = wp_UpdatedAt p →
      history [e] p
  | history_next l p e p' :
      history l p → wp_Status p ≠ PolicyStatusArchived → records_policy e p' →
      pe_PriorVersion e = Some (wp_Version p) → wp_Version p' = (wp_Version p + 1)%Z →
      wp_ID p' = wp_ID p → wp_CreatedAt p' = wp_CreatedAt p →
      (pe_Type e = "policy_updated" ∧ wp_Status p' = wp_Status p ∨
       pe_Type e = "policy_archived" ∧ wp_Status p' = PolicyStatusArchived) →
      history (l ++ [e]) p'.

Definition policyLog (id : string) (s : Store) : list PolicyEvent :=
  List.filter (λ e, pe_PolicyID e =s id) (st_policy_events s).

Definition audited (s : Store) : Prop := ∀ id,
  match st_policies s !! id with Some p => history (policyLog id s) p | None => policyLog id s = [] end.

Lemma history_length l p : history l p → Z.of_nat (length l) = wp_Version p.
Proof. induction 1 as [e p _ _ _ -> _ _|l p e p' _ IH _ _ _ -> _ _ _]; [done|]. rewrite length_app. cbn. lia. Qed.

Lemma history_last l p : history l p → ∃ e, last l = Some e ∧ records_policy e p.
Proof. destruct 1 as [e p|l p e p']; [by exists e|]. exists e. by rewrite last_snoc. Qed.

Lemma attached_requirements id input :
  map (attachPolicy id) (map requirementInput (attachPolicies id input)) = attachPolicies id input.
Proof. unfold attachPolicies. rewrite !map_map. apply map_ext. by intros []. Qed.

Lemma audited_same s s' :
  st_policies s' = st_policies s → st_policy_events s' = st_policy_events s → audited s → audited s'.
Proof. intros Hp He Ha id. specialize (Ha id). unfold policyLog in *. by rewrite Hp, He. Qed.

Lemma audited_keep {A} (m : Tx A) :
  (∀ x, preserves (keeping st_policies x) m) → (∀ x, preserves (keeping st_policy_events x) m) → preserves audited m.
Proof. intros Hp He s a s' Ha Hrun. eapply audited_same; [by eapply kept..|done]. Qed.

(** One more version of one policy, with its event. *)
Lemma audited_next s s' p e :
  audited s → pe_PolicyID e = wp_ID p →
  st_policies s' = <[wp_ID p := p]> (st_policies s) → st_policy_events s' = st_policy_events s ++ [e] →
  history (policyLog (wp_ID p) s ++ [e]) p → audited s'.
Proof.
  intros Ha He Hp Hl Hh id. unfold policyLog. rewrite Hp, Hl, List.filter_app. cbn [List.filter]. rewrite He.
  destruct (wp_ID p =s id) eqn:Hid.
  - apply eqb_string_true in Hid as <-. by rewrite lookup_insert_eq.
  - rewrite lookup_insert_ne by by apply eqb_string_false. rewrite app_nil_r. apply Ha.
Qed.

Section audit.
Context `{UnicodeTables, ULID, SQLiteDriver, Misused}.

Lemma appendWorkflowPolicyEvent_Ok policy eventType prior sessionID now s u s' :
  appendWorkflowPolicyEvent policy eventType prior sessionID now s = Ok (u, s') →
  s' = set_policy_events (st_policy_events s ++
         [mkPolicyEvent (wp_ID policy) (encodeWorkflowPolicyEventPayload policy) eventType sessionID prior
            (wp_Version policy) now]) s.
Proof. unfold appendWorkflowPolicyEvent. cbv zeta. destruct (policy_event_constraint _ _); [|done]. by intros [= _ <-]. Qed.

Lemma loadWorkflowPolicy_Ok policyID s p : loadWorkflowPolicy policyID s = Ok p → st_policies s !! policyID = Some p.
Proof.
  unfold loadWorkflowPolicy, scanWorkflowPolicy. destruct (st_policies s !! policyID) as [row|]; [|done].
  do 3 (case_match; [done|]). by intros [= ->].
Qed.

Lemma recordPolicy_Ok operation key hash policyID eventType prior sessionID now s r s' :
  recordPolicy operation key hash policyID eventType prior sessionID now s = Ok (r, s') →
  ∃ p, r = Ok p ∧ st_policies s !! policyID = Some p ∧ st_policies s' = st_policies s ∧
    st_policy_events s' = st_policy_events s ++
      [mkPolicyEvent (wp_ID p) (encodeWorkflowPolicyEventPayload p) eventType sessionID prior (wp_Version p) now].
Proof.
  unfold recordPolicy. intros Hrun. inv_tx_step Hrun. apply lift_query_Ok in Hstep as [Hp ->].
  inv_tx_step Hrun. apply appendWorkflowPolicyEvent_Ok in Hstep as ->.
  inv_tx_step Hrun. apply tx_ret_Ok in Hrun as [-> ->]. exists a. split; [done|].
  split; [by apply loadWorkflowPolicy_Ok|].
  by apply storeIdempotency_Ok in Hstep as [[_ ->]|(_ & _ & _ & ->)].
Qed.

Lemma currentPolicy_Ok policyID version s p s' :
  currentPolicy policyID version s = Ok (p, s') →
  s' = s ∧ st_policies s !! policyID = Some p ∧ wp_Status p ≠ PolicyStatusArchived ∧ wp_Version p = version.
Proof.
  unfold currentPolicy. intros Hrun. inv_tx_step Hrun. apply lift_query_Ok in Hstep as [Hp ->]. inv_tx_step Hrun. inv_tx_step Hrun.
  apply tx_ret_Ok in Hrun as [-> ->]. split_and!; [done|by apply loadWorkflowPolicy_Ok|by apply eqb_string_false|].
  by apply Z.eqb_eq, negb_false_iff.
Qed.

Lemma requireSingleRowAffected_Ok n s u s' : requireSingleRowAffected n s = Ok (u, s') → n = 1%Z ∧ s' = s.
Proof.
  unfold requireSingleRowAffected. intros Hrun. inv_tx_step Hrun. apply tx_ret_Ok in Hrun as [_ ->].
  split; [by apply Z.eqb_eq, negb_false_iff|done].
Qed.

(** What an update and an archiving share: the row at the version read moves
    one version on and its event follows. *)
Lemma mutatePolicy_audited operation key hash policyID version eventType sessionID now f :
  (∀ p, wp_ID (f p) = wp_ID p) → (∀ p, wp_Version (f p) = wp_Version p + 1)%Z →
  (∀ p, eventType = "policy_updated" ∧ wp_Status (f p) = wp_Status p ∨
        eventType = "policy_archived" ∧ wp_Status (f p) = PolicyStatusArchived) →
  (∀ p, wp_CreatedAt (f p) = wp_CreatedAt p ∧ wp_UpdatedAt (f p) = now) →
  (∀ p, wp_Requirements p = map (attachPolicy (wp_ID p)) (map requirementInput (wp_Requirements p)) →
        wp_Requirements (f p) = map (attachPolicy (wp_ID p)) (map requirementInput (wp_Requirements (f p)))) →
  ∀ s r s', schema_ok s → audited s →
  (current ← currentPolicy policyID version;
   affected ← Update policyID (λ p, (wp_Version p =? version)%Z) f;
   run requireSingleRowAffected affected ;;
   recordPolicy operation key hash policyID eventType (Some (wp_Version current)) sessionID now) s = Ok (r, s') →
  audited s'.
Proof.
  intros Hid Hv Ht Hc Hq s r s' Hs Ha Hrun. inv_tx_step Hrun.
  apply currentPolicy_Ok in Hstep as (-> & Hp & Hst & Hver). inv_tx_step Hrun. rename Hstep into Hupd.
  inv_tx_step Hrun. apply requireSingleRowAffected_Ok in Hstep as [-> ->].
  apply Update_Ok in Hupd as [(row & Hrow & _ & _ & _ & ->)|(_ & ? & _)]; [|done].
  cbn in Hrow. assert (row = a) as -> by congruence. pose proof (proj1 (ok_policies _ Hs) _ _ Hp) as Hkey. cbn in Hkey.
  apply recordPolicy_Ok in Hrun as (p & _ & Hl & HP & HE). cbn in Hl, HP, HE.
  rewrite lookup_insert_eq in Hl. injection Hl as <-. specialize (Ha policyID) as Hh. rewrite Hp in Hh.
  eapply (audited_next s s' (f a)); [done| |by rewrite Hid, Hkey|exact HE|]; [done|].
  rewrite Hid, Hkey. destruct (history_last _ _ Hh) as (e & _ & _ & He & Hreq & _ & _). rewrite He in Hreq.
  destruct (Hc a) as [Hc1 Hc2]. eapply history_next with (p := a); cbn; eauto.
  unfold records_policy. cbn. rewrite Hid, Hkey, Hc2. split_and!; try done. subst policyID. by apply Hq.
Qed.

Lemma CreatePolicy_audited command s : audited s → audited (CreatePolicy command s).2.
Proof.
  intros Ha. unfold CreatePolicy. destruct (WorkflowPolicyInput_Validate _) as [input|]; [|done]. case_match; [done|].
  apply (preserves_Write audited); [|done]. apply replayed_pres. clear s Ha. intros s r s' Ha Hrun.
  unfold createPolicyTx in Hrun. cbv zeta in Hrun. inv_tx_step Hrun. apply Insert_Ok in Hstep as (Hn & _ & ->).
  apply recordPolicy_Ok in Hrun as (p & _ & Hl & HP & HE). cbn in Hn, Hl, HP, HE.
  rewrite lookup_insert_eq in Hl. injection Hl as <-. specialize (Ha (wc_ID command)) as Hh. rewrite Hn in Hh.
  match type of HP with _ = <[_ := ?p]> _ => refine (audited_next s s' p _ Ha _ HP HE _) end; [done|].
  cbn [wp_ID]. rewrite Hh. apply history_created; [|done..].
  unfold records_policy. cbn. by rewrite attached_requirements.
Qed.

Lemma UpdatePolicy_audited command s : schema_ok s → audited s → audited (UpdatePolicy command s).2.
Proof.
  intros Hs Ha. unfold UpdatePolicy. destruct (WorkflowPolicyInput_Validate _) as [input|]; [|done].
  apply Write_post; [|done]. intros r s' [->|Hrun]%replayed_Ok; [done|].
  revert Hs Ha Hrun. apply mutatePolicy_audited; [done|done|by left|done|]. intros p _. cbn. symmetry. apply attached_requirements.
Qed.

Lemma ArchivePolicy_audited command s : schema_ok s → audited s → audited (ArchivePolicy command s).2.
Proof.
  intros Hs Ha. unfold ArchivePolicy. apply Write_post; [|done]. intros r s' [->|Hrun]%replayed_Ok; [done|].
  revert Hs Ha Hrun. apply mutatePolicy_audited; [done|done|by right|done|done].
Qed.
End audit.

(** ** The lifecycle invariant *)

Section lifecycle.
Context `{UnicodeTables, ULID, SQLiteDriver, Misused}.

Lemma schema_pres_appendWorkflowPolicyEvent policy t prior sid now :
  preserves schema_ok (appendWorkflowPolicyEvent policy t prior sid now).
Proof. intros s u s' Hs ->%appendWorkflowPolicyEvent_Ok. apply (schema_same s); [by split|apply Hs|done]. Qed.
Lemma frame_appendWorkflowPolicyEvent policy t prior sid now : frame (appendWorkflowPolicyEvent policy t prior sid now).
Proof. by intros A0 R Q s u s' Ht ->%appendWorkflowPolicyEvent_Ok. Qed.
Lemma schema_pres_Update_policy id p f :
  (∀ r, wp_ID (f r) = wp_ID r) → preserves schema_ok (Update (R := WorkflowPolicy) id p f).
Proof. intros Hf s n s' Hs. apply schema_Update; [done|apply Hs|done]. Qed.
Hint Resolve schema_pres_appendWorkflowPolicyEvent frame_appendWorkflowPolicyEvent schema_pres_Update_policy : pres.

Lemma CreatePolicy_lifecycle command s : lifecycle_ok s → lifecycle_ok (CreatePolicy command s).2.
Proof.
  intros Hl. unfold CreatePolicy. destruct (WorkflowPolicyInput_Validate _) as [input|]; [|done]. case_match; [done|].
  apply (preserves_Write lifecycle_ok); [|done]. apply replayed_pres. unfold createPolicyTx, recordPolicy. cbv zeta.
  apply lifecycle_frame; [|intros ? ? ?]; pres.
Qed.

Lemma UpdatePolicy_lifecycle command s : lifecycle_ok s → lifecycle_ok (UpdatePolicy command s).2.
Proof.
  intros Hl. unfold UpdatePolicy. destruct (WorkflowPolicyInput_Validate _) as [input|]; [|done].
  apply (preserves_Write lifecycle_ok); [|done]. apply replayed_pres.
  unfold updatePolicyTx, currentPolicy, requireSingleRowAffected, recordPolicy. cbv zeta.
  apply lifecycle_frame; [|intros ? ? ?]; pres.
Qed.

Lemma ArchivePolicy_lifecycle command s : lifecycle_ok s → lifecycle_ok (ArchivePolicy command s).2.
Proof.
  intros Hl. apply (preserves_Write lifecycle_ok); [|done]. apply replayed_pres.
  unfold archivePolicyTx, currentPolicy, requireSingleRowAffected, recordPolicy. cbv zeta.
  apply lifecycle_frame; [|intros ? ? ?]; pres.
Qed.
End lifecycle.

(** ** What the operations write *)

Section closed.
Context `{UnicodeTables, ULID, SQLiteDriver, Misused} (P : Store → Prop) `{!LogClosed P}.
Hypothesis closed_insert : ∀ row : WorkflowPolicy, preserves P (Insert row).
Hypothesis closed_update : ∀ id p f, preserves P (Update (R := WorkflowPolicy) id p f).
Hypothesis closed_event : ∀ policy t prior sid now, preserves P (appendWorkflowPolicyEvent policy t prior sid now).

Lemma CreatePolicy_closed command s : P s → P (CreatePolicy command s).2.
Proof.
  intros Hs. unfold CreatePolicy. destruct (WorkflowPolicyInput_Validate _) as [input|]; [|done]. case_match; [done|].
  apply (preserves_Write P); [|done]. apply replayed_pres. unfold createPolicyTx, recordPolicy. cbv zeta. pres.
Qed.
Lemma UpdatePolicy_closed command s : P s → P (UpdatePolicy command s).2.
Proof.
  intros Hs. unfold UpdatePolicy. destruct (WorkflowPolicyInput_Validate _) as [input|]; [|done].
  apply (preserves_Write P); [|done]. apply replayed_pres.
  unfold updatePolicyTx, currentPolicy, requireSingleRowAffected, recordPolicy. cbv zeta. pres.
Qed.
Lemma ArchivePolicy_closed command s : P s → P (ArchivePolicy command s).2.
Proof.
  intros Hs. apply (preserves_Write P); [|done]. apply replayed_pres.
  unfold archivePolicyTx, currentPolicy, requireSingleRowAffected, recordPolicy. cbv zeta. pres.
Qed.
End closed.
