(* ===== verification/EvidenceStore.v ===== *)
(** * Gate evidence

    [internal/adapters/sqlite/gate_evidence.go]: a lease-authenticated upsert
    of one evidence record per attempt and key, with its audit log
    [gate_evidence_events], and the listing of an attempt's evidence.

    The main results: evidence is only accepted for keys the attempt's frozen
    snapshot asks for, and once its attempt has ended a record never changes. *)

From S2P Require Import Prelude GoStrings Errors Validation Samples Issue Relation Session IssueOps.
From S2P Require Import Discussion Resource Attempt AttemptPolicy Gates Store Schema ReservationStore.
From S2P Require Import GateStore ReviewStore Termination ReviewOps AttemptStore Footprint PolicyStore.

Definition submitGateEvidenceOperation := "submit_gate_evidence".
Definition asEvidence (r : Response) : option AttemptEvidence := match r with REvidence r => Some r | _ => None end.

(** [ports.SubmitGateEvidenceCommand]. *)
Record SubmitGateEvidenceCommand := mkEvidenceCommand {
  ec_EvidenceID : string;
  ec_AttemptID : string;
  ec_TokenHash : string;
  ec_Key : string;
  ec_Result : string;
  ec_Summary : string;
  ec_Details : string;
  ec_ArtifactIDs : list string;
  ec_OccurredAt : Z;
  ec_IdempotencyKey : string;
  ec_RequestHash : string;
}.

Definition replaceEvidence (command : SubmitGateEvidenceCommand) (version : Z) (e : AttemptEvidence) : AttemptEvidence :=
  mkAttemptEvidence (ev_ID e) (ev_AttemptID e) (ev_IssueID e) (ev_Key e) (ec_Result command) (ec_Summary command)
    (ec_Details command) (ec_ArtifactIDs command) version (ev_CreatedAt e) (ec_OccurredAt command).

Section repository.
Context `{UnicodeTables, ULID, SQLiteDriver, Misused}.

Definition gateEvidenceCorruptField (cause : option string) (field code : string) : DomainError :=
  let e := NewError CodeStorageCorrupt "stored gate evidence projection is invalid" false
             [mkDetail None field code ""] in
  mkError (e_Code e) (e_Message e) (e_Details e) (e_Retryable e) cause.

Definition scanAttemptEvidence (row : AttemptEvidence) : result AttemptEvidence :=
  fail_if negb (ids_ParseStrict (ev_ID row)) with gateEvidenceCorruptField (Some "ulid") "id" "INVALID_ULID" ;;
  fail_if negb (EvidenceResult_Valid (ev_Result row)) with gateEvidenceCorruptField None "result" "INVALID_ENUM" ;;
  fail_if (ev_Version row <? 1)%Z with gateEvidenceCorruptField None "version" "INVALID_VALUE" ;;
  Ok row.

Definition unknownKey : DomainError :=
  NewError CodeInvalidArgument "evidence key does not match any requirement in the attempt's gate snapshot" false
    [mkDetail None "key" "UNKNOWN_KEY" ""].
Definition notApplicableForbidden : DomainError :=
  NewError CodeInvalidArgument "result=not_applicable is not allowed for this evidence key" false
    [mkDetail None "result" "NOT_APPLICABLE_FORBIDDEN" ""].

Definition asksFor (key : string) (r : PolicyRequirement) : bool :=
  (q_Kind r =s RequirementKindAttemptEvidence) && (q_EvidenceKey r =s key).

(** The loop computes whether some requirement matches and whether all that
    match allow [not_applicable]. *)
Definition validateGateEvidenceKey (attemptID key evidenceResult : string) (s : Store) : result unit :=
  match loadGateSnapshot (st_attempt_snapshots s) attemptID with
  | Err e => if e_Code e =s CodeGateSnapshotNotFound then Err unknownKey else Err e
  | Ok snapshot =>
      let '(matched, allowNotApplicable) :=
        foldl (λ (acc : bool * bool) r,
          if asksFor key r then (true, acc.2 && q_AllowNotApplicable r) else acc) (false, true)
          (sn_Requirements snapshot) in
      fail_if negb matched with unknownKey ;;
      fail_if (evidenceResult =s EvidenceResultNotApplicable) && negb allowNotApplicable
        with notApplicableForbidden ;;
      Ok tt
  end.

Definition artifactNotFound (index : Z) : DomainError :=
  NewError CodeInvalidArgument "artifact does not belong to this issue and attempt" false
    [mkDetail (Some index) "artifact_ids" "NOT_FOUND" ""].
Definition ownsArtifact (issueID attemptID artifactID : string) (s : Store) : bool :=
  match st_artifacts s !! artifactID with
  | Some a => (af_IssueID a =s issueID) && optEq (af_AttemptID a) (Some attemptID)
  | None => false
  end.
Definition validateGateEvidenceArtifacts (issueID attemptID : string) (artifactIDs : list string) (s : Store) :
    result unit :=
  each (λ entry : Z * string,
    fail_if negb (ownsArtifact issueID attemptID entry.2 s) with artifactNotFound entry.1 ;; Ok tt)
    (enumerate artifactIDs).

Definition evidence_event_constraint (s : Store) (e : EvidenceEvent) : bool :=
  fk (st_evidence s) (ee_EvidenceID e) && fk (st_attempts s) (ee_AttemptID e) && fk (st_issues s) (ee_IssueID e) &&
  negb (ee_Key e =s "") && enumValid (ee_Type e) ["evidence_submitted"; "evidence_replaced"] &&
  (1 <=? ee_Version e)%Z.
Definition appendGateEvidenceEvent (evidence : AttemptEvidence) (eventType : string) (now : Z) : Tx unit := λ s,
  let e := mkEvidenceEvent (ev_ID evidence) (ev_AttemptID evidence) (ev_IssueID evidence) (ev_Key evidence) eventType
             (ev_Version evidence) (ev_Result evidence) (ev_ArtifactIDs evidence) now in
  if evidence_event_constraint s e then Ok (tt, set_evidence_events (st_evidence_events s ++ [e]) s)
  else Err (constraintError "gate_evidence_events").

(** The trigger [gate_evidence_immutable_after_attempt_inactive]. *)
Definition evidenceFrozen (e : AttemptEvidence) (s : Store) : bool :=
  match st_attempts s !! ev_AttemptID e with Some a => negb (attemptActive a) | None => false end.
Definition updateEvidence (id : string) (version : Z) (f : AttemptEvidence → AttemptEvidence) : Tx Z := λ s,
  match st_evidence s !! id with
  | Some e =>
      if (ev_Version e =? version)%Z && evidenceFrozen e s then Err (constraintError "gate_evidence")
      else Update id (λ e, (ev_Version e =? version)%Z) f s
  | None => Ok (0%Z, s)
  end.

Definition evidenceFor (attemptID key : string) (s : Store) : option AttemptEvidence :=
  List.find (λ e, (ev_AttemptID e =s attemptID) && (ev_Key e =s key)) (rows s).

(** The upsert: the record's id and the event that tells what happened. *)
Definition upsertEvidence (command : SubmitGateEvidenceCommand) (issueID : string) : Tx (string * string) :=
  let now := ec_OccurredAt command in
  existing ← query (evidenceFor (ec_AttemptID command) (ec_Key command));
  match existing with
  | None =>
      run Insert (mkAttemptEvidence (ec_EvidenceID command) (ec_AttemptID command) issueID (ec_Key command)
                    (ec_Result command) (ec_Summary command) (ec_Details command) (ec_ArtifactIDs command) 1 now now) ;;
      mret (ec_EvidenceID command, "evidence_submitted")
  | Some e =>
      affected ← updateEvidence (ev_ID e) (ev_Version e) (replaceEvidence command (ev_Version e + 1));
      run requireSingleRowAffected affected ;;
      mret (ev_ID e, "evidence_replaced")
  end.

Definition loadAttemptEvidenceByID (id : string) (s : Store) : result AttemptEvidence :=
  match st_evidence s !! id with None => Err sqlNoRows | Some row => scanAttemptEvidence row end.

Definition submitTx (command : SubmitGateEvidenceCommand) : Tx (result AttemptEvidence) :=
  let now := ec_OccurredAt command in
  auth ← authenticateActiveAttempt (ec_AttemptID command) (ec_TokenHash command) now (Some AttemptKindWork);
  onLease auth (λ owner,
    run lift_query (validateGateEvidenceKey (ec_AttemptID command) (ec_Key command) (ec_Result command)) ;;
    run lift_query (validateGateEvidenceArtifacts owner.1 (ec_AttemptID command) (ec_ArtifactIDs command)) ;;
    written ← upsertEvidence command owner.1;
    evidence ← lift_query (loadAttemptEvidenceByID written.1);
    run appendGateEvidenceEvent evidence written.2 now ;;
    run storeIdempotency submitGateEvidenceOperation (ec_IdempotencyKey command) (ec_RequestHash command)
          (REvidence evidence) now ;;
    mret (Ok evidence)).

Definition SubmitGateEvidence (command : SubmitGateEvidenceCommand) (s : Store) : result AttemptEvidence * Store :=
  if negb (ids_ParseStrict (ec_EvidenceID command))
  then (Err (WrapError "ulid" CodeIDGeneration "cannot generate evidence identifier" false []), s)
  else if negb (ids_ParseStrict (ec_AttemptID command)) || negb (len (ec_TokenHash command) =? 32)%Z
  then (Err (NewError CodeInvalidArgument "gate evidence command is invalid" false []), s)
  else Write (replayed submitGateEvidenceOperation (ec_IdempotencyKey command) (ec_RequestHash command) asEvidence
                (submitTx command)) s.

Definition LookupSubmitGateEvidence := lookupSaved submitGateEvidenceOperation asEvidence.

(** [ORDER BY key]. *)
Definition evidenceLess (a b : AttemptEvidence) : bool := str_less (ev_Key a) (ev_Key b).
Definition ListAttemptEvidence (attemptID : string) (s : Store) : result (list AttemptEvidence) :=
  collect scanAttemptEvidence
    (stable_sort evidenceLess (List.filter (λ e, ev_AttemptID e =s attemptID) (rows s))).
End repository.

(** ** What is accepted *)

(** The frozen snapshot of the attempt asks for the record's key, and a record
    that answers [not_applicable] is allowed to by every requirement it meets. *)
Definition asked (snapshot : GateSnapshot) (e : AttemptEvidence) : Prop :=
  (∃ r, r ∈ sn_Requirements snapshot ∧ asksFor (ev_Key e) r = true) ∧
  (ev_Result e = EvidenceResultNotApplicable →
   ∀ r, r ∈ sn_Requirements snapshot → asksFor (ev_Key e) r = true → q_AllowNotApplicable r = true).

(** The record belongs to the issue of its attempt and to its frozen snapshot. *)
Definition evidence_bound (s : Store) (e : AttemptEvidence) : Prop :=
  (∃ a, st_attempts s !! ev_AttemptID e = Some a ∧ ar_Kind a = AttemptKindWork ∧ ar_IssueID a = ev_IssueID e) ∧
  ∃ snapshot, st_attempt_snapshots s !! ev_AttemptID e = Some snapshot ∧ asked snapshot e.

Lemma askingLoop_spec key l : ∀ b c,
  foldl (λ (acc : bool * bool) r, if asksFor key r then (true, acc.2 && q_AllowNotApplicable r) else acc) (b, c) l =
  (b || existsb (asksFor key) l, c && forallb (λ r, negb (asksFor key r) || q_AllowNotApplicable r) l).
Proof.
  induction l as [|r l IH]; intros b c; cbn; [by rewrite orb_false_r, andb_true_r|].
  destruct (asksFor key r); rewrite IH; cbn; [by rewrite orb_true_r, <-andb_assoc|done].
Qed.

Section evidence.
Context `{UnicodeTables, ULID, SQLiteDriver, Misused}.

Lemma validateGateEvidenceKey_Ok attemptID key evidenceResult s :
  validateGateEvidenceKey attemptID key evidenceResult s = Ok tt →
  ∃ snapshot, st_attempt_snapshots s !! attemptID = Some snapshot ∧
    (∃ r, r ∈ sn_Requirements snapshot ∧ asksFor key r = true) ∧
    (evidenceResult = EvidenceResultNotApplicable →
     ∀ r, r ∈ sn_Requirements snapshot → asksFor key r = true → q_AllowNotApplicable r = true).
Proof.
  unfold validateGateEvidenceKey. destruct (loadGateSnapshot _ _) as [snapshot|e] eqn:Hl; [|by destruct (_ =s _)].
  rewrite askingLoop_spec. cbn [orb andb]. intros Hv. exists snapshot. split.
  { revert Hl. unfold loadGateSnapshot. destruct (st_attempt_snapshots s !! attemptID) as [sn|]; [|done].
    repeat (case_match; try done). congruence. }
  destruct (existsb _ _) eqn:He; [|done]. apply existsb_exists in He as (r & Hr & Hk). split.
  { exists r. split; [by apply list_elem_of_In|done]. }
  intros ->. rewrite eqb_string_refl in Hv. destruct (forallb _ _) eqn:Hf; [|done]. rewrite forallb_forall in Hf.
  intros q Hq Hak. apply list_elem_of_In, Hf in Hq. by rewrite Hak in Hq.
Qed.

Lemma appendGateEvidenceEvent_Ok evidence eventType now s u s' :
  appendGateEvidenceEvent evidence eventType now s = Ok (u, s') →
  ∃ e, s' = set_evidence_events (st_evidence_events s ++ [e]) s.
Proof. unfold appendGateEvidenceEvent. cbv zeta. destruct (evidence_event_constraint _ _); [|done]. intros [= _ <-]. by eexists. Qed.

Lemma updateEvidence_Ok id version f s n s' :
  updateEvidence id version f s = Ok (n, s') →
  Update id (λ e, (ev_Version e =? version)%Z) f s = Ok (n, s') ∧
  ∀ e, st_evidence s !! id = Some e → ev_Version e = version → evidenceFrozen e s = false.
Proof.
  unfold updateEvidence. destruct (st_evidence s !! id) as [e|] eqn:He.
  - destruct (_ && _) eqn:Hb; [done|]. intros Hu. split; [done|]. intros ? [= <-] Hv.
    by rewrite Hv, Z.eqb_refl in Hb.
  - intros [= <- <-]. split; [|done]. unfold Update. cbn. by rewrite He.
Qed.

Lemma schema_pres_appendGateEvidenceEvent evidence t now : preserves schema_ok (appendGateEvidenceEvent evidence t now).
Proof. intros s u s' Hs [e ->]%appendGateEvidenceEvent_Ok. apply (schema_same s); [by split|apply Hs|done]. Qed.
Lemma frame_appendGateEvidenceEvent evidence t now : frame (appendGateEvidenceEvent evidence t now).
Proof. by intros A0 R Q s u s' Ht [e ->]%appendGateEvidenceEvent_Ok. Qed.
Lemma schema_pres_updateEvidence id version f :
  (∀ r, ev_ID (f r) = ev_ID r) → preserves schema_ok (updateEvidence id version f).
Proof. intros Hf s n s' Hs [Hu _]%updateEvidence_Ok. revert Hu. by apply schema_Update; [|apply Hs|]. Qed.
Lemma frame_updateEvidence id version f : frame (updateEvidence id version f).
Proof. intros A0 R Q s n s' Ht [Hu _]%updateEvidence_Ok. by eapply frame_Update in Hu. Qed.
Hint Resolve schema_pres_appendGateEvidenceEvent frame_appendGateEvidenceEvent
  schema_pres_updateEvidence frame_updateEvidence : pres.

Lemma SubmitGateEvidence_lifecycle command s : lifecycle_ok s → lifecycle_ok (SubmitGateEvidence command s).2.
Proof.
  intros Hl. unfold SubmitGateEvidence. do 2 (case_match; [done|]).
  apply (preserves_Write lifecycle_ok); [|done]. apply replayed_pres.
  unfold submitTx, onLease, upsertEvidence, requireSingleRowAffected. cbv zeta. pres.
Qed.
End evidence.

(** ** What the operation writes *)

Section closed.
Context `{UnicodeTables, ULID, JSONCodec, URLParser, SnapshotHash, SQLiteDriver, Misused} (P : Store → Prop) `{!WorkClosed P}.
Hypothesis closed_insert : ∀ row : AttemptEvidence, preserves P (Insert row).
Hypothesis closed_update : ∀ id version f, preserves P (updateEvidence id version f).
Hypothesis closed_event : ∀ evidence t now, preserves P (appendGateEvidenceEvent evidence t now).

Lemma SubmitGateEvidence_closed command s : P s → P (SubmitGateEvidence command s).2.
Proof.
  intros Hs. unfold SubmitGateEvidence. do 2 (case_match; [done|]).
  apply (preserves_Write P); [|done]. apply replayed_pres.
  unfold submitTx, onLease, upsertEvidence, requireSingleRowAffected. cbv zeta. pres.
  all: by apply work_authenticate.
Qed.
End closed.
