(* ===== verification/DiscussionStore.v ===== *)
(** * Comments and decisions in the store

    [internal/adapters/sqlite/comments.go] and [decisions.go]: adding a comment,
    recording a decision that may supersede an earlier one, and reading both
    back through the validation of stored rows; [unitOfWork.AppendIssueEvent]
    of [unit_of_work.go], whose issue is optional.

    The main result: supersession forms chains.  Whatever is superseded by a
    decision is a decision of the same scope that is marked superseded, by that
    decision alone, and no decision supersedes itself through others. *)

From S2P Require Import Prelude GoStrings Errors Validation Samples Issue Relation Session IssueOps.
From S2P Require Import Discussion Resource Attempt AttemptPolicy Gates Store Schema ReservationStore.
From S2P Require Import GateStore ReviewStore Termination ReviewOps AttemptStore Footprint RelationStore.

Definition addCommentOperation := "add_comment".
Definition asComment (r : Response) : option Comment := match r with RComment r => Some r | _ => None end.

Record AddCommentCommand := mkCommentCommand {
  ac_ID : string;
  ac_Input : AddCommentInput;
  ac_OccurredAt : Z;
  ac_Key : string;
  ac_RequestHash : string;
}.

Record RecordDecisionCommand := mkDecisionCommand { rd_ID : string; rd_Input : RecordDecisionInput; rd_OccurredAt : Z }.
Record RecordDecisionResult := mkDecisionResult { dr_Decision : Decision; dr_SupersededDecisionID : option string }.

Definition supersede (d : Decision) : Decision :=
  mkDecision (dc_ID d) (dc_IssueID d) (dc_Title d) (dc_Summary d) (dc_Content d) DecisionStatusSuperseded
    (dc_SupersedesID d) (dc_CreatedBySessionID d) (dc_CreatedAt d).

(** [if err.Wrap(nil, ...)]: an error with or without a cause. *)
Definition corruptRow (cause : option string) (message : string) (details : list Detail) : DomainError :=
  match cause with
  | Some cause => WrapError cause CodeStorageCorrupt message false details
  | None => NewError CodeStorageCorrupt message false details
  end.

Section repository.
Context `{UnicodeTables, ULID, SQLiteDriver, Misused}.

(** ** Events without an issue *)

Definition AppendIssueEvent (issueID : option string) (eventType : string) (sessionID attemptID : option string)
    (payload : Payload) (occurredAt : Z) : Tx Z := λ s,
  if negb (eventType =s "") && fk_opt (st_issues s) issueID && fk_session s sessionID && fk_opt (st_attempts s) attemptID
  then Ok ((st_last_event s + 1)%Z,
           append_draft (mkEvent 0 issueID eventType sessionID attemptID payload occurredAt SourceIssue) s)
  else Err (constraintError "issue_events").

Definition issueIsArchived : DomainError := NewError CodeIssueArchived "issue is archived" false [].

(** ** Comments *)

Definition corruptComment (cause : string) : DomainError := corruptRow (Some cause) "stored comment is invalid" [].
Definition corruptCommentField (cause : option string) (field code : string) : DomainError :=
  corruptRow cause "stored comment is invalid" [mkDetail None field code ""].

Definition validateStoredCommentText (field value : string) : result unit :=
  match ValidateText field value MaxCommentRunes with
  | Err e => Err (corruptComment (e_Message e))
  | Ok _ =>
      fail_if (field =s "content") && blank value with corruptCommentField None field "REQUIRED" ;;
      Ok tt
  end.
Definition parseNullableCommentID (field : string) (value : option string) : result (option string) :=
  match value with
  | None => Ok None
  | Some id => fail_if negb (ids_ParseStrict id) with corruptCommentField (Some "ulid") field "INVALID_ULID" ;; Ok value
  end.

Definition scanComment (row : Comment) : result Comment :=
  fail_if negb (ids_ParseStrict (cm_ID row)) with corruptCommentField (Some "ulid") "id" "INVALID_ULID" ;;
  fail_if negb (ids_ParseStrict (cm_IssueID row)) with corruptCommentField (Some "ulid") "issue_id" "INVALID_ULID" ;;
  try validateStoredCommentText "content" (cm_Content row) ;;
  sessionID ← parseNullableCommentID "created_by_session_id" (cm_CreatedBySessionID row);
  try match cm_AuthorLabel row with
      | None => Ok tt
      | Some label =>
          match ValidateText "author_label" label (-1) with
          | Ok _ => Ok tt
          | Err e => Err (corruptComment (e_Message e))
          end
      end ;;
  Ok row.
Definition loadComment (id : string) (s : Store) : result Comment :=
  match st_comments s !! id with None => Err sqlNoRows | Some row => scanComment row end.

Definition addTx (command : AddCommentCommand) (input : AddCommentInput) (identifier : IssueIdentifier) :
    Tx (result Comment) :=
  let now := ac_OccurredAt command in
  issue ← loadIssueForMutation identifier;
  raise_if isSet (i_ArchivedAt issue) with issueIsArchived ;;
  run Insert (mkComment (ac_ID command) (i_ID issue) (ac_Content input) (ac_SessionID input) None now None) ;;
  run AppendIssueEvent (Some (i_ID issue)) "comment_added" (ac_SessionID input) None (PComment (ac_ID command)) now ;;
  comment ← lift_query (loadComment (ac_ID command));
  run storeIdempotency addCommentOperation (ac_Key command) (ac_RequestHash command) (RComment comment) now ;;
  mret (Ok comment).

Definition AddComment (command : AddCommentCommand) (s : Store) : result Comment * Store :=
  if negb (ids_ParseStrict (ac_ID command))
  then (Err (WrapError "ulid" CodeIDGeneration "cannot generate comment identifier" false []), s)
  else
    match AddCommentInput_Validate (ac_Input command) with
    | Err e => (Err e, s)
    | Ok input =>
        match ParseIssueIdentifier (ac_IssueID input) with
        | Err e => (Err e, s)
        | Ok identifier =>
            if (ac_OccurredAt command =? time_zero)%Z
            then (Err (NewError CodeInvalidArgument "comment command is invalid" false []), s)
            else Write (replayed addCommentOperation (ac_Key command) (ac_RequestHash command) asComment
                          (addTx command input identifier)) s
        end
    end.

Definition LookupAddComment := lookupSaved addCommentOperation asComment.

(** ** Decisions *)

Definition corruptDecision (cause : string) : DomainError := corruptRow (Some cause) "stored decision is invalid" [].
Definition corruptDecisionField (cause : option string) (field code : string) : DomainError :=
  corruptRow cause "stored decision is invalid" [mkDetail None field code ""].

Definition validateStoredDecisionText (field value : string) (maximum : Z) (required : bool) : result unit :=
  match ValidateText field value maximum with
  | Err e => Err (corruptDecision (e_Message e))
  | Ok _ => fail_if required && blank value with corruptDecisionField None field "REQUIRED" ;; Ok tt
  end.
Definition parseNullableDecisionID (field : string) (value : option string) : result (option string) :=
  match value with
  | None => Ok None
  | Some id => fail_if negb (ids_ParseStrict id) with corruptDecisionField (Some "ulid") field "INVALID_ULID" ;; Ok value
  end.

Definition scanDecisionFromScanner (row : Decision) : result Decision :=
  fail_if negb (ids_ParseStrict (dc_ID row)) with corruptDecisionField (Some "ulid") "id" "INVALID_ULID" ;;
  issueID ← parseNullableDecisionID "issue_id" (dc_IssueID row);
  try validateStoredDecisionText "title" (dc_Title row) MaxTitleRunes true ;;
  try validateStoredDecisionText "summary" (dc_Summary row) MaxDecisionSummaryRunes true ;;
  try validateStoredDecisionText "content" (dc_Content row) MaxDecisionContentRunes false ;;
  fail_if negb (DecisionStatus_Valid (dc_Status row)) with corruptDecisionField None "status" "INVALID_VALUE" ;;
  supersedesID ← parseNullableDecisionID "supersedes_id" (dc_SupersedesID row);
  sessionID ← parseNullableDecisionID "created_by_session_id" (dc_CreatedBySessionID row);
  Ok row.
Definition loadDecision (id : string) (s : Store) : result Decision :=
  match st_decisions s !! id with None => Err sqlNoRows | Some row => scanDecisionFromScanner row end.

Definition sameDecisionScope (left right : option string) : bool :=
  match left, right with
  | None, None => true
  | Some l, Some r => l =s r
  | _, _ => false
  end.
Definition decisionSupersessionError (code message : string) : DomainError :=
  NewError CodeInvalidArgument message false [mkDetail None "supersedes_id" code ""].

Definition decisionScope (input : RecordDecisionInput) : Tx (option string) :=
  match rd_IssueID input with
  | None => mret None
  | Some id =>
      identifier ← lift (ParseIssueIdentifier id);
      issue ← loadIssueForMutation identifier;
      raise_if isSet (i_ArchivedAt issue) with issueIsArchived ;;
      mret (Some (i_ID issue))
  end.

Definition decisionPredecessor (issueID : option string) (input : RecordDecisionInput) : Tx (option Decision) :=
  match rd_SupersedesID input with
  | None => mret None
  | Some id =>
      found ← query (λ s, st_decisions s !! id);
      raise_if negb (isSet found) with decisionSupersessionError "NOT_FOUND" "predecessor decision was not found" ;;
      loaded ← lift_query (loadDecision id);
      raise_if negb (sameDecisionScope issueID (dc_IssueID loaded))
        with decisionSupersessionError "SCOPE_MISMATCH" "predecessor decision has a different scope" ;;
      raise_if negb (dc_Status loaded =s DecisionStatusActive)
        with decisionSupersessionError "NOT_ACTIVE" "predecessor decision is not active" ;;
      mret (Some loaded)
  end.

Definition supersedePredecessor (predecessor : option Decision) : Tx unit :=
  match predecessor with
  | None => mret tt
  | Some p =>
      count ← Update (dc_ID p) (λ d, dc_Status d =s DecisionStatusActive) supersede;
      raise_if negb (count =? 1)%Z
        with decisionSupersessionError "NOT_ACTIVE" "predecessor decision is not active" ;;
      mret tt
  end.

Definition recordTx (command : RecordDecisionCommand) (input : RecordDecisionInput) : Tx (result RecordDecisionResult) :=
  let now := rd_OccurredAt command in
  issueID ← decisionScope input;
  predecessor ← decisionPredecessor issueID input;
  run Insert (mkDecision (rd_ID command) issueID (rd_Title input) (rd_Summary input) (rd_Content input)
                (rd_Status input) (rd_SupersedesID input) (rd_SessionID input) now) ;;
  run supersedePredecessor predecessor ;;
  run AppendIssueEvent issueID "decision_recorded" (rd_SessionID input) None
        (PDecision (rd_ID command) (rd_Status input) (rd_SupersedesID input)) now ;;
  decision ← lift_query (loadDecision (rd_ID command));
  mret (Ok (mkDecisionResult decision (option_map dc_ID predecessor))).

Definition RecordDecision (command : RecordDecisionCommand) (s : Store) : result RecordDecisionResult * Store :=
  if negb (ids_ParseStrict (rd_ID command))
  then (Err (WrapError "ulid" CodeIDGeneration "cannot generate decision identifier" false []), s)
  else
    match RecordDecisionInput_Validate (rd_Input command) with
    | Err e => (Err e, s)
    | Ok input =>
        if (rd_OccurredAt command =? time_zero)%Z
        then (Err (NewError CodeInvalidArgument "decision command is invalid" false []), s)
        else Write (recordTx command input) s
    end.
End repository.

(** ** The lifecycle invariant *)

Section lifecycle.
Context `{UnicodeTables, ULID, SQLiteDriver, Misused}.

Lemma AppendIssueEvent_Ok issueID t sid aid p now s n s' :
  AppendIssueEvent issueID t sid aid p now s = Ok (n, s') →
  s' = append_draft (mkEvent 0 issueID t sid aid p now SourceIssue) s.
Proof. unfold AppendIssueEvent. destruct (_ && _); [|done]. by intros [= _ <-]. Qed.
Lemma schema_pres_AppendIssueEvent issueID t sid aid p now : preserves schema_ok (AppendIssueEvent issueID t sid aid p now).
Proof. intros s n s' Hs ->%AppendIssueEvent_Ok. by apply schema_append. Qed.
Lemma frame_AppendIssueEvent issueID t sid aid p now : frame (AppendIssueEvent issueID t sid aid p now).
Proof. by intros A0 R Q s n s' Ht ->%AppendIssueEvent_Ok. Qed.
Lemma keep_AppendIssueEvent {X} (f : Store → X) x issueID t sid aid p now :
  (∀ e s, f (append_draft e s) = f s) → preserves (keeping f x) (AppendIssueEvent issueID t sid aid p now).
Proof. intros Hf s n s' Hx ->%AppendIssueEvent_Ok. unfold keeping. by rewrite Hf. Qed.
Lemma schema_pres_Update_decision id p f :
  (∀ r, dc_ID (f r) = dc_ID r) → preserves schema_ok (Update (R := Decision) id p f).
Proof. intros Hf s n s' Hs. apply schema_Update; [done|apply Hs|done]. Qed.
Hint Resolve schema_pres_AppendIssueEvent frame_AppendIssueEvent schema_pres_Update_decision : pres.

Lemma AddComment_lifecycle command s : lifecycle_ok s → lifecycle_ok (AddComment command s).2.
Proof.
  intros Hl. unfold AddComment. case_match; [done|]. destruct (AddCommentInput_Validate _) as [input|]; [|done].
  destruct (ParseIssueIdentifier _) as [identifier|]; [|done]. case_match; [done|].
  apply (preserves_Write lifecycle_ok); [|done]. apply replayed_pres. unfold addTx. cbv zeta.
  apply lifecycle_frame; [|intros ? ? ?]; pres.
Qed.

Lemma RecordDecision_lifecycle command s : lifecycle_ok s → lifecycle_ok (RecordDecision command s).2.
Proof.
  intros Hl. unfold RecordDecision. case_match; [done|]. destruct (RecordDecisionInput_Validate _) as [input|]; [|done].
  case_match; [done|]. apply (preserves_Write lifecycle_ok); [|done].
  unfold recordTx, decisionScope, decisionPredecessor, supersedePredecessor. cbv zeta.
  apply lifecycle_frame; [|intros ? ? ?]; pres.
Qed.
End lifecycle.

(** ** Supersession *)

Definition supersedes (s : Store) (x y : string) : Prop :=
  ∃ d, st_decisions s !! x = Some d ∧ dc_SupersedesID d = Some y.

Record chains (s : Store) : Prop := {
  ch_superseded x y d : st_decisions s !! x = Some d → dc_SupersedesID d = Some y →
    ∃ p, st_decisions s !! y = Some p ∧ dc_Status p = DecisionStatusSuperseded ∧ dc_IssueID p = dc_IssueID d;
  ch_acyclic x : ¬ tc (supersedes s) x x;
}.

Lemma chains_same s s' : st_decisions s' = st_decisions s → chains s → chains s'.
Proof.
  intros Hd [Hs Ha]. split; [by rewrite Hd|]. intros x Hx. apply (Ha x). revert Hx. apply tc_mono.
  intros a b. unfold supersedes. by rewrite Hd.
Qed.

Lemma supersedes_unique s x y z :
  schema_ok s → supersedes s x z → supersedes s y z → x = y.
Proof.
  intros Hs (d & Hx & Hd) (e & Hy & He). destruct (decide (y = x)) as [|Hne]; [done|]. exfalso.
  pose proof (proj2 (ok_decisions _ Hs) _ _ Hx) as Hc. cbn in Hc. unfold decision_constraint in Hc. conj_hyps.
  match goal with Hn : negb (exists_other _ _ (supersedesClash d)) = true |- _ =>
    apply negb_true_iff in Hn; rewrite exists_other_false in Hn; specialize (Hn y e Hy Hne) end.
  unfold supersedesClash in *. rewrite Hd, He, bool_decide_eq_true_2 in * by done. done.
Qed.

Lemma tc_last {A} (R : relation A) x y : tc R x y → ∃ z, R z y.
Proof. induction 1 as [x y Hxy|x z y _ _ IH]; [by exists x|done]. Qed.

(** A new decision, and its predecessor marked. *)
Section recording.
Context (s s' : Store) (d p : Decision).
Hypothesis decision_new : st_decisions s !! dc_ID d = None.
Hypothesis decision_written :
  match dc_SupersedesID d with
  | None => st_decisions s' = <[dc_ID d := d]> (st_decisions s)
  | Some y => st_decisions s !! y = Some p ∧ dc_IssueID p = dc_IssueID d ∧
      st_decisions s' = <[y := supersede p]> (<[dc_ID d := d]> (st_decisions s))
  end.

(** A row [e0], possibly marked superseded since. *)
Definition marked (e0 e : Decision) : Prop :=
  dc_SupersedesID e = dc_SupersedesID e0 ∧ dc_IssueID e = dc_IssueID e0 ∧
  (dc_Status e0 = DecisionStatusSuperseded → dc_Status e = DecisionStatusSuperseded).

Lemma record_rows x e :
  st_decisions s' !! x = Some e →
  (x = dc_ID d ∧ e = d) ∨ ∃ e0, st_decisions s !! x = Some e0 ∧ marked e0 e.
Proof.
  destruct (dc_SupersedesID d) as [y|].
  - destruct decision_written as (Hp & _ & ->). intros [[<- <-]|[_ He]]%lookup_insert_Some; [right; by exists p|].
    apply lookup_insert_Some in He as [[<- <-]|[_ He]]; [by left|right; by exists e].
  - rewrite decision_written. intros [[<- <-]|[_ He]]%lookup_insert_Some; [by left|right; by exists e].
Qed.

Lemma record_keeps x e0 : st_decisions s !! x = Some e0 → ∃ e, st_decisions s' !! x = Some e ∧ marked e0 e.
Proof.
  intros He. assert (x ≠ dc_ID d) by congruence. destruct (dc_SupersedesID d) as [y|].
  - destruct decision_written as (Hp & _ & ->). destruct (decide (y = x)) as [<-|].
    + rewrite lookup_insert_eq. assert (e0 = p) as -> by congruence. by exists (supersede p).
    + rewrite !lookup_insert_ne by congruence. by exists e0.
  - rewrite decision_written, lookup_insert_ne by congruence. by exists e0.
Qed.

Lemma record_supersedes a b :
  supersedes s' a b → supersedes s a b ∨ (a = dc_ID d ∧ dc_SupersedesID d = Some b).
Proof.
  intros (e & He & Hb). apply record_rows in He as [[-> ->]|(e0 & He0 & Hs0 & _)]; [by right|].
  left. exists e0. split; [done|congruence].
Qed.

Lemma chains_record : chains s → chains s'.
Proof.
  intros [Hsup Hac]. pose proof decision_written as Hw. split.
  - intros x y e He Hy. apply record_rows in He as [[-> ->]|(e0 & He0 & Hs0 & Hi0 & _)].
    + rewrite Hy in Hw. destruct Hw as (Hp & Hi & ->). exists (supersede p). by rewrite lookup_insert_eq.
    + rewrite Hs0 in Hy. destruct (Hsup x y e0 He0 Hy) as (q & Hq & Hst & Hiq).
      destruct (record_keeps y q Hq) as (q' & Hq' & _ & Hiq' & Hst'). exists q'. rewrite Hiq', Hi0. auto.
  - pose proof record_supersedes as Hr. intros x Hx. destruct (option_eq_dec (dc_SupersedesID d) None) as [Hy|Hy].
    + apply (Hac x). revert Hx. apply tc_mono. intros a b [?|[_ Hb]]%Hr; [done|congruence].
    + apply not_eq_None_Some in Hy as [y Hy]. rewrite Hy in Hw. destruct Hw as (Hp & _ & _).
      apply (acyclic_add (supersedes s) (dc_ID d) y) with (x := x); [congruence|done| |].
      * intros [z (e & He & Hz)]%tc_last. destruct (Hsup z _ e He Hz) as (q & Hq & _). congruence.
      * revert Hx. apply tc_mono. intros a b [?|[-> Hb]]%Hr; [by left|right; split; congruence].
Qed.
End recording.

Section supersession.
Context `{UnicodeTables, ULID, SQLiteDriver, Misused}.

Lemma sameDecisionScope_true a b : sameDecisionScope a b = true ↔ a = b.
Proof.
  destruct a, b; cbn; try done. rewrite eqb_string_true. split; congruence.
Qed.

Lemma loadDecision_Ok id s d : loadDecision id s = Ok d → st_decisions s !! id = Some d.
Proof.
  unfold loadDecision, scanDecisionFromScanner. destruct (st_decisions s !! id) as [row|]; [|done]. intros Hr. by inv_ok.
Qed.

Lemma decisionPredecessor_Ok issueID input s p s' :
  decisionPredecessor issueID input s = Ok (p, s') →
  s' = s ∧ match rd_SupersedesID input with
           | None => p = None
           | Some id => ∃ d, p = Some d ∧ st_decisions s !! id = Some d ∧ dc_IssueID d = issueID ∧
               dc_Status d = DecisionStatusActive
           end.
Proof.
  unfold decisionPredecessor. destruct (rd_SupersedesID input) as [id|]; intros Hrun; [|by apply tx_ret_Ok in Hrun as [-> ->]].
  inv_tx_step Hrun. apply query_Ok in Hstep as [-> ->]. inv_tx_step Hrun. inv_tx_step Hrun.
  apply lift_query_Ok in Hstep as [Hd%loadDecision_Ok ->]. inv_tx_step Hrun. inv_tx_step Hrun.
  apply tx_ret_Ok in Hrun as [-> ->]. split; [done|]. rewrite !negb_false_iff in *.
  exists a. split_and!; [done|done|symmetry; by apply sameDecisionScope_true|by apply eqb_string_true].
Qed.

Lemma reads_decisionScope input : reads (decisionScope input).
Proof.
  intros s i s' Hrun. unfold decisionScope in Hrun. destruct (rd_IssueID input); [|by inv_tx].
  inv_tx_step Hrun. apply lift_Ok in Hstep as [_ ->]. inv_tx_step Hrun.
  apply reads_loadIssueForMutation in Hstep as ->. inv_tx_step Hrun. by apply tx_ret_Ok in Hrun as [_ ->].
Qed.

Lemma RecordDecision_chains command s : schema_ok s → chains s → chains (RecordDecision command s).2.
Proof.
  intros Hs Hch. unfold RecordDecision. case_match; [done|]. destruct (RecordDecisionInput_Validate _) as [input|]; [|done].
  case_match; [done|]. apply Write_post; [|done]. unfold recordTx. cbv zeta. intros r s' Hrun.
  inv_tx_step Hrun. apply reads_decisionScope in Hstep as ->. inv_tx_step Hrun.
  apply decisionPredecessor_Ok in Hstep as [-> Hpred]. inv_tx_step Hrun. apply Insert_Ok in Hstep as (Hn & _ & ->).
  inv_tx_step Hrun. rename Hstep into Hsup. inv_tx_step Hrun. apply AppendIssueEvent_Ok in Hstep as ->.
  inv_tx_step Hrun. apply lift_query_Ok in Hstep as [_ ->]. apply tx_ret_Ok in Hrun as [_ ->]. cbn in Hn.
  match type of Hsup with _ (set_table (<[_ := ?d]> _) _) = _ =>
    apply (chains_record s _ d (default d a0)); [done| |done]; cbn [dc_SupersedesID dc_ID dc_IssueID] end.
  destruct (rd_SupersedesID input) as [y|]; [|subst; by apply tx_ret_Ok in Hsup as [_ ->]].
  destruct Hpred as (p & -> & Hp & Hi & _). unfold supersedePredecessor in Hsup. inv_tx_step Hsup. inv_tx_step Hsup.
  apply tx_ret_Ok in Hsup as [_ ->]. pose proof (proj1 (ok_decisions _ Hs) _ _ Hp) as Hid. cbn in Hid.
  assert (Hy : y ≠ rd_ID command) by congruence. cbn [default].
  apply Update_Ok in Hstep as [(row & Hrow & _ & _ & _ & ->)|(_ & -> & _)]; [|done].
  cbn in Hrow |- *. rewrite Hid in *. rewrite lookup_insert_ne in Hrow by done. split_and!; [done|done|]. congruence.
Qed.
End supersession.

(** ** What the operations write *)

Section closed.
Context `{UnicodeTables, ULID, SQLiteDriver, Misused} (P : Store → Prop) `{!LogClosed P}.
Hypothesis closed_comment : ∀ row : Comment, preserves P (Insert row).
Hypothesis closed_decision : ∀ row : Decision, preserves P (Insert row).
Hypothesis closed_supersede : ∀ id p f, preserves P (Update (R := Decision) id p f).
Hypothesis closed_event : ∀ i t sid aid p now, preserves P (AppendIssueEvent i t sid aid p now).

Lemma AddComment_closed command s : P s → P (AddComment command s).2.
Proof.
  intros Hs. unfold AddComment. case_match; [done|]. destruct (AddCommentInput_Validate _) as [input|]; [|done].
  destruct (ParseIssueIdentifier _) as [identifier|]; [|done]. case_match; [done|].
  apply (preserves_Write P); [|done]. apply replayed_pres. unfold addTx. cbv zeta. pres.
Qed.
Lemma RecordDecision_closed command s : P s → P (RecordDecision command s).2.
Proof.
  intros Hs. unfold RecordDecision. case_match; [done|]. destruct (RecordDecisionInput_Validate _) as [input|]; [|done].
  case_match; [done|]. apply (preserves_Write P); [|done].
  unfold recordTx, decisionScope, decisionPredecessor, supersedePredecessor. cbv zeta. pres.
Qed.
End closed.
