(* ===== verification/SessionStore.v ===== *)
(** * The agent session repository

    [internal/adapters/sqlite/sessions.go]: creating a session, resolving its
    secret handle, touching and ending it by id or by handle.  The store keeps
    the SHA-256 of a handle, never the handle.

    The main results: a session row always reads back (no write of this file
    produces a row that [loadAgentSessionFromRow] rejects); an ended session
    never changes again; time of last sight never goes back; a handle resolves
    to the session that was created with its hash. *)

From S2P Require Import Prelude GoStrings Sha256 Errors Validation Samples Issue Relation Session IssueOps.
From S2P Require Import Discussion Resource Attempt AttemptPolicy Gates Store Schema ReservationStore.
From S2P Require Import GateStore ReviewStore Termination ReviewOps AttemptStore Footprint.

Record CreateAgentSessionCommand := mkCreateSession { sc_Session : AgentSession; sc_HandleHash : string }.
(** [ResolveAndTouchAgentSessionHandleCommand] and [EndAgentSessionByHandleCommand]. *)
Record HandleCommand := mkHandleCommand { hc_Handle : string; hc_OccurredAt : Z }.
(** [TouchAgentSessionCommand] and [EndAgentSessionCommand]. *)
Record SessionCommand := mkSessionCommand { sn_SessionID : string; sn_OccurredAt : Z }.

Definition seenAt (now : Z) (s : AgentSession) : AgentSession :=
  mkSession (as_ID s) (as_ClientName s) (as_ClientVersion s) (as_AgentLabel s) (as_Model s) (as_InstanceKey s)
    (as_StartedAt s) now (as_EndedAt s).
Definition endedAt (now : Z) (s : AgentSession) : AgentSession :=
  mkSession (as_ID s) (as_ClientName s) (as_ClientVersion s) (as_AgentLabel s) (as_Model s) (as_InstanceKey s)
    (as_StartedAt s) now (Some now).
Definition onSession (f : AgentSession → AgentSession) (row : SessionRow) : SessionRow :=
  mkSessionRow (f (sr_Session row)) (sr_HandleHash row).

Definition sessionInput (s : AgentSession) : CreateAgentSessionInput :=
  mkSessionInput (as_ClientName s) (as_ClientVersion s) (as_AgentLabel s) (as_Model s) (as_InstanceKey s).

(** [LastSeenAt.Before(StartedAt) || EndedAt != nil && (...)], negated. *)
Definition sessionTimesConsistent (started lastSeen : Z) (ended : option Z) : bool :=
  negb (lastSeen <? started)%Z &&
  match ended with Some e => negb (e <? started)%Z && (e =? lastSeen)%Z | None => true end.

Definition nullableSessionBytes (value : string) : option string := if value =s "" then None else Some value.

Section repository.
Context `{UnicodeTables, ULID, SQLiteDriver, Misused}.

Definition invalidSessionID (field : string) : DomainError :=
  NewError CodeInvalidArgument "agent session command is invalid" false
    [mkDetail None field "INVALID_ULID" "must be a canonical ULID"].
Definition invalidSessionCommand (field message : string) : DomainError :=
  NewError CodeInvalidArgument "agent session command is invalid" false
    [mkDetail None field "INVALID_VALUE" message].
Definition invalidHandle : DomainError :=
  NewError CodeInvalidArgument "agent session command is invalid" false
    [mkDetail None "agent_session_handle" "INVALID_HANDLE" ""].
Definition corruptSessionProjection (cause : string) (details : list Detail) : DomainError :=
  WrapError cause CodeStorageCorrupt "stored agent session projection is invalid" false details.
Definition sessionNotFound (details : list Detail) : DomainError :=
  NewError CodeSessionNotFound "agent session not found" false details.
Definition sessionNotActive (details : list Detail) : DomainError :=
  NewError CodeSessionNotActive "agent session is not active" false details.
Definition handleDetail (code : string) : Detail := mkDetail None "agent_session_handle" code "".

(** ** Validation *)

Definition validateSessionIDCommand (value : string) : result unit :=
  fail_if negb (ids_ParseStrict value) with invalidSessionID "session_id" ;; Ok tt.

(** A byte that starts no well-formed rune reads as U+FFFD. *)
Definition handleRune (r : rune) : bool :=
  match r with
  | BadByte _ => false
  | Rune code _ =>
      negb ((127 <? code)%Z ||
            ((code <? 32)%Z && negb (code =? 9)%Z && negb (code =? 10)%Z && negb (code =? 13)%Z))
  end.
Definition validateHandleString (value : string) : result unit :=
  fail_if value =s "" with invalidHandle ;;
  fail_if (256 <? len value)%Z with invalidHandle ;;
  fail_if negb (forallb handleRune (runes value)) with invalidHandle ;;
  Ok tt.

Definition validateSessionCommand (session : AgentSession) : result AgentSession :=
  fail_if negb (ids_ParseStrict (as_ID session)) with invalidSessionID "id" ;;
  normalized ← CreateAgentSessionInput_Validate (sessionInput session);
  fail_if (as_StartedAt session =? time_zero)%Z with invalidSessionCommand "started_at" "timestamp is required" ;;
  fail_if (as_LastSeenAt session =? time_zero)%Z with invalidSessionCommand "last_seen_at" "timestamp is required" ;;
  fail_if match as_EndedAt session with Some e => (e =? time_zero)%Z | None => false end
    with invalidSessionCommand "ended_at" "timestamp is required" ;;
  fail_if negb (sessionTimesConsistent (as_StartedAt session) (as_LastSeenAt session) (as_EndedAt session))
    with invalidSessionCommand "timestamps" "are inconsistent" ;;
  Ok (mkSession (as_ID session) (ci_ClientName normalized) (ci_ClientVersion normalized) (ci_AgentLabel normalized)
        (ci_Model normalized) (ci_InstanceKey normalized) (as_StartedAt session) (as_LastSeenAt session)
        (as_EndedAt session)).

(** ** Reading rows *)

Definition loadAgentSessionFromRow (row : AgentSession) : result AgentSession :=
  fail_if negb (ids_ParseStrict (as_ID row)) with corruptSessionProjection "ulid" [] ;;
  match CreateAgentSessionInput_Validate (sessionInput row) with
  | Err e => Err (corruptSessionProjection (e_Message e) (e_Details e))
  | Ok normalized =>
      fail_if (as_StartedAt row =? time_zero)%Z || (as_LastSeenAt row =? time_zero)%Z ||
              negb (sessionTimesConsistent (as_StartedAt row) (as_LastSeenAt row) (as_EndedAt row))
        with corruptSessionProjection "invalid session temporal state" [] ;;
      Ok (mkSession (as_ID row) (ci_ClientName normalized) (ci_ClientVersion normalized) (ci_AgentLabel normalized)
            (ci_Model normalized) (ci_InstanceKey normalized) (as_StartedAt row) (as_LastSeenAt row) (as_EndedAt row))
  end.

Definition sessionByHandle (handleHash : string) (s : Store) : option SessionRow :=
  List.find (λ row, optEq (sr_HandleHash row) (Some handleHash)) (rows s).
Definition loadAgentSessionByHandle (handleHash : string) (s : Store) : result AgentSession :=
  match sessionByHandle handleHash s with
  | None => Err (sessionNotFound [handleDetail "NOT_FOUND"])
  | Some row => loadAgentSessionFromRow (sr_Session row)
  end.
Definition loadAgentSession (sessionID : string) (s : Store) : result AgentSession :=
  match st_sessions s !! sessionID with
  | None => Err (sessionNotFound [])
  | Some row => loadAgentSessionFromRow (sr_Session row)
  end.

(** ** Operations *)

Definition CreateAgentSession (command : CreateAgentSessionCommand) (s : Store) : result AgentSession * Store :=
  match validateSessionCommand (sc_Session command) with
  | Err e => (Err e, s)
  | Ok session =>
      Write (run Insert (mkSessionRow session (nullableSessionBytes (sc_HandleHash command))) ;; mret (Ok session)) s
  end.

Definition ResolveAgentSessionHandle (handle : string) (s : Store) : result string :=
  try validateHandleString handle ;;
  match sessionByHandle (Sum256 handle) s with
  | None => Err (sessionNotFound [handleDetail "NOT_FOUND"])
  | Some row =>
      let sessionID := as_ID (sr_Session row) in
      fail_if negb (ids_ParseStrict sessionID) with corruptSessionProjection "ulid" [] ;;
      Ok sessionID
  end.

(** [UPDATE agent_sessions SET ... WHERE id = ?]. *)
Definition updateSession (id : string) (f : AgentSession → AgentSession) : Tx unit :=
  run Update id (λ _ : SessionRow, true) (onSession f) ;; mret tt.

(** A session that is live is seen; its time of last sight only moves on. *)
Definition touch (session : AgentSession) (ended : DomainError) (now : Z) : Tx AgentSession :=
  raise_if isSet (as_EndedAt session) with ended ;;
  if (as_LastSeenAt session <? now)%Z then
    run updateSession (as_ID session) (seenAt now) ;;
    mret (seenAt now session)
  else mret session.

(** Ending is idempotent: an ended session is returned as it is. *)
Definition finish (session : AgentSession) (now : Z) : Tx AgentSession :=
  if isSet (as_EndedAt session) then mret session
  else
    let next := if (as_LastSeenAt session <? now)%Z then now else as_LastSeenAt session in
    run updateSession (as_ID session) (endedAt next) ;;
    mret (endedAt next session).

Definition ResolveAndTouchAgentSessionHandle (command : HandleCommand) (s : Store) : result string * Store :=
  match validateHandleString (hc_Handle command) with
  | Err e => (Err e, s)
  | Ok _ =>
      if (hc_OccurredAt command =? time_zero)%Z
      then (Err (invalidSessionCommand "occurred_at" "timestamp is required"), s)
      else Write (
        session ← lift_query (loadAgentSessionByHandle (Sum256 (hc_Handle command)));
        touched ← touch session (sessionNotActive [handleDetail "ENDED"]) (hc_OccurredAt command);
        mret (Ok (as_ID touched))) s
  end.

Definition EndAgentSessionByHandle (command : HandleCommand) (s : Store) : result AgentSession * Store :=
  match validateHandleString (hc_Handle command) with
  | Err e => (Err e, s)
  | Ok _ =>
      if (hc_OccurredAt command =? time_zero)%Z
      then (Err (invalidSessionCommand "occurred_at" "timestamp is required"), s)
      else Write (
        session ← lift_query (loadAgentSessionByHandle (Sum256 (hc_Handle command)));
        result ← finish session (hc_OccurredAt command);
        mret (Ok result)) s
  end.

Definition TouchAgentSession (command : SessionCommand) (s : Store) : result AgentSession * Store :=
  match validateSessionIDCommand (sn_SessionID command) with
  | Err e => (Err e, s)
  | Ok _ =>
      if (sn_OccurredAt command =? time_zero)%Z
      then (Err (invalidSessionCommand "occurred_at" "timestamp is required"), s)
      else Write (
        session ← lift_query (loadAgentSession (sn_SessionID command));
        touched ← touch session (sessionNotActive []) (sn_OccurredAt command);
        mret (Ok touched)) s
  end.

Definition EndAgentSession (command : SessionCommand) (s : Store) : result AgentSession * Store :=
  match validateSessionIDCommand (sn_SessionID command) with
  | Err e => (Err e, s)
  | Ok _ =>
      if (sn_OccurredAt command =? time_zero)%Z
      then (Err (invalidSessionCommand "occurred_at" "timestamp is required"), s)
      else Write (
        session ← lift_query (loadAgentSession (sn_SessionID command));
        result ← finish session (sn_OccurredAt command);
        mret (Ok result)) s
  end.
End repository.

(** ** Rows read back *)

Section soundness.
Context `{UnicodeTables, ULID, SQLiteDriver, Misused}.

(** The row passes the reader's validation unchanged. *)
Definition session_sound (row : AgentSession) : Prop := loadAgentSessionFromRow row = Ok row.
Definition sessions_sound (s : Store) : Prop := ∀ id r, st_sessions s !! id = Some r → session_sound (sr_Session r).

Lemma session_sound_iff row :
  session_sound row ↔
  ids_ParseStrict (as_ID row) = true ∧ CreateAgentSessionInput_Validate (sessionInput row) = Ok (sessionInput row) ∧
  as_StartedAt row ≠ time_zero ∧ as_LastSeenAt row ≠ time_zero ∧ (as_StartedAt row <= as_LastSeenAt row)%Z ∧
  (∀ e, as_EndedAt row = Some e → e = as_LastSeenAt row).
Proof.
  unfold session_sound, loadAgentSessionFromRow. destruct (ids_ParseStrict _); cbn [negb]; [|naive_solver].
  destruct (CreateAgentSessionInput_Validate _) as [v|e]; [|naive_solver].
  destruct (_ || _ || _) eqn:Hc.
  - split; [done|]. intros (_ & _ & Hs & Hl & Hle & He). exfalso. revert Hc.
    rewrite (proj2 (Z.eqb_neq _ _) Hs), (proj2 (Z.eqb_neq _ _) Hl). cbn. unfold sessionTimesConsistent.
    rewrite (proj2 (Z.ltb_ge _ _) Hle). destruct (as_EndedAt row) as [x|]; cbn; [|done].
    specialize (He x eq_refl) as ->. by rewrite (proj2 (Z.ltb_ge _ _) Hle), Z.eqb_refl.
  - rewrite !orb_false_iff, negb_false_iff in Hc. destruct Hc as [[Hs%Z.eqb_neq Hl%Z.eqb_neq] Ht].
    unfold sessionTimesConsistent in Ht. apply andb_true_iff in Ht as [Hle%negb_true_iff%Z.ltb_ge He].
    assert (Hend : ∀ e, as_EndedAt row = Some e → e = as_LastSeenAt row).
    { intros e Hx. rewrite Hx in He. conj_hyps. by apply Z.eqb_eq. }
    destruct row, v. cbn in *. unfold sessionInput. cbn. split; [|naive_solver]. intros [= -> -> -> -> ->]. by split_and!.
Qed.

Lemma validateSessionCommand_sound session v : validateSessionCommand session = Ok v → session_sound v.
Proof.
  unfold validateSessionCommand. intros Hv. inv_ok. apply session_sound_iff.
  cbn [as_ID as_StartedAt as_LastSeenAt as_EndedAt sessionInput as_ClientName as_ClientVersion as_AgentLabel as_Model as_InstanceKey].
  rewrite !negb_false_iff in *.
  match goal with Ht : sessionTimesConsistent _ _ _ = true |- _ =>
    unfold sessionTimesConsistent in Ht; apply andb_true_iff in Ht as [Hle%negb_true_iff%Z.ltb_ge He] end.
  match goal with Hn : CreateAgentSessionInput_Validate _ = Ok ?x |- _ =>
    apply CreateAgentSessionInput_Validate_normal in Hn; destruct x end.
  split_and!; [done|done|by apply Z.eqb_neq|by apply Z.eqb_neq|done|].
  intros e Hx. rewrite Hx in He. conj_hyps. by apply Z.eqb_eq.
Qed.

Lemma seenAt_sound now row :
  session_sound row → as_EndedAt row = None → (as_LastSeenAt row < now)%Z → now ≠ time_zero → session_sound (seenAt now row).
Proof.
  rewrite !session_sound_iff. intros (Hid & Hv & Hs & _ & Hle & _) He Hlt Hz.
  split_and!; [done|done|done|done|cbn; lia|]. cbn. by rewrite He.
Qed.

Lemma endedAt_sound now row :
  session_sound row → (as_LastSeenAt row <= now)%Z → now ≠ time_zero → session_sound (endedAt now row).
Proof.
  rewrite !session_sound_iff. intros (Hid & Hv & Hs & _ & Hle & _) Hlt Hz.
  split_and!; [done|done|done|done|cbn; lia|]. cbn. by intros e [= ->].
Qed.
End soundness.

(** ** Time only moves on *)

(** The later of two versions of a session row. *)
Record session_le (r r' : SessionRow) : Prop := {
  le_handle : sr_HandleHash r' = sr_HandleHash r;
  le_id : as_ID (sr_Session r') = as_ID (sr_Session r);
  le_input : sessionInput (sr_Session r') = sessionInput (sr_Session r);
  le_started : as_StartedAt (sr_Session r') = as_StartedAt (sr_Session r);
  le_seen : (as_LastSeenAt (sr_Session r) <= as_LastSeenAt (sr_Session r'))%Z;
  le_ended : as_EndedAt (sr_Session r) ≠ None → r' = r;
}.

#[export] Instance session_le_preorder : PreOrder session_le.
Proof.
  split; [done|]. intros r1 r2 r3 [] []. split; [congruence..|lia|]. intros He.
  assert (r2 = r1) as -> by auto. auto.
Qed.

(** Sessions are only added and moved on. *)
Definition sessions_le (s s' : Store) : Prop :=
  ∀ id r, st_sessions s !! id = Some r → ∃ r', st_sessions s' !! id = Some r' ∧ session_le r r'.

#[export] Instance sessions_le_preorder : PreOrder sessions_le.
Proof.
  split; [intros s id r Hr; by exists r|]. intros s1 s2 s3 H1 H2 id r Hr.
  destruct (H1 id r Hr) as (r2 & Hr2 & Hle). destruct (H2 id r2 Hr2) as (r3 & Hr3 & Hle'). exists r3. split; [done|by etrans].
Qed.

Lemma sessions_le_same s s' : st_sessions s' = st_sessions s → sessions_le s s'.
Proof. intros He id r Hr. rewrite He. by exists r. Qed.

Lemma sessions_le_insert s s' row :
  st_sessions s !! as_ID (sr_Session row) = None →
  st_sessions s' = <[as_ID (sr_Session row) := row]> (st_sessions s) → sessions_le s s'.
Proof. intros Hn He id r Hr. exists r. rewrite He, lookup_insert_ne; [done|congruence]. Qed.

Lemma sessions_le_update s s' id row row' :
  st_sessions s !! id = Some row → st_sessions s' = <[id := row']> (st_sessions s) → session_le row row' → sessions_le s s'.
Proof.
  intros Hr He Hle id' r Hr'. rewrite He. destruct (decide (id = id')) as [<-|Hne].
  - exists row'. rewrite lookup_insert_eq. split; [done|]. congruence.
  - exists r. by rewrite lookup_insert_ne.
Qed.

Lemma seenAt_le now row :
  as_EndedAt (sr_Session row) = None → (as_LastSeenAt (sr_Session row) <= now)%Z → session_le row (onSession (seenAt now) row).
Proof. intros He Hle. split; [done..|]. by rewrite He. Qed.
Lemma endedAt_le now row :
  as_EndedAt (sr_Session row) = None → (as_LastSeenAt (sr_Session row) <= now)%Z → session_le row (onSession (endedAt now) row).
Proof. intros He Hle. split; [done..|]. by rewrite He. Qed.

(** ** The operations *)

Section operations.
Context `{UnicodeTables, ULID, SQLiteDriver, Misused}.

Lemma sessions_sound_insert s s' id row :
  st_sessions s' = <[id := row]> (st_sessions s) → session_sound (sr_Session row) → sessions_sound s → sessions_sound s'.
Proof. intros He Hrow Hs i r. rewrite He. intros [[<- <-]|[_ Hr]]%lookup_insert_Some; [done|by eapply Hs]. Qed.

Lemma updateSession_Ok id f s u s' :
  updateSession id f s = Ok (u, s') →
  match st_sessions s !! id with
  | Some row => st_sessions s' = <[id := onSession f row]> (st_sessions s)
  | None => s' = s
  end.
Proof.
  unfold updateSession. intros Hrun. inv_tx_step Hrun. apply tx_ret_Ok in Hrun as [_ ->].
  apply Update_Ok in Hstep as [(row & Hr & _ & _ & _ & ->)|(Hn & _ & ->)]; cbn in *; [by rewrite Hr|].
  destruct (st_sessions s !! id) as [row|] eqn:Hr; [|done]. by specialize (Hn row eq_refl).
Qed.

(** Touching and ending a row that was loaded from the store. *)
Lemma touch_write id row ended now s session s' :
  st_sessions s !! id = Some row → as_ID (sr_Session row) = id → session_sound (sr_Session row) → now ≠ time_zero →
  touch (sr_Session row) ended now s = Ok (session, s') → sessions_sound s → sessions_sound s' ∧ sessions_le s s'.
Proof.
  intros Hr Hid Hrow Hz Hrun Hs. unfold touch in Hrun. inv_tx_step Hrun.
  match goal with He : isSet _ = false |- _ => apply isSet_false in He as Hend end.
  destruct (_ <? now)%Z eqn:Hlt; [|by apply tx_ret_Ok in Hrun as [_ ->]]. apply Z.ltb_lt in Hlt.
  inv_tx_step Hrun. apply tx_ret_Ok in Hrun as [_ ->]. apply updateSession_Ok in Hstep. rewrite Hid, Hr in Hstep. split.
  - eapply sessions_sound_insert; [exact Hstep|by apply seenAt_sound|done].
  - eapply sessions_le_update; [exact Hr|exact Hstep|apply seenAt_le; [done|lia]].
Qed.

Lemma finish_write id row now s session s' :
  st_sessions s !! id = Some row → as_ID (sr_Session row) = id → session_sound (sr_Session row) → now ≠ time_zero →
  finish (sr_Session row) now s = Ok (session, s') → sessions_sound s → sessions_sound s' ∧ sessions_le s s'.
Proof.
  intros Hr Hid Hrow Hz Hrun Hs. unfold finish in Hrun.
  destruct (isSet _) eqn:He; [by apply tx_ret_Ok in Hrun as [_ ->]|]. apply isSet_false in He. cbv zeta in Hrun.
  inv_tx_step Hrun. apply tx_ret_Ok in Hrun as [_ ->]. apply updateSession_Ok in Hstep. rewrite Hid, Hr in Hstep.
  pose proof (proj1 (session_sound_iff _) Hrow) as (_ & _ & _ & Hseen & _).
  revert Hstep. destruct (_ <? now)%Z eqn:Hlt; intros Hstep; apply Z.ltb_lt in Hlt || apply Z.ltb_ge in Hlt; split.
  all: first [ eapply sessions_sound_insert; [exact Hstep|apply endedAt_sound; [done|lia|done]|done]
             | eapply sessions_le_update; [exact Hr|exact Hstep|apply endedAt_le; [done|lia]] ].
Qed.

Lemma CreateAgentSession_write command s :
  sessions_sound s → sessions_sound (CreateAgentSession command s).2 ∧ sessions_le s (CreateAgentSession command s).2.
Proof.
  intros Hs. unfold CreateAgentSession. destruct (validateSessionCommand _) as [session|] eqn:Hv; [|done].
  apply (Write_post (λ s', sessions_sound s' ∧ sessions_le s s')); [|done]. intros r s' Hrun. inv_tx_step Hrun.
  apply tx_ret_Ok in Hrun as [_ ->]. apply Insert_Ok in Hstep as (Hn & _ & ->). cbn in Hn.
  apply validateSessionCommand_sound in Hv. split.
  - by eapply sessions_sound_insert; [reflexivity|exact Hv|].
  - by apply (sessions_le_insert _ _ (mkSessionRow session (nullableSessionBytes (sc_HandleHash command)))).
Qed.

(** A loaded session is a row of the store, as it is. *)
Lemma loadAgentSession_Ok id s session :
  schema_ok s → sessions_sound s → loadAgentSession id s = Ok session →
  ∃ row, st_sessions s !! id = Some row ∧ as_ID (sr_Session row) = id ∧ session = sr_Session row.
Proof.
  intros Hok Hs. unfold loadAgentSession. destruct (st_sessions s !! id) as [row|] eqn:Hr; [|done]. intros Hl.
  exists row. pose proof (Hs id row Hr) as Hsound. unfold session_sound in Hsound.
  pose proof (proj1 (ok_sessions _ Hok) id row Hr) as Hid. split_and!; [done|done|congruence].
Qed.

Lemma loadAgentSessionByHandle_Ok hash s session :
  schema_ok s → sessions_sound s → loadAgentSessionByHandle hash s = Ok session →
  ∃ id row, st_sessions s !! id = Some row ∧ as_ID (sr_Session row) = id ∧ session = sr_Session row ∧
    sr_HandleHash row = Some hash.
Proof.
  intros Hok Hs. unfold loadAgentSessionByHandle. destruct (sessionByHandle hash s) as [row|] eqn:Hr; [|done]. intros Hl.
  apply find_some in Hr as [Hin Hh]. apply list_elem_of_In, (elem_of_rows (R := SessionRow)) in Hin as [id Hr].
  exists id, row. pose proof (Hs id row Hr) as Hsound. unfold session_sound in Hsound.
  pose proof (proj1 (ok_sessions _ Hok) id row Hr) as Hid. unfold optEq in Hh. apply bool_decide_eq_true in Hh.
  split_and!; [done|done|congruence|done].
Qed.

(** Load, then touch or end. *)
Lemma session_Write {A} load (act : AgentSession → Tx AgentSession) (answer : AgentSession → A) s :
  schema_ok s → sessions_sound s →
  (∀ session, load s = Ok session →
     ∃ id row, st_sessions s !! id = Some row ∧ as_ID (sr_Session row) = id ∧ session = sr_Session row) →
  (∀ id row session s', st_sessions s !! id = Some row → as_ID (sr_Session row) = id → session_sound (sr_Session row) →
     act (sr_Session row) s = Ok (session, s') → sessions_sound s → sessions_sound s' ∧ sessions_le s s') →
  let s' := (Write (session ← lift_query load; result ← act session; mret (Ok (answer result))) s).2 in
  sessions_sound s' ∧ sessions_le s s'.
Proof.
  intros Hok Hs Hload Hact s'. apply (Write_post (λ s', sessions_sound s' ∧ sessions_le s s')); [|done].
  intros r s1 Hrun. inv_tx_step Hrun. apply lift_query_Ok in Hstep as [Hl ->]. inv_tx_step Hrun.
  apply tx_ret_Ok in Hrun as [_ ->]. destruct (Hload _ Hl) as (id & row & Hr & Hid & ->).
  by eapply (Hact id row); [| |eapply Hs| |].
Qed.

Ltac session_op Hok Hs :=
  destruct (_ =? _)%Z eqn:Hz; [done|]; apply Z.eqb_neq in Hz; apply session_Write; [exact Hok|exact Hs|..];
  [ intros session Hl;
    first [ apply loadAgentSession_Ok in Hl as (row & Hr & Hi & He); [exact (ex_intro _ _ (ex_intro _ row (conj Hr (conj Hi He))))|assumption..]
          | apply loadAgentSessionByHandle_Ok in Hl as (i & row & Hr & Hi & He & _); [exact (ex_intro _ i (ex_intro _ row (conj Hr (conj Hi He))))|assumption..] ]
  | intros i row session s' Hr Hid Hrow Hact _;
    first [ exact (touch_write _ _ _ _ _ _ _ Hr Hid Hrow Hz Hact Hs) | exact (finish_write _ _ _ _ _ _ Hr Hid Hrow Hz Hact Hs) ] ].

Lemma ResolveAndTouch_write command s :
  schema_ok s → sessions_sound s →
  sessions_sound (ResolveAndTouchAgentSessionHandle command s).2 ∧
  sessions_le s (ResolveAndTouchAgentSessionHandle command s).2.
Proof. intros Hok Hs. unfold ResolveAndTouchAgentSessionHandle. case_match; [|done]. session_op Hok Hs. Qed.
Lemma EndByHandle_write command s :
  schema_ok s → sessions_sound s →
  sessions_sound (EndAgentSessionByHandle command s).2 ∧ sessions_le s (EndAgentSessionByHandle command s).2.
Proof.
  intros Hok Hs. unfold EndAgentSessionByHandle. case_match; [|done].
 session_op Hok Hs.
Qed.
Lemma TouchAgentSession_write command s :
  schema_ok s → sessions_sound s →
  sessions_sound (TouchAgentSession command s).2 ∧ sessions_le s (TouchAgentSession command s).2.
Proof. intros Hok Hs. unfold TouchAgentSession. case_match; [|done]. session_op Hok Hs. Qed.
Lemma EndAgentSession_write command s :
  schema_ok s → sessions_sound s →
  sessions_sound (EndAgentSession command s).2 ∧ sessions_le s (EndAgentSession command s).2.
Proof. intros Hok Hs. unfold EndAgentSession. case_match; [|done]. session_op Hok Hs. Qed.
End operations.

(** ** The lifecycle invariant *)

Section lifecycle.
Context `{UnicodeTables, ULID, SQLiteDriver, Misused}.

Lemma schema_pres_Update_session id p f :
  (∀ r, as_ID (sr_Session (f r)) = as_ID (sr_Session r)) → preserves schema_ok (Update (R := SessionRow) id p f).
Proof. intros Hf s n s' Hs. apply schema_Update; [done|apply Hs|done]. Qed.
Lemma lifecycle_pres_updateSession id f :
  (∀ r, as_ID (f r) = as_ID r) → preserves lifecycle_ok (updateSession id f).
Proof.
  intros Hf. unfold updateSession. apply lifecycle_frame; [|intros ? ? ?]; pres.
  apply schema_pres_Update_session. intros r. apply Hf.
Qed.
Lemma lifecycle_pres_touch session ended now : preserves lifecycle_ok (touch session ended now).
Proof. unfold touch. pres. all: by apply lifecycle_pres_updateSession. Qed.
Lemma lifecycle_pres_finish session now : preserves lifecycle_ok (finish session now).
Proof. unfold finish. cbv zeta. pres. all: by apply lifecycle_pres_updateSession. Qed.
Hint Resolve lifecycle_pres_touch lifecycle_pres_finish : pres.

Ltac session_lifecycle :=
  intros Hl; repeat (case_match; try done); apply (preserves_Write lifecycle_ok); [pres|done].

Lemma CreateAgentSession_lifecycle command s : lifecycle_ok s → lifecycle_ok (CreateAgentSession command s).2.
Proof.
  intros Hl. unfold CreateAgentSession. destruct (validateSessionCommand _); [|done].
  apply (preserves_Write lifecycle_ok); [|done]. apply lifecycle_frame; [|intros ? ? ?]; pres.
Qed.
Lemma ResolveAndTouch_lifecycle command s :
  lifecycle_ok s → lifecycle_ok (ResolveAndTouchAgentSessionHandle command s).2.
Proof. unfold ResolveAndTouchAgentSessionHandle. session_lifecycle. Qed.
Lemma EndByHandle_lifecycle command s : lifecycle_ok s → lifecycle_ok (EndAgentSessionByHandle command s).2.
Proof. unfold EndAgentSessionByHandle. session_lifecycle. Qed.
Lemma TouchAgentSession_lifecycle command s : lifecycle_ok s → lifecycle_ok (TouchAgentSession command s).2.
Proof. unfold TouchAgentSession. session_lifecycle. Qed.
Lemma EndAgentSession_lifecycle command s : lifecycle_ok s → lifecycle_ok (EndAgentSession command s).2.
Proof. unfold EndAgentSession. session_lifecycle. Qed.
End lifecycle.

(** ** Handles *)

Section handles.
Context `{UnicodeTables, ULID, SQLiteDriver, Misused}.

Lemma sessionByHandle_spec s hash id row :
  schema_ok s → st_sessions s !! id = Some row → sr_HandleHash row = Some hash → sessionByHandle hash s = Some row.
Proof.
  intros Hok Hr Hh. unfold sessionByHandle. destruct (List.find _ _) as [row'|] eqn:Hf.
  - apply find_some in Hf as [Hin Hh']. apply list_elem_of_In, (elem_of_rows (R := SessionRow)) in Hin as [id' Hr'].
    unfold optEq in Hh'. apply bool_decide_eq_true in Hh'. cbn in Hr'.
    destruct (decide (id' = id)) as [->|Hne]; [congruence|]. exfalso.
    pose proof (proj2 (ok_sessions _ Hok) _ _ Hr) as Hc. cbn in Hc. unfold session_constraint in Hc. conj_hyps.
    match goal with Hn : negb (exists_other _ _ _) = true |- _ =>
      apply negb_true_iff in Hn; rewrite exists_other_false in Hn; specialize (Hn id' row' Hr' Hne) end.
    unfold handleClash in *. rewrite Hh, Hh', bool_decide_eq_true_2 in * by done. done.
  - pose proof (find_none _ _ Hf row) as Hn. unfold optEq in Hn. rewrite bool_decide_eq_true_2 in Hn by done.
    exfalso. assert (true = false) as [=]. apply Hn, list_elem_of_In, (elem_of_rows (R := SessionRow)). by exists id.
Qed.

(** A session of a sound store resolves from the handle whose hash it keeps. *)
Lemma resolve_held s handle id row :
  schema_ok s → sessions_sound s → st_sessions s !! id = Some row → sr_HandleHash row = Some (Sum256 handle) →
  validateHandleString handle = Ok tt → ResolveAgentSessionHandle handle s = Ok id.
Proof.
  intros Hok Hs Hr Hh Hv. unfold ResolveAgentSessionHandle. rewrite Hv, (sessionByHandle_spec s _ id row) by done.
  pose proof (proj1 (ok_sessions _ Hok) id row Hr) as Hid. cbn in Hid. cbv zeta.
  pose proof (proj1 (session_sound_iff _) (Hs id row Hr)) as [Hp _]. by rewrite Hp, Hid.
Qed.

(** What a creation stores. *)
Lemma CreateAgentSession_stored session handle s v s' :
  CreateAgentSession (mkCreateSession session (Sum256 handle)) s = (Ok v, s') →
  as_ID v = as_ID session ∧ st_sessions s !! as_ID v = None ∧
  st_sessions s' = <[as_ID v := mkSessionRow v (Some (Sum256 handle))]> (st_sessions s).
Proof.
  unfold CreateAgentSession. cbn [sc_Session sc_HandleHash].
  destruct (validateSessionCommand session) as [w|] eqn:Hv; [|done]. unfold nullableSessionBytes.
  rewrite (proj2 (eqb_string_false _ _) (Sum256_nonempty handle)). intros Hw.
  match type of Hw with Write ?m s = _ => destruct (Write_spec m s) as [(e & _ & Hw')|(r & s1 & Hrun & Hw')] end; [congruence|].
  rewrite Hw' in Hw. injection Hw as -> ->. inv_tx_step Hrun. apply tx_ret_Ok in Hrun as [[= ->] ->].
  apply Insert_Ok in Hstep as (Hn & _ & ->). cbn in Hn. split_and!; [|done|done].
  unfold validateSessionCommand in Hv. by inv_ok.
Qed.
End handles.

(** ** What the operations write *)

Section closed.
Context `{UnicodeTables, ULID, SQLiteDriver, Misused} (P : Store → Prop).
Hypothesis closed_insert : ∀ row : SessionRow, preserves P (Insert row).
Hypothesis closed_update : ∀ id p f, preserves P (Update (R := SessionRow) id p f).

Lemma CreateAgentSession_closed command s : P s → P (CreateAgentSession command s).2.
Proof.
  intros Hs. unfold CreateAgentSession. destruct (validateSessionCommand _); [|done].
  apply (preserves_Write P); [|done]. pres.
Qed.
Lemma ResolveAndTouch_closed command s : P s → P (ResolveAndTouchAgentSessionHandle command s).2.
Proof.
  intros Hs. unfold ResolveAndTouchAgentSessionHandle, touch, updateSession. repeat (case_match; try done).
  apply (preserves_Write P); [|done]. pres.
Qed.
Lemma EndByHandle_closed command s : P s → P (EndAgentSessionByHandle command s).2.
Proof.
  intros Hs. unfold EndAgentSessionByHandle, finish, updateSession. repeat (case_match; try done).
  apply (preserves_Write P); [|done]. cbv zeta. pres.
Qed.
Lemma TouchAgentSession_closed command s : P s → P (TouchAgentSession command s).2.
Proof.
  intros Hs. unfold TouchAgentSession, touch, updateSession. repeat (case_match; try done).
  apply (preserves_Write P); [|done]. pres.
Qed.
Lemma EndAgentSession_closed command s : P s → P (EndAgentSession command s).2.
Proof.
  intros Hs. unfold EndAgentSession, finish, updateSession. repeat (case_match; try done).
  apply (preserves_Write P); [|done]. cbv zeta. pres.
Qed.
End closed.
