(* ===== verification/PlanStore.v ===== *)
(** * The planning repository

    [internal/adapters/sqlite/planning.go]: a plan is validated against one
    snapshot ([validatePlanAgainstStore]) and applied by one transaction
    ([applyPlan]): its issues in order, then its relations, then its decisions.

    The validation names the issues that do not exist yet "local:<ref>" and
    searches the graph of stored and proposed blocks relations; the results
    show that the graph that is then stored is an image of the one that was
    searched, so that a batch closes no cycle. *)

From S2P Require Import Prelude GoStrings Errors Validation Samples Issue Relation Session IssueOps.
From S2P Require Import Discussion Resource Attempt Plan AttemptPolicy Gates Store Schema ReservationStore.
From S2P Require Import GateStore ReviewStore Termination ReviewOps AttemptStore Footprint.
From S2P Require Import RelationStore IssueStore DiscussionStore.

Definition applyIssuePlanOperation := "apply_issue_plan".
Definition asPlan (r : Response) : option ApplyIssuePlanResult := match r with RPlan r => Some r | _ => None end.

(** [ports.ApplyIssuePlanCommand]. *)
Record ApplyIssuePlanCommand := mkPlanCommand {
  pc_Plan : IssuePlan;
  pc_IdempotencyKey : string;
  pc_RequestHash : string;
  pc_IssueIDs : list string;
  pc_RelationIDs : list string;
  pc_DecisionIDs : list string;
  pc_LabelIDs : list (list string);
  pc_OccurredAt : Z;
}.

Section repository.
Context `{UnicodeTables, ULID, SnapshotHash, SQLiteDriver, Misused}.

(** ** Validation against the store *)

(** What [resolve] keeps between calls: the map of references and the details. *)
Record PlanCheck := mkCheck { ck_Refs : gmap string string; ck_Details : list Detail }.

Definition planStoreDetail (index : Z) (field code message : string) : Detail := mkDetail (Some index) field code message.
Definition report (detail : Detail) (check : PlanCheck) : PlanCheck :=
  mkCheck (ck_Refs check) (ck_Details check ++ [detail]).

(** [fmt.Sprintf] of an element of a collection. *)
Definition indexed (collection : string) (i : Z) : string := collection +:+ "[" +:+ Itoa i +:+ "]".

Definition localNode (ref : string) : string := "local:" +:+ ref.
Definition localRefs (issues : list PlannedIssue) : gmap string string :=
  foldl (λ refs issue, if pn_Ref issue =s "" then refs else <[pn_Ref issue := localNode (pn_Ref issue)]> refs) ∅ issues.

(** The node of a reference ("" when it is refused) and whether it was known. *)
Definition resolve (s : Store) (value : string) (index : Z) (field : string) (check : PlanCheck) :
    result (string * bool * PlanCheck) :=
  match ck_Refs check !! value with
  | Some id => Ok (id, true, check)
  | None =>
      match ParseIssueIdentifier value with
      | Err _ =>
          Ok ("", false, report (planStoreDetail index field "INVALID_IDENTIFIER"
                                   "must be a local ref, canonical ULID, or ISSUE-N") check)
      | Ok identifier =>
          match loadIssueForMutation identifier s with
          | Err e =>
              if e_Code e =s CodeIssueNotFound
              then Ok ("", false, report (planStoreDetail index field CodeIssueNotFound "issue not found") check)
              else Err e
          | Ok (issue, _) =>
              if isSet (i_ArchivedAt issue)
              then Ok ("", false, report (planStoreDetail index field CodeIssueArchived "issue is archived") check)
              else Ok (i_ID issue, false, mkCheck (<[value := i_ID issue]> (ck_Refs check)) (ck_Details check))
          end
      end
  end.

Definition parentNotEpic (i : Z) : Detail :=
  planStoreDetail i (indexed "issues" i +:+ ".parent_ref") CodeInvalidEpicParent "parent must be an epic".

(** One finding for every planned issue of that reference that is no epic. *)
Definition checkLocalParent (issues : list PlannedIssue) (i : Z) (ref : string) (check : PlanCheck) : PlanCheck :=
  foldl (λ check candidate,
    if (pn_Ref candidate =s ref) && negb (pn_Type candidate =s TypeEpic) then report (parentNotEpic i) check else check)
    check issues.

Definition checkPlannedParent (s : Store) (issues : list PlannedIssue) (i : Z) (issue : PlannedIssue) (check : PlanCheck) :
    result PlanCheck :=
  match pn_ParentRef issue with
  | None => Ok check
  | Some ref =>
      '(parentID, local, check) ← resolve s ref i (indexed "issues" i +:+ ".parent_ref") check;
      if parentID =s "" then Ok check
      else if pn_Type issue =s TypeEpic
      then Ok (report (planStoreDetail i (indexed "issues" i +:+ ".parent_ref") CodeInvalidEpicParent
                         "epic issues cannot have a parent") check)
      else if (local : bool) then Ok (checkLocalParent issues i ref check)
      else
        '(parent, _) ← loadIssueForMutation (internalIdentifier parentID) s;
        Ok (if negb (i_Type parent =s TypeEpic) then report (parentNotEpic i) check else check)
  end.

(** A loop over an indexed slice. *)
Fixpoint eachIndexed {A B} (f : Z → A → B → result B) (i : Z) (items : list A) (b : B) : result B :=
  match items with
  | [] => Ok b
  | item :: rest => b ← f i item b; eachIndexed f (i + 1) rest b
  end.

(** *** The graph of blocks relations *)

Definition edgeLess (a b : string * string) : bool :=
  if a.1 =s b.1 then str_less a.2 b.2 else str_less a.1 b.1.
Definition loadBlocksEdges (s : Store) : list (string * string) :=
  stable_sort edgeLess
    (map (λ r, (rel_SourceIssueID r, rel_TargetIssueID r))
       (List.filter (λ r, rel_Type r =s RelationTypeBlocks) (rows s))).

#[local] Notation Adjacency := (gmap string (list string)).
Definition successors (adjacency : Adjacency) (node : string) : list string := default [] (adjacency !! node).
Definition addEdge (adjacency : Adjacency) (e : string * string) : Adjacency :=
  <[e.1 := successors adjacency e.1 ++ [e.2]]> adjacency.
Definition loadAdjacency (s : Store) (relations : list PlannedRelation) : Adjacency :=
  if existsb (λ r, pnr_Type r =s RelationTypeBlocks) relations then foldl addEdge ∅ (loadBlocksEdges s) else ∅.

(** Every node that a path can reach is the target of an edge: as many rounds
    are enough. *)
Definition adjacencyTargets (adjacency : Adjacency) : gset string :=
  map_fold (λ _ targets all, list_to_set targets ∪ all) ∅ adjacency.
Definition batchPathExists (adjacency : Adjacency) (start sought : string) : bool :=
  default false (BlocksPathExists (S (size (adjacencyTargets adjacency))) start sought (successors adjacency)).

(** *** Relations *)

Record RelationCheck := mkRelationCheck {
  rc_Check : PlanCheck;
  rc_Proposed : gset string;
  rc_Adjacency : Adjacency;
}.
Definition reportRelation (detail : Detail) (st : RelationCheck) : RelationCheck :=
  mkRelationCheck (report detail (rc_Check st)) (rc_Proposed st) (rc_Adjacency st).

Definition nul : string := String (byte_of 0) "".
Definition relationKey (relationType source target : string) : string :=
  relationType +:+ nul +:+ source +:+ nul +:+ target.

Definition checkRelation (s : Store) (i : Z) (relation : PlannedRelation) (st : RelationCheck) : result RelationCheck :=
  let at_ := indexed "relations" i in
  '(source, _, check) ← resolve s (pnr_SourceRef relation) i (at_ +:+ ".source_ref") (rc_Check st);
  '(target, _, check) ← resolve s (pnr_TargetRef relation) i (at_ +:+ ".target_ref") check;
  let st := mkRelationCheck check (rc_Proposed st) (rc_Adjacency st) in
  if (source =s "") || (target =s "") then Ok st
  else if source =s target
  then Ok (reportRelation (planStoreDetail i (at_ +:+ ".target_ref") "SELF_RELATION" "endpoints must differ") st)
  else
    let '(source, target) := CanonicalRelationEndpoints (pnr_Type relation) source target in
    let key := relationKey (pnr_Type relation) source target in
    if bool_decide (key ∈ rc_Proposed st)
    then Ok (reportRelation (planStoreDetail i at_ "DUPLICATE_RELATION" "duplicate relation") st)
    else
      let st := mkRelationCheck (rc_Check st) ({[ key ]} ∪ rc_Proposed st) (rc_Adjacency st) in
      if isSet (loadRelation source target (pnr_Type relation) s)
      then Ok (reportRelation (planStoreDetail i at_ "DUPLICATE_RELATION" "relation already exists") st)
      else if pnr_Type relation =s RelationTypeBlocks then
        if batchPathExists (rc_Adjacency st) target source
        then Ok (reportRelation (planStoreDetail i (at_ +:+ ".type") CodeBlocksCycle
                                   "blocks relation would create a cycle") st)
        else Ok (mkRelationCheck (rc_Check st) (rc_Proposed st) (addEdge (rc_Adjacency st) (source, target)))
      else Ok st.

Definition checkDecision (s : Store) (i : Z) (decision : PlannedDecision) (check : PlanCheck) : result PlanCheck :=
  match pnd_IssueRef decision with
  | None => Ok check
  | Some ref =>
      '(_, _, check) ← resolve s ref i (indexed "decisions" i +:+ ".issue_ref") check;
      Ok check
  end.

Definition validatePlanAgainstStore (plan : IssuePlan) (s : Store) : result (list Detail) :=
  check ← eachIndexed (checkPlannedParent s (ip_Issues plan)) 0 (ip_Issues plan) (mkCheck (localRefs (ip_Issues plan)) []);
  st ← eachIndexed (checkRelation s) 0 (ip_Relations plan)
         (mkRelationCheck check ∅ (loadAdjacency s (ip_Relations plan)));
  check ← eachIndexed (checkDecision s) 0 (ip_Decisions plan) (rc_Check st);
  Ok (SortDetails (ck_Details check)).

Definition ValidateIssuePlan (plan : IssuePlan) (s : Store) : result (list Detail) := validatePlanAgainstStore plan s.

(** ** Applying *)

Definition planGenerationError : DomainError :=
  WrapError "ulid" CodeIDGeneration "cannot generate plan identifier" false [].

Definition validatePlanCommand (command : ApplyIssuePlanCommand) : result unit :=
  let plan := pc_Plan command in
  fail_if (pc_RequestHash command =s "") ||
          negb (Nat.eqb (length (pc_IssueIDs command)) (length (ip_Issues plan))) ||
          negb (Nat.eqb (length (pc_RelationIDs command)) (length (ip_Relations plan))) ||
          negb (Nat.eqb (length (pc_DecisionIDs command)) (length (ip_Decisions plan))) ||
          negb (Nat.eqb (length (pc_LabelIDs command)) (length (ip_Issues plan)))
    with NewError CodeInvalidArgument "plan command is invalid" false [] ;;
  fail_if existsb (λ id, negb (ids_ParseStrict id))
            (pc_IssueIDs command ++ pc_RelationIDs command ++ pc_DecisionIDs command)
    with planGenerationError ;;
  each (λ '(issue, labels), validateLabelIDs (pn_Labels issue) (pn_CreateMissingLabels issue) labels)
    (zip (ip_Issues plan) (pc_LabelIDs command)).

(** Later issues shadow earlier ones of the same reference. *)
Definition localIDs (command : ApplyIssuePlanCommand) : gmap string string :=
  foldl (λ ids '(issue, id), if pn_Ref issue =s "" then ids else <[pn_Ref issue := id]> ids) ∅
    (zip (ip_Issues (pc_Plan command)) (pc_IssueIDs command)).

Definition resolveID (locals : gmap string string) (value : string) : Tx string :=
  match locals !! value with
  | Some id => mret id
  | None =>
      identifier ← lift (ParseIssueIdentifier value);
      issue ← loadIssueForMutation identifier;
      mret (i_ID issue)
  end.
Definition resolveOptionalID (locals : gmap string string) (value : option string) : Tx (option string) :=
  match value with
  | None => mret None
  | Some value => id ← resolveID locals value; mret (Some id)
  end.

Definition applyPlannedIssue (locals : gmap string string) (now : Z) (planned : PlannedIssue) (id : string)
    (labelIDs : list string) : Tx CreatedPlanIssue :=
  let input := plannedInput planned in
  run createGate input ;;
  parent ← resolveOptionalID locals (pn_ParentRef planned);
  sequenceNo ← allocateIssueNumber now;
  run Insert (createdIssue id input sequenceNo parent now) ;;
  labels ← resolveIssueLabels (pn_Labels planned) (pn_CreateMissingLabels planned) labelIDs now;
  run replaceIssueLabels id labels ;;
  run appendIssueEvent id "issue_created" None None
        (PIssueCreated sequenceNo (pn_Type planned) (pn_Status planned) (pn_Priority planned) parent
           (labelNames labels)) now ;;
  mret (mkPlanIssue (pn_Ref planned) (setLabels labels (createdIssue id input sequenceNo parent now))).

Definition applyPlannedRelation (locals : gmap string string) (now : Z) (planned : PlannedRelation) (id : string) :
    Tx IssueRelation :=
  source ← resolveID locals (pnr_SourceRef planned);
  target ← resolveID locals (pnr_TargetRef planned);
  let '(source, target) := CanonicalRelationEndpoints (pnr_Type planned) source target in
  let relation := mkRelation id source target (pnr_Type planned) now in
  run Insert relation ;;
  run appendRelationEvents "relation_added" relation now ;;
  mret relation.

Definition applyPlannedDecision (locals : gmap string string) (now : Z) (planned : PlannedDecision) (id : string) :
    Tx PlanDecision :=
  issueID ← resolveOptionalID locals (pnd_IssueRef planned);
  run Insert (mkDecision id issueID (pnd_Title planned) (pnd_Summary planned) (pnd_Content planned)
                (pnd_Status planned) None None now) ;;
  run AppendIssueEvent issueID "decision_recorded" None None (PDecision id (pnd_Status planned) None) now ;;
  mret (mkPlanDecision id issueID (pnd_Title planned) (pnd_Summary planned) (pnd_Content planned)
          (pnd_Status planned) now).

(** [for i, planned := range ...], collecting what was created. *)
Fixpoint applyEach {A B} (f : A → Tx B) (items : list A) : Tx (list B) :=
  match items with
  | [] => mret []
  | item :: rest => b ← f item; bs ← applyEach f rest; mret (b :: bs)
  end.

Definition applyPlan (command : ApplyIssuePlanCommand) : Tx ApplyIssuePlanResult :=
  let plan := pc_Plan command in
  let now := pc_OccurredAt command in
  let locals := localIDs command in
  issues ← applyEach (λ '(planned, id, labelIDs), applyPlannedIssue locals now planned id labelIDs)
             (zip (zip (ip_Issues plan) (pc_IssueIDs command)) (pc_LabelIDs command));
  relations ← applyEach (λ '(planned, id), applyPlannedRelation locals now planned id)
                (zip (ip_Relations plan) (pc_RelationIDs command));
  decisions ← applyEach (λ '(planned, id), applyPlannedDecision locals now planned id)
                (zip (ip_Decisions plan) (pc_DecisionIDs command));
  latest ← query latestEventID;
  mret (mkPlanResult issues relations decisions latest).

(** The record is inserted whatever the key; the table refuses an empty one. *)
Definition insertPlanRecord (command : ApplyIssuePlanCommand) (response : ApplyIssuePlanResult) : Tx unit :=
  raise_if pc_IdempotencyKey command =s "" with constraintError "idempotency_records" ;;
  storeIdempotency applyIssuePlanOperation (pc_IdempotencyKey command) (pc_RequestHash command) (RPlan response)
    (pc_OccurredAt command).

Definition planInvalid (details : list Detail) : DomainError :=
  NewError CodeValidationError "issue plan is invalid" false details.

Definition planTx (command : ApplyIssuePlanCommand) : Tx (result ApplyIssuePlanResult) :=
  details ← lift_query (validatePlanAgainstStore (pc_Plan command));
  raise_if negb (null details) with planInvalid details ;;
  response ← applyPlan command;
  run insertPlanRecord command response ;;
  mret (Ok response).

(** No record has the empty key, so the common lookup finds what the query
    does. *)
Definition ApplyIssuePlan (command : ApplyIssuePlanCommand) (s : Store) : result ApplyIssuePlanResult * Store :=
  match validatePlanCommand command with
  | Err e => (Err e, s)
  | Ok _ =>
      Write (replayed applyIssuePlanOperation (pc_IdempotencyKey command) (pc_RequestHash command) asPlan
               (planTx command)) s
  end.

Definition LookupAppliedIssuePlan := lookupSaved applyIssuePlanOperation asPlan.
End repository.

(** ** The lifecycle invariant and what the operation writes *)

Lemma applyEach_pres {A B} (P : Store → Prop) (f : A → Tx B) items :
  (∀ item, preserves P (f item)) → preserves P (applyEach f items).
Proof.
  intros Hf. induction items as [|item rest IH]; cbn [applyEach]; [apply preserves_ret|].
  apply preserves_bind; [apply Hf|intros b]. apply preserves_bind; [done|intros bs]. apply preserves_ret.
Qed.

Section lifecycle.
Context `{UnicodeTables, ULID, SnapshotHash, SQLiteDriver, Misused}.

(** A plan is applied by these writes. *)
Section writes.
Context (P : Store → Prop).
Hypothesis writes_issue : ∀ planned id labelIDs locals now, preserves P (applyPlannedIssue locals now planned id labelIDs).
Hypothesis writes_relation : ∀ planned id locals now, preserves P (applyPlannedRelation locals now planned id).
Hypothesis writes_decision : ∀ planned id locals now, preserves P (applyPlannedDecision locals now planned id).
Hypothesis writes_record : ∀ command response, preserves P (insertPlanRecord command response).

Lemma planTx_pres command : preserves P (planTx command).
Proof.
  unfold planTx, applyPlan. cbv zeta. pres.
  all: try by apply writes_record.
  - apply applyEach_pres. by intros [[planned id] labelIDs].
  - apply applyEach_pres. by intros [planned id].
  - apply applyEach_pres. by intros [planned id].
Qed.
Lemma ApplyIssuePlan_pres command s : P s → P (ApplyIssuePlan command s).2.
Proof.
  intros Hs. unfold ApplyIssuePlan. destruct (validatePlanCommand command); [|done].
  apply (preserves_Write P); [|done]. apply replayed_pres, planTx_pres.
Qed.
End writes.

Lemma reads_resolveID locals value : reads (resolveID locals value).
Proof.
  intros s id s' Hrun. unfold resolveID in Hrun. destruct (locals !! value); [by apply tx_ret_Ok in Hrun as [_ ->]|].
  inv_tx_step Hrun. apply lift_Ok in Hstep as [_ ->]. inv_tx_step Hrun.
  apply reads_loadIssueForMutation in Hstep as ->. by apply tx_ret_Ok in Hrun as [_ ->].
Qed.
Lemma reads_resolveOptionalID locals value : reads (resolveOptionalID locals value).
Proof.
  intros s id s' Hrun. unfold resolveOptionalID in Hrun. destruct value as [value|]; [|by apply tx_ret_Ok in Hrun as [_ ->]].
  inv_tx_step Hrun. apply reads_resolveID in Hstep as ->. by apply tx_ret_Ok in Hrun as [_ ->].
Qed.

Hint Resolve schema_pres_resolveIssueLabels frame_resolveIssueLabels schema_pres_replaceIssueLabels
  frame_replaceIssueLabels schema_pres_allocate frame_allocate schema_pres_AppendIssueEvent frame_AppendIssueEvent
  reads_resolveID reads_resolveOptionalID reads_createGate : pres.

Lemma ApplyIssuePlan_lifecycle command s : lifecycle_ok s → lifecycle_ok (ApplyIssuePlan command s).2.
Proof.
  apply ApplyIssuePlan_pres.
  - intros planned id labelIDs locals now. unfold applyPlannedIssue. cbv zeta. apply lifecycle_frame; [|intros ? ? ?]; pres.
  - intros planned id locals now. unfold applyPlannedRelation, appendRelationEvents.
    apply lifecycle_frame; [|intros ? ? ?]; pres.
  - intros planned id locals now. unfold applyPlannedDecision. apply lifecycle_frame; [|intros ? ? ?]; pres.
  - intros command0 response. unfold insertPlanRecord. apply lifecycle_frame; [|intros ? ? ?]; pres.
Qed.
End lifecycle.

Section closed.
Context `{UnicodeTables, ULID, JSONCodec, URLParser, SnapshotHash, SQLiteDriver, Misused} (P : Store → Prop) `{!WorkClosed P}.
Hypothesis closed_insert : ∀ row : Issue, preserves P (Insert row).
Hypothesis closed_update : ∀ id p f, (∀ r, i_ID (f r) = i_ID r) → preserves P (Update (R := Issue) id p f).
Hypothesis closed_label : ∀ row : Label, preserves P (Insert row).
Hypothesis closed_allocate : ∀ now, preserves P (allocateIssueNumber now).
Hypothesis closed_relation : ∀ row : IssueRelation, preserves P (Insert row).
Hypothesis closed_decision : ∀ row : Decision, preserves P (Insert row).
Hypothesis closed_log : ∀ i t sid aid p now, preserves P (AppendIssueEvent i t sid aid p now).

Hint Resolve closed_event reads_resolveID reads_resolveOptionalID reads_createGate : pres.

Lemma closed_applyIssue planned id labelIDs locals now : preserves P (applyPlannedIssue locals now planned id labelIDs).
Proof.
  unfold applyPlannedIssue. cbv zeta. pres.
  all: first [by apply closed_resolveIssueLabels | by apply closed_replaceIssueLabels].
Qed.
Lemma closed_applyRelation planned id locals now : preserves P (applyPlannedRelation locals now planned id).
Proof. unfold applyPlannedRelation, appendRelationEvents. pres. Qed.
Lemma closed_applyDecision planned id locals now : preserves P (applyPlannedDecision locals now planned id).
Proof. unfold applyPlannedDecision. pres. Qed.
Lemma closed_insertPlanRecord command response : preserves P (insertPlanRecord command response).
Proof. unfold insertPlanRecord. pres. Qed.

Lemma ApplyIssuePlan_closed command s : P s → P (ApplyIssuePlan command s).2.
Proof.
  apply ApplyIssuePlan_pres; intros;
    [apply closed_applyIssue|apply closed_applyRelation|apply closed_applyDecision|apply closed_insertPlanRecord].
Qed.
End closed.

(** A projection of what a plan does not write. *)
Section kept.
Context `{UnicodeTables, ULID, JSONCodec, URLParser, SnapshotHash, SQLiteDriver, Misused} {X : Type} (f : Store → X) (x : X).
Hypothesis blind_work : work_blind f.
Hypothesis blind_labels : ∀ m s, f (set_labels m s) = f s.
Hypothesis blind_project : ∀ m s, f (set_project m s) = f s.

Lemma keep_allocate now : preserves (keeping f x) (allocateIssueNumber now).
Proof. intros s n s' Hx (row & _ & _ & ->)%allocateIssueNumber_Ok. unfold keeping. by rewrite blind_project. Qed.

Lemma keep_applyIssue planned id labelIDs locals now :
  preserves (keeping f x) (applyPlannedIssue locals now planned id labelIDs).
Proof.
  apply closed_applyIssue.
  - by apply keeping_work.
  - intros row. by apply keep_Insert, blind_work.
  - intros id0 p g _. by apply keep_Update, blind_work.
  - intros row. by apply keep_Insert.
  - apply keep_allocate.
Qed.
End kept.

Section chained.
Context `{UnicodeTables, ULID, JSONCodec, URLParser, SnapshotHash, SQLiteDriver, Misused}.

Hint Resolve reads_resolveID : pres.

(** A planned decision supersedes nothing. *)
Lemma ApplyIssuePlan_chains command s : chains s → chains (ApplyIssuePlan command s).2.
Proof.
  apply ApplyIssuePlan_pres.
  - intros planned id labelIDs locals now s1 c s2 Hch Hrun. apply (chains_same s1); [|done].
    apply (kept st_decisions) in Hrun; [done|]. intros x. by apply keep_applyIssue.
  - intros planned id locals now s1 c s2 Hch Hrun. apply (chains_same s1); [|done].
    apply (kept st_decisions) in Hrun; [done|]. intros x. unfold applyPlannedRelation.
    pres. all: keep.
  - intros planned id locals now s1 c s2 Hch Hrun. unfold applyPlannedDecision in Hrun. inv_tx_step Hrun.
    apply reads_resolveOptionalID in Hstep as ->. inv_tx_step Hrun. apply Insert_Ok in Hstep as (Hn & _ & ->).
    inv_tx_step Hrun. apply AppendIssueEvent_Ok in Hstep as ->. apply tx_ret_Ok in Hrun as [_ ->].
    match type of Hn with table _ !! row_id ?d = None => by apply (chains_record s1 _ d d) end.
  - intros command0 response s1 u s2 Hch Hrun. apply (chains_same s1); [|done].
    apply (kept st_decisions) in Hrun; [done|]. intros x. unfold insertPlanRecord. pres. keep.
Qed.
End chained.
