(* ===== verification/PlanCheck.v ===== *)
(** * What a checked plan promises, and what applying it does

    A validation that reports nothing ([validatePlanAgainstStore]) says that
    every reference of the plan names an issue ([names]), that parents are
    epics, and that the stored blocks relations together with the planned ones
    form no cycle.  Applying the plan inserts its issues under fresh
    identifiers, so that the relations then stored are an image of the graph
    that was searched: a batch closes no cycle. *)

From S2P Require Import Prelude GoStrings Errors Validation Samples Issue Relation Session IssueOps.
From S2P Require Import Discussion Resource Attempt Plan AttemptPolicy Gates Store Schema ReservationStore.
From S2P Require Import GateStore ReviewStore Termination ReviewOps AttemptStore Footprint.
From S2P Require Import RelationStore IssueStore DiscussionStore PlanStore.

(** ** The adjacency map *)

Lemma elem_of_addEdge adjacency e x y :
  y ∈ successors (addEdge adjacency e) x ↔ y ∈ successors adjacency x ∨ (x = e.1 ∧ y = e.2).
Proof.
  destruct e as [a b]. unfold addEdge, successors. cbn. destruct (decide (a = x)) as [<-|Hne].
  - rewrite lookup_insert_eq. cbn. rewrite elem_of_app, list_elem_of_singleton. naive_solver.
  - rewrite lookup_insert_ne by done. naive_solver.
Qed.

Lemma elem_of_addEdges edges adjacency x y :
  y ∈ successors (foldl addEdge adjacency edges) x ↔ y ∈ successors adjacency x ∨ (x, y) ∈ edges.
Proof.
  revert adjacency. induction edges as [|[a b] edges IH]; intros adjacency; cbn [foldl]; [set_solver|].
  rewrite IH, elem_of_addEdge, elem_of_cons. cbn. naive_solver.
Qed.

Lemma successors_empty x y : ¬ y ∈ successors ∅ x.
Proof. unfold successors. rewrite lookup_empty. cbn. apply not_elem_of_nil. Qed.

Lemma loadBlocksEdges_spec s x y : (x, y) ∈ loadBlocksEdges s ↔ blocks s x y.
Proof.
  unfold loadBlocksEdges, blocks. rewrite elem_of_stable_sort, list_elem_of_fmap.
  setoid_rewrite elem_of_filter_list. setoid_rewrite elem_of_rows. setoid_rewrite eqb_string_true. cbn. split.
  - intros (r & [= -> ->] & [id Hr] & Ht). by exists id, r.
  - intros (id & r & Hr & Ht & <- & <-). exists r. eauto.
Qed.

Lemma adjacencyTargets_spec adjacency x y : y ∈ successors adjacency x → y ∈ adjacencyTargets adjacency.
Proof.
  unfold successors, adjacencyTargets. intros Hy. destruct (adjacency !! x) as [targets|] eqn:Hx; cbn in Hy; [|by apply not_elem_of_nil in Hy].
  revert targets Hx Hy. apply (map_fold_weak_ind (λ all m, ∀ targets, m !! x = Some targets → y ∈ targets → y ∈ (all : gset string))).
  { intros targets Hx. by rewrite lookup_empty in Hx. }
  intros i targets m all _ IH targets'. destruct (decide (i = x)) as [->|Hne].
  - rewrite lookup_insert_eq. intros [= ->] Hy. apply elem_of_union_l. by apply elem_of_list_to_set.
  - rewrite lookup_insert_ne by done. intros Hx Hy. apply elem_of_union_r. by eapply IH.
Qed.

(** The search of a batch decides reachability in the adjacency map. *)
Lemma batchPathExists_spec adjacency start sought :
  batchPathExists adjacency start sought = true ↔ tc (λ x y, y ∈ successors adjacency x) start sought.
Proof.
  unfold batchPathExists.
  destruct (bfs_spec (successors adjacency) start sought ({[ start ]} ∪ adjacencyTargets adjacency))
    with (fuel := S (size (adjacencyTargets adjacency))) as (b & -> & Hb).
  - set_solver.
  - intros x y _ Hy. apply elem_of_union_r. by eapply adjacencyTargets_spec.
  - rewrite size_union_alt, size_singleton.
    assert (size (adjacencyTargets adjacency ∖ {[start]}) ≤ size (adjacencyTargets adjacency)) by (apply subseteq_size; set_solver). lia.
  - exact Hb.
Qed.

(** ** Loops that report *)

Lemma eachIndexed_inv {A B} (f : Z → A → B → result B) (clean : B → Prop) (J : list A → B → Prop) :
  (∀ i a b b', f i a b = Ok b' → clean b' → clean b) →
  (∀ done i a b b', J done b → f i a b = Ok b' → clean b' → J (done ++ [a]) b') →
  ∀ i items done b b', J done b → eachIndexed f i items b = Ok b' → clean b' → clean b ∧ J (done ++ items) b'.
Proof.
  intros Hclean Hstep i items. revert i. induction items as [|a items IH]; intros i done b b' HJ Hrun Hc; cbn [eachIndexed] in Hrun.
  { injection Hrun as <-. by rewrite app_nil_r. }
  apply result_bind_Ok in Hrun as (b1 & Hf & Hrun).
  assert (Hc1 : clean b1).
  { clear -Hclean Hrun Hc. revert b1 Hrun. generalize (i + 1)%Z. induction items as [|x items IH]; intros j b1 Hrun; cbn [eachIndexed] in Hrun.
    - by injection Hrun as <-.
    - apply result_bind_Ok in Hrun as (b2 & Hf & Hrun). eapply Hclean; [exact Hf|]. by eapply IH. }
  split; [by eapply Hclean|]. replace (done ++ a :: items) with ((done ++ [a]) ++ items) by (by rewrite <-app_assoc).
  eapply IH; [|exact Hrun|exact Hc]. by eapply Hstep.
Qed.

Section checked.
Context `{UnicodeTables, ULID, SnapshotHash, SQLiteDriver, Misused} (s : Store) (issues : list PlannedIssue).
Hypothesis schema : schema_ok s.

(** ** References *)

(** A reference to an issue that is stored and not archived. *)
Definition stored_ref (value : string) (i : Issue) : Prop :=
  ∃ identifier, ParseIssueIdentifier value = Ok identifier ∧ findIssue identifier s = Some i ∧ i_ArchivedAt i = None.

Inductive names (value : string) : string → Prop :=
  | names_local node : localRefs issues !! value = Some node → names value node
  | names_stored i : localRefs issues !! value = None → stored_ref value i → names value (i_ID i).

Lemma stored_ref_unique value i j : stored_ref value i → stored_ref value j → i = j.
Proof. intros (a & Ha & Hi & _) (b & Hb & Hj & _). congruence. Qed.

Lemma names_unique value a b : names value a → names value b → a = b.
Proof.
  intros [x Hx|i Hx Hi] [y Hy|j Hy Hj]; try congruence. by rewrite (stored_ref_unique _ _ _ Hi Hj).
Qed.

Lemma localRefs_Some value node :
  localRefs issues !! value = Some node → node = localNode value ∧ value ≠ "" ∧ ∃ issue, issue ∈ issues ∧ pn_Ref issue = value.
Proof.
  unfold localRefs.
  assert (Hgen : ∀ l (m : gmap string string),
    foldl (λ refs issue, if pn_Ref issue =s "" then refs else <[pn_Ref issue := localNode (pn_Ref issue)]> refs) m l !! value = Some node →
    m !! value = Some node ∨ (node = localNode value ∧ value ≠ "" ∧ ∃ issue, issue ∈ l ∧ pn_Ref issue = value)).
  { induction l as [|x l IH]; intros m Hm; cbn [foldl] in Hm; [by left|]. apply IH in Hm as [Hm|(? & ? & y & ? & ?)].
    - destruct (pn_Ref x =s "") eqn:He; [by left|]. apply eqb_string_false in He.
      apply lookup_insert_Some in Hm as [[<- <-]|[_ Hm]]; [|by left]. right. split_and!; [done|done|]. exists x. split; [left|done].
    - right. split_and!; [done|done|]. exists y. split; [by right|done]. }
  intros Hl. apply Hgen in Hl as [Hl|Hl]; [by rewrite lookup_empty in Hl|done].
Qed.

Lemma stored_id i identifier : findIssue identifier s = Some i → i_ID i ≠ "".
Proof.
  intros Hf%findIssue_Some; [|done]. pose proof (proj2 (ok_issues _ schema) _ _ Hf) as Hc. cbn in Hc. unfold issue_constraint in Hc.
  conj_hyps. intros He. rewrite He in *. done.
Qed.

Lemma names_nonempty value node : names value node → node ≠ "".
Proof.
  intros [x [-> _]%localRefs_Some|i _ (identifier & _ & Hf & _)]; [done|by eapply stored_id].
Qed.

Record refs_ok (check : PlanCheck) : Prop := {
  rk_local v n : localRefs issues !! v = Some n → ck_Refs check !! v = Some n;
  rk_names v n : ck_Refs check !! v = Some n → names v n;
}.

Definition clean (check : PlanCheck) : Prop := ck_Details check = [].

Lemma loadIssueForMutation_find identifier i s' :
  loadIssueForMutation identifier s = Ok (i, s') → s' = s ∧ findIssue identifier s = Some i.
Proof.
  change (match findIssue identifier s with Some issue => Ok (issue, s) | None => Err issueNotFound end = Ok (i, s') →
    s' = s ∧ findIssue identifier s = Some i). destruct (findIssue identifier s); [|done]. by intros [= -> <-].
Qed.

Lemma report_dirty detail check : ¬ clean (report detail check).
Proof. unfold clean, report. cbn. intros [_ ?]%app_nil. done. Qed.

(** A resolution that reports nothing. *)
Lemma resolve_clean value i field check id known check' :
  resolve s value i field check = Ok (id, known, check') → clean check' →
  clean check ∧
  ((known = true ∧ check' = check ∧ ck_Refs check !! value = Some id) ∨
   (known = false ∧ ck_Refs check !! value = None ∧ ck_Refs check' = <[value := id]> (ck_Refs check) ∧
    ∃ j, stored_ref value j ∧ id = i_ID j)).
Proof.
  unfold resolve. destruct (ck_Refs check !! value) as [n|] eqn:Hv; [intros [= -> <- ->]; auto|].
  destruct (ParseIssueIdentifier value) as [identifier|] eqn:Hp; [|by intros [= _ _ <-] ?%report_dirty].
  destruct (loadIssueForMutation identifier s) as [[j s1]|e] eqn:Hl.
  2:{ destruct (_ =s _); [|done]. by intros [= _ _ <-] ?%report_dirty. }
  apply loadIssueForMutation_find in Hl as [-> Hf].
  destruct (isSet (i_ArchivedAt j)) eqn:Ha; [by intros [= _ _ <-] ?%report_dirty|]. apply isSet_false in Ha.
  intros [= <- <- <-] Hc. split; [exact Hc|]. right. split_and!; [done..|]. exists j. split; [|done]. by exists identifier.
Qed.

Lemma resolve_names value i field check id known check' :
  refs_ok check → resolve s value i field check = Ok (id, known, check') → clean check' →
  clean check ∧ refs_ok check' ∧ names value id.
Proof.
  intros [Hl Hn] Hr Hc. destruct (resolve_clean _ _ _ _ _ _ _ Hr Hc) as [Hc0 [(_ & -> & Hv)|(_ & Hv & Hrefs & j & Hj & ->)]].
  { split_and!; [done|by split|by apply Hn]. }
  assert (Hloc : localRefs issues !! value = None).
  { destruct (localRefs issues !! value) as [n|] eqn:He; [|done]. apply Hl in He. congruence. }
  split_and!; [done| |by apply names_stored]. split; rewrite Hrefs; intros v n.
  - intros He. rewrite lookup_insert_ne by congruence. by apply Hl.
  - intros [[<- <-]|[_ He]]%lookup_insert_Some; [by apply names_stored|by apply Hn].
Qed.

(** ** Parents *)

Definition good_parent (issue : PlannedIssue) : Prop := ∀ ref, pn_ParentRef issue = Some ref →
  pn_Type issue ≠ TypeEpic ∧
  ((is_Some (localRefs issues !! ref) ∧ ∀ c, c ∈ issues → pn_Ref c = ref → pn_Type c = TypeEpic) ∨
   (localRefs issues !! ref = None ∧ ∃ e, stored_ref ref e ∧ i_Type e = TypeEpic)).

(** While parents are checked, every stored issue in the map is an epic. *)
Definition epics (check : PlanCheck) : Prop := ∀ v n,
  ck_Refs check !! v = Some n → localRefs issues !! v = None → ∃ e, stored_ref v e ∧ i_Type e = TypeEpic.

Lemma checkLocalParent_clean i ref check :
  clean (checkLocalParent issues i ref check) →
  checkLocalParent issues i ref check = check ∧ ∀ c, c ∈ issues → pn_Ref c = ref → pn_Type c = TypeEpic.
Proof.
  unfold checkLocalParent. set (f := λ check candidate, if (pn_Ref candidate =s ref) && negb (pn_Type candidate =s TypeEpic)
    then report (parentNotEpic i) check else check).
  assert (Hgrow : ∀ l ck, clean (foldl f ck l) → clean ck).
  { induction l as [|x l IH]; intros ck Hc; [done|]. cbn in Hc. apply IH in Hc. unfold f in Hc.
    destruct (_ && _); [by apply report_dirty in Hc|done]. }
  induction issues as [|x l IH] in check |- *; cbn [foldl]; intros Hc; [split; [done|]; by intros c ?%elem_of_nil|].
  pose proof (Hgrow _ _ Hc) as Hc1. unfold f in Hc1 at 1. unfold f at 2 in Hc. unfold f at 2.
  destruct ((pn_Ref x =s ref) && negb (pn_Type x =s TypeEpic)) eqn:Hx; [by apply report_dirty in Hc1|].
  destruct (IH check Hc) as [-> Hall]. split; [done|]. intros c [->|Hin]%elem_of_cons Href; [|by apply Hall].
  rewrite Href, eqb_string_refl in Hx. cbn in Hx. by apply negb_false_iff, eqb_string_true in Hx.
Qed.

Lemma checkPlannedParent_clean i issue check check' :
  checkPlannedParent s issues i issue check = Ok check' → clean check' → clean check.
Proof.
  unfold checkPlannedParent. destruct (pn_ParentRef issue) as [ref|]; [|by intros [= ->]].
  intros Hrun Hc. apply result_bind_Ok in Hrun as ([[id known] check1] & Hr & Hrun).
  enough (clean check1) by (by eapply resolve_clean).
  destruct (id =s ""); [by injection Hrun as ->|]. destruct (pn_Type issue =s TypeEpic).
  { injection Hrun as <-. by apply report_dirty in Hc. }
  destruct known; [injection Hrun as <-; by destruct (checkLocalParent_clean _ _ _ Hc) as [<- _]|].
  apply result_bind_Ok in Hrun as ([parent s1] & _ & Hrun). injection Hrun as <-.
  destruct (negb _); [by apply report_dirty in Hc|done].
Qed.

Lemma stored_internal value j : stored_ref value j → findIssue (internalIdentifier (i_ID j)) s = Some j.
Proof. intros (identifier & _ & Hf & _). by apply findIssue_Some in Hf. Qed.

Lemma checkPlannedParent_step i issue check check' :
  refs_ok check → epics check → checkPlannedParent s issues i issue check = Ok check' → clean check' →
  refs_ok check' ∧ epics check' ∧ good_parent issue.
Proof.
  unfold checkPlannedParent, good_parent. intros Hok Hep Hrun Hc. destruct (pn_ParentRef issue) as [ref|]; [|by injection Hrun as <-].
  apply result_bind_Ok in Hrun as ([[id known] check1] & Hr & Hrun).
  assert (Hc1 : clean check1).
  { destruct (id =s ""); [by injection Hrun as ->|]. destruct (pn_Type issue =s TypeEpic).
    { injection Hrun as <-. by apply report_dirty in Hc. }
    destruct known; [injection Hrun as <-; by destruct (checkLocalParent_clean _ _ _ Hc) as [<- _]|].
    apply result_bind_Ok in Hrun as ([parent s1] & _ & Hrun). injection Hrun as <-.
    destruct (negb _); [by apply report_dirty in Hc|done]. }
  destruct (resolve_names _ _ _ _ _ _ _ Hok Hr Hc1) as (_ & Hok1 & Hname).
  rewrite (proj2 (eqb_string_false _ _) (names_nonempty _ _ Hname)) in Hrun.
  destruct (pn_Type issue =s TypeEpic) eqn:Ht; [injection Hrun as <-; by apply report_dirty in Hc|]. apply eqb_string_false in Ht.
  destruct (resolve_clean _ _ _ _ _ _ _ Hr Hc1) as [_ [(-> & -> & Hv)|(-> & Hv & Hrefs & j & Hj & ->)]].
  - injection Hrun as <-. destruct (checkLocalParent_clean _ _ _ Hc) as [He Hall]. rewrite He. split_and!; [done|done|].
    intros ? [= <-]. split; [done|]. destruct (localRefs issues !! ref) as [n|] eqn:Hl; [left|right]; split; [done|done|done|].
    by apply (Hep ref id).
  - apply result_bind_Ok in Hrun as ([parent s1] & Hl & Hrun). injection Hrun as <-.
    apply loadIssueForMutation_find in Hl as [_ Hl]. rewrite (stored_internal _ _ Hj) in Hl. injection Hl as ->.
    destruct (negb (i_Type parent =s TypeEpic)) eqn:He; [by apply report_dirty in Hc|]. apply negb_false_iff, eqb_string_true in He.
    assert (Hloc : localRefs issues !! ref = None).
    { destruct (localRefs issues !! ref) as [n|] eqn:Hl; [|done]. apply (rk_local _ Hok) in Hl. congruence. }
    split_and!; [done| |].
    + intros v n. rewrite Hrefs. intros [[<- <-]|[_ Hn]]%lookup_insert_Some Hnl; [by exists parent|by eapply Hep].
    + intros ? [= <-]. split; [done|]. right. split; [done|]. by exists parent.
Qed.

(** ** Relations *)

Definition edge_of (adjacency : gmap string (list string)) (x y : string) : Prop := y ∈ successors adjacency x.

Lemma checkRelation_clean i relation st st' :
  checkRelation s i relation st = Ok st' → clean (rc_Check st') → clean (rc_Check st).
Proof.
  unfold checkRelation. cbv zeta. intros Hrun Hc.
  apply result_bind_Ok in Hrun as ([[a k1] check1] & Hr1 & Hrun). apply result_bind_Ok in Hrun as ([[b k2] check2] & Hr2 & Hrun).
  enough (clean check2) by (eapply resolve_clean; [exact Hr1|]; by eapply resolve_clean).
  repeat (match type of Hrun with
  | (if ?c then _ else _) = _ => destruct c
  | context [let '(_, _) := ?p in _] => destruct p
  end; try (injection Hrun as <-; cbn in Hc; first [exact Hc|by apply report_dirty in Hc])).
Qed.

(** The graph before and after one relation. *)
Record graph_ok (stored : Prop) (done : list PlannedRelation) (st : RelationCheck) : Prop := {
  gk_refs : refs_ok (rc_Check st);
  gk_acyclic x : ¬ tc (edge_of (rc_Adjacency st)) x x;
  gk_stored : stored → ∀ x y, blocks s x y → edge_of (rc_Adjacency st) x y;
  gk_done r : r ∈ done → ∃ a b, names (pnr_SourceRef r) a ∧ names (pnr_TargetRef r) b ∧
    (pnr_Type r = RelationTypeBlocks → edge_of (rc_Adjacency st) a b);
}.

Lemma checkRelation_step stored i relation done st st' :
  graph_ok stored done st → checkRelation s i relation st = Ok st' → clean (rc_Check st') →
  graph_ok stored (done ++ [relation]) st'.
Proof.
  unfold checkRelation. cbv zeta. intros [Hrefs Hac Hst Hdone] Hrun Hc.
  apply result_bind_Ok in Hrun as ([[a k1] check1] & Hr1 & Hrun). apply result_bind_Ok in Hrun as ([[b k2] check2] & Hr2 & Hrun).
  assert (Hc2 : clean check2).
  { repeat (match type of Hrun with
    | (if ?c then _ else _) = _ => destruct c
    | context [let '(_, _) := ?p in _] => destruct p
    end; try (injection Hrun as <-; cbn in Hc; first [exact Hc|by apply report_dirty in Hc])). }
  assert (Hc1 : clean check1) by by eapply resolve_clean.
  destruct (resolve_names _ _ _ _ _ _ _ Hrefs Hr1 Hc1) as (_ & Hrefs1 & Ha).
  destruct (resolve_names _ _ _ _ _ _ _ Hrefs1 Hr2 Hc2) as (_ & Hrefs2 & Hb).
  rewrite (proj2 (eqb_string_false _ _) (names_nonempty _ _ Ha)), (proj2 (eqb_string_false _ _) (names_nonempty _ _ Hb)) in Hrun.
  cbn [orb] in Hrun. destruct (a =s b) eqn:Hab; [injection Hrun as <-; by apply report_dirty in Hc|]. apply eqb_string_false in Hab.
  destruct (CanonicalRelationEndpoints (pnr_Type relation) a b) as [source target] eqn:Hcan.
  case_bool_decide; [injection Hrun as <-; by apply report_dirty in Hc|]. cbn [rc_Check rc_Proposed rc_Adjacency] in Hrun.
  destruct (isSet (loadRelation _ _ _ _)); [injection Hrun as <-; by apply report_dirty in Hc|].
  destruct (pnr_Type relation =s RelationTypeBlocks) eqn:Ht.
  - apply eqb_string_true in Ht. rewrite Ht, CanonicalRelationEndpoints_directed in Hcan by done. injection Hcan as <- <-.
    destruct (batchPathExists _ _ _) eqn:Hp; [injection Hrun as <-; by apply report_dirty in Hc|]. injection Hrun as <-.
    assert (Hedge : ∀ x y, edge_of (addEdge (rc_Adjacency st) (a, b)) x y ↔ edge_of (rc_Adjacency st) x y ∨ (x = a ∧ y = b)).
    { intros x y. apply elem_of_addEdge. }
    assert (Hnp : ¬ tc (edge_of (rc_Adjacency st)) b a) by (intros Hpath%batchPathExists_spec; congruence).
    split; cbn [rc_Check rc_Adjacency]; [done| | |].
    + intros x Hx. apply (acyclic_add (edge_of (rc_Adjacency st)) a b Hab Hac Hnp x). revert Hx. apply tc_mono. intros u v. apply Hedge.
    + intros Hs x y Hxy. apply Hedge. left. by apply Hst.
    + intros r [Hr|Hr%list_elem_of_singleton]%elem_of_app.
      * destruct (Hdone r Hr) as (u & v & ? & ? & ?). exists u, v. split_and!; [done..|]. intros ?. apply Hedge. left. auto.
      * subst r. exists a, b. split_and!; [done..|]. intros _. apply Hedge. by right.
  - apply eqb_string_false in Ht. injection Hrun as <-. split; cbn [rc_Check rc_Adjacency]; [done..|].
    intros r [Hr|Hr%list_elem_of_singleton]%elem_of_app; [by apply Hdone|]. subst r. by exists a, b.
Qed.

Lemma loadAdjacency_ok relations check :
  acyclic s → refs_ok check →
  graph_ok (∃ r, r ∈ relations ∧ pnr_Type r = RelationTypeBlocks) [] (mkRelationCheck check ∅ (loadAdjacency s relations)).
Proof.
  intros Hac Hrefs. unfold loadAdjacency. split; cbn [rc_Check rc_Adjacency]; [done| | |by intros r ?%elem_of_nil].
  - intros x Hx. destruct (existsb _ _).
    + apply (Hac x). revert Hx. apply tc_mono. intros u v. unfold edge_of. rewrite elem_of_addEdges, loadBlocksEdges_spec.
      intros [?%successors_empty|?]; done.
    + inversion Hx as [? ? He|? ? ? He]; by apply successors_empty in He.
  - intros (r & Hr & Ht) x y Hxy. rewrite (proj2 (existsb_exists _ _)).
    + unfold edge_of. rewrite elem_of_addEdges, loadBlocksEdges_spec. by right.
    + exists r. split; [by apply list_elem_of_In|by apply eqb_string_true].
Qed.

(** ** Decisions *)

Lemma checkDecision_clean i decision check check' :
  checkDecision s i decision check = Ok check' → clean check' → clean check.
Proof.
  unfold checkDecision. destruct (pnd_IssueRef decision); [|by intros [= ->]].
  intros Hrun Hc. apply result_bind_Ok in Hrun as ([[id known] check1] & Hr & [= ->]). by eapply resolve_clean.
Qed.

Lemma checkDecision_step i decision check check' :
  refs_ok check → checkDecision s i decision check = Ok check' → clean check' →
  refs_ok check' ∧ ∀ ref, pnd_IssueRef decision = Some ref → ∃ node, names ref node.
Proof.
  unfold checkDecision. intros Hok Hrun Hc. destruct (pnd_IssueRef decision) as [ref|]; [|by injection Hrun as <-].
  apply result_bind_Ok in Hrun as ([[id known] check1] & Hr & [= <-]).
  destruct (resolve_names _ _ _ _ _ _ _ Hok Hr Hc) as (_ & ? & ?). split; [done|]. intros ? [= <-]. by exists id.
Qed.

Lemma refs_ok_init : refs_ok (mkCheck (localRefs issues) []).
Proof. split; cbn; [done|]. intros v n. apply names_local. Qed.
End checked.

(** ** Plans *)

Section plans.
Context `{UnicodeTables, ULID, SnapshotHash, SQLiteDriver, Misused}.

(** What a plan without findings promises in the store it was checked in. *)
Record checked (s : Store) (plan : IssuePlan) : Prop := {
  kd_parents issue : issue ∈ ip_Issues plan → good_parent s (ip_Issues plan) issue;
  kd_graph : ∃ E : relation string, (∀ x, ¬ tc E x x) ∧
    ((∃ r, r ∈ ip_Relations plan ∧ pnr_Type r = RelationTypeBlocks) → ∀ x y, blocks s x y → E x y) ∧
    ∀ r, r ∈ ip_Relations plan → ∃ a b, names s (ip_Issues plan) (pnr_SourceRef r) a ∧
      names s (ip_Issues plan) (pnr_TargetRef r) b ∧ (pnr_Type r = RelationTypeBlocks → E a b);
  kd_decisions d ref : d ∈ ip_Decisions plan → pnd_IssueRef d = Some ref → ∃ node, names s (ip_Issues plan) ref node;
}.

Lemma SortDetails_nil details : SortDetails details = [] → details = [].
Proof. intros Hn. apply Permutation_nil. rewrite <-Hn. apply stable_sort_Permutation. Qed.

Lemma validatePlanAgainstStore_checked s plan :
  schema_ok s → acyclic s → validatePlanAgainstStore plan s = Ok [] → checked s plan.
Proof.
  intros Hok Hac Hrun. unfold validatePlanAgainstStore in Hrun.
  apply result_bind_Ok in Hrun as (check1 & Hparents & Hrun). apply result_bind_Ok in Hrun as (st & Hrel & Hrun).
  apply result_bind_Ok in Hrun as (check2 & Hdec & Hrun). injection Hrun as Hclean%SortDetails_nil.
  destruct (eachIndexed_inv (checkDecision s) clean (λ _ _, True) (checkDecision_clean s) ltac:(done)
    _ _ [] _ _ I Hdec Hclean) as [Hc1 _].
  destruct (eachIndexed_inv (checkPlannedParent s (ip_Issues plan)) clean
    (λ done check, refs_ok s (ip_Issues plan) check ∧ epics s (ip_Issues plan) check ∧ ∀ i, i ∈ done → good_parent s (ip_Issues plan) i)
    (checkPlannedParent_clean s (ip_Issues plan))) with (i := 0%Z) (items := ip_Issues plan) (done := @nil PlannedIssue)
    (b := mkCheck (localRefs (ip_Issues plan)) []) (b' := check1) as [_ (Hrefs & _ & Hgood)]; [| |exact Hparents| |].
  - intros done i issue check check' (Hr & He & Hd) Hs Hc.
    destruct (checkPlannedParent_step s (ip_Issues plan) Hok i issue check check' Hr He Hs Hc) as (? & ? & ?).
    split_and!; [done|done|]. intros j [Hj|Hj%list_elem_of_singleton]%elem_of_app; [by apply Hd|by subst j].
  - split_and!; [apply refs_ok_init| |by intros ? ?%elem_of_nil]. intros v n Hv Hn. cbn in Hv. congruence.
  - destruct (eachIndexed_inv (checkRelation s) (clean ∘ rc_Check) (λ _ _, True)
      (checkRelation_clean s) ltac:(done) _ _ [] _ _ I Hrel Hc1) as [Hc _]. exact Hc.
  - destruct (eachIndexed_inv (checkRelation s) (clean ∘ rc_Check)
      (graph_ok s (ip_Issues plan) (∃ r, r ∈ ip_Relations plan ∧ pnr_Type r = RelationTypeBlocks))
      (checkRelation_clean s)) with (i := 0%Z) (items := ip_Relations plan) (done := @nil PlannedRelation)
      (b := mkRelationCheck check1 ∅ (loadAdjacency s (ip_Relations plan))) (b' := st) as [_ [Hrefs2 HacE Hst Hdone]]; [| |done|done|].
    + intros done i r st1 st2 Hg Hs Hc. by eapply checkRelation_step.
    + by apply loadAdjacency_ok.
    + split; [exact Hgood|by exists (edge_of (rc_Adjacency st))|].
      destruct (eachIndexed_inv (checkDecision s) clean
        (λ done check, refs_ok s (ip_Issues plan) check ∧
           ∀ d ref, d ∈ done → pnd_IssueRef d = Some ref → ∃ node, names s (ip_Issues plan) ref node) (checkDecision_clean s))
        with (i := 0%Z) (items := ip_Decisions plan) (done := @nil PlannedDecision) (b := rc_Check st) (b' := check2)
        as [_ [_ Hd]]; [|split; [done|by intros ? ? ?%elem_of_nil]|done|done|exact Hd].
      intros done i d check check' [Hr Hd] Hs Hc. apply (checkDecision_step s (ip_Issues plan)) in Hs as [Hr' Hd']; [|done..].
      split; [done|]. intros x ref [Hx|Hx%list_elem_of_singleton]%elem_of_app; [by apply Hd|subst x; apply Hd'].
Qed.
End plans.
