(* ===== verification/PlanApply.v ===== *)
(** * Applying a plan

    The transaction of [ApplyIssuePlan], one statement after the other: what an
    issue, a relation and a decision of the plan write; the loops; and the
    first of the invariants, that a batch closes no cycle of blocks relations. *)

From S2P Require Import Prelude GoStrings Errors Validation Samples Issue Relation Session IssueOps.
From S2P Require Import Discussion Resource Attempt Plan AttemptPolicy Gates Store Schema ReservationStore.
From S2P Require Import GateStore ReviewStore Termination ReviewOps AttemptStore Footprint.
From S2P Require Import RelationStore IssueStore DiscussionStore PlanStore PlanCheck.

Section apply.
Context `{UnicodeTables, ULID, SnapshotHash, SQLiteDriver, Misused}.

(** ** One element *)

Lemma applyPlannedIssue_Ok locals now planned id labelIDs s c s' :
  schema_ok s → applyPlannedIssue locals now planned id labelIDs s = Ok (c, s') →
  ∃ row parent labels,
    let issue := createdIssue id (plannedInput planned) (pj_NextIssueNumber row) parent now in
    c = mkPlanIssue (pn_Ref planned) (setLabels labels issue) ∧ st_project s = Some row ∧
    resolveOptionalID locals (pn_ParentRef planned) s = Ok (parent, s) ∧ st_issues s !! id = None ∧
    match parent with Some p => is_Some (st_issues s !! p) | None => True end ∧
    Forall2 (label_named s') (pn_Labels planned) labels ∧ schema_ok s' ∧
    st_issues s' = <[id := setLabels (stable_sort labelLess labels) issue]> (st_issues s) ∧
    st_project s' = Some (mkProjectRow (pj_ID row) (pj_NextIssueNumber row + 1) now) ∧
    st_relations s' = st_relations s ∧ st_decisions s' = st_decisions s ∧ st_labels s ⊆ st_labels s'.
Proof.
  unfold applyPlannedIssue. cbv zeta. intros Hok Hrun. inv_tx_step Hrun. apply reads_createGate in Hstep as ->.
  inv_tx_step Hrun. pose proof (reads_resolveOptionalID _ _ _ _ _ Hstep) as ->. rename a0 into parent, Hstep into Hparent.
  inv_tx_step Hrun. apply allocateIssueNumber_Ok in Hstep as (row & Hrow & -> & ->).
  assert (Hok1 : schema_ok (set_project (Some (mkProjectRow (pj_ID row) (pj_NextIssueNumber row + 1) now)) s))
    by (apply (schema_same s); [by split|apply Hok|exact Hok]).
  apply insertIssue_Ok in Hrun as (labels & s1 & Hrun & Hok2 & Hlab & Hn & Hcon & Hi & Hp & Hr & Hd & Hg); [|done].
  cbn in Hn, Hcon, Hi, Hp, Hr, Hd, Hg. inv_tx_step Hrun. apply schema_pres_appendIssueEvent in Hstep as Hok3; [|done].
  apply appendIssueEvent_Ok in Hstep as ->. apply tx_ret_Ok in Hrun as [-> ->].
  exists row, parent, labels. split_and!; try done. destruct parent as [p|]; [|done].
  unfold issue_constraint in Hcon. conj_hyps. cbn in *. conj_hyps. by apply fk_true.
Qed.

Lemma applyPlannedRelation_Ok locals now planned id s c s' :
  applyPlannedRelation locals now planned id s = Ok (c, s') →
  ∃ a b, resolveID locals (pnr_SourceRef planned) s = Ok (a, s) ∧ resolveID locals (pnr_TargetRef planned) s = Ok (b, s) ∧
    let '(source, target) := CanonicalRelationEndpoints (pnr_Type planned) a b in
    c = mkRelation id source target (pnr_Type planned) now ∧ st_relations s !! id = None ∧
    st_relations s' = <[id := c]> (st_relations s) ∧
    st_issues s' = st_issues s ∧ st_project s' = st_project s ∧ st_decisions s' = st_decisions s.
Proof.
  unfold applyPlannedRelation. intros Hrun. inv_tx_step Hrun. pose proof (reads_resolveID _ _ _ _ _ Hstep) as ->. rename a into a0, Hstep into Ha.
  inv_tx_step Hrun. pose proof (reads_resolveID _ _ _ _ _ Hstep) as ->. rename a into b0, Hstep into Hb. exists a0, b0. split_and!; [done|done|].
  destruct (CanonicalRelationEndpoints _ _ _) as [source target]. inv_tx_step Hrun. apply Insert_Ok in Hstep as (Hn & _ & ->).
  inv_tx_step Hrun. apply (kept (λ s, (st_relations s, st_issues s, st_project s, st_decisions s))) in Hstep; [|intros x; keep].
  injection Hstep as Hr Hi Hp Hd. apply tx_ret_Ok in Hrun as [-> ->]. split_and!; done.
Qed.

Lemma applyPlannedDecision_Ok locals now planned id s c s' :
  applyPlannedDecision locals now planned id s = Ok (c, s') →
  ∃ issueID, resolveOptionalID locals (pnd_IssueRef planned) s = Ok (issueID, s) ∧
    let d := mkDecision id issueID (pnd_Title planned) (pnd_Summary planned) (pnd_Content planned) (pnd_Status planned) None None now in
    c = mkPlanDecision id issueID (pnd_Title planned) (pnd_Summary planned) (pnd_Content planned) (pnd_Status planned) now ∧
    st_decisions s !! id = None ∧ st_decisions s' = <[id := d]> (st_decisions s) ∧
    st_issues s' = st_issues s ∧ st_project s' = st_project s ∧ st_relations s' = st_relations s.
Proof.
  unfold applyPlannedDecision. intros Hrun. inv_tx_step Hrun. pose proof (reads_resolveOptionalID _ _ _ _ _ Hstep) as ->.
  exists a. split; [done|]. inv_tx_step Hrun. apply Insert_Ok in Hstep0 as (Hn & _ & ->). inv_tx_step Hrun.
  apply AppendIssueEvent_Ok in Hstep0 as ->. apply tx_ret_Ok in Hrun as [-> ->]. split_and!; done.
Qed.
End apply.

(** ** Loops *)

(** What holds before each round and after it holds at the end, with the answers. *)
Lemma applyEach_ind {A B} (f : A → Tx B) (J : list A → list B → Store → Prop) items :
  (∀ done bs a b s s', J done bs s → a ∈ items → f a s = Ok (b, s') → J (done ++ [a]) (bs ++ [b]) s') →
  ∀ s bs s', J [] [] s → applyEach f items s = Ok (bs, s') → J items bs s'.
Proof.
  intros Hstep.
  assert (Hgen : ∀ rest done bs0 s bs s', (∀ a, a ∈ rest → a ∈ items) → J done bs0 s → applyEach f rest s = Ok (bs, s') →
    J (done ++ rest) (bs0 ++ bs) s').
  { induction rest as [|a rest IH]; intros done bs0 s bs s' Hin HJ Hrun; cbn [applyEach] in Hrun.
    - apply tx_ret_Ok in Hrun as [-> ->]. by rewrite !app_nil_r.
    - inv_tx_step Hrun. rename a0 into b. inv_tx_step Hrun. rename a0 into bs1. apply tx_ret_Ok in Hrun as [-> ->].
      replace (done ++ a :: rest) with ((done ++ [a]) ++ rest) by (by rewrite <-app_assoc).
      replace (bs0 ++ b :: bs1) with ((bs0 ++ [b]) ++ bs1) by (by rewrite <-app_assoc).
      eapply IH; [intros x Hx; apply Hin; by right| |exact Hstep1]. eapply Hstep; [exact HJ| |exact Hstep0]. apply Hin. by left. }
  intros s bs s' HJ Hrun. by apply (Hgen items [] [] s bs s').
Qed.

Lemma snd_unique {A B} (l : list (A * B)) a b x : NoDup (map snd l) → (a, x) ∈ l → (b, x) ∈ l → a = b.
Proof.
  intros Hnd [i Hi]%list_elem_of_lookup [j Hj]%list_elem_of_lookup.
  assert (i = j) as ->; [|congruence]. eapply (NoDup_lookup (map snd l) i j x Hnd);
    change (map snd) with (fmap (M := list) (@snd A B)); rewrite list_lookup_fmap; [by rewrite Hi|by rewrite Hj].
Qed.

Section planned.
Context `{UnicodeTables, ULID, SnapshotHash, SQLiteDriver, Misused} (command : ApplyIssuePlanCommand) (s0 : Store).
Let plan := pc_Plan command.
Let now := pc_OccurredAt command.
Let locals := localIDs command.
Hypothesis schema0 : schema_ok s0.

Definition issueItems : list (PlannedIssue * string * list string) :=
  zip (zip (ip_Issues (pc_Plan command)) (pc_IssueIDs command)) (pc_LabelIDs command).
Definition relationItems := zip (ip_Relations (pc_Plan command)) (pc_RelationIDs command).
Definition decisionItems := zip (ip_Decisions (pc_Plan command)) (pc_DecisionIDs command).

Record command_ok : Prop := {
  cok_issues : length (pc_IssueIDs command) = length (ip_Issues (pc_Plan command));
  cok_relations : length (pc_RelationIDs command) = length (ip_Relations (pc_Plan command));
  cok_decisions : length (pc_DecisionIDs command) = length (ip_Decisions (pc_Plan command));
  cok_labels : length (pc_LabelIDs command) = length (ip_Issues (pc_Plan command));
  cok_ids id : id ∈ pc_IssueIDs command → ids_ParseStrict id = true;
}.

Lemma validatePlanCommand_Ok u : validatePlanCommand command = Ok u → command_ok.
Proof.
  unfold validatePlanCommand. cbv zeta. intros Hv. apply fail_if_Ok in Hv as [Hl Hv]. apply fail_if_Ok in Hv as [Hids _].
  rewrite !orb_false_iff, !negb_false_iff, !Nat.eqb_eq in Hl. destruct Hl as [[[[_ ?] ?] ?] ?]. split; try done.
  intros id Hin. destruct (ids_ParseStrict id) eqn:He; [done|]. exfalso.
  assert (Hex : existsb (λ id, negb (ids_ParseStrict id)) (pc_IssueIDs command ++ pc_RelationIDs command ++ pc_DecisionIDs command) = true).
  { apply existsb_exists. exists id. split; [|by rewrite He]. apply list_elem_of_In, elem_of_app. by left. }
  congruence.
Qed.

(** *** Local identifiers *)

Lemma localIDs_Some value id :
  localIDs command !! value = Some id →
  value ≠ "" ∧ ∃ issue, (issue, id) ∈ zip (ip_Issues (pc_Plan command)) (pc_IssueIDs command) ∧ pn_Ref issue = value.
Proof.
  unfold localIDs.
  assert (Hgen : ∀ l (m : gmap string string),
    foldl (λ ids '(issue, id), if pn_Ref issue =s "" then ids else <[pn_Ref issue := id]> ids) m l !! value = Some id →
    m !! value = Some id ∨ (value ≠ "" ∧ ∃ issue, (issue, id) ∈ l ∧ pn_Ref issue = value)).
  { induction l as [|[x i] l IH]; intros m Hm; cbn [foldl] in Hm; [by left|]. apply IH in Hm as [Hm|(? & y & ? & ?)].
    - destruct (pn_Ref x =s "") eqn:He; [by left|]. apply eqb_string_false in He.
      apply lookup_insert_Some in Hm as [[<- <-]|[_ Hm]]; [|by left]. right. split; [done|]. exists x. split; [left|done].
    - right. split; [done|]. exists y. split; [by right|done]. }
  intros Hl. apply Hgen in Hl as [Hl|Hl]; [by rewrite lookup_empty in Hl|done].
Qed.

(** Local references have identifiers, and nothing else has. *)
Lemma localIDs_None value :
  command_ok → localIDs command !! value = None ↔ localRefs (ip_Issues (pc_Plan command)) !! value = None.
Proof.
  intros [Hlen _ _ _ _]. unfold localIDs, localRefs.
  assert (Hgen : ∀ l k (m m' : gmap string string), length k = length l → (m !! value = None ↔ m' !! value = None) →
    foldl (λ ids '(issue, id), if pn_Ref issue =s "" then ids else <[pn_Ref issue := id]> ids) m (zip l k) !! value = None ↔
    foldl (λ refs issue, if pn_Ref issue =s "" then refs else <[pn_Ref issue := localNode (pn_Ref issue)]> refs) m' l !! value = None).
  { induction l as [|x l IH]; intros [|i k] m m' Hl Hm; try done. cbn [zip zip_with foldl]. apply IH; [by injection Hl|].
    destruct (pn_Ref x =s ""); [done|]. rewrite !lookup_insert_None. tauto. }
  by apply Hgen.
Qed.

(** The issue a reference of the plan means: the planned one of that name, or
    else a stored one that is not archived. *)
Definition refers (value id : string) : Prop :=
  localIDs command !! value = Some id ∨
  (localIDs command !! value = None ∧ ∃ i, stored_ref s0 value i ∧ i_ID i = id).

Lemma resolveID_refers mid value node s id :
  schema_ok mid → st_issues s0 ⊆ st_issues mid → st_issues s = st_issues mid → command_ok →
  names s0 (ip_Issues (pc_Plan command)) value node → resolveID locals value s = Ok (id, s) → refers value id.
Proof.
  intros Hmid Hsub Hs Hcok Hname Hrun. unfold resolveID, locals in Hrun. unfold refers.
  destruct (localIDs command !! value) as [x|] eqn:Hl; [apply tx_ret_Ok in Hrun as [-> _]; by left|]. right. split; [done|].
  apply (localIDs_None value Hcok) in Hl. destruct Hname as [n Hn|i _ Hi]; [congruence|].
  pose proof Hi as (identifier & Hp & Hf & _). rewrite Hp in Hrun. inv_tx_step Hrun. apply lift_Ok in Hstep as [[= <-] ->].
  inv_tx_step Hrun. apply loadIssueForMutation_find in Hstep as [_ Hf']. apply tx_ret_Ok in Hrun as [-> _].
  pose proof (findIssue_grows _ _ _ _ Hmid Hsub Hf) as Hm.
  assert (He : findIssue identifier s = findIssue identifier mid) by (unfold findIssue, rows; cbn; by rewrite Hs).
  assert (a = i) as -> by congruence. by exists i.
Qed.

(** *** Issues *)

Definition itemID (item : PlannedIssue * string * list string) : string := item.1.2.

Record issues_applied (done : list (PlannedIssue * string * list string)) (s : Store) : Prop := {
  ia_schema : schema_ok s;
  ia_kept : st_issues s0 ⊆ st_issues s;
  ia_nodup : NoDup (map itemID done);
  ia_fresh id : id ∈ map itemID done → st_issues s0 !! id = None ∧ is_Some (st_issues s !! id);
  ia_relations : st_relations s = st_relations s0;
  ia_decisions : st_decisions s = st_decisions s0;
}.

Lemma applyIssues_applied bs s :
  applyEach (λ '(planned, id, labelIDs), applyPlannedIssue locals now planned id labelIDs) issueItems s0 = Ok (bs, s) →
  issues_applied issueItems s.
Proof.
  apply (applyEach_ind _ (λ done _ s, issues_applied done s)).
  - intros done bs' [[planned id] labelIDs] b s1 s2 [Hok Hk Hnd Hf Hr Hd] _ Hrun.
    apply applyPlannedIssue_Ok in Hrun as (row & parent & labels & _ & _ & _ & Hn & _ & _ & Hok2 & Hi & _ & Hr2 & Hd2 & _); [|done].
    split; [done| | | |congruence|congruence].
    + rewrite Hi. etrans; [exact Hk|by apply insert_subseteq].
    + rewrite map_app. apply NoDup_app. split_and!; [done| |by apply NoDup_singleton].
      intros x Hx Hx1%list_elem_of_singleton. cbn in Hx1. subst x. apply Hf in Hx as [_ [? Hx]]. congruence.
    + intros x. rewrite map_app. cbn [map]. rewrite elem_of_app, list_elem_of_singleton. intros [Hx| ->].
      * apply Hf in Hx as [Hx0 [i Hx]]. split; [done|]. rewrite Hi, lookup_insert_ne by congruence. by exists i.
      * change (itemID (planned, id, labelIDs)) with id. rewrite Hi, lookup_insert_eq. split; [|by eexists]. destruct (st_issues s0 !! id) eqn:Hx; [|done].
        eapply lookup_weaken in Hk; [|exact Hx]. congruence.
  - split; [done|done|constructor|by intros ? ?%elem_of_nil|done|done].
Qed.

(** *** The image of the checked graph *)

(** The node that stood for an issue when the plan was checked. *)
Definition nodeOf (id : string) : string :=
  match List.find (λ p, p.2 =s id) (map_to_list (localIDs command)) with Some p => localNode p.1 | None => id end.

Section image.
Context (mid : Store).
Hypothesis command_checked : command_ok.
Hypothesis mid_applied : issues_applied issueItems mid.

Lemma itemIDs : map itemID issueItems = map snd (zip (ip_Issues (pc_Plan command)) (pc_IssueIDs command)).
Proof.
  destruct command_checked as [Hi _ _ Hl _]. unfold issueItems, itemID. rewrite <-(map_map fst snd). f_equal.
  apply fst_zip. rewrite length_zip. lia.
Qed.

Lemma new_id value id : localIDs command !! value = Some id → id ∈ map itemID issueItems.
Proof.
  intros (_ & issue & Hin & _)%localIDs_Some. rewrite itemIDs. apply list_elem_of_fmap. by exists (issue, id).
Qed.

Lemma nodeOf_new value id : localIDs command !! value = Some id → nodeOf id = localNode value.
Proof.
  intros Hv. unfold nodeOf. destruct (List.find _ _) as [[w id']|] eqn:Hf.
  - apply find_some in Hf as [Hin%list_elem_of_In%elem_of_map_to_list He%eqb_string_true]. cbn in He |- *. subst id'.
    apply localIDs_Some in Hv as (_ & i1 & Hi1 & <-), Hin as (_ & i2 & Hi2 & <-).
    pose proof (ia_nodup _ _ mid_applied) as Hnd. rewrite itemIDs in Hnd. by rewrite (snd_unique _ _ _ _ Hnd Hi1 Hi2).
  - pose proof (find_none _ _ Hf (value, id)) as Hn. rewrite <-list_elem_of_In in Hn.
    specialize (Hn (proj2 (elem_of_map_to_list _ _ _) Hv)). cbn in Hn. by rewrite eqb_string_refl in Hn.
Qed.

Lemma nodeOf_stored id : is_Some (st_issues s0 !! id) → nodeOf id = id.
Proof.
  intros [i Hi]. unfold nodeOf. destruct (List.find _ _) as [[w id']|] eqn:Hf; [|done]. exfalso.
  apply find_some in Hf as [Hin%list_elem_of_In%elem_of_map_to_list He%eqb_string_true]. cbn in He. subst id'.
  apply new_id, (ia_fresh _ _ mid_applied) in Hin as [Hn _]. congruence.
Qed.

(** A reference is resolved to the issue its node stood for. *)
Lemma resolveID_node value node s id :
  st_issues s = st_issues mid → names s0 (ip_Issues (pc_Plan command)) value node →
  resolveID locals value s = Ok (id, s) → nodeOf id = node.
Proof.
  intros Hs Hname Hrun.
  apply (resolveID_refers mid value node) in Hrun as [Hl|[Hl (i & Hi & <-)]]; [..|apply mid_applied|apply mid_applied|done|done|done].
  - rewrite (nodeOf_new value id Hl). destruct Hname as [n [-> _]%localRefs_Some|i Hn _]; [done|].
    apply localIDs_None in Hn; [congruence|done].
  - apply (localIDs_None value command_checked) in Hl. destruct Hname as [n Hn|j _ Hj]; [congruence|].
    rewrite (stored_ref_unique s0 value i j Hi Hj). destruct Hj as (identifier & _ & Hf & _).
    apply nodeOf_stored. apply findIssue_Some in Hf; [|done]. by exists j.
Qed.

(** *** Relations *)

Hypothesis plan_checked : checked s0 (pc_Plan command).

Record relations_applied (s : Store) : Prop := {
  ra_issues : st_issues s = st_issues mid;
  ra_project : st_project s = st_project mid;
  ra_decisions : st_decisions s = st_decisions mid;
  ra_blocks x y : blocks s x y → blocks s0 x y ∨ ∃ r, r ∈ ip_Relations (pc_Plan command) ∧ pnr_Type r = RelationTypeBlocks ∧
    names s0 (ip_Issues (pc_Plan command)) (pnr_SourceRef r) (nodeOf x) ∧
    names s0 (ip_Issues (pc_Plan command)) (pnr_TargetRef r) (nodeOf y);
}.

Lemma applyRelations_applied bs s :
  applyEach (λ '(planned, id), applyPlannedRelation locals now planned id) relationItems mid = Ok (bs, s) →
  relations_applied s.
Proof.
  apply (applyEach_ind _ (λ _ _ s, relations_applied s)).
  - intros done bs' [r id] b s1 s2 [Hi Hp Hd Hb] Hin Hrun. apply elem_of_zip_l in Hin.
    apply applyPlannedRelation_Ok in Hrun as (x0 & y0 & Hx & Hy & Hrun).
    destruct (CanonicalRelationEndpoints _ _ _) as [source target] eqn:Hcan. destruct Hrun as (-> & _ & Hr2 & Hi2 & Hp2 & Hd2).
    split; [congruence..|]. intros x y (j & q & Hq & Ht & <- & <-). rewrite Hr2 in Hq.
    apply lookup_insert_Some in Hq as [[<- <-]|[_ Hq]]; [right|apply Hb; by exists j, q]. cbn in Ht |- *.
    rewrite Ht, CanonicalRelationEndpoints_directed in Hcan by done. injection Hcan as <- <-.
    destruct (kd_graph _ _ plan_checked) as (? & _ & _ & Hnames). destruct (Hnames r Hin) as (a & c & Ha & Hc & _).
    exists r. split_and!; [done|done|..].
    + by rewrite (resolveID_node (pnr_SourceRef r) a s1 x0 Hi Ha Hx).
    + by rewrite (resolveID_node (pnr_TargetRef r) c s1 y0 Hi Hc Hy).
  - split; [done..|]. intros x y Hxy. left. unfold blocks in *. by rewrite (ia_relations _ _ mid_applied) in Hxy.
Qed.

Lemma stored_end x y : blocks s0 x y → is_Some (st_issues s0 !! x) ∧ is_Some (st_issues s0 !! y).
Proof.
  intros (id & r & Hr & _ & <- & <-). pose proof (proj2 (ok_relations _ schema0) _ _ Hr) as Hc. cbn in Hc.
  unfold relation_constraint in Hc. conj_hyps. by split; apply fk_true.
Qed.

Lemma relations_acyclic_image s : acyclic s0 → relations_applied s → acyclic s.
Proof.
  intros Hac0 [_ _ _ Hb] x Hx. destruct (kd_graph _ _ plan_checked) as (E & HacE & Hst & Hnames).
  destruct (decide (Exists (λ r, pnr_Type r = RelationTypeBlocks) (ip_Relations (pc_Plan command)))) as [Hex|Hno].
  - apply Exists_exists in Hex. apply (HacE (nodeOf x)). revert Hx. apply tc_congruence. intros u v Huv.
    destruct (Hb u v Huv) as [Hs|(r & Hr & Ht & Hu & Hv)].
    + destruct (stored_end u v Hs). rewrite !nodeOf_stored by done. by apply Hst.
    + destruct (Hnames r Hr) as (a & c & Ha & Hc & He).
      rewrite (names_unique _ _ _ _ _ Hu Ha), (names_unique _ _ _ _ _ Hv Hc). by apply He.
  - apply (Hac0 x). revert Hx. apply tc_mono. intros u v Huv. destruct (Hb u v Huv) as [Hs|(r & Hr & Ht & _)]; [done|].
    destruct Hno. apply Exists_exists. by exists r.
Qed.
End image.

(** *** Decisions *)

Lemma applyDecisions_kept bs s s' :
  applyEach (λ '(planned, id), applyPlannedDecision locals now planned id) decisionItems s = Ok (bs, s') →
  st_issues s' = st_issues s ∧ st_project s' = st_project s ∧ st_relations s' = st_relations s.
Proof.
  apply (applyEach_ind _ (λ _ _ s', st_issues s' = st_issues s ∧ st_project s' = st_project s ∧ st_relations s' = st_relations s)); [|done].
  intros done bs' [d id] b s1 s2 (Hi & Hp & Hr) _ Hrun.
  apply applyPlannedDecision_Ok in Hrun as (issueID & _ & _ & _ & _ & Hi2 & Hp2 & Hr2). split_and!; congruence.
Qed.

(** *** The transaction *)

Lemma planTx_Ok r s' :
  planTx command s0 = Ok (r, s') →
  ∃ issues s1 relations s2 decisions s3,
    validatePlanAgainstStore plan s0 = Ok [] ∧
    applyEach (λ '(planned, id, labelIDs), applyPlannedIssue locals now planned id labelIDs) issueItems s0 = Ok (issues, s1) ∧
    applyEach (λ '(planned, id), applyPlannedRelation locals now planned id) relationItems s1 = Ok (relations, s2) ∧
    applyEach (λ '(planned, id), applyPlannedDecision locals now planned id) decisionItems s2 = Ok (decisions, s3) ∧
    r = Ok (mkPlanResult issues relations decisions (latestEventID s3)) ∧
    st_issues s' = st_issues s3 ∧ st_project s' = st_project s3 ∧ st_relations s' = st_relations s3 ∧
    st_decisions s' = st_decisions s3 ∧ st_labels s' = st_labels s3.
Proof.
  unfold planTx. intros Hrun. inv_tx_step Hrun. apply lift_query_Ok in Hstep as [Hv ->]. inv_tx_step Hrun.
  match goal with Hn : negb (null _) = false |- _ => apply negb_false_iff, null_true in Hn as -> end.
  inv_tx_step Hrun. rename a into response, Hstep into Happ. inv_tx_step Hrun. apply tx_ret_Ok in Hrun as [-> ->].
  unfold applyPlan in Happ. cbv zeta in Happ. inv_tx_step Happ. rename a0 into issues, s1 into sa, Hstep0 into Hi.
  inv_tx_step Happ. rename a0 into relations, Hstep0 into Hr. inv_tx_step Happ. rename a0 into decisions, Hstep0 into Hd.
  inv_tx_step Happ. apply query_Ok in Hstep0 as [-> ->]. apply tx_ret_Ok in Happ as [-> ->].
  eexists issues, _, relations, _, decisions, _. split; [exact Hv|]. split; [exact Hi|]. split; [exact Hr|]. split; [exact Hd|].
  split; [done|]. unfold insertPlanRecord in Hstep. inv_tx_step Hstep.
  apply storeIdempotency_Ok in Hstep as [[_ ->]|(_ & _ & _ & ->)]; done.
Qed.
End planned.

Section acyclic.
Context `{UnicodeTables, ULID, SnapshotHash, SQLiteDriver, Misused}.

Lemma ApplyIssuePlan_acyclic command s : schema_ok s → acyclic s → acyclic (ApplyIssuePlan command s).2.
Proof.
  intros Hok Hac. unfold ApplyIssuePlan. destruct (validatePlanCommand command) as [u|] eqn:Hc; [|done].
  apply validatePlanCommand_Ok in Hc. apply Write_post; [|done]. intros r s' [->|Hrun]%replayed_Ok; [done|].
  apply planTx_Ok in Hrun as (issues & s1 & relations & s2 & decisions & s3 & Hv & Hi & Hr & Hd & _ & _ & _ & Hrel & _).
  apply validatePlanAgainstStore_checked in Hv; [|done..]. apply applyIssues_applied in Hi; [|done].
  apply (applyRelations_applied command s Hok s1) in Hr; [|done..]. apply applyDecisions_kept in Hd as (_ & _ & Hd).
  apply (acyclic_same s2); [congruence|]. by apply (relations_acyclic_image command s Hok s1).
Qed.
End acyclic.
