(* ===== verification/Place.v ===== *)
(** * Places on the board

    Where an issue sits: its type, its parent, whether it is archived, its
    number.  The two invariants of the board, on places: a live issue with a
    parent sits under a live epic, and numbers are below the next one; and what
    each operation on issues does to them.

    The operations on issues are the only ones that move an issue: the others
    change at most its status, and so leave the [place] of every issue as it is. *)

From S2P Require Import Prelude GoStrings Errors Validation Samples Issue Relation Session IssueOps.
From S2P Require Import Discussion Resource Attempt Plan AttemptPolicy Gates Store Schema ReservationStore.
From S2P Require Import GateStore ReviewStore Termination ReviewOps AttemptStore Footprint.
From S2P Require Import RelationStore IssueStore DiscussionStore PlanStore PlanCheck PlanApply.

(** ** Places *)

Record Place := mkPlace {
  pl_Type : string;
  pl_Parent : option string;
  pl_Archived : option Z;
  pl_Number : Z;
  pl_Display : string;
}.
Definition place_of (i : Issue) : Place :=
  mkPlace (i_Type i) (i_ParentID i) (i_ArchivedAt i) (i_SequenceNo i) (i_DisplayID i).
Definition place (s : Store) : gmap string Place := place_of <$> st_issues s.

Lemma place_lookup s id : place s !! id = place_of <$> st_issues s !! id.
Proof. apply lookup_fmap. Qed.

Lemma place_Some s id pl : place s !! id = Some pl ↔ ∃ i, st_issues s !! id = Some i ∧ place_of i = pl.
Proof. rewrite place_lookup, fmap_Some. naive_solver. Qed.

(** *** The two invariants, on places *)

Definition live_epic (m : gmap string Place) (id : string) : Prop :=
  ∃ e, m !! id = Some e ∧ pl_Type e = TypeEpic ∧ pl_Archived e = None.

(** A live issue with a parent has a live epic as parent. *)
Definition hierarchical (m : gmap string Place) : Prop := ∀ id i p,
  m !! id = Some i → pl_Archived i = None → pl_Parent i = Some p → live_epic m p.

(** Numbers are below the next one, and shown. *)
Definition numbered_below (next : Z) (m : gmap string Place) : Prop := ∀ id i,
  m !! id = Some i → (1 <= pl_Number i < next)%Z ∧ pl_Display i = "ISSUE-" +:+ Itoa (pl_Number i).

Definition childless (m : gmap string Place) (id : string) : Prop := ∀ c i,
  m !! c = Some i → pl_Archived i = None → pl_Parent i ≠ Some id.

Lemma hierarchical_insert m id new :
  hierarchical m → m !! id = None →
  (∀ p, pl_Archived new = None → pl_Parent new = Some p → live_epic m p) → hierarchical (<[id := new]> m).
Proof.
  intros Hm Hid Hnew c i p Hc Ha Hp.
  assert (Hep : live_epic m p).
  { apply lookup_insert_Some in Hc as [[<- <-]|[_ Hc]]; [by apply Hnew|by eapply Hm]. }
  destruct Hep as (e & He & ? & ?). exists e. split; [|done]. rewrite lookup_insert_ne; [done|congruence].
Qed.

Lemma hierarchical_update m id new :
  hierarchical m →
  (∀ p, pl_Archived new = None → pl_Parent new = Some p → p ≠ id ∧ live_epic m p) →
  (pl_Type new = TypeEpic ∧ pl_Archived new = None) ∨ childless m id → hierarchical (<[id := new]> m).
Proof.
  intros Hm Hnew Hch c i p Hc Ha Hp.
  assert (Hep : live_epic m p ∧ (p = id → (pl_Type new = TypeEpic ∧ pl_Archived new = None))).
  { apply lookup_insert_Some in Hc as [[<- <-]|[Hne Hc]].
    - destruct (Hnew p Ha Hp) as [? ?]. by split.
    - split; [by eapply Hm|]. intros ->. destruct Hch as [?|Hch]; [done|]. by destruct (Hch c i Hc Ha). }
  destruct Hep as [(e & He & ? & ?) Hid]. destruct (decide (p = id)) as [->|Hne].
  - exists new. rewrite lookup_insert_eq. naive_solver.
  - exists e. by rewrite lookup_insert_ne.
Qed.

(** Only an epic has live children. *)
Lemma non_epic_childless m id i :
  hierarchical m → m !! id = Some i → pl_Type i ≠ TypeEpic → childless m id.
Proof. intros Hm Hi Ht c j Hc Ha Hp. destruct (Hm c j id Hc Ha Hp) as (e & He & ? & _). congruence. Qed.

(** ** Who moves an issue *)

Section movers.
Context `{UnicodeTables, ULID, JSONCodec, URLParser, SnapshotHash, SQLiteDriver, Misused}.

(** Where the issues are, and the project's counter. *)
Definition board (s : Store) := (place s, st_project s).

Lemma place_update s id row row' :
  st_issues s !! id = Some row → place_of row' = place_of row → place (set_issues (<[id := row']> (st_issues s)) s) = place s.
Proof.
  intros Hr He. unfold place. cbn. rewrite fmap_insert, He. apply insert_id. by rewrite lookup_fmap, Hr.
Qed.

Lemma board_Update x id p f :
  (∀ r, place_of (f r) = place_of r) → preserves (keeping board x) (Update (R := Issue) id p f).
Proof.
  intros Hf s n s' Hx [(row & Hr & _ & _ & _ & ->)|(_ & _ & ->)]%Update_Ok; [|done]. unfold keeping, board in *. cbn in Hr |- *.
  rewrite <-Hx. f_equal. by apply place_update with (row := row).
Qed.

#[export] Instance keeping_board x : WorkClosed (keeping board x).
Proof.
  apply keeping_attempt; [repeat split|]. intros id p f Hf. apply board_Update. intros r.
  destruct (Hf r) as (_ & Hs & Hd & Ht & Hp & Ha & _). unfold place_of. by rewrite Hs, Hd, Ht, Hp, Ha.
Qed.

Lemma board_resolveIssueLabels x names createMissing labelIDs now :
  preserves (keeping board x) (resolveIssueLabels names createMissing labelIDs now).
Proof. apply closed_resolveIssueLabels. intros row. apply keep_Insert. reflexivity. Qed.
Lemma board_replaceIssueLabels x id labels : preserves (keeping board x) (replaceIssueLabels id labels).
Proof. intros s u s' Hx (_ & _ & n & Hrun)%replaceIssueLabels_Ok. by eapply board_Update in Hrun. Qed.
Lemma board_refuse x id now : preserves (keeping board x) (refuseActiveAttempt id now).
Proof. exact (closed_refuse (keeping board x) id now). Qed.
Lemma board_event x i t sid aid p c : preserves (keeping board x) (appendIssueEvent i t sid aid p c).
Proof. exact (closed_event (keeping board x) i t sid aid p c). Qed.

(** The board after a run of a step that keeps it. *)
Lemma board_same {A} (m : Tx A) s a s' :
  (∀ x, preserves (keeping board x) m) → m s = Ok (a, s') → place s' = place s ∧ st_project s' = st_project s.
Proof. intros Hm Hrun. apply (kept board) in Hrun; [|done]. unfold board in Hrun. by simplify_eq. Qed.

Lemma validateParent_Ok parentID s r :
  schema_ok s → validateParent parentID s = Ok r →
  match r with Some p => live_epic (place s) p | None => parentID = None end.
Proof.
  intros Hok. unfold validateParent. destruct parentID as [id|]; [|by intros [= <-]]. intros Hv. inv_ok.
  destruct (findIssue _ s) as [e|] eqn:Hf; [|done]. inv_ok. apply findIssue_Some in Hf; [|done].
  rewrite negb_false_iff in *. exists (place_of e). split_and!; [|by apply eqb_string_true|by apply isSet_false].
  apply place_Some. by exists e.
Qed.

Lemma childless_spec s id : epicHasLiveChildren id s = false ↔ childless (place s) id.
Proof.
  unfold epicHasLiveChildren. rewrite exists_row_false. split.
  - intros Hn c i Hc Ha Hp. apply place_Some in Hc as (j & Hj & <-). cbn in Ha, Hp. specialize (Hn c j Hj).
    cbn in Hn. unfold optEq in Hn. rewrite Hp, Ha, bool_decide_eq_true_2 in Hn by done. done.
  - intros Hc c j Hj. cbn in Hj |- *. destruct (i_ArchivedAt j) eqn:Ha; [by rewrite andb_false_r|]. rewrite andb_true_r.
    apply bool_decide_eq_false. apply (Hc c (place_of j)); [apply place_Some; by exists j|done].
Qed.

(** ** Creating *)

(** What follows the allocation and the insertion. *)
Lemma createTx_Ok command input s r s' :
  schema_ok s → createTx command input s = Ok (r, s') →
  ∃ row parent labels,
    let issue := createdIssue (ic_ID command) input (pj_NextIssueNumber row) parent (ic_CreatedAt command) in
    r = Ok (setLabels labels issue) ∧ st_project s = Some row ∧ st_issues s !! ic_ID command = None ∧
    validateParent (ci_ParentID input) s = Ok parent ∧ Forall2 (label_named s') (ci_Labels input) labels ∧
    st_issues s' = <[ic_ID command := setLabels (stable_sort labelLess labels) issue]> (st_issues s) ∧
    st_project s' = Some (mkProjectRow (pj_ID row) (pj_NextIssueNumber row + 1) (ic_CreatedAt command)).
Proof.
  unfold createTx. cbv zeta. intros Hok Hrun. inv_tx_step Hrun.
  apply reads_createGate in Hstep as ->. inv_tx_step Hrun. apply allocateIssueNumber_Ok in Hstep as (row & Hrow & -> & ->).
  assert (Hok1 : schema_ok (set_project (Some (mkProjectRow (pj_ID row) (pj_NextIssueNumber row + 1) (ic_CreatedAt command))) s))
    by (apply (schema_same s); [by split|apply Hok|exact Hok]).
  inv_tx_step Hrun. apply lift_query_Ok in Hstep as [Hp ->].
  apply insertIssue_Ok in Hrun as (labels & s1 & Hrun & _ & Hlab & Hn & _ & Hi & Hp1 & _); [|done]. cbn in Hn, Hi, Hp1.
  inv_tx_step Hrun. apply appendIssueEvent_Ok in Hstep as ->. inv_tx_step Hrun. apply tx_ret_Ok in Hrun as [-> ->].
  exists row, a0, labels. split_and!; try done; apply storeIdempotency_Ok in Hstep as [[_ ->]|(_ & _ & _ & ->)]; assumption.
Qed.

(** ** The invariant *)

Record board_ok (s : Store) : Prop := {
  bd_hierarchical : hierarchical (place s);
  bd_numbered : match st_project s with Some row => (1 <= pj_NextIssueNumber row)%Z ∧ numbered_below (pj_NextIssueNumber row) (place s)
                | None => place s = ∅ end;
  bd_ids : ∀ id pl, place s !! id = Some pl → ids_ParseStrict id = true;
}.

Lemma board_ok_same s s' : place s' = place s → st_project s' = st_project s → board_ok s → board_ok s'.
Proof. intros Hp Hr []. split; rewrite ?Hp, ?Hr; assumption. Qed.

(** Numbers stay with their issues, and a new issue gets a new one. *)
Definition nextNumber (s : Store) : Z := match st_project s with Some row => pj_NextIssueNumber row | None => 1 end.

Record board_le (s s' : Store) : Prop := {
  bl_kept : ∀ id pl, place s !! id = Some pl → ∃ pl', place s' !! id = Some pl' ∧
    pl_Number pl' = pl_Number pl ∧ pl_Display pl' = pl_Display pl;
  bl_fresh : ∀ id pl, place s !! id = None → place s' !! id = Some pl → (nextNumber s <= pl_Number pl)%Z;
  bl_next : (nextNumber s <= nextNumber s')%Z;
}.

Lemma board_le_same s s' : place s' = place s → (nextNumber s <= nextNumber s')%Z → board_le s s'.
Proof. intros Hp Hn. split; rewrite ?Hp; [|congruence|done]. intros id pl Hpl. by exists pl. Qed.

#[export] Instance board_le_preorder : PreOrder board_le.
Proof.
  split; [by intros s; apply board_le_same|]. intros s1 s2 s3 [Hk Hf Hn] [Hk' Hf' Hn']. split; [| |lia].
  - intros id pl Hpl. destruct (Hk id pl Hpl) as (pl2 & Hpl2 & <- & <-). by apply Hk'.
  - intros id pl Hnone Hpl. destruct (place s2 !! id) as [pl2|] eqn:Hpl2.
    + destruct (Hk' id pl2 Hpl2) as (pl3 & Hpl3 & He & _). assert (pl3 = pl) as -> by congruence. rewrite He. by eapply Hf.
    + pose proof (Hf' id pl Hpl2 Hpl). lia.
Qed.

Definition board_move (s s' : Store) : Prop := board_ok s' ∧ board_le s s'.

Lemma board_move_refl s : board_ok s → board_move s s.
Proof. split; [done|reflexivity]. Qed.

(** An idempotent transaction makes the move of its body. *)
Lemma board_run {A} operation key hash (decode : Response → option A) k s :
  board_ok s → (∀ r s', k s = Ok (r, s') → board_move s s') →
  board_move s (Write (replayed operation key hash decode k) s).2.
Proof.
  intros Hb Hk. apply Write_post; [|by apply board_move_refl].
  intros r s' [->|Hrun]%replayed_Ok; [by apply board_move_refl|by eapply Hk].
Qed.

(** A new issue with the next number, at its place. *)
Lemma board_insert s s' id new row now :
  board_ok s → st_project s = Some row → place s !! id = None → ids_ParseStrict id = true →
  place s' = <[id := new]> (place s) → st_project s' = Some (mkProjectRow (pj_ID row) (pj_NextIssueNumber row + 1) now) →
  pl_Number new = pj_NextIssueNumber row → pl_Display new = "ISSUE-" +:+ Itoa (pl_Number new) →
  (∀ p, pl_Archived new = None → pl_Parent new = Some p → live_epic (place s) p) → board_move s s'.
Proof.
  intros [Hh Hn Hids] Hrow Hfresh Hid Hpl Hp Hnum Hdis Hpar. rewrite Hrow in Hn. destruct Hn as [Hge Hn].
  split; [split; rewrite ?Hp, Hpl|split; rewrite ?Hpl; unfold nextNumber; rewrite ?Hp, ?Hrow]; cbn [pj_NextIssueNumber].
  - by apply hierarchical_insert.
  - split; [lia|]. intros i pl [[<- <-]|[_ Hi]]%lookup_insert_Some; [split; [lia|done]|].
    destruct (Hn i pl Hi). split; [lia|done].
  - intros i pl [[<- _]|[_ Hi]]%lookup_insert_Some; [done|by eapply Hids].
  - intros i pl Hi. exists pl. rewrite lookup_insert_ne; [done|congruence].
  - intros i pl Hnone [[_ <-]|[_ Hi]]%lookup_insert_Some; [lia|congruence].
  - lia.
Qed.

Lemma CreateIssue_board command s : schema_ok s → board_ok s → board_move s (CreateIssue command s).2.
Proof.
  intros Hok Hb. unfold CreateIssue. destruct (CreateIssueInput_Validate _) as [input|]; [|by apply board_move_refl].
  destruct (ids_ParseStrict (ic_ID command)) eqn:Hid0; [|by apply board_move_refl]. cbn [negb].
  apply board_run; [done|]. intros r s' Hrun.
  apply createTx_Ok in Hrun as (row & parent & labels & _ & Hrow & Hnew & Hpar & _ & Hi & Hp); [|done].
  apply (board_insert s s' (ic_ID command)
    (place_of (createdIssue (ic_ID command) input (pj_NextIssueNumber row) parent (ic_CreatedAt command))) row
    (ic_CreatedAt command)); try done.
  - by rewrite place_lookup, Hnew.
  - unfold place. by rewrite Hi, fmap_insert.
  - apply validateParent_Ok in Hpar; [|done]. intros p _ Hpp. cbn in Hpp. by subst parent.
Qed.

(** A change of one issue's place. *)
Lemma board_ok_move s s' id old new :
  board_ok s → place s !! id = Some old → place s' = <[id := new]> (place s) → st_project s' = st_project s →
  pl_Number new = pl_Number old → pl_Display new = pl_Display old →
  (∀ p, pl_Archived new = None → pl_Parent new = Some p → p ≠ id ∧ live_epic (place s) p) →
  (pl_Type new = TypeEpic ∧ pl_Archived new = None) ∨ childless (place s) id → board_move s s'.
Proof.
  intros [Hh Hn Hids] Hold Hpl Hp Hnum Hdis Hpar Hch. split.
  2:{ split; [| |unfold nextNumber; by rewrite Hp]; rewrite Hpl.
      - intros i pl Hi. destruct (decide (id = i)) as [<-|Hne]; [|exists pl; by rewrite lookup_insert_ne].
        exists new. rewrite lookup_insert_eq. naive_solver congruence.
      - intros i pl Hnone [[<- _]|[_ Hi]]%lookup_insert_Some; congruence. }
  split; rewrite Hpl, ?Hp; [by apply hierarchical_update| |].
  2:{ intros i pl [[<- _]|[_ Hi]]%lookup_insert_Some; by eapply Hids. }
  destruct (st_project s) as [row|]; [|by rewrite Hn, lookup_empty in Hold]. destruct Hn as [Hge Hn]. split; [done|].
  intros i pl [[<- <-]|[_ Hi]]%lookup_insert_Some; [|exact (Hn i pl Hi)]. rewrite Hnum, Hdis. exact (Hn _ _ Hold).
Qed.

(** ** Updating *)

Lemma patched_place current patch i ch :
  ApplyIssuePatch current patch = Ok (i, ch) → place_of i = place_of (patchFields current patch).
Proof. intros (changed & Hst%patchStatus_outcome & _)%ApplyIssuePatch_Ok. by destruct Hst. Qed.

Lemma cancelGuard_board current next changes now s u s' :
  lifecycle_ok s → cancelGuard current next changes now s = Ok (u, s') →
  lifecycle_ok s' ∧ place s' = place s ∧ st_project s' = st_project s.
Proof.
  unfold cancelGuard. intros Hl Hrun. destruct (_ && _); [|by apply tx_ret_Ok in Hrun as [_ ->]].
  split; [by eapply lifecycle_pres_refuse|]. eapply board_same; [|exact Hrun]. intros x. apply board_refuse.
Qed.

Lemma retypeGuard_Ok current next s u s' :
  retypeGuard current next s = Ok (u, s') →
  s' = s ∧ (i_Type current = TypeEpic → i_Type next ≠ TypeEpic → childless (place s) (i_ID current)).
Proof.
  unfold retypeGuard. destruct (_ && _) eqn:Hc; intros Hrun.
  - inv_tx_step Hrun. apply query_Ok in Hstep as [-> ->]. inv_tx_step Hrun. apply tx_ret_Ok in Hrun as [_ ->].
    split; [done|]. intros _ _. by apply childless_spec.
  - apply tx_ret_Ok in Hrun as [_ ->]. split; [done|]. intros Ht Hn. by rewrite Ht, (proj2 (eqb_string_false _ _) Hn) in Hc.
Qed.

(** The parent of the row that is written: as it was, or resolved to a live
    epic that is not the issue itself. *)
Lemma resolveParent_Ok current next changes s r s' :
  schema_ok s → resolveParent current next changes s = Ok (r, s') →
  s' = s ∧ (∃ parent, r = setParent parent next) ∧
  (i_Type r = TypeEpic → i_ParentID r = None) ∧
  (i_ParentID r = i_ParentID next ∧ (o_Set (p_ParentID changes) = true → i_ParentID next = None) ∨
   ∃ p, i_ParentID r = Some p ∧ p ≠ i_ID current ∧ live_epic (place s) p).
Proof.
  intros Hok Hrun. unfold resolveParent in Hrun. inv_tx_step Hrun. inv_tx_step Hrun. apply tx_ret_Ok in Hrun as [-> ->].
  assert (Hepic : i_Type a = TypeEpic → i_ParentID a = None).
  { intros Ht. match goal with Hb : (_ =s _) && _ = false |- _ => rewrite Ht in Hb; cbn in Hb; by apply isSet_false in Hb end. }
  assert (Hself : ∃ parent, next = setParent parent next) by (exists (i_ParentID next); by destruct next).
  destruct (o_Set (p_ParentID changes)) eqn:Hset; [destruct (i_ParentID next) as [parent|] eqn:Hpar|].
  - inv_tx_step Hstep. apply lift_query_Ok in Hstep0 as [Hv ->]. inv_tx_step Hstep. apply tx_ret_Ok in Hstep as [-> ->].
    apply validateParent_Ok in Hv; [|done]. destruct a0 as [p|]; [|done]. split_and!; [done|by eexists|done|]. right.
    exists p. split_and!; [done| |done]. intros ->. unfold optEq in *. by rewrite bool_decide_eq_true_2 in *.
  - apply tx_ret_Ok in Hstep as [-> ->]. split_and!; [done|done|done|by left].
  - apply tx_ret_Ok in Hstep as [-> ->]. split_and!; [done|done|done|by left].
Qed.

Lemma resolveLabelChange_board command current next s r s' :
  resolveLabelChange command current next s = Ok (r, s') →
  place_of r = place_of next ∧ place s' = place s ∧ st_project s' = st_project s.
Proof.
  unfold resolveLabelChange. destruct (o_Set _); intros Hrun; [|by apply tx_ret_Ok in Hrun as [-> ->]].
  inv_tx_step Hrun. apply board_same in Hstep as [Hp1 Hj1]; [|intros; apply board_resolveIssueLabels].
  inv_tx_step Hrun. apply board_same in Hstep as [Hp2 Hj2]; [|intros; apply board_replaceIssueLabels].
  apply tx_ret_Ok in Hrun as [-> ->]. split_and!; [done|by rewrite Hp2|by rewrite Hj2].
Qed.

(** The end of an issue mutation: the conditional update and the records. *)
Lemma board_after {A} (m : Tx A) s a s' :
  (∀ x, preserves (keeping (λ s, (st_issues s, st_project s)) x) m) → m s = Ok (a, s') →
  st_issues s' = st_issues s ∧ st_project s' = st_project s.
Proof.
  intros Hm Hrun. apply (kept (λ s, (st_issues s, st_project s))) in Hrun; [|done]. by injection Hrun.
Qed.

(** The place an update gives to the issue it found. *)
Definition movedPlace (old : Place) (t : string) (parent : option string) : Place :=
  mkPlace t parent (pl_Archived old) (pl_Number old) (pl_Display old).

Lemma updateTx_place command s r s' :
  lifecycle_ok s → updateTx command s = Ok (r, s') →
  ∃ id old t parent, place s !! id = Some old ∧ pl_Archived old = None ∧
    place s' = <[id := movedPlace old t parent]> (place s) ∧ st_project s' = st_project s ∧
    (pl_Type old = TypeEpic → t ≠ TypeEpic → childless (place s) id) ∧
    (t = TypeEpic → parent = None) ∧
    (parent = pl_Parent old ∨ parent = None ∨ ∃ p, parent = Some p ∧ p ≠ id ∧ live_epic (place s) p).
Proof.
  intros Hl Hrun. unfold updateTx in Hrun. cbv zeta in Hrun. inv_tx_step Hrun.
  apply loadIssueForMutation_Ok in Hstep as [-> Hcur]; [|apply Hl]. rename a into current.
  inv_tx_step Hrun. inv_tx_step Hrun. inv_tx_step Hrun. apply lift_Ok in Hstep as [Hpatch ->]. destruct a as [next changed]. cbn [fst snd] in Hrun.
  inv_tx_step Hrun. apply cancelGuard_board in Hstep as (Hl1 & Hp1 & Hj1); [|done]. inv_tx_step Hrun.
  apply retypeGuard_Ok in Hstep as [-> Hretype]. inv_tx_step Hrun. rename a1 into parented.
  apply resolveParent_Ok in Hstep as (-> & [parent Hpar] & Hepic & Hparent); [|apply Hl1]. inv_tx_step Hrun. rename a1 into labelled.
  apply resolveLabelChange_board in Hstep as (Hlab & Hp2 & Hj2). inv_tx_step Hrun. rename Hstep into Hupd. inv_tx_step Hrun.
  apply query_Ok in Hstep as [-> ->]. inv_tx_step Hrun.
  apply board_after in Hrun as [Hi3 Hj3]; [|intros x; pres; keep].
  apply patched_place in Hpatch.
  match goal with Ha : isSet (i_ArchivedAt current) = false |- _ => apply isSet_false in Ha as Harch end.
  apply Update_Ok in Hupd as [(row & Hrow & _ & _ & _ & ->)|(_ & -> & _)]; [|done]. cbn in Hrow, Hi3, Hj3.
  assert (Hpr : place_of row = place_of current).
  { assert (Hx : place s1 !! i_ID current = place s !! i_ID current) by (by rewrite Hp2, Hp1).
    rewrite !place_lookup, Hrow, Hcur in Hx. exact (inj Some _ _ Hx). }
  exists (i_ID current), (place_of current), (i_Type labelled), (i_ParentID labelled).
  rewrite Hp1 in *. injection Hlab as Ht Hpn Ha Hsq Hd. rewrite Ht, Hpn. injection Hpr as _ _ Har Hsr Hdr.
  split_and!; [apply place_Some; by exists current|done| |by rewrite Hj3, Hj2, Hj1| |done|].
  - unfold place at 1. rewrite Hi3, fmap_insert. unfold place in Hp2. rewrite Hp2. f_equal. unfold place_of, movedPlace. cbn.
    by rewrite Ht, Hpn, Har, Hsr, Hdr.
  - subst parented. cbn. intros He Hne. by apply Hretype.
  - injection Hpatch as _ Hnp _ _ _. destruct Hparent as [[-> Hset]|(p & -> & Hne & Hlive)].
    + unfold pick in Hnp. destruct (o_Set (p_ParentID _)); [right; left; by apply Hset|by left].
    + right. right. by exists p.
Qed.

Lemma UpdateIssue_board command s : lifecycle_ok s → board_ok s → board_move s (UpdateIssue command s).2.
Proof.
  intros Hl Hb. unfold UpdateIssue. apply board_run; [done|]. intros r s' Hrun.
  apply updateTx_place in Hrun as (id & old & t & parent & Hold & Harch & Hpl & Hj & Hretype & Hepic & Hpar); [|done].
  apply (board_ok_move s s' id old _ Hb Hold Hpl Hj); [done|done|..]; cbn [movedPlace pl_Archived pl_Parent pl_Type].
  - intros p _ Hp. destruct Hpar as [->|[->|(q & -> & Hne & Hq)]]; [|done|by injection Hp as ->].
    pose proof (bd_hierarchical _ Hb id old p Hold Harch Hp) as Hlive. split; [|done]. intros ->.
    destruct Hlive as (e & He & Het & _). assert (e = old) as -> by congruence.
    destruct (decide (t = TypeEpic)) as [Ht|Ht]; [by rewrite Hepic in Hp|]. by destruct (Hretype Het Ht id old Hold Harch).
  - destruct (decide (t = TypeEpic)) as [Ht|Ht]; [by left|right].
    destruct (decide (pl_Type old = TypeEpic)) as [He|He]; [by apply Hretype|].
    by eapply non_epic_childless; [apply Hb|..].
Qed.

(** ** Archiving and unarchiving *)

Lemma refuse_board id now s u s' :
  lifecycle_ok s → refuseActiveAttempt id now s = Ok (u, s') →
  lifecycle_ok s' ∧ place s' = place s ∧ st_project s' = st_project s.
Proof.
  intros Hl Hrun. split; [by eapply lifecycle_pres_refuse|]. eapply board_same; [|exact Hrun]. intros x. apply board_refuse.
Qed.

(** The conditional update at the end of both, and what follows it. *)
Lemma archive_update current p archived now (after : Z → Tx (result Issue)) s r s' :
  place s !! i_ID current = Some (place_of current) →
  (∀ n x, preserves (keeping (λ s, (st_issues s, st_project s)) x) (after n)) →
  (affected ← Update (i_ID current) p (setArchived archived now);
   failure ← query (classifyConditionalUpdateFailure (i_ID current));
   raise_if negb (affected =? 1)%Z with failure ;;
   after affected) s = Ok (r, s') →
  place s' = <[i_ID current := mkPlace (i_Type current) (i_ParentID current) archived (i_SequenceNo current) (i_DisplayID current)]> (place s) ∧
  st_project s' = st_project s.
Proof.
  intros Hcur Hafter Hrun. inv_tx_step Hrun. rename Hstep into Hupd. inv_tx_step Hrun. apply query_Ok in Hstep as [-> ->].
  inv_tx_step Hrun. apply board_after in Hrun as [Hi Hj]; [|by apply Hafter].
  apply Update_Ok in Hupd as [(row & Hrow & _ & _ & _ & ->)|(_ & -> & _)]; [|done]. cbn in Hrow, Hi, Hj. split; [|done].
  unfold place. rewrite Hi, fmap_insert. f_equal. rewrite place_lookup, Hrow in Hcur.
  injection Hcur as Ht Hp _ Hn Hd. unfold place_of. cbn. by rewrite Ht, Hp, Hn, Hd.
Qed.

Lemma ArchiveIssue_board command s : lifecycle_ok s → board_ok s → board_move s (ArchiveIssue command s).2.
Proof.
  intros Hl Hb. unfold ArchiveIssue. apply board_run; [done|]. intros r s' Hrun.
  unfold archiveTx in Hrun. cbv zeta in Hrun. inv_tx_step Hrun. apply loadIssueForMutation_Ok in Hstep as [-> Hcur]; [|apply Hl].
  rename a into current. inv_tx_step Hrun. inv_tx_step Hrun. inv_tx_step Hrun. apply query_Ok in Hstep as [-> ->]. inv_tx_step Hrun.
  inv_tx_step Hrun. apply refuse_board in Hstep as (_ & Hp1 & Hj1); [|done].
  assert (Hold : place s !! i_ID current = Some (place_of current)) by (apply place_Some; by exists current).
  apply archive_update in Hrun as [Hp2 Hj2]; [|by rewrite Hp1|intros n x; pres; keep].
  rewrite Hp1 in Hp2. rewrite Hj1 in Hj2.
  apply (board_ok_move s s' (i_ID current) (place_of current) _ Hb Hold Hp2 Hj2); [done|done|done|right].
  destruct (decide (i_Type current = TypeEpic)) as [He|He]; [|by eapply non_epic_childless; [apply Hb|..]].
  apply childless_spec. match goal with Hc : _ && epicHasLiveChildren _ _ = false |- _ => rewrite He in Hc; exact Hc end.
Qed.

(** An identifier that is stored finds itself. *)
Lemma findIssue_internal id s : ids_ParseStrict id = true →
  ParseIssueIdentifier id = Ok (internalIdentifier id) ∧ findIssue (internalIdentifier id) s = st_issues s !! id.
Proof. intros Hid. unfold ParseIssueIdentifier. by rewrite Hid. Qed.

Lemma validateParent_self s p r :
  schema_ok s → board_ok s → is_Some (place s !! p) → validateParent (Some p) s = Ok r → r = Some p.
Proof.
  intros Hok Hb [pl Hpl]. pose proof (bd_ids _ Hb _ _ Hpl) as Hid. destruct (findIssue_internal p s Hid) as [Hparse Hfind].
  unfold validateParent. rewrite Hparse. intros Hv. inv_ok. rewrite Hfind in *.
  destruct (st_issues s !! p) as [e|] eqn:He; [|done]. inv_ok.
  f_equal. exact (proj1 (ok_issues _ Hok) _ _ He).
Qed.

(** What the schema says about a parent. *)
Lemma parent_present s i p :
  schema_ok s → st_issues s !! i_ID i = Some i → i_ParentID i = Some p →
  is_Some (place s !! p) ∧ p ≠ i_ID i ∧ i_Type i ≠ TypeEpic.
Proof.
  intros Hok Hi Hp. pose proof (proj2 (ok_issues _ Hok) _ _ Hi) as Hc. cbn in Hc. unfold issue_constraint in Hc. conj_hyps.
  rewrite Hp in *. conj_hyps. rewrite negb_true_iff in *. split_and!.
  - rewrite place_lookup, fmap_is_Some. match goal with Hf : fk _ _ = true |- _ => by apply fk_true in Hf end.
  - by apply eqb_string_false.
  - by apply eqb_string_false.
Qed.

Lemma UnarchiveIssue_board command s : lifecycle_ok s → board_ok s → board_move s (UnarchiveIssue command s).2.
Proof.
  intros Hl Hb. unfold UnarchiveIssue. apply board_run; [done|]. intros r s' Hrun.
  unfold unarchiveTx in Hrun. cbv zeta in Hrun. inv_tx_step Hrun. apply loadIssueForMutation_Ok in Hstep as [-> Hcur]; [|apply Hl].
  rename a into current. inv_tx_step Hrun. inv_tx_step Hrun. inv_tx_step Hrun. rename Hstep into Hpar. inv_tx_step Hrun.
  assert (Hs0 : s0 = s ∧ (i_Type current ≠ TypeEpic → ∀ p, i_ParentID current = Some p → validateParent (Some p) s = Ok (Some p))).
  { destruct (_ && _) eqn:Hc.
    - apply andb_true_iff in Hc as [Ht Hp]. destruct (i_ParentID current) as [q|] eqn:Hq; [|done]. inv_tx_step Hpar.
      apply lift_query_Ok in Hstep0 as [Hv ->]. inv_tx_step Hpar. apply tx_ret_Ok in Hpar as [_ ->]. split; [done|].
      intros _ p [= <-]. pose proof (parent_present _ _ _ (lc_schema _ _ _ Hl) Hcur Hq) as [Hex _].
      by rewrite <-(validateParent_self s q a1 (lc_schema _ _ _ Hl) Hb Hex Hv) at 2.
    - apply tx_ret_Ok in Hpar as [_ ->]. split; [done|]. intros Ht p Hp. rewrite Hp in Hc.
      by rewrite (proj2 (eqb_string_false _ _) Ht) in Hc. }
  destruct Hs0 as [-> Hself]. apply refuse_board in Hstep as (_ & Hp1 & Hj1); [|done].
  assert (Hold : place s !! i_ID current = Some (place_of current)) by (apply place_Some; by exists current).
  apply archive_update in Hrun as [Hp2 Hj2]; [|by rewrite Hp1|intros n x; pres; keep].
  rewrite Hp1 in Hp2. rewrite Hj1 in Hj2.
  apply (board_ok_move s s' (i_ID current) (place_of current) _ Hb Hold Hp2 Hj2); [done|done|..]; cbn.
  - intros p _ Hp. pose proof (parent_present _ _ _ (lc_schema _ _ _ Hl) Hcur Hp) as (_ & Hne & Ht). split; [done|].
    apply (validateParent_Ok (Some p) s (Some p)); [apply Hl|by apply Hself].
  - right. intros c i Hc Ha Hp. destruct (bd_hierarchical _ Hb c i _ Hc Ha Hp) as (e & He & _ & Hnone).
    rewrite Hold in He. injection He as <-. cbn in Hnone.
    match goal with Hx : negb (isSet (i_ArchivedAt current)) = false |- _ => by rewrite Hnone in Hx end.
Qed.

(** ** Plans *)

Section planned.
Context (command : ApplyIssuePlanCommand) (s0 : Store).
Hypothesis schema0 : schema_ok s0.
Hypothesis board0 : board_ok s0.
Hypothesis command_checked : command_ok command.
Hypothesis plan_checked : checked s0 (pc_Plan command).

Lemma item_parts planned id labelIDs :
  (planned, id, labelIDs) ∈ issueItems command →
  planned ∈ ip_Issues (pc_Plan command) ∧ id ∈ pc_IssueIDs command ∧
  (planned, id) ∈ zip (ip_Issues (pc_Plan command)) (pc_IssueIDs command).
Proof.
  unfold issueItems. intros Hin%elem_of_zip_l. split_and!; [by eapply elem_of_zip_l|by eapply elem_of_zip_r|done].
Qed.

(** Half way through the issues of the plan. *)
Record board_applied (done : list (PlannedIssue * string * list string)) (s : Store) : Prop := {
  ba_schema : schema_ok s;
  ba_kept : st_issues s0 ⊆ st_issues s;
  ba_move : board_move s0 s;
  ba_done item : item ∈ done → ∃ pl, place s !! itemID item = Some pl ∧ pl_Type pl = pn_Type item.1.1 ∧ pl_Archived pl = None;
  ba_new id : is_Some (st_issues s !! id) → is_Some (st_issues s0 !! id) ∨ id ∈ map itemID done;
}.

Lemma planned_parent done s planned ref p :
  (∀ item, item ∈ done → item ∈ issueItems command) → NoDup (map itemID (issueItems command)) →
  (∀ id, id ∈ map itemID (issueItems command) → st_issues s0 !! id = None) → board_applied done s →
  good_parent s0 (ip_Issues (pc_Plan command)) planned → pn_ParentRef planned = Some ref →
  resolveID (localIDs command) ref s = Ok (p, s) → is_Some (st_issues s !! p) → live_epic (place s) p.
Proof.
  intros Hsub Hnd Hfresh [Hok Hkept _ Hdone Hnew] Hgood Href Hres Hp. destruct (Hgood ref Href) as [_ Hcase].
  unfold resolveID in Hres. destruct (localIDs command !! ref) as [x|] eqn:Hl.
  - apply tx_ret_Ok in Hres as [-> _].
    assert (Hall : ∀ c, c ∈ ip_Issues (pc_Plan command) → pn_Ref c = ref → pn_Type c = TypeEpic).
    { destruct Hcase as [[_ Hall]|[Hn _]]; [exact Hall|]. apply (localIDs_None command ref command_checked) in Hn. congruence. }
    pose proof (new_id command command_checked ref x Hl) as Hin. apply Hnew in Hp as [[i Hi]|Hx]; [rewrite (Hfresh x Hin) in Hi; done|].
    apply list_elem_of_fmap in Hx as ([[planned' id'] labels'] & Hid & Hitem). cbn in Hid. subst id'.
    destruct (Hdone _ Hitem) as (pl & Hpl & Ht & Ha). exists pl. split_and!; [exact Hpl| |done]. rewrite Ht. cbn.
    apply localIDs_Some in Hl as (_ & issue & Hz & Hr). apply Hsub, item_parts in Hitem as (Hplan & _ & Hz').
    rewrite (itemIDs command command_checked) in Hnd. rewrite (snd_unique _ _ _ _ Hnd Hz' Hz). apply Hall; [by eapply elem_of_zip_l|done].
  - apply (localIDs_None command ref command_checked) in Hl. destruct Hcase as [[[? Hs] _]|[_ (e & (identifier & Hpar & Hf & Ha) & Ht)]]; [congruence|].
    rewrite Hpar in Hres. inv_tx_step Hres. apply lift_Ok in Hstep as [[= <-] ->]. inv_tx_step Hres.
    apply loadIssueForMutation_find in Hstep as [_ Hf']. apply tx_ret_Ok in Hres as [-> _].
    pose proof (findIssue_grows _ _ _ _ Hok Hkept Hf) as Hf2. assert (a = e) as -> by congruence.
    apply findIssue_Some in Hf2; [|done]. exists (place_of e). split_and!; [|done|done]. apply place_Some. by exists e.
Qed.

Lemma applyIssues_board bs s :
  applyEach (λ '(planned, id, labelIDs), applyPlannedIssue (localIDs command) (pc_OccurredAt command) planned id labelIDs)
    (issueItems command) s0 = Ok (bs, s) → board_move s0 s.
Proof.
  intros Hrun. pose proof (applyIssues_applied command s0 schema0 _ _ Hrun) as [_ _ Hnd Hfresh _ _].
  enough (Hb : (∀ item, item ∈ issueItems command → item ∈ issueItems command) ∧ board_applied (issueItems command) s) by apply Hb.
  revert Hrun. apply (applyEach_ind _ (λ done _ s, (∀ item, item ∈ done → item ∈ issueItems command) ∧ board_applied done s)).
  2:{ split; [by intros ? ?%elem_of_nil|]. split; [done|done|by apply board_move_refl|by intros ? ?%elem_of_nil|by left]. }
  intros done bs' [[planned id] labelIDs] b s1 s2 [Hsub Hba] Hin Hstep. pose proof (item_parts _ _ _ Hin) as (Hplan & Hidin & _).
  assert (Hsub' : ∀ item, item ∈ done ++ [(planned, id, labelIDs)] → item ∈ issueItems command).
  { intros item [Hx|Hx%list_elem_of_singleton]%elem_of_app; [by apply Hsub|by subst item]. }
  split; [exact Hsub'|]. apply applyPlannedIssue_Ok in Hstep as (row & parent & labels & _ & Hrow & Hpar & Hn & Hex & _ & Hok2 & Hi & Hp & _); [|apply Hba].
  set (issue := createdIssue id (plannedInput planned) (pj_NextIssueNumber row) parent (pc_OccurredAt command)) in *.
  assert (Hpl : place s2 = <[id := place_of issue]> (place s1)) by (unfold place; by rewrite Hi, fmap_insert).
  pose proof Hba as [Hok Hkept [Hb Hle] Hdone Hnew]. split.
  - done.
  - rewrite Hi. etrans; [exact Hkept|by apply insert_subseteq].
  - assert (Hmove : board_move s1 s2).
    { apply (board_insert s1 s2 id (place_of issue) row (pc_OccurredAt command)); try done.
      - by rewrite place_lookup, Hn.
      - by apply (cok_ids _ command_checked).
      - intros p _ Hpp. cbn in Hpp. subst parent. unfold resolveOptionalID in Hpar.
        destruct (pn_ParentRef planned) as [ref|] eqn:Href; [|by apply tx_ret_Ok in Hpar as [? _]].
        inv_tx_step Hpar. pose proof (reads_resolveID _ _ _ _ _ Hstep) as ->. apply tx_ret_Ok in Hpar as [[= <-] _].
        apply (planned_parent done s1 planned ref p); try done; [by apply Hfresh|by apply (kd_parents _ _ plan_checked)]. }
    destruct Hmove as [Hb2 Hle2]. split; [done|by etrans].
  - intros item [Hx|Hx%list_elem_of_singleton]%elem_of_app.
    + destruct (Hdone item Hx) as (pl & Hpl1 & ? & ?). exists pl. split_and!; [|done|done]. rewrite Hpl, lookup_insert_ne; [done|].
      intros ->. rewrite place_lookup, Hn in Hpl1. done.
    + subst item. exists (place_of issue). cbn. by rewrite Hpl, lookup_insert_eq.
  - intros x. rewrite map_app. cbn [map]. rewrite elem_of_app, list_elem_of_singleton, Hi. change (itemID (planned, id, labelIDs)) with id.
    destruct (decide (id = x)) as [->|Hne]; [by right; right|]. rewrite lookup_insert_ne by done. intros [?|?]%Hnew; tauto.
Qed.
End planned.

Lemma ApplyIssuePlan_board command s :
  schema_ok s → acyclic s → board_ok s → board_move s (ApplyIssuePlan command s).2.
Proof.
  intros Hok Hac Hb. unfold ApplyIssuePlan. destruct (validatePlanCommand command) as [u|] eqn:Hc; [|by apply board_move_refl].
  apply validatePlanCommand_Ok in Hc. apply board_run; [done|]. intros r s' Hrun.
  apply planTx_Ok in Hrun as (issues & s1 & relations & s2 & decisions & s3 & Hv & Hi & Hr & Hd & _ & Hi4 & Hp4 & _).
  apply validatePlanAgainstStore_checked in Hv; [|done..]. pose proof (applyIssues_applied command s Hok _ _ Hi) as Happ.
  apply applyIssues_board in Hi as [Hb1 Hle1]; [|done..]. apply (applyRelations_applied command s Hok s1) in Hr as [Hi2 Hp2 _ _]; [|done..].
  apply applyDecisions_kept in Hd as (Hi3 & Hp3 & _).
  assert (Hpl : place s' = place s1) by (unfold place; congruence). assert (Hpr : st_project s' = st_project s1) by congruence.
  split; [by eapply board_ok_same|]. etrans; [exact Hle1|]. apply board_le_same; [done|]. unfold nextNumber. by rewrite Hpr.
Qed.
End movers.
