(* ===== verification/Lifecycle.v ===== *)
(** * The program as a transition system

    Every write operation of the repositories is a step on stores, and the
    invariants of the program are the invariants of the reachable stores.

    An interleaving of clients is a sequence of steps: [DB.Write] serializes
    the write transactions of a database, and every operation here is one
    transaction.  [work_step] has the operations on attempts, reservations and
    reviews.  One of them has a contract with its callers:
    [AcquireReservations] does not check the attempt it acquires for, and
    [ports/reservations.go] asks that it be one active work attempt.  A step of
    it keeps that contract, or is for one of the attempts that are [misused];
    the theorems hold for every set of these.

    [issue_step], [relation_step], [policy_step], [evidence_step],
    [discussion_step], [plan_step] and [session_step] are the operations of the
    other repositories; [step] joins them with the initialization of a database
    ([ensureProjectRow] of [internal/runtime/runtime.go]).  The import of a
    project and the maintenance of timestamps are not steps. *)

From S2P Require Import Prelude GoStrings Errors Validation Samples Issue Relation Session IssueOps.
From S2P Require Import Discussion Resource Attempt AttemptPolicy Gates Store Schema ReservationStore.
From S2P Require Import GateStore ReviewStore Termination ReviewOps AttemptStore Footprint.
From S2P Require Import RelationStore IssueStore PolicyStore EvidenceStore DiscussionStore SessionStore PlanStore PlanCheck PlanApply Place.

(** An empty database. *)
Definition emptyStore : Store :=
  mkStore ∅ ∅ ∅ ∅ ∅ ∅ ∅ ∅ ∅ ∅ ∅ ∅ ∅ ∅ ∅ [] ∅ ∅ None [] [] [] 0 ∅ [].

(** ** Opening a database *)

Definition CodeProjectOpen := "PROJECT_OPEN_FAILED".
Definition CodeProjectMismatch := "PROJECT_DATABASE_MISMATCH".

(** The first opening inserts the project's row; a later one checks it. *)
Definition ensureProjectRow `{SQLiteDriver} (projectID : string) (now : Z) (s : Store) : result unit * Store :=
  Write (λ s,
    match st_project s with
    | None =>
        if id_ok projectID then Ok (Ok tt, set_project (Some (mkProjectRow projectID 1 now)) s)
        else Err (WrapError (sqlite_message "projects") CodeProjectOpen
                    "cannot initialize project database identity" false [])
    | Some row =>
        if pj_ID row =s projectID then Ok (Ok tt, s)
        else Err (NewError CodeProjectMismatch "project database identity does not match repository identity" false
                    [mkDetail None "projects" CodeProjectMismatch ("expected one row for project " +:+ projectID)])
    end) s.

(** ** Steps *)

Section lifecycle_steps.
Context `{UnicodeTables, ULID, JSONCodec, URLParser, SnapshotHash, SQLiteDriver, Misused}.

(** "On behalf of one active work attempt", of [ports/reservations.go]. *)
Definition contract_kept (command : AcquireReservationsCommand) (s : Store) : bool :=
  match st_attempts s !! aq_AttemptID command with
  | Some a => attemptActive a && (ar_Kind a =s AttemptKindWork) && (ar_IssueID a =s aq_IssueID command)
  | None => false
  end.

(** The operations of [AttemptRepository], [ReviewRepository] and
    [ReservationRepository]. *)
Inductive work_step : Store → Store → Prop :=
  | step_claim command s : work_step s (ClaimIssue command s).2
  | step_renew command s : work_step s (RenewAttempt command s).2
  | step_expire now s : work_step s (ExpireAttempts now s).2
  | step_note command s : work_step s (SaveAttemptNote command s).2
  | step_reserve command s : work_step s (ReserveResources command s).2
  | step_release command s : work_step s (ReleaseResources command s).2
  | step_finish command s : work_step s (FinishAttempt command s).2
  | step_force command s : work_step s (ForceReleaseAttempt command s).2
  | step_acquire command s :
      contract_kept command s || misused (aq_AttemptID command) = true → work_step s (AcquireReservations command s).2
  | step_release_reservation command s : work_step s (ReleaseReservation command s).2
  | step_review_create command s : work_step s (CreateReviewRequest command s).2
  | step_review_cancel command s : work_step s (CancelReviewRequest command s).2
  | step_review_replace command s : work_step s (ReplaceReviewRequest command s).2
  | step_review_claim command s : work_step s (ClaimReviewRequest command s).2
  | step_review_resolve command s : work_step s (ResolveReviewRequest command s).2.

(** The operations on issues. *)
Inductive issue_step : Store → Store → Prop :=
  | step_create command s : issue_step s (CreateIssue command s).2
  | step_update command s : issue_step s (UpdateIssue command s).2
  | step_archive command s : issue_step s (ArchiveIssue command s).2
  | step_unarchive command s : issue_step s (UnarchiveIssue command s).2
  | step_open projectID now s : issue_step s (ensureProjectRow projectID now s).2.

Inductive relation_step : Store → Store → Prop :=
  | step_relation command s : relation_step s (ManageIssueRelation command s).2.
Inductive policy_step : Store → Store → Prop :=
  | step_policy_create command s : policy_step s (CreatePolicy command s).2
  | step_policy_update command s : policy_step s (UpdatePolicy command s).2
  | step_policy_archive command s : policy_step s (ArchivePolicy command s).2.
Inductive evidence_step : Store → Store → Prop :=
  | step_evidence command s : evidence_step s (SubmitGateEvidence command s).2.
Inductive discussion_step : Store → Store → Prop :=
  | step_comment command s : discussion_step s (AddComment command s).2
  | step_decision command s : discussion_step s (RecordDecision command s).2.
Inductive plan_step : Store → Store → Prop :=
  | step_plan command s : plan_step s (ApplyIssuePlan command s).2.
Inductive session_step : Store → Store → Prop :=
  | step_session_create command s : session_step s (CreateAgentSession command s).2
  | step_session_resolve command s : session_step s (ResolveAndTouchAgentSessionHandle command s).2
  | step_session_end_handle command s : session_step s (EndAgentSessionByHandle command s).2
  | step_session_touch command s : session_step s (TouchAgentSession command s).2
  | step_session_end command s : session_step s (EndAgentSession command s).2.

(** [step_entropy]: the identifiers the entropy source will produce are the
    environment's choice. *)
Inductive step (s s' : Store) : Prop :=
  | step_work : work_step s s' → step s s'
  | step_issue : issue_step s s' → step s s'
  | step_related : relation_step s s' → step s s'
  | step_policy : policy_step s s' → step s s'
  | step_submit : evidence_step s s' → step s s'
  | step_discussion : discussion_step s s' → step s s'
  | step_session : session_step s s' → step s s'
  | step_planned : plan_step s s' → step s s'
  | step_entropy ids : s' = set_entropy ids s → step s s'.

Definition reachable (s : Store) : Prop := rtc step emptyStore s.

(** ** Invariants *)

(** An invariant of the reachable stores, with the ones already known. *)
Lemma reachable_ind_with (Q P : Store → Prop) :
  (∀ s, reachable s → Q s) → P emptyStore → (∀ s s', reachable s → Q s → step s s' → P s → P s') → ∀ s, reachable s → P s.
Proof.
  intros HQ Hempty Hs s Hr. unfold reachable in Hr. revert s Hr. apply rtc_ind_r; [done|].
  intros y z Hy Hyz. apply Hs; [done|by apply HQ|done].
Qed.

Lemma ensureProjectRow_cases projectID now s :
  (ensureProjectRow projectID now s).2 = s ∨
  (st_project s = None ∧ id_ok projectID = true ∧
   (ensureProjectRow projectID now s).2 = set_project (Some (mkProjectRow projectID 1 now)) s).
Proof. unfold ensureProjectRow, Write. repeat case_match; simplify_eq; auto. Qed.

(** *** The lifecycle of attempts *)

Lemma ReleaseReservation_lifecycle command s : lifecycle_ok s → lifecycle_ok (ReleaseReservation command s).2.
Proof.
  intros Hl. unfold ReleaseReservation. cbv zeta. do 3 (case_match; [done|]).
  apply (preserves_Write lifecycle_ok); [|done].
  apply preserves_bind; [apply reads_preserves, reads_loadReservationByID|intros row].
  do 2 (match goal with |- preserves _ (if ?b then _ else _) => destruct b; [apply preserves_fail|] end).
  apply preserves_bind; [apply lifecycle_updateReleased|intros n]. pres.
  apply reads_preserves, reads_loadReservationByID.
Qed.

Lemma step_acquire_lifecycle command s :
  contract_kept command s || misused (aq_AttemptID command) = true →
  lifecycle_ok s → lifecycle_ok (AcquireReservations command s).2.
Proof.
  intros Hc. apply AcquireReservations_lifecycle. apply orb_true_iff in Hc as [Hc|Hm]; [right|by left].
  unfold contract_kept in Hc. destruct (st_attempts s !! _) as [a|]; [|done]. exists a.
  rewrite !andb_true_iff, !eqb_string_true in Hc. tauto.
Qed.

Lemma emptyStore_lifecycle : lifecycle_ok emptyStore.
Proof.
  assert (Hs : schema_ok emptyStore).
  { split; [..|by split_and!; [constructor|constructor|]];
      (split; [intros id r Hr|intros id r Hr]; cbn in Hr; by rewrite lookup_empty in Hr). }
  split; [done|..]; cbn.
  - intros i r Hr. by rewrite lookup_empty in Hr.
  - intros i q aid Hq. by rewrite lookup_empty in Hq.
  - intros i r Hr. by rewrite lookup_empty in Hr.
  - intros i j r q n k _ Hr. by rewrite lookup_empty in Hr.
Qed.

Lemma ensureProjectRow_lifecycle projectID now s : lifecycle_ok s → lifecycle_ok (ensureProjectRow projectID now s).2.
Proof.
  intros Hl. destruct (ensureProjectRow_cases projectID now s) as [->|(_ & _ & ->)]; [done|].
  apply (lifecycle_tables None None s); [|done|exact Hl]. apply (schema_same s); [by split|apply Hl|apply Hl].
Qed.

Lemma set_entropy_lifecycle ids s : lifecycle_ok s → lifecycle_ok (set_entropy ids s).
Proof.
  intros Hl. apply (lifecycle_tables None None s); [|done|exact Hl]. apply (schema_same s); [by split|apply Hl|apply Hl].
Qed.

Lemma step_lifecycle s s' : step s s' → lifecycle_ok s → lifecycle_ok s'.
Proof.
  intros [[]|[]|[]|[]|[]|[]|[]|[]|? ->];
    eauto using ClaimIssue_lifecycle, RenewAttempt_lifecycle, ExpireAttempts_lifecycle,
      SaveAttemptNote_lifecycle, ReserveResources_lifecycle, step_acquire_lifecycle, ReleaseResources_lifecycle, FinishAttempt_lifecycle,
      ForceReleaseAttempt_lifecycle, ReleaseReservation_lifecycle, CreateReviewRequest_lifecycle,
      CancelReviewRequest_lifecycle, ReplaceReviewRequest_lifecycle, ClaimReviewRequest_lifecycle,
      ResolveReviewRequest_lifecycle, CreateIssue_lifecycle, UpdateIssue_lifecycle, ArchiveIssue_lifecycle,
      UnarchiveIssue_lifecycle, ensureProjectRow_lifecycle, ManageIssueRelation_lifecycle, CreatePolicy_lifecycle,
      UpdatePolicy_lifecycle, ArchivePolicy_lifecycle, SubmitGateEvidence_lifecycle, AddComment_lifecycle,
      RecordDecision_lifecycle, CreateAgentSession_lifecycle, ResolveAndTouch_lifecycle, EndByHandle_lifecycle,
      TouchAgentSession_lifecycle, EndAgentSession_lifecycle, ApplyIssuePlan_lifecycle, set_entropy_lifecycle.
Qed.

Lemma reachable_lifecycle s : reachable s → lifecycle_ok s.
Proof.
  apply (reachable_ind_with (λ _, True)); [done|apply emptyStore_lifecycle|].
  intros s1 s2 _ _. apply step_lifecycle.
Qed.

Lemma reachable_schema s : reachable s → schema_ok s.
Proof. intros Hr. apply (reachable_lifecycle s Hr). Qed.

(** *** What each kind of step leaves alone *)

Lemma work_step_closed (P : Store → Prop) `{!WorkClosed P} s s' : work_step s s' → P s → P s'.
Proof.
  destruct 1; intros ?; first
    [ by apply ClaimIssue_closed | by apply RenewAttempt_closed | by apply ExpireAttempts_closed | by apply SaveAttemptNote_closed | by apply ReserveResources_closed | by apply AcquireReservations_closed | by apply ReleaseResources_closed | by apply ReleaseReservation_closed | by apply FinishAttempt_closed | by apply ForceReleaseAttempt_closed | by apply CreateReviewRequest_closed | by apply CancelReviewRequest_closed | by apply ReplaceReviewRequest_closed | by apply ClaimReviewRequest_closed | by apply ResolveReviewRequest_closed ].
Qed.

Section kept.
Context {X : Type} (f : Store → X).

(** From closure under [keeping] to an equation. *)
Lemma kept_by (R : Store → Store → Prop) :
  (∀ x s s', R s s' → keeping f x s → keeping f x s') → ∀ s s', R s s' → f s' = f s.
Proof. intros HR s s' Hs. by apply (HR (f s) s s' Hs). Qed.

Lemma work_step_kept s s' : work_blind f → work_step s s' → f s' = f s.
Proof.
  intros Hf. apply kept_by. intros x s0 s1 Hs. pose proof (keeping_work f x Hf). by apply work_step_closed.
Qed.

Lemma issue_step_kept s s' :
  work_blind f → (∀ m s, f (set_labels m s) = f s) → (∀ m s, f (set_project m s) = f s) → issue_step s s' → f s' = f s.
Proof.
  intros Hf Hl Hp. apply kept_by. intros x s0 s1 Hs. pose proof (keeping_work f x Hf).
  assert (Hins : ∀ row : Issue, preserves (keeping f x) (Insert row)) by (intros row; by apply keep_Insert, Hf).
  assert (Hupd : ∀ id p g, (∀ r, i_ID (g r) = i_ID r) → preserves (keeping f x) (Update (R := Issue) id p g))
    by (intros; by apply keep_Update, Hf).
  assert (Hlab : ∀ row : Label, preserves (keeping f x) (Insert row)) by (intros row; by apply keep_Insert).
  assert (Hall : ∀ now, preserves (keeping f x) (allocateIssueNumber now)).
  { intros now s2 n s3 Hx (row & _ & _ & ->)%allocateIssueNumber_Ok. unfold keeping. by rewrite Hp. }
  destruct Hs as [? s2|? s2|? s2|? s2|projectID now s2]; intros ?; first
    [ by apply CreateIssue_closed | by apply UpdateIssue_closed | by apply ArchiveIssue_closed | by apply UnarchiveIssue_closed  | idtac ].
  destruct (ensureProjectRow_cases projectID now s2) as [->|(_ & _ & ->)]; [done|]. unfold keeping. by rewrite Hp.
Qed.

Lemma relation_step_kept s s' : log_blind f → (∀ m s, f (set_relations m s) = f s) → relation_step s s' → f s' = f s.
Proof.
  intros Hf Hr. apply kept_by. intros x s0 s1 [command s2] Hx. pose proof (keeping_log f x Hf). apply (ManageIssueRelation_closed (keeping f x)); [| |done].
  - intros row. by apply keep_Insert.
  - intros id. by apply keep_Delete.
Qed.

Lemma policy_step_kept s s' :
  log_blind f → (∀ m s, f (set_policies m s) = f s) → (∀ l s, f (set_policy_events l s) = f s) →
  policy_step s s' → f s' = f s.
Proof.
  intros Hf Hp He. apply kept_by. intros x s0 s1 Hs. pose proof (keeping_log f x Hf).
  assert (Hins : ∀ row : WorkflowPolicy, preserves (keeping f x) (Insert row)) by (intros row; by apply keep_Insert).
  assert (Hupd : ∀ id p g, preserves (keeping f x) (Update (R := WorkflowPolicy) id p g)) by (intros; by apply keep_Update).
  assert (Hev : ∀ policy t prior sid now, preserves (keeping f x) (appendWorkflowPolicyEvent policy t prior sid now)).
  { intros policy t prior sid now s2 u s3 Hx ->%appendWorkflowPolicyEvent_Ok. unfold keeping. by rewrite He. }
  destruct Hs; intros ?; first
    [ by apply CreatePolicy_closed | by apply UpdatePolicy_closed | by apply ArchivePolicy_closed ].
Qed.

Lemma evidence_step_kept s s' :
  work_blind f → (∀ m s, f (set_evidence m s) = f s) → (∀ l s, f (set_evidence_events l s) = f s) →
  evidence_step s s' → f s' = f s.
Proof.
  intros Hf Hp He. apply kept_by. intros x s0 s1 [command s2] Hx0. pose proof (keeping_work f x Hf). apply (SubmitGateEvidence_closed (keeping f x)); [| | |done].
  - intros row. by apply keep_Insert.
  - intros id version g s3 n s4 Hx [Hu _]%updateEvidence_Ok. revert Hx Hu. by apply keep_Update.
  - intros evidence t now s3 u s4 Hx [e ->]%appendGateEvidenceEvent_Ok. unfold keeping. by rewrite He.
Qed.

Lemma discussion_step_kept s s' :
  log_blind f → (∀ m s, f (set_comments m s) = f s) → (∀ m s, f (set_decisions m s) = f s) →
  discussion_step s s' → f s' = f s.
Proof.
  intros Hf Hc Hd. apply kept_by. intros x s0 s1 Hs. pose proof (keeping_log f x Hf).
  assert (Hev : ∀ i t sid aid p now, preserves (keeping f x) (AppendIssueEvent i t sid aid p now)).
  { intros. by apply keep_AppendIssueEvent, Hf. }
  assert (Hcom : ∀ row : Comment, preserves (keeping f x) (Insert row)) by (intros row; by apply keep_Insert).
  assert (Hdec : ∀ row : Decision, preserves (keeping f x) (Insert row)) by (intros row; by apply keep_Insert).
  assert (Hupd : ∀ id p g, preserves (keeping f x) (Update (R := Decision) id p g)) by (intros; by apply keep_Update).
  destruct Hs; intros ?; first
    [ by apply AddComment_closed | by apply RecordDecision_closed ].
Qed.

Lemma plan_step_kept s s' :
  work_blind f → (∀ m s, f (set_labels m s) = f s) → (∀ m s, f (set_project m s) = f s) →
  (∀ m s, f (set_relations m s) = f s) → (∀ m s, f (set_decisions m s) = f s) → plan_step s s' → f s' = f s.
Proof.
  intros Hf Hl Hp Hr Hd. apply kept_by. intros x s0 s1 [command s2] Hx. pose proof (keeping_work f x Hf).
  apply (ApplyIssuePlan_closed (keeping f x)); [..|done].
  - intros row. by apply keep_Insert, Hf.
  - intros id p g _. by apply keep_Update, Hf.
  - intros row. by apply keep_Insert.
  - by apply keep_allocate.
  - intros row. by apply keep_Insert.
  - intros row. by apply keep_Insert.
  - intros i t sid aid p now. apply keep_AppendIssueEvent, Hf.
Qed.

Lemma session_step_kept s s' : (∀ m s, f (set_sessions m s) = f s) → session_step s s' → f s' = f s.
Proof.
  intros Hf. apply kept_by. intros x s0 s1 Hs.
  assert (Hins : ∀ row : SessionRow, preserves (keeping f x) (Insert row)) by (intros row; by apply keep_Insert).
  assert (Hupd : ∀ id p g, preserves (keeping f x) (Update (R := SessionRow) id p g)) by (intros; by apply keep_Update).
  destruct Hs; intros ?; first
    [ by apply CreateAgentSession_closed | by apply ResolveAndTouch_closed | by apply EndByHandle_closed | by apply TouchAgentSession_closed | by apply EndAgentSession_closed ].
Qed.
End kept.
End lifecycle_steps.

(** Discharge the blindness of a projection. *)
Ltac blind := solve [repeat split | done].

(** ** What the unique indexes give *)

Section unique.
Context `{SQLiteDriver, Misused}.

Lemma attempt_unique s i j a b :
  schema_ok s → st_attempts s !! i = Some a → st_attempts s !! j = Some b → activeAttemptClash a b = true → i = j.
Proof.
  intros Hs Hi. apply (clash_unique (st_attempts s) activeAttemptClash).
  pose proof (proj2 (ok_attempts _ Hs) _ _ Hi) as Hc. cbn in Hc. unfold attempt_constraint in Hc. conj_hyps.
  by apply negb_true_iff.
Qed.

Lemma request_unique s i j q r :
  schema_ok s → st_requests s !! i = Some q → st_requests s !! j = Some r → activeIssueVersionClash q r = true → i = j.
Proof.
  intros Hs Hi. apply (clash_unique (st_requests s) activeIssueVersionClash).
  pose proof (proj2 (ok_requests _ Hs) _ _ Hi) as Hc. cbn in Hc. unfold request_constraint in Hc. conj_hyps.
  by apply negb_true_iff.
Qed.

Lemma claimed_attempt s i q :
  schema_ok s → st_requests s !! i = Some q → requestClaimed q = true → is_Some (rq_ActiveAttemptID q).
Proof.
  intros Hs Hi Hcl. pose proof (proj2 (ok_requests _ Hs) _ _ Hi) as Hc. cbn in Hc. unfold request_constraint in Hc.
  conj_hyps. rewrite Hcl in *. destruct (rq_ActiveAttemptID q); [by eexists|done].
Qed.
End unique.
