(* ===== verification/Scenario.v ===== *)
(** * A concrete run

    Opening a database, two issues, a work attempt that reserves a file, a
    review request and the review attempt bound to it: reachable stores at which
    the theorems of the development are evaluated.  The remaining foreign
    interfaces are instantiated here: a constant 64-character fingerprint, the
    identity as the driver's message, and callers that misuse no attempt. *)

From S2P Require Import Prelude GoStrings Errors Validation Samples Issue Relation Session IssueOps.
From S2P Require Import Discussion Resource Attempt AttemptPolicy Gates Store Schema ReservationStore.
From S2P Require Import GateStore ReviewStore Termination ReviewOps AttemptStore Footprint.
From S2P Require Import RelationStore IssueStore PolicyStore EvidenceStore DiscussionStore SessionStore Lifecycle.

#[export] Instance sample_hash : SnapshotHash :=
  {| snapshot_fingerprint := λ _ _ _, String.concat "" (repeat "0" 64) |}.
#[export] Instance sample_driver : SQLiteDriver := {| sqlite_message := λ name, name |}.
(** Callers that keep the contract of [AcquireReservations] for every attempt. *)
#[export] Instance nobody_misused : Misused := λ _, false.

Definition T0 : Z := 1700000000000000000.
Definition hash32 (c : string) : string := String.concat "" (repeat c 32).

Definition scenarioIssue (id : string) (sequenceNo : Z) (status : string) : Issue :=
  mkIssue id ("ISSUE-" +:+ Itoa sequenceNo) sequenceNo TypeTask "title" None None status PriorityMedium None None 1
    None T0 T0 None None None [].
Definition issue1 : Issue := scenarioIssue (ulid_of "1") 1 StatusReady.
Definition issue2 : Issue := scenarioIssue (ulid_of "2") 2 StatusReview.

Definition createTask (c status : string) : CreateIssueCommand :=
  mkCreateCommand (ulid_of c) (mkCreate TypeTask "title" None None status "" None None [] false None) [] T0 "" "".

Definition stageOpen : Store := (ensureProjectRow (ulid_of "P") T0 emptyStore).2.
Definition stageIssue1 : Store := (CreateIssue (createTask "1" StatusReady) stageOpen).2.
Definition stageIssue2 : Store := (CreateIssue (createTask "2" StatusReview) stageIssue1).2.
Definition stageIssues : Store := set_entropy [ulid_of "X"; ulid_of "Y"; ulid_of "Z"] stageIssue2.

Example stageIssues_rows :
  (CreateIssue (createTask "1" StatusReady) stageOpen).1 = Ok issue1 ∧
  (CreateIssue (createTask "2" StatusReview) stageIssue1).1 = Ok issue2 ∧
  st_issues stageIssues = {[ ulid_of "1" := issue1; ulid_of "2" := issue2 ]} ∧
  option_map pj_NextIssueNumber (st_project stageIssues) = Some 3%Z.
Proof. split_and!; vm_compute; reflexivity. Qed.

(** A work attempt on issue 1 with one file. *)
Definition claim1 : ClaimIssueCommand :=
  mkClaimCommand (internalIdentifier (i_ID issue1)) (ulid_of "A") None (hash32 "a") "token-a" 900000000000 T0
    [mkResourceInput (ulid_of "R") (mkResource ResourceKindFile "src/a.go" "" "")] "claim-1" (hash32 "h").
Definition stageClaimed : Store := (ClaimIssue claim1 stageIssues).2.

(** A review request of issue 2 and the review attempt that takes it. *)
Definition createReview : CreateReviewRequestCommand :=
  mkCreateReview (ulid_of "Q") (ulid_of "T") (i_ID issue2) 1 2 [] DefaultReviewPurposes None (T0 + 1).
Definition stageRequested : Store := (CreateReviewRequest createReview stageClaimed).2.

Definition claim2 : ClaimIssueCommand :=
  mkClaimCommand (internalIdentifier (i_ID issue2)) (ulid_of "B") None (hash32 "b") "token-b" 900000000000 (T0 + 2)
    [] "" "".
Definition stageReview : Store := (ClaimIssue claim2 stageRequested).2.

Example stageReview_rows :
  map (λ a, (wa_ID (ar_Attempt a), ar_Kind a, attemptActive a)) (select (λ _ : AttemptRow, true) stageReview) =
    [(ulid_of "A", AttemptKindWork, true); (ulid_of "B", AttemptKindReview, true)] ∧
  map (λ r, (rr_ID r, rr_ComparisonValue r, reservationActive r)) (select (λ _ : reservationRow, true) stageReview) =
    [(ulid_of "R", "file:src/a.go", true)] ∧
  map (λ q, (rq_ID q, rq_Status q, rq_ActiveAttemptID q)) (select (λ _ : ReviewRequest, true) stageReview) =
    [(ulid_of "Q", ReviewRequestStatusClaimed, Some (ulid_of "B"))] ∧
  map e_Type (st_events stageReview) =
    ["issue_created"; "issue_created"; "attempt_started"; "reservation_reserved"; "review_requested";
     "attempt_started"; "review_claimed"].
Proof. vm_compute. done. Qed.

Lemma stageOpen_reachable : reachable stageOpen.
Proof. apply rtc_once, step_issue, step_open. Qed.
Lemma stageIssue1_reachable : reachable stageIssue1.
Proof. eapply rtc_r; [apply stageOpen_reachable|apply step_issue, step_create]. Qed.
Lemma stageIssue2_reachable : reachable stageIssue2.
Proof. eapply rtc_r; [apply stageIssue1_reachable|apply step_issue, step_create]. Qed.
Lemma stageIssues_reachable : reachable stageIssues.
Proof. eapply rtc_r; [apply stageIssue2_reachable|by eapply step_entropy]. Qed.
Lemma stageClaimed_reachable : reachable stageClaimed.
Proof. eapply rtc_r; [apply stageIssues_reachable|apply step_work, step_claim]. Qed.
Lemma stageRequested_reachable : reachable stageRequested.
Proof. eapply rtc_r; [apply stageClaimed_reachable|apply step_work, step_review_create]. Qed.
Lemma stageReview_reachable : reachable stageReview.
Proof. eapply rtc_r; [apply stageRequested_reachable|apply step_work, step_claim]. Qed.

(** The work attempt completes. *)
Definition finish1 : FinishAttemptCommand :=
  mkFinishCommand (ulid_of "A") None (hash32 "a")
    (mkFinish (ulid_of "A") "token-a" None AttemptOutcomeCompleted "done" [] [] (Some StatusDone) None None None None
       None None [] None) [] "" "" (T0 + 10).
(** The review attempt approves. *)
Definition finish2 : FinishAttemptCommand :=
  mkFinishCommand (ulid_of "B") None (hash32 "b")
    (mkFinish (ulid_of "B") "token-b" None AttemptOutcomeCompleted "fine" [] [] None None (Some ReviewOutcomeApproved)
       None None None None [] None) [] "" "" (T0 + 11).

Example finish_results :
  (∃ r, (FinishAttempt finish1 stageReview).1 = Ok r ∧ i_Status (fr_Issue r) = StatusDone) ∧
  (∃ r, (FinishAttempt finish2 stageReview).1 = Ok r ∧ i_Status (fr_Issue r) = StatusDone) ∧
  map rp_Purpose (st_approvals (FinishAttempt finish2 stageReview).2) = DefaultReviewPurposes.
Proof. vm_compute. eauto 10. Qed.

(** A caller that breaks the contract of [AcquireReservations] is not stopped:
    here it locks a file for the attempt that is over. *)
Definition acquireLate : AcquireReservationsCommand :=
  mkAcquire (i_ID issue1) (ulid_of "A") None [mkResourceInput (ulid_of "S") (mkResource ResourceKindFile "src/b.go" "" "")]
    (T0 + 12) "" "".
Example acquire_unchecked :
  let finished := (FinishAttempt finish1 stageReview).2 in
  contract_kept acquireLate finished = false ∧
  map (λ r, (rr_ID r, rr_AttemptID r, reservationActive r))
    (select (λ _ : reservationRow, true) (AcquireReservations acquireLate finished).2) =
    [(ulid_of "R", ulid_of "A", false); (ulid_of "S", ulid_of "A", true)].
Proof. vm_compute. done. Qed.
