(* ===== verification/Records.v ===== *)
(** * The records beside the work

    What every interleaving of clients guarantees about the records around the
    attempts: the graph of blocks relations, the audit log of the policies, the
    chains of decisions, the sessions, and the evidence of attempts.  Each
    invariant is proved for its own operations in their files; here every other
    operation is shown to leave it alone. *)

From S2P Require Import Prelude GoStrings Sha256 Errors Validation Samples Issue Relation Session IssueOps.
From S2P Require Import Discussion Resource Attempt AttemptPolicy Gates Store Schema ReservationStore.
From S2P Require Import GateStore ReviewStore Termination ReviewOps AttemptStore Footprint.
From S2P Require Import RelationStore IssueStore PolicyStore EvidenceStore DiscussionStore SessionStore.
From S2P Require Import Plan PlanStore PlanCheck PlanApply Lifecycle Scenario.

Section tables.
Context `{UnicodeTables, ULID, JSONCodec, URLParser, SnapshotHash, SQLiteDriver, Misused}.

(** A step is one of the table's own operations or leaves the table alone. *)
Ltac kept_steps f :=
  intros [?|?|?|?|?|?|?|?|? ->];
  first [ by left | by right; left | first [right; right | right]; first
    [ by apply (work_step_kept f); [blind|] | by apply (issue_step_kept f); [blind..|]
    | by apply (relation_step_kept f); [blind..|] | by apply (policy_step_kept f); [blind..|]
    | by apply (evidence_step_kept f); [blind..|] | by apply (discussion_step_kept f); [blind..|]
    | by apply (session_step_kept f); [blind|] | by apply (plan_step_kept f); [blind..|] | done ] ].

(** The two tables of the policies. *)
Definition policy_tables (s : Store) := (st_policies s, st_policy_events s).

Lemma step_relations s s' : step s s' → relation_step s s' ∨ plan_step s s' ∨ st_relations s' = st_relations s.
Proof. kept_steps st_relations. Qed.
Lemma step_policies s s' : step s s' → policy_step s s' ∨ policy_tables s' = policy_tables s.
Proof. kept_steps policy_tables. Qed.
Lemma step_decisions s s' : step s s' → discussion_step s s' ∨ plan_step s s' ∨ st_decisions s' = st_decisions s.
Proof. kept_steps st_decisions. Qed.
Lemma step_sessions s s' : step s s' → session_step s s' ∨ st_sessions s' = st_sessions s.
Proof. kept_steps st_sessions. Qed.
Lemma step_evidence_rows s s' : step s s' → evidence_step s s' ∨ st_evidence s' = st_evidence s.
Proof. kept_steps st_evidence. Qed.

(** ** Attempts move forward *)

Lemma issue_step_forward s s' : issue_step s s' → attempts_le s s'.
Proof.
  set (P := attempts_le s). intros Hs.
  assert (Hins : ∀ row : Issue, preserves P (Insert row)) by (intros row; apply forward_keep; intros x; keep).
  assert (Hupd : ∀ id p g, (∀ r, i_ID (g r) = i_ID r) → preserves P (Update (R := Issue) id p g))
    by (intros; apply forward_keep; intros x; keep).
  assert (Hlab : ∀ row : Label, preserves P (Insert row)) by (intros row; apply forward_keep; intros x; keep).
  assert (Hall : ∀ now, preserves P (allocateIssueNumber now)).
  { intros now. apply forward_keep. intros x s2 n s3 Hx (row & _ & _ & ->)%allocateIssueNumber_Ok. exact Hx. }
  assert (HP : P s) by (unfold P; done).
  destruct Hs as [? s2|? s2|? s2|? s2|projectID now s2].
  - by apply (CreateIssue_closed P).
  - by apply (UpdateIssue_closed P).
  - by apply (ArchiveIssue_closed P).
  - by apply (UnarchiveIssue_closed P).
  - destruct (ensureProjectRow_cases projectID now s2) as [->|(_ & _ & ->)]; [done|by apply attempts_le_same].
Qed.

Lemma plan_step_forward s s' : plan_step s s' → attempts_le s s'.
Proof.
  intros [command s2]. apply (ApplyIssuePlan_closed (attempts_le s2)); [..|done].
  4: intros now; apply forward_keep; intros x; by apply keep_allocate.
  all: intros; apply forward_keep; intros x; first [by apply keep_AppendIssueEvent | keep].
Qed.

Lemma evidence_step_forward s s' : evidence_step s s' → attempts_le s s'.
Proof.
  intros [command s2]. apply (SubmitGateEvidence_closed (attempts_le s2)); [| | |done].
  - intros row. apply forward_keep. intros x. keep.
  - intros id version f. apply forward_keep. intros x s3 n s4 Hx [Hu _]%updateEvidence_Ok. revert Hx Hu. by apply keep_Update.
  - intros e t now. apply forward_keep. intros x s3 u s4 Hx [? ->]%appendGateEvidenceEvent_Ok. exact Hx.
Qed.

Lemma step_forward s s' : step s s' → attempts_le s s'.
Proof.
  intros [Hs|Hs|Hs|Hs|Hs|Hs|Hs|Hs|? ->].
  - by apply (work_step_closed (attempts_le s)) in Hs.
  - by apply issue_step_forward.
  - apply (relation_step_kept attempt_tables) in Hs as He; [|blind..]. unfold attempt_tables in He. simplify_eq. by apply attempts_le_same.
  - apply (policy_step_kept attempt_tables) in Hs as He; [|blind..]. unfold attempt_tables in He. simplify_eq. by apply attempts_le_same.
  - by apply evidence_step_forward.
  - apply (discussion_step_kept attempt_tables) in Hs as He; [|blind..]. unfold attempt_tables in He. simplify_eq. by apply attempts_le_same.
  - apply (session_step_kept attempt_tables) in Hs as He; [|blind..]. unfold attempt_tables in He. simplify_eq. by apply attempts_le_same.
  - by apply plan_step_forward.
  - by apply attempts_le_same.
Qed.

Lemma steps_forward s s' : rtc step s s' → attempts_le s s'.
Proof. induction 1 as [|s1 s2 s3 Hs _ IH]; [done|]. etrans; [by apply step_forward|done]. Qed.
End tables.

(** ** The graph of blocks relations *)

Section invariants.
Context `{UnicodeTables, ULID, JSONCodec, URLParser, SnapshotHash, SQLiteDriver, Misused}.

Lemma reachable_acyclic s : reachable s → acyclic s.
Proof.
  apply (reachable_ind_with schema_ok); [apply reachable_schema| |].
  - intros x Hx. apply tc_last in Hx as (z & id & r & Hr & _). cbn in Hr. by rewrite lookup_empty in Hr.
  - intros s1 s2 _ Hok [Hs|[Hs|He]]%step_relations Hac; [..|by eapply acyclic_same]; destruct Hs.
    + by apply ManageIssueRelation_acyclic.
    + by apply ApplyIssuePlan_acyclic.
Qed.

(** ** The audit log *)

Lemma reachable_audited s : reachable s → audited s.
Proof.
  apply (reachable_ind_with schema_ok); [apply reachable_schema| |].
  - intros id. unfold policyLog. cbn. by rewrite lookup_empty.
  - intros s1 s2 _ Hok [Hs|He]%step_policies Ha.
    + destruct Hs; [by apply CreatePolicy_audited|by apply UpdatePolicy_audited|by apply ArchivePolicy_audited].
    + unfold policy_tables in He. simplify_eq. by eapply audited_same.
Qed.

(** ** Decisions *)

Lemma AddComment_decisions command s : st_decisions (AddComment command s).2 = st_decisions s.
Proof.
  pose proof (keeping_log st_decisions (st_decisions s) ltac:(by split)) as Hlog.
  apply (AddComment_closed (keeping st_decisions (st_decisions s))); [| |done].
  - intros row. by apply keep_Insert.
  - intros. by apply keep_AppendIssueEvent.
Qed.

Lemma reachable_chains s : reachable s → chains s.
Proof.
  apply (reachable_ind_with schema_ok); [apply reachable_schema| |].
  - split; [intros x y d Hd; cbn in Hd; by rewrite lookup_empty in Hd|].
    intros x (z & d & Hd & _)%tc_last. cbn in Hd. by rewrite lookup_empty in Hd.
  - intros s1 s2 _ Hok [Hs|[Hs|He]]%step_decisions Hch; [..|by eapply chains_same]; destruct Hs.
    + eapply chains_same; [apply AddComment_decisions|done].
    + by apply RecordDecision_chains.
    + by apply ApplyIssuePlan_chains.
Qed.

(** ** Sessions *)

Lemma session_step_write s s' :
  schema_ok s → sessions_sound s → session_step s s' → sessions_sound s' ∧ sessions_le s s'.
Proof.
  intros Hok Hs Hw. destruct Hw; [by apply CreateAgentSession_write|by apply ResolveAndTouch_write|by apply EndByHandle_write
                    |by apply TouchAgentSession_write|by apply EndAgentSession_write].
Qed.

Lemma reachable_sessions s : reachable s → sessions_sound s.
Proof.
  apply (reachable_ind_with schema_ok); [apply reachable_schema| |].
  - intros id r Hr. cbn in Hr. by rewrite lookup_empty in Hr.
  - intros s1 s2 _ Hok [Hs|He]%step_sessions Hsound; [by apply (session_step_write s1)|]. intros id r. rewrite He. apply Hsound.
Qed.

Lemma reachable_steps s s' : reachable s → rtc step s s' → reachable s'.
Proof. unfold reachable. intros Hr Hs. by etrans. Qed.

Lemma steps_sessions s s' : reachable s → rtc step s s' → sessions_le s s'.
Proof.
  intros Hr Hs. revert Hr. induction Hs as [s|s1 s2 s3 H12 _ IH]; intros Hr; [done|].
  etrans; [|apply IH; by eapply rtc_r]. apply step_sessions in H12 as [Hs|He]; [|by apply sessions_le_same].
  apply (session_step_write s1 s2); [by apply reachable_schema|by apply reachable_sessions|done].
Qed.

(** ** Evidence *)

Lemma evidenceFor_Some attemptID key s e :
  schema_ok s → evidenceFor attemptID key s = Some e →
  st_evidence s !! ev_ID e = Some e ∧ ev_AttemptID e = attemptID ∧ ev_Key e = key.
Proof.
  intros Hok Hf. apply find_some in Hf as [Hin Hb]. apply andb_true_iff in Hb as [Ha%eqb_string_true Hk%eqb_string_true].
  apply list_elem_of_In, (elem_of_rows (R := AttemptEvidence)) in Hin as [id He].
  pose proof (proj1 (ok_evidence _ Hok) id e He) as Hid. cbn in Hid, He. subst id. done.
Qed.

(** One record is written, for the command's attempt and key. *)
Lemma upsertEvidence_Ok command issueID s r s' :
  schema_ok s → upsertEvidence command issueID s = Ok (r, s') →
  ∃ e, st_evidence s' = <[ev_ID e := e]> (st_evidence s) ∧ ev_AttemptID e = ec_AttemptID command ∧
    ev_Key e = ec_Key command ∧ ev_Result e = ec_Result command ∧
    (st_evidence s !! ev_ID e = None ∧ ev_IssueID e = issueID ∨
     ∃ e0, st_evidence s !! ev_ID e = Some e0 ∧ ev_IssueID e = ev_IssueID e0 ∧ ev_AttemptID e0 = ec_AttemptID command ∧
       evidenceFrozen e0 s = false).
Proof.
  intros Hok Hrun. unfold upsertEvidence in Hrun. inv_tx_step Hrun. apply query_Ok in Hstep as [-> ->].
  destruct (evidenceFor _ _ s) as [e0|] eqn:Hf.
  - apply evidenceFor_Some in Hf as (He0 & Ha & Hk); [|done]. inv_tx_step Hrun. inv_tx_step Hrun.
    apply requireSingleRowAffected_Ok in Hstep0 as [-> ->]. apply tx_ret_Ok in Hrun as [_ ->].
    apply updateEvidence_Ok in Hstep as [Hu Hfr]. apply Update_Ok in Hu as [(row & Hrow & _ & _ & _ & ->)|(_ & ? & _)]; [|done].
    cbn in Hrow |- *. assert (row = e0) as -> by congruence.
    exists (replaceEvidence command (ev_Version e0 + 1) e0). split_and!; [done..|]. right. exists e0. split_and!; [done..|].
    by apply Hfr.
  - inv_tx_step Hrun. apply tx_ret_Ok in Hrun as [_ ->]. apply Insert_Ok in Hstep as (Hn & _ & ->).
    eexists. split_and!; [reflexivity|done..|]. by left.
Qed.

(** A submission leaves the evidence alone or writes one record of a live
    attempt, for a key its frozen snapshot asks for. *)
Definition evidence_written (s s' : Store) : Prop :=
  st_evidence s' = st_evidence s ∨
  ∃ e a snapshot, st_evidence s' = <[ev_ID e := e]> (st_evidence s) ∧
    st_attempts s !! ev_AttemptID e = Some a ∧ attemptActive a = true ∧ ar_Kind a = AttemptKindWork ∧
    st_attempt_snapshots s !! ev_AttemptID e = Some snapshot ∧ asked snapshot e ∧
    (st_evidence s !! ev_ID e = None ∧ ev_IssueID e = ar_IssueID a ∨
     ∃ e0, st_evidence s !! ev_ID e = Some e0 ∧ ev_IssueID e = ev_IssueID e0 ∧ ev_AttemptID e0 = ev_AttemptID e ∧
       evidenceFrozen e0 s = false).

Lemma SubmitGateEvidence_evidence command s :
  lifecycle_ok s → evidence_written s (SubmitGateEvidence command s).2.
Proof.
  intros Hl. unfold SubmitGateEvidence. do 2 (case_match; [by left|]).
  apply (Write_post (evidence_written s)); [|by left]. intros r s' [->|Hrun]%replayed_Ok; [by left|]. unfold submitTx in Hrun. cbv zeta in Hrun. inv_tx_step Hrun.
  destruct a as [[issueID kind]|].
  2:{ left. cbn in Hrun. apply tx_ret_Ok in Hrun as [_ ->]. revert Hstep. apply (kept st_evidence). intros x.
      pose proof (keeping_work st_evidence x ltac:(by repeat split)). by apply work_authenticate. }
  apply authenticate_Some in Hstep as (-> & row & Hrow & Ha & _ & _ & Hi & Hk & Hkind). cbn [onLease fst snd] in Hrun.
  inv_tx_step Hrun. apply lift_query_Ok in Hstep as [Hkey ->]. destruct a. apply validateGateEvidenceKey_Ok in Hkey as (snapshot & Hsn & Hask & Hna).
  inv_tx_step Hrun. apply lift_query_Ok in Hstep as [_ ->]. inv_tx_step Hrun.
  apply upsertEvidence_Ok in Hstep as (e & He & Hea & Hek & Her & Hold); [|apply Hl].
  inv_tx_step Hrun. apply lift_query_Ok in Hstep as [_ ->]. inv_tx_step Hrun. apply appendGateEvidenceEvent_Ok in Hstep as [ev ->].
  inv_tx_step Hrun. apply tx_ret_Ok in Hrun as [_ ->]. right. exists e, row, snapshot.
  assert (Hs' : st_evidence s1 = st_evidence s0) by (by apply storeIdempotency_Ok in Hstep as [[_ ->]|(_ & _ & _ & ->)]).
  rewrite Hs', He, Hea. unfold asked. rewrite Hek, Her. subst. split_and!; try done.
Qed.

Lemma evidence_step_written s s' : lifecycle_ok s → evidence_step s s' → evidence_written s s'.
Proof. intros Hl Hs. destruct Hs. by apply SubmitGateEvidence_evidence. Qed.

(** The record was accepted for its attempt, and stays bound as attempts move on. *)
Lemma evidence_bound_mono s s' e : attempts_le s s' → evidence_bound s e → evidence_bound s' e.
Proof.
  intros [Ha Hs _] [(a & Hrow & Hk & Hi) (snapshot & Hsn & Hask)]. split.
  - destruct (Ha _ _ Hrow) as (b & Hb & Hle). exists b. split; [done|]. destruct Hle. by rewrite al_Kind, al_IssueID.
  - exists snapshot. split; [by apply Hs|done].
Qed.

Definition evidence_ok (s : Store) : Prop := ∀ id e, st_evidence s !! id = Some e → evidence_bound s e.

Lemma reachable_evidence s : reachable s → evidence_ok s.
Proof.
  apply (reachable_ind_with lifecycle_ok); [apply reachable_lifecycle| |].
  - intros id e He. cbn in He. by rewrite lookup_empty in He.
  - intros s1 s2 _ Hl Hstep Hok id e He. pose proof (step_forward _ _ Hstep) as Hle.
    assert (Hold : ∀ i e', st_evidence s1 !! i = Some e' → evidence_bound s2 e') by (intros; by eapply evidence_bound_mono, Hok).
    apply step_evidence_rows in Hstep as [Hstep|Hsame]; [|rewrite Hsame in He; by eapply Hold].
    destruct (evidence_step_written _ _ Hl Hstep) as [Hsame|(e1 & a & snapshot & Hw & Ha & _ & Hk & Hsn & Hask & Hnew)].
    { rewrite Hsame in He. by eapply Hold. }
    rewrite Hw in He. apply lookup_insert_Some in He as [[_ <-]|[_ He]]; [|by eapply Hold].
    apply (evidence_bound_mono s1); [done|]. split; [|by exists snapshot]. exists a. split_and!; [done|done|].
    destruct Hnew as [[_ ->]|(e0 & He0 & -> & Hea & _)]; [done|].
    destruct (Hok _ _ He0) as [(a0 & Ha0 & _ & <-) _]. rewrite Hea in Ha0. congruence.
Qed.

Lemma steps_evidence_final s s' id e a :
  reachable s → rtc step s s' → st_evidence s !! id = Some e →
  st_attempts s !! ev_AttemptID e = Some a → attemptActive a = false → st_evidence s' !! id = Some e.
Proof.
  intros Hr Hs. revert Hr a. induction Hs as [s|s1 s2 s3 Hstep _ IH]; intros Hr a He Ha Hn; [done|].
  assert (Hr2 : reachable s2) by by eapply rtc_r. pose proof (step_forward _ _ Hstep) as Hle.
  destruct (sl_attempts _ _ Hle _ _ Ha) as (b & Hb & Hab).
  apply IH with (a := b); [done| |done|destruct (al_ended _ _ Hab Hn) as (Hst & _); unfold attemptActive in *; by rewrite Hst].
  apply step_evidence_rows in Hstep as [Hstep| ->]; [|done]. pose proof (reachable_lifecycle s1 Hr) as Hl.
  destruct (evidence_step_written _ _ Hl Hstep) as [->|(e1 & a1 & sn & Hw & Ha1 & Hact & _ & _ & _ & Hnew)]; [done|].
  rewrite Hw. assert (Hid : id = ev_ID e) by (symmetry; exact (proj1 (ok_evidence _ (lc_schema _ _ _ Hl)) _ _ He)). subst id.
  rewrite lookup_insert_ne; [done|]. intros Heq. rewrite Heq in Hnew. destruct Hnew as [[Hnone _]|(e0 & He0 & _ & Hea & _)]; [congruence|].
  assert (e0 = e) as -> by congruence. rewrite Hea in Ha. congruence.
Qed.
End invariants.

(** ** A run *)

Definition act {A} (op : Store → result A * Store) (s : Store) : Store := (op s).2.

(** Issue 1 blocks issue 2. *)
Definition relate (c source target : string) : ManageIssueRelationCommand :=
  mkRelationCommand RelationActionAdd (internalIdentifier source) (internalIdentifier target) RelationTypeBlocks
    (ulid_of c) (T0 + 20) "" "".
(** A policy that asks for the evidence "tests" of every task, replaced and archived. *)
Definition testsPolicy : WorkflowPolicyInput :=
  mkPolicyInput (mkSelector [TypeTask] [])
    [mkRequirementInput "tests" RequirementKindAttemptEvidence "" "tests" "" true].
Definition policyCreate : CreateWorkflowPolicyCommand := mkCreatePolicy (ulid_of "W") testsPolicy None T0 "" "".
Definition policyUpdate : UpdateWorkflowPolicyCommand := mkUpdatePolicy (ulid_of "W") 1 testsPolicy None (T0 + 21) "" "".
Definition policyArchive : ArchiveWorkflowPolicyCommand := mkArchivePolicy (ulid_of "W") 2 None (T0 + 22) "" "".
(** Evidence for the work attempt, which then fails. *)
Definition submitTests : SubmitGateEvidenceCommand :=
  mkEvidenceCommand (ulid_of "E") (ulid_of "A") (hash32 "a") "tests" EvidenceResultSatisfied "all green" "" [] (T0 + 4) "" "".
Definition failAttempt : FinishAttemptCommand :=
  mkFinishCommand (ulid_of "A") None (hash32 "a")
    (mkFinish (ulid_of "A") "token-a" None AttemptOutcomeFailed "broken" [] [] None None None (Some "tests_failed") None
       None None [] None) [] "" "" (T0 + 10).
(** Two decisions, the second in place of the first. *)
Definition decide1 : RecordDecisionCommand :=
  mkDecisionCommand (ulid_of "1") (mkRecordDecision None "Storage" "Use SQLite" "" "" None None) (T0 + 23).
Definition decide2 : RecordDecisionCommand :=
  mkDecisionCommand (ulid_of "2") (mkRecordDecision None "Storage" "Use SQLite in WAL mode" "" "" (Some (ulid_of "1")) None) (T0 + 24).
(** A session. *)
Definition session1 : AgentSession := mkSession (ulid_of "S") "agent" None None None None T0 T0 None.
Definition sessionCreate : CreateAgentSessionCommand := mkCreateSession session1 (Sum256 "secret").
Definition sessionEnd : HandleCommand := mkHandleCommand "secret" (T0 + 25).

Definition recordsIssues : Store := act (CreatePolicy policyCreate) stageIssues.
Definition recordsClaimed : Store := act (ClaimIssue claim1) recordsIssues.
Definition recordsEvidence : Store := act (SubmitGateEvidence submitTests) recordsClaimed.
Definition recordsFailed : Store := act (FinishAttempt failAttempt) recordsEvidence.
Definition recordsRelated : Store := act (ManageIssueRelation (relate "J" (ulid_of "1") (ulid_of "2"))) recordsFailed.
Definition recordsPolicy : Store := act (ArchivePolicy policyArchive) (act (UpdatePolicy policyUpdate) recordsRelated).
Definition recordsDecided : Store := act (RecordDecision decide2) (act (RecordDecision decide1) recordsPolicy).
Definition recordsSession : Store := act (CreateAgentSession sessionCreate) recordsDecided.
Definition recordsEnd : Store := act (EndAgentSessionByHandle sessionEnd) recordsSession.

Example records_run :
  map (λ e, (pe_Type e, pe_PriorVersion e, pe_NewVersion e)) (st_policy_events recordsEnd) =
    [("policy_created", None, 1%Z); ("policy_updated", Some 1%Z, 2%Z); ("policy_archived", Some 2%Z, 3%Z)] ∧
  map (λ e, (ev_Key e, ev_Result e, ev_Version e)) (rows recordsEnd : list AttemptEvidence) =
    [("tests", EvidenceResultSatisfied, 1%Z)] ∧
  map (λ d, (dc_Summary d, dc_Status d)) (select (λ _ : Decision, true) recordsEnd) =
    [("Use SQLite", DecisionStatusSuperseded); ("Use SQLite in WAL mode", DecisionStatusActive)] ∧
  map (λ r, as_EndedAt (sr_Session r)) (rows recordsEnd : list SessionRow) = [Some (T0 + 25)%Z] ∧
  option_map ar_Status (st_attempts recordsEnd !! ulid_of "A") = Some AttemptStatusFailed ∧
  (∃ e, (ManageIssueRelation (relate "M" (ulid_of "2") (ulid_of "1")) recordsRelated).1 = Err e ∧
        e_Code e = CodeBlocksCycle).
Proof.
  split_and!; [vm_compute; reflexivity..|]. eexists. split; vm_compute; reflexivity.
Qed.

(** The run is reachable. *)
Lemma reach s s' : reachable s → step s s' → reachable s'.
Proof. intros. by eapply rtc_r. Qed.

Lemma recordsIssues_reachable : reachable recordsIssues.
Proof. exact (reach _ _ stageIssues_reachable (step_policy _ _ (step_policy_create _ _))). Qed.
Lemma recordsClaimed_reachable : reachable recordsClaimed.
Proof. exact (reach _ _ recordsIssues_reachable (step_work _ _ (step_claim _ _))). Qed.
Lemma recordsEvidence_reachable : reachable recordsEvidence.
Proof. exact (reach _ _ recordsClaimed_reachable (step_submit _ _ (step_evidence _ _))). Qed.
Lemma recordsFailed_reachable : reachable recordsFailed.
Proof. exact (reach _ _ recordsEvidence_reachable (step_work _ _ (step_finish _ _))). Qed.
Lemma recordsRelated_reachable : reachable recordsRelated.
Proof. exact (reach _ _ recordsFailed_reachable (step_related _ _ (step_relation _ _))). Qed.
Lemma recordsUpdated_reachable : reachable (act (UpdatePolicy policyUpdate) recordsRelated).
Proof. exact (reach _ _ recordsRelated_reachable (step_policy _ _ (step_policy_update _ _))). Qed.
Lemma recordsPolicy_reachable : reachable recordsPolicy.
Proof. exact (reach _ _ recordsUpdated_reachable (step_policy _ _ (step_policy_archive _ _))). Qed.
Lemma recordsFirst_reachable : reachable (act (RecordDecision decide1) recordsPolicy).
Proof. exact (reach _ _ recordsPolicy_reachable (step_discussion _ _ (step_decision _ _))). Qed.
Lemma recordsDecided_reachable : reachable recordsDecided.
Proof. exact (reach _ _ recordsFirst_reachable (step_discussion _ _ (step_decision _ _))). Qed.
Lemma recordsSession_reachable : reachable recordsSession.
Proof. exact (reach _ _ recordsDecided_reachable (step_session _ _ (step_session_create _ _))). Qed.
Lemma records_session_end : rtc step recordsSession recordsEnd.
Proof. exact (rtc_once _ _ (step_session _ _ (step_session_end_handle _ _))). Qed.

(** ** The guarantees *)

(** C11. Whatever clients do, no chain of blocks relations leads back to the
    issue it started from: the recursive query an addition makes refuses
    exactly the relations that would close a cycle, and nothing else writes
    relations. *)
Theorem relations_acyclic `{UnicodeTables, ULID, JSONCodec, URLParser, SnapshotHash, SQLiteDriver, Misused} s x :
  reachable s → ¬ tc (blocks s) x x.
Proof. intros Hr. by apply reachable_acyclic. Qed.

Example relations_acyclic_witness :
  blocks recordsRelated (ulid_of "1") (ulid_of "2") ∧ ¬ tc (blocks recordsRelated) (ulid_of "1") (ulid_of "1").
Proof.
  split; [|by apply (relations_acyclic recordsRelated (ulid_of "1")), recordsRelated_reachable].
  exists (ulid_of "J"). eexists. split_and!; vm_compute; reflexivity.
Defined.

(** C12. The audit log of a policy is complete.  Its events count its versions
    one by one from its creation, each names the version before it, nothing
    follows an archiving, and the last one carries the policy as it is stored:
    its payload encodes that policy, and it is of its version and update. *)
Theorem policies_audited `{UnicodeTables, ULID, JSONCodec, URLParser, SnapshotHash, SQLiteDriver, Misused} s id p :
  reachable s → st_policies s !! id = Some p →
  history (policyLog id s) p ∧ Z.of_nat (length (policyLog id s)) = wp_Version p ∧
  ∃ e, last (policyLog id s) = Some e ∧ records_policy e p.
Proof.
  intros Hr Hp. pose proof (reachable_audited s Hr id) as Ha. rewrite Hp in Ha.
  split_and!; [done|by apply history_length|by apply history_last].
Qed.

Definition archivedPolicy : WorkflowPolicy :=
  mkPolicy (ulid_of "W") (mkSelector [TypeTask] []) PolicyStatusArchived 3
    [mkRequirement (ulid_of "W") "tests" RequirementKindAttemptEvidence "" "tests" "" true] T0 (T0 + 22).
Example policies_audited_witness :
  history (policyLog (ulid_of "W") recordsPolicy) archivedPolicy ∧
  Z.of_nat (length (policyLog (ulid_of "W") recordsPolicy)) = wp_Version archivedPolicy ∧
  ∃ e, last (policyLog (ulid_of "W") recordsPolicy) = Some e ∧ records_policy e archivedPolicy.
Proof.
  apply (policies_audited recordsPolicy (ulid_of "W") archivedPolicy recordsPolicy_reachable). vm_compute. reflexivity.
Defined.

(** C33. Supersession forms chains.  A decision that supersedes another finds it
    marked superseded, in the same scope; no two decisions supersede the same
    one; and following supersession never returns to the start. *)
Theorem decisions_chained `{UnicodeTables, ULID, JSONCodec, URLParser, SnapshotHash, SQLiteDriver, Misused} s x y d :
  reachable s → st_decisions s !! x = Some d → dc_SupersedesID d = Some y →
  (∃ p, st_decisions s !! y = Some p ∧ dc_Status p = DecisionStatusSuperseded ∧ dc_IssueID p = dc_IssueID d) ∧
  (∀ z, supersedes s z y → z = x) ∧ ¬ tc (supersedes s) x x.
Proof.
  intros Hr Hd Hy. pose proof (reachable_chains s Hr) as [Hsup Hac]. split_and!; [by eapply Hsup| |apply Hac].
  intros z Hz. apply (supersedes_unique s z x y); [by apply reachable_schema|done|by exists d].
Qed.

Definition decision2 : Decision :=
  mkDecision (ulid_of "2") None "Storage" "Use SQLite in WAL mode" "" DecisionStatusActive (Some (ulid_of "1")) None (T0 + 24).
Example decisions_chained_witness :
  (∃ p, st_decisions recordsDecided !! ulid_of "1" = Some p ∧ dc_Status p = DecisionStatusSuperseded ∧
     dc_IssueID p = dc_IssueID decision2) ∧
  (∀ z, supersedes recordsDecided z (ulid_of "1") → z = ulid_of "2") ∧
  ¬ tc (supersedes recordsDecided) (ulid_of "2") (ulid_of "2").
Proof.
  by apply (decisions_chained recordsDecided (ulid_of "2") (ulid_of "1") decision2 recordsDecided_reachable); vm_compute.
Defined.

(** C34. Sessions only move on.  Every stored session reads back unchanged
    through the validation of stored rows, and from any state to any later one
    a session keeps its identity, its metadata and its handle, its time of last
    sight does not go back, and once ended it never changes. *)
Theorem sessions_move_on `{UnicodeTables, ULID, JSONCodec, URLParser, SnapshotHash, SQLiteDriver, Misused} s s' id r :
  reachable s → rtc step s s' → st_sessions s !! id = Some r →
  loadAgentSession id s = Ok (sr_Session r) ∧ ∃ r', st_sessions s' !! id = Some r' ∧ session_le r r'.
Proof.
  intros Hr Hs Hi. split; [|by apply (steps_sessions s s')].
  unfold loadAgentSession. rewrite Hi. by apply (reachable_sessions s Hr id).
Qed.

Definition sessionRow1 : SessionRow := mkSessionRow session1 (Some (Sum256 "secret")).
Example sessions_move_on_witness :
  loadAgentSession (ulid_of "S") recordsSession = Ok session1 ∧
  ∃ r', st_sessions recordsEnd !! ulid_of "S" = Some r' ∧ session_le sessionRow1 r'.
Proof.
  apply (sessions_move_on recordsSession recordsEnd (ulid_of "S") sessionRow1 recordsSession_reachable records_session_end).
  vm_compute. reflexivity.
Defined.

(** A handle stays good.  The session that was created with the hash of a
    handle is the one the handle resolves to, in every later state, although
    the store never holds the handle itself. *)
Theorem handles_resolve `{UnicodeTables, ULID, JSONCodec, URLParser, SnapshotHash, SQLiteDriver, Misused}
    s s1 s2 session handle v :
  reachable s → validateHandleString handle = Ok tt →
  CreateAgentSession (mkCreateSession session (Sum256 handle)) s = (Ok v, s1) → rtc step s1 s2 →
  ResolveAgentSessionHandle handle s2 = Ok (as_ID session).
Proof.
  intros Hr Hv Hc Hs. assert (Hr1 : reachable s1).
  { eapply rtc_r; [exact Hr|]. replace s1 with (CreateAgentSession (mkCreateSession session (Sum256 handle)) s).2 by (by rewrite Hc).
    apply step_session. constructor. }
  apply CreateAgentSession_stored in Hc as (Hid & _ & Hrow). pose proof (reachable_steps _ _ Hr1 Hs) as Hr2.
  destruct (steps_sessions s1 s2 Hr1 Hs (as_ID v) (mkSessionRow v (Some (Sum256 handle)))) as (r' & Hr' & Hle).
  { rewrite Hrow. by rewrite lookup_insert_eq. }
  rewrite <-Hid. apply (resolve_held s2 handle (as_ID v) r'); [by apply reachable_schema|by apply reachable_sessions|done| |done].
  by rewrite (le_handle _ _ Hle).
Qed.

Example handles_resolve_witness : ResolveAgentSessionHandle "secret" recordsEnd = Ok (as_ID session1).
Proof.
  apply (handles_resolve recordsDecided recordsSession recordsEnd session1 "secret" session1 recordsDecided_reachable);
    [vm_compute; reflexivity|vm_compute; reflexivity|apply records_session_end].
Defined.

(** C10. Evidence can be trusted.  Every record belongs to a work attempt, to
    its issue, and to a key its frozen requirements ask for, with an answer
    they allow; and once the attempt has ended, no later operation changes the
    record. *)
Theorem evidence_trustworthy `{UnicodeTables, ULID, JSONCodec, URLParser, SnapshotHash, SQLiteDriver, Misused} s id e :
  reachable s → st_evidence s !! id = Some e →
  evidence_bound s e ∧
  ∀ a s', st_attempts s !! ev_AttemptID e = Some a → attemptActive a = false → rtc step s s' →
    st_evidence s' !! id = Some e.
Proof.
  intros Hr He. split; [by apply (reachable_evidence s Hr id)|]. intros a s' Ha Hn Hs.
  by apply (steps_evidence_final s s' id e a).
Qed.

Definition evidence1 : AttemptEvidence :=
  mkAttemptEvidence (ulid_of "E") (ulid_of "A") (ulid_of "1") "tests" EvidenceResultSatisfied "all green" "" [] 1 (T0 + 4) (T0 + 4).
Example evidence_trustworthy_witness :
  evidence_bound recordsFailed evidence1 ∧
  ∀ a s', st_attempts recordsFailed !! ev_AttemptID evidence1 = Some a → attemptActive a = false → rtc step recordsFailed s' →
    st_evidence s' !! ulid_of "E" = Some evidence1.
Proof.
  apply (evidence_trustworthy recordsFailed (ulid_of "E") evidence1 recordsFailed_reachable). vm_compute. reflexivity.
Defined.

(** C16. Relations.  A request without an idempotency key that succeeds names
    two different issues that are not archived; afterwards the relation of its
    type between their canonical endpoints is present when it asked to add it
    and absent when it asked to remove it, and every other relation is as it
    was.  The answer says whether anything changed, and when it says no,
    nothing was written: no row and no event. *)
Theorem ManageIssueRelation_effect `{UnicodeTables, ULID, JSONCodec, URLParser, SnapshotHash, SQLiteDriver, Misused} command s r s' :
  reachable s → mc_IdempotencyKey command = "" → ManageIssueRelation command s = (Ok r, s') →
  ∃ source target,
    loadIssueForMutation (mc_SourceIdentifier command) s = Ok (source, s) ∧
    loadIssueForMutation (mc_TargetIdentifier command) s = Ok (target, s) ∧
    i_ArchivedAt source = None ∧ i_ArchivedAt target = None ∧ i_ID source ≠ i_ID target ∧
    let '(a, b) := CanonicalRelationEndpoints (mc_RelationType command) (i_ID source) (i_ID target) in
    let t := mc_RelationType command in
    sameRelation a b t (mx_Relation r) = true ∧
    (related s' a b t ↔ mc_Action command = RelationActionAdd) ∧
    (∀ a' b' t', sameRelation a' b' t' (mx_Relation r) = false → related s' a' b' t' ↔ related s a' b' t') ∧
    (mx_Changed r = true ↔ ¬ (related s a b t ↔ related s' a b t)) ∧ (mx_Changed r = false → s' = s).
Proof.
  intros Hr Hkey Hrun. unfold ManageIssueRelation in Hrun.
  repeat match type of Hrun with (if ?b then _ else _) = _ => destruct b; [done|] end.
  match type of Hrun with Write ?m s = _ => destruct (Write_spec m s) as [(e & _ & Hw)|(r' & s1 & Hm & Hw)] end; [congruence|].
  rewrite Hw in Hrun. injection Hrun as -> ->. unfold replayed, lookupIdempotency in Hm. rewrite Hkey in Hm.
  apply (manageTx_effect command s r s'); [by apply reachable_schema|done|exact Hm].
Qed.

(** [related_to] is symmetric: asked for from issue 2 to issue 1, it is kept
    from 1 to 2. *)
Definition relateBack : ManageIssueRelationCommand :=
  mkRelationCommand RelationActionAdd (internalIdentifier (ulid_of "2")) (internalIdentifier (ulid_of "1"))
    RelationTypeRelatedTo (ulid_of "M") (T0 + 20) "" "".
Definition relatedResult : ManageIssueRelationResult :=
  match (ManageIssueRelation relateBack recordsRelated).1 with
  | Ok r => r
  | Err _ => mkRelationResult (mkRelation "" "" "" "" 0) [] false
  end.
Example ManageIssueRelation_effect_witness :
  related (act (ManageIssueRelation relateBack) recordsRelated) (ulid_of "1") (ulid_of "2") RelationTypeRelatedTo.
Proof.
  destruct (ManageIssueRelation_effect relateBack recordsRelated relatedResult (act (ManageIssueRelation relateBack) recordsRelated)
    recordsRelated_reachable) as (source & target & Hs & Ht & _ & _ & _ & Heff); [done|vm_compute; reflexivity|].
  assert (i_ID source = ulid_of "2") as Hsrc by (vm_compute in Hs; by injection Hs as <-).
  assert (i_ID target = ulid_of "1") as Htgt by (vm_compute in Ht; by injection Ht as <-).
  rewrite Hsrc, Htgt in Heff. destruct Heff as (_ & Hadd & _). by apply Hadd.
Defined.

(** C36. Two programs for one question.  The recursive SQL query that guards a
    new blocks relation and the breadth-first search [BlocksPathExists] that
    guards a batch give the same answer on every store: whether a path of at
    least one blocks relation leads from the start to the sought issue. *)
Theorem blocks_query_is_search s start sought :
  BlocksPathExists (S (size (st_relations s))) start sought (blocksTargets s) = Some (blocksPathExists start sought s) ∧
  (blocksPathExists start sought s = true ↔ tc (blocks s) start sought).
Proof. split; [apply blocksPathExists_search|apply blocksPathExists_spec]. Qed.
