(* ===== verification/Board.v ===== *)
(** * The board

    What every interleaving guarantees about the issues as a whole: a live
    issue with a parent sits under a live epic, epics sit under nothing, issue
    numbers are given out once and shown as [ISSUE-n]. *)

From S2P Require Import Prelude GoStrings Errors Validation Samples Issue Relation Session IssueOps.
From S2P Require Import Discussion Resource Attempt AttemptPolicy Gates Store Schema ReservationStore.
From S2P Require Import GateStore ReviewStore Termination ReviewOps AttemptStore Footprint.
From S2P Require Import RelationStore IssueStore PolicyStore EvidenceStore DiscussionStore SessionStore.
From S2P Require Import Plan PlanStore PlanCheck PlanApply Place Lifecycle Scenario Records.

Section steps.
Context `{UnicodeTables, ULID, JSONCodec, URLParser, SnapshotHash, SQLiteDriver, Misused}.

(** ** Every step *)

Lemma emptyStore_board : board_ok emptyStore.
Proof.
  assert (He : place emptyStore = ∅) by apply fmap_empty.
  split; rewrite He; [|done|]; intros id ? ; intros; by simplify_map_eq.
Qed.

Lemma issue_step_board s s' : lifecycle_ok s → issue_step s s' → board_ok s → board_move s s'.
Proof.
  intros Hl Hs Hb. destruct Hs as [? s|? s|? s|? s|projectID now s].
  - apply CreateIssue_board; [apply Hl|done].
  - by apply UpdateIssue_board.
  - by apply ArchiveIssue_board.
  - by apply UnarchiveIssue_board.
  - destruct (ensureProjectRow_cases projectID now s) as [->|(Hn & _ & ->)]; [by apply board_move_refl|]. destruct Hb as [Hh Hnum Hids].
    rewrite Hn in Hnum. split; [|apply board_le_same; [done|]; unfold nextNumber; by rewrite Hn].
    split; [done| |done]. cbn. split; [done|]. change (numbered_below 1 (place s)). rewrite Hnum.
    intros id ? ?; by simplify_map_eq.
Qed.

Lemma step_board s s' : step s s' → issue_step s s' ∨ plan_step s s' ∨ board s' = board s.
Proof.
  intros [Hs|?|Hs|Hs|Hs|Hs|Hs|?|? ->]; [right; right|by left|right; right..|by right; left|by right; right].
  - exact (work_step_closed (keeping board (board s)) s s' Hs eq_refl).
  - by apply (relation_step_kept board) in Hs; [|blind..].
  - by apply (policy_step_kept board) in Hs; [|blind..].
  - destruct Hs as [command s2]. apply (SubmitGateEvidence_closed (keeping board (board s2))); [| | |done].
    + intros row. by apply keep_Insert.
    + intros id version f s3 n s4 Hx [Hu _]%updateEvidence_Ok. revert Hx Hu. by apply keep_Update.
    + intros e t now s3 u s4 Hx [ev ->]%appendGateEvidenceEvent_Ok. exact Hx.
  - by apply (discussion_step_kept board) in Hs; [|blind..].
  - by apply (session_step_kept board) in Hs; [|blind..].
Qed.

Lemma step_board_move s s' : reachable s → board_ok s → step s s' → board_move s s'.
Proof.
  intros Hr Hb Hs. apply step_board in Hs as [Hs|[Hs|He]].
  - apply issue_step_board; [by apply reachable_lifecycle|done..].
  - destruct Hs as [command s]. apply ApplyIssuePlan_board; [by apply reachable_schema|by apply reachable_acyclic|done].
  - injection He as Hp Hq.
    split; [by eapply board_ok_same|]. apply board_le_same; [done|]. unfold nextNumber. by rewrite Hq.
Qed.

Lemma reachable_board s : reachable s → board_ok s.
Proof.
  apply (reachable_ind_with (λ _, True)); [done|apply emptyStore_board|].
  intros s1 s2 Hr _ Hs Hb. by apply (step_board_move s1 s2).
Qed.

Lemma steps_board s s' : reachable s → rtc step s s' → board_le s s'.
Proof.
  intros Hr Hs. revert Hr. induction Hs as [s|s1 s2 s3 H12 _ IH]; intros Hr; [reflexivity|].
  etrans; [|apply IH; by eapply rtc_r].
  by apply (step_board_move s1 s2); [|apply reachable_board|].
Qed.
End steps.

(** ** Theorems *)

(** An issue of a reachable store has a number below the next one. *)
Lemma issue_number `{UnicodeTables, ULID, JSONCodec, URLParser, SnapshotHash, SQLiteDriver, Misused} s id i :
  reachable s → st_issues s !! id = Some i →
  (1 <= i_SequenceNo i < nextNumber s)%Z ∧ i_DisplayID i = "ISSUE-" +:+ Itoa (i_SequenceNo i).
Proof.
  intros Hr Hi. destruct (reachable_board s Hr) as [_ Hn _].
  assert (Hpl : place s !! id = Some (place_of i)) by (apply place_Some; by exists i).
  unfold nextNumber. destruct (st_project s) as [row|]; [|by rewrite Hn, lookup_empty in Hpl].
  by apply (proj2 Hn id (place_of i)).
Qed.

(** C7. The board is sound in every state clients can reach.  Every issue is
    stored under its own identifier, a canonical ULID, and is found by it and by
    its display identifier ISSUE-n; n is its own among all issues and below the
    number the next issue will get.  An epic has no parent, no issue is its own
    parent, and the parent of an issue that is not archived is an epic that is
    not archived. *)
Theorem board_sound `{UnicodeTables, ULIDLaws, JSONCodec, URLParser, SnapshotHash, SQLiteDriver, Misused} s id i :
  reachable s → st_issues s !! id = Some i →
  (i_ID i = id ∧ ids_ParseStrict id = true ∧ GetIssue (internalIdentifier id) s = Ok i) ∧
  (1 <= i_SequenceNo i < nextNumber s)%Z ∧ i_DisplayID i = "ISSUE-" +:+ Itoa (i_SequenceNo i) ∧
  ((i_SequenceNo i < 2 ^ 63)%Z →
     ∃ identifier, ParseIssueIdentifier (i_DisplayID i) = Ok identifier ∧ GetIssue identifier s = Ok i) ∧
  (∀ j other, st_issues s !! j = Some other → i_SequenceNo other = i_SequenceNo i → j = id) ∧
  (∀ p, i_ParentID i = Some p → i_Type i ≠ TypeEpic ∧ p ≠ id ∧
     (i_ArchivedAt i = None → ∃ e, st_issues s !! p = Some e ∧ i_Type e = TypeEpic ∧ i_ArchivedAt e = None)).
Proof.
  intros Hr Hi. pose proof (reachable_schema s Hr) as Hok. destruct (reachable_board s Hr) as [Hh _ Hids].
  assert (Hpl : place s !! id = Some (place_of i)) by (apply place_Some; by exists i).
  assert (Hid : i_ID i = id) by exact (proj1 (ok_issues _ Hok) _ _ Hi).
  destruct (issue_number s id i Hr Hi) as [Hnum Hdis].
  split_and!; [done|by eapply Hids|unfold GetIssue; cbn; by rewrite Hi|lia|lia|done|..].
  - intros Hmax. eexists. split; [rewrite Hdis; apply ParseIssueIdentifier_display; lia|].
    unfold GetIssue. rewrite <-Hdis. by rewrite (findIssue_display s id).
  - intros j other Hj He. by eapply sequence_unique.
  - intros p Hp. rewrite <-Hid in Hi. destruct (parent_present s i p Hok Hi Hp) as (_ & Hne & Ht).
    split_and!; [done|by rewrite <-Hid|]. intros Ha.
    destruct (Hh id _ p Hpl Ha Hp) as (pl & (e & He & <-)%place_Some & ? & ?). by exists e.
Qed.

(** C13. Issue numbers are given out once.  Whatever clients do, an issue is
    never deleted and keeps its number and its display identifier, and an issue
    created later gets a number above those of all the issues there were, so a
    reference ISSUE-n means the same issue for ever. *)
Theorem numbers_given_once `{UnicodeTables, ULID, JSONCodec, URLParser, SnapshotHash, SQLiteDriver, Misused} s s' :
  reachable s → rtc step s s' →
  (∀ id i, st_issues s !! id = Some i → ∃ i', st_issues s' !! id = Some i' ∧
     i_SequenceNo i' = i_SequenceNo i ∧ i_DisplayID i' = i_DisplayID i) ∧
  (∀ id i' other i, st_issues s !! id = None → st_issues s' !! id = Some i' →
     st_issues s !! other = Some i → (i_SequenceNo i < i_SequenceNo i')%Z).
Proof.
  intros Hr Hs. destruct (steps_board s s' Hr Hs) as [Hk Hf _]. pose proof (reachable_board s Hr) as [_ Hn _]. split.
  - intros id i Hi. destruct (Hk id (place_of i)) as (pl & (i' & Hi' & <-)%place_Some & ? & ?); [apply place_Some; by exists i|].
    by exists i'.
  - intros id i' other i Hnone Hi' Hi.
    assert (Hle : (nextNumber s <= i_SequenceNo i')%Z).
    { apply (Hf id (place_of i')); [by rewrite place_lookup, Hnone|apply place_Some; by exists i']. }
    assert (Hpl : place s !! other = Some (place_of i)) by (apply place_Some; by exists i).
    unfold nextNumber in Hle. destruct (st_project s); [|by rewrite Hn, lookup_empty in Hpl].
    destruct Hn as [_ Hn]. destruct (Hn _ _ Hpl) as [Hnum _]. cbn in Hnum. lia.
Qed.

(** C14. Creating an issue.  A creation that is not a replay stores exactly one
    new issue, under the requested identifier and the next number of the
    project: the validated input, version 1, under the live epic its parent
    reference names, with the stored labels its names resolve to.  Reading it
    back gives what the creation answered, with the labels in the order of the
    query, and every other issue is as it was. *)
Theorem CreateIssue_stores `{UnicodeTables, ULID, JSONCodec, URLParser, SnapshotHash, SQLiteDriver, Misused} command s issue s' :
  reachable s →
  lookupIdempotency createIssueOperation (ic_IdempotencyKey command) (ic_RequestHash command) s = Ok (None, s) →
  CreateIssue command s = (Ok issue, s') →
  ∃ input parent labels,
    let stored := setLabels (stable_sort labelLess labels) issue in
    CreateIssueInput_Validate (ic_Input command) = Ok input ∧ st_issues s !! ic_ID command = None ∧
    issue = setLabels labels (createdIssue (ic_ID command) input (nextNumber s) parent (ic_CreatedAt command)) ∧
    match parent with
    | Some p => ∃ e, st_issues s !! p = Some e ∧ i_Type e = TypeEpic ∧ i_ArchivedAt e = None
    | None => ci_ParentID input = None
    end ∧
    Forall2 (label_named s') (ci_Labels input) labels ∧
    st_issues s' = <[ic_ID command := stored]> (st_issues s) ∧ nextNumber s' = (nextNumber s + 1)%Z ∧
    GetIssue (internalIdentifier (ic_ID command)) s' = Ok stored.
Proof.
  intros Hr Hl Hrun. pose proof (reachable_schema s Hr) as Hok. unfold CreateIssue in Hrun.
  destruct (CreateIssueInput_Validate _) as [input|] eqn:Hv; [|done]. destruct (negb _); [done|].
  match type of Hrun with Write ?m s = _ => destruct (Write_spec m s) as [(e & _ & Hw)|(r' & s1 & Hm & Hw)] end; [congruence|].
  rewrite Hw in Hrun. injection Hrun as -> ->. unfold replayed in Hm. inv_tx_step Hm. rewrite Hl in Hstep. injection Hstep as <- <-.
  apply createTx_Ok in Hm as (row & parent & labels & Hres & Hrow & Hnew & Hpar & Hlab & Hi & Hp); [|done].
  injection Hres as ->. exists input, parent, labels. cbv zeta. unfold nextNumber. rewrite Hp, Hrow. cbn [pj_NextIssueNumber].
  split_and!; [done|done|done| |done|exact Hi|done|unfold GetIssue; cbn; by rewrite Hi, lookup_insert_eq].
  apply validateParent_Ok in Hpar; [|done]. destruct parent; [|done]. destruct Hpar as (pl & (e & He & <-)%place_Some & ? & ?).
  by exists e.
Qed.

(** *** A board with an epic, a task under it and two labels *)

Definition createEpic : CreateIssueCommand :=
  mkCreateCommand (ulid_of "5") (mkCreate TypeEpic "epic" None None StatusOpen "" None None [] false None) [] T0 "" "".
Definition createChild : CreateIssueCommand :=
  mkCreateCommand (ulid_of "6")
    (mkCreate TypeTask "child" None None StatusReady "" (Some (ulid_of "5")) None [" Zeta"; "alpha"] true None)
    [ulid_of "7"; ulid_of "8"] T0 "child-1" (hash32 "c").
Definition boardEpic : Store := act (CreateIssue createEpic) stageIssues.
Definition boardChild : Store := act (CreateIssue createChild) boardEpic.
Definition childIssue : Issue :=
  match (CreateIssue createChild boardEpic).1 with Ok issue => issue | Err _ => issue1 end.

Lemma boardEpic_reachable : reachable boardEpic.
Proof. exact (reach _ _ stageIssues_reachable (step_issue _ _ (step_create _ _))). Qed.
Lemma boardChild_reachable : reachable boardChild.
Proof. exact (reach _ _ boardEpic_reachable (step_issue _ _ (step_create _ _))). Qed.

(** An epic with a live child is not archived, and the child is not its own. *)
Example board_refusals :
  (ArchiveIssue (mkArchiveCommand (internalIdentifier (ulid_of "5")) 1 (T0 + 1) "" "") boardChild).1 =
    Err (epicHasChildrenError "id") ∧
  option_map l_Name (st_labels boardChild !! ulid_of "8") = Some "Zeta" ∧
  i_DisplayID childIssue = "ISSUE-4" ∧ i_ParentID childIssue = Some (ulid_of "5").
Proof. split_and!; by vm_compute. Qed.

Lemma board_sound_witness :
  st_issues boardChild !! ulid_of "6" = Some childIssue ∧
  ∃ e, st_issues boardChild !! ulid_of "5" = Some e ∧ i_Type e = TypeEpic ∧ i_ArchivedAt e = None.
Proof.
  split; [by vm_compute|].
  destruct (board_sound boardChild (ulid_of "6") childIssue boardChild_reachable ltac:(by vm_compute))
    as (_ & _ & _ & _ & _ & Hpar).
  destruct (Hpar (ulid_of "5") ltac:(by vm_compute)) as (_ & _ & He). apply He. by vm_compute.
Defined.

Lemma numbers_given_once_witness :
  (∃ i', st_issues boardChild !! ulid_of "1" = Some i' ∧ i_SequenceNo i' = 1%Z ∧ i_DisplayID i' = "ISSUE-1") ∧
  (1 < i_SequenceNo childIssue)%Z.
Proof.
  assert (Hs : rtc step stageIssues boardChild).
  { apply (rtc_l _ _ boardEpic); [|apply rtc_once].
    - exact (step_issue _ _ (step_create createEpic stageIssues)).
    - exact (step_issue _ _ (step_create createChild boardEpic)). }
  destruct (numbers_given_once stageIssues boardChild stageIssues_reachable Hs) as [Hk Hf]. split.
  - apply (Hk (ulid_of "1") issue1). by vm_compute.
  - apply (Hf (ulid_of "6") childIssue (ulid_of "1") issue1); by vm_compute.
Defined.

Lemma CreateIssue_stores_witness :
  ∃ input parent labels,
    let stored := setLabels (stable_sort labelLess labels) childIssue in
    CreateIssueInput_Validate (ic_Input createChild) = Ok input ∧ st_issues boardEpic !! ulid_of "6" = None ∧
    childIssue = setLabels labels (createdIssue (ulid_of "6") input (nextNumber boardEpic) parent T0) ∧
    match parent with
    | Some p => ∃ e, st_issues boardEpic !! p = Some e ∧ i_Type e = TypeEpic ∧ i_ArchivedAt e = None
    | None => ci_ParentID input = None
    end ∧
    Forall2 (label_named boardChild) (ci_Labels input) labels ∧
    st_issues boardChild = <[ulid_of "6" := stored]> (st_issues boardEpic) ∧
    nextNumber boardChild = (nextNumber boardEpic + 1)%Z ∧
    GetIssue (internalIdentifier (ulid_of "6")) boardChild = Ok stored.
Proof. apply (CreateIssue_stores createChild boardEpic childIssue boardChild boardEpic_reachable); by vm_compute. Defined.

(** A creation never sets [closed_at], also when the status is terminal. *)
Definition createDone : CreateIssueCommand := createTask "9" StatusDone.
Example created_done_without_closing_time :
  option_map (λ i, (i_Status i, i_ClosedAt i)) (st_issues (act (CreateIssue createDone) stageIssues) !! ulid_of "9") =
    Some (StatusDone, None).
Proof. by vm_compute. Qed.
