(* ===== verification/Planning.v ===== *)
(** * What an applied plan stores

    The functional behaviour of [ApplyIssuePlan] on top of the invariants: every
    element of the plan is stored, with its references resolved, and nothing
    else changes.  A run shows a plan at work, and a plan that the validation
    accepts and the application refuses. *)

From S2P Require Import Prelude GoStrings Errors Validation Samples Issue Relation Session IssueOps.
From S2P Require Import Discussion Resource Attempt Plan AttemptPolicy Gates Store Schema ReservationStore.
From S2P Require Import GateStore ReviewStore Termination ReviewOps AttemptStore Footprint.
From S2P Require Import RelationStore IssueStore PolicyStore EvidenceStore DiscussionStore SessionStore.
From S2P Require Import PlanStore PlanCheck PlanApply Place Lifecycle Scenario Records Board.

Section stored.
Context `{UnicodeTables, ULID, JSONCodec, URLParser, SnapshotHash, SQLiteDriver, Misused}.
Context (command : ApplyIssuePlanCommand) (s0 : Store).
Let now := pc_OccurredAt command.
Hypothesis schema0 : schema_ok s0.
Hypothesis command_checked : command_ok command.
Hypothesis plan_checked : checked s0 (pc_Plan command).

(** The [k]-th issue of the plan as it is answered and stored. *)
Definition issue_created (s : Store) (k : nat) (planned : PlannedIssue) (id : string) (c : CreatedPlanIssue) : Prop :=
  ∃ parent labels,
    let issue := createdIssue id (plannedInput planned) (nextNumber s0 + Z.of_nat k) parent (pc_OccurredAt command) in
    c = mkPlanIssue (pn_Ref planned) (setLabels labels issue) ∧
    st_issues s !! id = Some (setLabels (stable_sort labelLess labels) issue) ∧
    Forall2 (label_named s) (pn_Labels planned) labels ∧
    match pn_ParentRef planned, parent with
    | None, None => True
    | Some ref, Some p => refers command s0 ref p
    | _, _ => False
    end.

Record issues_created (done : list (PlannedIssue * string * list string)) (bs : list CreatedPlanIssue) (s : Store) : Prop := {
  ic_schema : schema_ok s;
  ic_length : length bs = length done;
  ic_next : nextNumber s = (nextNumber s0 + Z.of_nat (length done))%Z;
  ic_kept : st_issues s0 ⊆ st_issues s;
  ic_new id : is_Some (st_issues s !! id) → is_Some (st_issues s0 !! id) ∨ id ∈ map itemID done;
  ic_each k planned id labelIDs c : done !! k = Some (planned, id, labelIDs) → bs !! k = Some c → issue_created s k planned id c;
}.

Lemma issue_created_mono s s' k planned id c :
  st_issues s ⊆ st_issues s' → st_labels s ⊆ st_labels s' → issue_created s k planned id c → issue_created s' k planned id c.
Proof.
  intros Hi Hl (parent & labels & Hc & Hs & Hlab & Hpar). exists parent, labels. split_and!; [done|by eapply lookup_weaken| |done].
  eapply Forall2_impl; [exact Hlab|]. intros name l. by apply label_named_grows.
Qed.

Lemma applyIssues_created bs s :
  applyEach (λ '(planned, id, labelIDs), applyPlannedIssue (localIDs command) now planned id labelIDs) (issueItems command) s0 = Ok (bs, s) →
  issues_created (issueItems command) bs s.
Proof.
  apply (applyEach_ind _ issues_created).
  2:{ split; [done|done|cbn; lia|done|by left|]. intros k planned id labelIDs c Hk. by rewrite lookup_nil in Hk. }
  intros done bs' [[planned id] labelIDs] b s1 s2 [Hok Hlen Hnext Hkept Hnew Heach] Hin Hrun.
  apply item_parts in Hin as (Hplan & _ & _).
  apply applyPlannedIssue_Ok in Hrun as (row & parent & labels & Hb & Hrow & Hpar & Hn & _ & Hlab & Hok2 & Hi & Hp & _ & _ & Hg); [|done].
  assert (Hnum : pj_NextIssueNumber row = (nextNumber s0 + Z.of_nat (length done))%Z) by (unfold nextNumber in Hnext; by rewrite Hrow in Hnext).
  rewrite Hnum in Hb, Hi. assert (Hsub : st_issues s1 ⊆ st_issues s2) by (rewrite Hi; by apply insert_subseteq).
  split.
  - done.
  - rewrite !length_app. cbn. lia.
  - rewrite length_app. unfold nextNumber. rewrite Hp. cbn. unfold nextNumber in Hnum. lia.
  - by etrans.
  - intros x. rewrite map_app. cbn [map]. rewrite elem_of_app, list_elem_of_singleton, Hi. change (itemID (planned, id, labelIDs)) with id.
    destruct (decide (id = x)) as [->|Hne]; [by right; right|]. rewrite lookup_insert_ne by done. intros [?|?]%Hnew; tauto.
  - intros k pl i ls c [[Hlt Hk]|[Heq Hk]]%lookup_snoc_Some [[Hlt' Hc]|[Heq' Hc]]%lookup_snoc_Some; try lia.
    { by apply (issue_created_mono s1); [..|eapply Heach]. }
    injection Hk as -> -> ->. subst c k. exists parent, labels. rewrite Heq'. rewrite Hlen. split_and!; [done|by rewrite Hi, lookup_insert_eq|done|].
    unfold resolveOptionalID in Hpar. destruct (pn_ParentRef pl) as [ref|] eqn:Href; [|by apply tx_ret_Ok in Hpar as [-> _]].
    inv_tx_step Hpar. pose proof (reads_resolveID _ _ _ _ _ Hstep) as ->. apply tx_ret_Ok in Hpar as [-> _].
    assert (Hname : ∃ node, names s0 (ip_Issues (pc_Plan command)) ref node).
    { destruct (kd_parents _ _ plan_checked pl Hplan ref Href) as [_ [[[n Hl] _]|[Hl (e & He & _)]]];
        [exists n; by apply names_local|exists (i_ID e); by apply names_stored]. }
    destruct Hname as [node Hname]. by apply (resolveID_refers command s0 s1 ref node s1).
Qed.

(** Relations: every one planned is stored between the issues its references
    mean, in canonical order. *)
Definition relation_created (s : Store) (planned : PlannedRelation) (id : string) (c : IssueRelation) : Prop :=
  ∃ a b, refers command s0 (pnr_SourceRef planned) a ∧ refers command s0 (pnr_TargetRef planned) b ∧
    c = mkRelation id (CanonicalRelationEndpoints (pnr_Type planned) a b).1 (CanonicalRelationEndpoints (pnr_Type planned) a b).2
          (pnr_Type planned) (pc_OccurredAt command) ∧
    st_relations s !! id = Some c.

Record relations_created (mid : Store) (done : list (PlannedRelation * string)) (bs : list IssueRelation) (s : Store) : Prop := {
  rl_issues : st_issues s = st_issues mid;
  rl_length : length bs = length done;
  rl_kept : st_relations mid ⊆ st_relations s;
  rl_new id q : st_relations s !! id = Some q → st_relations mid !! id = Some q ∨ q ∈ bs;
  rl_each k planned id c : done !! k = Some (planned, id) → bs !! k = Some c → relation_created s planned id c;
}.

Lemma applyRelations_created mid bs s :
  schema_ok mid → st_issues s0 ⊆ st_issues mid →
  applyEach (λ '(planned, id), applyPlannedRelation (localIDs command) now planned id) (relationItems command) mid = Ok (bs, s) →
  relations_created mid (relationItems command) bs s.
Proof.
  intros Hmid Hsub. apply (applyEach_ind _ (relations_created mid)).
  2:{ split; [done|done|done|by left|]. intros k planned id c Hk. by rewrite lookup_nil in Hk. }
  intros done bs' [planned id] b s1 s2 [Hiss Hlen Hkept Hnew Heach] Hin Hrun. apply elem_of_zip_l in Hin.
  apply applyPlannedRelation_Ok in Hrun as (x & y & Hx & Hy & Hrun).
  destruct (CanonicalRelationEndpoints (pnr_Type planned) x y) as [source target] eqn:Hcan.
  destruct Hrun as (Hc & Hn & Hr & Hi & _ & _). assert (Hs12 : st_relations s1 ⊆ st_relations s2) by (rewrite Hr; by apply insert_subseteq).
  split.
  - congruence.
  - rewrite !length_app. cbn. lia.
  - by etrans.
  - intros i q. rewrite Hr, elem_of_app, list_elem_of_singleton. intros [[_ <-]|[_ Hq]]%lookup_insert_Some; [by right; right|].
    destruct (Hnew i q Hq); tauto.
  - intros k p i c [[Hlt Hk]|[Heq Hk]]%lookup_snoc_Some [[Hlt' Hc']|[Heq' Hc']]%lookup_snoc_Some; try lia.
    { destruct (Heach k p i c Hk Hc') as (u & v & ? & ? & ? & ?). exists u, v. split_and!; [done..|by eapply lookup_weaken]. }
    injection Hk as -> ->. subst c. destruct (kd_graph _ _ plan_checked) as (E & _ & _ & Hnames).
    destruct (Hnames p Hin) as (na & nb & Ha & Hb & _). exists x, y. rewrite Hcan. cbn [fst snd]. split_and!; [..|done|].
    + by apply (resolveID_refers command s0 mid _ na s1).
    + by apply (resolveID_refers command s0 mid _ nb s1).
    + rewrite Hr, lookup_insert_eq. done.
Qed.

Definition decision_created (s : Store) (planned : PlannedDecision) (id : string) (c : PlanDecision) : Prop :=
  ∃ issueID,
    c = mkPlanDecision id issueID (pnd_Title planned) (pnd_Summary planned) (pnd_Content planned) (pnd_Status planned) (pc_OccurredAt command) ∧
    st_decisions s !! id = Some (mkDecision id issueID (pnd_Title planned) (pnd_Summary planned) (pnd_Content planned)
                                   (pnd_Status planned) None None (pc_OccurredAt command)) ∧
    match pnd_IssueRef planned, issueID with
    | None, None => True
    | Some ref, Some i => refers command s0 ref i
    | _, _ => False
    end.

Record decisions_created (mid start : Store) (done : list (PlannedDecision * string)) (bs : list PlanDecision) (s : Store) : Prop := {
  dl_issues : st_issues s = st_issues mid;
  dl_relations : st_relations s = st_relations start;
  dl_length : length bs = length done;
  dl_kept : st_decisions start ⊆ st_decisions s;
  dl_new id : is_Some (st_decisions s !! id) → is_Some (st_decisions start !! id) ∨ id ∈ map snd done;
  dl_each k planned id c : done !! k = Some (planned, id) → bs !! k = Some c → decision_created s planned id c;
}.

Lemma applyDecisions_created mid start bs s :
  schema_ok mid → st_issues s0 ⊆ st_issues mid → st_issues start = st_issues mid →
  applyEach (λ '(planned, id), applyPlannedDecision (localIDs command) now planned id) (decisionItems command) start = Ok (bs, s) →
  decisions_created mid start (decisionItems command) bs s.
Proof.
  intros Hmid Hsub Hstart. apply (applyEach_ind _ (decisions_created mid start)).
  2:{ split; [done|done|done|done|by left|]. intros k planned id c Hk. by rewrite lookup_nil in Hk. }
  intros done bs' [planned id] b s1 s2 [Hiss Hrel Hlen Hkept Hnew Heach] Hin Hrun. apply elem_of_zip_l in Hin.
  apply applyPlannedDecision_Ok in Hrun as (issueID & Hres & Hb & Hn & Hd & Hi & _ & Hr).
  assert (Hs12 : st_decisions s1 ⊆ st_decisions s2) by (rewrite Hd; by apply insert_subseteq). split.
  - congruence.
  - congruence.
  - rewrite !length_app. cbn. lia.
  - by etrans.
  - intros i. rewrite map_app. cbn [map snd]. rewrite Hd, elem_of_app, list_elem_of_singleton.
    destruct (decide (id = i)) as [->|Hne]; [by right; right|]. rewrite lookup_insert_ne by done. intros [?|?]%Hnew; tauto.
  - intros k p i c [[Hlt Hk]|[Heq Hk]]%lookup_snoc_Some [[Hlt' Hc']|[Heq' Hc']]%lookup_snoc_Some; try lia.
    { destruct (Heach k p i c Hk Hc') as (iid & ? & ? & ?). exists iid. split_and!; [done|by eapply lookup_weaken|done]. }
    injection Hk as -> ->. subst c. exists issueID. split_and!; [done|by rewrite Hd, lookup_insert_eq|].
    unfold resolveOptionalID in Hres. destruct (pnd_IssueRef p) as [ref|] eqn:Href; [|by apply tx_ret_Ok in Hres as [-> _]].
    inv_tx_step Hres. pose proof (reads_resolveID _ _ _ _ _ Hstep) as ->. apply tx_ret_Ok in Hres as [-> _].
    destruct (kd_decisions _ _ plan_checked p ref Hin Href) as [node Hname]. by apply (resolveID_refers command s0 mid ref node s1).
Qed.

(** Labels are made while issues are inserted, and only then. *)
Lemma applyRelations_labels items bs s s' :
  applyEach (λ '(planned, id), applyPlannedRelation (localIDs command) now planned id) items s = Ok (bs, s') → st_labels s' = st_labels s.
Proof.
  apply (kept st_labels). intros x. apply applyEach_pres. intros [planned id].
  unfold applyPlannedRelation. repeat (apply preserves_bind; [|intros ?]); try (apply reads_preserves, reads_resolveID).
  destruct (CanonicalRelationEndpoints _ _ _). pres; keep.
Qed.
Lemma applyDecisions_labels items bs s s' :
  applyEach (λ '(planned, id), applyPlannedDecision (localIDs command) now planned id) items s = Ok (bs, s') → st_labels s' = st_labels s.
Proof.
  apply (kept st_labels). intros x. apply applyEach_pres. intros [planned id]. unfold applyPlannedDecision.
  apply preserves_bind; [apply reads_preserves, reads_resolveOptionalID|intros issueID].
  apply preserves_bind; [keep|intros _]. apply preserves_bind; [by apply keep_AppendIssueEvent|intros _]. apply preserves_ret.
Qed.

Lemma zip_lookup {A B} (l : list A) (k : list B) i x :
  length k = length l → l !! i = Some x → ∃ y, k !! i = Some y ∧ zip l k !! i = Some (x, y).
Proof.
  intros Hlen Hi. destruct (lookup_lt_is_Some_2 k i) as [y Hy]; [rewrite Hlen; by eapply lookup_lt_Some|].
  exists y. split; [done|]. apply lookup_zip_with_Some. by exists x, y.
Qed.
End stored.

(** ** Theorems *)

(** C15. An applied plan is stored, all of it and nothing else.  When a plan is
    applied (and not replayed) its validation has no findings; its issues are
    stored under the given identifiers, which were free, with consecutive
    numbers from the project's next one and version 1, with stored labels of
    the requested names; its relations join the issues its references mean, in
    canonical order; its decisions are recorded; a reference means the planned
    issue of that name, or a stored issue that is not archived.  Every other
    issue, relation and decision is as it was. *)
Theorem ApplyIssuePlan_stores `{UnicodeTables, ULID, JSONCodec, URLParser, SnapshotHash, SQLiteDriver, Misused} command s r s' :
  reachable s →
  lookupIdempotency applyIssuePlanOperation (pc_IdempotencyKey command) (pc_RequestHash command) s = Ok (None, s) →
  ApplyIssuePlan command s = (Ok r, s') →
  let plan := pc_Plan command in
  ValidateIssuePlan plan s = Ok [] ∧
  (∀ k planned, ip_Issues plan !! k = Some planned → ∃ id c,
     pc_IssueIDs command !! k = Some id ∧ st_issues s !! id = None ∧ ap_CreatedIssues r !! k = Some c ∧
     issue_created command s s' k planned id c) ∧
  (∀ k planned, ip_Relations plan !! k = Some planned → ∃ id c,
     pc_RelationIDs command !! k = Some id ∧ ap_CreatedRelations r !! k = Some c ∧ relation_created command s s' planned id c) ∧
  (∀ k planned, ip_Decisions plan !! k = Some planned → ∃ id c,
     pc_DecisionIDs command !! k = Some id ∧ ap_CreatedDecisions r !! k = Some c ∧ decision_created command s s' planned id c) ∧
  nextNumber s' = (nextNumber s + Z.of_nat (length (ip_Issues plan)))%Z ∧
  (st_issues s ⊆ st_issues s' ∧ ∀ id, is_Some (st_issues s' !! id) → is_Some (st_issues s !! id) ∨ id ∈ pc_IssueIDs command) ∧
  (st_relations s ⊆ st_relations s' ∧ ∀ id q, st_relations s' !! id = Some q → st_relations s !! id = Some q ∨ q ∈ ap_CreatedRelations r) ∧
  (st_decisions s ⊆ st_decisions s' ∧ ∀ id, is_Some (st_decisions s' !! id) → is_Some (st_decisions s !! id) ∨ id ∈ pc_DecisionIDs command).
Proof.
  intros Hr Hl Hrun. pose proof (reachable_schema s Hr) as Hok. unfold ApplyIssuePlan in Hrun.
  destruct (validatePlanCommand command) as [u|] eqn:Hcmd; [|done]. apply validatePlanCommand_Ok in Hcmd as Hcok.
  match type of Hrun with Write ?m s = _ => destruct (Write_spec m s) as [(e & _ & Hw)|(r' & s1 & Hm & Hw)] end; [congruence|].
  rewrite Hw in Hrun. injection Hrun as -> ->. unfold replayed in Hm. inv_tx_step Hm. rewrite Hl in Hstep. injection Hstep as <- <-.
  apply planTx_Ok in Hm as (issues & s1 & relations & s2 & decisions & s3 & Hv & Hi & Hrel & Hd & Hres & Hi4 & Hp4 & Hr4 & Hd4 & Hl4).
  injection Hres as ->. pose proof (validatePlanAgainstStore_checked _ _ Hok (reachable_acyclic s Hr) Hv) as Hck.
  pose proof (applyIssues_applied command s Hok _ _ Hi) as Happ.
  pose proof (applyRelations_labels command _ _ _ _ Hrel) as Hl2. pose proof (applyDecisions_labels command _ _ _ _ Hd) as Hl3.
  apply (applyIssues_created command s Hok Hcok Hck) in Hi as [Hok1 Hlen Hnext Hkept Hnew Heach].
  pose proof (applyRelations_applied command s Hok s1 Hcok Happ Hck _ _ Hrel) as [_ Hp2 Hd2 _].
  apply (applyRelations_created command s Hcok Hck s1) in Hrel as [Hi2 Hlen2 Hkept2 Hnew2 Heach2]; [|done..].
  pose proof (applyDecisions_kept command _ _ _ Hd) as (_ & Hp3 & _).
  apply (applyDecisions_created command s Hcok Hck s1) in Hd as [Hi3 Hr3 Hlen3 Hkept3 Hnew3 Heach3]; [|done..].
  assert (Hii : st_issues s' = st_issues s1) by congruence. assert (Hll : st_labels s' = st_labels s1) by congruence.
  rewrite (ia_relations _ _ _ Happ) in Hkept2, Hnew2. rewrite Hd2, (ia_decisions _ _ _ Happ) in Hkept3, Hnew3.
  rewrite Hii, Hr4, Hr3, Hd4. cbn zeta. split_and!; try done.
  - intros k planned Hk. destruct (zip_lookup _ _ _ _ (cok_issues _ Hcok) Hk) as (id & Hid & Hz).
    destruct (zip_lookup (zip (ip_Issues (pc_Plan command)) (pc_IssueIDs command)) (pc_LabelIDs command) k (planned, id)) as (ls & _ & Hz').
    { rewrite length_zip, (cok_labels _ Hcok), (cok_issues _ Hcok). lia. } { done. }
    destruct (zip_lookup (issueItems command) issues k _ Hlen Hz') as (c & Hc & _). exists id, c. split_and!; [done| |done|].
    + apply (ia_fresh _ _ _ Happ id). apply list_elem_of_fmap. exists (planned, id, ls). split; [done|]. by eapply list_elem_of_lookup_2.
    + apply (issue_created_mono command s s1); [by rewrite Hii|by rewrite Hll|]. by eapply Heach.
  - intros k planned Hk. destruct (zip_lookup _ _ _ _ (cok_relations _ Hcok) Hk) as (id & Hid & Hz).
    destruct (zip_lookup (relationItems command) relations k _ Hlen2 Hz) as (c & Hc & _). exists id, c. split_and!; [done..|].
    destruct (Heach2 k planned id c Hz Hc) as (a & b & ? & ? & ? & ?). exists a, b. split_and!; [done..|by rewrite Hr4, Hr3].
  - intros k planned Hk. destruct (zip_lookup _ _ _ _ (cok_decisions _ Hcok) Hk) as (id & Hid & Hz).
    destruct (zip_lookup (decisionItems command) decisions k _ Hlen3 Hz) as (c & Hc & _). exists id, c. split_and!; [done..|].
    destruct (Heach3 k planned id c Hz Hc) as (iid & ? & ? & ?). exists iid. split_and!; [done|by rewrite Hd4|done].
  - assert (Hn : nextNumber s' = nextNumber s1) by (unfold nextNumber; by rewrite Hp4, Hp3, Hp2).
    rewrite Hn, Hnext. unfold issueItems. rewrite !length_zip, (cok_labels _ Hcok), (cok_issues _ Hcok). lia.
  - intros id [?|Hin]%Hnew; [by left|right]. apply list_elem_of_fmap in Hin as ([[pl i] ls] & -> & Hin).
    by apply item_parts in Hin as (_ & ? & _).
  - intros id [?|Hin]%Hnew3; [by left|right]. apply list_elem_of_fmap in Hin as ([pl i] & -> & Hin). by apply elem_of_zip_r in Hin.
Qed.

(** *** A plan at work *)

Definition applyCommand (plan : IssuePlan) (issueIDs relationIDs decisionIDs : list string) (labelIDs : list (list string)) :
    ApplyIssuePlanCommand :=
  mkPlanCommand plan "plan-1" (hash32 "p") issueIDs relationIDs decisionIDs labelIDs (T0 + 30).

(** The plan of [Plan.v], with a relation to a stored issue. *)
Definition storedPlan : IssuePlan :=
  mkPlan (ip_Issues samplePlanNormal)
    (ip_Relations samplePlanNormal ++ [mkPlannedRelation "issue-1" "schema" RelationTypeBlocks]) (ip_Decisions samplePlanNormal).
Definition applyStored : ApplyIssuePlanCommand :=
  applyCommand storedPlan [ulid_of "5"; ulid_of "6"; ulid_of "7"] [ulid_of "J"; ulid_of "K"] [ulid_of "D"] [[]; [ulid_of "8"]; []].
Definition boardPlanned : Store := act (ApplyIssuePlan applyStored) stageIssues.
Definition plannedResult : ApplyIssuePlanResult :=
  match (ApplyIssuePlan applyStored stageIssues).1 with Ok r => r | Err _ => mkPlanResult [] [] [] 0 end.

Lemma boardPlanned_reachable : reachable boardPlanned.
Proof. exact (reach _ _ stageIssues_reachable (step_planned _ _ (step_plan _ _))). Qed.

Example plannedResult_rows :
  map (λ c, (cp_Ref c, i_DisplayID (cp_Issue c), i_ParentID (cp_Issue c))) (ap_CreatedIssues plannedResult) =
    [("epic", "ISSUE-3", None); ("schema", "ISSUE-4", Some (ulid_of "5")); ("api", "ISSUE-5", Some (ulid_of "5"))] ∧
  map (λ r, (rel_SourceIssueID r, rel_TargetIssueID r)) (ap_CreatedRelations plannedResult) =
    [(ulid_of "6", ulid_of "7"); (ulid_of "1", ulid_of "6")] ∧
  ap_LatestEventID plannedResult = 10%Z.
Proof. vm_compute. done. Qed.

Definition plannedSchema : PlannedIssue :=
  mkPlannedIssue "schema" TypeTask "Schema" None None "open" "medium" (Some "epic") None ["db"] true.

Lemma ApplyIssuePlan_stores_witness :
  ValidateIssuePlan storedPlan stageIssues = Ok [] ∧
  (∃ id c, pc_IssueIDs applyStored !! 1 = Some id ∧ st_issues stageIssues !! id = None ∧
     ap_CreatedIssues plannedResult !! 1 = Some c ∧
     issue_created applyStored stageIssues boardPlanned 1 plannedSchema id c) ∧
  nextNumber boardPlanned = (nextNumber stageIssues + 3)%Z.
Proof.
  destruct (ApplyIssuePlan_stores applyStored stageIssues plannedResult boardPlanned stageIssues_reachable
    ltac:(vm_compute; reflexivity) ltac:(vm_compute; reflexivity)) as (Hv & Hi & _ & _ & Hn & _).
  exact (conj Hv (conj (Hi 1 plannedSchema ltac:(vm_compute; reflexivity)) Hn)).
Defined.

(** A plan may name a parent before it creates it: the validation finds nothing
    wrong, and the application fails on the foreign key of the parent. *)
Definition childFirst : IssuePlan :=
  mkPlan [planned "child" TypeTask "Child" "open" (Some "epic") []; planned "epic" TypeEpic "Epic" "open" None []] [] [].
Definition applyChildFirst : ApplyIssuePlanCommand := applyCommand childFirst [ulid_of "5"; ulid_of "6"] [] [] [[]; []].
Definition childFirstNormal : IssuePlan := pv_NormalizedPlan (NormalizeIssuePlan childFirst).

Example child_first_accepted_not_applied :
  pv_Valid (NormalizeIssuePlan childFirst) = true ∧ ValidateIssuePlan childFirstNormal stageIssues = Ok [] ∧
  (ApplyIssuePlan (applyCommand childFirstNormal [ulid_of "5"; ulid_of "6"] [] [] [[]; []]) stageIssues).1 =
    Err (constraintError "issues").
Proof. split_and!; vm_compute; reflexivity. Qed.

(** A cycle is refused whether it runs through stored relations, planned ones
    or both. *)
Example planned_cycle_refused :
  ValidateIssuePlan (mkPlan [planned "a" TypeTask "A" "open" None []] [mkPlannedRelation "a" "ISSUE-1" RelationTypeBlocks;
    mkPlannedRelation "ISSUE-1" "ISSUE-2" RelationTypeBlocks; mkPlannedRelation "ISSUE-2" "a" RelationTypeBlocks] []) stageIssues =
  Ok [mkDetail (Some 2%Z) "relations[2].type" CodeBlocksCycle "blocks relation would create a cycle"].
Proof. vm_compute. reflexivity. Qed.
