(* ===== verification/Locks.v ===== *)
(** * The lock service

    What the attempts and reservations promise, without tables, leases, tokens,
    review requests or gates: an issue is worked on by at most one attempt at a
    time, an attempt that is over never works again, and resources are locked
    by working attempts so that no path or name is locked twice.

    The locks of an attempt that callers misuse (see [Misused]) are the
    exception: they are as exclusive as the others, but the attempt need not be
    at work when it takes them, nor free of them when it ends.

    [LockService] states that contract as a transition system of its own;
    [service] reads its state off a store, and every step of the program, any
    operation by any client, is a sequence of transitions of the contract. *)

From S2P Require Import Prelude GoStrings Errors Validation Samples Issue Relation Session IssueOps.
From S2P Require Import Discussion Resource Attempt AttemptPolicy Gates Store Schema ReservationStore.
From S2P Require Import GateStore ReviewStore Termination ReviewOps AttemptStore Footprint.
From S2P Require Import RelationStore IssueStore PolicyStore EvidenceStore DiscussionStore SessionStore.
From S2P Require Import Lifecycle Scenario Records.

(** ** The contract *)

(** A locked resource: its kind and its canonical value. *)
Notation resource := (string * string)%type.

Record LockService := mkService {
  ls_holder : gmap string string;               (** the attempt at work on an issue *)
  ls_over : gset string;                        (** the attempts that are over *)
  ls_locks : gmap string (string * resource);   (** a lock's attempt and resource *)
}.

(** The paths and names a resource stands for. *)
Definition covers (r : resource) (x : point) : Prop :=
  ∃ n, resource_wf n ∧ n_kind n = r.1 ∧ Key n = r.2 ∧ denotes n x.
Definition disjoint_resources (r q : resource) : Prop := ∀ x, covers r x → covers q x → False.

Inductive lock_step `{M0 : Misused} : LockService → LockService → Prop :=
  | lock_begin issue attempt H O L :
      H !! issue = None → (∀ other, H !! other ≠ Some attempt) → attempt ∉ O →
      lock_step (mkService H O L) (mkService (<[issue := attempt]> H) O L)
  | lock_end issue attempt H O L :
      H !! issue = Some attempt → misused attempt = true ∨ (∀ id r, L !! id ≠ Some (attempt, r)) →
      lock_step (mkService H O L) (mkService (delete issue H) ({[attempt]} ∪ O) L)
  | lock_retire attempt H O L :
      (∀ issue, H !! issue ≠ Some attempt) →
      lock_step (mkService H O L) (mkService H ({[attempt]} ∪ O) L)
  | lock_take id attempt r H O L :
      misused attempt = true ∨ (∃ issue, H !! issue = Some attempt) → L !! id = None →
      (∀ id' a q, L !! id' = Some (a, q) → disjoint_resources r q) →
      lock_step (mkService H O L) (mkService H O (<[id := (attempt, r)]> L))
  | lock_release id H O L :
      lock_step (mkService H O L) (mkService H O (delete id L)).

Definition service_init : LockService := mkService ∅ ∅ ∅.

(** *** What the contract gives at once *)

Record service_ok `{Misused} (l : LockService) : Prop := {
  so_holder i j a : ls_holder l !! i = Some a → ls_holder l !! j = Some a → i = j;
  so_over i a : ls_holder l !! i = Some a → a ∉ ls_over l;
  so_locks id a r : ls_locks l !! id = Some (a, r) → misused a = false → ∃ i, ls_holder l !! i = Some a;
  so_disjoint i j a b r q : i ≠ j → ls_locks l !! i = Some (a, r) → ls_locks l !! j = Some (b, q) → disjoint_resources r q;
}.

Lemma disjoint_resources_sym r q : disjoint_resources r q → disjoint_resources q r.
Proof. intros Hd x Hq Hr. by apply (Hd x). Qed.

Lemma lock_step_ok `{M0 : Misused} l l' : lock_step l l' → service_ok l → service_ok l'.
Proof.
  intros Hstep [Hh Ho Hl Hd].
  destruct Hstep as [issue attempt H O L Hn Hnew Hov|issue attempt H O L Hi Hnl|attempt H O L Hnh
                    |id attempt r H O L Hi Hid Hdis|id H O L]; cbn in *; split; cbn.
  - intros i j a. rewrite !lookup_insert_Some. naive_solver.
  - intros i a. rewrite lookup_insert_Some. naive_solver.
  - intros id a r Hid Hm. destruct (Hl id a r Hid Hm) as (i & Hi). exists i. rewrite lookup_insert_ne; [done|congruence].
  - done.
  - intros i j a. rewrite !lookup_delete_Some. naive_solver.
  - intros i a [Hne Ha]%lookup_delete_Some. pose proof (Ho i a Ha). destruct (decide (a = attempt)) as [->|]; [|set_solver].
    by destruct Hne; apply (Hh _ _ attempt).
  - intros id a r Hid Hm. destruct (Hl id a r Hid Hm) as (i & Ha). exists i. rewrite lookup_delete_ne; [done|].
    intros <-. assert (a = attempt) as -> by congruence. destruct Hnl as [?|Hnl]; [congruence|]. by apply (Hnl id r).
  - done.
  - done.
  - intros i a Ha. pose proof (Ho i a Ha). specialize (Hnh i). set_solver.
  - done.
  - done.
  - done.
  - done.
  - intros id' a q [[<- [= <- <-]]|[_ Hq]]%lookup_insert_Some Hm; [|by eapply Hl].
    destruct Hi as [?|Hi]; [congruence|done].
  - intros i j a b x y Hne [[<- [= <- <-]]|[_ Hx]]%lookup_insert_Some [[<- [= <- <-]]|[_ Hy]]%lookup_insert_Some.
    + done.
    + by eapply Hdis.
    + by eapply disjoint_resources_sym, Hdis.
    + by eapply (Hd i j).
  - done.
  - done.
  - intros id' a r [_ Hr]%lookup_delete_Some. by eapply Hl.
  - intros i j a b r q Hne [_ Hr]%lookup_delete_Some [_ Hq]%lookup_delete_Some. by eapply (Hd i j).
Qed.

Lemma lock_steps_ok `{M0 : Misused} l l' : rtc lock_step l l' → service_ok l → service_ok l'.
Proof. induction 1; [done|]. intros. by eauto using lock_step_ok. Qed.

Lemma service_init_ok `{Misused} : service_ok service_init.
Proof. split; intros *; cbn; rewrite ?lookup_empty; done. Qed.

(** ** The state a store stands for *)

Definition holders (s : Store) : gmap string string :=
  list_to_map (map (λ p : string * AttemptRow, (ar_IssueID p.2, p.1))
                 (List.filter (λ p, attemptActive p.2) (map_to_list (st_attempts s)))).
Definition over (s : Store) : gset string := dom (filter (λ p, attemptActive p.2 = false) (st_attempts s)).
Definition locks (s : Store) : gmap string (string * resource) :=
  omap (λ r, if reservationActive r then Some (rr_AttemptID r, (rr_Kind r, rr_ComparisonValue r)) else None) (st_reservations s).

Definition service (s : Store) : LockService := mkService (holders s) (over s) (locks s).

Section reading.
Context `{UnicodeTables, ULID, SQLiteDriver, Misused}.

Lemma holders_spec s i a : schema_ok s →
  holders s !! i = Some a ↔ ∃ row, st_attempts s !! a = Some row ∧ attemptActive row = true ∧ ar_IssueID row = i.
Proof.
  intros Hs. unfold holders.
  set (l := List.filter _ _). assert (Hl : ∀ p, p ∈ l ↔ st_attempts s !! p.1 = Some p.2 ∧ attemptActive p.2 = true).
  { intros p. unfold l. rewrite elem_of_filter_list. destruct p. by rewrite elem_of_map_to_list. }
  rewrite <-elem_of_list_to_map.
  - rewrite list_elem_of_fmap. split.
    + intros ([a' row] & [= -> ->] & [Hrow Ha]%Hl). by exists row.
    + intros (row & Hrow & Ha & <-). exists (a, row). split; [done|by apply Hl].
  - rewrite map_map. cbn. apply NoDup_fmap_2_strong.
    + intros [x r] [y q] [Hr Har]%Hl [Hq Haq]%Hl He. cbn in *.
      assert (x = y) as ->; [|congruence]. apply (attempt_unique s x y r q Hs Hr Hq). unfold activeAttemptClash.
      by rewrite Har, Haq, He, eqb_string_refl.
    + apply NoDup_ListNoDup, List.NoDup_filter, NoDup_ListNoDup, NoDup_map_to_list.
Qed.

Lemma over_spec s a : a ∈ over s ↔ ∃ row, st_attempts s !! a = Some row ∧ attemptActive row = false.
Proof.
  unfold over. rewrite elem_of_dom. unfold is_Some. setoid_rewrite map_lookup_filter_Some. done.
Qed.

Lemma locks_spec s id v :
  locks s !! id = Some v ↔ ∃ r, st_reservations s !! id = Some r ∧ reservationActive r = true ∧
    v = (rr_AttemptID r, (rr_Kind r, rr_ComparisonValue r)).
Proof.
  unfold locks. rewrite lookup_omap, bind_Some. split.
  - intros (r & Hr & Hv). destruct (reservationActive r) eqn:Ha; [|done]. injection Hv as <-. by exists r.
  - intros (r & Hr & Ha & ->). exists r. by rewrite Ha.
Qed.

Lemma covers_row r x : covers (rr_Kind r, rr_ComparisonValue r) x ↔ ∃ n, rowDescribes r n ∧ denotes n x.
Proof. unfold covers, rowDescribes. cbn. naive_solver. Qed.

Lemma locks_disjoint s i j a b r q : lifecycle_ok s → i ≠ j →
  locks s !! i = Some (a, r) → locks s !! j = Some (b, q) → disjoint_resources r q.
Proof.
  intros Hl Hne (x & Hx & Hax & [= -> ->])%locks_spec (y & Hy & Hay & [= -> ->])%locks_spec p Hp Hq.
  apply covers_row in Hp as (n & Hn & Hnp). apply covers_row in Hq as (k & Hk & Hkp).
  apply (lc_disjoint _ _ _ Hl i j x y n k Hne Hx Hy Hax Hay Hn Hk). by exists p.
Qed.

Lemma locks_held s id a r : lifecycle_ok s → misused a = false → locks s !! id = Some (a, r) →
  ∃ row, st_attempts s !! a = Some row ∧ attemptActive row = true ∧ holders s !! ar_IssueID row = Some a.
Proof.
  intros Hl Hm (x & Hx & Hax & [= -> _])%locks_spec.
  destruct (lc_owner _ _ _ Hl id x Hx Hax) as (row & Hrow & Ha & _); [done..|].
  exists row. split_and!; [done|done|]. apply holders_spec; [apply Hl|]. by exists row.
Qed.
End reading.

(** ** Runs of the contract

    From one state to another: release the locks that are gone, end the
    attempts that are over, begin the new ones, take the new locks. *)

Notation lock_steps := (rtc lock_step).

Section runs.
Context `{M0 : Misused}.
Implicit Types (H K D : gmap string string) (O X : gset string) (L M E : gmap string (string * resource)).

Lemma release_run H O M E : E ##ₘ M → lock_steps (mkService H O (E ∪ M)) (mkService H O M).
Proof.
  induction E as [|id v E Hid IH] using map_ind; intros Hd; [by rewrite (left_id_L ∅ _)|].
  apply map_disjoint_insert_l in Hd as [Hm Hd]. rewrite <-insert_union_l. eapply rtc_l; [|by apply IH].
  pose proof (lock_release id H O (<[id := v]> (E ∪ M))) as Hs. rewrite delete_insert_id in Hs; [done|].
  by apply lookup_union_None.
Qed.

Lemma end_run K L X D : ∀ O, D ##ₘ K → O ⊆ X → (∀ i a, D !! i = Some a → a ∈ X ∧ (misused a = true ∨ ∀ id r, L !! id ≠ Some (a, r))) →
  ∃ O', O ⊆ O' ∧ O' ⊆ X ∧ lock_steps (mkService (D ∪ K) O L) (mkService K O' L).
Proof.
  induction D as [|i a D Hi IH] using map_ind; intros O Hd Hsub Hover; [exists O; by rewrite (left_id_L ∅ _)|].
  apply map_disjoint_insert_l in Hd as [Hk Hd]. destruct (Hover i a (lookup_insert_eq _ _ _)) as [Hx Hfree].
  destruct (IH ({[a]} ∪ O) Hd) as (O' & HO & HX & Hrun); [set_solver| |].
  { intros j b Hj. apply (Hover j). rewrite lookup_insert_ne; [done|congruence]. }
  exists O'. split_and!; [set_solver|done|]. rewrite <-insert_union_l. eapply rtc_l; [|exact Hrun].
  pose proof (lock_end i a (<[i := a]> (D ∪ K)) O L (lookup_insert_eq _ _ _) Hfree) as Hs.
  rewrite delete_insert_id in Hs; [done|]. by apply lookup_union_None.
Qed.

Lemma retire_run K L X : ∀ O, (∀ a, a ∈ X → ∀ i, K !! i ≠ Some a) → lock_steps (mkService K O L) (mkService K (X ∪ O) L).
Proof.
  induction X as [|a X _ IH] using set_ind_L; intros O Hx; [by rewrite (left_id_L ∅ _)|].
  eapply rtc_r; [apply IH; set_solver|]. rewrite <-(assoc_L (∪)). apply lock_retire. set_solver.
Qed.

Lemma begin_run K O L D :
  D ##ₘ K → (∀ i j a, (D ∪ K) !! i = Some a → (D ∪ K) !! j = Some a → i = j) → (∀ i a, D !! i = Some a → a ∉ O) →
  lock_steps (mkService K O L) (mkService (D ∪ K) O L).
Proof.
  induction D as [|i a D Hi IH] using map_ind; intros Hd Hinj Hover; [by rewrite (left_id_L ∅ _)|].
  apply map_disjoint_insert_l in Hd as [Hk Hd]. rewrite <-insert_union_l in *.
  assert (Hfree : (D ∪ K) !! i = None) by by apply lookup_union_None.
  eapply rtc_r; [apply IH; [done| |]|].
  - intros x y b Hx Hy. apply (Hinj x y b); rewrite lookup_insert_ne; congruence.
  - intros x b Hx. apply (Hover x). rewrite lookup_insert_ne; [done|congruence].
  - apply lock_begin; [done| |by apply (Hover i), lookup_insert_eq]. intros j Hj.
    assert (i = j) as <-; [|congruence]. apply (Hinj i j a); [apply lookup_insert_eq|].
    rewrite lookup_insert_ne; congruence.
Qed.

Lemma take_run H O M E :
  E ##ₘ M → (∀ id a r, E !! id = Some (a, r) → misused a = true ∨ ∃ i, H !! i = Some a) →
  (∀ i j a b r q, i ≠ j → (E ∪ M) !! i = Some (a, r) → (E ∪ M) !! j = Some (b, q) → disjoint_resources r q) →
  lock_steps (mkService H O M) (mkService H O (E ∪ M)).
Proof.
  induction E as [|id [a r] E Hid IH] using map_ind; intros Hd Hown Hdis; [by rewrite (left_id_L ∅ _)|].
  apply map_disjoint_insert_l in Hd as [Hm Hd]. rewrite <-insert_union_l in *.
  assert (Hfree : (E ∪ M) !! id = None) by by apply lookup_union_None.
  eapply rtc_r; [apply IH; [done| |]|].
  - intros j b q Hj. apply (Hown j b q). rewrite lookup_insert_ne; [done|congruence].
  - intros i j x y u v Hne Hi Hj. apply (Hdis i j x y); [done|..]; rewrite lookup_insert_ne; congruence.
  - apply lock_take; [by apply (Hown id a r), lookup_insert_eq|done|].
    intros id' b q Hq. apply (Hdis id id' a b); [congruence|apply lookup_insert_eq|rewrite lookup_insert_ne; congruence].
Qed.

(** What two maps agree on, and the rest of each. *)
Lemma map_rest {V} (m n : gmap string V) : n ⊆ m →
  ∃ d, d ##ₘ n ∧ m = d ∪ n ∧ ∀ i x, d !! i = Some x ↔ m !! i = Some x ∧ n !! i = None.
Proof.
  intros Hs. exists (m ∖ n). split_and!; [by apply map_disjoint_difference_l1| |intros; apply lookup_difference_Some].
  rewrite map_union_comm by (by apply map_disjoint_difference_l1). by rewrite map_difference_union.
Qed.

Lemma map_agreement {V} `{EqDecision V} (m n : gmap string V) :
  ∃ k, k ⊆ m ∧ k ⊆ n ∧ ∀ i x, m !! i = Some x → n !! i = Some x → k !! i = Some x.
Proof.
  exists (filter (λ p, n !! p.1 = Some p.2) m). split_and!; [apply map_filter_subseteq| |].
  - apply map_subseteq_spec. intros i x [_ Hx]%map_lookup_filter_Some. exact Hx.
  - intros i x Hm Hn. by apply map_lookup_filter_Some.
Qed.

(** All of them. *)
Lemma service_run H O L H' O' L' :
  O ⊆ O' →
  (∀ i a, H !! i = Some a → H' !! i ≠ Some a → a ∈ O') →
  (∀ i j a, H' !! i = Some a → H' !! j = Some a → i = j) →
  (∀ i a, H' !! i = Some a → a ∉ O') →
  (∀ id a r, L' !! id = Some (a, r) → misused a = true ∨ ∃ i, H' !! i = Some a) →
  (∀ i j a b r q, i ≠ j → L' !! i = Some (a, r) → L' !! j = Some (b, q) → disjoint_resources r q) →
  lock_steps (mkService H O L) (mkService H' O' L').
Proof.
  intros HO Hend Hinj Hover Hown Hdis.
  destruct (map_agreement L L') as (M & HML & HML' & HM). destruct (map_agreement H H') as (K & HKH & HKH' & HK).
  destruct (map_rest L M HML) as (E & HdE & -> & HE). destruct (map_rest L' M HML') as (E' & HdE' & -> & HE').
  destruct (map_rest H K HKH) as (D & HdD & -> & HD). destruct (map_rest H' K HKH') as (D' & HdD' & -> & HD').
  assert (Hgone : ∀ i a, D !! i = Some a → (D' ∪ K) !! i ≠ Some a).
  { intros i a [Hi Hk]%HD Hi'. pose proof (HK i a Hi Hi'). congruence. }
  etrans; [by apply release_run|].
  destruct (end_run K M O' D O HdD HO) as (O1 & HO1 & HO1' & Hrun).
  { intros i a Hi. split; [apply (Hend i a); [by apply lookup_union_Some_l|by apply Hgone]|].
    destruct (misused a) eqn:Hm; [by left|right]. intros id r Hid.
    destruct (Hown id a r (lookup_weaken _ _ _ _ Hid HML')) as [?|[j Hj]]; [congruence|].
    pose proof (Hend i a (lookup_union_Some_l _ _ _ _ Hi) (Hgone i a Hi)) as Ha. by apply (Hover j a). }
  etrans; [exact Hrun|].
  etrans; [apply (retire_run K M O' O1)|].
  { intros a Ha i Hi. apply (Hover i a); [|done]. by eapply lookup_weaken. }
  replace (O' ∪ O1) with O' by set_solver.
  etrans; [apply (begin_run K O' M D'); [done|exact Hinj|]|].
  { intros i a Hi. apply (Hover i a). by apply lookup_union_Some_l. }
  apply take_run; [done| |exact Hdis]. intros id a r Hid. apply (Hown id a r). by apply lookup_union_Some_l.
Qed.
End runs.

(** ** Refinement *)

Section refinement.
Context `{UnicodeTables, ULID, JSONCodec, URLParser, SnapshotHash, SQLiteDriver, Misused}.

Lemma step_service s s' : reachable s → step s s' → lock_steps (service s) (service s').
Proof.
  intros Hr Hstep. pose proof (reachable_lifecycle s Hr) as Hl. pose proof (step_lifecycle s s' Hstep Hl) as Hl'.
  pose proof (step_forward s s' Hstep) as [Hle _ _]. pose proof (lc_schema _ _ _ Hl) as Hs. pose proof (lc_schema _ _ _ Hl') as Hs'.
  apply service_run.
  - intros a (row & Hrow & Ha)%over_spec. destruct (Hle a row Hrow) as (b & Hb & Hab). apply over_spec. exists b.
    split; [done|]. destruct (al_ended _ _ Hab Ha) as (He & _). unfold attemptActive in *. by rewrite He.
  - intros i a (row & Hrow & Ha & Hi)%holders_spec Hne; [|done]. destruct (Hle a row Hrow) as (b & Hb & Hab).
    apply over_spec. exists b. split; [done|]. apply not_true_is_false. intros Hact. apply Hne, holders_spec; [done|].
    exists b. split_and!; [done|done|]. by rewrite (al_IssueID _ _ Hab).
  - intros i j a (x & Hx & _ & <-)%holders_spec (y & Hy & _ & <-)%holders_spec; [|done..]. congruence.
  - intros i a (x & Hx & Ha & _)%holders_spec (y & Hy & Hn)%over_spec; [|done]. congruence.
  - intros id a r Hid. destruct (misused a) eqn:Hm; [by left|right].
    destruct (locks_held s' id a r Hl' Hm Hid) as (row & _ & _ & Hh). by eexists.
  - intros i j a b r q Hne Hi Hj. by eapply (locks_disjoint s').
Qed.

Lemma steps_service s s' : reachable s → rtc step s s' → lock_steps (service s) (service s').
Proof.
  intros Hr Hs. revert Hr. induction Hs as [s|s1 s2 s3 H12 _ IH]; intros Hr; [done|].
  etrans; [by apply step_service|apply IH; by eapply rtc_r].
Qed.
End refinement.

(** C1. The program refines the lock service.  Every interleaving of clients,
    read through [service], is a run of the contract from its initial state:
    an issue gets an attempt only when it has none, an attempt that is over
    never begins again, resources are locked only where no other lock stands and
    only by an attempt at work, and an attempt ends only when its locks are
    released; the attempts for which callers misuse [AcquireReservations] may
    take locks when they are not at work and may keep them, as exclusive as the
    others. *)
Theorem refines_lock_service `{UnicodeTables, ULID, JSONCodec, URLParser, SnapshotHash, SQLiteDriver, Misused} s s' :
  reachable s → rtc step s s' →
  lock_steps service_init (service s) ∧ lock_steps (service s) (service s') ∧ service_ok (service s').
Proof.
  intros Hr Hs. assert (Hinit : service emptyStore = service_init).
  { unfold service, holders, over, locks. cbn. by rewrite omap_empty, map_filter_empty, dom_empty_L. }
  assert (Hrun : lock_steps service_init (service s)).
  { rewrite <-Hinit. apply steps_service; [apply rtc_refl|exact Hr]. }
  assert (Hrun' : lock_steps (service s) (service s')) by by apply steps_service.
  split_and!; [done|done|].
  assert (Hok : lock_steps service_init (service s')) by by etrans.
  by apply (lock_steps_ok _ _ Hok), service_init_ok.
Qed.

(** The run of [Scenario.v]: two attempts at work and one locked file. *)
Example service_run_example :
  service stageReview =
    mkService {[ ulid_of "1" := ulid_of "A"; ulid_of "2" := ulid_of "B" ]} ∅
      {[ ulid_of "R" := (ulid_of "A", (ResourceKindFile, "file:src/a.go")) ]}.
Proof. by vm_compute. Qed.

Lemma refines_lock_service_witness :
  lock_steps service_init (service stageClaimed) ∧ lock_steps (service stageClaimed) (service stageReview) ∧
  service_ok (service stageReview).
Proof.
  apply (refines_lock_service stageClaimed stageReview stageClaimed_reachable).
  apply (rtc_l _ _ stageRequested).
  - exact (step_work _ _ (step_review_create createReview stageClaimed)).
  - apply rtc_once. exact (step_work _ _ (step_claim claim2 stageRequested)).
Defined.
