(* ===== verification/Guarantees.v ===== *)
(** * What the operations guarantee

    The contracts of the write operations, proved from the components'
    lemmas: totality of the expiry sweep, the exact outcome of an acquisition,
    a renewal and a cancellation, what a claim and a finished attempt
    establish, replays, and the atomicity of errors.  Each theorem is evaluated
    on the run of [Scenario.v]. *)

From S2P Require Import Prelude GoStrings Errors Validation Samples Issue Relation Session IssueOps.
From S2P Require Import Discussion Resource Attempt.
From S2P Require Import AttemptPolicy Gates Store Schema ReservationStore GateStore ReviewStore Termination.
From S2P Require Import ReviewOps AttemptStore Lifecycle Scenario.

(** ** The state of every reachable store *)

(** C2. In every reachable store, whatever the interleaving of operations, the
    active reservations are exclusive: two of them never denote a common path
    or name.  Each of them describes a resource and, unless callers misuse
    [AcquireReservations] with its attempt, belongs to an active work attempt of
    its own issue. *)
Theorem reservations_exclusive `{UnicodeTables, ULID, JSONCodec, URLParser, SnapshotHash, SQLiteDriver, Misused} s :
  reachable s →
  (∀ i j r q n k, i ≠ j → st_reservations s !! i = Some r → st_reservations s !! j = Some q →
     reservationActive r = true → reservationActive q = true → rowDescribes r n → rowDescribes q k →
     ¬ common_point n k) ∧
  (∀ i r, st_reservations s !! i = Some r → reservationActive r = true →
     (∃ n, rowDescribes r n) ∧
     (misused (rr_AttemptID r) = false →
     ∃ a, st_attempts s !! rr_AttemptID r = Some a ∧ attemptActive a = true ∧ ar_Kind a = AttemptKindWork ∧
       ar_IssueID a = rv_IssueID (rr_Reservation r))).
Proof.
  intros Hr. destruct (reachable_lifecycle s Hr) as [_ Ho _ Hd Hdis]. split; [exact Hdis|].
  intros i r Hi Ha. split; [by eapply Hd|]. by apply (Ho i r).
Qed.

Example reservations_exclusive_witness :
  reachable stageReview ∧
  (∀ i j r q n k, i ≠ j → st_reservations stageReview !! i = Some r → st_reservations stageReview !! j = Some q →
     reservationActive r = true → reservationActive q = true → rowDescribes r n → rowDescribes q k →
     ¬ common_point n k) ∧
  (∀ i r, st_reservations stageReview !! i = Some r → reservationActive r = true →
     (∃ n, rowDescribes r n) ∧
     (misused (rr_AttemptID r) = false →
     ∃ a, st_attempts stageReview !! rr_AttemptID r = Some a ∧ attemptActive a = true ∧ ar_Kind a = AttemptKindWork ∧
       ar_IssueID a = rv_IssueID (rr_Reservation r))).
Proof. split; [apply stageReview_reachable|]. apply (reservations_exclusive stageReview stageReview_reachable). Defined.

(** C3. In every reachable store an issue has at most one active attempt, a
    review request is claimed by at most one attempt and an attempt claims at
    most one request, every claiming attempt is an active review attempt of
    the request's issue, and an issue version has at most one unresolved
    request. *)
Theorem attempts_exclusive `{UnicodeTables, ULID, JSONCodec, URLParser, SnapshotHash, SQLiteDriver, Misused} s :
  reachable s →
  (∀ i j a b, st_attempts s !! i = Some a → st_attempts s !! j = Some b →
     attemptActive a = true → attemptActive b = true → ar_IssueID a = ar_IssueID b → i = j) ∧
  (∀ i q, st_requests s !! i = Some q → requestClaimed q = true →
     ∃ aid a, rq_ActiveAttemptID q = Some aid ∧ st_attempts s !! aid = Some a ∧ attemptActive a = true ∧
       ar_Kind a = AttemptKindReview ∧ ar_IssueID a = rq_IssueID q) ∧
  (∀ i j q r aid, st_requests s !! i = Some q → st_requests s !! j = Some r →
     rq_ActiveAttemptID q = Some aid → rq_ActiveAttemptID r = Some aid → i = j) ∧
  (∀ i j q r, st_requests s !! i = Some q → st_requests s !! j = Some r →
     requestUnresolved q = true → requestUnresolved r = true → rq_IssueID q = rq_IssueID r →
     rq_TargetIssueVersion q = rq_TargetIssueVersion r → i = j).
Proof.
  intros Hr. destruct (reachable_lifecycle s Hr) as [Hs _ Hc _ _]. split_and!.
  - intros i j a b Hi Hj Ha Hb He. apply (attempt_unique s i j a b Hs Hi Hj). unfold activeAttemptClash.
    by rewrite Ha, Hb, He, eqb_string_refl.
  - intros i q Hq Hcl. destruct (claimed_attempt s i q Hs Hq Hcl) as [aid Haid]. exists aid.
    destruct (Hc i q aid Hq Hcl Haid) as (a & ?); [done|]. exists a. tauto.
  - intros i j q r aid. by apply claimed_unique.
  - intros i j q r Hi Hj Hq Hu He Hv. apply (request_unique s i j q r Hs Hi Hj). unfold activeIssueVersionClash.
    by rewrite Hq, Hu, He, Hv, eqb_string_refl, Z.eqb_refl.
Qed.

Example attempts_exclusive_witness :
  reachable stageReview ∧
  (∀ i j a b, st_attempts stageReview !! i = Some a → st_attempts stageReview !! j = Some b →
     attemptActive a = true → attemptActive b = true → ar_IssueID a = ar_IssueID b → i = j) ∧
  (∀ i q, st_requests stageReview !! i = Some q → requestClaimed q = true →
     ∃ aid a, rq_ActiveAttemptID q = Some aid ∧ st_attempts stageReview !! aid = Some a ∧ attemptActive a = true ∧
       ar_Kind a = AttemptKindReview ∧ ar_IssueID a = rq_IssueID q) ∧
  (∀ i j q r aid, st_requests stageReview !! i = Some q → st_requests stageReview !! j = Some r →
     rq_ActiveAttemptID q = Some aid → rq_ActiveAttemptID r = Some aid → i = j) ∧
  (∀ i j q r, st_requests stageReview !! i = Some q → st_requests stageReview !! j = Some r →
     requestUnresolved q = true → requestUnresolved r = true → rq_IssueID q = rq_IssueID r →
     rq_TargetIssueVersion q = rq_TargetIssueVersion r → i = j).
Proof. split; [apply stageReview_reachable|]. apply (attempts_exclusive stageReview stageReview_reachable). Defined.

(** ** The expiry sweep *)

Section sweep.
Context `{UnicodeTables, ULID, SQLiteDriver, Misused}.

Lemma expireEach_sweep now ids : ∀ s n,
  lifecycle_ok s → NoDup ids → Forall (due now s) ids →
  ∃ s', expireEach ids now n s = Ok ((n + Z.of_nat (length ids))%Z, s') ∧ lifecycle_ok s' ∧ swept ids now s s'.
Proof.
  induction ids as [|id ids IH]; intros s n Hl Hnd Hdue.
  { exists s. cbn. rewrite Z.add_0_r. by eauto using swept_nil. }
  pose proof Hdue as ((row & Hrow & Ha & Hd) & _)%Forall_cons.
  destruct (expireAttempt_run s id row now Hl Hrow Ha Hd) as (s1 & Hrun & Hl1 & He).
  destruct (IH s1 (n + 1)%Z Hl1) as (s' & Hrun' & Hl' & Hsw); [by apply NoDup_cons in Hnd as [_ ?]|by eapply due_after|].
  exists s'. split; [|split; [done|eapply swept_cons; [done| |done..]; by apply NoDup_cons in Hnd as [? _]]].
  cbn [expireEach]. unfold mbind at 1, Tx_bind at 1. rewrite Hrun, Hrun'. cbn [length]. do 2 f_equal. lia.
Qed.

Lemma dueRow_due now row : dueRow now row = true → attemptActive row = true ∧ leaseOver now row = true.
Proof. apply andb_true_iff. Qed.
End sweep.

(** C30. The expiry sweep always succeeds on a reachable store: it expires
    exactly the active attempts whose lease is over at [now] and counts them,
    no other attempt changes, no reservation of an attempt it expires stays
    active, and afterwards every claimed review request belongs to an attempt
    with a live lease, and so does every active reservation unless callers
    misuse [AcquireReservations] with its attempt. *)
Theorem ExpireAttempts_total `{UnicodeTables, ULID, JSONCodec, URLParser, SnapshotHash, SQLiteDriver, Misused} now s :
  reachable s → now ≠ time_zero →
  ∃ s', ExpireAttempts now s = (Ok (Z.of_nat (length (select (dueRow now) s))), s') ∧
    (∀ id, st_attempts s' !! id =
       (λ row, if dueRow now row then onAttempt (expiredAttempt now) row else row) <$> st_attempts s !! id) ∧
    (∀ i r, st_reservations s' !! i = Some r → reservationActive r = true →
       (∀ a, st_attempts s !! rr_AttemptID r = Some a → dueRow now a = false) ∧
       (misused (rr_AttemptID r) = false → ∃ a, st_attempts s' !! rr_AttemptID r = Some a ∧ attemptActive a = true ∧ leaseOver now a = false)) ∧
    (∀ i q aid, st_requests s' !! i = Some q → requestClaimed q = true → rq_ActiveAttemptID q = Some aid →
       ∃ a, st_attempts s' !! aid = Some a ∧ attemptActive a = true ∧ leaseOver now a = false).
Proof.
  intros Hr Hnow. pose proof (reachable_lifecycle s Hr) as Hl.
  destruct (select_due (dueRow now) now s (lc_schema _ _ _ Hl) (dueRow_due now)) as (Hnd & Hdue & Hall).
  destruct (expireEach_sweep now _ s 0 Hl Hnd Hdue) as (s' & Hrun & Hl' & Hsw). exists s'.
  assert (Hlive : ∀ id a, st_attempts s' !! id = Some a → attemptActive a = true → leaseOver now a = false).
  { intros id a Ha Hact. apply not_true_iff_false. intros Hd.
    destruct (swept_not_due _ _ _ _ id Hsw) as [(r & Hrow & Har & Hdr) Hn]; [by exists a|].
    apply Hn, (Hall id r Hrow). unfold dueRow. by rewrite Har, Hdr. }
  split_and!.
  - unfold ExpireAttempts. rewrite (proj2 (Z.eqb_neq _ _) Hnow). unfold Write, mbind at 1, Tx_bind at 1, query.
    unfold mbind at 1, Tx_bind at 1. rewrite Hrun. cbn. by rewrite length_map.
  - intros id. rewrite (sw_attempts _ _ _ _ Hsw). destruct (st_attempts s !! id) as [row|] eqn:Hrow; cbn.
    2:{ by destruct (bool_decide _). }
    destruct (dueRow now row) eqn:Hd.
    + by rewrite bool_decide_eq_true_2 by (eapply Hall; eauto).
    + rewrite bool_decide_eq_false_2; [done|]. intros Hin. rewrite Forall_forall in Hdue.
      destruct (Hdue id Hin) as (r & Hr' & Ha & Hdr). unfold dueRow in Hd.
      assert (r = row) as -> by congruence. by rewrite Ha, Hdr in Hd.
  - intros i r Hi Ha. split.
    + intros a Hat. apply not_true_iff_false. intros Hd. destruct (sw_reservations _ _ _ _ Hsw i r Hi Ha) as [_ Hn].
      by apply Hn, (Hall _ a Hat).
    + intros Hm. destruct (lc_owner _ _ _ Hl' i r Hi Ha) as (a & ? & ? & _); [done..|]. eauto.
  - intros i q aid Hi Hc Hact. destruct (lc_claim _ _ _ Hl' i q aid Hi Hc Hact) as (a & ? & ? & _); [done|]. eauto.
Qed.

Example ExpireAttempts_total_witness :
  let now := (T0 + 900000000002)%Z in
  now ≠ time_zero ∧
  ∃ s', ExpireAttempts now stageReview = (Ok (Z.of_nat (length (select (dueRow now) stageReview))), s') ∧
    (∀ id, st_attempts s' !! id =
       (λ row, if dueRow now row then onAttempt (expiredAttempt now) row else row) <$> st_attempts stageReview !! id) ∧
    (∀ i r, st_reservations s' !! i = Some r → reservationActive r = true →
       (∀ a, st_attempts stageReview !! rr_AttemptID r = Some a → dueRow now a = false) ∧
       (misused (rr_AttemptID r) = false → ∃ a, st_attempts s' !! rr_AttemptID r = Some a ∧ attemptActive a = true ∧ leaseOver now a = false)) ∧
    (∀ i q aid, st_requests s' !! i = Some q → requestClaimed q = true → rq_ActiveAttemptID q = Some aid →
       ∃ a, st_attempts s' !! aid = Some a ∧ attemptActive a = true ∧ leaseOver now a = false).
Proof. cbv zeta. split; [done|]. apply (ExpireAttempts_total (T0 + 900000000002) stageReview stageReview_reachable). done. Defined.

(** ** Acquisition *)

Lemma conflictsOf_cons `{UnicodeTables, ULID, SQLiteDriver} s scanned prepared d ds :
  conflictsOf s scanned prepared = d :: ds → ∃ c sc, c ∈ prepared ∧ sc ∈ scanned ∧ overlapsRow c sc = true.
Proof.
  unfold conflictsOf. revert d ds. induction prepared as [|c prepared IH]; cbn; [done|]. intros d ds.
  destruct (List.find (overlapsRow c) scanned) as [sc|] eqn:Hf.
  - intros _. apply List.find_some in Hf as [Hin Ho]. exists c, sc.
    split_and!; [left|by apply list_elem_of_In|done].
  - intros Hc. destruct (IH d ds Hc) as (c' & sc & ? & ? & ?). exists c', sc. split_and!; [by right|done|done].
Qed.

Lemma candidate_active prepared row s :
  row ∈ candidateRows prepared s → reservationActive row = true.
Proof.
  rewrite elem_of_candidateRows. unfold selectsLogical, selectsPath. intros [_ [Hs|Hs]]; by conj_hyps.
Qed.

(** C28. Acquisition decides conflicts exactly, although it reads only the rows
    the candidate query selects: if some requested resource shares a path or
    name with some active reservation it is refused as a conflict, and
    otherwise it stores the reservations. *)
Theorem acquire_decides `{UnicodeTables, ULID, SQLiteDriver} prepared resources issueID attemptID sessionID now s scanned :
  prepared_ok prepared → collect scanReservationRow (candidateRows prepared s) = Ok scanned →
  let acquire := acquireReservationsForAttempt prepared resources issueID attemptID sessionID now s in
  ((∃ c i row n, c ∈ prepared ∧ st_reservations s !! i = Some row ∧ reservationActive row = true ∧
      rowDescribes row n ∧ common_point (pr_Resource c) n) ∧
   ∃ d ds, acquire = Err (conflictError (d :: ds))) ∨
  ((∀ c i row n, c ∈ prepared → st_reservations s !! i = Some row → reservationActive row = true →
      rowDescribes row n → ¬ common_point (pr_Resource c) n) ∧
   acquire = insertReservations prepared resources issueID attemptID sessionID now s).
Proof.
  intros [Hwf _] Hscan acquire.
  assert (Hacq : acquire = if (0 <? Z.of_nat (length (conflictsOf s scanned prepared)))%Z
                           then Err (conflictError (conflictsOf s scanned prepared))
                           else insertReservations prepared resources issueID attemptID sessionID now s).
  { unfold acquire, acquireReservationsForAttempt, loadCandidateReservations. unfold mbind at 1, Tx_bind at 1.
    rewrite Hscan. cbn [lift]. unfold mbind, Tx_bind, query. by destruct (0 <? _)%Z. }
  rewrite Hacq. destruct (conflictsOf s scanned prepared) as [|d ds] eqn:Hc; [right|left]; (split; [|by eauto]).
  - intros c i row n Hin Hrow Ha Hd. eapply no_conflict_disjoint; eauto.
  - destruct (conflictsOf_cons _ _ _ _ _ Hc) as (c & sc & Hin & Hsc & Ho).
    apply collect_scan in Hscan as [Hrows Hdesc].
    assert (Hcand : sc_Row sc ∈ candidateRows prepared s) by (rewrite <-Hrows; apply list_elem_of_fmap; eauto).
    pose proof Hcand as [(i & Hi) _]%elem_of_candidateRows.
    rewrite Forall_forall in Hdesc. pose proof (Hdesc sc Hsc) as Hd.
    exists c, i, (sc_Row sc), (sc_normalized sc). split_and!; try done; [by eapply candidate_active|].
    apply Overlaps_spec; [by apply Hwf|apply Hd|exact Ho].
Qed.

Definition sampleRequest : list Resource :=
  [mkResource ResourceKindDirectory "src" "" ""; mkResource ResourceKindFile "docs/x.md" "" ""].
Definition sampleInputs : list ReservationResourceInput :=
  zip_with mkResourceInput [ulid_of "S"; ulid_of "U"] sampleRequest.
Definition samplePrepared : list PreparedResource :=
  match PrepareReservationRequest sampleRequest with Ok prepared => prepared | Err _ => [] end.
Definition sampleScanned : list scannedRow :=
  match collect scanReservationRow (candidateRows samplePrepared stageReview) with Ok rows => rows | Err _ => [] end.

Example acquire_decides_witness :
  PrepareReservationRequest sampleRequest = Ok samplePrepared ∧ length samplePrepared = 2%nat ∧
  length sampleScanned = 1%nat ∧
  let acquire := acquireReservationsForAttempt samplePrepared sampleInputs (i_ID issue1) (ulid_of "A") None T0 stageReview in
  ((∃ c i row n, c ∈ samplePrepared ∧ st_reservations stageReview !! i = Some row ∧ reservationActive row = true ∧
      rowDescribes row n ∧ common_point (pr_Resource c) n) ∧
   ∃ d ds, acquire = Err (conflictError (d :: ds))) ∨
  ((∀ c i row n, c ∈ samplePrepared → st_reservations stageReview !! i = Some row → reservationActive row = true →
      rowDescribes row n → ¬ common_point (pr_Resource c) n) ∧
   acquire = insertReservations samplePrepared sampleInputs (i_ID issue1) (ulid_of "A") None T0 stageReview).
Proof.
  split; [by vm_compute|]. split; [by vm_compute|]. split; [by vm_compute|].
  apply (acquire_decides samplePrepared sampleInputs (i_ID issue1) (ulid_of "A") None T0 stageReview sampleScanned).
  - apply (prepared_ok_request sampleRequest). by vm_compute.
  - by vm_compute.
Defined.
