(* ===== verification/Finishing.v ===== *)
(** * What a finished attempt establishes

    The contract of [FinishAttempt]: a fresh (not replayed) success requires a
    live lease and the attempt's token, ends the attempt and everything it
    holds, passes the gate of its transition, and resolves the review request
    it was bound to, whose target was not stale. *)

From S2P Require Import Prelude GoStrings Errors Validation Samples Issue Relation Session IssueOps.
From S2P Require Import Discussion Resource Attempt.
From S2P Require Import AttemptPolicy Gates Store Schema ReservationStore GateStore ReviewStore Termination.
From S2P Require Import ReviewOps AttemptStore Lifecycle Scenario.

Section inversion.
Context `{UnicodeTables, ULID, JSONCodec, URLParser, SnapshotHash, SQLiteDriver, Misused}.

(** No response is stored under the command's key. *)
Definition notReplayed (command : FinishAttemptCommand) (s : Store) : Prop :=
  fc_IdempotencyKey command = "" ∨ st_idempotency s !! (finishAttemptOperation, fc_IdempotencyKey command) = None.

Lemma Validate_outcome input out : FinishAttemptInput_Validate input = Ok out →
  fi_Outcome out = fi_Outcome input ∧ fi_ReviewOutcome out = fi_ReviewOutcome input.
Proof.
  unfold FinishAttemptInput_Validate. intros Hv.
  repeat first [apply try_unit in Hv as [_ Hv]|apply fail_if_Ok in Hv as [_ Hv]|apply result_bind_Ok in Hv as (? & _ & Hv)].
  by injection Hv as <-.
Qed.

(** What the checks of a fresh, successful finish have established. *)
Record finishing (command : FinishAttemptCommand) (s : Store) (row : AttemptRow) (issue : Issue)
    (request : option ReviewRequest) (input : FinishAttemptInput) : Prop := {
  fg_input : FinishAttemptInput_Validate (fc_Input command) = Ok input;
  fg_row : st_attempts s !! fc_AttemptID command = Some row;
  fg_active : attemptActive row = true;
  fg_lease : leaseOver (fc_OccurredAt command) row = false;
  fg_token : ar_LeaseTokenHash row = fc_TokenHash command;
  fg_shape : ValidateFinishAttemptForKind input (ar_Kind row) = Ok tt;
  fg_issue : st_issues s !! ar_IssueID row = Some issue;
  fg_open : i_ArchivedAt issue = None ∧ i_Status issue ≠ StatusCancelled ∧ (unresolvedBlockerCount (i_ID issue) s <= 0)%Z;
  fg_request : request = if (ar_Kind row =s AttemptKindReview) && (fi_Outcome input =s AttemptOutcomeCompleted)
                         then loadActiveReviewRequestForAttempt (fc_AttemptID command) s else None;
}.

Definition requestFresh (issue : Issue) (request : option ReviewRequest) (s : Store) : Prop :=
  match request with
  | Some q => reviewTargetStale (i_ID issue) (rq_TargetIssueVersion q) (rq_TargetEventID q) s = Ok (false, s)
  | None => True
  end.

Lemma loadIssue_internal id s issue s' :
  loadIssueForMutation (internalIdentifier id) s = Ok (issue, s') → s' = s ∧ st_issues s !! id = Some issue.
Proof.
  unfold loadIssueForMutation. cbn [internalIdentifier id_Kind id_Value].
  destruct (st_issues s !! id); [|done]. by intros [= <- <-].
Qed.

Lemma staleReview_Err row issue q now s r s' : staleReview row issue q now s = Ok (Ok r, s') → False.
Proof.
  unfold staleReview. cbv zeta. intros Hrun. do 3 (inv_tx_step Hrun). by apply tx_ret_Ok in Hrun as [? _].
Qed.

Lemma FinishAttempt_inv command s r s' :
  notReplayed command s → FinishAttempt command s = (Ok r, s') →
  ∃ row issue request input artifacts,
    finishing command s row issue request input ∧ requestFresh issue request s ∧
    finishChecked command input artifacts row issue (latestEventID s) request s = Ok (Ok r, s').
Proof.
  intros Hnr Hrun. unfold FinishAttempt in Hrun. cbv zeta in Hrun. destruct (negb _); [done|].
  match type of Hrun with context [match ?x with Ok _ => _ | Err _ => _ end] => destruct x as [[input artifacts]|] eqn:Hp end; [|done].
  apply try_unit in Hp as [_ Hp]. apply result_bind_Ok in Hp as (input' & Hin & Hp).
  apply result_bind_Ok in Hp as (artifacts' & _ & [= -> ->]).
  destruct (Write_spec (finishTx command input artifacts) s) as [(e & _ & Hw)|(res & s1 & Htx & Hw)]; [congruence|].
  rewrite Hw in Hrun. injection Hrun as -> ->. clear Hw. unfold finishTx in Htx.
  inv_tx_step Htx. apply lift_query_Ok in Hstep as [Hsaved ->].
  assert (a = None) as ->.
  { destruct (fc_IdempotencyKey command =s "") eqn:Hk; [by injection Hsaved|]. destruct Hnr as [Hk'|Hnone].
    - apply eqb_string_false in Hk. done.
    - unfold lookupFinishedAttempt in Hsaved. rewrite Hnone in Hsaved. by injection Hsaved. }
  inv_tx_step Htx. destruct a as [[iid k]|]; [|by apply tx_ret_Ok in Htx as [? _]].
  apply authenticate_Some in Hstep as (-> & row & Hrow & Ha & Hlive & Htok & _). unfold onLease in Htx.
  inv_tx_step Htx. apply query_Ok in Hstep as [-> ->]. rewrite Hrow in Htx. unfold finishActive in Htx. cbv zeta in Htx.
  inv_tx_step Htx. apply lift_Ok in Hstep as [Hshape ->]. destruct a.
  inv_tx_step Htx. apply loadIssue_internal in Hstep as [-> Hissue]. inv_tx_step Htx. inv_tx_step Htx.
  inv_tx_step Htx. apply query_Ok in Hstep as [-> ->]. inv_tx_step Htx.
  inv_tx_step Htx. apply query_Ok in Hstep as [-> ->]. inv_tx_step Htx. apply query_Ok in Hstep as [Hreq ->].
  exists row, a, a0, input, artifacts.
  assert (Hf : finishing command s row a a0 input).
  { split; try done. split_and!; [by destruct (i_ArchivedAt a)|by apply eqb_string_false|by apply Z.ltb_ge]. }
  split; [done|]. destruct a0 as [q|]; [|done].
  inv_tx_step Htx. pose proof (reads_reviewTargetStale _ _ _ _ _ _ Hstep) as ->.
  destruct a0; [by apply staleReview_Err in Htx|]. done.
Qed.

(** ** The attempts after the end *)

Lemma keep_loop {X} (f : Store → X) x (l : list Artifact) :
  (∀ m s, f (set_artifacts m s) = f s) →
  preserves (keeping f x) (for_each (λ artifact, wrap "insert artifact" (Insert artifact)) l).
Proof. intros Hf. apply preserves_for_each. intros a. by apply preserves_wrap, keep_Insert. Qed.

Definition endedRow (command : FinishAttemptCommand) (input : FinishAttemptInput) (row : AttemptRow) : AttemptRow :=
  terminated (fi_Outcome input)
    (mkReason (fi_FailureReasonCode input) (fi_InterruptionReasonCode input)
       (reservationReleaseReasonForOutcome (fi_Outcome input))) (fc_OccurredAt command) row.
Definition finishedRow (command : FinishAttemptCommand) (input : FinishAttemptInput) (row : AttemptRow) : AttemptRow :=
  setReport input (endedRow command input row).

Lemma recordFinish_attempts command input artifacts row issue target warnings s r s' :
  recordFinish command input artifacts row issue target warnings s = Ok (Ok r, s') →
  ∃ row0, st_attempts s !! fc_AttemptID command = Some row0 ∧
    st_attempts s' = <[fc_AttemptID command := finishedRow command input row0]> (st_attempts s).
Proof.
  intros Hrun. unfold recordFinish in Hrun. cbv zeta in Hrun. inv_tx_step Hrun. apply wrap_Ok in Hstep.
  inv_tx_step Hrun. destruct a; [|done]. apply terminateAttempt_attempts in Hstep as (row0 & Hrow0 & _ & HA).
  exists row0. split; [done|]. inv_tx_step Hrun. apply wrap_Ok in Hstep.
  assert (HA1 : st_attempts s1 = <[fc_AttemptID command := finishedRow command input row0]> (st_attempts s)).
  { apply Update_Ok in Hstep as [(row1 & Hrow1 & _ & _ & _ & ->)|(Hn & _)].
    - cbn in Hrow1 |- *. rewrite HA in Hrow1 |- *. rewrite lookup_insert_eq in Hrow1. injection Hrow1 as <-.
      by rewrite insert_insert_eq.
    - specialize (Hn (endedRow command input row0)). cbn in Hn. rewrite HA, lookup_insert_eq in Hn. by specialize (Hn eq_refl). }
  rewrite <-HA1. eapply kept; [|exact Hrun]. intros x. apply preserves_bind; [by apply keep_loop|intros _].
  keep.
Qed.

(** The attempt keeps no active reservation, whoever acquired it. *)
Lemma recordFinish_released command input artifacts row issue target warnings s r s' :
  keyed (st_reservations s) →
  recordFinish command input artifacts row issue target warnings s = Ok (Ok r, s') → ∀ i q,
  st_reservations s' !! i = Some q → reservationActive q = true → rr_AttemptID q ≠ fc_AttemptID command.
Proof.
  intros Hk Hrun. unfold recordFinish in Hrun. cbv zeta in Hrun. inv_tx_step Hrun. apply wrap_Ok in Hstep.
  inv_tx_step Hrun. destruct a; [|done]. pose proof (terminateAttempt_released _ _ _ _ _ _ Hk Hstep) as Hrel.
  intros i q Hq. apply (Hrel i q). rewrite <-Hq. f_equal. symmetry. eapply kept; [|exact Hrun]. intros x.
  apply preserves_bind; [by apply preserves_wrap, keep_Update|intros _].
  apply preserves_bind; [by apply keep_loop|intros _]. keep.
Qed.
End inversion.

(** ** The steps of a completion *)

Section completion.
Context `{UnicodeTables, ULID, JSONCodec, URLParser, SnapshotHash, SQLiteDriver, Misused}.

Lemma keep_terminate_completed {X} (f : Store → X) x aid reason now :
  (∀ m s, f (set_attempts m s) = f s) → (∀ m s, f (set_reservations m s) = f s) →
  (∀ e s, f (append_draft e s) = f s) →
  preserves (keeping f x) (terminateAttempt aid AttemptStatusCompleted reason now).
Proof.
  intros Ha Hr He. unfold terminateAttempt. apply preserves_bind; [by apply keep_Update|intros n].
  destruct (n =? 0)%Z; [eauto with pres|].
  apply preserves_bind; [by apply keep_releaseReservations|intros _]. cbn. eauto with pres.
Qed.

Lemma recordFinish_keeps {X} (f : Store → X) x command input artifacts row issue target warnings :
  fi_Outcome input = AttemptOutcomeCompleted →
  (∀ m s, f (set_attempts m s) = f s) → (∀ m s, f (set_reservations m s) = f s) →
  (∀ m s, f (set_artifacts m s) = f s) → (∀ m s, f (set_idempotency m s) = f s) →
  (∀ e s, f (append_draft e s) = f s) →
  preserves (keeping f x) (recordFinish command input artifacts row issue target warnings).
Proof.
  intros Ho Ha Hr Hart Hi He. unfold recordFinish. cbv zeta. rewrite Ho.
  apply preserves_bind; [by apply preserves_wrap, keep_terminate_completed|intros terminated].
  destruct (negb terminated); [eauto with pres|].
  apply preserves_bind; [by apply preserves_wrap, keep_Update|intros _].
  apply preserves_bind; [by apply keep_loop|intros _].
  apply preserves_bind; [by apply preserves_wrap, keep_appendEvent|intros latest].
  apply preserves_bind; [by apply keep_storeIdempotency|eauto with pres].
Qed.

(** An approval that [attemptID] grants for a purpose of the request. *)
Definition grantedBy (q : ReviewRequest) (attemptID : string) (a : ReviewApproval) : Prop :=
  rp_IssueID a = rq_IssueID q ∧ rp_TargetID a = rq_TargetID q ∧ rp_RequestID a = rq_ID q ∧
  rp_AttemptID a = attemptID ∧ rp_TargetIssueVersion a = rq_TargetIssueVersion q ∧ rp_TargetEventID a = rq_TargetEventID q.

Lemma insertReviewApprovals_Ok q aid now s u s' :
  insertReviewApprovals q aid now s = Ok (u, s') →
  ∃ granted, st_approvals s' = st_approvals s ++ granted ∧ map rp_Purpose granted = rq_Purposes q ∧
    Forall (grantedBy q aid) granted.
Proof.
  unfold insertReviewApprovals. generalize (rq_Purposes q). intros purposes. revert s u.
  induction purposes as [|p purposes IH]; intros s u; cbn [for_each].
  { intros [_ ->]%tx_ret_Ok. exists []. rewrite app_nil_r. done. }
  intros Hrun. inv_tx_step Hrun. inv_tx_step Hstep. unfold newReviewApprovalID in Hstep0.
  destruct (st_entropy s) as [|id rest]; [done|]. injection Hstep0 as -> <-.
  unfold insertApproval in Hstep. destruct (approval_constraint _ _); [|done]. injection Hstep as <- <-.
  destruct (IH _ _ Hrun) as (granted & -> & Hp & Hg). cbn.
  eexists (_ :: granted). rewrite <-app_assoc. split_and!; [done|by cbn; rewrite Hp|]. by constructor.
Qed.

Lemma resolve_Ok q aid now outcome reason s u s' :
  schema_ok s → loadActiveReviewRequestForAttempt aid s = Some q →
  resolveReviewRequestForAttempt q aid now outcome reason s = Ok (u, s') →
  st_requests s' !! rq_ID q = Some (transitionRequest (reviewRequestStatusForOutcome outcome) None (Some now) q) ∧
  ∃ granted, st_approvals s' = st_approvals s ++ granted ∧ Forall (grantedBy q aid) granted ∧
    map rp_Purpose granted = if outcome =s ReviewOutcomeApproved then rq_Purposes q else [].
Proof.
  intros Hs Hq Hrun. apply loadActive_Some in Hq as [Hq Hcl]; [|done].
  unfold resolveReviewRequestForAttempt in Hrun. inv_tx_step Hrun. apply wrap_Ok in Hstep. inv_tx_step Hrun.
  apply Update_Ok in Hstep as [(r & Hr & _ & _ & -> & ->)|(Hn & _)]; [|specialize (Hn q Hq); congruence].
  cbn in Hr. assert (r = q) as -> by congruence. set (s1 := set_table _ s) in Hrun.
  assert (Hs1 : st_requests s1 !! rq_ID q = Some (transitionRequest (reviewRequestStatusForOutcome outcome) None (Some now) q))
    by apply lookup_insert_eq.
  assert (Ha1 : st_approvals s1 = st_approvals s) by done.
  clearbody s1. inv_tx_step Hrun. apply wrap_Ok in Hstep.
  assert (HQ : st_requests s0 = st_requests s1) by (eapply kept; [|exact Hstep]; intros x; keep).
  assert (HA : st_approvals s0 = st_approvals s1) by (eapply kept; [|exact Hstep]; intros x; keep).
  rewrite <-HQ in Hs1. rewrite <-HA in Ha1. clear HQ HA Hstep s1. inv_tx_step Hrun. apply wrap_Ok in Hstep.
  assert (HQ : st_requests s1 = st_requests s0) by (eapply kept; [|exact Hstep]; intros x; keep).
  assert (HA : st_approvals s1 = st_approvals s0) by (eapply kept; [|exact Hstep]; intros x; keep).
  rewrite <-HQ in Hs1. rewrite <-HA in Ha1. clear HQ HA Hstep s0.
  destruct (outcome =s ReviewOutcomeApproved).
  - apply wrap_Ok in Hrun. pose proof Hrun as (granted & Hg & Hp & Hall)%insertReviewApprovals_Ok.
    split; [|exists granted; split_and!; [by rewrite <-Ha1|done|done]]. rewrite <-Hs1. f_equal.
    apply frame_requests in Hrun; [done|apply frame_insertReviewApprovals].
  - apply tx_ret_Ok in Hrun as [_ ->]. split; [done|]. exists []. by rewrite app_nil_r.
Qed.

(** The transition of the issue passes its gate first. *)
Lemma completeIssue_inv kind target row input issue request now s i s' :
  completeIssue kind target row input issue request now s = Ok (i, s') →
  i_Status i = target ∧ st_attempts s' = st_attempts s ∧ st_reservations s' = st_reservations s ∧
  finishGate kind target (wa_ID (ar_Attempt row)) input issue request s = Ok (tt, s) ∧
  ∃ s1, tables_are (st_attempts s) (st_reservations s) (st_requests s) s1 ∧ st_approvals s1 = st_approvals s ∧
    (schema_ok s → schema_ok s1) ∧
    match request with
    | Some q => resolveReviewRequestForAttempt q (wa_ID (ar_Attempt row)) now (default "" (fi_ReviewOutcome input))
                  (fi_BlockedReason input) s1 = Ok (tt, s')
    | None => s' = s1
    end.
Proof.
  unfold completeIssue. cbv zeta. intros Hrun. inv_tx_step Hrun. apply lift_Ok in Hstep as [_ ->].
  inv_tx_step Hrun. pose proof (finishGate_reads _ _ _ _ _ _ _ _ _ Hstep) as ->. destruct a0.
  inv_tx_step Hrun. apply wrap_Ok in Hstep0. inv_tx_step Hrun. apply query_Ok in Hstep1 as [-> ->].
  inv_tx_step Hrun. inv_tx_step Hrun. apply tx_ret_Ok in Hrun as [-> ->].
  pose proof (frame_Update (R := Issue) _ _ _ _ _ _ _ _ _ (conj eq_refl (conj eq_refl eq_refl)) Hstep0) as Ht.
  assert (Ha : st_approvals s0 = st_approvals s) by (eapply kept; [|exact Hstep0]; intros x; by apply keep_Update).
  assert (Hs : schema_ok s → schema_ok s0) by (intros Hs; by eapply schema_pres_Update_issue in Hstep0).
  split; [done|]. split; [|split; [|split; [done|exists s0; split_and!; [done..|]]]].
  3:{ destruct request; [|by apply tx_ret_Ok in Hstep1 as [_ ->]]. match goal with u : unit |- _ => by destruct u end. }
  - transitivity (st_attempts s0); [|apply Ht]. destruct request as [q|]; [|by apply tx_ret_Ok in Hstep1 as [_ ->]].
    eapply kept; [|exact Hstep1]. intros x. keep.
  - transitivity (st_reservations s0); [|apply Ht]. destruct request as [q|]; [|by apply tx_ret_Ok in Hstep1 as [_ ->]].
    eapply kept; [|exact Hstep1]. intros x. keep.
Qed.
End completion.

Section finishing.
Context `{UnicodeTables, ULID, JSONCodec, URLParser, SnapshotHash, SQLiteDriver, Misused}.

(** The inversion of [FinishAttempt] down to the two halves of its end. *)
Lemma FinishAttempt_steps command s r s' :
  notReplayed command s → FinishAttempt command s = (Ok r, s') →
  ∃ row issue request input artifacts target s1 updated warnings,
    finishing command s row issue request input ∧ requestFresh issue request s ∧
    ((ar_Kind row =s AttemptKindReview) && (fi_Outcome input =s AttemptOutcomeCompleted) && negb (isSet request) &&
     optEq (fi_ReviewOutcome input) (Some ReviewOutcomeApproved) &&
     exists_row (λ q, (rq_IssueID q =s i_ID issue) && requestUnresolved q) s = false) ∧
    FinishTargetStatus (ar_Kind row) input (i_Status issue) = Ok target ∧
    (if fi_Outcome input =s AttemptOutcomeCompleted
     then completeIssue (ar_Kind row) target row input issue request (fc_OccurredAt command) s = Ok (updated, s1)
     else updated = issue ∧ s1 = s) ∧
    recordFinish command input artifacts row updated target warnings s1 = Ok (Ok r, s').
Proof.
  intros Hnr Hrun. destruct (FinishAttempt_inv _ _ _ _ Hnr Hrun) as (row & issue & request & input & artifacts & Hf & Hfresh & Hc).
  unfold finishChecked in Hc. cbv zeta in Hc. inv_tx_step Hc. apply query_Ok in Hstep as [-> ->]. inv_tx_step Hc.
  inv_tx_step Hc. apply lift_query_Ok in Hstep as [_ ->]. inv_tx_step Hc. inv_tx_step Hc.
  apply lift_Ok in Hstep as [Ht ->]. inv_tx_step Hc.
  eexists row, issue, request, input, artifacts, _, _, _, _. split; [done|]. split; [done|]. split; [done|].
  split; [exact Ht|]. split; [|exact Hc]. destruct (fi_Outcome input =s AttemptOutcomeCompleted); [done|].
  by apply tx_ret_Ok in Hstep.
Qed.

Lemma recordFinish_issue command input artifacts row issue target warnings s r s' :
  recordFinish command input artifacts row issue target warnings s = Ok (Ok r, s') → fr_Issue r = issue.
Proof.
  unfold recordFinish. cbv zeta. intros Hrun. inv_tx_step Hrun. inv_tx_step Hrun. do 4 (inv_tx_step Hrun).
  apply tx_ret_Ok in Hrun as [[= ->] _]. done.
Qed.
End finishing.

(** C5. A fresh success of [FinishAttempt] proves that the caller held the
    attempt's live lease, and ends it for good: the attempt has the reported
    outcome, no other attempt changes, and it keeps no active reservation and
    no claimed review request. *)
Theorem FinishAttempt_ends `{UnicodeTables, ULID, JSONCodec, URLParser, SnapshotHash, SQLiteDriver, Misused} command s r s' :
  reachable s → notReplayed command s → FinishAttempt command s = (Ok r, s') →
  let aid := fc_AttemptID command in
  (∃ row, st_attempts s !! aid = Some row ∧ attemptActive row = true ∧
     leaseOver (fc_OccurredAt command) row = false ∧ ar_LeaseTokenHash row = fc_TokenHash command) ∧
  (∃ row, st_attempts s' !! aid = Some row ∧ ar_Status row = fi_Outcome (fc_Input command) ∧
     attemptActive row = false ∧ wa_FinishedAt (ar_Attempt row) = Some (fc_OccurredAt command)) ∧
  (∀ id, id ≠ aid → st_attempts s' !! id = st_attempts s !! id) ∧
  (∀ i q, st_reservations s' !! i = Some q → reservationActive q = true → rr_AttemptID q ≠ aid) ∧
  (∀ i q, st_requests s' !! i = Some q → requestClaimed q = true → rq_ActiveAttemptID q ≠ Some aid).
Proof.
  intros Hr Hnr Hrun aid.
  assert (Hl' : lifecycle_ok s').
  { pose proof (FinishAttempt_lifecycle command s (reachable_lifecycle s Hr)) as Hl'. by rewrite Hrun in Hl'. }
  destruct (FinishAttempt_steps _ _ _ _ Hnr Hrun)
    as (row & issue & request & input & artifacts & target & s1 & updated & warnings & Hf & _ & _ & _ & Hcomp & Hrec).
  assert (HA1 : st_attempts s1 = st_attempts s).
  { destruct (fi_Outcome input =s AttemptOutcomeCompleted); [|by destruct Hcomp as [_ ->]].
    by apply completeIssue_inv in Hcomp as (_ & ? & _). }
  assert (HR1 : st_reservations s1 = st_reservations s).
  { destruct (fi_Outcome input =s AttemptOutcomeCompleted); [|by destruct Hcomp as [_ ->]].
    by apply completeIssue_inv in Hcomp as (_ & _ & ? & _). }
  destruct (recordFinish_attempts _ _ _ _ _ _ _ _ _ _ Hrec) as (row0 & Hrow0 & HA).
  destruct (Validate_outcome _ _ (fg_input _ _ _ _ _ _ Hf)) as [Hout _].
  assert (Hrow' : st_attempts s' !! aid = Some (finishedRow command input row0))
    by (rewrite HA; apply lookup_insert_eq).
  assert (Hina : attemptActive (finishedRow command input row0) = false).
  { pose proof (FinishAttemptInput_Validate_shape _ _ (fg_input _ _ _ _ _ _ Hf)) as [Ho _]. rewrite <-Hout in Ho.
    unfold attemptActive, ar_Status. cbn [finishedRow setReport endedRow terminated onAttempt endAttempt ar_Attempt wa_Status].
    unfold AttemptOutcome_Valid in Ho. rewrite !orb_true_iff, !eqb_string_true in Ho. by destruct Ho as [[-> | ->]| ->]. }
  split_and!.
  - exists row. destruct Hf. done.
  - exists (finishedRow command input row0). split_and!; [done|exact Hout|done|done].
  - intros id Hne. rewrite HA, HA1. by rewrite lookup_insert_ne.
  - eapply recordFinish_released; [|exact Hrec]. rewrite HR1. apply (ok_reservations _ (reachable_schema s Hr)).
  - intros i q Hq Hcl He. destruct (lc_claim _ _ _ Hl' i q aid Hq Hcl He) as (a & Hat & Hact & _); [done|]. congruence.
Qed.

Definition finished1 : Store := (FinishAttempt finish1 stageReview).2.
Definition finished1Result : FinishAttemptResult :=
  match (FinishAttempt finish1 stageReview).1 with
  | Ok r => r
  | Err _ => mkFinishResult (ar_Attempt (claimedRow claim1 issue1 "" 0)) issue1 [] 0 []
  end.
Definition finished2 : Store := (FinishAttempt finish2 stageReview).2.
Definition finished2Result : FinishAttemptResult :=
  match (FinishAttempt finish2 stageReview).1 with
  | Ok r => r
  | Err _ => mkFinishResult (ar_Attempt (claimedRow claim1 issue1 "" 0)) issue1 [] 0 []
  end.

Example FinishAttempt_ends_witness :
  let aid := ulid_of "A" in
  (∃ row, st_attempts stageReview !! aid = Some row ∧ attemptActive row = true ∧
     leaseOver (T0 + 10) row = false ∧ ar_LeaseTokenHash row = hash32 "a") ∧
  (∃ row, st_attempts finished1 !! aid = Some row ∧ ar_Status row = AttemptOutcomeCompleted ∧
     attemptActive row = false ∧ wa_FinishedAt (ar_Attempt row) = Some (T0 + 10)%Z) ∧
  (∀ id, id ≠ aid → st_attempts finished1 !! id = st_attempts stageReview !! id) ∧
  (∀ i q, st_reservations finished1 !! i = Some q → reservationActive q = true → rr_AttemptID q ≠ aid) ∧
  (∀ i q, st_requests finished1 !! i = Some q → requestClaimed q = true → rq_ActiveAttemptID q ≠ Some aid).
Proof.
  apply (FinishAttempt_ends finish1 stageReview finished1Result finished1 stageReview_reachable).
  - by left.
  - vm_compute. reflexivity.
Defined.

Lemma requestFresh_stale `{SQLiteDriver} issue q s i :
  st_issues s !! i_ID issue = Some i → requestFresh issue (Some q) s →
  targetStale (i_ID issue) (i_Version i) (rq_TargetIssueVersion q) (rq_TargetEventID q) s = false.
Proof. unfold requestFresh, reviewTargetStale. intros ->. by intros [= ->]. Qed.

(** C6. A review attempt that completes resolves exactly the request it was
    bound to: the target was not stale, the request takes the status of the
    outcome, and an approval grants each of the request's purposes at the
    frozen position, while any other outcome grants nothing.  Without a bound
    request an approval is refused while the issue has an unresolved one, and
    grants nothing. *)
Theorem FinishAttempt_review `{UnicodeTables, ULID, JSONCodec, URLParser, SnapshotHash, SQLiteDriver, Misused} command s r s' row outcome :
  reachable s → notReplayed command s → FinishAttempt command s = (Ok r, s') →
  let aid := fc_AttemptID command in
  st_attempts s !! aid = Some row → ar_Kind row = AttemptKindReview →
  fi_Outcome (fc_Input command) = AttemptOutcomeCompleted → fi_ReviewOutcome (fc_Input command) = Some outcome →
  match loadActiveReviewRequestForAttempt aid s with
  | Some q =>
      (∃ issue, st_issues s !! ar_IssueID row = Some issue ∧
         targetStale (i_ID issue) (i_Version issue) (rq_TargetIssueVersion q) (rq_TargetEventID q) s = false) ∧
      st_requests s' !! rq_ID q =
        Some (transitionRequest (reviewRequestStatusForOutcome outcome) None (Some (fc_OccurredAt command)) q) ∧
      ∃ granted, st_approvals s' = st_approvals s ++ granted ∧ Forall (grantedBy q aid) granted ∧
        map rp_Purpose granted = if outcome =s ReviewOutcomeApproved then rq_Purposes q else []
  | None =>
      st_approvals s' = st_approvals s ∧
      (outcome = ReviewOutcomeApproved →
       ∀ i q, st_requests s !! i = Some q → rq_IssueID q = ar_IssueID row → requestUnresolved q = false)
  end.
Proof.
  intros Hr Hnr Hrun aid Hrow Hk Ho Hro. pose proof (lc_schema _ _ _ (reachable_lifecycle s Hr)) as Hs.
  destruct (FinishAttempt_steps _ _ _ _ Hnr Hrun)
    as (row' & issue & request & input & artifacts & target & s1 & updated & warnings & Hf & Hfresh & Hun & _ & Hcomp & Hrec).
  pose proof (fg_row _ _ _ _ _ _ Hf) as Hrow'. fold aid in Hrow'. assert (row' = row) as -> by congruence.
  destruct (Validate_outcome _ _ (fg_input _ _ _ _ _ _ Hf)) as [Hout Hrout].
  rewrite <-Hout in Ho. rewrite <-Hrout in Hro.
  pose proof (fg_request _ _ _ _ _ _ Hf) as Hreq. pose proof (fg_issue _ _ _ _ _ _ Hf) as Hissue.
  assert (Hiid : i_ID issue = ar_IssueID row) by exact (proj1 (ok_issues _ Hs) _ _ Hissue).
  assert (Hrid : wa_ID (ar_Attempt row) = aid) by exact (proj1 (ok_attempts _ Hs) _ _ Hrow).
  rewrite Hk, Ho, !eqb_string_refl in *. cbn [andb] in Hreq, Hun, Hcomp. fold aid in Hreq. rewrite <-Hreq.
  apply completeIssue_inv in Hcomp as (_ & _ & _ & _ & s2 & (HA & HR & HQ) & Happ & Hs2 & Hres).
  pose proof (recordFinish_keeps st_requests (st_requests s1) _ _ artifacts row updated target warnings Ho
    (λ _ _, eq_refl) (λ _ _, eq_refl) (λ _ _, eq_refl) (λ _ _, eq_refl) (λ _ _, eq_refl) _ _ _ eq_refl Hrec) as HQ'.
  pose proof (recordFinish_keeps st_approvals (st_approvals s1) _ _ artifacts row updated target warnings Ho
    (λ _ _, eq_refl) (λ _ _, eq_refl) (λ _ _, eq_refl) (λ _ _, eq_refl) (λ _ _, eq_refl) _ _ _ eq_refl Hrec) as Happ'.
  unfold keeping in HQ', Happ'. destruct request as [q|].
  - split; [exists issue; split; [done|]; eapply requestFresh_stale; [by rewrite Hiid|done]|].
    rewrite Hro, Hrid in Hres. cbn [default] in Hres. apply resolve_Ok in Hres; [|by apply Hs2|].
    2:{ revert Hreq. unfold loadActiveReviewRequestForAttempt, select, rows. cbn [table requests_table]. by rewrite HQ. }
    rewrite HQ', Happ', <-Happ. exact Hres.
  - subst s2. split; [congruence|]. intros -> i q Hq Hqi.
    rewrite Hro in Hun. unfold optEq in Hun. rewrite bool_decide_eq_true_2 in Hun by done. cbn [isSet negb andb] in Hun.
    pose proof (proj1 (exists_row_false _ _) Hun i q Hq) as Hqu. cbn beta in Hqu. by rewrite Hqi, <-Hiid, eqb_string_refl in Hqu.
Qed.

Definition reviewRow : AttemptRow := default (claimedRow claim2 issue2 AttemptKindReview 0) (st_attempts stageReview !! ulid_of "B").

Example FinishAttempt_review_witness :
  fi_ReviewOutcome (fc_Input finish2) = Some ReviewOutcomeApproved ∧
  match loadActiveReviewRequestForAttempt (ulid_of "B") stageReview with
  | Some q =>
      (∃ issue, st_issues stageReview !! ar_IssueID reviewRow = Some issue ∧
         targetStale (i_ID issue) (i_Version issue) (rq_TargetIssueVersion q) (rq_TargetEventID q) stageReview = false) ∧
      st_requests finished2 !! rq_ID q =
        Some (transitionRequest (reviewRequestStatusForOutcome ReviewOutcomeApproved) None (Some (T0 + 11)%Z) q) ∧
      ∃ granted, st_approvals finished2 = st_approvals stageReview ++ granted ∧ Forall (grantedBy q (ulid_of "B")) granted ∧
        map rp_Purpose granted = if ReviewOutcomeApproved =s ReviewOutcomeApproved then rq_Purposes q else []
  | None =>
      st_approvals finished2 = st_approvals stageReview ∧
      (ReviewOutcomeApproved = ReviewOutcomeApproved →
       ∀ i q, st_requests stageReview !! i = Some q → rq_IssueID q = ar_IssueID reviewRow → requestUnresolved q = false)
  end.
Proof.
  split; [done|].
  apply (FinishAttempt_review finish2 stageReview finished2Result finished2 reviewRow ReviewOutcomeApproved stageReview_reachable).
  - by left.
  - vm_compute. reflexivity.
  - vm_compute. reflexivity.
  - vm_compute. reflexivity.
  - done.
  - done.
Defined.

(** ** The gate *)

Definition gatePasses `{UnicodeTables} (point : string) (requirements : list PolicyRequirement) (evidence : GateEvidence) : Prop :=
  ∃ evaluation, EvaluateGate point requirements evidence = Ok evaluation ∧ Passed evaluation = true.

Section gate.
Context `{UnicodeTables, SnapshotHash, SQLiteDriver, Misused}.

Lemma attemptSnapshot_passes point aid evidence s u snapshot :
  evaluateGateAgainstAttemptSnapshot point aid evidence s = Ok (u, s) →
  loadGateSnapshot (st_attempt_snapshots s) aid = Ok snapshot → gatePasses point (sn_Requirements snapshot) evidence.
Proof.
  unfold evaluateGateAgainstAttemptSnapshot. intros [Hg _]%lift_Ok Hsnap. rewrite Hsnap in Hg. destruct u.
  exact (proj1 (evaluateGate_Ok _ _ _) Hg).
Qed.

Lemma targetSnapshot_passes tid evidence s u snapshot :
  evaluateGateAgainstReviewTargetSnapshot tid evidence s = Ok (u, s) →
  loadGateSnapshot (st_target_snapshots s) tid = Ok snapshot →
  gatePasses EnforcementPointApproveReview (sn_Requirements snapshot) evidence.
Proof.
  unfold evaluateGateAgainstReviewTargetSnapshot. intros [Hg _]%lift_Ok Hsnap. rewrite Hsnap in Hg. destruct u.
  exact (proj1 (evaluateGate_Ok _ _ _) Hg).
Qed.

Lemma finishGate_run kind target aid input issue request s point :
  enforcementPointForFinish kind target (fi_ReviewOutcome input) = Some point →
  finishGate kind target aid input issue request s = Ok (tt, s) →
  let blank := acceptanceCriteriaBlank (i_AcceptanceCriteria issue) in
  let keys := if (point =s EnforcementPointCompleteWorkToReview) || (point =s EnforcementPointCompleteWorkToDone)
              then loadAttemptEvidenceKeys aid s else ∅ in
  let purposes := if point =s EnforcementPointCompleteWorkToDone
                  then loadIssueReviewApprovalPurposes (i_ID issue) s else ∅ in
  match request with
  | Some q => if point =s EnforcementPointApproveReview
              then evaluateGateAgainstReviewTargetSnapshot (rq_TargetID q)
                     (mkEvidence blank keys (reviewPurposeSet (rq_Purposes q))) s = Ok (tt, s)
              else evaluateGateAgainstAttemptSnapshot point aid (mkEvidence blank keys purposes) s = Ok (tt, s)
  | None => evaluateGateAgainstAttemptSnapshot point aid (mkEvidence blank keys purposes) s = Ok (tt, s)
  end.
Proof.
  intros Hp Hrun. unfold finishGate in Hrun. rewrite Hp in Hrun. cbv zeta in Hrun |- *.
  inv_tx_step Hrun. apply query_Ok in Hstep as [-> ->]. inv_tx_step Hrun. apply query_Ok in Hstep as [-> ->].
  destruct request; [by destruct (point =s EnforcementPointApproveReview)|done].
Qed.
End gate.

(** C4. No attempt completes past its gate: completing work towards review or
    done requires the requirements frozen when the attempt was claimed, with
    the evidence submitted on it and, for done, the approvals in force;
    approving a bound request requires those frozen with its target, with the
    purposes the request covers; an unbound approval those of its own claim. *)
Theorem FinishAttempt_gated `{UnicodeTables, ULID, JSONCodec, URLParser, SnapshotHash, SQLiteDriver, Misused} command s r s' row :
  reachable s → notReplayed command s → FinishAttempt command s = (Ok r, s') →
  let aid := fc_AttemptID command in
  let target := i_Status (fr_Issue r) in
  st_attempts s !! aid = Some row → fi_Outcome (fc_Input command) = AttemptOutcomeCompleted →
  ∃ issue, st_issues s !! ar_IssueID row = Some issue ∧
  let blank := acceptanceCriteriaBlank (i_AcceptanceCriteria issue) in
  let keys := loadAttemptEvidenceKeys aid s in
  (ar_Kind row = AttemptKindWork → target = StatusReview →
     ∀ snapshot, loadGateSnapshot (st_attempt_snapshots s) aid = Ok snapshot →
       gatePasses EnforcementPointCompleteWorkToReview (sn_Requirements snapshot) (mkEvidence blank keys ∅)) ∧
  (ar_Kind row = AttemptKindWork → target = StatusDone →
     ∀ snapshot, loadGateSnapshot (st_attempt_snapshots s) aid = Ok snapshot →
       gatePasses EnforcementPointCompleteWorkToDone (sn_Requirements snapshot)
         (mkEvidence blank keys (loadIssueReviewApprovalPurposes (i_ID issue) s))) ∧
  (ar_Kind row = AttemptKindReview → fi_ReviewOutcome (fc_Input command) = Some ReviewOutcomeApproved →
     match loadActiveReviewRequestForAttempt aid s with
     | Some q => ∀ snapshot, loadGateSnapshot (st_target_snapshots s) (rq_TargetID q) = Ok snapshot →
         gatePasses EnforcementPointApproveReview (sn_Requirements snapshot)
           (mkEvidence blank ∅ (reviewPurposeSet (rq_Purposes q)))
     | None => ∀ snapshot, loadGateSnapshot (st_attempt_snapshots s) aid = Ok snapshot →
         gatePasses EnforcementPointApproveReview (sn_Requirements snapshot) (mkEvidence blank ∅ ∅)
     end).
Proof.
  intros Hr Hnr Hrun aid target Hrow Ho. pose proof (lc_schema _ _ _ (reachable_lifecycle s Hr)) as Hs.
  destruct (FinishAttempt_steps _ _ _ _ Hnr Hrun)
    as (row' & issue & request & input & artifacts & target' & s1 & updated & warnings & Hf & _ & _ & _ & Hcomp & Hrec).
  pose proof (fg_row _ _ _ _ _ _ Hf) as Hrow'. fold aid in Hrow'. assert (row' = row) as -> by congruence.
  destruct (Validate_outcome _ _ (fg_input _ _ _ _ _ _ Hf)) as [Hout Hrout]. rewrite <-Hout in Ho.
  assert (Hrid : wa_ID (ar_Attempt row) = aid) by exact (proj1 (ok_attempts _ Hs) _ _ Hrow).
  pose proof (fg_request _ _ _ _ _ _ Hf) as Hreq. rewrite Ho, eqb_string_refl, andb_true_r in *.
  apply completeIssue_inv in Hcomp as (Hst & _ & _ & Hgate & _). rewrite Hrid in Hgate.
  assert (target' = target) as -> by (unfold target; by rewrite (recordFinish_issue _ _ _ _ _ _ _ _ _ _ Hrec)).
  exists issue. split; [apply Hf|]. cbv zeta. split_and!.
  - intros Hk Ht snapshot Hsnap. rewrite Hk, Ht in Hgate. rewrite Hk in Hreq. cbn in Hreq. subst request.
    assert (Hp : enforcementPointForFinish AttemptKindWork StatusReview (fi_ReviewOutcome input) = Some EnforcementPointCompleteWorkToReview) by done.
    pose proof (finishGate_run _ _ _ _ _ _ _ _ Hp Hgate) as Hg. eapply attemptSnapshot_passes; [exact Hg|exact Hsnap].
  - intros Hk Ht snapshot Hsnap. rewrite Hk, Ht in Hgate. rewrite Hk in Hreq. cbn in Hreq. subst request.
    assert (Hp : enforcementPointForFinish AttemptKindWork StatusDone (fi_ReviewOutcome input) = Some EnforcementPointCompleteWorkToDone) by done.
    pose proof (finishGate_run _ _ _ _ _ _ _ _ Hp Hgate) as Hg. eapply attemptSnapshot_passes; [exact Hg|exact Hsnap].
  - intros Hk Hro. rewrite Hk in Hgate, Hreq. rewrite eqb_string_refl in Hreq. fold aid in Hreq. rewrite <-Hreq.
    assert (Hp : enforcementPointForFinish AttemptKindReview target (fi_ReviewOutcome input) = Some EnforcementPointApproveReview)
      by (by rewrite Hrout, Hro).
    pose proof (finishGate_run _ _ _ _ _ _ _ _ Hp Hgate) as Hg. destruct request; intros snapshot Hsnap.
    + eapply targetSnapshot_passes; [exact Hg|exact Hsnap].
    + eapply attemptSnapshot_passes; [exact Hg|exact Hsnap].
Qed.

Example FinishAttempt_gated_witness :
  ∃ issue, st_issues stageReview !! ar_IssueID reviewRow = Some issue ∧
  let aid := ulid_of "B" in
  let target := i_Status (fr_Issue finished2Result) in
  let blank := acceptanceCriteriaBlank (i_AcceptanceCriteria issue) in
  let keys := loadAttemptEvidenceKeys aid stageReview in
  (ar_Kind reviewRow = AttemptKindWork → target = StatusReview →
     ∀ snapshot, loadGateSnapshot (st_attempt_snapshots stageReview) aid = Ok snapshot →
       gatePasses EnforcementPointCompleteWorkToReview (sn_Requirements snapshot) (mkEvidence blank keys ∅)) ∧
  (ar_Kind reviewRow = AttemptKindWork → target = StatusDone →
     ∀ snapshot, loadGateSnapshot (st_attempt_snapshots stageReview) aid = Ok snapshot →
       gatePasses EnforcementPointCompleteWorkToDone (sn_Requirements snapshot)
         (mkEvidence blank keys (loadIssueReviewApprovalPurposes (i_ID issue) stageReview))) ∧
  (ar_Kind reviewRow = AttemptKindReview → Some ReviewOutcomeApproved = Some ReviewOutcomeApproved →
     match loadActiveReviewRequestForAttempt aid stageReview with
     | Some q => ∀ snapshot, loadGateSnapshot (st_target_snapshots stageReview) (rq_TargetID q) = Ok snapshot →
         gatePasses EnforcementPointApproveReview (sn_Requirements snapshot)
           (mkEvidence blank ∅ (reviewPurposeSet (rq_Purposes q)))
     | None => ∀ snapshot, loadGateSnapshot (st_attempt_snapshots stageReview) aid = Ok snapshot →
         gatePasses EnforcementPointApproveReview (sn_Requirements snapshot) (mkEvidence blank ∅ ∅)
     end).
Proof.
  apply (FinishAttempt_gated finish2 stageReview finished2Result finished2 reviewRow stageReview_reachable).
  - by left.
  - vm_compute. reflexivity.
  - vm_compute. reflexivity.
  - done.
Defined.
