(* ===== verification/Contracts.v ===== *)
(** * The contracts of the attempt and review operations

    What a caller can rely on, operation by operation: a renewal on each of its
    branches, a cancellation, a creation, a replay, a fresh claim, and the
    atomicity of errors.  Each contract is proved from the components' lemmas
    and evaluated on the run of [Scenario.v]. *)

From S2P Require Import Prelude GoStrings Errors Validation Samples Issue Relation Session IssueOps.
From S2P Require Import Discussion Resource Attempt.
From S2P Require Import AttemptPolicy Gates Store Schema ReservationStore GateStore ReviewStore Termination.
From S2P Require Import ReviewOps AttemptStore RelationStore IssueStore PolicyStore EvidenceStore DiscussionStore.
From S2P Require Import SessionStore Plan PlanStore Lifecycle Scenario.

(** ** Renewal *)

Section renewal.
Context `{UnicodeTables, ULID, SQLiteDriver, Misused}.

Lemma setLease_constraint s id hash expires heartbeat row :
  (negb (default (ar_LeaseTokenHash row) hash =s "")) = true →
  attempt_constraint s id row = true → attempt_constraint s id (setLease hash expires heartbeat row) = true.
Proof.
  intros Hh Hc. unfold attempt_constraint in *. conj_hyps.
  change (ar_LeaseTokenHash (setLease hash expires heartbeat row)) with (default (ar_LeaseTokenHash row) hash).
  rewrite Hh. repeat (apply andb_true_iff; split); done.
Qed.

(** Authentication on each branch. *)
Lemma authenticate_run aid hash now kind s row :
  lifecycle_ok s → st_attempts s !! aid = Some row →
  if negb (attemptActive row) then authenticateActiveAttempt aid hash now kind s = Err attemptNotActive
  else if leaseOver now row then
    ∃ s', authenticateActiveAttempt aid hash now kind s = Ok (None, s') ∧
      ended aid (onAttempt (expiredAttempt now) row) ReservationReleaseReasonExpired now s s'
  else if negb (ar_LeaseTokenHash row =s hash) then authenticateActiveAttempt aid hash now kind s = Err invalidLeaseToken
  else if match kind with Some kind => negb (ar_Kind row =s kind) | None => false end
  then authenticateActiveAttempt aid hash now kind s = Err wrongKind
  else authenticateActiveAttempt aid hash now kind s = Ok (Some (ar_IssueID row, ar_Kind row), s).
Proof.
  intros Hl Hrow. unfold authenticateActiveAttempt. rewrite !(bind_run (query _) _ s _ s eq_refl), Hrow.
  destruct (attemptActive row) eqn:Ha; cbn [negb]; [|done]. destruct (leaseOver now row) eqn:Hd.
  - destruct (expireAttempt_run s aid row now Hl Hrow Ha Hd) as (s' & Hrun & _ & He). exists s'. split; [|done].
    by rewrite (bind_run _ _ _ _ _ Hrun).
  - destruct (negb (_ =s hash)); [done|]. by destruct kind as [k|]; [destruct (negb (ar_Kind row =s k))|].
Qed.
End renewal.

(** C29. A renewal on each of its branches: an unknown or ended attempt and a
    wrong token are refused and nothing changes; an attempt found past its
    lease is ended on the spot, its reservations released and its claim given
    up, before the renewal is refused; otherwise exactly the lease and the
    heartbeat of that attempt advance, to the instants of the reply. *)
Theorem RenewAttempt_spec `{UnicodeTables, ULID, JSONCodec, URLParser, SnapshotHash, SQLiteDriver, Misused} command s :
  reachable s →
  validAttempt (rn_SessionID command) (rn_AttemptID command) (rn_TokenHash command) = true →
  (0 < rn_LeaseDuration command)%Z →
  let aid := rn_AttemptID command in
  let now := rn_OccurredAt command in
  let expires := (now + rn_LeaseDuration command)%Z in
  match st_attempts s !! aid with
  | None => RenewAttempt command s = (Err attemptNotFound, s)
  | Some row =>
      if negb (attemptActive row) then RenewAttempt command s = (Err attemptNotActive, s)
      else if leaseOver now row then
        ∃ s', RenewAttempt command s = (Err leaseExpiredError, s') ∧
          ended aid (onAttempt (expiredAttempt now) row) ReservationReleaseReasonExpired now s s'
      else if negb (ar_LeaseTokenHash row =s rn_TokenHash command)
      then RenewAttempt command s = (Err invalidLeaseToken, s)
      else RenewAttempt command s =
        (Ok (mkRenewResult expires now),
         set_attempts (<[aid := setLease None expires (Some now) row]> (st_attempts s)) s)
  end.
Proof.
  intros Hr Hv Hd aid now expires. pose proof (reachable_lifecycle s Hr) as Hl.
  assert (Hrun : RenewAttempt command s = Write (
      auth ← authenticateActiveAttempt aid (rn_TokenHash command) now None;
      onLease auth (λ _,
        affected ← Update aid attemptActive (setLease None expires (Some now));
        raise_if negb (affected =? 1)%Z with attemptNotActive ;;
        mret (Ok (mkRenewResult expires now)))) s).
  { unfold RenewAttempt. cbv zeta. rewrite Hv. by rewrite (proj2 (Z.leb_gt _ _) Hd). }
  rewrite Hrun. clear Hrun. destruct (st_attempts s !! aid) as [row|] eqn:Hrow.
  2:{ apply Write_err, bind_err. unfold authenticateActiveAttempt. by rewrite (bind_run (query _) _ s _ s eq_refl), Hrow. }
  pose proof (authenticate_run aid (rn_TokenHash command) now None s row Hl Hrow) as Ha.
  destruct (attemptActive row) eqn:Hact; cbn [negb] in *; [|by apply Write_err, bind_err].
  destruct (leaseOver now row).
  { destruct Ha as (s' & Ha & He). exists s'. split; [|done]. apply Write_run. by rewrite (bind_run _ _ _ _ _ Ha). }
  destruct (negb (_ =s _)); [by apply Write_err, bind_err|]. apply Write_run. rewrite (bind_run _ _ _ _ _ Ha).
  unfold onLease. erewrite bind_run; [|apply Update_attempt_run; [exact Hrow|exact Hact|]]; [done|].
  pose proof (proj2 (ok_attempts _ (lc_schema _ _ _ Hl)) _ _ Hrow) as Hc. apply setLease_constraint; [|exact Hc].
  cbn in Hc |- *. unfold attempt_constraint in Hc. by conj_hyps.
Qed.

Definition renew1 : RenewAttemptCommand := mkRenewCommand (ulid_of "A") None (hash32 "a") 600000000000 (T0 + 5).

Example RenewAttempt_spec_witness :
  (RenewAttempt renew1 stageReview).1 = Ok (mkRenewResult (T0 + 600000000005) (T0 + 5)) ∧
  match st_attempts stageReview !! ulid_of "A" with
  | None => RenewAttempt renew1 stageReview = (Err attemptNotFound, stageReview)
  | Some row =>
      if negb (attemptActive row) then RenewAttempt renew1 stageReview = (Err attemptNotActive, stageReview)
      else if leaseOver (T0 + 5) row then
        ∃ s', RenewAttempt renew1 stageReview = (Err leaseExpiredError, s') ∧
          ended (ulid_of "A") (onAttempt (expiredAttempt (T0 + 5)) row) ReservationReleaseReasonExpired (T0 + 5)
            stageReview s'
      else if negb (ar_LeaseTokenHash row =s hash32 "a")
      then RenewAttempt renew1 stageReview = (Err invalidLeaseToken, stageReview)
      else RenewAttempt renew1 stageReview =
        (Ok (mkRenewResult (T0 + 5 + 600000000000) (T0 + 5)),
         set_attempts (<[ulid_of "A" := setLease None (T0 + 5 + 600000000000) (Some (T0 + 5)%Z) row]>
                         (st_attempts stageReview)) stageReview)
  end.
Proof. split; [vm_compute; reflexivity|]. apply (RenewAttempt_spec renew1 stageReview stageReview_reachable); vm_compute; reflexivity. Defined.

(** ** Approvals in force *)

Lemma changed_earlier issueID p q s :
  (p ≤ q)%Z → reviewedWorkChangedSince issueID p s = false → reviewedWorkChangedSince issueID q s = false.
Proof.
  unfold reviewedWorkChangedSince. intros Hle Hp. apply not_true_iff_false. intros (e & Hin & He)%existsb_exists.
  apply not_true_iff_false in Hp. apply Hp, existsb_exists. exists e. split; [done|].
  unfold eventAfter in *. rewrite !andb_true_iff, !Z.ltb_lt in *. destruct He as [[[? ?] ?] ?]. split_and!; [done|lia|done..].
Qed.

Lemma unchanged_spec issueID position s :
  reviewedWorkChangedSince issueID position s = false ↔
  ∀ e, e ∈ st_events s → e_IssueID e = Some issueID → (position < e_ID e)%Z →
    reviewedWorkEventScope s e = true → priorityOnlyIssueUpdate e = true.
Proof.
  unfold reviewedWorkChangedSince, eventAfter, optEq. rewrite <-not_true_iff_false, existsb_exists. split.
  - intros Hn e Hin Hi Hp Hs. destruct (priorityOnlyIssueUpdate e) eqn:Hu; [done|]. destruct Hn. exists e.
    split; [by apply list_elem_of_In|]. rewrite !andb_true_iff, bool_decide_eq_true, Z.ltb_lt, Hu. done.
  - intros Ha (e & Hin%list_elem_of_In & He). rewrite !andb_true_iff, bool_decide_eq_true, Z.ltb_lt in He.
    destruct He as [[[Hi Hp] Hs] Hu]. by rewrite (Ha e Hin Hi Hp Hs) in Hu.
Qed.

Lemma freshPurposes_spec issueID s p l : ∀ fresh,
  StronglySorted (not_less approvalPositionLess) l →
  (fresh = true → Forall (λ a, reviewedWorkChangedSince issueID (rp_TargetEventID a) s = false) l) →
  p ∈ freshPurposes issueID fresh l s ↔
  ∃ a, a ∈ l ∧ rp_Purpose a = p ∧ reviewedWorkChangedSince issueID (rp_TargetEventID a) s = false.
Proof.
  induction l as [|a l IH]; intros fresh Hs Hf; cbn [freshPurposes].
  { split; [set_solver|by intros (a & ?%elem_of_nil & _)]. }
  apply StronglySorted_inv in Hs as [Hs Ha].
  assert (Hrest : reviewedWorkChangedSince issueID (rp_TargetEventID a) s = false →
    Forall (λ a, reviewedWorkChangedSince issueID (rp_TargetEventID a) s = false) l).
  { intros Hc. eapply Forall_impl; [exact Ha|]. intros b Hab. apply (changed_earlier _ (rp_TargetEventID a)); [|done].
    unfold not_less, approvalPositionLess in Hab. lia. }
  destruct (reviewedWorkChangedSince issueID (rp_TargetEventID a) s) eqn:Hc; cbn [negb].
  - destruct fresh; cbn [orb]; [specialize (Hf eq_refl); apply Forall_cons in Hf as [? _]; congruence|].
    rewrite IH by done. setoid_rewrite elem_of_cons. naive_solver congruence.
  - rewrite orb_true_r, elem_of_union, elem_of_singleton, (IH true) by auto.
    setoid_rewrite elem_of_cons. naive_solver.
Qed.

(** C32. The approvals in force are computed in one pass over the positions
    they were given at, yet exactly: a purpose counts when some approval of the
    issue covers it and no event of the reviewed work, a change of the priority
    alone apart, came after the position that approval was given at.  Apart with
    it is the event of an update that changed nothing: see
    [emptyUpdate_exempt]. *)
Theorem approvals_in_force issueID s p :
  p ∈ loadIssueReviewApprovalPurposes issueID s ↔
  ∃ a, a ∈ st_approvals s ∧ rp_IssueID a = issueID ∧ rp_Purpose a = p ∧
    ∀ e, e ∈ st_events s → e_IssueID e = Some issueID → (rp_TargetEventID a < e_ID e)%Z →
      reviewedWorkEventScope s e = true → priorityOnlyIssueUpdate e = true.
Proof.
  unfold loadIssueReviewApprovalPurposes. rewrite freshPurposes_spec; [|apply stable_sort_sorted|done].
  2:{ intros a b. unfold approvalPositionLess. lia. }
  2:{ intros a b c. unfold not_less, approvalPositionLess. lia. }
  setoid_rewrite elem_of_stable_sort. setoid_rewrite elem_of_filter_list. setoid_rewrite eqb_string_true.
  setoid_rewrite unchanged_spec. naive_solver.
Qed.

Definition approved : Store := (FinishAttempt finish2 stageReview).2.

Example approvals_in_force_example :
  loadIssueReviewApprovalPurposes (i_ID issue2) approved = {[ "implementation" ]} ∧
  loadIssueReviewApprovalPurposes (i_ID issue1) approved = ∅.
Proof. split; vm_compute; reflexivity. Qed.

(** An update with an empty patch raises the version and logs the changed fields
    null.  [priorityOnlyIssueUpdateSQL] counts its event as priority-only, so that
    the approvals stay in force and the request under review stays fresh. *)
Definition emptyUpdate : UpdateIssueCommand :=
  mkUpdateCommand (internalIdentifier (i_ID issue2)) 1
    (mkPatch (unset "") (unset None) (unset None) (unset "") (unset "") (unset "") (unset None) (unset None) (unset None))
    [] false (T0 + 12) "" "".
Example emptyUpdate_exempt :
  let s := (UpdateIssue emptyUpdate stageReview).2 in
  option_map i_Version (st_issues s !! i_ID issue2) = Some 2%Z ∧
  option_map (λ e, (e_Type e, payloadChangedFields (e_Payload e), priorityOnlyIssueUpdate e)) (last (st_events s)) =
    Some ("issue_updated", None, true) ∧
  option_map (λ q, targetStale (i_ID issue2) 2 (rq_TargetIssueVersion q) (rq_TargetEventID q) s)
    (st_requests s !! ulid_of "Q") = Some false.
Proof. split_and!; vm_compute; reflexivity. Qed.

(** ** Atomicity of errors *)

(** An operation that reports an error leaves the store as it was, unless the
    error is one of [E]. *)
Definition atomic {A} (E : list DomainError) (op : Store → result A * Store) : Prop :=
  ∀ s e s', op s = (Err e, s') → s' = s ∨ e ∈ E.

(** A transaction that commits with an error commits with one of [E]. *)
Definition commits {A} (E : list DomainError) (m : Tx (result A)) : Prop :=
  ∀ s e s', m s = Ok (Err e, s') → e ∈ E.

Create HintDb commits.

Section atomicity.
Context {A : Type} (E : list DomainError).

Lemma commits_bind {B} (m : Tx B) (f : B → Tx (result A)) : (∀ b, commits E (f b)) → commits E (m ≫= f).
Proof. intros Hf s e s' (b & s1 & _ & Hrun)%tx_bind_Ok. by eapply Hf. Qed.
Lemma commits_fail e : commits E (fail (A := result A) e).
Proof. done. Qed.
Lemma commits_Ok (a : A) : commits E (mret (Ok a)).
Proof. done. Qed.
Lemma commits_Err e : e ∈ E → commits E (mret (Err (A := A) e)).
Proof. intros He s e' s' Hrun. by injection Hrun as <- _. Qed.
Lemma commits_onLease auth (k : string * string → Tx (result A)) :
  leaseExpiredError ∈ E → (∀ owner, commits E (k owner)) → commits E (onLease auth k).
Proof. intros He Hk. destruct auth; [apply Hk|by apply commits_Err]. Qed.
Lemma commits_replayed operation key hash decode (k : Tx (result A)) :
  commits E k → commits E (replayed operation key hash decode k).
Proof. intros Hk. apply commits_bind. intros [r|]; [|done]. by destruct (decode r). Qed.

Lemma atomic_Write (m : Tx (result A)) : commits E m → atomic E (Write m).
Proof.
  intros Hm s e s' Hrun. destruct (Write_spec m s) as [(e' & _ & Hw)|(r & s1 & Hok & Hw)].
  - left. congruence.
  - right. apply (Hm s e s'). congruence.
Qed.
End atomicity.
#[export] Hint Resolve commits_fail commits_Ok : commits.
#[export] Hint Extern 1 (_ ∈ _) => (repeat constructor) : commits.

(** Follow a transaction to the results it can commit. *)
Ltac follow :=
  repeat (cbv zeta; first
    [ apply commits_replayed
    | apply commits_onLease; [by repeat constructor|intros ?]
    | apply commits_bind; intros ?
    | apply commits_Ok | apply commits_fail
    | apply commits_Err; by repeat constructor
    | match goal with |- commits _ (match ?x with _ => _ end) => destruct x end ]).

(** An operation validates, then writes. *)
Ltac guarded :=
  cbv zeta;
  repeat match goal with
  | |- (Err _, _) = (Err _, _) → _ => by intros [= _ ->]; left
  | |- Write _ _ = _ → _ => apply atomic_Write; follow
  | |- (match ?x with _ => _ end) = _ → _ => destruct x
  end.

(** C8. Errors are atomic.  Whatever a write operation of any repository
    reports, on any store, a reported error means that nothing was written,
    except for the three findings that are recorded on purpose: an expired
    lease, a stale review target, and a replayed claim whose attempt is over. *)
Theorem errors_are_atomic `{UnicodeTables, ULID, JSONCodec, URLParser, SnapshotHash, SQLiteDriver} :
  (∀ command, atomic [replayNotActive] (ClaimIssue command)) ∧
  (∀ command, atomic [leaseExpiredError] (RenewAttempt command)) ∧
  (∀ now, atomic [] (ExpireAttempts now)) ∧
  (∀ command, atomic [leaseExpiredError] (SaveAttemptNote command)) ∧
  (∀ command, atomic [leaseExpiredError] (ReserveResources command)) ∧
  (∀ command, atomic [] (AcquireReservations command)) ∧
  (∀ command, atomic [leaseExpiredError] (ReleaseResources command)) ∧
  (∀ command, atomic [leaseExpiredError; staleReviewTargetError] (FinishAttempt command)) ∧
  (∀ command, atomic [] (ForceReleaseAttempt command)) ∧
  (∀ command, atomic [] (ReleaseReservation command)) ∧
  (∀ command, atomic [] (CreateReviewRequest command)) ∧
  (∀ command, atomic [] (CancelReviewRequest command)) ∧
  (∀ command, atomic [] (ReplaceReviewRequest command)) ∧
  (∀ command, atomic [staleReviewTargetError] (ClaimReviewRequest command)) ∧
  (∀ command, atomic [] (ResolveReviewRequest command)) ∧
  (∀ command, atomic [leaseExpiredError] (SubmitGateEvidence command)) ∧
  (∀ command, atomic [] (CreateIssue command)) ∧
  (∀ command, atomic [] (UpdateIssue command)) ∧
  (∀ command, atomic [] (ArchiveIssue command)) ∧
  (∀ command, atomic [] (UnarchiveIssue command)) ∧
  (∀ command, atomic [] (ManageIssueRelation command)) ∧
  (∀ command, atomic [] (CreatePolicy command)) ∧
  (∀ command, atomic [] (UpdatePolicy command)) ∧
  (∀ command, atomic [] (ArchivePolicy command)) ∧
  (∀ command, atomic [] (AddComment command)) ∧
  (∀ command, atomic [] (RecordDecision command)) ∧
  (∀ command, atomic [] (CreateAgentSession command)) ∧
  (∀ command, atomic [] (ResolveAndTouchAgentSessionHandle command)) ∧
  (∀ command, atomic [] (EndAgentSessionByHandle command)) ∧
  (∀ command, atomic [] (TouchAgentSession command)) ∧
  (∀ command, atomic [] (EndAgentSession command)) ∧
  (∀ command, atomic [] (ApplyIssuePlan command)).
Proof.
  split_and!; intros command s e s'.
  - unfold ClaimIssue, claimTx, replayClaim, freshClaim. guarded.
  - unfold RenewAttempt. guarded.
  - unfold ExpireAttempts. guarded.
  - unfold SaveAttemptNote. guarded.
  - unfold ReserveResources. guarded.
  - unfold AcquireReservations. guarded.
  - unfold ReleaseResources. guarded.
  - unfold FinishAttempt, finishTx, finishActive, staleReview, finishChecked, recordFinish. guarded.
  - unfold ForceReleaseAttempt. guarded.
  - unfold ReleaseReservation. guarded.
  - unfold CreateReviewRequest, createReviewTx. guarded.
  - unfold CancelReviewRequest. guarded.
  - unfold ReplaceReviewRequest, replaceReviewTx. guarded.
  - unfold ClaimReviewRequest, claimReviewTx. guarded.
  - unfold ResolveReviewRequest. guarded.
  - unfold SubmitGateEvidence, submitTx. guarded.
  - unfold CreateIssue, createTx. guarded.
  - unfold UpdateIssue, updateTx. guarded.
  - unfold ArchiveIssue, archiveTx. guarded.
  - unfold UnarchiveIssue, unarchiveTx. guarded.
  - unfold ManageIssueRelation, manageTx. guarded.
  - unfold CreatePolicy, createPolicyTx, recordPolicy. guarded.
  - unfold UpdatePolicy, updatePolicyTx, recordPolicy. guarded.
  - unfold ArchivePolicy, archivePolicyTx, recordPolicy. guarded.
  - unfold AddComment, addTx. guarded.
  - unfold RecordDecision, recordTx. guarded.
  - unfold CreateAgentSession. guarded.
  - unfold ResolveAndTouchAgentSessionHandle. guarded.
  - unfold EndAgentSessionByHandle. guarded.
  - unfold TouchAgentSession. guarded.
  - unfold EndAgentSession. guarded.
  - unfold ApplyIssuePlan, planTx. guarded.
Qed.

Example errors_recorded :
  (RenewAttempt (mkRenewCommand (ulid_of "A") None (hash32 "a") 1 (T0 + 900000000000)) stageReview).1 =
    Err leaseExpiredError ∧
  length (st_events (RenewAttempt (mkRenewCommand (ulid_of "A") None (hash32 "a") 1 (T0 + 900000000000)) stageReview).2) =
    (length (st_events stageReview) + 2)%nat.
Proof. split; vm_compute; reflexivity. Qed.

(** ** Replays *)

(** The record of a request, as its response is read back from its JSON. *)
Definition recorded {A} (operation key hash : string) (decode : Response → option A) (r : A) (s : Store) : Prop :=
  ∃ saved, st_idempotency s !! (operation, key) = Some saved ∧ im_RequestHash saved = hash ∧
    decode (responseReadBack (im_Response saved)) = Some r.

Section replays.
Context `{SQLiteDriver, Misused} {A : Type} (operation key hash : string) (decode : Response → option A).
Hypothesis key_given : key ≠ "".
(** What an answer becomes on the way through the stored JSON. *)
Context (wire : A → A).
Hypothesis wire_read : ∀ x r, decode (responseReadBack x) = Some r → wire r = r.

Lemma lookup_recorded r s : recorded operation key hash decode r s →
  ∃ response, lookupIdempotency operation key hash s = Ok (Some response, s) ∧ decode response = Some r.
Proof.
  intros (saved & Hs & Hh & Hd). exists (responseReadBack (im_Response saved)). split; [|done]. unfold lookupIdempotency.
  by rewrite (proj2 (eqb_string_false _ _) key_given), Hs, Hh, eqb_string_refl.
Qed.

Lemma replayed_recorded k r s : recorded operation key hash decode r s →
  replayed operation key hash decode k s = Ok (Ok r, s).
Proof.
  intros (response & Hl & Hd)%lookup_recorded. unfold replayed. by rewrite (bind_run _ _ _ _ _ Hl), Hd.
Qed.

Lemma replayed_conflict {B} (decode' : Response → option B) other k r s :
  recorded operation key hash decode r s → other ≠ hash →
  replayed operation key other decode' k s = Err idempotencyConflict.
Proof.
  intros (saved & Hs & Hh & _) Hne. apply bind_err. unfold lookupIdempotency.
  by rewrite (proj2 (eqb_string_false _ _) key_given), Hs, Hh, (proj2 (eqb_string_false hash other) (not_eq_sym Hne)).
Qed.

(** What a transaction answers, it has recorded. *)
Definition records (m : Tx (result A)) : Prop :=
  ∀ s r s', m s = Ok (Ok r, s') → recorded operation key hash decode (wire r) s'.

Lemma records_bind {B} (m : Tx B) (f : B → Tx (result A)) : (∀ b, records (f b)) → records (m ≫= f).
Proof. intros Hf s r s' (b & s1 & _ & Hrun)%tx_bind_Ok. by eapply Hf. Qed.
Lemma records_fail e : records (fail e).
Proof. done. Qed.
Lemma records_onLease auth (k : string * string → Tx (result A)) : (∀ owner, records (k owner)) → records (onLease auth k).
Proof. intros Hk. by destruct auth; [apply Hk|]. Qed.

Lemma records_store response now r :
  decode (responseReadBack response) = Some (wire r) → records (run storeIdempotency operation key hash response now ;; mret (Ok r)).
Proof.
  intros Hd s r' s' (u & s1 & Hst & Hrun)%tx_bind_Ok. apply tx_ret_Ok in Hrun as [[= ->] ->].
  unfold storeIdempotency in Hst. rewrite (proj2 (eqb_string_false _ _) key_given) in Hst.
  destruct (negb (hash =s "") && _); [|done]. injection Hst as _ <-. eexists. split; [apply lookup_insert_eq|done].
Qed.

(** A run records its own response, or found it recorded. *)
Lemma records_replayed k : records k → records (replayed operation key hash decode k).
Proof.
  intros Hk s r s'. unfold replayed. intros (saved & s1 & Hl & Hrun)%tx_bind_Ok.
  destruct saved as [response|]; [|by eapply Hk].
  destruct (decode response) as [a|] eqn:Hd; [|done]. apply tx_ret_Ok in Hrun as [[= <-] ->].
  unfold lookupIdempotency in Hl. rewrite (proj2 (eqb_string_false _ _) key_given) in Hl.
  destruct (st_idempotency s !! _) as [saved|] eqn:Hs; [|done].
  destruct (im_RequestHash saved =s hash) eqn:Hh; cbn in Hl; [|done]. injection Hl as <- <-.
  exists saved. apply eqb_string_true in Hh as <-. by rewrite (wire_read _ _ Hd).
Qed.

Lemma Write_replayed k r s s1 :
  records k → Write (replayed operation key hash decode k) s = (Ok r, s1) →
  recorded operation key hash decode (wire r) s1.
Proof.
  intros Hk Hw. destruct (Write_spec (replayed operation key hash decode k) s) as [(e & _ & ?)|(r' & s' & Hrun & Hw')].
  - congruence.
  - apply (records_replayed k Hk s). congruence.
Qed.
End replays.

Ltac recording :=
  repeat (cbv zeta; first
    [ apply records_store; [assumption|reflexivity]
    | apply records_onLease; intros ?
    | apply records_bind; intros ?
    | apply records_fail
    | match goal with |- records _ _ _ _ _ (match ?x with _ => _ end) => destruct x end ]).

(** An operation answers once for a key: what it answered is recorded, as
    [wire] brings it back from the JSON; with the record present it gives that
    answer and writes nothing. *)
Definition answers_as {A} (wire : A → A) (operation key hash : string) (decode : Response → option A)
    (op : Store → result A * Store) : Prop :=
  ∀ s r s1, op s = (Ok r, s1) →
    recorded operation key hash decode (wire r) s1 ∧
    ∀ s2, recorded operation key hash decode (wire r) s2 → op s2 = (Ok (wire r), s2).
(** The same answer, when nothing is lost on the way. *)
Notation answers_once := (answers_as (λ r, r)).

Lemma Write_answers_as `{SQLiteDriver} {A} wire operation key hash (decode : Response → option A) k :
  key ≠ "" → (∀ x r, decode (responseReadBack x) = Some r → wire r = r) → records operation key hash decode wire k →
  answers_as wire operation key hash decode (Write (replayed operation key hash decode k)).
Proof.
  intros Hkey Hw Hk s r s1 Hrun. split; [by eapply Write_replayed|]. intros s2 Hr.
  by apply Write_run, replayed_recorded.
Qed.

Lemma Write_answers_once `{SQLiteDriver} {A} operation key hash (decode : Response → option A) k :
  key ≠ "" → records operation key hash decode (λ r, r) k →
  answers_once operation key hash decode (Write (replayed operation key hash decode k)).
Proof. intros Hkey. by apply Write_answers_as. Qed.

Lemma noteReadBack_read x r : asNote (responseReadBack x) = Some r → noteReadBack r = r.
Proof. destruct x; try done. cbn. intros [= <-]. apply noteReadBack_idem. Qed.

(** [ReplaceReviewRequest] spells the replay out. *)
Lemma answers_once_ext {A} operation key hash (decode : Response → option A) (m k : Tx (result A)) :
  (∀ s, m s = k s) → answers_once operation key hash decode (Write k) → answers_once operation key hash decode (Write m).
Proof.
  intros Hm Hk. assert (Hw : ∀ s, Write m s = Write k s) by (intros s; unfold Write; by rewrite Hm).
  intros s r s1. rewrite Hw. intros [? Hr]%Hk. split; [done|]. intros s2. rewrite Hw. apply Hr.
Qed.

(** A guarded operation repeats. *)
Ltac repeating :=
  cbv zeta;
  repeat match goal with
  | |- (Err _, _) = (Ok _, _) → _ => done
  | |- Write _ _ = _ → _ => apply Write_answers_once; [done|recording]
  | |- (match ?x with _ => _ end) = _ → _ => destruct x
  end.

Definition asReplace (r : Response) : option ReplaceReviewRequestResult :=
  match r with RReplace r => Some r | _ => None end.


Definition note1 : SaveAttemptNoteCommand :=
  mkNoteCommand (ulid_of "N") (ulid_of "A") None (hash32 "a") "progress" "half way" [] false [] (T0 + 6) "note-1"
    (hash32 "n").
Example retry_example :
  let first := SaveAttemptNote note1 stageReview in
  (∃ r, first.1 = Ok r) ∧ (SaveAttemptNote note1 first.2).1 = first.1 ∧
  length (st_events (SaveAttemptNote note1 first.2).2) = length (st_events first.2).
Proof. cbv zeta. split_and!; [eexists; vm_compute; reflexivity|vm_compute; reflexivity|vm_compute; reflexivity]. Qed.

(** The metadata of an artifact on the way through the stored response: none at
    first, null when the note is repeated. *)
Definition note2 : SaveAttemptNoteCommand :=
  mkNoteCommand (ulid_of "N") (ulid_of "A") None (hash32 "a") "progress" "half way" [] false
    [mkArtifact (ulid_of "E") "" None ArtifactTypeFile "src/a.go" None None (T0 + 6)] (T0 + 6) "note-2"
    (hash32 "n").
Example note_repeated :
  let metadata r := match r with Ok r => map af_Metadata (nr_Artifacts r) | Err _ => [] end in
  let first := SaveAttemptNote note2 stageReview in
  metadata first.1 = [None] ∧ metadata (SaveAttemptNote note2 first.2).1 = [Some "null"].
Proof. vm_compute. done. Qed.

(** ** Cancelling a review *)

Section cancellation.
Context `{UnicodeTables, ULID, SnapshotHash, SQLiteDriver, Misused}.

Lemma open_unassigned s i q :
  schema_ok s → st_requests s !! i = Some q → requestClaimed q = false → rq_ActiveAttemptID q = None.
Proof.
  intros Hs Hi Hcl. pose proof (proj2 (ok_requests _ Hs) _ _ Hi) as Hc. cbn in Hc. unfold request_constraint in Hc.
  conj_hyps. rewrite Hcl in *. by destruct (rq_ActiveAttemptID q).
Qed.

(** A termination that gives no claim up leaves the requests alone. *)
Lemma terminate_requests aid status reason now s b s' :
  terminalStatusAbandonsReviewClaim status = false →
  terminateAttempt aid status reason now s = Ok (b, s') → st_requests s' = st_requests s.
Proof.
  intros Hst Hrun. apply (kept st_requests) in Hrun; [done|]. intros x. unfold terminateAttempt. rewrite Hst.
  apply preserves_bind; [by apply keep_Update|intros n]. destruct (n =? 0)%Z; [eauto with pres|].
  apply preserves_bind; [by apply keep_releaseReservations|intros _; apply preserves_ret].
Qed.

Lemma terminate_active aid status reason now s b s' row :
  st_attempts s !! aid = Some row → attemptActive row = true →
  terminateAttempt aid status reason now s = Ok (b, s') → b = true.
Proof.
  intros Hrow Ha Hrun. unfold terminateAttempt in Hrun. inv_tx_step Hrun.
  apply Update_Ok in Hstep as [(r & _ & _ & _ & -> & ->)|(Hn & _ & _)].
  2:{ specialize (Hn row Hrow). congruence. }
  cbn [Z.eqb Pos.eqb] in Hrun. inv_tx_step Hrun. destruct (negb _).
  - by apply tx_ret_Ok in Hrun as [-> _].
  - inv_tx_step Hrun. by apply tx_ret_Ok in Hrun as [-> _].
Qed.

(** A frame keeps the attempts and the requests. *)
Lemma frame_both {A} (m : Tx A) s a s' : frame m → m s = Ok (a, s') →
  st_attempts s' = st_attempts s ∧ st_requests s' = st_requests s.
Proof. intros Hf Hm. split; [by eapply frame_attempts|by eapply frame_requests]. Qed.

Definition cancelReview (request : ReviewRequest) (now : Z) : Tx (option string) :=
  match rq_ActiveAttemptID request with
  | Some attemptID =>
      ended ← terminateAttempt attemptID AttemptStatusCancelled
                (mkReason None None ReservationReleaseReasonForceReleased) now;
      mret (if ended : bool then Some attemptID else None)
  | None => mret None
  end.

(** What the termination of the bound attempt does. *)
Lemma cancelReview_run q now s out s' :
  cancelReview q now s = Ok (out, s') →
  st_requests s' = st_requests s ∧
  match rq_ActiveAttemptID q with
  | Some aid => ∀ row, st_attempts s !! aid = Some row → attemptActive row = true →
      ∃ reason, st_attempts s' = <[aid := terminated AttemptStatusCancelled reason now row]> (st_attempts s)
  | None => st_attempts s' = st_attempts s
  end.
Proof.
  unfold cancelReview. intros Hrun. destruct (rq_ActiveAttemptID q) as [aid|]; [|by apply tx_ret_Ok in Hrun as [_ ->]].
  inv_tx_step Hrun. apply tx_ret_Ok in Hrun as [_ ->]. split; [exact (terminate_requests _ AttemptStatusCancelled _ _ _ _ _ eq_refl Hstep)|].
  intros row Hrow Ha. assert (a = true) as -> by exact (terminate_active _ _ _ _ _ _ _ _ Hrow Ha Hstep).
  destruct (terminateAttempt_attempts _ _ _ _ _ _ Hstep) as (row' & Hrow' & _ & HA). eexists.
  by assert (row' = row) as -> by congruence.
Qed.
End cancellation.

(** Cancelling a review request under its current version cancels exactly
    that request.  When a review attempt holds it, that attempt is ended with
    it and no other attempt changes, so no token can act for it any more; an
    open request is cancelled without touching any attempt. *)
Theorem CancelReviewRequest_revokes `{UnicodeTables, ULID, JSONCodec, URLParser, SnapshotHash, SQLiteDriver, Misused} command s r s' :
  reachable s → CancelReviewRequest command s = (Ok r, s') →
  let now := rm_OccurredAt command in
  ∃ q, st_requests s !! rm_RequestID command = Some q ∧ rq_Version q = rm_ExpectedVersion command ∧
    requestUnresolved q = true ∧ rr_Request r = transitionRequest ReviewRequestStatusCancelled None (Some now) q ∧
    st_requests s' = <[rm_RequestID command := rr_Request r]> (st_requests s) ∧
    if requestClaimed q then
      ∃ aid row, rq_ActiveAttemptID q = Some aid ∧ st_attempts s !! aid = Some row ∧ attemptActive row = true ∧
        ar_Kind row = AttemptKindReview ∧
        (∃ reason, st_attempts s' = <[aid := terminated AttemptStatusCancelled reason now row]> (st_attempts s)) ∧
        ∀ hash at_ kind, authenticateActiveAttempt aid hash at_ kind s' = Err attemptNotActive
    else st_attempts s' = st_attempts s.
Proof.
  intros Hr Hrun now. pose proof (reachable_lifecycle s Hr) as Hl. pose proof (lc_schema _ _ _ Hl) as Hs.
  unfold CancelReviewRequest in Hrun. cbv zeta in Hrun.
  match type of Hrun with Write ?m s = _ => destruct (Write_spec m s) as [(e & _ & Hw)|(r' & s1 & Hm & Hw)] end;
    [congruence|]. rewrite Hw in Hrun. injection Hrun as -> ->. inv_tx_step Hm.
  pose proof Hstep as Hid. unfold loadRequestForMutation in Hid.
  destruct (st_requests s !! rm_RequestID command) as [q|] eqn:Hq; [|done].
  destruct (st_targets s !! _); [|done]. injection Hid as <- <-. clear Hstep. cbn [fst snd] in Hm.
  assert (Hqid : rq_ID q = rm_RequestID command) by exact (proj1 (ok_requests _ Hs) _ _ Hq).
  do 2 inv_tx_step Hm. rewrite !negb_false_iff in *. inv_tx_step Hm.
  apply Update_Ok in Hstep as [(q' & Hq' & _ & _ & _ & ->)|(Hn & _ & _)].
  2:{ cbn in Hn. rewrite Hqid in Hn. specialize (Hn q Hq). unfold whereVersion in Hn. by rewrite Z.eqb_refl in Hn. }
  cbn in Hq'. rewrite Hqid in Hq'. assert (q' = q) as -> by congruence. inv_tx_step Hm.
  apply (cancelReview_run q) in Hstep as [HQ HA]. cbn in HQ, HA. inv_tx_step Hm.
  apply (frame_both _ _ _ _ (frame_appendReviewEvent _ _ _ _ _)) in Hstep as [HA1 HQ1]. inv_tx_step Hm.
  apply (frame_both) in Hstep as [HA2 HQ2]; [|destruct a0; [apply frame_appendIssueEvent|intros ? ? ?; pres]].
  apply tx_ret_Ok in Hm as [[= ->] ->]. exists q. cbn [rr_Request].
  split_and!; [done|lia|done|done|rewrite HQ2, HQ1, HQ, Hqid; done|]. rewrite HA2, HA1.
  destruct (requestClaimed q) eqn:Hcl.
  - destruct (claimed_attempt s _ q Hs Hq Hcl) as [aid Haid]. rewrite Haid in HA.
    destruct (lc_claim _ _ _ Hl _ q aid Hq Hcl Haid) as (row & Hrow & Ha & Hk & _); [done|].
    destruct (HA row Hrow Ha) as [reason HA']. exists aid, row. split_and!; try done; [by exists reason|].
    intros hash t kind. unfold authenticateActiveAttempt. rewrite (bind_run (query _) _ _ _ _ eq_refl).
    rewrite HA2, HA1, HA', lookup_insert_eq. done.
  - rewrite (open_unassigned s _ q Hs Hq Hcl) in HA. done.
Qed.

(** The claimed request of the run. *)
Definition cancel1 : ReviewMutationCommand := mkReviewMutation (ulid_of "Q") 2 (T0 + 7) None.
Definition cancelled : Store := (CancelReviewRequest cancel1 stageReview).2.
Definition cancelledResult : ReviewMutationResult :=
  match (CancelReviewRequest cancel1 stageReview).1 with
  | Ok r => r
  | Err _ => mkReviewResult (newRequest "" "" "" 0 0 [] [] None 0) (mkReviewTarget "" "" 0 0 [] [] 0 0)
  end.

Example CancelReviewRequest_revokes_witness :
  let now := (T0 + 7)%Z in
  ∃ q, st_requests stageReview !! ulid_of "Q" = Some q ∧ rq_Version q = 2%Z ∧
    requestUnresolved q = true ∧
    rr_Request cancelledResult = transitionRequest ReviewRequestStatusCancelled None (Some now) q ∧
    st_requests cancelled = <[ulid_of "Q" := rr_Request cancelledResult]> (st_requests stageReview) ∧
    if requestClaimed q then
      ∃ aid row, rq_ActiveAttemptID q = Some aid ∧ st_attempts stageReview !! aid = Some row ∧ attemptActive row = true ∧
        ar_Kind row = AttemptKindReview ∧
        (∃ reason, st_attempts cancelled = <[aid := terminated AttemptStatusCancelled reason now row]> (st_attempts stageReview)) ∧
        ∀ hash at_ kind, authenticateActiveAttempt aid hash at_ kind cancelled = Err attemptNotActive
    else st_attempts cancelled = st_attempts stageReview.
Proof.
  apply (CancelReviewRequest_revokes cancel1 stageReview cancelledResult cancelled stageReview_reachable). vm_compute. reflexivity.
Defined.

(** Every constraint failure of a claim reads as an active attempt: here the
    session does not exist, and issue 1 has no attempt. *)
Definition claimUnknownSession : ClaimIssueCommand :=
  mkClaimCommand (internalIdentifier (i_ID issue1)) (ulid_of "A") (Some (ulid_of "S")) (hash32 "a") "token-a" 900000000000 T0
    [] "" "".
Example unknown_session_misreported :
  (ClaimIssue claimUnknownSession stageIssues).1 = Err activeAttemptExists ∧ hasActiveAttempt (i_ID issue1) stageIssues = false.
Proof. split; vm_compute; reflexivity. Qed.
