(* ===== verification/Orders.v ===== *)
(** * Orders of listings and graphs

    The comparison functions of the program ([ORDER BY] clauses, [sort.Slice])
    compare one key after the other.  A weak order ([weak_order]) is what sorting
    needs; key orders are weak orders, and so is comparing by a second order
    where the first one ties ([weak_order_then]). *)

From S2P Require Import Prelude.

Record weak_order {A} (less : A → A → bool) : Prop := {
  wo_asym : ∀ x y, less x y = true → less y x = false;
  wo_trans : ∀ x y z, not_less less x y → not_less less y z → not_less less x z;
}.
Definition ties {A} (less : A → A → bool) (x y : A) : Prop := less x y = false ∧ less y x = false.

Lemma ties_sym {A} (less : A → A → bool) x y : ties less x y → ties less y x.
Proof. by intros [? ?]. Qed.
Lemma ties_trans {A} (less : A → A → bool) x y z : weak_order less → ties less x y → ties less y z → ties less x z.
Proof. intros [_ Ht] [? ?] [? ?]. split; [by apply (Ht z y x)|by apply (Ht x y z)]. Qed.

Section keys.
Context {A : Type}.

Lemma weak_order_str (f : A → string) : weak_order (λ a b, str_less (f a) (f b)).
Proof. split; [intros a b; apply str_less_asym|intros a b c; apply not_less_str_trans]. Qed.
Lemma ties_str (f : A → string) a b : (f a =s f b) = true ↔ ties (λ a b, str_less (f a) (f b)) a b.
Proof.
  rewrite eqb_string_true. split; [intros Heq; split; cbv beta; rewrite Heq; apply str_less_irrefl|intros [? ?]; by apply str_less_total].
Qed.
Lemma weak_order_Z (f : A → Z) : weak_order (λ a b, (f a <? f b)%Z).
Proof. split; unfold not_less; intros; rewrite ?Z.ltb_lt, ?Z.ltb_ge in *; lia. Qed.
Lemma ties_Z (f : A → Z) a b : (f a =? f b)%Z = true ↔ ties (λ a b, (f a <? f b)%Z) a b.
Proof. unfold ties. rewrite Z.eqb_eq, !Z.ltb_ge. lia. Qed.

Lemma weak_order_flip (less : A → A → bool) : weak_order less → weak_order (λ a b, less b a).
Proof. intros [Ha Ht]. split; [intros a b; apply Ha|]. unfold not_less. intros a b c ? ?. by apply (Ht c b a). Qed.
Lemma ties_flip (less : A → A → bool) a b : ties (λ a b, less b a) a b ↔ ties less a b.
Proof. unfold ties. tauto. Qed.

(** Where the first order ties, the second one decides. *)
Variables (same less rest : A → A → bool).
Hypothesis less_order : weak_order less.
Hypothesis rest_order : weak_order rest.
Hypothesis same_ties : ∀ a b, same a b = true ↔ ties less a b.

Lemma weak_order_then : weak_order (λ a b, if negb (same a b) then less a b else rest a b).
Proof.
  assert (Hsym : ∀ a b, same a b = same b a).
  { intros a b. apply eq_true_iff_eq. rewrite !same_ties. split; apply ties_sym. }
  split.
  - intros a b. rewrite (Hsym b a). destruct (negb (same a b)); [apply (wo_asym _ less_order)|apply (wo_asym _ rest_order)].
  - unfold not_less. intros a b c. rewrite (Hsym b a), (Hsym c b), (Hsym c a).
    destruct (same a b) eqn:Hab, (same b c) eqn:Hbc; cbn [negb]; intros H1 H2.
    + apply same_ties in Hab, Hbc. rewrite (proj2 (same_ties a c)) by by eapply ties_trans. by eapply (wo_trans _ rest_order).
    + apply same_ties in Hab. destruct (same a c) eqn:Hac; cbn [negb].
      * apply same_ties in Hac. assert (ties less b c) as Hx by (eapply ties_trans; [done|by apply ties_sym|done]).
        apply same_ties in Hx. congruence.
      * destruct Hab. by eapply (wo_trans _ less_order a b c).
    + apply same_ties in Hbc. destruct (same a c) eqn:Hac; cbn [negb].
      * apply same_ties in Hac. assert (ties less a b) as Hx by (eapply ties_trans; [done|done|by apply ties_sym]).
        apply same_ties in Hx. congruence.
      * destruct Hbc. by eapply (wo_trans _ less_order a b c).
    + destruct (same a c) eqn:Hac; cbn [negb]; [|by eapply (wo_trans _ less_order a b c)].
      apply same_ties in Hac as [Hac Hca]. assert (ties less a b) as Hx; [|apply same_ties in Hx; congruence].
      split; [|done]. by apply (wo_trans _ less_order b c a).
Qed.
Lemma ties_then a b : ties (λ a b, if negb (same a b) then less a b else rest a b) a b ↔ same a b = true ∧ ties rest a b.
Proof.
  unfold ties. assert (same b a = same a b) as ->.
  { apply eq_true_iff_eq. rewrite !same_ties. split; apply ties_sym. }
  destruct (same a b) eqn:Hs; cbn [negb]; [tauto|]. split; [|by intros [? _]]. intros Ht.
  apply (proj2 (same_ties a b)) in Ht. congruence.
Qed.
End keys.

(** A sorted list without ties is strictly sorted. *)
Lemma stable_sort_strict {A} (less : A → A → bool) l :
  weak_order less → NoDup l → (∀ x y, x ∈ l → y ∈ l → ties less x y → x = y) →
  StronglySorted (λ x y, less x y = true) (stable_sort less l).
Proof.
  intros [Ha Ht] Hnd Htie. pose proof (stable_sort_sorted less Ha Ht l) as Hs.
  assert (NoDup (stable_sort less l)) as Hnd' by by rewrite stable_sort_Permutation.
  assert (Htie' : ∀ x y, x ∈ stable_sort less l → y ∈ stable_sort less l → ties less x y → x = y).
  { intros x y. rewrite !elem_of_stable_sort. apply Htie. }
  revert Hs Hnd' Htie'. generalize (stable_sort less l). clear. intros l Hs. induction Hs as [|x l Hs IH Hx]; intros Hnd Ht; constructor;
    apply NoDup_cons in Hnd as [Hni Hnd].
  - apply IH; [done|]. intros y z Hy Hz. apply Ht; by right.
  - rewrite Forall_forall in *. intros y Hy. destruct (less x y) eqn:E; [done|].
    destruct Hni. rewrite (Ht x y); [done|by left|by right|]. split; [done|by apply Hx].
Qed.
