(* ===== verification/Encoding.v ===== *)
(** * Go encodings

    The parts of Go's [encoding/json] and [encoding/base64] that cursors use:
    values as [json.Marshal] writes them, the parser behind [json.Decoder] with
    unknown fields disallowed, the conversion of values into struct fields, and
    unpadded base64url with strict padding bits.

    Every error of the JSON decoder is one [None]: the program reads no more
    from it.  The decoder's nesting limit (10000) is not reached by its inputs,
    which are cursors of at most 4096 bytes. *)

From S2P Require Import Prelude GoStrings.

(** ** JSON values *)

Inductive json :=
  | JNull
  | JBool (b : bool)
  | JNumber (literal : string)
  | JString (s : string)
  | JArray (elements : list json)
  | JObject (members : list (string * json)).

(** ** Writing *)

(** The escapes of [json.Marshal], which also escapes for HTML. *)
Definition json_rune (r : rune) : string :=
  match r with
  | BadByte _ => esc "ufffd"
  | Rune code enc =>
      if (code =? 34)%Z || (code =? 92)%Z then esc (of_bytes enc)
      else if (code =? 8)%Z then esc "b"
      else if (code =? 12)%Z then esc "f"
      else if (code =? 10)%Z then esc "n"
      else if (code =? 13)%Z then esc "r"
      else if (code =? 9)%Z then esc "t"
      else if (code <? 32)%Z || (code =? 60)%Z || (code =? 62)%Z || (code =? 38)%Z ||
              (code =? 8232)%Z || (code =? 8233)%Z then esc "u" +:+ hex 4 code
      else of_bytes enc
  end.
Definition json_quote (s : string) : string :=
  dquote +:+ foldr (λ r acc, json_rune r +:+ acc) "" (runes s) +:+ dquote.

Fixpoint json_print (v : json) : string :=
  match v with
  | JNull => "null"
  | JBool b => if b then "true" else "false"
  | JNumber literal => literal
  | JString s => json_quote s
  | JArray elements => "[" +:+ Join (map json_print elements) "," +:+ "]"
  | JObject members =>
      "{" +:+ Join (map (λ '(name, v), json_quote name +:+ ":" +:+ json_print v) members) "," +:+ "}"
  end.

(** ** Reading *)

(** Values of bytes. *)
Definition is_byte (n : Z) (c : ascii) : bool := (byte_val c =? n)%Z.

Fixpoint skip_space (s : list ascii) : list ascii :=
  match s with
  | c :: r => if is_byte 32 c || is_byte 9 c || is_byte 10 c || is_byte 13 c then skip_space r else s
  | [] => []
  end.

Definition hex_value (c : ascii) : option Z :=
  if is_digit c then Some (byte_val c - 48)%Z
  else if in_range 97 102 c then Some (byte_val c - 87)%Z
  else if in_range 65 70 c then Some (byte_val c - 55)%Z
  else None.
Definition hex4 (a b c d : ascii) : option Z :=
  a ← hex_value a; b ← hex_value b; c ← hex_value c; d ← hex_value d;
  Some (((a * 16 + b) * 16 + c) * 16 + d)%Z.

(** [utf8.EncodeRune]. *)
Definition EncodeRune (code : Z) : list ascii :=
  let continuation n := byte_of (Z.lor 128 (Z.land n 63)) in
  if (code <? 128)%Z then [byte_of code]
  else if (code <? 2048)%Z then [byte_of (Z.lor 192 (Z.shiftr code 6)); continuation code]
  else if ((55296 <=? code) && (code <=? 57343) || (1114111 <? code))%Z then map byte_of [239; 191; 189]%Z
  else if (code <? 65536)%Z
  then [byte_of (Z.lor 224 (Z.shiftr code 12)); continuation (Z.shiftr code 6); continuation code]
  else [byte_of (Z.lor 240 (Z.shiftr code 18)); continuation (Z.shiftr code 12); continuation (Z.shiftr code 6);
        continuation code].

Definition simple_escape (c : ascii) : option ascii :=
  if is_byte 34 c || is_byte 92 c || is_byte 47 c then Some c
  else if is_byte 98 c then Some (byte_of 8)
  else if is_byte 102 c then Some (byte_of 12)
  else if is_byte 110 c then Some (byte_of 10)
  else if is_byte 114 c then Some (byte_of 13)
  else if is_byte 116 c then Some (byte_of 9)
  else None.

Definition high_surrogate (n : Z) : bool := ((55296 <=? n) && (n <=? 56319))%Z.
Definition low_surrogate (n : Z) : bool := ((56320 <=? n) && (n <=? 57343))%Z.

(** A string after its opening quote: its bytes and what follows the closing
    quote.  A lone surrogate is written as U+FFFD by [EncodeRune]. *)
Definition put (bs : list ascii) (r : option (list ascii * list ascii)) : option (list ascii * list ascii) :=
  '(s, rest) ← r; Some (bs ++ s, rest).
Fixpoint string_body (s : list ascii) : option (list ascii * list ascii) :=
  match s with
  | [] => None
  | c :: r =>
      if is_byte 34 c then Some ([], r)
      else if is_byte 92 c then
        match r with
        | [] => None
        | e :: r1 =>
            match simple_escape e with
            | Some b => put [b] (string_body r1)
            | None =>
                if is_byte 117 e then
                  match r1 with
                  | h1 :: h2 :: h3 :: h4 :: r2 =>
                      match hex4 h1 h2 h3 h4 with
                      | None => None
                      | Some n =>
                          match r2 with
                          | bs :: u :: l1 :: l2 :: l3 :: l4 :: r3 =>
                              match hex4 l1 l2 l3 l4 with
                              | Some m =>
                                  if is_byte 92 bs && is_byte 117 u && high_surrogate n && low_surrogate m
                                  then put (EncodeRune (65536 + (n - 55296) * 1024 + (m - 56320))) (string_body r3)
                                  else put (EncodeRune n) (string_body r2)
                              | None => put (EncodeRune n) (string_body r2)
                              end
                          | _ => put (EncodeRune n) (string_body r2)
                          end
                      end
                  | _ => None
                  end
                else None
            end
        end
      else if (byte_val c <? 32)%Z then None
      else put [c] (string_body r)
  end.

(** Bytes that are not UTF-8 are read as U+FFFD. *)
Definition rune_bytes (r : rune) : list ascii :=
  match r with Rune _ enc => enc | BadByte _ => EncodeRune 65533 end.
Definition to_valid (s : list ascii) : string := of_bytes (concat (map rune_bytes (utf8_decode s))).

Fixpoint digits (s : list ascii) : list ascii * list ascii :=
  match s with
  | c :: r => if is_digit c then let '(ds, rest) := digits r in (c :: ds, rest) else ([], s)
  | [] => ([], [])
  end.
Definition digits1 (s : list ascii) : option (list ascii * list ascii) :=
  let '(ds, rest) := digits s in if null ds then None else Some (ds, rest).

(** A sign, an integer without a leading zero, a fraction, an exponent. *)
Definition number (s : list ascii) : option (list ascii * list ascii) :=
  let '(sign, s) := match s with c :: r => if is_byte 45 c then ([c], r) else ([], s) | [] => ([], s) end in
  '(int, s) ← match s with
              | c :: r => if is_byte 48 c then Some ([c], r) else digits1 s
              | [] => None
              end;
  '(frac, s) ← match s with
               | c :: r => if is_byte 46 c then '(ds, r) ← digits1 r; Some (c :: ds, r) else Some ([], s)
               | [] => Some ([], s)
               end;
  '(exp, s) ← match s with
              | c :: r =>
                  if is_byte 101 c || is_byte 69 c then
                    let '(sign, r) := match r with
                      | d :: r' => if is_byte 43 d || is_byte 45 d then ([d], r') else ([], r)
                      | [] => ([], r)
                      end in
                    '(ds, r) ← digits1 r; Some (c :: sign ++ ds, r)
                  else Some ([], s)
              | [] => Some ([], s)
              end;
  Some (sign ++ int ++ frac ++ exp, s).

(** The value that starts at [s] and what follows it.  Every other level of
    recursion reads a byte: [2 * length s + 2] rounds are enough. *)
Fixpoint json_value (fuel : nat) (s : list ascii) : option (json * list ascii) :=
  match fuel with
  | O => None
  | S fuel =>
      match skip_space s with
      | [] => None
      | c :: r =>
          if is_byte 34 c then '(b, rest) ← string_body r; Some (JString (to_valid b), rest)
          else if is_byte 91 c then
            match skip_space r with
            | d :: rest =>
                if is_byte 93 d then Some (JArray [], rest)
                else '(vs, rest) ← json_elements fuel r; Some (JArray vs, rest)
            | [] => None
            end
          else if is_byte 123 c then
            match skip_space r with
            | d :: rest =>
                if is_byte 125 d then Some (JObject [], rest)
                else '(ms, rest) ← json_members fuel r; Some (JObject ms, rest)
            | [] => None
            end
          else
            match strip_prefix (bytes "null") (c :: r) with
            | Some rest => Some (JNull, rest)
            | None =>
            match strip_prefix (bytes "true") (c :: r) with
            | Some rest => Some (JBool true, rest)
            | None =>
            match strip_prefix (bytes "false") (c :: r) with
            | Some rest => Some (JBool false, rest)
            | None => '(literal, rest) ← number (c :: r); Some (JNumber (of_bytes literal), rest)
            end end end
      end
  end
with json_elements (fuel : nat) (s : list ascii) : option (list json * list ascii) :=
  match fuel with
  | O => None
  | S fuel =>
      '(v, rest) ← json_value fuel s;
      match skip_space rest with
      | c :: r =>
          if is_byte 93 c then Some ([v], r)
          else if is_byte 44 c then '(vs, r) ← json_elements fuel r; Some (v :: vs, r)
          else None
      | [] => None
      end
  end
with json_members (fuel : nat) (s : list ascii) : option (list (string * json) * list ascii) :=
  match fuel with
  | O => None
  | S fuel =>
      match skip_space s with
      | q :: r =>
          if negb (is_byte 34 q) then None else
          '(name, rest) ← string_body r;
          match skip_space rest with
          | k :: r =>
              if negb (is_byte 58 k) then None else
              '(v, rest) ← json_value fuel r;
              match skip_space rest with
              | c :: r =>
                  if is_byte 125 c then Some ([(to_valid name, v)], r)
                  else if is_byte 44 c then '(ms, r) ← json_members fuel r; Some ((to_valid name, v) :: ms, r)
                  else None
              | [] => None
              end
          | [] => None
          end
      | [] => None
      end
  end.

(** [Decoder.Decode] and the check that only space follows. *)
Definition json_parse (s : string) : option json :=
  '(v, rest) ← json_value (2 * String.length s + 2) (bytes s);
  if null (skip_space rest) then Some v else None.

(** ** Structs *)

(** [strconv.ParseInt(literal, 10, 64)] on the literals of JSON, which have no
    plus sign. *)
Definition ParseInt64 (s : string) : option Z :=
  match s with
  | EmptyString => None
  | String c r =>
      if is_byte 45 c then
        if r =s "" then None else n ← parse_digits 0 r; if (n <=? 2 ^ 63)%Z then Some (- n)%Z else None
      else ParseUint s 63
  end.

(** A conversion of a JSON value over the value a variable has; [null] leaves
    the variable as it is. *)
Definition int_of_json (v : json) (old : Z) : option Z :=
  match v with JNull => Some old | JNumber literal => ParseInt64 literal | _ => None end.
Definition bool_of_json (v : json) (old : bool) : option bool :=
  match v with JNull => Some old | JBool b => Some b | _ => None end.
Definition string_of_json (v : json) (old : string) : option string :=
  match v with JNull => Some old | JString s => Some s | _ => None end.

(** An exported field with its name in the [json] tag. *)
Record Field (T : Type) := mkField {
  fd_Name : string;
  fd_Load : T → json;
  fd_Store : json → T → option T;
}.
Arguments mkField {T}.
Arguments fd_Name {T}.
Arguments fd_Load {T}.
Arguments fd_Store {T}.

(** The folding of names: letters without case, and the two other runes whose
    simple folding is an ASCII letter. *)
Definition fold_rune (r : rune) : Z :=
  match r with
  | Rune code _ =>
      if ((97 <=? code) && (code <=? 122))%Z then code - 32
      else if (code =? 383)%Z then 83
      else if (code =? 8490)%Z then 75
      else code
  | BadByte _ => 65533
  end.
Definition fold_name (s : string) : list Z := map fold_rune (runes s).

Section structs.
Context {T : Type} (fields : list (Field T)).

Definition find_field (name : string) : option (Field T) :=
  match List.find (λ f, fd_Name f =s name) fields with
  | Some f => Some f
  | None => List.find (λ f, bool_decide (fold_name (fd_Name f) = fold_name name)) fields
  end.

Definition struct_to_json (t : T) : json := JObject (map (λ f, (fd_Name f, fd_Load f t)) fields).

(** Members are stored in order, the last of equal names wins; an unknown name
    and a value of another type are errors. *)
Definition store_member (acc : option T) (member : string * json) : option T :=
  t ← acc; f ← find_field member.1; fd_Store f member.2 t.
Definition struct_of_json (v : json) (t : T) : option T :=
  match v with
  | JNull => Some t
  | JObject members => foldl store_member (Some t) members
  | _ => None
  end.
End structs.

(** ** Unpadded base64url *)

Definition b64_char (n : Z) : ascii :=
  byte_of (if (n <? 26)%Z then 65 + n else if (n <? 52)%Z then 71 + n else if (n <? 62)%Z then n - 4
           else if (n =? 62)%Z then 45 else 95).
Definition b64_value (c : ascii) : option Z :=
  if is_upper c then Some (byte_val c - 65)%Z
  else if is_lower c then Some (byte_val c - 71)%Z
  else if is_digit c then Some (byte_val c + 4)%Z
  else if is_byte 45 c then Some 62%Z
  else if is_byte 95 c then Some 63%Z
  else None.

Fixpoint b64_encode (s : list ascii) : list ascii :=
  match s with
  | [] => []
  | [a] => let n := (byte_val a * 16)%Z in map b64_char [n / 64; n mod 64]%Z
  | [a; b] => let n := ((byte_val a * 256 + byte_val b) * 4)%Z in map b64_char [n / 4096; n / 64 mod 64; n mod 64]%Z
  | a :: b :: c :: r =>
      let n := ((byte_val a * 256 + byte_val b) * 256 + byte_val c)%Z in
      map b64_char [n / 262144; n / 4096 mod 64; n / 64 mod 64; n mod 64]%Z ++ b64_encode r
  end.
Definition EncodeToString (s : string) : string := of_bytes (b64_encode (bytes s)).

Fixpoint b64_decode (s : list ascii) : option (list ascii) :=
  match s with
  | [] => Some []
  | [_] => None
  | [a; b] =>
      a ← b64_value a; b ← b64_value b;
      let n := (a * 64 + b)%Z in
      if (n mod 16 =? 0)%Z then Some [byte_of (n / 16)] else None
  | [a; b; c] =>
      a ← b64_value a; b ← b64_value b; c ← b64_value c;
      let n := ((a * 64 + b) * 64 + c)%Z in
      if (n mod 4 =? 0)%Z then Some [byte_of (n / 1024); byte_of (n / 4 mod 256)] else None
  | a :: b :: c :: d :: r =>
      a ← b64_value a; b ← b64_value b; c ← b64_value c; d ← b64_value d;
      let n := (((a * 64 + b) * 64 + c) * 64 + d)%Z in
      rest ← b64_decode r;
      Some (byte_of (n / 65536) :: byte_of (n / 256 mod 256) :: byte_of (n mod 256) :: rest)
  end.
(** Line ends are skipped, wherever they are. *)
Definition DecodeString (s : string) : option string :=
  b ← b64_decode (List.filter (λ c, negb (is_byte 10 c || is_byte 13 c)) (bytes s));
  Some (of_bytes b).

Example EncodeToString_hello : EncodeToString "hello" = "aGVsbG8" ∧ DecodeString "aGVsbG8" = Some "hello" ∧ DecodeString "aGVsbG9" = None.
Proof. by vm_compute. Qed.
Example json_parse_sample :
  json_parse (of_bytes (map byte_of [123; 34; 97; 92; 117; 48; 48; 101; 57; 34; 32; 58; 91; 49; 46; 53; 44; 110; 117; 108; 108; 93; 125]%Z)) =
  Some (JObject [(of_bytes (map byte_of [97; 195; 169]%Z), JArray [JNumber "1.5"; JNull])]).
Proof. by vm_compute. Qed.

(** ** Lemmas: base64url *)

Lemma b64_value_char n : (0 <= n < 64)%Z → b64_value (b64_char n) = Some n.
Proof.
  intros Hn. assert (Hall : forallb (λ n, bool_decide (b64_value (b64_char n) = Some n)) (seqZ 0 64) = true) by by vm_compute.
  rewrite forallb_forall in Hall. eapply bool_decide_eq_true, Hall, list_elem_of_In, elem_of_seqZ. lia.
Qed.
Lemma b64_char_visible n : (0 <= n < 64)%Z → (32 < byte_val (b64_char n) < 127)%Z.
Proof.
  intros Hn. assert (Hall : forallb (λ n, (32 <? byte_val (b64_char n)) && (byte_val (b64_char n) <? 127))%Z (seqZ 0 64) = true) by by vm_compute.
  rewrite forallb_forall in Hall. specialize (Hall n). rewrite <-list_elem_of_In, elem_of_seqZ in Hall.
  specialize (Hall ltac:(lia)). cbn beta in Hall. bool_simpl. lia.
Qed.

#[local] Hint Extern 1 (_ <= _ < _)%Z => (Z.div_mod_to_equations; lia) : b64.

(** Three bytes at a time. *)
Lemma triples_ind (P : list ascii → Prop) :
  P [] → (∀ a, P [a]) → (∀ a b, P [a; b]) → (∀ a b c r, P r → P (a :: b :: c :: r)) → ∀ s, P s.
Proof.
  intros H0 H1 H2 H3. enough (∀ n s, length s ≤ n → P s) as Hall by (intros s; by apply (Hall (length s))).
  induction n as [|n IH]; intros [|a [|b [|c r]]] Hlen; cbn in Hlen; try lia; auto.
  apply H3, IH. lia.
Qed.

Lemma b64_decode_encode s : b64_decode (b64_encode s) = Some s.
Proof.
  induction s as [|a|a b|a b c r IH] using triples_ind; [done|..];
    pose proof (byte_val_range a); try pose proof (byte_val_range b); try pose proof (byte_val_range c);
    cbn [b64_encode b64_decode map app].
  - rewrite !b64_value_char by eauto with b64. cbn.
    set (n := byte_val a) in *. replace ((n * 16 / 64 * 64 + (n * 16) mod 64) mod 16)%Z with 0%Z by (Z.div_mod_to_equations; lia).
    cbn. replace ((n * 16 / 64 * 64 + (n * 16) mod 64) / 16)%Z with n by (Z.div_mod_to_equations; lia).
    unfold n. by rewrite byte_of_val.
  - rewrite !b64_value_char by eauto with b64. cbn [mbind option_bind]. cbv zeta.
    set (n := ((byte_val a * 256 + byte_val b) * 4)%Z).
    replace ((n / 4096 * 64 + n / 64 mod 64) * 64 + n mod 64)%Z with n by (Z.div_mod_to_equations; lia).
    replace (n mod 4)%Z with 0%Z by (Z.div_mod_to_equations; lia). cbn [Z.eqb].
    replace (n / 1024)%Z with (byte_val a) by (Z.div_mod_to_equations; lia).
    replace (n / 4 mod 256)%Z with (byte_val b) by (Z.div_mod_to_equations; lia). by rewrite !byte_of_val.
  - rewrite !b64_value_char by eauto with b64. cbn [mbind option_bind]. rewrite IH. cbv zeta.
    set (n := ((byte_val a * 256 + byte_val b) * 256 + byte_val c)%Z).
    replace (((n / 262144 * 64 + n / 4096 mod 64) * 64 + n / 64 mod 64) * 64 + n mod 64)%Z with n by (Z.div_mod_to_equations; lia).
    replace (n / 65536)%Z with (byte_val a) by (Z.div_mod_to_equations; lia).
    replace (n / 256 mod 256)%Z with (byte_val b) by (Z.div_mod_to_equations; lia).
    replace (n mod 256)%Z with (byte_val c) by (Z.div_mod_to_equations; lia). by rewrite !byte_of_val.
Qed.

Lemma b64_encode_visible s : Forall (λ c, 32 < byte_val c < 127)%Z (b64_encode s).
Proof.
  induction s as [|a|a b|a b c r IH] using triples_ind; [constructor|..];
    pose proof (byte_val_range a); try pose proof (byte_val_range b); try pose proof (byte_val_range c);
    cbn [b64_encode map app]; repeat (apply Forall_cons; split; [apply b64_char_visible; Z.div_mod_to_equations; lia|]); done.
Qed.

(** What is encoded decodes to itself. *)
Lemma DecodeString_EncodeToString s : DecodeString (EncodeToString s) = Some s.
Proof.
  unfold DecodeString, EncodeToString. rewrite bytes_of_bytes.
  assert (List.filter (λ c, negb (is_byte 10 c || is_byte 13 c)) (b64_encode (bytes s)) = b64_encode (bytes s)) as ->.
  { pose proof (b64_encode_visible (bytes s)) as Hv. revert Hv. generalize (b64_encode (bytes s)).
    induction l as [|c l IH]; [done|]. intros [Hc Hl]%Forall_cons. cbn [List.filter]. unfold is_byte at 1 2.
    rewrite !(proj2 (Z.eqb_neq _ _)) by lia. cbn [orb negb]. by rewrite (IH Hl). }
  rewrite b64_decode_encode. cbn. by rewrite of_bytes_bytes.
Qed.

Lemma EncodeToString_nonempty s : s ≠ "" → EncodeToString s ≠ "".
Proof.
  intros Hs He. pose proof (DecodeString_EncodeToString s) as Hd. rewrite He in Hd. by injection Hd as <-.
Qed.

(** ** Lemmas: strings *)

(** What [utf8_decode] guarantees of a rune, as far as escaping depends on it. *)
Definition wf_rune (r : rune) : Prop :=
  match r with
  | BadByte _ => False
  | Rune code enc =>
      (∃ b, enc = [b] ∧ code = byte_val b ∧ (code < 128)%Z) ∨
      (enc ≠ [] ∧ Forall (λ c, 128 <= byte_val c)%Z enc ∧ (128 <= code)%Z ∧
       (code = 8232%Z → enc = EncodeRune 8232) ∧ (code = 8233%Z → enc = EncodeRune 8233))
  end.

(** Tests on bytes by enumeration. *)
Definition all_bytes (lo hi : Z) (P : ascii → bool) : bool := forallb (λ n, P (byte_of n)) (seqZ lo (hi - lo + 1)).
Lemma forall_byte lo hi (P : ascii → bool) c : all_bytes lo hi P = true → (lo <= byte_val c <= hi)%Z → P c = true.
Proof.
  unfold all_bytes. intros Hall Hc. rewrite forallb_forall in Hall. rewrite <-(byte_of_val c).
  apply Hall, list_elem_of_In, elem_of_seqZ. lia.
Qed.

Definition code2 (b0 b1 : ascii) : Z := Z.lor (Z.shiftl (Z.land (byte_val b0) 31) 6) (low6 b1).
Definition code3 (b0 b1 b2 : ascii) : Z :=
  Z.lor (Z.shiftl (Z.land (byte_val b0) 15) 12) (Z.lor (Z.shiftl (low6 b1) 6) (low6 b2)).
Definition separator_ok (code : Z) (enc : list ascii) : bool :=
  (128 <=? code)%Z && (negb (code =? 8232)%Z || bool_decide (enc = EncodeRune 8232)) &&
  (negb (code =? 8233)%Z || bool_decide (enc = EncodeRune 8233)).

Lemma separator_ok_wf code enc :
  separator_ok code enc = true → enc ≠ [] → Forall (λ c, 128 <= byte_val c)%Z enc → wf_rune (Rune code enc).
Proof.
  unfold separator_ok. intros Hok Hne Henc. bool_simpl. right. split_and!; [done|done|done|..]; intros ->;
    by repeat match goal with H : (_ || _)%bool = true |- _ => apply orb_true_iff in H as [H|H]; [done|]; apply bool_decide_eq_true in H end.
Qed.

Lemma wf_rune2 b0 b1 : in_range 194 223 b0 = true → cont b1 = true → wf_rune (Rune (code2 b0 b1) [b0; b1]).
Proof.
  intros H0%in_range_spec H1%in_range_spec. apply separator_ok_wf; [|done|repeat constructor; lia].
  pose (P := λ b0 b1, separator_ok (code2 b0 b1) [b0; b1]).
  assert (Hall : all_bytes 194 223 (λ b0, all_bytes 128 191 (P b0)) = true) by by vm_compute.
  exact (forall_byte _ _ _ b1 (forall_byte _ _ _ b0 Hall H0) H1).
Qed.
Lemma wf_rune3 b0 b1 b2 :
  second_of_three b0 b1 = true → cont b2 = true → wf_rune (Rune (code3 b0 b1 b2) [b0; b1; b2]).
Proof.
  intros H01 H2%in_range_spec.
  assert ((224 <= byte_val b0 <= 239)%Z ∧ (128 <= byte_val b1 <= 191)%Z) as [H0 H1].
  { unfold second_of_three in H01. rewrite !orb_true_iff, !andb_true_iff, !orb_true_iff in H01. unfold cont in H01.
    rewrite !in_range_spec in H01. lia. }
  apply separator_ok_wf; [|done|repeat constructor; lia].
  pose (P := λ b0 b1 b2, negb (second_of_three b0 b1) || separator_ok (code3 b0 b1 b2) [b0; b1; b2]).
  assert (Hall : all_bytes 224 239 (λ b0, all_bytes 128 191 (λ b1, all_bytes 128 191 (P b0 b1))) = true) by by vm_compute.
  pose proof (forall_byte _ _ _ b2 (forall_byte _ _ _ b1 (forall_byte _ _ _ b0 Hall H0) H1) H2) as Hok.
  unfold P in Hok. by rewrite H01 in Hok.
Qed.

Definition code4_high (b0 b1 : ascii) : Z := Z.lor (Z.shiftl (Z.land (byte_val b0) 7) 18) (Z.shiftl (low6 b1) 12).
Lemma wf_rune4 b0 b1 c bs :
  second_of_four b0 b1 = true → (0 <= c)%Z → Forall (λ c, 128 <= byte_val c)%Z bs →
  wf_rune (Rune (Z.lor (Z.shiftl (Z.land (byte_val b0) 7) 18) (Z.lor (Z.shiftl (low6 b1) 12) c)) (b0 :: b1 :: bs)).
Proof.
  intros H01 Hc Hbs.
  assert ((240 <= byte_val b0 <= 244)%Z ∧ (128 <= byte_val b1 <= 191)%Z) as [H0 H1].
  { unfold second_of_four in H01. rewrite !orb_true_iff, !andb_true_iff in H01. unfold cont in H01. rewrite !in_range_spec in H01. lia. }
  assert (65536 <= code4_high b0 b1)%Z as Hhigh.
  { pose (P := λ b0 b1, negb (second_of_four b0 b1) || (65536 <=? code4_high b0 b1)%Z).
    assert (Hall : all_bytes 240 244 (λ b0, all_bytes 128 191 (P b0)) = true) by by vm_compute.
    pose proof (forall_byte _ _ _ b1 (forall_byte _ _ _ b0 Hall H0) H1) as Hok.
    unfold P in Hok. rewrite H01 in Hok. by apply Z.leb_le. }
  rewrite Z.lor_assoc. fold (code4_high b0 b1).
  assert (65536 <= Z.lor (code4_high b0 b1) c)%Z.
  { apply Z.nlt_ge. intros Hlt. pose proof (proj2 (Z.lor_nonneg (code4_high b0 b1) c)) as Hn.
    assert (Z.shiftr (Z.lor (code4_high b0 b1) c) 16 = 0)%Z as Hz.
    { rewrite Z.shiftr_div_pow2 by lia. apply Z.div_small. split; [apply Hn; lia|done]. }
    rewrite Z.shiftr_lor in Hz. apply Z.lor_eq_0_iff in Hz as [Hz _]. rewrite Z.shiftr_div_pow2 in Hz by lia.
    apply Z.div_small_iff in Hz; lia. }
  apply separator_ok_wf; [|done|repeat constructor; by (lia || done)].
  unfold separator_ok. rewrite (proj2 (Z.leb_le _ _)), !(proj2 (Z.eqb_neq _ _)) by lia. done.
Qed.

Lemma utf8_decode_wf s : Forall (λ r, rune_ok r = true → wf_rune r) (utf8_decode s).
Proof.
  enough (∀ n s, length s ≤ n → Forall (λ r, rune_ok r = true → wf_rune r) (utf8_decode s)) as Hall by (by apply (Hall (length s))).
  clear s. induction n as [|n IH]; intros [|b0 s1] Hlen; try (cbn in Hlen; lia); [constructor..|].
  rewrite utf8_decode_cons. pose proof (IH s1 ltac:(cbn in *; lia)) as IH1.
  destruct (Z.ltb_spec (byte_val b0) 128).
  { constructor; [|done]. intros _. left. by exists b0. }
  destruct s1 as [|b1 s2]; [by constructor|].
  destruct (in_range 194 223 b0 && cont b1) eqn:H2.
  { bool_simpl. constructor; [|apply IH; cbn in *; lia]. intros _. by apply wf_rune2. }
  destruct s2 as [|b2 s3]; [by constructor|].
  destruct (second_of_three b0 b1 && cont b2) eqn:H3.
  { bool_simpl. constructor; [|apply IH; cbn in *; lia]. intros _. by apply wf_rune3. }
  destruct s3 as [|b3 s4]; [by constructor|].
  destruct (second_of_four b0 b1 && cont b2 && cont b3) eqn:H4; [|by constructor].
  bool_simpl. constructor; [|apply IH; cbn in *; lia]. intros _. apply wf_rune4; [done|..].
  - apply Z.lor_nonneg. split; [apply Z.shiftl_nonneg|]; apply Z.land_nonneg; lia.
  - repeat match goal with H : cont _ = true |- _ => apply in_range_spec in H end. repeat constructor; lia.
Qed.

Lemma utf8_decode_bytes s : forallb rune_ok (utf8_decode s) = true → concat (map rune_bytes (utf8_decode s)) = s.
Proof.
  enough (∀ n s, length s ≤ n → forallb rune_ok (utf8_decode s) = true → concat (map rune_bytes (utf8_decode s)) = s)
    as Hall by (by apply (Hall (length s))).
  clear s. induction n as [|n IH]; intros [|b0 s1] Hlen; try (cbn in Hlen; lia); [done..|].
  rewrite utf8_decode_cons.
  repeat match goal with |- context [match ?s with [] => _ | _ :: _ => _ end] => is_var s; destruct s end;
    repeat match goal with |- context [if ?b then _ else _] => destruct b end;
    cbn [forallb rune_ok andb map concat rune_bytes app]; intros Hok; try done;
    repeat f_equal; (apply IH; [cbn in *; lia|done]).
Qed.

(** A valid string is what its runes spell. *)
Lemma to_valid_bytes s : ValidString s = true → to_valid (bytes s) = s.
Proof. intros Hs. unfold to_valid. by rewrite utf8_decode_bytes, of_bytes_bytes. Qed.

Lemma put_put a b r : put a (put b r) = put (a ++ b) r.
Proof. destruct r as [[s rest]|]; cbn; [|done]. by rewrite app_assoc. Qed.

Lemma string_body_u h1 h2 h3 h4 n rest :
  hex4 h1 h2 h3 h4 = Some n → high_surrogate n = false →
  string_body (byte_of 92 :: byte_of 117 :: h1 :: h2 :: h3 :: h4 :: rest) = put (EncodeRune n) (string_body rest).
Proof.
  intros Hh Hn. cbn [string_body]. change (is_byte 34 (byte_of 92)) with false. change (is_byte 92 (byte_of 92)) with true.
  change (simple_escape (byte_of 117)) with (@None ascii). change (is_byte 117 (byte_of 117)) with true. cbn iota.
  rewrite Hh. destruct rest as [|x1 [|x2 [|x3 [|x4 [|x5 [|x6 r3]]]]]]; try done.
  destruct (hex4 x3 x4 x5 x6); [|done]. by rewrite Hn, andb_false_r.
Qed.

Lemma string_body_high enc rest :
  Forall (λ c, 128 <= byte_val c)%Z enc → string_body (enc ++ rest) = put enc (string_body rest).
Proof.
  induction 1 as [|c enc Hc _ IH]; cbn [app]; [by destruct (string_body rest) as [[]|]|].
  cbn [string_body]. unfold is_byte. rewrite !(proj2 (Z.eqb_neq _ _)) by lia. rewrite (proj2 (Z.ltb_ge _ _)) by lia.
  by rewrite IH, put_put.
Qed.

Lemma string_body_rune r rest :
  wf_rune r → string_body (bytes (json_rune r) ++ rest) = put (rune_bytes r) (string_body rest).
Proof.
  destruct r as [code enc|]; [|done]. intros [(b & -> & -> & Hb)|(_ & Henc & Hcode & H1 & H2)].
  - destruct b as [[] [] [] [] [] [] [] []]; try discriminate Hb;
      first [reflexivity |
        match goal with |- context [Rune (byte_val ?b)] =>
          exact (string_body_u (hex_digit 0) (hex_digit 0) (hex_digit (byte_val b / 16)) (hex_digit (byte_val b mod 16))
                   (byte_val b) rest eq_refl eq_refl) end].
  - cbn [rune_bytes]. unfold json_rune. rewrite !(proj2 (Z.eqb_neq code _)) by lia.
    destruct (Z.eqb_spec code 8232) as [->|]; [rewrite H1 by done; exact (string_body_u (hex_digit 2) (hex_digit 0) (hex_digit 2) (hex_digit 8) 8232 rest eq_refl eq_refl)|].
    destruct (Z.eqb_spec code 8233) as [->|]; [rewrite H2 by done; exact (string_body_u (hex_digit 2) (hex_digit 0) (hex_digit 2) (hex_digit 9) 8233 rest eq_refl eq_refl)|].
    rewrite (proj2 (Z.ltb_ge _ _)) by lia. cbn [orb]. rewrite bytes_of_bytes. by apply string_body_high.
Qed.

(** A quoted valid string is read back. *)
Lemma string_body_quote s rest :
  ValidString s = true →
  string_body (bytes (foldr (λ r acc, json_rune r +:+ acc) "" (runes s) +:+ dquote) ++ rest) = Some (bytes s, rest).
Proof.
  intros Hs. pose proof (utf8_decode_bytes _ Hs) as Hb. pose proof (utf8_decode_wf (bytes s)) as Hwf.
  unfold ValidString in Hs. unfold runes. rewrite <-Hb at 2. revert Hs Hwf. generalize (utf8_decode (bytes s)).
  intros l. induction l as [|r l IH]; [done|]. cbn [forallb foldr map concat].
  intros [Hr Hl]%andb_true_iff [Hw Hwl]%Forall_cons. rewrite append_assoc, bytes_app, <-app_assoc, string_body_rune by auto.
  by rewrite IH.
Qed.

(** ** Lemmas: the parser reads forward and has fuel enough *)

Lemma skip_space_length s : length (skip_space s) ≤ length s.
Proof. induction s as [|c s IH]; [done|]. cbn [skip_space]. destruct (_ || _); cbn in *; lia. Qed.

Lemma string_body_length s b rest : string_body s = Some (b, rest) → length rest < length s.
Proof.
  enough (∀ n s b rest, length s ≤ n → string_body s = Some (b, rest) → length rest < length s) as Hall by (by apply (Hall (length s))).
  clear. induction n as [|n IH]; intros [|c r] b rest Hlen; try (cbn in Hlen; lia); [done..|].
  assert (Hput : ∀ bs t, length t ≤ length r → put bs (string_body t) = Some (b, rest) → length rest < S (length r)).
  { intros bs t Ht Hp. destruct (string_body t) as [[b' rest']|] eqn:Hb; [|done]. injection Hp as _ <-.
    apply IH in Hb; [lia|cbn in *; lia]. }
  cbn [string_body length].
  repeat match goal with
  | |- context [match ?l with [] => _ | _ :: _ => _ end] => is_var l; destruct l; cbn [length] in *
  | |- context [if ?b then _ else _] => destruct b
  | |- context [match ?o with Some _ => _ | None => _ end] => destruct o
  end; try done.
  all: try (by intros [= _ <-]; cbn [length]; lia).
  all: intros Hp; apply Hput in Hp; cbn [length] in *; lia.
Qed.

Lemma digits_length s : length (digits s).2 ≤ length s.
Proof. induction s as [|c s IH]; [done|]. cbn [digits]. destruct (is_digit c); [destruct (digits s)|]; cbn in *; lia. Qed.
Lemma digits1_length s ds rest : digits1 s = Some (ds, rest) → length rest < length s.
Proof.
  unfold digits1. destruct s as [|c s]; [done|]. cbn [digits]. destruct (is_digit c); [|done].
  pose proof (digits_length s). destruct (digits s) as [ds' rest']. intros [= _ <-]. cbn in *. lia.
Qed.
Lemma number_length s l rest : number s = Some (l, rest) → length rest < length s.
Proof.
  unfold number. intros Hn.
  destruct (match s with c :: r => if is_byte 45 c then ([c], r) else ([], s) | [] => ([], s) end) as [sign s1] eqn:H1.
  assert (length s1 ≤ length s) by (destruct s as [|c r]; [|destruct (is_byte 45 c)]; injection H1 as _ <-; cbn; lia).
  apply bind_Some in Hn as ([int s2] & H2 & Hn). apply bind_Some in Hn as ([frac s3] & H3 & Hn).
  apply bind_Some in Hn as ([exp s4] & H4 & [= _ <-]).
  assert (length s2 < length s1).
  { destruct s1 as [|c r]; [done|]. destruct (is_byte 48 c); [injection H2 as _ <-; cbn; lia|by apply digits1_length in H2]. }
  assert (length s3 ≤ length s2).
  { destruct s2 as [|c r]; [by injection H3 as _ <-|]. destruct (is_byte 46 c); [|injection H3 as _ <-; lia].
    apply bind_Some in H3 as ([ds r'] & Hd%digits1_length & [= _ <-]). cbn. lia. }
  assert (length s4 ≤ length s3); [|lia]. destruct s3 as [|c r]; [by injection H4 as _ <-|].
  destruct (_ || _); [|injection H4 as _ <-; lia].
  destruct (match r with d :: r' => if is_byte 43 d || is_byte 45 d then ([d], r') else ([], r) | [] => ([], r) end)
    as [sg r1] eqn:Hs.
  assert (length r1 ≤ length r) by (destruct r as [|d r']; [|destruct (_ || _)]; injection Hs as _ <-; cbn; lia).
  apply bind_Some in H4 as ([ds r'] & Hd%digits1_length & [= _ <-]). cbn. lia.
Qed.

Lemma strip_prefix_length p s r : strip_prefix p s = Some r → p ≠ [] → length r < length s.
Proof. intros ->%strip_prefix_Some Hp. rewrite length_app. destruct p; [done|]. cbn. lia. Qed.

(** Every reader leaves a shorter rest. *)
Lemma json_length fuel :
  (∀ s v rest, json_value fuel s = Some (v, rest) → length rest < length s) ∧
  (∀ s v rest, json_elements fuel s = Some (v, rest) → length rest < length s) ∧
  (∀ s v rest, json_members fuel s = Some (v, rest) → length rest < length s).
Proof.
  induction fuel as [|fuel (IHv & IHe & IHm)]; [done|]. split_and!; intros s v rest Hrun.
  - cbn [json_value] in Hrun. pose proof (skip_space_length s) as Hs. destruct (skip_space s) as [|c r]; [done|]. cbn in Hs.
    pose proof (skip_space_length r) as Hr. destruct (is_byte 34 c).
    { apply bind_Some in Hrun as ([b r'] & Hb%string_body_length & [= _ <-]). lia. }
    destruct (is_byte 91 c).
    { destruct (skip_space r) as [|d r']; [done|]. destruct (is_byte 93 d); [injection Hrun as _ <-; cbn in *; lia|].
      apply bind_Some in Hrun as ([vs r''] & Hv%IHe & [= _ <-]). lia. }
    destruct (is_byte 123 c).
    { destruct (skip_space r) as [|d r']; [done|]. destruct (is_byte 125 d); [injection Hrun as _ <-; cbn in *; lia|].
      apply bind_Some in Hrun as ([vs r''] & Hv%IHm & [= _ <-]). lia. }
    destruct (strip_prefix (bytes "null") (c :: r)) eqn:Hn.
    { injection Hrun as _ <-. apply strip_prefix_length in Hn; [cbn in Hn; lia|done]. }
    destruct (strip_prefix (bytes "true") (c :: r)) eqn:Ht.
    { injection Hrun as _ <-. apply strip_prefix_length in Ht; [cbn in Ht; lia|done]. }
    destruct (strip_prefix (bytes "false") (c :: r)) eqn:Hf.
    { injection Hrun as _ <-. apply strip_prefix_length in Hf; [cbn in Hf; lia|done]. }
    apply bind_Some in Hrun as ([l r'] & Hl%number_length & [= _ <-]). cbn in Hl. lia.
  - cbn [json_elements] in Hrun. apply bind_Some in Hrun as ([v1 r] & Hv%IHv & Hrun).
    pose proof (skip_space_length r) as Hs. destruct (skip_space r) as [|c r']; [done|]. cbn in Hs.
    destruct (is_byte 93 c); [injection Hrun as _ <-; lia|]. destruct (is_byte 44 c); [|done].
    apply bind_Some in Hrun as ([vs r''] & Hvs%IHe & [= _ <-]). lia.
  - cbn [json_members] in Hrun. pose proof (skip_space_length s) as Hs. destruct (skip_space s) as [|q r]; [done|]. cbn in Hs.
    destruct (negb (is_byte 34 q)); [done|]. apply bind_Some in Hrun as ([name r1] & Hb%string_body_length & Hrun).
    pose proof (skip_space_length r1) as Hs1. destruct (skip_space r1) as [|k r2]; [done|]. cbn in Hs1.
    destruct (negb (is_byte 58 k)); [done|]. apply bind_Some in Hrun as ([v1 r3] & Hv%IHv & Hrun).
    pose proof (skip_space_length r3) as Hs3. destruct (skip_space r3) as [|c r4]; [done|]. cbn in Hs3.
    destruct (is_byte 125 c); [injection Hrun as _ <-; lia|]. destruct (is_byte 44 c); [|done].
    apply bind_Some in Hrun as ([vs r5] & Hvs%IHm & [= _ <-]). lia.
Qed.

(** The fuel of [json_parse] is enough: more changes nothing. *)
Definition value_fuel (n f : nat) : Prop := 2 * n + 1 ≤ f.
Definition list_fuel (n f : nat) : Prop := 2 * n + 2 ≤ f.
Lemma json_fuel n s f g :
  length s ≤ n →
  (value_fuel (length s) f → value_fuel (length s) g → json_value f s = json_value g s) ∧
  (list_fuel (length s) f → list_fuel (length s) g → json_elements f s = json_elements g s) ∧
  (list_fuel (length s) f → list_fuel (length s) g → json_members f s = json_members g s).
Proof.
  unfold value_fuel, list_fuel. revert s f g. induction n as [n IH] using lt_wf_ind. intros s f g Hn.
  assert (IHv : ∀ r f g, length r < length s → 2 * length r + 1 ≤ f → 2 * length r + 1 ≤ g → json_value f r = json_value g r).
  { intros r f' g' Hr. by apply (IH (length r)); [lia|]. }
  assert (IHl : ∀ r f g, length r < length s → 2 * length r + 2 ≤ f → 2 * length r + 2 ≤ g →
    json_elements f r = json_elements g r ∧ json_members f r = json_members g r).
  { intros r f' g' Hr Hf Hg. split; by apply (IH (length r)); [lia|..]. }
  assert (Hvalue : ∀ f g, 2 * length s + 1 ≤ f → 2 * length s + 1 ≤ g → json_value f s = json_value g s).
  { clear f g. intros [|f] [|g] Hf Hg; try lia. cbn [json_value]. pose proof (skip_space_length s) as Hs.
    destruct (skip_space s) as [|c r]; [done|]. cbn in Hs. destruct (is_byte 34 c); [done|].
    destruct (IHl r f g) as [-> ->]; [lia..|]. done. }
  split_and!; [apply Hvalue|..]; destruct f as [|f], g as [|g]; try lia; intros Hf Hg.
  - cbn [json_elements]. rewrite (Hvalue f g) by lia. destruct (json_value g s) as [[v rest]|] eqn:Hv; [|done]. cbn.
    pose proof (proj1 (json_length g) _ _ _ Hv). pose proof (skip_space_length rest) as Hr.
    destruct (skip_space rest) as [|c r]; [done|]. cbn in Hr. destruct (is_byte 93 c); [done|].
    destruct (IHl r f g) as [-> _]; [lia..|]. done.
  - cbn [json_members]. pose proof (skip_space_length s) as Hs. destruct (skip_space s) as [|q r]; [done|]. cbn in Hs.
    destruct (negb _); [done|]. destruct (string_body r) as [[name r1]|] eqn:Hb; [|done]. cbn.
    apply string_body_length in Hb. pose proof (skip_space_length r1) as H1. destruct (skip_space r1) as [|k r2]; [done|]. cbn in H1.
    destruct (negb _); [done|]. rewrite (IHv r2 f g) by lia. destruct (json_value g r2) as [[v r3]|] eqn:Hv; [|done]. cbn.
    pose proof (proj1 (json_length g) _ _ _ Hv). pose proof (skip_space_length r3) as H3.
    destruct (skip_space r3) as [|c r4]; [done|]. cbn in H3. destruct (is_byte 125 c); [done|].
    destruct (IHl r4 f g) as [_ ->]; [lia..|]. done.
Qed.

Lemma json_parse_fuel s fuel v rest :
  json_value fuel (bytes s) = Some (v, rest) → 2 * String.length s + 2 ≤ fuel → null (skip_space rest) = true →
  json_parse s = Some v.
Proof.
  intros Hv Hf Hrest. unfold json_parse.
  rewrite (proj1 (json_fuel (length (bytes s)) (bytes s) _ fuel ltac:(done))), Hv; unfold value_fuel; rewrite ?length_bytes; [|lia..].
  cbn. by rewrite Hrest.
Qed.

(** ** Lemmas: values *)

(** Values that [json.Marshal] writes for integers, booleans and valid strings. *)
Fixpoint json_ok (v : json) : Prop :=
  match v with
  | JNumber literal => ∃ n, literal = Itoa n
  | JString s => ValidString s = true
  | JArray elements => foldr (λ v P, json_ok v ∧ P) True elements
  | JObject members => foldr (λ '(name, v) P, ValidString name = true ∧ json_ok v ∧ P) True members
  | _ => True
  end.

(** What may follow a value: a number must end. *)
Definition value_end (rest : list ascii) : Prop :=
  match rest with
  | [] => True
  | c :: _ => is_digit c = false ∧ is_byte 46 c = false ∧ is_byte 101 c = false ∧ is_byte 69 c = false
  end.

Lemma digits_all l rest :
  forallb is_digit l = true → value_end rest → digits (l ++ rest) = (l, rest).
Proof.
  intros Hl Hr. induction l as [|c l IH]; cbn [app digits].
  - destruct rest as [|c r]; [done|]. destruct Hr as [Hd _]. cbn [digits]. by rewrite Hd.
  - cbn in Hl. apply andb_true_iff in Hl as [-> Hl]. by rewrite IH.
Qed.

Lemma all_digits_bytes s : str_exists (λ c, negb (is_digit c)) s = false → forallb is_digit (bytes s) = true.
Proof.
  induction s as [|c s IH]; [done|]. cbn. intros [Hc%negb_false_iff Hs]%orb_false_iff. rewrite Hc. by apply IH.
Qed.

Lemma Itoa_neg n : (n < 0)%Z → Itoa n = "-" +:+ Itoa (- n).
Proof. intros Hn. unfold Itoa, pretty, pretty_Z. destruct n; [done|done|]. done. Qed.

(** The digits of a natural number, without a leading zero. *)
Lemma Itoa_digits n :
  (0 <= n)%Z → ∃ c t, bytes (Itoa n) = c :: t ∧ forallb is_digit (c :: t) = true ∧ (is_byte 48 c = true → t = []).
Proof.
  intros Hn. destruct (decide (n = 0%Z)) as [->|Hne]; [by exists "0"%char, []|].
  destruct (Itoa_shape n) as (c & t & Hc & Hz & Hd & _); [lia|]. apply all_digits_bytes in Hd. rewrite Hc in *.
  exists c, (bytes t). split_and!; [done|done|]. unfold is_byte. intros H48%Z.eqb_eq. destruct Hz.
  rewrite <-H48. by rewrite byte_of_val.
Qed.

Lemma number_digits sign c t rest :
  (sign = [] ∧ is_byte 45 c = false ∨ sign = [byte_of 45]) → forallb is_digit (c :: t) = true → (is_byte 48 c = true → t = []) →
  value_end rest → number (sign ++ (c :: t) ++ rest) = Some (sign ++ c :: t, rest).
Proof.
  intros Hsign Hd Hz Hr. unfold number.
  assert ((match sign ++ (c :: t) ++ rest with c0 :: r => if is_byte 45 c0 then ([c0], r) else ([], sign ++ (c :: t) ++ rest) | [] => ([], sign ++ (c :: t) ++ rest) end)
    = (sign, (c :: t) ++ rest)) as ->.
  { destruct Hsign as [[-> Hc]| ->]; [|done]. cbn [app]. by rewrite Hc. }
  assert ((match (c :: t) ++ rest with c0 :: r => if is_byte 48 c0 then Some ([c0], r) else digits1 ((c :: t) ++ rest) | [] => None end)
    = Some (c :: t, rest)) as ->.
  { cbn [app]. destruct (is_byte 48 c) eqn:H48; [by rewrite Hz|]. unfold digits1. change (c :: t ++ rest) with ((c :: t) ++ rest).
    by rewrite digits_all. }
  cbn [mbind option_bind]. destruct rest as [|d r]; [cbn; by rewrite app_nil_r|]. destruct Hr as (_ & H46 & H101 & H69).
  rewrite H46. cbn [mbind option_bind]. rewrite H101, H69. cbn. by rewrite app_nil_r.
Qed.

Lemma number_Itoa n rest : value_end rest → number (bytes (Itoa n) ++ rest) = Some (bytes (Itoa n), rest).
Proof.
  intros Hr. destruct (Z_lt_le_dec n 0) as [Hn|Hn].
  - rewrite Itoa_neg, bytes_app by done. destruct (Itoa_digits (- n)) as (c & t & -> & Hd & Hz); [lia|].
    rewrite <-app_assoc. apply number_digits; [by right|done..].
  - destruct (Itoa_digits n) as (c & t & -> & Hd & Hz); [done|]. apply (number_digits []); [|done..]. left. split; [done|].
    cbn in Hd. apply andb_true_iff in Hd as [Hc _]. apply in_range_spec in Hc. unfold is_byte. apply Z.eqb_neq. lia.
Qed.

(** An induction principle that reaches the nested values. *)
Lemma json_nested_ind (P : json → Prop) :
  P JNull → (∀ b, P (JBool b)) → (∀ l, P (JNumber l)) → (∀ s, P (JString s)) →
  (∀ elements, Forall P elements → P (JArray elements)) →
  (∀ members, Forall (λ m, P m.2) members → P (JObject members)) → ∀ v, P v.
Proof.
  intros Hnull Hbool Hnum Hstr Harr Hobj. fix IH 1. intros [|b|l|s|elements|members]; [done|done|done|done|..].
  - apply Harr. induction elements; constructor; [apply IH|done].
  - apply Hobj. induction members as [|[name v] members IHm]; constructor; [apply IH|done].
Qed.

(** What [json_value] reads from a printed value, once it has fuel. *)
Definition reads_back (v : json) : Prop :=
  ∀ rest, value_end rest →
    ∃ k, ∀ fuel, k ≤ fuel → json_value fuel (bytes (json_print v) ++ rest) = Some (v, rest).

Lemma bytes_dquote s rest : bytes (dquote +:+ s) ++ rest = byte_of 34 :: bytes s ++ rest.
Proof. done. Qed.

Lemma reads_back_number n : reads_back (JNumber (Itoa n)).
Proof.
  intros rest Hr. exists 1. intros [|fuel] Hf; [lia|]. cbn [json_print json_value].
  assert (∃ c t, bytes (Itoa n) = c :: t ∧ (is_byte 45 c = true ∨ is_digit c = true)) as (c & t & Hc & Hd).
  { destruct (Z_lt_le_dec n 0) as [Hn|Hn]; [rewrite Itoa_neg by done; cbn; eauto|].
    destruct (Itoa_digits n) as (c & t & -> & Hd%andb_true_iff & _); [done|]. exists c, t. naive_solver. }
  pose proof (number_Itoa n rest Hr) as Hnum. rewrite Hc in Hnum |- *. cbn [app] in *.
  assert (byte_val c = 45 ∨ 48 <= byte_val c <= 57)%Z as Hv.
  { destruct Hd as [Hd|Hd]; [left; by apply Z.eqb_eq|right; by apply in_range_spec]. }
  assert (Hother : ∀ k, (k < 45 ∨ 57 < k)%Z → is_byte k c = false) by (intros k Hk; apply Z.eqb_neq; lia).
  cbn [skip_space]. rewrite !Hother by lia. cbn [orb].
  cbn [strip_prefix bytes String.list_ascii_of_string].
  assert (Hne : ∀ d, (57 < byte_val d)%Z → Ascii.eqb d c = false).
  { intros d Hlt. apply Ascii.eqb_neq. intros ->. lia. }
  rewrite !Hother by lia. rewrite !Hne by done. rewrite Hnum. cbn [mbind option_bind]. by rewrite <-Hc, of_bytes_bytes.
Qed.

(** The first byte decides what is read. *)
Lemma json_value_quote fuel r :
  json_value (S fuel) (byte_of 34 :: r) = ('(b, rest) ← string_body r; Some (JString (to_valid b), rest)).
Proof. done. Qed.
Lemma json_value_array fuel r :
  json_value (S fuel) (byte_of 91 :: r) =
  match skip_space r with
  | d :: rest => if is_byte 93 d then Some (JArray [], rest) else '(vs, rest) ← json_elements fuel r; Some (JArray vs, rest)
  | [] => None
  end.
Proof. done. Qed.
Lemma json_value_object fuel r :
  json_value (S fuel) (byte_of 123 :: r) =
  match skip_space r with
  | d :: rest => if is_byte 125 d then Some (JObject [], rest) else '(ms, rest) ← json_members fuel r; Some (JObject ms, rest)
  | [] => None
  end.
Proof. done. Qed.

Lemma reads_back_string s : ValidString s = true → reads_back (JString s).
Proof.
  intros Hs rest _. exists 1. intros [|fuel] Hf; [lia|]. cbn [json_print]. unfold json_quote.
  rewrite bytes_dquote, json_value_quote, string_body_quote by done. cbn. by rewrite to_valid_bytes.
Qed.

(** *** Lists *)

Lemma skip_visible c r : (32 < byte_val c)%Z → skip_space (c :: r) = c :: r.
Proof. intros Hc. cbn [skip_space]. unfold is_byte. by rewrite !(proj2 (Z.eqb_neq _ _)) by lia. Qed.

Lemma bytes_Join_cons x l sep : bytes (Join (x :: l) sep) = bytes x ++ match l with [] => [] | _ => bytes sep ++ bytes (Join l sep) end.
Proof. destruct l; cbn [Join]; [by rewrite app_nil_r|]. by rewrite !bytes_app. Qed.

Lemma elements_back elements rest :
  elements ≠ [] → Forall reads_back elements →
  ∃ k, ∀ fuel, k ≤ fuel →
    json_elements fuel (bytes (Join (map json_print elements) ",") ++ byte_of 93 :: rest) = Some (elements, rest).
Proof.
  intros Hne Hall. induction Hall as [|v vs Hv Hvs IH]; [done|]. clear Hne. cbn [map]. rewrite bytes_Join_cons.
  destruct vs as [|v' vs].
  - destruct (Hv (byte_of 93 :: rest)) as [k Hk]; [done|]. exists (S k). intros [|fuel] Hf; [lia|]. cbn [map json_elements].
    rewrite app_nil_r, Hk by lia. done.
  - destruct IH as [k2 IH]; [done|].
    destruct (Hv (byte_of 44 :: bytes (Join (map json_print (v' :: vs)) ",") ++ byte_of 93 :: rest)) as [k1 Hk]; [done|].
    exists (S (max k1 k2)). intros [|fuel] Hf; [lia|]. cbn [map json_elements]. cbn [map] in Hk, IH.
    rewrite <-app_assoc. cbn [bytes String.list_ascii_of_string app]. rewrite Hk by lia. cbn [mbind option_bind].
    rewrite skip_visible by done. change (is_byte 93 (byte_of 44)) with false. change (is_byte 44 (byte_of 44)) with true.
    cbn iota. by rewrite IH by lia.
Qed.

Definition print_member (m : string * json) : string := json_quote m.1 +:+ ":" +:+ json_print m.2.
Lemma members_back members rest :
  members ≠ [] → Forall (λ m, ValidString m.1 = true ∧ reads_back m.2) members →
  ∃ k, ∀ fuel, k ≤ fuel →
    json_members fuel (bytes (Join (map print_member members) ",") ++ byte_of 125 :: rest) = Some (members, rest).
Proof.
  intros Hne Hall. induction Hall as [|[name v] ms [Hname Hv] Hms IH]; [done|]. clear Hne. cbn [map fst snd] in *. rewrite bytes_Join_cons.
  set (tail := match map print_member ms with [] => [] | _ => bytes "," ++ bytes (Join (map print_member ms) ",") end ++ byte_of 125 :: rest).
  assert (Hend : value_end tail) by (unfold tail; by destruct ms).
  destruct (Hv tail Hend) as [k1 Hk].
  assert (Hhead : ∀ fuel, k1 ≤ fuel → json_members (S fuel) (bytes (print_member (name, v)) ++ tail) =
    match skip_space tail with
    | c :: r =>
        if is_byte 125 c then Some ([(name, v)], r)
        else if is_byte 44 c then '(ms, r) ← json_members fuel r; Some ((name, v) :: ms, r) else None
    | [] => None
    end).
  { intros fuel Hf. unfold print_member, json_quote. cbn [fst snd]. rewrite !append_assoc, bytes_dquote.
    cbn [json_members]. rewrite skip_visible by done. change (negb (is_byte 34 (byte_of 34))) with false. cbn iota.
    rewrite <-append_assoc, bytes_app, <-app_assoc, string_body_quote by done. cbn [mbind option_bind].
    change (bytes (":" +:+ json_print v) ++ tail) with (byte_of 58 :: bytes (json_print v) ++ tail). rewrite skip_visible by done.
    change (negb (is_byte 58 (byte_of 58))) with false. cbn iota. rewrite Hk by done. cbn [mbind option_bind].
    by rewrite to_valid_bytes. }
  destruct ms as [|m ms].
  - exists (S k1). intros [|fuel] Hf; [lia|]. rewrite <-app_assoc. by apply Hhead; lia.
  - destruct IH as [k2 IH]; [done|]. exists (S (max k1 k2)). intros [|fuel] Hf; [lia|]. rewrite <-app_assoc.
    etrans; [apply Hhead; lia|]. unfold tail. cbn [map]. cbn [map] in IH.
    change ((bytes "," ++ ?a) ++ ?b) with (byte_of 44 :: a ++ b). rewrite skip_visible by done.
    change (is_byte 125 (byte_of 44)) with false. change (is_byte 44 (byte_of 44)) with true. cbn iota. by rewrite IH by lia.
Qed.

Lemma json_elements_start fuel r x :
  json_elements fuel r = Some x → ∃ d r', skip_space r = d :: r' ∧ is_byte 93 d = false.
Proof.
  destruct fuel as [|[|fuel]]; [done|done|]. cbn [json_elements json_value]. destruct (skip_space r) as [|d r']; [done|].
  intros Hx. exists d, r'. split; [done|]. destruct (is_byte 93 d) eqn:Hd; [|done].
  apply Z.eqb_eq in Hd. rewrite <-(byte_of_val d), Hd in Hx. done.
Qed.
Lemma json_members_start fuel r x :
  json_members fuel r = Some x → ∃ d r', skip_space r = d :: r' ∧ is_byte 125 d = false.
Proof.
  destruct fuel as [|fuel]; [done|]. cbn [json_members]. destruct (skip_space r) as [|d r']; [done|].
  intros Hx. exists d, r'. split; [done|]. destruct (is_byte 125 d) eqn:Hd; [|done].
  apply Z.eqb_eq in Hd. rewrite <-(byte_of_val d), Hd in Hx. done.
Qed.

Lemma json_reads_back v : json_ok v → reads_back v.
Proof.
  induction v as [|b|l|s|elements IH|members IH] using json_nested_ind; intros Hok.
  - intros rest _. exists 1. by intros [|fuel] Hf; [lia|].
  - intros rest _. exists 1. intros [|fuel] Hf; [lia|]. by destruct b.
  - destruct Hok as [n ->]. apply reads_back_number.
  - by apply reads_back_string.
  - assert (Hall : Forall reads_back elements).
    { cbn in Hok. induction IH as [|v vs Hv _ IH2]; [done|]. destruct Hok as [H1 H2]. constructor; auto. }
    intros rest Hrest. destruct elements as [|v vs]; [exists 1; by intros [|fuel] Hf; [lia|]|].
    destruct (elements_back (v :: vs) rest) as [k Hk]; [done..|]. exists (S k). intros [|fuel] Hf; [lia|].
    cbn [json_print]. rewrite !bytes_app, <-!app_assoc.
    change (bytes "[" ++ ?a ++ bytes "]" ++ ?b) with (byte_of 91 :: a ++ byte_of 93 :: b). rewrite json_value_array.
    specialize (Hk fuel ltac:(lia)). destruct (json_elements_start _ _ _ Hk) as (d & r' & -> & ->). by rewrite Hk.
  - assert (Hall : Forall (λ m, ValidString m.1 = true ∧ reads_back m.2) members).
    { cbn in Hok. induction IH as [|[name v] vs Hv _ IH2]; [done|]. destruct Hok as (H1 & H2 & H3). constructor; auto. }
    intros rest Hrest. destruct members as [|m ms]; [exists 1; by intros [|fuel] Hf; [lia|]|].
    destruct (members_back (m :: ms) rest) as [k Hk]; [done..|]. exists (S k). intros [|fuel] Hf; [lia|].
    cbn [json_print]. replace (map _ (m :: ms)) with (map print_member (m :: ms)) by (apply map_ext; by intros []).
    rewrite !bytes_app, <-!app_assoc.
    change (bytes "{" ++ ?a ++ bytes "}" ++ ?b) with (byte_of 123 :: a ++ byte_of 125 :: b). rewrite json_value_object.
    specialize (Hk fuel ltac:(lia)). destruct (json_members_start _ _ _ Hk) as (d & r' & -> & ->). by rewrite Hk.
Qed.

(** A printed value is parsed back. *)
Lemma json_parse_print v : json_ok v → json_parse (json_print v) = Some v.
Proof.
  intros Hok. destruct (json_reads_back v Hok [] I) as [k Hk]. rewrite app_nil_r in Hk.
  apply (json_parse_fuel _ (max k (2 * String.length (json_print v) + 2)) v []); [apply Hk; lia|lia|done].
Qed.

(** ** Lemmas: structs *)

Lemma ParseInt64_Itoa n : (- 2 ^ 63 <= n < 2 ^ 63)%Z → ParseInt64 (Itoa n) = Some n.
Proof.
  intros Hn. destruct (Z_lt_le_dec n 0) as [Hneg|Hpos].
  - rewrite Itoa_neg by done. unfold ParseInt64. rewrite append_cons. change (is_byte 45 "-") with true. cbn iota.
    rewrite append_nil_l, (proj2 (eqb_string_false _ _)) by (apply Itoa_nonempty; lia).
    rewrite Itoa_of_N, parse_digits_pretty by lia. cbn [mbind option_bind].
    rewrite Z2N.id by lia. rewrite (proj2 (Z.leb_le _ _)) by lia. f_equal. lia.
  - pose proof (ParseUint_Itoa n 63 ltac:(lia)) as Hu. destruct (Itoa_digits n Hpos) as (c & t & Hb & Hd & _).
    unfold ParseInt64. destruct (Itoa n) as [|c' r]; [done|]. cbn in Hb. injection Hb as -> _.
    cbn in Hd. apply andb_true_iff in Hd as [Hc%in_range_spec _]. unfold is_byte. by rewrite (proj2 (Z.eqb_neq _ _)) by lia.
Qed.

Lemma int_of_json_int n old : (- 2 ^ 63 <= n < 2 ^ 63)%Z → int_of_json (JNumber (Itoa n)) old = Some n.
Proof. apply ParseInt64_Itoa. Qed.

Lemma find_field_own {T} (fields : list (Field T)) f :
  NoDup (map fd_Name fields) → f ∈ fields → find_field fields (fd_Name f) = Some f.
Proof.
  intros Hnd Hf. unfold find_field. replace (List.find _ _) with (Some f); [done|]. symmetry.
  induction fields as [|f' fields IH]; [by apply not_elem_of_nil in Hf|]. cbn in Hnd. apply NoDup_cons in Hnd as [Hni Hnd].
  cbn [List.find]. apply elem_of_cons in Hf as [->|Hf]; [by rewrite eqb_string_refl|].
  rewrite (proj2 (eqb_string_false _ _)); [by apply IH|]. intros He. destruct Hni. rewrite He. by apply list_elem_of_fmap_2.
Qed.

(** Reading a struct's own JSON stores its fields one by one. *)
Lemma struct_of_own_json {T} (fields : list (Field T)) t t0 :
  NoDup (map fd_Name fields) →
  struct_of_json fields (struct_to_json fields t) t0 =
  foldl (λ acc f, old ← acc; fd_Store f (fd_Load f t) old) (Some t0) fields.
Proof.
  intros Hnd. unfold struct_to_json. cbn [struct_of_json]. generalize (Some t0).
  assert (Hown : ∀ l, (∀ f, f ∈ l → f ∈ fields) → ∀ acc,
    foldl (store_member fields) acc (map (λ f, (fd_Name f, fd_Load f t)) l) =
    foldl (λ acc f, old ← acc; fd_Store f (fd_Load f t) old) acc l); [|by apply Hown].
  induction l as [|f l IH]; intros Hl acc; [done|]. cbn [map foldl]. rewrite IH by (intros g Hg; apply Hl; by right).
  f_equal. unfold store_member. destruct acc; [|done]. cbn. by rewrite find_field_own by (apply Hl || done; by left).
Qed.

(** ** Lemmas: lengths *)

Lemma b64_encode_length s : 3 * length (b64_encode s) ≤ 4 * length s + 2.
Proof. induction s as [|a|a b|a b c r IH] using triples_ind; cbn [b64_encode map app length] in *; lia. Qed.
Lemma EncodeToString_length s : (3 * len (EncodeToString s) <= 4 * len s + 2)%Z.
Proof.
  unfold len, EncodeToString. pose proof (b64_encode_length (bytes s)) as Hl. rewrite length_bytes in Hl.
  rewrite <-(length_bytes (of_bytes _)), bytes_of_bytes. lia.
Qed.

Lemma len_app s t : len (s +:+ t) = (len s + len t)%Z.
Proof. unfold len. rewrite length_append. lia. Qed.

(** A quoted string is at most six times as long, and two quotes. *)
Lemma json_rune_length r : wf_rune r → String.length (json_rune r) ≤ 6 * length (rune_bytes r).
Proof.
  assert (Hhex : ∀ n, String.length (hex 4 n) = 4) by (intros n; cbn [hex]; by rewrite !length_append).
  destruct r as [code enc|]; [|done]. intros Hwf. cbn [rune_bytes].
  assert (1 ≤ length enc).
  { destruct Hwf as [(b & -> & _)|(Hne & _)]; [done|]. destruct enc; [done|cbn; lia]. }
  unfold json_rune, esc. pose proof (Hhex code) as Hh. revert Hh. generalize (hex 4 code). intros h Hh.
  pose proof (length_bytes (of_bytes enc)) as He. rewrite bytes_of_bytes in He.
  repeat match goal with |- context [if ?b then _ else _] => destruct b end; rewrite ?length_append; cbn; lia.
Qed.
Lemma json_quote_length s : ValidString s = true → (len (json_quote s) <= 6 * len s + 2)%Z.
Proof.
  intros Hs. unfold json_quote. rewrite !len_app.
  assert (len (foldr (λ r acc, json_rune r +:+ acc) "" (runes s)) <= 6 * len s)%Z; [|change (len dquote) with 1%Z; lia].
  pose proof (utf8_decode_bytes _ Hs) as Hb. pose proof (utf8_decode_wf (bytes s)) as Hwf. unfold ValidString in Hs.
  unfold len at 2. rewrite <-length_bytes, <-Hb. unfold runes. revert Hs Hwf. generalize (utf8_decode (bytes s)).
  intros l. induction l as [|r l IH]; [done|]. cbn [forallb foldr map concat].
  intros [Hr Hl]%andb_true_iff [Hw Hwl]%Forall_cons. rewrite len_app, length_app. pose proof (json_rune_length r (Hw Hr)).
  specialize (IH Hl Hwl). unfold len in *. lia.
Qed.
Lemma Itoa_length n : (0 <= n < 2 ^ 63)%Z → (len (Itoa n) <= 19)%Z.
Proof.
  intros Hn. destruct (decide (n = 0%Z)) as [->|Hne]; [done|]. destruct (Itoa_shape n) as (_ & _ & _ & _ & _ & Hl); [lia|].
  apply Z.nlt_ge. intros Hlt. assert (10 ^ 19 <= 10 ^ (len (Itoa n) - 1))%Z by (apply Z.pow_le_mono_r; lia). lia.
Qed.
