(* ===== verification/Pagination.v ===== *)
(** * Cursors and pages

    [internal/pagination/cursor.go]: a cursor is unpadded base64url of a
    versioned JSON envelope around a typed payload ([Encode], [Decode]); the
    payload types are described by the interface [CursorPayload].

    What the listings of the repositories have in common: a page is the first
    [limit] rows, in the order of the listing, after the row the cursor names.
    [follow] is the client that asks for page after page; [follow_listing] shows
    that it sees every row of the listing once, in order. *)

From S2P Require Import Prelude GoStrings Encoding.

(** ** The codec *)

Definition CurrentVersion : Z := 1.
Definition DefaultMaxCursorBytes : Z := 4096.

Inductive CursorError := ErrCursorTooLarge | ErrMalformedCursor | ErrUnsupportedVersion.

(** A payload: its exported fields and its zero value. *)
Class CursorPayload (T : Type) := {
  cursor_fields : list (Field T);
  cursor_zero : T;
}.

Record envelope (T : Type) := mkEnvelope { env_Version : Z; env_Payload : T }.
Arguments mkEnvelope {T}.
Arguments env_Version {T}.
Arguments env_Payload {T}.

Section codec.
Context {T : Type} `{CursorPayload T}.

Definition envelope_fields : list (Field (envelope T)) :=
  [mkField "version" (λ e, JNumber (Itoa (env_Version e)))
     (λ v e, n ← int_of_json v (env_Version e); Some (mkEnvelope n (env_Payload e)));
   mkField "payload" (λ e, struct_to_json cursor_fields (env_Payload e))
     (λ v e, p ← struct_of_json cursor_fields v (env_Payload e); Some (mkEnvelope (env_Version e) p))].

(** [NewCodec]: the bound on the bytes of a cursor. *)
Definition NewCodec (maxCursorBytes : Z) : Z :=
  if (maxCursorBytes <=? 0)%Z then DefaultMaxCursorBytes else maxCursorBytes.

Definition Encode (maxCursorBytes : Z) (payload : T) : string + CursorError :=
  let encoded := EncodeToString (json_print (struct_to_json envelope_fields (mkEnvelope CurrentVersion payload))) in
  if (maxCursorBytes <? len encoded)%Z then inr ErrCursorTooLarge else inl encoded.

Definition Decode (maxCursorBytes : Z) (cursor : string) : T + CursorError :=
  if (maxCursorBytes <? len cursor)%Z then inr ErrCursorTooLarge
  else if cursor =s "" then inr ErrMalformedCursor
  else match DecodeString cursor with
  | None => inr ErrMalformedCursor
  | Some raw =>
      match (v ← json_parse raw; struct_of_json envelope_fields v (mkEnvelope 0 cursor_zero)) with
      | None => inr ErrMalformedCursor
      | Some value =>
          if negb (env_Version value =? CurrentVersion)%Z then inr ErrUnsupportedVersion else inl (env_Payload value)
      end
  end.
End codec.

(** What makes a payload come back: distinct names, and values that survive. *)
Class PayloadLaws (T : Type) `{CursorPayload T} (valid : T → Prop) := {
  payload_names : NoDup (map fd_Name (cursor_fields (T := T)));
  payload_ok t : valid t → json_ok (struct_to_json cursor_fields t);
  payload_back t : valid t →
    foldl (λ acc f, old ← acc; fd_Store f (fd_Load f t) old) (Some cursor_zero) cursor_fields = Some t;
}.

Section codec_laws.
Context {T : Type} `{PayloadLaws T valid}.

(** ** Round trip *)

Lemma envelope_json_ok payload :
  valid payload → json_ok (struct_to_json envelope_fields (mkEnvelope CurrentVersion payload)).
Proof. intros Hp. pose proof (payload_ok _ Hp). cbn. split_and!; try done. by exists CurrentVersion. Qed.

Lemma Encode_nonempty maximum (payload : T) cursor : Encode maximum payload = inl cursor → cursor ≠ "".
Proof.
  unfold Encode. cbv zeta. destruct (_ <? _)%Z; [done|]. intros [= <-].
  apply EncodeToString_nonempty. discriminate.
Qed.

(** A cursor that was handed out decodes to the payload it was made of. *)
Lemma Decode_Encode maximum payload cursor :
  valid payload → Encode maximum payload = inl cursor → Decode maximum cursor = inl payload.
Proof.
  intros Hp Henc. pose proof (Encode_nonempty _ _ _ Henc) as Hne. revert Henc. unfold Encode, Decode. cbv zeta.
  set (raw := json_print _). destruct (maximum <? len (EncodeToString raw))%Z eqn:Hlen; [done|].
  intros [= <-]. rewrite Hlen, (proj2 (eqb_string_false _ _)) by done. unfold raw.
  rewrite DecodeString_EncodeToString, json_parse_print by by apply envelope_json_ok. cbn [mbind option_bind].
  rewrite struct_of_own_json by (cbn; repeat constructor; set_solver). cbn [envelope_fields foldl mbind option_bind fd_Store fd_Load].
  rewrite int_of_json_int by (split; done). cbn [mbind option_bind env_Payload env_Version].
  rewrite struct_of_own_json by apply payload_names. by rewrite payload_back.
Qed.
End codec_laws.

(** ** Pages *)

Record Page (A : Type) := mkPage { pg_Items : list A; pg_NextCursor : option string; pg_HasMore : bool }.
Arguments mkPage {A}.
Arguments pg_Items {A}.
Arguments pg_NextCursor {A}.
Arguments pg_HasMore {A}.

(** A client that follows the cursors from [cursor] on. *)
Fixpoint follow {A} (fuel : nat) (fetch : string → result (Page A)) (cursor : string) : result (list (Page A)) :=
  match fuel with
  | O => Ok []
  | S fuel =>
      page ← fetch cursor;
      match pg_NextCursor page with
      | None => Ok [page]
      | Some next => pages ← follow fuel fetch next; Ok (page :: pages)
      end
  end.

(** The page of the rows that are left. *)
Definition page_of {A} (encode : A → string) (limit : nat) (left : list A) : Page A :=
  if decide (limit < length left)
  then mkPage (take limit left) (encode <$> last (take limit left)) true
  else mkPage left None false.

Section follow.
Context {A : Type} (fetch : string → result (Page A)) (encode : A → string) (limit : nat) (listing : list A).
Hypothesis limit_positive : 0 < limit.
Hypothesis fetch_first : fetch "" = Ok (page_of encode limit listing).
Hypothesis fetch_next : ∀ before x after, listing = before ++ x :: after → fetch (encode x) = Ok (page_of encode limit after).

(** Every page is full but the last, which is not empty unless it is alone. *)
Definition well_paged (pages : list (Page A)) : Prop :=
  ∃ init final, pages = init ++ [final] ∧ pg_HasMore final = false ∧ length (pg_Items final) ≤ limit ∧
    (init ≠ [] → pg_Items final ≠ []) ∧ Forall (λ p, pg_HasMore p = true ∧ length (pg_Items p) = limit) init.

Lemma follow_from fuel left before cursor :
  listing = before ++ left → fetch cursor = Ok (page_of encode limit left) → length left < fuel →
  ∃ pages, follow fuel fetch cursor = Ok pages ∧ concat (map pg_Items pages) = left ∧ well_paged pages ∧ pages ≠ [] ∧
    (left ≠ [] → Forall (λ p, pg_Items p ≠ []) pages).
Proof.
  revert left before cursor. induction fuel as [|fuel IH]; intros left before cursor Hl Hf Hlen; [lia|].
  cbn [follow]. rewrite Hf. cbn [mbind result_bind]. unfold page_of. destruct (decide (limit < length left)) as [Hlt|Hge]; cbn [pg_NextCursor].
  - destruct (take limit left) as [|x0 xs0] eqn:Ht using rev_ind.
    { apply (f_equal length) in Ht. rewrite length_take in Ht. cbn in Ht. lia. }
    clear IHxs0. rewrite last_snoc. cbn [fmap option_fmap option_map].
    destruct (IH (drop limit left) (before ++ take limit left) (encode x0)) as (pages & Hp & Hc & Hw & Hne & Hall).
    + by rewrite <-app_assoc, take_drop.
    + apply (fetch_next (before ++ xs0)). rewrite Hl, <-(take_drop limit left) at 1. by rewrite Ht, <-!app_assoc.
    + rewrite length_drop. lia.
    + exists (mkPage (xs0 ++ [x0]) (Some (encode x0)) true :: pages). rewrite Hp. cbn [map concat pg_Items]. split_and!; [done|..|done|].
      * by rewrite Hc, <-Ht, take_drop.
      * assert (Hd : drop limit left ≠ []).
        { intros Hd. apply (f_equal length) in Hd. rewrite length_drop in Hd. cbn in Hd. lia. }
        destruct Hw as (init & final & -> & Hmore & Hle & Hnz & Hinit). eexists (_ :: init), final. split_and!; [done|done|done|..].
        -- intros _. specialize (Hall Hd). apply Forall_app in Hall as [_ [Hfin _]%Forall_cons]. done.
        -- constructor; [|done]. split; [done|]. cbn [pg_Items]. rewrite <-Ht, length_take. lia.
      * intros _. constructor; [by destruct xs0|]. apply Hall. intros Hd. apply (f_equal length) in Hd.
        rewrite length_drop in Hd. cbn in Hd. lia.
  - exists [mkPage left None false]. cbn [map concat pg_Items]. rewrite app_nil_r. split_and!; [done|done|..|done|].
    + exists [], (mkPage left None false). cbn. split_and!; [done|done|lia|done|constructor].
    + intros Hne. by constructor.
Qed.

(** Following the cursors visits the whole listing, in order, once. *)
Lemma follow_listing fuel :
  length listing < fuel →
  ∃ pages, follow fuel fetch "" = Ok pages ∧ concat (map pg_Items pages) = listing ∧ well_paged pages.
Proof. intros Hf. destruct (follow_from fuel listing [] "") as (pages & ? & ? & ? & _); [done|done|done|eauto]. Qed.
End follow.

(** ** Keyset queries *)

(** [SELECT ... WHERE after ORDER BY ... LIMIT limit + 1], then the cut. *)
Section keyset.
Context {A : Type} (less : A → A → bool) (encode : A → string).

Definition keyset_rows (after : A → bool) (limit : nat) (rows : list A) : list A :=
  take (S limit) (stable_sort less (List.filter after rows)).
Hypothesis less_asym : ∀ x y, less x y = true → less y x = false.
Hypothesis not_less_trans : ∀ x y z, not_less less x y → not_less less y z → not_less less x z.

(** Selecting and sorting commute. *)
Lemma insert_before_select (p : A → bool) x l :
  StronglySorted (not_less less) l →
  List.filter p (insert_before less x l) = if p x then insert_before less x (List.filter p l) else List.filter p l.
Proof.
  induction 1 as [|y l Hl IH Hy]; cbn [insert_before List.filter]; [done|]. destruct (less y x) eqn:Hyx.
  - cbn [List.filter]. rewrite IH. destruct (p y), (p x); cbn [insert_before]; by rewrite ?Hyx.
  - cbn [List.filter]. destruct (p y) eqn:Hpy; [cbn [insert_before]; rewrite Hyx; by destruct (p x)|]. destruct (p x); [|done].
    destruct (List.filter p l) as [|z zs] eqn:Hz; [done|]. cbn [insert_before].
    assert (z ∈ l) as Hin by (apply (elem_of_filter_list p); rewrite Hz; by left).
    rewrite Forall_forall in Hy. by rewrite (not_less_trans x y z Hyx (Hy z Hin)).
Qed.
Lemma stable_sort_select (p : A → bool) l : stable_sort less (List.filter p l) = List.filter p (stable_sort less l).
Proof.
  induction l as [|x l IH]; [done|]. rewrite stable_sort_cons, insert_before_select by by apply stable_sort_sorted.
  cbn [List.filter]. destruct (p x); [by rewrite stable_sort_cons, IH|done].
Qed.

(** One row more than the page tells whether there is more. *)
Lemma page_of_take limit left : page_of encode limit (take (S limit) left) = page_of encode limit left.
Proof.
  unfold page_of. rewrite length_take, take_take, (Nat.min_l limit (S limit)) by lia.
  destruct (decide (limit < length left)); [by rewrite decide_True by lia|]. rewrite decide_False by lia. by rewrite take_ge by lia.
Qed.

Lemma less_irrefl x : less x x = false.
Proof. destruct (less x x) eqn:E; [by rewrite (less_asym _ _ E) in E|done]. Qed.

(** The part of a sorted list that a test against [x] keeps. *)
Lemma select_after (after : A → bool) before x left :
  StronglySorted (not_less less) (before ++ x :: left) → NoDup (before ++ x :: left) →
  (∀ y, y ∈ before ++ x :: left → less x y = false → less y x = false → y = x) →
  (∀ y, y ∈ before ++ x :: left → after y = less x y) →
  List.filter after (before ++ x :: left) = left.
Proof.
  intros Hs Hnd Htotal Hafter. induction before as [|y before IH]; cbn [app] in *.
  - apply StronglySorted_inv in Hs as [Hs Hx]. apply NoDup_cons in Hnd as [Hni Hnd].
    cbn [List.filter]. rewrite Hafter, less_irrefl by by left.
    assert (Hl : ∀ y, y ∈ left → after y = true); [|clear -Hl; induction left as [|z l IH]; cbn; [done|]; rewrite Hl by (by left);
      f_equal; apply IH; intros w Hw; apply Hl; by right].
    intros y Hy. rewrite Hafter by (by right). destruct (less x y) eqn:E; [done|]. rewrite Forall_forall in Hx.
    specialize (Hx y Hy). rewrite (Htotal y) in Hy; [done|by right|done|done].
  - apply StronglySorted_inv in Hs as [Hs Hy]. apply NoDup_cons in Hnd as [Hni Hnd]. cbn [List.filter]. rewrite Hafter by by left.
    rewrite Forall_forall in Hy. specialize (Hy x ltac:(set_solver)). rewrite Hy.
    apply IH; [done|done|..]; intros z Hz; [apply Htotal|apply Hafter]; by right.
Qed.

(** The rows after [x], when the test of the query is the order. *)
Lemma sorted_after rows before x left (after : A → bool) :
  stable_sort less rows = before ++ x :: left → NoDup rows →
  (∀ y z, y ∈ rows → z ∈ rows → less y z = false → less z y = false → y = z) →
  (∀ y, y ∈ rows → after y = less x y) →
  stable_sort less (List.filter after rows) = left.
Proof.
  intros Hsort Hnd Htotal Hafter. rewrite stable_sort_select, Hsort.
  assert (Hin : ∀ y, y ∈ before ++ x :: left → y ∈ rows) by (intros y; by rewrite <-Hsort, elem_of_stable_sort).
  apply (select_after _ before x).
  - rewrite <-Hsort. by apply stable_sort_sorted.
  - by rewrite <-Hsort, stable_sort_Permutation.
  - intros y Hy ??. apply Htotal; auto. apply Hin. set_solver.
  - intros y Hy. auto.
Qed.
Lemma keyset_after limit rows before x left (after : A → bool) :
  stable_sort less rows = before ++ x :: left → NoDup rows →
  (∀ y z, y ∈ rows → z ∈ rows → less y z = false → less z y = false → y = z) →
  (∀ y, y ∈ rows → after y = less x y) →
  page_of encode limit (keyset_rows after limit rows) = page_of encode limit left.
Proof.
  intros Hsort Hnd Htotal Hafter. unfold keyset_rows. rewrite page_of_take. f_equal. by apply (sorted_after _ before x).
Qed.
Lemma filter_true (f : A → bool) l : (∀ y, y ∈ l → f y = true) → List.filter f l = l.
Proof.
  intros Hf. induction l as [|y l IH]; [done|]. cbn. rewrite Hf by by left. f_equal. apply IH. intros z Hz. apply Hf. by right.
Qed.
Lemma keyset_first limit rows (after : A → bool) :
  (∀ y, y ∈ rows → after y = true) →
  page_of encode limit (keyset_rows after limit rows) = page_of encode limit (stable_sort less rows).
Proof. intros Hafter. unfold keyset_rows. by rewrite page_of_take, filter_true. Qed.
End keyset.

(** ** Cutting a page off the rows of a query *)

(** One row more than the limit was read: it tells whether there is a next
    page.  Limits are positive, so a cut page has a last row. *)
Definition page_result {A} (encode : A → string + CursorError) (failure : DomainError) (limit : nat) (items : list A) :
    result (Page A) :=
  if decide (limit < length items) then
    let items := take limit items in
    match last items with
    | None => Ok (mkPage items None true)
    | Some final =>
        match encode final with
        | inl cursor => Ok (mkPage items (Some cursor) true)
        | inr _ => Err failure
        end
    end
  else Ok (mkPage items None false).

Lemma page_result_Ok {A} (encode : A → string + CursorError) (f : A → string) failure limit items :
  (∀ x, x ∈ items → encode x = inl (f x)) → page_result encode failure limit items = Ok (page_of f limit items).
Proof.
  intros Henc. unfold page_result, page_of. cbv zeta. destruct (decide _); [|done].
  destruct (last (take limit items)) as [x|] eqn:Hl; [|done]. cbn. rewrite Henc; [done|].
  apply last_Some in Hl as [init Hl]. rewrite <-(take_drop limit items), Hl. set_solver.
Qed.

(** What a client gets from a listing: all of it, once, in pages. *)
Definition complete_listing {A} (fetch : string → result (Page A)) (limit bound : nat) (listing : list A) : Prop :=
  ∃ pages, follow (S bound) fetch "" = Ok pages ∧ concat (map pg_Items pages) = listing ∧ well_paged limit pages.
