(* ===== verification/IssueList.v ===== *)
(** * Lists of issues

    [internal/domain/issue_list.go] and
    [internal/adapters/sqlite/issue_list.go]: the filters of a listing and
    their validation, the projections it selects from, its order (priority,
    claimability, number), its cursor and its pages.  [ListIssues] reads one
    snapshot, so a page is a function of the store and the time. *)

From S2P Require Import Prelude GoStrings Errors Validation Samples Issue Relation Session IssueOps.
From S2P Require Import Discussion Resource Attempt AttemptPolicy Gates Store Schema ReservationStore.
From S2P Require Import GateStore ReviewStore Termination ReviewOps AttemptStore Footprint.
From S2P Require Import RelationStore IssueStore PolicyStore EvidenceStore DiscussionStore SessionStore.
From S2P Require Import Plan PlanStore PlanCheck PlanApply Place Lifecycle Scenario Records Board.
From S2P Require Import Orders Encoding Pagination.

Definition DefaultIssueListLimit : Z := 20.
Definition MaxCollectionLimit : Z := 100.

(** ** Requests *)

Record ListIssuesInput := mkListIssues {
  li_Types : list string;
  li_Statuses : list string;
  li_EffectiveStatuses : list string;
  li_Priorities : list string;
  li_Labels : list string;
  li_ParentIssueID : option string;
  li_IsBlocked : option bool;
  li_IsClaimable : option bool;
  li_IncludeArchived : bool;
  li_Limit : Z;
  li_Cursor : string;
}.

(** [domain.IssueList] and [domain.EffectiveStatusCount]. *)
Notation IssueList := (Page IssueProjection).
Record EffectiveStatusCount := mkStatusCount { sc_EffectiveStatus : string; sc_Count : Z }.

Section requests.
Context `{UnicodeTables, ULID}.

(** The first value that is unknown or was seen before. *)
Fixpoint checkListEnums (field : string) (valid : string → bool) (seen : gset string) (values : list string) : result unit :=
  match values with
  | [] => Ok tt
  | value :: rest =>
      fail_if negb (valid value) with invalidEnum field value ;;
      fail_if bool_decide (value ∈ seen) with validationError field "DUPLICATE" "must not contain duplicate values" ;;
      checkListEnums field valid ({[ value ]} ∪ seen) rest
  end.
Definition copyIssueListEnums (field : string) (values : list string) (valid : string → bool) : result (list string) :=
  try checkListEnums field valid ∅ values ;; Ok values.

(** The first spelling of each canonical name. *)
Fixpoint firstSpellings (seen : gset string) (names : list (string * string)) : list (string * string) :=
  match names with
  | [] => []
  | name :: rest =>
      if bool_decide (name.2 ∈ seen) then firstSpellings seen rest
      else name :: firstSpellings ({[ name.2 ]} ∪ seen) rest
  end.
Definition normalizeIssueQueryLabels (names : list string) : result (list string) :=
  values ← CopyBounded "labels" names MaxLabelsPerIssue;
  normalized ← collect NormalizeLabelName values;
  Ok (map fst (stable_sort (λ a b, str_less a.2 b.2) (firstSpellings ∅ normalized))).

Definition ListIssuesInput_Validate (input : ListIssuesInput) : result ListIssuesInput :=
  fail_if (li_Limit input <? 0)%Z || (MaxCollectionLimit <? li_Limit input)%Z
    with validationError "limit" "OUT_OF_RANGE" "must be 0 (default) or between 1 and 100" ;;
  types ← copyIssueListEnums "types" (li_Types input) Type_Valid;
  statuses ← copyIssueListEnums "statuses" (li_Statuses input) Status_Valid;
  effectiveStatuses ← copyIssueListEnums "effective_statuses" (li_EffectiveStatuses input) EffectiveStatus_Valid;
  priorities ← copyIssueListEnums "priorities" (li_Priorities input) Priority_Valid;
  labels ← normalizeIssueQueryLabels (li_Labels input);
  parentID ← (match li_ParentIssueID input with
              | None => Ok None
              | Some parent =>
                  match ParseIssueIdentifier parent with
                  | Err _ => Err (validationError "parent_issue_id" "INVALID_IDENTIFIER" "must be a canonical ULID or ISSUE-N")
                  | Ok identifier => Ok (Some (id_Value identifier))
                  end
              end);
  Ok (mkListIssues types statuses effectiveStatuses priorities labels parentID (li_IsBlocked input) (li_IsClaimable input)
        (li_IncludeArchived input) (if (li_Limit input =? 0)%Z then DefaultIssueListLimit else li_Limit input) (li_Cursor input)).
End requests.

(** ** The order *)

Definition issuePriorityRank (priority : string) : Z :=
  if priority =s PriorityCritical then 4
  else if priority =s PriorityHigh then 3
  else if priority =s PriorityMedium then 2
  else if priority =s PriorityLow then 1
  else 0.
Definition projectionRank (p : IssueProjection) : Z := issuePriorityRank (i_Priority (ip_Issue p)).
Definition boolInt (b : bool) : Z := if b then 1 else 0.

(** [ORDER BY priority_rank DESC, is_claimable DESC, sequence_no ASC]. *)
Definition issueListLess (p q : IssueProjection) : bool :=
  if negb (projectionRank p =? projectionRank q)%Z then (projectionRank q <? projectionRank p)%Z
  else if negb (boolInt (ip_IsClaimable p) =? boolInt (ip_IsClaimable q))%Z
  then (boolInt (ip_IsClaimable q) <? boolInt (ip_IsClaimable p))%Z
  else (i_SequenceNo (ip_Issue p) <? i_SequenceNo (ip_Issue q))%Z.

(** ** The cursor *)

Record issueCursor := mkIssueCursor { cu_PriorityRank : Z; cu_IsClaimable : bool; cu_SequenceNo : Z }.
#[export] Instance issueCursor_payload : CursorPayload issueCursor := {
  cursor_fields :=
    [mkField "priority_rank" (λ c, JNumber (Itoa (cu_PriorityRank c)))
       (λ v c, n ← int_of_json v (cu_PriorityRank c); Some (mkIssueCursor n (cu_IsClaimable c) (cu_SequenceNo c)));
     mkField "is_claimable" (λ c, JBool (cu_IsClaimable c))
       (λ v c, b ← bool_of_json v (cu_IsClaimable c); Some (mkIssueCursor (cu_PriorityRank c) b (cu_SequenceNo c)));
     mkField "sequence_no" (λ c, JNumber (Itoa (cu_SequenceNo c)))
       (λ v c, n ← int_of_json v (cu_SequenceNo c); Some (mkIssueCursor (cu_PriorityRank c) (cu_IsClaimable c) n))];
  cursor_zero := mkIssueCursor 0 false 0;
}.
Definition issueCursorCodec : Z := NewCodec 0.

Definition issueCursorError (e : CursorError) : DomainError :=
  NewError CodeInvalidArgument "issue cursor is invalid" false
    [mkDetail None "cursor" (match e with
                             | ErrCursorTooLarge => "CURSOR_TOO_LARGE"
                             | ErrUnsupportedVersion => "UNSUPPORTED_CURSOR_VERSION"
                             | ErrMalformedCursor => "MALFORMED_CURSOR"
                             end) ""].

Definition projectionCursor (p : IssueProjection) : issueCursor :=
  mkIssueCursor (projectionRank p) (ip_IsClaimable p) (i_SequenceNo (ip_Issue p)).

(** The cursor of a request, if it has one. *)
Definition decodeIssueCursor (cursor : string) : result (option issueCursor) :=
  if cursor =s "" then Ok None
  else match Decode issueCursorCodec cursor with
  | inr e => Err (issueCursorError e)
  | inl c =>
      fail_if (cu_PriorityRank c <? 1)%Z || (4 <? cu_PriorityRank c)%Z || (cu_SequenceNo c <? 1)%Z
        with issueCursorError ErrMalformedCursor ;;
      Ok (Some c)
  end.

(** The rows after the cursor. *)
Definition afterIssueCursor (c : issueCursor) (p : IssueProjection) : bool :=
  let claimable := boolInt (ip_IsClaimable p) in
  (projectionRank p <? cu_PriorityRank c)%Z ||
  ((projectionRank p =? cu_PriorityRank c)%Z &&
   ((claimable <? boolInt (cu_IsClaimable c))%Z ||
    ((claimable =? boolInt (cu_IsClaimable c))%Z && (cu_SequenceNo c <? i_SequenceNo (ip_Issue p))%Z))).

(** ** The filters *)

(** [column IN (...)], left out when there are no values. *)
Definition inFilter (values : list string) (value : string) : bool :=
  null values || existsb (λ v, v =s value) values.

Section queries.
Context `{UnicodeTables, ULID}.

(** A join with the labels of an issue, names compared without ASCII case. *)
Definition labelFilter (s : Store) (names : list string) (issue : Issue) : bool :=
  null names ||
  existsb (λ label,
    match st_labels s !! l_ID label with
    | Some row => existsb (λ name, nocaseEq (l_Name row) name) names
    | None => false
    end) (i_Labels issue).

(** The parent an identifier means; that of an unknown number is NULL, which
    equals nothing. *)
Definition parentFilter (parent : option IssueIdentifier) (s : Store) (issue : Issue) : bool :=
  match parent with
  | None => true
  | Some identifier =>
      match id_Kind identifier with
      | IssueIdentifierInternalID => optEq (i_ParentID issue) (Some (id_Value identifier))
      | IssueIdentifierDisplayID =>
          match findIssue identifier s with
          | Some row => optEq (i_ParentID issue) (Some (i_ID row))
          | None => false
          end
      end
  end.

Definition boolFilter (wanted : option bool) (b : bool) : bool :=
  match wanted with Some w => Bool.eqb w b | None => true end.

Definition issueMatches (input : ListIssuesInput) (parent : option IssueIdentifier) (s : Store) (p : IssueProjection) : bool :=
  let issue := ip_Issue p in
  (li_IncludeArchived input || negb (isSet (i_ArchivedAt issue))) &&
  inFilter (li_Types input) (i_Type issue) &&
  inFilter (li_Statuses input) (i_Status issue) &&
  inFilter (li_EffectiveStatuses input) (ip_EffectiveStatus p) &&
  inFilter (li_Priorities input) (i_Priority issue) &&
  parentFilter parent s issue &&
  boolFilter (li_IsBlocked input) (ip_IsBlocked p) &&
  boolFilter (li_IsClaimable input) (ip_IsClaimable p) &&
  labelFilter s (li_Labels input) issue.

Definition issueProjections (now : Z) (s : Store) : list IssueProjection :=
  map (λ issue, issueProjection issue now s) (rows s).

Definition parentIdentifier (parent : option string) : result (option IssueIdentifier) :=
  match parent with
  | None => Ok None
  | Some parent => identifier ← ParseIssueIdentifier parent; Ok (Some identifier)
  end.

Definition issueCursorFailure : DomainError :=
  WrapError "cursor is too large" CodeStorageFailure "cannot encode issue cursor" false [].

(** [ports.ListIssuesCommand] is the request and the time. *)
Definition ListIssues (input : ListIssuesInput) (now : Z) (s : Store) : result IssueList :=
  input ← ListIssuesInput_Validate input;
  after ← decodeIssueCursor (li_Cursor input);
  parent ← parentIdentifier (li_ParentIssueID input);
  let selected p :=
    issueMatches input parent s p && match after with Some c => afterIssueCursor c p | None => true end in
  let limit := Z.to_nat (li_Limit input) in
  page_result (λ p, Encode issueCursorCodec (projectionCursor p)) issueCursorFailure limit
    (keyset_rows issueListLess selected limit (issueProjections now s)).

(** [fetchIssueProjection] with the condition of the identifier. *)
Definition GetIssueProjection (identifier : IssueIdentifier) (now : Z) (s : Store) : result IssueProjection :=
  match findIssue identifier s with
  | Some issue => Ok (issueProjection issue now s)
  | None => Err issueNotFound
  end.

(** [GROUP BY effective_status ORDER BY effective_status]. *)
Definition CountIssuesByEffectiveStatus (now : Z) (s : Store) : list EffectiveStatusCount :=
  let live := map ip_EffectiveStatus (List.filter (λ p, negb (isSet (i_ArchivedAt (ip_Issue p)))) (issueProjections now s)) in
  map (λ status, mkStatusCount status (Z.of_nat (length (List.filter (λ other, other =s status) live))))
    (sort_Strings (remove_dups live)).
End queries.

(** ** Lemmas: the order *)

Lemma issueListLess_asym p q : issueListLess p q = true → issueListLess q p = false.
Proof.
  unfold issueListLess. rewrite (Z.eqb_sym (projectionRank q)), (Z.eqb_sym (boolInt (ip_IsClaimable q))).
  destruct (Z.eqb_spec (projectionRank p) (projectionRank q)); cbn [negb]; [|rewrite !Z.ltb_lt, !Z.ltb_ge; lia].
  destruct (Z.eqb_spec (boolInt (ip_IsClaimable p)) (boolInt (ip_IsClaimable q))); cbn [negb]; rewrite !Z.ltb_lt, !Z.ltb_ge; lia.
Qed.
(** The order as a relation on numbers. *)
Lemma issueListLess_spec p q :
  issueListLess p q = true ↔
  (projectionRank q < projectionRank p)%Z ∨
  (projectionRank p = projectionRank q ∧
   ((boolInt (ip_IsClaimable q) < boolInt (ip_IsClaimable p))%Z ∨
    (boolInt (ip_IsClaimable p) = boolInt (ip_IsClaimable q) ∧ i_SequenceNo (ip_Issue p) < i_SequenceNo (ip_Issue q))%Z)).
Proof.
  unfold issueListLess. destruct (Z.eqb_spec (projectionRank p) (projectionRank q)) as [->|]; cbn [negb]; [|rewrite Z.ltb_lt; lia].
  destruct (Z.eqb_spec (boolInt (ip_IsClaimable p)) (boolInt (ip_IsClaimable q))) as [->|]; cbn [negb]; rewrite Z.ltb_lt; lia.
Qed.
Lemma issueListLess_false p q :
  issueListLess p q = false ↔
  (projectionRank p < projectionRank q)%Z ∨
  (projectionRank p = projectionRank q ∧
   ((boolInt (ip_IsClaimable p) < boolInt (ip_IsClaimable q))%Z ∨
    (boolInt (ip_IsClaimable p) = boolInt (ip_IsClaimable q) ∧ i_SequenceNo (ip_Issue q) <= i_SequenceNo (ip_Issue p))%Z)).
Proof. rewrite <-not_true_iff_false, issueListLess_spec. lia. Qed.
Lemma issueListLess_trans x y z : not_less issueListLess x y → not_less issueListLess y z → not_less issueListLess x z.
Proof. unfold not_less. rewrite !issueListLess_false. lia. Qed.
Lemma issueListLess_total p q :
  issueListLess p q = false → issueListLess q p = false → i_SequenceNo (ip_Issue p) = i_SequenceNo (ip_Issue q).
Proof. rewrite !issueListLess_false. lia. Qed.

(** The test of the query is the order. *)
Lemma afterIssueCursor_less p q : afterIssueCursor (projectionCursor p) q = issueListLess p q.
Proof.
  apply eq_true_iff_eq. rewrite issueListLess_spec. unfold afterIssueCursor, projectionCursor. cbn.
  rewrite !orb_true_iff, !andb_true_iff, !orb_true_iff, !andb_true_iff, !Z.ltb_lt, !Z.eqb_eq. lia.
Qed.

(** ** Lemmas: the cursor *)

Definition issueCursor_valid (c : issueCursor) : Prop :=
  (1 <= cu_PriorityRank c <= 4)%Z ∧ (1 <= cu_SequenceNo c < 2 ^ 63)%Z.

#[export] Instance issueCursor_laws : PayloadLaws issueCursor issueCursor_valid.
Proof.
  split.
  - cbn. repeat constructor; set_solver.
  - intros [rank claimable number] _. unfold struct_to_json, cursor_fields, issueCursor_payload.
    cbn [map fd_Name fd_Load cu_PriorityRank cu_IsClaimable cu_SequenceNo json_ok foldr].
    split_and!; try done; by eexists.
  - intros [rank claimable number] [Hr Hn]. cbn in Hr, Hn. cbn [foldl cursor_fields issueCursor_payload mbind option_bind fd_Store fd_Load].
    cbn [cu_PriorityRank cu_IsClaimable cu_SequenceNo cursor_zero bool_of_json mbind option_bind].
    rewrite int_of_json_int by lia. cbn [mbind option_bind cu_PriorityRank cu_IsClaimable cu_SequenceNo]. by rewrite int_of_json_int by lia.
Qed.

(** The cursor of a row is always short enough. *)
Lemma issueCursor_encodes c : issueCursor_valid c → ∃ cursor, Encode issueCursorCodec c = inl cursor.
Proof.
  destruct c as [rank claimable number]. intros [Hr Hn]. cbn in Hr, Hn. unfold Encode. cbv zeta.
  set (raw := json_print _). assert (len raw <= 300)%Z as Hlen.
  { unfold raw. cbn [struct_to_json envelope_fields map fd_Name fd_Load env_Version env_Payload cursor_fields issueCursor_payload
      cu_PriorityRank cu_IsClaimable cu_SequenceNo json_print Join].
    rewrite !len_app. pose proof (Itoa_length rank ltac:(lia)). pose proof (Itoa_length number ltac:(lia)).
    assert (len (if claimable then "true" else "false") <= 5)%Z by by destruct claimable.
    repeat match goal with |- context [len (json_quote ?s)] => let n := eval vm_compute in (len (json_quote s)) in change (len (json_quote s)) with n end.
    repeat match goal with |- context [len ?s] => let n := eval vm_compute in (len s) in lazymatch n with Z0 => idtac | Zpos _ => idtac end; change (len s) with n end.
    lia. }
  pose proof (EncodeToString_length raw). rewrite (proj2 (Z.ltb_ge _ _)); [eauto|]. change issueCursorCodec with 4096%Z. lia.
Qed.

(** ** Lemmas: pages *)

Definition withCursor (cursor : string) (input : ListIssuesInput) : ListIssuesInput :=
  mkListIssues (li_Types input) (li_Statuses input) (li_EffectiveStatuses input) (li_Priorities input) (li_Labels input)
    (li_ParentIssueID input) (li_IsBlocked input) (li_IsClaimable input) (li_IncludeArchived input) (li_Limit input) cursor.

Definition cursorOf (p : IssueProjection) : string :=
  match Encode issueCursorCodec (projectionCursor p) with inl cursor => cursor | inr _ => "" end.

Lemma filter_both {A} (f g : A → bool) l : List.filter (λ x, f x && g x) l = List.filter g (List.filter f l).
Proof. induction l as [|x l IH]; [done|]. cbn. destruct (f x); cbn; [destruct (g x)|]; by rewrite IH. Qed.
Lemma filter_all {A} (l : list A) : List.filter (λ _, true) l = l.
Proof. induction l as [|x l IH]; [done|]. cbn. by rewrite IH. Qed.

Section pages.
Context `{UnicodeTables, ULIDLaws}.

Lemma Validate_withCursor cursor input v :
  ListIssuesInput_Validate input = Ok v → ListIssuesInput_Validate (withCursor cursor input) = Ok (withCursor cursor v).
Proof.
  unfold ListIssuesInput_Validate, withCursor.
  cbn [li_Types li_Statuses li_EffectiveStatuses li_Priorities li_Labels li_ParentIssueID li_IsBlocked li_IsClaimable li_IncludeArchived li_Limit li_Cursor].
  destruct (_ || _); [done|].
  repeat match goal with
  | |- context [copyIssueListEnums ?field ?values ?valid] =>
      destruct (copyIssueListEnums field values valid); cbn [mbind result_bind]; [|done]
  end.
  destruct (normalizeIssueQueryLabels (li_Labels input)); cbn [mbind result_bind]; [|done].
  destruct (match li_ParentIssueID input with Some _ => _ | None => _ end); cbn [mbind result_bind]; [|done]. by intros [= <-].
Qed.

Lemma Validate_limit input v : ListIssuesInput_Validate input = Ok v → (1 <= li_Limit v <= MaxCollectionLimit)%Z.
Proof.
  unfold ListIssuesInput_Validate. intros Hv. destruct (_ || _) eqn:Hl; [done|]. inv_ok. bool_simpl. cbn. unfold DefaultIssueListLimit.
  destruct (Z.eqb_spec (li_Limit input) 0); unfold MaxCollectionLimit in *; lia.
Qed.

Lemma Validate_parent input v :
  ListIssuesInput_Validate input = Ok v → ∃ parent, parentIdentifier (li_ParentIssueID v) = Ok parent.
Proof.
  unfold ListIssuesInput_Validate. intros Hv. destruct (_ || _); [done|]. inv_ok. cbn.
  destruct (li_ParentIssueID input) as [text|]; [|inv_ok; by eexists].
  destruct (ParseIssueIdentifier text) as [identifier|] eqn:Hp; [|done]. inv_ok. cbn.
  rewrite (ParseIssueIdentifier_idemp _ _ Hp). by eexists.
Qed.

Context (s : Store) (now : Z).
Hypothesis schema : schema_ok s.
Hypothesis numbers : ∀ id i, st_issues s !! id = Some i → (1 <= i_SequenceNo i < 2 ^ 63)%Z.

Lemma elem_of_projections p :
  p ∈ issueProjections now s ↔ ∃ id i, st_issues s !! id = Some i ∧ p = issueProjection i now s.
Proof.
  unfold issueProjections. rewrite list_elem_of_fmap. setoid_rewrite (elem_of_rows (R := Issue)). cbn. naive_solver.
Qed.

Lemma projection_number_inj p q :
  p ∈ issueProjections now s → q ∈ issueProjections now s → i_SequenceNo (ip_Issue p) = i_SequenceNo (ip_Issue q) → p = q.
Proof.
  intros (id & i & Hi & ->)%elem_of_projections (jd & j & Hj & ->)%elem_of_projections Hn. cbn in Hn.
  assert (id = jd) as -> by by eapply sequence_unique. congruence.
Qed.

Lemma projections_nodup : NoDup (issueProjections now s).
Proof.
  pose proof (rows_nodup_ids (R := Issue) s (proj1 (ok_issues _ schema))) as Hnd.
  apply (NoDup_fmap_1 (λ p, i_ID (ip_Issue p))). unfold issueProjections. change (map ?f ?l) with (f <$> l) in *.
  rewrite <-list_fmap_compose. done.
Qed.

Lemma projection_cursor_valid p : p ∈ issueProjections now s → issueCursor_valid (projectionCursor p).
Proof.
  intros (id & i & Hi & ->)%elem_of_projections. split; cbn; [|by eapply numbers].
  pose proof (proj2 (ok_issues _ schema) _ _ Hi) as Hc. cbn in Hc. unfold issue_constraint in Hc. conj_hyps.
  unfold projectionRank. cbn. unfold Priority_Valid, enumValid in *.
  match goal with Hp : context [i_Priority i] |- _ => revert Hp end. unfold issuePriorityRank. cbn.
  repeat destruct (_ =s _); cbn; lia || done.
Qed.

Lemma cursorOf_spec p :
  p ∈ issueProjections now s →
  Encode issueCursorCodec (projectionCursor p) = inl (cursorOf p) ∧ decodeIssueCursor (cursorOf p) = Ok (Some (projectionCursor p)).
Proof.
  intros Hp. pose proof (projection_cursor_valid p Hp) as Hvalid. destruct (issueCursor_encodes _ Hvalid) as [cursor Henc].
  unfold cursorOf. rewrite Henc. split; [done|]. unfold decodeIssueCursor.
  rewrite (proj2 (eqb_string_false _ _)) by by eapply Encode_nonempty. rewrite (Decode_Encode _ _ _ Hvalid Henc).
  destruct Hvalid as [Hr Hn]. rewrite !(proj2 (Z.ltb_ge _ _)) by lia. done.
Qed.

Context (input v : ListIssuesInput) (parent : option IssueIdentifier).
Hypothesis validated : ListIssuesInput_Validate input = Ok v.
Hypothesis parent_known : parentIdentifier (li_ParentIssueID v) = Ok parent.

(** The whole listing. *)
Definition issueListing : list IssueProjection :=
  stable_sort issueListLess (List.filter (issueMatches v parent s) (issueProjections now s)).

Lemma elem_of_listing p :
  p ∈ issueListing ↔ (∃ id i, st_issues s !! id = Some i ∧ p = issueProjection i now s) ∧ issueMatches v parent s p = true.
Proof. unfold issueListing. by rewrite elem_of_stable_sort, elem_of_filter_list, elem_of_projections. Qed.

Lemma ListIssues_page cursor after :
  decodeIssueCursor cursor = Ok after →
  ListIssues (withCursor cursor input) now s =
  Ok (page_of cursorOf (Z.to_nat (li_Limit v))
        (keyset_rows issueListLess (λ p, match after with Some c => afterIssueCursor c p | None => true end)
           (Z.to_nat (li_Limit v)) (List.filter (issueMatches v parent s) (issueProjections now s)))).
Proof.
  intros Hafter. unfold ListIssues. rewrite (Validate_withCursor cursor _ _ validated). cbn [mbind result_bind withCursor li_Cursor].
  rewrite Hafter. cbn [mbind result_bind withCursor li_ParentIssueID]. rewrite parent_known. cbn [mbind result_bind li_Limit].
  unfold keyset_rows. rewrite <-filter_both. apply page_result_Ok. intros p Hp. apply cursorOf_spec.
  assert (p ∈ stable_sort issueListLess (List.filter (λ p, issueMatches (withCursor cursor v) parent s p &&
    match after with Some c => afterIssueCursor c p | None => true end) (issueProjections now s))) as Hin.
  { rewrite <-(take_drop (S (Z.to_nat (li_Limit v)))). by apply elem_of_app; left. }
  by rewrite elem_of_stable_sort, elem_of_filter_list in Hin; destruct Hin.
Qed.

Lemma matching_nodup : NoDup (List.filter (issueMatches v parent s) (issueProjections now s)).
Proof.
  pose proof projections_nodup as Hnd. revert Hnd. generalize (issueProjections now s). intros l.
  induction l as [|p l IH]; [done|]. intros [Hni Hnd]%NoDup_cons. cbn. destruct (issueMatches v parent s p); [|by apply IH].
  apply NoDup_cons. split; [|by apply IH]. rewrite elem_of_filter_list. by intros [? _].
Qed.

Lemma matching_total p q :
  p ∈ List.filter (issueMatches v parent s) (issueProjections now s) →
  q ∈ List.filter (issueMatches v parent s) (issueProjections now s) →
  issueListLess p q = false → issueListLess q p = false → p = q.
Proof.
  intros [Hp _]%elem_of_filter_list [Hq _]%elem_of_filter_list Hpq Hqp.
  apply projection_number_inj; [done|done|]. by apply issueListLess_total.
Qed.
Lemma issueListing_strict : StronglySorted (λ p q, issueListLess p q = true) issueListing.
Proof.
  apply stable_sort_strict; [split; [apply issueListLess_asym|apply issueListLess_trans]|apply matching_nodup|].
  intros p q Hp Hq [? ?]. by apply matching_total.
Qed.
Lemma issueListing_length : length issueListing ≤ size (st_issues s).
Proof.
  unfold issueListing. rewrite (Permutation_length (stable_sort_Permutation _ _)).
  etrans; [apply filter_length_le|]. unfold issueProjections, rows. rewrite !length_map. by rewrite length_map_to_list.
Qed.

Lemma ListIssues_first : ListIssues (withCursor "" input) now s = Ok (page_of cursorOf (Z.to_nat (li_Limit v)) issueListing).
Proof. rewrite (ListIssues_page "" None) by done. f_equal. by apply keyset_first. Qed.

Lemma ListIssues_next before x left :
  issueListing = before ++ x :: left →
  ListIssues (withCursor (cursorOf x) input) now s = Ok (page_of cursorOf (Z.to_nat (li_Limit v)) left).
Proof.
  intros Hl. assert (Hsub : ∀ p, p ∈ List.filter (issueMatches v parent s) (issueProjections now s) → p ∈ issueProjections now s).
  { intros p [Hp _]%elem_of_filter_list. done. }
  assert (Hx : x ∈ issueProjections now s).
  { apply Hsub. rewrite <-(elem_of_stable_sort issueListLess). fold issueListing. rewrite Hl. set_solver. }
  rewrite (ListIssues_page _ _ (proj2 (cursorOf_spec x Hx))). f_equal.
  apply (keyset_after _ _ issueListLess_asym issueListLess_trans _ _ before x); [done|apply matching_nodup|..].
  - apply matching_total.
  - intros q _. apply afterIssueCursor_less.
Qed.
End pages.

(** * Properties *)

(** C20. Following the cursors of a listing shows everything once.  In a
    reachable store, for a request that validates, a client that asks for the
    first page and then follows the cursors gets no error, sees exactly the
    issues that match the filters, each once, ordered by descending priority,
    claimable first, by ascending number; all pages but the last have the
    length asked for, and only the last says that there is no more. *)
Theorem ListIssues_complete `{UnicodeTables, ULIDLaws, JSONCodec, URLParser, SnapshotHash, SQLiteDriver} s now input v :
  reachable s → (nextNumber s <= 2 ^ 63)%Z → ListIssuesInput_Validate input = Ok v →
  ∃ parent pages,
    parentIdentifier (li_ParentIssueID v) = Ok parent ∧
    let listing := concat (map pg_Items pages) in
    follow (S (size (st_issues s))) (λ cursor, ListIssues (withCursor cursor input) now s) "" = Ok pages ∧
    (∀ p, p ∈ listing ↔
       (∃ id i, st_issues s !! id = Some i ∧ p = issueProjection i now s) ∧ issueMatches v parent s p = true) ∧
    StronglySorted (λ p q, issueListLess p q = true) listing ∧
    well_paged (Z.to_nat (li_Limit v)) pages.
Proof.
  intros Hr Hmax Hv. pose proof (reachable_schema s Hr) as Hok. destruct (Validate_parent _ _ Hv) as [parent Hp].
  assert (Hnum : ∀ id i, st_issues s !! id = Some i → (1 <= i_SequenceNo i < 2 ^ 63)%Z).
  { intros id i Hi. destruct (issue_number s id i Hr Hi). lia. }
  pose proof (Validate_limit _ _ Hv) as Hlim.
  destruct (follow_listing (λ cursor, ListIssues (withCursor cursor input) now s) cursorOf (Z.to_nat (li_Limit v))
              (issueListing s now v parent)) with (fuel := S (size (st_issues s))) as (pages & Hf & Hc & Hw).
  { lia. }
  { by apply ListIssues_first. }
  { intros before x left. by apply ListIssues_next. }
  { pose proof (issueListing_length s now v parent). lia. }
  exists parent, pages. cbv zeta. rewrite Hc. split_and!; [done|done|..|done].
  - intros p. by apply elem_of_listing.
  - by apply issueListing_strict.
Qed.

(** ** Witnesses *)

(** Issues 1 to 4 of a board, two at a time. *)
Definition sampleListing : ListIssuesInput := mkListIssues [] [] [] [] [] None None None false 2 "".
Definition listingNumbers (pages : list IssueList) : list (list Z) := map (λ page, map (i_SequenceNo ∘ ip_Issue) (pg_Items page)) pages.

Example sample_pages :
  listingNumbers <$> follow 5 (λ cursor, ListIssues (withCursor cursor sampleListing) T0 boardChild) "" = Ok [[1; 2]; [4; 3]]%Z ∧
  listingNumbers <$> follow 5 (λ cursor, ListIssues (withCursor cursor
    (mkListIssues [] [] [] [] ["zeta"] (Some "issue-3") None None false 0 "")) T0 boardChild) "" = Ok [[4]]%Z ∧
  CountIssuesByEffectiveStatus T0 boardChild = [mkStatusCount "open" 1; mkStatusCount "ready" 2; mkStatusCount "review" 1].
Proof. split_and!; by vm_compute. Qed.

Example forged_cursor : ListIssues (withCursor "e30" sampleListing) T0 boardChild = Err (issueCursorError ErrUnsupportedVersion).
Proof. by vm_compute. Qed.

Lemma ListIssues_complete_witness :
  ∃ pages,
    follow 5 (λ cursor, ListIssues (withCursor cursor sampleListing) T0 boardChild) "" = Ok pages ∧
    well_paged 2 pages ∧ issueProjection childIssue T0 boardChild ∈ concat (map pg_Items pages).
Proof.
  destruct (ListIssues_complete boardChild T0 sampleListing sampleListing boardChild_reachable) as (parent & pages & Hp & Hf & Hall & _ & Hw).
  { by vm_compute. }
  { by vm_compute. }
  exists pages. split_and!; [exact Hf|exact Hw|]. apply Hall. injection Hp as <-. split; [|by vm_compute].
  exists (ulid_of "6"), childIssue. split; [by vm_compute|done].
Defined.
