(* ===== verification/Listings.v ===== *)
(** * The other listings

    The pages of [ListReservations] (reservations.go), [ListDecisions]
    (decisions.go), [ListPolicies] (workflow_policy.go), [ListLabels]
    (labels.go) and [ListReviewRequests] (reviews.go), the bounded
    [ListActiveAttempts] (attempts.go), and the requests they validate.

    Three of them share an order and a cursor, the creation time and the
    identifier of a row, newest first: [dated] is that query, written once over
    the rows of a table.  The query compares the stored text of times, as it is
    done here. *)

From S2P Require Import Prelude GoStrings Errors Validation Samples Issue Relation Session IssueOps.
From S2P Require Import Discussion Resource Attempt AttemptPolicy Gates Store Schema ReservationStore.
From S2P Require Import GateStore ReviewStore Termination ReviewOps AttemptStore Footprint.
From S2P Require Import RelationStore IssueStore PolicyStore EvidenceStore DiscussionStore SessionStore.
From S2P Require Import Plan PlanStore PlanCheck PlanApply Place Lifecycle Scenario Records Board.
From S2P Require Import Timestamps Orders Encoding Pagination IssueList.

Definition DefaultLabelListLimit : Z := 50.
Definition MaxWorkflowPolicyListLimit : Z := 100.
Definition MaxBoardCollectionLimit : Z := 100.

(** ** Requests *)

Record ListDecisionsInput := mkListDecisions { ld_IssueID : option string; ld_Limit : Z; ld_Cursor : string }.
Record ListWorkflowPoliciesInput := mkListPolicies { lp_Status : option string; lp_Limit : Z; lp_Cursor : string }.
Record ListLabelsInput := mkListLabels { ll_Query : string; ll_Limit : Z; ll_Cursor : string }.

Section requests.
Context `{UnicodeTables, ULID}.

Definition ListDecisionsInput_Validate (input : ListDecisionsInput) : result ListDecisionsInput :=
  fail_if (ld_Limit input <? 0)%Z || (100 <? ld_Limit input)%Z
    with validationError "limit" "OUT_OF_RANGE" "must be 0 (default) or between 1 and 100" ;;
  issueID ← normalizeOptionalSearchIssueID "issue_id" (ld_IssueID input);
  try (if negb (ld_Cursor input =s "") then ValidateText "cursor" (ld_Cursor input) 4096 else Ok tt) ;;
  Ok (mkListDecisions issueID (if (ld_Limit input =? 0)%Z then 20 else ld_Limit input) (ld_Cursor input)).

Definition ListWorkflowPoliciesInput_Validate (input : ListWorkflowPoliciesInput) : result ListWorkflowPoliciesInput :=
  fail_if match lp_Status input with Some status => negb (PolicyStatus_Valid status) | None => false end
    with invalidEnum "status" (default "" (lp_Status input)) ;;
  fail_if (lp_Limit input <? 0)%Z || (MaxWorkflowPolicyListLimit <? lp_Limit input)%Z
    with validationError "limit" "OUT_OF_RANGE" "must be 0 (default) or between 1 and 100" ;;
  try ValidateText "cursor" (lp_Cursor input) 4096 ;;
  Ok (mkListPolicies (lp_Status input) (if (lp_Limit input =? 0)%Z then 50 else lp_Limit input) (lp_Cursor input)).

Definition ListLabelsInput_Validate (input : ListLabelsInput) : result ListLabelsInput :=
  fail_if (ll_Limit input <? 0)%Z || (MaxCollectionLimit <? ll_Limit input)%Z
    with validationError "limit" "OUT_OF_RANGE" "must be 0 (default) or between 1 and 100" ;;
  try ValidateText "query" (ll_Query input) MaxLabelNameRunes ;;
  Ok (mkListLabels (asciiLower (TrimSpace (ll_Query input)))
        (if (ll_Limit input =? 0)%Z then DefaultLabelListLimit else ll_Limit input) (ll_Cursor input)).
End requests.

(** ** Pages by creation time and identifier, newest first *)

(** [reservationCursor], [decisionCursor] and [workflowPolicyCursor] are this
    record. *)
Record datedCursor := mkDatedCursor { dq_CreatedAt : string; dq_ID : string }.
#[export] Instance datedCursor_payload : CursorPayload datedCursor := {
  cursor_fields :=
    [mkField "created_at" (λ c, JString (dq_CreatedAt c)) (λ v c, t ← string_of_json v (dq_CreatedAt c); Some (mkDatedCursor t (dq_ID c)));
     mkField "id" (λ c, JString (dq_ID c)) (λ v c, i ← string_of_json v (dq_ID c); Some (mkDatedCursor (dq_CreatedAt c) i))];
  cursor_zero := mkDatedCursor "" "";
}.
Definition datedCodec : Z := NewCodec 0.

(** A table whose rows have a creation time. *)
Class Dated (R : Type) := { dated_at : R → Z; dated_id : R → string }.

Section dated.
Context {R : Type} `{Dated R}.

(** [ORDER BY created_at DESC, id DESC]. *)
Definition datedLess (a b : R) : bool :=
  if negb (formatStorageTime (dated_at a) =s formatStorageTime (dated_at b))
  then str_less (formatStorageTime (dated_at b)) (formatStorageTime (dated_at a))
  else str_less (dated_id b) (dated_id a).
Definition afterDated (c : datedCursor) (r : R) : bool :=
  str_less (formatStorageTime (dated_at r)) (dq_CreatedAt c) ||
  ((formatStorageTime (dated_at r) =s dq_CreatedAt c) && str_less (dated_id r) (dq_ID c)).
Definition datedCursorOf (r : R) : datedCursor := mkDatedCursor (formatStorageTime (dated_at r)) (dated_id r).

(** The cursor of a request; every error is the same one. *)
Definition decodeDated (what cursor : string) : result (option datedCursor) :=
  if cursor =s "" then Ok None
  else
    let invalid := NewError CodeInvalidArgument (what +:+ " cursor is invalid") false
                     [mkDetail None "cursor" "MALFORMED_CURSOR" ""] in
    match Decode datedCodec cursor with
    | inr _ => Err invalid
    | inl c => fail_if blank (dq_CreatedAt c) with invalid ;; Ok (Some c)
    end.

(** The rows read are decoded in order before the page is cut. *)
Definition dated {A} `{Dated A} (what : string) (scan : R → result A) (selected : R → bool) (after : option datedCursor)
    (limit : nat) (all : list R) : result (Page A) :=
  items ← collect scan (keyset_rows datedLess
            (λ r, selected r && match after with Some c => afterDated c r | None => true end) limit all);
  page_result (λ a, Encode datedCodec (mkDatedCursor (formatStorageTime (dated_at a)) (dated_id a)))
    (WrapError "cursor is too large" CodeStorageFailure ("cannot encode " +:+ what +:+ " cursor") false []) limit items.
End dated.

#[export] Instance Reservation_dated : Dated Reservation := { dated_at := rv_CreatedAt; dated_id := rv_ID }.
#[export] Instance reservationRow_dated : Dated reservationRow :=
  { dated_at r := rv_CreatedAt (rr_Reservation r); dated_id := rr_ID }.
#[export] Instance Decision_dated : Dated Decision := { dated_at := dc_CreatedAt; dated_id := dc_ID }.
#[export] Instance WorkflowPolicy_dated : Dated WorkflowPolicy := { dated_at := wp_CreatedAt; dated_id := wp_ID }.
#[export] Instance ReviewRequest_dated : Dated ReviewRequest := { dated_at := rq_CreatedAt; dated_id := rq_ID }.

Section repositories.
Context `{UnicodeTables, ULID}.

(** [resolveSearchIssueID]. *)
Definition resolveSearchIssueID (raw : string) (s : Store) : result string :=
  identifier ← ParseIssueIdentifier raw;
  match findIssue identifier s with
  | Some issue => Ok (i_ID issue)
  | None => Err (NewError CodeIssueNotFound "issue not found" false [])
  end.
Definition resolveOptionalIssueID (raw : option string) (s : Store) : result (option string) :=
  match raw with
  | None => Ok None
  | Some raw => id ← resolveSearchIssueID raw s; Ok (Some id)
  end.

(** ** Reservations *)

Definition reservationSelected (input : ListResourceReservationsInput) (issueID : option string) (r : reservationRow) : bool :=
  let row := rr_Reservation r in
  match issueID with Some id => rv_IssueID row =s id | None => true end &&
  match lr_AttemptID input with Some id => rv_AttemptID row =s id | None => true end &&
  match lr_Kind input with Some kind => rv_Kind row =s kind | None => true end &&
  match lr_Active input with
  | Some true => rv_Status row =s ReservationStatusActive
  | Some false => rv_Status row =s ReservationStatusReleased
  | None => true
  end.

Definition readReservation (row : reservationRow) : result Reservation :=
  scanned ← scanReservationRow row; Ok (toDomain (sc_Row scanned)).

Definition ListReservations (input : ListResourceReservationsInput) (s : Store) : result (Page Reservation) :=
  after ← decodeDated "reservation" (lr_Cursor input);
  issueID ← resolveOptionalIssueID (lr_IssueID input) s;
  dated "reservation" readReservation (reservationSelected input issueID) after (Z.to_nat (lr_Limit input)) (rows s).

(** [application.ReservationService]. *)
Definition ReservationService_ListReservations (input : ListResourceReservationsInput) (s : Store) :
    result (Page Reservation) :=
  normalized ← ListResourceReservationsInput_Validate input;
  ListReservations normalized s.

(** ** Decisions *)

(** Without an issue, the decisions of the project as a whole. *)
Definition decisionSelected (issueID : option string) (d : Decision) : bool :=
  match issueID with Some id => optEq (dc_IssueID d) (Some id) | None => negb (isSet (dc_IssueID d)) end.

Definition ListDecisions (input : ListDecisionsInput) (s : Store) : result (Page Decision) :=
  input ← ListDecisionsInput_Validate input;
  after ← decodeDated "decision" (ld_Cursor input);
  issueID ← resolveOptionalIssueID (ld_IssueID input) s;
  dated "decision" scanDecisionFromScanner (decisionSelected issueID) after (Z.to_nat (ld_Limit input)) (rows s).

(** ** Policies *)

Definition policySelected (status : option string) (p : WorkflowPolicy) : bool :=
  match status with Some status => wp_Status p =s status | None => true end.

Definition ListPolicies (input : ListWorkflowPoliciesInput) (s : Store) : result (Page WorkflowPolicy) :=
  input ← ListWorkflowPoliciesInput_Validate input;
  after ← decodeDated "workflow policy" (lp_Cursor input);
  dated "workflow policy" scanWorkflowPolicy (policySelected (lp_Status input)) after (Z.to_nat (lp_Limit input)) (rows s).

(** ** Labels *)

Record labelCursor := mkLabelCursor { lq_NormalizedName : string; lq_ID : string }.
#[export] Instance labelCursor_payload : CursorPayload labelCursor := {
  cursor_fields :=
    [mkField "normalized_name" (λ c, JString (lq_NormalizedName c))
       (λ v c, n ← string_of_json v (lq_NormalizedName c); Some (mkLabelCursor n (lq_ID c)));
     mkField "id" (λ c, JString (lq_ID c)) (λ v c, i ← string_of_json v (lq_ID c); Some (mkLabelCursor (lq_NormalizedName c) i))];
  cursor_zero := mkLabelCursor "" "";
}.
Definition labelCursorCodec : Z := NewCodec 0.
Definition labelCursorError (e : CursorError) : DomainError :=
  NewError CodeInvalidArgument "label cursor is invalid" false
    [mkDetail None "cursor" (match e with
                             | ErrCursorTooLarge => "CURSOR_TOO_LARGE"
                             | ErrUnsupportedVersion => "UNSUPPORTED_CURSOR_VERSION"
                             | ErrMalformedCursor => "MALFORMED_CURSOR"
                             end) ""].

(** [substr(name, 1, length(query)) = query COLLATE NOCASE]: SQLite counts
    characters. *)
Definition sqlPrefix (n : nat) (s : string) : string := of_bytes (concat (map rune_bytes (take n (runes s)))).
Definition labelSelected (query : string) (l : Label) : bool :=
  (query =s "") || nocaseEq (sqlPrefix (length (runes query)) (l_Name l)) query.
Definition afterLabelCursor (c : labelCursor) (l : Label) : bool :=
  str_less (asciiLower (lq_NormalizedName c)) (asciiLower (l_Name l)) ||
  (nocaseEq (l_Name l) (lq_NormalizedName c) && str_less (lq_ID c) (l_ID l)).

Definition ListLabels (input : ListLabelsInput) (s : Store) : result (Page Label) :=
  input ← ListLabelsInput_Validate input;
  after ← (if ll_Cursor input =s "" then Ok None
           else match Decode labelCursorCodec (ll_Cursor input) with
                | inr e => Err (labelCursorError e)
                | inl c => Ok (Some c)
                end);
  let limit := Z.to_nat (ll_Limit input) in
  items ← collect scanLabel (keyset_rows labelLess
            (λ l, labelSelected (ll_Query input) l && match after with Some c => afterLabelCursor c l | None => true end)
            limit (rows s));
  page_result (λ l, Encode labelCursorCodec (mkLabelCursor (l_NormalizedName l) (l_ID l)))
    (WrapError "cursor is too large" CodeStorageFailure "cannot encode label cursor" false []) limit items.

(** ** Review requests *)

(** [ports.ListReviewRequestsQuery] and its result. *)
Record ListReviewRequestsQuery := mkReviewQuery {
  vq_Status : option string;
  vq_Limit : Z;
  vq_Offset : Z;
  vq_AfterCreatedAt : string;
  vq_AfterID : string;
}.
Record ListReviewRequestsResult := mkReviewPage {
  vp_Items : list ReviewRequest;
  vp_HasMore : bool;
  vp_NextOffset : Z;
  vp_LastCreatedAt : Z;
  vp_LastID : string;
  vp_StaleTargets : gset string;
}.

(** The requests of a page whose target is stale; an issue that is missing is
    an error. *)
Definition batchReviewTargetStaleness (items : list ReviewRequest) (s : Store) : result (gset string) :=
  foldl (λ acc r,
    stale ← acc;
    match st_issues s !! rq_IssueID r with
    | None => Err (NewError CodeIssueNotFound "issue not found" false [])
    | Some issue =>
        Ok (if targetStale (rq_IssueID r) (i_Version issue) (rq_TargetIssueVersion r) (rq_TargetEventID r) s
            then {[ rq_ID r ]} ∪ stale else stale)
    end) (Ok ∅) items.

(** A positive limit, as the application service passes it. *)
Definition ListReviewRequests (q : ListReviewRequestsQuery) (s : Store) : result ListReviewRequestsResult :=
  let requested := Z.max 0 (vq_Offset q) in
  let offset := if vq_AfterID q =s "" then requested else 0%Z in
  let limit := Z.to_nat (vq_Limit q) in
  let selected r :=
    match vq_Status q with Some status => rq_Status r =s status | None => true end &&
    ((vq_AfterID q =s "") || afterDated (mkDatedCursor (vq_AfterCreatedAt q) (vq_AfterID q)) r) in
  let items := take (S limit) (drop (Z.to_nat offset) (stable_sort datedLess (List.filter selected (rows s)))) in
  stale ← batchReviewTargetStaleness (take (min (length items) limit) items) s;
  let hasMore := Nat.ltb limit (length items) in
  let items := if hasMore then take limit items else items in
  Ok (mkReviewPage items hasMore (requested + Z.of_nat (length items))
        (match last items with Some r => rq_CreatedAt r | None => time_zero end)
        (match last items with Some r => rq_ID r | None => "" end) stale).

(** ** Active attempts *)

Record ActiveAttemptSummary := mkActiveAttempt {
  aa_AttemptID : string;
  aa_IssueID : string;
  aa_IssueDisplayID : string;
  aa_IssueTitle : string;
  aa_Kind : string;
  aa_SessionID : option string;
  aa_SessionLabel : option string;
  aa_StartedAt : Z;
  aa_LeaseExpiresAt : Z;
}.
Record ActiveAttemptList := mkActiveList { al_Items : list ActiveAttemptSummary; al_HasMore : bool }.

(** [ORDER BY lease_expires_at ASC, id ASC], times as stored. *)
Definition leaseLess (a b : AttemptRow) : bool :=
  let ta := formatStorageTime (ar_LeaseExpiresAt a) in
  let tb := formatStorageTime (ar_LeaseExpiresAt b) in
  if ta =s tb then str_less (wa_ID (ar_Attempt a)) (wa_ID (ar_Attempt b)) else str_less ta tb.

(** A row of the join: the attempt needs its issue, and may have a session. *)
Definition summarizeAttempt (s : Store) (row : AttemptRow) : list ActiveAttemptSummary :=
  let a := ar_Attempt row in
  match st_issues s !! wa_IssueID a with
  | None => []
  | Some issue =>
      [mkActiveAttempt (wa_ID a) (wa_IssueID a) ("ISSUE-" +:+ Itoa (i_SequenceNo issue)) (i_Title issue) (wa_Kind a)
         (wa_SessionID a)
         (session ← wa_SessionID a; row ← st_sessions s !! session; as_AgentLabel (sr_Session row))
         (wa_StartedAt a) (wa_LeaseExpiresAt a)]
  end.

Definition ListActiveAttempts (requested now : Z) (s : Store) : ActiveAttemptList :=
  let limit := Z.to_nat (if (requested <=? 0)%Z || (MaxBoardCollectionLimit <? requested)%Z
                         then MaxBoardCollectionLimit else requested) in
  let items := take (S limit) (concat (map (summarizeAttempt s)
    (stable_sort leaseLess (List.filter (λ row,
       attemptActive row && str_less (formatStorageTime now) (formatStorageTime (ar_LeaseExpiresAt row))) (rows s))))) in
  if Nat.ltb limit (length items) then mkActiveList (take limit items) true else mkActiveList items false.
End repositories.

(** ** Lemmas: cursors *)

#[export] Instance datedCursor_laws :
  PayloadLaws datedCursor (λ c, ValidString (dq_CreatedAt c) = true ∧ ValidString (dq_ID c) = true).
Proof.
  split.
  - by apply (bool_decide_unpack _).
  - intros [t i] [Ht Hi].
    exact (conj eq_refl (conj Ht (conj (eq_refl : ValidString "id" = true) (conj Hi I)))).
  - by intros [t i] _.
Qed.
#[export] Instance labelCursor_laws :
  PayloadLaws labelCursor (λ c, ValidString (lq_NormalizedName c) = true ∧ ValidString (lq_ID c) = true).
Proof.
  split.
  - by apply (bool_decide_unpack _).
  - intros [n i] [Hn Hi].
    exact (conj eq_refl (conj Hn (conj (eq_refl : ValidString "id" = true) (conj Hi I)))).
  - by intros [n i] _.
Qed.

Section cursors.
Context `{UnicodeTables, ULIDLaws}.

(** Identifiers are 26 bytes of ASCII. *)
Lemma ulid_text id : ids_ParseStrict id = true → len id = 26%Z ∧ is_ascii id = true.
Proof.
  unfold ids_ParseStrict. destruct (ulid_ParseStrict id) as [c|] eqn:Hp; [|done]. intros ->%eqb_string_true.
  split; [by eapply ulid_size|]. pose proof (ulid_base32 _ _ Hp) as Hb. clear Hp. induction id as [|b id IH]; [done|].
  cbn in Hb. apply orb_false_iff in Hb as [Hb Hid]. rewrite is_ascii_cons, (IH Hid), andb_true_r.
  apply negb_false_iff, orb_true_iff in Hb. unfold ascii_byte. apply Z.ltb_lt.
  destruct Hb as [Hb|Hb]; apply in_range_spec in Hb; lia.
Qed.

(** A row with a time of the years 0 to 9999 and a ULID has a cursor. *)
Definition dated_ok {R} `{Dated R} (r : R) : Prop := storable (dated_at r) ∧ ids_ParseStrict (dated_id r) = true.

Lemma dated_encodes {R} `{Dated R} (r : R) :
  dated_ok r → ∃ cursor, Encode datedCodec (datedCursorOf r) = inl cursor.
Proof.
  intros [Ht Hi]. destruct (formatStorageTime_text _ Ht) as [Htl Hta]. destruct (ulid_text _ Hi) as [Hil Hia].
  unfold Encode, datedCursorOf. cbv zeta. set (raw := json_print _). assert (len raw <= 400)%Z as Hlen.
  { unfold raw. cbn [struct_to_json envelope_fields map fd_Name fd_Load env_Version env_Payload cursor_fields datedCursor_payload
      dq_CreatedAt dq_ID json_print Join]. rewrite !len_app.
    pose proof (json_quote_length _ (ascii_valid _ Hta)) as Hq1. pose proof (json_quote_length _ (ascii_valid _ Hia)) as Hq2.
    rewrite Htl in Hq1. rewrite Hil in Hq2. revert Hq1 Hq2.
    generalize (len (json_quote (formatStorageTime (dated_at r)))) (len (json_quote (dated_id r))). intros q1 q2 Hq1 Hq2.
    repeat match goal with |- context [len ?s] => let n := eval vm_compute in (len s) in change (len s) with n end.
    lia. }
  pose proof (EncodeToString_length raw). rewrite (proj2 (Z.ltb_ge _ _)); [eauto|]. change datedCodec with 4096%Z. lia.
Qed.

Definition datedText {R} `{Dated R} (r : R) : string :=
  match Encode datedCodec (datedCursorOf r) with inl cursor => cursor | inr _ => "" end.
Lemma datedText_encode {R} `{Dated R} (r : R) : dated_ok r → Encode datedCodec (datedCursorOf r) = inl (datedText r).
Proof. intros Hr. unfold datedText. by destruct (dated_encodes r Hr) as [cursor ->]. Qed.

(** A text with a letter is not blank. *)
Lemma blank_letter s : str_exists (Ascii.eqb "Z") s = true → blank s = false.
Proof.
  intros Hz. unfold blank. apply eqb_string_false. intros Ht.
  destruct (TrimSpace_bytes s) as (qs1 & qs2 & Hq1 & Hq2 & Hs). rewrite Ht in Hs. cbn [bytes String.list_ascii_of_string app] in Hs.
  assert (Hno : ∀ qs, Forall (λ q, q ∈ space_encodings) qs → existsb (Ascii.eqb "Z") (concat qs) = false).
  { assert (Hall : forallb (λ q, negb (existsb (Ascii.eqb "Z") q)) space_encodings = true) by by vm_compute.
    rewrite forallb_forall in Hall. induction 1 as [|q qs Hq _ IH]; [done|]. cbn. rewrite existsb_app, IH, orb_false_r.
    apply negb_true_iff, Hall. by apply list_elem_of_In. }
  by rewrite str_exists_bytes, Hs, existsb_app, !Hno in Hz.
Qed.
Lemma blank_time t : blank (formatStorageTime t) = false.
Proof.
  apply blank_letter. unfold formatStorageTime. destruct (civil_from_days _) as [[y m] d]. cbv zeta.
  rewrite !str_exists_app. by rewrite !orb_true_r.
Qed.

Lemma datedText_decode {R} `{Dated R} what (r : R) :
  dated_ok r → decodeDated what (datedText r) = Ok (Some (datedCursorOf r)).
Proof.
  intros Hr. pose proof (datedText_encode r Hr) as Henc. unfold decodeDated.
  rewrite (proj2 (eqb_string_false _ _)) by exact (Encode_nonempty _ _ _ Henc).
  assert (Hvalid : ValidString (dq_CreatedAt (datedCursorOf r)) = true ∧ ValidString (dq_ID (datedCursorOf r)) = true).
  { destruct Hr as [Ht Hi]. split; apply ascii_valid; [by apply formatStorageTime_text|by apply ulid_text]. }
  rewrite (Decode_Encode (T := datedCursor) _ _ _ Hvalid Henc).
  cbn [datedCursorOf dq_CreatedAt]. by rewrite blank_time.
Qed.

(** A cursor passes the validation of requests. *)
Lemma cursor_text {T} `{CursorPayload T} (payload : T) cursor :
  Encode 4096 payload = inl cursor → ValidateText "cursor" cursor 4096 = Ok tt.
Proof.
  unfold Encode. cbv zeta. set (raw := json_print _). destruct (4096 <? len (EncodeToString raw))%Z eqn:Hlen; [done|].
  intros [= <-]. apply Z.ltb_ge in Hlen. pose proof (b64_encode_visible (bytes raw)) as Hv.
  assert (Ha : is_ascii (EncodeToString raw) = true).
  { rewrite is_ascii_bytes. unfold EncodeToString. rewrite bytes_of_bytes. apply forallb_forall. intros c Hc%list_elem_of_In.
    rewrite Forall_forall in Hv. specialize (Hv c Hc). apply Z.ltb_lt. lia. }
  apply ValidateText_Ok. split_and!; [by apply ascii_valid| |right; pose proof (RuneCount_le_len (EncodeToString raw)); lia].
  unfold contains_byte. rewrite str_exists_bytes. unfold EncodeToString. rewrite bytes_of_bytes.
  apply not_true_is_false. intros (c & Hc%list_elem_of_In & Heq)%existsb_exists. apply Ascii.eqb_eq in Heq as <-.
  rewrite Forall_forall in Hv. specialize (Hv _ Hc). by destruct Hv.
Qed.

(** The text of a cursor, as far as validation goes. *)
Definition cursorLike (cursor : string) : Prop := ValidateText "cursor" cursor 4096 = Ok tt.

Lemma cursorLike_empty : cursorLike "".
Proof. by vm_compute. Qed.
Lemma cursorLike_dated {R} `{Dated R} (r : R) : dated_ok r → cursorLike (datedText r).
Proof. intros Hr. exact (cursor_text _ _ (datedText_encode r Hr)). Qed.

(** ** Lemmas: pages by creation time *)

Lemma datedLess_order {R} `{Dated R} : weak_order datedLess.
Proof.
  apply (weak_order_then _ (λ a b, str_less (formatStorageTime (dated_at b)) (formatStorageTime (dated_at a)))
           (λ a b, str_less (dated_id b) (dated_id a))).
  - apply (weak_order_flip (λ a b, str_less (formatStorageTime (dated_at a)) (formatStorageTime (dated_at b)))), weak_order_str.
  - apply (weak_order_flip (λ a b, str_less (dated_id a) (dated_id b))), weak_order_str.
  - intros a b. rewrite ties_str, <-ties_flip. done.
Qed.
Lemma datedLess_total {R} `{Dated R} (x y : R) : datedLess x y = false → datedLess y x = false → dated_id x = dated_id y.
Proof.
  unfold datedLess. rewrite (String.eqb_sym (formatStorageTime (dated_at y))).
  destruct (_ =s _) eqn:He; cbn [negb]; [intros Hx Hy; by apply str_less_total|apply eqb_string_false in He].
  intros Hx Hy. destruct He. by apply str_less_total.
Qed.
Lemma afterDated_less {R} `{Dated R} (x y : R) : afterDated (datedCursorOf x) y = datedLess x y.
Proof.
  unfold afterDated, datedLess, datedCursorOf. cbn [dq_CreatedAt dq_ID]. rewrite (String.eqb_sym (formatStorageTime (dated_at y))).
  destruct (formatStorageTime (dated_at x) =s formatStorageTime (dated_at y)) eqn:He; cbn [andb]; [|by rewrite orb_false_r].
  apply eqb_string_true in He as ->. by rewrite str_less_irrefl.
Qed.

(** ** Lemmas: a whole listing *)

Lemma collect_map {A B} (f : A → result B) (g : A → B) l : (∀ x, x ∈ l → f x = Ok (g x)) → collect f l = Ok (map g l).
Proof.
  intros Hf. induction l as [|x l IH]; [done|]. cbn. rewrite Hf by by left. cbn. rewrite IH; [done|].
  intros y Hy. apply Hf. by right.
Qed.

Section whole.
Context {R A : Type} `{Dated R, Dated A} (what : string) (scan : R → result A) (g : R → A) (selected : R → bool) (all : list R).
Hypothesis ids_distinct : NoDup (map dated_id all).
Hypothesis rows_ok : ∀ r, r ∈ all → selected r = true →
  dated_ok r ∧ scan r = Ok (g r) ∧ dated_at (g r) = dated_at r ∧ dated_id (g r) = dated_id r.

Definition datedListing : list R := stable_sort datedLess (List.filter selected all).

Lemma dated_rows r : r ∈ List.filter selected all →
  dated_ok r ∧ scan r = Ok (g r) ∧ datedText (g r) = datedText r ∧ dated_ok (g r).
Proof.
  intros [Hr Hs]%elem_of_filter_list. destruct (rows_ok r Hr Hs) as (Hok & Hscan & Ht & Hi). split_and!; [done|done|..].
  - unfold datedText, datedCursorOf. by rewrite Ht, Hi.
  - unfold dated_ok. by rewrite Ht, Hi.
Qed.

Lemma selected_nodup : NoDup (List.filter selected all).
Proof.
  revert ids_distinct. clear rows_ok. induction all as [|r l IH]; [by intros; apply NoDup_nil_2|]. cbn. intros [Hni Hnd]%NoDup_cons. destruct (selected r); [|by apply IH].
  apply NoDup_cons. split; [|by apply IH]. rewrite elem_of_filter_list. intros [Hr _]. apply Hni. by apply list_elem_of_fmap_2.
Qed.
Lemma selected_total x y :
  x ∈ List.filter selected all → y ∈ List.filter selected all → datedLess x y = false → datedLess y x = false → x = y.
Proof.
  intros [Hx _]%elem_of_filter_list [Hy _]%elem_of_filter_list Hxy Hyx. pose proof (datedLess_total _ _ Hxy Hyx) as Hid.
  revert ids_distinct Hx Hy. clear rows_ok. induction all as [|r l IH]; [by intros _ ?%not_elem_of_nil|].
  cbn. intros [Hni Hnd]%NoDup_cons [->|Hx]%elem_of_cons [->|Hy]%elem_of_cons; [done|..].
  - destruct Hni. rewrite Hid. by apply list_elem_of_fmap_2.
  - destruct Hni. rewrite <-Hid. by apply list_elem_of_fmap_2.
  - by apply IH.
Qed.

Lemma dated_page after limit left :
  stable_sort datedLess (List.filter (λ r, match after with Some c => afterDated c r | None => true end)
    (List.filter selected all)) = left →
  dated what scan selected after limit all = Ok (page_of datedText limit (map g left)).
Proof.
  intros Hleft. unfold dated, keyset_rows. rewrite filter_both, Hleft.
  assert (Hin : ∀ r, r ∈ left → r ∈ List.filter selected all).
  { intros r. rewrite <-Hleft, elem_of_stable_sort, elem_of_filter_list. by intros [? _]. }
  rewrite (collect_map scan g).
  2:{ intros r Hr. apply dated_rows, Hin. rewrite <-(take_drop (S limit)). by apply elem_of_app; left. }
  cbn [mbind result_bind]. rewrite (page_result_Ok _ datedText).
  - change (map g (take (S limit) left)) with (g <$> take (S limit) left). by rewrite fmap_take, page_of_take.
  - intros a (r & -> & Hr)%list_elem_of_fmap. apply (datedText_encode (g r)), dated_rows, Hin.
    rewrite <-(take_drop (S limit)). by apply elem_of_app; left.
Qed.

(** A request in which only the cursor changes. *)
Lemma dated_complete (fetch : string → result (Page A)) limit bound :
  0 < limit → length all ≤ bound →
  (∀ cursor after, cursorLike cursor → decodeDated what cursor = Ok after →
     fetch cursor = dated what scan selected after limit all) →
  complete_listing fetch limit bound (map g datedListing).
Proof.
  intros Hlim Hbound Hfetch. apply (follow_listing fetch datedText limit); [done|..].
  - rewrite (Hfetch "" None) by (done || exact cursorLike_empty). apply dated_page. rewrite filter_true; [done|done].
  - intros before a after Hl. apply map_eq_app in Hl as (rb & [|x left] & Hl & <- & Hx); [done|]. cbn in Hx. injection Hx as <- <-.
    assert (Hin : x ∈ List.filter selected all).
    { rewrite <-(elem_of_stable_sort datedLess). fold datedListing. rewrite Hl. set_solver. }
    destruct (dated_rows x Hin) as (Hok & _ & Htext & _). rewrite Htext.
    rewrite (Hfetch _ (Some (datedCursorOf x))); [|by apply cursorLike_dated|by apply datedText_decode]. apply dated_page.
    apply (sorted_after _ datedText (wo_asym _ datedLess_order) (wo_trans _ datedLess_order) _ rb x); [done|apply selected_nodup|apply selected_total|].
    intros y _. apply afterDated_less.
  - rewrite length_map. unfold datedListing. rewrite (Permutation_length (stable_sort_Permutation _ _)).
    pose proof (filter_length_le selected all). lia.
Qed.
End whole.

(** ** Requests in which only the cursor changes *)

Definition decisionsFrom (cursor : string) (q : ListDecisionsInput) : ListDecisionsInput :=
  mkListDecisions (ld_IssueID q) (ld_Limit q) cursor.
Definition policiesFrom (cursor : string) (q : ListWorkflowPoliciesInput) : ListWorkflowPoliciesInput :=
  mkListPolicies (lp_Status q) (lp_Limit q) cursor.
Definition reservationsFrom (cursor : string) (q : ListResourceReservationsInput) : ListResourceReservationsInput :=
  mkListReservations (lr_IssueID q) (lr_AttemptID q) (lr_Kind q) (lr_Active q) (lr_Limit q) cursor.

Lemma cursorLike_optional cursor :
  cursorLike cursor → (if negb (cursor =s "") then ValidateText "cursor" cursor 4096 else Ok tt) = Ok tt.
Proof. intros Hc. by destruct (cursor =s ""). Qed.

Lemma decisions_validate cursor q v : ListDecisionsInput_Validate q = Ok v → cursorLike cursor →
  ListDecisionsInput_Validate (decisionsFrom cursor q) = Ok (decisionsFrom cursor v) ∧ (0 < ld_Limit v)%Z.
Proof.
  intros Hv Hc. revert Hv. unfold ListDecisionsInput_Validate, decisionsFrom. cbn [ld_Limit ld_IssueID ld_Cursor].
  rewrite (cursorLike_optional cursor Hc). destruct (_ || _) eqn:Hl; [done|].
  destruct (normalizeOptionalSearchIssueID "issue_id" (ld_IssueID q)) as [issueID|]; cbn [mbind result_bind]; [|done].
  destruct (if negb (ld_Cursor q =s "") then _ else _); cbn [mbind result_bind]; [|done]. intros [= <-]. bool_simpl.
  cbn [ld_Limit ld_IssueID]. split; [done|]. destruct (Z.eqb_spec (ld_Limit q) 0); lia.
Qed.
Lemma policies_validate cursor q v : ListWorkflowPoliciesInput_Validate q = Ok v → cursorLike cursor →
  ListWorkflowPoliciesInput_Validate (policiesFrom cursor q) = Ok (policiesFrom cursor v) ∧ (0 < lp_Limit v)%Z.
Proof.
  intros Hv Hc. revert Hv. unfold ListWorkflowPoliciesInput_Validate, policiesFrom. cbn [lp_Limit lp_Status lp_Cursor].
  rewrite Hc. destruct (match lp_Status q with Some _ => _ | None => _ end); [done|]. destruct (_ || _) eqn:Hl; [done|].
  destruct (ValidateText "cursor" (lp_Cursor q) 4096); cbn [mbind result_bind]; [|done]. intros [= <-]. bool_simpl.
  cbn [lp_Limit lp_Status]. split; [done|]. destruct (Z.eqb_spec (lp_Limit q) 0); lia.
Qed.
Lemma reservations_validate cursor q v : ListResourceReservationsInput_Validate q = Ok v → cursorLike cursor →
  ListResourceReservationsInput_Validate (reservationsFrom cursor q) = Ok (reservationsFrom cursor v) ∧ (0 < lr_Limit v)%Z.
Proof.
  intros Hv Hc. revert Hv. unfold ListResourceReservationsInput_Validate, reservationsFrom.
  cbn [lr_IssueID lr_AttemptID lr_Kind lr_Active lr_Limit lr_Cursor].
  rewrite (cursorLike_optional cursor Hc). destruct (_ || _) eqn:Hl; [done|].
  destruct (normalizeOptionalSearchIssueID "issue_id" (lr_IssueID q)) as [issueID|]; cbn [mbind result_bind]; [|done].
  destruct (match lr_AttemptID q with Some _ => _ | None => _ end); cbn [mbind result_bind]; [|done].
  destruct (match lr_Kind q with Some _ => _ | None => _ end); cbn [mbind result_bind]; [|done].
  destruct (if negb (lr_Cursor q =s "") then _ else _); cbn [mbind result_bind]; [|done]. intros [= <-]. bool_simpl.
  cbn [lr_IssueID lr_AttemptID lr_Kind lr_Active lr_Limit lr_Cursor]. split; [done|].
  unfold DefaultReservationHistoryLimit. destruct (Z.eqb_spec (lr_Limit q) 0); lia.
Qed.

(** A row that the repository can read back and print the time of. *)
Definition readable {R A} `{Dated R} (scan : R → result A) (g : R → A) (r : R) : Prop :=
  storable (dated_at r) ∧ ids_ParseStrict (dated_id r) = true ∧ scan r = Ok (g r).

Lemma table_distinct {R} `{Table R, Dated R} s :
  (∀ r : R, dated_id r = row_id r) → table_ok R s → NoDup (map dated_id (rows (R := R) s)).
Proof.
  intros Hid [Hk _]. rewrite (map_ext _ _ Hid). by apply rows_nodup_ids.
Qed.

Lemma decisions_complete s q v issueID :
  table_ok Decision s → ListDecisionsInput_Validate q = Ok v → resolveOptionalIssueID (ld_IssueID v) s = Ok issueID →
  (∀ d, d ∈ rows s → decisionSelected issueID d = true → readable scanDecisionFromScanner id d) →
  complete_listing (λ cursor, ListDecisions (decisionsFrom cursor q) s) (Z.to_nat (ld_Limit v)) (length (rows (R := Decision) s))
    (stable_sort datedLess (List.filter (decisionSelected issueID) (rows s))).
Proof.
  intros Hs Hv Hid Hread. rewrite <-(map_id (stable_sort _ _)). destruct (decisions_validate "" q v Hv cursorLike_empty) as [_ Hl].
  apply (dated_complete "decision" scanDecisionFromScanner id (decisionSelected issueID) (rows s)); [by apply table_distinct|..].
  - intros d Hd Hsel. destruct (Hread d Hd Hsel) as (? & ? & ?). done.
  - lia.
  - done.
  - intros cursor after Htext Hdec.
    unfold ListDecisions. destruct (decisions_validate cursor q v Hv Htext) as [-> _].
    cbn [mbind result_bind decisionsFrom ld_Cursor ld_IssueID ld_Limit]. rewrite Hdec. cbn [mbind result_bind]. by rewrite Hid.
Qed.
Lemma policies_complete s q v :
  table_ok WorkflowPolicy s → ListWorkflowPoliciesInput_Validate q = Ok v →
  (∀ p, p ∈ rows s → policySelected (lp_Status v) p = true → readable scanWorkflowPolicy id p) →
  complete_listing (λ cursor, ListPolicies (policiesFrom cursor q) s) (Z.to_nat (lp_Limit v)) (length (rows (R := WorkflowPolicy) s))
    (stable_sort datedLess (List.filter (policySelected (lp_Status v)) (rows s))).
Proof.
  intros Hs Hv Hread. rewrite <-(map_id (stable_sort _ _)). destruct (policies_validate "" q v Hv cursorLike_empty) as [_ Hl].
  apply (dated_complete "workflow policy" scanWorkflowPolicy id (policySelected (lp_Status v)) (rows s)); [by apply table_distinct|..].
  - intros d Hd Hsel. destruct (Hread d Hd Hsel) as (? & ? & ?). done.
  - lia.
  - done.
  - intros cursor after Htext Hdec.
    unfold ListPolicies. destruct (policies_validate cursor q v Hv Htext) as [-> _].
    cbn [mbind result_bind policiesFrom lp_Cursor lp_Status lp_Limit]. by rewrite Hdec.
Qed.
Lemma reservations_complete s q v issueID :
  table_ok reservationRow s → ListResourceReservationsInput_Validate q = Ok v → resolveOptionalIssueID (lr_IssueID v) s = Ok issueID →
  (∀ r, r ∈ rows s → reservationSelected v issueID r = true → readable readReservation toDomain r) →
  complete_listing (λ cursor, ReservationService_ListReservations (reservationsFrom cursor q) s) (Z.to_nat (lr_Limit v))
    (length (rows (R := reservationRow) s))
    (map toDomain (stable_sort datedLess (List.filter (reservationSelected v issueID) (rows s)))).
Proof.
  intros Hs Hv Hid Hread. destruct (reservations_validate "" q v Hv cursorLike_empty) as [_ Hl].
  apply (dated_complete "reservation" readReservation toDomain (reservationSelected v issueID) (rows s)); [by apply table_distinct|..].
  - intros d Hd Hsel. destruct (Hread d Hd Hsel) as (? & ? & ?). done.
  - lia.
  - done.
  - intros cursor after Htext Hdec.
    unfold ReservationService_ListReservations. destruct (reservations_validate cursor q v Hv Htext) as [-> _].
    cbn [mbind result_bind]. unfold ListReservations. cbn [reservationsFrom lr_Cursor lr_IssueID lr_Limit]. rewrite Hdec.
    cbn [mbind result_bind]. rewrite Hid. done.
Qed.
End cursors.

(** * Properties *)

(** C21. The listings of decisions, policies and reservations are complete.  In
    a reachable store whose rows can be read back, a client that follows the
    cursors of a valid request gets no error and sees the rows that match the
    filters, each once, by descending creation time and identifier, in pages of
    the length asked for. *)
Theorem listings_complete `{UnicodeTables, ULIDLaws, JSONCodec, URLParser, SnapshotHash, SQLiteDriver} s :
  reachable s →
  (∀ q v issueID,
     ListDecisionsInput_Validate q = Ok v → resolveOptionalIssueID (ld_IssueID v) s = Ok issueID →
     (∀ d, d ∈ rows s → decisionSelected issueID d = true → readable scanDecisionFromScanner id d) →
     complete_listing (λ cursor, ListDecisions (decisionsFrom cursor q) s) (Z.to_nat (ld_Limit v)) (length (rows (R := Decision) s))
       (stable_sort datedLess (List.filter (decisionSelected issueID) (rows s)))) ∧
  (∀ q v,
     ListWorkflowPoliciesInput_Validate q = Ok v →
     (∀ p, p ∈ rows s → policySelected (lp_Status v) p = true → readable scanWorkflowPolicy id p) →
     complete_listing (λ cursor, ListPolicies (policiesFrom cursor q) s) (Z.to_nat (lp_Limit v)) (length (rows (R := WorkflowPolicy) s))
       (stable_sort datedLess (List.filter (policySelected (lp_Status v)) (rows s)))) ∧
  (∀ q v issueID,
     ListResourceReservationsInput_Validate q = Ok v → resolveOptionalIssueID (lr_IssueID v) s = Ok issueID →
     (∀ r, r ∈ rows s → reservationSelected v issueID r = true → readable readReservation toDomain r) →
     complete_listing (λ cursor, ReservationService_ListReservations (reservationsFrom cursor q) s) (Z.to_nat (lr_Limit v))
       (length (rows (R := reservationRow) s))
       (map toDomain (stable_sort datedLess (List.filter (reservationSelected v issueID) (rows s))))).
Proof.
  intros [_ _ Hres _ _ _ _ _ _ _ _ Hpol _ _ Hdec _]%reachable_schema. split_and!; intros.
  - by apply decisions_complete.
  - by apply policies_complete.
  - by apply reservations_complete.
Qed.

(** C35. Cursors round trip.  A cursor that a codec handed out decodes to the
    payload it was made of, whatever the type of the payload; it keeps within
    the bound of the codec, is visible ASCII, and no other payload has it. *)
Theorem cursor_roundtrip {T} `{PayloadLaws T valid} maximum (payload : T) cursor :
  valid payload → Encode maximum payload = inl cursor →
  Decode maximum cursor = inl payload ∧
  (0 < len cursor <= maximum)%Z ∧
  Forall (λ c, (32 < byte_val c < 127)%Z) (bytes cursor) ∧
  (∀ other, valid other → Encode maximum other = inl cursor → other = payload).
Proof.
  intros Hp Henc. pose proof (Decode_Encode _ _ _ Hp Henc) as Hdec. split_and!; [exact Hdec|..].
  - pose proof (Encode_nonempty _ _ _ Henc) as Hne. destruct cursor; [done|]. unfold len. cbn [String.length]. lia.
  - revert Henc. unfold Encode. cbv zeta. destruct (_ <? _)%Z eqn:Hl; [done|]. intros [= <-]. by apply Z.ltb_ge in Hl.
  - revert Henc. unfold Encode. cbv zeta. destruct (_ <? _)%Z; [done|]. intros [= <-].
    unfold EncodeToString. rewrite bytes_of_bytes. apply b64_encode_visible.
  - intros other Ho Henc'. pose proof (Decode_Encode _ _ _ Ho Henc') as Hdec'. congruence.
Qed.

(** ** Witnesses *)

(** The two decisions of a project, one at a time; the policy and the
    reservation. *)
Example sample_listings :
  map (map dc_ID ∘ pg_Items) <$> follow 3 (λ cursor, ListDecisions (mkListDecisions None 1 cursor) recordsDecided) "" =
    Ok [[ulid_of "2"]; [ulid_of "1"]] ∧
  map (map wp_ID ∘ pg_Items) <$> follow 3 (λ cursor, ListPolicies (mkListPolicies None 0 cursor) recordsDecided) "" =
    Ok [[ulid_of "W"]] ∧
  map (map rv_ID ∘ pg_Items) <$> follow 3 (λ cursor, ReservationService_ListReservations
    (mkListReservations (Some "issue-1") None None (Some false) 0 cursor) recordsDecided) "" = Ok [[ulid_of "R"]].
Proof. split_and!; by vm_compute. Qed.

Lemma listings_complete_witness :
  complete_listing (λ cursor, ListDecisions (mkListDecisions None 1 cursor) recordsDecided) 1 2
    (stable_sort datedLess (rows recordsDecided)).
Proof.
  destruct (listings_complete recordsDecided) as [Hd _].
  { exact recordsDecided_reachable. }
  specialize (Hd (mkListDecisions None 1 "") (mkListDecisions None 1 "") None eq_refl eq_refl).
  assert (Hrow : ∀ d : Decision, d ∈ rows recordsDecided → readable scanDecisionFromScanner id d); [|exact (Hd (λ d Hin _, Hrow d Hin))].
  let l := eval vm_compute in (rows (R := Decision) recordsDecided) in
    assert (rows (R := Decision) recordsDecided = l) as -> by by vm_compute.
  intros d Hin. repeat (apply elem_of_cons in Hin as [->|Hin]; [split_and!; by vm_compute|]). by apply not_elem_of_nil in Hin.
Defined.

Example cursor_roundtrip_witness :
  Decode datedCodec "eyJ2ZXJzaW9uIjoxLCJwYXlsb2FkIjp7ImNyZWF0ZWRfYXQiOiIiLCJpZCI6IjEifX0" = inl (mkDatedCursor "" "1") ∧
  (∀ other : datedCursor, ValidString (dq_CreatedAt other) = true ∧ ValidString (dq_ID other) = true →
     Encode datedCodec other = Encode datedCodec (mkDatedCursor "" "1") → other = mkDatedCursor "" "1").
Proof.
  destruct (cursor_roundtrip (T := datedCursor) datedCodec (mkDatedCursor "" "1")
              "eyJ2ZXJzaW9uIjoxLCJwYXlsb2FkIjp7ImNyZWF0ZWRfYXQiOiIiLCJpZCI6IjEifX0") as (Hd & _ & _ & Ho).
  { by split. }
  { by vm_compute. }
  split; [exact Hd|]. intros other Hv He. apply Ho; [exact Hv|]. rewrite He. by vm_compute.
Defined.
