(* ===== verification/Graph.v ===== *)
(** * Issue graphs

    [internal/domain/graph.go]: the requests of the two graph tools, and
    [BuildGraph], the bounded breadth-first traversal that both share.

    The traversal is written with its state explicit ([Traversal]): the nodes
    and edges emitted so far, the queue, the nodes that were visited and the
    terminal ones that were put off.  The loop over the queue gets fuel for one
    step per node; [drain_empties] shows that it is enough. *)

From S2P Require Import Prelude GoStrings Errors Validation Samples Issue Relation Session IssueOps.
From S2P Require Import Discussion Resource Attempt AttemptPolicy Gates Store Orders.

Definition MaxGraphDepth : Z := 5.
Definition MaxGraphNodes : Z := 500.
Definition defaultGraphDepth : Z := 2.
Definition defaultGraphNodes : Z := 100.

(** ** Requests *)

Definition GraphDirectionOutgoing := "outgoing".
Definition GraphDirectionIncoming := "incoming".
Definition GraphDirectionBoth := "both".
Definition GraphDirection_Valid (direction : string) : bool :=
  (direction =s GraphDirectionOutgoing) || (direction =s GraphDirectionIncoming) || (direction =s GraphDirectionBoth).

Record GetIssueGraphInput := mkIssueGraphInput {
  gg_RootIssueID : string;
  gg_Depth : option Z;
  gg_Direction : string;
  gg_RelationTypes : list string;
  gg_IncludeHierarchy : option bool;
  gg_IncludeTerminal : option bool;
  gg_MaxNodes : option Z;
  gg_View : string;
}.

Record GetPlanningGraphInput := mkPlanningGraphInput {
  pg_RootIssueID : option string;
  pg_Depth : option Z;
  pg_MaxNodes : option Z;
  pg_IncludeReview : option bool;
  pg_IncludeRelated : option bool;
  pg_IncludeTerminal : option bool;
}.

Section requests.
Context `{UnicodeTables, ULID}.

Definition graphIdentifier (field value : string) : result IssueIdentifier :=
  try ValidateText field value (-1) ;;
  match ParseIssueIdentifier value with
  | Err _ => Err (validationError field "INVALID_IDENTIFIER" "must be a canonical ULID or ISSUE-N")
  | Ok identifier => Ok identifier
  end.

Definition graphBounds (depth nodes : option Z) (defaultDepth : Z) : result (Z * Z) :=
  let resolvedDepth := default defaultDepth depth in
  let resolvedNodes := default defaultGraphNodes nodes in
  fail_if (resolvedDepth <? 0)%Z || (MaxGraphDepth <? resolvedDepth)%Z
    with validationError "depth" "OUT_OF_RANGE" "must be between 0 and 5" ;;
  fail_if (resolvedNodes <? 1)%Z || (MaxGraphNodes <? resolvedNodes)%Z
    with validationError "max_nodes" "OUT_OF_RANGE" "must be between 1 and 500" ;;
  Ok (resolvedDepth, resolvedNodes).

Fixpoint checkGraphTypes (seen values : list string) : result unit :=
  match values with
  | [] => Ok tt
  | value :: rest =>
      fail_if negb (RelationType_Valid value) with invalidEnum "relation_types" value ;;
      fail_if bool_decide (value ∈ seen)
        with validationError "relation_types" "DUPLICATE" "must not contain duplicate values" ;;
      checkGraphTypes (value :: seen) rest
  end.

Definition graphRelationTypes (values : list string) : result (list string) :=
  if null values then Ok [RelationTypeBlocks; RelationTypeRelatedTo; RelationTypeDuplicates]
  else try checkGraphTypes [] values ;; Ok values.

Definition graphBool (value : option bool) (fallback : bool) : option bool := Some (default fallback value).

Definition GetIssueGraphInput_Validate (input : GetIssueGraphInput) : result GetIssueGraphInput :=
  root ← graphIdentifier "root_issue_id" (gg_RootIssueID input);
  '(depth, nodes) ← graphBounds (gg_Depth input) (gg_MaxNodes input) defaultGraphDepth;
  let direction := if gg_Direction input =s "" then GraphDirectionBoth else gg_Direction input in
  fail_if negb (GraphDirection_Valid direction) with invalidEnum "direction" direction ;;
  fail_if negb (gg_View input =s "") && negb (gg_View input =s "compact")
    with validationError "view" "UNSUPPORTED" "only compact is supported" ;;
  relationTypes ← graphRelationTypes (gg_RelationTypes input);
  Ok (mkIssueGraphInput (id_Value root) (Some depth) direction relationTypes
        (graphBool (gg_IncludeHierarchy input) true) (graphBool (gg_IncludeTerminal input) true) (Some nodes) "compact").

Definition GetPlanningGraphInput_Validate (input : GetPlanningGraphInput) : result GetPlanningGraphInput :=
  '(depth, nodes) ← graphBounds (pg_Depth input) (pg_MaxNodes input) 3;
  root ← match pg_RootIssueID input with
         | None => Ok None
         | Some value => identifier ← graphIdentifier "root_issue_id" value; Ok (Some (id_Value identifier))
         end;
  Ok (mkPlanningGraphInput root (Some depth) (Some nodes) (graphBool (pg_IncludeReview input) true)
        (graphBool (pg_IncludeRelated input) false) (graphBool (pg_IncludeTerminal input) true)).
End requests.

(** ** Graphs *)

Record GraphEdge := mkGraphEdge { ge_Source : string; ge_Target : string; ge_Type : string }.
#[export] Instance GraphEdge_eq_dec : EqDecision GraphEdge.
Proof. solve_decision. Defined.

Record GraphSummary := mkGraphSummary {
  gs_NodeCount : nat;
  gs_EdgeCount : nat;
  gs_EntryPointCount : nat;
  gs_BlockingNodeCount : nat;
}.

Record GraphResult := mkGraphResult {
  gr_RootIssueID : option string;
  gr_Nodes : list IssueProjection;
  gr_Edges : list GraphEdge;
  gr_EntryPoints : list string;
  gr_BlockingNodes : list string;
  gr_Summary : GraphSummary;
  gr_Warnings : list string;
  gr_Truncated : bool;
  gr_TruncationReason : option string;
}.

Record GraphSnapshot := mkGraphSnapshot {
  sn_RootIssueID : option string;
  sn_TopLevelIssueIDs : list string;
  sn_Nodes : list IssueProjection;
  sn_Edges : list GraphEdge;
  sn_SelectedResult : option GraphResult;
  sn_PlanningEntryPoints : list string;
  sn_PlanningEntryPointCount : option nat;
}.

Record GraphTraversal := mkGraphTraversal {
  gt_RootIssueIDs : list string;
  gt_ExplicitRootID : string;
  gt_Depth : Z;
  gt_MaxNodes : Z;
  gt_Direction : string;
  gt_RelationTypes : list string;
  gt_IncludeHierarchy : bool;
  gt_IncludeTerminal : bool;
  gt_ExcludeReview : bool;
  gt_PreferNonTerminal : bool;
}.

(** The promoted fields of a projection. *)
Definition ip_ID (node : IssueProjection) : string := i_ID (ip_Issue node).
Definition ip_Status (node : IssueProjection) : string := i_Status (ip_Issue node).
Definition ip_SequenceNo (node : IssueProjection) : Z := i_SequenceNo (ip_Issue node).

Definition terminalStatus (status : string) : bool := (status =s StatusDone) || (status =s StatusCancelled).

(** ** Neighbours of a node *)

Record graphNeighbor := mkNeighbor { gn_edge : GraphEdge; gn_neighborID : string; gn_sequence : Z }.

(** The far end of an edge, as far as the direction allows it; the empty string
    if it does not.  [related_to] has no direction. *)
Definition neighborOf (current direction : string) (e : GraphEdge) : string :=
  if ge_Type e =s RelationTypeRelatedTo then
    if ge_Source e =s current then ge_Target e else if ge_Target e =s current then ge_Source e else ""
  else
    let outgoing := ((direction =s GraphDirectionOutgoing) || (direction =s GraphDirectionBoth)) && (ge_Source e =s current) in
    let incoming := ((direction =s GraphDirectionIncoming) || (direction =s GraphDirectionBoth)) && (ge_Target e =s current) in
    if incoming then ge_Source e else if outgoing then ge_Target e else "".

Definition neighborLess (a b : graphNeighbor) : bool :=
  if negb (ge_Type (gn_edge a) =s ge_Type (gn_edge b)) then str_less (ge_Type (gn_edge a)) (ge_Type (gn_edge b))
  else if negb (gn_sequence a =? gn_sequence b)%Z then (gn_sequence a <? gn_sequence b)%Z
  else str_less (gn_neighborID a) (gn_neighborID b).

(** [sort.Slice] leaves the order of equal elements open; here it is stable.
    Equal neighbours are the same node over two edges, and edges are sorted
    before they are returned. *)
Definition graphNeighbors (current : string) (edges : list GraphEdge) (nodes : gmap string IssueProjection) (direction : string) :
    list graphNeighbor :=
  stable_sort neighborLess (concat (map (λ e,
    let neighbor := neighborOf current direction e in
    if neighbor =s "" then []
    else match nodes !! neighbor with
         | None => []
         | Some node => [mkNeighbor e neighbor (ip_SequenceNo node)]
         end) edges)).

(** [seen] holds the edges of the list. *)
Definition appendGraphEdge (edges : list GraphEdge) (e : GraphEdge) : list GraphEdge :=
  if decide (e ∈ edges) then edges else edges ++ [e].

Definition graphEdgeLess (nodes : gmap string IssueProjection) (a b : GraphEdge) : bool :=
  let sequence id := match nodes !! id with Some node => ip_SequenceNo node | None => 0%Z end in
  if negb (ge_Type a =s ge_Type b) then str_less (ge_Type a) (ge_Type b)
  else if negb (sequence (ge_Source a) =? sequence (ge_Source b))%Z then (sequence (ge_Source a) <? sequence (ge_Source b))%Z
  else if negb (ge_Source a =s ge_Source b) then str_less (ge_Source a) (ge_Source b)
  else if negb (sequence (ge_Target a) =? sequence (ge_Target b))%Z then (sequence (ge_Target a) <? sequence (ge_Target b))%Z
  else str_less (ge_Target a) (ge_Target b).
Definition uniqueSortedGraphEdges (edges : list GraphEdge) (nodes : gmap string IssueProjection) : list GraphEdge :=
  stable_sort (graphEdgeLess nodes) edges.

(** ** The traversal *)

Record Traversal := mkTraversal {
  tv_Nodes : list IssueProjection;
  tv_Edges : list GraphEdge;
  tv_Visited : gset string;
  tv_Queue : list (string * Z);
  tv_Deferred : list string;
  tv_DeferredSeen : gset string;
  tv_Truncated : bool;
  tv_BudgetExhausted : bool;
}.
Definition emptyTraversal : Traversal := mkTraversal [] [] ∅ [] [] ∅ false false.

Definition set_queue (queue : list (string * Z)) (st : Traversal) : Traversal :=
  mkTraversal (tv_Nodes st) (tv_Edges st) (tv_Visited st) queue (tv_Deferred st) (tv_DeferredSeen st) (tv_Truncated st)
    (tv_BudgetExhausted st).
Definition set_edges (edges : list GraphEdge) (st : Traversal) : Traversal :=
  mkTraversal (tv_Nodes st) edges (tv_Visited st) (tv_Queue st) (tv_Deferred st) (tv_DeferredSeen st) (tv_Truncated st)
    (tv_BudgetExhausted st).
Definition exhaust (st : Traversal) : Traversal :=
  mkTraversal (tv_Nodes st) (tv_Edges st) (tv_Visited st) (tv_Queue st) (tv_Deferred st) (tv_DeferredSeen st) true true.
Definition truncate (st : Traversal) : Traversal :=
  mkTraversal (tv_Nodes st) (tv_Edges st) (tv_Visited st) (tv_Queue st) (tv_Deferred st) (tv_DeferredSeen st) true
    (tv_BudgetExhausted st).

Section BuildGraph.
Variable snapshot : GraphSnapshot.
Variable traversal : GraphTraversal.

Definition nodesByID : gmap string IssueProjection := foldl (λ m node, <[ip_ID node := node]> m) ∅ (sn_Nodes snapshot).

Definition allowedType (type : string) : bool :=
  bool_decide (type ∈ gt_RelationTypes traversal) || (gt_IncludeHierarchy traversal && (type =s "contains")).

Definition addAdjacent (id : string) (e : GraphEdge) (m : gmap string (list GraphEdge)) : gmap string (list GraphEdge) :=
  <[id := default [] (m !! id) ++ [e]]> m.
Definition graphAdjacency : gmap string (list GraphEdge) :=
  foldl (λ m e,
    if negb (allowedType (ge_Type e)) then m
    else if negb (isSet (nodesByID !! ge_Source e)) then m
    else if negb (isSet (nodesByID !! ge_Target e)) then m
    else let m := addAdjacent (ge_Source e) e m in
         if negb (ge_Target e =s ge_Source e) then addAdjacent (ge_Target e) e m else m) ∅ (sn_Edges snapshot).
Definition adjacent (id : string) : list GraphEdge := default [] (graphAdjacency !! id).

Definition nodeExcluded (id : string) : bool :=
  match nodesByID !! id with
  | None => true
  | Some node =>
      (negb (gt_IncludeTerminal traversal) && terminalStatus (ip_Status node)) ||
      (gt_ExcludeReview traversal && (ip_Status node =s StatusReview))
  end.
Definition isTerminalNode (id : string) : bool :=
  match nodesByID !! id with Some node => terminalStatus (ip_Status node) | None => false end.
Definition isDeferrable (id : string) : bool :=
  gt_PreferNonTerminal traversal && negb (id =s gt_ExplicitRootID traversal) && isTerminalNode id.
Definition allowedNode (id : string) (root : bool) : bool :=
  isSet (nodesByID !! id) && ((root && (id =s gt_ExplicitRootID traversal)) || negb (nodeExcluded id)).

Definition addNode (id : string) (depth : Z) (root : bool) (st : Traversal) : bool * Traversal :=
  if bool_decide (id ∈ tv_Visited st) then (true, st)
  else match nodesByID !! id with
  | None => (false, st)
  | Some node =>
      if isDeferrable id then
        if bool_decide (id ∈ tv_DeferredSeen st) then (false, st)
        else (false, mkTraversal (tv_Nodes st) (tv_Edges st) (tv_Visited st) (tv_Queue st ++ [(id, depth)])
                       (if allowedNode id root then tv_Deferred st ++ [id] else tv_Deferred st)
                       ({[ id ]} ∪ tv_DeferredSeen st) (tv_Truncated st) (tv_BudgetExhausted st))
      else if negb (allowedNode id root) then (false, st)
      else if (gt_MaxNodes traversal <=? Z.of_nat (length (tv_Nodes st)))%Z then (false, exhaust st)
      else (true, mkTraversal (tv_Nodes st ++ [node]) (tv_Edges st) ({[ id ]} ∪ tv_Visited st) (tv_Queue st ++ [(id, depth)])
                    (tv_Deferred st) (tv_DeferredSeen st) (tv_Truncated st) (tv_BudgetExhausted st))
  end.

(** One candidate of the node taken off the queue. *)
Definition visitNeighbor (current : string) (depth : Z) (st : Traversal) (candidate : graphNeighbor) : Traversal :=
  let neighbor := gn_neighborID candidate in
  if negb (allowedNode neighbor false) && negb (isDeferrable neighbor) then st
  else
    let '(present, st) :=
      if bool_decide (neighbor ∈ tv_Visited st) then (true, st) else addNode neighbor (depth + 1) false st in
    if negb present then st
    else if bool_decide (current ∈ tv_Visited st) && bool_decide (neighbor ∈ tv_Visited st)
    then set_edges (appendGraphEdge (tv_Edges st) (gn_edge candidate)) st else st.

Definition expandNode (current : string) (depth : Z) (st : Traversal) : Traversal :=
  if (gt_Depth traversal <=? depth)%Z then st
  else if nodeExcluded current && negb (isDeferrable current) then st
  else foldl (visitNeighbor current depth) st
         (graphNeighbors current (adjacent current) nodesByID (gt_Direction traversal)).

Fixpoint drain (fuel : nat) (st : Traversal) : Traversal :=
  match fuel, tv_Queue st with
  | S fuel, (current, depth) :: rest => drain fuel (expandNode current depth (set_queue rest st))
  | _, _ => st
  end.

Definition drainFuel : nat := length (sn_Nodes snapshot).

Fixpoint traverseRoots (roots : list string) (st : Traversal) : Traversal :=
  match roots with
  | [] => st
  | root :: rest =>
      let explicit := root =s gt_ExplicitRootID traversal in
      if bool_decide (root ∈ tv_Visited st) then traverseRoots rest st
      else if negb (allowedNode root explicit) && negb (isDeferrable root) then traverseRoots rest st
      else
        let '(added, st) := addNode root 0 explicit st in
        if negb added && tv_BudgetExhausted st then st
        else traverseRoots rest (drain drainFuel st)
  end.

(** *** The second pass: terminal nodes that were put off *)

Definition otherEnd (id : string) (e : GraphEdge) : string := if ge_Source e =s id then ge_Target e else ge_Source e.

Fixpoint admitDeferred (retained : gset string) (deferred : list string) (st : Traversal) : Traversal :=
  match deferred with
  | [] => st
  | id :: rest =>
      if (gt_MaxNodes traversal <=? Z.of_nat (length (tv_Nodes st)))%Z then truncate st
      else
        let attached := existsb (λ e, let other := otherEnd id e in negb (other =s id) && bool_decide (other ∈ retained)) (adjacent id) in
        if negb attached then admitDeferred retained rest st
        else
          let visited := {[ id ]} ∪ tv_Visited st in
          let nodes := match nodesByID !! id with Some node => tv_Nodes st ++ [node] | None => tv_Nodes st end in
          let edges := foldl (λ edges e, if bool_decide (otherEnd id e ∈ visited) then appendGraphEdge edges e else edges)
                         (tv_Edges st) (adjacent id) in
          admitDeferred retained rest
            (mkTraversal nodes edges visited (tv_Queue st) (tv_Deferred st) (tv_DeferredSeen st) (tv_Truncated st)
               (tv_BudgetExhausted st))
  end.

Definition traverseGraph : Traversal :=
  let st := traverseRoots (gt_RootIssueIDs traversal) emptyTraversal in
  admitDeferred (tv_Visited st) (tv_Deferred st) st.

(** *** The answer *)

Definition entryPointNode (node : IssueProjection) : bool := ip_IsClaimable node && negb (terminalStatus (ip_Status node)).

(** The entry points and how many there are. *)
Definition graphEntryPoints (nodes : list IssueProjection) : list string * nat :=
  match gt_PreferNonTerminal traversal, sn_PlanningEntryPointCount snapshot with
  | true, Some count => (sn_PlanningEntryPoints snapshot, count)
  | true, None =>
      let ids := map ip_ID (List.filter (λ node, entryPointNode node && negb (nodeExcluded (ip_ID node))) (sn_Nodes snapshot)) in
      (ids, length ids)
  | false, _ => let ids := map ip_ID (List.filter entryPointNode nodes) in (ids, length ids)
  end.

Definition blockingSource (edges : list GraphEdge) (id : string) : bool :=
  existsb (λ e, (ge_Type e =s RelationTypeBlocks) && (ge_Source e =s id) &&
    match nodesByID !! ge_Source e with Some node => negb (terminalStatus (ip_Status node)) | None => false end) edges.

Definition BuildGraph : GraphResult :=
  let st := traverseGraph in
  let edges := uniqueSortedGraphEdges (tv_Edges st) nodesByID in
  let '(entryPoints, entryPointCount) := graphEntryPoints (tv_Nodes st) in
  let entryPointsCapped := (0 <? gt_MaxNodes traversal)%Z && (gt_MaxNodes traversal <? Z.of_nat entryPointCount)%Z in
  let entryPoints := if entryPointsCapped then take (Z.to_nat (gt_MaxNodes traversal)) entryPoints else entryPoints in
  let blockingNodes := List.filter (blockingSource edges) (map ip_ID (tv_Nodes st)) in
  mkGraphResult (sn_RootIssueID snapshot) (tv_Nodes st) edges entryPoints blockingNodes
    (mkGraphSummary (length (tv_Nodes st)) (length edges) entryPointCount (length blockingNodes)) []
    (tv_Truncated st || entryPointsCapped)
    (if tv_Truncated st then Some "node_limit" else if entryPointsCapped then Some "entry_point_limit" else None).
End BuildGraph.

(** ** Lemmas: the snapshot *)

Section lookups.
Variable snapshot : GraphSnapshot.
Variable traversal : GraphTraversal.
Notation nodes := (nodesByID snapshot).

Lemma nodesByID_spec id node : nodes !! id = Some node → ip_ID node = id ∧ node ∈ sn_Nodes snapshot.
Proof.
  unfold nodesByID. induction (sn_Nodes snapshot) as [|x l IH] using rev_ind; [done|]. rewrite foldl_snoc.
  destruct (decide (ip_ID x = id)) as [<-|Hne].
  - rewrite lookup_insert_eq. intros [= <-]. split; [done|]. set_solver.
  - rewrite lookup_insert_ne by done. intros [? ?]%IH. split; [done|]. set_solver.
Qed.
Lemma nodesByID_size : size nodes ≤ length (sn_Nodes snapshot).
Proof.
  unfold nodesByID. induction (sn_Nodes snapshot) as [|x l IH] using rev_ind; [cbn [foldl]; rewrite (map_size_empty (M := gmap string)); apply Nat.le_0_l|].
  rewrite foldl_snoc, length_app, Nat.add_1_r. rewrite map_size_insert. destruct (_ !! _); cbn; lia.
Qed.
Lemma nodesByID_distinct node :
  NoDup (map ip_ID (sn_Nodes snapshot)) → node ∈ sn_Nodes snapshot → nodes !! ip_ID node = Some node.
Proof.
  unfold nodesByID. induction (sn_Nodes snapshot) as [|x l IH] using rev_ind; [by intros _ ?%not_elem_of_nil|].
  rewrite map_app, foldl_snoc. intros (Hnd & Hdisj & _)%NoDup_app [Hin|Hx]%elem_of_app.
  - rewrite lookup_insert_ne; [by apply IH|]. intros Heq. apply (Hdisj (ip_ID node)); [by apply list_elem_of_fmap_2|].
    rewrite <-Heq. by left.
  - apply list_elem_of_singleton in Hx as ->. by rewrite lookup_insert_eq.
Qed.

Lemma lookup_addAdjacent id k e (m : gmap string (list GraphEdge)) :
  default [] (addAdjacent k e m !! id) = default [] (m !! id) ++ (if k =s id then [e] else []).
Proof.
  unfold addAdjacent. destruct (k =s id) eqn:E.
  - apply eqb_string_true in E as ->. by rewrite lookup_insert_eq.
  - apply eqb_string_false in E. rewrite lookup_insert_ne by done. by rewrite app_nil_r.
Qed.

(** The edges of the traversal at a node, in the order of the snapshot. *)
Definition usable (e : GraphEdge) : bool :=
  allowedType traversal (ge_Type e) && isSet (nodes !! ge_Source e) && isSet (nodes !! ge_Target e).
Lemma adjacent_filter id :
  adjacent snapshot traversal id =
  List.filter (λ e, usable e && ((ge_Source e =s id) || (ge_Target e =s id))) (sn_Edges snapshot).
Proof.
  unfold adjacent, graphAdjacency, usable. generalize (nodesByID snapshot). intros m.
  induction (sn_Edges snapshot) as [|e l IH] using rev_ind; [done|]. rewrite foldl_snoc, List.filter_app. cbn [List.filter].
  destruct (allowedType traversal (ge_Type e)); cbn [negb andb]; [|by rewrite IH, app_nil_r].
  destruct (isSet (m !! ge_Source e)); cbn [negb andb]; [|by rewrite IH, app_nil_r].
  destruct (isSet (m !! ge_Target e)); cbn [negb andb]; [|by rewrite IH, app_nil_r].
  destruct (ge_Target e =s ge_Source e) eqn:E; cbn [negb].
  - apply eqb_string_true in E as ->. rewrite lookup_addAdjacent, IH, orb_diag. done.
  - rewrite !lookup_addAdjacent, IH, <-app_assoc. f_equal. apply eqb_string_false in E.
    destruct (ge_Source e =s id) eqn:E1, (ge_Target e =s id) eqn:E2; try done.
    apply eqb_string_true in E1, E2. congruence.
Qed.
Lemma elem_of_adjacent id e :
  e ∈ adjacent snapshot traversal id ↔ e ∈ sn_Edges snapshot ∧ usable e = true ∧ (ge_Source e = id ∨ ge_Target e = id).
Proof.
  rewrite adjacent_filter, elem_of_filter_list, andb_true_iff, orb_true_iff, !eqb_string_true. tauto.
Qed.

Lemma neighborOf_ends current direction e v : neighborOf current direction e = v → v ≠ "" →
  (ge_Source e = current ∧ ge_Target e = v) ∨ (ge_Target e = current ∧ ge_Source e = v).
Proof.
  unfold neighborOf. intros <-. destruct (ge_Type e =s RelationTypeRelatedTo).
  - destruct (ge_Source e =s current) eqn:E1; [apply eqb_string_true in E1; auto|].
    destruct (ge_Target e =s current) eqn:E2; [apply eqb_string_true in E2; auto|done].
  - cbv zeta. destruct (_ && (ge_Target e =s current)) eqn:E2; [apply andb_true_iff in E2 as [_ ?%eqb_string_true]; auto|].
    destruct (_ && (ge_Source e =s current)) eqn:E1; [apply andb_true_iff in E1 as [_ ?%eqb_string_true]; auto|done].
Qed.
Lemma elem_of_graphNeighbors current edges direction x :
  x ∈ graphNeighbors current edges nodes direction ↔
  gn_edge x ∈ edges ∧ gn_neighborID x = neighborOf current direction (gn_edge x) ∧ gn_neighborID x ≠ "" ∧
  ∃ node, nodes !! gn_neighborID x = Some node ∧ gn_sequence x = ip_SequenceNo node.
Proof.
  unfold graphNeighbors. rewrite elem_of_stable_sort, list_elem_of_In, in_concat. split.
  - intros (l & (e & <- & He)%in_map_iff & Hx). cbv zeta in Hx. destruct (_ =s "") eqn:E; [done|]. apply eqb_string_false in E.
    destruct (nodes !! _) as [node|] eqn:Hn; [|done]. destruct Hx as [<-|[]]. cbn. split_and!; [by apply list_elem_of_In|done|done|eauto].
  - intros (He & Hv & Hne & node & Hn & Hseq). exists [x]. split; [|by left]. apply in_map_iff. exists (gn_edge x).
    split; [|by apply list_elem_of_In]. cbv zeta. rewrite <-Hv. rewrite (proj2 (eqb_string_false _ _)) by done. rewrite Hn.
    destruct x as [e v q]. cbn in *. by subst.
Qed.

(** A node that the traversal goes through. *)
Definition passes (id : string) : bool :=
  negb (nodeExcluded snapshot traversal id) || isDeferrable snapshot traversal id.
Lemma nodeExcluded_known id : nodeExcluded snapshot traversal id = false → is_Some (nodes !! id).
Proof. unfold nodeExcluded. destruct (nodes !! id); [eauto|done]. Qed.
Lemma isDeferrable_known id : isDeferrable snapshot traversal id = true → is_Some (nodes !! id).
Proof. unfold isDeferrable, isTerminalNode. destruct (nodes !! id); [eauto|by rewrite andb_false_r]. Qed.
Lemma allowedNode_false id : allowedNode snapshot traversal id false = negb (nodeExcluded snapshot traversal id).
Proof.
  unfold allowedNode. cbn [andb orb]. unfold nodeExcluded. by destruct (nodes !! id).
Qed.
Lemma passes_known id : passes id = true → is_Some (nodes !! id).
Proof.
  unfold passes. intros [H|H]%orb_true_iff; [apply negb_true_iff in H; by apply nodeExcluded_known|by apply isDeferrable_known].
Qed.
End lookups.

(** ** Lemmas: one invariant for the whole traversal *)

(** What [addNode] does, by cases. *)
Inductive added (snapshot : GraphSnapshot) (traversal : GraphTraversal) (id : string) (depth : Z) (root : bool) (st : Traversal) :
    bool * Traversal → Prop :=
  | added_visited : id ∈ tv_Visited st → added snapshot traversal id depth root st (true, st)
  | added_unchanged : id ∉ tv_Visited st →
      nodesByID snapshot !! id = None ∨ (isDeferrable snapshot traversal id = true ∧ id ∈ tv_DeferredSeen st) ∨
      (isDeferrable snapshot traversal id = false ∧ allowedNode snapshot traversal id root = false) →
      added snapshot traversal id depth root st (false, st)
  | added_deferred deferred : id ∉ tv_Visited st → isDeferrable snapshot traversal id = true → id ∉ tv_DeferredSeen st →
      deferred = (if allowedNode snapshot traversal id root then tv_Deferred st ++ [id] else tv_Deferred st) →
      added snapshot traversal id depth root st (false, mkTraversal (tv_Nodes st) (tv_Edges st) (tv_Visited st)
        (tv_Queue st ++ [(id, depth)]) deferred ({[ id ]} ∪ tv_DeferredSeen st) (tv_Truncated st) (tv_BudgetExhausted st))
  | added_exhausted : id ∉ tv_Visited st → isDeferrable snapshot traversal id = false → allowedNode snapshot traversal id root = true →
      (gt_MaxNodes traversal <= Z.of_nat (length (tv_Nodes st)))%Z →
      added snapshot traversal id depth root st (false, exhaust st)
  | added_node node : id ∉ tv_Visited st → nodesByID snapshot !! id = Some node → isDeferrable snapshot traversal id = false →
      allowedNode snapshot traversal id root = true → (Z.of_nat (length (tv_Nodes st)) < gt_MaxNodes traversal)%Z →
      added snapshot traversal id depth root st (true, mkTraversal (tv_Nodes st ++ [node]) (tv_Edges st) ({[ id ]} ∪ tv_Visited st)
        (tv_Queue st ++ [(id, depth)]) (tv_Deferred st) (tv_DeferredSeen st) (tv_Truncated st) (tv_BudgetExhausted st)).

Section invariants.
Variable snapshot : GraphSnapshot.
Variable traversal : GraphTraversal.
Notation nodes := (nodesByID snapshot).
Notation addNode' := (addNode snapshot traversal).
Notation deferrable := (isDeferrable snapshot traversal).

Lemma addNode_cases id depth root st : added snapshot traversal id depth root st (addNode' id depth root st).
Proof.
  unfold addNode. destruct (bool_decide _) eqn:Hv; bool_simpl; [by apply added_visited|].
  destruct (nodes !! id) as [node|] eqn:Hn; [|apply added_unchanged; auto].
  destruct (deferrable id) eqn:Hd.
  - destruct (bool_decide _) eqn:Hs; bool_simpl; [apply added_unchanged; auto|by apply added_deferred].
  - destruct (allowedNode _ _ id root) eqn:Ha; cbn [negb]; [|apply added_unchanged; auto].
    destruct (_ <=? _)%Z eqn:Hl; bool_simpl; [by apply added_exhausted|by apply added_node].
Qed.

(** A predicate that the steps of the traversal preserve holds at its end. *)
Section closed.
Variable P : Traversal → Prop.
Hypothesis P_add : ∀ id depth root st, P st → P (addNode' id depth root st).2.
Hypothesis P_edge : ∀ current depth x st, P st → passes snapshot traversal current = true → (depth < gt_Depth traversal)%Z →
  x ∈ graphNeighbors current (adjacent snapshot traversal current) nodes (gt_Direction traversal) →
  current ∈ tv_Visited st → gn_neighborID x ∈ tv_Visited st → P (set_edges (appendGraphEdge (tv_Edges st) (gn_edge x)) st).

Lemma visit_closed current depth x st :
  passes snapshot traversal current = true → (depth < gt_Depth traversal)%Z →
  x ∈ graphNeighbors current (adjacent snapshot traversal current) nodes (gt_Direction traversal) →
  P st → P (visitNeighbor snapshot traversal current depth st x).
Proof.
  intros Hc Hd Hx HP. unfold visitNeighbor. destruct (negb _ && _); [done|].
  destruct (if bool_decide (gn_neighborID x ∈ tv_Visited st) then (true, st) else addNode' (gn_neighborID x) (depth + 1) false st)
    as [present st'] eqn:Hadd.
  assert (P st') as HP'.
  { pose proof (P_add (gn_neighborID x) (depth + 1) false st HP) as HP'. destruct (bool_decide _); [by injection Hadd as <- <-|by rewrite Hadd in HP']. }
  destruct present; [|done]. cbn [negb]. destruct (_ && _) eqn:Hv; [|done]. bool_simpl. by apply (P_edge current depth).
Qed.
Lemma expand_closed current depth st : P st → P (expandNode snapshot traversal current depth st).
Proof.
  intros HP. unfold expandNode. destruct (_ <=? _)%Z eqn:Hd; [done|]. destruct (nodeExcluded _ _ _ && _) eqn:Hx; [done|].
  bool_simpl. assert (passes snapshot traversal current = true) as Hp.
  { unfold passes. apply andb_false_iff in Hx as [->| ->%negb_false_iff]; [done|apply orb_true_r]. }
  assert (Hall : ∀ l, (∀ x, x ∈ l → x ∈ graphNeighbors current (adjacent snapshot traversal current) nodes (gt_Direction traversal)) →
    ∀ st, P st → P (foldl (visitNeighbor snapshot traversal current depth) st l)).
  { induction l as [|x l IH]; cbn; [done|]. intros Hl st' HP'. apply IH; [set_solver|]. apply visit_closed; [done|done|set_solver|done]. }
  by apply Hall.
Qed.
Hypothesis P_pop : ∀ x rest st, tv_Queue st = x :: rest → P st → P (set_queue rest st).

Lemma drain_closed fuel st : P st → P (drain snapshot traversal fuel st).
Proof.
  revert st. induction fuel as [|fuel IH]; intros st HP; cbn; [done|]. destruct (tv_Queue st) as [|[current depth] rest] eqn:Hq; [done|].
  apply IH, expand_closed. by eapply P_pop.
Qed.
Lemma traverse_closed roots st : P st → P (traverseRoots snapshot traversal roots st).
Proof.
  revert st. induction roots as [|root roots IH]; intros st HP; cbn; [done|]. destruct (bool_decide _); [by apply IH|].
  destruct (negb _ && _); [by apply IH|].
  pose proof (P_add root 0 (root =s gt_ExplicitRootID traversal) st HP) as HP'.
  destruct (addNode' root 0 _ st) as [present st']. cbn in HP'. destruct (_ && _); [done|]. apply IH, drain_closed, HP'.
Qed.
End closed.

(** *** The loop over the queue ends *)

Definition enqueued (st : Traversal) : gset string := tv_Visited st ∪ tv_DeferredSeen st.
Definition measure (st : Traversal) : nat := length (tv_Queue st) + (size nodes - size (enqueued st)).
(** Everything in the queue is a node, and only terminal nodes are put off. *)
Definition known_only (st : Traversal) : Prop :=
  enqueued st ⊆ dom nodes ∧ ∀ id, id ∈ tv_DeferredSeen st → deferrable id = true.

Lemma addNode_measure id depth root st : known_only st →
  known_only (addNode' id depth root st).2 ∧ measure (addNode' id depth root st).2 ≤ measure st.
Proof.
  intros [Hk Hdef]. assert (Hnew : ∀ X (queue : list (string * Z)), X ≡ {[ id ]} ∪ enqueued st → id ∉ enqueued st → id ∈ dom nodes →
    length queue = S (length (tv_Queue st)) → X ⊆ dom nodes ∧ length queue + (size nodes - size X) ≤ measure st).
  { intros X queue HX Hni Hid ->. rewrite HX. split; [set_solver|]. unfold measure.
    assert (size ({[ id ]} ∪ enqueued st) ≤ size nodes) as Hle by (rewrite <-size_dom; apply subseteq_size; set_solver).
    rewrite size_union in Hle |- * by set_solver. rewrite size_singleton in Hle |- *. lia. }
  destruct (addNode_cases id depth root st) as [?|??|d Hv Hd Hs _|????|node Hv Hn Hd Ha Hl]; cbn [snd]; try done.
  - destruct (Hnew (tv_Visited st ∪ ({[ id ]} ∪ tv_DeferredSeen st)) (tv_Queue st ++ [(id, depth)])) as [Hsub Hm]; [unfold enqueued; set_solver|unfold enqueued; set_solver|
      apply elem_of_dom; by apply (isDeferrable_known snapshot traversal)|rewrite length_app; cbn; lia|].
    split; [split; [done|]|exact Hm]. cbn [tv_DeferredSeen]. intros y [->%elem_of_singleton|Hy]%elem_of_union; auto.
  - assert (id ∉ tv_DeferredSeen st) by (intros ?%Hdef; congruence).
    destruct (Hnew (({[ id ]} ∪ tv_Visited st) ∪ tv_DeferredSeen st) (tv_Queue st ++ [(id, depth)])) as [Hsub Hm]; [unfold enqueued; set_solver|unfold enqueued; set_solver|
      apply elem_of_dom; eauto|rewrite length_app; cbn; lia|].
    split; [split; [done|]|exact Hm]. exact Hdef.
Qed.

Lemma pop_measure x rest st : tv_Queue st = x :: rest → known_only st →
  known_only (set_queue rest st) ∧ measure st = S (measure (set_queue rest st)).
Proof. intros Hq Hk. split; [done|]. unfold measure. rewrite Hq. done. Qed.
Lemma expand_measure current depth st : known_only st →
  known_only (expandNode snapshot traversal current depth st) ∧ measure (expandNode snapshot traversal current depth st) ≤ measure st.
Proof.
  intros Hk. apply (expand_closed (λ st', known_only st' ∧ measure st' ≤ measure st)); [|intros ???? Hst ?????; exact Hst|by split].
  intros id d root st' [Hk' Hm]. destruct (addNode_measure id d root st' Hk'). split; [done|lia].
Qed.
Lemma drain_measure fuel st : known_only st → measure st ≤ fuel →
  tv_Queue (drain snapshot traversal fuel st) = [] ∧ known_only (drain snapshot traversal fuel st).
Proof.
  revert st. induction fuel as [|fuel IH]; intros st Hk Hm; cbn.
  - split; [|done]. unfold measure in Hm. destruct (tv_Queue st); [done|cbn in Hm; lia].
  - destruct (tv_Queue st) as [|[current depth] rest] eqn:Hq; [done|]. destruct (pop_measure _ _ _ Hq Hk) as [Hk' Hm'].
    destruct (expand_measure current depth _ Hk') as [Hk'' Hm'']. apply IH; [done|lia].
Qed.

(** The fuel is enough for a root that was just added to an empty queue. *)
Lemma drain_empties id root st : known_only st → tv_Queue st = [] → 
  let st' := (addNode' id 0 root st).2 in
  tv_Queue (drain snapshot traversal (drainFuel snapshot) st') = [] ∧ known_only (drain snapshot traversal (drainFuel snapshot) st').
Proof.
  intros Hk Hq st'. destruct (addNode_measure id 0 root st Hk) as [Hk' Hm]. fold st' in Hk', Hm. apply drain_measure; [done|].
  unfold drainFuel. etrans; [|apply nodesByID_size]. unfold measure in Hm at 2. rewrite Hq in Hm. cbn in Hm. lia.
Qed.

(** *** What has been emitted *)

Record emitted (st : Traversal) : Prop := {
  em_nodes : ∀ node, node ∈ tv_Nodes st → nodes !! ip_ID node = Some node;
  em_distinct : NoDup (map ip_ID (tv_Nodes st));
  em_visited : ∀ id, id ∈ tv_Visited st ↔ id ∈ map ip_ID (tv_Nodes st);
  em_allowed : ∀ id, id ∈ tv_Visited st → allowedNode snapshot traversal id true = true;
  em_bound : (Z.of_nat (length (tv_Nodes st)) <= Z.max 0 (gt_MaxNodes traversal))%Z;
  em_edges : ∀ e, e ∈ tv_Edges st → e ∈ sn_Edges snapshot ∧ usable snapshot traversal e = true ∧
    ge_Source e ∈ tv_Visited st ∧ ge_Target e ∈ tv_Visited st;
  em_once : NoDup (tv_Edges st);
}.

Lemma allowedNode_root id root : allowedNode snapshot traversal id root = true → allowedNode snapshot traversal id true = true.
Proof.
  unfold allowedNode. destruct (isSet _); [|done]. cbn [andb]. destruct root; [done|]. cbn. intros ->. apply orb_true_r.
Qed.
Lemma elem_of_append edges e e' : e' ∈ appendGraphEdge edges e ↔ e' ∈ edges ∨ e' = e.
Proof. unfold appendGraphEdge. destruct (decide (e ∈ edges)); set_solver. Qed.
Lemma NoDup_append edges e : NoDup edges → NoDup (appendGraphEdge edges e).
Proof.
  intros Hnd. unfold appendGraphEdge. destruct (decide (e ∈ edges)); [done|]. apply NoDup_app. split_and!; [done|set_solver|apply NoDup_singleton].
Qed.

(** A node more. *)
Lemma emitted_node id node st visited queue deferred seen truncated exhausted :
  nodes !! id = Some node → id ∉ tv_Visited st → allowedNode snapshot traversal id true = true →
  (Z.of_nat (length (tv_Nodes st)) < gt_MaxNodes traversal)%Z → visited = {[ id ]} ∪ tv_Visited st → emitted st →
  emitted (mkTraversal (tv_Nodes st ++ [node]) (tv_Edges st) visited queue deferred seen truncated exhausted).
Proof.
  intros Hn Hv Ha Hl -> [E1 E2 E3 E4 E5 E6 E7]. destruct (nodesByID_spec _ _ _ Hn) as [Hid _].
  split; cbn [tv_Nodes tv_Edges tv_Visited].
  - intros node' [?| ->%list_elem_of_singleton]%elem_of_app; [by apply E1|by rewrite Hid].
  - rewrite map_app. apply NoDup_app. split_and!; [done| |apply NoDup_singleton]. cbn. rewrite Hid. intros x Hx ->%list_elem_of_singleton.
    by apply Hv, E3.
  - intros id'. rewrite map_app, elem_of_app, elem_of_union, elem_of_singleton, E3. cbn. rewrite Hid, list_elem_of_singleton. tauto.
  - intros id' [->%elem_of_singleton|?]%elem_of_union; auto.
  - rewrite length_app. cbn. lia.
  - intros e He. destruct (E6 e He) as (? & ? & ? & ?). set_solver.
  - done.
Qed.
Lemma emitted_same st st' : tv_Nodes st' = tv_Nodes st → tv_Edges st' = tv_Edges st → tv_Visited st' = tv_Visited st → emitted st → emitted st'.
Proof. intros H1 H2 H3 [E1 E2 E3 E4 E5 E6 E7]. split; rewrite ?H1, ?H2, ?H3; done. Qed.
Lemma emitted_edge st e : emitted st → e ∈ sn_Edges snapshot → usable snapshot traversal e = true →
  ge_Source e ∈ tv_Visited st → ge_Target e ∈ tv_Visited st → emitted (set_edges (appendGraphEdge (tv_Edges st) e) st).
Proof.
  intros [E1 E2 E3 E4 E5 E6 E7] He Hu Hs Ht. split; cbn [tv_Nodes tv_Edges tv_Visited set_edges]; try done.
  - intros e' [?| ->]%elem_of_append; [by apply E6|done].
  - by apply NoDup_append.
Qed.

(** The first pass: no terminal node that is put off is emitted yet. *)
Record first_pass (st : Traversal) : Prop := {
  fp_emitted : emitted st;
  fp_visited : ∀ id, id ∈ tv_Visited st → deferrable id = false;
  fp_deferred : ∀ id, id ∈ tv_Deferred st →
    deferrable id = true ∧ allowedNode snapshot traversal id true = true ∧ id ∈ tv_DeferredSeen st;
  fp_once : NoDup (tv_Deferred st);
}.

Lemma first_pass_add id depth root st : first_pass st → first_pass (addNode' id depth root st).2.
Proof.
  intros [E V D N]. destruct (addNode_cases id depth root st) as [?|??|d Hv Hd Hs ->|????|node Hv Hn Hd Ha Hl]; cbn [snd]; try done.
  - split; cbn; try done.
    + by apply (emitted_same st).
    + destruct (allowedNode _ _ id root) eqn:Ha; intros id'; [|intros Hid; destruct (D id' Hid) as (?&?&?); set_solver].
      intros [Hid| ->%list_elem_of_singleton]%elem_of_app; [destruct (D id' Hid) as (?&?&?); set_solver|].
      split_and!; [done|by eapply allowedNode_root|set_solver].
    + destruct (allowedNode _ _ id root); [|done]. apply NoDup_app. split_and!; [done| |apply NoDup_singleton].
      intros x Hx ->%list_elem_of_singleton. destruct (D id Hx) as (_ & _ & ?). done.
  - split; try done. by apply (emitted_same st).
  - split; cbn; try done.
    + eapply emitted_node; eauto using allowedNode_root.
    + intros id' [->%elem_of_singleton|?]%elem_of_union; auto.
Qed.

Lemma neighbor_edge current x :
  x ∈ graphNeighbors current (adjacent snapshot traversal current) nodes (gt_Direction traversal) →
  gn_edge x ∈ sn_Edges snapshot ∧ usable snapshot traversal (gn_edge x) = true ∧
  ((ge_Source (gn_edge x) = current ∧ ge_Target (gn_edge x) = gn_neighborID x) ∨
   (ge_Target (gn_edge x) = current ∧ ge_Source (gn_edge x) = gn_neighborID x)).
Proof.
  intros (He & Hv & Hne & _)%elem_of_graphNeighbors. apply elem_of_adjacent in He as (? & ? & _).
  split_and!; [done|done|]. eapply neighborOf_ends; eauto.
Qed.

Lemma emitted_empty : emitted emptyTraversal.
Proof. split; cbn; try done; try (by intros ? ?%not_elem_of_nil); try lia; try constructor; set_solver. Qed.

Lemma first_pass_traverse roots : first_pass (traverseRoots snapshot traversal roots emptyTraversal).
Proof.
  apply (traverse_closed first_pass).
  - intros. by apply first_pass_add.
  - intros current depth x st [E V D N] Hp Hd Hx Hc Hn. split; try done.
    destruct (neighbor_edge _ _ Hx) as (? & ? & [[Hs Ht]|[Hs Ht]]); apply emitted_edge; rewrite ?Hs, ?Ht; done.
  - intros x rest st _ [E V D N]. split; try done. by apply (emitted_same st).
  - split; [apply emitted_empty|cbn; set_solver|by intros ? ?%not_elem_of_nil|constructor].
Qed.

(** *** The second pass *)

Lemma otherEnd_ends id e : ge_Source e = id ∨ ge_Target e = id →
  (ge_Source e = id ∧ ge_Target e = otherEnd id e) ∨ (ge_Target e = id ∧ ge_Source e = otherEnd id e).
Proof.
  unfold otherEnd. intros [Hs|Ht]; [rewrite (proj2 (eqb_string_true _ _)) by done; auto|].
  destruct (ge_Source e =s id) eqn:E; [apply eqb_string_true in E|]; auto.
Qed.

(** The edges of an admitted node. *)
Definition admitEdges (id : string) (visited : gset string) (edges : list GraphEdge) : list GraphEdge :=
  foldl (λ edges e, if bool_decide (otherEnd id e ∈ visited) then appendGraphEdge edges e else edges) edges
    (adjacent snapshot traversal id).

Lemma foldl_append (f : GraphEdge → bool) l edges e :
  e ∈ foldl (λ edges e, if f e then appendGraphEdge edges e else edges) edges l ↔ e ∈ edges ∨ (e ∈ l ∧ f e = true).
Proof.
  revert edges. induction l as [|x l IH]; intros edges; cbn; [set_solver|]. rewrite IH. destruct (f x) eqn:Hx.
  - rewrite elem_of_append, elem_of_cons. naive_solver.
  - rewrite elem_of_cons. split; [tauto|]. intros [?|[[->|?] ?]]; [tauto|congruence|tauto].
Qed.
Lemma foldl_append_once (f : GraphEdge → bool) l edges :
  NoDup edges → NoDup (foldl (λ edges e, if f e then appendGraphEdge edges e else edges) edges l).
Proof. revert edges. induction l as [|x l IH]; intros edges Hnd; cbn; [done|]. apply IH. destruct (f x); [by apply NoDup_append|done]. Qed.

(** A node that is attached to the nodes of the first pass. *)
Definition attachedTo (retained : gset string) (id : string) : Prop :=
  ∃ e, e ∈ adjacent snapshot traversal id ∧ otherEnd id e ≠ id ∧ otherEnd id e ∈ retained.
Definition attachedb (retained : gset string) (id : string) : bool :=
  existsb (λ e, negb (otherEnd id e =s id) && bool_decide (otherEnd id e ∈ retained)) (adjacent snapshot traversal id).
Lemma attachedb_spec retained id : attachedb retained id = true ↔ attachedTo retained id.
Proof.
  unfold attachedb. rewrite existsb_exists. split.
  - intros (e & He%list_elem_of_In & Hb). bool_simpl. exists e. split_and!; [done| |done]. by apply eqb_string_false.
  - intros (e & He & Hne & Hr). exists e. split; [by apply list_elem_of_In|]. rewrite (proj2 (eqb_string_false _ _)) by done.
    cbn. by apply bool_decide_eq_true.
Qed.

Lemma admit_cons retained id rest st : ∀ node, nodes !! id = Some node →
  admitDeferred snapshot traversal retained (id :: rest) st =
  (if (gt_MaxNodes traversal <=? Z.of_nat (length (tv_Nodes st)))%Z then truncate st
   else if negb (attachedb retained id) then admitDeferred snapshot traversal retained rest st
   else admitDeferred snapshot traversal retained rest
          (mkTraversal (tv_Nodes st ++ [node]) (admitEdges id ({[ id ]} ∪ tv_Visited st) (tv_Edges st)) ({[ id ]} ∪ tv_Visited st)
             (tv_Queue st) (tv_Deferred st) (tv_DeferredSeen st) (tv_Truncated st) (tv_BudgetExhausted st))).
Proof. intros node Hn. cbn [admitDeferred]. cbv zeta. by rewrite Hn. Qed.

(** What the second pass adds: nodes that were put off and are attached. *)
Lemma admit_emitted retained deferred st :
  (∀ id, id ∈ deferred → deferrable id = true ∧ allowedNode snapshot traversal id true = true ∧ id ∉ tv_Visited st) →
  retained ⊆ tv_Visited st → NoDup deferred → emitted st →
  let st' := admitDeferred snapshot traversal retained deferred st in
  emitted st' ∧ (∃ more, tv_Nodes st' = tv_Nodes st ++ more) ∧
  (∀ e, e ∈ tv_Edges st → e ∈ tv_Edges st') ∧
  (∀ id, id ∈ tv_Visited st' → id ∈ tv_Visited st ∨
     (id ∈ deferred ∧ ∃ e, e ∈ tv_Edges st' ∧ e ∈ adjacent snapshot traversal id ∧ otherEnd id e ≠ id ∧ otherEnd id e ∈ retained)) ∧
  (tv_Truncated st' = false → tv_Truncated st = false ∧ ∀ id, id ∈ deferred → attachedTo retained id → id ∈ tv_Visited st').
Proof.
  revert st. induction deferred as [|id rest IH]; intros st Hdef Hret Hnd Hem.
  { cbn. split_and!; [done|exists []; by rewrite app_nil_r|auto|auto|]. intros ->. split; [done|]. by intros ? ?%not_elem_of_nil. }
  apply NoDup_cons in Hnd as [Hni Hnd]. destruct (Hdef id) as (Hd & Ha & Hv); [by left|].
  destruct (isDeferrable_known _ _ _ Hd) as [node Hn]. cbv zeta. rewrite (admit_cons _ _ _ _ node Hn).
  destruct (_ <=? _)%Z eqn:Hl; bool_simpl.
  { split_and!; [by apply (emitted_same st)|exists []; by rewrite app_nil_r|auto|auto|done]. }
  destruct (attachedb retained id) eqn:Hat; cbn [negb].
  - apply attachedb_spec in Hat. set (st1 := mkTraversal _ _ _ _ _ _ _ _).
    assert (emitted st1) as Hem1.
    { destruct (emitted_node id node st ({[ id ]} ∪ tv_Visited st) (tv_Queue st) (tv_Deferred st) (tv_DeferredSeen st) (tv_Truncated st)
                  (tv_BudgetExhausted st)) as [E1 E2 E3 E4 E5 E6 E7]; try done.
      split; try done; cbn [st1 tv_Edges tv_Visited].
      - intros e [He|[He Ho]]%foldl_append; [by apply E6|]. bool_simpl. apply elem_of_adjacent in He as (? & ? & Hends).
        split_and!; [done|done|..]; destruct (otherEnd_ends _ _ Hends) as [[H1 H2]|[H1 H2]]; rewrite ?H1, ?H2; set_solver.
      - by apply foldl_append_once. }
    destruct (IH st1) as (Hem' & [more Hmore] & Hes & Hin & Htr); [|cbn; set_solver|done|done|].
    { intros id' Hid'. destruct (Hdef id') as (? & ? & ?); [by right|]. split_and!; [done|done|]. cbn. set_solver. }
    split_and!; [done|..].
    + exists (node :: more). rewrite Hmore. cbn. by rewrite <-app_assoc.
    + intros e He. apply Hes. apply foldl_append. by left.
    + intros id' Hid'. destruct (Hin id' Hid') as [[->%elem_of_singleton|?]%elem_of_union|[? ?]]; [right|by left|right]; (split; [set_solver|]); [|done].
      destruct Hat as (e & He & Hne & Hr). exists e. split_and!; [|done|done|done]. apply Hes, foldl_append. right. split; [done|].
      apply bool_decide_eq_true. set_solver.
    + intros Ht. destruct (Htr Ht) as [? Hall]. split; [done|]. intros id' [->|Hid']%elem_of_cons Hat'; [|by apply Hall].
      apply (em_visited _ Hem'). rewrite Hmore. cbn. rewrite !map_app, elem_of_app, elem_of_app. left. right.
      cbn. destruct (nodesByID_spec _ _ _ Hn) as [-> _]. by left.
  - destruct (IH st) as (? & ? & ? & Hin & Htr); [|done|done|done|].
    { intros id' Hid'. apply Hdef. by right. }
    split_and!; [done|done|done|..].
    + intros id' Hid'. destruct (Hin id' Hid') as [?|[? ?]]; [by left|right]. split; [by right|done].
    + intros Ht. destruct (Htr Ht) as [? Hall]. split; [done|]. intros id' [->|Hid']%elem_of_cons Hat'; [|by apply Hall].
      apply attachedb_spec in Hat'. congruence.
Qed.

(** The whole traversal. *)
Lemma traverseGraph_emitted :
  emitted (traverseGraph snapshot traversal) ∧
  ∀ id, id ∈ tv_Visited (traverseGraph snapshot traversal) → deferrable id = true →
    ∃ e, e ∈ tv_Edges (traverseGraph snapshot traversal) ∧ (ge_Source e = id ∨ ge_Target e = id) ∧ deferrable (otherEnd id e) = false.
Proof.
  unfold traverseGraph. set (st := traverseRoots _ _ _ _). assert (first_pass st) as [E V D N] by apply first_pass_traverse.
  destruct (admit_emitted (tv_Visited st) (tv_Deferred st) st) as (Hem & _ & _ & Hin & _); [|done|done|done|].
  { intros id Hid. destruct (D id Hid) as (Hd & Ha & _). split_and!; [done|done|]. intros Hv%V. congruence. }
  split; [done|]. intros id Hid Hd. destruct (Hin id Hid) as [Hv%V|[_ (e & He & Hadj & Hne & Hr)]]; [congruence|].
  exists e. split_and!; [done| |by apply V]. by apply elem_of_adjacent in Hadj as (_ & _ & ?).
Qed.
End invariants.

(** ** Lemmas: the search is breadth first *)

(** The nodes that [n] steps lead to from the root: each step follows an edge
    the traversal may use, between nodes it goes through. *)
Definition follows (snapshot : GraphSnapshot) (traversal : GraphTraversal) (u : string) (e : GraphEdge) (v : string) : Prop :=
  e ∈ adjacent snapshot traversal u ∧ neighborOf u (gt_Direction traversal) e = v ∧ v ≠ "" ∧
  passes snapshot traversal u = true ∧ passes snapshot traversal v = true.
Inductive within (snapshot : GraphSnapshot) (traversal : GraphTraversal) (root : string) : Z → string → Prop :=
  | within_root : is_Some (nodesByID snapshot !! root) → within snapshot traversal root 0 root
  | within_step n u v e : within snapshot traversal root n u → follows snapshot traversal u e v →
      within snapshot traversal root (n + 1) v.

Section bfs.
Variable snapshot : GraphSnapshot.
Variable traversal : GraphTraversal.
Variable root : string.
Notation nodes := (nodesByID snapshot).
Notation deferrable := (isDeferrable snapshot traversal).
Notation follows := (follows snapshot traversal).
Notation within := (within snapshot traversal root).
Notation Depth := (gt_Depth traversal).

(** A node all of whose steps were taken. *)
Definition explored (D : gmap string Z) (edges : list GraphEdge) (u : string) (k : Z) : Prop :=
  (k < Depth)%Z → ∀ e v, follows u e v →
    (∃ k', D !! v = Some k' ∧ (k' <= k + 1)%Z) ∧ (deferrable u = false → deferrable v = false → e ∈ edges).

Definition overflow : Prop :=
  ∃ ids, NoDup ids ∧ (gt_MaxNodes traversal < Z.of_nat (length ids))%Z ∧ ∀ v, v ∈ ids → ∃ k, (0 <= k <= Depth)%Z ∧ within k v.

(** The state of the search, with the depth at which every node was found;
    [current] is the node being expanded, at depth [level]. *)
Record bfs (D : gmap string Z) (level : Z) (current : option string) (st : Traversal) : Prop := {
  b_emitted : emitted snapshot traversal st;
  b_first : ∀ v, v ∈ tv_Visited st → deferrable v = false;
  b_dom : ∀ v, v ∈ enqueued st ↔ is_Some (D !! v);
  b_visited : ∀ v, is_Some (D !! v) → deferrable v = false → v ∈ tv_Visited st;
  b_within : ∀ v k, D !! v = Some k → within k v ∧ (0 <= k <= Depth)%Z;
  b_queue : ∀ v k, (v, k) ∈ tv_Queue st → D !! v = Some k ∧ (level <= k)%Z;
  b_sorted : StronglySorted Z.le (map snd (tv_Queue st));
  b_near : ∀ v k, D !! v = Some k → (k <= level + 1)%Z;
  b_edges : ∀ e, e ∈ tv_Edges st → ∃ u v k, D !! u = Some k ∧ (k < Depth)%Z ∧ follows u e v ∧
    deferrable u = false ∧ deferrable v = false;
  b_done : tv_Truncated st = false → ∀ u k, D !! u = Some k → (u, k) ∉ tv_Queue st → current ≠ Some u → explored D (tv_Edges st) u k;
  b_over : tv_Truncated st = true → overflow;
}.

Lemma explored_mono D D' edges edges' u k :
  D ⊆ D' → (∀ e, e ∈ edges → e ∈ edges') → explored D edges u k → explored D' edges' u k.
Proof.
  intros HD He Hx Hk e v Hf. destruct (Hx Hk e v Hf) as [(k' & Hv & Hle) Hin]. split; [|auto].
  exists k'. split; [by eapply lookup_weaken|done].
Qed.

Lemma bfs_pop D level current depth rest st :
  tv_Queue st = (current, depth) :: rest → bfs D level None st →
  D !! current = Some depth ∧ bfs D depth (Some current) (set_queue rest st).
Proof.
  intros Hq [B0 B1 B2 B3 B4 B5 B6 B7 B8 B9 B10]. rewrite Hq in *. destruct (B5 current depth) as [Hc Hl]; [by left|].
  split; [done|]. cbn in B6. apply StronglySorted_inv in B6 as [Hs Hall]. split; cbn [set_queue tv_Nodes tv_Edges tv_Visited tv_Queue tv_Truncated]; try done.
  - by apply (emitted_same _ _ st).
  - intros v k Hin. destruct (B5 v k) as [? _]; [by right|]. split; [done|]. rewrite Forall_forall in Hall.
    apply Hall. apply list_elem_of_fmap. by exists (v, k).
  - intros v k Hv. specialize (B7 v k Hv). lia.
  - intros Ht u k Hu Hni Hne. apply (B9 Ht u k Hu); [|done]. intros [Heq|?]%elem_of_cons; [|done]. congruence.
Qed.

(** A node is found. *)
Lemma bfs_found D depth current e v st st' :
  bfs D depth (Some current) st → D !! current = Some depth → (depth < Depth)%Z → follows current e v → v ∉ enqueued st →
  emitted snapshot traversal st' → enqueued st' ≡ {[ v ]} ∪ enqueued st → tv_Queue st' = tv_Queue st ++ [(v, (depth + 1)%Z)] →
  tv_Edges st' = tv_Edges st → tv_Truncated st' = tv_Truncated st →
  (∀ w, w ∈ tv_Visited st' → w ∈ tv_Visited st ∨ (w = v ∧ deferrable v = false)) →
  (∀ w, w ∈ tv_Visited st → w ∈ tv_Visited st') → (deferrable v = false → v ∈ tv_Visited st') →
  D ⊆ <[v := (depth + 1)%Z]> D ∧ bfs (<[v := (depth + 1)%Z]> D) depth (Some current) st'.
Proof.
  intros [B0 B1 B2 B3 B4 B5 B6 B7 B8 B9 B10] Hc Hd Hf Hv Hem Henq Hq He Ht Hv1 Hv2 Hv3.
  assert (Hnone : D !! v = None). { apply eq_None_not_Some. by rewrite <-B2. }
  assert (Hsub : D ⊆ <[v := (depth + 1)%Z]> D) by by apply insert_subseteq.
  split; [done|]. split; rewrite ?He, ?Ht, ?Hq; try done.
  - intros w [?|[-> ?]]%Hv1; auto.
  - intros w. rewrite Henq, elem_of_union, elem_of_singleton, B2. destruct (decide (w = v)) as [->|Hne].
    + rewrite lookup_insert_eq. naive_solver.
    + rewrite lookup_insert_ne by done. naive_solver.
  - intros w Hw Hdw. destruct (decide (w = v)) as [->|Hne]; [by apply Hv3|]. rewrite lookup_insert_ne in Hw by done. auto.
  - intros w k. destruct (decide (w = v)) as [->|Hne].
    + rewrite lookup_insert_eq. intros [= <-]. destruct (B4 _ _ Hc) as [Hw Hr]. split; [by eapply within_step|lia].
    + rewrite lookup_insert_ne by done. auto.
  - intros w k [Hin|Hin]%elem_of_app.
    + destruct (B5 w k Hin). split; [by eapply lookup_weaken|done].
    + apply list_elem_of_singleton in Hin as [= -> ->]. rewrite lookup_insert_eq. split; [done|lia].
  - rewrite map_app. cbn. apply StronglySorted_app. split_and!; [|done|by repeat constructor].
    intros a b Ha ->%list_elem_of_singleton. apply list_elem_of_fmap in Ha as ([w k] & -> & Hin). cbn. destruct (B5 w k Hin) as [Hw _].
    by apply (B7 w k).
  - intros w k. destruct (decide (w = v)) as [->|Hne]; [rewrite lookup_insert_eq; intros [= <-]; lia|rewrite lookup_insert_ne by done; apply B7].
  - intros e' He'. destruct (B8 e' He') as (u & w & k & Hu & ? & ?). exists u, w, k. split; [by eapply lookup_weaken|done].
  - intros Htr u k Hu Hni Hne. destruct (decide (u = v)) as [->|Hnv].
    + rewrite lookup_insert_eq in Hu. injection Hu as <-. destruct Hni. apply elem_of_app. right. by left.
    + rewrite lookup_insert_ne in Hu by done. eapply explored_mono; [done|done|]. apply B9; [done|done| |done].
      intros Hin. apply Hni. apply elem_of_app. by left.
Qed.

Lemma bfs_edge D depth current e v st :
  bfs D depth (Some current) st → D !! current = Some depth → (depth < Depth)%Z → follows current e v →
  current ∈ tv_Visited st → v ∈ tv_Visited st →
  bfs D depth (Some current) (set_edges (appendGraphEdge (tv_Edges st) e) st).
Proof.
  intros [B0 B1 B2 B3 B4 B5 B6 B7 B8 B9 B10] Hc Hd Hf Hcv Hv. pose proof Hf as (Hadj & Hnb & Hne & _).
  apply elem_of_adjacent in Hadj as (He & Hu & _).
  split; cbn [set_edges tv_Nodes tv_Edges tv_Visited tv_Queue tv_Truncated]; try done.
  - apply emitted_edge; [done|done|done|..]; destruct (neighborOf_ends _ _ _ _ Hnb Hne) as [[H1 H2]|[H1 H2]]; by rewrite ?H1, ?H2.
  - intros e' [?| ->]%elem_of_append; [auto|]. exists current, v, depth. do 3 (split; [done|]). auto.
  - intros Ht u k Hk Hni Hnc. eapply explored_mono; [done| |by apply B9]. intros e' ?. apply elem_of_append. by left.
Qed.

(** One step along an edge. *)
Definition taken (D : gmap string Z) (edges : list GraphEdge) (current : string) (depth : Z) (e : GraphEdge) (v : string) : Prop :=
  (∃ k, D !! v = Some k ∧ (k <= depth + 1)%Z) ∧ (deferrable current = false → deferrable v = false → e ∈ edges).

Lemma taken_mono D D' edges edges' current depth e v :
  D ⊆ D' → (∀ e, e ∈ edges → e ∈ edges') → taken D edges current depth e v → taken D' edges' current depth e v.
Proof. intros HD He [(k & Hk & Hle) Hin]. split; [exists k; split; [by eapply lookup_weaken|done]|auto]. Qed.

Lemma visit_known st current depth x : gn_neighborID x ∈ tv_Visited st → passes snapshot traversal (gn_neighborID x) = true →
  visitNeighbor snapshot traversal current depth st x =
  if bool_decide (current ∈ tv_Visited st) then set_edges (appendGraphEdge (tv_Edges st) (gn_edge x)) st else st.
Proof.
  intros Hv Hp. unfold visitNeighbor. rewrite allowedNode_false, negb_involutive.
  unfold passes in Hp. destruct (nodeExcluded _ _ _ && _) eqn:E.
  { bool_simpl. apply orb_true_iff in Hp as [?%negb_true_iff|?]; congruence. }
  rewrite (bool_decide_eq_true_2 (gn_neighborID x ∈ _)) by done. cbn [negb]. rewrite (bool_decide_eq_true_2 (gn_neighborID x ∈ _)) by done.
  by rewrite andb_true_r.
Qed.
Lemma visit_skipped st current depth x : passes snapshot traversal (gn_neighborID x) = false →
  visitNeighbor snapshot traversal current depth st x = st.
Proof.
  intros Hp. unfold visitNeighbor. rewrite allowedNode_false. unfold passes in Hp. apply orb_false_iff in Hp as [-> ->]. done.
Qed.
Lemma visit_new st current depth x : gn_neighborID x ∉ tv_Visited st → passes snapshot traversal (gn_neighborID x) = true →
  visitNeighbor snapshot traversal current depth st x =
  let '(present, st') := addNode snapshot traversal (gn_neighborID x) (depth + 1) false st in
  if negb present then st'
  else if bool_decide (current ∈ tv_Visited st') && bool_decide (gn_neighborID x ∈ tv_Visited st')
  then set_edges (appendGraphEdge (tv_Edges st') (gn_edge x)) st' else st'.
Proof.
  intros Hv Hp. unfold visitNeighbor. rewrite allowedNode_false, negb_involutive.
  unfold passes in Hp. destruct (nodeExcluded _ _ _ && _) eqn:E.
  { bool_simpl. apply orb_true_iff in Hp as [?%negb_true_iff|?]; congruence. }
  by rewrite (bool_decide_eq_false_2 (gn_neighborID x ∈ _)) by done.
Qed.

Lemma neighbor_follows current x :
  x ∈ graphNeighbors current (adjacent snapshot traversal current) nodes (gt_Direction traversal) →
  passes snapshot traversal current = true → passes snapshot traversal (gn_neighborID x) = true →
  follows current (gn_edge x) (gn_neighborID x).
Proof. intros (He & Hv & Hne & _)%elem_of_graphNeighbors Hc Hn. split_and!; auto. Qed.
Lemma follows_neighbor current e v : follows current e v →
  ∃ x, x ∈ graphNeighbors current (adjacent snapshot traversal current) nodes (gt_Direction traversal) ∧ gn_edge x = e ∧ gn_neighborID x = v.
Proof.
  intros (He & Hv & Hne & _ & Hp). destruct (passes_known _ _ _ Hp) as [node Hn]. exists (mkNeighbor e v (ip_SequenceNo node)).
  split_and!; [|done|done]. apply elem_of_graphNeighbors. cbn. eauto 6.
Qed.

Lemma bfs_taken D depth current e v st : bfs D depth (Some current) st → v ∈ tv_Visited st →
  (deferrable current = false → e ∈ tv_Edges st) → taken D (tv_Edges st) current depth e v.
Proof.
  intros B Hv He. split; [|auto]. destruct (proj1 (b_dom _ _ _ _ B v)) as [k Hk]; [unfold enqueued; set_solver|].
  exists k. split; [done|]. by apply (b_near _ _ _ _ B v).
Qed.

(** A node that finds the budget spent: more nodes are within reach. *)
Lemma bfs_overflow D depth current e v st :
  bfs D depth (Some current) st → D !! current = Some depth → (depth < Depth)%Z → follows current e v →
  v ∉ tv_Visited st → deferrable v = false → (gt_MaxNodes traversal <= Z.of_nat (length (tv_Nodes st)))%Z → overflow.
Proof.
  intros B Hc Hd Hf Hv Hdf Hl. pose proof (b_emitted _ _ _ _ B) as [E1 E2 E3 E4 E5 E6 E7].
  exists (map ip_ID (tv_Nodes st) ++ [v]). split_and!.
  - apply NoDup_app. split_and!; [done| |apply NoDup_singleton]. intros w Hw ->%list_elem_of_singleton. by apply Hv, E3.
  - rewrite length_app, length_map. cbn. lia.
  - destruct (b_within _ _ _ _ B _ _ Hc) as [Hw Hr]. intros w [Hin| ->%list_elem_of_singleton]%elem_of_app.
    + apply E3 in Hin. destruct (proj1 (b_dom _ _ _ _ B w)) as [k Hk]; [unfold enqueued; set_solver|].
      exists k. by destruct (b_within _ _ _ _ B _ _ Hk).
    + exists (depth + 1)%Z. split; [lia|by eapply within_step].
Qed.

Lemma bfs_visit D depth current st x :
  bfs D depth (Some current) st → D !! current = Some depth → (depth < Depth)%Z → passes snapshot traversal current = true →
  x ∈ graphNeighbors current (adjacent snapshot traversal current) nodes (gt_Direction traversal) →
  let st' := visitNeighbor snapshot traversal current depth st x in
  ∃ D', D ⊆ D' ∧ bfs D' depth (Some current) st' ∧ (∀ e, e ∈ tv_Edges st → e ∈ tv_Edges st') ∧
    (tv_Truncated st' = false → tv_Truncated st = false ∧
       (passes snapshot traversal (gn_neighborID x) = true → taken D' (tv_Edges st') current depth (gn_edge x) (gn_neighborID x))).
Proof.
  intros B Hc Hd Hp Hx st'. unfold st'. clear st'. destruct (passes snapshot traversal (gn_neighborID x)) eqn:Hpn.
  2:{ rewrite visit_skipped by done. exists D. split_and!; [done|done|done|]. by intros Ht. }
  pose proof (neighbor_follows _ _ Hx Hp Hpn) as Hf. destruct (decide (gn_neighborID x ∈ tv_Visited st)) as [Hv|Hv].
  { rewrite (visit_known _ _ _ _ Hv Hpn). exists D. destruct (bool_decide _) eqn:Hcv; bool_simpl.
    - assert (bfs D depth (Some current) (set_edges (appendGraphEdge (tv_Edges st) (gn_edge x)) st)) as B' by by eapply bfs_edge.
      split_and!; [done|done|intros e He; apply elem_of_append; by left|]. intros Ht. split; [done|intros _].
      apply (bfs_taken _ _ _ _ _ _ B'); [done|]. intros _. apply elem_of_append. by right.
    - split_and!; [done|done|done|]. intros Ht. split; [done|intros _]. apply (bfs_taken _ _ _ _ _ _ B); [done|].
      intros Hcd. destruct Hcv. apply (b_visited _ _ _ _ B); eauto. }
  rewrite (visit_new _ _ _ _ Hv Hpn).
  destruct (addNode_cases snapshot traversal (gn_neighborID x) (depth + 1) false st) as
    [?|_ Hun|d _ Hdf Hs ->|_ Hdf Ha Hl|node _ Hn Hdf Ha Hl]; [done|..]; cbn [negb].
  - destruct Hun as [Hnone|[[Hdf Hs]|[Hdf Ha]]].
    + destruct (passes_known _ _ _ Hpn). congruence.
    + exists D. split_and!; [done|done|done|]. intros Ht. split; [done|intros _]. split; [|congruence].
      destruct (proj1 (b_dom _ _ _ _ B (gn_neighborID x))) as [k Hk]; [unfold enqueued; set_solver|].
      exists k. split; [done|]. by apply (b_near _ _ _ _ B (gn_neighborID x)).
    + rewrite allowedNode_false in Ha. unfold passes in Hpn. by rewrite Ha, Hdf in Hpn.
  - destruct (bfs_found D depth current (gn_edge x) (gn_neighborID x) st
      (mkTraversal (tv_Nodes st) (tv_Edges st) (tv_Visited st) (tv_Queue st ++ [(gn_neighborID x, (depth + 1)%Z)])
         (if allowedNode snapshot traversal (gn_neighborID x) false then tv_Deferred st ++ [gn_neighborID x] else tv_Deferred st)
         ({[ gn_neighborID x ]} ∪ tv_DeferredSeen st) (tv_Truncated st) (tv_BudgetExhausted st))) as [Hsub B']; try done.
    + unfold enqueued. set_solver.
    + apply (emitted_same _ _ st); [done..|]. apply B.
    + unfold enqueued. cbn. set_solver.
    + intros w ?. by left.
    + congruence.
    + exists (<[gn_neighborID x := (depth + 1)%Z]> D). split_and!; [done|done|done|]. intros Ht. split; [done|intros _]. split; [|congruence].
      exists (depth + 1)%Z. rewrite lookup_insert_eq. split; [done|lia].
  - exists D. split_and!; [done| |done|done]. pose proof (bfs_overflow _ _ _ _ _ _ B Hc Hd Hf Hv Hdf Hl) as Hover.
    destruct B as [B0 B1 B2 B3 B4 B5 B6 B7 B8 B9 B10]. split; try done. by apply (emitted_same _ _ st).
  - set (st1 := mkTraversal _ _ _ _ _ _ _ _).
    destruct (bfs_found D depth current (gn_edge x) (gn_neighborID x) st st1) as [Hsub B']; try done.
    + unfold enqueued. apply not_elem_of_union. split; [done|]. intros Hs. apply Hv. apply (b_visited _ _ _ _ B); [|done].
      apply (b_dom _ _ _ _ B). unfold enqueued. set_solver.
    + apply (emitted_node _ _ (gn_neighborID x)); [done|done|by eapply allowedNode_root|done|done|apply B].
    + unfold enqueued. cbn. set_solver.
    + cbn. intros w [->%elem_of_singleton|?]%elem_of_union; auto.
    + cbn. set_solver.
    + cbn. set_solver.
    + assert (gn_neighborID x ∈ tv_Visited st1) as Hv1 by (cbn; set_solver).
      exists (<[gn_neighborID x := (depth + 1)%Z]> D). rewrite (bool_decide_eq_true_2 (gn_neighborID x ∈ _)) by done. rewrite andb_true_r.
      assert (<[gn_neighborID x := (depth + 1)%Z]> D !! current = Some depth) as Hc' by by eapply lookup_weaken.
      destruct (bool_decide _) eqn:Hcv; bool_simpl.
      * assert (bfs (<[gn_neighborID x := (depth + 1)%Z]> D) depth (Some current) (set_edges (appendGraphEdge (tv_Edges st1) (gn_edge x)) st1))
          as B2 by by eapply bfs_edge.
        split_and!; [done|done|intros e He; apply elem_of_append; by left|]. intros Ht. split; [done|intros _].
        apply (bfs_taken _ _ _ _ _ _ B2); [done|]. intros _. apply elem_of_append. by right.
      * split_and!; [done|done|done|]. intros Ht. split; [done|intros _]. apply (bfs_taken _ _ _ _ _ _ B'); [done|].
        intros Hcd. destruct Hcv. apply (b_visited _ _ _ _ B'); eauto.
Qed.

(** The neighbours of a node, one after the other. *)
Lemma bfs_neighbors l D depth current st :
  bfs D depth (Some current) st → D !! current = Some depth → (depth < Depth)%Z → passes snapshot traversal current = true →
  (∀ x, x ∈ l → x ∈ graphNeighbors current (adjacent snapshot traversal current) nodes (gt_Direction traversal)) →
  let st' := foldl (visitNeighbor snapshot traversal current depth) st l in
  ∃ D', D ⊆ D' ∧ bfs D' depth (Some current) st' ∧ (∀ e, e ∈ tv_Edges st → e ∈ tv_Edges st') ∧
    (tv_Truncated st' = false → tv_Truncated st = false ∧
       ∀ x, x ∈ l → passes snapshot traversal (gn_neighborID x) = true → taken D' (tv_Edges st') current depth (gn_edge x) (gn_neighborID x)).
Proof.
  revert D st. induction l as [|x l IH]; intros D st B Hc Hd Hp Hl; cbn [foldl].
  { exists D. split_and!; [done|done|done|]. intros Ht. split; [done|]. by intros ? ?%not_elem_of_nil. }
  destruct (bfs_visit D depth current st x B Hc Hd Hp) as (D1 & Hs1 & B1 & He1 & Ht1); [apply Hl; by left|].
  destruct (IH D1 (visitNeighbor snapshot traversal current depth st x) B1) as (D2 & Hs2 & B2 & He2 & Ht2);
    [by eapply lookup_weaken|done|done|intros y Hy; apply Hl; by right|].
  exists D2. split_and!; [by etrans|done|auto|]. intros Ht. destruct (Ht2 Ht) as [Ht' Hall]. destruct (Ht1 Ht') as [Ht0 Hx].
  split; [done|]. intros y [->|Hy]%elem_of_cons Hpy; [|by apply Hall]. eapply taken_mono; [done|done|]. by apply Hx.
Qed.

Lemma bfs_expand D depth current st :
  bfs D depth (Some current) st → D !! current = Some depth →
  ∃ D', D ⊆ D' ∧ bfs D' depth None (expandNode snapshot traversal current depth st).
Proof.
  intros B Hc. unfold expandNode.
  assert (Hskip : (∀ e v, (depth < Depth)%Z → follows current e v → False) → ∃ D', D ⊆ D' ∧ bfs D' depth None st).
  { intros Hno. exists D. split; [done|]. destruct B as [B0 B1 B2 B3 B4 B5 B6 B7 B8 B9 B10]. split; try done. intros Ht u k Hu Hk _.
    destruct (decide (u = current)) as [->|Hne]; [|apply B9; [done|done|done|congruence]].
    assert (k = depth) as -> by congruence. intros Hlt e v Hf. by destruct (Hno e v Hlt Hf). }
  destruct (Depth <=? depth)%Z eqn:Hd; bool_simpl; [apply Hskip; lia|].
  replace (nodeExcluded _ _ _ && _) with (negb (passes snapshot traversal current))
    by (unfold passes; by rewrite negb_orb, negb_involutive).
  destruct (passes snapshot traversal current) eqn:Hp; cbn [negb]; [|apply Hskip; intros e v _ (_ & _ & _ & Hp' & _); congruence].
  destruct (bfs_neighbors (graphNeighbors current (adjacent snapshot traversal current) nodes (gt_Direction traversal)) D depth current st B Hc Hd Hp)
    as (D' & Hs & B' & He & Ht); [done|]. exists D'. split; [done|]. set (st' := foldl _ _ _) in *.
  destruct B' as [B0 B1 B2 B3 B4 B5 B6 B7 B8 B9 B10]. split; try done. intros Htr u k Hu Hk _.
  destruct (decide (u = current)) as [->|Hne]; [|apply B9; [done|done|done|congruence]].
  assert (k = depth) as -> by (pose proof (lookup_weaken _ _ _ _ Hc Hs); congruence).
  intros Hlt e v Hf. destruct (follows_neighbor _ _ _ Hf) as (x & Hx & <- & <-). apply (Ht Htr); [done|apply Hf].
Qed.
Lemma bfs_drain fuel D level st :
  bfs D level None st → ∃ D' level', D ⊆ D' ∧ bfs D' level' None (drain snapshot traversal fuel st).
Proof.
  revert D level st. induction fuel as [|fuel IH]; intros D level st B; cbn; [eauto|].
  destruct (tv_Queue st) as [|[current depth] rest] eqn:Hq; [eauto|]. destruct (bfs_pop _ _ _ _ _ _ Hq B) as [Hc B1].
  destruct (bfs_expand _ _ _ _ B1 Hc) as (D2 & Hs & B2). destruct (IH D2 depth _ B2) as (D3 & l3 & Hs3 & B3).
  exists D3, l3. split; [by etrans|done].
Qed.

(** When the queue is empty, everything within reach was found at its
    distance, unless the budget ran out. *)
Lemma bfs_complete D level st n v :
  bfs D level None st → tv_Queue st = [] → tv_Truncated st = false → D !! root = Some 0%Z → within n v → (n <= Depth)%Z →
  ∃ k, D !! v = Some k ∧ (k <= n)%Z.
Proof.
  intros B Hq Ht Hroot Hw. induction Hw as [Hk|n u v e Hw IH Hf]; intros Hn; [by exists 0%Z|].
  destruct IH as (k & Hk & Hle); [lia|]. destruct (b_done _ _ _ _ B Ht u k Hk) with (e := e) (v := v) as [(k' & Hk' & Hle') _].
  - rewrite Hq. apply not_elem_of_nil.
  - done.
  - lia.
  - done.
  - exists k'. split; [done|lia].
Qed.

(** ** A graph from one root *)

Hypothesis one_root : gt_RootIssueIDs traversal = [root].
Hypothesis explicit_root : gt_ExplicitRootID traversal = root.
Hypothesis root_known : is_Some (nodes !! root).
Hypothesis positive_budget : (1 <= gt_MaxNodes traversal)%Z.
Hypothesis positive_depth : (0 <= Depth)%Z.

Lemma root_not_deferrable : deferrable root = false.
Proof. unfold isDeferrable. rewrite explicit_root, eqb_string_refl. by rewrite andb_false_r. Qed.

Lemma rooted_search : ∃ D level,
  D !! root = Some 0%Z ∧ bfs D level None (traverseRoots snapshot traversal (gt_RootIssueIDs traversal) emptyTraversal) ∧
  tv_Queue (traverseRoots snapshot traversal (gt_RootIssueIDs traversal) emptyTraversal) = [].
Proof.
  destruct root_known as [node Hn]. rewrite one_root. cbn [traverseRoots]. rewrite explicit_root, eqb_string_refl.
  rewrite (bool_decide_eq_false_2 (root ∈ tv_Visited emptyTraversal)) by (cbn; set_solver).
  assert (allowedNode snapshot traversal root true = true) as Ha by (unfold allowedNode; by rewrite Hn, explicit_root, eqb_string_refl).
  rewrite Ha. cbn [negb andb]. pose proof (drain_empties snapshot traversal root true emptyTraversal) as Hempty.
  destruct (addNode_cases snapshot traversal root 0 true emptyTraversal) as
    [?|_ [?|[[? _]|[_ ?]]]|d _ Hdf|_ _ _ Hl|node' _ Hn' _ _ Hl].
  - cbn in *. set_solver.
  - congruence.
  - pose proof root_not_deferrable. congruence.
  - congruence.
  - pose proof root_not_deferrable. congruence.
  - cbn in Hl. lia.
  - assert (node' = node) as -> by congruence. cbn [negb andb]. cbn [snd] in Hempty. set (st1 := mkTraversal _ _ _ _ _ _ _ _) in *.
    assert (bfs {[ root := 0%Z ]} 0 None st1) as B.
    { split; cbn.
      - apply (emitted_node _ _ root node emptyTraversal); [done|cbn; set_solver|done|cbn; lia|done|apply emitted_empty].
      - intros v Hv. assert (v = root) as -> by set_solver. apply root_not_deferrable.
      - intros v. unfold enqueued. cbn. destruct (decide (v = root)) as [->|Hne].
        + rewrite lookup_singleton_eq. split; [eauto|set_solver].
        + rewrite lookup_singleton_ne by done. split; [set_solver|by intros [? ?]].
      - intros v [k Hk]. apply lookup_singleton_Some in Hk as [<- _]. set_solver.
      - intros v k [<- <-]%lookup_singleton_Some. split; [by apply within_root|lia].
      - intros v k [= -> ->]%list_elem_of_singleton. by rewrite lookup_singleton_eq.
      - by repeat constructor.
      - intros v k [<- <-]%lookup_singleton_Some. lia.
      - by intros e ?%not_elem_of_nil.
      - intros _ u k [<- <-]%lookup_singleton_Some Hni. destruct Hni. by left.
      - done. }
    destruct (bfs_drain (drainFuel snapshot) _ _ _ B) as (D & level & Hs & B'). exists D, level.
    split_and!; [eapply lookup_weaken; [|done]; apply lookup_singleton_eq|done|].
    apply Hempty; [|done]. split; [cbn; set_solver|]. cbn. set_solver.
Qed.

(** Without a preference for unfinished work nothing is put off. *)
Hypothesis no_preference : gt_PreferNonTerminal traversal = false.

Lemma nothing_deferrable id : deferrable id = false.
Proof. unfold isDeferrable. by rewrite no_preference. Qed.
Lemma one_pass : traverseGraph snapshot traversal = traverseRoots snapshot traversal (gt_RootIssueIDs traversal) emptyTraversal.
Proof.
  unfold traverseGraph. pose proof (first_pass_traverse snapshot traversal (gt_RootIssueIDs traversal)) as [_ _ Hd _].
  destruct (tv_Deferred _) as [|id rest]; [done|]. destruct (Hd id) as [Hd' _]; [by left|]. rewrite nothing_deferrable in Hd'. done.
Qed.

(** The outcome of the search: everything within reach if the budget was
    enough, and otherwise more is within reach than the budget allows. *)
Lemma rooted_outcome : let st := traverseGraph snapshot traversal in
  (tv_Truncated st = true → overflow) ∧
  (∀ v, v ∈ tv_Visited st → ∃ n, (0 <= n <= Depth)%Z ∧ within n v) ∧
  (∀ e, e ∈ tv_Edges st → ∃ u v n, (0 <= n < Depth)%Z ∧ within n u ∧ follows u e v) ∧
  (tv_Truncated st = false →
     (∀ n v, (n <= Depth)%Z → within n v → v ∈ tv_Visited st) ∧
     (∀ u e v n, (n < Depth)%Z → within n u → follows u e v → e ∈ tv_Edges st)).
Proof.
  cbv zeta. rewrite one_pass. destruct rooted_search as (D & level & Hroot & B & Hq). set (st := traverseRoots _ _ _ _) in *.
  split_and!.
  - apply (b_over _ _ _ _ B).
  - intros v Hv. destruct (proj1 (b_dom _ _ _ _ B v)) as [k Hk]; [unfold enqueued; set_solver|].
    exists k. by destruct (b_within _ _ _ _ B _ _ Hk).
  - intros e He. destruct (b_edges _ _ _ _ B e He) as (u & v & k & Hk & Hlt & Hf & _).
    destruct (b_within _ _ _ _ B _ _ Hk) as [Hw Hr]. exists u, v, k. split_and!; [lia|done|done|done|apply Hf..].
  - intros Ht. split.
    + intros n v Hn Hw. destruct (bfs_complete _ _ _ _ _ B Hq Ht Hroot Hw Hn) as (k & Hk & _).
      apply (b_visited _ _ _ _ B); [eauto|apply nothing_deferrable].
    + intros u e v n Hn Hw Hf. destruct (bfs_complete _ _ _ n u B Hq Ht Hroot Hw) as (k & Hk & Hle); [lia|].
      destruct (b_done _ _ _ _ B Ht u k Hk) with (e := e) (v := v) as [_ He].
      * rewrite Hq. apply not_elem_of_nil.
      * done.
      * lia.
      * done.
      * apply He; apply nothing_deferrable.
Qed.
End bfs.

(** ** Lemmas: the answer *)

Definition edgeSequence (nodes : gmap string IssueProjection) (id : string) : Z :=
  match nodes !! id with Some node => ip_SequenceNo node | None => 0%Z end.

Lemma graphEdgeLess_order nodes : weak_order (graphEdgeLess nodes).
Proof.
  apply (weak_order_then (λ a b, ge_Type a =s ge_Type b) (λ a b, str_less (ge_Type a) (ge_Type b))); [apply weak_order_str| |apply ties_str].
  apply (weak_order_then (λ a b, edgeSequence nodes (ge_Source a) =? edgeSequence nodes (ge_Source b))%Z
           (λ a b, edgeSequence nodes (ge_Source a) <? edgeSequence nodes (ge_Source b))%Z);
    [apply (weak_order_Z (λ a, edgeSequence nodes (ge_Source a)))| |apply (ties_Z (λ a, edgeSequence nodes (ge_Source a)))].
  apply (weak_order_then (λ a b, ge_Source a =s ge_Source b) (λ a b, str_less (ge_Source a) (ge_Source b)));
    [apply weak_order_str| |apply ties_str].
  apply (weak_order_then (λ a b, edgeSequence nodes (ge_Target a) =? edgeSequence nodes (ge_Target b))%Z
           (λ a b, edgeSequence nodes (ge_Target a) <? edgeSequence nodes (ge_Target b))%Z);
    [apply (weak_order_Z (λ a, edgeSequence nodes (ge_Target a)))| |apply (ties_Z (λ a, edgeSequence nodes (ge_Target a)))].
  apply weak_order_str.
Qed.
Lemma graphEdgeLess_ties nodes a b : ties (graphEdgeLess nodes) a b → a = b.
Proof.
  intros [H1 H2]. unfold graphEdgeLess in H1, H2. cbv zeta in H1, H2. fold (edgeSequence nodes (ge_Source a)) in H1, H2.
  fold (edgeSequence nodes (ge_Source b)) in H1, H2. fold (edgeSequence nodes (ge_Target a)) in H1, H2. fold (edgeSequence nodes (ge_Target b)) in H1, H2.
  rewrite (String.eqb_sym (ge_Type b)), (Z.eqb_sym (edgeSequence nodes (ge_Source b))), (String.eqb_sym (ge_Source b)),
    (Z.eqb_sym (edgeSequence nodes (ge_Target b))) in H2.
  destruct (ge_Type a =s ge_Type b) eqn:Et; cbn [negb] in H1, H2;
    [apply eqb_string_true in Et|apply eqb_string_false in Et; destruct Et; by apply str_less_total].
  destruct (Z.eqb_spec (edgeSequence nodes (ge_Source a)) (edgeSequence nodes (ge_Source b))) as [Eq|Eq]; cbn [negb] in H1, H2; [|apply Z.ltb_ge in H1, H2; lia].
  destruct (ge_Source a =s ge_Source b) eqn:Es; cbn [negb] in H1, H2;
    [apply eqb_string_true in Es|apply eqb_string_false in Es; destruct Es; by apply str_less_total].
  destruct (Z.eqb_spec (edgeSequence nodes (ge_Target a)) (edgeSequence nodes (ge_Target b))) as [Eq'|Eq']; cbn [negb] in H1, H2; [|apply Z.ltb_ge in H1, H2; lia].
  pose proof (str_less_total _ _ H1 H2) as Htg. destruct a, b. cbn in *. congruence.
Qed.

Section answer.
Variable snapshot : GraphSnapshot.
Variable traversal : GraphTraversal.
Notation st := (traverseGraph snapshot traversal).
Notation r := (BuildGraph snapshot traversal).

Lemma BuildGraph_parts :
  gr_Nodes r = tv_Nodes st ∧ gr_Edges r = uniqueSortedGraphEdges (tv_Edges st) (nodesByID snapshot) ∧
  gr_BlockingNodes r = List.filter (blockingSource snapshot (gr_Edges r)) (map ip_ID (tv_Nodes st)) ∧
  (gr_Truncated r = tv_Truncated st || ((0 <? gt_MaxNodes traversal)%Z &&
     (gt_MaxNodes traversal <? Z.of_nat (graphEntryPoints snapshot traversal (tv_Nodes st)).2)%Z)).
Proof. unfold BuildGraph. cbv zeta. by destruct (graphEntryPoints snapshot traversal (tv_Nodes st)). Qed.
Lemma elem_of_gr_Edges e : e ∈ gr_Edges r ↔ e ∈ tv_Edges st.
Proof. destruct BuildGraph_parts as (_ & -> & _). unfold uniqueSortedGraphEdges. apply elem_of_stable_sort. Qed.
Lemma gr_visited id : id ∈ map ip_ID (gr_Nodes r) ↔ id ∈ tv_Visited st.
Proof. destruct BuildGraph_parts as (-> & _). destruct (traverseGraph_emitted snapshot traversal) as [E _]. by rewrite (em_visited _ _ _ E). Qed.
Lemma gr_Edges_sorted : StronglySorted (λ a b, graphEdgeLess (nodesByID snapshot) a b = true) (gr_Edges r).
Proof.
  destruct BuildGraph_parts as (_ & -> & _). apply stable_sort_strict; [apply graphEdgeLess_order|apply traverseGraph_emitted|].
  intros a b _ _. apply graphEdgeLess_ties.
Qed.
Lemma gr_Edges_once : NoDup (gr_Edges r).
Proof.
  destruct BuildGraph_parts as (_ & -> & _). unfold uniqueSortedGraphEdges. rewrite stable_sort_Permutation. apply traverseGraph_emitted.
Qed.
Lemma blockingSource_spec edges id : blockingSource snapshot edges id = true ↔
  ∃ e node, e ∈ edges ∧ ge_Type e = RelationTypeBlocks ∧ ge_Source e = id ∧ nodesByID snapshot !! id = Some node ∧
    terminalStatus (ip_Status node) = false.
Proof.
  unfold blockingSource. rewrite existsb_exists. split.
  - intros (e & He%list_elem_of_In & Hb). bool_simpl. apply eqb_string_true in H, H1. subst id.
    destruct (nodesByID snapshot !! ge_Source e) as [node|] eqn:Hn; [|done]. exists e, node. split_and!; auto. by apply negb_true_iff.
  - intros (e & node & He & Ht & Hs & Hn & Hst). exists e. split; [by apply list_elem_of_In|]. by rewrite Ht, Hs, !eqb_string_refl, Hn, Hst.
Qed.
End answer.

(** * Properties *)

(** C19. A graph answers with a part of the snapshot it was asked about.  Nodes
    appear once, are allowed by the filters (only the explicit root is exempt)
    and fit the budget; edges are edges of the snapshot of the types asked
    for, between nodes of the answer, in strict order; blocking nodes are the
    unfinished sources of its blocks edges.  When unfinished work is preferred,
    a finished node other than the root is there only with an edge to a node
    that is not such a node itself. *)
Theorem BuildGraph_sound snapshot traversal :
  let r := BuildGraph snapshot traversal in
  let ids := map ip_ID (gr_Nodes r) in
  NoDup ids ∧
  (∀ node, node ∈ gr_Nodes r → node ∈ sn_Nodes snapshot ∧ allowedNode snapshot traversal (ip_ID node) true = true) ∧
  (Z.of_nat (length (gr_Nodes r)) <= Z.max 0 (gt_MaxNodes traversal))%Z ∧
  StronglySorted (λ a b, graphEdgeLess (nodesByID snapshot) a b = true) (gr_Edges r) ∧
  (∀ e, e ∈ gr_Edges r → e ∈ sn_Edges snapshot ∧ allowedType traversal (ge_Type e) = true ∧ ge_Source e ∈ ids ∧ ge_Target e ∈ ids) ∧
  (∀ id, id ∈ gr_BlockingNodes r ↔ id ∈ ids ∧ ∃ e node, e ∈ gr_Edges r ∧ ge_Type e = RelationTypeBlocks ∧ ge_Source e = id ∧
     nodesByID snapshot !! id = Some node ∧ terminalStatus (ip_Status node) = false) ∧
  (∀ id, id ∈ ids → isDeferrable snapshot traversal id = true →
     ∃ e, e ∈ gr_Edges r ∧ (ge_Source e = id ∨ ge_Target e = id) ∧ isDeferrable snapshot traversal (otherEnd id e) = false).
Proof.
  cbv zeta. pose proof (BuildGraph_parts snapshot traversal) as (Hn & _ & Hb & _).
  destruct (traverseGraph_emitted snapshot traversal) as [[E1 E2 E3 E4 E5 E6 E7] Hatt]. split_and!.
  - by rewrite Hn.
  - intros node. rewrite Hn. intros Hin. split; [by destruct (nodesByID_spec _ _ _ (E1 node Hin))|].
    apply E4, E3. by apply list_elem_of_fmap_2.
  - by rewrite Hn.
  - apply gr_Edges_sorted.
  - intros e He%elem_of_gr_Edges. destruct (E6 e He) as (? & Hu & ? & ?). unfold usable in Hu. bool_simpl. rewrite !gr_visited. done.
  - intros id. rewrite Hb, elem_of_filter_list, blockingSource_spec, Hn. done.
  - intros id Hid%gr_visited Hd. destruct (Hatt id Hid Hd) as (e & He & ? & ?). exists e. by rewrite elem_of_gr_Edges.
Qed.

(** The traversal of [get_issue_graph]. *)
Record issue_traversal (root : string) (traversal : GraphTraversal) : Prop := {
  it_roots : gt_RootIssueIDs traversal = [root];
  it_explicit : gt_ExplicitRootID traversal = root;
  it_preference : gt_PreferNonTerminal traversal = false;
  it_budget : (1 <= gt_MaxNodes traversal)%Z;
  it_depth : (0 <= gt_Depth traversal)%Z;
}.

(** C18. An issue graph is the neighbourhood of its root.  If it is not marked
    truncated its nodes are exactly the nodes at most [depth] steps away, and
    its edges exactly those of a step from a node less than [depth] steps away;
    it is marked truncated exactly if more nodes than the budget are within
    [depth] steps. *)
Theorem issue_graph_exact snapshot traversal root :
  issue_traversal root traversal → is_Some (nodesByID snapshot !! root) →
  let r := BuildGraph snapshot traversal in
  let reached v := ∃ n, (0 <= n <= gt_Depth traversal)%Z ∧ within snapshot traversal root n v in
  (gr_Truncated r = true ↔
     ∃ ids, NoDup ids ∧ (gt_MaxNodes traversal < Z.of_nat (length ids))%Z ∧ ∀ v, v ∈ ids → reached v) ∧
  (gr_Truncated r = false →
     (∀ v, v ∈ map ip_ID (gr_Nodes r) ↔ reached v) ∧
     (∀ e, e ∈ gr_Edges r ↔ ∃ u v n, (0 <= n < gt_Depth traversal)%Z ∧ within snapshot traversal root n u ∧ follows snapshot traversal u e v)).
Proof.
  intros [I1 I2 I3 I4 I5] Hroot r reached. pose proof (rooted_outcome snapshot traversal root I1 I2 Hroot I4 I5 I3) as (Hover & Hn & He & Hall).
  assert (Htr : gr_Truncated r = tv_Truncated (traverseGraph snapshot traversal)).
  { unfold r. destruct (BuildGraph_parts snapshot traversal) as (_ & _ & _ & ->). unfold graphEntryPoints. rewrite I3. cbn [snd].
    rewrite (proj2 (Z.ltb_ge (gt_MaxNodes traversal) _)); [by rewrite andb_false_r, orb_false_r|].
    destruct (traverseGraph_emitted snapshot traversal) as [E _]. pose proof (em_bound _ _ _ E).
    rewrite length_map. pose proof (filter_length_le entryPointNode (tv_Nodes (traverseGraph snapshot traversal))). lia. }
  assert (Hcomplete : tv_Truncated (traverseGraph snapshot traversal) = false → ∀ v, v ∈ map ip_ID (gr_Nodes r) ↔ reached v).
  { intros Ht. destruct (Hall Ht) as [Hin _]. intros v. unfold r. rewrite gr_visited. split; [apply Hn|]. intros (n & Hr & Hw). by apply (Hin n); [lia|]. }
  rewrite Htr. split.
  - split; [done|]. intros (ids & Hnd & Hlen & Hids). apply not_false_iff_true. intros Ht.
    assert (length ids ≤ length (map ip_ID (gr_Nodes r))) as Hle.
    { apply submseteq_length, NoDup_submseteq; [done|]. intros v Hv. by apply (Hcomplete Ht), Hids. }
    destruct (BuildGraph_sound snapshot traversal) as (_ & _ & Hb & _). rewrite length_map in Hle. unfold r in Hle. lia.
  - intros Ht. split; [by apply Hcomplete|]. intros e. unfold r. rewrite elem_of_gr_Edges. split; [apply He|].
    intros (u & v & n & Hr & Hw & Hf). destruct (Hall Ht) as [_ Hedge]. by apply (Hedge u e v n); [lia|..].
Qed.

(** ** Samples *)

Definition graphTestNode (id : string) (sequence : Z) (status : string) : IssueProjection :=
  mkIssueProjection
    (mkIssue id "" sequence TypeTask "" None None status "" None None 0 None 0 0 None None None [])
    status 0 false (status =s StatusReady) None.
Definition graphOf (nodes : list IssueProjection) (edges : list GraphEdge) : GraphSnapshot :=
  mkGraphSnapshot None [] nodes edges None [] None.
Definition sampleGraph : GraphSnapshot :=
  graphOf [graphTestNode "a" 1 StatusReady; graphTestNode "b" 2 StatusReady; graphTestNode "c" 3 StatusReady; graphTestNode "d" 4 StatusReady]
    [mkGraphEdge "a" "c" RelationTypeBlocks; mkGraphEdge "a" "b" RelationTypeBlocks; mkGraphEdge "b" "a" RelationTypeRelatedTo;
     mkGraphEdge "c" "d" RelationTypeBlocks].
Definition sampleTraversal (depth budget : Z) : GraphTraversal :=
  mkGraphTraversal ["a"] "a" depth budget GraphDirectionOutgoing [RelationTypeBlocks; RelationTypeRelatedTo] false true false false.
Definition planningTraversal (roots : list string) (depth budget : Z) : GraphTraversal :=
  mkGraphTraversal roots "" depth budget GraphDirectionBoth [RelationTypeBlocks] true true false true.

(** As in graph_test.go. *)
Example sample_graph :
  let r := BuildGraph sampleGraph (sampleTraversal 2 4) in
  map ip_ID (gr_Nodes r) = ["a"; "b"; "c"; "d"] ∧ length (gr_Edges r) = 4 ∧ gr_Truncated r = false.
Proof. by vm_compute. Qed.
Example sample_graph_limited :
  let r := BuildGraph sampleGraph (sampleTraversal 2 2) in
  map ip_ID (gr_Nodes r) = ["a"; "b"] ∧ length (gr_Edges r) = 2 ∧ gr_TruncationReason r = Some "node_limit".
Proof. by vm_compute. Qed.

(** With the budget just used up, a finished issue that no budget would admit
    marks the planning graph truncated: twice the budget gives the same nodes. *)
Definition unattachedGraph : GraphSnapshot := graphOf [graphTestNode "a" 1 StatusReady; graphTestNode "z" 2 StatusDone] [].
Example unattached_marks_truncated :
  let r budget := BuildGraph unattachedGraph (planningTraversal ["a"; "z"] 3 budget) in
  map ip_ID (gr_Nodes (r 1%Z)) = ["a"] ∧ gr_Truncated (r 1%Z) = true ∧
  map ip_ID (gr_Nodes (r 2%Z)) = ["a"] ∧ gr_Truncated (r 2%Z) = false.
Proof. by vm_compute. Qed.

(** A root that another root reaches at the depth limit is never expanded: the
    child of the epic [d] is one step from a root and missing, and the graph is
    not marked truncated. *)
Definition limitGraph : GraphSnapshot :=
  graphOf [graphTestNode "a" 1 StatusOpen; graphTestNode "b" 2 StatusOpen; graphTestNode "c" 3 StatusOpen; graphTestNode "d" 4 StatusOpen;
           graphTestNode "child" 5 StatusReady]
    [mkGraphEdge "a" "b" RelationTypeBlocks; mkGraphEdge "b" "c" RelationTypeBlocks; mkGraphEdge "c" "d" RelationTypeBlocks;
     mkGraphEdge "d" "child" "contains"].
Example root_at_limit_not_expanded :
  let r := BuildGraph limitGraph (planningTraversal ["a"; "b"; "c"; "d"] 3 100) in
  map ip_ID (gr_Nodes r) = ["a"; "b"; "c"; "d"] ∧ gr_Truncated r = false ∧ gr_EntryPoints r = ["child"] ∧
  map ip_ID (gr_Nodes (BuildGraph limitGraph (planningTraversal ["d"] 3 100))) = ["d"; "c"; "child"; "b"; "a"].
Proof. by vm_compute. Qed.

Example issue_graph_exact_witness :
  (∀ v, v ∈ ["a"; "b"; "c"] ↔ ∃ n, (0 <= n <= 1)%Z ∧ within sampleGraph (sampleTraversal 1 4) "a" n v) ∧
  ∃ ids, NoDup ids ∧ 2 < length ids ∧ ∀ v, v ∈ ids → ∃ n, (0 <= n <= 2)%Z ∧ within sampleGraph (sampleTraversal 2 2) "a" n v.
Proof.
  split.
  - destruct (issue_graph_exact sampleGraph (sampleTraversal 1 4) "a") as [_ Hall]; [by split|eexists; by vm_compute|].
    destruct Hall as [Hn _]; [by vm_compute|]. exact Hn.
  - destruct (issue_graph_exact sampleGraph (sampleTraversal 2 2) "a") as [[Hover _] _]; [by split|eexists; by vm_compute|].
    destruct Hover as (ids & Hnd & Hlen & Hids); [by vm_compute|]. exists ids. split_and!; [done|cbn in Hlen; lia|exact Hids].
Defined.
