(* ===== verification/GraphStore.v ===== *)
(** * Graphs of the store

    [internal/adapters/sqlite/graphs.go] and
    [internal/application/graph_service.go]: the candidates a graph is built
    from, and the two graph tools.

    [LoadGraph] has two modes.  Without a traversal it loads every live issue
    and relation ([fullGraph]).  With one it loads only the candidates a root
    can reach, level by level ([loadFrontier]), builds the graph on what little
    the traversal looks at ([metadataNode]), loads the nodes that were kept in
    full and builds it again.  [selected_graph_is_full] shows that the second
    mode answers like the first.  Statistics are left out. *)

From S2P Require Import Prelude GoStrings Errors Validation Samples Issue Relation Session IssueOps.
From S2P Require Import Discussion Resource Attempt AttemptPolicy Gates Store Schema ReservationStore.
From S2P Require Import GateStore ReviewStore Termination ReviewOps AttemptStore Footprint.
From S2P Require Import RelationStore IssueStore PolicyStore EvidenceStore DiscussionStore SessionStore.
From S2P Require Import Plan PlanStore PlanCheck PlanApply Place Lifecycle Scenario Records Board Orders Graph.

(** ** Candidates *)

Definition liveIssue (s : Store) (id : string) : bool :=
  match st_issues s !! id with Some issue => negb (isSet (i_ArchivedAt issue)) | None => false end.
Definition liveIssues (s : Store) : list Issue := List.filter (λ issue, negb (isSet (i_ArchivedAt issue))) (rows s).

(** The relations between live issues, and the children of live epics. *)
Definition relationEdges (s : Store) : list GraphEdge :=
  map (λ rel, mkGraphEdge (rel_SourceIssueID rel) (rel_TargetIssueID rel) (rel_Type rel))
    (List.filter (λ rel, liveIssue s (rel_SourceIssueID rel) && liveIssue s (rel_TargetIssueID rel)) (rows s)).
Definition hierarchyEdges (s : Store) : list GraphEdge :=
  concat (map (λ child, match i_ParentID child with
                        | Some parent => if liveIssue s parent then [mkGraphEdge parent (i_ID child) "contains"] else []
                        | None => []
                        end) (liveIssues s)).

(** The projection leaves the long texts out. *)
Definition withoutTexts (i : Issue) : Issue :=
  mkIssue (i_ID i) (i_DisplayID i) (i_SequenceNo i) (i_Type i) (i_Title i) None None (i_Status i) (i_Priority i) (i_ParentID i)
    (i_BlockedReason i) (i_Version i) (i_CreatedBySessionID i) (i_CreatedAt i) (i_UpdatedAt i) (i_ClosedAt i) (i_ArchivedAt i)
    (i_ArchivedBySessionID i) (i_Labels i).
Definition graphProjection (now : Z) (s : Store) (i : Issue) : IssueProjection := issueProjection (withoutTexts i) now s.

(** [ORDER BY sequence_no ASC, id ASC]. *)
Definition nodeLess (a b : IssueProjection) : bool :=
  if negb (ip_SequenceNo a =? ip_SequenceNo b)%Z then (ip_SequenceNo a <? ip_SequenceNo b)%Z else str_less (ip_ID a) (ip_ID b).
Definition topLevelIDs (nodes : list IssueProjection) : list string :=
  map ip_ID (List.filter (λ node, negb (isSet (i_ParentID (ip_Issue node)))) nodes).

Definition fullGraph (root : option string) (now : Z) (s : Store) : GraphSnapshot :=
  let nodes := stable_sort nodeLess (map (graphProjection now s) (liveIssues s)) in
  let byID := nodesByID (mkGraphSnapshot None [] nodes [] None [] None) in
  mkGraphSnapshot root (topLevelIDs nodes) nodes
    (stable_sort (graphEdgeLess byID) (relationEdges s) ++ stable_sort (graphEdgeLess byID) (hierarchyEdges s)) None [] None.

(** *** The candidates of a root *)

(** What the traversal looks at: [id], [sequence_no], [status], [parent_id]. *)
Definition metadataNode (i : Issue) : IssueProjection :=
  mkIssueProjection
    (mkIssue (i_ID i) "" (i_SequenceNo i) "" "" None None (i_Status i) "" (i_ParentID i) None 0 None 0 0 None None None [])
    "" 0 false false None.

(** The identifiers of a query, 500 at a time. *)
Fixpoint batchesOf (fuel : nat) (ids : list string) : list (list string) :=
  match fuel, ids with
  | S fuel, _ :: _ => take 500 ids :: batchesOf fuel (drop 500 ids)
  | _, _ => []
  end.
Definition batches (ids : option (list string)) : list (option (list string)) :=
  match ids with None => [None] | Some ids => map Some (batchesOf (length ids) ids) end.
Definition inBatch (batch : option (list string)) (id : string) : bool :=
  match batch with None => true | Some ids => bool_decide (id ∈ ids) end.

Definition loadGraphMetadata (ids : option (list string)) (s : Store) (known : gmap string IssueProjection) : gmap string IssueProjection :=
  foldl (λ known batch,
    foldl (λ known issue, <[i_ID issue := metadataNode issue]> known) known
      (List.filter (λ issue, inBatch batch (i_ID issue)) (liveIssues s))) known (batches ids).

(** One side of the WHERE clause of [loadGraphTopology]. *)
Definition topologyClause (traversal : GraphTraversal) (frontier hierarchy incoming : bool) (batch : list string) (e : GraphEdge) : bool :=
  let wrongDirection := frontier && ((negb incoming && (gt_Direction traversal =s GraphDirectionIncoming)) ||
                                     (incoming && (gt_Direction traversal =s GraphDirectionOutgoing))) in
  let matched := bool_decide ((if incoming then ge_Target e else ge_Source e) ∈ batch) in
  if wrongDirection then negb hierarchy && matched && (ge_Type e =s RelationTypeRelatedTo) else matched.
Definition topologySelected (traversal : GraphTraversal) (frontier hierarchy : bool) (batch : option (list string)) (e : GraphEdge) : bool :=
  match batch with
  | None => true
  | Some batch => topologyClause traversal frontier hierarchy false batch e ||
                  (frontier && topologyClause traversal frontier hierarchy true batch e)
  end.

Definition loadGraphTopology (ids : option (list string)) (traversal : GraphTraversal) (frontier : bool) (s : Store) : list GraphEdge :=
  concat (map (λ batch,
    (if null (gt_RelationTypes traversal) then []
     else List.filter (λ e, bool_decide (ge_Type e ∈ gt_RelationTypes traversal) && topologySelected traversal frontier false batch e)
            (relationEdges s)) ++
    (if gt_IncludeHierarchy traversal then List.filter (topologySelected traversal frontier true batch) (hierarchyEdges s) else []))
    (batches ids)).

(** The nodes of a level that the traversal goes through. *)
Definition expands (traversal : GraphTraversal) (known : gmap string IssueProjection) (id : string) : bool :=
  let status := match known !! id with Some node => ip_Status node | None => "" end in
  let terminal := terminalStatus status in
  let deferred := terminal && gt_PreferNonTerminal traversal && negb (id =s gt_ExplicitRootID traversal) in
  negb ((negb (gt_IncludeTerminal traversal) && terminal && negb deferred) ||
        (gt_ExcludeReview traversal && (status =s StatusReview))).

Fixpoint loadFrontier (depth : nat) (traversal : GraphTraversal) (frontier : list string) (s : Store)
    (known : gmap string IssueProjection) : gmap string IssueProjection :=
  match depth with
  | O => known
  | S depth =>
      let expand := List.filter (expands traversal known) frontier in
      if null frontier || null expand then known
      else
        let edges := loadGraphTopology (Some expand) traversal true s in
        let next : gset string :=
          foldl (λ next e, foldl (λ next id, if isSet (known !! id) then next else {[ id ]} ∪ next) next [ge_Source e; ge_Target e])
            ∅ edges in
        let frontier := elements next in
        loadFrontier depth traversal frontier s (if null frontier then known else loadGraphMetadata (Some frontier) s known)
  end.

(** *** The graph on the candidates *)

Definition entryPointIssue (now : Z) (s : Store) (traversal : GraphTraversal) (i : Issue) : bool :=
  ip_IsClaimable (issueProjection i now s) && negb (terminalStatus (i_Status i)) &&
  negb (gt_ExcludeReview traversal && (i_Status i =s StatusReview)).
Definition planningEntryPoints (now : Z) (s : Store) (traversal : GraphTraversal) : list Issue :=
  List.filter (entryPointIssue now s traversal) (liveIssues s).

Definition withNodes (nodes : list IssueProjection) (sn : GraphSnapshot) : GraphSnapshot :=
  mkGraphSnapshot (sn_RootIssueID sn) (sn_TopLevelIssueIDs sn) nodes (sn_Edges sn) (sn_SelectedResult sn)
    (sn_PlanningEntryPoints sn) (sn_PlanningEntryPointCount sn).
Definition withResult (r : GraphResult) (sn : GraphSnapshot) : GraphSnapshot :=
  mkGraphSnapshot (sn_RootIssueID sn) (sn_TopLevelIssueIDs sn) (sn_Nodes sn) (sn_Edges sn) (Some r)
    (sn_PlanningEntryPoints sn) (sn_PlanningEntryPointCount sn).
Definition withRoots (roots : list string) (explicit : string) (t : GraphTraversal) : GraphTraversal :=
  mkGraphTraversal roots explicit (gt_Depth t) (gt_MaxNodes t) (gt_Direction t) (gt_RelationTypes t) (gt_IncludeHierarchy t)
    (gt_IncludeTerminal t) (gt_ExcludeReview t) (gt_PreferNonTerminal t).

(** The candidates and the traversal they are for. *)
Definition candidateNodes (root : option string) (traversal : GraphTraversal) (s : Store) : gmap string IssueProjection :=
  match root with
  | None => loadGraphMetadata None s ∅
  | Some id => loadFrontier (Z.to_nat (gt_Depth traversal)) (withRoots [id] id traversal) [id] s (loadGraphMetadata (Some [id]) s ∅)
  end.
Definition candidateGraph (root : option string) (traversal : GraphTraversal) (now : Z) (s : Store) : GraphTraversal * GraphSnapshot :=
  let known := candidateNodes root traversal s in
  let nodes := stable_sort nodeLess (map snd (map_to_list known)) in
  let traversal := match root with
                   | None => withRoots (topLevelIDs nodes) (gt_ExplicitRootID traversal) traversal
                   | Some id => withRoots [id] id traversal
                   end in
  let edges :=
    if negb (isSet root) || (0 <? gt_Depth traversal)%Z then
      List.filter (λ e, isSet (known !! ge_Source e) && isSet (known !! ge_Target e))
        (loadGraphTopology (match root with Some _ => Some (map fst (map_to_list known)) | None => None end) traversal false s)
    else [] in
  let entryPoints := planningEntryPoints now s traversal in
  (traversal,
   mkGraphSnapshot root (topLevelIDs nodes) nodes edges None
     (if gt_PreferNonTerminal traversal
      then map ip_ID (take (Z.to_nat (gt_MaxNodes traversal)) (stable_sort nodeLess (map metadataNode entryPoints))) else [])
     (if gt_PreferNonTerminal traversal then Some (length entryPoints) else None)).

(** The retained nodes, loaded in full. *)
Definition hydrate (retained : list IssueProjection) (now : Z) (s : Store) (node : IssueProjection) : IssueProjection :=
  if bool_decide (ip_ID node ∈ map ip_ID retained) then
    match st_issues s !! ip_ID node with
    | Some issue => if isSet (i_ArchivedAt issue) then node else graphProjection now s issue
    | None => node
    end
  else node.

Definition loadSelectedGraph (root : option string) (traversal : GraphTraversal) (now : Z) (s : Store) : GraphSnapshot :=
  let '(traversal, candidates) := candidateGraph root traversal now s in
  let selected := BuildGraph candidates traversal in
  let snapshot := withNodes (map (hydrate (gr_Nodes selected) now s) (sn_Nodes candidates)) candidates in
  withResult (BuildGraph snapshot traversal) snapshot.

(** *** [LoadGraph] *)

Section service.
Context `{UnicodeTables, ULID}.

Definition loadGraphRoot (identifier : IssueIdentifier) (s : Store) : result (string * bool) :=
  match findIssue identifier s with
  | None => Err (NewError CodeIssueNotFound "issue not found" false [])
  | Some issue => Ok (i_ID issue, isSet (i_ArchivedAt issue))
  end.

Definition LoadGraph (root : option IssueIdentifier) (traversal : option GraphTraversal) (now : Z) (s : Store) : result GraphSnapshot :=
  root ← match root return result (option string) with
         | None => Ok None
         | Some identifier =>
             match loadGraphRoot identifier s with
             | Err e => Err e
             | Ok (id, archived) =>
                 fail_if archived with NewError CodeIssueArchived "issue is archived" false [] ;;
                 Ok (Some id)
             end
         end;
  Ok (match traversal with
      | None => fullGraph root now s
      | Some traversal => loadSelectedGraph root traversal now s
      end).

(** ** The graph tools *)

Definition normalizedRootIDs (snapshot : GraphSnapshot) : list string :=
  match sn_RootIssueID snapshot with None => [] | Some id => [id] end.
Definition dereference (value : option string) : string := default "" value.

Definition issueGraphTraversal (input : GetIssueGraphInput) : GraphTraversal :=
  mkGraphTraversal [] "" (default 0%Z (gg_Depth input)) (default 0%Z (gg_MaxNodes input)) (gg_Direction input) (gg_RelationTypes input)
    (default false (gg_IncludeHierarchy input)) (default false (gg_IncludeTerminal input)) false false.

Definition GetIssueGraph (input : GetIssueGraphInput) (now : Z) (s : Store) : result GraphResult :=
  normalized ← GetIssueGraphInput_Validate input;
  identifier ← ParseIssueIdentifier (gg_RootIssueID normalized);
  let traversal := issueGraphTraversal normalized in
  snapshot ← LoadGraph (Some identifier) (Some traversal) now s;
  match sn_SelectedResult snapshot with
  | Some result => Ok result
  | None => Ok (BuildGraph snapshot (withRoots (normalizedRootIDs snapshot) (dereference (sn_RootIssueID snapshot)) traversal))
  end.

Definition planningGraphTraversal (input : GetPlanningGraphInput) : GraphTraversal :=
  mkGraphTraversal [] "" (default 0%Z (pg_Depth input)) (default 0%Z (pg_MaxNodes input)) GraphDirectionBoth
    (RelationTypeBlocks :: if default false (pg_IncludeRelated input) then [RelationTypeRelatedTo] else [])
    true (default false (pg_IncludeTerminal input)) (negb (default false (pg_IncludeReview input))) true.

Definition GetPlanningGraph (input : GetPlanningGraphInput) (now : Z) (s : Store) : result GraphResult :=
  normalized ← GetPlanningGraphInput_Validate input;
  identifier ← match pg_RootIssueID normalized return result (option IssueIdentifier) with
               | None => Ok None
               | Some root => identifier ← ParseIssueIdentifier root; Ok (Some identifier)
               end;
  let traversal := planningGraphTraversal normalized in
  snapshot ← LoadGraph identifier (Some traversal) now s;
  match sn_SelectedResult snapshot with
  | Some result => Ok result
  | None =>
      let roots := match sn_RootIssueID snapshot with
                   | Some _ => normalizedRootIDs snapshot
                   | None => sn_TopLevelIssueIDs snapshot
                   end in
      Ok (BuildGraph snapshot (withRoots roots (dereference (sn_RootIssueID snapshot)) traversal))
  end.
End service.

(** ** Lemmas: part of a snapshot *)

Section part.
Variables (part whole : GraphSnapshot) (traversal : GraphTraversal) (root : string).
Notation Depth := (gt_Depth traversal).

(** Two snapshots show a node alike when the traversal cannot tell them apart. *)
Hypothesis part_nodes : ∀ id node, nodesByID part !! id = Some node →
  ∃ node', nodesByID whole !! id = Some node' ∧ ip_Status node = ip_Status node'.
Hypothesis part_edges : ∀ e, e ∈ sn_Edges part → e ∈ sn_Edges whole.
Hypothesis part_closed : ∀ e, (0 < Depth)%Z → e ∈ sn_Edges whole → allowedType traversal (ge_Type e) = true →
  is_Some (nodesByID part !! ge_Source e) → is_Some (nodesByID part !! ge_Target e) → e ∈ sn_Edges part.
Hypothesis part_reached : ∀ n v, (n <= Depth)%Z → within whole traversal root n v → is_Some (nodesByID part !! v).
Hypothesis depth_nonneg : (0 <= Depth)%Z.

Lemma part_known id : is_Some (nodesByID part !! id) → is_Some (nodesByID whole !! id).
Proof. intros [node Hn]. destruct (part_nodes _ _ Hn) as (node' & ? & _). eauto. Qed.
Lemma part_deferrable id : is_Some (nodesByID part !! id) → isDeferrable part traversal id = isDeferrable whole traversal id.
Proof.
  intros [node Hn]. destruct (part_nodes _ _ Hn) as (node' & Hn' & Hs). unfold isDeferrable, isTerminalNode. by rewrite Hn, Hn', Hs.
Qed.
Lemma part_passes id : is_Some (nodesByID part !! id) → passes part traversal id = passes whole traversal id.
Proof.
  intros Hk. pose proof (part_deferrable id Hk) as Hd. destruct Hk as [node Hn]. destruct (part_nodes _ _ Hn) as (node' & Hn' & Hs).
  unfold passes. rewrite Hd. unfold nodeExcluded. by rewrite Hn, Hn', Hs.
Qed.
Lemma part_follows u e v : follows part traversal u e v → follows whole traversal u e v.
Proof.
  intros (He & Hv & Hne & Hu & Hp). apply elem_of_adjacent in He as (He & Hus & Hends). unfold usable in Hus. bool_simpl.
  assert (usable whole traversal e = true) as Hus.
  { unfold usable. repeat match goal with H : isSet _ = true |- _ => apply isSet_true, part_known, isSet_true in H end.
    by rewrite !andb_true_iff. }
  split_and!; [|done|done|..].
  - apply elem_of_adjacent. auto.
  - rewrite <-part_passes; [done|by eapply passes_known].
  - rewrite <-part_passes; [done|by eapply passes_known].
Qed.
Lemma part_follows_back u e v : (0 < Depth)%Z → is_Some (nodesByID part !! u) → is_Some (nodesByID part !! v) →
  follows whole traversal u e v → follows part traversal u e v.
Proof.
  intros Hd Hu Hv (He & Hn & Hne & Hpu & Hpv). apply elem_of_adjacent in He as (He & Hus & Hends).
  assert (is_Some (nodesByID part !! ge_Source e) ∧ is_Some (nodesByID part !! ge_Target e)) as [H1 H2].
  { destruct (neighborOf_ends _ _ _ _ Hn Hne) as [[-> ->]|[-> ->]]; auto. }
  unfold usable in Hus. bool_simpl. split_and!; [|done|done|by rewrite part_passes|by rewrite part_passes].
  apply elem_of_adjacent. split_and!; [by apply part_closed| |done]. unfold usable. rewrite !andb_true_iff. split_and!; [done|by apply isSet_true..].
Qed.

Lemma part_within n v : (n <= Depth)%Z → within part traversal root n v ↔ within whole traversal root n v.
Proof.
  intros Hn. split.
  - induction 1 as [Hk|n u v e Hw IH Hf]; [apply within_root; by apply part_known|].
    eapply within_step; [apply IH; lia|by apply part_follows].
  - intros Hw. assert (Hrev : ∀ n v, within whole traversal root n v → (0 <= n)%Z) by (induction 1; lia).
    induction Hw as [Hk|n u v e Hw IH Hf]; [apply within_root; apply (part_reached 0); [lia|by apply within_root]|].
    assert (0 <= n)%Z by by eapply Hrev.
    eapply within_step; [apply IH; lia|]. apply part_follows_back; [lia|by apply (part_reached n); [lia|]| |done].
    apply (part_reached (n + 1)); [lia|]. by eapply within_step.
Qed.

(** The graph of the part is the graph of the whole. *)
Hypothesis root_traversal : issue_traversal root traversal.
Hypothesis part_root : is_Some (nodesByID part !! root).

Lemma part_truncated : gr_Truncated (BuildGraph part traversal) = gr_Truncated (BuildGraph whole traversal).
Proof.
  apply eq_true_iff_eq. destruct (issue_graph_exact part traversal root root_traversal part_root) as [-> _].
  destruct (issue_graph_exact whole traversal root root_traversal (part_known _ part_root)) as [-> _].
  split; intros (ids & Hnd & Hlen & Hids); exists ids; (split_and!; [done|done|]); intros v Hv; destruct (Hids v Hv) as (n & Hr & Hw);
    exists n; (split; [done|]); apply part_within; [lia|done|lia|done].
Qed.
Lemma part_ids v : gr_Truncated (BuildGraph whole traversal) = false →
  v ∈ map ip_ID (gr_Nodes (BuildGraph part traversal)) ↔ v ∈ map ip_ID (gr_Nodes (BuildGraph whole traversal)).
Proof.
  intros Ht. destruct (issue_graph_exact part traversal root root_traversal part_root) as [_ Hp].
  destruct (issue_graph_exact whole traversal root root_traversal (part_known _ part_root)) as [_ Hw].
  rewrite part_truncated in Hp. destruct (Hp Ht) as [-> _]. destruct (Hw Ht) as [-> _].
  split; intros (n & Hr & Hn); exists n; (split; [done|]); apply part_within; [lia|done|lia|done].
Qed.
Lemma part_gr_edges e : gr_Truncated (BuildGraph whole traversal) = false →
  e ∈ gr_Edges (BuildGraph part traversal) ↔ e ∈ gr_Edges (BuildGraph whole traversal).
Proof.
  intros Ht. destruct (issue_graph_exact part traversal root root_traversal part_root) as [_ Hp].
  destruct (issue_graph_exact whole traversal root root_traversal (part_known _ part_root)) as [_ Hw].
  rewrite part_truncated in Hp. destruct (Hp Ht) as [_ ->]. destruct (Hw Ht) as [_ ->]. split.
  - intros (u & v & n & Hr & Hn & Hf). exists u, v, n. split; [done|]. split; [apply part_within; [lia|done]|by apply part_follows].
  - intros (u & v & n & Hr & Hn & Hf). exists u, v, n. split; [done|]. split; [apply part_within; [lia|done]|].
    apply part_follows_back; [lia|by apply (part_reached n); [lia|]| |done]. apply (part_reached (n + 1)); [lia|]. by eapply within_step.
Qed.
End part.

(** ** Lemmas: the tables *)

Section store.
Variables (s : Store) (now : Z).
Hypothesis issues_ok : table_ok Issue s.
Hypothesis relations_ok : table_ok IssueRelation s.

Lemma elem_of_liveIssues i : i ∈ liveIssues s ↔ st_issues s !! i_ID i = Some i ∧ i_ArchivedAt i = None.
Proof.
  destruct issues_ok as [Hk _]. unfold liveIssues. rewrite elem_of_filter_list, elem_of_rows, negb_true_iff, isSet_false. split.
  - intros [[id Hi] ?]. split; [|done]. pose proof (Hk id i Hi) as Hid. cbn in Hid. by rewrite Hid.
  - intros [Hi ?]. split; [by exists (i_ID i)|done].
Qed.
Lemma liveIssue_spec id : liveIssue s id = true ↔ ∃ i, i ∈ liveIssues s ∧ i_ID i = id.
Proof.
  unfold liveIssue. split.
  - destruct (st_issues s !! id) as [i|] eqn:Hi; [|done]. intros Ha. exists i. destruct issues_ok as [Hk _].
    pose proof (Hk id i Hi) as Hid. cbn in Hid. split; [|done]. apply elem_of_liveIssues. rewrite Hid. by rewrite negb_true_iff, isSet_false in Ha.
  - intros (i & (Hi & Ha)%elem_of_liveIssues & <-). by rewrite Hi, Ha.
Qed.
Lemma liveIssues_inj i j : i ∈ liveIssues s → j ∈ liveIssues s → i_ID i = i_ID j → i = j.
Proof. intros (Hi & _)%elem_of_liveIssues (Hj & _)%elem_of_liveIssues Heq. rewrite Heq in Hi. congruence. Qed.
Lemma liveIssues_distinct : NoDup (map i_ID (liveIssues s)).
Proof.
  destruct issues_ok as [Hk _]. pose proof (rows_nodup_ids (R := Issue) s Hk) as Hnd. unfold liveIssues. revert Hnd.
  generalize (rows (R := Issue) s). intros l. induction l as [|i l IH]; [done|]. cbn. intros [Hni Hnd]%NoDup_cons.
  destruct (negb _); [|by apply IH]. cbn. apply NoDup_cons. split; [|by apply IH].
  intros (j & Heq & [Hj _]%elem_of_filter_list)%list_elem_of_fmap. apply Hni. apply list_elem_of_fmap. by exists j.
Qed.

(** *** The full snapshot *)

Lemma full_nodes root id node : nodesByID (fullGraph root now s) !! id = Some node ↔
  ∃ i, i ∈ liveIssues s ∧ i_ID i = id ∧ node = graphProjection now s i.
Proof.
  assert (Hin : ∀ node, node ∈ sn_Nodes (fullGraph root now s) ↔ ∃ i, i ∈ liveIssues s ∧ node = graphProjection now s i).
  { intros n. unfold fullGraph. cbv zeta. cbn [sn_Nodes]. rewrite elem_of_stable_sort, list_elem_of_fmap. naive_solver. }
  split.
  - intros [<- (i & Hi & ->)%Hin]%nodesByID_spec. by exists i.
  - intros (i & Hi & <- & ->). apply (nodesByID_distinct _ (graphProjection now s i)); [|apply Hin; eauto].
    unfold fullGraph. cbv zeta. cbn [sn_Nodes]. rewrite (stable_sort_Permutation nodeLess), map_map. exact liveIssues_distinct.
Qed.
Lemma full_known root id : is_Some (nodesByID (fullGraph root now s) !! id) ↔ liveIssue s id = true.
Proof.
  rewrite liveIssue_spec. split; [intros [? (i & ? & ? & _)%full_nodes]; eauto|intros (i & ? & ?); eexists; apply full_nodes; eauto].
Qed.
Lemma full_edges root e : e ∈ sn_Edges (fullGraph root now s) ↔ e ∈ relationEdges s ∨ e ∈ hierarchyEdges s.
Proof. unfold fullGraph. cbv zeta. cbn [sn_Edges]. by rewrite elem_of_app, !elem_of_stable_sort. Qed.

Lemma elem_of_relationEdges e : e ∈ relationEdges s →
  liveIssue s (ge_Source e) = true ∧ liveIssue s (ge_Target e) = true ∧ RelationType_Valid (ge_Type e) = true.
Proof.
  unfold relationEdges. intros (rel & -> & [Hrel Hl]%elem_of_filter_list)%list_elem_of_fmap. bool_simpl. cbn. split_and!; [done|done|].
  apply elem_of_rows in Hrel as [id Hrel]. destruct relations_ok as [_ Hc]. specialize (Hc id rel Hrel). cbn in Hc.
  unfold relation_constraint in Hc. bool_simpl. done.
Qed.
Lemma elem_of_hierarchyEdges e : e ∈ hierarchyEdges s → liveIssue s (ge_Source e) = true ∧ liveIssue s (ge_Target e) = true ∧ ge_Type e = "contains".
Proof.
  unfold hierarchyEdges. intros (l & (child & <- & Hc)%in_map_iff & He)%list_elem_of_In%in_concat. apply list_elem_of_In in Hc.
  destruct (i_ParentID child) as [parent|]; [|done]. destruct (liveIssue s parent) eqn:Hp; [|done]. destruct He as [<-|[]]. cbn.
  split_and!; [done| |done]. apply liveIssue_spec. by exists child.
Qed.

(** The edges a traversal may use. *)
Definition traversalEdge (t : GraphTraversal) (e : GraphEdge) : Prop :=
  (e ∈ relationEdges s ∧ ge_Type e ∈ gt_RelationTypes t) ∨ (e ∈ hierarchyEdges s ∧ gt_IncludeHierarchy t = true).
Lemma traversalEdge_full root t e : Forall (λ type, RelationType_Valid type = true) (gt_RelationTypes t) →
  traversalEdge t e ↔ e ∈ sn_Edges (fullGraph root now s) ∧ allowedType t (ge_Type e) = true.
Proof.
  intros Hvalid. rewrite full_edges. unfold traversalEdge, allowedType. rewrite orb_true_iff, andb_true_iff, bool_decide_eq_true, eqb_string_true.
  assert (Hc : "contains" ∉ gt_RelationTypes t) by (rewrite Forall_forall in Hvalid; intros Hin%Hvalid; done).
  split.
  - intros [[He Ht]|[He Hh]]; [auto|]. destruct (elem_of_hierarchyEdges e He) as (_ & _ & ->). auto.
  - intros [[He|He] Ht].
    + left. split; [done|]. destruct Ht as [?|[_ Hc']]; [done|]. destruct (elem_of_relationEdges e He) as (_ & _ & Hv). rewrite Hc' in Hv. done.
    + right. split; [done|]. destruct (elem_of_hierarchyEdges e He) as (_ & _ & Hty). rewrite Hty in Ht. by destruct Ht as [?|[? _]].
Qed.

(** *** Batches *)

Lemma concat_batches fuel ids : length ids ≤ fuel → concat (batchesOf fuel ids) = ids.
Proof.
  revert ids. induction fuel as [|fuel IH]; intros ids Hl; cbn [batchesOf].
  - destruct ids; [done|cbn in Hl; lia].
  - destruct ids as [|id ids]; [done|]. cbn [concat]. rewrite IH; [by apply take_drop|]. rewrite length_drop. cbn in *. lia.
Qed.
Lemma in_batches ids id : id ∈ ids ↔ ∃ batch, batch ∈ batchesOf (length ids) ids ∧ id ∈ batch.
Proof.
  rewrite <-(concat_batches (length ids) ids) at 1 by done. rewrite list_elem_of_In, in_concat.
  split; intros (b & ? & ?); exists b; by rewrite ?list_elem_of_In in *.
Qed.

(** *** Metadata *)

(** The candidates known so far are metadata of live issues. *)
Definition known_ok (known : gmap string IssueProjection) : Prop :=
  ∀ id node, known !! id = Some node → ∃ i, i ∈ liveIssues s ∧ i_ID i = id ∧ node = metadataNode i.

Lemma insert_issues l known : (∀ i, i ∈ l → i ∈ liveIssues s) → known_ok known →
  let known' := foldl (λ known issue, <[i_ID issue := metadataNode issue]> known) known l in
  known_ok known' ∧ (∀ id, is_Some (known !! id) → is_Some (known' !! id)) ∧ (∀ i, i ∈ l → is_Some (known' !! i_ID i)) ∧
  (∀ id, is_Some (known' !! id) → is_Some (known !! id) ∨ ∃ i, i ∈ l ∧ i_ID i = id).
Proof.
  revert known. induction l as [|i l IH]; intros known Hl Hok; cbn [foldl].
  { split_and!; [done|done|by intros ? ?%not_elem_of_nil|auto]. }
  assert (known_ok (<[i_ID i := metadataNode i]> known)) as Hok'.
  { intros id node. destruct (decide (i_ID i = id)) as [<-|Hne].
    - rewrite lookup_insert_eq. intros [= <-]. exists i. split_and!; [apply Hl; by left|done|done].
    - rewrite lookup_insert_ne by done. apply Hok. }
  destruct (IH _ (λ j Hj, Hl j ltac:(by right)) Hok') as (H1 & H2 & H3 & H4). split_and!; [done|..].
  - intros id Hid. apply H2. destruct (decide (i_ID i = id)) as [<-|Hne]; [by rewrite lookup_insert_eq|by rewrite lookup_insert_ne].
  - intros j [->|Hj]%elem_of_cons; [|by apply H3]. apply H2. by rewrite lookup_insert_eq.
  - intros id [Hid|(j & Hj & Heq)]%H4; [|right; exists j; split; [by right|done]].
    destruct (decide (i_ID i = id)) as [<-|Hne]; [right; exists i; split; [by left|done]|].
    rewrite lookup_insert_ne in Hid by done. by left.
Qed.

Lemma load_batches bs known : known_ok known →
  let known' := foldl (λ known batch, foldl (λ known issue, <[i_ID issue := metadataNode issue]> known) known
                         (List.filter (λ issue, inBatch batch (i_ID issue)) (liveIssues s))) known bs in
  known_ok known' ∧ (∀ id, is_Some (known !! id) → is_Some (known' !! id)) ∧
  (∀ i b, i ∈ liveIssues s → b ∈ bs → inBatch b (i_ID i) = true → is_Some (known' !! i_ID i)) ∧
  (∀ id, is_Some (known' !! id) → is_Some (known !! id) ∨ ∃ b, b ∈ bs ∧ inBatch b id = true).
Proof.
  revert known. induction bs as [|b bs IH]; intros known Hok; cbn [foldl].
  { split_and!; [done|done|by intros ??? ?%not_elem_of_nil|auto]. }
  destruct (insert_issues (List.filter (λ issue, inBatch b (i_ID issue)) (liveIssues s)) known) as (Hok1 & Hm1 & Hi1 & Hb1); [|done|].
  { intros i [Hi _]%elem_of_filter_list. done. }
  destruct (IH _ Hok1) as (Hok2 & Hm2 & Hi2 & Hb2). split_and!; [done|auto|..].
  - intros i b' Hi [->|Hb']%elem_of_cons Hin; [|by eapply Hi2]. apply Hm2, Hi1. by apply elem_of_filter_list.
  - intros id [[Hid|(i & [_ Hin]%elem_of_filter_list & <-)]%Hb1|(b' & Hb' & Hin)]%Hb2.
    + by left.
    + right. exists b. split; [by left|done].
    + right. exists b'. split; [by right|done].
Qed.
Lemma load_metadata ids known : known_ok known →
  let known' := loadGraphMetadata ids s known in
  known_ok known' ∧ (∀ id, is_Some (known !! id) → is_Some (known' !! id)) ∧
  (∀ i, i ∈ liveIssues s → inBatch ids (i_ID i) = true → is_Some (known' !! i_ID i)) ∧
  (∀ id, is_Some (known' !! id) → is_Some (known !! id) ∨ inBatch ids id = true).
Proof.
  intros Hok. destruct (load_batches (batches ids) known Hok) as (H1 & H2 & H3 & H4). split_and!; [done|done|..].
  - intros i Hi Hin. destruct ids as [ids|]; [|eapply H3; [done|by left|done]].
    cbn in Hin. bool_simpl. apply in_batches in Hin as (b & Hb & Hin). apply (H3 i (Some b)); [done|by apply list_elem_of_fmap_2|].
    by apply bool_decide_eq_true.
  - intros id [?|(b & Hb & Hin)]%H4; [by left|right]. destruct ids as [ids|]; [|done]. cbn [batches] in Hb.
    apply list_elem_of_fmap in Hb as (b' & -> & Hb'). cbn in *. bool_simpl. apply bool_decide_eq_true. apply in_batches. eauto.
Qed.

(** *** Edges *)

Lemma elem_of_topology ids t frontier e : e ∈ loadGraphTopology ids t frontier s ↔
  ∃ batch, batch ∈ batches ids ∧
    ((e ∈ relationEdges s ∧ ge_Type e ∈ gt_RelationTypes t ∧ topologySelected t frontier false batch e = true) ∨
     (e ∈ hierarchyEdges s ∧ gt_IncludeHierarchy t = true ∧ topologySelected t frontier true batch e = true)).
Proof.
  unfold loadGraphTopology. rewrite list_elem_of_In, in_concat. split.
  - intros (l & (b & <- & Hb)%in_map_iff & He). apply list_elem_of_In in He, Hb. exists b. split; [done|].
    apply elem_of_app in He as [He|He].
    + left. destruct (null _); [by apply not_elem_of_nil in He|]. apply elem_of_filter_list in He as [? ?]. bool_simpl. done.
    + right. destruct (gt_IncludeHierarchy t); [|by apply not_elem_of_nil in He]. apply elem_of_filter_list in He as [? ?]. done.
  - intros (b & Hb & Hcase). eexists. split; [apply in_map_iff; exists b; split; [done|by apply list_elem_of_In]|].
    apply list_elem_of_In, elem_of_app. destruct Hcase as [(He & Ht & Hs)|(He & -> & Hs)].
    + left. destruct (null (gt_RelationTypes t)) eqn:Hn; [apply null_true in Hn; rewrite Hn in Ht; by apply not_elem_of_nil in Ht|].
      apply elem_of_filter_list. split; [done|]. rewrite Hs, andb_true_r. by apply bool_decide_eq_true.
    + right. by apply elem_of_filter_list.
Qed.
Lemma topology_sound ids t frontier e : e ∈ loadGraphTopology ids t frontier s → traversalEdge t e.
Proof. intros (b & _ & [(? & ? & _)|(? & ? & _)])%elem_of_topology; [left|right]; done. Qed.
Lemma topology_clauses t frontier hierarchy batch e :
  topologyClause t frontier hierarchy false batch e = true ∨ (frontier = true ∧ topologyClause t frontier hierarchy true batch e = true) →
  topologySelected t frontier hierarchy (Some batch) e = true.
Proof. cbn. intros [->|[-> ->]]; [done|apply orb_true_r]. Qed.
Lemma topology_in ids t frontier e : traversalEdge t e →
  (∀ hierarchy, (hierarchy = true → ge_Type e = "contains") → ∃ batch, batch ∈ batches ids ∧ topologySelected t frontier hierarchy batch e = true) →
  e ∈ loadGraphTopology ids t frontier s.
Proof.
  intros [[He Ht]|[He Hh]] Hsel; apply elem_of_topology.
  - destruct (Hsel false) as (b & ? & ?); [done|]. exists b. auto.
  - destruct (Hsel true) as (b & ? & ?); [by destruct (elem_of_hierarchyEdges e He) as (_ & _ & ?)|]. exists b. auto.
Qed.
Lemma topology_scope ids t e : traversalEdge t e → ge_Source e ∈ ids → e ∈ loadGraphTopology (Some ids) t false s.
Proof.
  intros He (b & Hb & Hin)%in_batches. apply topology_in; [done|]. intros hierarchy _. exists (Some b).
  split; [by apply list_elem_of_fmap_2|]. apply topology_clauses. left. unfold topologyClause. cbn. by apply bool_decide_eq_true.
Qed.
Lemma topology_frontier ids t u v e : traversalEdge t e → u ∈ ids → neighborOf u (gt_Direction t) e = v → v ≠ "" →
  e ∈ loadGraphTopology (Some ids) t true s.
Proof.
  intros He (b & Hb & Hu)%in_batches Hv Hne. apply topology_in; [done|]. intros hierarchy Hh. exists (Some b).
  split; [by apply list_elem_of_fmap_2|]. apply topology_clauses. unfold topologyClause, neighborOf in *. subst v. revert Hne. cbv zeta.
  destruct (ge_Type e =s RelationTypeRelatedTo) eqn:Hrel.
  - assert (negb hierarchy = true) as ->.
    { destruct hierarchy; [|done]. apply eqb_string_true in Hrel. rewrite Hh in Hrel; done. }
    destruct (ge_Source e =s u) eqn:E1; [apply eqb_string_true in E1 as ->; intros _; left; rewrite (bool_decide_eq_true_2 _ Hu); by destruct (_ && _)|].
    destruct (ge_Target e =s u) eqn:E2; [|done]. apply eqb_string_true in E2 as ->. intros _. right. split; [done|].
    rewrite (bool_decide_eq_true_2 _ Hu). by destruct (_ && _).
  - destruct (_ && (ge_Target e =s u)) eqn:Hin.
    + intros _. apply andb_true_iff in Hin as [Hd E2]. apply eqb_string_true in E2 as ->. right. split; [done|].
      assert ((gt_Direction t =s GraphDirectionOutgoing) = false) as ->.
      { apply eqb_string_false. intros Heq. rewrite Heq in Hd. done. }
      cbn. by apply bool_decide_eq_true.
    + destruct (_ && (ge_Source e =s u)) eqn:Hout; [|done]. intros _. apply andb_true_iff in Hout as [Hd E1]. apply eqb_string_true in E1 as ->. left.
      assert ((gt_Direction t =s GraphDirectionIncoming) = false) as ->.
      { apply eqb_string_false. intros Heq. rewrite Heq in Hd. done. }
      cbn. by apply bool_decide_eq_true.
Qed.

(** *** Levels *)

Definition unknownEnds (known : gmap string IssueProjection) (edges : list GraphEdge) : gset string :=
  foldl (λ next e, foldl (λ next id, if isSet (known !! id) then next else {[ id ]} ∪ next) next [ge_Source e; ge_Target e]) ∅ edges.
Lemma elem_of_unknownEnds known edges id :
  id ∈ unknownEnds known edges ↔ known !! id = None ∧ ∃ e, e ∈ edges ∧ (id = ge_Source e ∨ id = ge_Target e).
Proof.
  unfold unknownEnds. induction edges as [|e edges IH] using rev_ind; [cbn; split; [set_solver|by intros (_ & e & ?%not_elem_of_nil & _)]|].
  rewrite foldl_snoc. cbn [foldl]. assert (Hstep : ∀ (next : gset string) x,
    id ∈ (if isSet (known !! x) then next else {[ x ]} ∪ next) ↔ id ∈ next ∨ (id = x ∧ known !! x = None)).
  { intros next x. destruct (known !! x); cbn; [naive_solver|]. rewrite elem_of_union, elem_of_singleton. naive_solver. }
  rewrite !Hstep, IH. split.
  - intros [[[Hk (e' & He' & Hid)]|[-> Hk]]|[-> Hk]]; (split; [done|]); [exists e'|exists e|exists e]; rewrite elem_of_app, list_elem_of_singleton; auto.
  - intros [Hk (e' & [He'| ->%list_elem_of_singleton]%elem_of_app & Hid)]; [left; left; eauto|]. destruct Hid as [->| ->]; auto.
Qed.

Variable root : string.
Variable t : GraphTraversal.
Hypothesis explicit_root : gt_ExplicitRootID t = root.
Hypothesis valid_types : Forall (λ type, RelationType_Valid type = true) (gt_RelationTypes t).
Notation F := (fullGraph (Some root) now s).

Lemma expands_passes known id node : known_ok known → known !! id = Some node → expands t known id = passes F t id.
Proof.
  intros Hok Hn. destruct (Hok id node Hn) as (i & Hi & Hid & Hnode).
  assert (Hf : nodesByID F !! id = Some (graphProjection now s i)) by (apply full_nodes; eauto).
  unfold expands, passes, isDeferrable, isTerminalNode, nodeExcluded. rewrite Hn, Hf, Hnode, explicit_root.
  change (ip_Status (metadataNode i)) with (i_Status i). change (ip_Status (graphProjection now s i)) with (i_Status i).
  assert (Hx : terminalStatus (i_Status i) = true → (i_Status i =s StatusReview) = false).
  { unfold terminalStatus. intros [->%eqb_string_true| ->%eqb_string_true]%orb_true_iff; done. }
  destruct (terminalStatus (i_Status i)); [rewrite Hx by done|]; destruct (gt_IncludeTerminal t), (gt_PreferNonTerminal t), (id =s root),
    (gt_ExcludeReview t); cbn; try done; by rewrite ?orb_false_r.
Qed.
Lemma full_follows u e v : follows F t u e v → traversalEdge t e ∧ liveIssue s u = true ∧ liveIssue s v = true ∧
  neighborOf u (gt_Direction t) e = v ∧ v ≠ "" ∧ passes F t u = true ∧ (v = ge_Source e ∨ v = ge_Target e).
Proof.
  intros (He & Hn & Hne & Hu & Hv). apply elem_of_adjacent in He as (He & Hus & _). unfold usable in Hus. bool_simpl.
  split_and!; [by eapply traversalEdge_full|by eapply full_known, passes_known|by eapply full_known, passes_known|done|done|done|].
  destruct (neighborOf_ends _ _ _ _ Hn Hne) as [[_ ->]|[_ ->]]; auto.
Qed.

(** Everything reachable from the known nodes, if the frontier is closed. *)
Lemma closed_within (known : gmap string IssueProjection) n v : is_Some (known !! root) → (∀ u e v, is_Some (known !! u) → follows F t u e v → is_Some (known !! v)) →
  within F t root n v → is_Some (known !! v).
Proof. intros Hr Hc. induction 1; [done|]. eapply Hc; eauto. Qed.

Lemma frontier_complete d k frontier known :
  known_ok known → is_Some (known !! root) → (∀ id, id ∈ frontier → is_Some (known !! id)) →
  (∀ n v, (n <= k)%Z → within F t root n v → is_Some (known !! v)) →
  (∀ u e v, is_Some (known !! u) → u ∉ frontier → follows F t u e v → is_Some (known !! v)) →
  let known' := loadFrontier d t frontier s known in
  known_ok known' ∧ is_Some (known' !! root) ∧ (∀ n v, (n <= k + Z.of_nat d)%Z → within F t root n v → is_Some (known' !! v)).
Proof.
  revert k frontier known. induction d as [|d IH]; intros k frontier known Hok Hroot Hfr Hk Hdone; cbn [loadFrontier].
  { split_and!; [done|done|]. intros n v Hn. apply Hk. lia. }
  set (expand := List.filter (expands t known) frontier).
  assert (Hexp : ∀ u, u ∈ frontier → passes F t u = true → u ∈ expand).
  { intros u Hu Hp. apply elem_of_filter_list. split; [done|]. destruct (Hfr u Hu) as [node Hn]. by rewrite (expands_passes _ _ _ Hok Hn). }
  destruct (null frontier || null expand) eqn:Hnull.
  { split_and!; [done|done|]. intros n v _. apply closed_within; [done|]. intros u e w Hu Hf.
    destruct (decide (u ∈ frontier)) as [Hin|Hni]; [|by eapply Hdone]. destruct (full_follows _ _ _ Hf) as (_ & _ & _ & _ & _ & Hp & _).
    pose proof (Hexp u Hin Hp) as He. apply orb_true_iff in Hnull as [Hnil|Hnil]; apply null_true in Hnil; rewrite Hnil in *; set_solver. }
  fold (unknownEnds known (loadGraphTopology (Some expand) t true s)). set (next := unknownEnds known _).
  set (known1 := if null (elements next) then known else _).
  assert (known_ok known1 ∧ (∀ id, is_Some (known !! id) → is_Some (known1 !! id)) ∧
          (∀ id, id ∈ next → liveIssue s id = true → is_Some (known1 !! id)) ∧
          (∀ id, is_Some (known1 !! id) → is_Some (known !! id) ∨ id ∈ next)) as (Hok1 & Hm1 & Hn1 & Hb1).
  { unfold known1. destruct (null (elements next)) eqn:Hnil.
    - apply null_true in Hnil. split_and!; [done|done| |auto]. intros id Hid%elem_of_elements. rewrite Hnil in Hid. set_solver.
    - destruct (load_metadata (Some (elements next)) known Hok) as (H1 & H2 & H3 & H4). split_and!; [done|done|..].
      + intros id Hid (i & Hi & <-)%liveIssue_spec. apply H3; [done|]. cbn. apply bool_decide_eq_true. by apply elem_of_elements.
      + intros id [?|Hin]%H4; [by left|right]. cbn in Hin. bool_simpl. by apply elem_of_elements. }
  assert (Hstep : ∀ u e v, is_Some (known !! u) → follows F t u e v → is_Some (known1 !! v)).
  { intros u e v Hu Hf. destruct (decide (u ∈ frontier)) as [Hin|Hni]; [|apply Hm1; by eapply Hdone].
    destruct (full_follows _ _ _ Hf) as (He & _ & Hlv & Hnb & Hne & Hp & Hend).
    destruct (known !! v) as [node|] eqn:Hv; [apply Hm1; eauto|]. apply Hn1; [|done]. apply elem_of_unknownEnds. split; [done|].
    exists e. split; [|destruct Hend; auto]. eapply topology_frontier; [done|by apply Hexp|done|done]. }
  destruct (IH (k + 1)%Z (elements next) known1) as (H1 & H2 & H3); [done|auto|..].
  - intros id Hid%elem_of_elements. pose proof Hid as [Hnone (e & He & Hend)]%elem_of_unknownEnds. apply Hn1; [done|].
    apply topology_sound in He as [[He _]|[He _]]; [destruct (elem_of_relationEdges e He) as (?&?&_)|destruct (elem_of_hierarchyEdges e He) as (?&?&_)];
      by destruct Hend as [->| ->].
  - intros n v Hn Hw. inversion Hw as [Hr|n' u v' e Hw' Hf]; subst; [auto|]. eapply Hstep; [|done]. eapply (Hk n'); [lia|done].
  - intros u e v Hu Hni Hf. destruct (Hb1 u Hu) as [Hu'|Hin]; [by eapply Hstep|]. destruct Hni. by apply elem_of_elements.
  - split_and!; [done|done|]. intros n v Hn. apply H3. lia.
Qed.

(** *** The candidates of a root *)

Hypothesis roots : gt_RootIssueIDs t = [root].
Hypothesis root_live : liveIssue s root = true.
Hypothesis depth_nonneg : (0 <= gt_Depth t)%Z.

Lemma within_nonneg n v : within F t root n v → (0 <= n)%Z.
Proof. induction 1; lia. Qed.
Lemma first_level v n : (n <= 0)%Z → within F t root n v → v = root.
Proof. intros Hn Hw. destruct Hw as [Hk|n' u v' e Hw' _]; [done|]. apply within_nonneg in Hw'. lia. Qed.

Definition candidates : gmap string IssueProjection :=
  loadFrontier (Z.to_nat (gt_Depth t)) t [root] s (loadGraphMetadata (Some [root]) s ∅).
Lemma candidates_complete : known_ok candidates ∧ is_Some (candidates !! root) ∧
  ∀ n v, (n <= gt_Depth t)%Z → within F t root n v → is_Some (candidates !! v).
Proof.
  destruct (load_metadata (Some [root]) ∅) as (H1 & _ & H3 & H4); [by intros id node ?|]. set (known := loadGraphMetadata _ _ _) in *.
  assert (is_Some (known !! root)) as Hr.
  { apply liveIssue_spec in root_live as (i & Hi & <-). apply H3; [done|]. cbn. apply bool_decide_eq_true. by left. }
  destruct (frontier_complete (Z.to_nat (gt_Depth t)) 0 [root] known) as (H5 & H6 & H7); [done|done|..].
  - by intros id ->%list_elem_of_singleton.
  - intros n v Hn Hw. by rewrite (first_level v n Hn Hw).
  - intros u e v [Hu|Hu]%H4 Hni; [by destruct Hu|]. cbn in Hu. bool_simpl. done.
  - split_and!; [done|done|]. intros n v Hn. apply H7. lia.
Qed.
Lemma known_id known id node : known_ok known → known !! id = Some node → ip_ID node = id.
Proof. intros Hok Hn. by destruct (Hok id node Hn) as (i & _ & <- & ->). Qed.

(** A snapshot whose nodes are shown in more or less detail. *)
Lemma nodes_of_known known (f : IssueProjection → IssueProjection) sn id :
  known_ok known → (∀ id node, known !! id = Some node → ip_ID (f node) = ip_ID node) →
  sn_Nodes sn = map f (stable_sort nodeLess (map snd (map_to_list known))) → nodesByID sn !! id = f <$> known !! id.
Proof.
  intros Hok Hf Hsn.
  assert (Hin : ∀ node, node ∈ sn_Nodes sn ↔ ∃ id n, known !! id = Some n ∧ node = f n).
  { intros node. rewrite Hsn, list_elem_of_fmap. setoid_rewrite elem_of_stable_sort. split.
    - intros (n & -> & ([id' n'] & -> & Hn)%list_elem_of_fmap). apply elem_of_map_to_list in Hn. eauto.
    - intros (id' & n & Hn & ->). exists n. split; [done|]. apply list_elem_of_fmap. exists (id', n). split; [done|]. by apply elem_of_map_to_list. }
  destruct (known !! id) as [n|] eqn:Hn; cbn [fmap option_fmap option_map].
  - rewrite <-(known_id _ _ _ Hok Hn), <-(Hf _ _ Hn). apply nodesByID_distinct; [|apply Hin; eauto].
    rewrite Hsn, map_map. rewrite (Permutation_map _ (stable_sort_Permutation nodeLess _)), map_map.
    assert (map (λ x : string * IssueProjection, ip_ID (f (snd x))) (map_to_list known) = map fst (map_to_list known)) as ->.
    { apply map_ext_in. intros [id' n'] Hx%list_elem_of_In%elem_of_map_to_list. cbn. rewrite (Hf _ _ Hx). by apply (known_id known). }
    apply NoDup_fst_map_to_list.
  - destruct (nodesByID sn !! id) as [node|] eqn:Hx; [|done]. apply nodesByID_spec in Hx as [Hid (id' & n & Hn' & ->)%Hin].
    rewrite (Hf _ _ Hn'), (known_id _ _ _ Hok Hn') in Hid. congruence.
Qed.

Lemma hydrate_id retained known id node : known_ok known → known !! id = Some node →
  ip_ID (hydrate retained now s node) = ip_ID node ∧ ip_Status (hydrate retained now s node) = ip_Status node ∧
  ip_SequenceNo (hydrate retained now s node) = ip_SequenceNo node ∧
  (ip_ID node ∈ map ip_ID retained → nodesByID F !! id = Some (hydrate retained now s node)).
Proof.
  intros Hok Hn. destruct (Hok id node Hn) as (i & Hi & <- & ->). unfold hydrate.
  change (ip_ID (metadataNode i)) with (i_ID i). pose proof Hi as (Hl & Ha)%elem_of_liveIssues. rewrite Hl, Ha. cbn [isSet].
  destruct (bool_decide _) eqn:Hin; bool_simpl; split_and!; try done.
  intros _. apply full_nodes. eauto.
Qed.

(** A snapshot on the candidates, in whatever detail. *)
Record candidate_snapshot (sn : GraphSnapshot) (f : IssueProjection → IssueProjection) : Prop := {
  cs_nodes : sn_Nodes sn = map f (stable_sort nodeLess (map snd (map_to_list candidates)));
  cs_shown : ∀ id node, candidates !! id = Some node →
    ip_ID (f node) = ip_ID node ∧ ip_Status (f node) = ip_Status node ∧ ip_SequenceNo (f node) = ip_SequenceNo node;
  cs_edges : ∀ e, e ∈ sn_Edges sn → traversalEdge t e;
  cs_closed : ∀ e, (0 < gt_Depth t)%Z → traversalEdge t e → is_Some (candidates !! ge_Source e) → is_Some (candidates !! ge_Target e) →
    e ∈ sn_Edges sn;
}.

Section snapshot.
Variables (sn : GraphSnapshot) (f : IssueProjection → IssueProjection).
Hypothesis cs : candidate_snapshot sn f.

Lemma cs_lookup id : nodesByID sn !! id = f <$> candidates !! id.
Proof.
  destruct candidates_complete as [Hok _]. apply nodes_of_known; [done| |apply cs]. intros id' node Hn. by apply (cs_shown _ _ cs id').
Qed.
Lemma cs_known id : is_Some (nodesByID sn !! id) ↔ is_Some (candidates !! id).
Proof. rewrite cs_lookup. by rewrite fmap_is_Some. Qed.
Lemma cs_part id node : nodesByID sn !! id = Some node →
  ∃ node', nodesByID F !! id = Some node' ∧ ip_Status node = ip_Status node' ∧ ip_SequenceNo node = ip_SequenceNo node'.
Proof.
  destruct candidates_complete as [Hok _]. rewrite cs_lookup. intros (m & Hm & ->)%fmap_Some_1.
  destruct (cs_shown _ _ cs id m Hm) as (_ & -> & ->). destruct (Hok id m Hm) as (i & Hi & Hid & ->).
  exists (graphProjection now s i). split_and!; [apply full_nodes; eauto|done|done].
Qed.
Lemma cs_sequence id : is_Some (nodesByID sn !! id) → edgeSequence (nodesByID F) id = edgeSequence (nodesByID sn) id.
Proof.
  intros [node Hn]. destruct (cs_part id node Hn) as (node' & Hn' & _ & Hq). unfold edgeSequence. by rewrite Hn, Hn', Hq.
Qed.
(** Edges of the graph of the candidates compare as among all edges. *)
Lemma cs_edgeLess a b : a ∈ gr_Edges (BuildGraph sn t) → b ∈ gr_Edges (BuildGraph sn t) →
  graphEdgeLess (nodesByID F) a b = graphEdgeLess (nodesByID sn) a b.
Proof.
  assert (Hends : ∀ e, e ∈ gr_Edges (BuildGraph sn t) →
    edgeSequence (nodesByID F) (ge_Source e) = edgeSequence (nodesByID sn) (ge_Source e) ∧
    edgeSequence (nodesByID F) (ge_Target e) = edgeSequence (nodesByID sn) (ge_Target e)).
  { intros e He%elem_of_gr_Edges. destruct (traverseGraph_emitted sn t) as [E _].
    destruct (em_edges _ _ _ E e He) as (_ & Hu & _). unfold usable in Hu. apply andb_true_iff in Hu as [[_ Hs]%andb_true_iff Hg].
    split; apply cs_sequence; by apply isSet_true. }
  intros Ha Hb. destruct (Hends a Ha) as [Ea1 Ea2], (Hends b Hb) as [Eb1 Eb2]. unfold graphEdgeLess. cbv zeta.
  fold (edgeSequence (nodesByID sn) (ge_Source a)) (edgeSequence (nodesByID sn) (ge_Source b)) (edgeSequence (nodesByID sn) (ge_Target a))
    (edgeSequence (nodesByID sn) (ge_Target b)) (edgeSequence (nodesByID F) (ge_Source a)) (edgeSequence (nodesByID F) (ge_Source b))
    (edgeSequence (nodesByID F) (ge_Target a)) (edgeSequence (nodesByID F) (ge_Target b)).
  by rewrite Ea1, Ea2, Eb1, Eb2.
Qed.
Lemma cs_agree : issue_traversal root t →
  gr_Truncated (BuildGraph sn t) = gr_Truncated (BuildGraph F t) ∧
  (gr_Truncated (BuildGraph F t) = false →
     (∀ v, v ∈ map ip_ID (gr_Nodes (BuildGraph sn t)) ↔ v ∈ map ip_ID (gr_Nodes (BuildGraph F t))) ∧
     (∀ e, e ∈ gr_Edges (BuildGraph sn t) ↔ e ∈ gr_Edges (BuildGraph F t))).
Proof.
  intros Ht. destruct candidates_complete as (Hok & Hroot & Hreach).
  assert (P1 : ∀ id node, nodesByID sn !! id = Some node → ∃ node', nodesByID F !! id = Some node' ∧ ip_Status node = ip_Status node').
  { intros id node Hn. destruct (cs_part id node Hn) as (node' & ? & ? & _). eauto. }
  assert (P2 : ∀ e, e ∈ sn_Edges sn → e ∈ sn_Edges F).
  { intros e He%(cs_edges _ _ cs). by apply (traversalEdge_full (Some root) t) in He as [? _]. }
  assert (P3 : ∀ e, (0 < gt_Depth t)%Z → e ∈ sn_Edges F → allowedType t (ge_Type e) = true →
    is_Some (nodesByID sn !! ge_Source e) → is_Some (nodesByID sn !! ge_Target e) → e ∈ sn_Edges sn).
  { intros e Hd He Hty Hs Hg. apply (cs_closed _ _ cs); [done| |by apply cs_known|by apply cs_known]. by apply (traversalEdge_full (Some root)). }
  assert (P4 : ∀ n v, (n <= gt_Depth t)%Z → within F t root n v → is_Some (nodesByID sn !! v)).
  { intros n v Hn Hw. apply cs_known. by eapply Hreach. }
  assert (P5 : is_Some (nodesByID sn !! root)) by by apply cs_known.
  split; [by apply (part_truncated sn F t root)|]. intros Htr. split.
  - intros v. by apply (part_ids sn F t root).
  - intros e. by apply (part_gr_edges sn F t root).
Qed.
End snapshot.

Lemma candidateGraph_snapshot t0 : t = withRoots [root] root t0 → ∃ sn,
  candidateGraph (Some root) t0 now s = (t, sn) ∧ candidate_snapshot sn id ∧
  ∀ retained, candidate_snapshot (withNodes (map (hydrate retained now s) (sn_Nodes sn)) sn) (hydrate retained now s).
Proof.
  intros Ht. assert (Hc : candidateNodes (Some root) t0 s = candidates).
  { unfold candidateNodes, candidates. rewrite <-Ht. assert (gt_Depth t = gt_Depth t0) as -> by (by rewrite Ht). done. }
  destruct candidates_complete as (Hok & _). unfold candidateGraph. cbv zeta. rewrite Hc, <-Ht. cbn [isSet negb orb].
  eexists. split; [done|].
  assert (Hedges : ∀ e, e ∈ (if (0 <? gt_Depth t)%Z then
      List.filter (λ e, isSet (candidates !! ge_Source e) && isSet (candidates !! ge_Target e))
        (loadGraphTopology (Some (map fst (map_to_list candidates))) t false s) else []) →
    traversalEdge t e).
  { intros e. destruct (0 <? _)%Z; [|by intros ?%not_elem_of_nil]. by intros [?%topology_sound _]%elem_of_filter_list. }
  assert (Hclosed : ∀ e, (0 < gt_Depth t)%Z → traversalEdge t e → is_Some (candidates !! ge_Source e) → is_Some (candidates !! ge_Target e) →
    e ∈ (if (0 <? gt_Depth t)%Z then
      List.filter (λ e, isSet (candidates !! ge_Source e) && isSet (candidates !! ge_Target e))
        (loadGraphTopology (Some (map fst (map_to_list candidates))) t false s) else [])).
  { intros e Hd He Hs Hg. rewrite (proj2 (Z.ltb_lt _ _) Hd). apply elem_of_filter_list. split; [|by rewrite !(proj2 (isSet_true _)) by done].
    apply topology_scope; [done|]. destruct Hs as [node Hn]. apply list_elem_of_fmap. exists (ge_Source e, node).
    split; [done|]. by apply elem_of_map_to_list. }
  split; [|intros retained]; split; cbn [sn_Nodes sn_Edges withNodes]; try done.
  - by rewrite map_id.
  - intros id node Hn. by destruct (hydrate_id retained candidates id node Hok Hn) as (? & ? & ? & _).
Qed.

Lemma StronglySorted_change {A} (R R' : A → A → Prop) l :
  (∀ a b, a ∈ l → b ∈ l → R a b → R' a b) → StronglySorted R l → StronglySorted R' l.
Proof.
  intros Hr Hs. induction Hs as [|x l Hs IH Hx]; constructor.
  - apply IH. intros a b Ha Hb. apply Hr; by right.
  - rewrite Forall_forall in *. intros y Hy. apply Hr; [by left|by right|by apply Hx].
Qed.

(** The graph of the candidates is the graph of everything. *)
Lemma selected_agrees t0 : t = withRoots [root] root t0 → issue_traversal root t → ∃ r,
  sn_SelectedResult (loadSelectedGraph (Some root) t0 now s) = Some r ∧
  gr_Truncated r = gr_Truncated (BuildGraph F t) ∧
  (gr_Truncated (BuildGraph F t) = false →
     gr_Nodes r ≡ₚ gr_Nodes (BuildGraph F t) ∧ gr_Edges r = gr_Edges (BuildGraph F t)).
Proof.
  intros Ht Hit. destruct (candidateGraph_snapshot t0 Ht) as (sn & Hc & Hcs & Hcx). unfold loadSelectedGraph. rewrite Hc.
  set (selected := BuildGraph sn t). specialize (Hcx (gr_Nodes selected)). set (X := withNodes _ _) in *.
  exists (BuildGraph X t). split; [done|]. destruct (cs_agree _ _ Hcs Hit) as [Ht1 Hall1]. destruct (cs_agree _ _ Hcx Hit) as [Ht2 Hall2].
  split; [done|]. intros Htr. destruct (Hall1 Htr) as [Hids1 _]. destruct (Hall2 Htr) as [Hids2 Hedges2]. split.
  - assert (Hshow : ∀ node, node ∈ gr_Nodes (BuildGraph X t) → nodesByID F !! ip_ID node = Some node).
    { intros node Hn. pose proof (list_elem_of_fmap_2 ip_ID _ _ Hn) as Hid. destruct (BuildGraph_parts X t) as (Hnodes & _).
      rewrite Hnodes in Hn. destruct (traverseGraph_emitted X t) as [E _]. pose proof (em_nodes _ _ _ E node Hn) as Hl.
      rewrite (cs_lookup _ _ Hcx) in Hl. apply fmap_Some_1 in Hl as (m & Hm & Heq). destruct candidates_complete as (Hok & _).
      destruct (hydrate_id (gr_Nodes selected) candidates (ip_ID node) m Hok Hm) as (Hidm & _ & _ & Hf). rewrite <-Heq in Hf. apply Hf.
      rewrite <-Hidm, <-Heq. unfold selected. apply Hids1. by apply Hids2. }
    assert (Hfull : ∀ node, node ∈ gr_Nodes (BuildGraph F t) → nodesByID F !! ip_ID node = Some node).
    { intros node Hn. destruct (BuildGraph_parts F t) as (Hnodes & _). rewrite Hnodes in Hn.
      destruct (traverseGraph_emitted F t) as [E _]. by apply (em_nodes _ _ _ E). }
    apply NoDup_Permutation; [eapply NoDup_fmap_1, BuildGraph_sound|eapply NoDup_fmap_1, BuildGraph_sound|].
    intros node. split; intros Hn.
    + pose proof (list_elem_of_fmap_2 ip_ID _ _ Hn) as Hid. apply Hids2, list_elem_of_fmap in Hid as (node' & Hid & Hn').
      pose proof (Hshow _ Hn) as H1. pose proof (Hfull _ Hn') as H2. rewrite Hid in H1. by assert (node = node') as -> by congruence.
    + pose proof (list_elem_of_fmap_2 ip_ID _ _ Hn) as Hid. apply Hids2, list_elem_of_fmap in Hid as (node' & Hid & Hn').
      pose proof (Hfull _ Hn) as H1. pose proof (Hshow _ Hn') as H2. rewrite Hid in H1. by assert (node = node') as -> by congruence.
  - assert (AntiSymm eq (λ a b, graphEdgeLess (nodesByID X) a b = true)) as Hanti.
    { intros a b Hab Hba. rewrite (wo_asym _ (graphEdgeLess_order _) _ _ Hab) in Hba. done. }
    apply (stdpp.sorting.StronglySorted_unique (λ a b, graphEdgeLess (nodesByID X) a b = true)); [apply gr_Edges_sorted| |].
    + eapply StronglySorted_change; [|apply gr_Edges_sorted]. intros a b Ha Hb Hless. apply Hedges2 in Ha, Hb.
      by rewrite <-(cs_edgeLess _ _ Hcx a b Ha Hb).
    + apply NoDup_Permutation; [apply gr_Edges_once|apply gr_Edges_once|]. exact Hedges2.
Qed.
End store.

(** ** Lemmas: the requests *)

Section validated.
Context `{UnicodeTables, ULIDLaws}.

Lemma checkGraphTypes_valid seen values : checkGraphTypes seen values = Ok tt →
  Forall (λ type, RelationType_Valid type = true) values.
Proof.
  revert seen. induction values as [|value values IH]; intros seen Hc; cbn in Hc; [done|]. inv_ok. bool_simpl.
  constructor; [done|by eapply IH].
Qed.
Lemma GetIssueGraphInput_valid input v : GetIssueGraphInput_Validate input = Ok v →
  ∃ identifier depth nodes hierarchy terminal,
    ParseIssueIdentifier (gg_RootIssueID v) = Ok identifier ∧
    v = mkIssueGraphInput (gg_RootIssueID v) (Some depth) (gg_Direction v) (gg_RelationTypes v) (Some hierarchy) (Some terminal) (Some nodes) "compact" ∧
    (0 <= depth <= MaxGraphDepth)%Z ∧ (1 <= nodes <= MaxGraphNodes)%Z ∧
    Forall (λ type, RelationType_Valid type = true) (gg_RelationTypes v) ∧ GraphDirection_Valid (gg_Direction v) = true.
Proof.
  unfold GetIssueGraphInput_Validate, graphIdentifier. intros Hv. apply result_bind_Ok in Hv as (root & Hroot & Hv).
  apply result_bind_Ok in Hv as ([depth nodes] & Hb & Hv). cbv zeta beta in Hv. inv_ok.
  unfold graphBounds in Hb. cbv zeta in Hb. inv_ok. bool_simpl. destruct (ParseIssueIdentifier (gg_RootIssueID input)) as [identifier|] eqn:Hp; [|done].
  inv_ok. cbn [gg_RootIssueID gg_Direction gg_RelationTypes].
  do 5 eexists. split; [by eapply ParseIssueIdentifier_idemp|]. split; [done|]. split; [lia|]. split; [lia|]. split; [|done].
  match goal with Ht : graphRelationTypes _ = Ok _ |- _ => revert Ht end. unfold graphRelationTypes. destruct (null _); [by intros [= <-]; repeat constructor|].
  destruct (checkGraphTypes [] _) as [[]|] eqn:Hc; [|done]. intros [= <-]. by eapply checkGraphTypes_valid.
Qed.
End validated.

(** * Properties *)

(** C17. [get_issue_graph] answers as if it had loaded the whole board.  A valid
    request for an issue that does not exist or is archived is refused; any
    other one gets a graph that is marked truncated exactly when the traversal
    of all live issues and relations is, and otherwise has the same nodes, in
    full, and the same edges, although only the candidates of the root were
    loaded, level by level, in batches, and the graph was built twice. *)
Theorem GetIssueGraph_full `{UnicodeTables, ULIDLaws} s now input v :
  schema_ok s → GetIssueGraphInput_Validate input = Ok v →
  ∃ identifier, ParseIssueIdentifier (gg_RootIssueID v) = Ok identifier ∧
  match findIssue identifier s with
  | None => GetIssueGraph input now s = Err (NewError CodeIssueNotFound "issue not found" false [])
  | Some root =>
      if isSet (i_ArchivedAt root) then GetIssueGraph input now s = Err (NewError CodeIssueArchived "issue is archived" false [])
      else
        let whole := BuildGraph (fullGraph (Some (i_ID root)) now s) (withRoots [i_ID root] (i_ID root) (issueGraphTraversal v)) in
        ∃ r, GetIssueGraph input now s = Ok r ∧ gr_Truncated r = gr_Truncated whole ∧
          (gr_Truncated whole = false → gr_Nodes r ≡ₚ gr_Nodes whole ∧ gr_Edges r = gr_Edges whole)
  end.
Proof.
  intros Hok Hv. destruct (GetIssueGraphInput_valid _ _ Hv) as (identifier & depth & nodes & hierarchy & terminal & Hp & Heq & Hd & Hn & Ht & _).
  exists identifier. split; [done|]. unfold GetIssueGraph. rewrite Hv. cbn [mbind result_bind]. rewrite Hp. cbn [mbind result_bind].
  unfold LoadGraph, loadGraphRoot. destruct (findIssue identifier s) as [root|] eqn:Hf; [|done].
  destruct (isSet (i_ArchivedAt root)) eqn:Ha; [done|]. cbn [mbind result_bind]. cbv zeta. pose proof (findIssue_Some _ _ _ Hok Hf) as Hroot.
  set (t := withRoots [i_ID root] (i_ID root) (issueGraphTraversal v)).
  assert (Hdepth : gt_Depth t = depth ∧ gt_MaxNodes t = nodes ∧ gt_RelationTypes t = gg_RelationTypes v) by (unfold t; rewrite Heq; done).
  destruct Hdepth as (Hdt & Hnt & Htt).
  destruct (selected_agrees s now (ok_issues _ Hok) (ok_relations _ Hok) (i_ID root) t eq_refl) with (t0 := issueGraphTraversal v)
    as (r & Hr & Hagree); [by rewrite Htt|done| |lia|done| |].
  - unfold liveIssue. rewrite Hroot, Ha. done.
  - split; try done; lia.
  - exists r. rewrite Hr. by split.
Qed.

(** ** Witnesses *)

Definition sampleGraphInput : GetIssueGraphInput := mkIssueGraphInput "issue-1" None "" [] None None None "".

(** Issue 1 blocks issue 2; the planning graph has both. *)
Example sample_issue_graph :
  (λ r, (map ip_ID (gr_Nodes r), gr_Edges r, gr_EntryPoints r, gr_Truncated r)) <$> GetIssueGraph sampleGraphInput T0 recordsRelated =
    Ok ([ulid_of "1"; ulid_of "2"], [mkGraphEdge (ulid_of "1") (ulid_of "2") RelationTypeBlocks], [ulid_of "1"], false) ∧
  (λ r, map ip_ID (gr_Nodes r)) <$> GetPlanningGraph (mkPlanningGraphInput None None None None None None) T0 boardChild =
    Ok [ulid_of "1"; ulid_of "2"; ulid_of "5"; ulid_of "6"].
Proof. split; by vm_compute. Qed.

Definition relatedRoot : option Issue :=
  Eval vm_compute in findIssue (mkIdentifier IssueIdentifierDisplayID "ISSUE-1" 1) recordsRelated.
Lemma relatedRoot_found : findIssue (mkIdentifier IssueIdentifierDisplayID "ISSUE-1" 1) recordsRelated = relatedRoot.
Proof. by vm_compute. Qed.

Lemma GetIssueGraph_full_witness : ∃ r,
  GetIssueGraph sampleGraphInput T0 recordsRelated = Ok r ∧
  gr_Edges r = gr_Edges (BuildGraph (fullGraph (Some (ulid_of "1")) T0 recordsRelated)
    (withRoots [ulid_of "1"] (ulid_of "1") (issueGraphTraversal
       (mkIssueGraphInput "ISSUE-1" (Some 2%Z) GraphDirectionBoth [RelationTypeBlocks; RelationTypeRelatedTo; RelationTypeDuplicates]
          (Some true) (Some true) (Some 100%Z) "compact")))).
Proof.
  destruct (GetIssueGraph_full recordsRelated T0 sampleGraphInput
    (mkIssueGraphInput "ISSUE-1" (Some 2%Z) GraphDirectionBoth [RelationTypeBlocks; RelationTypeRelatedTo; RelationTypeDuplicates]
       (Some true) (Some true) (Some 100%Z) "compact")) as (identifier & Hp & Hcase).
  { exact (reachable_schema _ recordsRelated_reachable). }
  { by vm_compute. }
  vm_compute in Hp. injection Hp as <-. rewrite relatedRoot_found in Hcase. cbv beta iota delta [relatedRoot isSet i_ArchivedAt i_ID] in Hcase.
  destruct Hcase as (r & Hr & _ & Hall). exists r. split; [exact Hr|]. apply Hall. by vm_compute.
Defined.
