(* ===== verification/Interchange.v ===== *)
(** * The interchange document

    [internal/domain/logical_project_export.go]: the records of a logical
    project document and of its two extension namespaces, and how
    [encoding/json] decodes them with unknown fields disallowed.

    A JSON value inside a document is its text, as in [json.RawMessage]: a
    decoder is given the text of a value and the value the variable already
    holds.  Nil and empty slices of records are one empty list; for the slices
    of strings, which the importer tells apart, nil is [None].  The text of a
    decoding error is the parameter [JSONErrors]. *)

From S2P Require Import Prelude GoStrings Errors Encoding.

(** ** Texts of values *)

(** The text of the value that starts at [s], and what follows it. *)
Definition value_text (s : list ascii) : option (string * list ascii) :=
  let s := skip_space s in
  '(_, rest) ← json_value (2 * length s + 2) s;
  Some (of_bytes (take (length s - length rest) s), rest).

(** The members of an object after its opening brace, the elements of an array
    after its opening bracket: one round per member, which reads a byte. *)
Fixpoint member_texts (fuel : nat) (s : list ascii) : option (list (string * string)) :=
  match fuel with
  | O => None
  | S fuel =>
      match skip_space s with
      | q :: r =>
          if negb (is_byte 34 q) then None else
          '(name, rest) ← string_body r;
          match skip_space rest with
          | k :: r =>
              if negb (is_byte 58 k) then None else
              '(v, rest) ← value_text r;
              match skip_space rest with
              | c :: r =>
                  if is_byte 125 c then Some [(to_valid name, v)]
                  else if is_byte 44 c then ms ← member_texts fuel r; Some ((to_valid name, v) :: ms)
                  else None
              | [] => None
              end
          | [] => None
          end
      | [] => None
      end
  end.
Fixpoint element_texts (fuel : nat) (s : list ascii) : option (list string) :=
  match fuel with
  | O => None
  | S fuel =>
      '(v, rest) ← value_text s;
      match skip_space rest with
      | c :: r =>
          if is_byte 93 c then Some [v]
          else if is_byte 44 c then vs ← element_texts fuel r; Some (v :: vs)
          else None
      | [] => None
      end
  end.

(** The members of an object, the elements of an array; [None] of another
    value. *)
Definition object_members (text : string) : option (list (string * string)) :=
  match skip_space (bytes text) with
  | c :: r =>
      if negb (is_byte 123 c) then None else
      match skip_space r with
      | d :: _ => if is_byte 125 d then Some [] else member_texts (length r) r
      | [] => None
      end
  | [] => None
  end.
Definition array_elements (text : string) : option (list string) :=
  match skip_space (bytes text) with
  | c :: r =>
      if negb (is_byte 91 c) then None else
      match skip_space r with
      | d :: _ => if is_byte 93 d then Some [] else element_texts (length r) r
      | [] => None
      end
  | [] => None
  end.

(** ** Decoders *)

(** A value of the text over the value the variable holds. *)
Definition Decoder (A : Type) : Type := string → A → option A.

Definition scalar {A} (convert : json → A → option A) : Decoder A := λ text old,
  v ← json_parse text; convert v old.
Definition string_of : Decoder string := scalar string_of_json.
Definition int_of : Decoder Z := scalar int_of_json.
Definition bool_of : Decoder bool := scalar bool_of_json.

Definition is_null (text : string) : bool :=
  match json_parse text with Some JNull => true | _ => false end.

(** [*T]: [null] is nil; another value is decoded into what the pointer points
    to, or into a new zero value. *)
Definition pointer_of {A} (decode : Decoder A) (zero : A) : Decoder (option A) := λ text old,
  if is_null text then Some None else v ← decode text (default zero old); Some (Some v).

(** [json.RawMessage]: the text, that of [null] too. *)
Definition raw_of : Decoder string := λ text _, Some text.

(** Slices: an element is decoded over the element of the same index. *)
Fixpoint decode_elements {A} (decode : Decoder A) (zero : A) (texts : list string) (old : list A) : option (list A) :=
  match texts with
  | [] => Some []
  | text :: texts =>
      v ← decode text (default zero (head old));
      vs ← decode_elements decode zero texts (tail old);
      Some (v :: vs)
  end.
Definition slice_of {A} (decode : Decoder A) (zero : A) : Decoder (option (list A)) := λ text old,
  if is_null text then Some None
  else texts ← array_elements text; vs ← decode_elements decode zero texts (default [] old); Some (Some vs).
Definition list_of {A} (decode : Decoder A) (zero : A) : Decoder (list A) := λ text old,
  v ← slice_of decode zero text (Some old); Some (default [] v).

(** [map[string]json.RawMessage]: members are added to the map. *)
Definition raw_map_of : Decoder (gmap string string) := λ text old,
  if is_null text then Some ∅
  else ms ← object_members text; Some (foldl (λ m member, <[ member.1 := member.2 ]> m) old ms).

(** Structs: a member goes to the field of its name, else to the first field
    whose name folds to the same; there is no such field is an error. *)
Definition field_named (fields : list string) (name : string) : option string :=
  match List.find (λ f, f =s name) fields with
  | Some f => Some f
  | None => List.find (λ f, bool_decide (fold_name f = fold_name name)) fields
  end.
Definition resolve_member (fields : list string) (member : string * string) : option (string * string) :=
  name ← field_named fields member.1; Some (name, member.2).

(** A field's value: its members in order, each over the one before. *)
Definition load {A} (decode : Decoder A) (name : string) (old : A) (ms : list (string * string)) : option A :=
  foldl (λ acc member, v ← acc; if member.1 =s name then decode member.2 v else Some v) (Some old) ms.

Definition struct_of {T} (fields : list string) (build : list (string * string) → T → option T) : Decoder T :=
  λ text old,
    if is_null text then Some old
    else ms ← object_members text; ms ← mapM (resolve_member fields) ms; build ms old.

(** [Decoder.Decode] with unknown fields disallowed: the first value of the
    text.  The decoder refuses values nested deeper than 10000. *)
Definition maxNestingDepth : Z := 10000.
Fixpoint depth (v : json) : Z :=
  match v with
  | JArray elements => (1 + foldr (λ e acc, Z.max (depth e) acc) 0 elements)%Z
  | JObject members => (1 + foldr (λ '(_, e) acc, Z.max (depth e) acc) 0 members)%Z
  | _ => 0%Z
  end.
Definition first_value (s : string) : option (json * string * list ascii) :=
  let s := skip_space (bytes s) in
  '(v, rest) ← json_value (2 * length s + 2) s;
  if (maxNestingDepth <? depth v)%Z then None
  else Some (v, of_bytes (take (length s - length rest) s), rest).
Definition decode_first {A} (decode : Decoder A) (zero : A) (s : string) : option A :=
  '(_, text, _) ← first_value s; decode text zero.

(** [json.Valid]. *)
Definition json_Valid (s : string) : bool :=
  match first_value s with Some (_, _, rest) => null (skip_space rest) | None => false end.

(** The text of the error [encoding/json] reports at a place of the document:
    the program copies it into a message and does not look at it. *)
Class JSONErrors := { json_error : string → string → string }.

(** ** Records of the document *)

Record LogicalProjectProject := mkLogicalProjectProject {
  lpr_ID : string; lpr_Name : option string; lpr_Instructions : option string; lpr_CreatedAt : string;
  lpr_UpdatedAt : string;
}.
Definition LogicalProjectProject_zero : LogicalProjectProject :=
  mkLogicalProjectProject "" None None "" "".
Definition LogicalProjectProject_fields : list string :=
  ["id"; "name"; "instructions"; "created_at"; "updated_at"].
Definition LogicalProjectProject_of : Decoder LogicalProjectProject :=
  struct_of LogicalProjectProject_fields (λ ms old,
    id ← load string_of "id" (lpr_ID old) ms; name ← load (pointer_of string_of "") "name" (lpr_Name old) ms;
    instructions ← load (pointer_of string_of "") "instructions" (lpr_Instructions old) ms;
    created_at ← load string_of "created_at" (lpr_CreatedAt old) ms;
    updated_at ← load string_of "updated_at" (lpr_UpdatedAt old) ms;
    Some (mkLogicalProjectProject id name instructions created_at updated_at)).

Record LogicalIssue := mkLogicalIssue {
  lis_ID : string; lis_Type : string; lis_Title : string; lis_Description : option string;
  lis_AcceptanceCriteria : option string; lis_Status : string; lis_Priority : string;
  lis_ParentID : option string; lis_BlockedReason : option string; lis_CreatedBySessionID : option string;
  lis_CreatedAt : string; lis_UpdatedAt : string; lis_ClosedAt : option string; lis_Version : option Z;
}.
Definition LogicalIssue_zero : LogicalIssue :=
  mkLogicalIssue "" "" "" None None "" "" None None None "" "" None None.
Definition LogicalIssue_fields : list string :=
  ["id"; "type"; "title"; "description"; "acceptance_criteria"; "status"; "priority"; "parent_id";
   "blocked_reason"; "created_by_session_id"; "created_at"; "updated_at"; "closed_at"; "version"].
Definition LogicalIssue_of : Decoder LogicalIssue :=
  struct_of LogicalIssue_fields (λ ms old,
    id ← load string_of "id" (lis_ID old) ms; type ← load string_of "type" (lis_Type old) ms;
    title ← load string_of "title" (lis_Title old) ms;
    description ← load (pointer_of string_of "") "description" (lis_Description old) ms;
    acceptance_criteria ← load (pointer_of string_of "") "acceptance_criteria" (lis_AcceptanceCriteria old) ms;
    status ← load string_of "status" (lis_Status old) ms;
    priority ← load string_of "priority" (lis_Priority old) ms;
    parent_id ← load (pointer_of string_of "") "parent_id" (lis_ParentID old) ms;
    blocked_reason ← load (pointer_of string_of "") "blocked_reason" (lis_BlockedReason old) ms;
    created_by_session_id ← load (pointer_of string_of "") "created_by_session_id" (lis_CreatedBySessionID old) ms;
    created_at ← load string_of "created_at" (lis_CreatedAt old) ms;
    updated_at ← load string_of "updated_at" (lis_UpdatedAt old) ms;
    closed_at ← load (pointer_of string_of "") "closed_at" (lis_ClosedAt old) ms;
    version ← load (pointer_of int_of 0%Z) "version" (lis_Version old) ms;
    Some (mkLogicalIssue id type title description acceptance_criteria status priority parent_id blocked_reason
      created_by_session_id created_at updated_at closed_at version)).

Record LogicalLabel := mkLogicalLabel {
  lla_ID : string; lla_Name : string; lla_Description : option string; lla_CreatedAt : string;
}.
Definition LogicalLabel_zero : LogicalLabel :=
  mkLogicalLabel "" "" None "".
Definition LogicalLabel_fields : list string :=
  ["id"; "name"; "description"; "created_at"].
Definition LogicalLabel_of : Decoder LogicalLabel :=
  struct_of LogicalLabel_fields (λ ms old,
    id ← load string_of "id" (lla_ID old) ms; name ← load string_of "name" (lla_Name old) ms;
    description ← load (pointer_of string_of "") "description" (lla_Description old) ms;
    created_at ← load string_of "created_at" (lla_CreatedAt old) ms;
    Some (mkLogicalLabel id name description created_at)).

Record LogicalIssueLabel := mkLogicalIssueLabel {
  lil_IssueID : string; lil_LabelID : string;
}.
Definition LogicalIssueLabel_zero : LogicalIssueLabel :=
  mkLogicalIssueLabel "" "".
Definition LogicalIssueLabel_fields : list string :=
  ["issue_id"; "label_id"].
Definition LogicalIssueLabel_of : Decoder LogicalIssueLabel :=
  struct_of LogicalIssueLabel_fields (λ ms old,
    issue_id ← load string_of "issue_id" (lil_IssueID old) ms;
    label_id ← load string_of "label_id" (lil_LabelID old) ms;
    Some (mkLogicalIssueLabel issue_id label_id)).

Record LogicalRelation := mkLogicalRelation {
  lre_ID : string; lre_SourceIssueID : string; lre_TargetIssueID : string; lre_Type : string;
  lre_CreatedBySessionID : option string; lre_CreatedAt : string;
}.
Definition LogicalRelation_zero : LogicalRelation :=
  mkLogicalRelation "" "" "" "" None "".
Definition LogicalRelation_fields : list string :=
  ["id"; "source_issue_id"; "target_issue_id"; "type"; "created_by_session_id"; "created_at"].
Definition LogicalRelation_of : Decoder LogicalRelation :=
  struct_of LogicalRelation_fields (λ ms old,
    id ← load string_of "id" (lre_ID old) ms;
    source_issue_id ← load string_of "source_issue_id" (lre_SourceIssueID old) ms;
    target_issue_id ← load string_of "target_issue_id" (lre_TargetIssueID old) ms;
    type ← load string_of "type" (lre_Type old) ms;
    created_by_session_id ← load (pointer_of string_of "") "created_by_session_id" (lre_CreatedBySessionID old) ms;
    created_at ← load string_of "created_at" (lre_CreatedAt old) ms;
    Some (mkLogicalRelation id source_issue_id target_issue_id type created_by_session_id created_at)).

Record LogicalComment := mkLogicalComment {
  lco_ID : string; lco_IssueID : string; lco_Content : string; lco_CreatedBySessionID : option string;
  lco_AuthorLabel : option string; lco_CreatedAt : string; lco_EditedAt : option string;
}.
Definition LogicalComment_zero : LogicalComment :=
  mkLogicalComment "" "" "" None None "" None.
Definition LogicalComment_fields : list string :=
  ["id"; "issue_id"; "content"; "created_by_session_id"; "author_label"; "created_at"; "edited_at"].
Definition LogicalComment_of : Decoder LogicalComment :=
  struct_of LogicalComment_fields (λ ms old,
    id ← load string_of "id" (lco_ID old) ms; issue_id ← load string_of "issue_id" (lco_IssueID old) ms;
    content ← load string_of "content" (lco_Content old) ms;
    created_by_session_id ← load (pointer_of string_of "") "created_by_session_id" (lco_CreatedBySessionID old) ms;
    author_label ← load (pointer_of string_of "") "author_label" (lco_AuthorLabel old) ms;
    created_at ← load string_of "created_at" (lco_CreatedAt old) ms;
    edited_at ← load (pointer_of string_of "") "edited_at" (lco_EditedAt old) ms;
    Some (mkLogicalComment id issue_id content created_by_session_id author_label created_at edited_at)).

Record LogicalDecision := mkLogicalDecision {
  lde_ID : string; lde_IssueID : option string; lde_Title : string; lde_Summary : string; lde_Content : string;
  lde_Status : string; lde_SupersedesID : option string; lde_CreatedBySessionID : option string;
  lde_CreatedAt : string;
}.
Definition LogicalDecision_zero : LogicalDecision :=
  mkLogicalDecision "" None "" "" "" "" None None "".
Definition LogicalDecision_fields : list string :=
  ["id"; "issue_id"; "title"; "summary"; "content"; "status"; "supersedes_id"; "created_by_session_id";
   "created_at"].
Definition LogicalDecision_of : Decoder LogicalDecision :=
  struct_of LogicalDecision_fields (λ ms old,
    id ← load string_of "id" (lde_ID old) ms;
    issue_id ← load (pointer_of string_of "") "issue_id" (lde_IssueID old) ms;
    title ← load string_of "title" (lde_Title old) ms; summary ← load string_of "summary" (lde_Summary old) ms;
    content ← load string_of "content" (lde_Content old) ms;
    status ← load string_of "status" (lde_Status old) ms;
    supersedes_id ← load (pointer_of string_of "") "supersedes_id" (lde_SupersedesID old) ms;
    created_by_session_id ← load (pointer_of string_of "") "created_by_session_id" (lde_CreatedBySessionID old) ms;
    created_at ← load string_of "created_at" (lde_CreatedAt old) ms;
    Some (mkLogicalDecision id issue_id title summary content status supersedes_id created_by_session_id
      created_at)).

Record LogicalAttempt := mkLogicalAttempt {
  lat_ID : string; lat_IssueID : string; lat_SessionID : option string; lat_AgentLabel : option string;
  lat_Kind : string; lat_Status : string; lat_IssueVersionAtStart : Z; lat_ContextEventIDAtStart : Z;
  lat_LeaseExpiresAt : string; lat_StartedAt : string; lat_LastHeartbeatAt : string;
  lat_FinishedAt : option string; lat_ResultSummary : option string; lat_NextSteps : option (list string);
  lat_Verification : option (list string); lat_FailureReasonCode : option string;
  lat_InterruptionReasonCode : option string; lat_ReasonDetails : option string;
}.
Definition LogicalAttempt_zero : LogicalAttempt :=
  mkLogicalAttempt "" "" None None "" "" 0%Z 0%Z "" "" "" None None None None None None None.
Definition LogicalAttempt_fields : list string :=
  ["id"; "issue_id"; "session_id"; "agent_label"; "kind"; "status"; "issue_version_at_start";
   "context_event_id_at_start"; "lease_expires_at"; "started_at"; "last_heartbeat_at"; "finished_at";
   "result_summary"; "next_steps"; "verification"; "failure_reason_code"; "interruption_reason_code";
   "reason_details"].
Definition LogicalAttempt_of : Decoder LogicalAttempt :=
  struct_of LogicalAttempt_fields (λ ms old,
    id ← load string_of "id" (lat_ID old) ms; issue_id ← load string_of "issue_id" (lat_IssueID old) ms;
    session_id ← load (pointer_of string_of "") "session_id" (lat_SessionID old) ms;
    agent_label ← load (pointer_of string_of "") "agent_label" (lat_AgentLabel old) ms;
    kind ← load string_of "kind" (lat_Kind old) ms; status ← load string_of "status" (lat_Status old) ms;
    issue_version_at_start ← load int_of "issue_version_at_start" (lat_IssueVersionAtStart old) ms;
    context_event_id_at_start ← load int_of "context_event_id_at_start" (lat_ContextEventIDAtStart old) ms;
    lease_expires_at ← load string_of "lease_expires_at" (lat_LeaseExpiresAt old) ms;
    started_at ← load string_of "started_at" (lat_StartedAt old) ms;
    last_heartbeat_at ← load string_of "last_heartbeat_at" (lat_LastHeartbeatAt old) ms;
    finished_at ← load (pointer_of string_of "") "finished_at" (lat_FinishedAt old) ms;
    result_summary ← load (pointer_of string_of "") "result_summary" (lat_ResultSummary old) ms;
    next_steps ← load (slice_of string_of "") "next_steps" (lat_NextSteps old) ms;
    verification ← load (slice_of string_of "") "verification" (lat_Verification old) ms;
    failure_reason_code ← load (pointer_of string_of "") "failure_reason_code" (lat_FailureReasonCode old) ms;
    interruption_reason_code ← load (pointer_of string_of "") "interruption_reason_code" (lat_InterruptionReasonCode old) ms;
    reason_details ← load (pointer_of string_of "") "reason_details" (lat_ReasonDetails old) ms;
    Some (mkLogicalAttempt id issue_id session_id agent_label kind status issue_version_at_start
      context_event_id_at_start lease_expires_at started_at last_heartbeat_at finished_at result_summary
      next_steps verification failure_reason_code interruption_reason_code reason_details)).

Record LogicalAttemptNote := mkLogicalAttemptNote {
  lno_ID : string; lno_AttemptID : string; lno_Kind : string; lno_Content : string;
  lno_NextSteps : option (list string); lno_Important : bool; lno_CreatedAt : string;
}.
Definition LogicalAttemptNote_zero : LogicalAttemptNote :=
  mkLogicalAttemptNote "" "" "" "" None false "".
Definition LogicalAttemptNote_fields : list string :=
  ["id"; "attempt_id"; "kind"; "content"; "next_steps"; "important"; "created_at"].
Definition LogicalAttemptNote_of : Decoder LogicalAttemptNote :=
  struct_of LogicalAttemptNote_fields (λ ms old,
    id ← load string_of "id" (lno_ID old) ms; attempt_id ← load string_of "attempt_id" (lno_AttemptID old) ms;
    kind ← load string_of "kind" (lno_Kind old) ms; content ← load string_of "content" (lno_Content old) ms;
    next_steps ← load (slice_of string_of "") "next_steps" (lno_NextSteps old) ms;
    important ← load bool_of "important" (lno_Important old) ms;
    created_at ← load string_of "created_at" (lno_CreatedAt old) ms;
    Some (mkLogicalAttemptNote id attempt_id kind content next_steps important created_at)).

Record LogicalArtifact := mkLogicalArtifact {
  lar_ID : string; lar_IssueID : string; lar_AttemptID : option string; lar_Type : string; lar_URI : string;
  lar_Title : option string; lar_Metadata : string; lar_CreatedAt : string;
}.
Definition LogicalArtifact_zero : LogicalArtifact :=
  mkLogicalArtifact "" "" None "" "" None "" "".
Definition LogicalArtifact_fields : list string :=
  ["id"; "issue_id"; "attempt_id"; "type"; "uri"; "title"; "metadata"; "created_at"].
Definition LogicalArtifact_of : Decoder LogicalArtifact :=
  struct_of LogicalArtifact_fields (λ ms old,
    id ← load string_of "id" (lar_ID old) ms; issue_id ← load string_of "issue_id" (lar_IssueID old) ms;
    attempt_id ← load (pointer_of string_of "") "attempt_id" (lar_AttemptID old) ms;
    type ← load string_of "type" (lar_Type old) ms; uri ← load string_of "uri" (lar_URI old) ms;
    title ← load (pointer_of string_of "") "title" (lar_Title old) ms;
    metadata ← load raw_of "metadata" (lar_Metadata old) ms;
    created_at ← load string_of "created_at" (lar_CreatedAt old) ms;
    Some (mkLogicalArtifact id issue_id attempt_id type uri title metadata created_at)).

Record LogicalEvent := mkLogicalEvent {
  lev_SourceID : Z; lev_IssueID : option string; lev_EventType : string; lev_SessionID : option string;
  lev_AttemptID : option string; lev_Payload : string; lev_CreatedAt : string; lev_Source : string;
}.
Definition LogicalEvent_zero : LogicalEvent :=
  mkLogicalEvent 0%Z None "" None None "" "" "".
Definition LogicalEvent_fields : list string :=
  ["source_id"; "issue_id"; "event_type"; "session_id"; "attempt_id"; "payload"; "created_at"; "source"].
Definition LogicalEvent_of : Decoder LogicalEvent :=
  struct_of LogicalEvent_fields (λ ms old,
    source_id ← load int_of "source_id" (lev_SourceID old) ms;
    issue_id ← load (pointer_of string_of "") "issue_id" (lev_IssueID old) ms;
    event_type ← load string_of "event_type" (lev_EventType old) ms;
    session_id ← load (pointer_of string_of "") "session_id" (lev_SessionID old) ms;
    attempt_id ← load (pointer_of string_of "") "attempt_id" (lev_AttemptID old) ms;
    payload ← load raw_of "payload" (lev_Payload old) ms;
    created_at ← load string_of "created_at" (lev_CreatedAt old) ms;
    source ← load string_of "source" (lev_Source old) ms;
    Some (mkLogicalEvent source_id issue_id event_type session_id attempt_id payload created_at source)).

Record LogicalReviewTarget := mkLogicalReviewTarget {
  lrt_ID : string; lrt_IssueID : string; lrt_IssueVersion : Z; lrt_LatestEventID : Z;
  lrt_ArtifactIDs : option (list string); lrt_Purposes : option (list string); lrt_CreatedAt : string;
}.
Definition LogicalReviewTarget_zero : LogicalReviewTarget :=
  mkLogicalReviewTarget "" "" 0%Z 0%Z None None "".
Definition LogicalReviewTarget_fields : list string :=
  ["id"; "issue_id"; "issue_version"; "latest_event_id"; "artifact_ids"; "purposes"; "created_at"].
Definition LogicalReviewTarget_of : Decoder LogicalReviewTarget :=
  struct_of LogicalReviewTarget_fields (λ ms old,
    id ← load string_of "id" (lrt_ID old) ms; issue_id ← load string_of "issue_id" (lrt_IssueID old) ms;
    issue_version ← load int_of "issue_version" (lrt_IssueVersion old) ms;
    latest_event_id ← load int_of "latest_event_id" (lrt_LatestEventID old) ms;
    artifact_ids ← load (slice_of string_of "") "artifact_ids" (lrt_ArtifactIDs old) ms;
    purposes ← load (slice_of string_of "") "purposes" (lrt_Purposes old) ms;
    created_at ← load string_of "created_at" (lrt_CreatedAt old) ms;
    Some (mkLogicalReviewTarget id issue_id issue_version latest_event_id artifact_ids purposes created_at)).

Record LogicalReviewRequest := mkLogicalReviewRequest {
  lrr_ID : string; lrr_TargetID : string; lrr_IssueID : string; lrr_TargetIssueVersion : Z;
  lrr_TargetEventID : Z; lrr_ArtifactIDs : option (list string); lrr_Purposes : option (list string);
  lrr_Status : string; lrr_SupersedesID : option string; lrr_CreatedAt : string; lrr_ResolvedAt : option string;
}.
Definition LogicalReviewRequest_zero : LogicalReviewRequest :=
  mkLogicalReviewRequest "" "" "" 0%Z 0%Z None None "" None "" None.
Definition LogicalReviewRequest_fields : list string :=
  ["id"; "target_id"; "issue_id"; "target_issue_version"; "target_event_id"; "artifact_ids"; "purposes";
   "status"; "supersedes_id"; "created_at"; "resolved_at"].
Definition LogicalReviewRequest_of : Decoder LogicalReviewRequest :=
  struct_of LogicalReviewRequest_fields (λ ms old,
    id ← load string_of "id" (lrr_ID old) ms; target_id ← load string_of "target_id" (lrr_TargetID old) ms;
    issue_id ← load string_of "issue_id" (lrr_IssueID old) ms;
    target_issue_version ← load int_of "target_issue_version" (lrr_TargetIssueVersion old) ms;
    target_event_id ← load int_of "target_event_id" (lrr_TargetEventID old) ms;
    artifact_ids ← load (slice_of string_of "") "artifact_ids" (lrr_ArtifactIDs old) ms;
    purposes ← load (slice_of string_of "") "purposes" (lrr_Purposes old) ms;
    status ← load string_of "status" (lrr_Status old) ms;
    supersedes_id ← load (pointer_of string_of "") "supersedes_id" (lrr_SupersedesID old) ms;
    created_at ← load string_of "created_at" (lrr_CreatedAt old) ms;
    resolved_at ← load (pointer_of string_of "") "resolved_at" (lrr_ResolvedAt old) ms;
    Some (mkLogicalReviewRequest id target_id issue_id target_issue_version target_event_id artifact_ids
      purposes status supersedes_id created_at resolved_at)).

Record LogicalReviewOutcome := mkLogicalReviewOutcome {
  lro_ID : string; lro_RequestID : string; lro_AttemptID : string; lro_Outcome : string;
  lro_Reason : option string; lro_CreatedAt : string;
}.
Definition LogicalReviewOutcome_zero : LogicalReviewOutcome :=
  mkLogicalReviewOutcome "" "" "" "" None "".
Definition LogicalReviewOutcome_fields : list string :=
  ["id"; "request_id"; "attempt_id"; "outcome"; "reason"; "created_at"].
Definition LogicalReviewOutcome_of : Decoder LogicalReviewOutcome :=
  struct_of LogicalReviewOutcome_fields (λ ms old,
    id ← load string_of "id" (lro_ID old) ms; request_id ← load string_of "request_id" (lro_RequestID old) ms;
    attempt_id ← load string_of "attempt_id" (lro_AttemptID old) ms;
    outcome ← load string_of "outcome" (lro_Outcome old) ms;
    reason ← load (pointer_of string_of "") "reason" (lro_Reason old) ms;
    created_at ← load string_of "created_at" (lro_CreatedAt old) ms;
    Some (mkLogicalReviewOutcome id request_id attempt_id outcome reason created_at)).

Record LogicalReviewEvent := mkLogicalReviewEvent {
  lrv_SourceID : Z; lrv_RequestID : string; lrv_TargetID : string; lrv_AttemptID : option string;
  lrv_EventType : string; lrv_Payload : string; lrv_CreatedAt : string;
}.
Definition LogicalReviewEvent_zero : LogicalReviewEvent :=
  mkLogicalReviewEvent 0%Z "" "" None "" "" "".
Definition LogicalReviewEvent_fields : list string :=
  ["source_id"; "request_id"; "target_id"; "attempt_id"; "event_type"; "payload"; "created_at"].
Definition LogicalReviewEvent_of : Decoder LogicalReviewEvent :=
  struct_of LogicalReviewEvent_fields (λ ms old,
    source_id ← load int_of "source_id" (lrv_SourceID old) ms;
    request_id ← load string_of "request_id" (lrv_RequestID old) ms;
    target_id ← load string_of "target_id" (lrv_TargetID old) ms;
    attempt_id ← load (pointer_of string_of "") "attempt_id" (lrv_AttemptID old) ms;
    event_type ← load string_of "event_type" (lrv_EventType old) ms;
    payload ← load raw_of "payload" (lrv_Payload old) ms;
    created_at ← load string_of "created_at" (lrv_CreatedAt old) ms;
    Some (mkLogicalReviewEvent source_id request_id target_id attempt_id event_type payload created_at)).

Record LogicalProjectDocument := mkLogicalProjectDocument {
  ldo_Format : string; ldo_Version : Z; ldo_ExportedAt : string; ldo_Project : LogicalProjectProject;
  ldo_Issues : list LogicalIssue; ldo_Labels : list LogicalLabel; ldo_IssueLabels : list LogicalIssueLabel;
  ldo_Relations : list LogicalRelation; ldo_Comments : list LogicalComment;
  ldo_Decisions : list LogicalDecision; ldo_Attempts : list LogicalAttempt;
  ldo_AttemptNotes : list LogicalAttemptNote; ldo_Artifacts : list LogicalArtifact;
  ldo_Events : list LogicalEvent; ldo_ReviewTargets : list LogicalReviewTarget;
  ldo_ReviewRequests : list LogicalReviewRequest; ldo_ReviewOutcomes : list LogicalReviewOutcome;
  ldo_ReviewEvents : list LogicalReviewEvent; ldo_Extensions : gmap string string;
}.
Definition LogicalProjectDocument_zero : LogicalProjectDocument :=
  mkLogicalProjectDocument "" 0%Z "" LogicalProjectProject_zero [] [] [] [] [] [] [] [] [] [] [] [] [] [] ∅.
Definition LogicalProjectDocument_fields : list string :=
  ["format"; "version"; "exported_at"; "project"; "issues"; "labels"; "issue_labels"; "relations"; "comments";
   "decisions"; "attempts"; "attempt_notes"; "artifacts"; "events"; "review_targets"; "review_requests";
   "review_outcomes"; "review_events"; "extensions"].
Definition LogicalProjectDocument_of : Decoder LogicalProjectDocument :=
  struct_of LogicalProjectDocument_fields (λ ms old,
    format ← load string_of "format" (ldo_Format old) ms; version ← load int_of "version" (ldo_Version old) ms;
    exported_at ← load string_of "exported_at" (ldo_ExportedAt old) ms;
    project ← load LogicalProjectProject_of "project" (ldo_Project old) ms;
    issues ← load (list_of LogicalIssue_of LogicalIssue_zero) "issues" (ldo_Issues old) ms;
    labels ← load (list_of LogicalLabel_of LogicalLabel_zero) "labels" (ldo_Labels old) ms;
    issue_labels ← load (list_of LogicalIssueLabel_of LogicalIssueLabel_zero) "issue_labels" (ldo_IssueLabels old) ms;
    relations ← load (list_of LogicalRelation_of LogicalRelation_zero) "relations" (ldo_Relations old) ms;
    comments ← load (list_of LogicalComment_of LogicalComment_zero) "comments" (ldo_Comments old) ms;
    decisions ← load (list_of LogicalDecision_of LogicalDecision_zero) "decisions" (ldo_Decisions old) ms;
    attempts ← load (list_of LogicalAttempt_of LogicalAttempt_zero) "attempts" (ldo_Attempts old) ms;
    attempt_notes ← load (list_of LogicalAttemptNote_of LogicalAttemptNote_zero) "attempt_notes" (ldo_AttemptNotes old) ms;
    artifacts ← load (list_of LogicalArtifact_of LogicalArtifact_zero) "artifacts" (ldo_Artifacts old) ms;
    events ← load (list_of LogicalEvent_of LogicalEvent_zero) "events" (ldo_Events old) ms;
    review_targets ← load (list_of LogicalReviewTarget_of LogicalReviewTarget_zero) "review_targets" (ldo_ReviewTargets old) ms;
    review_requests ← load (list_of LogicalReviewRequest_of LogicalReviewRequest_zero) "review_requests" (ldo_ReviewRequests old) ms;
    review_outcomes ← load (list_of LogicalReviewOutcome_of LogicalReviewOutcome_zero) "review_outcomes" (ldo_ReviewOutcomes old) ms;
    review_events ← load (list_of LogicalReviewEvent_of LogicalReviewEvent_zero) "review_events" (ldo_ReviewEvents old) ms;
    extensions ← load raw_map_of "extensions" (ldo_Extensions old) ms;
    Some (mkLogicalProjectDocument format version exported_at project issues labels issue_labels relations
      comments decisions attempts attempt_notes artifacts events review_targets review_requests review_outcomes
      review_events extensions)).

(** ** Issue versions *)

Definition DefaultLogicalIssueVersion : Z := 1.
Definition LogicalIssueVersionForExport (version : Z) : option Z :=
  if (version =? DefaultLogicalIssueVersion)%Z then None else Some version.
Definition LogicalIssueVersionForImport (version : option Z) : Z :=
  match version with None => DefaultLogicalIssueVersion | Some version => version end.

Definition LogicalEventSourceIssue := "issue".
Definition LogicalEventSourceReview := "review".

(** ** Extension namespaces *)

Definition LogicalReservationsExtensionKey := "reservations".
Definition LogicalReservationsExtensionVersion : Z := 1.
Definition LogicalGatesExtensionKey := "gates".
Definition LogicalGatesExtensionVersion : Z := 1.

Record LogicalReservation := mkLogicalReservation {
  lrs_ID : string; lrs_IssueID : string; lrs_AttemptID : string; lrs_Kind : string; lrs_DisplayValue : string;
  lrs_ComparisonValue : string; lrs_NormalizedJSON : string; lrs_Status : string; lrs_CreatedAt : string;
  lrs_ReleasedAt : string; lrs_ReleaseReason : string;
}.
Definition LogicalReservation_zero : LogicalReservation :=
  mkLogicalReservation "" "" "" "" "" "" "" "" "" "" "".
Definition LogicalReservation_fields : list string :=
  ["id"; "issue_id"; "attempt_id"; "kind"; "display_value"; "comparison_value"; "normalized_json"; "status";
   "created_at"; "released_at"; "release_reason"].
Definition LogicalReservation_of : Decoder LogicalReservation :=
  struct_of LogicalReservation_fields (λ ms old,
    id ← load string_of "id" (lrs_ID old) ms; issue_id ← load string_of "issue_id" (lrs_IssueID old) ms;
    attempt_id ← load string_of "attempt_id" (lrs_AttemptID old) ms;
    kind ← load string_of "kind" (lrs_Kind old) ms;
    display_value ← load string_of "display_value" (lrs_DisplayValue old) ms;
    comparison_value ← load string_of "comparison_value" (lrs_ComparisonValue old) ms;
    normalized_json ← load raw_of "normalized_json" (lrs_NormalizedJSON old) ms;
    status ← load string_of "status" (lrs_Status old) ms;
    created_at ← load string_of "created_at" (lrs_CreatedAt old) ms;
    released_at ← load string_of "released_at" (lrs_ReleasedAt old) ms;
    release_reason ← load string_of "release_reason" (lrs_ReleaseReason old) ms;
    Some (mkLogicalReservation id issue_id attempt_id kind display_value comparison_value normalized_json status
      created_at released_at release_reason)).

Record LogicalReservationsExtension := mkLogicalReservationsExtension {
  lrx_Version : Z; lrx_Records : list LogicalReservation;
}.
Definition LogicalReservationsExtension_zero : LogicalReservationsExtension :=
  mkLogicalReservationsExtension 0%Z [].
Definition LogicalReservationsExtension_fields : list string :=
  ["version"; "records"].
Definition LogicalReservationsExtension_of : Decoder LogicalReservationsExtension :=
  struct_of LogicalReservationsExtension_fields (λ ms old,
    version ← load int_of "version" (lrx_Version old) ms;
    records ← load (list_of LogicalReservation_of LogicalReservation_zero) "records" (lrx_Records old) ms;
    Some (mkLogicalReservationsExtension version records)).

Record LogicalWorkflowPolicy := mkLogicalWorkflowPolicy {
  lwp_ID : string; lwp_SelectorJSON : string; lwp_RequirementsJSON : string; lwp_Status : string;
  lwp_Version : Z; lwp_CreatedAt : string; lwp_UpdatedAt : string;
}.
Definition LogicalWorkflowPolicy_zero : LogicalWorkflowPolicy :=
  mkLogicalWorkflowPolicy "" "" "" "" 0%Z "" "".
Definition LogicalWorkflowPolicy_fields : list string :=
  ["id"; "selector_json"; "requirements_json"; "status"; "version"; "created_at"; "updated_at"].
Definition LogicalWorkflowPolicy_of : Decoder LogicalWorkflowPolicy :=
  struct_of LogicalWorkflowPolicy_fields (λ ms old,
    id ← load string_of "id" (lwp_ID old) ms;
    selector_json ← load raw_of "selector_json" (lwp_SelectorJSON old) ms;
    requirements_json ← load raw_of "requirements_json" (lwp_RequirementsJSON old) ms;
    status ← load string_of "status" (lwp_Status old) ms; version ← load int_of "version" (lwp_Version old) ms;
    created_at ← load string_of "created_at" (lwp_CreatedAt old) ms;
    updated_at ← load string_of "updated_at" (lwp_UpdatedAt old) ms;
    Some (mkLogicalWorkflowPolicy id selector_json requirements_json status version created_at updated_at)).

Record LogicalWorkflowPolicyEvent := mkLogicalWorkflowPolicyEvent {
  lpe_SourceID : Z; lpe_PolicyID : string; lpe_EventType : string; lpe_SessionID : option string;
  lpe_PriorVersion : option Z; lpe_NewVersion : Z; lpe_Payload : string; lpe_CreatedAt : string;
}.
Definition LogicalWorkflowPolicyEvent_zero : LogicalWorkflowPolicyEvent :=
  mkLogicalWorkflowPolicyEvent 0%Z "" "" None None 0%Z "" "".
Definition LogicalWorkflowPolicyEvent_fields : list string :=
  ["source_id"; "policy_id"; "event_type"; "session_id"; "prior_version"; "new_version"; "payload"; "created_at"].
Definition LogicalWorkflowPolicyEvent_of : Decoder LogicalWorkflowPolicyEvent :=
  struct_of LogicalWorkflowPolicyEvent_fields (λ ms old,
    source_id ← load int_of "source_id" (lpe_SourceID old) ms;
    policy_id ← load string_of "policy_id" (lpe_PolicyID old) ms;
    event_type ← load string_of "event_type" (lpe_EventType old) ms;
    session_id ← load (pointer_of string_of "") "session_id" (lpe_SessionID old) ms;
    prior_version ← load (pointer_of int_of 0%Z) "prior_version" (lpe_PriorVersion old) ms;
    new_version ← load int_of "new_version" (lpe_NewVersion old) ms;
    payload ← load raw_of "payload" (lpe_Payload old) ms;
    created_at ← load string_of "created_at" (lpe_CreatedAt old) ms;
    Some (mkLogicalWorkflowPolicyEvent source_id policy_id event_type session_id prior_version new_version
      payload created_at)).

Record LogicalAttemptGateSnapshot := mkLogicalAttemptGateSnapshot {
  las_AttemptID : string; las_RequirementsJSON : string; las_SourcePoliciesJSON : string;
  las_Fingerprint : string; las_IssueVersion : Z; las_CreatedAt : string;
}.
Definition LogicalAttemptGateSnapshot_zero : LogicalAttemptGateSnapshot :=
  mkLogicalAttemptGateSnapshot "" "" "" "" 0%Z "".
Definition LogicalAttemptGateSnapshot_fields : list string :=
  ["attempt_id"; "requirements_json"; "source_policies_json"; "fingerprint"; "issue_version"; "created_at"].
Definition LogicalAttemptGateSnapshot_of : Decoder LogicalAttemptGateSnapshot :=
  struct_of LogicalAttemptGateSnapshot_fields (λ ms old,
    attempt_id ← load string_of "attempt_id" (las_AttemptID old) ms;
    requirements_json ← load raw_of "requirements_json" (las_RequirementsJSON old) ms;
    source_policies_json ← load raw_of "source_policies_json" (las_SourcePoliciesJSON old) ms;
    fingerprint ← load string_of "fingerprint" (las_Fingerprint old) ms;
    issue_version ← load int_of "issue_version" (las_IssueVersion old) ms;
    created_at ← load string_of "created_at" (las_CreatedAt old) ms;
    Some (mkLogicalAttemptGateSnapshot attempt_id requirements_json source_policies_json fingerprint
      issue_version created_at)).

Record LogicalReviewTargetGateSnapshot := mkLogicalReviewTargetGateSnapshot {
  lts_TargetID : string; lts_RequirementsJSON : string; lts_SourcePoliciesJSON : string;
  lts_Fingerprint : string; lts_IssueVersion : Z; lts_CreatedAt : string;
}.
Definition LogicalReviewTargetGateSnapshot_zero : LogicalReviewTargetGateSnapshot :=
  mkLogicalReviewTargetGateSnapshot "" "" "" "" 0%Z "".
Definition LogicalReviewTargetGateSnapshot_fields : list string :=
  ["target_id"; "requirements_json"; "source_policies_json"; "fingerprint"; "issue_version"; "created_at"].
Definition LogicalReviewTargetGateSnapshot_of : Decoder LogicalReviewTargetGateSnapshot :=
  struct_of LogicalReviewTargetGateSnapshot_fields (λ ms old,
    target_id ← load string_of "target_id" (lts_TargetID old) ms;
    requirements_json ← load raw_of "requirements_json" (lts_RequirementsJSON old) ms;
    source_policies_json ← load raw_of "source_policies_json" (lts_SourcePoliciesJSON old) ms;
    fingerprint ← load string_of "fingerprint" (lts_Fingerprint old) ms;
    issue_version ← load int_of "issue_version" (lts_IssueVersion old) ms;
    created_at ← load string_of "created_at" (lts_CreatedAt old) ms;
    Some (mkLogicalReviewTargetGateSnapshot target_id requirements_json source_policies_json fingerprint
      issue_version created_at)).

Record LogicalGateEvidence := mkLogicalGateEvidence {
  lge_ID : string; lge_AttemptID : string; lge_IssueID : string; lge_Key : string; lge_Result : string;
  lge_Summary : string; lge_Details : option string; lge_ArtifactIDs : option (list string); lge_Version : Z;
  lge_CreatedAt : string; lge_UpdatedAt : string;
}.
Definition LogicalGateEvidence_zero : LogicalGateEvidence :=
  mkLogicalGateEvidence "" "" "" "" "" "" None None 0%Z "" "".
Definition LogicalGateEvidence_fields : list string :=
  ["id"; "attempt_id"; "issue_id"; "key"; "result"; "summary"; "details"; "artifact_ids"; "version";
   "created_at"; "updated_at"].
Definition LogicalGateEvidence_of : Decoder LogicalGateEvidence :=
  struct_of LogicalGateEvidence_fields (λ ms old,
    id ← load string_of "id" (lge_ID old) ms; attempt_id ← load string_of "attempt_id" (lge_AttemptID old) ms;
    issue_id ← load string_of "issue_id" (lge_IssueID old) ms; key ← load string_of "key" (lge_Key old) ms;
    result ← load string_of "result" (lge_Result old) ms;
    summary ← load string_of "summary" (lge_Summary old) ms;
    details ← load (pointer_of string_of "") "details" (lge_Details old) ms;
    artifact_ids ← load (slice_of string_of "") "artifact_ids" (lge_ArtifactIDs old) ms;
    version ← load int_of "version" (lge_Version old) ms;
    created_at ← load string_of "created_at" (lge_CreatedAt old) ms;
    updated_at ← load string_of "updated_at" (lge_UpdatedAt old) ms;
    Some (mkLogicalGateEvidence id attempt_id issue_id key result summary details artifact_ids version
      created_at updated_at)).

Record LogicalGateEvidenceEvent := mkLogicalGateEvidenceEvent {
  lee_SourceID : Z; lee_EvidenceID : string; lee_AttemptID : string; lee_IssueID : string; lee_Key : string;
  lee_EventType : string; lee_Version : Z; lee_Payload : string; lee_CreatedAt : string;
}.
Definition LogicalGateEvidenceEvent_zero : LogicalGateEvidenceEvent :=
  mkLogicalGateEvidenceEvent 0%Z "" "" "" "" "" 0%Z "" "".
Definition LogicalGateEvidenceEvent_fields : list string :=
  ["source_id"; "evidence_id"; "attempt_id"; "issue_id"; "key"; "event_type"; "version"; "payload"; "created_at"].
Definition LogicalGateEvidenceEvent_of : Decoder LogicalGateEvidenceEvent :=
  struct_of LogicalGateEvidenceEvent_fields (λ ms old,
    source_id ← load int_of "source_id" (lee_SourceID old) ms;
    evidence_id ← load string_of "evidence_id" (lee_EvidenceID old) ms;
    attempt_id ← load string_of "attempt_id" (lee_AttemptID old) ms;
    issue_id ← load string_of "issue_id" (lee_IssueID old) ms; key ← load string_of "key" (lee_Key old) ms;
    event_type ← load string_of "event_type" (lee_EventType old) ms;
    version ← load int_of "version" (lee_Version old) ms; payload ← load raw_of "payload" (lee_Payload old) ms;
    created_at ← load string_of "created_at" (lee_CreatedAt old) ms;
    Some (mkLogicalGateEvidenceEvent source_id evidence_id attempt_id issue_id key event_type version payload
      created_at)).

Record LogicalReviewApproval := mkLogicalReviewApproval {
  lra_ID : string; lra_IssueID : string; lra_TargetID : string; lra_RequestID : string; lra_AttemptID : string;
  lra_Purpose : string; lra_TargetIssueVersion : Z; lra_TargetEventID : Z; lra_Version : Z;
  lra_CreatedAt : string;
}.
Definition LogicalReviewApproval_zero : LogicalReviewApproval :=
  mkLogicalReviewApproval "" "" "" "" "" "" 0%Z 0%Z 0%Z "".
Definition LogicalReviewApproval_fields : list string :=
  ["id"; "issue_id"; "target_id"; "request_id"; "attempt_id"; "purpose"; "target_issue_version";
   "target_event_id"; "version"; "created_at"].
Definition LogicalReviewApproval_of : Decoder LogicalReviewApproval :=
  struct_of LogicalReviewApproval_fields (λ ms old,
    id ← load string_of "id" (lra_ID old) ms; issue_id ← load string_of "issue_id" (lra_IssueID old) ms;
    target_id ← load string_of "target_id" (lra_TargetID old) ms;
    request_id ← load string_of "request_id" (lra_RequestID old) ms;
    attempt_id ← load string_of "attempt_id" (lra_AttemptID old) ms;
    purpose ← load string_of "purpose" (lra_Purpose old) ms;
    target_issue_version ← load int_of "target_issue_version" (lra_TargetIssueVersion old) ms;
    target_event_id ← load int_of "target_event_id" (lra_TargetEventID old) ms;
    version ← load int_of "version" (lra_Version old) ms;
    created_at ← load string_of "created_at" (lra_CreatedAt old) ms;
    Some (mkLogicalReviewApproval id issue_id target_id request_id attempt_id purpose target_issue_version
      target_event_id version created_at)).

Record LogicalGatesExtension := mkLogicalGatesExtension {
  lgx_Version : Z; lgx_Policies : list LogicalWorkflowPolicy;
  lgx_PolicyEvents : list LogicalWorkflowPolicyEvent; lgx_AttemptSnapshots : list LogicalAttemptGateSnapshot;
  lgx_ReviewTargetSnapshots : list LogicalReviewTargetGateSnapshot; lgx_Evidence : list LogicalGateEvidence;
  lgx_EvidenceEvents : list LogicalGateEvidenceEvent; lgx_ReviewApprovals : list LogicalReviewApproval;
}.
Definition LogicalGatesExtension_zero : LogicalGatesExtension :=
  mkLogicalGatesExtension 0%Z [] [] [] [] [] [] [].
Definition LogicalGatesExtension_fields : list string :=
  ["version"; "policies"; "policy_events"; "attempt_snapshots"; "review_target_snapshots"; "evidence";
   "evidence_events"; "review_approvals"].
Definition LogicalGatesExtension_of : Decoder LogicalGatesExtension :=
  struct_of LogicalGatesExtension_fields (λ ms old,
    version ← load int_of "version" (lgx_Version old) ms;
    policies ← load (list_of LogicalWorkflowPolicy_of LogicalWorkflowPolicy_zero) "policies" (lgx_Policies old) ms;
    policy_events ← load (list_of LogicalWorkflowPolicyEvent_of LogicalWorkflowPolicyEvent_zero) "policy_events" (lgx_PolicyEvents old) ms;
    attempt_snapshots ← load (list_of LogicalAttemptGateSnapshot_of LogicalAttemptGateSnapshot_zero) "attempt_snapshots" (lgx_AttemptSnapshots old) ms;
    review_target_snapshots ← load (list_of LogicalReviewTargetGateSnapshot_of LogicalReviewTargetGateSnapshot_zero) "review_target_snapshots" (lgx_ReviewTargetSnapshots old) ms;
    evidence ← load (list_of LogicalGateEvidence_of LogicalGateEvidence_zero) "evidence" (lgx_Evidence old) ms;
    evidence_events ← load (list_of LogicalGateEvidenceEvent_of LogicalGateEvidenceEvent_zero) "evidence_events" (lgx_EvidenceEvents old) ms;
    review_approvals ← load (list_of LogicalReviewApproval_of LogicalReviewApproval_zero) "review_approvals" (lgx_ReviewApprovals old) ms;
    Some (mkLogicalGatesExtension version policies policy_events attempt_snapshots review_target_snapshots
      evidence evidence_events review_approvals)).

(** ** Errors of the importer *)

Definition CodeUnsupportedFormatVersion := "UNSUPPORTED_FORMAT_VERSION".
Definition CodeUnsupportedField := "UNSUPPORTED_FIELD".

Definition unsupportedFormatVersionError (path : string) : DomainError :=
  NewError CodeUnsupportedFormatVersion "unsupported format or version" false
    [mkDetail None path "UNSUPPORTED_FORMAT_VERSION" ""].
Definition unsupportedFieldError (path : string) : DomainError :=
  NewError CodeUnsupportedField "unsupported field" false [mkDetail None path "UNSUPPORTED_FIELD" ""].
Definition invalidArgumentPath (path code message : string) : DomainError :=
  NewError CodeInvalidArgument message false [mkDetail None path code ""].

Section decoding.
Context `{JSONErrors}.

Definition decodeError (text path : string) : DomainError :=
  NewError CodeInvalidArgument "malformed JSON document" false [mkDetail None path "INVALID_JSON" (json_error path text)].

(** What both namespaces have in common: absent or blank is the zero
    extension, a payload of another version is refused. *)
Definition decodeNamespace {T} (decode : Decoder T) (zero : T) (version : T → Z) (supported : Z)
    (key : string) (document : LogicalProjectDocument) : result T :=
  match ldo_Extensions document !! key with
  | None => Ok zero
  | Some raw =>
      if blank raw then Ok zero else
      let path := "$.extensions." +:+ key in
      match decode_first decode zero raw with
      | None => Err (decodeError raw path)
      | Some extension =>
          fail_if negb (version extension =? supported)%Z
            with unsupportedFormatVersionError (path +:+ ".version") ;;
          Ok extension
      end
  end.

Definition DecodeReservationsExtension (document : LogicalProjectDocument) : result (list LogicalReservation) :=
  extension ← decodeNamespace LogicalReservationsExtension_of LogicalReservationsExtension_zero lrx_Version
    LogicalReservationsExtensionVersion LogicalReservationsExtensionKey document;
  Ok (lrx_Records extension).
Definition DecodeGatesExtension (document : LogicalProjectDocument) : result LogicalGatesExtension :=
  decodeNamespace LogicalGatesExtension_of LogicalGatesExtension_zero lgx_Version
    LogicalGatesExtensionVersion LogicalGatesExtensionKey document.
Definition IsEmpty (extension : LogicalGatesExtension) : bool :=
  null (lgx_Policies extension) && null (lgx_PolicyEvents extension) &&
  null (lgx_AttemptSnapshots extension) && null (lgx_ReviewTargetSnapshots extension) &&
  null (lgx_Evidence extension) && null (lgx_EvidenceEvents extension) && null (lgx_ReviewApprovals extension).
End decoding.

(** ** Lemmas: texts of values

    The texts of a value are there whenever the value parses, and they have the
    names of its members: the fuel of [object_members] and [array_elements] is
    enough. *)

Lemma skip_space_idemp s : skip_space (skip_space s) = skip_space s.
Proof. induction s as [|c s IH]; [done|]. cbn. destruct (_ || _) eqn:E; [done|]. cbn. by rewrite E. Qed.
Lemma json_value_skip fuel s : json_value fuel (skip_space s) = json_value fuel s.
Proof. destruct fuel; [done|]. cbn [json_value]. by rewrite skip_space_idemp. Qed.

Lemma value_text_total fuel s v rest : value_fuel (length s) fuel → json_value fuel s = Some (v, rest) →
  ∃ text, value_text s = Some (text, rest).
Proof.
  intros Hf Hv. unfold value_text. rewrite json_value_skip. pose proof (skip_space_length s) as Hs.
  destruct (json_value (2 * length (skip_space s) + 2) s) as [[v' rest']|] eqn:Hv'.
  - rewrite <-json_value_skip in Hv, Hv'. unfold value_fuel in Hf.
    rewrite (proj1 (json_fuel (length (skip_space s)) (skip_space s) _ fuel ltac:(done))), Hv in Hv' by (unfold value_fuel; lia).
    injection Hv' as <- <-. by eexists.
  - rewrite <-json_value_skip in Hv, Hv'. unfold value_fuel in Hf.
    by rewrite (proj1 (json_fuel (length (skip_space s)) (skip_space s) _ fuel ltac:(done))), Hv in Hv' by (unfold value_fuel; lia).
Qed.

Lemma member_texts_total fuel : ∀ s rounds ms rest, list_fuel (length s) fuel → length s ≤ rounds →
  json_members fuel s = Some (ms, rest) → ∃ texts, member_texts rounds s = Some texts ∧ map fst texts = map fst ms.
Proof.
  induction fuel as [|fuel IH]; intros s rounds ms rest Hf Hr; [done|]. cbn [json_members]. unfold list_fuel in *.
  pose proof (skip_space_length s) as Hs. destruct rounds as [|rounds]; [destruct s; [done|cbn in Hr; lia]|]. cbn [member_texts].
  destruct (skip_space s) as [|q r]; [done|]. cbn in Hs. destruct (negb (is_byte 34 q)); [done|].
  intros ([name r1] & Hb & Hm)%bind_Some. rewrite Hb. cbn [mbind option_bind]. apply string_body_length in Hb.
  pose proof (skip_space_length r1) as Hs1. destruct (skip_space r1) as [|k r2]; [done|]. cbn in Hs1.
  destruct (negb (is_byte 58 k)); [done|]. apply bind_Some in Hm as ([v r3] & Hv & Hm).
  pose proof (proj1 (json_length _) _ _ _ Hv) as Hl. apply value_text_total in Hv as [text ->]; [|unfold value_fuel; lia].
  cbn [mbind option_bind]. pose proof (skip_space_length r3) as Hs3. destruct (skip_space r3) as [|c r4]; [done|]. cbn in Hs3.
  destruct (is_byte 125 c); [injection Hm as <- _; by eexists|]. destruct (is_byte 44 c); [|done].
  apply bind_Some in Hm as ([ms' r5] & Hms & [= <- _]).
  destruct (IH r4 rounds ms' r5) as (texts & Ht & Hn); [lia|lia|done|]. rewrite Ht. cbn. rewrite <-Hn. by eexists.
Qed.

Lemma element_texts_total fuel : ∀ s rounds vs rest, list_fuel (length s) fuel → length s ≤ rounds →
  json_elements fuel s = Some (vs, rest) → ∃ texts, element_texts rounds s = Some texts ∧ length texts = length vs.
Proof.
  induction fuel as [|fuel IH]; intros s rounds vs rest Hf Hr; [done|]. cbn [json_elements]. unfold list_fuel in *.
  intros ([v r3] & Hv & Hm)%bind_Some. pose proof (proj1 (json_length _) _ _ _ Hv) as Hl.
  destruct rounds as [|rounds]; [lia|]. cbn [element_texts].
  apply value_text_total in Hv as [text ->]; [|unfold value_fuel; lia].
  cbn [mbind option_bind]. pose proof (skip_space_length r3) as Hs3. destruct (skip_space r3) as [|c r4]; [done|]. cbn in Hs3.
  destruct (is_byte 93 c); [injection Hm as <- _; by eexists|]. destruct (is_byte 44 c); [|done].
  apply bind_Some in Hm as ([vs' r5] & Hvs & [= <- _]).
  destruct (IH r4 rounds vs' r5) as (texts & Ht & Hn); [lia|lia|done|]. rewrite Ht. cbn. rewrite <-Hn. by eexists.
Qed.

(** Objects have members, arrays elements. *)
Lemma object_members_total text ms : json_parse text = Some (JObject ms) →
  ∃ texts, object_members text = Some texts ∧ map fst texts = map fst ms.
Proof.
  unfold json_parse, object_members. intros ([v rest] & Hv & Hrest)%bind_Some. destruct (null _); [|done]. injection Hrest as ->.
  rewrite <-length_bytes, Nat.add_comm in Hv. cbn [plus json_value] in Hv. pose proof (skip_space_length (bytes text)) as Hs.
  destruct (skip_space (bytes text)) as [|c r]; [done|]. cbn in Hs.
  destruct (is_byte 34 c); [by apply bind_Some in Hv as ([? ?] & _ & Hv)|].
  destruct (is_byte 91 c).
  { destruct (skip_space r) as [|d r']; [done|]. destruct (is_byte 93 d); [done|]. by apply bind_Some in Hv as ([? ?] & _ & Hv). }
  destruct (is_byte 123 c).
  - cbn [negb]. destruct (skip_space r) as [|d r']; [done|]. destruct (is_byte 125 d); [injection Hv as <- _; by eexists|].
    apply bind_Some in Hv as ([ms' r''] & Hm & [= <- _]). eapply member_texts_total; [|done|exact Hm]. unfold list_fuel. lia.
  - repeat (destruct (strip_prefix _ _); [done|]). by apply bind_Some in Hv as ([? ?] & _ & Hv).
Qed.
Lemma array_elements_total text vs : json_parse text = Some (JArray vs) →
  ∃ texts, array_elements text = Some texts ∧ length texts = length vs.
Proof.
  unfold json_parse, array_elements. intros ([v rest] & Hv & Hrest)%bind_Some. destruct (null _); [|done]. injection Hrest as ->.
  rewrite <-length_bytes, Nat.add_comm in Hv. cbn [plus json_value] in Hv. pose proof (skip_space_length (bytes text)) as Hs.
  destruct (skip_space (bytes text)) as [|c r]; [done|]. cbn in Hs.
  destruct (is_byte 34 c); [by apply bind_Some in Hv as ([? ?] & _ & Hv)|].
  destruct (is_byte 91 c).
  - cbn [negb]. destruct (skip_space r) as [|d r']; [done|]. destruct (is_byte 93 d); [injection Hv as <- _; by eexists|].
    apply bind_Some in Hv as ([vs' r''] & Hm & [= <- _]). eapply element_texts_total; [|done|exact Hm]. unfold list_fuel. lia.
  - destruct (is_byte 123 c).
    { destruct (skip_space r) as [|d r']; [done|]. destruct (is_byte 125 d); [done|]. by apply bind_Some in Hv as ([? ?] & _ & Hv). }
    repeat (destruct (strip_prefix _ _); [done|]). by apply bind_Some in Hv as ([? ?] & _ & Hv).
Qed.
