(* ===== verification/ImportCheck.v ===== *)
(** * The checks of an interchange document

    [internal/domain/logical_project_import.go], the semantic pass: what holds
    between the records of a document beyond their JSON shape.

    The loops of the source grow sets and maps of identifiers which later loops
    read.  [seen] is threaded through every loop, as the source does; the sets
    and maps that are read only after their loop ([ids], [index_by]) are
    computed from the list the loop ranges over; those that are never read are
    left out.  [strings.ToLower] on letters outside ASCII is the parameter
    [UnicodeCase]. *)

From S2P Require Import Prelude GoStrings Errors Validation Samples Issue Relation Discussion.
From S2P Require Import Resource Attempt AttemptPolicy Gates Store ReviewStore Encoding Interchange.

(** ** [time.Parse] of RFC 3339

    The checks ask of a time whether it parses and whether its location is
    [time.UTC], which only the suffix [Z] gives; the instant is what an import
    stores. *)

Inductive Zone := UTC | Offset.

(** One or two digits; two are required when [fixed]. *)
Definition getnum (fixed : bool) (s : list ascii) : option (Z * list ascii) :=
  match s with
  | c :: r =>
      if negb (is_digit c) then None else
      match r with
      | d :: r' =>
          if is_digit d then Some (digit_val c * 10 + digit_val d, r')%Z
          else if fixed then None else Some (digit_val c, r)
      | [] => if fixed then None else Some (digit_val c, r)
      end
  | [] => None
  end.
Definition lit (n : Z) (s : list ascii) : option (list ascii) :=
  match s with c :: r => if is_byte n c then Some r else None | [] => None end.
(** A number within a range. *)
Definition within_range (lo hi : Z) (r : option (Z * list ascii)) : option (Z * list ascii) :=
  '(n, s) ← r; if (lo <=? n)%Z && (n <=? hi)%Z then Some (n, s) else None.

Definition isLeap (year : Z) : bool :=
  (year mod 4 =? 0)%Z && (negb (year mod 100 =? 0)%Z || (year mod 400 =? 0)%Z).
Definition daysIn (month year : Z) : Z :=
  if (month =? 2)%Z then (if isLeap year then 29 else 28)
  else if existsb (Z.eqb month) [4; 6; 9; 11]%Z then 30 else 31.

(** A fraction, after a period or a comma, may be left out; nine of its digits
    count. *)
Definition nanoseconds (fraction : list ascii) : Z :=
  let digits := take 9 fraction in
  (foldl (λ n c, n * 10 + digit_val c) 0 digits * 10 ^ (9 - Z.of_nat (length digits)))%Z.
Definition fraction (s : list ascii) : Z * list ascii :=
  match s with
  | c :: r =>
      if (is_byte 46 c || is_byte 44 c) && negb (null (digits r).1)
      then (nanoseconds (digits r).1, (digits r).2) else (0%Z, s)
  | [] => (0%Z, s)
  end.
(** The zone and its offset in seconds. *)
Definition time_zone (s : list ascii) : option (Zone * Z * list ascii) :=
  match s with
  | c :: r =>
      if is_byte 90 c then Some (UTC, 0%Z, r)
      else if is_byte 43 c || is_byte 45 c then
        '(h, r) ← within_range 0 24 (getnum true r); r ← lit 58 r;
        '(m, r) ← within_range 0 60 (getnum true r);
        let offset := ((h * 60 + m) * 60)%Z in
        Some (Offset, if is_byte 45 c then (- offset)%Z else offset, r)
      else None
  | [] => None
  end.
Definition getyear (s : list ascii) : option (Z * list ascii) :=
  '(a, s) ← getnum true s; '(b, s) ← getnum true s; Some (a * 100 + b, s)%Z.

(** The day count since 1970-01-01 of a date: the inverse of
    [civil_from_days]. *)
Definition days_from_civil (year month day : Z) : Z :=
  let y := if (month <=? 2)%Z then (year - 1)%Z else year in
  let yoe := (y mod 400)%Z in
  let mp := if (month <=? 2)%Z then (month + 9)%Z else (month - 3)%Z in
  let doy := ((153 * mp + 2) / 5 + day - 1)%Z in
  (y / 400 * 146097 + (365 * yoe + yoe / 4 - yoe / 100) + doy - 719468)%Z.

(** The instant, in nanoseconds since 1970, the zone and its offset. *)
Definition time_value (value : string) : option (Z * Zone * Z) :=
  '(year, s) ← getyear (bytes value); s ← lit 45 s;
  '(month, s) ← within_range 1 12 (getnum true s); s ← lit 45 s;
  '(day, s) ← getnum true s; s ← lit 84 s;
  '(hour, s) ← within_range 0 23 (getnum false s); s ← lit 58 s;
  '(minute, s) ← within_range 0 59 (getnum true s); s ← lit 58 s;
  '(second, s) ← within_range 0 59 (getnum true s);
  let nanos := (fraction s).1 in
  '(zone, offset, s) ← time_zone (fraction s).2;
  if null s && (1 <=? day)%Z && (day <=? daysIn month year)%Z
  then Some ((((days_from_civil year month day * 24 + hour) * 60 + minute) * 60 + second - offset) * 1000000000 + nanos,
             zone, offset)%Z
  else None.
Definition time_Parse (value : string) : option Zone := option_map (λ v : Z * Zone * Z, v.1.2) (time_value value).

Example time_Parse_examples :
  time_Parse "2024-02-29T12:00:00.5Z" = Some UTC ∧ time_Parse "2023-02-29T12:00:00Z" = None ∧
  time_Parse "2024-02-29T12:00:00+00:00" = Some Offset ∧ time_Parse "2024-02-29 12:00:00Z" = None ∧
  time_Parse "2024-02-29T1:00:00Z" = Some UTC ∧
  time_value "2024-02-29T12:00:00.000000005Z" = Some (1709208000000000005, UTC, 0)%Z ∧
  time_value "2024-02-29T12:00:00.5+01:30" = Some (1709202600500000000, Offset, 5400)%Z.
Proof. vm_compute. split_and!; reflexivity. Qed.

(** [strings.ToLower]. *)
Class UnicodeCase := { unicode_ToLower : Z → Z }.
Definition ToLower `{UnicodeCase} (s : string) : string :=
  if is_ascii s then asciiLower s
  else of_bytes (concat (map (λ r, EncodeRune (match r with Rune code _ => unicode_ToLower code | BadByte _ => 65533 end)) (runes s))).

(** ** Scalar checks *)

Definition requireNonEmptyString (path value : string) : result unit :=
  fail_if blank value with invalidArgumentPath path "REQUIRED" "is required" ;; Ok tt.
Definition validateNullableNonEmptyString (path value : string) : result unit :=
  fail_if blank value with invalidArgumentPath path "REQUIRED" "cannot be blank" ;; Ok tt.

Definition validateCanonicalULID `{ULID} (path value : string) : result unit :=
  fail_if negb (ids_ParseStrict value)
    with invalidArgumentPath path "INVALID_ULID" "must be a canonical ULID" ;;
  Ok tt.
Definition validateNullableCanonicalULID `{ULID} (path value : string) : result unit :=
  fail_if blank value with invalidArgumentPath path "REQUIRED" "cannot be blank" ;;
  validateCanonicalULID path value.

Definition validateUTCTimestamp (path value : string) : result unit :=
  try requireNonEmptyString path value ;;
  match time_Parse value with
  | None => Err (invalidArgumentPath path "INVALID_TIMESTAMP" "must be a valid RFC3339 UTC timestamp")
  | Some Offset => Err (invalidArgumentPath path "INVALID_TIMESTAMP" "must be a UTC timestamp")
  | Some UTC => Ok tt
  end.
Definition validateNullableUTCTimestamp (path value : string) : result unit :=
  fail_if blank value with invalidArgumentPath path "REQUIRED" "cannot be blank" ;;
  validateUTCTimestamp path value.

Definition unsupportedSessionReferenceError (path : string) : DomainError :=
  invalidArgumentPath path "UNSUPPORTED_SESSION_REFERENCE" "must be null".

(** The checks of an optional value. *)
Definition ifSet {A} (value : option A) (check : A → result unit) : result unit :=
  match value with None => Ok tt | Some v => check v end.

(** The numbers [encoding/json] can hold in a float64: below the midpoint
    between the largest one and 2^1024.  [strconv] reads an exponent up to its
    first five digits. *)
Definition exponent (s : list ascii) : Z := foldl (λ e c, if (e <? 10000)%Z then e * 10 + digit_val c else e)%Z 0%Z s.
Definition mantissa (s : list ascii) : Z := foldl (λ n c, n * 10 + digit_val c)%Z 0%Z s.
Definition float_bound : Z := 2 ^ 1024 - 2 ^ 970.
Definition float_finite (literal : string) : bool :=
  let s := match bytes literal with c :: r => if is_byte 45 c then r else c :: r | [] => [] end in
  let '(int, s) := digits s in
  let '(frac, s) := match s with c :: r => if is_byte 46 c then digits r else ([], s) | [] => ([], []) end in
  let exp := match s with
    | _ :: c :: r => if is_byte 45 c then (- exponent r)%Z else if is_byte 43 c then exponent r else exponent (c :: r)
    | _ => 0%Z
    end in
  let m := mantissa (int ++ frac) in
  let e := (exp - Z.of_nat (length frac))%Z in
  if (m =? 0)%Z then true
  else if (0 <=? e)%Z then (m * 10 ^ e <? float_bound)%Z else (m <? float_bound * 10 ^ (- e))%Z.
Fixpoint floats_finite (v : json) : bool :=
  match v with
  | JNumber literal => float_finite literal
  | JArray elements => forallb floats_finite elements
  | JObject members => forallb (λ '(_, e), floats_finite e) members
  | _ => true
  end.

(** [bytes.TrimSpace]. *)
Definition first_byte_is (n : Z) (payload : string) : bool :=
  match bytes (TrimSpace payload) with c :: _ => is_byte n c | [] => false end.
Definition isJSONArray (payload : string) : bool := first_byte_is 91 payload && json_Valid (TrimSpace payload).
Definition isJSONArrayOrNull (payload : string) : bool := isJSONArray payload || (TrimSpace payload =s "null").
Definition isJSONObject (payload : string) : bool := first_byte_is 123 payload && json_Valid (TrimSpace payload).
Definition isValidEventPayload (payload : string) : bool := negb (payload =s "") && json_Valid payload.

(** An absent value is the empty text. *)
Definition validateArtifactMetadata (path metadata : string) : result unit :=
  if metadata =s "" then Ok tt else
  fail_if (8192 <? len metadata)%Z
    with invalidArgumentPath path "MAX_BYTES" "artifact metadata exceeds the maximum size" ;;
  fail_if negb (json_Valid metadata)
    with invalidArgumentPath path "INVALID_JSON" "artifact metadata must be valid JSON" ;;
  match json_parse metadata with
  | None => Err (invalidArgumentPath path "INVALID_JSON" "artifact metadata must be valid JSON")
  | Some value =>
      fail_if negb (floats_finite value)
        with invalidArgumentPath path "INVALID_JSON" "artifact metadata must be valid JSON" ;;
      match value with
      | JNull | JObject _ => Ok tt
      | _ => Err (invalidArgumentPath path "INVALID_JSON_TYPE" "artifact metadata must be a JSON object")
      end
  end.

(** ** Loops and references *)

Definition item (base : string) (index : Z) : string := base +:+ "[" +:+ Itoa index +:+ "]".

(** [for index, x := range l] over a state. *)
Fixpoint walk {A S} (f : Z → A → S → result S) (index : Z) (l : list A) (s : S) : result S :=
  match l with
  | [] => Ok s
  | x :: l => s ← f index x s; walk f (index + 1)%Z l s
  end.

Definition ids {A} (id : A → string) (l : list A) : gset string := list_to_set (map id l).
Definition index_by {A B} (key : A → string) (value : A → B) (l : list A) : gmap string B :=
  foldl (λ m x, <[ key x := value x ]> m) ∅ l.
(** Looking up a Go map of strings. *)
Definition at_key (m : gmap string string) (key : string) : string := default "" (m !! key).

Notation Seen := (gmap string string) (only parsing).
Definition freshID `{ULID} (path id entity : string) (seen : Seen) : result Seen :=
  try requireNonEmptyString (path +:+ ".id") id ;;
  try validateCanonicalULID (path +:+ ".id") id ;;
  fail_if isSet (seen !! id) with invalidArgumentPath (path +:+ ".id") "DUPLICATE_ID" "duplicate logical ID" ;;
  Ok (<[ id := entity ]> seen).

Definition validateReference (path target : string) (known : gset string) (entity : string) : result unit :=
  fail_if negb (bool_decide (target ∈ known))
    with invalidArgumentPath path "INVALID_REFERENCE" ("reference does not resolve to an included " +:+ entity) ;;
  Ok tt.
(** An optional reference is a canonical identifier first. *)
Definition optionalReference `{ULID} (path : string) (target : option string) (known : gset string) (entity : string) :
    result unit :=
  ifSet target (λ target,
    try validateNullableCanonicalULID path target ;; validateReference path target known entity).

Definition validateFrozenIssueVersion (path issueID : string) (frozen : Z) (issueVersions : gmap string Z) : result unit :=
  match issueVersions !! issueID with
  | None => Ok tt
  | Some restored =>
      if (frozen <=? restored)%Z then Ok tt
      else Err (invalidArgumentPath path "INCONSISTENT_ISSUE_VERSION" "must not exceed the issue's own version")
  end.

Definition validateLogicalArtifactReferences (path issueID : string) (references : list string)
    (artifactIDs : gset string) (artifactIssueIDs : gmap string string) : result unit :=
  each (λ '(index, artifactID),
    try validateReference (item path index) artifactID artifactIDs "artifact" ;;
    fail_if negb (at_key artifactIssueIDs artifactID =s issueID)
      with invalidArgumentPath (item path index) "INCONSISTENT_REFERENCE" "must reference an artifact on the same issue" ;;
    Ok tt) (enumerate references).

Definition validateDecisionSupersedesReference (path target : string) (current : LogicalDecision)
    (decisions : list LogicalDecision) : result unit :=
  let scope_matches := match List.find (λ candidate, lde_ID candidate =s target) decisions with
    | None => false
    | Some candidate =>
        match lde_IssueID current, lde_IssueID candidate with
        | None, None => true
        | Some a, Some b => a =s b
        | _, _ => false
        end
    end in
  fail_if negb scope_matches
    with invalidArgumentPath path "INVALID_REFERENCE" "supersedes_id must reference an included decision in the same issue scope" ;;
  Ok tt.

(** The search of one node runs at most once per blocked issue and the start. *)
Definition blocksAdjacency (relations : list LogicalRelation) (node : string) : list string :=
  map lre_TargetIssueID
    (List.filter (λ r, (lre_Type r =s "blocks") && (lre_SourceIssueID r =s node)) relations).
Definition validateBlocksAcyclicity (relations : list LogicalRelation) : result unit :=
  let sources := map lre_SourceIssueID (List.filter (λ r, lre_Type r =s "blocks") relations) in
  let onCycle node :=
    match BlocksPathExists (S (length relations)) node node (blocksAdjacency relations) with Some b => b | None => false end in
  fail_if existsb onCycle sources
    with invalidArgumentPath "$.relations" "BLOCKS_CYCLE" "blocks relation graph must be acyclic" ;;
  Ok tt.

Definition ReviewEventType_Valid (t : string) : bool :=
  enumValid t ["review_requested"; "review_claimed"; "review_approved"; "review_changes_requested";
    "review_blocked"; "review_cancelled"; "review_superseded"].

Section semantics.
Context `{UnicodeTables, ULID, URLParser, UnicodeCase, JSONErrors}.

(** [ParseType] and its likes: their message is passed on. *)
Definition parsed (path : string) (r : result string) : result unit :=
  match r with
  | Ok _ => Ok tt
  | Err e => Err (invalidArgumentPath path "INVALID_ENUM" (e_Message e))
  end.

(** ** Issues, labels, relations *)

Definition checkIssue (version : Z) (index : Z) (issue : LogicalIssue) (seen : Seen) : result Seen :=
  let path := item "$.issues" index in
  seen ← freshID path (lis_ID issue) "issue" seen;
  try requireNonEmptyString (path +:+ ".type") (lis_Type issue) ;;
  try parsed (path +:+ ".type") (ParseType (lis_Type issue)) ;;
  try requireNonEmptyString (path +:+ ".title") (lis_Title issue) ;;
  try requireNonEmptyString (path +:+ ".status") (lis_Status issue) ;;
  try parsed (path +:+ ".status") (ParseStatus (lis_Status issue)) ;;
  try requireNonEmptyString (path +:+ ".priority") (lis_Priority issue) ;;
  try parsed (path +:+ ".priority") (ParsePriority (lis_Priority issue)) ;;
  try validateUTCTimestamp (path +:+ ".created_at") (lis_CreatedAt issue) ;;
  try validateUTCTimestamp (path +:+ ".updated_at") (lis_UpdatedAt issue) ;;
  try ifSet (lis_ParentID issue) (validateNullableCanonicalULID (path +:+ ".parent_id")) ;;
  fail_if (lis_Status issue =s "blocked") &&
          match lis_BlockedReason issue with None => true | Some reason => blank reason end
    with invalidArgumentPath (path +:+ ".blocked_reason") "REQUIRED" "required when status is blocked" ;;
  fail_if (lis_Type issue =s "epic") && isSet (lis_ParentID issue)
    with invalidArgumentPath (path +:+ ".parent_id") "INVALID_PARENT" "epics cannot have a parent" ;;
  fail_if isSet (lis_CreatedBySessionID issue)
    with unsupportedSessionReferenceError (path +:+ ".created_by_session_id") ;;
  try ifSet (lis_ClosedAt issue) (validateNullableUTCTimestamp (path +:+ ".closed_at")) ;;
  try ifSet (lis_Version issue) (λ v,
    fail_if (version <? 2)%Z
      with invalidArgumentPath (path +:+ ".version") "UNSUPPORTED_FIELD" "issue version requires version 2" ;;
    fail_if (v <? 1)%Z with invalidArgumentPath (path +:+ ".version") "INVALID" "must be >= 1" ;;
    Ok tt) ;;
  Ok seen.

Definition checkParent (issueIDs : gset string) (issueTypes : gmap string string) (entry : Z * LogicalIssue) : result unit :=
  let '(index, issue) := entry in
  let path := item "$.issues" index +:+ ".parent_id" in
  ifSet (lis_ParentID issue) (λ parentID,
    fail_if lis_Type issue =s "epic" with invalidArgumentPath path "INVALID_PARENT" "epics cannot have a parent" ;;
    fail_if negb (lis_Type issue =s "task") && negb (lis_Type issue =s "bug")
      with invalidArgumentPath path "INVALID_PARENT" "issues with a parent must be task or bug" ;;
    try validateNullableCanonicalULID path parentID ;;
    try validateReference path parentID issueIDs "issue" ;;
    fail_if negb (at_key issueTypes parentID =s "epic")
      with invalidArgumentPath path "INVALID_PARENT" "parent issue must be an epic" ;;
    Ok tt).

Definition checkLabel (index : Z) (label : LogicalLabel) (st : Seen * gset string) : result (Seen * gset string) :=
  let '(seen, labelNames) := st in
  let path := item "$.labels" index in
  seen ← freshID path (lla_ID label) "label" seen;
  try requireNonEmptyString (path +:+ ".name") (lla_Name label) ;;
  let nameKey := ToLower (lla_Name label) in
  fail_if bool_decide (nameKey ∈ labelNames)
    with invalidArgumentPath (path +:+ ".name") "DUPLICATE_LABEL_NAME" "label names must be unique case-insensitively" ;;
  try validateUTCTimestamp (path +:+ ".created_at") (lla_CreatedAt label) ;;
  Ok (seen, {[ nameKey ]} ∪ labelNames).

(** The zero byte between the parts of a composite key. *)
Definition zero_byte : string := String (byte_of 0) "".

Definition checkIssueLabel (issueIDs labelIDs : gset string) (index : Z) (link : LogicalIssueLabel)
    (seenIssueLabels : gset string) : result (gset string) :=
  let path := item "$.issue_labels" index in
  try validateReference (path +:+ ".issue_id") (lil_IssueID link) issueIDs "issue" ;;
  try validateReference (path +:+ ".label_id") (lil_LabelID link) labelIDs "label" ;;
  let key := lil_IssueID link +:+ zero_byte +:+ lil_LabelID link in
  fail_if bool_decide (key ∈ seenIssueLabels)
    with invalidArgumentPath path "DUPLICATE_ISSUE_LABEL" "issue-label tuples must be unique" ;;
  Ok ({[ key ]} ∪ seenIssueLabels).

Definition logicalRelationKey (relation : LogicalRelation) : string :=
  lre_Type relation +:+ ":" +:+ lre_SourceIssueID relation +:+ ":" +:+ lre_TargetIssueID relation.
Definition checkLogicalRelation (issueIDs : gset string) (index : Z) (relation : LogicalRelation) (st : Seen * gset string) :
    result (Seen * gset string) :=
  let '(seen, seenRelationKeys) := st in
  let path := item "$.relations" index in
  seen ← freshID path (lre_ID relation) "relation" seen;
  try validateReference (path +:+ ".source_issue_id") (lre_SourceIssueID relation) issueIDs "issue" ;;
  try validateReference (path +:+ ".target_issue_id") (lre_TargetIssueID relation) issueIDs "issue" ;;
  fail_if lre_SourceIssueID relation =s lre_TargetIssueID relation
    with invalidArgumentPath (path +:+ ".target_issue_id") "SELF_RELATION" "self-relations are not allowed" ;;
  try parsed (path +:+ ".type") (ParseRelationType (lre_Type relation)) ;;
  fail_if (lre_Type relation =s "related_to") &&
          negb (str_less (lre_SourceIssueID relation) (lre_TargetIssueID relation))
    with invalidArgumentPath (path +:+ ".target_issue_id") "NONCANONICAL_RELATION"
           "related_to relations must be ordered source_id < target_id" ;;
  let key := logicalRelationKey relation in
  fail_if bool_decide (key ∈ seenRelationKeys)
    with invalidArgumentPath path "DUPLICATE_RELATION" "relation identity must be unique" ;;
  try validateUTCTimestamp (path +:+ ".created_at") (lre_CreatedAt relation) ;;
  fail_if isSet (lre_CreatedBySessionID relation)
    with unsupportedSessionReferenceError (path +:+ ".created_by_session_id") ;;
  Ok (seen, {[ key ]} ∪ seenRelationKeys).

(** ** Comments, decisions, attempts *)

Definition checkComment (issueIDs : gset string) (index : Z) (comment : LogicalComment) (seen : Seen) : result Seen :=
  let path := item "$.comments" index in
  seen ← freshID path (lco_ID comment) "comment" seen;
  try validateReference (path +:+ ".issue_id") (lco_IssueID comment) issueIDs "issue" ;;
  try requireNonEmptyString (path +:+ ".content") (lco_Content comment) ;;
  try validateUTCTimestamp (path +:+ ".created_at") (lco_CreatedAt comment) ;;
  try ifSet (lco_EditedAt comment) (validateNullableUTCTimestamp (path +:+ ".edited_at")) ;;
  fail_if isSet (lco_CreatedBySessionID comment)
    with unsupportedSessionReferenceError (path +:+ ".created_by_session_id") ;;
  Ok seen.

Definition checkLogicalDecision (issueIDs : gset string) (decisions : list LogicalDecision) (index : Z)
    (decision : LogicalDecision) (seen : Seen) : result Seen :=
  let path := item "$.decisions" index in
  seen ← freshID path (lde_ID decision) "decision" seen;
  try optionalReference (path +:+ ".issue_id") (lde_IssueID decision) issueIDs "issue" ;;
  try requireNonEmptyString (path +:+ ".title") (lde_Title decision) ;;
  try requireNonEmptyString (path +:+ ".summary") (lde_Summary decision) ;;
  try requireNonEmptyString (path +:+ ".content") (lde_Content decision) ;;
  fail_if negb (DecisionStatus_Valid (lde_Status decision))
    with invalidArgumentPath (path +:+ ".status") "INVALID_ENUM" "unsupported decision status" ;;
  try ifSet (lde_SupersedesID decision) (λ target,
    try validateNullableCanonicalULID (path +:+ ".supersedes_id") target ;;
    validateDecisionSupersedesReference (path +:+ ".supersedes_id") target decision decisions) ;;
  try validateUTCTimestamp (path +:+ ".created_at") (lde_CreatedAt decision) ;;
  fail_if isSet (lde_CreatedBySessionID decision)
    with unsupportedSessionReferenceError (path +:+ ".created_by_session_id") ;;
  Ok seen.

Definition checkAttempt (issueIDs : gset string) (issueVersions : gmap string Z) (index : Z) (attempt : LogicalAttempt)
    (seen : Seen) : result Seen :=
  let path := item "$.attempts" index in
  seen ← freshID path (lat_ID attempt) "attempt" seen;
  try validateReference (path +:+ ".issue_id") (lat_IssueID attempt) issueIDs "issue" ;;
  fail_if lat_Status attempt =s "active"
    with invalidArgumentPath (path +:+ ".status") "UNSUPPORTED_ACTIVE_ATTEMPT" "active attempts are not supported" ;;
  fail_if negb (AttemptKind_Valid (lat_Kind attempt))
    with invalidArgumentPath (path +:+ ".kind") "INVALID_ENUM" "unsupported attempt kind" ;;
  fail_if negb (AttemptStatus_Valid (lat_Status attempt))
    with invalidArgumentPath (path +:+ ".status") "INVALID_ENUM" "unsupported attempt status" ;;
  try validateUTCTimestamp (path +:+ ".lease_expires_at") (lat_LeaseExpiresAt attempt) ;;
  try validateUTCTimestamp (path +:+ ".started_at") (lat_StartedAt attempt) ;;
  try validateUTCTimestamp (path +:+ ".last_heartbeat_at") (lat_LastHeartbeatAt attempt) ;;
  try ifSet (lat_FinishedAt attempt) (validateNullableUTCTimestamp (path +:+ ".finished_at")) ;;
  fail_if isSet (lat_SessionID attempt) with unsupportedSessionReferenceError (path +:+ ".session_id") ;;
  try ifSet (lat_AgentLabel attempt) (validateNullableNonEmptyString (path +:+ ".agent_label")) ;;
  try validateFrozenIssueVersion (path +:+ ".issue_version_at_start") (lat_IssueID attempt)
        (lat_IssueVersionAtStart attempt) issueVersions ;;
  Ok seen.

Definition checkAttemptNote (attemptIDs : gset string) (index : Z) (note : LogicalAttemptNote) (seen : Seen) : result Seen :=
  let path := item "$.attempt_notes" index in
  seen ← freshID path (lno_ID note) "attempt_note" seen;
  try validateReference (path +:+ ".attempt_id") (lno_AttemptID note) attemptIDs "attempt" ;;
  try validateUTCTimestamp (path +:+ ".created_at") (lno_CreatedAt note) ;;
  Ok seen.

Definition checkArtifact (issueIDs attemptIDs : gset string) (index : Z) (artifact : LogicalArtifact) (seen : Seen) :
    result Seen :=
  let path := item "$.artifacts" index in
  seen ← freshID path (lar_ID artifact) "artifact" seen;
  try validateReference (path +:+ ".issue_id") (lar_IssueID artifact) issueIDs "issue" ;;
  try optionalReference (path +:+ ".attempt_id") (lar_AttemptID artifact) attemptIDs "attempt" ;;
  try requireNonEmptyString (path +:+ ".type") (lar_Type artifact) ;;
  fail_if negb (ArtifactType_Valid (lar_Type artifact))
    with invalidArgumentPath (path +:+ ".type") "INVALID_ENUM" "unsupported artifact type" ;;
  try requireNonEmptyString (path +:+ ".uri") (lar_URI artifact) ;;
  try validateUTCTimestamp (path +:+ ".created_at") (lar_CreatedAt artifact) ;;
  try validateArtifactURI (path +:+ ".uri") (lar_Type artifact) (lar_URI artifact) ;;
  try validateArtifactMetadata (path +:+ ".metadata") (lar_Metadata artifact) ;;
  Ok seen.

Definition checkEvent (version : Z) (issueIDs attemptIDs : gset string) (entry : Z * LogicalEvent) : result unit :=
  let '(index, event) := entry in
  let path := item "$.events" index in
  try requireNonEmptyString (path +:+ ".event_type") (lev_EventType event) ;;
  try validateUTCTimestamp (path +:+ ".created_at") (lev_CreatedAt event) ;;
  try optionalReference (path +:+ ".issue_id") (lev_IssueID event) issueIDs "issue" ;;
  try optionalReference (path +:+ ".attempt_id") (lev_AttemptID event) attemptIDs "attempt" ;;
  fail_if isSet (lev_SessionID event) with unsupportedSessionReferenceError (path +:+ ".session_id") ;;
  fail_if negb (isValidEventPayload (lev_Payload event))
    with invalidArgumentPath (path +:+ ".payload") "INVALID_JSON" "payload must be valid JSON" ;;
  if lev_Source event =s "" then Ok tt else
  fail_if (version <? 2)%Z
    with invalidArgumentPath (path +:+ ".source") "UNSUPPORTED_FIELD" "event source requires version 2" ;;
  fail_if negb (lev_Source event =s LogicalEventSourceIssue) && negb (lev_Source event =s LogicalEventSourceReview)
    with invalidArgumentPath (path +:+ ".source") "INVALID_ENUM" "unsupported event source" ;;
  Ok tt.

(** ** Reviews *)

(** [if purposes != nil] they have the form purposes have. *)
Definition checkPurposes (path : string) (purposes : option (list string)) : result unit :=
  ifSet purposes (λ purposes,
    fail_if negb (is_ok (ValidateReviewPurposes purposes))
      with invalidArgumentPath path "INVALID" "invalid purposes list" ;;
    Ok tt).
Definition atLeast (minimum : Z) (path : string) (value : Z) : result unit :=
  fail_if (value <? minimum)%Z with invalidArgumentPath path "INVALID" ("must be >= " +:+ Itoa minimum) ;; Ok tt.

Definition checkReviewTarget (issueIDs : gset string) (issueVersions : gmap string Z) (artifactIDs : gset string)
    (artifactIssueIDs : gmap string string) (index : Z) (target : LogicalReviewTarget) (seen : Seen) : result Seen :=
  let path := item "$.review_targets" index in
  seen ← freshID path (lrt_ID target) "review_target" seen;
  try validateReference (path +:+ ".issue_id") (lrt_IssueID target) issueIDs "issue" ;;
  try validateLogicalArtifactReferences (path +:+ ".artifact_ids") (lrt_IssueID target)
        (default [] (lrt_ArtifactIDs target)) artifactIDs artifactIssueIDs ;;
  try atLeast 1 (path +:+ ".issue_version") (lrt_IssueVersion target) ;;
  try validateFrozenIssueVersion (path +:+ ".issue_version") (lrt_IssueID target) (lrt_IssueVersion target) issueVersions ;;
  try atLeast 0 (path +:+ ".latest_event_id") (lrt_LatestEventID target) ;;
  try checkPurposes (path +:+ ".purposes") (lrt_Purposes target) ;;
  try validateUTCTimestamp (path +:+ ".created_at") (lrt_CreatedAt target) ;;
  Ok seen.

(** A request can supersede what is known when its turn has come: the requests
    before it, and itself. *)
Definition checkReviewRequest (issueIDs : gset string) (issueVersions : gmap string Z) (artifactIDs : gset string)
    (artifactIssueIDs : gmap string string) (reviewTargetIDs : gset string) (index : Z) (request : LogicalReviewRequest)
    (st : Seen * gset string) : result (Seen * gset string) :=
  let '(seen, reviewRequestIDs) := st in
  let path := item "$.review_requests" index in
  seen ← freshID path (lrr_ID request) "review_request" seen;
  let reviewRequestIDs := {[ lrr_ID request ]} ∪ reviewRequestIDs in
  try validateReference (path +:+ ".target_id") (lrr_TargetID request) reviewTargetIDs "review_target" ;;
  try validateReference (path +:+ ".issue_id") (lrr_IssueID request) issueIDs "issue" ;;
  try validateLogicalArtifactReferences (path +:+ ".artifact_ids") (lrr_IssueID request)
        (default [] (lrr_ArtifactIDs request)) artifactIDs artifactIssueIDs ;;
  try atLeast 1 (path +:+ ".target_issue_version") (lrr_TargetIssueVersion request) ;;
  try validateFrozenIssueVersion (path +:+ ".target_issue_version") (lrr_IssueID request)
        (lrr_TargetIssueVersion request) issueVersions ;;
  try atLeast 0 (path +:+ ".target_event_id") (lrr_TargetEventID request) ;;
  try checkPurposes (path +:+ ".purposes") (lrr_Purposes request) ;;
  fail_if negb (ReviewRequestStatus_Valid (lrr_Status request))
    with invalidArgumentPath (path +:+ ".status") "INVALID_ENUM" "unsupported review request status" ;;
  fail_if lrr_Status request =s "claimed"
    with invalidArgumentPath (path +:+ ".status") "UNSUPPORTED_CLAIMED_REQUEST"
           "claimed requests are not supported in exports" ;;
  try optionalReference (path +:+ ".supersedes_id") (lrr_SupersedesID request) reviewRequestIDs "review_request" ;;
  try validateUTCTimestamp (path +:+ ".created_at") (lrr_CreatedAt request) ;;
  try ifSet (lrr_ResolvedAt request) (validateNullableUTCTimestamp (path +:+ ".resolved_at")) ;;
  Ok (seen, reviewRequestIDs).

Definition checkReviewOutcome (reviewRequestIDs attemptIDs : gset string) (index : Z) (outcome : LogicalReviewOutcome)
    (seen : Seen) : result Seen :=
  let path := item "$.review_outcomes" index in
  seen ← freshID path (lro_ID outcome) "review_outcome" seen;
  try validateReference (path +:+ ".request_id") (lro_RequestID outcome) reviewRequestIDs "review_request" ;;
  try validateReference (path +:+ ".attempt_id") (lro_AttemptID outcome) attemptIDs "attempt" ;;
  fail_if negb (ReviewOutcome_Valid (lro_Outcome outcome))
    with invalidArgumentPath (path +:+ ".outcome") "INVALID_ENUM" "unsupported review outcome" ;;
  fail_if (lro_Outcome outcome =s "blocked") && match lro_Reason outcome with None => true | Some reason => blank reason end
    with invalidArgumentPath (path +:+ ".reason") "REQUIRED" "required when outcome is blocked" ;;
  try validateUTCTimestamp (path +:+ ".created_at") (lro_CreatedAt outcome) ;;
  Ok seen.

Definition checkReviewEvent (reviewRequestIDs reviewTargetIDs attemptIDs : gset string) (entry : Z * LogicalReviewEvent) :
    result unit :=
  let '(index, event) := entry in
  let path := item "$.review_events" index in
  try atLeast 0 (path +:+ ".source_id") (lrv_SourceID event) ;;
  try validateReference (path +:+ ".request_id") (lrv_RequestID event) reviewRequestIDs "review_request" ;;
  try validateReference (path +:+ ".target_id") (lrv_TargetID event) reviewTargetIDs "review_target" ;;
  try optionalReference (path +:+ ".attempt_id") (lrv_AttemptID event) attemptIDs "attempt" ;;
  try requireNonEmptyString (path +:+ ".event_type") (lrv_EventType event) ;;
  fail_if negb (ReviewEventType_Valid (lrv_EventType event))
    with invalidArgumentPath (path +:+ ".event_type") "INVALID_ENUM" "unsupported review event type" ;;
  fail_if negb (isValidEventPayload (lrv_Payload event))
    with invalidArgumentPath (path +:+ ".payload") "INVALID_JSON" "payload must be valid JSON" ;;
  try validateUTCTimestamp (path +:+ ".created_at") (lrv_CreatedAt event) ;;
  Ok tt.

(** ** Reservations *)

Definition reservationsBase : string := "$.extensions." +:+ LogicalReservationsExtensionKey +:+ ".records".
Definition checkReservation (issueIDs attemptIDs : gset string) (attemptIssueIDs : gmap string string) (index : Z)
    (reservation : LogicalReservation) (seen : Seen) : result Seen :=
  let path := item reservationsBase index in
  seen ← freshID path (lrs_ID reservation) "reservation" seen;
  try validateReference (path +:+ ".issue_id") (lrs_IssueID reservation) issueIDs "issue" ;;
  try validateReference (path +:+ ".attempt_id") (lrs_AttemptID reservation) attemptIDs "attempt" ;;
  fail_if negb (at_key attemptIssueIDs (lrs_AttemptID reservation) =s lrs_IssueID reservation)
    with invalidArgumentPath (path +:+ ".issue_id") "INCONSISTENT_REFERENCE" "must match the owning attempt's issue" ;;
  fail_if negb (ResourceKind_Valid (lrs_Kind reservation))
    with invalidArgumentPath (path +:+ ".kind") "INVALID_ENUM" "unsupported resource kind" ;;
  try requireNonEmptyString (path +:+ ".display_value") (lrs_DisplayValue reservation) ;;
  try requireNonEmptyString (path +:+ ".comparison_value") (lrs_ComparisonValue reservation) ;;
  fail_if negb (isJSONObject (lrs_NormalizedJSON reservation))
    with invalidArgumentPath (path +:+ ".normalized_json") "INVALID_JSON" "normalized_json must be a JSON object" ;;
  fail_if lrs_Status reservation =s "active"
    with invalidArgumentPath (path +:+ ".status") "UNSUPPORTED_ACTIVE_RESERVATION" "active reservations are not supported" ;;
  fail_if negb (lrs_Status reservation =s "released")
    with invalidArgumentPath (path +:+ ".status") "INVALID_ENUM" "unsupported reservation status" ;;
  try validateUTCTimestamp (path +:+ ".created_at") (lrs_CreatedAt reservation) ;;
  try requireNonEmptyString (path +:+ ".released_at") (lrs_ReleasedAt reservation) ;;
  try validateUTCTimestamp (path +:+ ".released_at") (lrs_ReleasedAt reservation) ;;
  try requireNonEmptyString (path +:+ ".release_reason") (lrs_ReleaseReason reservation) ;;
  fail_if negb (ReservationReleaseReason_Valid (lrs_ReleaseReason reservation))
    with invalidArgumentPath (path +:+ ".release_reason") "INVALID_ENUM" "unsupported release reason" ;;
  Ok seen.

Definition validateLogicalReservations (document : LogicalProjectDocument) (seen : Seen) (issueIDs attemptIDs : gset string)
    (attemptIssueIDs : gmap string string) : result Seen :=
  reservations ← DecodeReservationsExtension document;
  walk (checkReservation issueIDs attemptIDs attemptIssueIDs) 0 reservations seen.

(** ** Gates *)

Definition gatesBase : string := "$.extensions." +:+ LogicalGatesExtensionKey.

Definition checkPolicy (index : Z) (policy : LogicalWorkflowPolicy) (seen : Seen) : result Seen :=
  let path := item (gatesBase +:+ ".policies") index in
  seen ← freshID path (lwp_ID policy) "workflow_policy" seen;
  fail_if negb (isJSONObject (lwp_SelectorJSON policy))
    with invalidArgumentPath (path +:+ ".selector_json") "INVALID_JSON" "selector_json must be a JSON object" ;;
  fail_if negb (isJSONArray (lwp_RequirementsJSON policy))
    with invalidArgumentPath (path +:+ ".requirements_json") "INVALID_JSON" "requirements_json must be a JSON array" ;;
  fail_if negb (PolicyStatus_Valid (lwp_Status policy))
    with invalidArgumentPath (path +:+ ".status") "INVALID_ENUM" "unsupported policy status" ;;
  try atLeast 1 (path +:+ ".version") (lwp_Version policy) ;;
  try validateUTCTimestamp (path +:+ ".created_at") (lwp_CreatedAt policy) ;;
  try validateUTCTimestamp (path +:+ ".updated_at") (lwp_UpdatedAt policy) ;;
  Ok seen.

Definition checkPolicyEvent (policyIDs : gset string) (entry : Z * LogicalWorkflowPolicyEvent) : result unit :=
  let '(index, event) := entry in
  let path := item (gatesBase +:+ ".policy_events") index in
  try atLeast 0 (path +:+ ".source_id") (lpe_SourceID event) ;;
  try validateReference (path +:+ ".policy_id") (lpe_PolicyID event) policyIDs "workflow_policy" ;;
  try (if lpe_EventType event =s "policy_created" then
         fail_if isSet (lpe_PriorVersion event)
           with invalidArgumentPath (path +:+ ".prior_version") "INVALID" "must be absent for policy_created" ;;
         Ok tt
       else if (lpe_EventType event =s "policy_updated") || (lpe_EventType event =s "policy_archived") then
         fail_if match lpe_PriorVersion event with None => true | Some v => (v <? 1)%Z end
           with invalidArgumentPath (path +:+ ".prior_version") "INVALID" "must be >= 1 for non-created events" ;;
         Ok tt
       else Err (invalidArgumentPath (path +:+ ".event_type") "INVALID_ENUM" "unsupported policy event type")) ;;
  try atLeast 1 (path +:+ ".new_version") (lpe_NewVersion event) ;;
  fail_if negb (isValidEventPayload (lpe_Payload event))
    with invalidArgumentPath (path +:+ ".payload") "INVALID_JSON" "payload must be valid JSON" ;;
  validateUTCTimestamp (path +:+ ".created_at") (lpe_CreatedAt event).

Definition validateLogicalGateSnapshotBody (path requirements sourcePolicies fingerprint : string) (issueVersion : Z)
    (createdAt : string) : result unit :=
  fail_if negb (isJSONArrayOrNull requirements)
    with invalidArgumentPath (path +:+ ".requirements_json") "INVALID_JSON" "requirements_json must be a JSON array or null" ;;
  fail_if negb (isJSONArrayOrNull sourcePolicies)
    with invalidArgumentPath (path +:+ ".source_policies_json") "INVALID_JSON"
           "source_policies_json must be a JSON array or null" ;;
  fail_if negb (len fingerprint =? 64)%Z
    with invalidArgumentPath (path +:+ ".fingerprint") "INVALID" "must be 64 characters" ;;
  try atLeast 1 (path +:+ ".issue_version") issueVersion ;;
  validateUTCTimestamp (path +:+ ".created_at") createdAt.

Definition checkAttemptSnapshot (attemptIDs : gset string) (attemptIssueIDs : gmap string string)
    (issueVersions : gmap string Z) (index : Z) (snapshot : LogicalAttemptGateSnapshot) (snapshotAttempts : gset string) :
    result (gset string) :=
  let path := item (gatesBase +:+ ".attempt_snapshots") index in
  try validateReference (path +:+ ".attempt_id") (las_AttemptID snapshot) attemptIDs "attempt" ;;
  fail_if bool_decide (las_AttemptID snapshot ∈ snapshotAttempts)
    with invalidArgumentPath (path +:+ ".attempt_id") "DUPLICATE_ID" "one snapshot per attempt" ;;
  try validateLogicalGateSnapshotBody path (las_RequirementsJSON snapshot) (las_SourcePoliciesJSON snapshot)
        (las_Fingerprint snapshot) (las_IssueVersion snapshot) (las_CreatedAt snapshot) ;;
  try validateFrozenIssueVersion (path +:+ ".issue_version") (at_key attemptIssueIDs (las_AttemptID snapshot))
        (las_IssueVersion snapshot) issueVersions ;;
  Ok ({[ las_AttemptID snapshot ]} ∪ snapshotAttempts).

Definition checkTargetSnapshot (reviewTargetIDs : gset string) (reviewTargetIssueIDs : gmap string string)
    (issueVersions : gmap string Z) (index : Z) (snapshot : LogicalReviewTargetGateSnapshot) (snapshotTargets : gset string) :
    result (gset string) :=
  let path := item (gatesBase +:+ ".review_target_snapshots") index in
  try validateReference (path +:+ ".target_id") (lts_TargetID snapshot) reviewTargetIDs "review_target" ;;
  fail_if bool_decide (lts_TargetID snapshot ∈ snapshotTargets)
    with invalidArgumentPath (path +:+ ".target_id") "DUPLICATE_ID" "one snapshot per review target" ;;
  try validateLogicalGateSnapshotBody path (lts_RequirementsJSON snapshot) (lts_SourcePoliciesJSON snapshot)
        (lts_Fingerprint snapshot) (lts_IssueVersion snapshot) (lts_CreatedAt snapshot) ;;
  try validateFrozenIssueVersion (path +:+ ".issue_version") (at_key reviewTargetIssueIDs (lts_TargetID snapshot))
        (lts_IssueVersion snapshot) issueVersions ;;
  Ok ({[ lts_TargetID snapshot ]} ∪ snapshotTargets).

Definition checkEvidence (issueIDs attemptIDs : gset string) (attemptIssueIDs : gmap string string) (artifactIDs : gset string)
    (artifactIssueIDs : gmap string string) (index : Z) (evidence : LogicalGateEvidence) (st : Seen * gset string) :
    result (Seen * gset string) :=
  let '(seen, evidenceKeys) := st in
  let path := item (gatesBase +:+ ".evidence") index in
  seen ← freshID path (lge_ID evidence) "gate_evidence" seen;
  try validateReference (path +:+ ".attempt_id") (lge_AttemptID evidence) attemptIDs "attempt" ;;
  try validateReference (path +:+ ".issue_id") (lge_IssueID evidence) issueIDs "issue" ;;
  fail_if negb (at_key attemptIssueIDs (lge_AttemptID evidence) =s lge_IssueID evidence)
    with invalidArgumentPath (path +:+ ".issue_id") "INCONSISTENT_REFERENCE" "must match the owning attempt's issue" ;;
  try validateLogicalArtifactReferences (path +:+ ".artifact_ids") (lge_IssueID evidence)
        (default [] (lge_ArtifactIDs evidence)) artifactIDs artifactIssueIDs ;;
  try requireNonEmptyString (path +:+ ".key") (lge_Key evidence) ;;
  let attemptKey := lge_AttemptID evidence +:+ zero_byte +:+ lge_Key evidence in
  fail_if bool_decide (attemptKey ∈ evidenceKeys)
    with invalidArgumentPath (path +:+ ".key") "DUPLICATE_ID" "one evidence record per attempt and key" ;;
  fail_if negb (EvidenceResult_Valid (lge_Result evidence))
    with invalidArgumentPath (path +:+ ".result") "INVALID_ENUM" "unsupported evidence result" ;;
  try requireNonEmptyString (path +:+ ".summary") (lge_Summary evidence) ;;
  try atLeast 1 (path +:+ ".version") (lge_Version evidence) ;;
  try validateUTCTimestamp (path +:+ ".created_at") (lge_CreatedAt evidence) ;;
  try validateUTCTimestamp (path +:+ ".updated_at") (lge_UpdatedAt evidence) ;;
  Ok (seen, {[ attemptKey ]} ∪ evidenceKeys).

Definition checkEvidenceEvent (evidenceIDs : gset string) (evidenceAttemptIDs : gmap string string)
    (issueIDs attemptIDs : gset string) (entry : Z * LogicalGateEvidenceEvent) : result unit :=
  let '(index, event) := entry in
  let path := item (gatesBase +:+ ".evidence_events") index in
  try atLeast 0 (path +:+ ".source_id") (lee_SourceID event) ;;
  try validateReference (path +:+ ".evidence_id") (lee_EvidenceID event) evidenceIDs "gate_evidence" ;;
  try validateReference (path +:+ ".attempt_id") (lee_AttemptID event) attemptIDs "attempt" ;;
  fail_if negb (at_key evidenceAttemptIDs (lee_EvidenceID event) =s lee_AttemptID event)
    with invalidArgumentPath (path +:+ ".attempt_id") "INCONSISTENT_REFERENCE" "must match the evidence record's attempt" ;;
  try validateReference (path +:+ ".issue_id") (lee_IssueID event) issueIDs "issue" ;;
  try requireNonEmptyString (path +:+ ".key") (lee_Key event) ;;
  fail_if negb (lee_EventType event =s "evidence_submitted") && negb (lee_EventType event =s "evidence_replaced")
    with invalidArgumentPath (path +:+ ".event_type") "INVALID_ENUM" "unsupported evidence event type" ;;
  try atLeast 1 (path +:+ ".version") (lee_Version event) ;;
  fail_if negb (isValidEventPayload (lee_Payload event))
    with invalidArgumentPath (path +:+ ".payload") "INVALID_JSON" "payload must be valid JSON" ;;
  validateUTCTimestamp (path +:+ ".created_at") (lee_CreatedAt event).

Definition checkApproval (issueIDs attemptIDs reviewTargetIDs reviewRequestIDs : gset string)
    (reviewTargetIssueIDs reviewRequestTargetIDs : gmap string string) (issueVersions : gmap string Z) (index : Z)
    (approval : LogicalReviewApproval) (st : Seen * gset string) : result (Seen * gset string) :=
  let '(seen, approvalPurposes) := st in
  let path := item (gatesBase +:+ ".review_approvals") index in
  seen ← freshID path (lra_ID approval) "review_approval" seen;
  try validateReference (path +:+ ".issue_id") (lra_IssueID approval) issueIDs "issue" ;;
  try validateReference (path +:+ ".target_id") (lra_TargetID approval) reviewTargetIDs "review_target" ;;
  try validateReference (path +:+ ".request_id") (lra_RequestID approval) reviewRequestIDs "review_request" ;;
  try validateReference (path +:+ ".attempt_id") (lra_AttemptID approval) attemptIDs "attempt" ;;
  fail_if negb (at_key reviewRequestTargetIDs (lra_RequestID approval) =s lra_TargetID approval)
    with invalidArgumentPath (path +:+ ".target_id") "INCONSISTENT_REFERENCE" "must match the request's review target" ;;
  fail_if negb (at_key reviewTargetIssueIDs (lra_TargetID approval) =s lra_IssueID approval)
    with invalidArgumentPath (path +:+ ".issue_id") "INCONSISTENT_REFERENCE" "must match the review target's issue" ;;
  try requireNonEmptyString (path +:+ ".purpose") (lra_Purpose approval) ;;
  let requestPurpose := lra_RequestID approval +:+ zero_byte +:+ lra_Purpose approval in
  fail_if bool_decide (requestPurpose ∈ approvalPurposes)
    with invalidArgumentPath (path +:+ ".purpose") "DUPLICATE_ID" "a request grants each purpose exactly once" ;;
  try atLeast 1 (path +:+ ".target_issue_version") (lra_TargetIssueVersion approval) ;;
  try validateFrozenIssueVersion (path +:+ ".target_issue_version") (lra_IssueID approval)
        (lra_TargetIssueVersion approval) issueVersions ;;
  try atLeast 0 (path +:+ ".target_event_id") (lra_TargetEventID approval) ;;
  try atLeast 1 (path +:+ ".version") (lra_Version approval) ;;
  try validateUTCTimestamp (path +:+ ".created_at") (lra_CreatedAt approval) ;;
  Ok (seen, {[ requestPurpose ]} ∪ approvalPurposes).

Definition validateLogicalGates (document : LogicalProjectDocument) (seen : Seen) (issueIDs : gset string)
    (issueVersions : gmap string Z) (attemptIDs : gset string) (attemptIssueIDs : gmap string string)
    (artifactIDs : gset string) (artifactIssueIDs : gmap string string) : result unit :=
  gates ← DecodeGatesExtension document;
  let reviewTargetIDs := ids lrt_ID (ldo_ReviewTargets document) in
  let reviewTargetIssueIDs := index_by lrt_ID lrt_IssueID (ldo_ReviewTargets document) in
  let reviewRequestIDs := ids lrr_ID (ldo_ReviewRequests document) in
  let reviewRequestTargetIDs := index_by lrr_ID lrr_TargetID (ldo_ReviewRequests document) in
  seen ← walk checkPolicy 0 (lgx_Policies gates) seen;
  try each (checkPolicyEvent (ids lwp_ID (lgx_Policies gates))) (enumerate (lgx_PolicyEvents gates)) ;;
  try walk (checkAttemptSnapshot attemptIDs attemptIssueIDs issueVersions) 0 (lgx_AttemptSnapshots gates) ∅ ;;
  try walk (checkTargetSnapshot reviewTargetIDs reviewTargetIssueIDs issueVersions) 0 (lgx_ReviewTargetSnapshots gates) ∅ ;;
  st ← walk (checkEvidence issueIDs attemptIDs attemptIssueIDs artifactIDs artifactIssueIDs) 0 (lgx_Evidence gates) (seen, ∅);
  try each (checkEvidenceEvent (ids lge_ID (lgx_Evidence gates)) (index_by lge_ID lge_AttemptID (lgx_Evidence gates))
              issueIDs attemptIDs) (enumerate (lgx_EvidenceEvents gates)) ;;
  try walk (checkApproval issueIDs attemptIDs reviewTargetIDs reviewRequestIDs reviewTargetIssueIDs reviewRequestTargetIDs
              issueVersions) 0 (lgx_ReviewApprovals gates) (st.1, ∅) ;;
  Ok tt.

(** ** The semantic pass *)

Definition supportedVersion (version : Z) : bool := (version =? 1)%Z || (version =? 2)%Z.

(** Only the issues that carry a version have one. *)
Definition carriedVersions (issues : list LogicalIssue) : gmap string Z :=
  foldl (λ m issue, match lis_Version issue with None => m | Some v => <[ lis_ID issue := v ]> m end) ∅ issues.

Definition checkHeader (document : LogicalProjectDocument) : result unit :=
  fail_if negb (ldo_Format document =s "rhizome-logical-project") with unsupportedFormatVersionError "$.format" ;;
  fail_if negb (supportedVersion (ldo_Version document)) with unsupportedFormatVersionError "$.version" ;;
  try requireNonEmptyString "$.exported_at" (ldo_ExportedAt document) ;;
  try validateUTCTimestamp "$.exported_at" (ldo_ExportedAt document) ;;
  let project := ldo_Project document in
  try requireNonEmptyString "$.project.id" (lpr_ID project) ;;
  try validateCanonicalULID "$.project.id" (lpr_ID project) ;;
  try validateUTCTimestamp "$.project.created_at" (lpr_CreatedAt project) ;;
  validateUTCTimestamp "$.project.updated_at" (lpr_UpdatedAt project).

(** The entities of version 2. *)
Definition checkReviews (document : LogicalProjectDocument) (seen : Seen) (issueIDs : gset string)
    (issueVersions : gmap string Z) (attemptIDs artifactIDs : gset string) (artifactIssueIDs : gmap string string) :
    result Seen :=
  seen ← walk (checkReviewTarget issueIDs issueVersions artifactIDs artifactIssueIDs) 0 (ldo_ReviewTargets document) seen;
  let reviewTargetIDs := ids lrt_ID (ldo_ReviewTargets document) in
  st ← walk (checkReviewRequest issueIDs issueVersions artifactIDs artifactIssueIDs reviewTargetIDs) 0
         (ldo_ReviewRequests document) (seen, ∅);
  let reviewRequestIDs := st.2 in
  seen ← walk (checkReviewOutcome reviewRequestIDs attemptIDs) 0 (ldo_ReviewOutcomes document) st.1;
  try each (checkReviewEvent reviewRequestIDs reviewTargetIDs attemptIDs) (enumerate (ldo_ReviewEvents document)) ;;
  Ok seen.

Definition validateLogicalProjectDocumentSemantics (document : LogicalProjectDocument) : result unit :=
  try checkHeader document ;;
  let version := ldo_Version document in
  let issues := ldo_Issues document in
  seen ← walk (checkIssue version) 0 issues ∅;
  let issueIDs := ids lis_ID issues in
  let issueVersions := carriedVersions issues in
  try each (checkParent issueIDs (index_by lis_ID lis_Type issues)) (enumerate issues) ;;
  st ← walk checkLabel 0 (ldo_Labels document) (seen, ∅);
  try walk (checkIssueLabel issueIDs (ids lla_ID (ldo_Labels document))) 0 (ldo_IssueLabels document) ∅ ;;
  st ← walk (checkLogicalRelation issueIDs) 0 (ldo_Relations document) (st.1, ∅);
  seen ← walk (checkComment issueIDs) 0 (ldo_Comments document) st.1;
  seen ← walk (checkLogicalDecision issueIDs (ldo_Decisions document)) 0 (ldo_Decisions document) seen;
  seen ← walk (checkAttempt issueIDs issueVersions) 0 (ldo_Attempts document) seen;
  let attemptIDs := ids lat_ID (ldo_Attempts document) in
  let attemptIssueIDs := index_by lat_ID lat_IssueID (ldo_Attempts document) in
  seen ← walk (checkAttemptNote attemptIDs) 0 (ldo_AttemptNotes document) seen;
  seen ← walk (checkArtifact issueIDs attemptIDs) 0 (ldo_Artifacts document) seen;
  let artifactIDs := ids lar_ID (ldo_Artifacts document) in
  let artifactIssueIDs := index_by lar_ID lar_IssueID (ldo_Artifacts document) in
  try each (checkEvent version issueIDs attemptIDs) (enumerate (ldo_Events document)) ;;
  try validateBlocksAcyclicity (ldo_Relations document) ;;
  if negb (version =? 2)%Z then Ok tt else
  seen ← checkReviews document seen issueIDs issueVersions attemptIDs artifactIDs artifactIssueIDs;
  seen ← validateLogicalReservations document seen issueIDs attemptIDs attemptIssueIDs;
  validateLogicalGates document seen issueIDs issueVersions attemptIDs attemptIssueIDs artifactIDs artifactIssueIDs.
End semantics.
