(* ===== verification/ImportClosed.v ===== *)
(** * Accepted documents are closed

    What the semantic pass of the importer ([ImportCheck]) establishes: the
    identifiers of a document are pairwise distinct, every reference names an
    included record of the right kind, and the records agree with each other. *)

From S2P Require Import Prelude GoStrings Errors Validation Samples Issue Relation Discussion.
From S2P Require Import Resource Attempt AttemptPolicy Gates Store ReviewStore Encoding Interchange ImportCheck.

(** ** Loops *)

Section walks.
Context {A S : Type} (f : Z → A → S → result S).

(** An invariant of the state, and a step for each element. *)
Lemma walk_inv (I : S → Prop) l : ∀ i s s',
  (∀ i x s s', x ∈ l → I s → f i x s = Ok s' → I s') → I s → walk f i l s = Ok s' →
  I s' ∧ ∀ x, x ∈ l → ∃ i s s', I s ∧ f i x s = Ok s'.
Proof.
  induction l as [|x l IH]; intros i s s' Hstep Hi; cbn [walk].
  { intros [= <-]. split; [done|]. intros x Hx. by apply not_elem_of_nil in Hx. }
  intros Hw. inv_ok. edestruct (IH (i + 1)%Z a s') as [Hi' Hall]; [|eapply Hstep; [by left|exact Hi|done]|exact Hw|].
  { intros j y t t' Hy. apply Hstep. by right. }
  split; [done|]. intros y [->|Hy]%elem_of_cons; [by exists i, s, a|by apply Hall].
Qed.

(** A state that collects the keys of the elements. *)
Lemma walk_keys (key : A → string) (keys : S → gset string) l : ∀ i s s',
  (∀ i x s s', f i x s = Ok s' → key x ∉ keys s ∧ keys s' = {[ key x ]} ∪ keys s) → walk f i l s = Ok s' →
  NoDup (map key l) ∧ (∀ x, x ∈ map key l → x ∉ keys s) ∧ keys s' = list_to_set (map key l) ∪ keys s.
Proof.
  induction l as [|x l IH]; intros i s s' Hstep; cbn [walk].
  { intros [= <-]. split_and!; [constructor|by intros x Hx%not_elem_of_nil|]. cbn. set_solver. }
  intros Hw. inv_ok. match goal with Hx : f _ _ _ = Ok _ |- _ => destruct (Hstep _ _ _ _ Hx) as [Hnew Hkeys] end.
  destruct (IH _ _ _ Hstep Hw) as (Hnd & Hout & Heq). rewrite Hkeys in Hout, Heq. cbn [map list_to_set].
  split_and!; [constructor; [|done]|..].
  - intros Hin. apply (Hout _ Hin). set_solver.
  - intros y [->|Hy]%elem_of_cons; [done|]. specialize (Hout _ Hy). set_solver.
  - rewrite Heq. set_solver.
Qed.
End walks.

(** A run that adds the identifiers [l], in this order, to what has been
    seen. *)
Definition extends `{ULID} (seen : gset string) (l : list string) (seen' : gset string) : Prop :=
  NoDup l ∧ (∀ x, x ∈ l → x ∉ seen) ∧ seen' = list_to_set l ∪ seen ∧ Forall (λ x, ids_ParseStrict x = true) l.

Lemma extends_app `{ULID} a b c l k : extends a l b → extends b k c → extends a (l ++ k) c.
Proof.
  intros (Hl & Hla & -> & Hlc) (Hk & Hka & -> & Hkc). split_and!.
  - apply NoDup_app. split_and!; [done| |done]. intros x Hx Hxk. apply (Hka _ Hxk). set_solver.
  - intros x [Hx|Hx]%elem_of_app; [by apply Hla|]. specialize (Hka _ Hx). set_solver.
  - rewrite list_to_set_app_L. set_solver.
  - by apply Forall_app.
Qed.

Lemma walk_extends `{ULID} {A S} (f : Z → A → S → result S) (id : A → string) (seen : S → gset string) l i s s' :
  (∀ i x s s', f i x s = Ok s' → extends (seen s) [id x] (seen s')) → walk f i l s = Ok s' →
  extends (seen s) (map id l) (seen s').
Proof.
  intros Hstep Hw. destruct (walk_keys f id seen l i s s') as (Hnd & Hout & Heq); [|done|].
  { intros j x t t' Ht. destruct (Hstep _ _ _ _ Ht) as (_ & Hx & He & _). split; [by apply Hx; left|]. rewrite He. set_solver. }
  split_and!; [done..|]. apply Forall_fmap. apply Forall_forall. intros x Hx.
  destruct (walk_inv f (λ _, True) l i s s') as [_ Hall]; [done..|]. destruct (Hall x Hx) as (j & t & t' & _ & Ht).
  destruct (Hstep _ _ _ _ Ht) as (_ & _ & _ & Hc). by inversion Hc.
Qed.

Lemma walk_each {A S} (f : Z → A → S → result S) (P : A → Prop) l i s s' :
  (∀ i x s s', f i x s = Ok s' → P x) → walk f i l s = Ok s' → ∀ x, x ∈ l → P x.
Proof.
  intros Hstep Hw x Hx. destruct (walk_inv f (λ _, True) l i s s') as [_ Hall]; [done..|].
  destruct (Hall x Hx) as (j & t & t' & _ & Ht). eauto.
Qed.
Lemma walk_NoDup {A S} (f : Z → A → S → result S) (key : A → string) (keys : S → gset string) l i s s' :
  (∀ i x s s', f i x s = Ok s' → key x ∉ keys s ∧ keys s' = {[ key x ]} ∪ keys s) → walk f i l s = Ok s' → NoDup (map key l).
Proof. intros Hstep Hw. by destruct (walk_keys f key keys l i s s' Hstep Hw) as [Hnd _]. Qed.

Lemma each_enumerate {A} (f : Z * A → result unit) (P : A → Prop) l u :
  (∀ i x u, f (i, x) = Ok u → P x) → each f (enumerate l) = Ok u → ∀ x, x ∈ l → P x.
Proof.
  intros Hf He x Hx. destruct u. rewrite each_Ok, Forall_forall in He. apply list_elem_of_lookup in Hx as [n Hn].
  destruct (f (Z.of_nat n, x)) as [u|e] eqn:E; [by eapply Hf|]. exfalso. specialize (He (Z.of_nat n, x)).
  rewrite E in He. by discriminate He; apply elem_of_lookup_imap; eexists _, _.
Qed.

(** ** References *)

Lemma elem_of_ids {A} (id : A → string) l x : x ∈ ids id l ↔ x ∈ map id l.
Proof. apply elem_of_list_to_set. Qed.
Lemma elem_of_map_id {A} (id : A → string) l x : x ∈ map id l ↔ ∃ y, y ∈ l ∧ id y = x.
Proof. rewrite list_elem_of_fmap. naive_solver. Qed.

Lemma index_by_lookup {A B} (key : A → string) (value : A → B) l x :
  NoDup (map key l) → x ∈ l → index_by key value l !! key x = Some (value x).
Proof.
  unfold index_by. generalize (∅ : gmap string B). induction l as [|y l IH]; intros m Hnd Hx; [by apply not_elem_of_nil in Hx|].
  apply NoDup_cons in Hnd as [Hy Hnd]. apply elem_of_cons in Hx as [->|Hx]; [|by apply IH].
  cbn [foldl]. clear IH Hnd. revert Hy. assert (Hm : <[key y:=value y]> m !! key y = Some (value y)) by by simplify_map_eq.
  revert Hm. generalize (<[key y:=value y]> m). induction l as [|z l IH]; intros m' Hm Hy; [done|]. cbn [foldl].
  apply IH; [|intros Hin; apply Hy; by right]. rewrite lookup_insert_ne; [done|]. intros He. apply Hy. cbn. rewrite He. by left.
Qed.
Lemma at_index_by {A} (key value : A → string) l x :
  NoDup (map key l) → x ∈ l → at_key (index_by key value l) (key x) = value x.
Proof. intros Hnd Hx. unfold at_key. by rewrite (index_by_lookup key value l x). Qed.

(** A reference whose record has a given attribute. *)
Definition refers_with {A} (id attribute : A → string) (l : list A) (target value : string) : Prop :=
  ∃ x, x ∈ l ∧ id x = target ∧ attribute x = value.
Lemma refers_with_at_key {A} (id attribute : A → string) l target value :
  NoDup (map id l) → target ∈ ids id l → at_key (index_by id attribute l) target = value → refers_with id attribute l target value.
Proof.
  intros Hnd (x & Hx & <-)%elem_of_ids%elem_of_map_id Hat. exists x. split_and!; [done..|]. by rewrite (at_index_by id attribute l x) in Hat.
Qed.

Definition optional_in (target : option string) (known : gset string) : Prop := ∀ t, target = Some t → t ∈ known.

Section references.
Context `{ULID}.

Lemma validateReference_in path target known entity u : validateReference path target known entity = Ok u → target ∈ known.
Proof. unfold validateReference. intros Hv. inv_ok. bool_simpl. by bool_simpl. Qed.

Lemma optionalReference_in path target known entity u : optionalReference path target known entity = Ok u → optional_in target known.
Proof.
  unfold optionalReference, ifSet. destruct target as [t|]; [|by intros _ t]. intros Hv t' [= <-]. inv_ok.
  by eapply validateReference_in.
Qed.

Lemma freshID_extends path id entity seen seen' : freshID path id entity seen = Ok seen' → extends (dom seen) [id] (dom seen').
Proof.
  unfold freshID, validateCanonicalULID. intros Hf. inv_ok. split_and!.
  - apply NoDup_singleton.
  - intros x ->%list_elem_of_singleton. apply not_elem_of_dom. by apply isSet_false.
  - rewrite dom_insert_L. set_solver.
  - apply Forall_singleton. by bool_simpl.
Qed.

(** A frozen issue version does not exceed the version its issue is restored
    at, when it carries one. *)
Definition reachable_version (issues : list LogicalIssue) (issueID : string) (frozen : Z) : Prop :=
  ∀ issue v, issue ∈ issues → lis_ID issue = issueID → lis_Version issue = Some v → (frozen <= v)%Z.

Lemma carriedVersions_lookup issues issue v :
  NoDup (map lis_ID issues) → issue ∈ issues → lis_Version issue = Some v → carriedVersions issues !! lis_ID issue = Some v.
Proof.
  unfold carriedVersions. generalize (∅ : gmap string Z). induction issues as [|y l IH]; intros m Hnd Hx Hv; [by apply not_elem_of_nil in Hx|].
  apply NoDup_cons in Hnd as [Hy Hnd]. apply elem_of_cons in Hx as [<-|Hx]; [|by apply IH].
  cbn [foldl]. rewrite Hv. clear IH Hnd. revert Hy. assert (Hm : <[lis_ID issue:=v]> m !! lis_ID issue = Some v) by by simplify_map_eq.
  revert Hm. generalize (<[lis_ID issue:=v]> m). induction l as [|z l IH]; intros m' Hm Hy; [done|]. cbn [foldl].
  apply IH; [|intros Hin; apply Hy; by right]. destruct (lis_Version z); [|done].
  rewrite lookup_insert_ne; [done|]. intros He. apply Hy. cbn. rewrite He. by left.
Qed.

Lemma validateFrozenIssueVersion_reachable path issueID frozen issues u :
  NoDup (map lis_ID issues) → validateFrozenIssueVersion path issueID frozen (carriedVersions issues) = Ok u →
  reachable_version issues issueID frozen.
Proof.
  intros Hnd Hf issue v Hi <- Hv. unfold validateFrozenIssueVersion in Hf.
  rewrite (carriedVersions_lookup issues issue v) in Hf by done. destruct (Z.leb_spec frozen v); [done|discriminate Hf].
Qed.

Lemma validateLogicalArtifactReferences_on path issueID references (artifacts : list LogicalArtifact) u :
  NoDup (map lar_ID artifacts) →
  validateLogicalArtifactReferences path issueID references (ids lar_ID artifacts) (index_by lar_ID lar_IssueID artifacts) = Ok u →
  ∀ id, id ∈ references → refers_with lar_ID lar_IssueID artifacts id issueID.
Proof.
  intros Hnd Hv. unfold validateLogicalArtifactReferences in Hv. revert Hv. apply each_enumerate. intros i x v Hv. inv_ok. bool_simpl.
  apply refers_with_at_key; [done|by eapply validateReference_in|by apply eqb_string_true].
Qed.
End references.

(** ** One record of each kind *)

(** The facts of a successful check. *)
Ltac checked :=
  inv_ok; bool_simpl;
  repeat match goal with
  | H : freshID _ _ _ _ = Ok _ |- _ => apply freshID_extends in H
  | H : validateReference _ _ _ _ = Ok _ |- _ => apply validateReference_in in H
  | H : optionalReference _ _ _ _ = Ok _ |- _ => apply optionalReference_in in H
  | H : (_ =s _) = true |- _ => apply eqb_string_true in H
  | H : (_ =s _) = false |- _ => apply eqb_string_false in H
  end.

Section records.
Context `{UnicodeTables, ULID, URLParser, UnicodeCase, JSONErrors}.

Lemma checkIssue_Ok version i issue seen seen' :
  checkIssue version i issue seen = Ok seen' → extends (dom seen) [lis_ID issue] (dom seen').
Proof. unfold checkIssue. intros Hc. by checked. Qed.

Lemma checkIssue_version version i issue seen seen' :
  checkIssue version i issue seen = Ok seen' → isSet (lis_Version issue) = true → (2 <= version)%Z.
Proof.
  unfold checkIssue. intros Hc. checked. destruct (lis_Version issue) as [v|]; [|done]. cbn [ifSet] in *. checked. lia.
Qed.

Definition parent_ok (issues : list LogicalIssue) (issue : LogicalIssue) : Prop :=
  ∀ parent, lis_ParentID issue = Some parent →
    (lis_Type issue = "task" ∨ lis_Type issue = "bug") ∧ refers_with lis_ID lis_Type issues parent "epic".
Lemma checkParent_Ok issues i issue u :
  NoDup (map lis_ID issues) →
  checkParent (ids lis_ID issues) (index_by lis_ID lis_Type issues) (i, issue) = Ok u → parent_ok issues issue.
Proof.
  unfold checkParent, ifSet. intros Hnd Hc parent Hp. rewrite Hp in Hc. checked. split.
  - match goal with Hb : (negb _ && negb _)%bool = false |- _ => apply andb_false_iff in Hb as [Hb|Hb]; bool_simpl; apply eqb_string_true in Hb; tauto end.
  - by apply refers_with_at_key.
Qed.

Lemma checkLabel_Ok i label st st' :
  checkLabel i label st = Ok st' →
  extends (dom st.1) [lla_ID label] (dom st'.1) ∧
  ToLower (lla_Name label) ∉ st.2 ∧ st'.2 = {[ ToLower (lla_Name label) ]} ∪ st.2.
Proof. unfold checkLabel. destruct st as [seen names]. intros Hc. by checked. Qed.

Definition linkKey (link : LogicalIssueLabel) : string := lil_IssueID link +:+ zero_byte +:+ lil_LabelID link.
Lemma checkIssueLabel_Ok issueIDs labelIDs i link seen seen' :
  checkIssueLabel issueIDs labelIDs i link seen = Ok seen' →
  (linkKey link ∉ seen ∧ seen' = {[ linkKey link ]} ∪ seen) ∧ lil_IssueID link ∈ issueIDs ∧ lil_LabelID link ∈ labelIDs.
Proof. unfold checkIssueLabel. intros Hc. by checked. Qed.

Definition relation_ok (issueIDs : gset string) (r : LogicalRelation) : Prop :=
  lre_SourceIssueID r ∈ issueIDs ∧ lre_TargetIssueID r ∈ issueIDs ∧ lre_SourceIssueID r ≠ lre_TargetIssueID r ∧
  RelationType_Valid (lre_Type r) = true ∧
  (lre_Type r = "related_to" → str_less (lre_SourceIssueID r) (lre_TargetIssueID r) = true).
Lemma checkRelation_Ok issueIDs i r st st' :
  checkLogicalRelation issueIDs i r st = Ok st' →
  extends (dom st.1) [lre_ID r] (dom st'.1) ∧ (logicalRelationKey r ∉ st.2 ∧ st'.2 = {[ logicalRelationKey r ]} ∪ st.2) ∧ relation_ok issueIDs r.
Proof.
  unfold checkLogicalRelation, parsed, ParseRelationType. destruct st as [seen keys]. intros Hc. checked. split_and!; [done..|].
  unfold relation_ok. split_and!; try done. intros Ht. match goal with Hb : (_ && negb _)%bool = false |- _ => rewrite Ht in Hb; cbn [String.eqb] in Hb end.
  by apply negb_false_iff.
Qed.

Lemma checkComment_Ok issueIDs i comment seen seen' :
  checkComment issueIDs i comment seen = Ok seen' →
  extends (dom seen) [lco_ID comment] (dom seen') ∧ lco_IssueID comment ∈ issueIDs.
Proof. unfold checkComment. intros Hc. by checked. Qed.

(** Decisions supersede decisions of their scope. *)
Definition decision_ok (issueIDs : gset string) (decisions : list LogicalDecision) (d : LogicalDecision) : Prop :=
  optional_in (lde_IssueID d) issueIDs ∧
  ∀ target, lde_SupersedesID d = Some target →
    ∃ old, old ∈ decisions ∧ lde_ID old = target ∧ lde_IssueID old = lde_IssueID d.
Lemma checkDecision_Ok issueIDs decisions i d seen seen' :
  checkLogicalDecision issueIDs decisions i d seen = Ok seen' →
  extends (dom seen) [lde_ID d] (dom seen') ∧ decision_ok issueIDs decisions d.
Proof.
  unfold checkLogicalDecision. intros Hc. checked. split; [done|split; [done|]]. intros target Ht. rewrite Ht in *. cbn [ifSet] in *. checked.
  unfold validateDecisionSupersedesReference in *. cbv zeta in *. checked.
  destruct (List.find _ decisions) as [old|] eqn:Hf; [|done]. apply List.find_some in Hf as [Hin Hid].
  exists old. split_and!; [by apply list_elem_of_In|by apply eqb_string_true|].
  destruct (lde_IssueID d), (lde_IssueID old); cbn in *; try done. checked. by subst.
Qed.

Definition attempt_ok (issues : list LogicalIssue) (a : LogicalAttempt) : Prop :=
  lat_IssueID a ∈ map lis_ID issues ∧ lat_Status a ≠ "active" ∧ AttemptStatus_Valid (lat_Status a) = true ∧
  reachable_version issues (lat_IssueID a) (lat_IssueVersionAtStart a).
Lemma checkAttempt_Ok issues i a seen seen' :
  NoDup (map lis_ID issues) →
  checkAttempt (ids lis_ID issues) (carriedVersions issues) i a seen = Ok seen' →
  extends (dom seen) [lat_ID a] (dom seen') ∧ attempt_ok issues a.
Proof.
  unfold checkAttempt. intros Hnd Hc. checked. split; [done|]. unfold attempt_ok.
  split_and!; [by apply elem_of_ids|done..|by eapply validateFrozenIssueVersion_reachable].
Qed.

Lemma checkAttemptNote_Ok attemptIDs i note seen seen' :
  checkAttemptNote attemptIDs i note seen = Ok seen' →
  extends (dom seen) [lno_ID note] (dom seen') ∧ lno_AttemptID note ∈ attemptIDs.
Proof. unfold checkAttemptNote. intros Hc. by checked. Qed.

Definition metadata_ok (a : LogicalArtifact) : Prop := lar_Metadata a ≠ "" → json_Valid (lar_Metadata a) = true.
Lemma checkArtifact_Ok issueIDs attemptIDs i a seen seen' :
  checkArtifact issueIDs attemptIDs i a seen = Ok seen' →
  extends (dom seen) [lar_ID a] (dom seen') ∧ lar_IssueID a ∈ issueIDs ∧ optional_in (lar_AttemptID a) attemptIDs ∧ metadata_ok a.
Proof.
  unfold checkArtifact. intros Hc. checked. split_and!; [done..|]. intros Hm.
  match goal with Hv : validateArtifactMetadata _ _ = Ok _ |- _ => unfold validateArtifactMetadata in Hv;
    rewrite (proj2 (eqb_string_false _ _) Hm) in Hv; by checked end.
Qed.

Definition event_ok (version : Z) (issueIDs attemptIDs : gset string) (e : LogicalEvent) : Prop :=
  optional_in (lev_IssueID e) issueIDs ∧ optional_in (lev_AttemptID e) attemptIDs ∧
  (lev_Source e ≠ "" → (2 <= version)%Z ∧ (lev_Source e = LogicalEventSourceIssue ∨ lev_Source e = LogicalEventSourceReview)) ∧
  json_Valid (lev_Payload e) = true.
Lemma checkEvent_Ok version issueIDs attemptIDs i e u :
  checkEvent version issueIDs attemptIDs (i, e) = Ok u → event_ok version issueIDs attemptIDs e.
Proof.
  unfold checkEvent, isValidEventPayload. intros Hc. checked. split_and!; [done..| |done]. intros Hs.
  rewrite (proj2 (eqb_string_false _ _) Hs) in Hc. checked. split; [done|].
  match goal with Hb : (negb _ && negb _)%bool = false |- _ =>
    apply andb_false_iff in Hb as [Hb|Hb]; apply negb_false_iff, eqb_string_true in Hb; auto end.
Qed.
End records.

(** ** Reviews, reservations and gates *)

Section review_records.
Context `{UnicodeTables, ULID, URLParser, UnicodeCase, JSONErrors}.
Context (d : LogicalProjectDocument).
Hypothesis issues_distinct : NoDup (map lis_ID (ldo_Issues d)).
Hypothesis attempts_distinct : NoDup (map lat_ID (ldo_Attempts d)).
Hypothesis artifacts_distinct : NoDup (map lar_ID (ldo_Artifacts d)).

#[local] Notation issueIDs := (ids lis_ID (ldo_Issues d)).
#[local] Notation versions := (carriedVersions (ldo_Issues d)).
#[local] Notation attemptIDs := (ids lat_ID (ldo_Attempts d)).
#[local] Notation attemptIssueIDs := (index_by lat_ID lat_IssueID (ldo_Attempts d)).
#[local] Notation artifactIDs := (ids lar_ID (ldo_Artifacts d)).
#[local] Notation artifactIssueIDs := (index_by lar_ID lar_IssueID (ldo_Artifacts d)).

(** Artifacts of one issue. *)
Definition artifacts_on (issueID : string) (references : option (list string)) : Prop :=
  ∀ id, id ∈ default [] references → refers_with lar_ID lar_IssueID (ldo_Artifacts d) id issueID.
(** An attempt at the issue. *)
Definition attempt_at (issueID attemptID : string) : Prop :=
  refers_with lat_ID lat_IssueID (ldo_Attempts d) attemptID issueID.

Ltac related :=
  repeat match goal with
  | H : validateLogicalArtifactReferences _ _ _ _ _ = Ok _ |- _ =>
      pose proof (validateLogicalArtifactReferences_on _ _ _ _ _ artifacts_distinct H); clear H
  | H : validateFrozenIssueVersion _ _ _ _ = Ok _ |- _ =>
      apply validateFrozenIssueVersion_reachable in H; [|exact issues_distinct]
  end.

Definition target_ok (t : LogicalReviewTarget) : Prop :=
  lrt_IssueID t ∈ issueIDs ∧ artifacts_on (lrt_IssueID t) (lrt_ArtifactIDs t) ∧ (1 <= lrt_IssueVersion t)%Z ∧
  reachable_version (ldo_Issues d) (lrt_IssueID t) (lrt_IssueVersion t).
Lemma checkReviewTarget_Ok i t seen seen' :
  checkReviewTarget issueIDs versions artifactIDs artifactIssueIDs i t seen = Ok seen' →
  extends (dom seen) [lrt_ID t] (dom seen') ∧ target_ok t.
Proof. unfold checkReviewTarget, atLeast. intros Hc. checked. by related. Qed.

Definition request_ok (requestIDs : gset string) (r : LogicalReviewRequest) : Prop :=
  lrr_TargetID r ∈ ids lrt_ID (ldo_ReviewTargets d) ∧ lrr_IssueID r ∈ issueIDs ∧
  artifacts_on (lrr_IssueID r) (lrr_ArtifactIDs r) ∧
  reachable_version (ldo_Issues d) (lrr_IssueID r) (lrr_TargetIssueVersion r) ∧
  lrr_Status r ≠ "claimed" ∧ optional_in (lrr_SupersedesID r) requestIDs.
Lemma checkReviewRequest_Ok i r st st' :
  checkReviewRequest issueIDs versions artifactIDs artifactIssueIDs (ids lrt_ID (ldo_ReviewTargets d)) i r st = Ok st' →
  extends (dom st.1) [lrr_ID r] (dom st'.1) ∧ st'.2 = {[ lrr_ID r ]} ∪ st.2 ∧ request_ok st'.2 r.
Proof. unfold checkReviewRequest, atLeast. destruct st as [seen requestIDs]. intros Hc. checked. by related. Qed.

Definition outcome_ok (o : LogicalReviewOutcome) : Prop :=
  lro_RequestID o ∈ ids lrr_ID (ldo_ReviewRequests d) ∧ lro_AttemptID o ∈ attemptIDs.
Lemma checkReviewOutcome_Ok i o seen seen' :
  checkReviewOutcome (ids lrr_ID (ldo_ReviewRequests d)) attemptIDs i o seen = Ok seen' →
  extends (dom seen) [lro_ID o] (dom seen') ∧ outcome_ok o.
Proof. unfold checkReviewOutcome. intros Hc. by checked. Qed.

Definition review_event_ok (e : LogicalReviewEvent) : Prop :=
  lrv_RequestID e ∈ ids lrr_ID (ldo_ReviewRequests d) ∧ lrv_TargetID e ∈ ids lrt_ID (ldo_ReviewTargets d) ∧
  optional_in (lrv_AttemptID e) attemptIDs.
Lemma checkReviewEvent_Ok i e u :
  checkReviewEvent (ids lrr_ID (ldo_ReviewRequests d)) (ids lrt_ID (ldo_ReviewTargets d)) attemptIDs (i, e) = Ok u →
  review_event_ok e.
Proof. unfold checkReviewEvent. intros Hc. by checked. Qed.

Definition reservation_ok (r : LogicalReservation) : Prop :=
  lrs_IssueID r ∈ issueIDs ∧ attempt_at (lrs_IssueID r) (lrs_AttemptID r) ∧ lrs_Status r = "released".
Lemma checkReservation_Ok i r seen seen' :
  checkReservation issueIDs attemptIDs attemptIssueIDs i r seen = Ok seen' →
  extends (dom seen) [lrs_ID r] (dom seen') ∧ reservation_ok r.
Proof.
  unfold checkReservation. intros Hc. checked. unfold reservation_ok. split_and!; [done..| |done].
  by apply refers_with_at_key.
Qed.

Lemma checkPolicy_Ok i p seen seen' : checkPolicy i p seen = Ok seen' → extends (dom seen) [lwp_ID p] (dom seen').
Proof. unfold checkPolicy. intros Hc. by checked. Qed.

Lemma checkPolicyEvent_Ok policyIDs i e u : checkPolicyEvent policyIDs (i, e) = Ok u → lpe_PolicyID e ∈ policyIDs.
Proof. unfold checkPolicyEvent. intros Hc. by checked. Qed.

Lemma snapshot_version path requirements sources fingerprint version at' u :
  validateLogicalGateSnapshotBody path requirements sources fingerprint version at' = Ok u → (1 <= version)%Z.
Proof. unfold validateLogicalGateSnapshotBody, atLeast. intros Hc. by checked. Qed.

(** A snapshot of what its owner's issue required. *)
Definition snapshot_ok (owner : string → string → Prop) (id : string) (version : Z) : Prop :=
  ∃ issueID, owner id issueID ∧ reachable_version (ldo_Issues d) issueID version.
Lemma checkAttemptSnapshot_Ok i s seen seen' :
  checkAttemptSnapshot attemptIDs attemptIssueIDs versions i s seen = Ok seen' →
  (las_AttemptID s ∉ seen ∧ seen' = {[ las_AttemptID s ]} ∪ seen) ∧
  snapshot_ok (λ id issueID, attempt_at issueID id) (las_AttemptID s) (las_IssueVersion s).
Proof.
  unfold checkAttemptSnapshot. intros Hc. checked. related. split; [done|]. eexists. split; [|done]. by apply refers_with_at_key.
Qed.

Hypothesis targets_distinct : NoDup (map lrt_ID (ldo_ReviewTargets d)).
Hypothesis requests_distinct : NoDup (map lrr_ID (ldo_ReviewRequests d)).
Definition target_of (issueID targetID : string) : Prop :=
  refers_with lrt_ID lrt_IssueID (ldo_ReviewTargets d) targetID issueID.

Lemma checkTargetSnapshot_Ok i s seen seen' :
  checkTargetSnapshot (ids lrt_ID (ldo_ReviewTargets d)) (index_by lrt_ID lrt_IssueID (ldo_ReviewTargets d)) versions i s seen = Ok seen' →
  (lts_TargetID s ∉ seen ∧ seen' = {[ lts_TargetID s ]} ∪ seen) ∧
  snapshot_ok (λ id issueID, target_of issueID id) (lts_TargetID s) (lts_IssueVersion s).
Proof.
  unfold checkTargetSnapshot. intros Hc. checked. related. split; [done|]. eexists. split; [|done]. by apply refers_with_at_key.
Qed.

Definition evidenceKey (e : LogicalGateEvidence) : string := lge_AttemptID e +:+ zero_byte +:+ lge_Key e.
Definition logical_evidence_ok (e : LogicalGateEvidence) : Prop :=
  attempt_at (lge_IssueID e) (lge_AttemptID e) ∧ lge_IssueID e ∈ issueIDs ∧ artifacts_on (lge_IssueID e) (lge_ArtifactIDs e).
Lemma checkEvidence_Ok i e st st' :
  checkEvidence issueIDs attemptIDs attemptIssueIDs artifactIDs artifactIssueIDs i e st = Ok st' →
  extends (dom st.1) [lge_ID e] (dom st'.1) ∧ (evidenceKey e ∉ st.2 ∧ st'.2 = {[ evidenceKey e ]} ∪ st.2) ∧ logical_evidence_ok e.
Proof.
  unfold checkEvidence, atLeast. destruct st as [seen keys]. intros Hc. checked. related. unfold logical_evidence_ok.
  split_and!; [done..|by apply refers_with_at_key|done|done].
Qed.

Definition evidence_event_ok (evidence : list LogicalGateEvidence) (e : LogicalGateEvidenceEvent) : Prop :=
  refers_with lge_ID lge_AttemptID evidence (lee_EvidenceID e) (lee_AttemptID e) ∧ lee_AttemptID e ∈ attemptIDs ∧
  lee_IssueID e ∈ issueIDs.
Lemma checkEvidenceEvent_Ok evidence i e u :
  NoDup (map lge_ID evidence) →
  checkEvidenceEvent (ids lge_ID evidence) (index_by lge_ID lge_AttemptID evidence) issueIDs attemptIDs (i, e) = Ok u →
  evidence_event_ok evidence e.
Proof.
  unfold checkEvidenceEvent, atLeast. intros Hnd Hc. checked. unfold evidence_event_ok.
  split_and!; [by apply refers_with_at_key|done..].
Qed.

(** An approval names a request, the target of the request and the issue of
    the target. *)
Definition approvalKey (a : LogicalReviewApproval) : string := lra_RequestID a +:+ zero_byte +:+ lra_Purpose a.
Definition approval_ok (a : LogicalReviewApproval) : Prop :=
  refers_with lrr_ID lrr_TargetID (ldo_ReviewRequests d) (lra_RequestID a) (lra_TargetID a) ∧
  target_of (lra_IssueID a) (lra_TargetID a) ∧ lra_IssueID a ∈ issueIDs ∧ lra_AttemptID a ∈ attemptIDs ∧
  reachable_version (ldo_Issues d) (lra_IssueID a) (lra_TargetIssueVersion a).
Lemma checkApproval_Ok i a st st' :
  checkApproval issueIDs attemptIDs (ids lrt_ID (ldo_ReviewTargets d)) (ids lrr_ID (ldo_ReviewRequests d))
    (index_by lrt_ID lrt_IssueID (ldo_ReviewTargets d)) (index_by lrr_ID lrr_TargetID (ldo_ReviewRequests d)) versions i a st = Ok st' →
  extends (dom st.1) [lra_ID a] (dom st'.1) ∧ (approvalKey a ∉ st.2 ∧ st'.2 = {[ approvalKey a ]} ∪ st.2) ∧ approval_ok a.
Proof.
  unfold checkApproval, atLeast. destruct st as [seen keys]. intros Hc. checked. related. unfold approval_ok.
  split_and!; [done..|by apply refers_with_at_key|by apply refers_with_at_key|done|done|done].
Qed.
End review_records.

(** ** The whole document *)

Lemma NoDup_coarser {A B C} (f : A → B) (g : A → C) l : (∀ x y, f x = f y → g x = g y) → NoDup (map g l) → NoDup (map f l).
Proof.
  intros Hfg. induction l as [|x l IH]; [by constructor|]. cbn. intros [Hx Hl]%NoDup_cons. apply NoDup_cons. split; [|by apply IH].
  intros (y & He & Hy)%list_elem_of_fmap. apply Hx. rewrite (Hfg _ _ He). by apply list_elem_of_fmap_2.
Qed.

Definition logical_blocks (relations : list LogicalRelation) (a b : string) : Prop :=
  ∃ r, r ∈ relations ∧ lre_Type r = "blocks" ∧ lre_SourceIssueID r = a ∧ lre_TargetIssueID r = b.

Lemma blocksAdjacency_blocks relations a b : b ∈ blocksAdjacency relations a ↔ logical_blocks relations a b.
Proof.
  unfold blocksAdjacency, logical_blocks. rewrite list_elem_of_fmap. setoid_rewrite elem_of_filter_list.
  setoid_rewrite andb_true_iff. setoid_rewrite eqb_string_true. naive_solver.
Qed.

Lemma validateBlocksAcyclicity_Ok relations u :
  validateBlocksAcyclicity relations = Ok u → ∀ a, ¬ tc (logical_blocks relations) a a.
Proof.
  unfold validateBlocksAcyclicity. cbv zeta. intros Hv a Ha. inv_ok.
  set (nodes := {[ a ]} ∪ list_to_set (map lre_TargetIssueID relations) : gset string).
  destruct (bfs_spec (blocksAdjacency relations) a a nodes) with (S (length relations)) as (b & Hb & Hpath).
  - set_solver.
  - intros x y _ (r & Hr & _ & _ & <-)%blocksAdjacency_blocks. apply elem_of_union_r, elem_of_list_to_set.
    by apply list_elem_of_fmap_2.
  - unfold nodes. rewrite size_union_alt, size_singleton.
    pose proof (size_list_to_set_le (map lre_TargetIssueID relations)) as Hs. rewrite length_map in Hs.
    assert (size (list_to_set (map lre_TargetIssueID relations) ∖ {[a]} : gset string) ≤ size (list_to_set (map lre_TargetIssueID relations) : gset string))
      by (apply subseteq_size; set_solver). lia.
  - assert (b = true) as -> by (apply Hpath; eapply tc_mono; [|exact Ha]; intros x y; apply blocksAdjacency_blocks).
    assert (Hsrc : ∃ y, logical_blocks relations a y) by (inversion Ha; subst; eauto). destruct Hsrc as (y & r & Hr & Ht & Hs & _).
    match goal with Hx : existsb _ _ = false |- _ => rewrite <-not_true_iff_false, existsb_exists in Hx; apply Hx end.
    exists a. rewrite Hb. split; [|done]. apply list_elem_of_In, list_elem_of_fmap. exists r. split; [done|].
    apply elem_of_filter_list. by rewrite Ht.
Qed.

Section closed.
Context `{UnicodeTables, ULID, URLParser, UnicodeCase, JSONErrors}.

(** The records of both versions. *)
Record core_closed (d : LogicalProjectDocument) : Prop := {
  core_parents : ∀ issue, issue ∈ ldo_Issues d → parent_ok (ldo_Issues d) issue;
  core_labels : NoDup (map (λ l, ToLower (lla_Name l)) (ldo_Labels d));
  core_links : ∀ l, l ∈ ldo_IssueLabels d → lil_IssueID l ∈ ids lis_ID (ldo_Issues d) ∧ lil_LabelID l ∈ ids lla_ID (ldo_Labels d);
  core_links_once : NoDup (map (λ l, (lil_IssueID l, lil_LabelID l)) (ldo_IssueLabels d));
  core_relations : ∀ r, r ∈ ldo_Relations d → relation_ok (ids lis_ID (ldo_Issues d)) r;
  core_relations_once : NoDup (map (λ r, (lre_Type r, lre_SourceIssueID r, lre_TargetIssueID r)) (ldo_Relations d));
  core_acyclic : ∀ a, ¬ tc (logical_blocks (ldo_Relations d)) a a;
  core_comments : ∀ c, c ∈ ldo_Comments d → lco_IssueID c ∈ ids lis_ID (ldo_Issues d);
  core_decisions : ∀ x, x ∈ ldo_Decisions d → decision_ok (ids lis_ID (ldo_Issues d)) (ldo_Decisions d) x;
  core_attempts : ∀ a, a ∈ ldo_Attempts d → attempt_ok (ldo_Issues d) a;
  core_notes : ∀ n, n ∈ ldo_AttemptNotes d → lno_AttemptID n ∈ ids lat_ID (ldo_Attempts d);
  core_artifacts : ∀ a, a ∈ ldo_Artifacts d →
    lar_IssueID a ∈ ids lis_ID (ldo_Issues d) ∧ optional_in (lar_AttemptID a) (ids lat_ID (ldo_Attempts d)) ∧ metadata_ok a;
  core_events : ∀ e, e ∈ ldo_Events d →
    event_ok (ldo_Version d) (ids lis_ID (ldo_Issues d)) (ids lat_ID (ldo_Attempts d)) e;
}.

(** The records of version 2 and of the two namespaces. *)
Record review_closed (d : LogicalProjectDocument) (reservations : list LogicalReservation) (g : LogicalGatesExtension) : Prop := {
  rev_targets : ∀ t, t ∈ ldo_ReviewTargets d → target_ok d t;
  rev_requests : ∀ r, r ∈ ldo_ReviewRequests d → request_ok d (ids lrr_ID (ldo_ReviewRequests d)) r;
  rev_outcomes : ∀ o, o ∈ ldo_ReviewOutcomes d → outcome_ok d o;
  rev_events : ∀ e, e ∈ ldo_ReviewEvents d → review_event_ok d e;
  rev_reservations : ∀ r, r ∈ reservations → reservation_ok d r;
  rev_policy_events : ∀ e, e ∈ lgx_PolicyEvents g → lpe_PolicyID e ∈ ids lwp_ID (lgx_Policies g);
  rev_attempt_snapshots : ∀ s, s ∈ lgx_AttemptSnapshots g →
    snapshot_ok d (λ id issueID, attempt_at d issueID id) (las_AttemptID s) (las_IssueVersion s);
  rev_attempt_snapshots_once : NoDup (map las_AttemptID (lgx_AttemptSnapshots g));
  rev_target_snapshots : ∀ s, s ∈ lgx_ReviewTargetSnapshots g →
    snapshot_ok d (λ id issueID, target_of d issueID id) (lts_TargetID s) (lts_IssueVersion s);
  rev_target_snapshots_once : NoDup (map lts_TargetID (lgx_ReviewTargetSnapshots g));
  rev_evidence : ∀ e, e ∈ lgx_Evidence g → logical_evidence_ok d e;
  rev_evidence_once : NoDup (map (λ e, (lge_AttemptID e, lge_Key e)) (lgx_Evidence g));
  rev_evidence_events : ∀ e, e ∈ lgx_EvidenceEvents g → evidence_event_ok d (lgx_Evidence g) e;
  rev_approvals : ∀ a, a ∈ lgx_ReviewApprovals g → approval_ok d a;
  rev_approvals_once : NoDup (map (λ a, (lra_RequestID a, lra_Purpose a)) (lgx_ReviewApprovals g));
}.

(** The identifiers, in the order of the passes. *)
Definition core_ids (d : LogicalProjectDocument) : list string :=
  map lis_ID (ldo_Issues d) ++ map lla_ID (ldo_Labels d) ++ map lre_ID (ldo_Relations d) ++ map lco_ID (ldo_Comments d) ++
  map lde_ID (ldo_Decisions d) ++ map lat_ID (ldo_Attempts d) ++ map lno_ID (ldo_AttemptNotes d) ++ map lar_ID (ldo_Artifacts d).
Definition review_ids (d : LogicalProjectDocument) (reservations : list LogicalReservation) (g : LogicalGatesExtension) : list string :=
  map lrt_ID (ldo_ReviewTargets d) ++ map lrr_ID (ldo_ReviewRequests d) ++ map lro_ID (ldo_ReviewOutcomes d) ++
  map lrs_ID reservations ++ map lwp_ID (lgx_Policies g) ++ map lge_ID (lgx_Evidence g) ++ map lra_ID (lgx_ReviewApprovals g).

(** One walk over the records of each kind. *)
Lemma seen_walk {A} (f : Z → A → Seen → result Seen) (id : A → string) (P : A → Prop) l s s' :
  (∀ i x s s', f i x s = Ok s' → extends (dom s) [id x] (dom s') ∧ P x) → walk f 0 l s = Ok s' →
  extends (dom s) (map id l) (dom s') ∧ ∀ x, x ∈ l → P x.
Proof.
  intros Hf Hw. split.
  - apply (walk_extends f id (λ s, dom s) l 0 s s'); [|done]. intros i x t t' Ht. by apply (Hf i).
  - apply (walk_each f P l 0 s s'); [|done]. intros i x t t' Ht. by apply (Hf i x t t').
Qed.
Lemma keyed_walk {A} (f : Z → A → gset string → result (gset string)) (key : A → string) (P : A → Prop) l s s' :
  (∀ i x s s', f i x s = Ok s' → (key x ∉ s ∧ s' = {[ key x ]} ∪ s) ∧ P x) → walk f 0 l s = Ok s' →
  NoDup (map key l) ∧ ∀ x, x ∈ l → P x.
Proof.
  intros Hf Hw. split.
  - apply (walk_NoDup f key (λ s, s) l 0 s s'); [|done]. intros i x t t' Ht. by apply (Hf i).
  - apply (walk_each f P l 0 s s'); [|done]. intros i x t t' Ht. by apply (Hf i x t t').
Qed.
Lemma pair_walk {A} (f : Z → A → Seen * gset string → result (Seen * gset string)) (id key : A → string) (P : A → Prop) l s s' :
  (∀ i x s s', f i x s = Ok s' →
     extends (dom s.1) [id x] (dom s'.1) ∧ (key x ∉ s.2 ∧ s'.2 = {[ key x ]} ∪ s.2) ∧ P x) → walk f 0 l s = Ok s' →
  extends (dom s.1) (map id l) (dom s'.1) ∧ NoDup (map key l) ∧ ∀ x, x ∈ l → P x.
Proof.
  intros Hf Hw. split_and!.
  - apply (walk_extends f id (λ s, dom s.1) l 0 s s'); [|done]. intros i x t t' Ht. by apply (Hf i).
  - apply (walk_NoDup f key snd l 0 s s'); [|done]. intros i x t t' Ht. by apply (Hf i x t t').
  - apply (walk_each f P l 0 s s'); [|done]. intros i x t t' Ht. by apply (Hf i x t t').
Qed.

Lemma checkIssue_True version i issue seen seen' :
  checkIssue version i issue seen = Ok seen' → extends (dom seen) [lis_ID issue] (dom seen') ∧ True.
Proof. intros Hc. split; [by eapply checkIssue_Ok|done]. Qed.
Lemma checkLabel_True i label st st' :
  checkLabel i label st = Ok st' →
  extends (dom st.1) [lla_ID label] (dom st'.1) ∧
  (ToLower (lla_Name label) ∉ st.2 ∧ st'.2 = {[ ToLower (lla_Name label) ]} ∪ st.2) ∧ True.
Proof. intros Hc. apply checkLabel_Ok in Hc. tauto. Qed.

Lemma extends_NoDup s l s' : extends s l s' → NoDup l.
Proof. by intros [Hl _]. Qed.

Lemma semantics_core d u : validateLogicalProjectDocumentSemantics d = Ok u →
  supportedVersion (ldo_Version d) = true ∧ core_closed d ∧
  ∃ seen, extends ∅ (core_ids d) (dom seen) ∧
    (ldo_Version d = 2%Z → ∃ seen1 seen2,
      checkReviews d seen (ids lis_ID (ldo_Issues d)) (carriedVersions (ldo_Issues d)) (ids lat_ID (ldo_Attempts d))
        (ids lar_ID (ldo_Artifacts d)) (index_by lar_ID lar_IssueID (ldo_Artifacts d)) = Ok seen1 ∧
      validateLogicalReservations d seen1 (ids lis_ID (ldo_Issues d)) (ids lat_ID (ldo_Attempts d))
        (index_by lat_ID lat_IssueID (ldo_Attempts d)) = Ok seen2 ∧
      validateLogicalGates d seen2 (ids lis_ID (ldo_Issues d)) (carriedVersions (ldo_Issues d)) (ids lat_ID (ldo_Attempts d))
        (index_by lat_ID lat_IssueID (ldo_Attempts d)) (ids lar_ID (ldo_Artifacts d))
        (index_by lar_ID lar_IssueID (ldo_Artifacts d)) = Ok u).
Proof.
  unfold validateLogicalProjectDocumentSemantics. cbv zeta. intros Hv. inv_ok.
  match goal with H : walk (checkIssue _) _ _ _ = _ |- _ =>
    destruct (seen_walk _ lis_ID (λ _, True) _ _ _ (checkIssue_True _) H) as [Hissues _] end.
  pose proof (extends_NoDup _ _ _ Hissues) as Hnd.
  match goal with H : each (checkParent _ _) _ = _ |- _ =>
    pose proof (each_enumerate _ (parent_ok _) _ _ (λ i x u, checkParent_Ok _ i x u Hnd) H) as Hparents end.
  match goal with H : walk checkLabel _ _ _ = _ |- _ =>
    destruct (pair_walk _ lla_ID (λ l, ToLower (lla_Name l)) (λ _, True) _ _ _ checkLabel_True H) as (Hlabels & Hnames & _) end.
  match goal with H : walk (checkIssueLabel _ _) _ _ _ = _ |- _ =>
    destruct (keyed_walk _ linkKey (λ l, lil_IssueID l ∈ _ ∧ lil_LabelID l ∈ _) _ _ _ (checkIssueLabel_Ok _ _) H) as (Hlinked & Hlinks) end.
  match goal with H : walk (checkLogicalRelation _) _ _ _ = _ |- _ =>
    destruct (pair_walk _ lre_ID logicalRelationKey (relation_ok _) _ _ _ (checkRelation_Ok _) H) as (Hrelations & Hrelated & Hrels) end.
  match goal with H : walk (checkComment _) _ _ _ = _ |- _ =>
    destruct (seen_walk _ lco_ID (λ c, lco_IssueID c ∈ _) _ _ _ (checkComment_Ok _) H) as [Hcomments Hcommented] end.
  match goal with H : walk (checkLogicalDecision _ _) _ _ _ = _ |- _ =>
    destruct (seen_walk _ lde_ID (decision_ok _ _) _ _ _ (checkDecision_Ok _ _) H) as [Hdecisions Hdecided] end.
  match goal with H : walk (checkAttempt _ _) _ _ _ = _ |- _ =>
    destruct (seen_walk _ lat_ID (attempt_ok _) _ _ _ (λ i x s s', checkAttempt_Ok _ i x s s' Hnd) H) as [Hattempts Hattempted] end.
  match goal with H : walk (checkAttemptNote _) _ _ _ = _ |- _ =>
    destruct (seen_walk _ lno_ID (λ n, lno_AttemptID n ∈ _) _ _ _ (checkAttemptNote_Ok _) H) as [Hnotes Hnoted] end.
  match goal with H : walk (checkArtifact _ _) _ _ _ = _ |- _ =>
    destruct (seen_walk _ lar_ID (λ a, lar_IssueID a ∈ _ ∧ optional_in (lar_AttemptID a) _ ∧ metadata_ok a) _ _ _ (checkArtifact_Ok _ _) H) as [Hartifacts Hattached] end.
  match goal with H : each (checkEvent _ _ _) _ = _ |- _ =>
    pose proof (each_enumerate _ (event_ok _ _ _) _ _ (checkEvent_Ok _ _ _) H) as Hevents end.
  split_and!.
  - match goal with H : checkHeader _ = _ |- _ => unfold checkHeader in H end. inv_ok. by bool_simpl.
  - constructor; try done.
    + eapply NoDup_coarser, Hlinked. intros x y [= Hi Hl]. unfold linkKey. by rewrite Hi, Hl.
    + eapply NoDup_coarser, Hrelated. intros x y [= Ht Hs Hg]. unfold logicalRelationKey. by rewrite Ht, Hs, Hg.
    + by eapply validateBlocksAcyclicity_Ok.
  - eexists. split.
    + rewrite dom_empty_L in Hissues. unfold core_ids. by repeat (eapply extends_app; [eassumption|]).
    + intros Hversion. rewrite Hversion in Hv. change (negb (2 =? 2)%Z) with false in Hv.
      apply result_bind_Ok in Hv as (seen1 & Hs1 & (seen2 & Hs2 & Hs3)%result_bind_Ok). by exists seen1, seen2.
Qed.

(** Requests may supersede the requests before them. *)
Lemma requests_walk d l seen st' :
  NoDup (map lis_ID (ldo_Issues d)) → NoDup (map lar_ID (ldo_Artifacts d)) →
  walk (checkReviewRequest (ids lis_ID (ldo_Issues d)) (carriedVersions (ldo_Issues d)) (ids lar_ID (ldo_Artifacts d))
    (index_by lar_ID lar_IssueID (ldo_Artifacts d)) (ids lrt_ID (ldo_ReviewTargets d))) 0 l (seen, ∅) = Ok st' →
  extends (dom seen) (map lrr_ID l) (dom st'.1) ∧ st'.2 = ids lrr_ID l ∧ ∀ r, r ∈ l → request_ok d (ids lrr_ID l) r.
Proof.
  intros Hi Ha. set (f := checkReviewRequest _ _ _ _ _). intros Hw.
  assert (Hf : ∀ i r s s', f i r s = Ok s' →
    extends (dom s.1) [lrr_ID r] (dom s'.1) ∧ s'.2 = {[ lrr_ID r ]} ∪ s.2 ∧ request_ok d s'.2 r)
    by (intros i r s s'; by apply (checkReviewRequest_Ok d Hi Ha)).
  clearbody f. split_and!.
  - apply (walk_extends f lrr_ID (λ s, dom s.1) l 0 (seen, ∅) st'); [|done]. intros i r s s' Hs. by apply (Hf i).
  - unfold ids. rewrite <-(right_id_L ∅ (∪) (list_to_set _)). change ∅ with ((seen, ∅ : gset string).2) at 1. clear Hi Ha.
    revert Hw. generalize (seen, ∅ : gset string), 0%Z. induction l as [|r l IH]; intros s i; cbn [walk].
    { intros [= <-]. cbn. set_solver. }
    intros Hw. inv_ok. rewrite (IH _ _ Hw). match goal with Hx : f _ _ _ = _ |- _ => destruct (Hf _ _ _ _ Hx) as (_ & -> & _) end.
    cbn. set_solver.
  - intros r Hr. destruct (walk_inv f (λ s, s.2 ⊆ ids lrr_ID l) l 0 (seen, ∅) st') as [_ Hall]; [|set_solver|done|].
    + intros i x s s' Hx Hs Hc. destruct (Hf _ _ _ _ Hc) as (_ & -> & _).
      assert (lrr_ID x ∈ ids lrr_ID l) by (by apply elem_of_ids, list_elem_of_fmap_2). set_solver.
    + destruct (Hall r Hr) as (i & s & s' & Hs & Hc). destruct (Hf _ _ _ _ Hc) as (_ & Hk & Hok).
      assert (lrr_ID r ∈ ids lrr_ID l) by (by apply elem_of_ids, list_elem_of_fmap_2).
      unfold request_ok in *. split_and!; [apply Hok..|]. intros t Ht. destruct Hok as (_ & _ & _ & _ & _ & Hsup).
      specialize (Hsup t Ht). set_solver.
Qed.

Lemma checkReviews_Ok d seen seen' :
  NoDup (map lis_ID (ldo_Issues d)) → NoDup (map lar_ID (ldo_Artifacts d)) →
  checkReviews d seen (ids lis_ID (ldo_Issues d)) (carriedVersions (ldo_Issues d)) (ids lat_ID (ldo_Attempts d))
    (ids lar_ID (ldo_Artifacts d)) (index_by lar_ID lar_IssueID (ldo_Artifacts d)) = Ok seen' →
  extends (dom seen) (map lrt_ID (ldo_ReviewTargets d) ++ map lrr_ID (ldo_ReviewRequests d) ++ map lro_ID (ldo_ReviewOutcomes d)) (dom seen') ∧
  (∀ t, t ∈ ldo_ReviewTargets d → target_ok d t) ∧
  (∀ r, r ∈ ldo_ReviewRequests d → request_ok d (ids lrr_ID (ldo_ReviewRequests d)) r) ∧
  (∀ o, o ∈ ldo_ReviewOutcomes d → outcome_ok d o) ∧ (∀ e, e ∈ ldo_ReviewEvents d → review_event_ok d e).
Proof.
  intros Hi Ha. unfold checkReviews. cbv zeta. intros Hc. inv_ok.
  match goal with H : walk (checkReviewTarget _ _ _ _) _ _ _ = _ |- _ =>
    destruct (seen_walk _ lrt_ID (target_ok d) _ _ _ (checkReviewTarget_Ok d Hi Ha) H) as [Htargets Htok] end.
  match goal with H : walk (checkReviewRequest _ _ _ _ _) _ _ _ = _ |- _ =>
    destruct (requests_walk d _ _ _ Hi Ha H) as (Hrequests & Hrids & Hrok) end.
  rewrite Hrids in *.
  match goal with H : walk (checkReviewOutcome _ _) _ _ _ = _ |- _ =>
    destruct (seen_walk _ lro_ID (outcome_ok d) _ _ _ (checkReviewOutcome_Ok d) H) as [Houtcomes Hook] end.
  match goal with H : each (checkReviewEvent _ _ _) _ = _ |- _ =>
    pose proof (each_enumerate _ (review_event_ok d) _ _ (checkReviewEvent_Ok d) H) as Hevents end.
  split_and!; try done. by repeat (eapply extends_app; [eassumption|]).
Qed.

Lemma validateLogicalGates_Ok d g seen u :
  NoDup (map lis_ID (ldo_Issues d)) → NoDup (map lat_ID (ldo_Attempts d)) → NoDup (map lar_ID (ldo_Artifacts d)) →
  NoDup (map lrt_ID (ldo_ReviewTargets d)) → NoDup (map lrr_ID (ldo_ReviewRequests d)) →
  DecodeGatesExtension d = Ok g →
  validateLogicalGates d seen (ids lis_ID (ldo_Issues d)) (carriedVersions (ldo_Issues d)) (ids lat_ID (ldo_Attempts d))
    (index_by lat_ID lat_IssueID (ldo_Attempts d)) (ids lar_ID (ldo_Artifacts d))
    (index_by lar_ID lar_IssueID (ldo_Artifacts d)) = Ok u →
  (∃ seen', extends (dom seen) (map lwp_ID (lgx_Policies g) ++ map lge_ID (lgx_Evidence g) ++ map lra_ID (lgx_ReviewApprovals g)) seen') ∧
  ∀ reservations,
    (∀ t, t ∈ ldo_ReviewTargets d → target_ok d t) →
    (∀ r, r ∈ ldo_ReviewRequests d → request_ok d (ids lrr_ID (ldo_ReviewRequests d)) r) →
    (∀ o, o ∈ ldo_ReviewOutcomes d → outcome_ok d o) → (∀ e, e ∈ ldo_ReviewEvents d → review_event_ok d e) →
    (∀ r, r ∈ reservations → reservation_ok d r) → review_closed d reservations g.
Proof.
  intros Hi Hat Har Ht Hr Hg. unfold validateLogicalGates. rewrite Hg. cbn [mbind result_bind]. cbv zeta. intros Hc. inv_ok.
  match goal with H : walk checkPolicy _ _ _ = _ |- _ =>
    destruct (seen_walk _ lwp_ID (λ _, True) _ _ _ (λ i x s s' Hx, conj (checkPolicy_Ok i x s s' Hx) I) H) as [Hpolicies _] end.
  match goal with H : each (checkPolicyEvent _) _ = _ |- _ =>
    pose proof (each_enumerate _ (λ e, lpe_PolicyID e ∈ _) _ _ (checkPolicyEvent_Ok _) H) as Hpevents end.
  match goal with H : walk (checkAttemptSnapshot _ _ _) _ _ _ = _ |- _ =>
    destruct (keyed_walk _ las_AttemptID (λ s, snapshot_ok d _ (las_AttemptID s) (las_IssueVersion s)) _ _ _ (checkAttemptSnapshot_Ok d Hi Hat) H) as [Hasnap Hasok] end.
  match goal with H : walk (checkTargetSnapshot _ _ _) _ _ _ = _ |- _ =>
    destruct (keyed_walk _ lts_TargetID (λ s, snapshot_ok d _ (lts_TargetID s) (lts_IssueVersion s)) _ _ _ (checkTargetSnapshot_Ok d Hi Ht) H) as [Htsnap Htsok] end.
  match goal with H : walk (checkEvidence _ _ _ _ _) _ _ _ = _ |- _ =>
    destruct (pair_walk _ lge_ID evidenceKey (logical_evidence_ok d) _ _ _ (checkEvidence_Ok d Hat Har) H) as (Hevidence & Hekeys & Heok) end.
  pose proof (extends_NoDup _ _ _ Hevidence) as Hend.
  match goal with H : each (checkEvidenceEvent _ _ _ _) _ = _ |- _ =>
    pose proof (each_enumerate _ (evidence_event_ok d _) _ _ (λ i x u, checkEvidenceEvent_Ok d _ i x u Hend) H) as Heevents end.
  match goal with H : walk (checkApproval _ _ _ _ _ _ _) _ _ _ = _ |- _ =>
    destruct (pair_walk _ lra_ID approvalKey (approval_ok d) _ _ _ (checkApproval_Ok d Hi Ht Hr) H) as (Happrovals & Hakeys & Haok) end.
  split.
  - eexists. by repeat (eapply extends_app; [eassumption|]).
  - intros reservations ? ? ? ? ?. constructor; try done.
    + eapply NoDup_coarser, Hekeys. intros x y [= Hx Hk]. unfold evidenceKey. by rewrite Hx, Hk.
    + eapply NoDup_coarser, Hakeys. intros x y [= Hx Hk]. unfold approvalKey. by rewrite Hx, Hk.
Qed.

(** Issue versions are of the second version. *)
Lemma semantics_versions d u : validateLogicalProjectDocumentSemantics d = Ok u →
  ∀ issue, issue ∈ ldo_Issues d → isSet (lis_Version issue) = true → (2 <= ldo_Version d)%Z.
Proof.
  unfold validateLogicalProjectDocumentSemantics. cbv zeta. intros Hv. inv_ok.
  match goal with Hw : walk (checkIssue _) _ _ _ = _ |- _ =>
    apply (walk_each _ (λ issue, isSet (lis_Version issue) = true → (2 <= ldo_Version d)%Z) _ _ _ _ (checkIssue_version _) Hw) end.
Qed.
End closed.
