(* ===== verification/ImportPlan.v ===== *)
(** * Parsing an import

    [internal/domain/logical_project_import.go]: the structural pass over a
    document's JSON (its key tables per version), the plan with its counts, the
    destination identifiers, the conflicts; and the plan's way through
    [internal/application/project_service.go].

    The structural pass reads the token stream of a value the version peek has
    already scanned to its end, so the tokens it meets are those of the value's
    text ([Interchange]); what is left to fail in a token is a number that no
    float64 holds. *)

From S2P Require Import Prelude GoStrings Errors Validation Samples Issue Relation Discussion.
From S2P Require Import Resource Attempt AttemptPolicy Gates Store ReviewStore Encoding Interchange ImportCheck ImportClosed.

Definition MaxLogicalProjectImportBytes : Z := 2 ^ 20.

Definition joinPath (base field : string) : string := base +:+ "." +:+ field.

Section structure.
Context `{JSONErrors}.

(** ** Arbitrary values *)

Fixpoint any_value (v : json) (path : string) : result unit :=
  match v with
  | JNumber literal => fail_if negb (float_finite literal) with decodeError literal path ;; Ok tt
  | JArray elements =>
      (fix go (index : Z) (elements : list json) : result unit :=
         match elements with
         | [] => Ok tt
         | v :: elements => try any_value v (item path index) ;; go (index + 1)%Z elements
         end) 0%Z elements
  | JObject members =>
      (fix go (seen : gset string) (members : list (string * json)) : result unit :=
         match members with
         | [] => Ok tt
         | (key, v) :: members =>
             fail_if bool_decide (key ∈ seen)
               with invalidArgumentPath (joinPath path key) "DUPLICATE_KEY" "duplicate JSON object key" ;;
             try any_value v (joinPath path key) ;;
             go ({[ key ]} ∪ seen) members
         end) ∅ members
  | _ => Ok tt
  end.

Definition Validator : Type := string → string → result unit.

Definition validateAnyJSONValue : Validator := λ text path,
  match json_parse text with Some v => any_value v path | None => Err (decodeError text path) end.

(** The first token of a value. *)
Definition token (text path : string) : result unit :=
  match json_parse text with
  | Some (JNumber literal) => fail_if negb (float_finite literal) with decodeError literal path ;; Ok tt
  | Some _ => Ok tt
  | None => Err (decodeError text path)
  end.

(** ** Objects with a key table, arrays *)

Definition find_validator (validators : list (string * Validator)) (key : string) : option Validator :=
  snd <$> List.find (λ v, v.1 =s key) validators.

Fixpoint validateMembers (path : string) (validators : list (string * Validator)) (seen : gset string)
    (members : list (string * string)) : result (gset string) :=
  match members with
  | [] => Ok seen
  | (key, text) :: members =>
      fail_if bool_decide (key ∈ seen)
        with invalidArgumentPath (joinPath path key) "DUPLICATE_KEY" "duplicate JSON object key" ;;
      match find_validator validators key with
      | None => Err (unsupportedFieldError (joinPath path key))
      | Some validator =>
          try validator text (joinPath path key) ;;
          validateMembers path validators ({[ key ]} ∪ seen) members
      end
  end.
Definition validateObject (validators : list (string * Validator)) (required : list string) : Validator := λ text path,
  try token text path ;;
  match object_members text with
  | None => Err (invalidArgumentPath path "INVALID_JSON_TYPE" "expected an object")
  | Some members =>
      seen ← validateMembers path validators ∅ members;
      each (λ key, fail_if negb (bool_decide (key ∈ seen))
                     with invalidArgumentPath (joinPath path key) "REQUIRED" "is required" ;; Ok tt) required
  end.

Definition validateArray (itemValidator : Validator) : Validator := λ text path,
  try token text path ;;
  match array_elements text with
  | None => Err (invalidArgumentPath path "INVALID_JSON_TYPE" "expected an array")
  | Some elements => each (λ '(index, text), itemValidator text (item path index)) (enumerate elements)
  end.

(** A record whose values have any shape. *)
Definition recordOf (required optional : list string) : Validator :=
  validateObject (map (λ key, (key, validateAnyJSONValue)) (required ++ optional)) required.

(** The reserved extensions object: its namespaces are checked by their
    owners. *)
Definition validateLogicalExtensionsObject : Validator := λ text path,
  try token text path ;;
  match object_members text with
  | None => Err (invalidArgumentPath path "INVALID_JSON_TYPE" "expected an object")
  | Some members => each (λ '(key, text), validateAnyJSONValue text (joinPath path key)) members
  end.

(** ** Key tables *)

Definition validateLogicalProjectProjectObject : Validator :=
  recordOf ["id"; "name"; "instructions"; "created_at"; "updated_at"] [].
Definition issueKeys : list string :=
  ["id"; "type"; "title"; "description"; "acceptance_criteria"; "status"; "priority"; "parent_id"; "blocked_reason";
   "created_by_session_id"; "created_at"; "updated_at"; "closed_at"].
Definition validateLogicalIssueArray : Validator := validateArray (recordOf issueKeys []).
Definition validateLogicalIssueArrayV2 : Validator := validateArray (recordOf issueKeys ["version"]).
Definition validateLogicalLabelArray : Validator := validateArray (recordOf ["id"; "name"; "description"; "created_at"] []).
Definition validateLogicalIssueLabelArray : Validator := validateArray (recordOf ["issue_id"; "label_id"] []).
Definition validateLogicalRelationArray : Validator :=
  validateArray (recordOf ["id"; "source_issue_id"; "target_issue_id"; "type"; "created_by_session_id"; "created_at"] []).
Definition validateLogicalCommentArray : Validator :=
  validateArray (recordOf
    ["id"; "issue_id"; "content"; "created_by_session_id"; "author_label"; "created_at"; "edited_at"] []).
Definition validateLogicalDecisionArray : Validator :=
  validateArray (recordOf ["id"; "issue_id"; "title"; "summary"; "content"; "status"; "supersedes_id";
    "created_by_session_id"; "created_at"] []).
Definition validateLogicalAttemptArray : Validator :=
  validateArray (recordOf ["id"; "issue_id"; "session_id"; "agent_label"; "kind"; "status"; "issue_version_at_start";
    "context_event_id_at_start"; "lease_expires_at"; "started_at"; "last_heartbeat_at"; "finished_at"; "result_summary";
    "next_steps"; "verification"; "failure_reason_code"; "interruption_reason_code"; "reason_details"] []).
Definition validateLogicalAttemptNoteArray : Validator :=
  validateArray (recordOf ["id"; "attempt_id"; "kind"; "content"; "next_steps"; "important"; "created_at"] []).
Definition validateLogicalArtifactArray : Validator :=
  validateArray (recordOf ["id"; "issue_id"; "attempt_id"; "type"; "uri"; "title"; "metadata"; "created_at"] []).
Definition eventKeys : list string :=
  ["source_id"; "issue_id"; "event_type"; "session_id"; "attempt_id"; "payload"; "created_at"].
Definition validateLogicalEventArray : Validator := validateArray (recordOf eventKeys []).
Definition validateLogicalEventArrayV2 : Validator := validateArray (recordOf eventKeys ["source"]).
Definition validateLogicalReviewTargetArray : Validator :=
  validateArray (recordOf ["id"; "issue_id"; "issue_version"; "latest_event_id"; "artifact_ids"; "created_at"] ["purposes"]).
Definition validateLogicalReviewRequestArray : Validator :=
  validateArray (recordOf ["id"; "target_id"; "issue_id"; "target_issue_version"; "target_event_id"; "artifact_ids";
    "status"; "supersedes_id"; "created_at"; "resolved_at"] ["purposes"]).
Definition validateLogicalReviewOutcomeArray : Validator :=
  validateArray (recordOf ["id"; "request_id"; "attempt_id"; "outcome"; "reason"; "created_at"] []).
Definition validateLogicalReviewEventArray : Validator :=
  validateArray (recordOf ["source_id"; "request_id"; "target_id"; "attempt_id"; "event_type"; "payload"; "created_at"] []).

Definition documentRequired : list string :=
  ["format"; "version"; "exported_at"; "project"; "issues"; "labels"; "issue_labels"; "relations"; "comments";
   "decisions"; "attempts"; "attempt_notes"; "artifacts"; "events"].
(** The tables of both versions but for their issues and events. *)
Definition documentKeys (issues events : Validator) : list (string * Validator) :=
  [("format", validateAnyJSONValue); ("version", validateAnyJSONValue); ("exported_at", validateAnyJSONValue);
   ("project", validateLogicalProjectProjectObject); ("issues", issues); ("labels", validateLogicalLabelArray);
   ("issue_labels", validateLogicalIssueLabelArray); ("relations", validateLogicalRelationArray);
   ("comments", validateLogicalCommentArray); ("decisions", validateLogicalDecisionArray);
   ("attempts", validateLogicalAttemptArray); ("attempt_notes", validateLogicalAttemptNoteArray);
   ("artifacts", validateLogicalArtifactArray); ("events", events)].
Definition logicalProjectDocumentKeysV1 : list (string * Validator) :=
  documentKeys validateLogicalIssueArray validateLogicalEventArray.
Definition logicalProjectDocumentKeysV2 : list (string * Validator) :=
  documentKeys validateLogicalIssueArrayV2 validateLogicalEventArrayV2 ++
  [("review_targets", validateLogicalReviewTargetArray); ("review_requests", validateLogicalReviewRequestArray);
   ("review_outcomes", validateLogicalReviewOutcomeArray); ("review_events", validateLogicalReviewEventArray);
   ("extensions", validateLogicalExtensionsObject)].
Definition validateTopLevelLogicalProjectDocument (version : Z) : Validator :=
  if (version =? 1)%Z then validateObject logicalProjectDocumentKeysV1 documentRequired
  else validateObject logicalProjectDocumentKeysV2 documentRequired.

(** ** The version *)

(** [*json.Number]: numbers, and strings that are numbers. *)
Definition json_Number (v : json) : option (option string) :=
  match v with
  | JNull => Some None
  | JNumber literal => Some (Some literal)
  | JString s => match number (bytes s) with Some (_, []) => Some (Some s) | _ => None end
  | _ => None
  end.
(** The header has one field; other members are skipped. *)
Definition header_version (text : string) : option (option string) :=
  if is_null text then Some None
  else
    ms ← object_members text;
    foldl (λ acc member,
      version ← acc;
      if isSet (field_named ["version"] member.1) then v ← json_parse member.2; json_Number v else Some version)
      (Some None) ms.
Definition peekLogicalProjectVersion (document : string) : result Z :=
  match ('(_, text, _) ← first_value document; header_version text) with
  | None => Err (decodeError document "$")
  | Some None => Err (invalidArgumentPath "$.version" "REQUIRED" "is required")
  | Some (Some literal) =>
      match ParseInt64 literal with
      | None => Err (unsupportedFormatVersionError "$.version")
      | Some version =>
          fail_if negb (supportedVersion version) with unsupportedFormatVersionError "$.version" ;; Ok version
      end
  end.

(** What follows the document: nothing, a token, or no JSON. *)
Definition trailing (rest : list ascii) : result unit :=
  let text := of_bytes rest in
  match skip_space rest with
  | [] => Ok tt
  | c :: _ =>
      let data := Err (invalidArgumentPath "$.document" "TRAILING_DATA" "contains trailing JSON data") in
      if is_byte 91 c || is_byte 123 c then data
      else match json_value (2 * length rest + 2) rest with
           | Some (JNumber literal, _) => if float_finite literal then data else Err (decodeError text "$.document")
           | Some _ => data
           | None => Err (decodeError text "$.document")
           end
  end.
Definition validateLogicalProjectDocumentStructure (document : string) : result unit :=
  version ← peekLogicalProjectVersion document;
  match first_value document with
  | None => Err (decodeError document "$")
  | Some (_, text, rest) =>
      try validateTopLevelLogicalProjectDocument version text "$" ;;
      trailing rest
  end.
End structure.

(** ** The plan *)

Record LogicalProjectImportCounts := mkImportCounts {
  ic_Project : Z; ic_Issues : Z; ic_Labels : Z; ic_IssueLabels : Z; ic_Relations : Z; ic_Comments : Z; ic_Decisions : Z;
  ic_Attempts : Z; ic_AttemptNotes : Z; ic_Artifacts : Z; ic_Events : Z; ic_ReviewTargets : Z; ic_ReviewRequests : Z;
  ic_ReviewOutcomes : Z; ic_ReviewEvents : Z; ic_Reservations : Z; ic_WorkflowPolicies : Z; ic_WorkflowPolicyEvents : Z;
  ic_AttemptGateSnapshots : Z; ic_ReviewTargetGateSnapshots : Z; ic_GateEvidence : Z; ic_GateEvidenceEvents : Z;
  ic_ReviewApprovals : Z;
}.
Record LogicalProjectImportConflict := mkImportConflict { icf_Code : string; icf_Message : string; icf_Field : string }.
Record LogicalProjectImportDryRun := mkDryRun {
  dr_Counts : LogicalProjectImportCounts;
  dr_Conflicts : list LogicalProjectImportConflict;
  dr_Writes : Z;
}.

Record LogicalProjectImportDestinationIDs := mkDestinationIDs {
  di_IssueIDs : gmap string string; di_LabelIDs : gmap string string; di_RelationIDs : gmap string string;
  di_CommentIDs : gmap string string; di_DecisionIDs : gmap string string; di_AttemptIDs : gmap string string;
  di_AttemptNoteIDs : gmap string string; di_ArtifactIDs : gmap string string; di_ReviewTargetIDs : gmap string string;
  di_ReviewRequestIDs : gmap string string; di_ReviewOutcomeIDs : gmap string string; di_ReservationIDs : gmap string string;
  di_WorkflowPolicyIDs : gmap string string; di_GateEvidenceIDs : gmap string string; di_ReviewApprovalIDs : gmap string string;
}.
Definition noDestinationIDs : LogicalProjectImportDestinationIDs := mkDestinationIDs ∅ ∅ ∅ ∅ ∅ ∅ ∅ ∅ ∅ ∅ ∅ ∅ ∅ ∅ ∅.

Record LogicalProjectImportPlan := mkImportPlan {
  ip_Document : LogicalProjectDocument;
  ip_DryRun : LogicalProjectImportDryRun;
  ip_DestinationIDs : LogicalProjectImportDestinationIDs;
}.

Definition count {A} (l : list A) : Z := Z.of_nat (length l).
Definition importCounts (d : LogicalProjectDocument) (reservations : list LogicalReservation) (gates : LogicalGatesExtension) :
    LogicalProjectImportCounts :=
  mkImportCounts 1 (count (ldo_Issues d)) (count (ldo_Labels d)) (count (ldo_IssueLabels d)) (count (ldo_Relations d))
    (count (ldo_Comments d)) (count (ldo_Decisions d)) (count (ldo_Attempts d)) (count (ldo_AttemptNotes d))
    (count (ldo_Artifacts d)) (count (ldo_Events d)) (count (ldo_ReviewTargets d)) (count (ldo_ReviewRequests d))
    (count (ldo_ReviewOutcomes d)) (count (ldo_ReviewEvents d)) (count reservations) (count (lgx_Policies gates))
    (count (lgx_PolicyEvents gates)) (count (lgx_AttemptSnapshots gates)) (count (lgx_ReviewTargetSnapshots gates))
    (count (lgx_Evidence gates)) (count (lgx_EvidenceEvents gates)) (count (lgx_ReviewApprovals gates)).

Section plan.
Context `{UnicodeTables, ULID, URLParser, UnicodeCase, JSONErrors}.

Definition ParseLogicalProjectImportPlan (document : string) : result LogicalProjectImportPlan :=
  fail_if blank document with invalidArgumentPath "$.document" "EMPTY_DOCUMENT" "document is required" ;;
  fail_if (MaxLogicalProjectImportBytes <? len document)%Z
    with NewError CodeLimitExceeded "document exceeds the maximum size of 1048576 bytes" false
           [mkDetail None "$.document" "MAX_BYTES" "maximum 1048576"] ;;
  try validateLogicalProjectDocumentStructure document ;;
  match decode_first LogicalProjectDocument_of LogicalProjectDocument_zero document with
  | None => Err (decodeError document "$.document")
  | Some parsed =>
      try validateLogicalProjectDocumentSemantics parsed ;;
      reservations ← DecodeReservationsExtension parsed;
      gates ← DecodeGatesExtension parsed;
      Ok (mkImportPlan parsed (mkDryRun (importCounts parsed reservations gates) [] 0) noDestinationIDs)
  end.

(** ** Destination identifiers

    [generate] draws from the state of an identifier generator. *)
Context {G : Type} (generate : G → result (string * G)).

Fixpoint logicalDestinationIDs {A} (id : A → string) (items : list A) (destIDs : gmap string string) (g : G) :
    result (gmap string string * G) :=
  match items with
  | [] => Ok (destIDs, g)
  | x :: items =>
      match generate g with
      | Ok (destID, g) => logicalDestinationIDs id items (<[ id x := destID ]> destIDs) g
      | Err e => Err e
      end
  end.

(** One map per kind of record, in the order the identifiers are drawn. *)
Definition destinationIDs {A} (id : A → string) (items : list A) (g : G) : result (gmap string string * G) :=
  logicalDestinationIDs id items ∅ g.
Definition NewLogicalProjectImportDestinationIDs (d : LogicalProjectDocument) (g : G) :
    result (LogicalProjectImportDestinationIDs * G) :=
  issues ← destinationIDs lis_ID (ldo_Issues d) g;
  labels ← destinationIDs lla_ID (ldo_Labels d) issues.2;
  relations ← destinationIDs lre_ID (ldo_Relations d) labels.2;
  comments ← destinationIDs lco_ID (ldo_Comments d) relations.2;
  decisions ← destinationIDs lde_ID (ldo_Decisions d) comments.2;
  attempts ← destinationIDs lat_ID (ldo_Attempts d) decisions.2;
  notes ← destinationIDs lno_ID (ldo_AttemptNotes d) attempts.2;
  artifacts ← destinationIDs lar_ID (ldo_Artifacts d) notes.2;
  targets ← destinationIDs lrt_ID (ldo_ReviewTargets d) artifacts.2;
  requests ← destinationIDs lrr_ID (ldo_ReviewRequests d) targets.2;
  outcomes ← destinationIDs lro_ID (ldo_ReviewOutcomes d) requests.2;
  reserved ← DecodeReservationsExtension d;
  reservations ← destinationIDs lrs_ID reserved outcomes.2;
  gates ← DecodeGatesExtension d;
  policies ← destinationIDs lwp_ID (lgx_Policies gates) reservations.2;
  evidence ← destinationIDs lge_ID (lgx_Evidence gates) policies.2;
  approvals ← destinationIDs lra_ID (lgx_ReviewApprovals gates) evidence.2;
  Ok (mkDestinationIDs issues.1 labels.1 relations.1 comments.1 decisions.1 attempts.1 notes.1 artifacts.1 targets.1
        requests.1 outcomes.1 reservations.1 policies.1 evidence.1 approvals.1, approvals.2).

(** ** Conflicts and the service *)

Definition conflictLess (a b : LogicalProjectImportConflict) : bool :=
  if negb (icf_Code a =s icf_Code b) then str_less (icf_Code a) (icf_Code b)
  else if negb (icf_Field a =s icf_Field b) then str_less (icf_Field a) (icf_Field b)
  else str_less (icf_Message a) (icf_Message b).
Definition AddDestinationConflicts (plan : LogicalProjectImportPlan) (conflictCode message field : string) :
    LogicalProjectImportPlan :=
  let dry := ip_DryRun plan in
  mkImportPlan (ip_Document plan)
    (mkDryRun (dr_Counts dry)
       (stable_sort conflictLess (dr_Conflicts dry ++ [mkImportConflict conflictCode message field])) (dr_Writes dry))
    (ip_DestinationIDs plan).

(** [hasContent] is the repository's answer. *)
Definition ValidateLogicalProjectImport (document : string) (hasContent : result bool) : result LogicalProjectImportDryRun :=
  plan ← ParseLogicalProjectImportPlan document;
  content ← hasContent;
  Ok (ip_DryRun (if content : bool
    then AddDestinationConflicts plan "empty_destination_required" "destination project must be empty for this import" "$.destination"
    else plan)).

(** The plan handed to the repository. *)
Definition prepareImport (document : string) (g : G) : result (LogicalProjectImportPlan * G) :=
  plan ← ParseLogicalProjectImportPlan document;
  match NewLogicalProjectImportDestinationIDs (ip_Document plan) g with
  | Ok (dest, g) => Ok (mkImportPlan (ip_Document plan) (ip_DryRun plan) dest, g)
  | Err e => Err (WrapError (e_Message e) CodeIDGeneration "cannot generate import identifiers" false [])
  end.
End plan.

(** ** Members *)

Lemma resolve_exact fields ms :
  (∀ m, m ∈ ms → m.1 ∈ fields) → mapM (resolve_member fields) ms = Some ms.
Proof.
  intros Hall. apply mapM_Some. induction ms as [|m ms IH]; constructor.
  - assert (Hm : m.1 ∈ fields) by (apply Hall; by left). unfold resolve_member, field_named. destruct m as [name text]. cbn [fst snd] in *.
    destruct (List.find (λ f, f =s name) fields) as [f|] eqn:Hf.
    + apply List.find_some in Hf as [_ Hf]. apply eqb_string_true in Hf as ->. done.
    + eapply List.find_none in Hf; [|by apply list_elem_of_In]. cbn in Hf. by rewrite eqb_string_refl in Hf.
  - apply IH. intros x Hx. apply Hall. by right.
Qed.

Lemma load_absent {A} (decode : Decoder A) name ms : name ∉ map fst ms → ∀ old, load decode name old ms = Some old.
Proof.
  unfold load. induction ms as [|m ms IH]; intros Hm old; [done|]. cbn in *. rewrite (proj2 (eqb_string_false _ _)) by set_solver.
  apply IH. set_solver.
Qed.
Lemma load_present {A} (decode : Decoder A) name text ms :
  NoDup (map fst ms) → (name, text) ∈ ms → ∀ old, load decode name old ms = decode text old.
Proof.
  unfold load. induction ms as [|m ms IH]; intros Hnd Hm old; [by apply not_elem_of_nil in Hm|].
  apply NoDup_cons in Hnd as [Hnew Hnd]. apply elem_of_cons in Hm as [<-|Hm].
  - cbn [foldl fst snd mbind option_bind]. rewrite eqb_string_refl. destruct (decode text old) as [v|].
    + by apply (load_absent decode).
    + clear. induction ms as [|m ms IH]; done.
  - cbn [foldl fst snd mbind option_bind]. rewrite (proj2 (eqb_string_false _ _)); [by apply IH|].
    intros He. apply Hnew. rewrite He. change name with ((name, text).1). by apply list_elem_of_fmap_2.
Qed.

Lemma json_value_brace fuel s c r v rest :
  skip_space s = c :: r → is_byte 123 c = true → json_value fuel s = Some (v, rest) → ∃ ms, v = JObject ms.
Proof.
  destruct fuel as [|fuel]; [done|]. intros Hs Hc. cbn [json_value]. rewrite Hs. unfold is_byte in *. apply Z.eqb_eq in Hc. rewrite Hc.
  cbn [Z.eqb Pos.eqb]. destruct (skip_space r) as [|d r']; [done|]. destruct (byte_val d =? 125)%Z; [intros [= <- _]; by eexists|].
  intros ([ms r''] & _ & [= <- _])%bind_Some. by eexists.
Qed.
Lemma object_members_not_null text ms : object_members text = Some ms → is_null text = false.
Proof.
  unfold object_members, is_null, json_parse. destruct (skip_space (bytes text)) as [|c r] eqn:Hs; [done|].
  destruct (is_byte 123 c) eqn:Hc; [|done]. intros _. destruct (json_value _ (bytes text)) as [[v rest]|] eqn:Hv; [|done].
  apply (json_value_brace _ _ c r) in Hv as [ms' ->]; [|done..]. cbn. by destruct (null _).
Qed.

Section members.
Context `{JSONErrors}.

Lemma find_validator_key validators key validator : find_validator validators key = Some validator → (key, validator) ∈ validators.
Proof.
  unfold find_validator. destruct (List.find _ _) as [[k v]|] eqn:Hf; [|done]. cbn. intros [= <-].
  apply List.find_some in Hf as [Hin Hk]. apply eqb_string_true in Hk. cbn in Hk. subst. by apply list_elem_of_In.
Qed.

Lemma validateMembers_Ok path validators ms : ∀ seen seen',
  validateMembers path validators seen ms = Ok seen' →
  NoDup (map fst ms) ∧ (∀ m, m ∈ ms → m.1 ∉ seen ∧ m.1 ∈ map fst validators) ∧ seen' = list_to_set (map fst ms) ∪ seen.
Proof.
  induction ms as [|[key text] ms IH]; intros seen seen'; cbn [validateMembers].
  { intros [= <-]. split_and!; [constructor|by intros m Hm%not_elem_of_nil|cbn; set_solver]. }
  intros Hv. inv_ok. bool_simpl. destruct (find_validator validators key) as [validator|] eqn:Hf; [|done]. inv_ok.
  destruct (IH _ _ Hv) as (Hnd & Hall & ->). split_and!.
  - cbn. apply NoDup_cons. split; [|done]. intros (m & Hk & Hm)%list_elem_of_fmap. destruct (Hall m Hm) as [Hnew _]. set_solver.
  - intros m [->|Hm]%elem_of_cons.
    + split; [done|]. apply find_validator_key in Hf. change (key, text).1 with ((key, validator).1). by apply list_elem_of_fmap_2.
    + destruct (Hall m Hm). set_solver.
  - cbn. set_solver.
Qed.

Lemma validateObject_Ok validators required text path u :
  validateObject validators required text path = Ok u →
  ∃ ms, object_members text = Some ms ∧ NoDup (map fst ms) ∧ (∀ m, m ∈ ms → m.1 ∈ map fst validators) ∧
        (∀ key, key ∈ required → key ∈ map fst ms).
Proof.
  unfold validateObject. intros Hv. inv_ok. destruct (object_members text) as [ms|]; [|done]. inv_ok. exists ms.
  match goal with Hm : validateMembers _ _ _ _ = _ |- _ => destruct (validateMembers_Ok _ _ _ _ _ Hm) as (Hnd & Hall & ->) end.
  split_and!; [done|done|by intros m Hm; apply Hall|]. intros key Hkey. destruct u. rewrite each_Ok, Forall_forall in Hv.
  specialize (Hv key Hkey). cbn beta in Hv. destruct (bool_decide _) eqn:Hb; [|done]. apply bool_decide_eq_true in Hb. set_solver.
Qed.
End members.

(** ** Versions

    The table of version 1 has no key of a version 2 record, and the version
    the tables were chosen by is the decoded one. *)

Section versions.
Context `{JSONErrors}.

Definition keysOf (version : Z) : list string :=
  map fst (if (version =? 1)%Z then logicalProjectDocumentKeysV1 else logicalProjectDocumentKeysV2).

Lemma top_level_Ok version text path u : validateTopLevelLogicalProjectDocument version text path = Ok u →
  ∃ ms, object_members text = Some ms ∧ NoDup (map fst ms) ∧ (∀ m, m ∈ ms → m.1 ∈ keysOf version) ∧ "version" ∈ map fst ms.
Proof.
  unfold validateTopLevelLogicalProjectDocument, keysOf. intros Hv.
  destruct (version =? 1)%Z; apply validateObject_Ok in Hv as (ms & Hms & Hnd & Hall & Hreq); exists ms;
    (split_and!; [done|done|exact Hall|apply Hreq; unfold documentRequired; set_solver]).
Qed.

Lemma keysOf_fields version key : key ∈ keysOf version → key ∈ LogicalProjectDocument_fields.
Proof. unfold keysOf. intros Hk. destruct (version =? 1)%Z; cbn in Hk; unfold LogicalProjectDocument_fields; set_solver. Qed.

(** Among the keys only one is read as the version. *)
Lemma version_key version key : key ∈ keysOf version → isSet (field_named ["version"] key) = (key =s "version").
Proof.
  intros Hk%keysOf_fields. assert (Hall : Forall (λ key, isSet (field_named ["version"] key) = (key =s "version")) LogicalProjectDocument_fields)
    by (repeat (constructor; [by vm_compute|]); constructor).
  rewrite Forall_forall in Hall. by apply Hall.
Qed.

Definition header_step (acc : option (option string)) (member : string * string) : option (option string) :=
  version ← acc;
  if isSet (field_named ["version"] member.1) then v ← json_parse member.2; json_Number v else Some version.
Lemma header_absent (ms : list (string * string)) acc :
  (∀ m, m ∈ ms → isSet (field_named ["version"] m.1) = false) → foldl header_step acc ms = acc.
Proof.
  revert acc. induction ms as [|m ms IH]; intros acc Hm; [done|]. cbn [foldl]. rewrite IH by (intros x Hx; apply Hm; by right).
  unfold header_step. rewrite Hm by (by left). by destruct acc.
Qed.
Lemma header_None ms : foldl header_step None ms = None.
Proof. by induction ms. Qed.
Lemma header_present version (ms : list (string * string)) acc result :
  NoDup (map fst ms) → (∀ m, m ∈ ms → m.1 ∈ keysOf version) → "version" ∈ map fst ms → foldl header_step acc ms = Some result →
  ∃ text v, ("version", text) ∈ ms ∧ json_parse text = Some v ∧ json_Number v = Some result.
Proof.
  revert acc. induction ms as [|[name text] ms IH]; intros acc Hnd Hall Hin; [by apply not_elem_of_nil in Hin|].
  cbn [map fst] in Hnd. apply NoDup_cons in Hnd as [Hnew Hnd]. cbn [foldl]. intros Hf. destruct (decide (name = "version")) as [->|Hne].
  - rewrite header_absent in Hf.
    + unfold header_step in Hf. apply bind_Some in Hf as (old & _ & Hf). cbn [fst snd] in Hf.
      rewrite (version_key version), eqb_string_refl in Hf by (apply (Hall ("version", text)); by left).
      apply bind_Some in Hf as (v & Hp & Hn). exists text, v. split_and!; [by left|done..].
    + intros m Hm. rewrite (version_key version) by (apply Hall; by right). apply eqb_string_false. intros He. apply Hnew.
      rewrite <-He. by apply list_elem_of_fmap_2.
  - assert ("version" ∈ map fst ms) as Hin' by (apply elem_of_cons in Hin as [He|Hin]; [by subst|done]).
    destruct (IH _ Hnd (λ m Hm, Hall m (list_elem_of_further _ _ _ Hm)) Hin' Hf) as (t & v & Ht & Hp).
    exists t, v. split; [by right|done].
Qed.

Lemma int_of_Number text v literal n :
  json_parse text = Some v → json_Number v = Some (Some literal) → int_of text 0%Z = Some n → ParseInt64 literal = Some n.
Proof.
  unfold int_of, scalar. intros -> Hn. cbn [mbind option_bind]. destruct v; cbn in Hn |- *; try discriminate.
  by injection Hn as ->.
Qed.

(** A document of the tables of [version]: what decoding makes of it. *)
Lemma document_decoded document d u :
  validateLogicalProjectDocumentStructure document = Ok u →
  decode_first LogicalProjectDocument_of LogicalProjectDocument_zero document = Some d →
  ∃ ms, (∀ m, m ∈ ms → m.1 ∈ keysOf (ldo_Version d)) ∧
    load (list_of LogicalReviewTarget_of LogicalReviewTarget_zero) "review_targets" [] ms = Some (ldo_ReviewTargets d) ∧
    load (list_of LogicalReviewRequest_of LogicalReviewRequest_zero) "review_requests" [] ms = Some (ldo_ReviewRequests d) ∧
    load (list_of LogicalReviewOutcome_of LogicalReviewOutcome_zero) "review_outcomes" [] ms = Some (ldo_ReviewOutcomes d) ∧
    load (list_of LogicalReviewEvent_of LogicalReviewEvent_zero) "review_events" [] ms = Some (ldo_ReviewEvents d) ∧
    load raw_map_of "extensions" ∅ ms = Some (ldo_Extensions d).
Proof.
  unfold validateLogicalProjectDocumentStructure, peekLogicalProjectVersion, decode_first, header_version.
  intros Hv Hd. inv_ok. destruct (first_value document) as [[[v text] rest]|]; [|done]. cbn [mbind option_bind] in *. inv_ok.
  match goal with Ht : validateTopLevelLogicalProjectDocument _ _ _ = _ |- _ =>
    apply top_level_Ok in Ht as (ms & Hms & Hnd & Hkeys & Hin) end.
  unfold LogicalProjectDocument_of, struct_of in Hd. rewrite (object_members_not_null _ _ Hms), Hms in *. cbn [mbind option_bind] in *.
  fold header_step in *.
  match goal with Hh : context[foldl header_step _ ms] |- _ => destruct (foldl header_step (Some None) ms) as [[literal|]|] eqn:Hf; try done; rename Hh into Hp end.
  destruct (ParseInt64 literal) as [n|] eqn:Hn; [|done]. inv_ok.
  eapply header_present in Hf as (t & w & Ht & Hw & Hnum); [|done|exact Hkeys|done].
  rewrite resolve_exact in Hd by (intros m Hm; eapply keysOf_fields, Hkeys, Hm). cbn [mbind option_bind] in Hd.
  repeat (apply bind_Some in Hd as (? & ? & Hd)). injection Hd as <-. cbn.
  match goal with Hl : load int_of "version" _ ms = Some ?ver |- _ =>
    rewrite (load_present _ _ t) in Hl by done; pose proof (int_of_Number _ _ _ _ Hw Hnum Hl) as Hver end.
  rewrite Hver in Hn. injection Hn as ->. exists ms. split_and!; assumption.
Qed.

(** Version 1 documents have no version 2 records. *)
Lemma version_1_records document d u :
  validateLogicalProjectDocumentStructure document = Ok u →
  decode_first LogicalProjectDocument_of LogicalProjectDocument_zero document = Some d → ldo_Version d = 1%Z →
  ldo_ReviewTargets d = [] ∧ ldo_ReviewRequests d = [] ∧ ldo_ReviewOutcomes d = [] ∧ ldo_ReviewEvents d = [] ∧ ldo_Extensions d = ∅.
Proof.
  intros Hs Hd H1. destruct (document_decoded _ _ _ Hs Hd) as (ms & Hkeys & Ht & Hr & Ho & He & Hx). rewrite H1 in Hkeys.
  assert (Hno : ∀ key, key ∉ keysOf 1 → key ∉ map fst ms).
  { intros key Hkey (m & -> & Hm)%list_elem_of_fmap. by apply Hkey, Hkeys. }
  repeat match goal with H : load _ _ _ ms = Some _ |- _ => rewrite load_absent in H by (apply Hno; cbn; set_solver); injection H as H end.
  by split_and!.
Qed.
End versions.
