(* ===== verification/ImportDestination.v ===== *)
(** * What an accepted import establishes

    The plan the importer hands to the repository: its document is closed
    ([import_plan_closed]), and its destination identifiers rename the records
    of the document one to one ([destination_ids_assigned]).  What the parser
    accepts although it contradicts the format's documentation is shown on
    concrete documents at the end. *)

From S2P Require Import Prelude GoStrings Errors Validation Samples Issue Relation Discussion.
From S2P Require Import Resource Attempt AttemptPolicy Gates Store ReviewStore Encoding Interchange ImportCheck ImportClosed ImportPlan.

(** The identifiers of a document, kind by kind. *)
Definition all_ids (d : LogicalProjectDocument) (reservations : list LogicalReservation) (g : LogicalGatesExtension) : list string :=
  core_ids d ++ review_ids d reservations g.

Section accepted.
Context `{UnicodeTables, ULID, URLParser, UnicodeCase, JSONErrors}.

Lemma NoDup_core d : NoDup (core_ids d) →
  NoDup (map lis_ID (ldo_Issues d)) ∧ NoDup (map lat_ID (ldo_Attempts d)) ∧ NoDup (map lar_ID (ldo_Artifacts d)).
Proof. unfold core_ids. rewrite !NoDup_app. tauto. Qed.

Lemma extends_canonical seen l seen' : extends seen l seen' → Forall (λ x, ids_ParseStrict x = true) l.
Proof. by intros (_ & _ & _ & Hc). Qed.

(** Version 2. *)
Lemma semantics_reviews d u : validateLogicalProjectDocumentSemantics d = Ok u → ldo_Version d = 2%Z →
  ∃ reservations g, DecodeReservationsExtension d = Ok reservations ∧ DecodeGatesExtension d = Ok g ∧
    (∃ seen, extends ∅ (all_ids d reservations g) seen) ∧ review_closed d reservations g.
Proof.
  intros Hs Hv2. destruct (semantics_core d u Hs) as (_ & _ & seen & Hcore & Hrest).
  destruct (Hrest Hv2) as (seen1 & seen2 & Hrev & Hres & Hgates). clear Hrest.
  destruct (NoDup_core d (extends_NoDup _ _ _ Hcore)) as (Hi & Hat & Har).
  destruct (checkReviews_Ok d _ _ Hi Har Hrev) as (Hex & Ht & Hr & Ho & He).
  pose proof (extends_NoDup _ _ _ Hex) as Hndr. rewrite !NoDup_app in Hndr.
  unfold validateLogicalReservations in Hres. apply result_bind_Ok in Hres as (reservations & Hdr & Hw).
  destruct (seen_walk _ lrs_ID (reservation_ok d) _ _ _ (checkReservation_Ok d Hat) Hw) as [Hex2 Hrs].
  destruct (DecodeGatesExtension d) as [g|e] eqn:Hg; [|by unfold validateLogicalGates in Hgates; rewrite Hg in Hgates].
  destruct (validateLogicalGates_Ok d g _ _ Hi Hat Har ltac:(tauto) ltac:(tauto) Hg Hgates) as ((seen3 & Hex3) & Hclosed).
  exists reservations, g. split_and!; [done|done| |by apply Hclosed]. exists seen3. unfold all_ids, review_ids.
  pose proof (extends_app _ _ _ _ _ Hex (extends_app _ _ _ _ _ Hex2 Hex3)) as Hall. rewrite <-!app_assoc in Hall.
  by eapply extends_app.
Qed.

(** Version 1: there is nothing of the second version. *)
Lemma no_extensions d :
  ldo_Extensions d = ∅ → DecodeReservationsExtension d = Ok [] ∧ DecodeGatesExtension d = Ok LogicalGatesExtension_zero.
Proof. unfold DecodeReservationsExtension, DecodeGatesExtension, decodeNamespace. intros ->. by rewrite !lookup_empty. Qed.
Lemma nothing_closed d : ldo_ReviewTargets d = [] → ldo_ReviewRequests d = [] → ldo_ReviewOutcomes d = [] → ldo_ReviewEvents d = [] →
  review_closed d [] LogicalGatesExtension_zero ∧ review_ids d [] LogicalGatesExtension_zero = [].
Proof.
  intros Ht Hr Ho He. split; [|unfold review_ids; by rewrite Ht, Hr, Ho].
  constructor; rewrite ?Ht, ?Hr, ?Ho, ?He; cbn; first [apply NoDup_nil_2|by intros ? ?%not_elem_of_nil].
Qed.

(** A successful parse, pass by pass. *)
Lemma Parse_Ok document plan : ParseLogicalProjectImportPlan document = Ok plan →
  ∃ d reservations g u, plan = mkImportPlan d (mkDryRun (importCounts d reservations g) [] 0) noDestinationIDs ∧
    validateLogicalProjectDocumentStructure document = Ok tt ∧
    decode_first LogicalProjectDocument_of LogicalProjectDocument_zero document = Some d ∧
    validateLogicalProjectDocumentSemantics d = Ok u ∧
    DecodeReservationsExtension d = Ok reservations ∧ DecodeGatesExtension d = Ok g.
Proof.
  unfold ParseLogicalProjectImportPlan. intros Hp. inv_ok. destruct (decode_first _ _ document) as [d|]; [|done]. inv_ok.
  match goal with Hs : validateLogicalProjectDocumentStructure _ = Ok ?u |- _ => destruct u end.
  repeat eexists; eassumption.
Qed.

(** What holds of the document of a plan. *)
Definition document_closed (d : LogicalProjectDocument) (reservations : list LogicalReservation) (g : LogicalGatesExtension) : Prop :=
  NoDup (all_ids d reservations g) ∧ Forall (λ id, ids_ParseStrict id = true) (all_ids d reservations g) ∧
  core_closed d ∧ review_closed d reservations g.

Lemma Parse_closed document plan : ParseLogicalProjectImportPlan document = Ok plan →
  ∃ reservations g, DecodeReservationsExtension (ip_Document plan) = Ok reservations ∧
    DecodeGatesExtension (ip_Document plan) = Ok g ∧ document_closed (ip_Document plan) reservations g ∧
    dr_Counts (ip_DryRun plan) = importCounts (ip_Document plan) reservations g.
Proof.
  intros (d & reservations & g & u & -> & Hs & Hd & Hsem & Hres & Hg)%Parse_Ok. cbn [ip_Document ip_DryRun dr_Counts].
  exists reservations, g. split_and!; try done. destruct (semantics_core d u Hsem) as (Hver & Hcore & seen & Hids & _).
  unfold supportedVersion in Hver. apply orb_true_iff in Hver as [Hv|Hv]; apply Z.eqb_eq in Hv.
  - destruct (version_1_records _ _ _ Hs Hd Hv) as (Ht & Hr & Ho & He & Hx).
    destruct (no_extensions d Hx) as [Hres' Hg']. rewrite Hres in Hres'. rewrite Hg in Hg'. injection Hres' as ->. injection Hg' as ->.
    destruct (nothing_closed d Ht Hr Ho He) as [Hclosed Hno]. unfold document_closed, all_ids. rewrite Hno, app_nil_r.
    split_and!; [by eapply extends_NoDup|by eapply extends_canonical|done..].
  - destruct (semantics_reviews d u Hsem Hv) as (reservations' & g' & Hres' & Hg' & (seen' & Hall) & Hclosed).
    rewrite Hres in Hres'. rewrite Hg in Hg'. injection Hres' as <-. injection Hg' as <-.
    split_and!; [by eapply extends_NoDup|by eapply extends_canonical|done..].
Qed.
End accepted.

(** ** Identifiers drawn and assigned *)

Section destination.
Context {G : Type} (generate : G → result (string * G)).

(** [n] identifiers in a row. *)
Fixpoint draws (n : nat) (g : G) : result (list string * G) :=
  match n with
  | O => Ok ([], g)
  | S n => first ← generate g; rest ← draws n first.2; Ok (first.1 :: rest.1, rest.2)
  end.

(** A map that gives each of [ids] the identifier drawn in its turn. *)
Definition assigns (ids : list string) (m : gmap string string) (g g' : G) : Prop :=
  ∃ drawn, draws (length ids) g = Ok (drawn, g') ∧ length drawn = length ids ∧ m = list_to_map (zip ids drawn).

Lemma draws_app n k g l g1 r g2 : draws n g = Ok (l, g1) → draws k g1 = Ok (r, g2) → draws (n + k) g = Ok (l ++ r, g2).
Proof.
  revert g l g1. induction n as [|n IH]; intros g l g1; cbn [draws plus]; [by intros [= <- <-]|].
  intros Hn Hk. inv_ok. match goal with Hd : draws n _ = Ok ?a |- _ => destruct a as [l' g'] end. cbn [fst snd] in *.
  match goal with Hd : generate g = Ok ?a |- _ => rewrite Hd; destruct a as [x gx]; cbn [mbind result_bind fst snd] in * end.
  erewrite IH by done. done.
Qed.

Lemma assigns_app a b m n g g1 g2 : assigns a m g g1 → assigns b n g1 g2 → assigns (a ++ b) (m ∪ n) g g2.
Proof.
  intros (l & Hl & Hll & ->) (r & Hr & Hrr & ->). exists (l ++ r). split_and!.
  - rewrite length_app. by eapply draws_app.
  - rewrite !length_app. lia.
  - rewrite zip_with_app by lia. by rewrite list_to_map_app.
Qed.

Lemma logicalDestinationIDs_draws {A} (id : A → string) items : ∀ m g m' g', NoDup (map id items) →
  logicalDestinationIDs generate id items m g = Ok (m', g') →
  ∃ drawn, draws (length items) g = Ok (drawn, g') ∧ length drawn = length items ∧ m' = list_to_map (zip (map id items) drawn) ∪ m.
Proof.
  induction items as [|x items IH]; intros m g m' g' Hnd; cbn [logicalDestinationIDs].
  { intros [= -> ->]. exists []. split_and!; [done|done|]. cbn. by rewrite (left_id_L ∅ (∪)). }
  cbn [map] in Hnd. apply NoDup_cons in Hnd as [Hx Hnd]. destruct (generate g) as [[destID g1]|e] eqn:Hg; [|done].
  intros (drawn & Hd & Hl & ->)%IH; [|done]. exists (destID :: drawn). cbn [draws length]. rewrite Hg. cbn [mbind result_bind fst snd].
  rewrite Hd. split_and!; [done|by rewrite Hl|]. cbn. rewrite <-insert_union_l, insert_union_r; [done|].
  apply not_elem_of_list_to_map. by rewrite fst_zip by (rewrite length_map; lia).
Qed.
Lemma destinationIDs_assigns {A} (id : A → string) items g r :
  NoDup (map id items) → destinationIDs generate id items g = Ok r → assigns (map id items) r.1 g r.2.
Proof.
  intros Hnd Hd. destruct r as [m g']. apply logicalDestinationIDs_draws in Hd as (drawn & Hd & Hl & ->); [|done].
  exists drawn. rewrite length_map. split_and!; [done..|]. cbn. by rewrite (right_id_L ∅ (∪)).
Qed.

Lemma assigns_dom ids m g g' : assigns ids m g g' → dom m = list_to_set ids.
Proof. intros (drawn & _ & Hl & ->). rewrite dom_list_to_map_L, fst_zip by lia. done. Qed.

(** All maps of a plan in one. *)
Definition destination (dest : LogicalProjectImportDestinationIDs) : gmap string string :=
  (di_IssueIDs dest ∪ (di_LabelIDs dest ∪ (di_RelationIDs dest ∪ (di_CommentIDs dest ∪ (di_DecisionIDs dest ∪
   (di_AttemptIDs dest ∪ (di_AttemptNoteIDs dest ∪ di_ArtifactIDs dest))))))) ∪
  (di_ReviewTargetIDs dest ∪ (di_ReviewRequestIDs dest ∪ (di_ReviewOutcomeIDs dest ∪ (di_ReservationIDs dest ∪
   (di_WorkflowPolicyIDs dest ∪ (di_GateEvidenceIDs dest ∪ di_ReviewApprovalIDs dest)))))).

(** Every record has a destination identifier in the map of its kind. *)
Definition covers_records (dest : LogicalProjectImportDestinationIDs) (d : LogicalProjectDocument)
    (reservations : list LogicalReservation) (g : LogicalGatesExtension) : Prop :=
  dom (di_IssueIDs dest) = ids lis_ID (ldo_Issues d) ∧ dom (di_LabelIDs dest) = ids lla_ID (ldo_Labels d) ∧
  dom (di_RelationIDs dest) = ids lre_ID (ldo_Relations d) ∧ dom (di_CommentIDs dest) = ids lco_ID (ldo_Comments d) ∧
  dom (di_DecisionIDs dest) = ids lde_ID (ldo_Decisions d) ∧ dom (di_AttemptIDs dest) = ids lat_ID (ldo_Attempts d) ∧
  dom (di_AttemptNoteIDs dest) = ids lno_ID (ldo_AttemptNotes d) ∧ dom (di_ArtifactIDs dest) = ids lar_ID (ldo_Artifacts d) ∧
  dom (di_ReviewTargetIDs dest) = ids lrt_ID (ldo_ReviewTargets d) ∧ dom (di_ReviewRequestIDs dest) = ids lrr_ID (ldo_ReviewRequests d) ∧
  dom (di_ReviewOutcomeIDs dest) = ids lro_ID (ldo_ReviewOutcomes d) ∧ dom (di_ReservationIDs dest) = ids lrs_ID reservations ∧
  dom (di_WorkflowPolicyIDs dest) = ids lwp_ID (lgx_Policies g) ∧ dom (di_GateEvidenceIDs dest) = ids lge_ID (lgx_Evidence g) ∧
  dom (di_ReviewApprovalIDs dest) = ids lra_ID (lgx_ReviewApprovals g).

Lemma new_destination_ids `{JSONErrors} d reservations gates dest g g' :
  DecodeReservationsExtension d = Ok reservations → DecodeGatesExtension d = Ok gates → NoDup (all_ids d reservations gates) →
  NewLogicalProjectImportDestinationIDs generate d g = Ok (dest, g') →
  assigns (all_ids d reservations gates) (destination dest) g g' ∧ covers_records dest d reservations gates.
Proof.
  intros Hr Hg Hnd. unfold NewLogicalProjectImportDestinationIDs. rewrite Hr, Hg. cbn [mbind result_bind].
  unfold all_ids, core_ids, review_ids in Hnd. rewrite !NoDup_app in Hnd. intros Hn. inv_ok.
  repeat match goal with
  | Hd : destinationIDs _ ?id ?l _ = Ok _ |- _ => apply destinationIDs_assigns in Hd; [|tauto]
  end.
  split; [unfold all_ids, core_ids, review_ids; by repeat (eapply assigns_app; [|try eassumption])|].
  unfold covers_records. cbn. split_and!; by eapply assigns_dom.
Qed.

(** Names that are drawn once name one record. *)
Lemma zip_injective (ids : list string) (m : gmap string string) (drawn : list string) a b x :
  NoDup ids → m = list_to_map (zip ids drawn) → length drawn = length ids → NoDup drawn → m !! a = Some x → m !! b = Some x → a = b.
Proof.
  intros Hids -> Hl Hdrawn Ha Hb. apply elem_of_list_to_map_2, list_elem_of_lookup in Ha as [i Hi].
  apply elem_of_list_to_map_2, list_elem_of_lookup in Hb as [j Hj].
  rewrite lookup_zip_with_Some in Hi, Hj. destruct Hi as (a' & x' & [= -> ->] & Hai & Hxi), Hj as (b' & y' & [= -> ->] & Hbj & Hyj).
  assert (i = j) as -> by (by eapply NoDup_lookup). congruence.
Qed.
End destination.

(** ** Sample documents

    Texts with single quotes for double quotes. *)

#[export] Instance sample_json_errors : JSONErrors := {| json_error := λ path _, "malformed " +:+ path |}.
(** The letters of Latin-1 besides ASCII. *)
#[export] Instance sample_case : UnicodeCase :=
  {| unicode_ToLower := λ c, if (192 <=? c)%Z && (c <=? 222)%Z && negb (c =? 215)%Z then (c + 32)%Z else c |}.
#[export] Instance sample_urls : URLParser := {| url_ParseRequestURI := λ _, None |}.

Definition json_text (s : string) : string := str_map (λ c, if is_byte 39 c then byte_of 34 else c) s.
Definition stamp : string := "'2024-02-29T12:00:00Z'".
Definition id_text (c : string) : string := "'" +:+ ulid_of c +:+ "'".

Definition issue_text (c type parent extra : string) : string :=
  "{'id':" +:+ id_text c +:+ ",'type':'" +:+ type +:+ "','title':'T','description':null,'acceptance_criteria':null," +:+
  "'status':'ready','priority':'low','parent_id':" +:+ parent +:+ ",'blocked_reason':null,'created_by_session_id':null," +:+
  "'created_at':" +:+ stamp +:+ ",'updated_at':" +:+ stamp +:+ ",'closed_at':null" +:+ extra +:+ "}".
Definition decision_text (c supersedes : string) : string :=
  "{'id':" +:+ id_text c +:+ ",'issue_id':null,'title':'D','summary':'S','content':'C','status':'active','supersedes_id':" +:+
  supersedes +:+ ",'created_by_session_id':null,'created_at':" +:+ stamp +:+ "}".
Definition attempt_text (c issue : string) : string :=
  "{'id':" +:+ id_text c +:+ ",'issue_id':" +:+ id_text issue +:+ ",'session_id':null,'agent_label':null,'kind':'work'," +:+
  "'status':'completed','issue_version_at_start':2,'context_event_id_at_start':0,'lease_expires_at':" +:+ stamp +:+
  ",'started_at':" +:+ stamp +:+ ",'last_heartbeat_at':" +:+ stamp +:+ ",'finished_at':" +:+ stamp +:+
  ",'result_summary':null,'next_steps':[],'verification':[],'failure_reason_code':null,'interruption_reason_code':null," +:+
  "'reason_details':null}".
Definition target_text (c issue : string) : string :=
  "{'id':" +:+ id_text c +:+ ",'issue_id':" +:+ id_text issue +:+ ",'issue_version':3,'latest_event_id':0,'artifact_ids':[]," +:+
  "'created_at':" +:+ stamp +:+ "}".
Definition request_text (c target issue supersedes : string) : string :=
  "{'id':" +:+ id_text c +:+ ",'target_id':" +:+ id_text target +:+ ",'issue_id':" +:+ id_text issue +:+
  ",'target_issue_version':3,'target_event_id':0,'artifact_ids':[],'status':'open','supersedes_id':" +:+ supersedes +:+
  ",'created_at':" +:+ stamp +:+ ",'resolved_at':null}".
Definition reservation_text (c issue attempt : string) : string :=
  "{'id':" +:+ id_text c +:+ ",'issue_id':" +:+ id_text issue +:+ ",'attempt_id':" +:+ id_text attempt +:+
  ",'kind':'file','display_value':'a.go','comparison_value':'a.go','normalized_json':{'path':'a.go'},'status':'released'," +:+
  "'created_at':" +:+ stamp +:+ ",'released_at':" +:+ stamp +:+ ",'release_reason':'completed'}".

Definition event_text (source_id issue type payload : string) : string :=
  "{'source_id':" +:+ source_id +:+ ",'issue_id':" +:+ id_text issue +:+ ",'event_type':'" +:+ type +:+
  "','session_id':null,'attempt_id':null,'payload':" +:+ payload +:+ ",'created_at':" +:+ stamp +:+ "}".

Record Parts := mkParts {
  pt_Version : string; pt_Issues : string; pt_Relations : string; pt_Decisions : string; pt_Attempts : string; pt_Events : string;
  pt_Extra : string;
}.
Definition document_text (p : Parts) : string :=
  json_text ("{'format':'rhizome-logical-project','version':" +:+ pt_Version p +:+ ",'exported_at':" +:+ stamp +:+
    ",'project':{'id':" +:+ id_text "0" +:+ ",'name':null,'instructions':null,'created_at':" +:+ stamp +:+ ",'updated_at':" +:+
    stamp +:+ "},'issues':[" +:+ pt_Issues p +:+ "],'labels':[],'issue_labels':[],'relations':[" +:+ pt_Relations p +:+
    "],'comments':[],'decisions':[" +:+ pt_Decisions p +:+ "],'attempts':[" +:+ pt_Attempts p +:+
    "],'attempt_notes':[],'artifacts':[],'events':[" +:+ pt_Events p +:+ "]" +:+ pt_Extra p +:+ "}").

(** The outcome of a parse: the counts, or the code, the place and the reason
    of the refusal. *)
Definition outcome (document : string) : LogicalProjectImportCounts + string * list string * list string :=
  match ParseLogicalProjectImportPlan document with
  | Ok plan => inl (dr_Counts (ip_DryRun plan))
  | Err e => inr (e_Code e, map d_Field (e_Details e), map d_Code (e_Details e))
  end.

(** An epic with a task at version 3 and two events, an attempt at it with a
    reservation it has released, a review of the task. *)
Definition sample_parts : Parts :=
  mkParts "2" (issue_text "1" "epic" "null" "" +:+ "," +:+ issue_text "2" "task" (id_text "1") ",'version':3")
    "" (decision_text "3" "null") (attempt_text "4" "2")
    (event_text "9" "2" "review_requested" ("{ 'request_id': " +:+ id_text "6" +:+ " }") +:+ "," +:+
     event_text "5" "2" "issue_created" "{ }")
    (",'review_targets':[" +:+ target_text "5" "2" +:+ "],'review_requests':[" +:+ request_text "6" "5" "2" "null" +:+
     "],'extensions':{'reservations':{'version':1,'records':[" +:+ reservation_text "7" "2" "4" +:+ "]}}").
Definition sample_document : string := Eval vm_compute in document_text sample_parts.

(** ** Properties *)

(** C25. Accepted documents are closed.  Whenever the importer accepts a text, of
    either version, the identifiers of all its records (extension namespaces
    included) are canonical and pairwise distinct; every reference names an
    included record of the right kind; parents are epics, blocks relations
    have no cycle, label names, links, relations, snapshots, evidence keys and
    approvals are unique; artifacts, reservations, evidence and approvals
    agree with the issue of what owns them; no frozen issue version exceeds
    the version its issue carries; attempts are not active, requests not
    claimed, reservations released.  The dry run counts exactly these
    records. *)
Theorem import_plan_closed `{UnicodeTables, ULID, URLParser, UnicodeCase, JSONErrors} document plan :
  ParseLogicalProjectImportPlan document = Ok plan →
  ∃ reservations gates,
    DecodeReservationsExtension (ip_Document plan) = Ok reservations ∧ DecodeGatesExtension (ip_Document plan) = Ok gates ∧
    document_closed (ip_Document plan) reservations gates ∧
    dr_Counts (ip_DryRun plan) = importCounts (ip_Document plan) reservations gates.
Proof. apply Parse_closed. Qed.

(** C27. Version 1 stays frozen.  An accepted document of version 1 has nothing
    of version 2: no review records, no extensions, no issue version and no
    event source; and a document has one of the two versions. *)
Theorem version_1_is_frozen `{UnicodeTables, ULID, URLParser, UnicodeCase, JSONErrors} document plan :
  ParseLogicalProjectImportPlan document = Ok plan → let d := ip_Document plan in
  ldo_Version d = 2%Z ∨
  ldo_Version d = 1%Z ∧ ldo_ReviewTargets d = [] ∧ ldo_ReviewRequests d = [] ∧ ldo_ReviewOutcomes d = [] ∧
    ldo_ReviewEvents d = [] ∧ ldo_Extensions d = ∅ ∧
    (∀ issue, issue ∈ ldo_Issues d → lis_Version issue = None) ∧ (∀ event, event ∈ ldo_Events d → lev_Source event = "").
Proof.
  intros (d & reservations & g & u & -> & Hs & Hd & Hsem & _ & _)%Parse_Ok. cbn.
  destruct (semantics_core d u Hsem) as (Hver & Hcore & _). unfold supportedVersion in Hver.
  apply orb_true_iff in Hver as [Hv|Hv]; apply Z.eqb_eq in Hv; [right|by left].
  destruct (version_1_records _ _ _ Hs Hd Hv) as (Ht & Hr & Ho & He & Hx). split_and!; try done.
  - intros issue Hi. destruct (lis_Version issue) eqn:Hi'; [|done]. pose proof (semantics_versions d u Hsem issue Hi) as Hle.
    rewrite Hi' in Hle. specialize (Hle eq_refl). lia.
  - intros event Hin. destruct (core_events d Hcore event Hin) as (_ & _ & Hsrc & _).
    destruct (decide (lev_Source event = "")) as [|Hne]; [done|]. specialize (Hsrc Hne). lia.
Qed.

(** C26. Records are renamed one to one.  For a document that is accepted, the
    application draws exactly one identifier per record from its generator, in
    the order of the document's lists, and every record of every kind has the
    identifier drawn in its turn; when the generator does not repeat itself no
    two records share one, so references that are distinct stay distinct. *)
Theorem destination_ids_assigned `{UnicodeTables, ULID, URLParser, UnicodeCase, JSONErrors} {G} (generate : G → result (string * G))
    document plan g g' :
  prepareImport generate document g = Ok (plan, g') →
  ∃ reservations gates drawn,
    DecodeReservationsExtension (ip_Document plan) = Ok reservations ∧ DecodeGatesExtension (ip_Document plan) = Ok gates ∧
    let records := all_ids (ip_Document plan) reservations gates in
    draws generate (length records) g = Ok (drawn, g') ∧
    destination (ip_DestinationIDs plan) = list_to_map (zip records drawn) ∧
    covers_records (ip_DestinationIDs plan) (ip_Document plan) reservations gates ∧
    (NoDup drawn → ∀ a b x, destination (ip_DestinationIDs plan) !! a = Some x →
       destination (ip_DestinationIDs plan) !! b = Some x → a = b).
Proof.
  unfold prepareImport. intros (plan0 & Hp & Hn)%result_bind_Ok. destruct (Parse_closed _ _ Hp) as (reservations & gates & Hr & Hg & (Hnd & _) & _).
  destruct (NewLogicalProjectImportDestinationIDs _ _ g) as [[dest g1]|e] eqn:Hdest; [|done]. injection Hn as <- ->. cbn [ip_Document ip_DestinationIDs].
  destruct (new_destination_ids generate _ _ _ _ _ _ Hr Hg Hnd Hdest) as ((drawn & Hd & Hl & Hm) & Hc).
  exists reservations, gates, drawn. split_and!; try done. intros Hdrawn a b x. by apply (zip_injective _ _ _ _ _ _ Hnd Hm Hl Hdrawn).
Qed.

(** *** Witnesses *)

Lemma sample_document_parses : is_ok (ParseLogicalProjectImportPlan sample_document) = true.
Proof. vm_compute. reflexivity. Qed.

Lemma import_plan_closed_witness :
  ∃ plan, ParseLogicalProjectImportPlan sample_document = Ok plan ∧
    ∃ reservations gates, document_closed (ip_Document plan) reservations gates ∧
      dr_Counts (ip_DryRun plan) = importCounts (ip_Document plan) reservations gates.
Proof.
  destruct (proj1 (is_ok_true _) sample_document_parses) as [plan Hp]. exists plan. split; [exact Hp|].
  destruct (import_plan_closed sample_document plan Hp) as (reservations & gates & _ & _ & Hc & Hn).
  exists reservations, gates. exact (conj Hc Hn).
Defined.

Definition version_1_document : string := Eval vm_compute in document_text (mkParts "1" (issue_text "1" "task" "null" "") "" "" "" "" "").
Lemma version_1_document_parses :
  match ParseLogicalProjectImportPlan version_1_document with Ok plan => (ldo_Version (ip_Document plan) =? 1)%Z | Err _ => false end = true.
Proof. vm_compute. reflexivity. Qed.
Lemma version_1_is_frozen_witness :
  ∃ plan, ParseLogicalProjectImportPlan version_1_document = Ok plan ∧ ldo_ReviewTargets (ip_Document plan) = [] ∧
    ldo_Extensions (ip_Document plan) = ∅.
Proof.
  pose proof version_1_document_parses as Hv. destruct (ParseLogicalProjectImportPlan version_1_document) as [plan|e] eqn:Hp; [|discriminate Hv].
  exists plan. split; [reflexivity|]. destruct (version_1_is_frozen version_1_document plan Hp) as [H2|(_ & Ht & _ & _ & _ & Hx & _)].
  - rewrite H2 in Hv. discriminate Hv.
  - exact (conj Ht Hx).
Defined.

(** A generator that counts. *)
Definition counter (n : Z) : result (string * Z) := Ok ("id" +:+ Itoa n, (n + 1)%Z).
Lemma sample_document_prepares : is_ok (prepareImport counter sample_document 0%Z) = true.
Proof. vm_compute. reflexivity. Qed.
Lemma destination_ids_assigned_witness :
  ∃ plan g' reservations gates, prepareImport counter sample_document 0%Z = Ok (plan, g') ∧
    covers_records (ip_DestinationIDs plan) (ip_Document plan) reservations gates.
Proof.
  destruct (proj1 (is_ok_true _) sample_document_prepares) as [[plan g'] Hp].
  destruct (destination_ids_assigned counter sample_document plan 0%Z g' Hp) as (reservations & gates & drawn & _ & _ & _ & _ & Hc & _).
  exists plan, g', reservations, gates. exact (conj Hp Hc).
Defined.

(** ** What the parser refuses, and what it lets pass *)

Definition accepts (p : Parts) : bool := is_ok (ParseLogicalProjectImportPlan (document_text p)).
Definition one_task (version issue decision extra : string) : Parts :=
  mkParts version (issue_text "1" "task" "null" issue) "" decision "" "" extra.
Definition refusal (p : Parts) : option (string * list string * list string) :=
  match outcome (document_text p) with inl _ => None | inr e => Some e end.

Example version_1_keys :
  refusal (one_task "1" ",'version':2" "" "") = Some ("UNSUPPORTED_FIELD", ["$.issues[0].version"], ["UNSUPPORTED_FIELD"]) ∧
  refusal (one_task "1" "" "" ",'extensions':{}") = Some ("UNSUPPORTED_FIELD", ["$.extensions"], ["UNSUPPORTED_FIELD"]) ∧
  refusal (one_task "3" "" "" "") = Some ("UNSUPPORTED_FORMAT_VERSION", ["$.version"], ["UNSUPPORTED_FORMAT_VERSION"]) ∧
  refusal (one_task "2" "" "" ",'issues':[]") = Some ("INVALID_ARGUMENT", ["$.issues"], ["DUPLICATE_KEY"]).
Proof. vm_compute. split_and!; reflexivity. Qed.
Example references_are_checked :
  refusal (one_task "2" "" (decision_text "2" (id_text "3")) "") =
    Some ("INVALID_ARGUMENT", ["$.decisions[0].supersedes_id"], ["INVALID_REFERENCE"]) ∧
  refusal (one_task "2" "" (decision_text "1" "null") "") = Some ("INVALID_ARGUMENT", ["$.decisions[0].id"], ["DUPLICATE_ID"]) ∧
  refusal (mkParts "2" (issue_text "1" "task" (id_text "2") "" +:+ "," +:+ issue_text "2" "task" "null" "") "" "" "" "" "") =
    Some ("INVALID_ARGUMENT", ["$.issues[0].parent_id"], ["INVALID_PARENT"]) ∧
  refusal (mkParts "2" (issue_text "2" "task" "null" ",'version':1") "" "" (attempt_text "4" "2") "" "") =
    Some ("INVALID_ARGUMENT", ["$.attempts[0].issue_version_at_start"], ["INCONSISTENT_ISSUE_VERSION"]).
Proof. vm_compute. split_and!; reflexivity. Qed.

(** A decision may supersede itself: the table of decisions has a CHECK against
    it, so such a plan fails at its insertion. *)
Example decision_supersedes_itself : accepts (one_task "2" "" (decision_text "2" (id_text "2")) "") = true.
Proof. vm_compute. reflexivity. Qed.

(** So may a review request, and an outcome that is not "blocked" may have a
    reason; the tables have CHECKs against both. *)
Definition outcome_text (c request attempt result reason : string) : string :=
  "{'id':" +:+ id_text c +:+ ",'request_id':" +:+ id_text request +:+ ",'attempt_id':" +:+ id_text attempt +:+
  ",'outcome':'" +:+ result +:+ "','reason':" +:+ reason +:+ ",'created_at':" +:+ stamp +:+ "}".
Definition reviewed (supersedes outcomes : string) : Parts :=
  mkParts "2" (issue_text "2" "task" "null" ",'version':3") "" "" (attempt_text "4" "2") ""
    (",'review_targets':[" +:+ target_text "5" "2" +:+ "],'review_requests':[" +:+ request_text "6" "5" "2" supersedes +:+
     "],'review_outcomes':[" +:+ outcomes +:+ "]").
Example request_supersedes_itself : accepts (reviewed (id_text "6") "") = true.
Proof. vm_compute. reflexivity. Qed.
Example approval_with_a_reason :
  accepts (reviewed "null" (outcome_text "7" "6" "4" "approved" "'because'")) = true ∧
  refusal (reviewed "null" (outcome_text "7" "6" "4" "blocked" "null")) =
    Some ("INVALID_ARGUMENT", ["$.review_outcomes[0].reason"], ["REQUIRED"]).
Proof. vm_compute. split; reflexivity. Qed.

(** A request may have two outcomes, although the column is UNIQUE. *)
Example two_outcomes :
  accepts (reviewed "null" (outcome_text "7" "6" "4" "approved" "null" +:+ "," +:+ outcome_text "8" "6" "4" "approved" "null")) = true.
Proof. vm_compute. reflexivity. Qed.

(** A namespace given twice: duplicate keys are refused everywhere but in the
    extensions object itself, where the first value is dropped although on its
    own it would be refused. *)
Example duplicate_namespace_dropped :
  accepts (one_task "2" "" "" ",'extensions':{'gates':{'version':7},'gates':{'version':1}}") = true ∧
  refusal (one_task "2" "" "" ",'extensions':{'gates':{'version':7}}") =
    Some ("UNSUPPORTED_FORMAT_VERSION", ["$.extensions.gates.version"], ["UNSUPPORTED_FORMAT_VERSION"]).
Proof. vm_compute. split; reflexivity. Qed.
