(* ===== verification/ImportEvents.v ===== *)
(** * Event positions and event payloads of an import

    [internal/domain/logical_project_cursors.go] and
    [internal/domain/logical_project_payloads.go]: an import gives the events of
    a document new identifiers, translates every column that names a position
    of the event log, and rewrites the identities inside the payloads of review
    events.

    [sort.Slice] is stable in the model; the positions do not depend on the
    order of events with one source identifier ([Remap_floor]). *)

From S2P Require Import Prelude GoStrings Errors Validation Orders Encoding Interchange ImportCheck.

(** ** Positions *)

Record LogicalEventCursorEntry := mkCursorEntry { ce_SourceID : Z; ce_DestinationID : Z }.
Record LogicalEventCursorMapping := mkCursorMapping { cm_sourceIDs : list Z; cm_destinationCeilings : list Z }.

Definition cursorLess (a b : LogicalEventCursorEntry) : bool := (ce_SourceID a <? ce_SourceID b)%Z.

(** The greatest identifier so far, entry by entry. *)
Fixpoint ceilings (ceiling : Z) (entries : list LogicalEventCursorEntry) : list Z :=
  match entries with
  | [] => []
  | entry :: entries =>
      let ceiling := if (ceiling <? ce_DestinationID entry)%Z then ce_DestinationID entry else ceiling in
      ceiling :: ceilings ceiling entries
  end.
Definition NewLogicalEventCursorMapping (entries : list LogicalEventCursorEntry) : LogicalEventCursorMapping :=
  let ordered := stable_sort cursorLess entries in
  mkCursorMapping (map ce_SourceID ordered) (ceilings 0 ordered).

(** [sort.Search]: the first index of [i, j) at which [f] holds, or [j].  Every
    round halves the interval, so [j - i] rounds are enough. *)
Fixpoint search_between (rounds : nat) (f : nat → bool) (i j : nat) : nat :=
  match rounds with
  | O => i
  | S rounds =>
      if bool_decide (i < j) then
        let h := ((i + j) / 2)%nat in
        if f h then search_between rounds f i h else search_between rounds f (S h) j
      else i
  end.
Definition sort_Search (n : nat) (f : nat → bool) : nat := search_between n f 0 n.

Definition Remap (mapping : LogicalEventCursorMapping) (cursor : Z) : Z :=
  let index := sort_Search (length (cm_sourceIDs mapping)) (λ position, (cursor <? nth position (cm_sourceIDs mapping) 0)%Z) in
  match index with
  | O => 0%Z
  | S before => nth before (cm_destinationCeilings mapping) 0%Z
  end.

(** ** Payloads *)

(** How [json.Marshal] writes a [json.RawMessage]: without the blanks between
    tokens, and with the characters that HTML minds escaped. *)
Fixpoint compact (in_string : bool) (s : list ascii) : list ascii :=
  match s with
  | [] => []
  | c :: r =>
      if is_byte 60 c || is_byte 62 c || is_byte 38 c
      then bytes (esc "u" +:+ hex 4 (byte_val c)) ++ compact in_string r
      else if in_string then
        if is_byte 92 c then c :: match r with d :: r => d :: compact true r | [] => [] end
        else if is_byte 34 c then c :: compact false r
        else match r with
          | d :: e :: r' =>
              if is_byte 226 c && is_byte 128 d && (is_byte 168 e || is_byte 169 e)
              then bytes (esc "u" +:+ "202" +:+ String (hex_digit (byte_val e mod 16)) "") ++ compact true r'
              else c :: compact true r
          | _ => c :: compact true r
          end
      else if is_byte 32 c || is_byte 9 c || is_byte 10 c || is_byte 13 c then compact false r
      else c :: compact (is_byte 34 c) r
  end.
Definition marshal_raw (text : string) : string := of_bytes (compact false (bytes text)).
(** A [map[string]json.RawMessage], its keys in order. *)
Definition marshal_raw_map (fields : gmap string string) : string :=
  "{" +:+ Join (map (λ key, json_quote key +:+ ":" +:+ marshal_raw (at_key fields key)) (sort_Strings (map fst (map_to_list fields)))) ","
    +:+ "}".

Record LogicalEventPayloadReferences := mkPayloadReferences {
  pr_Issues : gmap string string; pr_Attempts : gmap string string;
  pr_ReviewTargets : gmap string string; pr_ReviewRequests : gmap string string;
}.
Definition logicalReviewEventPayloadKeys (references : LogicalEventPayloadReferences) : list (string * gmap string string) :=
  [("request_id", pr_ReviewRequests references); ("target_id", pr_ReviewTargets references);
   ("attempt_id", pr_Attempts references); ("issue_id", pr_Issues references)].

(** What becomes of one key: its new text, if it is rewritten. *)
Definition remapped (fields : gmap string string) (entry : string * gmap string string) : option string :=
  raw ← fields !! entry.1;
  sourceID ← string_of raw "";
  destinationID ← entry.2 !! sourceID;
  Some (json_quote destinationID).
Definition remapKey (st : gmap string string * bool) (entry : string * gmap string string) : gmap string string * bool :=
  match remapped st.1 entry with
  | Some encoded => (<[ entry.1 := encoded ]> st.1, true)
  | None => st
  end.
Definition RemapLogicalEventPayload (eventType payload : string) (references : LogicalEventPayloadReferences) : string :=
  if negb (ReviewEventType_Valid eventType) then payload
  else match raw_map_of payload ∅ with
    | None => payload
    | Some fields =>
        let '(fields, rewritten) := foldl remapKey (fields, false) (logicalReviewEventPayloadKeys references) in
        if negb rewritten then payload else marshal_raw_map fields
    end.

(** ** The floor rule *)

Lemma search_between_spec n f : (∀ x y, x ≤ y < n → f x = true → f y = true) →
  ∀ rounds i j, i ≤ j → j ≤ n → j - i ≤ rounds →
  let k := search_between rounds f i j in
  i ≤ k ≤ j ∧ (∀ x, i ≤ x < k → f x = false) ∧ (∀ x, k ≤ x < j → f x = true).
Proof.
  intros Hmono rounds. induction rounds as [|rounds IH]; intros i j Hij Hj Hr; cbn [search_between].
  { split_and!; [lia|lia|intros x ?; lia|intros x ?; lia]. }
  case_bool_decide as Hlt; [|split_and!; [lia|lia|intros x ?; lia|intros x ?; lia]]. cbv zeta.
  set (h := ((i + j) / 2)%nat). assert (Hh : i ≤ h < j).
  { unfold h. split; [apply Nat.div_le_lower_bound; lia|apply Nat.Div0.div_lt_upper_bound; lia]. }
  destruct (f h) eqn:Hf.
  - destruct (IH i h) as (Hk & Hlo & Hhi); [lia..|]. split_and!; [lia|lia|done|]. intros x Hx.
    destruct (decide (x < h)); [apply Hhi; lia|]. apply (Hmono h x); [lia|done].
  - destruct (IH (S h) j) as (Hk & Hlo & Hhi); [lia..|]. split_and!; [lia|lia| |done]. intros x Hx.
    destruct (decide (x ≤ h)); [|apply Hlo; lia]. destruct (f x) eqn:Hfx; [|done].
    rewrite (Hmono x h) in Hf by (done || lia). done.
Qed.
Lemma sort_Search_spec n f : (∀ x y, x ≤ y < n → f x = true → f y = true) →
  sort_Search n f ≤ n ∧ (∀ x, x < sort_Search n f → f x = false) ∧ (∀ x, sort_Search n f ≤ x < n → f x = true).
Proof.
  intros Hmono. destruct (search_between_spec n f Hmono n 0 n) as (Hk & Hlo & Hhi); [lia..|].
  split_and!; [apply Hk|intros x Hx; apply Hlo; unfold sort_Search in Hx; lia|done].
Qed.

(** The greatest of some identifiers, at least [0]. *)
Definition greatest (l : list Z) : Z := foldr Z.max 0%Z l.
Lemma greatest_nonneg l : (0 <= greatest l)%Z.
Proof. induction l as [|x l IH]; cbn; [done|]. fold (greatest l). lia. Qed.
Lemma greatest_upper l x : x ∈ l → (x <= greatest l)%Z.
Proof. induction l as [|y l IH]; [by intros ?%not_elem_of_nil|]. intros [->|Hx%IH]%elem_of_cons; cbn; fold (greatest l); lia. Qed.
Lemma greatest_least l m : (0 <= m)%Z → (∀ x, x ∈ l → x <= m)%Z → (greatest l <= m)%Z.
Proof.
  intros Hm. induction l as [|x l IH]; intros Hl; cbn; [done|]. fold (greatest l).
  apply Z.max_lub; [apply Hl; by left|apply IH; intros y Hy; apply Hl; by right].
Qed.
Lemma greatest_perm l k : l ≡ₚ k → greatest l = greatest k.
Proof. intros Hp. unfold greatest. induction Hp; cbn; lia. Qed.

Lemma foldr_max_init l a b : foldr Z.max (Z.max a b) l = Z.max b (foldr Z.max a l).
Proof. induction l as [|x l IH]; cbn [foldr]; [lia|]. rewrite IH. lia. Qed.
Lemma ceilings_nth entries : ∀ c k, k < length entries →
  nth k (ceilings c entries) 0%Z = foldr Z.max c (map ce_DestinationID (take (S k) entries)).
Proof.
  induction entries as [|e entries IH]; intros c k Hk; cbn in Hk; [lia|]. cbn [ceilings]. cbv zeta.
  assert ((if (c <? ce_DestinationID e)%Z then ce_DestinationID e else c) = Z.max c (ce_DestinationID e)) as ->
    by (destruct (Z.ltb_spec c (ce_DestinationID e)); lia).
  destruct k as [|k]; [rewrite firstn_cons, take_0; cbn [nth map foldr]; apply Z.max_comm|]. cbn [nth]. rewrite IH by lia. rewrite foldr_max_init. done.
Qed.

Lemma cursorLess_false a b : not_less cursorLess a b ↔ (ce_SourceID a <= ce_SourceID b)%Z.
Proof. unfold not_less, cursorLess. rewrite Z.ltb_ge. done. Qed.
Lemma sources_sorted entries i j x y :
  stable_sort cursorLess entries !! i = Some x → stable_sort cursorLess entries !! j = Some y → i ≤ j →
  (ce_SourceID x <= ce_SourceID y)%Z.
Proof.
  intros Hi Hj Hle. destruct (decide (i = j)) as [->|Hne]; [rewrite Hi in Hj; by injection Hj as ->|].
  apply cursorLess_false. assert (Hs : StronglySorted (not_less cursorLess) (stable_sort cursorLess entries)).
  { apply stable_sort_sorted; unfold cursorLess.
    - intros a b. rewrite !Z.ltb_lt, Z.ltb_ge. lia.
    - intros a b c. rewrite !cursorLess_false. lia. }
  revert i j Hi Hj Hle Hne. induction Hs as [|z l _ IH Hz]; intros i j Hi Hj Hle Hne; [done|].
  destruct j as [|j]; [lia|]. destruct i as [|i].
  - injection Hi as ->. rewrite Forall_forall in Hz. apply Hz. by eapply list_elem_of_lookup_2.
  - apply (IH i j); [done|done|lia|lia].
Qed.

Lemma filter_prefix {A} (p : A → bool) l k : k ≤ length l →
  (∀ i x, l !! i = Some x → i < k → p x = true) → (∀ i x, l !! i = Some x → k ≤ i → p x = false) →
  List.filter p l = take k l.
Proof.
  revert k. induction l as [|x l IH]; intros k Hk Hlo Hhi; [by destruct k|]. cbn [List.filter]. destruct k as [|k].
  - rewrite (Hhi 0 x) by (done || lia). cbn. apply (IH 0); [lia|intros; lia|].
    intros i y Hy _. apply (Hhi (S i) y); [done|lia].
  - rewrite (Hlo 0 x) by (done || lia). cbn. f_equal. cbn in Hk. apply IH; [lia| |].
    + intros i y Hy Hi. apply (Hlo (S i) y); [done|lia].
    + intros i y Hy Hi. apply (Hhi (S i) y); [done|lia].
Qed.

Lemma filter_perm {A} (p : A → bool) l k : l ≡ₚ k → List.filter p l ≡ₚ List.filter p k.
Proof.
  induction 1 as [|x l k _ IH|x y l|l k m _ IH1 _ IH2]; cbn; [done| | |by rewrite IH1].
  - destruct (p x); by rewrite IH.
  - destruct (p x), (p y); try done. constructor.
Qed.

Definition upTo (cursor : Z) (entry : LogicalEventCursorEntry) : bool := (ce_SourceID entry <=? cursor)%Z.

(** A position becomes the greatest new identifier among the events at or
    before it, and [0] when there is none. *)
Lemma Remap_floor entries cursor :
  Remap (NewLogicalEventCursorMapping entries) cursor = greatest (map ce_DestinationID (List.filter (upTo cursor) entries)).
Proof.
  set (ordered := stable_sort cursorLess entries).
  rewrite <-(greatest_perm (map ce_DestinationID (List.filter (upTo cursor) ordered)))
    by (apply Permutation_map, filter_perm, stable_sort_Permutation).
  unfold Remap, NewLogicalEventCursorMapping. cbn [cm_sourceIDs cm_destinationCeilings]. fold ordered. rewrite length_map.
  set (f := λ position, (cursor <? nth position (map ce_SourceID ordered) 0)%Z).
  assert (Hf : ∀ i x, ordered !! i = Some x → f i = (cursor <? ce_SourceID x)%Z).
  { intros i x Hx. unfold f. rewrite <-(nth_lookup_Some (map ce_SourceID ordered) i 0%Z (ce_SourceID x)); [done|].
    by rewrite list_lookup_fmap, Hx. }
  destruct (sort_Search_spec (length ordered) f) as (Hk & Hlo & Hhi).
  { intros x y Hxy. destruct (lookup_lt_is_Some_2 ordered x) as [ex Hex]; [lia|].
    destruct (lookup_lt_is_Some_2 ordered y) as [ey Hey]; [lia|]. rewrite (Hf _ _ Hex), (Hf _ _ Hey), !Z.ltb_lt.
    pose proof (sources_sorted entries x y ex ey Hex Hey). lia. }
  assert (Hprefix : List.filter (upTo cursor) ordered = take (sort_Search (length ordered) f) ordered).
  { apply filter_prefix; [done| |]; intros i x Hx Hi; unfold upTo.
    - specialize (Hlo i Hi). rewrite (Hf _ _ Hx), Z.ltb_ge in Hlo. by apply Z.leb_le.
    - pose proof (lookup_lt_Some _ _ _ Hx). specialize (Hhi i ltac:(lia)). rewrite (Hf _ _ Hx), Z.ltb_lt in Hhi.
      by apply Z.leb_gt. }
  rewrite Hprefix. destruct (sort_Search (length ordered) f) as [|before]; [done|]. by rewrite ceilings_nth by lia.
Qed.

(** When the new identifiers follow the order of the old ones, the question a
    position answers, what happened after it, keeps its answer. *)
Lemma positions_kept entries cursor e :
  (∀ a b, a ∈ entries → b ∈ entries → (ce_SourceID a < ce_SourceID b → ce_DestinationID a < ce_DestinationID b)%Z) →
  (∀ a, a ∈ entries → (0 < ce_DestinationID a)%Z) → e ∈ entries →
  (ce_SourceID e <= cursor ↔ ce_DestinationID e <= Remap (NewLogicalEventCursorMapping entries) cursor)%Z.
Proof.
  intros Hmono Hpos He. rewrite Remap_floor. split.
  - intros Hle. apply greatest_upper, list_elem_of_fmap. exists e. split; [done|]. apply elem_of_filter_list. by apply Z.leb_le in Hle.
  - intros Hle. destruct (Z.le_gt_cases (ce_SourceID e) cursor) as [|Hgt]; [done|].
    assert (Hg : (greatest (map ce_DestinationID (List.filter (upTo cursor) entries)) <= ce_DestinationID e - 1)%Z).
    { apply greatest_least; [specialize (Hpos e He); lia|]. intros x (a & -> & Ha)%list_elem_of_fmap.
      apply elem_of_filter_list in Ha as [Ha Hup]. apply Z.leb_le in Hup. specialize (Hmono a e Ha He). lia. }
    lia.
Qed.

(** ** Rewriting a payload *)

Lemma remapped_other fields key text entry :
  entry.1 ≠ key → remapped (<[ key := text ]> fields) entry = remapped fields entry.
Proof. intros Hne. unfold remapped. by rewrite lookup_insert_ne by congruence. Qed.
Lemma remapKey_comm st a b : a.1 ≠ b.1 → remapKey (remapKey st a) b = remapKey (remapKey st b) a.
Proof.
  intros Hne. unfold remapKey. destruct (remapped st.1 a) as [x|] eqn:Ha, (remapped st.1 b) as [y|] eqn:Hb; cbn [fst];
    rewrite ?remapped_other, ?Ha, ?Hb by congruence; try done.
  by rewrite insert_insert_ne by done.
Qed.

(** Go ranges over the table of keys in any order. *)
Lemma remap_any_order l k : l ≡ₚ k → NoDup (map fst l) → ∀ st, foldl remapKey st l = foldl remapKey st k.
Proof.
  induction 1 as [|e l k _ IH|a b l|l k m Hp IH1 _ IH2]; intros Hnd st; [done| | |].
  - cbn [map] in Hnd. apply NoDup_cons in Hnd as [_ Hnd]. cbn [foldl]. by apply IH.
  - cbn [map] in Hnd. apply NoDup_cons in Hnd as [Hb _]. cbn [foldl]. rewrite remapKey_comm; [done|]. set_solver.
  - rewrite IH1 by done. apply IH2. by rewrite <-Hp.
Qed.

(** A key of the table gets the new identity of what it names, if that is
    known; all other keys keep their text. *)
Lemma remap_fields l : NoDup (map fst l) → ∀ fields b key,
  (foldl remapKey (fields, b) l).1 !! key =
    match List.find (λ e, e.1 =s key) l with
    | Some e => match remapped fields e with Some text => Some text | None => fields !! key end
    | None => fields !! key
    end.
Proof.
  induction l as [|e l IH]; intros Hnd fields b key; [done|]. cbn [map] in Hnd. apply NoDup_cons in Hnd as [He Hnd].
  cbn [foldl List.find]. unfold remapKey at 2. cbn [fst].
  assert (Hother : ∀ text e', List.find (λ e, e.1 =s key) l = Some e' → remapped (<[ e.1 := text ]> fields) e' = remapped fields e').
  { intros text e' [Hin _]%List.find_some. apply remapped_other. intros Heq. apply He. rewrite <-Heq.
    by apply list_elem_of_fmap_2, list_elem_of_In. }
  destruct (e.1 =s key) eqn:Hk; [apply eqb_string_true in Hk|apply eqb_string_false in Hk].
  - assert (Hfind : List.find (λ e, e.1 =s key) l = None).
    { destruct (List.find _ l) as [e'|] eqn:Hf; [|done]. apply List.find_some in Hf as [Hin Hk']. apply eqb_string_true in Hk'.
      exfalso. apply He. rewrite Hk, <-Hk'. by apply list_elem_of_fmap_2, list_elem_of_In. }
    destruct (remapped fields e) as [text|]; rewrite IH, Hfind by done; [|done]. by rewrite Hk, lookup_insert_eq.
  - destruct (remapped fields e) as [text|]; rewrite IH by done; [|done].
    destruct (List.find _ l) as [e'|] eqn:Hf; [rewrite Hother by done|]; by rewrite lookup_insert_ne.
Qed.

Definition sampleReferences : LogicalEventPayloadReferences :=
  mkPayloadReferences {[ "i" := "I" ]} {[ "a" := "A" ]} ∅ {[ "r" := "R" ]}.
Definition quoted (s : string) : string := of_bytes (map (λ c, if Ascii.eqb c "'" then byte_of 34 else c) (bytes s)).
Example payload_samples :
  RemapLogicalEventPayload "review_requested" (quoted " { 'target_id': 't', 'request_id': 'r', 'note': [1, '<x> y'], 'issue_id' : null}")
    sampleReferences = quoted ("{'issue_id':null,'note':[1,'" +:+ esc "u003cx" +:+ esc "u003e y'],'request_id':'R','target_id':'t'}") ∧
  RemapLogicalEventPayload "issue_created" (quoted "{ 'request_id': 'r'}") sampleReferences = quoted "{ 'request_id': 'r'}" ∧
  RemapLogicalEventPayload "review_requested" (quoted "{ 'request_id': 'q'}") sampleReferences = quoted "{ 'request_id': 'q'}" ∧
  RemapLogicalEventPayload "review_requested" (quoted "[ 'r' ]") sampleReferences = quoted "[ 'r' ]".
Proof. vm_compute. split_and!; reflexivity. Qed.
