(* ===== verification/ImportApply.v ===== *)
(** * Applying an import

    [ApplyLogicalProjectImport] of [internal/adapters/sqlite/projects.go]: one
    write transaction that fills an empty project from the plan of a document.

    The importer restores columns as texts which the rest of the program never
    decodes before it stores them, so the database is modelled here as SQL sees
    it: the row of the project and the rows of all other tables, in the order
    of their insertion, with the columns the importer binds and those that it
    leaves NULL although an export reads them (the sessions, which no document
    has, and the versions of reviews and reservations, which are 1, are left
    out; a nullable column is an option).  Which
    statements the engine refuses, by a constraint of the schema or otherwise,
    is the parameter [SQLiteEngine]; the theorems hold whatever it refuses.  The
    texts of errors of [time.Parse] are the parameter [TimeErrors].

    [sort.Slice] is the parameter [SliceSort]: it sorts, and leaves the order of
    equal elements open. *)

From S2P Require Import Prelude GoStrings Errors Validation Samples Issue Relation Session IssueOps Discussion.
From S2P Require Import Resource Attempt AttemptPolicy Gates Store ReviewStore Encoding Interchange ImportCheck ImportPlan ImportEvents.

(** ** The database *)

Inductive ImportedRow :=
  | LabelColumns (id name : string) (description : option string) (created_at : string)
  | IssueColumns (id : string) (sequence_no : Z) (type title : string) (description acceptance_criteria : option string)
      (status priority : string) (parent_id blocked_reason : option string) (version : Z) (created_at updated_at : string)
      (closed_at : option string)
  | IssueLabelColumns (issue_id label_id : string)
  | RelationColumns (id source_issue_id target_issue_id type created_at : string)
  | CommentColumns (id issue_id content : string) (author_label : option string) (created_at : string)
      (edited_at : option string)
  | DecisionColumns (id : string) (issue_id : option string) (title summary content status : string)
      (supersedes_id : option string) (created_at : string)
  | AttemptColumns (id issue_id : string) (agent_label : option string) (kind status : string)
      (issue_version_at_start context_event_id_at_start : Z) (lease_expires_at started_at last_heartbeat_at : string)
      (finished_at result_summary next_steps_json verification_json failure_reason_code interruption_reason_code
       reason_details : option string)
  | AttemptNoteColumns (id attempt_id kind content : string) (next_steps_json : option string) (important : Z)
      (created_at : string)
  | ArtifactColumns (id issue_id : string) (attempt_id : option string) (type uri : string) (title metadata : option string)
      (created_at : string)
  | EventColumns (id : Z) (issue_id : option string) (event_type : string) (attempt_id : option string)
      (payload created_at source : string)
  | ReviewTargetColumns (id issue_id : string) (issue_version latest_event_id : Z)
      (artifact_ids_json purposes_json created_at : string)
  | ReviewRequestColumns (id target_id issue_id : string) (target_issue_version target_event_id : Z)
      (artifact_ids_json purposes_json status : string) (supersedes_id : option string) (created_at : string)
      (resolved_at : option string)
  | ReviewOutcomeColumns (id request_id attempt_id outcome : string) (reason : option string) (created_at : string)
  | ReservationColumns (id issue_id attempt_id kind display_value comparison_value normalized_json status created_at
      released_at release_reason : string)
  | PolicyColumns (id selector_json requirements_json status : string) (version : Z) (created_at updated_at : string)
  | PolicyEventColumns (policy_id event_type : string) (session_id : option string) (prior_version : option Z) (new_version : Z)
      (payload created_at : string)
  | AttemptSnapshotColumns (attempt_id requirements_json source_policies_json fingerprint : string) (issue_version : Z)
      (created_at : string)
  | TargetSnapshotColumns (target_id requirements_json source_policies_json fingerprint : string) (issue_version : Z)
      (created_at : string)
  | EvidenceColumns (id attempt_id issue_id key result summary : string) (details : option string)
      (artifact_ids_json : string) (version : Z) (created_at updated_at : string)
  | EvidenceEventColumns (evidence_id attempt_id issue_id key event_type : string) (version : Z)
      (payload created_at : string)
  | ApprovalColumns (id issue_id target_id request_id attempt_id purpose : string)
      (target_issue_version target_event_id version : Z) (created_at : string)
  | OtherRow (table : string).

Definition table_of (row : ImportedRow) : string :=
  match row with
  | LabelColumns _ _ _ _ => "labels"
  | IssueColumns _ _ _ _ _ _ _ _ _ _ _ _ _ _ => "issues"
  | IssueLabelColumns _ _ => "issue_labels"
  | RelationColumns _ _ _ _ _ => "issue_relations"
  | CommentColumns _ _ _ _ _ _ => "comments"
  | DecisionColumns _ _ _ _ _ _ _ _ => "decisions"
  | AttemptColumns _ _ _ _ _ _ _ _ _ _ _ _ _ _ _ _ _ => "work_attempts"
  | AttemptNoteColumns _ _ _ _ _ _ _ => "attempt_notes"
  | ArtifactColumns _ _ _ _ _ _ _ _ => "artifacts"
  | EventColumns _ _ _ _ _ _ _ => "issue_events"
  | ReviewTargetColumns _ _ _ _ _ _ _ => "review_targets"
  | ReviewRequestColumns _ _ _ _ _ _ _ _ _ _ _ => "review_requests"
  | ReviewOutcomeColumns _ _ _ _ _ _ => "review_outcomes"
  | ReservationColumns _ _ _ _ _ _ _ _ _ _ _ => "resource_reservations"
  | PolicyColumns _ _ _ _ _ _ _ => "workflow_policies"
  | PolicyEventColumns _ _ _ _ _ _ _ => "workflow_policy_events"
  | AttemptSnapshotColumns _ _ _ _ _ _ => "attempt_gate_snapshots"
  | TargetSnapshotColumns _ _ _ _ _ _ => "review_target_gate_snapshots"
  | EvidenceColumns _ _ _ _ _ _ _ _ _ _ _ => "gate_evidence"
  | EvidenceEventColumns _ _ _ _ _ _ _ _ => "gate_evidence_events"
  | ApprovalColumns _ _ _ _ _ _ _ _ _ _ => "review_approvals"
  | OtherRow table => table
  end.

Record ProjectColumns := mkProjectColumns {
  pcl_Name : option string; pcl_Instructions : option string; pcl_CreatedAt : string; pcl_UpdatedAt : string;
  pcl_NextIssueNumber : Z;
}.
(** [db_LastEventID] is the AUTOINCREMENT counter of issue_events. *)
Record Database := mkDatabase { db_Project : option ProjectColumns; db_Rows : list ImportedRow; db_LastEventID : Z }.

(** The statements of the import that write. *)
Inductive Statement :=
  | DeferForeignKeys
  | UpdateProject (name instructions : option string) (created_at updated_at : string)
  | InsertRow (row : ImportedRow)
  | SetAttemptContext (cursor : Z) (id : string)
  | SetNextIssueNumber (next : Z) (updated_at : string).

Definition with_context (cursor : Z) (attemptID : string) (row : ImportedRow) : ImportedRow :=
  match row with
  | AttemptColumns id a b c d e f g h i j k l m n o p =>
      if id =s attemptID then AttemptColumns id a b c d e cursor g h i j k l m n o p else row
  | _ => row
  end.
Definition effect (statement : Statement) (db : Database) : Database :=
  match statement with
  | DeferForeignKeys => db
  | UpdateProject name instructions created updated =>
      mkDatabase (option_map (λ p, mkProjectColumns name instructions created updated (pcl_NextIssueNumber p)) (db_Project db))
        (db_Rows db) (db_LastEventID db)
  | InsertRow row =>
      mkDatabase (db_Project db) (db_Rows db ++ [row])
        (match row with EventColumns id _ _ _ _ _ _ => id | _ => db_LastEventID db end)
  | SetAttemptContext cursor id => mkDatabase (db_Project db) (map (with_context cursor id) (db_Rows db)) (db_LastEventID db)
  | SetNextIssueNumber next updated =>
      mkDatabase
        (option_map (λ p, mkProjectColumns (pcl_Name p) (pcl_Instructions p) (pcl_CreatedAt p) updated next) (db_Project db))
        (db_Rows db) (db_LastEventID db)
  end.

(** Whether the engine refuses a statement, or a commit, and the error that
    [TranslateError] makes of it; and what an open transaction has become when
    its callback gives up half way. *)
Class SQLiteEngine := {
  refuses : Database → Statement → option DomainError;
  refuses_commit : Database → option DomainError;
  cut_short : Database → Database;
}.
Definition exec `{SQLiteEngine} (statement : Statement) (db : Database) : result Database :=
  match refuses db statement with Some e => Err e | None => Ok (effect statement db) end.

Definition logicalProjectImportDestinationContentTables : list string :=
  ["issues"; "labels"; "issue_labels"; "issue_relations"; "comments"; "decisions"; "work_attempts"; "attempt_notes";
   "artifacts"; "issue_events"; "review_targets"; "review_requests"; "review_outcomes"; "review_follow_ups";
   "review_approvals"; "resource_reservations"; "workflow_policies"; "workflow_policy_events"; "attempt_gate_snapshots";
   "review_target_gate_snapshots"; "gate_evidence"; "gate_evidence_events"].
Definition hasLogicalProjectImportDestinationContent (db : Database) : bool :=
  existsb (λ row, bool_decide (table_of row ∈ logicalProjectImportDestinationContentTables)) (db_Rows db).

(** [SELECT COALESCE(MAX(id), 0) FROM issue_events]. *)
Definition event_ids (db : Database) : list Z :=
  omap (λ row, match row with EventColumns id _ _ _ _ _ _ => Some id | _ => None end) (db_Rows db).
Definition latestIssueEventID (db : Database) : Z :=
  match event_ids db with [] => 0%Z | id :: ids => foldl Z.max id ids end.

(** ** Columns *)

Class TimeErrors := { time_error : string → string }.

Definition corruptLogicalProjectField (cause field code : string) : DomainError :=
  WrapError cause CodeStorageCorrupt "stored logical project export is invalid" false [mkDetail None field code ""].

(** [parseStorageTime]: any RFC 3339 time at the offset of UTC. *)
Definition parseStorageTime (value : string) : option Z :=
  '(t, _, offset) ← time_value value; if (offset =? 0)%Z then Some t else None.
Definition parseLogicalProjectTimestamp `{TimeErrors} (field value : string) : result Z :=
  match parseStorageTime value with
  | Some t => Ok t
  | None => Err (corruptLogicalProjectField (time_error value) field "INVALID_TIMESTAMP")
  end.
(** Parsed and formatted again, as a column has it. *)
Definition timeColumn `{TimeErrors} (field value : string) : result string :=
  t ← parseLogicalProjectTimestamp field value; Ok (formatStorageTime t).
Definition optionalTimeColumn `{TimeErrors} (field : string) (value : option string) : result (option string) :=
  match value with
  | None => Ok None
  | Some value => column ← timeColumn field value; Ok (Some column)
  end.

Definition marshal_strings (l : list string) : string := json_print (JArray (map JString l)).
(** A list of strings, NULL when it is empty. *)
Definition stringsColumn (l : option (list string)) : option string :=
  match l with Some (x :: l) => Some (marshal_strings (x :: l)) | _ => None end.

Definition missingDestination (what : string) : DomainError :=
  NewError CodeStorageCorrupt ("import plan is missing a destination " +:+ what +:+ " identifier") false [].
Definition requireDestinations {A} (id : A → string) (items : list A) (destIDs : gmap string string) (what : string) : result unit :=
  fail_if existsb (λ x, negb (isSet (destIDs !! id x))) items with missingDestination what ;; Ok tt.

Definition marshalImportedArtifactIDs (artifactIDs : option (list string)) (destinationIDs : gmap string string) : result string :=
  remapped ← collect (λ artifactID,
    fail_if at_key destinationIDs artifactID =s "" with missingDestination "artifact" ;;
    Ok (at_key destinationIDs artifactID)) (default [] artifactIDs);
  Ok (marshal_strings remapped).

Definition logicalPurposesJSONForImport `{UnicodeTables} (purposes : option (list string)) : result string :=
  match purposes with
  | None => Ok (marshal_strings DefaultReviewPurposes)
  | Some purposes => normalized ← ValidateReviewPurposes purposes; Ok (marshal_strings normalized)
  end.

Definition nullableStringFromRawMessage (value : string) : option string := if value =s "" then None else Some value.
Definition boolToInt (value : bool) : Z := if value then 1 else 0.

Section columns.
Context `{UnicodeTables, ULID, TimeErrors}.
Context (dest : LogicalProjectImportDestinationIDs).

(** ** Rows *)

Definition labelRow (label : LogicalLabel) : result ImportedRow :=
  created ← timeColumn "labels.created_at" (lla_CreatedAt label);
  Ok (LabelColumns (at_key (di_LabelIDs dest) (lla_ID label)) (lla_Name label) (lla_Description label) created).

(** [next] is the first number of the import. *)
Definition issueRow (next : Z) (entry : Z * LogicalIssue) : result ImportedRow :=
  let '(index, issue) := entry in
  created ← timeColumn "issues.created_at" (lis_CreatedAt issue);
  updated ← timeColumn "issues.updated_at" (lis_UpdatedAt issue);
  let parentID := parent ← lis_ParentID issue; di_IssueIDs dest !! parent in
  try CreateIssueInput_Validate
        (mkCreate (lis_Type issue) (lis_Title issue) (lis_Description issue) (lis_AcceptanceCriteria issue) (lis_Status issue)
           (lis_Priority issue) parentID (lis_BlockedReason issue) [] false None) ;;
  Ok (IssueColumns (at_key (di_IssueIDs dest) (lis_ID issue)) (next + index) (lis_Type issue) (lis_Title issue)
        (lis_Description issue) (lis_AcceptanceCriteria issue) (lis_Status issue) (lis_Priority issue) parentID
        (lis_BlockedReason issue) (LogicalIssueVersionForImport (lis_Version issue)) created updated None).

Definition issueLabelRow (link : LogicalIssueLabel) : result ImportedRow :=
  Ok (IssueLabelColumns (at_key (di_IssueIDs dest) (lil_IssueID link)) (at_key (di_LabelIDs dest) (lil_LabelID link))).

Definition relationRow (relation : LogicalRelation) : result ImportedRow :=
  created ← timeColumn "relations.created_at" (lre_CreatedAt relation);
  let '(sourceID, targetID) := CanonicalRelationEndpoints (lre_Type relation)
    (at_key (di_IssueIDs dest) (lre_SourceIssueID relation)) (at_key (di_IssueIDs dest) (lre_TargetIssueID relation)) in
  Ok (RelationColumns (at_key (di_RelationIDs dest) (lre_ID relation)) sourceID targetID (lre_Type relation) created).

Definition commentRow (comment : LogicalComment) : result ImportedRow :=
  created ← timeColumn "comments.created_at" (lco_CreatedAt comment);
  edited ← optionalTimeColumn "comments.edited_at" (lco_EditedAt comment);
  Ok (CommentColumns (at_key (di_CommentIDs dest) (lco_ID comment)) (at_key (di_IssueIDs dest) (lco_IssueID comment))
        (lco_Content comment) None created edited).

Definition decisionRow (decision : LogicalDecision) : result ImportedRow :=
  created ← timeColumn "decisions.created_at" (lde_CreatedAt decision);
  Ok (DecisionColumns (at_key (di_DecisionIDs dest) (lde_ID decision)) (option_map (at_key (di_IssueIDs dest)) (lde_IssueID decision))
        (lde_Title decision) (lde_Summary decision) (lde_Content decision) (lde_Status decision)
        (option_map (at_key (di_DecisionIDs dest)) (lde_SupersedesID decision)) created).

Definition attemptRow (attempt : LogicalAttempt) : result ImportedRow :=
  started ← timeColumn "attempts.started_at" (lat_StartedAt attempt);
  lease ← timeColumn "attempts.lease_expires_at" (lat_LeaseExpiresAt attempt);
  heartbeat ← timeColumn "attempts.last_heartbeat_at" (lat_LastHeartbeatAt attempt);
  finished ← optionalTimeColumn "attempts.finished_at" (lat_FinishedAt attempt);
  Ok (AttemptColumns (at_key (di_AttemptIDs dest) (lat_ID attempt)) (at_key (di_IssueIDs dest) (lat_IssueID attempt))
        (lat_AgentLabel attempt) (lat_Kind attempt) (lat_Status attempt) (lat_IssueVersionAtStart attempt)
        (lat_ContextEventIDAtStart attempt) lease started heartbeat finished (lat_ResultSummary attempt)
        (stringsColumn (lat_NextSteps attempt)) (stringsColumn (lat_Verification attempt)) (lat_FailureReasonCode attempt)
        (lat_InterruptionReasonCode attempt) (lat_ReasonDetails attempt)).

Definition attemptNoteRow (note : LogicalAttemptNote) : result ImportedRow :=
  created ← timeColumn "attempt_notes.created_at" (lno_CreatedAt note);
  Ok (AttemptNoteColumns (at_key (di_AttemptNoteIDs dest) (lno_ID note)) (at_key (di_AttemptIDs dest) (lno_AttemptID note))
        (lno_Kind note) (lno_Content note) (stringsColumn (lno_NextSteps note)) (boolToInt (lno_Important note)) created).

Definition artifactRow (artifact : LogicalArtifact) : result ImportedRow :=
  created ← timeColumn "artifacts.created_at" (lar_CreatedAt artifact);
  Ok (ArtifactColumns (at_key (di_ArtifactIDs dest) (lar_ID artifact)) (at_key (di_IssueIDs dest) (lar_IssueID artifact))
        (option_map (at_key (di_AttemptIDs dest)) (lar_AttemptID artifact)) (lar_Type artifact) (lar_URI artifact)
        (lar_Title artifact) (nullableStringFromRawMessage (lar_Metadata artifact)) created).

(** The row of an event under the identifier the engine gives it. *)
Definition eventRow (id : Z) (event : LogicalEvent) : result ImportedRow :=
  created ← timeColumn "events.created_at" (lev_CreatedAt event);
  let source := if lev_Source event =s "" then LogicalEventSourceIssue else lev_Source event in
  let payload := RemapLogicalEventPayload (lev_EventType event) (lev_Payload event)
    (mkPayloadReferences (di_IssueIDs dest) (di_AttemptIDs dest) (di_ReviewTargetIDs dest) (di_ReviewRequestIDs dest)) in
  Ok (EventColumns id (option_map (at_key (di_IssueIDs dest)) (lev_IssueID event)) (lev_EventType event)
        (option_map (at_key (di_AttemptIDs dest)) (lev_AttemptID event)) payload created source).

Section after_events.
Context (eventCursors : LogicalEventCursorMapping).

Definition reviewTargetRow (target : LogicalReviewTarget) : result ImportedRow :=
  created ← timeColumn "review_targets.created_at" (lrt_CreatedAt target);
  artifacts ← marshalImportedArtifactIDs (lrt_ArtifactIDs target) (di_ArtifactIDs dest);
  purposes ← logicalPurposesJSONForImport (lrt_Purposes target);
  Ok (ReviewTargetColumns (at_key (di_ReviewTargetIDs dest) (lrt_ID target)) (at_key (di_IssueIDs dest) (lrt_IssueID target))
        (lrt_IssueVersion target) (Remap eventCursors (lrt_LatestEventID target)) artifacts purposes created).

Definition reviewRequestRow (request : LogicalReviewRequest) : result ImportedRow :=
  created ← timeColumn "review_requests.created_at" (lrr_CreatedAt request);
  resolved ← optionalTimeColumn "review_requests.resolved_at" (lrr_ResolvedAt request);
  artifacts ← marshalImportedArtifactIDs (lrr_ArtifactIDs request) (di_ArtifactIDs dest);
  purposes ← logicalPurposesJSONForImport (lrr_Purposes request);
  Ok (ReviewRequestColumns (at_key (di_ReviewRequestIDs dest) (lrr_ID request))
        (at_key (di_ReviewTargetIDs dest) (lrr_TargetID request)) (at_key (di_IssueIDs dest) (lrr_IssueID request))
        (lrr_TargetIssueVersion request) (Remap eventCursors (lrr_TargetEventID request)) artifacts purposes
        (lrr_Status request) (option_map (at_key (di_ReviewRequestIDs dest)) (lrr_SupersedesID request)) created resolved).

Definition approvalRow (approval : LogicalReviewApproval) : result ImportedRow :=
  created ← timeColumn "gates.review_approvals.created_at" (lra_CreatedAt approval);
  Ok (ApprovalColumns (at_key (di_ReviewApprovalIDs dest) (lra_ID approval)) (at_key (di_IssueIDs dest) (lra_IssueID approval))
        (at_key (di_ReviewTargetIDs dest) (lra_TargetID approval)) (at_key (di_ReviewRequestIDs dest) (lra_RequestID approval))
        (at_key (di_AttemptIDs dest) (lra_AttemptID approval)) (lra_Purpose approval) (lra_TargetIssueVersion approval)
        (Remap eventCursors (lra_TargetEventID approval)) (lra_Version approval) created).
End after_events.

Definition reviewOutcomeRow (outcome : LogicalReviewOutcome) : result ImportedRow :=
  created ← timeColumn "review_outcomes.created_at" (lro_CreatedAt outcome);
  Ok (ReviewOutcomeColumns (at_key (di_ReviewOutcomeIDs dest) (lro_ID outcome))
        (at_key (di_ReviewRequestIDs dest) (lro_RequestID outcome)) (at_key (di_AttemptIDs dest) (lro_AttemptID outcome))
        (lro_Outcome outcome) (lro_Reason outcome) created).

Definition importedReservation (reservation : LogicalReservation) : result ImportedRow :=
  created ← timeColumn "reservations.created_at" (lrs_CreatedAt reservation);
  released ← timeColumn "reservations.released_at" (lrs_ReleasedAt reservation);
  Ok (ReservationColumns (at_key (di_ReservationIDs dest) (lrs_ID reservation)) (at_key (di_IssueIDs dest) (lrs_IssueID reservation))
        (at_key (di_AttemptIDs dest) (lrs_AttemptID reservation)) (lrs_Kind reservation) (lrs_DisplayValue reservation)
        (lrs_ComparisonValue reservation) (lrs_NormalizedJSON reservation) (lrs_Status reservation) created released
        (lrs_ReleaseReason reservation)).

Definition policyRow (policy : LogicalWorkflowPolicy) : result ImportedRow :=
  created ← timeColumn "gates.policies.created_at" (lwp_CreatedAt policy);
  updated ← timeColumn "gates.policies.updated_at" (lwp_UpdatedAt policy);
  Ok (PolicyColumns (at_key (di_WorkflowPolicyIDs dest) (lwp_ID policy)) (lwp_SelectorJSON policy) (lwp_RequirementsJSON policy)
        (lwp_Status policy) (lwp_Version policy) created updated).

Definition policyEventRow (event : LogicalWorkflowPolicyEvent) : result ImportedRow :=
  created ← timeColumn "gates.policy_events.created_at" (lpe_CreatedAt event);
  Ok (PolicyEventColumns (at_key (di_WorkflowPolicyIDs dest) (lpe_PolicyID event)) (lpe_EventType event) None (lpe_PriorVersion event)
        (lpe_NewVersion event) (lpe_Payload event) created).

Definition attemptSnapshotRow (snapshot : LogicalAttemptGateSnapshot) : result ImportedRow :=
  created ← timeColumn "gates.attempt_snapshots.created_at" (las_CreatedAt snapshot);
  Ok (AttemptSnapshotColumns (at_key (di_AttemptIDs dest) (las_AttemptID snapshot)) (las_RequirementsJSON snapshot)
        (las_SourcePoliciesJSON snapshot) (las_Fingerprint snapshot) (las_IssueVersion snapshot) created).

(** The snapshot of a target: the document's, or the empty one. *)
Definition emptySnapshot (target : LogicalReviewTarget) : LogicalReviewTargetGateSnapshot :=
  mkLogicalReviewTargetGateSnapshot (lrt_ID target) "[]" "[]"
    "0000000000000000000000000000000000000000000000000000000000000000" (lrt_IssueVersion target) (lrt_CreatedAt target).
Definition targetSnapshotRow (snapshots : list LogicalReviewTargetGateSnapshot) (target : LogicalReviewTarget) : result ImportedRow :=
  let snapshot := default (emptySnapshot target) (index_by lts_TargetID id snapshots !! lrt_ID target) in
  created ← timeColumn "gates.review_target_snapshots.created_at" (lts_CreatedAt snapshot);
  Ok (TargetSnapshotColumns (at_key (di_ReviewTargetIDs dest) (lrt_ID target)) (lts_RequirementsJSON snapshot)
        (lts_SourcePoliciesJSON snapshot) (lts_Fingerprint snapshot) (lts_IssueVersion snapshot) created).

Definition evidenceRow (evidence : LogicalGateEvidence) : result ImportedRow :=
  created ← timeColumn "gates.evidence.created_at" (lge_CreatedAt evidence);
  updated ← timeColumn "gates.evidence.updated_at" (lge_UpdatedAt evidence);
  artifacts ← marshalImportedArtifactIDs (lge_ArtifactIDs evidence) (di_ArtifactIDs dest);
  Ok (EvidenceColumns (at_key (di_GateEvidenceIDs dest) (lge_ID evidence)) (at_key (di_AttemptIDs dest) (lge_AttemptID evidence))
        (at_key (di_IssueIDs dest) (lge_IssueID evidence)) (lge_Key evidence) (lge_Result evidence) (lge_Summary evidence)
        (lge_Details evidence) artifacts (lge_Version evidence) created updated).

Definition evidenceEventRow (event : LogicalGateEvidenceEvent) : result ImportedRow :=
  created ← timeColumn "gates.evidence_events.created_at" (lee_CreatedAt event);
  Ok (EvidenceEventColumns (at_key (di_GateEvidenceIDs dest) (lee_EvidenceID event)) (at_key (di_AttemptIDs dest) (lee_AttemptID event))
        (at_key (di_IssueIDs dest) (lee_IssueID event)) (lee_Key event) (lee_EventType event) (lee_Version event)
        (lee_Payload event) created).
End columns.

(** ** The transaction *)

(** [sort.Slice], which is not stable: some sorted permutation. *)
Class SliceSort := sort_Slice : ∀ {A : Type}, (A → A → bool) → list A → list A.
Class SliceSortLaws `{SliceSort} : Prop := {
  sort_Slice_Permutation {A} (less : A → A → bool) l : sort_Slice less l ≡ₚ l;
  sort_Slice_sorted {A} (less : A → A → bool) l :
    (∀ x y, less x y = true → less y x = false) →
    (∀ x y z, not_less less x y → not_less less y z → not_less less x z) →
    StronglySorted (not_less less) (sort_Slice less l);
}.

(** One statement per record, in order. *)
Fixpoint insertEach `{SQLiteEngine} {A} (row : A → result ImportedRow) (items : list A) (db : Database) : result Database :=
  match items with
  | [] => Ok db
  | x :: items => columns ← row x; db ← exec (InsertRow columns) db; insertEach row items db
  end.

(** A refused relation is reported at its place in the document. *)
Definition logicalImportRelationWriteError (e : DomainError) (index : Z) : DomainError :=
  if e_Code e =s CodeStorageConstraint
  then WrapError (default "" (e_cause e)) (e_Code e) (e_Message e) (e_Retryable e)
         (e_Details e ++ [mkDetail (Some index) ("$.relations[" +:+ Itoa index +:+ "]") "IMPORT_STORAGE_CONSTRAINT"
            "relation violates a storage constraint"])
  else e.

Section transaction.
Context `{UnicodeTables, ULID, TimeErrors, SQLiteEngine, SliceSort}.

Fixpoint insertRelations (dest : LogicalProjectImportDestinationIDs) (index : Z) (relations : list LogicalRelation) (db : Database) :
    result Database :=
  match relations with
  | [] => Ok db
  | relation :: relations =>
      columns ← relationRow dest relation;
      match exec (InsertRow columns) db with
      | Err e => Err (logicalImportRelationWriteError e index)
      | Ok db => insertRelations dest (index + 1) relations db
      end
  end.

(** Replaying events, with the identifiers they had and got. *)
Fixpoint insertEvents (dest : LogicalProjectImportDestinationIDs) (events : list LogicalEvent)
    (eventCursorEntries : list LogicalEventCursorEntry) (db : Database) : result (list LogicalEventCursorEntry * Database) :=
  match events with
  | [] => Ok (eventCursorEntries, db)
  | event :: events =>
      let destinationEventID := (db_LastEventID db + 1)%Z in
      columns ← eventRow dest destinationEventID event;
      db ← exec (InsertRow columns) db;
      insertEvents dest events (eventCursorEntries ++ [mkCursorEntry (lev_SourceID event) destinationEventID]) db
  end.

Fixpoint remapAttempts (dest : LogicalProjectImportDestinationIDs) (eventCursors : LogicalEventCursorMapping)
    (attempts : list LogicalAttempt) (db : Database) : result Database :=
  match attempts with
  | [] => Ok db
  | attempt :: attempts =>
      db ← exec (SetAttemptContext (Remap eventCursors (lat_ContextEventIDAtStart attempt))
                   (at_key (di_AttemptIDs dest) (lat_ID attempt))) db;
      remapAttempts dest eventCursors attempts db
  end.

Definition eventSourceLess (a b : LogicalEvent) : bool := (lev_SourceID a <? lev_SourceID b)%Z.

Definition importCore (dest : LogicalProjectImportDestinationIDs) (d : LogicalProjectDocument) (nextIssueNumber : Z)
    (db : Database) : result Database :=
  try requireDestinations lis_ID (ldo_Issues d) (di_IssueIDs dest) "issue" ;;
  try requireDestinations lla_ID (ldo_Labels d) (di_LabelIDs dest) "label" ;;
  try requireDestinations lre_ID (ldo_Relations d) (di_RelationIDs dest) "relation" ;;
  try requireDestinations lco_ID (ldo_Comments d) (di_CommentIDs dest) "comment" ;;
  try requireDestinations lde_ID (ldo_Decisions d) (di_DecisionIDs dest) "decision" ;;
  try requireDestinations lat_ID (ldo_Attempts d) (di_AttemptIDs dest) "attempt" ;;
  try requireDestinations lno_ID (ldo_AttemptNotes d) (di_AttemptNoteIDs dest) "attempt note" ;;
  try requireDestinations lar_ID (ldo_Artifacts d) (di_ArtifactIDs dest) "artifact" ;;
  db ← insertEach (labelRow dest) (ldo_Labels d) db;
  db ← insertEach (issueRow dest nextIssueNumber) (enumerate (ldo_Issues d)) db;
  db ← insertEach (issueLabelRow dest) (ldo_IssueLabels d) db;
  db ← insertRelations dest 0 (ldo_Relations d) db;
  db ← insertEach (commentRow dest) (ldo_Comments d) db;
  db ← insertEach (decisionRow dest) (ldo_Decisions d) db;
  db ← insertEach (attemptRow dest) (ldo_Attempts d) db;
  db ← insertEach (attemptNoteRow dest) (ldo_AttemptNotes d) db;
  insertEach (artifactRow dest) (ldo_Artifacts d) db.

Definition importReviews (dest : LogicalProjectImportDestinationIDs) (d : LogicalProjectDocument)
    (eventCursors : LogicalEventCursorMapping) (db : Database) : result Database :=
  try requireDestinations lrt_ID (ldo_ReviewTargets d) (di_ReviewTargetIDs dest) "review target" ;;
  try requireDestinations lrr_ID (ldo_ReviewRequests d) (di_ReviewRequestIDs dest) "review request" ;;
  try requireDestinations lro_ID (ldo_ReviewOutcomes d) (di_ReviewOutcomeIDs dest) "review outcome" ;;
  db ← insertEach (reviewTargetRow dest eventCursors) (ldo_ReviewTargets d) db;
  db ← insertEach (reviewRequestRow dest eventCursors) (ldo_ReviewRequests d) db;
  insertEach (reviewOutcomeRow dest) (ldo_ReviewOutcomes d) db.

Context `{JSONErrors}.

Definition importReservations (dest : LogicalProjectImportDestinationIDs) (d : LogicalProjectDocument) (db : Database) :
    result Database :=
  reservations ← DecodeReservationsExtension d;
  try requireDestinations lrs_ID reservations (di_ReservationIDs dest) "reservation" ;;
  insertEach (importedReservation dest) reservations db.

Definition importGates (dest : LogicalProjectImportDestinationIDs) (d : LogicalProjectDocument)
    (eventCursors : LogicalEventCursorMapping) (db : Database) : result Database :=
  gates ← DecodeGatesExtension d;
  try requireDestinations lwp_ID (lgx_Policies gates) (di_WorkflowPolicyIDs dest) "workflow policy" ;;
  try requireDestinations lge_ID (lgx_Evidence gates) (di_GateEvidenceIDs dest) "gate evidence" ;;
  try requireDestinations lra_ID (lgx_ReviewApprovals gates) (di_ReviewApprovalIDs dest) "review approval" ;;
  db ← insertEach (policyRow dest) (lgx_Policies gates) db;
  db ← insertEach (policyEventRow dest) (lgx_PolicyEvents gates) db;
  db ← insertEach (attemptSnapshotRow dest) (lgx_AttemptSnapshots gates) db;
  db ← insertEach (targetSnapshotRow dest (lgx_ReviewTargetSnapshots gates)) (ldo_ReviewTargets d) db;
  db ← insertEach (evidenceRow dest) (lgx_Evidence gates) db;
  db ← insertEach (evidenceEventRow dest) (lgx_EvidenceEvents gates) db;
  insertEach (approvalRow dest eventCursors) (lgx_ReviewApprovals gates) db.

(** The records of a document, from an updated project row on. *)
Definition importRecords (dest : LogicalProjectImportDestinationIDs) (d : LogicalProjectDocument) (nextIssueNumber : Z)
    (updated : string) (db : Database) : result Database :=
  db ← importCore dest d nextIssueNumber db;
  replayed ← insertEvents dest (sort_Slice eventSourceLess (ldo_Events d)) [] db;
  let eventCursors := NewLogicalEventCursorMapping replayed.1 in
  db ← remapAttempts dest eventCursors (ldo_Attempts d) replayed.2;
  db ← importReviews dest d eventCursors db;
  db ← importReservations dest d db;
  db ← importGates dest d eventCursors db;
  if null (ldo_Issues d) then Ok db
  else exec (SetNextIssueNumber (nextIssueNumber + count (ldo_Issues d)) updated) db.

Record LogicalProjectImportApplyResult := mkApplyResult {
  apr_Counts : LogicalProjectImportCounts;
  apr_Conflicts : list LogicalProjectImportConflict;
  apr_LatestEventID : Z;
}.
Definition destinationConflict : LogicalProjectImportConflict :=
  mkImportConflict "empty_destination_required" "destination project must be empty for this import" "$.destination".

Definition applyImportTx (plan : LogicalProjectImportPlan) (db : Database) : result (LogicalProjectImportApplyResult * Database) :=
  let d := ip_Document plan in
  let counts := dr_Counts (ip_DryRun plan) in
  db ← exec DeferForeignKeys db;
  if hasLogicalProjectImportDestinationContent db
  then Ok (mkApplyResult counts [destinationConflict] (latestIssueEventID db), db)
  else
    created ← timeColumn "project.created_at" (lpr_CreatedAt (ldo_Project d));
    updated ← timeColumn "project.updated_at" (lpr_UpdatedAt (ldo_Project d));
    db ← exec (UpdateProject (lpr_Name (ldo_Project d)) (lpr_Instructions (ldo_Project d)) created updated) db;
    match db_Project db with
    | None => Err sqlNoRows
    | Some project =>
        db ← importRecords (ip_DestinationIDs plan) d (pcl_NextIssueNumber project) updated db;
        Ok (mkApplyResult counts [] (latestIssueEventID db), db)
    end.

(** [DB.writeOnce] on a connection: BEGIN IMMEDIATE opens a copy of what is
    committed, which the statements of the callback work on; COMMIT, which the
    engine may refuse, makes it what is committed, and ROLLBACK drops it. *)
Record Connection := mkConnection { cn_Committed : Database; cn_Open : option Database }.
Definition BeginImmediate (c : Connection) : Connection := mkConnection (cn_Committed c) (Some (cn_Committed c)).
Definition Commit (c : Connection) : result Connection :=
  match cn_Open c with
  | None => Err sqlNoRows
  | Some db => match refuses_commit db with Some e => Err e | None => Ok (mkConnection db None) end
  end.
Definition rollback (c : Connection) : Connection := mkConnection (cn_Committed c) None.
Definition callback {A} (fn : Database → result (A * Database)) (c : Connection) : result A * Connection :=
  let db := default (cn_Committed c) (cn_Open c) in
  match fn db with
  | Ok (a, db') => (Ok a, mkConnection (cn_Committed c) (Some db'))
  | Err e => (Err e, mkConnection (cn_Committed c) (Some (cut_short db)))
  end.
Definition writeOnce {A} (fn : Database → result (A * Database)) (c : Connection) : result A * Connection :=
  let '(r, c) := callback fn (BeginImmediate c) in
  match r with
  | Err e => (Err e, rollback c)
  | Ok a => match Commit c with Err e => (Err e, rollback c) | Ok c => (Ok a, c) end
  end.

Definition ApplyLogicalProjectImport (plan : LogicalProjectImportPlan) (db : Database) :
    result LogicalProjectImportApplyResult * Database :=
  let '(r, c) := writeOnce (applyImportTx plan) (mkConnection db None) in (r, cn_Committed c).

(** The service: parse, draw identifiers, apply. *)
Definition ImportProject `{URLParser, UnicodeCase} {G} (generate : G → result (string * G)) (document : string) (g : G)
    (db : Database) : result LogicalProjectImportApplyResult * Database :=
  match prepareImport generate document g with
  | Err e => (Err e, db)
  | Ok (plan, _) => ApplyLogicalProjectImport plan db
  end.
End transaction.
