(* ===== verification/ImportStored.v ===== *)
(** * What an import stores

    The lemmas behind the guarantees of [ApplyLogicalProjectImport]: which rows
    each loop of the transaction leaves in its table ([stored]), and that the
    loops do not disturb one another. *)

From S2P Require Import Prelude GoStrings Errors Validation Samples Issue Relation Session IssueOps Discussion.
From S2P Require Import Resource Attempt AttemptPolicy Gates Store ReviewStore Encoding Interchange ImportCheck ImportClosed ImportPlan.
From S2P Require Import ImportDestination ImportEvents ImportApply.

(** The functions that make rows. *)
Create HintDb import_rows.
#[export] Hint Unfold labelRow issueRow issueLabelRow relationRow commentRow decisionRow attemptRow attemptNoteRow artifactRow
  eventRow reviewTargetRow reviewRequestRow reviewOutcomeRow importedReservation policyRow policyEventRow attemptSnapshotRow
  targetSnapshotRow evidenceRow evidenceEventRow approvalRow : import_rows.

(** ** Tables *)

Definition table_rows (table : string) (rows : list ImportedRow) : list ImportedRow :=
  List.filter (λ row, table_of row =s table) rows.
(** The rows of one table of a database, in the order of their insertion. *)
Definition table_in (db : Database) (table : string) : list ImportedRow := table_rows table (db_Rows db).

(** One row per record, in order. *)
Definition stored {A} (row : A → result ImportedRow) (items : list A) (rows : list ImportedRow) : Prop :=
  Forall2 (λ x columns, row x = Ok columns) items rows.

(** Rows of one table. *)
Definition chunk (table : string) (rows : list ImportedRow) : Prop := Forall (λ row, table_of row = table) rows.

Lemma table_rows_app table l k : table_rows table (l ++ k) = table_rows table l ++ table_rows table k.
Proof. apply List.filter_app. Qed.
Lemma table_rows_chunk table table' rows : chunk table' rows → table_rows table rows = if table' =s table then rows else [].
Proof.
  unfold table_rows. induction 1 as [|row rows Hrow _ IH]; cbn [List.filter]; [by destruct (_ =s _)|].
  rewrite Hrow, IH. by destruct (table' =s table).
Qed.
Lemma elem_of_table_rows table rows row : row ∈ table_rows table rows ↔ row ∈ rows ∧ table_of row = table.
Proof. unfold table_rows. rewrite elem_of_filter_list, eqb_string_true. done. Qed.

Lemma stored_chunk {A} table (row : A → result ImportedRow) items rows :
  (∀ x columns, row x = Ok columns → table_of columns = table) → stored row items rows → chunk table rows.
Proof. intros Ht. unfold chunk. induction 1 as [|x columns items rows Hx _ IH]; constructor; [by eapply Ht|done]. Qed.
Lemma stored_row {A} (row : A → result ImportedRow) items rows columns :
  stored row items rows → columns ∈ rows → ∃ x, x ∈ items ∧ row x = Ok columns.
Proof.
  intros Hs (i & Hi)%list_elem_of_lookup. destruct (Forall2_lookup_r _ _ _ _ _ Hs Hi) as (x & Hx & Hr).
  exists x. split; [by eapply list_elem_of_lookup_2|done].
Qed.
Lemma stored_item {A} (row : A → result ImportedRow) items rows x :
  stored row items rows → x ∈ items → ∃ columns, columns ∈ rows ∧ row x = Ok columns.
Proof.
  intros Hs (i & Hi)%list_elem_of_lookup. destruct (Forall2_lookup_l _ _ _ _ _ Hs Hi) as (r & Hx & Hr).
  exists r. split; [by eapply list_elem_of_lookup_2|done].
Qed.
Lemma stored_change {A} (row row' : A → result ImportedRow) (f : ImportedRow → ImportedRow) items rows :
  stored row items rows → (∀ x columns, x ∈ items → row x = Ok columns → row' x = Ok (f columns)) → stored row' items (map f rows).
Proof.
  unfold stored. induction 1 as [|x columns items rows Hx _ IH]; intros Hf; cbn; constructor; [by apply Hf; [left|]|].
  apply IH. intros y columns' Hy. apply Hf. by right.
Qed.
Lemma stored_length {A} (row : A → result ImportedRow) items rows : stored row items rows → length rows = length items.
Proof. intros Hs. symmetry. by eapply Forall2_length. Qed.

(** ** Keys and foreign keys

    [internal/migrations/sql]: the primary keys, and the REFERENCES of the
    columns an import binds.  The two event tables whose key the importer leaves
    to the engine ([AUTOINCREMENT]) and never reads have none here. *)

(** An identifier, the pair of [issue_labels], the number of an event. *)
Inductive PrimaryKey := IdKey (id : string) | PairKey (first second : string) | NumberKey (id : Z).
#[export] Instance PrimaryKey_eq_dec : EqDecision PrimaryKey.
Proof. solve_decision. Defined.

Definition row_key (row : ImportedRow) : option (string * PrimaryKey) :=
  match row with
  | LabelColumns id _ _ _ => Some ("labels", IdKey id)
  | IssueColumns id _ _ _ _ _ _ _ _ _ _ _ _ _ => Some ("issues", IdKey id)
  | IssueLabelColumns issue label => Some ("issue_labels", PairKey issue label)
  | RelationColumns id _ _ _ _ => Some ("issue_relations", IdKey id)
  | CommentColumns id _ _ _ _ _ => Some ("comments", IdKey id)
  | DecisionColumns id _ _ _ _ _ _ _ => Some ("decisions", IdKey id)
  | AttemptColumns id _ _ _ _ _ _ _ _ _ _ _ _ _ _ _ _ => Some ("work_attempts", IdKey id)
  | AttemptNoteColumns id _ _ _ _ _ _ => Some ("attempt_notes", IdKey id)
  | ArtifactColumns id _ _ _ _ _ _ _ => Some ("artifacts", IdKey id)
  | EventColumns id _ _ _ _ _ _ => Some ("issue_events", NumberKey id)
  | ReviewTargetColumns id _ _ _ _ _ _ => Some ("review_targets", IdKey id)
  | ReviewRequestColumns id _ _ _ _ _ _ _ _ _ _ => Some ("review_requests", IdKey id)
  | ReviewOutcomeColumns id _ _ _ _ _ => Some ("review_outcomes", IdKey id)
  | ReservationColumns id _ _ _ _ _ _ _ _ _ _ => Some ("resource_reservations", IdKey id)
  | PolicyColumns id _ _ _ _ _ _ => Some ("workflow_policies", IdKey id)
  | AttemptSnapshotColumns attempt _ _ _ _ _ => Some ("attempt_gate_snapshots", IdKey attempt)
  | TargetSnapshotColumns target _ _ _ _ _ => Some ("review_target_gate_snapshots", IdKey target)
  | EvidenceColumns id _ _ _ _ _ _ _ _ _ _ => Some ("gate_evidence", IdKey id)
  | ApprovalColumns id _ _ _ _ _ _ _ _ _ => Some ("review_approvals", IdKey id)
  | PolicyEventColumns _ _ _ _ _ _ _ | EvidenceEventColumns _ _ _ _ _ _ _ _ | OtherRow _ => None
  end.

Definition optional_key (table : string) (id : option string) : list (string * PrimaryKey) :=
  match id with Some id => [(table, IdKey id)] | None => [] end.
Definition row_references (row : ImportedRow) : list (string * PrimaryKey) :=
  match row with
  | IssueColumns _ _ _ _ _ _ _ _ parent _ _ _ _ _ => optional_key "issues" parent
  | IssueLabelColumns issue label => [("issues", IdKey issue); ("labels", IdKey label)]
  | RelationColumns _ source target _ _ => [("issues", IdKey source); ("issues", IdKey target)]
  | CommentColumns _ issue _ _ _ _ => [("issues", IdKey issue)]
  | DecisionColumns _ issue _ _ _ _ supersedes _ => optional_key "issues" issue ++ optional_key "decisions" supersedes
  | AttemptColumns _ issue _ _ _ _ _ _ _ _ _ _ _ _ _ _ _ => [("issues", IdKey issue)]
  | AttemptNoteColumns _ attempt _ _ _ _ _ => [("work_attempts", IdKey attempt)]
  | ArtifactColumns _ issue attempt _ _ _ _ _ => ("issues", IdKey issue) :: optional_key "work_attempts" attempt
  | EventColumns _ issue _ attempt _ _ _ => optional_key "issues" issue ++ optional_key "work_attempts" attempt
  | ReviewTargetColumns _ issue _ _ _ _ _ => [("issues", IdKey issue)]
  | ReviewRequestColumns _ target issue _ _ _ _ _ supersedes _ _ =>
      [("review_targets", IdKey target); ("issues", IdKey issue)] ++ optional_key "review_requests" supersedes
  | ReviewOutcomeColumns _ request attempt _ _ _ => [("review_requests", IdKey request); ("work_attempts", IdKey attempt)]
  | ReservationColumns _ issue attempt _ _ _ _ _ _ _ _ => [("issues", IdKey issue); ("work_attempts", IdKey attempt)]
  | PolicyEventColumns policy _ _ _ _ _ _ => [("workflow_policies", IdKey policy)]
  | AttemptSnapshotColumns attempt _ _ _ _ _ => [("work_attempts", IdKey attempt)]
  | TargetSnapshotColumns target _ _ _ _ _ => [("review_targets", IdKey target)]
  | EvidenceColumns _ attempt issue _ _ _ _ _ _ _ _ => [("work_attempts", IdKey attempt); ("issues", IdKey issue)]
  | EvidenceEventColumns evidence attempt issue _ _ _ _ _ =>
      [("gate_evidence", IdKey evidence); ("work_attempts", IdKey attempt); ("issues", IdKey issue)]
  | ApprovalColumns _ issue target request attempt _ _ _ _ _ =>
      [("issues", IdKey issue); ("review_targets", IdKey target); ("review_requests", IdKey request); ("work_attempts", IdKey attempt)]
  | LabelColumns _ _ _ _ | PolicyColumns _ _ _ _ _ _ _ | OtherRow _ => []
  end.
(** A database that another extends by rows that are no events. *)
Definition rows_grow (rows : list ImportedRow) (db db' : Database) : Prop :=
  db_Rows db' = db_Rows db ++ rows ∧ db_Project db' = db_Project db ∧ db_LastEventID db' = db_LastEventID db.

Lemma grows_nil db : rows_grow [] db db.
Proof. unfold rows_grow. by rewrite app_nil_r. Qed.
Lemma grows_app l k db1 db2 db3 : rows_grow l db1 db2 → rows_grow k db2 db3 → rows_grow (l ++ k) db1 db3.
Proof. intros (Hl & Hp & He) (Hl' & Hp' & He'). unfold rows_grow. rewrite Hl', Hl, Hp', He'. by rewrite app_assoc. Qed.

Section loops.
Context `{SQLiteEngine}.

Lemma exec_Ok statement db db' : exec statement db = Ok db' → db' = effect statement db.
Proof. unfold exec. destruct (refuses db statement); [done|]. by intros [= <-]. Qed.
Lemma exec_row columns db db' : table_of columns ≠ "issue_events" → exec (InsertRow columns) db = Ok db' → rows_grow [columns] db db'.
Proof. intros Ht ->%exec_Ok. unfold rows_grow. cbn. split_and!; [done|done|]. by destruct columns. Qed.

Lemma insertEach_stored {A} table (row : A → result ImportedRow) items db db' :
  table ≠ "issue_events" → (∀ x columns, row x = Ok columns → table_of columns = table) →
  insertEach row items db = Ok db' → ∃ rows, stored row items rows ∧ chunk table rows ∧ rows_grow rows db db'.
Proof.
  intros Hne Ht. revert db. induction items as [|x items IH]; intros db; cbn [insertEach].
  { intros [= <-]. exists []. split_and!; [constructor|constructor|apply grows_nil]. }
  intros Hi. inv_ok. destruct (IH _ Hi) as (rows & Hs & Hc & Hg). rename a into columns.
  exists (columns :: rows). split_and!; [by constructor|by constructor; [eapply Ht|]|].
  apply (grows_app [columns] rows _ a0); [|done]. apply exec_row; [|done]. erewrite Ht by done. done.
Qed.
End loops.

(** ** Each loop *)

Section transaction.
Context `{UnicodeTables, ULID, TimeErrors, SQLiteEngine, SliceSort}.
Context (dest : LogicalProjectImportDestinationIDs).

(** The table of the rows a function makes. *)
Ltac row_table := let Hr := fresh "Hr" in intros ? ? Hr; autounfold with import_rows in Hr; inv_ok; repeat case_match; inv_ok; done.

Lemma insertRelations_stored relations : ∀ index db db',
  insertRelations dest index relations db = Ok db' →
  ∃ rows, stored (relationRow dest) relations rows ∧ chunk "issue_relations" rows ∧ rows_grow rows db db'.
Proof.
  induction relations as [|relation relations IH]; intros index db db'; cbn [insertRelations].
  { intros [= <-]. exists []. split_and!; [constructor|constructor|apply grows_nil]. }
  intros Hi. apply result_bind_Ok in Hi as (columns & Hc & Hi). destruct (exec _ db) as [db1|e] eqn:Hx; [|done].
  destruct (IH _ _ _ Hi) as (rows & Hs & Hk & Hg).
  assert (Ht : table_of columns = "issue_relations").
  { unfold relationRow in Hc. inv_ok. destruct (CanonicalRelationEndpoints _ _ _). by inv_ok. }
  exists (columns :: rows). split_and!; [by constructor|by constructor|].
  apply (grows_app [columns] rows _ db1); [|done]. apply exec_row; [by rewrite Ht|done].
Qed.

(** The rows of one table for the records of one kind. *)
Definition loaded {A} (table : string) (row : A → result ImportedRow) (items : list A) (rows : list ImportedRow) : Prop :=
  stored row items rows ∧ chunk table rows.
Lemma insertEach_loaded {A} table (row : A → result ImportedRow) items db db' :
  insertEach row items db = Ok db' → table ≠ "issue_events" → (∀ x columns, row x = Ok columns → table_of columns = table) →
  ∃ rows, loaded table row items rows ∧ rows_grow rows db db'.
Proof.
  intros Hi Hne Ht. destruct (insertEach_stored table row items db db' Hne Ht Hi) as (rows & Hs & Hc & Hg). by exists rows.
Qed.
Lemma insertRelations_loaded relations index db db' : insertRelations dest index relations db = Ok db' →
  ∃ rows, loaded "issue_relations" (relationRow dest) relations rows ∧ rows_grow rows db db'.
Proof. intros Hi. destruct (insertRelations_stored _ _ _ _ Hi) as (rows & Hs & Hc & Hg). by exists rows. Qed.

(** Take one loop off the front of a chain of loops. *)
Ltac loop table :=
  match goal with
  | Hi : insertEach _ _ _ = Ok _ |- _ =>
      apply (insertEach_loaded table) in Hi as (? & ? & ?); [|done|row_table]
  end.

Lemma importCore_loaded d next db db' : importCore dest d next db = Ok db' →
  ∃ labels issues links relations comments decisions attempts notes artifacts,
    loaded "labels" (labelRow dest) (ldo_Labels d) labels ∧
    loaded "issues" (issueRow dest next) (enumerate (ldo_Issues d)) issues ∧
    loaded "issue_labels" (issueLabelRow dest) (ldo_IssueLabels d) links ∧
    loaded "issue_relations" (relationRow dest) (ldo_Relations d) relations ∧
    loaded "comments" (commentRow dest) (ldo_Comments d) comments ∧
    loaded "decisions" (decisionRow dest) (ldo_Decisions d) decisions ∧
    loaded "work_attempts" (attemptRow dest) (ldo_Attempts d) attempts ∧
    loaded "attempt_notes" (attemptNoteRow dest) (ldo_AttemptNotes d) notes ∧
    loaded "artifacts" (artifactRow dest) (ldo_Artifacts d) artifacts ∧
    rows_grow (labels ++ issues ++ links ++ relations ++ comments ++ decisions ++ attempts ++ notes ++ artifacts) db db'.
Proof.
  unfold importCore. intros Hi. inv_ok.
  match goal with Hr : insertRelations _ _ _ _ = _ |- _ => apply insertRelations_loaded in Hr as (? & ? & ?) end.
  repeat first [loop "labels"|loop "issues"|loop "issue_labels"|loop "comments"|loop "decisions"|loop "work_attempts"|
                loop "attempt_notes"|loop "artifacts"].
  do 9 eexists. split_and!; [eassumption..|]. repeat (eapply grows_app; [eassumption|]). eassumption.
Qed.

(** ** Events *)

(** Consecutive identifiers. *)
Fixpoint ids_numbered {A} (from : Z) (l : list A) : list (Z * A) :=
  match l with [] => [] | x :: l => (from, x) :: ids_numbered (from + 1) l end.
Definition cursorEntry (entry : Z * LogicalEvent) : LogicalEventCursorEntry := mkCursorEntry (lev_SourceID entry.2) entry.1.
Definition numberedEventRow (entry : Z * LogicalEvent) : result ImportedRow := eventRow dest entry.1 entry.2.

Lemma eventRow_columns id event columns : eventRow dest id event = Ok columns →
  ∃ a b c d e f, columns = EventColumns id a b c d e f.
Proof. unfold eventRow. intros Hr. inv_ok. by repeat eexists. Qed.

Lemma insertEvents_loaded events : ∀ entries db entries' db', insertEvents dest events entries db = Ok (entries', db') →
  let numbers := ids_numbered (db_LastEventID db + 1) events in
  entries' = entries ++ map cursorEntry numbers ∧ db_Project db' = db_Project db ∧
  ∃ rows, loaded "issue_events" numberedEventRow numbers rows ∧ db_Rows db' = db_Rows db ++ rows.
Proof.
  induction events as [|event events IH]; intros entries db entries' db'; cbn [insertEvents].
  { intros [= <- <-]. cbn. rewrite app_nil_r. split_and!; [done|done|]. exists [].
    split; [split; [apply Forall2_nil_2|apply Forall_nil_2]|by rewrite app_nil_r]. }
  intros Hi. inv_ok. rename a into columns.
  match goal with Hr : eventRow _ _ _ = _ |- _ => destruct (eventRow_columns _ _ _ Hr) as (? & ? & ? & ? & ? & ? & ->) end.
  match goal with Hx : exec _ _ = _ |- _ => apply exec_Ok in Hx as -> end.
  destruct (IH _ _ _ _ Hi) as (-> & Hp & rows & (Hs & Hc) & Hr). cbn [effect db_LastEventID db_Rows db_Project] in *.
  cbn [ids_numbered map]. split_and!; [by rewrite <-app_assoc|done|]. eexists (_ :: rows). split; [split|].
  - constructor; [|exact Hs]. eassumption.
  - by constructor.
  - rewrite Hr. by rewrite <-app_assoc.
Qed.

(** ** The second pass over the attempts *)

Definition movedAttempt (eventCursors : LogicalEventCursorMapping) (a : LogicalAttempt) : LogicalAttempt :=
  mkLogicalAttempt (lat_ID a) (lat_IssueID a) (lat_SessionID a) (lat_AgentLabel a) (lat_Kind a) (lat_Status a)
    (lat_IssueVersionAtStart a) (Remap eventCursors (lat_ContextEventIDAtStart a)) (lat_LeaseExpiresAt a) (lat_StartedAt a)
    (lat_LastHeartbeatAt a) (lat_FinishedAt a) (lat_ResultSummary a) (lat_NextSteps a) (lat_Verification a)
    (lat_FailureReasonCode a) (lat_InterruptionReasonCode a) (lat_ReasonDetails a).

Definition attemptID (a : LogicalAttempt) : string := at_key (di_AttemptIDs dest) (lat_ID a).
Definition moveAll (eventCursors : LogicalEventCursorMapping) (attempts : list LogicalAttempt) (row : ImportedRow) : ImportedRow :=
  foldl (λ row a, with_context (Remap eventCursors (lat_ContextEventIDAtStart a)) (attemptID a) row) row attempts.

Lemma remapAttempts_moves eventCursors attempts : ∀ db db', remapAttempts dest eventCursors attempts db = Ok db' →
  db_Rows db' = map (moveAll eventCursors attempts) (db_Rows db) ∧ db_Project db' = db_Project db.
Proof.
  induction attempts as [|a attempts IH]; intros db db'; cbn [remapAttempts].
  { intros [= <-]. unfold moveAll. cbn. by rewrite map_id. }
  intros Hi. inv_ok. match goal with Hx : exec _ _ = _ |- _ => apply exec_Ok in Hx as -> end.
  destruct (IH _ _ Hi) as [-> ->]. cbn [effect db_Rows db_Project]. split; [|done]. by rewrite map_map.
Qed.

Lemma moveAll_other eventCursors attempts row : table_of row ≠ "work_attempts" → moveAll eventCursors attempts row = row.
Proof.
  intros Ht. unfold moveAll. induction attempts as [|a attempts IH]; [done|]. cbn [foldl].
  assert (with_context (Remap eventCursors (lat_ContextEventIDAtStart a)) (attemptID a) row = row) as -> by (by destruct row). done.
Qed.
Lemma moveAll_chunk eventCursors attempts table rows :
  table ≠ "work_attempts" → chunk table rows → map (moveAll eventCursors attempts) rows = rows.
Proof.
  intros Hne. induction 1 as [|row rows Hr _ IH]; [done|]. cbn. rewrite IH, moveAll_other; [done|]. by rewrite Hr.
Qed.

(** The row of an attempt is moved by its own pass and by no other. *)
Lemma moveAll_absent eventCursors attempts a row :
  attemptRow dest a = Ok row → attemptID a ∉ map attemptID attempts → moveAll eventCursors attempts row = row.
Proof.
  unfold moveAll. intros Hr. induction attempts as [|b attempts IH]; [done|]. cbn [map foldl]. intros [Hne Hn]%not_elem_of_cons.
  assert (with_context (Remap eventCursors (lat_ContextEventIDAtStart b)) (attemptID b) row = row) as ->.
  { unfold attemptRow in Hr. inv_ok. cbn [with_context]. fold (attemptID a). by rewrite (proj2 (eqb_string_false _ _)). }
  by apply IH.
Qed.
Lemma moveAll_own eventCursors attempts a row :
  attemptRow dest a = Ok row → a ∈ attempts → NoDup (map attemptID attempts) →
  attemptRow dest (movedAttempt eventCursors a) = Ok (moveAll eventCursors attempts row).
Proof.
  intros Hr. revert row Hr. induction attempts as [|b attempts IH]; intros row Hr; [by intros ?%not_elem_of_nil|].
  intros Hin Hnd. cbn [map] in Hnd. apply NoDup_cons in Hnd as [Hb Hnd]. apply elem_of_cons in Hin as [<-|Hin].
  - assert (Hm : attemptRow dest (movedAttempt eventCursors a) =
      Ok (with_context (Remap eventCursors (lat_ContextEventIDAtStart a)) (attemptID a) row)).
    { unfold attemptRow in Hr |- *. inv_ok. cbn [movedAttempt lat_StartedAt lat_LeaseExpiresAt lat_LastHeartbeatAt lat_FinishedAt].
      repeat match goal with Hx : _ = Ok _ |- _ => rewrite Hx; clear Hx end. cbn [mbind result_bind with_context].
      fold (attemptID a). by rewrite eqb_string_refl. }
    rewrite Hm. f_equal. symmetry. change (moveAll eventCursors (a :: attempts) row) with
      (moveAll eventCursors attempts (with_context (Remap eventCursors (lat_ContextEventIDAtStart a)) (attemptID a) row)).
    by apply (moveAll_absent _ _ (movedAttempt eventCursors a)).
  - change (moveAll eventCursors (b :: attempts) row) with
      (moveAll eventCursors attempts (with_context (Remap eventCursors (lat_ContextEventIDAtStart b)) (attemptID b) row)).
    assert (with_context (Remap eventCursors (lat_ContextEventIDAtStart b)) (attemptID b) row = row) as ->.
    { unfold attemptRow in Hr. inv_ok. cbn [with_context]. fold (attemptID a). rewrite (proj2 (eqb_string_false _ _)); [done|].
      intros He. apply Hb. rewrite <-He. by apply list_elem_of_fmap_2. }
    by apply IH.
Qed.
Lemma moved_loaded eventCursors attempts rows :
  loaded "work_attempts" (attemptRow dest) attempts rows → NoDup (map attemptID attempts) →
  loaded "work_attempts" (λ a, attemptRow dest (movedAttempt eventCursors a)) attempts (map (moveAll eventCursors attempts) rows).
Proof.
  intros [Hs Hc] Hnd. assert (Hs' : stored (λ a, attemptRow dest (movedAttempt eventCursors a)) attempts (map (moveAll eventCursors attempts) rows)).
  { eapply stored_change; [exact Hs|]. intros a row Ha Hr. by apply moveAll_own. }
  split; [done|]. eapply stored_chunk; [|exact Hs']. cbn beta. row_table.
Qed.

(** ** Reviews and extensions *)

Lemma importReviews_loaded d eventCursors db db' : importReviews dest d eventCursors db = Ok db' →
  ∃ targets requests outcomes,
    loaded "review_targets" (reviewTargetRow dest eventCursors) (ldo_ReviewTargets d) targets ∧
    loaded "review_requests" (reviewRequestRow dest eventCursors) (ldo_ReviewRequests d) requests ∧
    loaded "review_outcomes" (reviewOutcomeRow dest) (ldo_ReviewOutcomes d) outcomes ∧
    rows_grow (targets ++ requests ++ outcomes) db db'.
Proof.
  unfold importReviews. intros Hi. inv_ok. repeat first [loop "review_targets"|loop "review_requests"|loop "review_outcomes"].
  do 3 eexists. split_and!; [eassumption..|]. repeat (eapply grows_app; [eassumption|]). eassumption.
Qed.

Context `{JSONErrors}.

Lemma importReservations_loaded d reservations db db' :
  DecodeReservationsExtension d = Ok reservations → importReservations dest d db = Ok db' →
  ∃ rows, loaded "resource_reservations" (importedReservation dest) reservations rows ∧ rows_grow rows db db'.
Proof. unfold importReservations. intros -> Hi. cbn [mbind result_bind] in Hi. inv_ok. loop "resource_reservations". by eexists. Qed.

Lemma importGates_loaded d gates eventCursors db db' :
  DecodeGatesExtension d = Ok gates → importGates dest d eventCursors db = Ok db' →
  ∃ policies policyEvents attemptSnapshots targetSnapshots evidence evidenceEvents approvals,
    loaded "workflow_policies" (policyRow dest) (lgx_Policies gates) policies ∧
    loaded "workflow_policy_events" (policyEventRow dest) (lgx_PolicyEvents gates) policyEvents ∧
    loaded "attempt_gate_snapshots" (attemptSnapshotRow dest) (lgx_AttemptSnapshots gates) attemptSnapshots ∧
    loaded "review_target_gate_snapshots" (targetSnapshotRow dest (lgx_ReviewTargetSnapshots gates)) (ldo_ReviewTargets d)
      targetSnapshots ∧
    loaded "gate_evidence" (evidenceRow dest) (lgx_Evidence gates) evidence ∧
    loaded "gate_evidence_events" (evidenceEventRow dest) (lgx_EvidenceEvents gates) evidenceEvents ∧
    loaded "review_approvals" (approvalRow dest eventCursors) (lgx_ReviewApprovals gates) approvals ∧
    rows_grow (policies ++ policyEvents ++ attemptSnapshots ++ targetSnapshots ++ evidence ++ evidenceEvents ++ approvals) db db'.
Proof.
  unfold importGates. intros -> Hi. cbn [mbind result_bind] in Hi. inv_ok.
  repeat first [loop "workflow_policies"|loop "workflow_policy_events"|loop "attempt_gate_snapshots"|
    loop "review_target_gate_snapshots"|loop "gate_evidence"|loop "gate_evidence_events"|loop "review_approvals"].
  do 7 eexists. split_and!; [eassumption..|]. repeat (eapply grows_app; [eassumption|]). eassumption.
Qed.

(** ** The whole import *)

(** The tables after an import of [d] with the identifiers [dest]: every record
    as a row of its table, in order, and nothing else. *)
Record imported (d : LogicalProjectDocument) (reservations : list LogicalReservation) (gates : LogicalGatesExtension)
    (nextIssueNumber : Z) (numbers : list (Z * LogicalEvent)) (db : Database) : Prop := {
  im_labels : stored (labelRow dest) (ldo_Labels d) (table_in db "labels");
  im_issues : stored (issueRow dest nextIssueNumber) (enumerate (ldo_Issues d)) (table_in db "issues");
  im_links : stored (issueLabelRow dest) (ldo_IssueLabels d) (table_in db "issue_labels");
  im_relations : stored (relationRow dest) (ldo_Relations d) (table_in db "issue_relations");
  im_comments : stored (commentRow dest) (ldo_Comments d) (table_in db "comments");
  im_decisions : stored (decisionRow dest) (ldo_Decisions d) (table_in db "decisions");
  im_attempts : stored (λ a, attemptRow dest (movedAttempt (NewLogicalEventCursorMapping (map cursorEntry numbers)) a))
    (ldo_Attempts d) (table_in db "work_attempts");
  im_notes : stored (attemptNoteRow dest) (ldo_AttemptNotes d) (table_in db "attempt_notes");
  im_artifacts : stored (artifactRow dest) (ldo_Artifacts d) (table_in db "artifacts");
  im_events : stored numberedEventRow numbers (table_in db "issue_events");
  im_targets : stored (reviewTargetRow dest (NewLogicalEventCursorMapping (map cursorEntry numbers))) (ldo_ReviewTargets d)
    (table_in db "review_targets");
  im_requests : stored (reviewRequestRow dest (NewLogicalEventCursorMapping (map cursorEntry numbers))) (ldo_ReviewRequests d)
    (table_in db "review_requests");
  im_outcomes : stored (reviewOutcomeRow dest) (ldo_ReviewOutcomes d) (table_in db "review_outcomes");
  im_reservations : stored (importedReservation dest) reservations (table_in db "resource_reservations");
  im_policies : stored (policyRow dest) (lgx_Policies gates) (table_in db "workflow_policies");
  im_policy_events : stored (policyEventRow dest) (lgx_PolicyEvents gates) (table_in db "workflow_policy_events");
  im_attempt_snapshots : stored (attemptSnapshotRow dest) (lgx_AttemptSnapshots gates) (table_in db "attempt_gate_snapshots");
  im_target_snapshots : stored (targetSnapshotRow dest (lgx_ReviewTargetSnapshots gates)) (ldo_ReviewTargets d)
    (table_in db "review_target_gate_snapshots");
  im_evidence : stored (evidenceRow dest) (lgx_Evidence gates) (table_in db "gate_evidence");
  im_evidence_events : stored (evidenceEventRow dest) (lgx_EvidenceEvents gates) (table_in db "gate_evidence_events");
  im_approvals : stored (approvalRow dest (NewLogicalEventCursorMapping (map cursorEntry numbers))) (lgx_ReviewApprovals gates)
    (table_in db "review_approvals");
}.

(** Nothing the import looks for is there. *)
Lemma no_content_table db table : hasLogicalProjectImportDestinationContent db = false →
  table ∈ logicalProjectImportDestinationContentTables → table_in db table = [].
Proof.
  unfold hasLogicalProjectImportDestinationContent, table_in. intros Hno Ht. apply elem_of_nil_inv. intros row [Hr Hrow]%elem_of_table_rows.
  apply not_true_iff_false in Hno. apply Hno, existsb_exists. exists row. split; [by apply list_elem_of_In|].
  apply bool_decide_eq_true. by rewrite Hrow.
Qed.

(** Tables one after another. *)
Lemma table_rows_chunks table (chunks : list (string * list ImportedRow)) :
  Forall (λ c, chunk c.1 c.2) chunks →
  table_rows table (concat (map snd chunks)) = concat (map (λ c, if c.1 =s table then c.2 else []) chunks).
Proof.
  induction 1 as [|[t rows] chunks Hc _ IH]; [done|]. cbn [map concat snd fst]. by rewrite table_rows_app, IH, (table_rows_chunk table t).
Qed.

Lemma chunks_absent table (chunks : list (string * list ImportedRow)) :
  table ∉ map fst chunks → concat (map (λ c, if c.1 =s table then c.2 else []) chunks) = [].
Proof.
  induction chunks as [|[t rows] chunks IH]; [done|]. cbn. intros [Hne Hn]%not_elem_of_cons.
  rewrite (proj2 (eqb_string_false t table)) by congruence. by apply IH.
Qed.
Lemma chunks_lookup table rows (chunks : list (string * list ImportedRow)) :
  NoDup (map fst chunks) → (table, rows) ∈ chunks → concat (map (λ c, if c.1 =s table then c.2 else []) chunks) = rows.
Proof.
  induction chunks as [|[t r] chunks IH]; cbn [map concat fst snd]; intros Hnd Hin; [by apply not_elem_of_nil in Hin|].
  apply NoDup_cons in Hnd as [Ht Hnd]. apply elem_of_cons in Hin as [[= -> ->]|Hin].
  - by rewrite eqb_string_refl, chunks_absent, app_nil_r.
  - rewrite (proj2 (eqb_string_false t table)); [by apply IH|]. intros ->. apply Ht. by apply (list_elem_of_fmap_2' fst chunks (table, rows) table Hin).
Qed.
(** The tables of an import in the order they are filled. *)
Definition importedTables : list string :=
  ["labels"; "issues"; "issue_labels"; "issue_relations"; "comments"; "decisions"; "work_attempts"; "attempt_notes"; "artifacts";
   "issue_events"; "review_targets"; "review_requests"; "review_outcomes"; "resource_reservations"; "workflow_policies";
   "workflow_policy_events"; "attempt_gate_snapshots"; "review_target_gate_snapshots"; "gate_evidence"; "gate_evidence_events";
   "review_approvals"].

Lemma importRecords_imported d reservations gates next updated db db' :
  DecodeReservationsExtension d = Ok reservations → DecodeGatesExtension d = Ok gates → NoDup (map attemptID (ldo_Attempts d)) →
  hasLogicalProjectImportDestinationContent db = false → importRecords dest d next updated db = Ok db' →
  imported d reservations gates next (ids_numbered (db_LastEventID db + 1) (sort_Slice eventSourceLess (ldo_Events d))) db' ∧
  ∀ table, table ∉ importedTables → table_in db' table = table_in db table.
Proof.
  intros Hres Hgates Hnd Hno. unfold importRecords. cbv zeta. intros Hi.
  apply result_bind_Ok in Hi as (db1 & Hcore & Hi). apply result_bind_Ok in Hi as ([entries db2] & Hevents & Hi). cbn [fst snd] in Hi.
  apply result_bind_Ok in Hi as (db3 & Hmoves & Hi). apply result_bind_Ok in Hi as (db4 & Hreviews & Hi).
  apply result_bind_Ok in Hi as (db5 & Hreservations & Hi). apply result_bind_Ok in Hi as (db6 & Hgated & Hi).
  destruct (importCore_loaded _ _ _ _ Hcore) as
    (labels & issues & links & relations & comments & decisions & attempts & notes & artifacts & [Sla Kla] & [Sis Kis] & [Sli Kli] &
     [Sre Kre] & [Sco Kco] & [Sde Kde] & Lat & [Sno Kno] & [Sar Kar] & (Rcore & _ & Lcore)).
  destruct (insertEvents_loaded _ _ _ _ _ Hevents) as (-> & _ & events & [Sev Kev] & Revents). cbn [app] in *. rewrite Lcore in *.
  set (eventCursors := NewLogicalEventCursorMapping _) in *.
  destruct (remapAttempts_moves _ _ _ _ Hmoves) as [Rmoves _].
  destruct (moved_loaded eventCursors _ _ Lat Hnd) as [Sat Kat]. destruct Lat as [_ Kat0].
  destruct (importReviews_loaded _ _ _ _ Hreviews) as (targets & requests & outcomes & [Sta Kta] & [Srq Krq] & [Sou Kou] & (Rreviews & _)).
  destruct (importReservations_loaded _ _ _ _ Hres Hreservations) as (held & [She Khe] & (Rheld & _)).
  destruct (importGates_loaded _ _ _ _ _ Hgates Hgated) as
    (policies & policyEvents & attemptSnapshots & targetSnapshots & evidence & evidenceEvents & approvals & [Spo Kpo] & [Spe Kpe] &
     [Sas Kas] & [Sts Kts] & [Sevi Kevi] & [See Kee] & [Sap Kap] & (Rgates & _)).
  set (chunks := [("labels", labels); ("issues", issues); ("issue_labels", links); ("issue_relations", relations);
    ("comments", comments); ("decisions", decisions); ("work_attempts", map (moveAll eventCursors (ldo_Attempts d)) attempts);
    ("attempt_notes", notes); ("artifacts", artifacts); ("issue_events", events); ("review_targets", targets);
    ("review_requests", requests); ("review_outcomes", outcomes); ("resource_reservations", held); ("workflow_policies", policies);
    ("workflow_policy_events", policyEvents); ("attempt_gate_snapshots", attemptSnapshots);
    ("review_target_gate_snapshots", targetSnapshots); ("gate_evidence", evidence); ("gate_evidence_events", evidenceEvents);
    ("review_approvals", approvals)]).
  assert (Hchunks : Forall (λ c, chunk c.1 c.2) chunks) by (unfold chunks; repeat (constructor; [assumption|]); constructor).
  assert (Hold : map (moveAll eventCursors (ldo_Attempts d)) (db_Rows db) = db_Rows db).
  { rewrite <-(map_id (db_Rows db)) at 2. apply map_ext_in. intros row Hrow%list_elem_of_In. apply moveAll_other. intros Ht.
    assert (row ∈ table_in db "work_attempts") as Hin by (by apply elem_of_table_rows).
    rewrite (no_content_table db "work_attempts") in Hin; [by apply not_elem_of_nil in Hin|done|].
    unfold logicalProjectImportDestinationContentTables. set_solver. }
  assert (Hfinal : db_Rows db' = db_Rows db ++ concat (map snd chunks)).
  { assert (db_Rows db' = db_Rows db6) as -> by (destruct (null _); [by inv_ok|]; by apply exec_Ok in Hi as ->).
    rewrite Rgates, Rheld, Rreviews, Rmoves, Revents, Rcore, !map_app, Hold.
    repeat match goal with Kc : chunk ?table ?rows |- context [map (moveAll ?m ?l) ?rows] =>
      rewrite (moveAll_chunk m l table rows) by (discriminate || exact Kc) end.
    unfold chunks. cbn [map snd concat]. by rewrite app_nil_r, <-!app_assoc. }
  assert (Hnames : NoDup (map fst chunks) ∧ Forall (λ table, table ∈ logicalProjectImportDestinationContentTables) (map fst chunks))
    by (change (map fst chunks) with importedTables; split; apply (bool_decide_unpack _); vm_compute; exact I).
  assert (Htable : ∀ table rows, (table, rows) ∈ chunks → table_in db' table = rows).
  { intros table rows Hin. unfold table_in. rewrite Hfinal, table_rows_app, (table_rows_chunks table chunks Hchunks).
    rewrite (chunks_lookup table rows) by (tauto || done). destruct Hnames as [_ Hnames]. rewrite Forall_forall in Hnames.
    pose proof (no_content_table db table Hno (Hnames _ (list_elem_of_fmap_2' fst chunks (table, rows) table Hin eq_refl))) as Hempty.
    unfold table_in in Hempty. by rewrite Hempty. }
  split; [|intros table Hn; unfold table_in; by rewrite Hfinal, table_rows_app, (table_rows_chunks table chunks Hchunks), chunks_absent, app_nil_r].
  constructor; (erewrite Htable; [eassumption|unfold chunks; repeat first [apply list_elem_of_here|apply list_elem_of_further]]).
Qed.
End transaction.
