(* ===== verification/ReadBack.v ===== *)
(** * Reading columns back

    What the texts of columns read as: a stored timestamp as the instant it was
    written for, in the years 0000 to 9999, which are the years of every
    timestamp that can be read; and a list of strings that [encoding/json] wrote
    as that list, with U+FFFD for what was not UTF-8. *)

From S2P Require Import Prelude GoStrings Errors Validation Issue Store Timestamps Encoding Interchange ImportCheck.

#[local] Ltac Zify.zify_post_hook ::= Z.to_euclidean_division_equations.

(** ** The calendar *)

(** Months have as many days as [daysIn] says, February 29 apart. *)
Definition month_check (doy : Z) : bool :=
  let '(m, d) := month_day doy in
  (1 <=? m)%Z && (m <=? 12)%Z && (1 <=? d)%Z &&
  (d <=? (if (m =? 2)%Z then 28 else if existsb (Z.eqb m) [4; 6; 9; 11]%Z then 30 else 31))%Z.
Lemma month_valid doy : (0 <= doy <= 364)%Z → month_check doy = true.
Proof. intros Hd. apply (every_from_spec 365 month_check 0); [by vm_compute|lia]. Qed.

(** The last day of a year of 366 days is in a leap year. *)
Lemma leap_valid y era : (0 <= y < 400)%Z → (year_start (y + 1) - year_start y = 366 ∨ y = 399)%Z →
  isLeap (y + era * 400 + 1) = true.
Proof.
  intros Hy Hl. unfold isLeap, year_start in *. apply andb_true_iff.
  rewrite orb_true_iff, negb_true_iff, !Z.eqb_eq, Z.eqb_neq. lia.
Qed.

Lemma doy_end doe : (0 <= doe < 146097)%Z → (doe - year_start (yoe doe) = 365)%Z →
  (year_start (yoe doe + 1) - year_start (yoe doe) = 366 ∨ yoe doe = 399)%Z.
Proof.
  intros Hd He. destruct (doy_range doe Hd) as [Hy _]. set (y := yoe doe) in *.
  destruct (Z.eqb_spec y 399) as [->|Hne]; [by right|left].
  destruct (decide (doe < year_start (y + 1))%Z) as [|Hge]; [pose proof (year_length y); lia|]. exfalso.
  destruct (year_valid (y + 1)) as [Hnext _]; [lia|].
  assert (0 <= year_start (y + 1))%Z by (unfold year_start; lia).
  pose proof (yoe_mono (year_start (y + 1)) doe). lia.
Qed.

Lemma civil_days days y m d : civil_from_days days = (y, m, d) → (d <= daysIn m y)%Z.
Proof.
  unfold civil_from_days. cbv zeta. set (doe := ((days + 719468) mod 146097)%Z).
  change ((doe - doe / 1460 + doe / 36524 - doe / 146096) / 365)%Z with (yoe doe).
  change (365 * yoe doe + yoe doe / 4 - yoe doe / 100)%Z with (year_start (yoe doe)).
  assert (Hdoe : (0 <= doe < 146097)%Z) by by apply Z.mod_pos_bound.
  destruct (doy_range doe Hdoe) as [Hy Hdoy]. pose proof (doy_end doe Hdoe) as Hend.
  destruct (decide (doe - year_start (yoe doe) = 365)%Z) as [He|Hne].
  - specialize (Hend He). rewrite He. cbn. intros [= <- <- <-].
    unfold daysIn. rewrite Z.eqb_refl, (leap_valid _ _ Hy Hend). done.
  - pose proof (month_valid (doe - year_start (yoe doe)) ltac:(lia)) as Hm. unfold month_check, month_day in Hm. cbv zeta in Hm.
    intros [= _ <- <-]. unfold daysIn. revert Hm. generalize (doe - year_start (yoe doe))%Z. intros doy.
    rewrite !andb_true_iff, !Z.leb_le. intros [_ Hd]. destruct (_ =? 2)%Z; [|exact Hd]. destruct (isLeap _); lia.
Qed.

Lemma days_from_civil_from days y m d : civil_from_days days = (y, m, d) → days_from_civil y m d = days.
Proof.
  unfold civil_from_days. cbv zeta. set (z := (days + 719468)%Z). set (doe := (z mod 146097)%Z).
  change ((doe - doe / 1460 + doe / 36524 - doe / 146096) / 365)%Z with (yoe doe).
  change (365 * yoe doe + yoe doe / 4 - yoe doe / 100)%Z with (year_start (yoe doe)).
  destruct (doy_range doe) as [Hy Hdoy]; [by apply Z.mod_pos_bound|]. set (doy := (doe - year_start (yoe doe))%Z) in *.
  assert (Hz : (z = z / 146097 * 146097 + year_start (yoe doe) + doy)%Z) by (unfold doy, doe; lia).
  assert (Hmp : (0 <= (5 * doy + 2) / 153 <= 11)%Z) by lia.
  set (mp := ((5 * doy + 2) / 153)%Z) in *. intros [= <- <- <-].
  assert (Hyear : ∀ era y, (0 <= y < 400)%Z → ((y + era * 400) / 400 = era ∧ (y + era * 400) mod 400 = y)%Z) by lia.
  destruct (Hyear (z / 146097)%Z (yoe doe) Hy) as [He1 He2]. unfold year_start in Hz.
  unfold days_from_civil. destruct (Z.ltb_spec mp 10) as [Hlt|Hge].
  - rewrite (proj2 (Z.leb_gt (mp + 3) 2)) by lia. rewrite Z.add_0_r, He1, He2. lia.
  - rewrite (proj2 (Z.leb_le (mp - 9) 2)) by lia.
    replace (yoe doe + z / 146097 * 400 + 1 - 1)%Z with (yoe doe + z / 146097 * 400)%Z by lia. rewrite He1, He2. lia.
Qed.

(** ** The texts *)

Lemma bytes_cons c s : bytes (String c s) = c :: bytes s.
Proof. done. Qed.
Lemma bytes_length s : length (bytes s) = String.length s.
Proof. induction s as [|c s IH]; [done|]. rewrite bytes_cons. cbn. by rewrite IH. Qed.

Lemma parse_digits_bytes s : ∀ acc n, parse_digits acc s = Some n →
  Forall (λ c, is_digit c = true) (bytes s) ∧ n = foldl (λ n c, n * 10 + digit_val c)%Z acc (bytes s).
Proof.
  induction s as [|c s IH]; intros acc n; [by intros [= ->]|]. intros [Hc Hn]%parse_digits_cons.
  destruct (IH _ _ Hn) as [Hall ->]. rewrite bytes_cons. split; [by constructor|]. cbn [foldl]. f_equal. lia.
Qed.

(** The digits of a field of [w] digits. *)
Lemma field_digits w n : (0 <= n < 10 ^ Z.of_nat w)%Z → (0 < w)%nat →
  length (bytes (zero_pad w n)) = w ∧ Forall (λ c, is_digit c = true) (bytes (zero_pad w n)) ∧
  foldl (λ n c, n * 10 + digit_val c)%Z 0%Z (bytes (zero_pad w n)) = n.
Proof.
  intros Hn Hw. rewrite bytes_length, zero_pad_length by done. split; [done|].
  destruct (parse_digits_bytes _ _ _ (zero_pad_parse n w (proj1 Hn))) as [Hd He]. done.
Qed.

Lemma getnum_field n r : (0 <= n < 100)%Z → getnum true (bytes (zero_pad 2 n) ++ r) = Some (n, r).
Proof.
  intros Hn. destruct (field_digits 2 n) as (Hl & Hd & Hv); [done|lia|].
  destruct (bytes (zero_pad 2 n)) as [|a [|b []]]; try done. cbn [app getnum].
  apply Forall_cons in Hd as [Ha [Hb _]%Forall_cons]. rewrite Ha, Hb. cbn [foldl] in Hv. do 2 f_equal. lia.
Qed.
Lemma getyear_field n r : (0 <= n < 10000)%Z → getyear (bytes (zero_pad 4 n) ++ r) = Some (n, r).
Proof.
  intros Hn. destruct (field_digits 4 n) as (Hl & Hd & Hv); [done|lia|].
  destruct (bytes (zero_pad 4 n)) as [|a [|b [|c [|e []]]]]; try done. unfold getyear. cbn [app getnum].
  rewrite !Forall_cons in Hd. destruct Hd as (Ha & Hb & Hc & He & _). rewrite Ha, Hb. cbn [negb mbind option_bind getnum].
  rewrite Hc, He. cbn [negb mbind option_bind]. cbn [foldl] in Hv. do 2 f_equal. lia.
Qed.

Lemma fraction_field n r : (0 <= n < 1000000000)%Z → (match r with c :: _ => is_digit c = false | [] => True end) →
  fraction (byte_of 46 :: bytes (zero_pad 9 n) ++ r) = (n, r).
Proof.
  intros Hn Hr. destruct (field_digits 9 n) as (Hl & Hd & Hv); [done|lia|].
  assert (Hdig : digits (bytes (zero_pad 9 n) ++ r) = (bytes (zero_pad 9 n), r)).
  { revert Hd. generalize (bytes (zero_pad 9 n)). intros l. induction 1 as [|c l Hc _ IH]; cbn [app digits].
    - destruct r as [|c r]; [done|]. cbn [digits]. by rewrite Hr.
    - by rewrite Hc, IH. }
  unfold fraction. change (is_byte 46 (byte_of 46)) with true. rewrite Hdig. cbn [orb fst snd].
  destruct (bytes (zero_pad 9 n)) as [|c l] eqn:He; [done|]. cbn [null negb andb]. rewrite <-He in *.
  unfold nanoseconds. rewrite take_ge by lia. rewrite Hl, Hv. change (10 ^ (9 - Z.of_nat 9))%Z with 1%Z. by rewrite Z.mul_1_r.
Qed.

(** One field after another. *)
Lemma lit_step n r : is_byte n (byte_of n) = true → lit n (byte_of n :: r) = Some r.
Proof. intros Hn. cbn [lit]. by rewrite Hn. Qed.
Lemma within_step lo hi n r : (lo <= n <= hi)%Z → within_range lo hi (Some (n, r)) = Some (n, r).
Proof. intros Hn. unfold within_range. cbn. by rewrite (proj2 (Z.leb_le lo n)), (proj2 (Z.leb_le n hi)) by lia. Qed.
Lemma gethour_field n r : (0 <= n < 100)%Z → getnum false (bytes (zero_pad 2 n) ++ r) = Some (n, r).
Proof.
  intros Hn. pose proof (getnum_field n r Hn) as Hg. destruct (field_digits 2 n) as (Hl & Hd & _); [done|lia|].
  destruct (bytes (zero_pad 2 n)) as [|a [|b []]]; try done. cbn [app getnum] in *.
  apply Forall_cons in Hd as [Ha [Hb _]%Forall_cons]. by rewrite Ha, Hb in *.
Qed.

(** The text reads back. *)
Lemma time_value_format t : storable t → time_value (formatStorageTime t) = Some (t, UTC, 0%Z).
Proof.
  intros Ht. unfold formatStorageTime. set (secs := (t / 1000000000)%Z).
  destruct (civil_from_days (secs / 86400)) as [[y m] d] eqn:Hc. cbv zeta.
  pose proof (storable_year t y m d Ht Hc) as Hy. pose proof (civil_fields _ _ _ _ Hc) as [Hm Hd].
  pose proof (civil_days _ _ _ _ Hc) as Hday. pose proof (days_from_civil_from _ _ _ _ Hc) as Hdays.
  assert (Htod : (0 <= secs mod 86400 < 86400)%Z) by by apply Z.mod_pos_bound.
  assert (Hn : (0 <= t mod 1000000000 < 1000000000)%Z) by by apply Z.mod_pos_bound.
  set (tod := (secs mod 86400)%Z) in *. unfold time_value. rewrite !bytes_app.
  change (bytes "-") with [byte_of 45]. change (bytes ":") with [byte_of 58]. change (bytes "T") with [byte_of 84].
  change (bytes ".") with [byte_of 46]. cbn [app].
  rewrite getyear_field by done. cbn [mbind option_bind]. rewrite lit_step by done. cbn [mbind option_bind].
  rewrite getnum_field, within_step by lia. cbn [mbind option_bind]. rewrite lit_step by done. cbn [mbind option_bind].
  rewrite getnum_field by lia. cbn [mbind option_bind]. rewrite lit_step by done. cbn [mbind option_bind].
  rewrite gethour_field, within_step by lia. cbn [mbind option_bind]. rewrite lit_step by done. cbn [mbind option_bind].
  rewrite getnum_field, within_step by lia. cbn [mbind option_bind]. rewrite lit_step by done. cbn [mbind option_bind].
  rewrite getnum_field, within_step by lia. cbn [mbind option_bind].
  rewrite fraction_field by done. cbn [fst snd].
  change (time_zone (bytes "Z")) with (Some (UTC, 0%Z, @nil ascii)). cbn [mbind option_bind null andb].
  rewrite (proj2 (Z.leb_le 1 d)), (proj2 (Z.leb_le d (daysIn m y))) by lia. cbn [andb]. rewrite Hdays.
  do 3 f_equal. unfold tod, secs in *. lia.
Qed.

(** Whatever reads as a time of UTC lies in those years. *)
Lemma days_from_civil_range y m d : (0 <= y < 10000)%Z → (1 <= m <= 12)%Z → (1 <= d <= 31)%Z →
  (-719528 <= days_from_civil y m d <= 2932896)%Z.
Proof. intros Hy Hm Hd. unfold days_from_civil. destruct (Z.leb_spec m 2); lia. Qed.

Lemma daysIn_31 m y : (daysIn m y <= 31)%Z.
Proof. unfold daysIn. repeat case_match; lia. Qed.
Lemma getnum_range fixed s n r : getnum fixed s = Some (n, r) → (0 <= n < 100)%Z.
Proof.
  destruct s as [|c s]; [done|]. cbn. destruct (is_digit c) eqn:Hc; [|done]. apply digit_range in Hc. cbn.
  destruct s as [|d s]; [destruct fixed; [done|]; intros [= <- <-]; lia|].
  destruct (is_digit d) eqn:Hd; [apply digit_range in Hd; intros [= <- <-]; lia|].
  destruct fixed; [done|]. intros [= <- <-]. lia.
Qed.

Lemma digits_Forall s : Forall (λ c, is_digit c = true) (digits s).1.
Proof.
  induction s as [|c s IH]; [constructor|]. cbn [digits]. destruct (is_digit c) eqn:Hc; [|constructor].
  destruct (digits s) as [ds rest]. by constructor.
Qed.
Lemma digits_value l : ∀ acc, Forall (λ c, is_digit c = true) l → (0 <= acc)%Z →
  (0 <= foldl (λ n c, n * 10 + digit_val c) acc l < (acc + 1) * 10 ^ Z.of_nat (length l))%Z.
Proof.
  induction l as [|c l IH]; intros acc Hl Hacc; [cbn; lia|]. apply Forall_cons in Hl as [Hc%digit_range Hl]. cbn [foldl length].
  pose proof (IH (acc * 10 + digit_val c)%Z Hl ltac:(lia)) as [H0 H1]. split; [done|].
  rewrite Nat2Z.inj_succ, Z.pow_succ_r by lia. pose proof (Z.pow_pos_nonneg 10 (Z.of_nat (length l)) ltac:(lia) ltac:(lia)). nia.
Qed.
Lemma fraction_range s : (0 <= (fraction s).1 < 1000000000)%Z.
Proof.
  destruct s as [|c s]; [cbn; lia|]. unfold fraction. destruct (_ && _); [|cbn; lia]. cbn [fst]. unfold nanoseconds.
  assert (Hl : length (take 9 (digits s).1) ≤ 9) by (rewrite length_take; lia).
  pose proof (digits_value _ 0 (Forall_take _ 9 _ (digits_Forall s)) ltac:(lia)) as [H0 H1].
  set (l := take 9 (digits s).1) in *. split; [apply Z.mul_nonneg_nonneg; lia|].
  assert (10 ^ Z.of_nat (length l) * 10 ^ (9 - Z.of_nat (length l)) = 1000000000)%Z as Hp.
  { rewrite <-Z.pow_add_r by lia. by replace (Z.of_nat (length l) + (9 - Z.of_nat (length l)))%Z with 9%Z by lia. }
  pose proof (Z.pow_pos_nonneg 10 (9 - Z.of_nat (length l)) ltac:(lia) ltac:(lia)). nia.
Qed.
Lemma within_bounds lo hi r n s : within_range lo hi r = Some (n, s) → (lo <= n <= hi)%Z.
Proof.
  unfold within_range. destruct r as [[k l]|]; [|done]. cbn. destruct (_ && _) eqn:Hb; [|done]. intros [= <- <-].
  apply andb_true_iff in Hb as [?%Z.leb_le ?%Z.leb_le]. lia.
Qed.

Lemma time_value_storable value t zone : time_value value = Some (t, zone, 0%Z) → storable t.
Proof.
  unfold time_value. intros Hv.
  repeat match goal with
  | Hx : mbind _ _ = Some _ |- _ => apply bind_Some in Hx as ([? ?] & ? & Hx)
  | Hx : mbind _ _ = Some _ |- _ => apply bind_Some in Hx as (? & ? & Hx)
  end.
  match type of Hv with context [let '(_, _) := ?p in _] => destruct p as [? ?] end.
  cbv zeta in Hv. destruct (null _ && _ && _) eqn:Hb; [|done]. injection Hv as <- _ ->.
  apply andb_true_iff in Hb as [[_ Hd1%Z.leb_le]%andb_true_iff Hd2%Z.leb_le].
  repeat match goal with Hw : within_range _ _ _ = Some _ |- _ => apply within_bounds in Hw end.
  match goal with Hg : getyear _ = Some (?y, _) |- _ =>
    assert (Hy : (0 <= y < 10000)%Z) by (unfold getyear in Hg; apply bind_Some in Hg as ([? ?] & ?%getnum_range & Hg);
      apply bind_Some in Hg as ([? ?] & ?%getnum_range & Hg); injection Hg as <- _; lia) end.
  match goal with Hd2 : (_ <= daysIn ?m ?y)%Z |- _ => pose proof (daysIn_31 m y) end.
  match goal with |- context [days_from_civil ?y ?m ?d] =>
    pose proof (days_from_civil_range y m d ltac:(done) ltac:(lia) ltac:(lia)) end.
  match goal with |- context [fraction ?s] => pose proof (fraction_range s) end. unfold storable. lia.
Qed.

(** ** Lists of strings *)

(** A string as [encoding/json] writes it: bytes that are not UTF-8 become
    U+FFFD. *)
Definition valid_text (s : string) : string := to_valid (bytes s).

(** A rune is decoded from its own bytes, whatever follows. *)
Lemma utf8_decode_runes s : ∀ r rest, r ∈ utf8_decode s → utf8_decode (rune_bytes r ++ rest) = 
  match r with Rune _ _ => r | BadByte _ => Rune 65533 (EncodeRune 65533) end :: utf8_decode rest.
Proof.
  enough (∀ n s, length s ≤ n → ∀ r rest, r ∈ utf8_decode s → utf8_decode (rune_bytes r ++ rest) =
    match r with Rune _ _ => r | BadByte _ => Rune 65533 (EncodeRune 65533) end :: utf8_decode rest) as Hall by (by apply (Hall (length s))).
  clear s. induction n as [|n IH]; intros [|b0 s1] Hlen r rest; try (cbn in Hlen; lia); try by intros ?%not_elem_of_nil.
  assert (Hbad : utf8_decode (rune_bytes (BadByte b0) ++ rest) = Rune 65533 (EncodeRune 65533) :: utf8_decode rest) by done.
  assert (Htail : r ∈ BadByte b0 :: utf8_decode s1 → utf8_decode (rune_bytes r ++ rest) =
    match r with Rune _ _ => r | BadByte _ => Rune 65533 (EncodeRune 65533) end :: utf8_decode rest).
  { intros [->|Hr]%elem_of_cons; [done|]. apply (IH s1); [cbn in *; lia|done]. }
  rewrite utf8_decode_cons. destruct (byte_val b0 <? 128)%Z eqn:H0.
  { intros [->|Hr]%elem_of_cons; [|apply (IH s1); [cbn in *; lia|done]]. cbn [rune_bytes app]. by rewrite utf8_decode_cons, H0. }
  destruct s1 as [|b1 s2]; [done|]. destruct (in_range 194 223 b0 && cont b1) eqn:H1.
  { intros [->|Hr]%elem_of_cons; [|apply (IH s2); [cbn in *; lia|done]]. cbn [rune_bytes app]. by rewrite utf8_decode_cons, H0, H1. }
  destruct s2 as [|b2 s3]; [done|]. destruct (second_of_three b0 b1 && cont b2) eqn:H2.
  { intros [->|Hr]%elem_of_cons; [|apply (IH s3); [cbn in *; lia|done]]. cbn [rune_bytes app]. by rewrite utf8_decode_cons, H0, H1, H2. }
  destruct s3 as [|b3 s4]; [done|]. destruct (second_of_four b0 b1 && cont b2 && cont b3) eqn:H3; [|done].
  intros [->|Hr]%elem_of_cons; [|apply (IH s4); [cbn in *; lia|done]]. cbn [rune_bytes app]. by rewrite utf8_decode_cons, H0, H1, H2, H3.
Qed.

Lemma valid_text_valid b : ValidString (to_valid b) = true.
Proof.
  unfold ValidString, to_valid. rewrite bytes_of_bytes. pose proof (utf8_decode_runes b) as Hr. revert Hr.
  generalize (utf8_decode b). intros l Hr. induction l as [|r l IH]; [done|]. cbn [map concat]. rewrite Hr by left.
  cbn [forallb]. rewrite IH by (intros; apply Hr; by right). by destruct r.
Qed.
Lemma valid_text_idem s : valid_text (valid_text s) = valid_text s.
Proof. apply to_valid_bytes, valid_text_valid. Qed.
Lemma valid_text_id s : ValidString s = true → valid_text s = s.
Proof. apply to_valid_bytes. Qed.

Lemma string_body_any s rest :
  string_body (bytes (foldr (λ r acc, json_rune r +:+ acc) "" (runes s) +:+ dquote) ++ rest) = Some (bytes (valid_text s), rest).
Proof.
  pose proof (utf8_decode_wf (bytes s)) as Hwf. unfold valid_text, to_valid, runes. rewrite bytes_of_bytes.
  revert Hwf. generalize (utf8_decode (bytes s)). intros l Hwf. induction Hwf as [|r l Hr _ IH]; [done|]. cbn [foldr map concat].
  rewrite append_assoc, bytes_app, <-app_assoc.
  destruct r as [code enc|b]; [rewrite string_body_rune by auto; by rewrite IH|].
  etrans; [exact (string_body_u (hex_digit 15) (hex_digit 15) (hex_digit 15) (hex_digit 13) 65533 _ eq_refl eq_refl)|]. by rewrite IH.
Qed.
Lemma string_value_any fuel s rest :
  json_value (S fuel) (bytes (json_quote s) ++ rest) = Some (JString (valid_text s), rest).
Proof.
  unfold json_quote. rewrite bytes_dquote, json_value_quote, string_body_any. cbn. do 3 f_equal. apply valid_text_idem.
Qed.

Lemma json_elements_step fuel s : json_elements (S fuel) s =
  '(v, rest) ← json_value fuel s;
  match skip_space rest with
  | c :: r =>
      if is_byte 93 c then Some ([v], r) else if is_byte 44 c then '(vs, r) ← json_elements fuel r; Some (v :: vs, r) else None
  | [] => None
  end.
Proof. done. Qed.
Lemma strings_back l : ∀ rest fuel, l ≠ [] → length l < fuel →
  json_elements fuel (bytes (Join (map json_quote l) ",") ++ byte_of 93 :: rest) = Some (map (JString ∘ valid_text) l, rest).
Proof.
  induction l as [|x l IH]; intros rest [|[|fuel]] Hne Hf; try done; cbn in Hf; try lia. cbn [map]. rewrite json_elements_step, bytes_Join_cons, <-app_assoc, string_value_any.
  cbn [mbind option_bind]. destruct l as [|y l]; [done|]. cbn [map]. change (bytes "," ++ ?a) with (byte_of 44 :: a). cbn [app].
  rewrite skip_visible by done. change (is_byte 93 (byte_of 44)) with false. change (is_byte 44 (byte_of 44)) with true. cbn iota.
  specialize (IH rest (S fuel) ltac:(done) ltac:(cbn in *; lia)). cbn [map] in IH. by rewrite IH.
Qed.

(** What a list of strings is parsed to, and that it is JSON. *)
Lemma strings_value l rest fuel : length l < fuel →
  json_value (S fuel) (bytes (json_print (JArray (map JString l))) ++ rest) = Some (JArray (map (JString ∘ valid_text) l), rest).
Proof.
  intros Hf. cbn [json_print]. rewrite map_map, !bytes_app, <-!app_assoc.
  change (bytes "[" ++ ?a ++ bytes "]" ++ ?b) with (byte_of 91 :: a ++ byte_of 93 :: b). rewrite json_value_array.
  destruct l as [|x l]; [done|]. pose proof (strings_back (x :: l) rest fuel ltac:(done) Hf) as Hb.
  change (map (λ x, json_print (JString x))) with (map json_quote).
  destruct (json_elements_start _ _ _ Hb) as (d & r' & -> & ->). by rewrite Hb.
Qed.
Lemma strings_parse l : json_parse (json_print (JArray (map JString l))) = Some (JArray (map (JString ∘ valid_text) l)).
Proof.
  set (s := json_print (JArray (map JString l))). set (fuel := S (length l + 2 * String.length s + 1)).
  pose proof (strings_value l [] fuel ltac:(lia)) as Hv. rewrite app_nil_r in Hv.
  apply (json_parse_fuel _ (S fuel) _ []); [exact Hv|lia|done].
Qed.

Lemma parse_Valid s v : json_parse s = Some v → (depth v <= maxNestingDepth)%Z → json_Valid s = true.
Proof.
  unfold json_parse, json_Valid, first_value. intros ([w rest] & Hv & Hrest)%bind_Some Hd.
  destruct (null (skip_space rest)) eqn:Hnull; [|done]. injection Hrest as ->. pose proof (skip_space_length (bytes s)) as Hl.
  rewrite <-length_bytes, <-json_value_skip in Hv.
  rewrite (proj1 (json_fuel _ (skip_space (bytes s)) _ (2 * length (bytes s) + 2) ltac:(done))) by (unfold value_fuel; lia).
  rewrite Hv. cbn [mbind option_bind]. rewrite (proj2 (Z.ltb_ge _ _)) by done. done.
Qed.
Lemma strings_Valid l : json_Valid (json_print (JArray (map JString l))) = true.
Proof.
  apply (parse_Valid _ _ (strings_parse l)). cbn [depth]. unfold maxNestingDepth.
  assert (∀ l : list string, foldr (λ e acc, Z.max (depth e) acc) 0%Z (map (JString ∘ valid_text) l) = 0%Z) as ->; [|done].
  intros k. induction k as [|x k IH]; [done|]. cbn [map foldr]. by rewrite IH.
Qed.
