(* ===== verification/ExportRows.v ===== *)
(** * Reading rows for an export

    The loop bodies of the readers of [internal/adapters/sqlite/projects.go]
    that turn a row of a table into a record of a document ([readLogicalIssues]
    to [readLogicalGates]), without the latest time they collect, and the
    records that the rows of an import are read as: those of the document, with
    renamed identifiers ([restoredIssue] and so on), whatever the functions that
    make the rows do in between.

    Rows are read as the import leaves them; which of them an export selects (no
    archived issue, no active attempt) is not modelled. *)

From S2P Require Import Prelude GoStrings Errors Validation Issue Relation Attempt Gates Store ReviewStore Encoding Interchange.
From S2P Require Import ImportCheck ImportClosed ImportPlan ImportEvents ImportApply ImportStored Timestamps ReadBack.

(** ** Values of columns *)

Definition trim_zeros (s : string) : string :=
  let fix strip l := match l with c :: r => if is_byte 48 c then strip r else l | [] => [] end in
  of_bytes (rev (strip (rev (bytes s)))).
(** [time.RFC3339Nano], in UTC: the fraction without its trailing zeros. *)
Definition formatLogicalProjectTimestamp (t : Z) : string :=
  let secs := (t / 1000000000)%Z in
  let '(y, m, d) := civil_from_days (secs / 86400) in
  let tod := (secs mod 86400)%Z in
  let fraction := trim_zeros (zero_pad 9 (t mod 1000000000)) in
  zero_pad 4 y +:+ "-" +:+ zero_pad 2 m +:+ "-" +:+ zero_pad 2 d +:+ "T" +:+
  zero_pad 2 (tod / 3600) +:+ ":" +:+ zero_pad 2 (tod mod 3600 / 60) +:+ ":" +:+ zero_pad 2 (tod mod 60) +:+
  (if fraction =s "" then "" else "." +:+ fraction) +:+ "Z".
Example formatLogicalProjectTimestamp_examples :
  formatLogicalProjectTimestamp 1709208000000000005 = "2024-02-29T12:00:00.000000005Z" ∧
  formatLogicalProjectTimestamp 1709208000120000000 = "2024-02-29T12:00:00.12Z" ∧
  formatLogicalProjectTimestamp 1709208000000000000 = "2024-02-29T12:00:00Z".
Proof. vm_compute. split_and!; reflexivity. Qed.

(** [rows.Scan] refuses the row: what a row of another table gets. *)
Definition corruptLogicalProjectValue (field : string) : DomainError := corruptLogicalProjectField "sql" field "INVALID_VALUE".
(** [corruptLogicalProjectField] without a cause. *)
Definition corruptLogicalProjectFieldOnly (field code : string) : DomainError :=
  NewError CodeStorageCorrupt "stored logical project export is invalid" false [mkDetail None field code ""].

Section readers.
Context `{UnicodeTables, ULID, TimeErrors, JSONErrors}.

Definition strictID (field id : string) : result unit :=
  fail_if negb (ids_ParseStrict id) with corruptLogicalProjectField "ulid" field "INVALID_ULID" ;; Ok tt.
(** [if value.Valid]. *)
Definition ifValid {A} (value : option A) (k : A → result unit) : result unit :=
  match value with Some value => k value | None => Ok tt end.
Definition optionalTimestamp (field : string) (value : option string) : result (option string) :=
  match value with
  | Some value => t ← parseLogicalProjectTimestamp field value; Ok (Some (formatLogicalProjectTimestamp t))
  | None => Ok None
  end.

Definition invalidJSON (field : string) : DomainError :=
  corruptLogicalProjectField ("invalid JSON for " +:+ field) field "INVALID_JSON".
Definition parseLogicalJSONBytes (field value : string) : result string :=
  fail_if negb (json_Valid value) with invalidJSON field ;; Ok value.
Definition parseLogicalStringArray (field value : string) : result (list string) :=
  fail_if negb (json_Valid value) with invalidJSON field ;;
  let elements := match json_parse value with
    | Some JNull => Some []
    | Some (JArray elements) => mapM (λ e, string_of_json e "") elements
    | _ => None
    end in
  match elements with
  | Some l => Ok l
  | None => Err (corruptLogicalProjectField (json_error value field) field "INVALID_JSON_TYPE")
  end.
Definition optionalStringArray (field : string) (value : option string) : result (list string) :=
  match value with Some value => parseLogicalStringArray field value | None => Ok [] end.

Definition logicalPurposesForExport (purposes : list string) : option (list string) :=
  if bool_decide (purposes = DefaultReviewPurposes) then None else Some purposes.

(** ** Readers *)

Definition scanLogicalIssue (row : ImportedRow) : result LogicalIssue :=
  match row with
  | IssueColumns id _ type title description acceptance_criteria status priority parent_id blocked_reason version created_at
      updated_at closed_at =>
      try strictID "id" id ;;
      createdAt ← parseLogicalProjectTimestamp "created_at" created_at;
      updatedAt ← parseLogicalProjectTimestamp "updated_at" updated_at;
      try ifValid parent_id (strictID "parent_id") ;;
      Ok (mkLogicalIssue id type title description acceptance_criteria status priority parent_id blocked_reason None
            (formatLogicalProjectTimestamp createdAt) (formatLogicalProjectTimestamp updatedAt) closed_at
            (LogicalIssueVersionForExport version))
  | _ => Err (corruptLogicalProjectValue "issues")
  end.

Definition scanLogicalLabel (row : ImportedRow) : result LogicalLabel :=
  match row with
  | LabelColumns id name description created_at =>
      try strictID "id" id ;;
      createdAt ← parseLogicalProjectTimestamp "created_at" created_at;
      Ok (mkLogicalLabel id name description (formatLogicalProjectTimestamp createdAt))
  | _ => Err (corruptLogicalProjectValue "labels")
  end.

Definition scanLogicalIssueLabel (row : ImportedRow) : result LogicalIssueLabel :=
  match row with
  | IssueLabelColumns issue_id label_id =>
      try strictID "issue_id" issue_id ;;
      try strictID "label_id" label_id ;;
      Ok (mkLogicalIssueLabel issue_id label_id)
  | _ => Err (corruptLogicalProjectValue "issue_labels")
  end.

Definition scanLogicalRelation (row : ImportedRow) : result LogicalRelation :=
  match row with
  | RelationColumns id source_issue_id target_issue_id type created_at =>
      try strictID "id" id ;;
      try strictID "source_issue_id" source_issue_id ;;
      try strictID "target_issue_id" target_issue_id ;;
      createdAt ← parseLogicalProjectTimestamp "created_at" created_at;
      Ok (mkLogicalRelation id source_issue_id target_issue_id type None (formatLogicalProjectTimestamp createdAt))
  | _ => Err (corruptLogicalProjectValue "relations")
  end.

Definition scanLogicalComment (row : ImportedRow) : result LogicalComment :=
  match row with
  | CommentColumns id issue_id content author_label created_at edited_at =>
      try strictID "id" id ;;
      try strictID "issue_id" issue_id ;;
      createdAt ← parseLogicalProjectTimestamp "created_at" created_at;
      editedAt ← optionalTimestamp "edited_at" edited_at;
      Ok (mkLogicalComment id issue_id content None author_label (formatLogicalProjectTimestamp createdAt) editedAt)
  | _ => Err (corruptLogicalProjectValue "comments")
  end.

Definition scanLogicalDecision (row : ImportedRow) : result LogicalDecision :=
  match row with
  | DecisionColumns id issue_id title summary content status supersedes_id created_at =>
      try strictID "id" id ;;
      createdAt ← parseLogicalProjectTimestamp "created_at" created_at;
      try ifValid supersedes_id (strictID "supersedes_id") ;;
      try ifValid issue_id (strictID "issue_id") ;;
      Ok (mkLogicalDecision id issue_id title summary content status supersedes_id None (formatLogicalProjectTimestamp createdAt))
  | _ => Err (corruptLogicalProjectValue "decisions")
  end.

Definition scanLogicalAttempt (row : ImportedRow) : result LogicalAttempt :=
  match row with
  | AttemptColumns id issue_id agent_label kind status issue_version_at_start context_event_id_at_start lease_expires_at started_at
      last_heartbeat_at finished_at result_summary next_steps_json verification_json failure_reason_code
      interruption_reason_code reason_details =>
      try strictID "id" id ;;
      try strictID "issue_id" issue_id ;;
      leaseExpiresAt ← parseLogicalProjectTimestamp "lease_expires_at" lease_expires_at;
      startedAt ← parseLogicalProjectTimestamp "started_at" started_at;
      lastHeartbeatAt ← parseLogicalProjectTimestamp "last_heartbeat_at" last_heartbeat_at;
      nextSteps ← optionalStringArray "next_steps" next_steps_json;
      verification ← optionalStringArray "verification" verification_json;
      finishedAt ← optionalTimestamp "finished_at" finished_at;
      Ok (mkLogicalAttempt id issue_id None agent_label kind status issue_version_at_start context_event_id_at_start
            (formatLogicalProjectTimestamp leaseExpiresAt) (formatLogicalProjectTimestamp startedAt)
            (formatLogicalProjectTimestamp lastHeartbeatAt) finishedAt result_summary (Some nextSteps) (Some verification)
            failure_reason_code interruption_reason_code reason_details)
  | _ => Err (corruptLogicalProjectValue "attempts")
  end.

Definition scanLogicalAttemptNote (row : ImportedRow) : result LogicalAttemptNote :=
  match row with
  | AttemptNoteColumns id attempt_id kind content next_steps_json important created_at =>
      try strictID "id" id ;;
      try strictID "attempt_id" attempt_id ;;
      createdAt ← parseLogicalProjectTimestamp "created_at" created_at;
      nextSteps ← optionalStringArray "next_steps" next_steps_json;
      Ok (mkLogicalAttemptNote id attempt_id kind content (Some nextSteps) (important =? 1)%Z
            (formatLogicalProjectTimestamp createdAt))
  | _ => Err (corruptLogicalProjectValue "attempt_notes")
  end.

Definition scanLogicalArtifact (row : ImportedRow) : result LogicalArtifact :=
  match row with
  | ArtifactColumns id issue_id attempt_id type uri title metadata created_at =>
      try strictID "id" id ;;
      try strictID "issue_id" issue_id ;;
      createdAt ← parseLogicalProjectTimestamp "created_at" created_at;
      rawMetadata ← match metadata with Some metadata => parseLogicalJSONBytes "metadata" metadata | None => Ok "" end;
      Ok (mkLogicalArtifact id issue_id attempt_id type uri title rawMetadata (formatLogicalProjectTimestamp createdAt))
  | _ => Err (corruptLogicalProjectValue "artifacts")
  end.

Definition scanLogicalEvent (row : ImportedRow) : result LogicalEvent :=
  match row with
  | EventColumns id issue_id event_type attempt_id payload created_at source =>
      fail_if negb (source =s LogicalEventSourceIssue) && negb (source =s LogicalEventSourceReview)
        with corruptLogicalProjectFieldOnly "events" "INVALID_VALUE" ;;
      try ifValid issue_id (strictID "issue_id") ;;
      try ifValid attempt_id (strictID "attempt_id") ;;
      createdAt ← parseLogicalProjectTimestamp "created_at" created_at;
      payload ← parseLogicalJSONBytes "payload" payload;
      Ok (mkLogicalEvent id issue_id event_type None attempt_id payload (formatLogicalProjectTimestamp createdAt) source)
  | _ => Err (corruptLogicalProjectValue "events")
  end.

Definition scanLogicalReviewTarget (row : ImportedRow) : result LogicalReviewTarget :=
  match row with
  | ReviewTargetColumns id issue_id issue_version latest_event_id artifact_ids_json purposes_json created_at =>
      try strictID "id" id ;;
      try strictID "issue_id" issue_id ;;
      createdAt ← parseLogicalProjectTimestamp "created_at" created_at;
      artifactIDs ← parseLogicalStringArray "artifact_ids" artifact_ids_json;
      purposes ← parseLogicalStringArray "purposes" purposes_json;
      Ok (mkLogicalReviewTarget id issue_id issue_version latest_event_id (Some artifactIDs) (logicalPurposesForExport purposes)
            (formatLogicalProjectTimestamp createdAt))
  | _ => Err (corruptLogicalProjectValue "review_targets")
  end.

Definition scanLogicalReviewRequest (row : ImportedRow) : result LogicalReviewRequest :=
  match row with
  | ReviewRequestColumns id target_id issue_id target_issue_version target_event_id artifact_ids_json purposes_json status
      supersedes_id created_at resolved_at =>
      try strictID "id" id ;;
      try strictID "target_id" target_id ;;
      try strictID "issue_id" issue_id ;;
      createdAt ← parseLogicalProjectTimestamp "created_at" created_at;
      artifactIDs ← parseLogicalStringArray "artifact_ids" artifact_ids_json;
      purposes ← parseLogicalStringArray "purposes" purposes_json;
      resolvedAt ← optionalTimestamp "resolved_at" resolved_at;
      Ok (mkLogicalReviewRequest id target_id issue_id target_issue_version target_event_id (Some artifactIDs)
            (logicalPurposesForExport purposes) status supersedes_id (formatLogicalProjectTimestamp createdAt) resolvedAt)
  | _ => Err (corruptLogicalProjectValue "review_requests")
  end.

Definition scanLogicalReviewOutcome (row : ImportedRow) : result LogicalReviewOutcome :=
  match row with
  | ReviewOutcomeColumns id request_id attempt_id outcome reason created_at =>
      try strictID "id" id ;;
      try strictID "request_id" request_id ;;
      try strictID "attempt_id" attempt_id ;;
      createdAt ← parseLogicalProjectTimestamp "created_at" created_at;
      Ok (mkLogicalReviewOutcome id request_id attempt_id outcome reason (formatLogicalProjectTimestamp createdAt))
  | _ => Err (corruptLogicalProjectValue "review_outcomes")
  end.

Definition scanLogicalReservation (row : ImportedRow) : result LogicalReservation :=
  match row with
  | ReservationColumns id issue_id attempt_id kind display_value comparison_value normalized_json status created_at
      released_at release_reason =>
      fail_if negb (json_Valid normalized_json) with corruptLogicalProjectFieldOnly "normalized_json" "INVALID_JSON" ;;
      createdAt ← parseLogicalProjectTimestamp "created_at" created_at;
      releasedAt ← parseLogicalProjectTimestamp "released_at" released_at;
      Ok (mkLogicalReservation id issue_id attempt_id kind display_value comparison_value normalized_json status
            (formatLogicalProjectTimestamp createdAt) (formatLogicalProjectTimestamp releasedAt) release_reason)
  | _ => Err (corruptLogicalProjectValue "reservations")
  end.

Definition scanLogicalWorkflowPolicy (row : ImportedRow) : result LogicalWorkflowPolicy :=
  match row with
  | PolicyColumns id selector_json requirements_json status version created_at updated_at =>
      createdAt ← parseLogicalProjectTimestamp "created_at" created_at;
      updatedAt ← parseLogicalProjectTimestamp "updated_at" updated_at;
      Ok (mkLogicalWorkflowPolicy id selector_json requirements_json status version
            (formatLogicalProjectTimestamp createdAt) (formatLogicalProjectTimestamp updatedAt))
  | _ => Err (corruptLogicalProjectValue "workflow_policies")
  end.

(** The rows of the two event tables of gates are numbered by the engine. *)
Definition scanLogicalWorkflowPolicyEvent (sourceID : Z) (row : ImportedRow) : result LogicalWorkflowPolicyEvent :=
  match row with
  | PolicyEventColumns policy_id event_type session_id prior_version new_version payload created_at =>
      createdAt ← parseLogicalProjectTimestamp "created_at" created_at;
      Ok (mkLogicalWorkflowPolicyEvent sourceID policy_id event_type session_id prior_version new_version payload
            (formatLogicalProjectTimestamp createdAt))
  | _ => Err (corruptLogicalProjectValue "workflow_policy_events")
  end.

(** The columns of both tables of snapshots: the owner, the requirements, the
    policies, the fingerprint, the issue's version and the formatted time. *)
Definition scanLogicalGateSnapshot (table : string) (row : ImportedRow) : result (string * string * string * string * Z * string) :=
  match row with
  | AttemptSnapshotColumns owner_id requirements_json source_policies_json fingerprint issue_version created_at
  | TargetSnapshotColumns owner_id requirements_json source_policies_json fingerprint issue_version created_at =>
      createdAt ← parseLogicalProjectTimestamp "created_at" created_at;
      Ok (owner_id, requirements_json, source_policies_json, fingerprint, issue_version, formatLogicalProjectTimestamp createdAt)
  | _ => Err (corruptLogicalProjectValue table)
  end.
Definition scanLogicalAttemptGateSnapshot (row : ImportedRow) : result LogicalAttemptGateSnapshot :=
  snapshot ← scanLogicalGateSnapshot "attempt_gate_snapshots" row;
  let '(ownerID, requirements, sourcePolicies, fingerprint, issueVersion, createdAt) := snapshot in
  Ok (mkLogicalAttemptGateSnapshot ownerID requirements sourcePolicies fingerprint issueVersion createdAt).
Definition scanLogicalReviewTargetGateSnapshot (row : ImportedRow) : result LogicalReviewTargetGateSnapshot :=
  snapshot ← scanLogicalGateSnapshot "review_target_gate_snapshots" row;
  let '(ownerID, requirements, sourcePolicies, fingerprint, issueVersion, createdAt) := snapshot in
  Ok (mkLogicalReviewTargetGateSnapshot ownerID requirements sourcePolicies fingerprint issueVersion createdAt).

Definition scanLogicalGateEvidence (row : ImportedRow) : result LogicalGateEvidence :=
  match row with
  | EvidenceColumns id attempt_id issue_id key result summary details artifact_ids_json version created_at updated_at =>
      createdAt ← parseLogicalProjectTimestamp "created_at" created_at;
      updatedAt ← parseLogicalProjectTimestamp "updated_at" updated_at;
      artifactIDs ← parseLogicalStringArray "artifact_ids" artifact_ids_json;
      Ok (mkLogicalGateEvidence id attempt_id issue_id key result summary details (Some artifactIDs) version
            (formatLogicalProjectTimestamp createdAt) (formatLogicalProjectTimestamp updatedAt))
  | _ => Err (corruptLogicalProjectValue "gate_evidence")
  end.

Definition scanLogicalGateEvidenceEvent (sourceID : Z) (row : ImportedRow) : result LogicalGateEvidenceEvent :=
  match row with
  | EvidenceEventColumns evidence_id attempt_id issue_id key event_type version payload created_at =>
      createdAt ← parseLogicalProjectTimestamp "created_at" created_at;
      Ok (mkLogicalGateEvidenceEvent sourceID evidence_id attempt_id issue_id key event_type version payload
            (formatLogicalProjectTimestamp createdAt))
  | _ => Err (corruptLogicalProjectValue "gate_evidence_events")
  end.

Definition scanLogicalReviewApproval (row : ImportedRow) : result LogicalReviewApproval :=
  match row with
  | ApprovalColumns id issue_id target_id request_id attempt_id purpose target_issue_version target_event_id version created_at =>
      createdAt ← parseLogicalProjectTimestamp "created_at" created_at;
      Ok (mkLogicalReviewApproval id issue_id target_id request_id attempt_id purpose target_issue_version target_event_id
            version (formatLogicalProjectTimestamp createdAt))
  | _ => Err (corruptLogicalProjectValue "review_approvals")
  end.
End readers.

(** ** What an import restores

    The record an export gets for a record of the document: identifiers and
    references are those drawn for the import, a time is the instant of the
    document's text, a list of strings the document's, and positions are moved
    with the log.  The session of a record is no part of a document; the time an
    issue was closed, the label of a comment's author and an absent list are lost
    ([None], the empty list). *)
Section restored.
Context `{UnicodeTables, ULID, TimeErrors, JSONErrors}.
Context (dest : LogicalProjectImportDestinationIDs) (eventCursors : LogicalEventCursorMapping).

Definition instant (value : string) : Z := default 0%Z (parseStorageTime value).
Definition restoredTime (value : string) : string := formatLogicalProjectTimestamp (instant value).
Definition restoredStrings (l : option (list string)) : list string := map valid_text (default [] l).
(** The purposes in their order, unless they are the default. *)
Definition restoredPurposes (purposes : option (list string)) : option (list string) :=
  l ← purposes;
  match ValidateReviewPurposes l with
  | Ok normalized => if bool_decide (map valid_text normalized = ["implementation"]) then None else Some (map valid_text normalized)
  | Err _ => None
  end.

Definition renamed (m : gmap string string) (id : option string) : option string := option_map (at_key m) id.

Definition restoredLabel (x : LogicalLabel) : LogicalLabel :=
  mkLogicalLabel (at_key (di_LabelIDs dest) (lla_ID x)) (lla_Name x) (lla_Description x) (restoredTime (lla_CreatedAt x)).
Definition restoredIssue (x : LogicalIssue) : LogicalIssue :=
  mkLogicalIssue (at_key (di_IssueIDs dest) (lis_ID x)) (lis_Type x) (lis_Title x) (lis_Description x) (lis_AcceptanceCriteria x)
    (lis_Status x) (lis_Priority x) (renamed (di_IssueIDs dest) (lis_ParentID x)) (lis_BlockedReason x) None
    (restoredTime (lis_CreatedAt x)) (restoredTime (lis_UpdatedAt x)) None
    (if bool_decide (lis_Version x = Some 1%Z) then None else lis_Version x).
Definition restoredIssueLabel (x : LogicalIssueLabel) : LogicalIssueLabel :=
  mkLogicalIssueLabel (at_key (di_IssueIDs dest) (lil_IssueID x)) (at_key (di_LabelIDs dest) (lil_LabelID x)).
(** The issues of [related_to] change places when the lesser is not first. *)
Definition restoredRelation (x : LogicalRelation) : LogicalRelation :=
  let source := at_key (di_IssueIDs dest) (lre_SourceIssueID x) in
  let target := at_key (di_IssueIDs dest) (lre_TargetIssueID x) in
  let swapped := (lre_Type x =s "related_to") && str_less target source in
  mkLogicalRelation (at_key (di_RelationIDs dest) (lre_ID x)) (if swapped then target else source)
    (if swapped then source else target) (lre_Type x) None (restoredTime (lre_CreatedAt x)).
Definition restoredComment (x : LogicalComment) : LogicalComment :=
  mkLogicalComment (at_key (di_CommentIDs dest) (lco_ID x)) (at_key (di_IssueIDs dest) (lco_IssueID x)) (lco_Content x) None None
    (restoredTime (lco_CreatedAt x)) (option_map restoredTime (lco_EditedAt x)).
Definition restoredDecision (x : LogicalDecision) : LogicalDecision :=
  mkLogicalDecision (at_key (di_DecisionIDs dest) (lde_ID x)) (renamed (di_IssueIDs dest) (lde_IssueID x)) (lde_Title x) (lde_Summary x)
    (lde_Content x) (lde_Status x) (renamed (di_DecisionIDs dest) (lde_SupersedesID x)) None (restoredTime (lde_CreatedAt x)).
Definition restoredAttempt (x : LogicalAttempt) : LogicalAttempt :=
  mkLogicalAttempt (at_key (di_AttemptIDs dest) (lat_ID x)) (at_key (di_IssueIDs dest) (lat_IssueID x)) None (lat_AgentLabel x)
    (lat_Kind x) (lat_Status x) (lat_IssueVersionAtStart x) (Remap eventCursors (lat_ContextEventIDAtStart x))
    (restoredTime (lat_LeaseExpiresAt x)) (restoredTime (lat_StartedAt x)) (restoredTime (lat_LastHeartbeatAt x))
    (option_map restoredTime (lat_FinishedAt x)) (lat_ResultSummary x) (Some (restoredStrings (lat_NextSteps x)))
    (Some (restoredStrings (lat_Verification x))) (lat_FailureReasonCode x) (lat_InterruptionReasonCode x) (lat_ReasonDetails x).
Definition restoredAttemptNote (x : LogicalAttemptNote) : LogicalAttemptNote :=
  mkLogicalAttemptNote (at_key (di_AttemptNoteIDs dest) (lno_ID x)) (at_key (di_AttemptIDs dest) (lno_AttemptID x)) (lno_Kind x)
    (lno_Content x) (Some (restoredStrings (lno_NextSteps x))) (lno_Important x) (restoredTime (lno_CreatedAt x)).
Definition restoredArtifact (x : LogicalArtifact) : LogicalArtifact :=
  mkLogicalArtifact (at_key (di_ArtifactIDs dest) (lar_ID x)) (at_key (di_IssueIDs dest) (lar_IssueID x))
    (renamed (di_AttemptIDs dest) (lar_AttemptID x)) (lar_Type x) (lar_URI x) (lar_Title x) (lar_Metadata x)
    (restoredTime (lar_CreatedAt x)).
(** The payload of a review event names its request, target, attempt and issue:
    each by its new identifier, if the document has the record; what else is in
    the payload stays.  No other event's payload changes. *)
Definition renamedMember (key raw : string) : option string :=
  m ← (if key =s "request_id" then Some (di_ReviewRequestIDs dest)
       else if key =s "target_id" then Some (di_ReviewTargetIDs dest)
       else if key =s "attempt_id" then Some (di_AttemptIDs dest)
       else if key =s "issue_id" then Some (di_IssueIDs dest) else None);
  id ← string_of raw ""; new ← m !! id; Some (json_quote new).
Definition renamesMember (fields : gmap string string) (key : string) : bool := isSet (raw ← fields !! key; renamedMember key raw).
Definition restoredPayload (x : LogicalEvent) : string :=
  if ReviewEventType_Valid (lev_EventType x) then
    match raw_map_of (lev_Payload x) ∅ with
    | Some fields =>
        if existsb (renamesMember fields) ["request_id"; "target_id"; "attempt_id"; "issue_id"]
        then marshal_raw_map (map_imap (λ key raw, Some (default raw (renamedMember key raw))) fields)
        else lev_Payload x
    | None => lev_Payload x
    end
  else lev_Payload x.
Definition restoredEvent (id : Z) (x : LogicalEvent) : LogicalEvent :=
  mkLogicalEvent id (renamed (di_IssueIDs dest) (lev_IssueID x)) (lev_EventType x) None (renamed (di_AttemptIDs dest) (lev_AttemptID x))
    (restoredPayload x) (restoredTime (lev_CreatedAt x)) (if lev_Source x =s "" then "issue" else lev_Source x).
Definition restoredReviewTarget (x : LogicalReviewTarget) : LogicalReviewTarget :=
  mkLogicalReviewTarget (at_key (di_ReviewTargetIDs dest) (lrt_ID x)) (at_key (di_IssueIDs dest) (lrt_IssueID x)) (lrt_IssueVersion x)
    (Remap eventCursors (lrt_LatestEventID x)) (Some (map (at_key (di_ArtifactIDs dest)) (default [] (lrt_ArtifactIDs x))))
    (restoredPurposes (lrt_Purposes x)) (restoredTime (lrt_CreatedAt x)).
Definition restoredReviewRequest (x : LogicalReviewRequest) : LogicalReviewRequest :=
  mkLogicalReviewRequest (at_key (di_ReviewRequestIDs dest) (lrr_ID x)) (at_key (di_ReviewTargetIDs dest) (lrr_TargetID x))
    (at_key (di_IssueIDs dest) (lrr_IssueID x)) (lrr_TargetIssueVersion x) (Remap eventCursors (lrr_TargetEventID x))
    (Some (map (at_key (di_ArtifactIDs dest)) (default [] (lrr_ArtifactIDs x)))) (restoredPurposes (lrr_Purposes x)) (lrr_Status x)
    (renamed (di_ReviewRequestIDs dest) (lrr_SupersedesID x)) (restoredTime (lrr_CreatedAt x)) (option_map restoredTime (lrr_ResolvedAt x)).
Definition restoredReviewOutcome (x : LogicalReviewOutcome) : LogicalReviewOutcome :=
  mkLogicalReviewOutcome (at_key (di_ReviewOutcomeIDs dest) (lro_ID x)) (at_key (di_ReviewRequestIDs dest) (lro_RequestID x))
    (at_key (di_AttemptIDs dest) (lro_AttemptID x)) (lro_Outcome x) (lro_Reason x) (restoredTime (lro_CreatedAt x)).
Definition restoredReservation (x : LogicalReservation) : LogicalReservation :=
  mkLogicalReservation (at_key (di_ReservationIDs dest) (lrs_ID x)) (at_key (di_IssueIDs dest) (lrs_IssueID x))
    (at_key (di_AttemptIDs dest) (lrs_AttemptID x)) (lrs_Kind x) (lrs_DisplayValue x) (lrs_ComparisonValue x) (lrs_NormalizedJSON x)
    (lrs_Status x) (restoredTime (lrs_CreatedAt x)) (restoredTime (lrs_ReleasedAt x)) (lrs_ReleaseReason x).
Definition restoredPolicy (x : LogicalWorkflowPolicy) : LogicalWorkflowPolicy :=
  mkLogicalWorkflowPolicy (at_key (di_WorkflowPolicyIDs dest) (lwp_ID x)) (lwp_SelectorJSON x) (lwp_RequirementsJSON x) (lwp_Status x)
    (lwp_Version x) (restoredTime (lwp_CreatedAt x)) (restoredTime (lwp_UpdatedAt x)).
Definition restoredPolicyEvent (id : Z) (x : LogicalWorkflowPolicyEvent) : LogicalWorkflowPolicyEvent :=
  mkLogicalWorkflowPolicyEvent id (at_key (di_WorkflowPolicyIDs dest) (lpe_PolicyID x)) (lpe_EventType x) None (lpe_PriorVersion x)
    (lpe_NewVersion x) (lpe_Payload x) (restoredTime (lpe_CreatedAt x)).
Definition restoredAttemptSnapshot (x : LogicalAttemptGateSnapshot) : LogicalAttemptGateSnapshot :=
  mkLogicalAttemptGateSnapshot (at_key (di_AttemptIDs dest) (las_AttemptID x)) (las_RequirementsJSON x) (las_SourcePoliciesJSON x)
    (las_Fingerprint x) (las_IssueVersion x) (restoredTime (las_CreatedAt x)).
(** Every target gets a snapshot: the document's, else one that requires
    nothing of the target's version. *)
Definition restoredTargetSnapshot (snapshots : list LogicalReviewTargetGateSnapshot) (t : LogicalReviewTarget)
    (restored : LogicalReviewTargetGateSnapshot) : Prop :=
  (∃ x, x ∈ snapshots ∧ lts_TargetID x = lrt_ID t ∧
    restored = mkLogicalReviewTargetGateSnapshot (at_key (di_ReviewTargetIDs dest) (lrt_ID t)) (lts_RequirementsJSON x)
      (lts_SourcePoliciesJSON x) (lts_Fingerprint x) (lts_IssueVersion x) (restoredTime (lts_CreatedAt x))) ∨
  (lrt_ID t ∉ map lts_TargetID snapshots ∧
    restored = mkLogicalReviewTargetGateSnapshot (at_key (di_ReviewTargetIDs dest) (lrt_ID t)) "[]" "[]"
      (String.concat "" (repeat "0" 64)) (lrt_IssueVersion t) (restoredTime (lrt_CreatedAt t))).
Definition restoredEvidence (x : LogicalGateEvidence) : LogicalGateEvidence :=
  mkLogicalGateEvidence (at_key (di_GateEvidenceIDs dest) (lge_ID x)) (at_key (di_AttemptIDs dest) (lge_AttemptID x))
    (at_key (di_IssueIDs dest) (lge_IssueID x)) (lge_Key x) (lge_Result x) (lge_Summary x) (lge_Details x)
    (Some (map (at_key (di_ArtifactIDs dest)) (default [] (lge_ArtifactIDs x)))) (lge_Version x) (restoredTime (lge_CreatedAt x))
    (restoredTime (lge_UpdatedAt x)).
Definition restoredEvidenceEvent (id : Z) (x : LogicalGateEvidenceEvent) : LogicalGateEvidenceEvent :=
  mkLogicalGateEvidenceEvent id (at_key (di_GateEvidenceIDs dest) (lee_EvidenceID x)) (at_key (di_AttemptIDs dest) (lee_AttemptID x))
    (at_key (di_IssueIDs dest) (lee_IssueID x)) (lee_Key x) (lee_EventType x) (lee_Version x) (lee_Payload x)
    (restoredTime (lee_CreatedAt x)).
Definition restoredApproval (x : LogicalReviewApproval) : LogicalReviewApproval :=
  mkLogicalReviewApproval (at_key (di_ReviewApprovalIDs dest) (lra_ID x)) (at_key (di_IssueIDs dest) (lra_IssueID x))
    (at_key (di_ReviewTargetIDs dest) (lra_TargetID x)) (at_key (di_ReviewRequestIDs dest) (lra_RequestID x))
    (at_key (di_AttemptIDs dest) (lra_AttemptID x)) (lra_Purpose x) (lra_TargetIssueVersion x)
    (Remap eventCursors (lra_TargetEventID x)) (lra_Version x) (restoredTime (lra_CreatedAt x)).

(** ** The rows are read as the restored records *)

Lemma parseStorageTime_format t : storable t → parseStorageTime (formatStorageTime t) = Some t.
Proof. intros Ht. unfold parseStorageTime. by rewrite time_value_format. Qed.
Lemma parseStorageTime_storable value t : parseStorageTime value = Some t → storable t.
Proof.
  unfold parseStorageTime. intros ([[u zone] offset] & Hv & Ho)%bind_Some. destruct (Z.eqb_spec offset 0) as [->|]; [|done].
  injection Ho as ->. by eapply time_value_storable.
Qed.
Lemma timeColumn_read field value column field' : timeColumn field value = Ok column →
  parseLogicalProjectTimestamp field' column = Ok (instant value).
Proof.
  unfold timeColumn, instant. intros (t & Ht & [= <-])%result_bind_Ok. unfold parseLogicalProjectTimestamp in *.
  destruct (parseStorageTime value) as [u|] eqn:Hu; [|done]. injection Ht as ->.
  by rewrite parseStorageTime_format by (by eapply parseStorageTime_storable).
Qed.
Lemma optionalTimeColumn_read field value column field' : optionalTimeColumn field value = Ok column →
  optionalTimestamp field' column = Ok (option_map restoredTime value).
Proof.
  destruct value as [value|]; cbn; [|by intros [= <-]]. intros (c & Hc & [= <-])%result_bind_Ok. cbn.
  by rewrite (timeColumn_read _ _ _ field' Hc).
Qed.

Lemma marshalled_read field l : parseLogicalStringArray field (marshal_strings l) = Ok (map valid_text l).
Proof.
  unfold parseLogicalStringArray, marshal_strings. rewrite strings_Valid, strings_parse. cbn [negb].
  assert (mapM (λ e, string_of_json e "") (map (JString ∘ valid_text) l) = Some (map valid_text l)) as ->; [|done].
  induction l as [|x l IH]; [done|]. cbn [map]. cbn. by rewrite IH.
Qed.
Lemma stringsColumn_read field l : optionalStringArray field (stringsColumn l) = Ok (restoredStrings l).
Proof. destruct l as [[|x l]|]; [done| |done]. apply marshalled_read. Qed.
Lemma purposes_read field purposes column : logicalPurposesJSONForImport purposes = Ok column →
  ∃ l, parseLogicalStringArray field column = Ok l ∧ logicalPurposesForExport l = restoredPurposes purposes.
Proof.
  unfold logicalPurposesJSONForImport, restoredPurposes. destruct purposes as [purposes|].
  - intros (normalized & Hn & [= <-])%result_bind_Ok. rewrite marshalled_read. eexists. split; [done|].
    cbn [mbind option_bind]. by rewrite Hn.
  - intros [= <-]. rewrite marshalled_read. by eexists.
Qed.

(** Identifiers that [ids.ParseStrict] accepts, in a row's key and references. *)
Definition strict_key (key : string * PrimaryKey) : Prop :=
  match key.2 with IdKey id => ids_ParseStrict id = true | _ => True end.
Definition strict_row (row : ImportedRow) : Prop :=
  Forall strict_key (match row_key row with Some key => [key] | None => [] end ++ row_references row).
Definition strict_map (m : gmap string string) : Prop := ∀ id x, m !! id = Some x → ids_ParseStrict x = true.

Lemma strictID_Ok field id : ids_ParseStrict id = true → strictID field id = Ok tt.
Proof. unfold strictID. by intros ->. Qed.
Lemma ifValid_Ok table field (id : option string) :
  Forall strict_key (optional_key table id) → ifValid id (strictID field) = Ok tt.
Proof. destruct id as [id|]; [|done]. cbn. intros [Hs _]%Forall_cons. by apply strictID_Ok. Qed.

Lemma strict_valid `{!ULIDLaws} id : ids_ParseStrict id = true → valid_text id = id.
Proof.
  unfold ids_ParseStrict. destruct (ulid_ParseStrict id) as [c|] eqn:Hc; [|done]. intros ->%eqb_string_true.
  apply valid_text_id, ascii_valid. pose proof (ulid_base32 _ _ Hc) as Hb. clear Hc. unfold is_ascii.
  induction id as [|b id IH]; [done|]. cbn in Hb |- *. apply orb_false_iff in Hb as [Hb Hid]. apply negb_false_iff in Hb.
  rewrite negb_orb, (IH Hid), andb_true_r, negb_involutive. unfold ascii_byte. apply orb_true_iff in Hb as [Hb|Hb]; apply in_range_spec in Hb; lia.
Qed.
Lemma artifacts_read `{!ULIDLaws} field artifactIDs column : strict_map (di_ArtifactIDs dest) →
  marshalImportedArtifactIDs artifactIDs (di_ArtifactIDs dest) = Ok column →
  parseLogicalStringArray field column = Ok (map (at_key (di_ArtifactIDs dest)) (default [] artifactIDs)).
Proof.
  intros Hm. unfold marshalImportedArtifactIDs. intros (l & Hl%collect_Ok & [= <-])%result_bind_Ok. rewrite marshalled_read. f_equal.
  induction Hl as [|x y xs ys Hx _ IH]; [done|]. cbn [map]. f_equal; [|done]. inv_ok. apply strict_valid.
  match goal with Hne : (_ =s _) = false |- _ => apply eqb_string_false in Hne as Hne' end.
  unfold at_key in *. destruct (di_ArtifactIDs dest !! x) as [z|] eqn:Hz; [|done]. by apply (Hm x).
Qed.

(** Take a row function and a strict row apart, and read what it stored. *)
Ltac split_row Hr Hs :=
  autounfold with import_rows in Hr; inv_ok; unfold strict_row in Hs; cbn [row_key row_references app] in Hs;
  repeat first [rewrite Forall_app in Hs|rewrite Forall_cons in Hs]; destruct_and? Hs.
Ltac read_row :=
  repeat first
  [ progress cbn [mbind result_bind]
  | rewrite strictID_Ok by assumption
  | erewrite ifValid_Ok by eassumption
  | erewrite timeColumn_read by eassumption
  | erewrite optionalTimeColumn_read by eassumption
  | rewrite stringsColumn_read ].

Lemma label_restored x row : labelRow dest x = Ok row → strict_row row → scanLogicalLabel row = Ok (restoredLabel x).
Proof. intros Hr Hs. split_row Hr Hs. cbn [scanLogicalLabel]. read_row. done. Qed.
Lemma issue_restored next i x row : issueRow dest next (i, x) = Ok row → strict_row row →
  (∀ p, lis_ParentID x = Some p → is_Some (di_IssueIDs dest !! p)) → scanLogicalIssue row = Ok (restoredIssue x).
Proof.
  intros Hr Hs Hp. unfold issueRow in Hr. split_row Hr Hs. cbn [scanLogicalIssue]. read_row. unfold restoredIssue.
  assert ((p ← lis_ParentID x; di_IssueIDs dest !! p) = renamed (di_IssueIDs dest) (lis_ParentID x)) as <-.
  { destruct (lis_ParentID x) as [p|]; [|done]. destruct (Hp p eq_refl) as [y Hy]. cbn. unfold at_key. by rewrite Hy. }
  do 2 f_equal. destruct (lis_Version x) as [v|]; [|done]. cbn. unfold LogicalIssueVersionForExport, DefaultLogicalIssueVersion.
  case_bool_decide as Hv; [injection Hv as ->; done|]. destruct (Z.eqb_spec v 1); [congruence|done].
Qed.
Lemma issueLabel_restored x row : issueLabelRow dest x = Ok row → strict_row row → scanLogicalIssueLabel row = Ok (restoredIssueLabel x).
Proof. intros Hr Hs. split_row Hr Hs. cbn [scanLogicalIssueLabel]. read_row. done. Qed.
Lemma relation_restored x row : relationRow dest x = Ok row → strict_row row → scanLogicalRelation row = Ok (restoredRelation x).
Proof.
  intros Hr Hs. unfold restoredRelation, relationRow, CanonicalRelationEndpoints in *. change RelationTypeRelatedTo with "related_to" in Hr.
  destruct (_ && _); split_row Hr Hs; cbn [scanLogicalRelation]; read_row; done.
Qed.
Lemma comment_restored x row : commentRow dest x = Ok row → strict_row row → scanLogicalComment row = Ok (restoredComment x).
Proof. intros Hr Hs. split_row Hr Hs. cbn [scanLogicalComment]. read_row. done. Qed.
Lemma decision_restored x row : decisionRow dest x = Ok row → strict_row row → scanLogicalDecision row = Ok (restoredDecision x).
Proof. intros Hr Hs. split_row Hr Hs. cbn [scanLogicalDecision]. read_row. done. Qed.
Lemma attempt_restored x row : attemptRow dest (movedAttempt eventCursors x) = Ok row → strict_row row →
  scanLogicalAttempt row = Ok (restoredAttempt x).
Proof. intros Hr Hs. split_row Hr Hs. cbn [scanLogicalAttempt]. read_row. done. Qed.
Lemma attemptNote_restored x row : attemptNoteRow dest x = Ok row → strict_row row → scanLogicalAttemptNote row = Ok (restoredAttemptNote x).
Proof. intros Hr Hs. split_row Hr Hs. cbn [scanLogicalAttemptNote]. read_row. by destruct x as [? ? ? ? ? [] ?]. Qed.
Lemma artifact_restored x row : artifactRow dest x = Ok row → strict_row row → metadata_ok x →
  scanLogicalArtifact row = Ok (restoredArtifact x).
Proof.
  intros Hr Hs Hm. split_row Hr Hs. cbn [scanLogicalArtifact]. read_row. unfold nullableStringFromRawMessage, restoredArtifact.
  destruct (String.eqb_spec (lar_Metadata x) "") as [->|Hne]; [done|]. unfold parseLogicalJSONBytes. by rewrite (Hm Hne).
Qed.
Definition payloadReferences : LogicalEventPayloadReferences :=
  mkPayloadReferences (di_IssueIDs dest) (di_AttemptIDs dest) (di_ReviewTargetIDs dest) (di_ReviewRequestIDs dest).
(** One key of the loop. *)
Definition renameKey (key : string) (fields : gmap string string) : gmap string string :=
  partial_alter (λ raw, match raw ≫= renamedMember key with Some encoded => Some encoded | None => raw end) key fields.
Lemma remapKey_renames key m fields rewritten : (key, m) ∈ logicalReviewEventPayloadKeys payloadReferences →
  remapKey (fields, rewritten) (key, m) = (renameKey key fields, rewritten || renamesMember fields key).
Proof.
  intros Hkey. assert (Hr : remapped fields (key, m) = fields !! key ≫= renamedMember key).
  { unfold remapped. cbn [fst snd]. destruct (fields !! key) as [raw|]; [|done]. cbn.
    by repeat (apply elem_of_cons in Hkey as [[= -> ->]|Hkey]; [done|]); apply not_elem_of_nil in Hkey. }
  unfold remapKey, renamesMember, renameKey. cbn [fst snd]. rewrite Hr.
  assert (Hsame : ∀ o : option string, fields !! key = o → o ≫= renamedMember key = None → fields =
    partial_alter (λ raw, match raw ≫= renamedMember key with Some encoded => Some encoded | None => raw end) key fields).
  { intros o Ho Hn. apply map_eq. intros k. destruct (decide (k = key)) as [->|Hne]; [|by rewrite lookup_partial_alter_ne].
    by rewrite lookup_partial_alter_eq, Ho, Hn. }
  destruct (fields !! key ≫= renamedMember key) as [encoded|] eqn:He; cbn [isSet]; rewrite ?orb_true_r, ?orb_false_r; f_equal;
    [|by eapply Hsame]. apply map_eq. intros k. destruct (decide (k = key)) as [->|Hne].
  - by rewrite lookup_insert_eq, lookup_partial_alter_eq, He.
  - by rewrite lookup_insert_ne, lookup_partial_alter_ne.
Qed.
Lemma renameKey_other key k fields : k ≠ key → renameKey key fields !! k = fields !! k.
Proof. intros Hne. unfold renameKey. by rewrite lookup_partial_alter_ne. Qed.
Lemma renameKey_own key fields : renameKey key fields !! key = (raw ← fields !! key; Some (default raw (renamedMember key raw))).
Proof. unfold renameKey. rewrite lookup_partial_alter_eq. destruct (fields !! key) as [raw|]; [|done]. cbn [mbind option_bind]. by destruct (renamedMember key raw). Qed.
Lemma renamesMember_other key k fields : k ≠ key → renamesMember (renameKey key fields) k = renamesMember fields k.
Proof. intros Hne. unfold renamesMember. by rewrite renameKey_other. Qed.

Lemma payload_restored x : RemapLogicalEventPayload (lev_EventType x) (lev_Payload x) payloadReferences = restoredPayload x.
Proof.
  unfold RemapLogicalEventPayload, restoredPayload. destruct (ReviewEventType_Valid _); [|done]. cbn [negb].
  destruct (raw_map_of _ _) as [fields|]; [|done]. unfold logicalReviewEventPayloadKeys. cbn [foldl].
  rewrite !remapKey_renames by (unfold logicalReviewEventPayloadKeys; cbn; set_solver). cbn [existsb].
  rewrite !renamesMember_other, !orb_false_r, <-!orb_assoc by done. cbn [orb].
  destruct (renamesMember fields "request_id" || _) eqn:Hany; [|done]. cbn [negb]. f_equal. apply map_eq. intros k.
  rewrite map_lookup_imap.
  destruct (decide (k = "issue_id")) as [->|H4]; [by rewrite renameKey_own, !renameKey_other by done|rewrite (renameKey_other "issue_id") by done].
  destruct (decide (k = "attempt_id")) as [->|H3]; [by rewrite renameKey_own, !renameKey_other by done|rewrite (renameKey_other "attempt_id") by done].
  destruct (decide (k = "target_id")) as [->|H2']; [by rewrite renameKey_own, !renameKey_other by done|rewrite (renameKey_other "target_id") by done].
  destruct (decide (k = "request_id")) as [->|H1']; [by rewrite renameKey_own|rewrite (renameKey_other "request_id") by done].
  assert (∀ raw, renamedMember k raw = None) as Hno.
  { intros raw. unfold renamedMember. by rewrite !(proj2 (eqb_string_false _ _)) by done. }
  destruct (fields !! k) as [raw|]; [|done]. cbn [mbind option_bind]. by rewrite Hno.
Qed.
Lemma event_restored version issueIDs attemptIDs id x row : eventRow dest id x = Ok row → strict_row row →
  event_ok version issueIDs attemptIDs x → json_Valid (restoredPayload x) = true → scanLogicalEvent row = Ok (restoredEvent id x).
Proof.
  intros Hr Hs (_ & _ & Hsource & _) Hp. split_row Hr Hs. cbn [scanLogicalEvent].
  assert (Hone : (if lev_Source x =s "" then "issue" else lev_Source x) = "issue" ∨
    (if lev_Source x =s "" then "issue" else lev_Source x) = "review").
  { destruct (String.eqb_spec (lev_Source x) "") as [|Hne]; [by left|]. by apply Hsource. }
  unfold restoredEvent. change LogicalEventSourceIssue with "issue". change LogicalEventSourceReview with "review".
  destruct Hone as [-> | ->]; cbn [String.eqb]; read_row; unfold parseLogicalJSONBytes;
    rewrite payload_restored, Hp; done.
Qed.
Lemma reviewTarget_restored `{!ULIDLaws} x row : strict_map (di_ArtifactIDs dest) → reviewTargetRow dest eventCursors x = Ok row →
  strict_row row → scanLogicalReviewTarget row = Ok (restoredReviewTarget x).
Proof.
  intros Hm Hr Hs. split_row Hr Hs. cbn [scanLogicalReviewTarget]. read_row. erewrite (artifacts_read "artifact_ids") by eassumption. read_row.
  match goal with Hp : logicalPurposesJSONForImport _ = Ok _ |- _ => destruct (purposes_read "purposes" _ _ Hp) as (l & -> & Hl) end.
  cbn [mbind result_bind]. by rewrite Hl.
Qed.
Lemma reviewRequest_restored `{!ULIDLaws} x row : strict_map (di_ArtifactIDs dest) → reviewRequestRow dest eventCursors x = Ok row →
  strict_row row → scanLogicalReviewRequest row = Ok (restoredReviewRequest x).
Proof.
  intros Hm Hr Hs. split_row Hr Hs. cbn [scanLogicalReviewRequest]. read_row. erewrite (artifacts_read "artifact_ids") by eassumption. read_row.
  match goal with Hp : logicalPurposesJSONForImport _ = Ok _ |- _ => destruct (purposes_read "purposes" _ _ Hp) as (l & -> & Hl) end.
  cbn [mbind result_bind]. read_row. by rewrite Hl.
Qed.
Lemma reviewOutcome_restored x row : reviewOutcomeRow dest x = Ok row → strict_row row →
  scanLogicalReviewOutcome row = Ok (restoredReviewOutcome x).
Proof. intros Hr Hs. split_row Hr Hs. cbn [scanLogicalReviewOutcome]. read_row. done. Qed.
Lemma reservation_restored x row : importedReservation dest x = Ok row → json_Valid (lrs_NormalizedJSON x) = true →
  scanLogicalReservation row = Ok (restoredReservation x).
Proof. intros Hr Hj. autounfold with import_rows in Hr. inv_ok. cbn [scanLogicalReservation]. rewrite Hj. cbn [negb]. read_row. done. Qed.
Lemma policy_restored x row : policyRow dest x = Ok row → scanLogicalWorkflowPolicy row = Ok (restoredPolicy x).
Proof. intros Hr. autounfold with import_rows in Hr. inv_ok. cbn [scanLogicalWorkflowPolicy]. read_row. done. Qed.
Lemma policyEvent_restored id x row : policyEventRow dest x = Ok row → scanLogicalWorkflowPolicyEvent id row = Ok (restoredPolicyEvent id x).
Proof. intros Hr. autounfold with import_rows in Hr. inv_ok. cbn [scanLogicalWorkflowPolicyEvent]. read_row. done. Qed.
Lemma attemptSnapshot_restored x row : attemptSnapshotRow dest x = Ok row →
  scanLogicalAttemptGateSnapshot row = Ok (restoredAttemptSnapshot x).
Proof.
  intros Hr. autounfold with import_rows in Hr. inv_ok. unfold scanLogicalAttemptGateSnapshot. cbn [scanLogicalGateSnapshot]. read_row. done.
Qed.
Lemma index_by_cases {A B} (key : A → string) (value : A → B) l id :
  match index_by key value l !! id with
  | Some v => ∃ x, x ∈ l ∧ key x = id ∧ value x = v
  | None => id ∉ map key l
  end.
Proof.
  unfold index_by. induction l as [|x l IH] using rev_ind; [cbn; by apply not_elem_of_nil|]. rewrite foldl_snoc, map_app.
  destruct (decide (key x = id)) as [<-|Hne]; [rewrite lookup_insert_eq; exists x; set_solver|]. rewrite lookup_insert_ne by done.
  destruct (foldl _ _ l !! id) as [v|]; [destruct IH as (y & Hy & He); exists y; set_solver|]. set_solver.
Qed.
Lemma targetSnapshot_restored snapshots x row : targetSnapshotRow dest snapshots x = Ok row →
  ∃ restored, scanLogicalReviewTargetGateSnapshot row = Ok restored ∧ restoredTargetSnapshot snapshots x restored.
Proof.
  intros Hr. unfold targetSnapshotRow in Hr. pose proof (index_by_cases lts_TargetID id snapshots (lrt_ID x)) as Hcases.
  unfold restoredTargetSnapshot. destruct (index_by lts_TargetID id snapshots !! lrt_ID x) as [s|]; cbn [default] in Hr; inv_ok;
    unfold scanLogicalReviewTargetGateSnapshot; cbn [scanLogicalGateSnapshot]; read_row; eexists; (split; [done|]).
  - destruct Hcases as (y & Hy & Hid & <-). left. by exists y.
  - by right.
Qed.
Lemma evidence_restored `{!ULIDLaws} x row : strict_map (di_ArtifactIDs dest) → evidenceRow dest x = Ok row →
  scanLogicalGateEvidence row = Ok (restoredEvidence x).
Proof. intros Hm Hr. autounfold with import_rows in Hr. inv_ok. cbn [scanLogicalGateEvidence]. read_row. erewrite (artifacts_read "artifact_ids") by eassumption. done. Qed.
Lemma evidenceEvent_restored id x row : evidenceEventRow dest x = Ok row →
  scanLogicalGateEvidenceEvent id row = Ok (restoredEvidenceEvent id x).
Proof. intros Hr. autounfold with import_rows in Hr. inv_ok. cbn [scanLogicalGateEvidenceEvent]. read_row. done. Qed.
Lemma approval_restored x row : approvalRow dest eventCursors x = Ok row → scanLogicalReviewApproval row = Ok (restoredApproval x).
Proof. intros Hr. autounfold with import_rows in Hr. inv_ok. cbn [scanLogicalReviewApproval]. read_row. done. Qed.
End restored.

(** ** A whole import, read back *)

Definition issue_number (row : ImportedRow) : option Z :=
  match row with IssueColumns _ n _ _ _ _ _ _ _ _ _ _ _ _ => Some n | _ => None end.

(** The records of a document read back from the tables, table by table and in
    order, and the numbers of its issues.  The payload of a review event that
    names records is written anew, and a reservation keeps the text of its
    resource: they are read back if they are JSON. *)
Record restored `{UnicodeTables, ULID, TimeErrors, JSONErrors} (dest : LogicalProjectImportDestinationIDs) (d : LogicalProjectDocument)
    (reservations : list LogicalReservation) (gates : LogicalGatesExtension) (next : Z) (numbers : list (Z * LogicalEvent))
    (db : Database) : Prop := {
  rs_labels : Forall2 (λ x row, scanLogicalLabel row = Ok (restoredLabel dest x)) (ldo_Labels d) (table_in db "labels");
  rs_issues : Forall2 (λ x row, scanLogicalIssue row = Ok (restoredIssue dest x)) (ldo_Issues d) (table_in db "issues");
  rs_numbers : map issue_number (table_in db "issues") = map Some (seqZ next (count (ldo_Issues d)));
  rs_links : Forall2 (λ x row, scanLogicalIssueLabel row = Ok (restoredIssueLabel dest x)) (ldo_IssueLabels d)
    (table_in db "issue_labels");
  rs_relations : Forall2 (λ x row, scanLogicalRelation row = Ok (restoredRelation dest x)) (ldo_Relations d)
    (table_in db "issue_relations");
  rs_comments : Forall2 (λ x row, scanLogicalComment row = Ok (restoredComment dest x)) (ldo_Comments d) (table_in db "comments");
  rs_decisions : Forall2 (λ x row, scanLogicalDecision row = Ok (restoredDecision dest x)) (ldo_Decisions d) (table_in db "decisions");
  rs_attempts : Forall2 (λ x row, scanLogicalAttempt row =
      Ok (restoredAttempt dest (NewLogicalEventCursorMapping (map cursorEntry numbers)) x))
    (ldo_Attempts d) (table_in db "work_attempts");
  rs_notes : Forall2 (λ x row, scanLogicalAttemptNote row = Ok (restoredAttemptNote dest x)) (ldo_AttemptNotes d)
    (table_in db "attempt_notes");
  rs_artifacts : Forall2 (λ x row, scanLogicalArtifact row = Ok (restoredArtifact dest x)) (ldo_Artifacts d) (table_in db "artifacts");
  rs_events : Forall2 (λ entry row,
      (ReviewEventType_Valid (lev_EventType entry.2) = true → json_Valid (restoredPayload dest entry.2) = true) →
      scanLogicalEvent row = Ok (restoredEvent dest entry.1 entry.2))
    numbers (table_in db "issue_events");
  rs_targets : Forall2 (λ x row, scanLogicalReviewTarget row =
      Ok (restoredReviewTarget dest (NewLogicalEventCursorMapping (map cursorEntry numbers)) x))
    (ldo_ReviewTargets d) (table_in db "review_targets");
  rs_requests : Forall2 (λ x row, scanLogicalReviewRequest row =
      Ok (restoredReviewRequest dest (NewLogicalEventCursorMapping (map cursorEntry numbers)) x))
    (ldo_ReviewRequests d) (table_in db "review_requests");
  rs_outcomes : Forall2 (λ x row, scanLogicalReviewOutcome row = Ok (restoredReviewOutcome dest x)) (ldo_ReviewOutcomes d)
    (table_in db "review_outcomes");
  rs_reservations : Forall2 (λ x row, json_Valid (lrs_NormalizedJSON x) = true →
      scanLogicalReservation row = Ok (restoredReservation dest x))
    reservations (table_in db "resource_reservations");
  rs_policies : Forall2 (λ x row, scanLogicalWorkflowPolicy row = Ok (restoredPolicy dest x)) (lgx_Policies gates)
    (table_in db "workflow_policies");
  rs_policy_events : Forall2 (λ x row, ∀ id, scanLogicalWorkflowPolicyEvent id row = Ok (restoredPolicyEvent dest id x))
    (lgx_PolicyEvents gates) (table_in db "workflow_policy_events");
  rs_attempt_snapshots : Forall2 (λ x row, scanLogicalAttemptGateSnapshot row = Ok (restoredAttemptSnapshot dest x))
    (lgx_AttemptSnapshots gates) (table_in db "attempt_gate_snapshots");
  rs_target_snapshots : Forall2 (λ x row, ∃ snapshot, scanLogicalReviewTargetGateSnapshot row = Ok snapshot ∧
      restoredTargetSnapshot dest (lgx_ReviewTargetSnapshots gates) x snapshot)
    (ldo_ReviewTargets d) (table_in db "review_target_gate_snapshots");
  rs_evidence : Forall2 (λ x row, scanLogicalGateEvidence row = Ok (restoredEvidence dest x)) (lgx_Evidence gates)
    (table_in db "gate_evidence");
  rs_evidence_events : Forall2 (λ x row, ∀ id, scanLogicalGateEvidenceEvent id row = Ok (restoredEvidenceEvent dest id x))
    (lgx_EvidenceEvents gates) (table_in db "gate_evidence_events");
  rs_approvals : Forall2 (λ x row, scanLogicalReviewApproval row =
      Ok (restoredApproval dest (NewLogicalEventCursorMapping (map cursorEntry numbers)) x))
    (lgx_ReviewApprovals gates) (table_in db "review_approvals");
}.

(** From the row functions to what the rows are read as. *)
Lemma stored_restored `{ULID} {A} (row : A → result ImportedRow) (P : A → ImportedRow → Prop) items rows :
  stored row items rows → Forall strict_row rows → (∀ x columns, x ∈ items → row x = Ok columns → strict_row columns → P x columns) →
  Forall2 P items rows.
Proof.
  unfold stored. induction 1 as [|x columns items rows Hx _ IH]; intros Hs HP; [constructor|]. apply Forall_cons in Hs as [Hc Hs].
  constructor; [apply HP; [by left|done..]|]. apply IH; [done|]. intros y c Hy. apply HP. by right.
Qed.
