(* ===== verification/ImportGuarantees.v ===== *)
(** * What an import guarantees

    The service's import of a document into a database, from the text to the
    tables: everything or nothing is stored, the tables are closed under their
    foreign keys, and positions of the event log keep their meaning. *)

From S2P Require Import Prelude GoStrings Errors Validation Samples Issue Relation Session IssueOps Discussion.
From S2P Require Import Resource Attempt AttemptPolicy Gates Store ReviewStore Encoding Interchange ImportCheck ImportClosed ImportPlan.
From S2P Require Import ImportDestination ImportEvents ImportApply ImportStored ReadBack ExportRows Timestamps.

(** ** Fresh identifiers *)

(** A generator that never repeats itself. *)
Definition never_repeats {G} (generate : G → result (string * G)) : Prop :=
  ∀ n g drawn g', draws generate n g = Ok (drawn, g') → NoDup drawn.

Lemma map_at_key (ids drawn : list string) :
  NoDup ids → length drawn = length ids → map (at_key (list_to_map (zip ids drawn))) ids = drawn.
Proof.
  revert drawn. induction ids as [|id ids IH]; intros [|x drawn] Hnd Hl; try done. apply NoDup_cons in Hnd as [Hid Hnd].
  cbn [map zip zip_with list_to_map foldr curry fst snd]. f_equal; [by unfold at_key; cbn; rewrite lookup_insert_eq|].
  rewrite <-(IH drawn Hnd ltac:(by injection Hl)) at 2. apply map_ext_in. intros y Hy%list_elem_of_In. unfold at_key. cbn.
  rewrite lookup_insert_ne; [done|]. by intros ->.
Qed.

(** A map keeps a list without duplicates when it tells apart what another does. *)
Lemma NoDup_map_finer {A B C} (g : A → C) (f : A → B) l :
  NoDup (map g l) → (∀ x y, x ∈ l → y ∈ l → f x = f y → g x = g y) → NoDup (map f l).
Proof.
  induction l as [|x l IH]; cbn; [constructor|]. intros [Hx Hl]%NoDup_cons Hf. constructor.
  - intros (y & He & Hy)%list_elem_of_fmap. apply Hx, list_elem_of_fmap. exists y. split; [|done].
    apply Hf; [by left|by right|done].
  - apply IH; [done|]. intros a b Ha Hb. by apply Hf; right.
Qed.

(** A generator of identifiers that [ids.ParseStrict] accepts. *)
Definition generates_ulids `{ULID} {G} (generate : G → result (string * G)) : Prop :=
  ∀ g id g', generate g = Ok (id, g') → ids_ParseStrict id = true.

Section fresh.
Context {G : Type} (generate : G → result (string * G)).

Definition assigned {A} (id : A → string) (items : list A) (m : gmap string string) : Prop :=
  ∃ g g', assigns generate (map id items) m g g'.
Lemma assigned_distinct {A} (id : A → string) items m :
  never_repeats generate → NoDup (map id items) → assigned id items m → NoDup (map (λ x, at_key m (id x)) items).
Proof.
  intros Hfresh Hnd (g & g' & drawn & Hd & Hl & ->). rewrite <-(map_map id (at_key _)), map_at_key by done. by eapply Hfresh.
Qed.

Lemma assigned_inj {A} (id : A → string) items m x y :
  never_repeats generate → NoDup (map id items) → assigned id items m →
  x ∈ ids id items → y ∈ ids id items → at_key m x = at_key m y → x = y.
Proof.
  intros Hfresh Hnd Has (a & Ha & <-)%elem_of_ids%elem_of_map_id (b & Hb & <-)%elem_of_ids%elem_of_map_id He.
  pose proof (assigned_distinct id items m Hfresh Hnd Has) as Hd. apply list_elem_of_lookup in Ha as [i Ha], Hb as [j Hb].
  assert (i = j) as <-; [|congruence]. eapply (NoDup_lookup _ i j (at_key m (id a)) Hd).
  - rewrite list_lookup_fmap, Ha. done.
  - rewrite list_lookup_fmap, Hb, He. done.
Qed.

Lemma draws_strict `{ULID} n : generates_ulids generate → ∀ g drawn g', draws generate n g = Ok (drawn, g') →
  Forall (λ id, ids_ParseStrict id = true) drawn.
Proof.
  intros Hg. induction n as [|n IH]; intros g drawn g'; cbn [draws]; [intros [= <- _]; constructor|].
  intros ([x g1] & Hx & Hd)%result_bind_Ok. apply result_bind_Ok in Hd as ([l g2] & Hl & [= <- _]).
  constructor; [by eapply Hg|by eapply IH].
Qed.
Lemma assigned_strict `{ULID} {A} (id : A → string) items m : generates_ulids generate → assigned id items m →
  strict_map m ∧ ∀ x, x ∈ ids id items → ids_ParseStrict (at_key m x) = true.
Proof.
  intros Hg (g & g' & Has). pose proof (assigns_dom _ _ _ _ _ Has) as Hdom. destruct Has as (drawn & Hd & Hl & ->).
  pose proof (draws_strict _ Hg _ _ _ Hd) as Hs. rewrite Forall_forall in Hs.
  assert (Hm : strict_map (list_to_map (zip (map id items) drawn))).
  { intros k x Hx%elem_of_list_to_map_2. apply Hs. by apply elem_of_zip_r in Hx. }
  split; [done|]. intros x Hx. assert (Hin : x ∈ dom (list_to_map (zip (map id items) drawn) : gmap string string)) by by rewrite Hdom.
  apply elem_of_dom in Hin as [y Hy]. unfold at_key. rewrite Hy. by apply (Hm x).
Qed.

(** The maps of a plan, kind by kind. *)
Record all_assigned (dest : LogicalProjectImportDestinationIDs) (d : LogicalProjectDocument)
    (reservations : list LogicalReservation) (g : LogicalGatesExtension) : Prop := {
  as_issues : assigned lis_ID (ldo_Issues d) (di_IssueIDs dest);
  as_labels : assigned lla_ID (ldo_Labels d) (di_LabelIDs dest);
  as_relations : assigned lre_ID (ldo_Relations d) (di_RelationIDs dest);
  as_comments : assigned lco_ID (ldo_Comments d) (di_CommentIDs dest);
  as_decisions : assigned lde_ID (ldo_Decisions d) (di_DecisionIDs dest);
  as_attempts : assigned lat_ID (ldo_Attempts d) (di_AttemptIDs dest);
  as_notes : assigned lno_ID (ldo_AttemptNotes d) (di_AttemptNoteIDs dest);
  as_artifacts : assigned lar_ID (ldo_Artifacts d) (di_ArtifactIDs dest);
  as_targets : assigned lrt_ID (ldo_ReviewTargets d) (di_ReviewTargetIDs dest);
  as_requests : assigned lrr_ID (ldo_ReviewRequests d) (di_ReviewRequestIDs dest);
  as_outcomes : assigned lro_ID (ldo_ReviewOutcomes d) (di_ReviewOutcomeIDs dest);
  as_reservations : assigned lrs_ID reservations (di_ReservationIDs dest);
  as_policies : assigned lwp_ID (lgx_Policies g) (di_WorkflowPolicyIDs dest);
  as_evidence : assigned lge_ID (lgx_Evidence g) (di_GateEvidenceIDs dest);
  as_approvals : assigned lra_ID (lgx_ReviewApprovals g) (di_ReviewApprovalIDs dest);
}.
Lemma destinations_assigned `{JSONErrors} d reservations gates dest g g' :
  DecodeReservationsExtension d = Ok reservations → DecodeGatesExtension d = Ok gates → NoDup (all_ids d reservations gates) →
  NewLogicalProjectImportDestinationIDs generate d g = Ok (dest, g') → all_assigned dest d reservations gates.
Proof.
  intros Hr Hg Hnd. unfold NewLogicalProjectImportDestinationIDs. rewrite Hr, Hg. cbn [mbind result_bind].
  unfold all_ids, core_ids, review_ids in Hnd. rewrite !NoDup_app in Hnd. intros Hn. inv_ok.
  repeat match goal with
  | Hd : destinationIDs _ ?id ?l _ = Ok _ |- _ => apply destinationIDs_assigns in Hd; [|tauto]
  end.
  constructor; cbn; eexists _, _; eassumption.
Qed.
End fresh.

(** ** The outcome of an import *)

Section outcome.
Context `{UnicodeTables, ULID, TimeErrors, SQLiteEngine, SliceSort, JSONErrors}.

Lemma importRecords_project dest d reservations gates next updated db db' :
  DecodeReservationsExtension d = Ok reservations → DecodeGatesExtension d = Ok gates →
  importRecords dest d next updated db = Ok db' →
  db_Project db' = if null (ldo_Issues d) then db_Project db
    else option_map (λ p, mkProjectColumns (pcl_Name p) (pcl_Instructions p) (pcl_CreatedAt p) updated (next + count (ldo_Issues d)))
           (db_Project db).
Proof.
  intros Hres Hgates. unfold importRecords. cbv zeta. intros Hi.
  apply result_bind_Ok in Hi as (db1 & Hcore & Hi). apply result_bind_Ok in Hi as ([entries db2] & Hevents & Hi). cbn [fst snd] in Hi.
  apply result_bind_Ok in Hi as (db3 & Hmoves & Hi). apply result_bind_Ok in Hi as (db4 & Hreviews & Hi).
  apply result_bind_Ok in Hi as (db5 & Hreservations & Hi). apply result_bind_Ok in Hi as (db6 & Hgated & Hi).
  assert (Hp : db_Project db6 = db_Project db).
  { destruct (importCore_loaded _ _ _ _ _ Hcore) as
      (? & ? & ? & ? & ? & ? & ? & ? & ? & _ & _ & _ & _ & _ & _ & _ & _ & _ & (_ & P1 & _)).
    destruct (insertEvents_loaded _ _ _ _ _ _ Hevents) as (_ & P2 & _). destruct (remapAttempts_moves _ _ _ _ _ Hmoves) as [_ P3].
    destruct (importReviews_loaded _ _ _ _ _ Hreviews) as (? & ? & ? & _ & _ & _ & (_ & P4 & _)).
    destruct (importReservations_loaded _ _ _ _ _ Hres Hreservations) as (? & _ & (_ & P5 & _)).
    destruct (importGates_loaded _ _ _ _ _ _ Hgates Hgated) as (? & ? & ? & ? & ? & ? & ? & _ & _ & _ & _ & _ & _ & _ & (_ & P6 & _)).
    congruence. }
  destruct (null (ldo_Issues d)); [by injection Hi as <-|]. apply exec_Ok in Hi as ->. cbn. by rewrite Hp.
Qed.

Context `{URLParser, UnicodeCase}.
Context {G : Type} (generate : G → result (string * G)).

(** A successful import into an empty project. *)
Definition import_of (document : string) (g : G) (db : Database) (plan : LogicalProjectImportPlan)
    (reservations : list LogicalReservation) (gates : LogicalGatesExtension) (project : ProjectColumns) : Prop :=
  (∃ g', prepareImport generate document g = Ok (plan, g')) ∧ db_Project db = Some project ∧
  DecodeReservationsExtension (ip_Document plan) = Ok reservations ∧ DecodeGatesExtension (ip_Document plan) = Ok gates.

(** Its events with the identifiers they get: in the order of the source. *)
Definition replayed_events (db : Database) (d : LogicalProjectDocument) : list (Z * LogicalEvent) :=
  ids_numbered (db_LastEventID db + 1) (sort_Slice eventSourceLess (ldo_Events d)).

Lemma prepareImport_closed document g plan g' : prepareImport generate document g = Ok (plan, g') →
  ∃ reservations gates, DecodeReservationsExtension (ip_Document plan) = Ok reservations ∧
    DecodeGatesExtension (ip_Document plan) = Ok gates ∧ document_closed (ip_Document plan) reservations gates ∧
    dr_Counts (ip_DryRun plan) = importCounts (ip_Document plan) reservations gates ∧
    all_assigned generate (ip_DestinationIDs plan) (ip_Document plan) reservations gates.
Proof.
  unfold prepareImport. intros (plan0 & Hp & Hn)%result_bind_Ok. destruct (Parse_closed _ _ Hp) as (reservations & gates & Hr & Hg & Hc & Hcounts).
  destruct (NewLogicalProjectImportDestinationIDs _ _ g) as [[dest g1]|e] eqn:Hdest; [|done]. injection Hn as <- _.
  exists reservations, gates. cbn [ip_Document ip_DryRun ip_DestinationIDs]. split_and!; try done.
  eapply destinations_assigned; [done|done|apply Hc|done].
Qed.

Lemma ImportProject_outcome document g db r db' : never_repeats generate → ImportProject generate document g db = (Ok r, db') →
  (hasLogicalProjectImportDestinationContent db = true ∧ db' = db ∧ apr_Conflicts r = [destinationConflict]) ∨
  (hasLogicalProjectImportDestinationContent db = false ∧ apr_Conflicts r = [] ∧ apr_LatestEventID r = latestIssueEventID db' ∧
   ∃ plan reservations gates project created updated, import_of document g db plan reservations gates project ∧
     apr_Counts r = importCounts (ip_Document plan) reservations gates ∧
     document_closed (ip_Document plan) reservations gates ∧
     all_assigned generate (ip_DestinationIDs plan) (ip_Document plan) reservations gates ∧
     timeColumn "project.created_at" (lpr_CreatedAt (ldo_Project (ip_Document plan))) = Ok created ∧
     timeColumn "project.updated_at" (lpr_UpdatedAt (ldo_Project (ip_Document plan))) = Ok updated ∧
     db_Project db' = Some (mkProjectColumns (lpr_Name (ldo_Project (ip_Document plan))) (lpr_Instructions (ldo_Project (ip_Document plan)))
       created updated (pcl_NextIssueNumber project + count (ldo_Issues (ip_Document plan)))) ∧
     imported (ip_DestinationIDs plan) (ip_Document plan) reservations gates (pcl_NextIssueNumber project)
       (replayed_events db (ip_Document plan)) db' ∧
     ∀ table, table ∉ importedTables → table_in db' table = table_in db table).
Proof.
  intros Hfresh. unfold ImportProject. destruct (prepareImport generate document g) as [[plan g']|e] eqn:Hprep; [|done].
  destruct (prepareImport_closed _ _ _ _ Hprep) as (reservations & gates & Hres & Hgates & Hclosed & Hcounts & Has).
  unfold ApplyLogicalProjectImport, writeOnce, callback, Commit. cbn [BeginImmediate cn_Open cn_Committed from_option id default].
  destruct (applyImportTx plan db) as [[r1 db1]|e] eqn:Htx; cbn [cn_Open]; [|by intros [=]].
  destruct (refuses_commit db1); [done|]. intros [= -> ->]. unfold applyImportTx in Htx. cbv zeta in Htx.
  apply result_bind_Ok in Htx as (db0 & ->%exec_Ok & Htx). cbn [effect] in Htx.
  destruct (hasLogicalProjectImportDestinationContent db) eqn:Hcontent; [left; by injection Htx as <- <-|right].
  apply result_bind_Ok in Htx as (created & Hcreated & Htx). apply result_bind_Ok in Htx as (updated & Hupdated & Htx).
  apply result_bind_Ok in Htx as (db1 & ->%exec_Ok & Htx). cbn [effect db_Project] in Htx.
  destruct (db_Project db) as [project|] eqn:Hproject; cbn [option_map] in Htx; [|done]. cbn [pcl_NextIssueNumber] in Htx.
  apply result_bind_Ok in Htx as (db2 & Hrecords & Htx). injection Htx as <- <-. cbn [apr_Counts apr_Conflicts apr_LatestEventID].
  split_and!; [done..|]. exists plan, reservations, gates, project, created, updated.
  destruct Hclosed as [Hnd Hrest]. destruct (NoDup_core _ (proj1 (proj1 (NoDup_app _ _) Hnd))) as (_ & Hattempts & _).
  split_and!; try done; [split_and!; [by exists g'|done..]| | |].
  - rewrite (importRecords_project _ _ _ _ _ _ _ _ Hres Hgates Hrecords). cbn [db_Project option_map pcl_Name pcl_Instructions pcl_CreatedAt].
    destruct (ldo_Issues (ip_Document plan)); [|done]. cbn. by rewrite Z.add_0_r.
  - refine (proj1 (importRecords_imported _ _ _ _ _ _ _ _ Hres Hgates _ _ Hrecords)); [|done].
    unfold attemptID. eapply assigned_distinct; [exact Hfresh|exact Hattempts|apply Has].
  - refine (proj2 (importRecords_imported _ _ _ _ _ _ _ _ Hres Hgates _ _ Hrecords)); [|done].
    unfold attemptID. eapply assigned_distinct; [exact Hfresh|exact Hattempts|apply Has].
Qed.

Lemma ImportProject_error document g db e db' : ImportProject generate document g db = (Err e, db') → db' = db.
Proof.
  unfold ImportProject, ApplyLogicalProjectImport, writeOnce, callback, Commit, rollback. cbn [BeginImmediate cn_Open cn_Committed from_option id default].
  destruct (prepareImport generate document g) as [[plan g']|]; [|by intros [=]].
  destruct (applyImportTx plan db) as [[r db1]|]; [|by intros [=]]. cbn [cn_Open cn_Committed].
  destruct (refuses_commit db1); by intros [=].
Qed.
End outcome.

(** ** Keys *)

Definition keys (rows : list ImportedRow) : list (string * PrimaryKey) := omap row_key rows.

Lemma row_key_table row table id : row_key row = Some (table, id) → table_of row = table.
Proof. destruct row; cbn; by intros [= <- <-]. Qed.

(** Keys are distinct when they are in every table. *)
Lemma keys_by_table rows : (∀ table, NoDup (keys (table_rows table rows))) → NoDup (keys rows).
Proof.
  unfold keys. induction rows as [|row rows IH]; intros Hall; [constructor|]. cbn [omap list_omap]. destruct (row_key row) as [[table id]|] eqn:Hk.
  - constructor.
    + intros (r & Hr & Hk')%list_elem_of_omap. specialize (Hall table). unfold table_rows in Hall. cbn [List.filter] in Hall.
      rewrite (row_key_table row table id Hk), eqb_string_refl in Hall. cbn [omap list_omap] in Hall. rewrite Hk in Hall.
      apply NoDup_cons in Hall as [Hn _]. apply Hn, list_elem_of_omap. exists r. split; [|done].
      apply elem_of_filter_list. split; [done|]. apply eqb_string_true. by eapply row_key_table.
    + apply IH. intros t. specialize (Hall t). unfold table_rows in *. cbn [List.filter] in Hall. destruct (table_of row =s t); [|done].
      cbn [omap list_omap] in Hall. rewrite Hk in Hall. by apply NoDup_cons in Hall as [_ Hall].
  - apply IH. intros t. specialize (Hall t). unfold table_rows in *. cbn [List.filter] in Hall. destruct (table_of row =s t); [|done].
    cbn [omap list_omap] in Hall. by rewrite Hk in Hall.
Qed.

Lemma stored_keys {A} table (row : A → result ImportedRow) (key : A → PrimaryKey) items rows :
  stored row items rows → (∀ x columns, row x = Ok columns → row_key columns = Some (table, key x)) →
  keys rows = map (λ x, (table, key x)) items.
Proof.
  intros Hs Hk. unfold keys. induction Hs as [|x columns items rows Hx _ IH]; [done|]. cbn [omap list_omap map].
  by rewrite (Hk _ _ Hx), IH.
Qed.
Lemma stored_keys_distinct {A} table (row : A → result ImportedRow) (key : A → PrimaryKey) items rows :
  stored row items rows → (∀ x columns, row x = Ok columns → row_key columns = Some (table, key x)) → NoDup (map key items) →
  NoDup (keys rows).
Proof.
  intros Hs Hk Hnd. rewrite (stored_keys _ _ _ _ _ Hs Hk), <-(map_map key (pair table)). by apply NoDup_fmap_2; [intros ? ? [=]|].
Qed.
Lemma stored_key_in {A} table (row : A → result ImportedRow) (id : A → string) (m : gmap string string) items db x :
  stored row items (table_in db table) → (∀ x columns, row x = Ok columns → row_key columns = Some (table, IdKey (at_key m (id x)))) →
  x ∈ ids id items → (table, IdKey (at_key m x)) ∈ keys (db_Rows db).
Proof.
  intros Hs Hk (y & Hy & <-)%elem_of_ids%elem_of_map_id. destruct (stored_item _ _ _ _ Hs Hy) as (columns & Hin & Hr).
  apply elem_of_table_rows in Hin as [Hin _]. apply list_elem_of_omap. exists columns. split; [done|]. by apply Hk.
Qed.

Lemma refers_with_in {A} (id attribute : A → string) l target value : refers_with id attribute l target value → target ∈ ids id l.
Proof. intros (x & Hx & <- & _). apply elem_of_ids, elem_of_map_id. by exists x. Qed.
Lemma enumerate_snd {A} (l : list A) : map snd (enumerate l) = l.
Proof.
  unfold enumerate. assert (Hgen : ∀ f : nat → Z, map snd (imap (λ i x, (f i, x)) l) = l).
  { induction l as [|x l IH]; intros f; [done|]. cbn. f_equal. apply (IH (λ i, f (S i))). }
  apply Hgen.
Qed.

Section referential.
Context `{UnicodeTables, ULID, TimeErrors, JSONErrors, UnicodeCase, URLParser}.
Context {G : Type} (generate : G → result (string * G)).
Context (dest : LogicalProjectImportDestinationIDs) (d : LogicalProjectDocument) (reservations : list LogicalReservation)
  (gates : LogicalGatesExtension) (next : Z) (numbers : list (Z * LogicalEvent)) (db : Database).
Hypothesis stored_rows : imported dest d reservations gates next numbers db.

Ltac row_of_table := let Hr := fresh "Hr" in intros ? ? Hr; autounfold with import_rows in Hr; inv_ok; repeat case_match; inv_ok; done.

Lemma issue_key id : id ∈ ids lis_ID (ldo_Issues d) → ("issues", IdKey (at_key (di_IssueIDs dest) id)) ∈ keys (db_Rows db).
Proof.
  intros Hid. apply (stored_key_in "issues" _ (λ e : Z * LogicalIssue, lis_ID e.2) _ _ _ id (im_issues _ _ _ _ _ _ _ stored_rows)).
  - intros [i x] columns Hr. unfold issueRow in Hr. by inv_ok.
  - apply elem_of_ids. rewrite <-(map_map snd lis_ID), enumerate_snd. by apply elem_of_ids.
Qed.
Lemma label_key id : id ∈ ids lla_ID (ldo_Labels d) → ("labels", IdKey (at_key (di_LabelIDs dest) id)) ∈ keys (db_Rows db).
Proof. eapply stored_key_in; [apply stored_rows|row_of_table]. Qed.
Lemma decision_key id : id ∈ ids lde_ID (ldo_Decisions d) → ("decisions", IdKey (at_key (di_DecisionIDs dest) id)) ∈ keys (db_Rows db).
Proof. eapply stored_key_in; [apply stored_rows|row_of_table]. Qed.
Lemma attempt_key id : id ∈ ids lat_ID (ldo_Attempts d) → ("work_attempts", IdKey (at_key (di_AttemptIDs dest) id)) ∈ keys (db_Rows db).
Proof. eapply stored_key_in; [apply stored_rows|row_of_table]. Qed.
Lemma target_key id : id ∈ ids lrt_ID (ldo_ReviewTargets d) → ("review_targets", IdKey (at_key (di_ReviewTargetIDs dest) id)) ∈ keys (db_Rows db).
Proof. eapply stored_key_in; [apply stored_rows|row_of_table]. Qed.
Lemma request_key id : id ∈ ids lrr_ID (ldo_ReviewRequests d) → ("review_requests", IdKey (at_key (di_ReviewRequestIDs dest) id)) ∈ keys (db_Rows db).
Proof. eapply stored_key_in; [apply stored_rows|row_of_table]. Qed.
Lemma policy_key id : id ∈ ids lwp_ID (lgx_Policies gates) → ("workflow_policies", IdKey (at_key (di_WorkflowPolicyIDs dest) id)) ∈ keys (db_Rows db).
Proof. eapply stored_key_in; [apply stored_rows|row_of_table]. Qed.
Lemma evidence_key id : id ∈ ids lge_ID (lgx_Evidence gates) → ("gate_evidence", IdKey (at_key (di_GateEvidenceIDs dest) id)) ∈ keys (db_Rows db).
Proof. eapply stored_key_in; [apply stored_rows|row_of_table]. Qed.

Hypothesis closed_document : document_closed d reservations gates.
Hypothesis document_events : ∀ entry, entry ∈ numbers → entry.2 ∈ ldo_Events d.

Lemma optional_reference table (m : gmap string string) (id : option string) (known : gset string) reference :
  (∀ x, x ∈ known → (table, IdKey (at_key m x)) ∈ keys (db_Rows db)) → optional_in id known →
  reference ∈ optional_key table (option_map (at_key m) id) → reference ∈ keys (db_Rows db).
Proof.
  intros Hk Hin. destruct id as [id|]; cbn; [|by intros ?%not_elem_of_nil]. intros ->%list_elem_of_singleton. by apply Hk, Hin.
Qed.

(** The record a row of a table was made from. *)
Lemma record_of {A} (row : A → result ImportedRow) items columns :
  columns ∈ db_Rows db → stored row items (table_in db (table_of columns)) → ∃ x, x ∈ items ∧ row x = Ok columns.
Proof. intros Hin Hs. eapply stored_row; [exact Hs|]. by apply elem_of_table_rows. Qed.

Tactic Notation "record" ident(x) ident(Hx) uconstr(field) :=
  match goal with Hin : _ ∈ db_Rows db |- _ =>
    let Hr := fresh "Hr" in
    destruct (record_of _ _ _ Hin (field _ _ _ _ _ _ _ stored_rows)) as (x & Hx & Hr); autounfold with import_rows in Hr; inv_ok end.
Ltac members :=
  cbn [row_references app]; repeat first [rewrite elem_of_app|rewrite list_elem_of_singleton|rewrite elem_of_cons].

Lemma references_hold columns reference :
  columns ∈ db_Rows db → reference ∈ row_references columns → reference ∈ keys (db_Rows db).
Proof.
  destruct closed_document as (_ & _ & Hc & Hr). intros Hin. destruct columns; try by intros ?%not_elem_of_nil.
  - destruct (record_of _ _ _ Hin (im_issues _ _ _ _ _ _ _ stored_rows)) as ([i x] & Hx & Hrow). unfold issueRow in Hrow. inv_ok.
    cbn [row_references]. destruct (lis_ParentID x) as [p|] eqn:Hp; cbn [mbind option_bind optional_key];
      [destruct (di_IssueIDs dest !! p) as [q|] eqn:Hq|]; cbn [optional_key]; try by intros ?%not_elem_of_nil.
    intros ->%list_elem_of_singleton. assert (Hxi : x ∈ ldo_Issues d)
      by (rewrite <-(enumerate_snd (ldo_Issues d)); by apply (list_elem_of_fmap_2' snd _ (i, x) x)).
    destruct (core_parents d Hc x Hxi p Hp) as (_ & Href%refers_with_in). pose proof (issue_key p Href) as Hkey.
    unfold at_key in Hkey. by rewrite Hq in Hkey.
  - record x Hx im_links. destruct (core_links d Hc x Hx). members. intros [->| ->]; [by apply issue_key|by apply label_key].
  - record x Hx im_relations. destruct (core_relations d Hc x Hx) as (Hs & Ht & _).
    unfold CanonicalRelationEndpoints in *.
    repeat case_match; simplify_eq; members; intros [->| ->]; by apply issue_key.
  - record x Hx im_comments. members. intros ->. by apply issue_key, (core_comments d Hc).
  - record x Hx im_decisions. destruct (core_decisions d Hc x Hx) as (Hi & Hsup). members. intros [Hm|Hm].
    + eapply (optional_reference _ _ _ _ _ issue_key); done.
    + eapply (optional_reference _ _ (lde_SupersedesID x) _ _ decision_key); [|done]. intros t Ht.
      destruct (Hsup t Ht) as (old & Hold & <- & _). apply elem_of_ids, elem_of_map_id. by exists old.
  - record x Hx im_attempts. members. intros ->. apply issue_key, elem_of_ids. by apply (core_attempts d Hc x Hx).
  - record x Hx im_notes. members. intros ->. by apply attempt_key, (core_notes d Hc).
  - record x Hx im_artifacts. destruct (core_artifacts d Hc x Hx) as (Hi & Ha & _). members. intros [->|Hm]; [by apply issue_key|].
    by eapply (optional_reference _ _ _ _ _ attempt_key).
  - destruct (record_of _ _ _ Hin (im_events _ _ _ _ _ _ _ stored_rows)) as (x & Hx & Hrow). unfold numberedEventRow, eventRow in Hrow. inv_ok.
    destruct (core_events d Hc _ (document_events x Hx)) as (Hi & Ha & _). members. intros [Hm|Hm].
    + by eapply (optional_reference _ _ _ _ _ issue_key).
    + by eapply (optional_reference _ _ _ _ _ attempt_key).
  - record x Hx im_targets. destruct (rev_targets _ _ _ Hr x Hx) as (Hi & _). members. intros ->. by apply issue_key.
  - record x Hx im_requests. destruct (rev_requests _ _ _ Hr x Hx) as (Ht & Hi & _ & _ & _ & Hs). members.
    intros [->|[->|Hm]]; [by apply target_key|by apply issue_key|by eapply (optional_reference _ _ _ _ _ request_key)].
  - record x Hx im_outcomes. destruct (rev_outcomes _ _ _ Hr x Hx). members. intros [->| ->]; [by apply request_key|by apply attempt_key].
  - record x Hx im_reservations. destruct (rev_reservations _ _ _ Hr x Hx) as (Hi & Ha%refers_with_in & _). members.
    intros [->| ->]; [by apply issue_key|by apply attempt_key].
  - record x Hx im_policy_events. members. intros ->. by apply policy_key, (rev_policy_events _ _ _ Hr).
  - record x Hx im_attempt_snapshots. destruct (rev_attempt_snapshots _ _ _ Hr x Hx) as (issueID & Ha%refers_with_in & _). members.
    intros ->. by apply attempt_key.
  - record x Hx im_target_snapshots. members. intros ->. apply target_key, elem_of_ids, elem_of_map_id. by exists x.
  - record x Hx im_evidence. destruct (rev_evidence _ _ _ Hr x Hx) as (Ha%refers_with_in & Hi & _). members.
    intros [->| ->]; [by apply attempt_key|by apply issue_key].
  - record x Hx im_evidence_events. destruct (rev_evidence_events _ _ _ Hr x Hx) as (He%refers_with_in & Ha & Hi). members.
    intros [->|[->| ->]]; [by apply evidence_key|by apply attempt_key|by apply issue_key].
  - record x Hx im_approvals. destruct (rev_approvals _ _ _ Hr x Hx) as (Hq%refers_with_in & Ht%refers_with_in & Hi & Ha & _). members.
    intros [->|[->|[->| ->]]]; [by apply issue_key|by apply target_key|by apply request_key|by apply attempt_key].
Qed.

Hypothesis fresh : never_repeats generate.
Hypothesis numbers_distinct : NoDup (map fst numbers).
Hypothesis all_drawn : all_assigned generate dest d reservations gates.

Definition keyedTables : list string :=
  ["labels"; "issues"; "issue_labels"; "issue_relations"; "comments"; "decisions"; "work_attempts"; "attempt_notes"; "artifacts";
   "issue_events"; "review_targets"; "review_requests"; "review_outcomes"; "resource_reservations"; "workflow_policies";
   "attempt_gate_snapshots"; "review_target_gate_snapshots"; "gate_evidence"; "review_approvals"].
Lemma keyed_row row table id : row_key row = Some (table, id) → table_of row ∈ keyedTables.
Proof. intros Hk. destruct row; cbn in Hk |- *; simplify_eq; by apply (bool_decide_unpack _). Qed.

Lemma IdKeys_NoDup {A} (f : A → string) l : NoDup (map f l) → NoDup (map (λ x, IdKey (f x)) l).
Proof. intros Hnd. rewrite <-(map_map f IdKey). by apply NoDup_fmap_2; [intros ? ? [=]|]. Qed.

(** The rows of a keyed table. *)
Ltac keyed id :=
  eapply (stored_keys_distinct _ _ (λ x, IdKey (at_key _ (id x)))); [apply stored_rows|row_of_table|
    apply IdKeys_NoDup; eapply assigned_distinct; [exact fresh|tauto|apply all_drawn]].

Lemma keys_distinct : NoDup (keys (db_Rows db)).
Proof.
  destruct closed_document as (Hnd & _ & Hc & Hr). unfold all_ids, core_ids, review_ids in Hnd. rewrite !NoDup_app in Hnd.
  apply keys_by_table. intros table. change (table_rows table (db_Rows db)) with (table_in db table).
  destruct (decide (table ∈ keyedTables)) as [Ht|Ht].
  - unfold keyedTables in Ht. rewrite !elem_of_cons in Ht.
    destruct Ht as [->|[->|[->|[->|[->|[->|[->|[->|[->|[->|[->|[->|[->|[->|[->|[->|[->|[->|[->|Ht]]]]]]]]]]]]]]]]]]];
      [..|by apply not_elem_of_nil in Ht].
    + keyed lla_ID.
    + eapply (stored_keys_distinct _ _ (λ e : Z * LogicalIssue, IdKey (at_key _ (lis_ID e.2))) _ _ (im_issues _ _ _ _ _ _ _ stored_rows)).
      * intros [i x] columns Hrow. unfold issueRow in Hrow. by inv_ok.
      * apply (IdKeys_NoDup (λ e : Z * LogicalIssue, at_key _ (lis_ID e.2))).
        rewrite <-(map_map snd (λ x, at_key _ (lis_ID x))), enumerate_snd. eapply assigned_distinct; [exact fresh|tauto|apply all_drawn].
    + eapply (stored_keys_distinct _ _ (λ l, PairKey (at_key _ (lil_IssueID l)) (at_key _ (lil_LabelID l))));
        [apply stored_rows|row_of_table|]. apply (NoDup_map_finer (λ l, (lil_IssueID l, lil_LabelID l))); [apply (core_links_once d Hc)|].
      intros x y [Hxi Hxl]%(core_links d Hc) [Hyi Hyl]%(core_links d Hc) [= Hi Hl].
      apply (assigned_inj generate lis_ID (ldo_Issues d)) in Hi as ->; [|tauto || apply all_drawn..].
      apply (assigned_inj generate lla_ID (ldo_Labels d)) in Hl as ->; [done|tauto || apply all_drawn..].
    + keyed lre_ID.
    + keyed lco_ID.
    + keyed lde_ID.
    + keyed lat_ID.
    + keyed lno_ID.
    + keyed lar_ID.
    + eapply (stored_keys_distinct _ _ (λ entry : Z * LogicalEvent, NumberKey entry.1)); [apply stored_rows| |].
      * intros x columns Hrow. unfold numberedEventRow, eventRow in Hrow. by inv_ok.
      * rewrite <-(map_map fst NumberKey). by apply NoDup_fmap_2; [intros ? ? [=]|].
    + keyed lrt_ID.
    + keyed lrr_ID.
    + keyed lro_ID.
    + keyed lrs_ID.
    + keyed lwp_ID.
    + eapply (stored_keys_distinct _ _ (λ s, IdKey (at_key _ (las_AttemptID s)))); [apply stored_rows|row_of_table|].
      apply (NoDup_map_finer las_AttemptID); [apply (rev_attempt_snapshots_once _ _ _ Hr)|]. intros x y Hx Hy [= He].
      destruct (rev_attempt_snapshots _ _ _ Hr x Hx) as (? & Hxa%refers_with_in & _).
      destruct (rev_attempt_snapshots _ _ _ Hr y Hy) as (? & Hya%refers_with_in & _).
      apply (assigned_inj generate lat_ID (ldo_Attempts d)) in He; [done|tauto || apply all_drawn..].
    + keyed lrt_ID.
    + keyed lge_ID.
    + keyed lra_ID.
  - assert (keys (table_in db table) = []) as ->; [|constructor]. apply elem_of_nil_inv. intros [t i] (row & Hrow & Hk)%list_elem_of_omap.
    apply Ht. apply elem_of_table_rows in Hrow as [_ <-]. by eapply keyed_row.
Qed.

(** *** The rows read back *)

Context {UL : ULIDLaws}.
Hypothesis strict_ids : generates_ulids generate.

Lemma strict_in {A} (id : A → string) items m x : assigned generate id items m → x ∈ ids id items → ids_ParseStrict (at_key m x) = true.
Proof. intros Has. by apply (assigned_strict generate id items m strict_ids Has). Qed.
Lemma own_id {A} (id : A → string) items x : x ∈ items → id x ∈ ids id items.
Proof. intros Hx. apply elem_of_ids, elem_of_map_id. by exists x. Qed.

Lemma keys_strict key : key ∈ keys (db_Rows db) → strict_key key.
Proof.
  destruct closed_document as (_ & _ & Hc & Hr). intros (columns & Hin & Hk)%list_elem_of_omap.
  destruct columns; cbn [row_key] in Hk; try discriminate Hk; injection Hk as <-; unfold strict_key; cbn [snd]; try done.
  - record x Hx im_labels. eapply strict_in; [apply all_drawn|by apply own_id].
  - destruct (record_of _ _ _ Hin (im_issues _ _ _ _ _ _ _ stored_rows)) as ([i x] & Hx & Hrow). unfold issueRow in Hrow. inv_ok.
    eapply strict_in; [apply all_drawn|]. apply (own_id lis_ID). rewrite <-(enumerate_snd (ldo_Issues d)).
    by apply (list_elem_of_fmap_2' snd _ (i, x) x).
  - record x Hx im_relations. unfold CanonicalRelationEndpoints in *. repeat case_match; simplify_eq;
      (eapply strict_in; [apply all_drawn|by apply own_id]).
  - record x Hx im_comments. eapply strict_in; [apply all_drawn|by apply own_id].
  - record x Hx im_decisions. eapply strict_in; [apply all_drawn|by apply own_id].
  - record x Hx im_attempts. eapply strict_in; [apply all_drawn|by apply own_id].
  - record x Hx im_notes. eapply strict_in; [apply all_drawn|by apply own_id].
  - record x Hx im_artifacts. eapply strict_in; [apply all_drawn|by apply own_id].
  - record x Hx im_targets. eapply strict_in; [apply all_drawn|by apply own_id].
  - record x Hx im_requests. eapply strict_in; [apply all_drawn|by apply own_id].
  - record x Hx im_outcomes. eapply strict_in; [apply all_drawn|by apply own_id].
  - record x Hx im_reservations. eapply strict_in; [apply all_drawn|by apply own_id].
  - record x Hx im_policies. eapply strict_in; [apply all_drawn|by apply own_id].
  - record x Hx im_attempt_snapshots. destruct (rev_attempt_snapshots _ _ _ Hr x Hx) as (issueID & Ha%refers_with_in & _).
    by eapply strict_in; [apply all_drawn|].
  - record x Hx im_target_snapshots. eapply strict_in; [apply all_drawn|by apply own_id].
  - record x Hx im_evidence. eapply strict_in; [apply all_drawn|by apply own_id].
  - record x Hx im_approvals. eapply strict_in; [apply all_drawn|by apply own_id].
Qed.

Lemma rows_strict : Forall strict_row (db_Rows db).
Proof.
  apply Forall_forall. intros row Hin. apply Forall_app. split.
  - destruct (row_key row) as [key|] eqn:Hk; [|constructor]. apply Forall_singleton, keys_strict, list_elem_of_omap. by exists row.
  - apply Forall_forall. intros reference Href. apply keys_strict. by eapply references_hold.
Qed.
Lemma table_strict table : Forall strict_row (table_in db table).
Proof.
  pose proof rows_strict as Hs. rewrite Forall_forall in Hs |- *. intros row [Hin _]%elem_of_table_rows. by apply Hs.
Qed.

(** Every table read back. *)
Ltac read_table lemma := eapply stored_restored; [apply stored_rows|apply table_strict|]; cbn beta; intros x columns Hx Hrow Hs; by eapply lemma.

Lemma issue_numbers_from {A} (l : list A) : ∀ from,
  map (λ e : Z * A, Some (next + e.1)%Z) (imap (λ i x, (Z.of_nat (from + i), x)) l) = map Some (seqZ (next + Z.of_nat from) (count l)).
Proof.
  unfold count. induction l as [|x l IH]; intros from; [done|]. cbn [length]. rewrite Nat2Z.inj_succ, seqZ_cons by lia.
  cbn [imap map fst]. rewrite Nat.add_0_r. f_equal. rewrite Z.pred_succ. specialize (IH (S from)).
  replace (Z.succ (next + Z.of_nat from)) with (next + Z.of_nat (S from))%Z by lia. rewrite <-IH. f_equal.
  apply imap_ext. intros k y _. cbn. do 2 f_equal. lia.
Qed.

Lemma import_restored : restored dest d reservations gates next numbers db.
Proof.
  destruct closed_document as (_ & _ & Hc & _).
  destruct (assigned_strict generate lar_ID _ _ strict_ids (as_artifacts _ _ _ _ _ all_drawn)) as [Hart _].
  constructor; try first
  [ read_table label_restored | read_table issueLabel_restored | read_table relation_restored | read_table comment_restored
  | read_table decision_restored | read_table attempt_restored | read_table attemptNote_restored | read_table reviewTarget_restored
  | read_table reviewRequest_restored | read_table reviewOutcome_restored | read_table policy_restored
  | read_table attemptSnapshot_restored | read_table targetSnapshot_restored | read_table evidence_restored
  | read_table approval_restored ].
  - pose proof (im_issues _ _ _ _ _ _ _ stored_rows) as Hrows.
    rewrite <-(enumerate_snd (ldo_Issues d)), Forall2_fmap_l. eapply stored_restored; [exact Hrows|apply table_strict|].
    intros [i x] columns Hx Hrow Hs. eapply issue_restored; [exact Hrow|exact Hs|]. intros p Hp.
    assert (Hxi : x ∈ ldo_Issues d) by (rewrite <-(enumerate_snd (ldo_Issues d)); by apply (list_elem_of_fmap_2' snd _ (i, x) x)).
    destruct (core_parents d Hc x Hxi p Hp) as (_ & Href%refers_with_in).
    destruct (as_issues _ _ _ _ _ all_drawn) as (g & g' & Has). apply elem_of_dom. by rewrite (assigns_dom _ _ _ _ _ Has).
  - pose proof (im_issues _ _ _ _ _ _ _ stored_rows) as Hrows.
    pose proof (issue_numbers_from (ldo_Issues d) 0) as Hnum. rewrite Z.add_0_r in Hnum. rewrite <-Hnum.
    change (imap (λ i x, (Z.of_nat (0 + i), x)) (ldo_Issues d)) with (enumerate (ldo_Issues d)).
    induction Hrows as [|[i x] columns items rows Hx _ IH]; [done|]. cbn [map]. rewrite IH. f_equal.
    unfold issueRow in Hx. by inv_ok.
  - eapply stored_restored; [apply stored_rows|apply table_strict|]. intros x columns Hx Hrow Hs.
    eapply artifact_restored; [done..|]. by apply (core_artifacts d Hc).
  - eapply stored_restored; [apply stored_rows|apply table_strict|]. intros x columns Hx Hrow Hs Hj.
    pose proof (core_events d Hc _ (document_events x Hx)) as Hev. eapply event_restored; [exact Hrow|exact Hs|exact Hev|].
    destruct (ReviewEventType_Valid (lev_EventType x.2)) eqn:Hreview; [by apply Hj|].
    unfold restoredPayload. rewrite Hreview. apply Hev.
  - eapply stored_restored; [apply stored_rows|apply table_strict|]. intros x columns Hx Hrow Hs Hj. by eapply reservation_restored.
  - eapply stored_restored; [apply stored_rows|apply table_strict|]. intros x columns Hx Hrow Hs id. by apply policyEvent_restored.
  - eapply stored_restored; [apply stored_rows|apply table_strict|]. intros x columns Hx Hrow Hs id. by apply evidenceEvent_restored.
Qed.
End referential.

(** ** Positions *)

Lemma numbered_snd {A} (l : list A) : ∀ from, map snd (ids_numbered from l) = l.
Proof. induction l as [|x l IH]; intros from; [done|]. cbn. by rewrite IH. Qed.
Lemma numbered_from {A} (l : list A) : ∀ from entry, entry ∈ ids_numbered from l → (from <= entry.1)%Z.
Proof.
  induction l as [|x l IH]; intros from entry; cbn [ids_numbered]; [by intros ?%not_elem_of_nil|].
  intros [->|Hin%IH]%elem_of_cons; cbn; lia.
Qed.
Lemma numbered_NoDup {A} (l : list A) : ∀ from, NoDup (map fst (ids_numbered from l)).
Proof.
  induction l as [|x l IH]; intros from; cbn; constructor; [|apply IH]. intros (entry & He & Hin%numbered_from)%list_elem_of_fmap. lia.
Qed.
(** Later identifiers for later sources. *)
Lemma numbered_sorted events : StronglySorted (λ a b, (lev_SourceID a <= lev_SourceID b)%Z) events → ∀ from a b,
  a ∈ ids_numbered from events → b ∈ ids_numbered from events → (lev_SourceID a.2 < lev_SourceID b.2)%Z → (a.1 < b.1)%Z.
Proof.
  induction 1 as [|e events _ IH Hle]; intros from a b; cbn [ids_numbered]; [by intros ?%not_elem_of_nil|].
  assert (Hlater : ∀ entry, entry ∈ ids_numbered (from + 1) events → (lev_SourceID e <= lev_SourceID entry.2)%Z).
  { intros entry Hin. rewrite Forall_forall in Hle. apply Hle. rewrite <-(numbered_snd events (from + 1)).
    by apply list_elem_of_fmap_2. }
  intros [->|Ha]%elem_of_cons [->|Hb]%elem_of_cons; cbn [fst snd].
  - lia.
  - intros _. apply numbered_from in Hb. lia.
  - specialize (Hlater a Ha). lia.
  - by apply (IH (from + 1)%Z).
Qed.
Lemma events_sorted `{SliceSortLaws} events : StronglySorted (λ a b, (lev_SourceID a <= lev_SourceID b)%Z) (sort_Slice eventSourceLess events).
Proof.
  assert (Hle : ∀ a b, not_less eventSourceLess a b ↔ (lev_SourceID a <= lev_SourceID b)%Z)
    by (intros a b; unfold not_less, eventSourceLess; by rewrite Z.ltb_ge).
  assert (Hs : StronglySorted (not_less eventSourceLess) (sort_Slice eventSourceLess events)).
  { apply sort_Slice_sorted; [|intros a b c; rewrite !Hle; lia]. unfold eventSourceLess. intros a b. rewrite Z.ltb_lt, Z.ltb_ge. lia. }
  induction Hs as [|e l _ IH Hl]; constructor; [done|]. eapply Forall_impl; [exact Hl|]. intros x. by rewrite Hle.
Qed.

Lemma replayed_documented `{SliceSortLaws} db d entry : entry ∈ replayed_events db d → entry.2 ∈ ldo_Events d.
Proof.
  intros Hin. rewrite <-(sort_Slice_Permutation eventSourceLess (ldo_Events d)). rewrite <-(numbered_snd _ (db_LastEventID db + 1)).
  by apply list_elem_of_fmap_2.
Qed.
Lemma timeColumn_instant `{TimeErrors} field value column : timeColumn field value = Ok column →
  ∃ t, parseStorageTime value = Some t ∧ column = formatStorageTime t.
Proof.
  unfold timeColumn, parseLogicalProjectTimestamp. intros (t & Ht & [= <-])%result_bind_Ok.
  destruct (parseStorageTime value); [injection Ht as ->; by exists t|done].
Qed.

(** A position of the destination's log that stands for [cursor], a position of
    the source's: the same events come after it. *)
Definition same_position (numbers : list (Z * LogicalEvent)) (cursor position : Z) : Prop :=
  ∀ entry, entry ∈ numbers → (lev_SourceID entry.2 <= cursor ↔ entry.1 <= position)%Z.

Lemma Remap_same_position `{SliceSortLaws} events last cursor : (0 <= last)%Z →
  let numbers := ids_numbered (last + 1) (sort_Slice eventSourceLess events) in
  same_position numbers cursor (Remap (NewLogicalEventCursorMapping (map cursorEntry numbers)) cursor).
Proof.
  intros Hlast numbers entry Hin. apply (positions_kept (map cursorEntry numbers) cursor (cursorEntry entry)).
  - intros a b (x & -> & Hx)%list_elem_of_fmap (y & -> & Hy)%list_elem_of_fmap. by apply (numbered_sorted _ (events_sorted events) (last + 1)).
  - intros a (x & -> & Hx)%list_elem_of_fmap. apply numbered_from in Hx. cbn. lia.
  - by apply list_elem_of_fmap_2.
Qed.

(** The position in a row. *)
Definition position_of (row : ImportedRow) : option Z :=
  match row with
  | AttemptColumns _ _ _ _ _ _ position _ _ _ _ _ _ _ _ _ _ => Some position
  | ReviewTargetColumns _ _ _ position _ _ _ => Some position
  | ReviewRequestColumns _ _ _ _ position _ _ _ _ _ _ => Some position
  | ApprovalColumns _ _ _ _ _ _ _ position _ _ => Some position
  | _ => None
  end.
(** Row by row, positions stand for those of the records. *)
Definition positions_of {A} (numbers : list (Z * LogicalEvent)) (cursor : A → Z) (items : list A) (rows : list ImportedRow) : Prop :=
  Forall2 (λ x row, ∃ position, position_of row = Some position ∧ same_position numbers (cursor x) position) items rows.
Lemma stored_positions {A} numbers (cursor : A → Z) (row : A → result ImportedRow) (move : Z → Z) items rows :
  stored row items rows → (∀ x columns, row x = Ok columns → position_of columns = Some (move (cursor x))) →
  (∀ n, same_position numbers n (move n)) → positions_of numbers cursor items rows.
Proof.
  intros Hs Hrow Hmove. unfold positions_of. induction Hs as [|x columns items rows Hx _ IH]; constructor; [|done].
  exists (move (cursor x)). split; [by apply Hrow|done].
Qed.

(** ** Properties *)

Section properties.
Context `{UnicodeTables, ULID, TimeErrors, SQLiteEngine, JSONErrors, URLParser, UnicodeCase, SliceSortLaws}.
Context {G : Type} (generate : G → result (string * G)) (generator_fresh : never_repeats generate).
Context {UL : ULIDLaws} (generator_ulids : generates_ulids generate).

(** C24. Everything or nothing.  An import that reports an error, from the
    parser to the commit, leaves the database as it was, whatever the refused
    transaction had done; one into a project that has content answers with the
    conflict and writes nothing.  Otherwise the project has the document's name,
    instructions and times and its next issue number moved by the number of
    issues, no table but those of a document changes, the counts reported are
    those of the document, and what an export reads back from each table is the
    document's records, in order, one per row and every field in its place: the
    identifiers and references renamed by the identifiers drawn, times as the
    same instants, positions moved, issues numbered from the project's next
    number.  What does not come back is named in [restoredIssue] to
    [restoredApproval]: when an issue was closed, who wrote a comment, and the
    difference between an absent list and an empty one.  The generator draws
    identifiers that are ULIDs and never the same twice. *)
Theorem import_all_or_nothing document g db r db' :
  ImportProject generate document g db = (r, db') →
  match r with
  | Err _ => db' = db
  | Ok result =>
      (hasLogicalProjectImportDestinationContent db = true ∧ db' = db ∧ apr_Conflicts result = [destinationConflict]) ∨
      (hasLogicalProjectImportDestinationContent db = false ∧ apr_Conflicts result = [] ∧ apr_LatestEventID result = latestIssueEventID db' ∧
       (∀ table, table ∉ importedTables → table_in db' table = table_in db table) ∧
       ∃ plan reservations gates project created updated, import_of generate document g db plan reservations gates project ∧
         apr_Counts result = importCounts (ip_Document plan) reservations gates ∧
         parseStorageTime (lpr_CreatedAt (ldo_Project (ip_Document plan))) = Some created ∧
         parseStorageTime (lpr_UpdatedAt (ldo_Project (ip_Document plan))) = Some updated ∧
         db_Project db' = Some (mkProjectColumns (lpr_Name (ldo_Project (ip_Document plan)))
           (lpr_Instructions (ldo_Project (ip_Document plan))) (formatStorageTime created) (formatStorageTime updated)
           (pcl_NextIssueNumber project + count (ldo_Issues (ip_Document plan)))) ∧
         restored (ip_DestinationIDs plan) (ip_Document plan) reservations gates (pcl_NextIssueNumber project)
           (replayed_events db (ip_Document plan)) db')
  end.
Proof.
  intros Hi. destruct r as [result|e]; [|by eapply ImportProject_error].
  destruct (ImportProject_outcome generate _ _ _ _ _ generator_fresh Hi) as [Hc|(Hno & Hcf & Hev & plan & reservations & gates & project &
    created & updated & Hof & Hcounts & Hclosed & Has & Hcr & Hup & Hp & Him & Hrest)]; [by left|right].
  apply timeColumn_instant in Hcr as (c & Hc & ->). apply timeColumn_instant in Hup as (u & Hu & ->).
  split_and!; [done..|]. exists plan, reservations, gates, project, c, u. split_and!; [done..|].
  eapply (import_restored generate); try eassumption. intros entry. apply replayed_documented.
Qed.

(** C22. An import leaves no dangling reference.  After an import without
    conflict, every foreign key of every row names a row that is there, so the
    foreign keys deferred for the transaction hold at its commit, and no two
    rows share a primary key, if the generator of identifiers does not repeat
    itself. *)
Theorem import_is_referential document g db r db' :
  ImportProject generate document g db = (Ok r, db') → apr_Conflicts r = [] →
  NoDup (keys (db_Rows db')) ∧
  ∀ row, row ∈ db_Rows db' → ∀ reference, reference ∈ row_references row → reference ∈ keys (db_Rows db').
Proof.
  intros Hi Hnone. destruct (ImportProject_outcome generate _ _ _ _ _ generator_fresh Hi) as [(_ & _ & Hc)|(_ & _ & _ & plan & reservations &
    gates & project & created & updated & Hof & _ & Hclosed & Has & _ & _ & _ & Him & _)]; [by rewrite Hc in Hnone|].
  pose proof (replayed_documented db (ip_Document plan)) as Hevents.
  split; [by eapply keys_distinct; try apply numbered_NoDup|]. intros row Hrow reference. by eapply references_hold.
Qed.

(** C23. Positions keep their meaning.  An import gives the events of a document
    new identifiers, each to one event, above all that were given before; and
    for every attempt, review target, review request and approval the stored
    position of the event log is one that the same events come after as after
    its position in the document, so "has anything happened since" is answered
    as in the source, for positions of events the document lacks too. *)
Theorem import_positions_kept document g db r db' :
  ImportProject generate document g db = (Ok r, db') → apr_Conflicts r = [] → (0 <= db_LastEventID db)%Z →
  ∃ plan reservations gates project numbers, import_of generate document g db plan reservations gates project ∧
    let d := ip_Document plan in
    map snd numbers ≡ₚ ldo_Events d ∧ NoDup (map fst numbers) ∧ (∀ entry, entry ∈ numbers → (db_LastEventID db < entry.1)%Z) ∧
    stored (λ entry, eventRow (ip_DestinationIDs plan) entry.1 entry.2) numbers (table_in db' "issue_events") ∧
    positions_of numbers lat_ContextEventIDAtStart (ldo_Attempts d) (table_in db' "work_attempts") ∧
    positions_of numbers lrt_LatestEventID (ldo_ReviewTargets d) (table_in db' "review_targets") ∧
    positions_of numbers lrr_TargetEventID (ldo_ReviewRequests d) (table_in db' "review_requests") ∧
    positions_of numbers lra_TargetEventID (lgx_ReviewApprovals gates) (table_in db' "review_approvals").
Proof.
  intros Hi Hnone Hlast. destruct (ImportProject_outcome generate _ _ _ _ _ generator_fresh Hi) as [(_ & _ & Hc)|(_ & _ & _ & plan & reservations &
    gates & project & created & updated & Hof & _ & _ & _ & _ & _ & _ & Him & _)]; [by rewrite Hc in Hnone|].
  exists plan, reservations, gates, project, (replayed_events db (ip_Document plan)). split; [done|]. cbv zeta.
  pose proof (λ n, Remap_same_position (ldo_Events (ip_Document plan)) (db_LastEventID db) n Hlast) as Hsame. cbv zeta in Hsame.
  split_and!; [unfold replayed_events; rewrite numbered_snd; apply sort_Slice_Permutation|apply numbered_NoDup| |apply Him|..].
  - intros entry Hin%numbered_from. lia.
  - eapply stored_positions; [apply Him| |exact Hsame]. intros x columns Hr. unfold attemptRow in Hr. by inv_ok.
  - eapply stored_positions; [apply Him| |exact Hsame]. intros x columns Hr. unfold reviewTargetRow in Hr. by inv_ok.
  - eapply stored_positions; [apply Him| |exact Hsame]. intros x columns Hr. unfold reviewRequestRow in Hr. by inv_ok.
  - eapply stored_positions; [apply Him| |exact Hsame]. intros x columns Hr. unfold approvalRow in Hr. by inv_ok.
Qed.
End properties.

(** ** A sample import *)

#[export] Instance sample_time_errors : TimeErrors := {| time_error := λ value, "parsing time " +:+ value |}.
(** A sort that happens to be stable. *)
#[export] Instance sample_sort : SliceSort := @stable_sort.
#[export] Instance sample_sort_laws : SliceSortLaws.
Proof. split; intros; [apply stable_sort_Permutation|by apply stable_sort_sorted]. Qed.
(** An engine that enforces primary keys at once and foreign keys at the
    commit. *)
#[export] Instance sample_engine : SQLiteEngine := {|
  refuses := λ db statement,
    match statement with
    | InsertRow row =>
        match row_key row with
        | Some key => if bool_decide (key ∈ keys (db_Rows db)) then Some (sqliteConstraint "UNIQUE constraint failed") else None
        | None => None
        end
    | _ => None
    end;
  refuses_commit := λ db,
    if existsb (λ row, existsb (λ key, negb (bool_decide (key ∈ keys (db_Rows db)))) (row_references row)) (db_Rows db)
    then Some (sqliteConstraint "FOREIGN KEY constraint failed") else None;
  cut_short := λ db, mkDatabase None (db_Rows db) (db_LastEventID db);
|}.

(** Identifiers of 26 digits, counted up while they last. *)
Definition digits_generator (n : N) : result (string * N) :=
  if (10 ^ 25 <=? Z.of_N n)%Z then Err (NewError "" "no identifier is left" false [])
  else Ok ("0" +:+ zero_pad 25 (Z.of_N n), (n + 1)%N).
Lemma digits_Ok n id n' : digits_generator n = Ok (id, n') →
  (0 <= Z.of_N n < 10 ^ 25)%Z ∧ id = "0" +:+ zero_pad 25 (Z.of_N n) ∧ n' = (n + 1)%N.
Proof. unfold digits_generator. destruct (Z.leb_spec (10 ^ 25) (Z.of_N n)); [done|]. intros [= <- <-]. split_and!; [lia..|done|done]. Qed.
Lemma digits_draws n : ∀ k drawn k', draws digits_generator n k = Ok (drawn, k') →
  NoDup drawn ∧ ∀ x, x ∈ drawn → ∃ m, (k ≤ m)%N ∧ x = "0" +:+ zero_pad 25 (Z.of_N m).
Proof.
  induction n as [|n IH]; intros k drawn k'; cbn [draws].
  { intros [= <- _]. split; [constructor|by intros x ?%not_elem_of_nil]. }
  intros ([first k1] & (_ & -> & ->)%digits_Ok & Hd)%result_bind_Ok.
  apply result_bind_Ok in Hd as ([rest k2] & Hrest & [= <- _]). cbn [fst snd] in *. destruct (IH _ _ _ Hrest) as [Hnd Hin]. split.
  - constructor; [|done]. intros (m & Hm & Heq)%Hin. rewrite !append_cons, !append_nil_l in Heq. injection Heq as Heq.
    apply (f_equal (parse_digits 0)) in Heq. rewrite !zero_pad_parse in Heq by lia.
    assert (Z.of_N k = Z.of_N m) by congruence. lia.
  - intros x [->|(m & Hm & ->)%Hin]%elem_of_cons; [by exists k|]. exists m. split; [lia|done].
Qed.
Lemma digits_fresh : never_repeats digits_generator.
Proof. intros n g drawn g' Hd. by apply digits_draws in Hd as [Hnd _]. Qed.

Lemma digits_strict s : Forall (λ c, is_digit c = true) (bytes s) → String.length s = 25 → ids_ParseStrict ("0" +:+ s) = true.
Proof.
  intros Hd Hl. unfold ids_ParseStrict. cbn [ulid_ParseStrict sample_ulid]. unfold sample_ParseStrict.
  assert (Hu : str_map upper_byte s = s).
  { revert Hd. clear Hl. induction s as [|c s IH]; [done|]. rewrite bytes_cons. intros [Hc Hs]%Forall_cons. cbn. rewrite (IH Hs). f_equal.
    unfold upper_byte. destruct (is_lower c) eqn:Hlow; [|done]. apply in_range_spec in Hlow, Hc. lia. }
  assert (Hc : str_exists (λ c, negb (crockford c)) s = false).
  { revert Hd. clear Hl Hu. induction s as [|c s IH]; [done|]. rewrite bytes_cons. intros [Hc Hs]%Forall_cons. cbn. rewrite (IH Hs), orb_false_r.
    unfold crockford. rewrite Hc. apply in_range_spec in Hc. cbn. by rewrite !(proj2 (Z.eqb_neq _ _)) by lia. }
  rewrite append_cons, append_nil_l. cbn [str_map]. rewrite Hu. change (upper_byte "0") with "0"%char.
  assert ((len (String "0" s) =? 26)%Z = true) as -> by (apply Z.eqb_eq; unfold len; cbn; lia).
  cbn [str_exists]. rewrite Hc. cbn. apply eqb_string_refl.
Qed.
Lemma digits_ulids : generates_ulids digits_generator.
Proof.
  intros n id n' (Hn & -> & _)%digits_Ok. destruct (field_digits 25 (Z.of_N n)) as (Hl & Hd & _); [exact Hn|lia|].
  apply digits_strict; [done|]. by rewrite <-bytes_length.
Qed.

Definition empty_project : Database := mkDatabase (Some (mkProjectColumns None None "" "" 1)) [] 40.
Definition sample_import : result LogicalProjectImportApplyResult * Database :=
  Eval vm_compute in ImportProject digits_generator sample_document 0%N empty_project.
Definition sample_result : LogicalProjectImportApplyResult :=
  match sample_import.1 with Ok r => r | Err _ => mkApplyResult (importCounts LogicalProjectDocument_zero [] LogicalGatesExtension_zero) [] 0 end.
Lemma sample_imports : ImportProject digits_generator sample_document 0%N empty_project = (Ok sample_result, sample_import.2).
Proof. vm_compute. reflexivity. Qed.

(** The event the review request was made by names it by its new identifier,
    and the target that had seen no event keeps that position. *)
Example sample_import_events :
  omap (λ row, match row with EventColumns id _ type _ payload _ _ => Some (id, type, payload) | _ => None end)
    (table_in sample_import.2 "issue_events") =
    [(41%Z, "issue_created", "{ }"); (42%Z, "review_requested", json_text ("{'request_id':'" +:+ zero_pad 26 5 +:+ "'}"))] ∧
  omap position_of (table_in sample_import.2 "review_targets") = [0%Z] ∧ apr_LatestEventID sample_result = 42%Z.
Proof. vm_compute. split_and!; reflexivity. Qed.
(** A second import into the same project is refused. *)
Example second_import_refused :
  match (ImportProject digits_generator sample_document 100%N sample_import.2).1 with
  | Ok r => map icf_Code (apr_Conflicts r) = ["empty_destination_required"]
  | Err _ => False
  end.
Proof. vm_compute. reflexivity. Qed.

Lemma import_all_or_nothing_witness :
  never_repeats digits_generator ∧ generates_ulids digits_generator ∧
  ∃ plan reservations gates project, import_of digits_generator sample_document 0%N empty_project plan reservations gates project ∧
    restored (ip_DestinationIDs plan) (ip_Document plan) reservations gates (pcl_NextIssueNumber project)
      (replayed_events empty_project (ip_Document plan)) sample_import.2.
Proof.
  split; [exact digits_fresh|]. split; [exact digits_ulids|].
  destruct (import_all_or_nothing digits_generator digits_fresh digits_ulids _ _ _ _ _ sample_imports) as
    [(Hc & _)|(_ & _ & _ & _ & plan & reservations & gates & project & created & updated & Hof & _ & _ & _ & _ & Him)];
    [discriminate Hc|]. exists plan, reservations, gates, project. exact (conj Hof Him).
Defined.

Lemma import_is_referential_witness : NoDup (keys (db_Rows sample_import.2)).
Proof.
  refine (proj1 (import_is_referential digits_generator digits_fresh _ _ _ _ _ sample_imports _)). vm_compute. reflexivity.
Defined.

Lemma import_positions_kept_witness :
  ∃ plan reservations gates project numbers, import_of digits_generator sample_document 0%N empty_project plan reservations gates project ∧
    positions_of numbers lrt_LatestEventID (ldo_ReviewTargets (ip_Document plan)) (table_in sample_import.2 "review_targets").
Proof.
  destruct (import_positions_kept digits_generator digits_fresh _ _ _ _ _ sample_imports) as
    (plan & reservations & gates & project & numbers & Hof & _ & _ & _ & _ & _ & Ht & _); [vm_compute; reflexivity|discriminate|].
  exists plan, reservations, gates, project, numbers. exact (conj Hof Ht).
Defined.
